(* ===== verification/_CoqProject ===== *)
-Q . S2P
Prelude.v
Provider.v
Json.v
LocalDB.v
LocalDBFacts.v
GoText.v
Config.v
ProxyConfig.v
ProxyConfigFacts.v
NatValidation.v
SubnetFacts.v
Validation.v
ValidationFacts.v
Args.v
ArgsFacts.v
Samples.v
World.v
Instances.v
InstancesFacts.v
Reconciler.v
ReconcilerFacts.v
GC.v
GCFacts.v
Certificates.v
Registration.v
RegistrationFacts.v
Document.v
FileStore.v
ContentTags.v
TenantState.v
TenantStateFacts.v
TenantStateRuns.v
OperatorApi.v
OperatorApiFacts.v
ManagedNat.v
ManagedNatFacts.v
AgentStreams.v
AgentStreamsFacts.v
Witnesses.v
RegistrationWitnesses.v
Loader.v
LoaderFacts.v
LoaderValid.v
GroupApi.v
GroupApiFacts.v
GroupWitnesses.v
TunnelControl.v
TunnelControlFacts.v
TunnelSupervisor.v
TunnelSupervisorFacts.v
Cutover.v
CutoverFacts.v
CutoverSafety.v
TenantCutover.v
ValidationWitnesses.v
OperatorStreams.v
Process.v
ProxyPath.v
ProxyPathFacts.v
Operator.v
Machines.v
MachinesFacts.v
Pools.v
PoolsFacts.v
SyncManager.v
SyncFacts.v
Renewal.v
Disk.v
DiskFacts.v
AgentFiles.v
AgentFilesFacts.v
AgentPatches.v
SleepController.v
SleepControllerFacts.v
SleepControllerSafety.v
HealthReport.v
HealthReportFacts.v
CutoverWitnesses.v
AgentWitnesses.v
