(* ===== verification/Prelude.v ===== *)
(** * Nstance: verification development

    Nstance keeps groups of virtual machines at their configured size.  A server runs
    one leader per shard; the leader creates, replaces and deletes instances through a
    cloud provider, keeps a SQLite cache of them, stores a record of each in object
    storage, and puts whole tenants to sleep and wakes them.  An agent runs on every
    instance; a Kubernetes operator turns cluster objects into groups and instances of
    the shards; a proxy holds the connections of sleeping tenants.  All are Go programs
    under [src].  This library models their own logic and proves the properties they
    rest on.

    ** The program and its files

    Shared:
    - [Prelude.v] (this file): Go errors and [errors.Is], results, the state monad
      [M], Hoare-style predicates over it, SQL tables as lists of rows, loops that stop
      at the first error, and the lemmas the components share.
    - [Json.v], [GoText.v]: decoded JSON values, and the functions of [strconv],
      [strings], [net], [net/netip] and [path] that the code uses.
    - [Process.v]: computations of a process that may fail or die at any call.

    Server, configuration ([internal/server/config]):
    - [Provider.v]: the provider's vocabulary ([infra/provider/types.go]).
    - [Config.v]: settings, the merge of static and dynamic groups, subnet pools,
      identifier validation ([types.go], [groups.go], [subnets.go],
      [internal/identifiers]).
    - [ProxyConfig.v], [ProxyConfigFacts.v]: the listeners of the proxy, derived from
      load balancers and groups ([proxy.go]).
    - [NatValidation.v], [SubnetFacts.v], [Validation.v], [ValidationFacts.v]: defaults,
      validation and advertised addresses ([nat.go], [subnets.go], [validation.go],
      [tunnels.go], [network.go]).
    - [Args.v], [ArgsFacts.v]: the nested merge of arguments over a store of shared
      maps ([deepMergeArgs]).
    - [Loader.v], [LoaderFacts.v], [LoaderValid.v]: the loader ([loader.go], [hash.go]):
      configuration and dynamic groups in memory, on disk and in the shared object, and
      the hashes of the effective groups.

    Server, instances ([internal/server]):
    - [LocalDB.v], [LocalDBFacts.v]: the SQLite cache ([localdb/*.go]), one definition
      per method; primary keys, nonces and foreign keys are checked as SQLite does.
    - [World.v]: the state the lifecycle components share (cache, stored records, trace
      of external actions) and their environment.
    - [Instances.v], [InstancesFacts.v]: the instance manager ([instances/*.go]):
      creation, deletion behind the load-balancer barrier, registration at load
      balancers, subnet placement, rebuilding the cache of a new leader.
    - [Reconciler.v], [ReconcilerFacts.v]: the event loop that scales groups, replaces
      and drains instances, retries and schedules ([reconciler/*.go]).  It reaches the
      instance manager through the interface the Go package declares, a type class with
      laws; [manager_laws] shows the modelled manager meets them.
    - [GC.v], [GCFacts.v]: the garbage collector ([gc/*.go]).
    - [ManagedNat.v], [ManagedNatFacts.v]: NAT instances ([nat/*.go]).

    Server, tenants:
    - [Document.v]: one JSON document in object storage, changed by compare-and-swap,
      under concurrent writers and failures ([storage/interface.go]).
    - [FileStore.v]: the file backend and scopes ([storage/file.go], [scoped.go]): every
      method is a program over system calls; a small rely-guarantee logic proves what
      all interleavings with failures and crashes keep.
    - [TenantState.v], [TenantStateFacts.v], [TenantStateRuns.v]: tenant sleep and wake
      ([tenantstate/manager.go]).
    - [Cutover.v], [CutoverFacts.v], [CutoverSafety.v]: moving a tenant's traffic
      ([tenantstate/cutover.go]); [TenantCutover.v] composes it with the manager.
    - [TunnelControl.v], [TunnelControlFacts.v]: the leader's end of the tunnel stream
      ([tunnelcontrol/controller.go]); [TunnelSupervisor.v], [TunnelSupervisorFacts.v]:
      the supervisor's end, with its runs and leases ([internal/tunnel/service.go]).
    - [ProxyPath.v], [ProxyPathFacts.v]: the proxy's routing, sockets and connections
      ([internal/proxy/*.go]), the publication of its configuration and the answer to a
      wake ([wake/*.go]).

    Server, clients:
    - [Certificates.v], [Registration.v], [RegistrationFacts.v]: client certificates,
      authentication, registration of agents and operators by signed nonce, renewal
      ([keys/ed25519.go], [pki/client.go], [api/auth.go], [api/registration/*.go],
      [pkg/nonce/nonce.go]).
    - [OperatorApi.v], [OperatorApiFacts.v]: an operator's calls on instances and on
      tenant sleep, and the activity tracker ([api/operator/*.go],
      [listeneractivity/tracker.go]); [GroupApi.v], [GroupApiFacts.v]: its calls on
      groups, configuration refresh and the groups stream; [OperatorStreams.v]: tenant
      status and the streams of drains and errors.
    - [AgentStreams.v], [AgentStreamsFacts.v]: delivery of file patches and key requests
      to agents by concurrent goroutines ([api/agent/queue.go], [files.go],
      [key_requests.go]); [HealthReport.v], [HealthReportFacts.v]: health reports and
      public keys ([health_report.go], [public_keys.go]).

    Agent:
    - [Disk.v], [DiskFacts.v]: identity, keys and nonce on disk ([internal/files],
      [internal/identity], [pkg/client/registration], [internal/agent/keygen]).
    - [AgentFiles.v], [AgentFilesFacts.v]: applying received files
      ([internal/agent/receiver], [pkg/client/agent/stream_files.go]); [AgentPatches.v]
      composes it with the server's [AgentStreams].
    - [Renewal.v]: the certificate renewal goroutine ([internal/renewal]), with its
      facts in a module.

    Operator ([internal/operator]):
    - [Operator.v], [Machines.v], [MachinesFacts.v]: machines, on-demand Pods and drains
      ([controller/nstancemachine_controller.go], [ondemandpod_controller.go],
      [drain/coordinator.go]).
    - [Pools.v], [PoolsFacts.v]: pools, shard groups and clusters
      ([nstancemachinepool_controller.go], [nstanceshardgroup_controller.go],
      [nstancecluster_controller.go]).
    - [SyncManager.v], [SyncFacts.v]: the cache of groups ([sync/manager.go]).
    - [SleepController.v], [SleepControllerFacts.v], [SleepControllerSafety.v]: the
      sleep of a tenant over its shards ([sleep_controller.go]).

    Concrete environments and runs, on which the hypotheses of the theorems hold:
    [Samples.v], [ContentTags.v], [Witnesses.v], the other [*Witnesses.v] files, and the
    modules [*Witnesses] at the end of some files of facts.

    How the parts call each other: the API registers agents and sleeps or wakes tenants;
    health reports and timers enqueue events; the reconciler and the garbage collector
    call the instance manager; the manager writes the cache and the stored records,
    calls the provider and asks the NAT manager to prepare subnets, and the reconciler
    asks it to replace failed NAT instances.  Both make the NAT manager create instances
    through the instance manager: [Instances.v] models these creations in the shared
    world, and takes from the environment what the NAT manager decided from its
    assignments, which [ManagedNat.v] models.  The tenant state
    decides whether instances may be created and targets registered, and drives the
    cutover, which drives load balancers and tunnels.  The loader gives all of them the
    configuration; the group calls change it, request reconciliation and tell connected
    operators, whose sync managers follow.  Proxy and agents talk to the server over
    streams.  Where two modelled parts meet, a theorem is about their composition: the
    reconciler over the manager's laws, [TenantCutover], [AgentPatches], the sync
    manager over the server's events, the proxy over the server's published listeners.

    ** How the code is represented

    A method is a total function in [M W A = W -> W * A], or in [X S A] of [Process.v]
    where the process may die, with the Go code's guards, early returns and error
    values; a method that holds a mutex throughout is one computation, and where
    goroutines interleave inside a method it is split at its critical sections
    ([AgentStreams.v], [TunnelSupervisor.v]) or other writers act between its steps
    ([Document.v], [TenantState.v], [Registration.v]).  Goroutine scheduling, leadership
    terms, timers and reachable states are step relations with [rtc]: of the reconciler,
    the database, the processes at a file store, the agent streams, the instance streams,
    both ends of the tunnel stream, the sync manager, and the publication to the proxy.

    What the code observes but does not control is an oracle indexed by the number of
    observations made so far, so it may change between any two steps: the clock, the
    provider, faults of the database and of storage ([Env]), other writers and entity
    tags ([DocEnv]), routes and metrics ([NatEnv]), tokens and other servers ([RegEnv]),
    uploads, disk and digests ([LoaderEnv]), streams ([GroupEnv]), load balancers,
    tunnels and dials ([CutoverEnv]), decoders ([HealthEnv]), the struct validator and
    [url.Parse] ([ValidatorEnv]), Kubernetes and the shards ([SleepEnv], [MachineEnv],
    [PoolEnv], [SyncEnv]), the agent's disk and libraries ([DiskEnv], [RenewEnv]),
    sockets ([ProxyEnv]) and what the wake handler sees ([WakeEnv]).  Theorems quantify
    over all of them; what they need of the outside is a law of a class ([DocLaws],
    [CryptoLaws], [InstanceManagerLaws], [StructLaws], [SleepLaws], [PoolLaws],
    [SyncLaws], [PemLaws], [RenewLaws]) or a hypothesis of the theorem, and holds in the
    witness.

    Times and durations are nanoseconds in [Z]; 64-bit wrap-around is written out
    ([wrap64]) where it can happen (retry delays, certificate lifetimes), the 64-bit
    generations of snapshots and revisions of intents wrap as they do in Go, 32-bit
    quantities are bounded by hypotheses or reduced ([int32] replicas, ports on the
    wire).  Go maps are [gmap]s, and [range] over a map draws its order from the
    environment; where the code shares maps ([Args.v]) they are references into a store.

    ** What the theorems show

    - Instances: no VM is requested without a record and a row that garbage collection
      finds; a VM is deleted only behind the load-balancer barrier; registration never
      races a deletion; the rebuilt cache is sound, up to records that could not be read.
    - Reconciler and garbage collector: groups other than managed-NAT ones stay within
      their size plus one and converge; nothing but NAT instances is created while a
      tenant sleeps; stale events are ignored; queue and retries are bounded; healthy
      instances are spared.
    - Configuration: the derived proxy listeners meet an order-free specification; in a
      validated configuration every static group resolves and tenants share nothing; the
      loader refines a table of groups with atomic updates, its readers see parts that
      belong together, and what it installs was validated; what the nested merge
      computes and which maps it changes.
    - Tenants: isolation of updates under concurrent writers, the sleep and wake round
      trip, what each transition has confirmed at the provider when it is recorded, that
      activity of statically sized groups is fresh, and that a cutover ends when its
      context does.
    - Tunnels: an intent that stays is delivered; at most one run per tunnel; no run
      outlives its lease.
    - Wake path: the proxy takes a validated configuration exactly when its frontends
      are distinct as addresses; it ends up with the listeners last published in every
      interleaving of fewer than 2^64 publications; a connection reaches only a
      freshly healthy instance of the tenant it woke, and every wake is answered once
      its context is done.
    - NAT: the invariant of the assignment document and when instances are deleted.
    - Registration: certificates speak for exactly the nonce's identity; nonces are
      bound to one key (operators) or used once (agents).
    - Calls and streams: a call or a health report reaches nothing of another tenant or
      instance; the events of group changes keep every view current; patches to agents
      are whole, no wake-up is lost, and delivery is always possible; every pending drain
      that a notification announces reaches its operator; a reported idle time holds for
      every instance of a statically sized group.
    - Agent: wherever it is killed, its nonce stays as it is until the certificate is
      stored; a kill between its two key files makes every later start fail; a
      patch takes effect file by file in order with its hash last; on a disk that works,
      generated files that pass validation arrive as they were; renewal is paced and ends.
    - Operator: an instance is deleted before its object goes; a drain is acknowledged
      when the node is empty; replicas add up over the shards; a generation is observed
      only when its shard took it; the cache follows the server through a refresh; shards
      that may sleep are recorded whatever dies, while nobody else edits the annotations
      and reads are current, and an undo completes.
    - File storage: conditional writes are atomic, and every object is whole.
    - Defects found: theorems of kind [error], and others named by the findings, state
      what the code does where it departs from its intent.

    ** Bounds

    Loops that poll take fuel and return [None] (a distinguished result, never a
    success) when it runs out, and for each there is a theorem that enough fuel gives a
    result: the pagination of a rebuild ([rebuild_terminates], the provider's progress),
    the cutover's polling ([cutover_ends], the end of its context), the renewal loop
    ([renewal_ends], the expiry of the certificate), the wait for an upstream
    ([WakeListener_returns], the end of its context).  For the drain of a node, whose
    operator may also die, more rounds than its context lasts change nothing
    ([wait_enough]).  The nested merge takes the depth of the maps.  Compare-and-swap
    loops make the source's number of attempts (4 for tenants, 8 for NAT), downloads the
    configured number.  Everything else is structural recursion.

    ** Not modelled

    JSON and JSONC as bytes, [url.Parse], the struct validator, PEM, X.509, ASN.1,
    tokens, cron expressions and digests are libraries and parameters with the laws
    their documentation gives; so are the Kubernetes API server and the election
    library. Provider, secret and image back ends and storage at S3 and Google are
    network I/O, answered by the environment. Request plumbing of the gRPC and HTTP
    servers, the programs' start-up and flags, the operator's leadership and
    connections, the agent's reconnection loops, relaying of bytes, the program in a
    tunnel Pod and the command-line tools are glue over these. Floating-point
    comparisons of NAT utilisation are parameters. The certificate authority's own
    keys and the rendering of userdata are parameters.
    Generated code is left out. *)

From Stdlib Require Export ZArith Lia.
From stdpp Require Export base tactics gmap strings list fin_maps sorting.

#[global] Open Scope Z_scope.

(** ** Errors

    Go errors are a tree: sentinel values, messages, [%w] wrapping and
    [errors.Join].  [errors.Is] looks for a sentinel anywhere in it. *)

Inductive err : Type :=
  | ErrNoRows                   (* sql.ErrNoRows *)
  | ErrConstraint               (* SQLite constraint violation *)
  | ErrExternal (code : Z)      (* any other failure of an external call *)
  | ErrNotFound                 (* storage.ErrNotFound *)
  | ErrPrecondition             (* storage.ErrPrecondition *)
  | ErrInstanceNotFound         (* provider.ErrInstanceNotFound *)
  | ErrTenantAsleep             (* reconciler.errTenantAsleep *)
  | ErrInstanceTenantMismatch   (* instances.ErrInstanceTenantMismatch *)
  | ErrSubnetDependencyCapacity (* instances.ErrSubnetDependencyCapacity *)
  | ErrPublicAddressesExhausted (* nat.ErrPublicAddressesExhausted *)
  | ErrInactive                 (* tenantstate.ErrInactive *)
  | ErrBusy                     (* tenantstate.ErrBusy *)
  | ErrSleepBlocked             (* operator.errSleepBlocked *)
  | ErrCanceled                 (* context.Canceled, context.DeadlineExceeded *)
  | ErrMsg (msg : string)               (* fmt.Errorf without %w, errors.New *)
  | ErrWrap (msg : string) (e : err)    (* fmt.Errorf("msg: %w", e) *)
  | ErrWrapPerm (e : err)               (* reconciler.PermanentError *)
  | ErrJoin (e1 e2 : err).              (* errors.Join, or two %w verbs *)

#[global] Instance err_eq_dec : EqDecision err.
Proof. solve_decision. Defined.

(** [errors.Is e target]. *)
Fixpoint err_is (e target : err) : bool :=
  bool_decide (e = target) ||
  match e with
  | ErrWrap _ e' | ErrWrapPerm e' => err_is e' target
  | ErrJoin e1 e2 => err_is e1 target || err_is e2 target
  | _ => false
  end.

(** [errors.Join]: nil on the empty list. *)
Definition join_errs (es : list err) : option err :=
  foldr (fun e acc => Some (match acc with None => e | Some e' => ErrJoin e e' end))
        None es.

(** Result of a Go call returning [(A, error)]. *)
Inductive res (A : Type) : Type :=
  | Ok (a : A)
  | Err (e : err).
Arguments Ok {A} a.
Arguments Err {A} e.

Definition is_ok {A} (r : res A) : bool := match r with Ok _ => true | Err _ => false end.

(** A call that returns only [error]. *)
Definition res_of_err (o : option err) : res unit :=
  match o with None => Ok tt | Some e => Err e end.

#[global] Instance res_ret : MRet res := @Ok.
#[global] Instance res_bind : MBind res :=
  fun A B f r => match r with Ok a => f a | Err e => Err e end.

(** [time.Second] and [time.Minute] in nanoseconds. *)
Definition second : Z := 1000000000.
Definition minute : Z := 60 * second.

(** Two's-complement wrap of 64-bit arithmetic ([int64], [time.Duration]). *)
Definition wrap64 (z : Z) : Z := (z + 2 ^ 63) `mod` 2 ^ 64 - 2 ^ 63.

Lemma wrap64_id z : - 2 ^ 63 <= z < 2 ^ 63 -> wrap64 z = z.
Proof. intros Hz. unfold wrap64. rewrite Z.mod_small; lia. Qed.

(** ** State monad: explicit state passing with early-return style code *)

Definition M (W A : Type) : Type := W -> W * A.

#[global] Instance M_ret W : MRet (M W) := fun A a w => (w, a).
#[global] Instance M_bind W : MBind (M W) :=
  fun A B f m w => let '(w', a) := m w in f a w'.

Definition get_st {W} : M W W := fun w => (w, w).
Definition put_st {W} (w : W) : M W unit := fun _ => (w, tt).
Definition modify {W} (f : W -> W) : M W unit := fun w => (f w, tt).
Definition gets {W A} (f : W -> A) : M W A := fun w => (w, f w).

(** [for _, x := range l { body }] without early return. *)
Fixpoint for_each {W A} (l : list A) (body : A -> M W unit) : M W unit :=
  match l with
  | [] => mret tt
  | x :: l' => body x ≫= fun _ => for_each l' body
  end.

(** [for _, x := range l { if err := body(x); err != nil { return err } }]. *)
Fixpoint for_each_err {W A} (l : list A) (body : A -> M W (res unit)) : M W (res unit) :=
  match l with
  | [] => mret (Ok tt)
  | x :: l' => body x ≫= fun r =>
      match r with Ok _ => for_each_err l' body | Err e => mret (Err e) end
  end.

(** The same loop without state. *)
Fixpoint check_all {A} (l : list A) (body : A -> res unit) : res unit :=
  match l with
  | [] => Ok tt
  | x :: l' => match body x with Ok _ => check_all l' body | Err e => Err e end
  end.

(** A loop that threads an accumulator and may return early with an error. *)
Fixpoint fold_err {S A} (body : S -> A -> res S) (s : S) (l : list A) : res S :=
  match l with
  | [] => Ok s
  | x :: l' => match body s x with Ok s' => fold_err body s' l' | Err e => Err e end
  end.

(** [if cond { return err }]. *)
Definition refuse (cond : bool) (e : err) : res unit := if cond then Err e else Ok tt.

Lemma check_all_ok {A} (l : list A) body : check_all l body = Ok tt <-> Forall (fun x => body x = Ok tt) l.
Proof.
  induction l as [|x l IH]; simpl; [done|]. rewrite Forall_cons, <-IH. destruct (body x) as [[]|]; naive_solver.
Qed.

Lemma refuse_ok b e : refuse b e = Ok tt <-> b = false.
Proof. by destruct b. Qed.

Lemma res_bind_ok {A} (m : res unit) (f : unit -> res A) a : (m ≫= f) = Ok a <-> m = Ok tt /\ f tt = Ok a.
Proof. destruct m as [[]|e]; simpl; naive_solver. Qed.

Lemma exists_snoc {A} (Q : A -> Prop) l x : (exists y, y ∈ l ++ [x] /\ Q y) <-> (exists y, y ∈ l /\ Q y) \/ Q x.
Proof. setoid_rewrite elem_of_app. setoid_rewrite list_elem_of_singleton. naive_solver. Qed.

(** Every two different positions of a list are related. *)
Fixpoint pairs {A} (R : A -> A -> Prop) (l : list A) : Prop :=
  match l with [] => True | x :: l' => Forall (R x) l' /\ pairs R l' end.

Lemma pairs_app {A} (R : A -> A -> Prop) l1 l2 :
  pairs R (l1 ++ l2) <-> pairs R l1 /\ pairs R l2 /\ Forall (fun x => Forall (R x) l2) l1.
Proof. induction l1 as [|x l1 IH]; simpl; rewrite ?Forall_nil, ?Forall_cons, ?Forall_app, ?IH; naive_solver. Qed.

Lemma pairs_perm {A} (R : A -> A -> Prop) `{!Symmetric R} l1 l2 : l1 ≡ₚ l2 -> pairs R l1 <-> pairs R l2.
Proof.
  induction 1 as [|x l1 l2 Hp IH|x y l|l1 l2 l3 _ IH1 _ IH2]; simpl; [done| | |by rewrite IH1].
  - by rewrite IH, Hp.
  - rewrite !Forall_cons. assert (R x y <-> R y x) as Hs by (split; apply symmetry). rewrite Hs. naive_solver.
Qed.

Lemma pairs_elem {A} (R : A -> A -> Prop) `{!Symmetric R} l x y : pairs R l -> x ∈ l -> y ∈ l -> x ≠ y -> R x y.
Proof.
  induction l as [|z l IH]; [set_solver|]. intros [Hz Hl] [->|Hx]%elem_of_cons [->|Hy]%elem_of_cons Hne; [done|..|by apply IH].
  - rewrite Forall_forall in Hz. by apply Hz.
  - rewrite Forall_forall in Hz. symmetry. by apply Hz.
Qed.

Lemma NoDup_fmap_pairs {A K} (key : A -> K) (R : A -> A -> Prop) l :
  (forall x y, R x y -> key x ≠ key y) -> pairs R l -> NoDup (key <$> l).
Proof.
  intros Hne. induction l as [|x l IH]; [constructor|]. intros [Hx Hl]. rewrite fmap_cons. constructor; [|by apply IH].
  intros (y & Hy & Hin)%list_elem_of_fmap. rewrite Forall_forall in Hx. by apply (Hne x y (Hx y Hin)).
Qed.

(** Early returns that compare each element with the earlier ones: the loop ends
    normally exactly when each element passes and each pair does.  [abs pre s] says
    what the accumulator knows of the elements passed, [good] what is known of the
    elements. *)
Lemma fold_err_pairs {S A} (step : S -> A -> res S) (good : A -> Prop) (abs : list A -> S -> Prop) (P : A -> Prop) (R : A -> A -> Prop) `{!Symmetric R} :
  (forall pre s x s', abs pre s -> good x -> step s x = Ok s' -> P x /\ Forall (R x) pre /\ abs (pre ++ [x]) s') ->
  (forall pre s x, abs pre s -> P x -> Forall (R x) pre -> is_ok (step s x) = true) ->
  forall l pre s, Forall good l -> abs pre s ->
    (forall s', fold_err step s l = Ok s' -> abs (pre ++ l) s') /\
    (is_ok (fold_err step s l) = true <-> Forall P l /\ pairs R l /\ Forall (fun x => Forall (R x) pre) l).
Proof.
  intros Hstep Hok. induction l as [|x l IH]; intros pre s Hg Hs; simpl.
  { split; [intros s' [= <-]; by rewrite app_nil_r|]. rewrite !Forall_nil. naive_solver. }
  apply Forall_cons in Hg as [Hgx Hg]. destruct (step s x) as [s1|e] eqn:E; simpl.
  - apply (Hstep pre) in E as (HP & HR & H1); [|done..]. destruct (IH (pre ++ [x]) s1 Hg H1) as [IHa IHb]. split.
    + intros s' Hf. rewrite (app_assoc pre [x] l : pre ++ x :: l = _). by apply IHa.
    + rewrite IHb, !Forall_cons. setoid_rewrite Forall_app. setoid_rewrite Forall_singleton.
      assert (Forall (fun y => Forall (R y) pre /\ R y x) l <-> Forall (fun y => Forall (R y) pre) l /\ Forall (R x) l) as ->; [|naive_solver].
      rewrite !Forall_forall. split; [intros H; split; intros y Hy; [|symmetry]; by apply H|].
      intros [H H'] y Hy. split; [by apply H|symmetry; by apply H'].
  - split; [done|]. split; [done|]. intros (HP%Forall_cons & [HR _] & Hpre%Forall_cons).
    specialize (Hok pre s x Hs (proj1 HP) (proj1 Hpre)). by rewrite E in Hok.
Qed.

(** The same without comparisons between elements. *)
Lemma fold_err_each {S A} (step : S -> A -> res S) (abs : list A -> S -> Prop) (P : A -> Prop) :
  (forall pre s x, abs pre s -> match step s x with Ok s' => P x /\ abs (pre ++ [x]) s' | Err _ => ~ P x end) ->
  forall l pre s, abs pre s ->
    (forall s', fold_err step s l = Ok s' -> abs (pre ++ l) s') /\ (is_ok (fold_err step s l) = true <-> Forall P l).
Proof.
  intros Hstep. induction l as [|x l IH]; intros pre s Hs; simpl.
  { split; [intros s' [= <-]; by rewrite app_nil_r|]. by rewrite Forall_nil. }
  specialize (Hstep pre s x Hs). rewrite Forall_cons. destruct (step s x) as [s1|e]; [|naive_solver].
  destruct Hstep as [HP H1]. destruct (IH _ _ H1) as [IHa IHb]. split; [|naive_solver].
  intros s' Hf. rewrite (app_assoc pre [x] l : pre ++ x :: l = _). by apply IHa.
Qed.

(** A loop that stores its entries in a map. *)
Lemma foldl_insert_union `{Countable K} {A} (l : list (K * A)) (m : gmap K A) :
  NoDup l.*1 -> foldl (fun m p => <[p.1 := p.2]> m) m l = list_to_map l ∪ m.
Proof.
  revert m. induction l as [| [k a] l IH]; intros m Hnd; cbn [foldl list_to_map foldr]; [by rewrite (left_id_L ∅ (∪)) |].
  cbn [fmap list_fmap fst] in Hnd. apply NoDup_cons in Hnd as [Hk Hnd]. rewrite IH by done. cbn [fst snd].
  rewrite <-insert_union_l, <-insert_union_r; [done |]. by apply not_elem_of_list_to_map.
Qed.

(** Nested loops are one loop over the concatenation. *)
Lemma fold_err_app {S A} (f : S -> A -> res S) s l1 l2 :
  fold_err f s (l1 ++ l2) = (fold_err f s l1 ≫= fun s' => fold_err f s' l2).
Proof. revert s. induction l1 as [|x l1 IH]; intros s; simpl; [done|]. destruct (f s x); [apply IH|done]. Qed.

Lemma fold_err_concat {S A B} (f : S -> B -> res S) (g : A -> list B) s l :
  fold_err (fun s x => fold_err f s (g x)) s l = fold_err f s (l ≫= g).
Proof.
  revert s. induction l as [|x l IH]; intros s; simpl; [done|]. rewrite fold_err_app.
  destruct (fold_err f s (g x)); [apply IH|done].
Qed.

(** A loop whose body checks something that does not depend on the accumulator and
    then runs an inner loop. *)
Lemma fold_err_guarded {S A B} (step : S -> A -> res S) (guard : A -> Prop) (f : S -> B -> res S) (g : A -> list B) :
  (forall s x s', step s x = Ok s' <-> guard x /\ fold_err f s (g x) = Ok s') ->
  forall l s s', fold_err step s l = Ok s' <-> Forall guard l /\ fold_err f s (l ≫= g) = Ok s'.
Proof.
  intros Hstep. induction l as [|x l IH]; intros s s'; simpl; [by rewrite Forall_nil; naive_solver|].
  rewrite fold_err_app, Forall_cons. destruct (step s x) as [s1|e] eqn:E.
  - apply Hstep in E as [Hg Hf]. rewrite Hf. simpl. rewrite IH. tauto.
  - split; [done|]. intros [[Hg _] Hf]. destruct (fold_err f s (g x)) as [s1|] eqn:Ef; [|done].
    assert (step s x = Ok s1) as Hs by (by apply Hstep). by rewrite E in Hs.
Qed.

Lemma is_ok_ex {A} (r : res A) : is_ok r = true <-> exists a, r = Ok a.
Proof. destruct r; naive_solver. Qed.

Lemma fold_err_ext {S A} (f g : S -> A -> res S) s l :
  (forall x, x ∈ l -> forall s, f s x = g s x) -> fold_err f s l = fold_err g s l.
Proof.
  revert s. induction l as [|x l IH]; intros s Hfg; simpl; [done|]. rewrite Hfg by set_solver.
  destruct (g s x); [apply IH; set_solver|done].
Qed.

Lemma fold_err_fails {S A} (f : S -> A -> res S) s l x :
  x ∈ l -> (forall s, is_ok (f s x) = false) -> is_ok (fold_err f s l) = false.
Proof.
  intros Hx Hf. revert s. induction l as [|y l IH]; intros s; simpl; [set_solver|].
  apply elem_of_cons in Hx as [<-|Hx]; [specialize (Hf s); by destruct (f s x)|].
  destruct (f s y); [by apply IH|done].
Qed.

Lemma M_bind_eq {W A B} (m : M W A) (f : A -> M W B) w :
  (m ≫= f) w = f (m w).2 (m w).1.
Proof. unfold mbind, M_bind. by destruct (m w). Qed.

(** Inversion of a run of a sequence. *)
Lemma M_bind_inv {W A B} (m : M W A) (f : A -> M W B) w w' b :
  (m ≫= f) w = (w', b) -> exists w1 a, m w = (w1, a) /\ f a w1 = (w', b).
Proof. rewrite M_bind_eq. intros H. exists (m w).1, (m w).2. by rewrite <-surjective_pairing. Qed.

Lemma M_ret_eq {W A} (a : A) (w : W) : (mret a : M W A) w = (w, a).
Proof. done. Qed.

(** Take one step of a run [H : m w = (w', a)]: split a sequence, branch on a
    [match] or [if], or read off a [return]. *)
Ltac run_step H :=
  lazymatch type of H with
  | (_ ≫= _) _ = _ =>
      let w1 := fresh "w" in let a := fresh "a" in let Hm := fresh "Hrun" in
      apply M_bind_inv in H as (w1 & a & Hm & H)
  | mret _ _ = (_, _) => rewrite M_ret_eq in H; injection H as ? ?; subst
  | (match ?x with _ => _ end) _ = _ => destruct x eqn:?; cbv beta iota in H
  end.

Tactic Notation "run_bind" hyp(H) "as" ident(w1) ident(a) ident(Hm) :=
  apply M_bind_inv in H as (w1 & a & Hm & H).

Ltac run_steps H := repeat run_step H.

(** ** Predicate transformers over [M]

    [hoare P m Q]: from a state satisfying [P], [m] ends in a state and a
    result satisfying [Q].  The model's functions are total, so this is total
    correctness. *)

Definition hoare {W A} (P : W -> Prop) (m : M W A) (Q : A -> W -> Prop) : Prop :=
  forall w, P w -> Q (m w).2 (m w).1.

Section Hoare.
Context {W : Type}.

Lemma hoare_ret {A} (a : A) (Q : A -> W -> Prop) : hoare (Q a) (mret a) Q.
Proof. by intros w. Qed.

Lemma hoare_bind {A B} P (m : M W A) (f : A -> M W B) R Q :
  hoare P m R -> (forall a, hoare (R a) (f a) Q) -> hoare P (m ≫= f) Q.
Proof. intros Hm Hf w HP. rewrite M_bind_eq. by apply Hf, Hm. Qed.

Lemma hoare_weaken {A} (P P' : W -> Prop) (m : M W A) Q Q' :
  hoare P' m Q' -> (forall w, P w -> P' w) -> (forall a w, Q' a w -> Q a w) ->
  hoare P m Q.
Proof. intros Hm HP HQ w Hw. apply HQ, Hm, HP, Hw. Qed.

Lemma hoare_conseq {A} (P : W -> Prop) (m : M W A) Q Q' :
  hoare P m Q' -> (forall a w, Q' a w -> Q a w) -> hoare P m Q.
Proof. intros. by eapply hoare_weaken. Qed.

(** [m] leaves the invariant [I] alone, whatever it returns. *)
Definition preserves {A} (I : W -> Prop) (m : M W A) : Prop :=
  hoare I m (fun _ => I).

Lemma preserves_ret {A} I (a : A) : preserves I (mret a).
Proof. by intros w. Qed.

Lemma preserves_bind {A B} I (m : M W A) (f : A -> M W B) :
  preserves I m -> (forall a, preserves I (f a)) -> preserves I (m ≫= f).
Proof. intros Hm Hf. by eapply hoare_bind. Qed.

Lemma preserves_gets {A} I (f : W -> A) : preserves I (gets f).
Proof. by intros w. Qed.

Lemma preserves_for_each {A} I (l : list A) body :
  (forall x, x ∈ l -> preserves I (body x)) -> preserves I (for_each l body).
Proof.
  induction l as [|x l IH]; intros Hb; simpl; [apply preserves_ret|].
  apply preserves_bind; [apply Hb; set_solver|].
  intros _. apply IH. set_solver.
Qed.

Lemma preserves_for_each_err {A} I (l : list A) body :
  (forall x, x ∈ l -> preserves I (body x)) -> preserves I (for_each_err l body).
Proof.
  induction l as [|x l IH]; intros Hb; simpl; [apply preserves_ret|].
  apply preserves_bind; [apply Hb; set_solver|].
  intros [|]; [apply IH; set_solver|apply preserves_ret].
Qed.
End Hoare.

(** ** SQL-table vocabulary over lists of rows (row order = rowid order) *)

Section Table.
Context {A : Type}.

(** [SELECT * FROM l WHERE p] *)
Definition sel (p : A -> bool) (l : list A) : list A :=
  filter (fun r => p r = true) l.

(** [UPDATE l SET f WHERE p] *)
Definition upd (p : A -> bool) (f : A -> A) (l : list A) : list A :=
  (fun r => if p r then f r else r) <$> l.

(** [DELETE FROM l WHERE p] *)
Definition del (p : A -> bool) (l : list A) : list A :=
  filter (fun r => p r = false) l.

(** Rows affected by an [UPDATE] or [DELETE] with this condition. *)
Definition affected (p : A -> bool) (l : list A) : nat := length (sel p l).

Definition key_le (key : A -> Z) (a b : A) : Prop := key a <= key b.

#[global] Instance key_le_dec key : RelDecision (key_le key).
Proof. intros a b. unfold key_le. apply _. Defined.
#[global] Instance key_le_total key : Total (key_le key).
Proof. intros a b. unfold key_le. lia. Qed.
#[global] Instance key_le_trans key : Transitive (key_le key).
Proof. intros a b c. unfold key_le. lia. Qed.

(** [ORDER BY key ASC]. *)
Definition order_by (key : A -> Z) (l : list A) : list A :=
  merge_sort (key_le key) l.

(** [ORDER BY key DESC]. *)
Definition order_by_desc (key : A -> Z) (l : list A) : list A :=
  merge_sort (key_le (fun r => - key r)) l.

Lemma elem_of_sel p l x : x ∈ sel p l <-> p x = true /\ x ∈ l.
Proof. unfold sel. by rewrite list_elem_of_filter. Qed.

Lemma elem_of_del p l x : x ∈ del p l <-> p x = false /\ x ∈ l.
Proof. unfold del. by rewrite list_elem_of_filter. Qed.

Lemma elem_of_upd p f l x :
  x ∈ upd p f l <-> exists y, y ∈ l /\ x = (if p y then f y else y).
Proof. unfold upd. rewrite list_elem_of_fmap. split; intros (y & ? & ?); eauto. Qed.

Lemma order_by_perm key l : order_by key l ≡ₚ l.
Proof. apply merge_sort_Permutation. Qed.

Lemma elem_of_order_by key l x : x ∈ order_by key l <-> x ∈ l.
Proof. by rewrite order_by_perm. Qed.

Lemma elem_of_order_by_desc key l x : x ∈ order_by_desc key l <-> x ∈ l.
Proof. unfold order_by_desc. by rewrite merge_sort_Permutation. Qed.

Lemma length_order_by key l : length (order_by key l) = length l.
Proof. by rewrite order_by_perm. Qed.

Lemma order_by_sorted key l :
  StronglySorted (key_le key) (order_by key l).
Proof. apply StronglySorted_merge_sort; apply _. Qed.

Lemma length_upd p f l : length (upd p f l) = length l.
Proof. apply length_fmap. Qed.

Lemma affected_0 p l : affected p l = 0%nat <-> (forall x, x ∈ l -> p x = false).
Proof.
  unfold affected. rewrite length_zero_iff_nil. split.
  - intros Hnil x Hx. destruct (p x) eqn:Hp; [|done].
    assert (x ∈ sel p l) as Hin by (by apply elem_of_sel).
    rewrite Hnil in Hin. by apply elem_of_nil in Hin.
  - intros Hall. apply elem_of_nil_inv. intros x Hx.
    apply elem_of_sel in Hx as [Hp Hx]. rewrite Hall in Hp; done.
Qed.

Lemma upd_id p f l : (forall x, x ∈ l -> p x = false) -> upd p f l = l.
Proof.
  intros Hall. unfold upd. induction l as [|x l IH]; [done|]. simpl.
  rewrite Hall by set_solver. f_equal. apply IH. set_solver.
Qed.
End Table.

(** Keys of a table: an update that keeps a column keeps its list of values, a
    delete keeps it duplicate-free. *)
Section Keys.
Context {A K : Type} (key : A -> K).

Lemma fmap_upd_key p f l :
  (forall x, key (f x) = key x) -> key <$> upd p f l = key <$> l.
Proof.
  intros Hf. unfold upd. rewrite <-list_fmap_compose. apply list_fmap_ext.
  intros i x _. simpl. by destruct (p x).
Qed.

Lemma elem_of_fmap_del p l k : k ∈ (key <$> del p l) -> k ∈ (key <$> l).
Proof. rewrite !list_elem_of_fmap. intros (x & -> & [_ Hx]%elem_of_del). eauto. Qed.

Lemma NoDup_fmap_filter (P : A -> Prop) `{forall x, Decision (P x)} l :
  NoDup (key <$> l) -> NoDup (key <$> filter P l).
Proof.
  induction l as [|a l IH]; [done|]. rewrite fmap_cons.
  intros [Ha Hnd]%NoDup_cons. rewrite filter_cons. case_decide; [|auto].
  rewrite fmap_cons. apply NoDup_cons. split; [|auto].
  rewrite list_elem_of_fmap. intros (x & Hx & [_ Hin]%list_elem_of_filter).
  apply Ha, list_elem_of_fmap. eauto.
Qed.

Lemma NoDup_fmap_del p l : NoDup (key <$> l) -> NoDup (key <$> del p l).
Proof. apply NoDup_fmap_filter. Qed.

Lemma NoDup_fmap_sel p l : NoDup (key <$> l) -> NoDup (key <$> sel p l).
Proof. apply NoDup_fmap_filter. Qed.

Lemma NoDup_fmap_snoc l x : NoDup (key <$> l) -> key x ∉ (key <$> l) -> NoDup (key <$> l ++ [x]).
Proof.
  intros Hl Hx. rewrite fmap_app. apply NoDup_app. split; [done|]. split.
  - intros k Hk. simpl. by rewrite list_elem_of_singleton; intros ->.
  - apply NoDup_singleton.
Qed.

(** Overwriting the column of at most one row with a value no other row has. *)
Lemma NoDup_fmap_upd_fresh p f l v :
  NoDup (key <$> l) ->
  (affected p l <= 1)%nat ->
  (forall x, x ∈ l -> p x = true -> key (f x) = v) ->
  (forall x, x ∈ l -> p x = false -> key x ≠ v) ->
  NoDup (key <$> upd p f l).
Proof.
  unfold affected, sel.
  induction l as [|a l IH]; intros Hnd Haff Hf Hne; [constructor|].
  simpl in *. apply NoDup_cons in Hnd as [Ha Hnd].
  rewrite filter_cons in Haff. destruct (decide (p a = true)) as [Hp|Hp].
  - simpl in Haff.
    assert (forall x, x ∈ l -> p x = false) as Hrest.
    { apply affected_0. unfold affected, sel. lia. }
    rewrite upd_id by done. rewrite Hp. apply NoDup_cons. split; [|done].
    rewrite (Hf a) by (done || set_solver). rewrite list_elem_of_fmap.
    intros (x & Hv & Hx). apply (Hne x); [set_solver|auto|done].
  - apply Bool.not_true_is_false in Hp. rewrite Hp. apply NoDup_cons. split.
    + unfold upd. rewrite !list_elem_of_fmap.
      intros (y & Hy & (x & -> & Hx)%list_elem_of_fmap).
      destruct (p x) eqn:Hpx.
      * rewrite (Hf x) in Hy by (done || set_solver).
        apply (Hne a) in Hp; [done|set_solver].
      * apply Ha. rewrite Hy. apply list_elem_of_fmap. eauto.
    + apply IH; [done|done| |]; intros x ??; [apply Hf|apply Hne]; set_solver.
Qed.

Lemma affected_key_le_1 `{EqDecision K} l k :
  NoDup (key <$> l) -> (affected (fun x => bool_decide (key x = k)) l <= 1)%nat.
Proof.
  unfold affected, sel. induction l as [|a l IH]; simpl; [lia|].
  intros [Ha Hnd]%NoDup_cons. rewrite filter_cons. case_decide as Hp; simpl; [|auto].
  apply bool_decide_eq_true in Hp. subst k.
  assert (length (filter (fun x => bool_decide (key x = key a) = true) l) = 0%nat) as ->; [|lia].
  apply (affected_0 (fun x => bool_decide (key x = key a))). intros x Hx.
  apply bool_decide_eq_false. intros Heq. apply Ha. apply list_elem_of_fmap. eauto.
Qed.
End Keys.

(** The value held under a key in a table whose keys are unique. *)
Lemma NoDup_fmap_inj {A K} (key : A -> K) (l : list A) x y :
  NoDup (key <$> l) -> x ∈ l -> y ∈ l -> key x = key y -> x = y.
Proof.
  induction l as [|a l IH]; simpl; [set_solver|].
  intros [Ha Hnd]%NoDup_cons Hx Hy Heq.
  apply elem_of_cons in Hx as [->|Hx]; apply elem_of_cons in Hy as [->|Hy]; auto.
  - destruct Ha. rewrite Heq. apply list_elem_of_fmap. eauto.
  - destruct Ha. rewrite <-Heq. apply list_elem_of_fmap. eauto.
Qed.
