(* ===== verification/Provider.v ===== *)
(** * Infrastructure provider vocabulary

    Types and constants of [src/internal/server/infra/provider/types.go] that
    the server's decisions read: instance statuses, [IsUnhealthy],
    load-balancer target states and the request and response records. *)

From S2P Require Import Prelude.

(** ** Instance statuses *)

Definition StatusPending : string := "pending".
Definition StatusRunning : string := "running".
Definition StatusStopping : string := "stopping".
Definition StatusStopped : string := "stopped".
Definition StatusSuspending : string := "suspending".
Definition StatusSuspended : string := "suspended".
Definition StatusDeleting : string := "deleting".
Definition StatusDeleted : string := "deleted".
Definition StatusRepairing : string := "repairing".
Definition StatusUnknown : string := "unknown".

(** [provider.IsUnhealthy]. *)
Definition IsUnhealthy (status : string) : bool :=
  bool_decide (status ∈ [StatusStopping; StatusStopped; StatusSuspending;
                         StatusSuspended; StatusDeleting; StatusDeleted;
                         StatusRepairing]).

(** [provider.InstanceStatus]: the fields the server reads.  Its JSON encoding
    is what the [provider_state] column holds. *)
Record InstanceStatus := mkInstanceStatus {
  st_instance_id : string;
  st_provider_instance_id : string;
  st_status : string;
  st_instance_type : string;
  st_private_ipv4 : string;
  st_private_ipv6 : string;
  st_hostname : string;
}.

#[global] Instance InstanceStatus_eq_dec : EqDecision InstanceStatus.
Proof. solve_decision. Defined.

(** The status written when the provider no longer knows the instance:
    [&provider.InstanceStatus{Status: provider.StatusDeleted}]. *)
Definition terminatedState : InstanceStatus :=
  mkInstanceStatus "" "" StatusDeleted "" "" "" "".

(** [provider.CreateInstanceResponse]. *)
Record ProviderResponse := mkProviderResponse {
  pr_provider_instance_id : string;
  pr_status : string;
  pr_private_ipv4 : string;
  pr_private_ipv6 : string;
  pr_hostname : string;
  pr_launched_at : Z;
}.

(** ** Load-balancer targets *)

(** [provider.LBTargetState]. *)
Inductive LBTargetState :=
  | LBTargetRegistered | LBTargetPartial | LBTargetHealthy
  | LBTargetDraining | LBTargetDeregistered.

#[global] Instance LBTargetState_eq_dec : EqDecision LBTargetState.
Proof. solve_decision. Defined.

(** [provider.LoadBalancerConfig] and [config.LoadBalancerConfig], which have the
    same fields: target groups with their ARN and listener, target and proxy port;
    network endpoint groups; frontends with their address and port; tunnel listeners
    with their target and proxy port. *)
Record LoadBalancerConfig := mkLoadBalancerConfig {
  lbc_provider : string;
  lbc_target_groups : list (string * Z * Z * Z);
  lbc_neg : list string;
  lbc_frontends : list (string * Z);
  lbc_listeners : list (Z * Z);
}.

#[global] Instance LoadBalancerConfig_eq_dec : EqDecision LoadBalancerConfig.
Proof. solve_decision. Defined.

(** [provider.RegisterLBRequest] and [provider.DeregisterLBRequest], which have
    the same fields and are converted into each other. *)
Record LBRequest := mkLBRequest {
  lr_provider_instance_id : string;
  lr_config : LoadBalancerConfig;
  lr_zone : string;
  lr_wake_proxy : bool;
}.

#[global] Instance LBRequest_eq_dec : EqDecision LBRequest.
Proof. solve_decision. Defined.

(** The statuses that the SQL activity filter
    [NOT IN ('deleting', 'deleted')] removes. *)
Definition status_gone (s : string) : bool :=
  bool_decide (s ∈ [StatusDeleting; StatusDeleted]).

Lemma status_gone_unhealthy s : status_gone s = true -> IsUnhealthy s = true.
Proof.
  unfold status_gone, IsUnhealthy. rewrite !bool_decide_eq_true. set_solver.
Qed.
