(* ===== verification/Json.v ===== *)
(** * JSON values ([encoding/json] into [interface{}])

    What a field of type [interface{}] holds after decoding.  The fields of an
    object are the entries of the decoded map, listed in some order; equality is decidable through an encoding as trees, which
    the concrete runs also use to spell out documents. *)

From S2P Require Import Prelude.

#[local] Set Warnings "-register-all".

(** [JNumber m e] is the number [m * 10^e]. *)
Inductive Json : Type :=
  | JNull
  | JBool (b : bool)
  | JNumber (m e : Z)
  | JString (s : string)
  | JArray (items : list Json)
  | JObject (fields : list (string * Json)).

(** Induction with hypotheses for items and fields. *)
Section JsonInd.
Context (P : Json -> Prop).
Context (Hnull : P JNull) (Hbool : forall b, P (JBool b)) (Hnumber : forall m e, P (JNumber m e)) (Hstring : forall s, P (JString s)).
Context (Harray : forall items, Forall P items -> P (JArray items)).
Context (Hobject : forall fields, Forall (fun kv => P kv.2) fields -> P (JObject fields)).

Fixpoint json_ind' (j : Json) : P j :=
  match j with
  | JNull => Hnull
  | JBool b => Hbool b
  | JNumber m e => Hnumber m e
  | JString s => Hstring s
  | JArray items => Harray items ((fix go l : Forall P l :=
      match l with [] => List.Forall_nil P | x :: l' => List.Forall_cons P x l' (json_ind' x) (go l') end) items)
  | JObject fields => Hobject fields ((fix go l : Forall (fun kv => P kv.2) l :=
      match l with
      | [] => List.Forall_nil _
      | kv :: l' => List.Forall_cons (fun kv => P kv.2) kv l' (json_ind' kv.2) (go l')
      end) fields)
  end.
End JsonInd.

(** ** Encoding *)

Fixpoint json_tree (j : Json) : gen_tree (string + Z) :=
  match j with
  | JNull => GenNode 0 []
  | JBool b => GenNode (if b then 2 else 1) []
  | JNumber m e => GenNode 3 [GenLeaf (inr m); GenLeaf (inr e)]
  | JString s => GenNode 4 [GenLeaf (inl s)]
  | JArray items => GenNode 5 (json_tree <$> items)
  | JObject fields => GenNode 6 ((fun kv => GenNode 0 [GenLeaf (inl kv.1); json_tree kv.2]) <$> fields)
  end.

#[global] Instance json_tree_inj : Inj (=) (=) json_tree.
Proof.
  intros j. induction j as [|b|m e|s|items IH|fields IH] using json_ind'; intros [|b'|m' e'|s'|items'|fields'] H;
    simpl in H; try (by simplify_eq); try (by destruct b); try (by destruct b'); try (by destruct b, b').
  - f_equal. injection H as H. revert items' H. induction IH as [|x l Hx _ IHl]; intros [|x' l'] H; simplify_eq/=; [done|].
    f_equal; [by apply Hx|by apply IHl].
  - f_equal. injection H as H. revert fields' H. induction IH as [|[k x] l Hx _ IHl]; intros [|[k' x'] l'] H; simplify_eq/=; [done|].
    f_equal; [f_equal; by apply Hx|by apply IHl].
Qed.

#[global] Instance Json_eq_dec : EqDecision Json.
Proof.
  refine (fun j j' => cast_if (decide (json_tree j = json_tree j'))); [by apply (inj json_tree)|by intros ->].
Defined.

(** ** Type assertions *)

(** [v.(string)]. *)
Definition as_string (j : Json) : option string := match j with JString s => Some s | _ => None end.

(** [v.(map[string]interface{})]. *)
Definition as_object (j : Json) : option (list (string * Json)) := match j with JObject fields => Some fields | _ => None end.

(** [v.(float64)], as far as the code looks: whether it is zero. *)
Definition as_number_zero (j : Json) : option bool := match j with JNumber m _ => Some (bool_decide (m = 0)) | _ => None end.

Definition is_null (j : Json) : bool := match j with JNull => true | _ => false end.
