(* ===== verification/LocalDB.v ===== *)
(** * The local SQLite cache ([src/internal/server/localdb])

    Tables are lists of rows in rowid order.  Each exported method of
    [localdb.DB] is one definition: queries are functions of the database,
    statements return the new database or the error SQLite reports (uniqueness
    and foreign-key constraints are checked here; driver failures are injected
    by the caller, see [World.dbx]).  [now] is the [time.Now().UTC()] the method
    reads.  Times are nanoseconds in [Z].

    [foreign_keys] says whether the connection that runs the statement has
    [PRAGMA foreign_keys=ON] ([Open] issues it once on a pooled connection). *)

From S2P Require Import Prelude Provider.

(** ** Rows *)

(** [localdb.Instance]; [provider_state] is kept decoded, the column only ever
    holds a marshalled [InstanceStatus]. *)
Record Instance := mkInstance {
  i_id : string;
  i_tenant : string;
  i_group : string;
  i_on_demand : bool;
  i_subnet_id : string;
  i_provider_id : option string;
  i_provider_at : option Z;
  i_hostname : option string;
  i_fqdn : option string;
  i_ip4 : option string;
  i_ip6 : option string;
  i_provider_state : option InstanceStatus;
  i_nonce : string;
  i_issued_at : option Z;
  i_instance_pub : option string;
  i_registered_at : option Z;
  i_certificates_at : option Z;
  i_health_at : option Z;
  i_health : option string;
  i_infra_config_hash : option string;
  i_drain_started_at : option Z;
  i_drain_acked_at : option Z;
  i_created_at : Z;
  i_updated_at : option Z;
  i_deleted_at : option Z;
}.

#[global] Instance Instance_eq_dec : EqDecision Instance.
Proof. solve_decision. Defined.

(** [localdb.LBInstance] and its statuses. *)
Inductive LBStatus := LBStatusPending | LBStatusRegistered | LBStatusDeregistered | LBStatusFailed.

#[global] Instance LBStatus_eq_dec : EqDecision LBStatus.
Proof. solve_decision. Defined.

Record LBInstance := mkLBInstance {
  lb_key : string;
  lb_instance_id : string;
  lb_status : LBStatus;
  lb_updated_at : Z;
}.

(** [localdb.Group] and [localdb.GroupHashes]. *)
Record Group := mkGroup {
  g_tenant : string;
  g_group_key : string;
  g_runtime_config_hash : option string;
  g_infra_config_hash : option string;
  g_hashes_updated_at : option Z;
  g_created_at : Z;
  g_updated_at : option Z;
}.

Record GroupHashes := mkGroupHashes {
  gh_tenant : string;
  gh_group_key : string;
  gh_runtime_hash : string;
  gh_infra_hash : string;
}.

(** [localdb.Operator]. *)
Record Operator := mkOperator {
  o_id : string;
  o_cluster_id : string;
  o_tenant : string;
  o_nonce : string;
  o_public_key : option string;
  o_registered_at : Z;
  o_created_at : Z;
  o_updated_at : option Z;
}.

(** [localdb.PublicKey] and [localdb.PublicKeySubmission]. *)
Record PublicKey := mkPublicKey {
  pk_id : Z;
  pk_instance_id : string;
  pk_filename : string;
  pk_public_key_pem : string;
  pk_certificate_name : option string;
  pk_submitted_at : Z;
  pk_created_at : Z;
  pk_updated_at : option Z;
}.

Record PublicKeySubmission := mkPublicKeySubmission {
  pks_filename : string;
  pks_public_key_pem : string;
}.

(** [localdb.Image]. *)
Record Image := mkImage {
  img_name : string;
  img_image_id : string;
  img_resolved_at : Z;
}.

(** The schema of [createSchema]: one list per table, the [AUTOINCREMENT]
    sequence of [public_keys], and the foreign-key pragma. *)
Record DB := mkDB {
  instances : list Instance;
  public_keys : list PublicKey;
  images : list Image;
  lb_instances : list LBInstance;
  groups : list Group;
  operators : list Operator;
  pk_seq : Z;
  foreign_keys : bool;
}.

Definition empty_db (fk : bool) : DB := mkDB [] [] [] [] [] [] 0 fk.

Module LocalDB.

(** ** Shared WHERE clauses *)

Definition not_deleted (i : Instance) : bool := bool_decide (i_deleted_at i = None).

Definition is_set {A} (o : option A) : bool := match o with Some _ => true | None => false end.

(** [provider_state IS NULL OR json_extract(provider_state, '$.status') NOT IN
    ('deleting', 'deleted')] *)
Definition status_ok (i : Instance) : bool :=
  match i_provider_state i with
  | None => true
  | Some st => negb (status_gone (st_status st))
  end.

Definition active (i : Instance) : bool := not_deleted i && status_ok i.

(** [id = ? AND deleted_at IS NULL] *)
Definition live_id (id : string) (i : Instance) : bool :=
  bool_decide (i_id i = id) && not_deleted i.

Definition in_group (tenant groupKey : string) (i : Instance) : bool :=
  bool_decide (i_tenant i = tenant) && bool_decide (i_group i = groupKey).

(** [column < ?] on a nullable timestamp: NULL compares false. *)
Definition before (o : option Z) (t : Z) : bool :=
  match o with Some x => bool_decide (x < t) | None => false end.

Definition first_row (l : list Instance) : res Instance :=
  match l with i :: _ => Ok i | [] => Err ErrNoRows end.

Definition with_instances (l : list Instance) (db : DB) : DB := {| db with instances := l |}.

(** Run [UPDATE instances SET f WHERE p] and report [sql.ErrNoRows] when no row
    matched, the shape shared by the single-row update methods. *)
Definition update_or_norows (p : Instance -> bool) (f : Instance -> Instance) (db : DB) : res DB :=
  match affected p (instances db) with
  | O => Err ErrNoRows
  | _ => Ok (with_instances (upd p f (instances db)) db)
  end.

(** Whether another table references the instance. *)
Definition referenced (db : DB) (id : string) : bool :=
  bool_decide (id ∈ (pk_instance_id <$> public_keys db)) ||
  bool_decide (id ∈ (lb_instance_id <$> lb_instances db)).

(** [DELETE FROM instances WHERE p] under the foreign-key constraints of
    [public_keys] and [lb_instances]. *)
Definition delete_instances (p : Instance -> bool) (db : DB) : res DB :=
  if foreign_keys db && existsb (fun i => referenced db (i_id i)) (sel p (instances db))
  then Err ErrConstraint
  else Ok (with_instances (del p (instances db)) db).

(** ** instances.go *)

Definition CreateInstance (inst : Instance) (db : DB) : res DB :=
  if bool_decide (i_id inst ∈ (i_id <$> instances db)) ||
     bool_decide (i_nonce inst ∈ (i_nonce <$> instances db))
  then Err ErrConstraint
  else Ok (with_instances
             (instances db ++ [{| inst with i_drain_started_at := None; i_drain_acked_at := None |}])
             db).

Definition GetInstance (id : string) (db : DB) : res Instance :=
  first_row (sel (live_id id) (instances db)).

Definition GetInstanceByProviderID (providerID : string) (db : DB) : res (option Instance) :=
  match sel (fun i => bool_decide (i_provider_id i = Some providerID) && not_deleted i) (instances db) with
  | i :: _ => Ok (Some i)
  | [] => Ok None
  end.

Definition UpdateInstance (now : Z) (inst : Instance) (db : DB) : res DB :=
  update_or_norows (fun i => bool_decide (i_id i = i_id inst))
    (fun i => {| i with
      i_group := i_group inst;
      i_on_demand := i_on_demand inst;
      i_subnet_id := i_subnet_id inst;
      i_provider_id := i_provider_id inst;
      i_provider_at := i_provider_at inst;
      i_hostname := i_hostname inst;
      i_fqdn := i_fqdn inst;
      i_ip4 := i_ip4 inst;
      i_ip6 := i_ip6 inst;
      i_provider_state := i_provider_state inst;
      i_instance_pub := i_instance_pub inst;
      i_registered_at := i_registered_at inst;
      i_certificates_at := i_certificates_at inst;
      i_health_at := i_health_at inst;
      i_health := i_health inst;
      i_updated_at := Some now;
      i_deleted_at := i_deleted_at inst |}) db.

Definition ListInstances (db : DB) : list Instance :=
  order_by_desc i_created_at (sel not_deleted (instances db)).

Definition DeleteInstance (now : Z) (id : string) (db : DB) : res DB :=
  update_or_norows (live_id id)
    (fun i => {| i with i_deleted_at := Some now; i_updated_at := Some now |}) db.

Definition FindDeletedInstancesPastRetention (cutoff : Z) (db : DB) : list Instance :=
  sel (fun i => is_set (i_deleted_at i) && before (i_deleted_at i) cutoff) (instances db).

Definition PurgeDeletedInstance (id : string) (db : DB) : res DB :=
  let p := fun i => bool_decide (i_id i = id) && is_set (i_deleted_at i) in
  db' ← delete_instances p db;
  match affected p (instances db) with
  | O => Err ErrNoRows
  | _ => Ok db'
  end.

Definition ValidateAgentNonce (nonce : string) (db : DB) : res unit :=
  match sel (fun i => bool_decide (i_nonce i = nonce)) (instances db) with
  | [] => Err (ErrMsg "nonce not found")
  | i :: _ => if is_set (i_registered_at i) then Err (ErrMsg "nonce already used") else Ok tt
  end.

Definition GetInstanceByNonce (nonce : string) (db : DB) : res Instance :=
  first_row (sel (fun i => bool_decide (i_nonce i = nonce) && not_deleted i) (instances db)).

Definition MarkInstanceRegistered (now : Z) (id publicKeyPEM privateIPv4 privateIPv6 hostname : string)
    (db : DB) : res DB :=
  Ok (with_instances
    (upd (live_id id) (fun i => {| i with
       i_instance_pub := Some publicKeyPEM;
       i_registered_at := Some now;
       i_ip4 := Some privateIPv4;
       i_ip6 := Some privateIPv6;
       i_hostname := (if bool_decide (hostname = "") then None else Some hostname);
       i_updated_at := Some now |}) (instances db)) db).

Definition CreateAgentRegistrationRecord (now : Z) (id nonce publicKeyPEM : string) (db : DB) : res DB :=
  update_or_norows (fun i => live_id id i && bool_decide (i_nonce i = nonce))
    (fun i => {| i with i_instance_pub := Some publicKeyPEM;
                        i_registered_at := Some now; i_updated_at := Some now |}) db.

Definition UpdateInstanceHealth (now : Z) (id health : string) (db : DB) : res DB :=
  update_or_norows (live_id id)
    (fun i => {| i with i_health := Some health; i_health_at := Some now; i_updated_at := Some now |}) db.

Definition UpdateInstanceProviderState (now : Z) (id : string) (st : InstanceStatus) (db : DB) : res DB :=
  update_or_norows (live_id id)
    (fun i => {| i with i_provider_state := Some st; i_provider_at := Some now; i_updated_at := Some now |}) db.

(** [COALESCE(a, b)] *)
Definition coalesce {A} (a b : option A) : option A := match a with Some _ => a | None => b end.

(** One [UPDATE] of [SeedFromProviderData]. *)
Definition seed_provider_row (now : Z) (inst : Instance) (l : list Instance) : list Instance :=
  upd (fun i => bool_decide (i_id i = i_id inst)) (fun i => {| i with
    i_provider_id := i_provider_id inst;
    i_hostname := coalesce (i_hostname inst) (i_hostname i);
    i_ip4 := coalesce (i_ip4 inst) (i_ip4 i);
    i_ip6 := coalesce (i_ip6 inst) (i_ip6 i);
    i_provider_state := i_provider_state inst;
    i_provider_at := Some now;
    i_updated_at := Some now |}) l.

Definition SeedFromProviderData (now : Z) (insts : list Instance) (db : DB) : res DB :=
  Ok (with_instances (foldl (fun l inst => seed_provider_row now inst l) (instances db) insts) db).

(** One upsert of [SeedFromS3Data]: [INSERT ... ON CONFLICT(id) DO UPDATE], with
    [updated_at] replaced by the sync time.  A clash with another row's nonce is
    a constraint error. *)
Definition seed_s3_row (syncTime : Z) (inst : Instance) (l : list Instance) : res (list Instance) :=
  if existsb (fun i => bool_decide (i_id i ≠ i_id inst) && bool_decide (i_nonce i = i_nonce inst)) l
  then Err ErrConstraint
  else if bool_decide (i_id inst ∈ (i_id <$> l)) then
    Ok (upd (fun i => bool_decide (i_id i = i_id inst)) (fun i => {| i with
      i_tenant := i_tenant inst;
      i_group := i_group inst;
      i_on_demand := i_on_demand inst;
      i_subnet_id := i_subnet_id inst;
      i_provider_id := coalesce (i_provider_id inst) (i_provider_id i);
      i_provider_at := coalesce (i_provider_at inst) (i_provider_at i);
      i_hostname := i_hostname inst;
      i_fqdn := i_fqdn inst;
      i_ip4 := i_ip4 inst;
      i_ip6 := i_ip6 inst;
      i_nonce := i_nonce inst;
      i_issued_at := i_issued_at inst;
      i_instance_pub := i_instance_pub inst;
      i_registered_at := i_registered_at inst;
      i_certificates_at := i_certificates_at inst;
      i_health_at := i_health_at inst;
      i_health := i_health inst;
      i_updated_at := Some syncTime;
      i_deleted_at := i_deleted_at inst |}) l)
  else
    Ok (l ++ [{| inst with
      i_provider_state := None;
      i_infra_config_hash := None;
      i_drain_started_at := None;
      i_drain_acked_at := None;
      i_updated_at := Some syncTime |}]).

Fixpoint seed_s3_rows (syncTime : Z) (insts : list Instance) (l : list Instance) : res (list Instance) :=
  match insts with
  | [] => Ok l
  | inst :: rest => l' ← seed_s3_row syncTime inst l; seed_s3_rows syncTime rest l'
  end.

(** The whole transaction: any error rolls it back. *)
Definition SeedFromS3Data (syncTime : Z) (insts : list Instance) (db : DB) : res DB :=
  l ← seed_s3_rows syncTime insts (instances db);
  delete_instances (fun i => is_set (i_registered_at i) && before (i_updated_at i) syncTime)
    (with_instances l db).

(** The rows of a group that count as running, on-demand ones optionally excluded. *)
Definition group_rows (tenant groupKey : string) (excludeOnDemand : bool) (db : DB) : list Instance :=
  sel (fun i => in_group tenant groupKey i && active i && (negb excludeOnDemand || negb (i_on_demand i)))
    (instances db).

Definition GetProviderIDsByGroup (tenant groupKey : string) (excludeOnDemand : bool) (db : DB) : list string :=
  merge_sort String.le (omap i_provider_id (group_rows tenant groupKey excludeOnDemand db)).

Definition GetInstancesByGroup (tenant groupKey : string) (excludeOnDemand : bool) (db : DB) : list string :=
  i_id <$> order_by i_created_at (group_rows tenant groupKey excludeOnDemand db).

Definition GetInstanceCountByGroup (tenant groupKey : string) (excludeOnDemand : bool) (db : DB) : Z :=
  Z.of_nat (length (group_rows tenant groupKey excludeOnDemand db)).

(** [GROUP BY subnet_id]: one entry per subnet that has a row. *)
Definition CountInstancesBySubnet (tenant : string) (db : DB) : gmap string Z :=
  foldr (fun i m => <[i_subnet_id i := default 0 (m !! i_subnet_id i) + 1]> m) ∅
    (sel (fun i => bool_decide (i_tenant i = tenant) && active i) (instances db)).

Definition HasOnDemandInstances (tenant : string) (db : DB) : bool :=
  existsb (fun i => bool_decide (i_tenant i = tenant) && i_on_demand i && not_deleted i) (instances db).

(** [SELECT DISTINCT tenant, group_key ... ORDER BY tenant, group_key]. *)
Definition identity_le (a b : string * string) : Prop :=
  String.ltb a.1 b.1 = true \/ (a.1 = b.1 /\ String.le a.2 b.2).

#[global] Instance identity_le_dec : RelDecision identity_le.
Proof. intros a b. unfold identity_le. apply _. Defined.

Definition GetActiveManagedGroupIdentities (db : DB) : list (string * string) :=
  merge_sort identity_le
    (remove_dups ((fun i => (i_tenant i, i_group i)) <$>
      sel (fun i => negb (i_on_demand i) && negb (bool_decide (i_group i = "")) && active i)
        (instances db))).

Definition GetOldestManagedInstanceByGroup (tenant groupKey : string) (db : DB) : option Instance :=
  head (order_by i_created_at
    (sel (fun i => in_group tenant groupKey i && active i && negb (i_on_demand i) &&
                   negb (is_set (i_drain_started_at i))) (instances db))).

Definition MarkDrainStarted (now : Z) (id : string) (db : DB) : res DB :=
  update_or_norows (live_id id)
    (fun i => {| i with i_drain_started_at := Some now; i_updated_at := Some now |}) db.

Definition MarkDrainAcked (now : Z) (id : string) (db : DB) : res DB :=
  update_or_norows (live_id id)
    (fun i => {| i with i_drain_acked_at := Some now; i_updated_at := Some now |}) db.

Definition GetInstancesPendingDrain (tenant : string) (db : DB) : res (list Instance) :=
  if bool_decide (tenant = "") then Err (ErrMsg "tenant is required")
  else Ok (order_by (fun i => default 0 (i_drain_started_at i))
    (sel (fun i => bool_decide (i_tenant i = tenant) && is_set (i_drain_started_at i) && not_deleted i)
       (instances db))).

Definition FindDanglingInstances (now maxAge : Z) (db : DB) : list Instance :=
  order_by (fun i => default 0 (i_issued_at i))
    (sel (fun i => negb (is_set (i_registered_at i)) && not_deleted i &&
                   before (i_issued_at i) (now - maxAge)) (instances db)).

Definition GetInstancesOlderThan (now maxAge : Z) (ondemandOnly : bool) (db : DB) : list Instance :=
  order_by i_created_at
    (sel (fun i => bool_decide (i_created_at i < now - maxAge) && active i &&
                   Bool.eqb (i_on_demand i) ondemandOnly) (instances db)).

(** One transaction of unconditional soft deletes. *)
Definition mark_deleted_rows (now : Z) (ids : list string) (l : list Instance) : list Instance :=
  foldl (fun l id => upd (fun i => bool_decide (i_id i = id))
           (fun i => {| i with i_deleted_at := Some now; i_updated_at := Some now |}) l) l ids.

Definition MarkInstancesDeleted (now : Z) (ids : list string) (db : DB) : res DB :=
  match ids with
  | [] => Ok db
  | _ => Ok (with_instances (mark_deleted_rows now ids (instances db)) db)
  end.

(** The rows [MarkInstancesDeletedIfProviderMissing] collects. *)
Definition provider_missing (ownership : gmap string string) (i : Instance) : bool :=
  match i_provider_id i with
  | Some pid => not_deleted i && negb (bool_decide (ownership !! pid = Some (i_id i)))
  | None => false
  end.

Definition MarkInstancesDeletedIfProviderMissing (now : Z) (ownership : gmap string string) (db : DB)
    : res (DB * list string) :=
  let ids := i_id <$> sel (provider_missing ownership) (instances db) in
  db' ← MarkInstancesDeleted now ids db; Ok (db', ids).

Definition QueryStaleHealthInstances (threshold : Z) (db : DB) : list Instance :=
  order_by (fun i => default 0 (i_health_at i))
    (sel (fun i => not_deleted i && is_set (i_registered_at i) && before (i_health_at i) threshold)
       (instances db)).

Definition FindStalePreInserts (now maxAge : Z) (db : DB) : list Instance :=
  sel (fun i => negb (is_set (i_provider_id i)) && before (i_issued_at i) (now - maxAge) &&
                not_deleted i) (instances db).

(** [CAST(provider_id AS INTEGER)]: the longest numeric prefix, 0 when there is
    none (unsigned decimal, the form of a Proxmox VMID). *)
Fixpoint digits_prefix (s : string) (acc : Z) : Z :=
  match s with
  | String c s' =>
      let d := Z.of_N (Ascii.N_of_ascii c) - 48 in
      if bool_decide (0 <= d <= 9) then digits_prefix s' (acc * 10 + d) else acc
  | EmptyString => acc
  end.

Definition HighestProviderID (db : DB) : Z :=
  match omap i_provider_id (instances db) with
  | [] => 0
  | p :: ps => foldl Z.max (digits_prefix p 0) ((fun q => digits_prefix q 0) <$> ps)
  end.

Definition FindUnhealthyProviderInstances (db : DB) : list Instance :=
  sel (fun i => not_deleted i && is_set (i_provider_id i) &&
                match i_provider_state i with
                | Some st => IsUnhealthy (st_status st)
                | None => false
                end) (instances db).

(** ** lb_instances.go *)

Definition lb_is (lbKey id : string) (r : LBInstance) : bool :=
  bool_decide (lb_key r = lbKey) && bool_decide (lb_instance_id r = id).

Definition UpsertLBInstance (now : Z) (lbKey id : string) (status : LBStatus) (db : DB) : res DB :=
  match affected (lb_is lbKey id) (lb_instances db) with
  | O =>
      if foreign_keys db && negb (bool_decide (id ∈ (i_id <$> instances db))) then Err ErrConstraint
      else Ok {| db with lb_instances := lb_instances db ++ [mkLBInstance lbKey id status now] |}
  | _ => Ok {| db with lb_instances :=
           upd (lb_is lbKey id) (fun r => {| r with lb_status := status; lb_updated_at := now |})
             (lb_instances db) |}
  end.

Definition GetLBInstancesForInstance (id : string) (db : DB) : list LBInstance :=
  sel (fun r => bool_decide (lb_instance_id r = id)) (lb_instances db).

Definition GetLBInstance (lbKey id : string) (db : DB) : option LBInstance :=
  head (sel (lb_is lbKey id) (lb_instances db)).

Definition DeleteLBInstancesForInstance (id : string) (db : DB) : res DB :=
  Ok {| db with lb_instances := del (fun r => bool_decide (lb_instance_id r = id)) (lb_instances db) |}.

Definition GetPendingOrFailedLBInstances (db : DB) : list LBInstance :=
  order_by lb_updated_at
    (sel (fun r => bool_decide (lb_status r ∈ [LBStatusPending; LBStatusFailed])) (lb_instances db)).

(** ** groups.go *)

Definition group_is (tenant groupKey : string) (g : Group) : bool :=
  bool_decide (g_tenant g = tenant) && bool_decide (g_group_key g = groupKey).

Definition upsert_group_row (now : Z) (h : GroupHashes) (l : list Group) : list Group :=
  match affected (group_is (gh_tenant h) (gh_group_key h)) l with
  | O => l ++ [mkGroup (gh_tenant h) (gh_group_key h) (Some (gh_runtime_hash h))
                 (Some (gh_infra_hash h)) (Some now) now None]
  | _ => upd (group_is (gh_tenant h) (gh_group_key h)) (fun g => {| g with
           g_runtime_config_hash := Some (gh_runtime_hash h);
           g_infra_config_hash := Some (gh_infra_hash h);
           g_hashes_updated_at := Some now;
           g_updated_at := Some now |}) l
  end.

Definition UpsertGroup (now : Z) (tenant groupKey runtimeHash infraHash : string) (db : DB) : res DB :=
  if bool_decide (tenant = "") then Err (ErrMsg "tenant is required")
  else Ok {| db with groups :=
         upsert_group_row now (mkGroupHashes tenant groupKey runtimeHash infraHash) (groups db) |}.

Fixpoint replace_group_rows (now : Z) (hs : list GroupHashes) (l : list Group) : res (list Group) :=
  match hs with
  | [] => Ok l
  | h :: hs' =>
      if bool_decide (gh_tenant h = "") then Err (ErrMsg "tenant is required")
      else replace_group_rows now hs' (upsert_group_row now h l)
  end.

Definition ReplaceGroupHashes (now : Z) (hs : list GroupHashes) (db : DB) : res DB :=
  l ← replace_group_rows now hs []; Ok {| db with groups := l |}.

Definition GetGroup (tenant groupKey : string) (db : DB) : res (option Group) :=
  if bool_decide (tenant = "") then Err (ErrMsg "tenant is required")
  else Ok (head (sel (group_is tenant groupKey) (groups db))).

Definition GetAllGroups (tenant : string) (db : DB) : res (gmap string Group) :=
  if bool_decide (tenant = "") then Err (ErrMsg "tenant is required")
  else Ok (foldl (fun m g => <[g_group_key g := g]> m) ∅
             (sel (fun g => bool_decide (g_tenant g = tenant)) (groups db))).

(** ** operators.go: the identifier comes from puidv7 *)

Definition CreateOperatorRegistrationRecord (now : Z) (id clusterID tenant nonce publicKeyPEM : string)
    (db : DB) : res DB :=
  if bool_decide (id ∈ (o_id <$> operators db)) || bool_decide (nonce ∈ (o_nonce <$> operators db))
  then Err ErrConstraint
  else Ok {| db with operators := operators db ++
         [mkOperator id clusterID tenant nonce (Some publicKeyPEM) now now None] |}.

Definition GetOperator (id : string) (db : DB) : res Operator :=
  match sel (fun o => bool_decide (o_id o = id)) (operators db) with
  | o :: _ => Ok o
  | [] => Err ErrNoRows
  end.

Definition GetOperatorByClusterID (clusterID : string) (db : DB) : res Operator :=
  match order_by_desc o_created_at (sel (fun o => bool_decide (o_cluster_id o = clusterID)) (operators db)) with
  | o :: _ => Ok o
  | [] => Err ErrNoRows
  end.

Definition UpdateOperatorRegistration (now : Z) (clusterID publicKey : string) (db : DB) : res DB :=
  let p := fun o => bool_decide (o_cluster_id o = clusterID) in
  match affected p (operators db) with
  | O => Err (ErrMsg "no operator found with cluster_id")
  | _ => Ok {| db with operators :=
           upd p (fun o => {| o with o_public_key := Some publicKey; o_updated_at := Some now |})
             (operators db) |}
  end.

(** ** images.go *)

Definition GetImages (db : DB) : gmap string string :=
  foldl (fun m im => <[img_name im := img_image_id im]> m) ∅ (images db).

Definition upsert_image_row (resolvedAt : Z) (im : string * string) (l : list Image) : list Image :=
  match affected (fun r => bool_decide (img_name r = im.1)) l with
  | O => l ++ [mkImage im.1 im.2 resolvedAt]
  | _ => upd (fun r => bool_decide (img_name r = im.1))
           (fun r => {| r with img_image_id := im.2; img_resolved_at := resolvedAt |}) l
  end.

Definition UpsertImages (m : gmap string string) (resolvedAt : Z) (db : DB) : res DB :=
  Ok {| db with images := foldl (fun l im => upsert_image_row resolvedAt im l) (images db) (map_to_list m) |}.

Definition GetImage (name : string) (db : DB) : res (string * Z) :=
  match sel (fun r => bool_decide (img_name r = name)) (images db) with
  | r :: _ => Ok (img_image_id r, img_resolved_at r)
  | [] => Err (ErrMsg "image not found in cache")
  end.

(** ** public_keys.go *)

(** [INSERT OR REPLACE]: the row with the same [(instance_id, filename)] is
    deleted and a new one takes the next identifier. *)
Definition store_key_row (now : Z) (id : string) (key : PublicKeySubmission) (db : DB) : DB :=
  {| db with
     public_keys :=
       del (fun r => bool_decide (pk_instance_id r = id) && bool_decide (pk_filename r = pks_filename key))
         (public_keys db) ++
       [mkPublicKey (pk_seq db + 1) id (pks_filename key) (pks_public_key_pem key) None now now (Some now)];
     pk_seq := pk_seq db + 1 |}.

Definition StorePublicKeys (now : Z) (id : string) (keys : list PublicKeySubmission) (db : DB) : res DB :=
  match keys with
  | [] => Ok db
  | _ => if foreign_keys db && negb (bool_decide (id ∈ (i_id <$> instances db))) then Err ErrConstraint
         else Ok (foldl (fun d key => store_key_row now id key d) db keys)
  end.

Definition GetPublicKeyByFilename (id filename : string) (db : DB) : option PublicKey :=
  head (order_by_desc pk_submitted_at
    (sel (fun r => bool_decide (pk_instance_id r = id) && bool_decide (pk_filename r = filename))
       (public_keys db))).

End LocalDB.
