(* ===== verification/LocalDBFacts.v ===== *)
(** * Properties of the local SQLite cache

    The table invariant and its preservation by every statement the package
    issues, the functional behaviour of the soft-delete life cycle, the group
    queries the reconciler decides on, the single-use registration nonce, and
    the two cache-seeding transactions. *)

From S2P Require Import Prelude Provider LocalDB.
Import LocalDB.

(** ** The table invariant: the schema's keys and foreign keys *)

Record db_wf (db : DB) : Prop := mk_db_wf {
  wf_ids : NoDup (i_id <$> instances db);
  wf_nonces : NoDup (i_nonce <$> instances db);
  wf_lb : NoDup ((fun r => (lb_key r, lb_instance_id r)) <$> lb_instances db);
  wf_groups : NoDup ((fun g => (g_tenant g, g_group_key g)) <$> groups db);
  wf_op_ids : NoDup (o_id <$> operators db);
  wf_op_nonces : NoDup (o_nonce <$> operators db);
  wf_images : NoDup (img_name <$> images db);
  wf_pk : NoDup ((fun r => (pk_instance_id r, pk_filename r)) <$> public_keys db);
  wf_pk_ids : NoDup (pk_id <$> public_keys db);
  wf_pk_seq : Forall (fun r => pk_id r <= pk_seq db) (public_keys db);
  wf_fk : foreign_keys db = true -> forall id, referenced db id = true -> id ∈ (i_id <$> instances db);
}.

(** Every state-changing method of the package, as one step. *)
Inductive db_step : DB -> DB -> Prop :=
  | step_create inst db db' : CreateInstance inst db = Ok db' -> db_step db db'
  | step_update now inst db db' : UpdateInstance now inst db = Ok db' -> db_step db db'
  | step_delete now id db db' : DeleteInstance now id db = Ok db' -> db_step db db'
  | step_purge id db db' : PurgeDeletedInstance id db = Ok db' -> db_step db db'
  | step_registered now id pem ip4 ip6 host db db' :
      MarkInstanceRegistered now id pem ip4 ip6 host db = Ok db' -> db_step db db'
  | step_agent_reg now id nonce pem db db' :
      CreateAgentRegistrationRecord now id nonce pem db = Ok db' -> db_step db db'
  | step_health now id h db db' : UpdateInstanceHealth now id h db = Ok db' -> db_step db db'
  | step_state now id st db db' : UpdateInstanceProviderState now id st db = Ok db' -> db_step db db'
  | step_seed_provider now insts db db' : SeedFromProviderData now insts db = Ok db' -> db_step db db'
  | step_seed_s3 now insts db db' : SeedFromS3Data now insts db = Ok db' -> db_step db db'
  | step_drain now id db db' : MarkDrainStarted now id db = Ok db' -> db_step db db'
  | step_ack now id db db' : MarkDrainAcked now id db = Ok db' -> db_step db db'
  | step_mark_deleted now ids db db' : MarkInstancesDeleted now ids db = Ok db' -> db_step db db'
  | step_missing now own ids db db' :
      MarkInstancesDeletedIfProviderMissing now own db = Ok (db', ids) -> db_step db db'
  | step_lb_upsert now k id st db db' : UpsertLBInstance now k id st db = Ok db' -> db_step db db'
  | step_lb_delete id db db' : DeleteLBInstancesForInstance id db = Ok db' -> db_step db db'
  | step_group now t g r i db db' : UpsertGroup now t g r i db = Ok db' -> db_step db db'
  | step_groups now hs db db' : ReplaceGroupHashes now hs db = Ok db' -> db_step db db'
  | step_operator now id c t n pem db db' :
      CreateOperatorRegistrationRecord now id c t n pem db = Ok db' -> db_step db db'
  | step_operator_upd now c pem db db' : UpdateOperatorRegistration now c pem db = Ok db' -> db_step db db'
  | step_images m at_ db db' : UpsertImages m at_ db = Ok db' -> db_step db db'
  | step_keys now id keys db db' : StorePublicKeys now id keys db = Ok db' -> db_step db db'.

(** ** Inversion of the shared statement shapes *)

Lemma update_or_norows_Ok p f db db' :
  update_or_norows p f db = Ok db' ->
  db' = with_instances (upd p f (instances db)) db /\ exists i, i ∈ instances db /\ p i = true.
Proof.
  unfold update_or_norows. destruct (affected p (instances db)) eqn:Haff; [done|].
  intros [= <-]. split; [done|]. unfold affected in Haff.
  destruct (sel p (instances db)) as [|i l] eqn:Hsel; [done|].
  exists i. assert (i ∈ sel p (instances db)) as Hi by (rewrite Hsel; set_solver).
  apply elem_of_sel in Hi. tauto.
Qed.

Lemma update_or_norows_Err p f db e :
  update_or_norows p f db = Err e -> e = ErrNoRows /\ forall i, i ∈ instances db -> p i = false.
Proof.
  unfold update_or_norows. destruct (affected p (instances db)) eqn:Haff; [|done].
  intros [= <-]. split; [done|]. by apply affected_0.
Qed.

Lemma delete_instances_Ok p db db' :
  delete_instances p db = Ok db' ->
  db' = with_instances (del p (instances db)) db /\
  (foreign_keys db = true -> forall i, i ∈ instances db -> p i = true -> referenced db (i_id i) = false).
Proof.
  unfold delete_instances. destruct (foreign_keys db) eqn:Hfk; simpl.
  - destruct (existsb _ _) eqn:Hex; [done|]. intros [= <-]. split; [done|].
    intros _ i Hi Hp. apply Bool.not_true_is_false. intros Href.
    assert (existsb (fun i => referenced db (i_id i)) (sel p (instances db)) = true) as Hc; [|congruence].
    apply existsb_exists. exists i. split; [|done].
    apply list_elem_of_In. by apply elem_of_sel.
  - intros [= <-]. done.
Qed.

(** ** Preservation of the invariant, table by table *)

(** Replacing the [instances] table by one with the same identifiers and
    distinct nonces keeps the invariant. *)
Lemma db_wf_with_instances db l :
  db_wf db -> i_id <$> l = i_id <$> instances db -> NoDup (i_nonce <$> l) ->
  db_wf (with_instances l db).
Proof.
  intros [] Hids Hn. split; simpl; try done; [by rewrite Hids|].
  intros Hfk id Href. rewrite Hids. auto.
Qed.

Lemma db_wf_upd db p f :
  db_wf db -> (forall i, i_id (f i) = i_id i) -> (forall i, i_nonce (f i) = i_nonce i) ->
  db_wf (with_instances (upd p f (instances db)) db).
Proof.
  intros Hwf Hid Hn. apply db_wf_with_instances; [done|by apply fmap_upd_key|].
  rewrite fmap_upd_key by done. apply Hwf.
Qed.

Lemma db_wf_delete_instances db p db' :
  db_wf db -> delete_instances p db = Ok db' -> db_wf db'.
Proof.
  intros Hwf [-> Hfk]%delete_instances_Ok. destruct Hwf.
  split; simpl; try done; try (by apply NoDup_fmap_del).
  intros Hon id Href. specialize (wf_fk0 Hon id Href).
  apply list_elem_of_fmap in wf_fk0 as (i & -> & Hi). apply list_elem_of_fmap.
  exists i. split; [done|]. apply elem_of_del. split; [|done].
  apply Bool.not_true_is_false. intros Hp. specialize (Hfk Hon i Hi Hp).
  unfold referenced in *. simpl in *. congruence.
Qed.

(** A chain of in-place updates, the shape of the seeding and bulk-delete
    transactions. *)
Lemma foldl_upd_keys {B K} (key : Instance -> K) (p : B -> Instance -> bool) (f : B -> Instance -> Instance)
    (bs : list B) l :
  (forall b i, key (f b i) = key i) ->
  key <$> foldl (fun l b => upd (p b) (f b) l) l bs = key <$> l.
Proof.
  intros Hf. revert l. induction bs as [|b bs IH]; intros l; [done|].
  simpl. rewrite IH. apply fmap_upd_key. auto.
Qed.

Lemma seed_s3_row_ids t inst l l' :
  seed_s3_row t inst l = Ok l' ->
  NoDup (i_id <$> l) -> NoDup (i_nonce <$> l) ->
  NoDup (i_id <$> l') /\ NoDup (i_nonce <$> l') /\ (forall id, id ∈ (i_id <$> l) -> id ∈ (i_id <$> l')).
Proof.
  unfold seed_s3_row. intros H Hid Hn.
  destruct (existsb _ l) eqn:Hex; [done|].
  assert (forall i, i ∈ l -> i_id i ≠ i_id inst -> i_nonce i ≠ i_nonce inst) as Hother.
  { intros i Hi Hne Heq. assert (existsb (fun i => bool_decide (i_id i ≠ i_id inst) &&
      bool_decide (i_nonce i = i_nonce inst)) l = true) as Hc; [|congruence].
    apply existsb_exists. exists i. rewrite !bool_decide_true by done.
    split; [by apply list_elem_of_In|done]. }
  case_bool_decide as Hin; simplify_eq.
  - rewrite fmap_upd_key by done. split_and!; [done| |done].
    apply NoDup_fmap_upd_fresh with (v := i_nonce inst); [done|by apply affected_key_le_1|done|].
    intros i Hi Hne%bool_decide_eq_false. auto.
  - split_and!.
    + by apply NoDup_fmap_snoc.
    + apply NoDup_fmap_snoc; [done|]. rewrite list_elem_of_fmap. intros (i & Heq & Hi).
      eapply Hother; [done| |done]. intros Heq'. apply Hin. rewrite <-Heq'.
      apply list_elem_of_fmap. eauto.
    + intros id. rewrite fmap_app. set_solver.
Qed.

Lemma seed_s3_rows_ids t insts l l' :
  seed_s3_rows t insts l = Ok l' ->
  NoDup (i_id <$> l) -> NoDup (i_nonce <$> l) ->
  NoDup (i_id <$> l') /\ NoDup (i_nonce <$> l') /\ (forall id, id ∈ (i_id <$> l) -> id ∈ (i_id <$> l')).
Proof.
  revert l. induction insts as [|inst insts IH]; simpl; intros l H Hid Hn; [simplify_eq; auto|].
  destruct (seed_s3_row t inst l) as [l1|] eqn:H1; simpl in H; [|done].
  destruct (seed_s3_row_ids _ _ _ _ H1 Hid Hn) as (Hid1 & Hn1 & Hsub1).
  destruct (IH _ H Hid1 Hn1) as (? & ? & Hsub). split_and!; auto.
Qed.

Lemma db_wf_seed_s3 t insts db db' :
  db_wf db -> SeedFromS3Data t insts db = Ok db' -> db_wf db'.
Proof.
  unfold SeedFromS3Data. intros Hwf H.
  destruct (seed_s3_rows _ _ _) as [l|] eqn:Hl; simpl in H; [|done].
  destruct (seed_s3_rows_ids _ _ _ _ Hl (wf_ids _ Hwf) (wf_nonces _ Hwf)) as (? & ? & Hsub).
  eapply db_wf_delete_instances; [|exact H].
  destruct Hwf. split; simpl; try done. intros Hfk id Href. auto.
Qed.

Lemma db_wf_lb_upsert t k id st db db' :
  db_wf db -> UpsertLBInstance t k id st db = Ok db' -> db_wf db'.
Proof.
  unfold UpsertLBInstance. intros Hwf H.
  destruct (affected _ _) as [|n] eqn:Haff.
  - destruct (_ && _) eqn:Hfk; [done|]. simplify_eq. destruct Hwf. split; simpl; try done.
    + apply NoDup_fmap_snoc; [done|]. simpl. rewrite list_elem_of_fmap. intros (r & [= -> ->] & Hr).
      pose proof (proj1 (affected_0 _ _) Haff r Hr) as Hc.
      unfold lb_is in Hc. by rewrite !bool_decide_true in Hc.
    + intros Hon id'. unfold referenced. simpl. rewrite Hon in Hfk. simpl in Hfk.
      apply Bool.negb_false_iff, bool_decide_eq_true in Hfk.
      rewrite orb_true_iff, !bool_decide_eq_true, fmap_app, elem_of_app. simpl.
      rewrite list_elem_of_singleton. intros [Hp|[Hl| ->]]; [| |done];
        apply wf_fk0; try done; unfold referenced;
        rewrite orb_true_iff, !bool_decide_eq_true; auto.
  - simplify_eq. destruct Hwf. split; simpl; try done.
    + by rewrite fmap_upd_key.
    + intros Hon id'. unfold referenced. simpl. rewrite fmap_upd_key by done. by apply wf_fk0.
Qed.

Lemma db_wf_lb_delete id db db' :
  db_wf db -> DeleteLBInstancesForInstance id db = Ok db' -> db_wf db'.
Proof.
  unfold DeleteLBInstancesForInstance. intros Hwf [= <-]. destruct Hwf. split; simpl; try done.
  - by apply NoDup_fmap_del.
  - intros Hon id'. unfold referenced. simpl.
    rewrite orb_true_iff, !bool_decide_eq_true. intros H. apply wf_fk0; [done|].
    unfold referenced. rewrite orb_true_iff, !bool_decide_eq_true.
    destruct H as [?|?%elem_of_fmap_del]; auto.
Qed.

Lemma upsert_group_row_keys t h l :
  NoDup ((fun g => (g_tenant g, g_group_key g)) <$> l) ->
  NoDup ((fun g => (g_tenant g, g_group_key g)) <$> upsert_group_row t h l).
Proof.
  unfold upsert_group_row. intros Hnd. destruct (affected _ _) as [|n] eqn:Haff.
  - apply NoDup_fmap_snoc; [done|]. simpl. rewrite list_elem_of_fmap. intros (g & [= Ht Hk] & Hg).
    pose proof (proj1 (affected_0 _ _) Haff g Hg) as Hc.
    unfold group_is in Hc. by rewrite !bool_decide_true in Hc.
  - by rewrite fmap_upd_key.
Qed.

Lemma replace_group_rows_keys t hs l l' :
  replace_group_rows t hs l = Ok l' ->
  NoDup ((fun g => (g_tenant g, g_group_key g)) <$> l) ->
  NoDup ((fun g => (g_tenant g, g_group_key g)) <$> l').
Proof.
  revert l. induction hs as [|h hs IH]; simpl; intros l H Hnd; [by simplify_eq|].
  case_bool_decide; [done|]. eapply IH; [exact H|]. by apply upsert_group_row_keys.
Qed.

Lemma upsert_image_row_keys t im l :
  NoDup (img_name <$> l) -> NoDup (img_name <$> upsert_image_row t im l).
Proof.
  unfold upsert_image_row. intros Hnd. destruct (affected _ _) as [|n] eqn:Haff.
  - apply NoDup_fmap_snoc; [done|]. simpl. rewrite list_elem_of_fmap. intros (r & Hr & Hin).
    pose proof (proj1 (affected_0 _ _) Haff r Hin) as Hc. simpl in Hc. by rewrite bool_decide_true in Hc.
  - by rewrite fmap_upd_key.
Qed.

Lemma db_wf_store_key t id key db :
  db_wf db -> (foreign_keys db = true -> id ∈ (i_id <$> instances db)) ->
  db_wf (store_key_row t id key db).
Proof.
  intros [] Hid. split; simpl; try done.
  - apply NoDup_fmap_snoc; [by apply NoDup_fmap_del|]. simpl.
    rewrite list_elem_of_fmap. intros (r & [= Hr1 Hr2] & [Hp Hin]%elem_of_del).
    by rewrite !bool_decide_true in Hp.
  - apply NoDup_fmap_snoc; [by apply NoDup_fmap_del|]. simpl.
    rewrite list_elem_of_fmap. intros (r & Hr & [Hp Hin]%elem_of_del).
    rewrite Forall_forall in wf_pk_seq0. specialize (wf_pk_seq0 r Hin). lia.
  - rewrite Forall_app. split; [|by apply Forall_singleton; simpl; lia].
    rewrite Forall_forall in wf_pk_seq0 |- *. intros r [_ Hr]%elem_of_del.
    specialize (wf_pk_seq0 r Hr). lia.
  - intros Hon id'. unfold referenced. simpl.
    rewrite orb_true_iff, !bool_decide_eq_true, fmap_app, elem_of_app. simpl.
    rewrite list_elem_of_singleton. intros [[Hp%elem_of_fmap_del| ->]|Hl]; auto;
      apply wf_fk0; try done; unfold referenced;
      rewrite orb_true_iff, !bool_decide_eq_true; auto.
Qed.

Lemma db_wf_store_keys t id keys db :
  db_wf db -> (foreign_keys db = true -> id ∈ (i_id <$> instances db)) ->
  db_wf (foldl (fun d key => store_key_row t id key d) db keys).
Proof.
  revert db. induction keys as [|k keys IH]; intros db Hwf Hid; [done|]. simpl.
  apply IH; [by apply db_wf_store_key|done].
Qed.

Create HintDb db_wf.
#[export] Hint Resolve db_wf_upd db_wf_delete_instances db_wf_seed_s3 db_wf_lb_upsert
  db_wf_lb_delete : db_wf.

Lemma db_wf_update_or_norows p f db db' :
  db_wf db -> (forall i, i_id (f i) = i_id i) -> (forall i, i_nonce (f i) = i_nonce i) ->
  update_or_norows p f db = Ok db' -> db_wf db'.
Proof. intros Hwf ?? [-> _]%update_or_norows_Ok. auto with db_wf. Qed.

Lemma mark_deleted_rows_key {K} (key : Instance -> K) t ids l :
  (forall i, key {| i with i_deleted_at := Some t; i_updated_at := Some t |} = key i) ->
  key <$> mark_deleted_rows t ids l = key <$> l.
Proof. intros Hk. unfold mark_deleted_rows. by rewrite foldl_upd_keys by (intros; apply Hk). Qed.

Lemma MarkInstancesDeleted_eq t ids db :
  MarkInstancesDeleted t ids db = Ok (with_instances (mark_deleted_rows t ids (instances db)) db).
Proof. destruct ids as [|id ids]; [by destruct db|done]. Qed.

Lemma db_wf_mark_deleted t ids db db' :
  db_wf db -> MarkInstancesDeleted t ids db = Ok db' -> db_wf db'.
Proof.
  rewrite MarkInstancesDeleted_eq. intros Hwf [= <-].
  apply db_wf_with_instances; [done|by rewrite mark_deleted_rows_key|].
  rewrite mark_deleted_rows_key by done. apply (wf_nonces _ Hwf).
Qed.

Lemma db_wf_missing t own db db' ids :
  db_wf db -> MarkInstancesDeletedIfProviderMissing t own db = Ok (db', ids) -> db_wf db'.
Proof.
  unfold MarkInstancesDeletedIfProviderMissing. intros Hwf H.
  destruct (MarkInstancesDeleted _ _ _) eqn:Hm; simpl in H; simplify_eq. by eapply db_wf_mark_deleted.
Qed.

Lemma db_wf_seed_provider t insts db db' :
  db_wf db -> SeedFromProviderData t insts db = Ok db' -> db_wf db'.
Proof.
  unfold SeedFromProviderData, seed_provider_row. intros Hwf [= <-].
  apply db_wf_with_instances; [done|by rewrite foldl_upd_keys|].
  rewrite foldl_upd_keys by done. apply (wf_nonces _ Hwf).
Qed.

Lemma db_wf_create inst db db' : db_wf db -> CreateInstance inst db = Ok db' -> db_wf db'.
Proof.
  unfold CreateInstance. intros Hwf H. destruct (_ || _) eqn:Hc; [done|]. simplify_eq.
  apply orb_false_iff in Hc as [Hc1%bool_decide_eq_false Hc2%bool_decide_eq_false].
  destruct Hwf. split; simpl; try done; try (by apply NoDup_fmap_snoc).
  intros Hon id' Href. rewrite fmap_app, elem_of_app. left. by apply wf_fk0.
Qed.

Lemma db_wf_purge id db db' : db_wf db -> PurgeDeletedInstance id db = Ok db' -> db_wf db'.
Proof.
  unfold PurgeDeletedInstance. intros Hwf H.
  destruct (delete_instances _ _) as [d|] eqn:Hd; simpl in H; [|done].
  destruct (affected _ _); simplify_eq. eauto with db_wf.
Qed.

Lemma db_wf_group t tn g r i db db' : db_wf db -> UpsertGroup t tn g r i db = Ok db' -> db_wf db'.
Proof.
  unfold UpsertGroup. intros Hwf H. case_bool_decide; simplify_eq. destruct Hwf. split; simpl; try done.
  by apply upsert_group_row_keys.
Qed.

Lemma db_wf_groups t hs db db' : db_wf db -> ReplaceGroupHashes t hs db = Ok db' -> db_wf db'.
Proof.
  unfold ReplaceGroupHashes. intros Hwf H.
  destruct (replace_group_rows _ _ _) eqn:Hr; simpl in H; simplify_eq.
  destruct Hwf. split; simpl; try done. eapply replace_group_rows_keys; [exact Hr|constructor].
Qed.

Lemma db_wf_operator t id c tn n pem db db' :
  db_wf db -> CreateOperatorRegistrationRecord t id c tn n pem db = Ok db' -> db_wf db'.
Proof.
  unfold CreateOperatorRegistrationRecord. intros Hwf H. destruct (_ || _) eqn:Hc; [done|]. simplify_eq.
  apply orb_false_iff in Hc as [Hc1%bool_decide_eq_false Hc2%bool_decide_eq_false].
  destruct Hwf. split; simpl; try done; by apply NoDup_fmap_snoc.
Qed.

Lemma db_wf_operator_upd t c pem db db' :
  db_wf db -> UpdateOperatorRegistration t c pem db = Ok db' -> db_wf db'.
Proof.
  unfold UpdateOperatorRegistration. intros Hwf H. destruct (affected _ _); simplify_eq.
  destruct Hwf. split; simpl; try done; by rewrite fmap_upd_key.
Qed.

Lemma db_wf_upsert_images m t db db' : db_wf db -> UpsertImages m t db = Ok db' -> db_wf db'.
Proof.
  unfold UpsertImages. intros Hwf H. simplify_eq. destruct Hwf. split; simpl; try done.
  revert wf_images0. generalize (images db), (map_to_list m). intros l ims. revert l.
  induction ims as [|im ims IH]; intros l Hl; [done|]. simpl. by apply IH, upsert_image_row_keys.
Qed.

Lemma db_wf_public_keys t id keys db db' :
  db_wf db -> StorePublicKeys t id keys db = Ok db' -> db_wf db'.
Proof.
  unfold StorePublicKeys. intros Hwf H. destruct keys as [|k keys]; [by simplify_eq|].
  destruct (_ && _) eqn:Hfk; [done|]. injection H as <-. apply (db_wf_store_keys _ _ (k :: keys)); [done|].
  intros Hon. rewrite Hon in Hfk. simpl in Hfk. by apply Bool.negb_false_iff, bool_decide_eq_true in Hfk.
Qed.

Lemma db_wf_registered t id pem ip4 ip6 h db db' :
  db_wf db -> MarkInstanceRegistered t id pem ip4 ip6 h db = Ok db' -> db_wf db'.
Proof. unfold MarkInstanceRegistered. intros Hwf H. simplify_eq. by apply db_wf_upd. Qed.

Lemma db_wf_UpdateInstance t inst db db' :
  db_wf db -> UpdateInstance t inst db = Ok db' -> db_wf db'.
Proof. unfold UpdateInstance. intros Hwf H. by apply (db_wf_update_or_norows _ _ _ _ Hwf) in H. Qed.

Lemma db_wf_DeleteInstance t id db db' :
  db_wf db -> DeleteInstance t id db = Ok db' -> db_wf db'.
Proof. unfold DeleteInstance. intros Hwf H. by apply (db_wf_update_or_norows _ _ _ _ Hwf) in H. Qed.

Lemma db_wf_CreateAgentRegistrationRecord t id nonce pem db db' :
  db_wf db -> CreateAgentRegistrationRecord t id nonce pem db = Ok db' -> db_wf db'.
Proof. unfold CreateAgentRegistrationRecord. intros Hwf H. by apply (db_wf_update_or_norows _ _ _ _ Hwf) in H. Qed.

Lemma db_wf_UpdateInstanceHealth t id h db db' :
  db_wf db -> UpdateInstanceHealth t id h db = Ok db' -> db_wf db'.
Proof. unfold UpdateInstanceHealth. intros Hwf H. by apply (db_wf_update_or_norows _ _ _ _ Hwf) in H. Qed.

Lemma db_wf_UpdateInstanceProviderState t id st db db' :
  db_wf db -> UpdateInstanceProviderState t id st db = Ok db' -> db_wf db'.
Proof. unfold UpdateInstanceProviderState. intros Hwf H. by apply (db_wf_update_or_norows _ _ _ _ Hwf) in H. Qed.

Lemma db_wf_MarkDrainStarted t id db db' :
  db_wf db -> MarkDrainStarted t id db = Ok db' -> db_wf db'.
Proof. unfold MarkDrainStarted. intros Hwf H. by apply (db_wf_update_or_norows _ _ _ _ Hwf) in H. Qed.

Lemma db_wf_MarkDrainAcked t id db db' :
  db_wf db -> MarkDrainAcked t id db = Ok db' -> db_wf db'.
Proof. unfold MarkDrainAcked. intros Hwf H. by apply (db_wf_update_or_norows _ _ _ _ Hwf) in H. Qed.

Lemma db_wf_empty fk : db_wf (empty_db fk).
Proof. split; simpl; try constructor. done. Qed.

Lemma db_step_wf db db' : db_step db db' -> db_wf db -> db_wf db'.
Proof.
  intros Hstep Hwf. destruct Hstep;
    [eapply db_wf_create|eapply db_wf_UpdateInstance|eapply db_wf_DeleteInstance|eapply db_wf_purge
    |eapply db_wf_registered|eapply db_wf_CreateAgentRegistrationRecord|eapply db_wf_UpdateInstanceHealth
    |eapply db_wf_UpdateInstanceProviderState|eapply db_wf_seed_provider|eapply db_wf_seed_s3
    |eapply db_wf_MarkDrainStarted|eapply db_wf_MarkDrainAcked|eapply db_wf_mark_deleted
    |eapply db_wf_missing|eapply db_wf_lb_upsert|eapply db_wf_lb_delete|eapply db_wf_group
    |eapply db_wf_groups|eapply db_wf_operator|eapply db_wf_operator_upd|eapply db_wf_upsert_images
    |eapply db_wf_public_keys]; eassumption.
Qed.

Lemma db_steps_wf db db' : rtc db_step db db' -> db_wf db -> db_wf db'.
Proof. induction 1; eauto using db_step_wf. Qed.

(** Whatever sequence of methods runs on a fresh database, instance
    identifiers and nonces stay unique, every table keeps its primary key, and
    with foreign keys enforced no load-balancer or public-key row refers to a
    missing instance. *)
Theorem reachable_db_wf fk db : rtc db_step (empty_db fk) db -> db_wf db.
Proof. intros H. eapply db_steps_wf; [exact H|apply db_wf_empty]. Qed.

(** ** Lookup by identifier *)

Lemma live_id_true id i : live_id id i = true <-> i_id i = id /\ i_deleted_at i = None.
Proof. unfold live_id, not_deleted. rewrite andb_true_iff, !bool_decide_eq_true. done. Qed.

Lemma first_row_Ok l i : first_row l = Ok i -> i ∈ l.
Proof. destruct l; simpl; [done|]. intros [= ->]. set_solver. Qed.

Lemma GetInstance_Ok id db i :
  GetInstance id db = Ok i -> i ∈ instances db /\ i_id i = id /\ i_deleted_at i = None.
Proof. unfold GetInstance. intros [Hl Hi]%first_row_Ok%elem_of_sel. by apply live_id_true in Hl. Qed.

Lemma GetInstance_Err id db e :
  GetInstance id db = Err e -> e = ErrNoRows /\ forall i, i ∈ instances db -> live_id id i = false.
Proof.
  unfold GetInstance. destruct (sel _ _) eqn:Hs; simpl; [|done]. intros [= <-]. split; [done|].
  intros i Hi. apply Bool.not_true_is_false. intros Hl.
  assert (i ∈ sel (live_id id) (instances db)) as Hc by (by apply elem_of_sel).
  rewrite Hs in Hc. by apply elem_of_nil in Hc.
Qed.

Lemma GetInstance_wf id db i :
  db_wf db ->
  GetInstance id db = Ok i <-> i ∈ instances db /\ i_id i = id /\ i_deleted_at i = None.
Proof.
  intros Hwf. split; [apply GetInstance_Ok|]. intros (Hi & Hid & Hd).
  destruct (GetInstance id db) as [j|e] eqn:Hg.
  - apply GetInstance_Ok in Hg as (Hj & Hjid & _). f_equal.
    eapply (NoDup_fmap_inj i_id); [apply (wf_ids _ Hwf)|done|done|congruence].
  - apply GetInstance_Err in Hg as [_ Hall]. specialize (Hall i Hi).
    assert (live_id id i = true) by (by apply live_id_true). congruence.
Qed.

(** [GetInstance] reads only the [instances] table, through rows that carry the
    identifier. *)
Lemma GetInstance_ext id db db' :
  sel (live_id id) (instances db) = sel (live_id id) (instances db') ->
  GetInstance id db = GetInstance id db'.
Proof. unfold GetInstance. by intros ->. Qed.

Lemma sel_upd_other (q p : Instance -> bool) f l :
  (forall i, p i = true -> q i = false /\ q (f i) = false) -> sel q (upd p f l) = sel q l.
Proof.
  intros H. unfold sel, upd. induction l as [|i l IH]; [done|]. rewrite fmap_cons, !filter_cons.
  destruct (p i) eqn:Hp; [|by rewrite IH].
  destruct (H i Hp) as [H1 H2]. by rewrite H1, H2, !decide_False by done.
Qed.

(** An in-place update of one live row that keeps its identifier and stays
    live: what later lookups see. *)
Lemma GetInstance_upd_live id f db i :
  db_wf db -> (forall j, i_id (f j) = i_id j) -> (forall j, i_nonce (f j) = i_nonce j) ->
  (forall j, i_deleted_at (f j) = i_deleted_at j) ->
  GetInstance id db = Ok i ->
  GetInstance id (with_instances (upd (live_id id) f (instances db)) db) = Ok (f i).
Proof.
  intros Hwf Hid Hn Hd Hg. apply GetInstance_Ok in Hg as (Hi & Hiid & Hidel).
  apply GetInstance_wf; [by apply db_wf_upd|]. split_and!.
  - simpl. apply elem_of_upd. exists i. split; [done|].
    by rewrite (proj2 (live_id_true id i)).
  - by rewrite Hid.
  - by rewrite Hd.
Qed.

Lemma GetInstance_upd_other id id' f db :
  id' ≠ id -> (forall j, i_id (f j) = i_id j) ->
  GetInstance id' (with_instances (upd (live_id id) f (instances db)) db) = GetInstance id' db.
Proof.
  intros Hne Hid. apply GetInstance_ext. simpl. apply sel_upd_other.
  intros i [Hi _]%live_id_true. unfold live_id. rewrite Hid, !bool_decide_false by congruence. done.
Qed.

(** ** Group membership queries *)

Lemma in_group_true t g i : in_group t g i = true <-> i_tenant i = t /\ i_group i = g.
Proof. unfold in_group. rewrite andb_true_iff, !bool_decide_eq_true. done. Qed.

Lemma elem_of_group_rows t g ex db i :
  i ∈ group_rows t g ex db <->
  i ∈ instances db /\ i_tenant i = t /\ i_group i = g /\ active i = true /\
  (ex = true -> i_on_demand i = false).
Proof.
  unfold group_rows. rewrite elem_of_sel, !andb_true_iff, in_group_true.
  destruct ex, (i_on_demand i); simpl; naive_solver.
Qed.

Lemma elem_of_GetInstancesByGroup t g ex db id :
  id ∈ GetInstancesByGroup t g ex db <-> exists i, i ∈ group_rows t g ex db /\ i_id i = id.
Proof.
  unfold GetInstancesByGroup. rewrite list_elem_of_fmap.
  split; intros (i & ? & Hi); exists i; rewrite ?elem_of_order_by in *; naive_solver.
Qed.

(** The reconciler's view of a group: the identifiers come from exactly the
    rows of that tenant and group that are neither deleted nor in a
    [deleting]/[deleted] provider state (nor on-demand, when excluded), oldest
    first and without repetition, and the count query agrees with the list. *)
Theorem group_query_spec t g ex db :
  db_wf db ->
  (forall id, id ∈ GetInstancesByGroup t g ex db <->
     exists i, i ∈ instances db /\ i_id i = id /\ i_tenant i = t /\ i_group i = g /\
       i_deleted_at i = None /\
       (forall st, i_provider_state i = Some st -> st_status st ∉ [StatusDeleting; StatusDeleted]) /\
       (ex = true -> i_on_demand i = false)) /\
  NoDup (GetInstancesByGroup t g ex db) /\
  (exists rows, GetInstancesByGroup t g ex db = i_id <$> rows /\
     StronglySorted (fun a b => i_created_at a <= i_created_at b) rows) /\
  GetInstanceCountByGroup t g ex db = Z.of_nat (length (GetInstancesByGroup t g ex db)).
Proof.
  intros Hwf. split_and!.
  - intros id. rewrite elem_of_GetInstancesByGroup. setoid_rewrite elem_of_group_rows.
    assert (forall i, active i = true <-> i_deleted_at i = None /\
      forall st, i_provider_state i = Some st -> st_status st ∉ [StatusDeleting; StatusDeleted]) as Hact.
    { intros i. unfold active, not_deleted, status_ok, status_gone.
      rewrite andb_true_iff, bool_decide_eq_true.
      destruct (i_provider_state i) as [st|]; [|naive_solver].
      rewrite Bool.negb_true_iff, bool_decide_eq_false. naive_solver. }
    setoid_rewrite Hact. naive_solver.
  - unfold GetInstancesByGroup. rewrite order_by_perm.
    apply NoDup_fmap_sel, (wf_ids _ Hwf).
  - exists (order_by i_created_at (group_rows t g ex db)). split; [done|]. apply order_by_sorted.
  - unfold GetInstanceCountByGroup, GetInstancesByGroup. by rewrite length_fmap, length_order_by.
Qed.

(** ** Soft delete *)

Lemma DeleteInstance_Ok now id db db' :
  DeleteInstance now id db = Ok db' ->
  db' = with_instances (upd (live_id id)
     (fun i => {| i with i_deleted_at := Some now; i_updated_at := Some now |}) (instances db)) db /\
  exists i, i ∈ instances db /\ live_id id i = true.
Proof. apply update_or_norows_Ok. Qed.

(** After a soft delete no row of that identifier is live. *)
Lemma deleted_not_live now id db db' i :
  DeleteInstance now id db = Ok db' -> i ∈ instances db' -> live_id id i = false.
Proof.
  intros [-> _]%DeleteInstance_Ok Hi. simpl in Hi. apply elem_of_upd in Hi as (j & Hj & ->).
  apply Bool.not_true_is_false. intros [Hid Hd]%live_id_true.
  destruct (live_id id j) eqn:Hl; simpl in *; [done|].
  by rewrite (proj2 (live_id_true id j)) in Hl.
Qed.

(** Soft delete: the instance disappears from lookups and from every group
    listing, every other instance's lookup is unchanged, a second delete reports
    [sql.ErrNoRows], and the row stays visible to the retention sweep until it is
    purged. *)
Theorem soft_delete_spec now id db db' :
  DeleteInstance now id db = Ok db' ->
  GetInstance id db' = Err ErrNoRows /\
  (forall id', id' ≠ id -> GetInstance id' db' = GetInstance id' db) /\
  (forall t g ex i, i ∈ group_rows t g ex db' -> i_id i ≠ id) /\
  (forall now', DeleteInstance now' id db' = Err ErrNoRows) /\
  (forall cutoff, now < cutoff ->
     exists i, i ∈ FindDeletedInstancesPastRetention cutoff db' /\ i_id i = id).
Proof.
  intros H. pose proof (fun i => deleted_not_live _ _ _ _ i H) as Hdead. split_and!.
  - destruct (GetInstance id db') as [i|e] eqn:Hg.
    + apply GetInstance_Ok in Hg as (Hi & Hid & Hd).
      specialize (Hdead i Hi). by rewrite (proj2 (live_id_true id i)) in Hdead.
    + apply GetInstance_Err in Hg as [-> _]. done.
  - intros id' Hne. apply DeleteInstance_Ok in H as [-> _]. by apply GetInstance_upd_other.
  - intros t g ex i (Hi & _ & _ & Hact & _)%elem_of_group_rows Hid.
    specialize (Hdead i Hi). unfold live_id, active in *. rewrite bool_decide_true in Hdead by done.
    simpl in Hdead. by rewrite Hdead in Hact.
  - intros now'. unfold DeleteInstance, update_or_norows.
    by rewrite (proj2 (affected_0 (live_id id) (instances db'))).
  - intros cutoff Hlt. apply DeleteInstance_Ok in H as [-> (i & Hi & Hl)].
    exists {| i with i_deleted_at := Some now; i_updated_at := Some now |}. split; [|by apply live_id_true in Hl as []].
    unfold FindDeletedInstancesPastRetention. apply elem_of_sel. simpl.
    rewrite bool_decide_true by done. split; [done|]. apply elem_of_upd. exists i. by rewrite Hl.
Qed.

(** ** Cache rebuild from the provider *)

Lemma elem_of_mark_deleted_rows t ids l i :
  i ∈ mark_deleted_rows t ids l ->
  exists j, j ∈ l /\ i_id j = i_id i /\
    (((i_id i ∉ ids) /\ i = j) \/
     ((i_id i ∈ ids) /\ i = {| j with i_deleted_at := Some t; i_updated_at := Some t |})).
Proof.
  unfold mark_deleted_rows. revert l. induction ids as [|id ids IH]; intros l Hi; simpl in Hi.
  { exists i. set_solver. }
  destruct (IH _ Hi) as (j & Hj & Hid & Hcase). apply elem_of_upd in Hj as (k & Hk & ->).
  exists k. split; [done|]. case_bool_decide as Hb; simpl in *.
  - split; [done|]. right. split; [set_solver|]. by destruct Hcase as [[_ ->]|[_ ->]].
  - split; [done|]. destruct Hcase as [[? ->]|[? ->]]; [left|right]; set_solver.
Qed.

Lemma mark_deleted_rows_keep t ids l i :
  i ∈ l -> i_id i ∉ ids -> i ∈ mark_deleted_rows t ids l.
Proof.
  unfold mark_deleted_rows. revert l. induction ids as [|id ids IH]; intros l Hi Hni; simpl; [done|].
  apply IH; [|set_solver]. apply elem_of_upd. exists i. split; [done|].
  rewrite bool_decide_false; set_solver.
Qed.

Lemma elem_of_missing_ids own db i :
  db_wf db -> i ∈ instances db ->
  (i_id i ∈ i_id <$> sel (provider_missing own) (instances db)) <-> provider_missing own i = true.
Proof.
  intros Hwf Hi. rewrite list_elem_of_fmap. setoid_rewrite elem_of_sel. split; [|by eauto].
  intros (j & Hij & Hm & Hj). by rewrite (NoDup_fmap_inj i_id (instances db) i j (wf_ids _ Hwf) Hi Hj Hij).
Qed.

Lemma MarkInstancesDeletedIfProviderMissing_eq now own db :
  MarkInstancesDeletedIfProviderMissing now own db =
  Ok (with_instances (mark_deleted_rows now (i_id <$> sel (provider_missing own) (instances db)) (instances db)) db,
      i_id <$> sel (provider_missing own) (instances db)).
Proof. unfold MarkInstancesDeletedIfProviderMissing. by rewrite MarkInstancesDeleted_eq. Qed.

(** Afterwards a live row's provider identifier is owned by the row itself. *)
Lemma provider_missing_live now own db db' ids i pid :
  db_wf db -> MarkInstancesDeletedIfProviderMissing now own db = Ok (db', ids) ->
  i ∈ instances db' -> i_deleted_at i = None -> i_provider_id i = Some pid -> own !! pid = Some (i_id i).
Proof.
  rewrite MarkInstancesDeletedIfProviderMissing_eq. intros Hwf [= <- <-] Hi Hd Hp. simpl in Hi.
  apply elem_of_mark_deleted_rows in Hi as (j & Hj & Hid & [[Hni ->]|[_ ->]]); [|done].
  rewrite elem_of_missing_ids in Hni by done. unfold provider_missing, not_deleted in Hni.
  rewrite Hp, bool_decide_true in Hni by done. simpl in Hni.
  by apply Bool.not_true_is_false, Bool.negb_false_iff, bool_decide_eq_true in Hni.
Qed.

(** [MarkInstancesDeletedIfProviderMissing] leaves live only the instances
    whose provider identifier is owned, in the provider's listing, by the
    instance itself (so a reused VMID does not keep a dead record alive);
    instances without a provider identifier, and owned ones, are untouched. *)
Theorem provider_missing_spec now own db db' ids :
  db_wf db ->
  MarkInstancesDeletedIfProviderMissing now own db = Ok (db', ids) ->
  (forall i pid, i ∈ instances db' -> i_deleted_at i = None -> i_provider_id i = Some pid ->
     own !! pid = Some (i_id i)) /\
  (forall i, i ∈ instances db -> i_deleted_at i = None ->
     match i_provider_id i with None => True | Some pid => own !! pid = Some (i_id i) end ->
     i ∈ instances db') /\
  (forall id, id ∈ ids <-> exists i, i ∈ instances db /\ i_id i = id /\ provider_missing own i = true).
Proof.
  intros Hwf H. split; [intros; by eapply provider_missing_live|].
  rewrite MarkInstancesDeletedIfProviderMissing_eq in H. injection H as <- <-. split.
  - intros i Hi Hd Hown. simpl.
    apply mark_deleted_rows_keep; [done|]. rewrite elem_of_missing_ids by done.
    unfold provider_missing. destruct (i_provider_id i); [|done].
    rewrite (bool_decide_true (own !! _ = _)) by done. simpl. by rewrite andb_false_r.
  - intros id. rewrite list_elem_of_fmap. setoid_rewrite elem_of_sel. naive_solver.
Qed.

(** ** Row maps that never revive a row

    [shrinks db db']: every row of [db'] is the row of [db] at the same place,
    with its identity and group unchanged, and no row becomes active. *)
Definition row_shrinks (i j : Instance) : Prop :=
  i_id j = i_id i /\ i_tenant j = i_tenant i /\ i_group j = i_group i /\ i_on_demand j = i_on_demand i /\
  i_created_at j = i_created_at i /\ i_provider_id j = i_provider_id i /\ (active j = true -> active i = true).

Definition shrinks (db db' : DB) : Prop := Forall2 row_shrinks (instances db) (instances db').

#[export] Instance row_shrinks_refl : Reflexive row_shrinks.
Proof. intros i. by split_and!. Qed.

#[export] Instance row_shrinks_trans : Transitive row_shrinks.
Proof. intros i j k (? & ? & ? & ? & ? & ? & ?) (? & ? & ? & ? & ? & ? & ?). split_and!; (congruence || auto). Qed.

#[export] Instance shrinks_refl : Reflexive shrinks.
Proof. intros db. unfold shrinks. reflexivity. Qed.

#[export] Instance shrinks_trans : Transitive shrinks.
Proof. intros a b c. unfold shrinks. apply transitivity. Qed.

Lemma shrinks_instances db db' : instances db' = instances db -> shrinks db db'.
Proof. unfold shrinks. intros ->. reflexivity. Qed.

Lemma shrinks_upd p f db db' :
  instances db' = upd p f (instances db) -> (forall i, p i = true -> row_shrinks i (f i)) -> shrinks db db'.
Proof.
  intros Hi Hf. unfold shrinks. rewrite Hi. clear Hi. unfold upd.
  induction (instances db) as [|i l IH]; [constructor|]. rewrite fmap_cons. constructor; [|done].
  destruct (p i) eqn:Hp; [by apply Hf|reflexivity].
Qed.

(** The sizes of the groups cannot grow. *)
Lemma shrinks_group_rows t g ex db db' :
  shrinks db db' -> (length (group_rows t g ex db') <= length (group_rows t g ex db))%nat.
Proof.
  unfold shrinks, group_rows, sel. induction 1 as [|i j l l' Hij _ IH]; [done|].
  destruct Hij as (_ & Ht & Hg & Ho & _ & _ & Ha). rewrite !filter_cons. unfold in_group in *. rewrite Ht, Hg, Ho.
  destruct (active j) eqn:Hj; [rewrite Ha by done|]; repeat case_decide; simpl; try lia;
    by rewrite ?andb_false_r in *.
Qed.

Lemma shrinks_DeleteInstance now id db db' : DeleteInstance now id db = Ok db' -> shrinks db db'.
Proof.
  intros [-> _]%DeleteInstance_Ok. eapply shrinks_upd; [done|].
  intros i _. by split_and!.
Qed.

Lemma shrinks_MarkDrainStarted now id db db' : MarkDrainStarted now id db = Ok db' -> shrinks db db'.
Proof.
  intros [-> _]%update_or_norows_Ok. eapply shrinks_upd; [done|]. intros i _. by split_and!.
Qed.
