(* ===== verification/GoText.v ===== *)
(** * Text functions of Go's standard library

    The parts of [strconv], [strings], [net], [net/netip] and [path] that the
    configuration uses, over strings as lists of bytes. *)

From S2P Require Import Prelude.
From stdpp Require Import pretty.
From Stdlib Require Import Ascii.
#[local] Open Scope Z_scope.

Abbreviation chars := String.list_ascii_of_string.
Abbreviation text := String.string_of_list_ascii.

Lemma text_chars s : text (chars s) = s.
Proof. apply String.string_of_list_ascii_of_string. Qed.
Lemma chars_text l : chars (text l) = l.
Proof. apply String.list_ascii_of_string_of_list_ascii. Qed.

Lemma chars_app s t : chars (s ++ t) = chars s ++ chars t.
Proof. induction s as [|a s IH]; [done|]. simpl. by rewrite <-IH. Qed.

(** ** Splitting at a byte *)

(** Before and after the first [c]. *)
Fixpoint split_first (c : ascii) (l : list ascii) : option (list ascii * list ascii) :=
  match l with
  | [] => None
  | a :: l' => if bool_decide (a = c) then Some ([], l')
               else match split_first c l' with Some (x, y) => Some (a :: x, y) | None => None end
  end.

(** Before and after the last [c]. *)
Fixpoint split_last (c : ascii) (l : list ascii) : option (list ascii * list ascii) :=
  match l with
  | [] => None
  | a :: l' => match split_last c l' with
               | Some (x, y) => Some (a :: x, y)
               | None => if bool_decide (a = c) then Some ([], l') else None
               end
  end.

(** [strings.Split] at one byte. *)
Fixpoint split_all (c : ascii) (l : list ascii) : list (list ascii) :=
  match l with
  | [] => [[]]
  | a :: l' => if bool_decide (a = c) then [] :: split_all c l'
               else match split_all c l' with x :: xs => (a :: x) :: xs | [] => [[a]] end
  end.

(** Before and after the first occurrence of a word. *)
Fixpoint cut_word (w l : list ascii) : option (list ascii * list ascii) :=
  if bool_decide (firstn (length w) l = w) then Some ([], drop (length w) l)
  else match l with
  | [] => None
  | a :: l' => match cut_word w l' with Some (x, y) => Some (a :: x, y) | None => None end
  end.

(** [strings.Contains], [strings.HasPrefix] and [strings.HasSuffix]. *)
Definition has_word (w s : string) : bool := bool_decide (cut_word (chars w) (chars s) ≠ None).
Definition has_prefix (w s : string) : bool := bool_decide (firstn (length (chars w)) (chars s) = chars w).
Definition has_suffix (w s : string) : bool := bool_decide (firstn (length (chars w)) (rev (chars s)) = rev (chars w)).

Lemma split_first_app c l r : c ∉ l -> split_first c (l ++ c :: r) = Some (l, r).
Proof.
  induction l as [|a l IH]; intros Hc; simpl; [by rewrite bool_decide_true|].
  rewrite bool_decide_false by set_solver. by rewrite IH by set_solver.
Qed.

Lemma split_last_none c l : split_last c l = None <-> c ∉ l.
Proof.
  induction l as [|a l IH]; simpl; [set_solver|].
  destruct (split_last c l) as [[]|] eqn:E; [|case_bool_decide]; [| |naive_solver set_solver].
  - split; [done|]. intros Hc. assert (c ∉ l) as Hc' by set_solver. by apply IH in Hc'.
  - split; [done|set_solver].
Qed.

Lemma split_last_app c l r : c ∉ r -> split_last c (l ++ c :: r) = Some (l, r).
Proof.
  intros Hr. induction l as [|a l IH]; simpl; [|by rewrite IH].
  rewrite (proj2 (split_last_none c r) Hr). by rewrite bool_decide_true.
Qed.

Lemma split_last_inv c l x y : split_last c l = Some (x, y) -> l = x ++ c :: y /\ c ∉ y.
Proof.
  revert x y. induction l as [|a l IH]; intros x y H; simplify_eq/=.
  destruct (split_last c l) as [[x' y']|] eqn:E; simplify_eq; [destruct (IH _ _ eq_refl) as [-> ?]; done|].
  case_bool_decide; simplify_eq. split; [done|]. by apply split_last_none.
Qed.

(** ** strconv *)

Definition digit_value (a : ascii) : option Z :=
  let n := Z.of_N (Ascii.N_of_ascii a) in if bool_decide (48 <= n <= 57) then Some (n - 48) else None.

(** An unsigned decimal: at least one digit and nothing else. *)
Fixpoint decimal_from (acc : Z) (l : list ascii) : option Z :=
  match l with
  | [] => Some acc
  | a :: l' => match digit_value a with Some d => decimal_from (10 * acc + d) l' | None => None end
  end.
Definition decimal (l : list ascii) : option Z := match l with [] => None | _ => decimal_from 0 l end.

Definition in_int64 (z : Z) : bool := bool_decide (- 2 ^ 63 <= z < 2 ^ 63).

(** [strconv.Atoi]: an optional sign, decimal digits, in range. *)
Definition Atoi (s : string) : option Z :=
  let signed := match chars s with
    | "+"%char :: l => decimal l
    | "-"%char :: l => Z.opp <$> decimal l
    | l => decimal l
    end in
  match signed with Some z => if in_int64 z then Some z else None | None => None end.

(** [strconv.Itoa]. *)
Definition Itoa (z : Z) : string := pretty z.

(** ** net *)

Definition no_brackets (l : list ascii) : bool := bool_decide ("["%char ∉ l) && bool_decide ("]"%char ∉ l).

(** [net.SplitHostPort]. *)
Definition SplitHostPort (s : string) : res (string * string) :=
  match split_last ":"%char (chars s) with
  | None => Err (ErrMsg "missing port in address")
  | Some ("["%char :: rest, port) =>
      match split_first "]"%char rest with
      | Some (host, []) =>
          if bool_decide ("["%char ∉ host) && no_brackets port then Ok (text host, text port)
          else Err (ErrMsg "unexpected bracket in address")
      | _ => Err (ErrMsg "too many colons or missing bracket in address")
      end
  | Some (host, port) =>
      if bool_decide (":"%char ∈ host) then Err (ErrMsg "too many colons in address")
      else if no_brackets host && no_brackets port then Ok (text host, text port)
      else Err (ErrMsg "unexpected bracket in address")
  end.

(** [net.JoinHostPort]. *)
Definition JoinHostPort (host port : string) : string :=
  if bool_decide (":"%char ∈ chars host) then ("[" ++ host ++ "]:" ++ port)%string
  else (host ++ ":" ++ port)%string.

(** Splitting undoes joining for hosts and ports without brackets. *)
Lemma split_join host port :
  no_brackets (chars host) = true -> no_brackets (chars port) = true -> ":"%char ∉ chars port ->
  SplitHostPort (JoinHostPort host port) = Ok (host, port).
Proof.
  unfold no_brackets. rewrite !andb_true_iff, !bool_decide_eq_true. intros [Ho Hc] [Hpo Hpc] Hp.
  unfold SplitHostPort, JoinHostPort. case_bool_decide as Hcolon; rewrite !chars_app.
  - change (chars "[" ++ chars host ++ chars "]:" ++ chars port)
      with ("["%char :: (chars host ++ (["]"%char] ++ ":"%char :: chars port))).
    rewrite (app_assoc (chars host)), (app_comm_cons _ _ "["%char), split_last_app by done.
    simpl. rewrite split_first_app by done. unfold no_brackets. by rewrite !bool_decide_true, !text_chars.
  - change (chars ":" ++ chars port) with (":"%char :: chars port). rewrite split_last_app by done.
    destruct (chars host) as [|a l] eqn:E; simpl.
    + unfold no_brackets. rewrite !bool_decide_true by set_solver. simpl. rewrite <-(text_chars host), E. by rewrite text_chars.
    + assert (a ≠ "["%char) as Ha by set_solver.
      assert ((if bool_decide (":"%char ∈ a :: l) then Err (ErrMsg "too many colons in address")
        else if no_brackets (a :: l) && no_brackets (chars port) then Ok (text (a :: l), text (chars port))
        else Err (ErrMsg "unexpected bracket in address")) = Ok (host, port)) as Hgoal.
      { rewrite bool_decide_false by done. unfold no_brackets. rewrite !bool_decide_true by done. simpl.
        by rewrite text_chars, <-(text_chars host), E. }
      rewrite <-Hgoal. destruct a as [[] [] [] [] [] [] [] []]; done.
Qed.

(** The port that splitting yields can be joined again. *)
Lemma split_port s host port : SplitHostPort s = Ok (host, port) -> no_brackets (chars port) = true /\ ":"%char ∉ chars port.
Proof.
  unfold SplitHostPort. destruct (split_last ":"%char (chars s)) as [[before after]|] eqn:E; [|done].
  apply split_last_inv in E as [_ Hc].
  assert (forall l : list ascii, (if bool_decide (":"%char ∈ l) then Err (ErrMsg "too many colons in address")
    else if no_brackets l && no_brackets after then Ok (text l, text after) else Err (ErrMsg "unexpected bracket in address")) = Ok (host, port) ->
    no_brackets (chars port) = true /\ ":"%char ∉ chars port) as Hplain.
  { intros l. case_bool_decide; [done|]. destruct (no_brackets l); [|done]. destruct (no_brackets after) eqn:Hb; [|done]. simpl.
    intros [= _ <-]. by rewrite chars_text. }
  destruct before as [|a l]; [exact (Hplain [])|]. destruct (decide (a = "["%char)) as [->|Hne].
  - destruct (split_first "]"%char l) as [[h [|]]|]; [|done..]. case_bool_decide; simpl; [|done].
    destruct (no_brackets after) eqn:Hb; [|done]. intros [= _ <-]. by rewrite chars_text.
  - specialize (Hplain (a :: l)). intros H. apply Hplain. rewrite <-H. destruct a as [[] [] [] [] [] [] [] []]; done.
Qed.

(** ** net/netip and net.IP *)

(** [netip.Addr]: an IPv4 address as a number, an IPv6 address as its eight words
    with its zone. *)
Inductive Addr :=
  | Addr4 (v : Z)
  | Addr6 (words : list Z) (zone : string).

#[global] Instance Addr_eq_dec : EqDecision Addr.
Proof. solve_decision. Defined.
#[global] Instance Addr_countable : Countable Addr.
Proof.
  apply (inj_countable'
    (fun a => match a with Addr4 v => inl v | Addr6 ws z => inr (ws, z) end)
    (fun x => match x with inl v => Addr4 v | inr (ws, z) => Addr6 ws z end)).
  by intros [].
Defined.

(** One field of a dotted quad: no leading zeros, at most 255. *)
Definition octet (l : list ascii) : option Z :=
  match l with
  | "0"%char :: _ :: _ => None
  | _ => v ← decimal l; if bool_decide (v <= 255) then Some v else None
  end.

Definition parseIPv4 (l : list ascii) : option Z :=
  match split_all "."%char l with
  | [a; b; c; d] =>
      a ← octet a; b ← octet b; c ← octet c; d ← octet d;
      Some (((a * 256 + b) * 256 + c) * 256 + d)
  | _ => None
  end.

Definition hex_value (a : ascii) : option Z :=
  let n := Z.of_N (N_of_ascii a) in
  if bool_decide (48 <= n <= 57) then Some (n - 48)
  else if bool_decide (97 <= n <= 102) then Some (n - 87)
  else if bool_decide (65 <= n <= 70) then Some (n - 55)
  else None.

Fixpoint hex_from (acc : Z) (l : list ascii) : option Z :=
  match l with
  | [] => Some acc
  | a :: l' => match hex_value a with Some d => hex_from (16 * acc + d) l' | None => None end
  end.

(** One to four hexadecimal digits. *)
Definition hex_word (l : list ascii) : option Z :=
  if bool_decide (1 <= length l <= 4)%nat then hex_from 0 l else None.

(** Words separated by colons; [quad] allows the last field to be a dotted quad. *)
Fixpoint hex_words (quad : bool) (fields : list (list ascii)) : option (list Z) :=
  match fields with
  | [] => Some []
  | [f] => if quad && bool_decide ("."%char ∈ f)
           then v ← parseIPv4 f; Some [v `div` 65536; v `mod` 65536]
           else w ← hex_word f; Some [w]
  | f :: fs => w ← hex_word f; ws ← hex_words quad fs; Some (w :: ws)
  end.

Definition fields_of (l : list ascii) : list (list ascii) := match l with [] => [] | _ => split_all ":"%char l end.

(** Eight words, or fewer around one [::]. *)
Definition parse_words (l : list ascii) : option (list Z) :=
  match cut_word (chars "::") l with
  | None => ws ← hex_words true (fields_of l); if bool_decide (length ws = 8%nat) then Some ws else None
  | Some (before, after) =>
      xs ← hex_words false (fields_of before); ys ← hex_words true (fields_of after);
      let n := (length xs + length ys)%nat in
      if bool_decide (n < 8)%nat then Some (xs ++ replicate (8 - n) 0 ++ ys) else None
  end.

Definition parseIPv6 (l : list ascii) : option Addr :=
  match split_first "%"%char l with
  | Some (_, []) => None
  | Some (l', zone) => ws ← parse_words l'; Some (Addr6 ws (text zone))
  | None => ws ← parse_words l; Some (Addr6 ws "")
  end.

(** [netip.ParseAddr]: the first of [.], [:] and [%] decides the family. *)
Definition ParseAddr (s : string) : option Addr :=
  match list_find (fun a => a ∈ ["."%char; ":"%char; "%"%char]) (chars s) with
  | Some (_, "."%char) => Addr4 <$> parseIPv4 (chars s)
  | Some (_, ":"%char) => parseIPv6 (chars s)
  | _ => None
  end.

Definition Is4 (a : Addr) : bool := match a with Addr4 _ => true | _ => false end.

(** [net.ParseIP]: an address without a zone. *)
Definition ParseIP (s : string) : option Addr :=
  match ParseAddr s with Some (Addr6 ws z) => if bool_decide (z = "") then Some (Addr6 ws z) else None | o => o end.

(** [net.IP.To4], which also unmaps IPv4-mapped addresses. *)
Definition To4 (a : Addr) : option Z :=
  match a with
  | Addr4 v => Some v
  | Addr6 [z1; z2; z3; z4; z5; f; hi; lo] _ =>
      if bool_decide ([z1; z2; z3; z4; z5; f] = [0; 0; 0; 0; 0; 65535]) then Some (hi * 65536 + lo) else None
  | Addr6 _ _ => None
  end.

Definition IsLoopback (a : Addr) : bool :=
  match To4 a with
  | Some v => bool_decide (v `div` 16777216 = 127)
  | None => match a with Addr6 ws _ => bool_decide (ws = [0; 0; 0; 0; 0; 0; 0; 1]) | _ => false end
  end.

(** ** path and path/filepath *)

Definition join_slash (parts : list (list ascii)) : list ascii :=
  match parts with [] => [] | p :: ps => p ++ (q ← ps; "/"%char :: q) end.

(** The cleaned components, innermost first. *)
Definition clean_component (rooted : bool) (out : list (list ascii)) (c : list ascii) : list (list ascii) :=
  if bool_decide (c = []) || bool_decide (c = chars ".") then out
  else if bool_decide (c = chars "..") then
    match out with
    | [] => if rooted then [] else [c]
    | last :: rest => if bool_decide (last = chars "..") then c :: out else rest
    end
  else c :: out.

(** [path.Clean] and [filepath.Clean]. *)
Definition Clean (s : string) : string :=
  let rooted := has_prefix "/" s in
  let body := join_slash (rev (foldl (clean_component rooted) [] (split_all "/"%char (chars s)))) in
  if rooted then text ("/"%char :: body) else if bool_decide (body = []) then "." else text body.

Fixpoint drop_slashes (l : list ascii) : list ascii := match l with "/"%char :: l' => drop_slashes l' | _ => l end.

(** [filepath.Base]. *)
Definition Base (s : string) : string :=
  if bool_decide (s = "") then "."
  else let stripped := rev (drop_slashes (rev (chars s))) in
  let last := match split_last "/"%char stripped with Some (_, l) => l | None => stripped end in
  if bool_decide (last = []) then "/" else text last.

Definition IsAbs (s : string) : bool := has_prefix "/" s.

(** ** White space, extensions and letter case *)

(** The encodings of the characters with the property White_Space. *)
Definition space_codes : list (list nat) :=
  (((fun b => [b]) <$> [9; 10; 11; 12; 13; 32]) ++ [[194; 133]; [194; 160]; [225; 154; 128]] ++
   ((fun b => [226; 128; b]) <$> seq 128 11 ++ [168; 169; 175]) ++ [[226; 129; 159]; [227; 128; 128]])%nat.

Definition spaces : list (list ascii) := map (map ascii_of_nat) space_codes.

(** Drops leading words of [ws]; every word is non-empty, so a round per byte is enough. *)
Fixpoint trim_words (ws : list (list ascii)) (fuel : nat) (l : list ascii) : list ascii :=
  match fuel with
  | O => l
  | S fuel => match list_find (fun w => firstn (length w) l = w) ws with
              | Some (_, w) => trim_words ws fuel (drop (length w) l)
              | None => l
              end
  end.

(** [strings.TrimSpace] and [bytes.TrimSpace]. *)
Definition TrimSpace (s : string) : string :=
  let l := trim_words spaces (String.length s) (chars s) in
  text (rev (trim_words (map (@rev ascii) spaces) (length l) (rev l))).

(** [filepath.Ext]: from the last dot of the last component. *)
Definition Ext (s : string) : string :=
  let last := match split_last "/"%char (chars s) with Some (_, l) => l | None => chars s end in
  match split_last "."%char last with Some (_, e) => text ("."%char :: e) | None => "" end.

(** [strings.ToLower], as far as a comparison with ASCII text can tell: besides the
    capital letters, the Kelvin sign and the dotted capital I have a lower case in
    ASCII. *)
Definition lower_byte (a : ascii) : ascii :=
  let n := nat_of_ascii a in if (65 <=? n)%nat && (n <=? 90)%nat then ascii_of_nat (n + 32) else a.

Fixpoint to_lower (l : list ascii) : list ascii :=
  match l with
  | "226"%char :: "132"%char :: "170"%char :: l' => "k"%char :: to_lower l'
  | "196"%char :: "176"%char :: l' => "i"%char :: to_lower l'
  | a :: l' => lower_byte a :: to_lower l'
  | [] => []
  end.

Definition ToLower (s : string) : string := text (to_lower (chars s)).

Example text_examples :
  TrimSpace (text (chars "  a b" ++ map ascii_of_nat [226; 128; 168; 13; 10]%nat)) = "a b" /\ TrimSpace "   " = "" /\
  Ext "app.tar.GZ" = ".GZ" /\ Ext "a.b/c" = "" /\ Ext "x." = "." /\ ToLower ".Env" = ".env" /\
  ToLower (text ("."%char :: map ascii_of_nat [226; 132; 170]%nat ++ chars "EY")) = ".key".
Proof. vm_compute. split_and!; reflexivity. Qed.

Example parse_examples :
  ParseAddr "192.0.2.1" = Some (Addr4 3221225985) /\ ParseAddr "192.0.02.1" = None /\
  ParseAddr "::ffff:127.0.0.1" = Some (Addr6 [0; 0; 0; 0; 0; 65535; 32512; 1] "") /\
  ParseIP "fe80::1%eth0" = None /\ ParseAddr "1::2::3" = None /\ (IsLoopback <$> ParseIP "::1") = Some true /\
  SplitHostPort "[::1]:80" = Ok ("::1", "80") /\ SplitHostPort ":8991" = Ok ("", "8991") /\ is_ok (SplitHostPort "::1:80") = false /\
  Atoi "+08" = Some 8 /\ Atoi "9223372036854775808" = None /\ Itoa 8443 = "8443" /\
  Clean "/a//b/../c/." = "/a/c" /\ Clean "../a" = "../a" /\ Base "a/b//" = "b" /\ Base "//" = "/".
Proof. vm_compute. split_and!; reflexivity. Qed.
