(* ===== verification/Config.v ===== *)
(** * Server configuration ([src/internal/server/config], [src/internal/identifiers])

    The configuration, the merge of static and dynamic groups, the validation of
    dynamic group updates, and subnet pool resolution.  Go maps are [gmap]s; a nil
    map and an empty one are not distinguished (the code only ranges over them and
    takes their length).  Durations are nanoseconds in [Z].  A value of
    [map[string]interface{}] is a [Json] value. *)

From Stdlib Require Export QArith Qcanon.
From S2P Require Import Prelude Provider Json.
#[global] Open Scope Z_scope.

(** [config.GroupConfig]. *)
Record GroupConfig := mkGroupConfig {
  gc_template : string;
  gc_size : option Z;
  gc_instance_type : string;
  gc_subnet_pool : string;
  gc_vars : gmap string string;
  gc_args : gmap string Json;
  gc_drain_timeout : option Z;
  gc_load_balancers : list string;
}.

(** [GroupConfig{}], Go's zero value. *)
Definition zero_group : GroupConfig := mkGroupConfig "" None "" "" ∅ ∅ None [].

(** [GroupConfig.GetSize]. *)
Definition GetSize (g : GroupConfig) : Z := default 0 (gc_size g).

(** [config.FileConfig] and its [KeyConfig] (source and name). *)
Record FileConfig := mkFileConfig {
  fc_kind : string;
  fc_source : string;
  fc_template : option Json;
  fc_key : option (string * string);
}.

(** [config.UserdataConfig]. *)
Record UserdataConfig := mkUserdataConfig {
  ud_source : string;
  ud_encoding : string;
  ud_content : string;
}.

(** [config.TemplateConfig]. *)
Record TemplateConfig := mkTemplateConfig {
  tc_kind : string;
  tc_arch : string;
  tc_instance_type : string;
  tc_subnet_pool : string;
  tc_vars : gmap string string;
  tc_files : gmap string FileConfig;
  tc_args : gmap string Json;
  tc_userdata : option UserdataConfig;
  tc_size : Z;
}.

(** [config.PublicAddress]. *)
Record PublicAddress := mkPublicAddress {
  pa_ipv4 : string;
  pa_allocation_id : string;
}.

#[global] Instance PublicAddress_eq_dec : EqDecision PublicAddress.
Proof. solve_decision. Defined.

(** [config.NATThresholds]; JSON cannot spell infinities or NaNs, so the
    floating-point fields hold rationals. *)
Record NATThresholds := mkNATThresholds {
  nt_conntrack_percent : Qc;
  nt_cpu_percent : Qc;
  nt_packet_drops_per_second : Qc;
}.

#[global] Instance NATThresholds_eq_dec : EqDecision NATThresholds.
Proof. solve_decision. Defined.

(** [config.NATConfig]. *)
Record NATConfig := mkNATConfig {
  nat_group : string;
  nat_mode : string;
  nat_public_addresses : list PublicAddress;
  nat_last_instance_grace_period : Z;
  nat_instance_type_ladder : list string;
  nat_scale_up_thresholds : NATThresholds;
  nat_scale_down_thresholds : NATThresholds;
  nat_scale_up_window : Z;
  nat_scale_down_window : Z;
  nat_cooldown : Z;
  nat_replacement_timeout : Z;
}.

(** [config.ExpiryConfig]. *)
Record ExpiryConfig := mkExpiryConfig {
  ex_eligible_age : Z;
  ex_forced_age : Z;
  ex_ondemand_age : Z;
}.

(** [config.CertConfig]: the lifetime in hours; the subject and alternative names
    only feed file generation. *)
Record CertConfig := mkCertConfig { cc_ttl : Z }.

(** [config.TunnelPodConfig]. *)
Record TunnelPodConfig := mkTunnelPodConfig {
  tp_image : string;
  tp_args : list string;
  tp_files : gmap string FileConfig;
  tp_readiness_url : string;
  tp_readiness_timeout : Z;
}.

(** [config.ClusterStorageConfig]. *)
Record ClusterStorageConfig := mkClusterStorageConfig {
  cs_provider : string;
  cs_bucket : string;
  cs_region : string;
  cs_endpoint : string;
  cs_prefix : string;
}.

(** [config.LeaderElectionConfig]. *)
Record LeaderElectionConfig := mkLeaderElectionConfig {
  el_enabled : option bool;
  el_frequent_interval : Z;
  el_infrequent_interval : Z;
  el_leader_timeout : Z;
}.

(** [config.BindConfig] and [config.AdvertiseConfig], which have the same fields. *)
Record Addrs := mkAddrs {
  ad_health : string;
  ad_election : string;
  ad_registration : string;
  ad_operator : string;
  ad_agent : string;
}.

(** [config.LeaderNetworkConfig]. *)
Record LeaderNetworkConfig := mkLeaderNetworkConfig {
  ln_ip : string;
  ln_interface_id : string;
}.

(** [config.EncryptionKeyConfig] with the embedded [SecretProviderConfig]. *)
Record EncryptionKeyConfig := mkEncryptionKeyConfig {
  ek_project_id : string;
  ek_provider : string;
  ek_source : string;
}.

(** [config.SecretsConfig] with the embedded [SecretProviderConfig]. *)
Record SecretsConfig := mkSecretsConfig {
  sc_project_id : string;
  sc_provider : string;
  sc_prefix : string;
  sc_encryption_key : option EncryptionKeyConfig;
  sc_old_encryption_keys : list EncryptionKeyConfig;
  sc_cache_ttl : Z;
}.

(** [config.ImageConfig]; a filter is a name and its values. *)
Record ImageConfig := mkImageConfig {
  im_provider : string;
  im_filters : list (string * list string);
  im_owners : list string;
  im_sort : string;
  im_order : string;
  im_fallback : option string;
}.

(** The fields of [config.Config] and of its [ClusterConfig], [ShardConfig],
    [InfraConfig], [ServerRuntimeConfig] and [DefaultsConfig] that only loading
    the configuration reads. *)
Record Settings := mkSettings {
  s_cluster_storage : option ClusterStorageConfig;
  s_secrets : SecretsConfig;
  s_cluster_election : LeaderElectionConfig;
  s_infra_provider : string;
  s_infra_region : string;
  s_bind : Addrs;
  s_advertise : Addrs;
  s_leader_network : option LeaderNetworkConfig;
  s_request_timeout : Z;
  s_image_refresh_interval : Z;
  s_shutdown_timeout : Z;
  s_gc_interval : Z;
  s_shard_election : LeaderElectionConfig;
  s_images : gmap string ImageConfig;
  s_server_files : gmap string FileConfig;
  s_tunnels : gmap string TunnelPodConfig;
  s_default_args : gmap string Json;
  s_default_userdata : option UserdataConfig;
}.

(** [config.Config] with its [ClusterConfig], [ShardConfig] and [DefaultsConfig]
    flattened. *)
Record Config := mkConfig {
  c_cluster_id : string;
  c_shard_id : string;
  c_zone : string;
  c_health_check_interval : Z;
  c_default_drain_timeout : Z;
  c_registration_timeout : Z;
  c_subnet_pools : gmap string (list string);
  c_dynamic_subnet_pools : list string;
  c_expiry : ExpiryConfig;
  c_load_balancers : gmap string LoadBalancerConfig;
  c_default_vars : gmap string string;
  c_templates : gmap string TemplateConfig;
  c_groups : gmap string (gmap string GroupConfig);
  c_nat : gmap string NATConfig;
  c_certificates : gmap string CertConfig;
  c_settings : Settings;
}.

(** Dynamic groups, nested by tenant. *)
Abbreviation DynGroups := (gmap string (gmap string GroupConfig)).

(** [m[tenant][key]]. *)
Definition group_in (m : DynGroups) (tenant key : string) : option GroupConfig :=
  match m !! tenant with Some gs => gs !! key | None => None end.

(** ** identifiers.Validate *)

Definition is_lower_alnum (a : Ascii.ascii) : bool :=
  let n := Z.of_N (Ascii.N_of_ascii a) in
  bool_decide (97 <= n <= 122) || bool_decide (48 <= n <= 57).

Definition is_hyphen (a : Ascii.ascii) : bool :=
  bool_decide (Z.of_N (Ascii.N_of_ascii a) = 45).

(** [^[a-z0-9]+(?:-[a-z0-9]+)*$] as an automaton: [seg] is set when the current
    segment already has a character. *)
Fixpoint match_identifier (seg : bool) (s : string) : bool :=
  match s with
  | EmptyString => seg
  | String a s' =>
      if is_lower_alnum a then match_identifier true s'
      else if is_hyphen a then seg && match_identifier false s'
      else false
  end.

Definition validateMaxLength : nat := 32.

Definition Validate (kind value : string) : res unit :=
  if bool_decide (value = "") then Err (ErrMsg (kind ++ " cannot be empty"))
  else if bool_decide (validateMaxLength < String.length value)%nat
  then Err (ErrMsg (kind ++ " exceeds maximum length"))
  else if negb (match_identifier false value) then Err (ErrMsg (kind ++ " has invalid characters"))
  else Ok tt.

(** ** groups.go *)

(** [mergeGroups]: static groups, overridden by the size, type and variables of
    dynamic groups of the same key, plus dynamic-only groups. *)
Definition merge_one (static : option GroupConfig) (dynamic : option GroupConfig) : option GroupConfig :=
  match static, dynamic with
  | Some s, Some d => Some {| s with
      gc_size := (match gc_size d with Some _ => gc_size d | None => gc_size s end);
      gc_instance_type := (if bool_decide (gc_instance_type d = "") then gc_instance_type s
                           else gc_instance_type d);
      gc_vars := gc_vars d ∪ gc_vars s |}
  | Some s, None => Some s
  | None, Some d => Some d
  | None, None => None
  end.

Definition mergeGroups (static dynamic : gmap string GroupConfig) : gmap string GroupConfig :=
  merge merge_one static dynamic.

(** The tenant's merged groups, the part [GetGroup] and [GetGroups] share. *)
Definition tenant_groups (cfg : Config) (dyn : DynGroups) (tenant : string) : gmap string GroupConfig :=
  mergeGroups (default ∅ (c_groups cfg !! tenant)) (default ∅ (dyn !! tenant)).

(** [GetGroup]; [dyn] is the result of [loader.LoadDynamicGroups]. *)
Definition GetGroup (cfg : Config) (dyn : res DynGroups) (tenant key : string) : res GroupConfig :=
  if bool_decide (tenant = "") then Err (ErrMsg "tenant is required")
  else match dyn with
  | Err e => Err (ErrWrap "failed to load dynamic groups" e)
  | Ok d => match tenant_groups cfg d tenant !! key with
            | Some g => Ok g
            | None => Err (ErrMsg "group not found")
            end
  end.

Definition GetGroups (cfg : Config) (dyn : res DynGroups) (tenant : string) : res (gmap string GroupConfig) :=
  if bool_decide (tenant = "") then Err (ErrMsg "tenant is required")
  else match dyn with
  | Err e => Err (ErrWrap "failed to load dynamic groups" e)
  | Ok d => Ok (tenant_groups cfg d tenant)
  end.

(** [GetAllGroups]: every (tenant, key) of either source. *)
Definition GetAllGroups (cfg : Config) (dyn : res DynGroups) : res (list (string * string * GroupConfig)) :=
  match dyn with
  | Err e => Err (ErrWrap "failed to load dynamic groups" e)
  | Ok d =>
      Ok (t ← elements (dom (c_groups cfg) ∪ dom d);
          kg ← map_to_list (tenant_groups cfg d t);
          [(t, kg.1, kg.2)])
  end.

(** [mergeGroupConfig]. *)
Definition mergeGroupConfig (existing update : GroupConfig) (isStaticGroup : bool) : GroupConfig :=
  {| existing with
     gc_template := (if negb isStaticGroup && negb (bool_decide (gc_template update = ""))
                     then gc_template update else gc_template existing);
     gc_size := (match gc_size update with Some n => Some n | None => gc_size existing end);
     gc_instance_type := (if bool_decide (gc_instance_type update = "") then gc_instance_type existing
                          else gc_instance_type update);
     gc_subnet_pool := (if negb isStaticGroup && negb (bool_decide (gc_subnet_pool update = ""))
                        then gc_subnet_pool update else gc_subnet_pool existing);
     gc_vars := gc_vars update ∪ gc_vars existing;
     gc_args := (if isStaticGroup then gc_args existing else gc_args update ∪ gc_args existing) |}.

(** ** subnets.go *)

Definition ResolveSubnetKey (cfg : Config) (key : string) : res (list string) :=
  if bool_decide (key = "") then Ok []
  else match c_subnet_pools cfg !! key with
  | Some ids => Ok ids
  | None => Err (ErrMsg "unknown subnet pool ID")
  end.

Definition ValidateDynamicSubnetKey (cfg : Config) (key : string) : res unit :=
  if bool_decide (key = "") then Ok tt
  else match Validate "subnet pool" key with
  | Err e => Err (ErrWrap "subnet pool ID" e)
  | Ok _ =>
      match c_subnet_pools cfg !! key with
      | None => Err (ErrMsg "unknown subnet pool ID")
      | Some _ =>
          if bool_decide (c_dynamic_subnet_pools cfg = []) then Ok tt
          else if bool_decide (key ∈ c_dynamic_subnet_pools cfg) then Ok tt
          else Err (ErrMsg "subnet pool ID is not allowed for external requests")
      end
  end.

(** The update callback of [UpsertGroup]: validate the request against the static
    group, fill in the template's subnet pool for a new group, and merge. *)
Definition upsert_new_group (cfg : Config) (group : GroupConfig) : res GroupConfig :=
  if bool_decide (gc_template group = "") then Err (ErrMsg "template is required for new group")
  else if bool_decide (gc_subnet_pool group = "") then
    match c_templates cfg !! gc_template group with
    | None => Err (ErrMsg "template not found")
    | Some t =>
        if bool_decide (tc_subnet_pool t = "") then Err (ErrMsg "template has no subnet pool configured")
        else Ok {| group with gc_subnet_pool := tc_subnet_pool t |}
    end
  else Ok group.

Definition upsert_validate (cfg : Config) (static : option GroupConfig) (existsInDynamic : bool)
    (group : GroupConfig) : res GroupConfig :=
  match static with
  | Some s =>
      if negb (bool_decide (gc_template group = "")) && negb (bool_decide (gc_template group = gc_template s))
      then Err (ErrMsg "cannot override template for static group")
      else if negb (bool_decide (gc_subnet_pool group = ""))
      then Err (ErrMsg "cannot override subnet pool for static group")
      else if negb (bool_decide (gc_args group = ∅))
      then Err (ErrMsg "cannot override args for static group")
      else if bool_decide (gc_drain_timeout group ≠ None)
      then Err (ErrMsg "cannot override drainTimeout for static group")
      else Ok group
  | None => if existsInDynamic then Ok group else upsert_new_group cfg group
  end.

Definition UpsertGroup_update (cfg : Config) (tenant key : string) (group : GroupConfig)
    (existing : option GroupConfig) : res GroupConfig :=
  let static := group_in (c_groups cfg) tenant key in
  group' ← upsert_validate cfg static (bool_decide (existing ≠ None)) group;
  _ ← (match static with
       | None => if bool_decide (gc_subnet_pool group' = "") then Ok tt
                 else ValidateDynamicSubnetKey cfg (gc_subnet_pool group')
       | Some _ => Ok tt
       end);
  Ok (mergeGroupConfig (default zero_group existing) group' (bool_decide (static ≠ None))).

(** [GetMergedConfig] without the arguments, whose nested maps are shared
    ([Args.v]), and userdata, which only reach the provider and the infrastructure
    hash. *)
Record MergedConfig := mkMergedConfig {
  mc_kind : string;
  mc_arch : string;
  mc_vars : gmap string string;
  mc_files : gmap string FileConfig;
  mc_instance_type : string;
  mc_subnet_pool : string;
}.

Definition GetMergedConfig (cfg : Config) (template : string) (g : GroupConfig) : res MergedConfig :=
  match c_templates cfg !! template with
  | None => Err (ErrMsg "template not found")
  | Some t => Ok (mkMergedConfig (tc_kind t) (tc_arch t)
      (gc_vars g ∪ (tc_vars t ∪ c_default_vars cfg)) (tc_files t)
      (if bool_decide (gc_instance_type g = "") then tc_instance_type t else gc_instance_type g)
      (if bool_decide (gc_subnet_pool g = "") then tc_subnet_pool t else gc_subnet_pool g))
  end.

(** ** Properties *)

Lemma lookup_mergeGroups s d k :
  mergeGroups s d !! k = merge_one (s !! k) (d !! k).
Proof. unfold mergeGroups. rewrite lookup_merge. by destruct (s !! k), (d !! k). Qed.

Lemma lookup_tenant_groups cfg d t k :
  tenant_groups cfg d t !! k = merge_one (group_in (c_groups cfg) t k) (group_in d t k).
Proof.
  unfold tenant_groups, group_in. rewrite lookup_mergeGroups.
  by destruct (c_groups cfg !! t), (d !! t); simpl; rewrite ?lookup_empty.
Qed.

(** A group of the static configuration keeps its restricted fields
    (template, subnet pool, arguments, drain timeout and load balancers) whatever
    the dynamic groups say; only size, instance type and variables can be
    overridden, and a variable or field absent from the override keeps its static
    value. *)
Theorem static_group_restricted cfg d tenant key s :
  tenant ≠ "" -> group_in (c_groups cfg) tenant key = Some s ->
  exists g, GetGroup cfg (Ok d) tenant key = Ok g /\
    gc_template g = gc_template s /\ gc_subnet_pool g = gc_subnet_pool s /\
    gc_args g = gc_args s /\ gc_drain_timeout g = gc_drain_timeout s /\
    gc_load_balancers g = gc_load_balancers s /\
    (gc_size g = gc_size s \/ exists o, group_in d tenant key = Some o /\ gc_size g = gc_size o) /\
    (forall v, (forall o, group_in d tenant key = Some o -> gc_vars o !! v = None) ->
       gc_vars g !! v = gc_vars s !! v).
Proof.
  intros Ht Hs. unfold GetGroup. rewrite bool_decide_false by done.
  rewrite lookup_tenant_groups, Hs.
  destruct (group_in d tenant key) as [o|] eqn:Ho; simpl; eexists; (split; [reflexivity|]); simpl.
  - split_and!; try done.
    + destruct (gc_size o) eqn:?; [right|left]; eauto.
    + intros v Hv. rewrite lookup_union_r; auto.
  - split_and!; auto.
Qed.

(** A request that touches a restricted field of a static group is rejected, and
    an accepted one leaves them unset in the stored override. *)
Lemma upsert_static_ok cfg s ex g g' :
  upsert_validate cfg (Some s) ex g = Ok g' ->
  g' = g /\ (gc_template g = "" \/ gc_template g = gc_template s) /\
  gc_subnet_pool g = "" /\ gc_args g = ∅ /\ gc_drain_timeout g = None.
Proof.
  unfold upsert_validate. repeat case_bool_decide; simpl; intros; simplify_eq; naive_solver.
Qed.

(** Segments of an identifier. *)
Fixpoint all_alnum (s : string) : Prop :=
  match s with EmptyString => True | String a s' => is_lower_alnum a = true /\ all_alnum s' end.

Definition alnum_segment (s : string) : Prop := s ≠ "" /\ all_alnum s.

Inductive identifier : string -> Prop :=
  | identifier_one s : alnum_segment s -> identifier s
  | identifier_more s r : alnum_segment s -> identifier r -> identifier (s ++ "-" ++ r).

Lemma is_hyphen_true a : is_hyphen a = true -> a = Ascii.ascii_of_N 45.
Proof.
  unfold is_hyphen. rewrite bool_decide_eq_true. intros H.
  rewrite <-(Ascii.ascii_N_embedding a). assert (Ascii.N_of_ascii a = 45%N) as -> by lia. done.
Qed.

Lemma string_app_cons x (a b : string) : (String x a ++ b)%string = String x (a ++ b).
Proof. done. Qed.

Lemma string_app_assoc (a b c : string) : (a ++ (b ++ c) = (a ++ b) ++ c)%string.
Proof. induction a as [|x a IH]; [done|]. by rewrite !string_app_cons, IH. Qed.

Lemma alnum_segment_snoc u a :
  all_alnum u -> is_lower_alnum a = true ->
  alnum_segment (u ++ String a "").
Proof.
  intros Hu Ha. split; [by destruct u|].
  induction u as [|x u IH]; [done|]. rewrite string_app_cons. destruct Hu. split; auto.
Qed.

Lemma string_app_nil_r (a : string) : (a ++ "")%string = a.
Proof. induction a as [|x a IH]; [done|]. by rewrite string_app_cons, IH. Qed.

(** The automaton accepts a suffix exactly when it completes the segment read so
    far into an identifier. *)
Lemma match_identifier_sound s :
  (forall u, alnum_segment u -> match_identifier true s = true -> identifier (u ++ s)) /\
  (match_identifier false s = true -> identifier s).
Proof.
  induction s as [|a s [IHt IHf]]; simpl.
  { split; [|done]. intros u Hu _. rewrite string_app_nil_r. by constructor. }
  destruct (is_lower_alnum a) eqn:Ha.
  - split.
    + intros u [? Hu] Hm. rewrite (string_app_assoc u (String a "") s : u ++ String a s = _)%string.
      apply IHt; [|done]. by apply alnum_segment_snoc.
    + intros Hm. apply (IHt (String a "")); [|done]. split; [done|]. simpl. auto.
  - destruct (is_hyphen a) eqn:Hh; [|done]. apply is_hyphen_true in Hh as ->. split; [|done].
    intros u Hu Hm. apply (identifier_more u s); auto.
Qed.

Lemma match_segment u s seg :
  all_alnum u ->
  match_identifier seg (u ++ s) = match_identifier (bool_decide (u ≠ "") || seg) s.
Proof.
  revert seg. induction u as [|a u IH]; intros seg Hu; [done|]. rewrite string_app_cons. simpl.
  destruct Hu as [Ha Hu]. rewrite Ha, IH by done.
  f_equal. by rewrite orb_true_r.
Qed.

Lemma validate_identifier_run kind value :
  Validate kind value = Ok tt <-> identifier value /\ (String.length value <= validateMaxLength)%nat.
Proof.
  assert (match_identifier false value = true <-> identifier value) as Hm.
  { split; [apply match_identifier_sound|]. induction 1 as [s [? Hs]|s r [? Hs] _ IH].
    - rewrite <-(string_app_nil_r s), match_segment by done. by rewrite bool_decide_true.
    - rewrite match_segment by done. rewrite bool_decide_true by done. simpl. done. }
  assert (identifier value -> value ≠ "") as Hne.
  { intros [s []|s r [] _]; [done|by destruct s]. }
  unfold Validate. repeat case_bool_decide; simpl; try naive_solver lia.
  destruct (match_identifier false value) eqn:E; simpl; naive_solver lia.
Qed.

Lemma validate_identifier_ok kind value : Validate kind value = Ok tt -> identifier value.
Proof. intros H. by apply validate_identifier_run in H as [? _]. Qed.

(** [identifiers.Validate] accepts exactly the non-empty strings of at most
    32 characters made of hyphen-separated, non-empty runs of lowercase letters
    and digits. *)
Theorem validate_identifier_spec kind value :
  Validate kind value = Ok tt <-> identifier value /\ (String.length value <= validateMaxLength)%nat.
Proof. apply validate_identifier_run. Qed.
