(* ===== verification/ProxyConfig.v ===== *)
(** * Proxy listeners ([src/internal/server/config/proxy.go])

    The proxy's listeners are derived from the load balancers and the groups that
    refer to them.  [ProxyConfig] is the code's loop, whose order of iteration over
    maps is arbitrary; [proxy_ok] and [proxy_listeners] say without order when it
    succeeds and with what ([ProxyConfig_spec]). *)

From S2P Require Import Prelude Provider Json GoText Config.
From Stdlib Require Import Ascii.

(** The order of each [range] over a map: [site] numbers the statements. *)
Class RangeOrder := mkRangeOrder {
  range_over : forall A : Type, nat -> gmap string A -> list (string * A);
  range_perm : forall A site (m : gmap string A), range_over A site m ≡ₚ map_to_list m;
}.
Arguments range_over {_ A} site m.

Lemma elem_of_range {RO : RangeOrder} {A} site (m : gmap string A) k a : (k, a) ∈ range_over site m <-> m !! k = Some a.
Proof. by rewrite range_perm, elem_of_map_to_list. Qed.

Lemma Forall_range {RO : RangeOrder} {A} site (m : gmap string A) (P : string * A -> Prop) :
  Forall P (range_over site m) <-> map_Forall (fun k a => P (k, a)) m.
Proof. rewrite range_perm. rewrite map_Forall_to_list. apply Forall_iff. by intros []. Qed.

Lemma NoDup_range {RO : RangeOrder} {A} site (m : gmap string A) : NoDup (range_over site m).*1.
Proof. rewrite range_perm. apply NoDup_fst_map_to_list. Qed.

(** [proxy.Listener]. *)
Record Listener := mkListener {
  li_tenant : string;
  li_groups : list string;
  li_target_port : Z;
  li_proxy_port : Z;
  li_frontend_ip : string;
}.

#[global] Instance Listener_eq_dec : EqDecision Listener.
Proof. solve_decision. Defined.

(** Groups by load balancer and tenant. *)
Abbreviation Refs := (gmap string (gmap string (list string))).

(** [portUse]. *)
Record PortUse := mkPortUse {
  pu_exclusive : string;
  pu_google : list string;
}.

Record ProxyState := mkProxyState {
  ps_used : gmap Z PortUse;
  ps_selectors : gmap string string;
  ps_listeners : gmap string Listener;
}.

(** A listener with its key, and whether it owns its port. *)
Record ListenerEntry := mkListenerEntry {
  le_key : string;
  le_listener : Listener;
  le_exclusive : bool;
}.

Section ProxyConfig.
Context {RO : RangeOrder}.

Definition add_ref (lb tenant group : string) (refs : Refs) : Refs :=
  let tenants := default ∅ (refs !! lb) in
  let groups := default [] (tenants !! tenant) in
  if bool_decide (group ∈ groups) then <[lb := tenants]> refs
  else <[lb := <[tenant := groups ++ [group]]> tenants]> refs.

Definition group_refs (cfg : Config) (tenant group : string) (refs : Refs) (lbs : list string) : res Refs :=
  fold_err (fun refs lb =>
    match c_load_balancers cfg !! lb with
    | None => Err (ErrMsg "references unknown load balancer")
    | Some _ => Ok (add_ref lb tenant group refs)
    end) refs lbs.

Definition load_balancer_refs (cfg : Config) : res Refs :=
  fold_err (fun refs '(tenant, groups) =>
    fold_err (fun refs '(name, group) => group_refs cfg tenant name refs (gc_load_balancers group))
      refs (range_over 1 groups))
    ∅ (range_over 0 (c_groups cfg)).

(** The five bind addresses in the order of the code. *)
Definition bind_addrs (cfg : Config) : list string :=
  let b := s_bind (c_settings cfg) in [ad_registration b; ad_agent b; ad_operator b; ad_health b; ad_election b].

(** The value [strconv.Atoi] returns beside its error: 0 for text that is no number;
    the digits are read until they exceed 64 bits, and the result saturates at the
    ends of a 64-bit integer. *)
Fixpoint unsigned_from (acc : Z) (l : list Ascii.ascii) : option Z :=
  match l with
  | [] => Some acc
  | a :: l' =>
      match digit_value a with
      | None => None
      | Some d => if bool_decide (2 ^ 64 <= 10 * acc + d) then Some (2 ^ 64 - 1) else unsigned_from (10 * acc + d) l'
      end
  end.
Definition unsigned (l : list Ascii.ascii) : Z := match l with [] => 0 | _ => default 0 (unsigned_from 0 l) end.

Definition port_number (s : string) : Z :=
  match chars s with
  | "-"%char :: l => Z.max (- 2 ^ 63) (- unsigned l)
  | "+"%char :: l => Z.min (2 ^ 63 - 1) (unsigned l)
  | l => Z.min (2 ^ 63 - 1) (unsigned l)
  end.

Example port_number_saturates :
  port_number "8443" = 8443 /\ port_number "http" = 0 /\ port_number "99999999999999999999" = 2 ^ 63 - 1 /\
  port_number "-99999999999999999999x" = - 2 ^ 63 /\ port_number "" = 0 /\ port_number "+8" = 8.
Proof. by vm_compute. Qed.

Definition serverPorts (cfg : Config) : list Z :=
  addr ← bind_addrs cfg; match SplitHostPort addr with Ok (_, port) => [port_number port] | Err _ => [] end.

(** [googlePorts]: how many Google frontends use the port. *)
Definition googlePorts (cfg : Config) (port : Z) : nat :=
  length (filter (fun p => p = port)
    ('(_, lb) ← range_over 2 (c_load_balancers cfg);
     if bool_decide (lbc_provider lb = "google") then (lbc_frontends lb).*2 else [])).

Definition listener_key (lbName : string) (port : Z) : string := (lbName ++ ":" ++ Itoa port)%string.

(** The listeners of one load balancer, in the order they are added. *)
Definition lb_entries (cfg : Config) (lbName : string) (lb : LoadBalancerConfig) (tenant : string) (groups : list string) : list ListenerEntry :=
  if bool_decide (lbc_provider lb = "aws") then
    (fun '(_, _, target, proxy) => mkListenerEntry (listener_key lbName proxy) (mkListener tenant groups target proxy "") true) <$> lbc_target_groups lb
  else if bool_decide (lbc_provider lb = "tunnel") then
    (fun '(target, proxy) => mkListenerEntry (listener_key lbName proxy) (mkListener tenant groups target proxy "") true) <$> lbc_listeners lb
  else if bool_decide (lbc_provider lb = "google") then
    (fun '(ip, port) =>
      if bool_decide (1 < googlePorts cfg port)%nat
      then mkListenerEntry (lbName ++ "/" ++ JoinHostPort ip (Itoa port))%string (mkListener tenant groups port port ip) false
      else mkListenerEntry (listener_key lbName port) (mkListener tenant groups port port "") false) <$> lbc_frontends lb
  else [].

Definition selector (l : Listener) : string := JoinHostPort (li_frontend_ip l) (Itoa (li_proxy_port l)).

(** The closure [add]. *)
Definition add (cfg : Config) (s : ProxyState) (e : ListenerEntry) : res ProxyState :=
  let l := le_listener e in
  let port := li_proxy_port l in
  if bool_decide (port ∈ serverPorts cfg) then Err (ErrMsg "proxy listener collides with nstance-server port")
  else
    let use := default (mkPortUse "" []) (ps_used s !! port) in
    r ← (if le_exclusive e then
           if negb (bool_decide (pu_exclusive use = "")) then Err (ErrMsg "proxy port collision")
           else if negb (bool_decide (pu_google use = [])) then Err (ErrMsg "proxy port collision between Google listener and exclusive listener")
           else Ok {| s with ps_used := <[port := mkPortUse (le_key e) (pu_google use)]> (ps_used s) |}
         else
           if negb (bool_decide (pu_exclusive use = "")) then Err (ErrMsg "proxy port collision between exclusive listener and Google listener")
           else if negb (bool_decide (default "" (ps_selectors s !! selector l) = "")) then Err (ErrMsg "google listener selector collision")
           else Ok {| s with ps_used := <[port := mkPortUse (pu_exclusive use) (pu_google use ++ [le_key e])]> (ps_used s);
                             ps_selectors := <[selector l := le_key e]> (ps_selectors s) |});
    match ps_listeners s !! le_key e with
    | Some _ => Err (ErrMsg "listener identity collision")
    | None => Ok {| r with ps_listeners := <[le_key e := l]> (ps_listeners s) |}
    end.

(** The tenant and sorted groups of a load balancer, which must be one tenant's. *)
Definition lb_owner (refs : Refs) (lbName : string) : res (string * list string) :=
  match map_to_list (default ∅ (refs !! lbName)) with
  | [] => Err (ErrMsg "load balancer is not referenced by any group")
  | [(tenant, groups)] => Ok (tenant, merge_sort String.le groups)
  | _ => Err (ErrMsg "load balancer is referenced across tenants")
  end.

Definition add_lb (cfg : Config) (refs : Refs) (s : ProxyState) (named : string * LoadBalancerConfig) : res ProxyState :=
  '(tenant, groups) ← lb_owner refs named.1;
  fold_err (add cfg) s (lb_entries cfg named.1 named.2 tenant groups).

(** [Config.ProxyConfig]. *)
Definition ProxyConfig (cfg : Config) : res (gmap string Listener) :=
  refs ← load_balancer_refs cfg;
  s ← fold_err (add_lb cfg refs) (mkProxyState ∅ ∅ ∅) (range_over 3 (c_load_balancers cfg));
  Ok (ps_listeners s).
End ProxyConfig.
