(* ===== verification/ProxyConfigFacts.v ===== *)
(** * When the proxy configuration exists, and what it is *)

From S2P Require Import Prelude Provider Json GoText Config ProxyConfig.

(** ** The specification *)

Definition refers (lb : string) (g : GroupConfig) : Prop := lb ∈ gc_load_balancers g.

#[global] Instance refers_dec lb g : Decision (refers lb g).
Proof. unfold refers. apply _. Defined.

(** The groups of a tenant that refer to a load balancer, in order of name. *)
Definition groups_of (cfg : Config) (lb tenant : string) : list string :=
  merge_sort String.le (map_to_list (filter (fun kg => refers lb kg.2) (default ∅ (c_groups cfg !! tenant)))).*1.

(** The tenants with such groups. *)
Definition tenants_of (cfg : Config) (lb : string) : list string :=
  (map_to_list (filter (fun tg => filter (fun kg : string * GroupConfig => refers lb kg.2) tg.2 ≠ ∅) (c_groups cfg))).*1.

(** All listeners that the load balancers with one tenant define. *)
Definition proxy_entries `{RangeOrder} (cfg : Config) : list ListenerEntry :=
  '(name, lb) ← map_to_list (c_load_balancers cfg);
  match tenants_of cfg name with [t] => lb_entries cfg name lb t (groups_of cfg name t) | _ => [] end.

(** Two listeners that can be served together. *)
Definition compatible (e1 e2 : ListenerEntry) : Prop :=
  le_key e1 ≠ le_key e2 /\
  (le_exclusive e1 = true \/ le_exclusive e2 = true -> li_proxy_port (le_listener e1) ≠ li_proxy_port (le_listener e2)) /\
  (le_exclusive e1 = false -> le_exclusive e2 = false -> selector (le_listener e1) ≠ selector (le_listener e2)).

#[global] Instance compatible_symmetric : Symmetric compatible.
Proof. intros e1 e2 (H1 & H2 & H3). split_and!; [done| |]; [intros Hor Heq; apply H2; naive_solver|intros ? ? Heq; by apply H3]. Qed.

Record proxy_ok `{RangeOrder} (cfg : Config) : Prop := mkProxyOk {
  po_known : forall t gs n g, c_groups cfg !! t = Some gs -> gs !! n = Some g -> Forall (fun lb => is_Some (c_load_balancers cfg !! lb)) (gc_load_balancers g);
  po_owned : forall lb, is_Some (c_load_balancers cfg !! lb) -> exists t, tenants_of cfg lb = [t];
  po_ports : Forall (fun e => li_proxy_port (le_listener e) ∉ serverPorts cfg) (proxy_entries cfg);
  po_pairs : pairs compatible (proxy_entries cfg);
}.

Definition proxy_listeners `{RangeOrder} (cfg : Config) : gmap string Listener :=
  list_to_map ((fun e => (le_key e, le_listener e)) <$> proxy_entries cfg).

Section Facts.
Context {RO : RangeOrder}.

(** ** References *)

(** The references in the order they are read. *)
Definition refs_list (cfg : Config) : list (string * string * string) :=
  '(t, gs) ← range_over 0 (c_groups cfg); '(n, g) ← range_over 1 gs; lb ← gc_load_balancers g; [(t, n, lb)].

Definition ref_step (cfg : Config) (refs : Refs) (r : string * string * string) : res Refs :=
  match c_load_balancers cfg !! r.2 with
  | None => Err (ErrMsg "references unknown load balancer")
  | Some _ => Ok (add_ref r.2 r.1.1 r.1.2 refs)
  end.

Lemma elem_of_refs_list cfg t n lb :
  (t, n, lb) ∈ refs_list cfg <-> exists gs g, c_groups cfg !! t = Some gs /\ gs !! n = Some g /\ refers lb g.
Proof.
  unfold refs_list. rewrite list_elem_of_bind. split.
  - intros ([t' gs] & ([n' g] & (lb' & Hx & Hlb)%list_elem_of_bind & Hg)%list_elem_of_bind & Hgs).
    apply list_elem_of_singleton in Hx. simplify_eq. apply elem_of_range in Hg, Hgs. naive_solver.
  - intros (gs & g & Hgs & Hg & Hlb). exists (t, gs). split; [|by apply elem_of_range].
    apply list_elem_of_bind. exists (n, g). split; [|by apply elem_of_range].
    apply list_elem_of_bind. exists lb. split; [|done]. by apply list_elem_of_singleton.
Qed.

Lemma load_balancer_refs_flat cfg : load_balancer_refs cfg = fold_err (ref_step cfg) ∅ (refs_list cfg).
Proof.
  unfold load_balancer_refs, refs_list. rewrite <-fold_err_concat. apply fold_err_ext. intros [t gs] _ s.
  rewrite <-fold_err_concat. apply fold_err_ext. intros [n g] _ s'.
  rewrite <-fold_err_concat. unfold group_refs. apply fold_err_ext. intros lb _ s''. simpl. unfold ref_step. simpl.
  by destruct (c_load_balancers cfg !! lb).
Qed.

Definition refs_at (refs : Refs) (lb t : string) : list string := default [] (default ∅ (refs !! lb) !! t).

(** What the references read so far put into the table. *)
Record refs_abs (pre : list (string * string * string)) (refs : Refs) : Prop := mkRefsAbs {
  ra_elem : forall lb t n, n ∈ refs_at refs lb t <-> (t, n, lb) ∈ pre;
  ra_nodup : forall lb t, NoDup (refs_at refs lb t);
  ra_full : forall lb t ns, default ∅ (refs !! lb) !! t = Some ns -> ns ≠ [];
}.

Lemma refs_at_add refs lb t n lb' t' :
  refs_at (add_ref lb t n refs) lb' t' =
    if bool_decide (lb' = lb /\ t' = t) then
      (if bool_decide (n ∈ refs_at refs lb t) then refs_at refs lb t else refs_at refs lb t ++ [n])
    else refs_at refs lb' t'.
Proof.
  unfold refs_at, add_ref. fold (refs_at refs lb t).
  destruct (decide (lb' = lb)) as [->|Hlb].
  - destruct (decide (t' = t)) as [->|Ht].
    + rewrite (bool_decide_true (lb = lb /\ t = t)) by done. case_bool_decide; rewrite lookup_insert, decide_True by done; simpl; [done|].
      by rewrite lookup_insert, decide_True.
    + rewrite (bool_decide_false (lb = lb /\ t' = t)) by naive_solver. case_bool_decide; rewrite lookup_insert, decide_True by done; simpl; [done|].
      by rewrite lookup_insert_ne.
  - rewrite (bool_decide_false (lb' = lb /\ t' = t)) by naive_solver. case_bool_decide; by rewrite lookup_insert_ne.
Qed.

Lemma refs_abs_add pre refs t n lb : refs_abs pre refs -> refs_abs (pre ++ [(t, n, lb)]) (add_ref lb t n refs).
Proof.
  intros [He Hn Hf]. split.
  - intros lb' t' n'. rewrite refs_at_add, elem_of_app, list_elem_of_singleton, <-He.
    repeat case_bool_decide; simplify_eq; [|rewrite elem_of_app, list_elem_of_singleton|]; naive_solver.
  - intros lb' t'. rewrite refs_at_add. repeat case_bool_decide; [done| |done].
    apply NoDup_app. split; [done|]. split; [set_solver|apply NoDup_singleton].
  - intros lb' t' ns. unfold add_ref. case_bool_decide as Hin.
    + destruct (decide (lb' = lb)) as [->|]; [rewrite lookup_insert, decide_True by done|rewrite lookup_insert_ne by done]; simpl; apply Hf.
    + destruct (decide (lb' = lb)) as [->|]; [rewrite lookup_insert, decide_True by done|rewrite lookup_insert_ne by done; apply Hf]; simpl.
      destruct (decide (t' = t)) as [->|]; [rewrite lookup_insert, decide_True by done|rewrite lookup_insert_ne by done; apply Hf].
      intros [= <-]. by destruct (default [] _).
Qed.

Lemma refs_abs_empty : refs_abs [] ∅.
Proof.
  split; unfold refs_at; intros lb t; rewrite ?lookup_empty; simpl; rewrite ?lookup_empty; simpl; [set_solver|apply NoDup_nil_2|done].
Qed.

Lemma load_balancer_refs_spec cfg :
  (is_ok (load_balancer_refs cfg) = true <-> forall r, r ∈ refs_list cfg -> is_Some (c_load_balancers cfg !! r.2)) /\
  (forall refs, load_balancer_refs cfg = Ok refs -> refs_abs (refs_list cfg) refs).
Proof.
  rewrite load_balancer_refs_flat.
  destruct (fold_err_each (ref_step cfg) refs_abs (fun r => is_Some (c_load_balancers cfg !! r.2))) with
    (l := refs_list cfg) (pre := @nil (string * string * string)) (s := ∅ : Refs) as [Ha Hb].
  - intros pre s [[t n] lb] Hs. unfold ref_step. simpl. destruct (c_load_balancers cfg !! lb); [|by intros []].
    split; [eauto|by apply refs_abs_add].
  - apply refs_abs_empty.
  - split; [|exact Ha]. by rewrite Hb, Forall_forall.
Qed.

(** ** The owner of a load balancer *)

Lemma elem_of_groups_of cfg lb t n : n ∈ groups_of cfg lb t <-> (t, n, lb) ∈ refs_list cfg.
Proof.
  unfold groups_of. rewrite merge_sort_Permutation, list_elem_of_fmap, elem_of_refs_list. split.
  - intros ([n' g] & -> & [Hg Hr]%elem_of_map_to_list%map_lookup_filter_Some). simpl in *.
    destruct (c_groups cfg !! t) as [gs|]; [|done]. eauto.
  - intros (gs & g & Hgs & Hg & Hr). exists (n, g). split; [done|]. apply elem_of_map_to_list, map_lookup_filter_Some.
    by rewrite Hgs.
Qed.

Lemma NoDup_groups_of cfg lb t : NoDup (groups_of cfg lb t).
Proof. unfold groups_of. rewrite merge_sort_Permutation. apply NoDup_fst_map_to_list. Qed.

Lemma elem_of_tenants_of cfg lb t : t ∈ tenants_of cfg lb <-> exists n, (t, n, lb) ∈ refs_list cfg.
Proof.
  unfold tenants_of. rewrite list_elem_of_fmap. setoid_rewrite elem_of_refs_list. split.
  - intros ([t' gs] & -> & [Hgs Hne]%elem_of_map_to_list%map_lookup_filter_Some). simpl in *.
    apply map_choose in Hne as (n & g & [Hg Hr]%map_lookup_filter_Some). eauto 10.
  - intros (n & gs & g & Hgs & Hg & Hr). exists (t, gs). split; [done|]. apply elem_of_map_to_list, map_lookup_filter_Some.
    split; [done|]. intros He. assert (filter (fun kg : string * GroupConfig => refers lb kg.2) gs !! n = Some g) as Hl.
    { by apply map_lookup_filter_Some. } simpl in *. by rewrite He, lookup_empty in Hl.
Qed.

Lemma NoDup_tenants_of cfg lb : NoDup (tenants_of cfg lb).
Proof. apply NoDup_fst_map_to_list. Qed.

Lemma owner_tenants cfg refs lb :
  refs_abs (refs_list cfg) refs -> (map_to_list (default ∅ (refs !! lb))).*1 ≡ₚ tenants_of cfg lb.
Proof.
  intros [He Hn Hf]. apply NoDup_Permutation; [apply NoDup_fst_map_to_list|apply NoDup_tenants_of|]. intros t.
  rewrite elem_of_tenants_of, list_elem_of_fmap. split.
  - intros ([t' ns] & -> & Hl%elem_of_map_to_list). destruct ns as [|n ns]; [by apply Hf in Hl|].
    exists n. apply He. unfold refs_at. simpl. rewrite Hl. set_solver.
  - intros [n Hin%He]. unfold refs_at in Hin. destruct (default ∅ (refs !! lb) !! t) as [ns|] eqn:E; [|set_solver].
    exists (t, ns). split; [done|]. by apply elem_of_map_to_list.
Qed.

(** The owner is the one tenant that refers to the load balancer. *)
Lemma lb_owner_spec cfg refs lb :
  refs_abs (refs_list cfg) refs ->
  match tenants_of cfg lb with
  | [t] => lb_owner refs lb = Ok (t, groups_of cfg lb t)
  | _ => is_ok (lb_owner refs lb) = false
  end.
Proof.
  intros Habs. pose proof (owner_tenants cfg refs lb Habs) as Hp. unfold lb_owner.
  destruct (map_to_list (default ∅ (refs !! lb))) as [|[t ns] [|x l]] eqn:E.
  - symmetry in Hp. apply Permutation_nil_r in Hp. by rewrite Hp.
  - symmetry in Hp. apply Permutation_singleton_r in Hp. rewrite Hp. do 2 f_equal.
    assert (refs_at refs lb t = ns) as Hns.
    { unfold refs_at. assert (default ∅ (refs !! lb) !! t = Some ns) as ->; [|done]. apply elem_of_map_to_list. rewrite E. set_solver. }
    apply (StronglySorted_unique String.le).
    + apply StronglySorted_merge_sort; apply _.
    + apply StronglySorted_merge_sort; apply _.
    + rewrite merge_sort_Permutation. apply NoDup_Permutation; [rewrite <-Hns; apply Habs|apply NoDup_groups_of|].
      intros n. rewrite elem_of_groups_of, <-Hns. apply Habs.
  - destruct (tenants_of cfg lb) as [|? [|? ?]]; [done| |done]. apply Permutation_length in Hp. done.
Qed.

(** ** Adding listeners *)

Definition port_of (e : ListenerEntry) : Z := li_proxy_port (le_listener e).
Definition use_at (s : ProxyState) (port : Z) : PortUse := default (mkPortUse "" []) (ps_used s !! port).

(** What the listeners added so far put into the accumulator. *)
Record add_abs (pre : list ListenerEntry) (s : ProxyState) : Prop := mkAddAbs {
  aa_exclusive : forall port, pu_exclusive (use_at s port) ≠ "" <-> exists e, e ∈ pre /\ le_exclusive e = true /\ port_of e = port;
  aa_google : forall port, pu_google (use_at s port) ≠ [] <-> exists e, e ∈ pre /\ le_exclusive e = false /\ port_of e = port;
  aa_selectors : forall sel, default "" (ps_selectors s !! sel) ≠ "" <-> exists e, e ∈ pre /\ le_exclusive e = false /\ selector (le_listener e) = sel;
  aa_keys : forall k, is_Some (ps_listeners s !! k) <-> k ∈ (le_key <$> pre);
  aa_listeners : forall e, e ∈ pre -> ps_listeners s !! le_key e = Some (le_listener e);
}.

Lemma add_abs_empty : add_abs [] (mkProxyState ∅ ∅ ∅).
Proof. split; try (intros; split; [done|set_solver]); [|set_solver]. intros k. simpl. split; [by intros []|set_solver]. Qed.

(** The test of [add]: against the server's ports and against each earlier listener. *)
Lemma add_spec cfg pre s e :
  add_abs pre s ->
  (is_ok (add cfg s e) = true <-> (port_of e ∉ serverPorts cfg) /\ Forall (compatible e) pre).
Proof.
  intros [Hx Hg Hs Hk _]. unfold add. fold (use_at s (li_proxy_port (le_listener e))). fold (port_of e).
  specialize (Hx (port_of e)). specialize (Hg (port_of e)). specialize (Hs (selector (le_listener e))). specialize (Hk (le_key e)).
  rewrite Forall_forall. unfold compatible. rewrite list_elem_of_fmap in Hk. fold (port_of e).
  split.
  - repeat case_bool_decide; simpl; try done; destruct (le_exclusive e) eqn:Ee; simpl; try done;
      destruct (ps_listeners s !! le_key e) eqn:El; simpl; try done; intros _; (split; [done|]); intros e' He';
      fold (port_of e'); (split; [intros Heq; destruct (proj2 Hk) as [? ?]; [by exists e'|done]|]);
      destruct (le_exclusive e') eqn:Ee'; (split; [intros Hor Hp|intros Hf1 Hf2 Hsel]); try done; naive_solver.
  - intros [Hport Hall]. rewrite bool_decide_false by done. simpl.
    assert (ps_listeners s !! le_key e = None) as Hnew.
    { destruct (ps_listeners s !! le_key e) as [l|] eqn:El; [|done]. destruct (proj1 Hk) as (e' & Heq & He'); [eauto|].
      by destruct (Hall e' He') as [? _]. }
    rewrite Hnew.
    assert (forall e', e' ∈ pre -> le_exclusive e = true \/ le_exclusive e' = true -> port_of e ≠ port_of e') as Hne.
    { intros e' He' Hor. destruct (Hall e' He') as (_ & H & _). by apply H. }
    assert (pu_exclusive (use_at s (port_of e)) = "") as Hx0.
    { destruct (decide (pu_exclusive (use_at s (port_of e)) = "")) as [|(e' & He' & Hex & Hp)%Hx]; [done|].
      destruct (Hne e' He'); [by right|done]. }
    rewrite (bool_decide_true (pu_exclusive _ = _)) by done. simpl. destruct (le_exclusive e) eqn:Ee; simpl.
    + rewrite bool_decide_true; [done|].
      destruct (decide (pu_google (use_at s (port_of e)) = [])) as [|(e' & He' & _ & Hp)%Hg]; [done|].
      destruct (Hne e' He'); [by left|done].
    + rewrite bool_decide_true; [done|].
      destruct (decide (default "" (ps_selectors s !! selector (le_listener e)) = "")) as [|(e' & He' & Hex & Hp)%Hs]; [done|].
      destruct (Hall e' He') as (_ & _ & H). by destruct H.
Qed.

Lemma use_at_insert s port u sel ls port' :
  use_at (mkProxyState (<[port := u]> (ps_used s)) sel ls) port' = if bool_decide (port' = port) then u else use_at s port'.
Proof. unfold use_at. simpl. case_bool_decide; [subst; by rewrite lookup_insert, decide_True|by rewrite lookup_insert_ne]. Qed.

(** The shape of the state after [add]. *)
Lemma add_inv cfg s e s' :
  add cfg s e = Ok s' ->
  let use := use_at s (port_of e) in
  ps_listeners s !! le_key e = None /\
  s' = mkProxyState
    (<[port_of e := if le_exclusive e then mkPortUse (le_key e) (pu_google use) else mkPortUse (pu_exclusive use) (pu_google use ++ [le_key e])]> (ps_used s))
    (if le_exclusive e then ps_selectors s else <[selector (le_listener e) := le_key e]> (ps_selectors s))
    (<[le_key e := le_listener e]> (ps_listeners s)).
Proof.
  unfold add. fold (use_at s (li_proxy_port (le_listener e))). fold (port_of e). case_bool_decide; [done|].
  destruct (le_exclusive e); repeat (case_bool_decide; simpl; try done);
    (destruct (ps_listeners s !! le_key e) eqn:El; simpl; [done|]); by intros [= <-].
Qed.

Lemma add_keeps cfg pre s e s' : le_key e ≠ "" -> add_abs pre s -> add cfg s e = Ok s' -> add_abs (pre ++ [e]) s'.
Proof.
  intros Hkey [Hx Hg Hs Hk Hl] [Hnew ->]%add_inv. split.
  - intros port. rewrite use_at_insert, exists_snoc, <-Hx. case_bool_decide as Hp; [destruct (le_exclusive e); simpl|]; subst; tauto || (split; [tauto|]; intros [?|[? ?]]; by subst).
  - intros port. rewrite use_at_insert, exists_snoc, <-Hg. case_bool_decide as Hp; [destruct (le_exclusive e); simpl|]; subst.
    + split; [tauto|]. by intros [?|[? ?]].
    + split; [tauto|]. intros _. by destruct (pu_google _).
    + split; [tauto|]. intros [?|[? ?]]; by subst.
  - intros sel. simpl. rewrite exists_snoc, <-Hs. destruct (le_exclusive e).
    { split; [tauto|]. by intros [?|[? ?]]. }
    destruct (decide (sel = selector (le_listener e))) as [->|Hne].
    + rewrite lookup_insert, decide_True by done. simpl. tauto.
    + rewrite lookup_insert_ne by done. split; [tauto|]. intros [?|[? ?]]; by subst.
  - intros k. simpl. rewrite fmap_app, elem_of_app, <-Hk. simpl. rewrite list_elem_of_singleton, lookup_insert_is_Some.
    destruct (decide (le_key e = k)) as [->|Hne]; [tauto|]. split; [intros [?|[? ?]]; [done|by left]|intros [?| ->]; [by right|done]].
  - intros e' [He'|<-%list_elem_of_singleton]%elem_of_app; simpl; [|by rewrite lookup_insert, decide_True].
    rewrite lookup_insert_ne; [by apply Hl|]. intros Heq. apply Hl in He'. by rewrite <-Heq, Hnew in He'.
Qed.

(** ** The whole loop *)

Lemma key_not_empty cfg name lb t gs e : e ∈ lb_entries cfg name lb t gs -> le_key e ≠ "".
Proof.
  unfold lb_entries, listener_key. repeat case_bool_decide; [..|set_solver]; intros (x & -> & _)%list_elem_of_fmap.
  - destruct x as [[[]]]. by destruct name.
  - destruct x. by destruct name.
  - destruct x as [ip port]. case_bool_decide; by destruct name.
Qed.

(** The listeners in the order the loop adds them. *)
Definition range_entries (cfg : Config) : list ListenerEntry :=
  '(name, lb) ← range_over 3 (c_load_balancers cfg);
  match tenants_of cfg name with [t] => lb_entries cfg name lb t (groups_of cfg name t) | _ => [] end.

Lemma range_entries_perm cfg : range_entries cfg ≡ₚ proxy_entries cfg.
Proof. unfold range_entries, proxy_entries. by rewrite range_perm. Qed.

(** The loop over load balancers is the loop over their listeners, once each has an owner. *)
Lemma add_lb_loop cfg refs :
  refs_abs (refs_list cfg) refs -> (forall lb, is_Some (c_load_balancers cfg !! lb) -> exists t, tenants_of cfg lb = [t]) ->
  forall s, fold_err (add_lb cfg refs) s (range_over 3 (c_load_balancers cfg)) = fold_err (add cfg) s (range_entries cfg).
Proof.
  intros Habs Hown s. unfold range_entries. rewrite <-fold_err_concat. apply fold_err_ext. intros [name lb] Hin%elem_of_range s'.
  unfold add_lb. simpl. destruct (Hown name) as [t Ht]; [eauto|]. pose proof (lb_owner_spec cfg refs name Habs) as Ho.
  rewrite Ht in *. by rewrite Ho.
Qed.

Lemma owner_missing cfg refs lb name s :
  refs_abs (refs_list cfg) refs -> c_load_balancers cfg !! name = Some lb -> ~ (exists t, tenants_of cfg name = [t]) ->
  is_ok (fold_err (add_lb cfg refs) s (range_over 3 (c_load_balancers cfg))) = false.
Proof.
  intros Habs Hlb Hno. apply fold_err_fails with (name, lb); [by apply elem_of_range|]. intros s'. unfold add_lb. simpl.
  pose proof (lb_owner_spec cfg refs name Habs) as Ho. destruct (tenants_of cfg name) as [|t [|? ?]]; [|by destruct Hno; exists t|];
    by destruct (lb_owner refs name).
Qed.

Lemma entries_loop cfg :
  let r := fold_err (add cfg) (mkProxyState ∅ ∅ ∅) (range_entries cfg) in
  (is_ok r = true <-> Forall (fun e => port_of e ∉ serverPorts cfg) (proxy_entries cfg) /\ pairs compatible (proxy_entries cfg)) /\
  (forall s, r = Ok s -> ps_listeners s = proxy_listeners cfg).
Proof.
  destruct (fold_err_pairs (add cfg) (fun e => le_key e ≠ "") add_abs (fun e => port_of e ∉ serverPorts cfg) compatible) with
    (l := range_entries cfg) (pre := @nil ListenerEntry) (s := mkProxyState ∅ ∅ ∅) as [Ha Hb].
  - intros pre s e s' Hs Hk E. destruct (proj1 (add_spec cfg pre s e Hs)) as [? ?]; [by rewrite E|]. eauto using add_keeps.
  - intros pre s e Hs ? ?. by apply (add_spec cfg pre s e Hs).
  - apply Forall_forall. intros e ([name lb] & He & _)%list_elem_of_bind.
    destruct (tenants_of cfg name) as [|? [|? ?]]; [set_solver| |set_solver]. by eapply key_not_empty.
  - apply add_abs_empty.
  - assert (is_ok (fold_err (add cfg) (mkProxyState ∅ ∅ ∅) (range_entries cfg)) = true <->
      Forall (fun e => port_of e ∉ serverPorts cfg) (proxy_entries cfg) /\ pairs compatible (proxy_entries cfg)) as Hok.
    { rewrite Hb, (pairs_perm compatible _ _ (range_entries_perm cfg)).
      setoid_rewrite (range_entries_perm cfg). split; [tauto|]. intros [? ?]. split_and!; [done..|]. apply Forall_forall. constructor. }
    split; [exact Hok|]. intros s Hs. pose proof (Ha s Hs) as Habs. simpl in Habs. destruct (proj1 Hok) as [_ Hpairs]; [by rewrite Hs|].
    apply map_eq. intros k. unfold proxy_listeners.
    destruct (ps_listeners s !! k) as [l|] eqn:El.
    + assert (k ∈ (le_key <$> range_entries cfg)) as (e & -> & He)%list_elem_of_fmap by (apply (aa_keys _ _ Habs); eauto).
      rewrite (aa_listeners _ _ Habs e He) in El. simplify_eq. symmetry. apply elem_of_list_to_map_1.
      * rewrite <-list_fmap_compose. apply NoDup_fmap_pairs with (R := compatible); [|done]. by intros x y [? _].
      * apply list_elem_of_fmap. exists e. split; [done|]. by rewrite <-range_entries_perm.
    + symmetry. apply not_elem_of_list_to_map_1. intros Hin. rewrite <-list_fmap_compose in Hin. simpl in Hin.
      assert (is_Some (ps_listeners s !! k)) as [? ?]; [|by rewrite El in *]. apply (aa_keys _ _ Habs). by rewrite range_entries_perm.
Qed.

Lemma proxy_config_run cfg m : ProxyConfig cfg = Ok m <-> proxy_ok cfg /\ m = proxy_listeners cfg.
Proof.
  unfold ProxyConfig. destruct (load_balancer_refs_spec cfg) as [Hrefs Habs].
  assert ((forall t gs n g, c_groups cfg !! t = Some gs -> gs !! n = Some g -> Forall (fun lb => is_Some (c_load_balancers cfg !! lb)) (gc_load_balancers g)) <->
    (forall r, r ∈ refs_list cfg -> is_Some (c_load_balancers cfg !! r.2))) as Hknown.
  { setoid_rewrite Forall_forall. split.
    - intros H [[t n] lb] (gs & g & ? & ? & ?)%elem_of_refs_list. by eapply H.
    - intros H t gs n g Hgs Hg lb Hlb. apply (H (t, n, lb)), elem_of_refs_list. naive_solver. }
  destruct (load_balancer_refs cfg) as [refs|e] eqn:Er; simpl.
  2:{ split; [done|]. intros [[H] _]. by specialize (proj2 Hrefs (proj1 Hknown H)). }
  specialize (Habs refs eq_refl). destruct (entries_loop cfg) as [Hloop Hres].
  destruct (decide (map_Forall (fun lb _ => length (tenants_of cfg lb) = 1%nat) (c_load_balancers cfg))) as [Hone|Hnone].
  - assert (forall lb, is_Some (c_load_balancers cfg !! lb) -> exists t, tenants_of cfg lb = [t]) as Hown.
    { intros lb [c Hc]. apply Hone in Hc. destruct (tenants_of cfg lb) as [|t [|? ?]]; [done|by exists t|done]. }
    rewrite (add_lb_loop cfg refs Habs Hown). destruct (fold_err (add cfg) _ _) as [s|e] eqn:Ef; simpl.
    + specialize (Hres s eq_refl). split; [intros [= <-]; split; [|done]|intros [_ ->]; by rewrite Hres].
      destruct (proj1 Hloop eq_refl). split; [exact (proj2 Hknown (proj1 Hrefs eq_refl))|done..].
    + split; [done|]. intros [[_ _ H1 H2] _]. by specialize (proj2 Hloop (conj H1 H2)).
  - apply map_not_Forall in Hnone as (name & lb & Hlb & Hlen); [|apply _].
    assert (~ exists t, tenants_of cfg name = [t]) as Hno by (intros [t Ht]; by rewrite Ht in Hlen).
    pose proof (owner_missing cfg refs lb name (mkProxyState ∅ ∅ ∅) Habs Hlb Hno) as Hf.
    destruct (fold_err (add_lb cfg refs) _ _); [done|]. simpl. split; [done|]. intros [[_ Hown _ _] _]. destruct Hno. apply Hown. eauto.
Qed.
End Facts.

(** The number of frontends on a port does not depend on the order of the count. *)
Lemma googlePorts_order (RO1 RO2 : RangeOrder) cfg port : googlePorts (RO := RO1) cfg port = googlePorts (RO := RO2) cfg port.
Proof. unfold googlePorts. by rewrite (range_perm (RangeOrder := RO1)), (range_perm (RangeOrder := RO2)). Qed.

Lemma lb_entries_order (RO1 RO2 : RangeOrder) cfg name lb t gs : lb_entries (RO := RO1) cfg name lb t gs = lb_entries (RO := RO2) cfg name lb t gs.
Proof. unfold lb_entries. repeat case_bool_decide; try done. apply list_fmap_ext. intros i [ip port] _. by rewrite (googlePorts_order RO1 RO2). Qed.

Lemma proxy_entries_order (RO1 RO2 : RangeOrder) cfg : proxy_entries (H := RO1) cfg = proxy_entries (H := RO2) cfg.
Proof.
  unfold proxy_entries. induction (map_to_list (c_load_balancers cfg)) as [|[name lb] l IH]; [done|]. rewrite !bind_cons. f_equal; [|exact IH].
  destruct (tenants_of cfg name) as [|t [|? ?]]; [done|apply lb_entries_order|done].
Qed.

Lemma proxy_config_order (RO1 RO2 : RangeOrder) cfg m : ProxyConfig (RO := RO1) cfg = Ok m <-> ProxyConfig (RO := RO2) cfg = Ok m.
Proof.
  rewrite !proxy_config_run. unfold proxy_listeners. rewrite (proxy_entries_order RO1 RO2).
  split; intros [[] ->]; (split; [|done]); split; try done; first [by rewrite (proxy_entries_order RO1 RO2)|by rewrite (proxy_entries_order RO2 RO1)].
Qed.

Section Sound.
Context {RO : RangeOrder}.

(** Where a listener comes from. *)
Lemma listener_entry cfg k l :
  proxy_listeners cfg !! k = Some l -> exists e, e ∈ proxy_entries cfg /\ le_key e = k /\ le_listener e = l.
Proof.
  intros Hl%elem_of_list_to_map_2. apply list_elem_of_fmap in Hl as (e & Heq & He). simplify_eq. eauto.
Qed.

Lemma lb_entries_owner cfg name lb t gs e :
  e ∈ lb_entries cfg name lb t gs -> li_tenant (le_listener e) = t /\ li_groups (le_listener e) = gs.
Proof.
  unfold lb_entries. repeat case_bool_decide; [..|set_solver]; intros (x & -> & _)%list_elem_of_fmap;
    [destruct x as [[[]]]|destruct x|destruct x; case_bool_decide]; done.
Qed.

(** The groups of a listener are exactly the groups behind its load balancer, all of
    one tenant. *)
Lemma listener_groups cfg k l :
  proxy_listeners cfg !! k = Some l ->
  exists lb, is_Some (c_load_balancers cfg !! lb) /\
    forall t n, (exists gs g, c_groups cfg !! t = Some gs /\ gs !! n = Some g /\ refers lb g) <-> t = li_tenant l /\ n ∈ li_groups l.
Proof.
  intros (e & ([name lb] & He & Hlb%elem_of_map_to_list)%list_elem_of_bind & _ & <-)%listener_entry.
  exists name. split; [eauto|]. destruct (tenants_of cfg name) as [|t [|? ?]] eqn:Ht; [set_solver| |set_solver].
  apply lb_entries_owner in He as [-> ->]. intros t' n. rewrite <-elem_of_refs_list. split.
  - intros Hr. assert (t' ∈ tenants_of cfg name) as Hin by (apply elem_of_tenants_of; eauto). rewrite Ht in Hin.
    apply list_elem_of_singleton in Hin as ->. split; [done|]. by apply elem_of_groups_of.
  - intros [-> Hn]. by apply elem_of_groups_of.
Qed.
End Sound.

(** C22. Whether the proxy configuration exists and what its listeners are is
    a function of the configuration: for every order in which the maps are iterated,
    [ProxyConfig] succeeds exactly when every reference is to a configured load
    balancer, every load balancer belongs to one tenant, no listener uses a port of
    the server and every two listeners are compatible; and the result is then the
    listeners the load balancers define. *)
Theorem proxy_config_spec (RO : RangeOrder) (cfg : Config) (m : gmap string Listener) :
  (ProxyConfig cfg = Ok m <-> proxy_ok cfg /\ m = proxy_listeners cfg) /\
  (forall RO' : RangeOrder, ProxyConfig (RO := RO') cfg = ProxyConfig (RO := RO) cfg \/ (is_ok (ProxyConfig (RO := RO') cfg) = false /\ is_ok (ProxyConfig (RO := RO) cfg) = false)).
Proof.
  split; [apply proxy_config_run|]. intros RO'. destruct (ProxyConfig (RO := RO) cfg) as [m1|e1] eqn:E1.
  - left. by apply (proxy_config_order RO RO').
  - right. destruct (ProxyConfig (RO := RO') cfg) as [m2|e2] eqn:E2; [|done]. apply (proxy_config_order RO' RO) in E2. congruence.
Qed.

(** The listeners of an accepted proxy configuration do not interfere:
    none uses a port the server binds; two listeners with the same proxy port have
    different frontend addresses, so a connection selects one of them; and each
    listener's groups are exactly the groups that refer to its load balancer, all of
    the listener's own tenant. *)
Theorem proxy_listeners_disjoint (RO : RangeOrder) (cfg : Config) (m : gmap string Listener) :
  ProxyConfig cfg = Ok m ->
  (forall k l, m !! k = Some l -> (li_proxy_port l ∉ serverPorts cfg) /\
     exists lb, is_Some (c_load_balancers cfg !! lb) /\
       forall t n, (exists gs g, c_groups cfg !! t = Some gs /\ gs !! n = Some g /\ refers lb g) <-> t = li_tenant l /\ n ∈ li_groups l) /\
  (forall k1 k2 l1 l2, m !! k1 = Some l1 -> m !! k2 = Some l2 -> k1 ≠ k2 ->
     li_proxy_port l1 = li_proxy_port l2 -> li_frontend_ip l1 ≠ li_frontend_ip l2).
Proof.
  intros Hm. pose proof Hm as [Hok ->]%proxy_config_run. destruct Hok as [_ _ Hports Hpairs]. split.
  - intros k l Hl. split; [|by eapply listener_groups]. apply listener_entry in Hl as (e & He & _ & <-).
    rewrite Forall_forall in Hports. by apply Hports.
  - intros k1 k2 l1 l2 (e1 & He1 & <- & <-)%listener_entry (e2 & He2 & <- & <-)%listener_entry Hne Hport Hip.
    destruct (pairs_elem compatible _ e1 e2 Hpairs He1 He2) as (_ & Hex & Hsel); [congruence|].
    destruct (le_exclusive e1) eqn:E1; [apply Hex; auto|]. destruct (le_exclusive e2) eqn:E2; [apply Hex; auto|].
    apply Hsel; [done..|]. unfold selector. by rewrite Hip, Hport.
Qed.
