(* ===== verification/NatValidation.v ===== *)
(** * Validation of managed NAT and of subnet pools
    ([src/internal/server/config/nat.go], [subnets.go])

    Both checks reject a resource that two tenants would share: a fixed public
    address or its allocation, a provider subnet listed in two pools, and a pool
    routed through one tenant's NAT that holds groups of another tenant. *)

From S2P Require Import Prelude Provider Json GoText Config ProxyConfig.

(** ** nat.go *)

Definition validateNATThresholds (up down : NATThresholds) : res unit :=
  let bad (u d : Qc) : bool :=
    bool_decide (u <= 0)%Qc || bool_decide (Q2Qc 100 < u)%Qc || bool_decide (d <= 0)%Qc || bool_decide (Q2Qc 100 < d)%Qc || bool_decide (u <= d)%Qc in
  _ ← check_all [(nt_conntrack_percent up, nt_conntrack_percent down); (nt_cpu_percent up, nt_cpu_percent down)]
        (fun '(u, d) => refuse (bad u d) (ErrMsg "utilization thresholds must be in (0,100] with scale-down below scale-up"));
  let u := nt_packet_drops_per_second up in
  let d := nt_packet_drops_per_second down in
  refuse (bool_decide (u < 0)%Qc || bool_decide (d < 0)%Qc || bool_decide (u <= d)%Qc)
    (ErrMsg "packet-drop thresholds must be non-negative with scale-down below scale-up").

(** The loop over [instance_type_ladder]: the types seen, and whether [start] is one. *)
Definition ladder_step (start : string) (acc : bool * list string) (ty : string) : res (bool * list string) :=
  let '(found, seen) := acc in
  if bool_decide (ty = "") then Err (ErrMsg "instance_type_ladder must not contain an empty value")
  else if bool_decide (ty ∈ seen) then Err (ErrMsg "instance_type_ladder contains duplicate")
  else Ok (found || bool_decide (ty = start), ty :: seen).

Definition validateNATGroup (start : string) (cfg : NATConfig) : res unit :=
  _ ← refuse (bool_decide (nat_instance_type_ladder cfg = [])) (ErrMsg "instance_type_ladder must not be empty");
  '(found, _) ← fold_err (ladder_step start) (false, []) (nat_instance_type_ladder cfg);
  _ ← refuse (negb found) (ErrMsg "instance_type_ladder must include starting instance_type");
  _ ← refuse (bool_decide (nat_scale_up_window cfg < 2 * minute) || bool_decide (5 * minute < nat_scale_up_window cfg))
        (ErrMsg "scale_up_window must be between 2m and 5m");
  _ ← refuse (bool_decide (nat_scale_down_window cfg < 20 * minute) || bool_decide (30 * minute < nat_scale_down_window cfg))
        (ErrMsg "scale_down_window must be between 20m and 30m");
  _ ← refuse (bool_decide (nat_cooldown cfg < 10 * minute)) (ErrMsg "cooldown must be at least 10m");
  refuse (bool_decide (nat_replacement_timeout cfg <= 0)) (ErrMsg "replacement_timeout must be positive").

(** [usedAddresses] and [usedAllocations]. *)
Abbreviation Used := (gmap Addr string * gmap string string)%type.

Definition use_address (cfg : Config) (tenant : string) (used : Used) (configured : PublicAddress) : res Used :=
  match ParseAddr (pa_ipv4 configured) with
  | Some (Addr4 v) =>
      if negb (bool_decide (default "" (used.1 !! Addr4 v) = "")) then Err (ErrMsg "fixed public IPv4 address is used by two tenants")
      else
        let addresses := <[Addr4 v := tenant]> used.1 in
        let provider := s_infra_provider (c_settings cfg) in
        let allocation := pa_allocation_id configured in
        if bool_decide (provider = "aws") then
          if bool_decide (allocation = "") then Err (ErrMsg "AWS fixed public IPv4 address requires allocation_id")
          else if negb (bool_decide (default "" (used.2 !! allocation) = "")) then Err (ErrMsg "elastic IP allocation is used by two tenants")
          else Ok (addresses, <[allocation := tenant]> used.2)
        else if bool_decide (provider = "google") then
          if negb (bool_decide (allocation = "")) then Err (ErrMsg "google cloud fixed public IPv4 address cannot specify allocation_id")
          else Ok (addresses, used.2)
        else Ok (addresses, used.2)
  | _ => Err (ErrMsg "public_addresses contains invalid ipv4")
  end.

Definition validatePublicAddresses (cfg : Config) (tenant : string) (addresses : list PublicAddress) (used : Used) : res Used :=
  fold_err (use_address cfg tenant) used addresses.

(** The checks of one tenant before its addresses, and after. *)
Definition nat_settings_ok (tenant : string) (nat : NATConfig) : res unit :=
  _ ← Validate "tenant ID" tenant;
  _ ← refuse (bool_decide (nat_group nat = "")) (ErrMsg "group is required");
  _ ← refuse (negb (bool_decide (nat_mode nat = "nat44")) && negb (bool_decide (nat_mode nat = "nat64"))) (ErrMsg "mode must be nat44 or nat64");
  _ ← refuse (bool_decide (nat_last_instance_grace_period nat <= 0)) (ErrMsg "last_instance_grace_period must be positive");
  validateNATThresholds (nat_scale_up_thresholds nat) (nat_scale_down_thresholds nat).

Definition nat_group_ok (cfg : Config) (tenant : string) (nat : NATConfig) : res unit :=
  match group_in (c_groups cfg) tenant (nat_group nat) with
  | None => Err (ErrMsg "references unknown group")
  | Some g =>
      _ ← refuse (bool_decide (gc_size g ≠ None)) (ErrMsg "nat group cannot specify size");
      _ ← refuse (bool_decide (gc_instance_type g = "")) (ErrMsg "nat group requires instance_type");
      validateNATGroup (gc_instance_type g) nat
  end.

Section Validation.
Context {RO : RangeOrder}.

Definition nat_step (cfg : Config) (used : Used) (named : string * NATConfig) : res Used :=
  let '(tenant, nat) := named in
  _ ← nat_settings_ok tenant nat;
  used' ← validatePublicAddresses cfg tenant (nat_public_addresses nat) used;
  _ ← nat_group_ok cfg tenant nat;
  Ok used'.

Definition validateNAT (cfg : Config) : res unit :=
  _ ← fold_err (nat_step cfg) (∅, ∅) (range_over 4 (c_nat cfg));
  Ok tt.

(** ** subnets.go *)

(** One pool of [shard.subnet_pools]; [seen] is [subnetIDToKey]. *)
Definition pool_step (seen : gmap string string) (named : string * list string) : res (gmap string string) :=
  let '(key, subnetIDs) := named in
  _ ← Validate "subnet pool" key;
  _ ← refuse (bool_decide (subnetIDs = [])) (ErrMsg "subnet pool has no associated subnet IDs");
  fold_err (fun seen id =>
    match seen !! id with
    | Some _ => Err (ErrMsg "provider subnet ID appears in multiple subnet pools")
    | None => Ok (<[id := key]> seen)
    end) seen subnetIDs.

Definition known_pool (cfg : Config) (key : string) : bool := bool_decide (is_Some (c_subnet_pools cfg !! key)).

(** The pool a group is placed in: its own, or its template's. *)
Definition placement (cfg : Config) (g : GroupConfig) : string :=
  if bool_decide (gc_subnet_pool g = "") then
    match c_templates cfg !! gc_template g with Some t => tc_subnet_pool t | None => "" end
  else gc_subnet_pool g.

(** A tenant's groups behind its NAT take their pools. *)
Definition own_step (cfg : Config) (owned : gmap string string) (named : string * NATConfig) : res (gmap string string) :=
  let '(tenant, nat) := named in
  fold_err (fun owned '(name, g) =>
    if bool_decide (name = nat_group nat) then Ok owned
    else let key := placement cfg g in
      if bool_decide (key = "") then Ok owned
      else match owned !! key with
      | Some owner => if bool_decide (owner = tenant) then Ok (<[key := tenant]> owned)
                      else Err (ErrMsg "NAT subnet pool is used by groups in multiple tenants")
      | None => Ok (<[key := tenant]> owned)
      end) owned (range_over 8 (default ∅ (c_groups cfg !! tenant))).

(** A group of another tenant in an owned pool. *)
Definition group_placed_ok (cfg : Config) (owned : gmap string string) (tenant name : string) (g : GroupConfig) : res unit :=
  if bool_decide (Some name = nat_group <$> c_nat cfg !! tenant) then Ok tt
  else
    let key := placement cfg g in
    let owner := default "" (owned !! key) in
    refuse (negb (bool_decide (key = "")) && negb (bool_decide (owner = "")) && negb (bool_decide (owner = tenant)))
      (ErrMsg "NAT subnet pool is used by a group of another tenant").

(** [Config.ValidateSubnetConfig]. *)
Definition ValidateSubnetConfig (cfg : Config) : res unit :=
  _ ← refuse (bool_decide (c_subnet_pools cfg = ∅)) (ErrMsg "shard.subnet_pools must be configured with at least one subnet pool");
  _ ← fold_err pool_step ∅ (range_over 5 (c_subnet_pools cfg));
  _ ← check_all (c_dynamic_subnet_pools cfg) (fun key =>
        _ ← Validate "subnet pool" key;
        refuse (negb (known_pool cfg key)) (ErrMsg "dynamic_subnet_pools references unknown subnet pool"));
  _ ← check_all (range_over 6 (c_templates cfg)) (fun '(_, t) =>
        refuse (negb (bool_decide (tc_subnet_pool t = "")) && negb (known_pool cfg (tc_subnet_pool t))) (ErrMsg "template references unknown subnet pool"));
  _ ← check_all (range_over 7 (c_groups cfg)) (fun '(_, groups) =>
        check_all (range_over 7 groups) (fun '(_, g) =>
          refuse (negb (bool_decide (gc_subnet_pool g = "")) && negb (known_pool cfg (gc_subnet_pool g))) (ErrMsg "group references unknown subnet pool")));
  owned ← fold_err (own_step cfg) ∅ (range_over 9 (c_nat cfg));
  check_all (range_over 10 (c_groups cfg)) (fun '(tenant, groups) =>
    check_all (range_over 11 groups) (fun '(name, g) => group_placed_ok cfg owned tenant name g)).
End Validation.

(** ** What is accepted *)

(** A usable fixed address. *)
Definition address_ok (cfg : Config) (p : PublicAddress) : Prop :=
  let provider := s_infra_provider (c_settings cfg) in
  (exists v, ParseAddr (pa_ipv4 p) = Some (Addr4 v)) /\
  (provider = "aws" -> pa_allocation_id p ≠ "") /\ (provider = "google" -> pa_allocation_id p = "").

(** Two fixed addresses that are different resources. *)
Definition addresses_apart (cfg : Config) (p1 p2 : PublicAddress) : Prop :=
  ParseAddr (pa_ipv4 p1) ≠ ParseAddr (pa_ipv4 p2) /\
  (s_infra_provider (c_settings cfg) = "aws" -> pa_allocation_id p1 ≠ pa_allocation_id p2).

#[global] Instance addresses_apart_symmetric cfg : Symmetric (fun x y : string * PublicAddress => addresses_apart cfg x.2 y.2).
Proof. intros x y [H1 H2]. split; [done|]. intros Ha Heq. by apply H2. Qed.

(** All fixed addresses with their tenants. *)
Definition public_addresses (cfg : Config) : list (string * PublicAddress) :=
  '(t, nat) ← map_to_list (c_nat cfg); (t,.) <$> nat_public_addresses nat.

Record nat_ok (cfg : Config) : Prop := mkNatOk {
  no_tenants : forall t nat, c_nat cfg !! t = Some nat -> nat_settings_ok t nat = Ok tt /\ nat_group_ok cfg t nat = Ok tt;
  no_addresses : Forall (fun x => address_ok cfg x.2) (public_addresses cfg);
  no_apart : pairs (fun x y => addresses_apart cfg x.2 y.2) (public_addresses cfg);
}.

Lemma tenant_not_empty t nat : nat_settings_ok t nat = Ok tt -> t ≠ "".
Proof. unfold nat_settings_ok. rewrite res_bind_ok. intros [H _] ->. discriminate. Qed.

(** What the addresses used so far put into the accumulator. *)
Record used_abs (cfg : Config) (pre : list (string * PublicAddress)) (used : Used) : Prop := mkUsedAbs {
  ua_addresses : forall v, default "" (used.1 !! Addr4 v) ≠ "" <-> exists x, x ∈ pre /\ ParseAddr (pa_ipv4 x.2) = Some (Addr4 v);
  ua_allocations : forall a, default "" (used.2 !! a) ≠ "" <-> exists x, x ∈ pre /\ s_infra_provider (c_settings cfg) = "aws" /\ pa_allocation_id x.2 = a;
}.

Lemma use_address_spec cfg pre used x :
  used_abs cfg pre used ->
  (is_ok (use_address cfg x.1 used x.2) = true <-> address_ok cfg x.2 /\ Forall (fun y => addresses_apart cfg x.2 y.2) pre).
Proof.
  intros [Ha Hl]. unfold use_address, address_ok, addresses_apart. rewrite Forall_forall.
  specialize (Hl (pa_allocation_id x.2)). set (provider := s_infra_provider (c_settings cfg)) in *.
  destruct (ParseAddr (pa_ipv4 x.2)) as [[v|ws z]|] eqn:Ep; [|split; [done|]; by intros [[(v & ?) _] _]..].
  specialize (Ha v). destruct (decide (default "" (used.1 !! Addr4 v) = "")) as [E1|E1].
  2:{ rewrite bool_decide_false by done. simpl. split; [done|]. intros [_ Hall]. apply Ha in E1 as (y & Hy & Hv). by destruct (Hall y Hy). }
  rewrite bool_decide_true by done. simpl.
  assert (forall y, y ∈ pre -> Some (Addr4 v) ≠ ParseAddr (pa_ipv4 y.2)) as Hdist.
  { intros y Hy Heq. assert (default "" (used.1 !! Addr4 v) ≠ "") by (apply Ha; eauto). done. }
  destruct (decide (provider = "aws")) as [Haws|Haws].
  - rewrite bool_decide_true by done. case_bool_decide as Hempty; simpl; [split; [done|naive_solver]|].
    case_bool_decide as Hfree; simpl.
    + split; [intros _|done]. split; [split; [eauto|split; [done|congruence]]|]. intros y Hy. split; [by apply Hdist|].
      intros _ Heq. assert (default "" (used.2 !! pa_allocation_id x.2) ≠ "") by (apply Hl; eauto). done.
    + split; [done|]. intros [_ Hall]. apply Hl in Hfree as (y & Hy & _ & Heq). by destruct (Hall y Hy) as [_ []].
  - rewrite bool_decide_false by done. case_bool_decide as Hg; [case_bool_decide as Hempty|]; simpl; naive_solver.
Qed.

Lemma use_address_inv cfg t used p used' :
  use_address cfg t used p = Ok used' ->
  exists v, ParseAddr (pa_ipv4 p) = Some (Addr4 v) /\
    used' = (<[Addr4 v := t]> used.1, if bool_decide (s_infra_provider (c_settings cfg) = "aws") then <[pa_allocation_id p := t]> used.2 else used.2).
Proof.
  unfold use_address. destruct (ParseAddr (pa_ipv4 p)) as [[v|]|]; [|done..]. intros H. exists v. split; [done|]. revert H.
  repeat (case_bool_decide; simpl; try done); by intros [= <-].
Qed.

Lemma use_address_keeps cfg pre used x used' :
  x.1 ≠ "" -> used_abs cfg pre used -> use_address cfg x.1 used x.2 = Ok used' -> used_abs cfg (pre ++ [x]) used'.
Proof.
  intros Ht [Ha Hl] (v & Hv & ->)%use_address_inv. split.
  - intros v'. simpl. rewrite exists_snoc, Hv, <-Ha. destruct (decide (v' = v)) as [->|Hne].
    + rewrite lookup_insert, decide_True by done. simpl. tauto.
    + rewrite lookup_insert_ne by congruence. split; [tauto|]. intros [?|?]; [done|congruence].
  - intros a. simpl. rewrite exists_snoc, <-Hl. case_bool_decide as Haws; [|tauto].
    destruct (decide (a = pa_allocation_id x.2)) as [->|Hne].
    + rewrite lookup_insert, decide_True by done. simpl. tauto.
    + rewrite lookup_insert_ne by done. split; [tauto|]. intros [?|[? ?]]; [done|congruence].
Qed.

Section Accepted.
Context {RO : RangeOrder}.

Definition range_addresses (cfg : Config) : list (string * PublicAddress) :=
  '(t, nat) ← range_over 4 (c_nat cfg); (t,.) <$> nat_public_addresses nat.

Lemma nat_step_spec cfg used named used' :
  nat_step cfg used named = Ok used' <->
  (nat_settings_ok named.1 named.2 = Ok tt /\ nat_group_ok cfg named.1 named.2 = Ok tt) /\
  fold_err (fun u x => use_address cfg x.1 u x.2) used ((named.1,.) <$> nat_public_addresses named.2) = Ok used'.
Proof.
  destruct named as [t nat]. unfold nat_step, validatePublicAddresses. simpl. rewrite res_bind_ok.
  assert (fold_err (fun u x => use_address cfg x.1 u x.2) used ((t,.) <$> nat_public_addresses nat) =
    fold_err (use_address cfg t) used (nat_public_addresses nat)) as ->.
  { generalize (nat_public_addresses nat) as l. intros l. revert used. induction l as [|p l IH]; intros used; simpl; [done|].
    destruct (use_address cfg t used p); [apply IH|done]. }
  destruct (fold_err _ _ _) as [u|e]; simpl; [|naive_solver]. rewrite res_bind_ok. naive_solver.
Qed.

Lemma addresses_loop cfg :
  Forall (fun x => x.1 ≠ "") (range_addresses cfg) ->
  (exists u, fold_err (fun u x => use_address cfg x.1 u x.2) (∅, ∅) (range_addresses cfg) = Ok u) <->
  Forall (fun x => address_ok cfg x.2) (public_addresses cfg) /\ pairs (fun x y => addresses_apart cfg x.2 y.2) (public_addresses cfg).
Proof.
  intros Hne. assert (range_addresses cfg ≡ₚ public_addresses cfg) as Hperm by (unfold range_addresses, public_addresses; by rewrite range_perm).
  rewrite <-is_ok_ex.
  destruct (fold_err_pairs (fun u x => use_address cfg x.1 u x.2) (fun x => x.1 ≠ "") (used_abs cfg)
    (fun x => address_ok cfg x.2) (fun x y => addresses_apart cfg x.2 y.2)) with
    (l := range_addresses cfg) (pre := @nil (string * PublicAddress)) (s := (∅, ∅) : Used) as [_ Hb].
  - intros pre s x s' Hs Hg E. destruct (proj1 (use_address_spec cfg pre s x Hs)) as [? ?]; [by rewrite E|]. eauto using use_address_keeps.
  - intros pre s x Hs ? ?. by apply (use_address_spec cfg pre s x Hs).
  - done.
  - split; intros; simpl; (split; [done|]); intros (x & Hx & _); set_solver.
  - rewrite Hb, (pairs_perm (fun x y : string * PublicAddress => addresses_apart cfg x.2 y.2) _ _ Hperm). setoid_rewrite Hperm.
    split; [tauto|]. intros [? ?]. split_and!; [done..|]. apply Forall_forall. constructor.
Qed.

Lemma validateNAT_spec cfg : validateNAT cfg = Ok tt <-> nat_ok cfg.
Proof.
  pose proof (fold_err_guarded (nat_step cfg) _ _ (fun n : string * NATConfig => (n.1,.) <$> nat_public_addresses n.2)
    (nat_step_spec cfg) (range_over 4 (c_nat cfg)) (∅, ∅)) as Hflat.
  assert ((range_over 4 (c_nat cfg) ≫= fun n => (n.1,.) <$> nat_public_addresses n.2) = range_addresses cfg) as Hl.
  { unfold range_addresses. apply list_bind_ext; [by intros []|done]. }
  rewrite Hl in Hflat.
  assert (validateNAT cfg = Ok tt <-> exists u, fold_err (nat_step cfg) (∅, ∅) (range_over 4 (c_nat cfg)) = Ok u) as ->.
  { unfold validateNAT. destruct (fold_err _ _ _); naive_solver. }
  assert (map_Forall (fun t nat => nat_settings_ok t nat = Ok tt /\ nat_group_ok cfg t nat = Ok tt) (c_nat cfg) ->
    Forall (fun x => x.1 ≠ "") (range_addresses cfg)) as Hne.
  { intros Hall. apply Forall_forall. intros x ([t nat] & (p & -> & _)%list_elem_of_fmap & Hn%elem_of_range)%list_elem_of_bind.
    apply Hall in Hn as [Hn _]. by eapply tenant_not_empty. }
  split.
  - intros (u & [Hall%Forall_range Hu]%Hflat). destruct (proj1 (addresses_loop cfg (Hne Hall))) as [? ?]; [eauto|]. by split.
  - intros [Hall H1 H2]. destruct (proj2 (addresses_loop cfg (Hne Hall)) (conj H1 H2)) as [u Hu]. exists u. apply Hflat. by rewrite Forall_range.
Qed.
End Accepted.
