(* ===== verification/SubnetFacts.v ===== *)
(** * What the subnet check accepts *)

From S2P Require Import Prelude Provider Json GoText Config ProxyConfig NatValidation.

(** A static group that is placed in a pool and is not its tenant's NAT group. *)
Definition placed (cfg : Config) (t n : string) (g : GroupConfig) : Prop :=
  group_in (c_groups cfg) t n = Some g /\ placement cfg g ≠ "" /\ Some n ≠ nat_group <$> c_nat cfg !! t.

(** The provider subnets with their pools. *)
Definition pool_subnets (cfg : Config) : list (string * string) := '(key, ids) ← map_to_list (c_subnet_pools cfg); (key,.) <$> ids.

Record subnets_ok (cfg : Config) : Prop := mkSubnetsOk {
  so_some : c_subnet_pools cfg ≠ ∅;
  so_pools : forall key ids, c_subnet_pools cfg !! key = Some ids -> Validate "subnet pool" key = Ok tt /\ ids ≠ [];
  so_disjoint : pairs (fun x y => x.2 ≠ y.2) (pool_subnets cfg);
  so_dynamic : Forall (fun key => Validate "subnet pool" key = Ok tt /\ is_Some (c_subnet_pools cfg !! key)) (c_dynamic_subnet_pools cfg);
  so_templates : forall n t, c_templates cfg !! n = Some t -> tc_subnet_pool t = "" \/ is_Some (c_subnet_pools cfg !! tc_subnet_pool t);
  so_groups : forall t gs n g, c_groups cfg !! t = Some gs -> gs !! n = Some g -> gc_subnet_pool g = "" \/ is_Some (c_subnet_pools cfg !! gc_subnet_pool g);
  so_exclusive : forall t1 n1 g1 t2 n2 g2, placed cfg t1 n1 g1 -> is_Some (c_nat cfg !! t1) -> placed cfg t2 n2 g2 ->
    placement cfg g1 = placement cfg g2 -> t1 = t2;
}.

Section Facts.
Context {RO : RangeOrder}.

(** ** Pools are disjoint *)

#[local] Instance ids_apart_symmetric : Symmetric (fun x y : string * string => x.2 ≠ y.2).
Proof. intros x y H. done. Qed.

Definition id_step (seen : gmap string string) (x : string * string) : res (gmap string string) :=
  match seen !! x.2 with
  | Some _ => Err (ErrMsg "provider subnet ID appears in multiple subnet pools")
  | None => Ok (<[x.2 := x.1]> seen)
  end.

Lemma pool_step_spec seen named seen' :
  pool_step seen named = Ok seen' <->
  (Validate "subnet pool" named.1 = Ok tt /\ named.2 ≠ []) /\ fold_err id_step seen ((named.1,.) <$> named.2) = Ok seen'.
Proof.
  destruct named as [key ids]. unfold pool_step. simpl. rewrite !res_bind_ok, refuse_ok, bool_decide_eq_false.
  assert (fold_err id_step seen ((key,.) <$> ids) =
    fold_err (fun seen id => match seen !! id with Some _ => Err (ErrMsg "provider subnet ID appears in multiple subnet pools") | None => Ok (<[id := key]> seen) end) seen ids) as ->; [|tauto].
  revert seen. induction ids as [|id ids IH]; intros seen; simpl; [done|]. unfold id_step at 1. simpl.
  destruct (seen !! id); [done|apply IH].
Qed.

Lemma pools_loop cfg :
  is_ok (fold_err pool_step ∅ (range_over 5 (c_subnet_pools cfg))) = true <->
  (forall key ids, c_subnet_pools cfg !! key = Some ids -> Validate "subnet pool" key = Ok tt /\ ids ≠ []) /\
  pairs (fun x y => x.2 ≠ y.2) (pool_subnets cfg).
Proof.
  rewrite is_ok_ex.
  pose proof (fold_err_guarded pool_step _ _ (fun n : string * list string => (n.1,.) <$> n.2) pool_step_spec (range_over 5 (c_subnet_pools cfg)) ∅) as Hflat.
  assert ((range_over 5 (c_subnet_pools cfg) ≫= fun n => (n.1,.) <$> n.2) ≡ₚ pool_subnets cfg) as Hperm.
  { unfold pool_subnets. rewrite range_perm. erewrite list_bind_ext; [reflexivity|by intros []|done]. }
  destruct (fold_err_pairs id_step (fun _ => True) (fun pre seen => forall id, is_Some (seen !! id) <-> exists x, x ∈ pre /\ x.2 = id)
    (fun _ => True) (fun x y => x.2 ≠ y.2)) with
    (l := range_over 5 (c_subnet_pools cfg) ≫= fun n => (n.1,.) <$> n.2) (pre := @nil (string * string)) (s := ∅ : gmap string string) as [_ Hb].
  - intros pre s x s' Hs _ E. unfold id_step in E. destruct (s !! x.2) eqn:El; [done|]. injection E as <-. split; [done|]. split.
    + apply Forall_forall. intros y Hy Heq. assert (is_Some (s !! x.2)) as [? ?]; [|congruence]. apply Hs. eauto.
    + intros id. rewrite exists_snoc, <-Hs, lookup_insert_is_Some. destruct (decide (x.2 = id)); [tauto|]. split; [intros [?|[_ ?]]; [done|by left]|intros [?|?]; [by right|done]].
  - intros pre s x Hs _ Hall. unfold id_step. destruct (s !! x.2) eqn:El; [|done].
    destruct (proj1 (Hs x.2)) as (y & Hy & Heq); [eauto|]. rewrite Forall_forall in Hall. by destruct (Hall y Hy).
  - by apply Forall_true.
  - intros id. rewrite lookup_empty. split; [by intros []|set_solver].
  - rewrite (pairs_perm (fun x y : string * string => x.2 ≠ y.2) _ _ Hperm), is_ok_ex in Hb. split.
    + intros (u & [Hall%Forall_range Hu]%Hflat). split; [exact Hall|]. apply Hb. eauto.
    + intros [Hall Hp]. destruct (proj2 Hb) as [u Hu]; [split_and!; [by apply Forall_true|done|by apply Forall_forall; constructor]|].
      exists u. apply Hflat. by rewrite Forall_range.
Qed.

(** ** Pools behind a NAT *)

(** A group of a tenant with NAT: tenant, NAT group, name and configuration. *)
Abbreviation NatEntry := (string * string * string * GroupConfig)%type.

Definition nat_entries (cfg : Config) : list NatEntry :=
  '(t, nat) ← range_over 9 (c_nat cfg); '(n, g) ← range_over 8 (default ∅ (c_groups cfg !! t)); [(t, nat_group nat, n, g)].

Definition takes_pool (cfg : Config) (e : NatEntry) : Prop := let '(_, natgroup, n, g) := e in n ≠ natgroup /\ placement cfg g ≠ "".
Definition entry_tenant (e : NatEntry) : string := e.1.1.1.
Definition entry_pool (cfg : Config) (e : NatEntry) : string := placement cfg e.2.

Definition same_owner (cfg : Config) (e1 e2 : NatEntry) : Prop :=
  takes_pool cfg e1 -> takes_pool cfg e2 -> entry_pool cfg e1 = entry_pool cfg e2 -> entry_tenant e1 = entry_tenant e2.

#[local] Instance same_owner_symmetric cfg : Symmetric (same_owner cfg).
Proof. intros e1 e2 H H1 H2 Heq. symmetry. by apply H. Qed.

Definition entry_step (cfg : Config) (owned : gmap string string) (e : NatEntry) : res (gmap string string) :=
  let '(t, natgroup, n, g) := e in
  if bool_decide (n = natgroup) then Ok owned
  else let key := placement cfg g in
    if bool_decide (key = "") then Ok owned
    else match owned !! key with
    | Some owner => if bool_decide (owner = t) then Ok (<[key := t]> owned)
                    else Err (ErrMsg "NAT subnet pool is used by groups in multiple tenants")
    | None => Ok (<[key := t]> owned)
    end.

Lemma own_loop_flat cfg s : fold_err (own_step cfg) s (range_over 9 (c_nat cfg)) = fold_err (entry_step cfg) s (nat_entries cfg).
Proof.
  unfold nat_entries. rewrite <-fold_err_concat. apply fold_err_ext. intros [t nat] _ s'. unfold own_step.
  rewrite <-fold_err_concat. apply fold_err_ext. intros [n g] _ s''. unfold entry_step. simpl. repeat case_bool_decide; try done.
  destruct (s'' !! placement cfg g); [case_bool_decide|]; done.
Qed.

Definition owned_abs (cfg : Config) (pre : list NatEntry) (owned : gmap string string) : Prop :=
  forall key t, owned !! key = Some t <-> exists e, e ∈ pre /\ takes_pool cfg e /\ entry_pool cfg e = key /\ entry_tenant e = t.

Lemma takes_pool_dec cfg e : Decision (takes_pool cfg e).
Proof. unfold takes_pool. destruct e as [[[t ng] n] g]. apply _. Defined.

Lemma entry_skipped cfg owned e : ~ takes_pool cfg e -> entry_step cfg owned e = Ok owned.
Proof. destruct e as [[[t ng] n] g]. unfold takes_pool, entry_step. intros H. repeat case_bool_decide; tauto. Qed.

Lemma entry_taken cfg owned e :
  takes_pool cfg e ->
  entry_step cfg owned e =
    match owned !! entry_pool cfg e with
    | Some owner => if bool_decide (owner = entry_tenant e) then Ok (<[entry_pool cfg e := entry_tenant e]> owned)
                    else Err (ErrMsg "NAT subnet pool is used by groups in multiple tenants")
    | None => Ok (<[entry_pool cfg e := entry_tenant e]> owned)
    end.
Proof. destruct e as [[[t ng] n] g]. unfold takes_pool, entry_step. intros [? ?]. by rewrite !bool_decide_false. Qed.

Lemma owned_abs_skip cfg pre owned e : ~ takes_pool cfg e -> owned_abs cfg pre owned -> owned_abs cfg (pre ++ [e]) owned.
Proof. intros Hno Habs key t. rewrite exists_snoc, <-(Habs key t). tauto. Qed.

Lemma owned_abs_take cfg pre owned e :
  takes_pool cfg e -> owned_abs cfg pre owned -> (forall o, owned !! entry_pool cfg e = Some o -> o = entry_tenant e) ->
  owned_abs cfg (pre ++ [e]) (<[entry_pool cfg e := entry_tenant e]> owned).
Proof.
  intros He Habs Ho key t. rewrite exists_snoc, <-(Habs key t). destruct (decide (key = entry_pool cfg e)) as [->|Hne].
  - rewrite lookup_insert, decide_True by done. split; [intros [= <-]; by right|intros [H|(_ & _ & H)]; [f_equal; symmetry; by apply Ho|by rewrite H]].
  - rewrite lookup_insert_ne by done. split; [by left|]. intros [?|(_ & ? & _)]; [done|congruence].
Qed.

Lemma entry_step_spec cfg pre owned e :
  owned_abs cfg pre owned ->
  match entry_step cfg owned e with
  | Ok owned' => Forall (same_owner cfg e) pre /\ owned_abs cfg (pre ++ [e]) owned'
  | Err _ => ~ Forall (same_owner cfg e) pre
  end.
Proof.
  intros Habs. destruct (takes_pool_dec cfg e) as [He|He].
  2:{ rewrite entry_skipped by done. split; [|by apply owned_abs_skip]. apply Forall_forall. by intros e' _ He'. }
  assert ((forall o, owned !! entry_pool cfg e = Some o -> o = entry_tenant e) <-> Forall (same_owner cfg e) pre) as Hsame.
  { rewrite Forall_forall. split.
    - intros Ho e' He' _ Ht Heq. symmetry. apply Ho, Habs. exists e'. auto.
    - intros Hall o (e' & He' & Ht & Hp & <-)%Habs. symmetry. by apply (Hall e' He'). }
  rewrite entry_taken by done. destruct (owned !! entry_pool cfg e) as [o|] eqn:El; [case_bool_decide as Ho|].
  - split; [apply Hsame; by intros ? [= <-]|]. apply owned_abs_take; [done..|]. rewrite El. by intros ? [= <-].
  - intros Hall. apply Ho, (proj2 Hsame Hall). done.
  - split; [by apply Hsame|]. apply owned_abs_take; [done..|]. by rewrite El.
Qed.

Lemma own_loop cfg :
  let r := fold_err (own_step cfg) ∅ (range_over 9 (c_nat cfg)) in
  (is_ok r = true <-> pairs (same_owner cfg) (nat_entries cfg)) /\ (forall owned, r = Ok owned -> owned_abs cfg (nat_entries cfg) owned).
Proof.
  simpl. rewrite own_loop_flat.
  destruct (fold_err_pairs (entry_step cfg) (fun _ => True) (owned_abs cfg) (fun _ => True) (same_owner cfg)) with
    (l := nat_entries cfg) (pre := @nil NatEntry) (s := ∅ : gmap string string) as [Ha Hb].
  - intros pre s e s' Hs _ E. pose proof (entry_step_spec cfg pre s e Hs) as H. rewrite E in H. tauto.
  - intros pre s e Hs _ Hall. pose proof (entry_step_spec cfg pre s e Hs) as H. by destruct (entry_step cfg s e).
  - by apply Forall_true.
  - intros key t. rewrite lookup_empty. split; [done|set_solver].
  - split; [|exact Ha]. rewrite Hb. split; [tauto|]. intros H. split_and!; [by apply Forall_true|done|by apply Forall_forall; constructor].
Qed.

Lemma elem_of_nat_entries cfg t ng n g :
  (t, ng, n, g) ∈ nat_entries cfg <-> nat_group <$> c_nat cfg !! t = Some ng /\ group_in (c_groups cfg) t n = Some g.
Proof.
  unfold nat_entries, group_in. rewrite list_elem_of_bind. split.
  - intros ([t' nat] & ([n' g'] & Hx & Hg%elem_of_range)%list_elem_of_bind & Hn%elem_of_range).
    apply list_elem_of_singleton in Hx. simplify_eq. rewrite Hn. split; [done|]. by destruct (c_groups cfg !! t').
  - intros [(nat & Hn & Hng)%fmap_Some Hg]. exists (t, nat). split; [|by apply elem_of_range]. apply list_elem_of_bind. exists (n, g).
    split; [by rewrite Hng; apply list_elem_of_singleton|]. apply elem_of_range. by destruct (c_groups cfg !! t).
Qed.

Lemma group_in_Some (m : DynGroups) t n g : group_in m t n = Some g <-> exists gs, m !! t = Some gs /\ gs !! n = Some g.
Proof. unfold group_in. destruct (m !! t); naive_solver. Qed.

Lemma placed_entry cfg t n g nat :
  c_nat cfg !! t = Some nat -> placed cfg t n g <-> (t, nat_group nat, n, g) ∈ nat_entries cfg /\ takes_pool cfg (t, nat_group nat, n, g).
Proof. intros Hn. rewrite elem_of_nat_entries. unfold placed, takes_pool. rewrite Hn. simpl. naive_solver. Qed.

(** The check of one group against the owned pools. *)
Lemma group_placed_spec cfg owned t n g :
  (forall t, is_Some (c_nat cfg !! t) -> t ≠ "") -> owned_abs cfg (nat_entries cfg) owned -> group_in (c_groups cfg) t n = Some g ->
  group_placed_ok cfg owned t n g = Ok tt <->
  (placed cfg t n g -> forall t1 n1 g1, placed cfg t1 n1 g1 -> is_Some (c_nat cfg !! t1) -> placement cfg g1 = placement cfg g -> t1 = t).
Proof.
  intros Hne Habs Hg. unfold group_placed_ok. case_bool_decide as Hnat; [split; [|done]; intros _ (_ & _ & ?); done|].
  rewrite refuse_ok. destruct (decide (placement cfg g = "")) as [Hp|Hp].
  { rewrite bool_decide_true by done. split; [|done]. intros _ (_ & ? & _). done. }
  rewrite bool_decide_false by done. simpl.
  assert (placed cfg t n g) as Hplaced by done.
  assert (forall o, owned !! placement cfg g = Some o <-> exists n1 g1, placed cfg o n1 g1 /\ is_Some (c_nat cfg !! o) /\ placement cfg g1 = placement cfg g) as Hown.
  { intros o. rewrite (Habs (placement cfg g) o). split.
    - intros ([[[t1 ng] n1] g1] & Hin & Ht & Hpool & Hten). unfold entry_tenant in Hten. simpl in *. subst o.
      pose proof Hin as [Hng _]%elem_of_nat_entries. apply fmap_Some in Hng as (nc & Hn & Hng). subst ng.
      exists n1, g1. split; [by eapply placed_entry|]. split; [eauto|done].
    - intros (n1 & g1 & Hpl & [nc Hn] & Heq). destruct (proj1 (placed_entry cfg o n1 g1 nc Hn) Hpl) as [? ?]. by exists (o, nat_group nc, n1, g1). }
  destruct (owned !! placement cfg g) as [o|] eqn:Eo; simpl.
  - assert (o ≠ "") as Hon by (destruct (proj1 (Hown o) eq_refl) as (? & ? & _ & ? & _); by apply Hne).
    rewrite bool_decide_false by done. simpl. rewrite negb_false_iff, bool_decide_eq_true. split.
    + intros -> _ t1 n1 g1 H1 H2 Heq. assert (Some t = Some t1) as [= ->]; [|done]. apply Hown. eauto.
    + intros H. destruct (proj1 (Hown o) eq_refl) as (n1 & g1 & ? & ? & ?). by eapply H.
  - split; [|done]. intros _ _ t1 n1 g1 H1 H2 Heq. assert (None = Some t1) as [=]. apply Hown. eauto.
Qed.

Lemma exclusive_loop cfg :
  (forall t, is_Some (c_nat cfg !! t) -> t ≠ "") ->
  (owned ← fold_err (own_step cfg) ∅ (range_over 9 (c_nat cfg));
   check_all (range_over 10 (c_groups cfg)) (fun '(tenant, groups) =>
     check_all (range_over 11 groups) (fun '(name, g) => group_placed_ok cfg owned tenant name g))) = Ok tt <->
  (forall t1 n1 g1 t2 n2 g2, placed cfg t1 n1 g1 -> is_Some (c_nat cfg !! t1) -> placed cfg t2 n2 g2 ->
    placement cfg g1 = placement cfg g2 -> t1 = t2).
Proof.
  intros Hne. destruct (own_loop cfg) as [Hok Habs].
  destruct (fold_err (own_step cfg) ∅ _) as [owned|e]; simpl.
  - specialize (Habs owned eq_refl). rewrite check_all_ok, Forall_range. split.
    + intros H t1 n1 g1 t2 n2 g2 H1 Hn H2 Heq. pose proof H2 as [(gs & Hgs & Hg)%group_in_Some _].
      apply H in Hgs as Hc. rewrite check_all_ok, Forall_range in Hc. apply Hc in Hg as Hg'.
      by apply (proj1 (group_placed_spec cfg owned t2 n2 g2 Hne Habs (proj1 H2)) Hg' H2 t1 n1 g1).
    + intros H t gs Hgs. rewrite check_all_ok, Forall_range. intros n g Hg.
      apply (group_placed_spec cfg owned t n g Hne Habs); [by apply group_in_Some; eauto|]. intros H2 t1 n1 g1 H1 Hn Heq. by eapply H.
  - split; [done|]. intros H. assert (false = true) as [=]. apply Hok.
    assert (Forall (fun e => exists nat, c_nat cfg !! entry_tenant e = Some nat /\ e = (entry_tenant e, nat_group nat, e.1.2, e.2)) (nat_entries cfg)) as Hshape.
    { apply Forall_forall. intros [[[t ng] n] g] [(nat & Hn & ->)%fmap_Some _]%elem_of_nat_entries. by exists nat. }
    assert (forall e, e ∈ nat_entries cfg -> takes_pool cfg e -> placed cfg (entry_tenant e) e.1.2 e.2 /\ is_Some (c_nat cfg !! entry_tenant e)) as Hpl.
    { intros e' He' Ht. rewrite Forall_forall in Hshape. destruct (Hshape e' He') as (nat & Hn & Heq). split; [|eauto].
      apply (placed_entry _ _ _ _ nat Hn). by rewrite <-Heq. }
    clear Hok Habs Hshape. induction (nat_entries cfg) as [|e' l IH]; [done|]. split; [|apply IH; intros; apply Hpl; [by right|done]].
    apply Forall_forall. intros e2 He2 Ht1 Ht2 Heq. destruct (Hpl e') as [? ?]; [by left|done|]. destruct (Hpl e2) as [? ?]; [by right|done|]. by eapply H.
Qed.

Lemma known_pool_true cfg key : known_pool cfg key = true <-> is_Some (c_subnet_pools cfg !! key).
Proof. apply bool_decide_eq_true. Qed.

(** A pool that is unset or known. *)
Lemma pool_ref_ok cfg key e :
  refuse (negb (bool_decide (key = "")) && negb (known_pool cfg key)) e = Ok tt <-> key = "" \/ is_Some (c_subnet_pools cfg !! key).
Proof. rewrite refuse_ok, <-known_pool_true. case_bool_decide; destruct (known_pool cfg key); simpl; naive_solver. Qed.

Lemma ValidateSubnetConfig_spec cfg :
  (forall t, is_Some (c_nat cfg !! t) -> t ≠ "") -> ValidateSubnetConfig cfg = Ok tt <-> subnets_ok cfg.
Proof.
  intros Hne. unfold ValidateSubnetConfig. rewrite res_bind_ok, refuse_ok, bool_decide_eq_false.
  assert (forall (r : res (gmap string string)) (k : res unit), (_ ← r; k) = Ok tt <-> is_ok r = true /\ k = Ok tt) as Hdrop.
  { intros [] k; simpl; naive_solver. }
  rewrite Hdrop, pools_loop, !res_bind_ok, (exclusive_loop cfg Hne), !check_all_ok, !Forall_range.
  assert (Forall (fun key => (_ ← Validate "subnet pool" key; refuse (negb (known_pool cfg key)) (ErrMsg "dynamic_subnet_pools references unknown subnet pool")) = Ok tt) (c_dynamic_subnet_pools cfg) <->
    Forall (fun key => Validate "subnet pool" key = Ok tt /\ is_Some (c_subnet_pools cfg !! key)) (c_dynamic_subnet_pools cfg)) as ->.
  { apply Forall_iff. intros key. by rewrite res_bind_ok, refuse_ok, negb_false_iff, known_pool_true. }
  assert (forall k (gs : gmap string GroupConfig), check_all (range_over 7 gs) (fun '(_, g) => refuse (negb (bool_decide (gc_subnet_pool g = "")) && negb (known_pool cfg (gc_subnet_pool g))) (ErrMsg k)) = Ok tt <->
    map_Forall (fun _ g => gc_subnet_pool g = "" \/ is_Some (c_subnet_pools cfg !! gc_subnet_pool g)) gs) as Hgroups.
  { intros k gs. rewrite check_all_ok, Forall_range. unfold map_Forall. by setoid_rewrite pool_ref_ok. }
  unfold map_Forall in *. setoid_rewrite Hgroups. setoid_rewrite pool_ref_ok. split.
  - intros (? & [? ?] & ? & ? & ? & ?). split; eauto.
  - intros []. split_and!; eauto.
Qed.
End Facts.
