(* ===== verification/Validation.v ===== *)
(** * Defaults, validation and advertised addresses of the configuration
    ([src/internal/server/config/types.go], [validation.go], [tunnels.go],
    [network.go], [loader.go])

    [Parse] is what the loader applies to a downloaded configuration: decode, set
    defaults, validate.  The third-party struct validator and [url.Parse] are
    parameters; [StructLaws] states what the struct tags of [types.go] promise. *)

From Stdlib Require Import Ascii.
From S2P Require Import Prelude Provider Json GoText Config ProxyConfig NatValidation.
#[local] Open Scope Z_scope.

(** [url.URL], as far as the code looks. *)
Record URL := mkURL {
  u_scheme : string;
  u_host : string;
  u_has_user : bool;
  u_hostname : string;
  u_port : string;
}.

Class ValidatorEnv := mkValidatorEnv {
  ve_range :: RangeOrder;
  ve_struct : Config -> option err;     (* validate.Struct *)
  ve_url : string -> option URL;        (* url.Parse *)
}.

(** ** validation.go *)

(** [validateAddr], the [addr] tag. *)
Definition validateAddr (value : string) : bool :=
  if bool_decide (value = "") then false
  else match SplitHostPort value with
  | Err _ => false
  | Ok (host, portStr) =>
      let host_ok :=
        bool_decide (host = "") || bool_decide (ParseIP host ≠ None) ||
        (negb (bool_decide (253 < String.length host)%nat) &&
         negb (has_word ".." host || has_prefix "." host || has_suffix "." host)) in
      host_ok && match Atoi portStr with Some port => bool_decide (1 <= port <= 65535) | None => false end
  end.

(** [validateS3Bucket] and [validateURLOrFile] are registered but no tag uses them. *)
Definition validateS3Bucket (value : string) : bool :=
  negb (bool_decide (value = "")) &&
  negb (bool_decide (String.length value < 3)%nat || bool_decide (63 < String.length value)%nat) &&
  negb (has_prefix "-" value || has_suffix "-" value) && negb (has_word "--" value) &&
  forallb (fun a => is_lower_alnum a || is_hyphen a) (chars value).

Definition validateURLOrFile `{ValidatorEnv} (value : string) : bool :=
  if bool_decide (value = "") then true
  else if has_prefix "http://" value || has_prefix "https://" value then bool_decide (ve_url value ≠ None)
  else if has_word "://" value then false
  else negb (bool_decide (Clean value = ".")) && negb (bool_decide (Clean value = "..")).

(** What acceptance by the struct tags means, field by field; maps and slices are
    not entered (no [dive]). *)
Definition addrs_tags (a : Addrs) : bool :=
  validateAddr (ad_health a) && validateAddr (ad_election a) && validateAddr (ad_registration a) && validateAddr (ad_operator a) && validateAddr (ad_agent a).

Definition struct_tags (cfg : Config) : bool :=
  let s := c_settings cfg in
  negb (bool_decide (c_cluster_id cfg = "")) && negb (bool_decide (c_shard_id cfg = "")) &&
  bool_decide (sc_provider (s_secrets s) ∈ ["object-storage"; "aws-parameter-store"; "aws-secrets-manager"; "google-secret-manager"; "memory"]) &&
  match sc_encryption_key (s_secrets s) with
  | Some key => negb (bool_decide (ek_source key = "")) && bool_decide (ek_provider key ∈ ["env"; "file"; "aws-parameter-store"; "aws-secrets-manager"; "google-secret-manager"])
  | None => true
  end &&
  match s_cluster_storage s with Some st => bool_decide (cs_provider st ∈ ["s3"; "gcs"; "file"]) | None => true end &&
  bool_decide (s_infra_provider s ∈ ["aws"; "google"; "mock"; "tmux"; "proxmox"]) &&
  negb (bool_decide (s_infra_region s = "")) && negb (bool_decide (c_zone cfg = "")) &&
  addrs_tags (s_bind s) && addrs_tags (s_advertise s) &&
  match s_default_userdata s with Some u => negb (bool_decide (ud_content u = "")) | None => true end.

(** The documented behaviour of the validator on those tags. *)
Class StructLaws `{ValidatorEnv} : Prop := mkStructLaws {
  struct_sound : forall cfg, ve_struct cfg = None -> struct_tags cfg = true;
}.

(** ** types.go *)

Definition validateSecretProviderConfig (provider project_id : string) : res unit :=
  _ ← refuse (bool_decide (provider = "google-secret-manager") && bool_decide (project_id = "")) (ErrMsg "project_id is required for google-secret-manager");
  refuse (negb (bool_decide (provider = "google-secret-manager")) && negb (bool_decide (project_id = ""))) (ErrMsg "project_id is only valid for google-secret-manager").

Definition validateLoadBalancerPort (port : Z) : res unit :=
  refuse (bool_decide (port < 1) || bool_decide (65535 < port)) (ErrMsg "must be a valid TCP port (1..65535)").

Definition validateGeneratedFile (f : FileConfig) : res unit :=
  let kind := fc_kind f in
  if bool_decide (kind = "secret") || bool_decide (kind = "storage") then
    refuse (bool_decide (fc_source f = "")) (ErrMsg "must specify a source")
  else if bool_decide (kind = "env") then
    match fc_template f with
    | None => Err (ErrMsg "must specify a template")
    | Some (JObject fields) => check_all fields (fun kv => refuse (bool_decide (as_string kv.2 = None)) (ErrMsg "must have string value"))
    | Some _ => Err (ErrMsg "must have object template")
    end
  else if bool_decide (kind = "json") then
    match fc_template f with
    | None => Err (ErrMsg "must specify a template")
    | Some t => refuse (bool_decide (as_object t = None)) (ErrMsg "must have object template")
    end
  else if bool_decide (kind = "string") then
    match fc_template f with
    | None => Err (ErrMsg "must specify a template")
    | Some t => refuse (bool_decide (as_string t = None)) (ErrMsg "must have string template")
    end
  else Ok tt.

(** [UserdataConfig.Validate]; nil is accepted. *)
Definition validateUserdata (u : option UserdataConfig) : res unit :=
  match u with
  | None => Ok tt
  | Some u =>
      let source := if bool_decide (ud_source u = "") then "inline" else ud_source u in
      let encoding := if bool_decide (ud_encoding u = "") then "plain" else ud_encoding u in
      _ ← refuse (negb (bool_decide (source = "inline")) && negb (bool_decide (source = "url"))) (ErrMsg "invalid userdata source");
      _ ← refuse (negb (bool_decide (encoding ∈ ["plain"; "base64"; "gzip"; "base64+gzip"]))) (ErrMsg "invalid userdata encoding");
      _ ← refuse (bool_decide (encoding = "gzip") && bool_decide (source = "inline")) (ErrMsg "userdata encoding 'gzip' is only valid with source 'url'");
      refuse (bool_decide (ud_content u = "")) (ErrMsg "userdata content is required")
  end.

Definition is_letter_ (a : ascii) : bool :=
  let n := Z.of_N (N_of_ascii a) in bool_decide (97 <= n <= 122) || bool_decide (65 <= n <= 90) || bool_decide (n = 95).
Definition is_digit (a : ascii) : bool := let n := Z.of_N (N_of_ascii a) in bool_decide (48 <= n <= 57).

Definition isValidTemplateIdentifier (s : string) : bool :=
  match chars s with
  | [] => false
  | first :: rest => is_letter_ first && forallb (fun a => is_letter_ a || is_digit a) rest
  end.

(** One load balancer: the fields of its own provider, and only those. *)
Definition validate_load_balancer (lb : LoadBalancerConfig) : res unit :=
  let none {A} (l : list A) : bool := bool_decide (length l = 0%nat) in
  if bool_decide (lbc_provider lb = "aws") then
    _ ← refuse (none (lbc_target_groups lb)) (ErrMsg "must specify at least one target_groups entry");
    _ ← refuse (negb (none (lbc_neg lb) && none (lbc_frontends lb) && none (lbc_listeners lb))) (ErrMsg "contains fields for another provider");
    check_all (lbc_target_groups lb) (fun '(arn, listener, target, proxy) =>
      _ ← refuse (bool_decide (arn = "")) (ErrMsg "arn must not be empty");
      _ ← validateLoadBalancerPort listener;
      _ ← validateLoadBalancerPort target;
      validateLoadBalancerPort proxy)
  else if bool_decide (lbc_provider lb = "google") then
    _ ← refuse (none (lbc_neg lb)) (ErrMsg "must specify at least one network_endpoint_groups entry");
    _ ← refuse (none (lbc_frontends lb)) (ErrMsg "must specify at least one frontends entry");
    _ ← refuse (negb (none (lbc_target_groups lb) && none (lbc_listeners lb))) (ErrMsg "contains fields for another provider");
    _ ← check_all (lbc_neg lb) (fun name => refuse (bool_decide (name = "")) (ErrMsg "has empty network_endpoint_groups entry"));
    check_all (lbc_frontends lb) (fun '(ip, port) =>
      _ ← refuse (bool_decide (ParseAddr ip = None)) (ErrMsg "ip must be a valid IP address");
      validateLoadBalancerPort port)
  else if bool_decide (lbc_provider lb = "tunnel") then
    _ ← refuse (none (lbc_listeners lb)) (ErrMsg "must specify at least one listeners entry");
    _ ← refuse (negb (none (lbc_target_groups lb) && none (lbc_neg lb) && none (lbc_frontends lb))) (ErrMsg "contains fields for another provider");
    check_all (lbc_listeners lb) (fun '(target, proxy) => _ ← validateLoadBalancerPort target; validateLoadBalancerPort proxy)
  else Ok tt.

(** One group: its tenant and key are identifiers, its template and load balancers exist. *)
Definition validate_group_refs (cfg : Config) (g : GroupConfig) : res unit :=
  match c_templates cfg !! gc_template g with
  | None => Err (ErrMsg "references unknown template")
  | Some _ => check_all (gc_load_balancers g) (fun lb =>
      refuse (bool_decide (c_load_balancers cfg !! lb = None)) (ErrMsg "references unknown load balancer"))
  end.

(** One image. *)
Definition validate_image (cfg : Config) (name : string) (im : ImageConfig) : res unit :=
  _ ← refuse (negb (isValidTemplateIdentifier name)) (ErrMsg "image name must be a valid Go template identifier");
  _ ← refuse (negb (bool_decide (im_provider im = s_infra_provider (c_settings cfg)))) (ErrMsg "image provider does not match shard.infra.provider");
  _ ← refuse (negb (bool_decide (im_sort im ∈ ["creation-date"; "name"]))) (ErrMsg "image has invalid sort field");
  refuse (bool_decide (length (im_filters im) = 0%nat)) (ErrMsg "image must have at least one filter").

Definition validate_gc (cfg : Config) : res unit :=
  let gcInterval := s_gc_interval (c_settings cfg) in
  let gcRegTimeout := c_registration_timeout cfg in
  _ ← refuse (bool_decide (gcInterval < 0)) (ErrMsg "interval must be >= 0");
  _ ← refuse (bool_decide (gcRegTimeout < 0)) (ErrMsg "registration_timeout must be >= 0");
  _ ← refuse (negb (Bool.eqb (bool_decide (gcInterval = 0)) (bool_decide (gcRegTimeout = 0)))) (ErrMsg "interval and registration_timeout must both be zero to disable GC");
  refuse (bool_decide (0 < gcInterval) && bool_decide (gcRegTimeout <= gcInterval)) (ErrMsg "registration_timeout must be greater than interval").

Definition validate_expiry (cfg : Config) : res unit :=
  let x := c_expiry cfg in
  _ ← refuse (bool_decide (ex_eligible_age x < 0)) (ErrMsg "eligible_age must be >= 0");
  _ ← refuse (bool_decide (ex_forced_age x < 0)) (ErrMsg "forced_age must be >= 0");
  _ ← refuse (bool_decide (ex_ondemand_age x < 0)) (ErrMsg "ondemand_age must be >= 0");
  refuse (bool_decide (0 < ex_eligible_age x) && bool_decide (0 < ex_forced_age x) && bool_decide (ex_forced_age x <= ex_eligible_age x))
    (ErrMsg "eligible_age must be less than forced_age when both are set").

(** [validateProxmoxArgs]'s check of one group's arguments. *)
Definition proxmox_args_ok (args : gmap string Json) : res unit :=
  let storagePool := default "" (args !! "StoragePool" ≫= as_string) in
  let vmid_set := match args !! "TemplateVMID" ≫= as_number_zero with Some zero => negb zero | None => false end in
  let name_set := match args !! "TemplateName" ≫= as_string with Some n => negb (bool_decide (n = "")) | None => false end in
  _ ← refuse (bool_decide (storagePool = "")) (ErrMsg "StoragePool is required in args for proxmox provider");
  _ ← refuse (vmid_set && name_set) (ErrMsg "TemplateVMID and TemplateName are mutually exclusive");
  refuse (negb vmid_set && negb name_set) (ErrMsg "either TemplateVMID or TemplateName is required in args for proxmox provider").

(** ** tunnels.go *)

Section Validate.
Context {VE : ValidatorEnv}.

Definition validateLoopbackURL (rawURL : string) : res unit :=
  match ve_url rawURL with
  | None => Err (ErrMsg "must be a loopback HTTP URL")
  | Some u =>
      _ ← refuse (negb (bool_decide (u_scheme u = "http")) || bool_decide (u_host u = "") || u_has_user u || bool_decide (u_port u = "")) (ErrMsg "must be a loopback HTTP URL");
      refuse (negb (bool_decide (u_hostname u = "localhost")) && match ParseIP (u_hostname u) with Some ip => negb (IsLoopback ip) | None => true end)
        (ErrMsg "must be a loopback HTTP URL")
  end.

(** [strings.Split(image, "@sha256:")] has two parts, and the second is a digest. *)
Definition immutable_image (image : string) : res unit :=
  match cut_word (chars "@sha256:") (chars image) with
  | None => Err (ErrMsg "image must use an immutable sha256 digest")
  | Some (name, digest) =>
      _ ← refuse (bool_decide (cut_word (chars "@sha256:") digest ≠ None) || bool_decide (name = []) || negb (bool_decide (length digest = 64%nat)))
            (ErrMsg "image must use an immutable sha256 digest");
      refuse (negb (forallb (fun a => bool_decide (a ∈ chars "0123456789abcdef")) digest)) (ErrMsg "image must use a lowercase sha256 digest")
  end.

Definition tunnel_file_ok (destination : string) (f : FileConfig) : res unit :=
  _ ← refuse (negb (has_prefix "/" destination) || negb (bool_decide (Clean destination = destination)) || bool_decide (destination = "/"))
        (ErrMsg "file destination must be a clean absolute file path");
  if bool_decide (fc_kind f ∈ ["secret"; "storage"; "json"]) then validateGeneratedFile f
  else Err (ErrMsg "must use kind secret, storage or json").

Definition validateTunnelPod (pod : TunnelPodConfig) : res unit :=
  _ ← immutable_image (tp_image pod);
  _ ← validateLoopbackURL (tp_readiness_url pod);
  _ ← refuse (bool_decide (tp_readiness_timeout pod < 0)) (ErrMsg "readiness_timeout must not be negative");
  check_all (range_over 12 (tp_files pod)) (fun '(destination, f) => tunnel_file_ok destination f).

Definition validateTunnels (cfg : Config) : res unit :=
  let tunnels := s_tunnels (c_settings cfg) in
  _ ← check_all (range_over 13 tunnels) (fun '(name, pod) => _ ← Validate "tunnel" name; validateTunnelPod pod);
  _ ← check_all (range_over 14 (c_load_balancers cfg)) (fun '(name, lb) =>
        refuse (bool_decide (lbc_provider lb = "tunnel") && bool_decide (tunnels !! name = None)) (ErrMsg "tunnel load balancer requires a matching tunnels entry"));
  check_all (range_over 15 tunnels) (fun '(name, _) =>
    refuse (match c_load_balancers cfg !! name with Some lb => negb (bool_decide (lbc_provider lb = "tunnel")) | None => true end)
      (ErrMsg "tunnel requires a matching tunnel load balancer")).

(** ** Config.Validate, in the order of its checks *)

Definition validate_secrets (cfg : Config) : res unit :=
  let sec := s_secrets (c_settings cfg) in
  _ ← validateSecretProviderConfig (sc_provider sec) (sc_project_id sec);
  _ ← match sc_encryption_key sec with Some key => validateSecretProviderConfig (ek_provider key) (ek_project_id key) | None => Ok tt end;
  check_all (sc_old_encryption_keys sec) (fun key => validateSecretProviderConfig (ek_provider key) (ek_project_id key)).

(** The registration, agent and operator addresses differ. *)
Definition validate_bind (cfg : Config) : res unit :=
  let b := s_bind (c_settings cfg) in
  refuse (bool_decide (ad_registration b = ad_agent b) || bool_decide (ad_registration b = ad_operator b) || bool_decide (ad_agent b = ad_operator b))
    (ErrMsg "bind addrs must be unique").

Definition validate_groups (cfg : Config) : res unit :=
  check_all (range_over 16 (c_groups cfg)) (fun '(tenant, groups) =>
    _ ← Validate "tenant ID" tenant;
    check_all (range_over 17 groups) (fun '(key, g) =>
      _ ← Validate "group ID" key;
      validate_group_refs cfg g)).

Definition validate_storage (cfg : Config) : res unit :=
  match s_cluster_storage (c_settings cfg) with
  | Some st => refuse (negb (bool_decide (cs_provider st = "")) && negb (bool_decide (cs_provider st ∈ ["s3"; "gcs"; "file"]))) (ErrMsg "cluster.storage.provider must be one of: s3, gcs, file")
  | None => Ok tt
  end.

Definition validate_certificates (cfg : Config) : res unit :=
  check_all (range_over 19 (c_certificates cfg)) (fun '(name, c) =>
    refuse ((bool_decide (name = "operator") || bool_decide (name = "agent")) && bool_decide (cc_ttl c < 0)) (ErrMsg "ttl must be > 0 if specified")).

Definition validate_server_files (cfg : Config) : res unit :=
  check_all (range_over 20 (s_server_files (c_settings cfg))) (fun '(name, f) =>
    _ ← refuse (bool_decide (name = "") || IsAbs name || negb (bool_decide (Base name = name))) (ErrMsg "server file must be a non-empty base filename");
    _ ← refuse (bool_decide (fc_kind f = "certificate")) (ErrMsg "server file cannot use agent-key certificate generation");
    validateGeneratedFile f).

(** One file of a template. *)
Definition template_file_ok (cfg : Config) (f : FileConfig) : res unit :=
  if bool_decide (fc_kind f = "certificate") then
    match fc_template f with
    | None => Err (ErrMsg "must specify a template")
    | Some t =>
        match as_string t with
        | None => Err (ErrMsg "must have string template")
        | Some certificateName => refuse (negb (bool_decide (is_Some (c_certificates cfg !! certificateName)))) (ErrMsg "references unknown certificate template")
        end
    end
  else validateGeneratedFile f.

Definition validate_templates (cfg : Config) : res unit :=
  check_all (range_over 21 (c_templates cfg)) (fun '(_, t) =>
    _ ← validateUserdata (tc_userdata t);
    check_all (range_over 22 (tc_files t)) (fun '(_, f) => template_file_ok cfg f)).

Definition validate_encryption (cfg : Config) : res unit :=
  let sec := s_secrets (c_settings cfg) in
  match sc_encryption_key sec with
  | None => refuse (bool_decide (sc_provider sec = "object-storage")) (ErrMsg "encryption_key is required for object-storage secrets provider")
  | Some _ => refuse (negb (bool_decide (sc_provider sec = "object-storage"))) (ErrMsg "encryption_key is only valid for object-storage secrets provider")
  end.

Definition validateLeaderNetwork (cfg : Config) (ln : LeaderNetworkConfig) : res unit :=
  _ ← refuse (bool_decide (ln_ip ln = "")) (ErrMsg "shard.leader_network.ip is required when leader_network is configured");
  refuse (bool_decide (s_infra_provider (c_settings cfg) = "aws") && bool_decide (ln_interface_id ln = "")) (ErrMsg "shard.leader_network.interface_id is required for AWS provider").

Definition validateProxmoxArgs (cfg : Config) : res unit :=
  check_all (range_over 24 (c_groups cfg)) (fun '(_, groups) =>
    check_all (range_over 25 groups) (fun '(_, g) =>
      match c_templates cfg !! gc_template g with
      | None => Ok tt
      | Some t => proxmox_args_ok (gc_args g ∪ (tc_args t ∪ s_default_args (c_settings cfg)))
      end)).

Definition validateProviderArgs (cfg : Config) : res unit :=
  _ ← match s_leader_network (c_settings cfg) with Some ln => validateLeaderNetwork cfg ln | None => Ok tt end;
  if bool_decide (s_infra_provider (c_settings cfg) = "proxmox") then validateProxmoxArgs cfg else Ok tt.

(** [Config.Validate]. *)
Definition Config_Validate (cfg : Config) : res unit :=
  _ ← match ve_struct cfg with Some e => Err (ErrWrap "configuration validation failed" e) | None => Ok tt end;
  _ ← validate_secrets cfg;
  _ ← validate_bind cfg;
  _ ← validate_groups cfg;
  _ ← validateNAT cfg;
  _ ← Validate "cluster ID" (c_cluster_id cfg);
  _ ← Validate "shard ID" (c_shard_id cfg);
  _ ← validate_storage cfg;
  _ ← check_all (range_over 18 (c_load_balancers cfg)) (fun '(_, lb) => validate_load_balancer lb);
  _ ← validateTunnels cfg;
  _ ← match ProxyConfig cfg with Ok _ => Ok tt | Err e => Err e end;
  _ ← validate_certificates cfg;
  _ ← validateUserdata (s_default_userdata (c_settings cfg));
  _ ← validate_server_files cfg;
  _ ← validate_templates cfg;
  _ ← validate_gc cfg;
  _ ← validate_expiry cfg;
  _ ← validate_encryption cfg;
  _ ← check_all (range_over 23 (s_images (c_settings cfg))) (fun '(name, im) => validate_image cfg name im);
  _ ← ValidateSubnetConfig cfg;
  validateProviderArgs cfg.
End Validate.

(** ** Config.SetDefaults *)

(** [if v == 0 { v = d }], and the same for strings. *)
Definition or_default (v d : Z) : Z := if bool_decide (v = 0) then d else v.
Definition or_text (v d : string) : string := if bool_decide (v = "") then d else v.

Definition default_secrets (infra : string) (sec : SecretsConfig) : SecretsConfig :=
  let provider1 := if bool_decide (sc_provider sec = "") && bool_decide (infra = "aws") then "aws-parameter-store" else sc_provider sec in
  let prefix1 := if bool_decide (provider1 = "aws-parameter-store") then or_text (sc_prefix sec) "/nstance/" else sc_prefix sec in
  let prefix2 := if bool_decide (provider1 = "aws-secrets-manager") then or_text prefix1 "nstance/" else prefix1 in
  let provider2 := if bool_decide (provider1 = "") && bool_decide (infra = "google") then "google-secret-manager" else provider1 in
  let prefix3 := if bool_decide (provider2 = "google-secret-manager") then or_text prefix2 "nstance-" else prefix2 in
  {| sec with sc_provider := provider2; sc_prefix := prefix3 |}.

Definition default_election (e : LeaderElectionConfig) : LeaderElectionConfig :=
  {| e with el_frequent_interval := or_default (el_frequent_interval e) (5 * second);
            el_infrequent_interval := or_default (el_infrequent_interval e) (30 * second);
            el_leader_timeout := or_default (el_leader_timeout e) (15 * second) |}.

Definition zero_thresholds : NATThresholds := mkNATThresholds 0 0 0.

Definition default_nat (nat : NATConfig) : NATConfig :=
  let scaled (v d : Z) := if bool_decide (nat_group nat = "") then v else or_default v d in
  {| nat with
     nat_mode := or_text (nat_mode nat) "nat44";
     nat_last_instance_grace_period := or_default (nat_last_instance_grace_period nat) (10 * minute);
     nat_scale_up_thresholds := (if bool_decide (nat_scale_up_thresholds nat = zero_thresholds)
       then mkNATThresholds (Q2Qc 80) (Q2Qc 80) (Q2Qc 1) else nat_scale_up_thresholds nat);
     nat_scale_down_thresholds := (if bool_decide (nat_scale_down_thresholds nat = zero_thresholds)
       then mkNATThresholds (Q2Qc 30) (Q2Qc 30) (Q2Qc 0) else nat_scale_down_thresholds nat);
     nat_scale_up_window := scaled (nat_scale_up_window nat) (3 * minute);
     nat_scale_down_window := scaled (nat_scale_down_window nat) (25 * minute);
     nat_cooldown := scaled (nat_cooldown nat) (10 * minute);
     nat_replacement_timeout := scaled (nat_replacement_timeout nat) (10 * minute) |}.

Definition default_settings (s : Settings) : Settings :=
  {| s with
     s_secrets := default_secrets (s_infra_provider s) (s_secrets s);
     s_cluster_election := default_election (s_cluster_election s);
     s_cluster_storage := (fun st => {| st with cs_prefix := or_text (cs_prefix st) "cluster/" |}) <$> s_cluster_storage s;
     s_request_timeout := or_default (s_request_timeout s) (30 * second);
     s_image_refresh_interval := or_default (s_image_refresh_interval s) (360 * minute);
     s_shutdown_timeout := or_default (s_shutdown_timeout s) (10 * second);
     s_gc_interval := or_default (s_gc_interval s) (2 * minute);
     s_shard_election := default_election (s_shard_election s) |}.

(** [Config.SetDefaults]; making nil maps empty changes nothing here. *)
Definition SetDefaults (cfg : Config) : Config :=
  {| cfg with
     c_health_check_interval := or_default (c_health_check_interval cfg) (60 * second);
     c_default_drain_timeout := or_default (c_default_drain_timeout cfg) (5 * minute);
     c_registration_timeout := or_default (c_registration_timeout cfg) (5 * minute);
     c_certificates := (fun c => mkCertConfig (or_default (cc_ttl c) 8760)) <$> c_certificates cfg;
     c_templates := (fun t => {| t with tc_size := or_default (tc_size t) 1 |}) <$> c_templates cfg;
     c_nat := default_nat <$> c_nat cfg;
     c_settings := default_settings (c_settings cfg) |}.

(** [Parse]; [decoded] is what the JSONC and JSON decoders make of the bytes. *)
Definition Parse `{ValidatorEnv} (decoded : res Config) : res Config :=
  match decoded with
  | Err e => Err (ErrWrap "failed to parse configuration JSONC" e)
  | Ok cfg =>
      let cfg := SetDefaults cfg in
      match Config_Validate cfg with
      | Err e => Err (ErrWrap "validation errors" e)
      | Ok _ => Ok cfg
      end
  end.

(** ** network.go and autoDetectAdvertiseHosts *)

(** One address of [net.InterfaceAddrs]: whether it is a [*net.IPNet], and its IP. *)
Record IfaceAddr := mkIfaceAddr {
  if_ipnet : bool;
  if_loopback : bool;
  if_v4 : bool;
  if_text : string;
}.

Definition isIPv4 (host : string) : bool := match ParseIP host with Some ip => bool_decide (To4 ip ≠ None) | None => false end.

Definition detectPrimaryIP (ifaces : res (list IfaceAddr)) (bindHost : string) : res string :=
  let wantIPv4 := isIPv4 bindHost in
  match ifaces with
  | Err e => Err (ErrWrap "failed to get interface addresses" e)
  | Ok addrs =>
      match list_find (fun a => if_ipnet a && negb (if_loopback a) && Bool.eqb (if_v4 a) wantIPv4 = true) addrs with
      | Some (_, a) => Ok (if_text a)
      | None => Err (ErrMsg "no suitable address found")
      end
  end.

Definition isWildcardHost (host : string) : bool := bool_decide (host ∈ [""; "0.0.0.0"; "::"]).

(** The [--advertise-host] override of one address. *)
Definition override_host (advertiseHost addr : string) : res string :=
  match SplitHostPort addr with
  | Err e => Err (ErrWrap "failed to parse advertise" e)
  | Ok (host, port) => if isWildcardHost host then Ok (JoinHostPort advertiseHost port) else Err (ErrMsg "--advertise-host cannot be used when advertise already specifies a host")
  end.

Definition needs_host (addr : string) : bool := match SplitHostPort addr with Ok (host, _) => isWildcardHost host | Err _ => false end.

Definition fill_host (ip addr : string) : string :=
  match SplitHostPort addr with Ok (host, port) => if isWildcardHost host then JoinHostPort ip port else addr | Err _ => addr end.

Definition all_addrs (a : Addrs) : list string := [ad_health a; ad_election a; ad_registration a; ad_operator a; ad_agent a].

Definition map_addrs (f : string -> string) (a : Addrs) : Addrs :=
  mkAddrs (f (ad_health a)) (f (ad_election a)) (f (ad_registration a)) (f (ad_operator a)) (f (ad_agent a)).

Definition set_advertise (cfg : Config) (a : Addrs) : Config :=
  let s := c_settings cfg in {| cfg with c_settings := {| s with s_advertise := a |} |}.

(** [ifaces] answers [net.InterfaceAddrs]. *)
Definition autoDetectAdvertiseHosts (ifaces : res (list IfaceAddr)) (advertiseHost : string) (cfg : Config) : res Config :=
  let a := s_advertise (c_settings cfg) in
  a ← (if bool_decide (advertiseHost = "") then Ok a
       else health ← override_host advertiseHost (ad_health a);
            election ← override_host advertiseHost (ad_election a);
            Ok {| a with ad_health := health; ad_election := election |});
  if negb (existsb needs_host (all_addrs a)) then Ok (set_advertise cfg a)
  else match SplitHostPort (ad_health (s_bind (c_settings cfg))) with
  | Err e => Err (ErrWrap "failed to parse bind health addr for auto-detection" e)
  | Ok (bindHost, _) =>
      match detectPrimaryIP ifaces bindHost with
      | Err e => Err (ErrWrap "failed to auto-detect advertise host" e)
      | Ok ip => Ok (set_advertise cfg (map_addrs (fill_host ip) a))
      end
  end.
