(* ===== verification/ValidationFacts.v ===== *)
(** * What a validated configuration guarantees *)

From S2P Require Import Prelude Provider Json GoText Config ProxyConfig ProxyConfigFacts NatValidation SubnetFacts Validation.

(** ** The order of iteration does not matter *)

(** Two environments that differ only in the order of map iteration. *)
Definition same_checks (VE1 VE2 : ValidatorEnv) : Prop :=
  (forall cfg, @ve_struct VE1 cfg = @ve_struct VE2 cfg) /\ (forall u, @ve_url VE1 u = @ve_url VE2 u).

Lemma check_range_order {A} (RO1 RO2 : RangeOrder) site (m : gmap string A) f1 f2 :
  (forall k a, m !! k = Some a -> f1 (k, a) = Ok tt <-> f2 (k, a) = Ok tt) ->
  check_all (range_over (RangeOrder := RO1) site m) f1 = Ok tt <-> check_all (range_over (RangeOrder := RO2) site m) f2 = Ok tt.
Proof. intros Hf. rewrite !check_all_ok, !Forall_range. split; intros H k a Hk; apply (Hf k a Hk), (H k a Hk). Qed.

Lemma iff_and (A B C D : Prop) : (A <-> B) -> (C <-> D) -> (A /\ C) <-> (B /\ D).
Proof. tauto. Qed.

Section Order.
Context (VE1 VE2 : ValidatorEnv) (Hsame : same_checks VE1 VE2).

Lemma tunnel_pod_order pod : validateTunnelPod (VE := VE1) pod = Ok tt <-> validateTunnelPod (VE := VE2) pod = Ok tt.
Proof.
  unfold validateTunnelPod, validateLoopbackURL. rewrite (proj2 Hsame), !res_bind_ok.
  by rewrite (check_range_order (@ve_range VE1) (@ve_range VE2) 12 _ _ (fun '(d, f) => tunnel_file_ok d f)).
Qed.

Lemma tunnels_order cfg : validateTunnels (VE := VE1) cfg = Ok tt <-> validateTunnels (VE := VE2) cfg = Ok tt.
Proof.
  unfold validateTunnels. rewrite !res_bind_ok.
  apply iff_and; [|apply iff_and]; apply check_range_order; intros k a _; [|done..]. by rewrite !res_bind_ok, tunnel_pod_order.
Qed.

Lemma groups_order cfg : validate_groups (VE := VE1) cfg = Ok tt <-> validate_groups (VE := VE2) cfg = Ok tt.
Proof.
  apply check_range_order. intros t gs _. rewrite !res_bind_ok. apply iff_and; [done|]. by apply check_range_order.
Qed.

Lemma templates_order cfg : validate_templates (VE := VE1) cfg = Ok tt <-> validate_templates (VE := VE2) cfg = Ok tt.
Proof. apply check_range_order. intros n t _. rewrite !res_bind_ok. apply iff_and; [done|]. by apply check_range_order. Qed.

Lemma proxmox_order cfg : validateProxmoxArgs (VE := VE1) cfg = Ok tt <-> validateProxmoxArgs (VE := VE2) cfg = Ok tt.
Proof. apply check_range_order. intros t gs _. by apply check_range_order. Qed.

Lemma provider_args_order cfg : validateProviderArgs (VE := VE1) cfg = Ok tt <-> validateProviderArgs (VE := VE2) cfg = Ok tt.
Proof. unfold validateProviderArgs. rewrite !res_bind_ok. apply iff_and; [done|]. case_bool_decide; [apply proxmox_order|done]. Qed.

Lemma subnets_order cfg : nat_ok cfg -> ValidateSubnetConfig (RO := @ve_range VE1) cfg = Ok tt <-> ValidateSubnetConfig (RO := @ve_range VE2) cfg = Ok tt.
Proof.
  intros [Hn _ _]. rewrite !ValidateSubnetConfig_spec; [done|..]; intros t [nc Hnc]; by eapply tenant_not_empty, Hn.
Qed.

Lemma proxy_order cfg : is_ok (ProxyConfig (RO := @ve_range VE1) cfg) = true <-> is_ok (ProxyConfig (RO := @ve_range VE2) cfg) = true.
Proof. rewrite !is_ok_ex. by setoid_rewrite (proxy_config_order (@ve_range VE1) (@ve_range VE2)). Qed.
End Order.

Lemma res_to_unit {A} (r : res A) : match r with Ok _ => Ok tt | Err e => Err e end = Ok tt <-> is_ok r = true.
Proof. by destruct r. Qed.

Lemma validate_order VE1 VE2 cfg : same_checks VE1 VE2 -> Config_Validate (VE := VE1) cfg = Ok tt <-> Config_Validate (VE := VE2) cfg = Ok tt.
Proof.
  intros Hsame. unfold Config_Validate. rewrite !res_bind_ok, !res_to_unit, (proj1 Hsame), !validateNAT_spec.
  rewrite (groups_order VE1 VE2), (tunnels_order VE1 VE2 Hsame), (proxy_order VE1 VE2), (templates_order VE1 VE2), (provider_args_order VE1 VE2).
  rewrite (check_range_order (@ve_range VE1) (@ve_range VE2) 18 _ _ (fun '(_, lb) => validate_load_balancer lb)) by done.
  rewrite (check_range_order (@ve_range VE1) (@ve_range VE2) 23 _ _ (fun '(name, im) => validate_image cfg name im)) by done.
  assert (validate_certificates (VE := VE1) cfg = Ok tt <-> validate_certificates (VE := VE2) cfg = Ok tt) as -> by (by apply check_range_order).
  assert (validate_server_files (VE := VE1) cfg = Ok tt <-> validate_server_files (VE := VE2) cfg = Ok tt) as -> by (by apply check_range_order).
  pose proof (subnets_order VE1 VE2 cfg) as Hsub. tauto.
Qed.

(** ** The checks of an accepted configuration *)

Section Accepted.
Context {VE : ValidatorEnv} (cfg : Config) (Hvalid : Config_Validate cfg = Ok tt).

Lemma valid_struct : ve_struct cfg = None.
Proof. unfold Config_Validate in Hvalid. destruct (ve_struct cfg); [done|done]. Qed.

Lemma valid_parts :
  validate_groups cfg = Ok tt /\ nat_ok cfg /\ (exists m, ProxyConfig cfg = Ok m) /\ validate_templates cfg = Ok tt /\
  validate_gc cfg = Ok tt /\ validate_expiry cfg = Ok tt /\ ValidateSubnetConfig cfg = Ok tt /\ validateTunnels cfg = Ok tt.
Proof.
  unfold Config_Validate in Hvalid. rewrite !res_bind_ok, !res_to_unit, validateNAT_spec, is_ok_ex in Hvalid. tauto.
Qed.

Lemma valid_subnets : subnets_ok cfg.
Proof.
  destruct valid_parts as (_ & Hnat & _ & _ & _ & _ & Hs & _). apply ValidateSubnetConfig_spec in Hs; [done|].
  intros t [nc Hn]. by eapply tenant_not_empty, Hnat.
Qed.

Lemma valid_group t n g :
  group_in (c_groups cfg) t n = Some g ->
  Validate "tenant ID" t = Ok tt /\ Validate "group ID" n = Ok tt /\ validate_group_refs cfg g = Ok tt.
Proof.
  intros (gs & Hgs & Hg)%group_in_Some. destruct valid_parts as [H _]. unfold validate_groups in H.
  rewrite check_all_ok, Forall_range in H. apply H in Hgs as Ht. rewrite res_bind_ok, check_all_ok, Forall_range in Ht.
  destruct Ht as [Ht Hall]. apply Hall in Hg. rewrite res_bind_ok in Hg. tauto.
Qed.

Lemma group_refs_ok g :
  validate_group_refs cfg g = Ok tt ->
  is_Some (c_templates cfg !! gc_template g) /\ Forall (fun lb => is_Some (c_load_balancers cfg !! lb)) (gc_load_balancers g).
Proof.
  unfold validate_group_refs. destruct (c_templates cfg !! gc_template g); [|done]. rewrite check_all_ok. intros H. split; [eauto|].
  eapply Forall_impl; [exact H|]. intros lb. simpl. rewrite refuse_ok, bool_decide_eq_false. by destruct (c_load_balancers cfg !! lb).
Qed.

(** Every pool an instance can be placed in exists and has a subnet. *)
Lemma valid_pool g :
  gc_subnet_pool g = "" \/ is_Some (c_subnet_pools cfg !! gc_subnet_pool g) ->
  forall mc, GetMergedConfig cfg (gc_template g) g = Ok mc ->
  exists ids, ResolveSubnetKey cfg (mc_subnet_pool mc) = Ok ids /\ (mc_subnet_pool mc = "" \/ ids ≠ []).
Proof.
  intros Hg mc Hmc. pose proof valid_subnets as Hs.
  assert (mc_subnet_pool mc = "" \/ is_Some (c_subnet_pools cfg !! mc_subnet_pool mc)) as Hpool.
  { unfold GetMergedConfig in Hmc. destruct (c_templates cfg !! gc_template g) as [t|] eqn:Et; [|done]. injection Hmc as <-. simpl.
    case_bool_decide; [|tauto]. by eapply so_templates. }
  unfold ResolveSubnetKey. case_bool_decide as He; [exists []; split; [done|by left]|].
  destruct Hpool as [|[ids Hids]]; [done|]. exists ids. rewrite Hids. split; [done|]. right. by eapply so_pools.
Qed.

(** Certificates that files ask for exist. *)
Lemma valid_certificate n t f file name :
  c_templates cfg !! n = Some t -> tc_files t !! f = Some file -> fc_kind file = "certificate" -> fc_template file = Some (JString name) ->
  is_Some (c_certificates cfg !! name).
Proof.
  intros Hn Hf Hk Hname. destruct valid_parts as (_ & _ & _ & H & _). unfold validate_templates in H. rewrite check_all_ok, Forall_range in H.
  apply H in Hn. rewrite res_bind_ok, check_all_ok, Forall_range in Hn. destruct Hn as [_ Hn]. apply Hn in Hf.
  unfold template_file_ok in Hf. rewrite bool_decide_true, Hname in Hf by done. simpl in Hf.
  by rewrite refuse_ok, negb_false_iff, bool_decide_eq_true in Hf.
Qed.
End Accepted.

(** The effective configuration of a static group exists whatever overrides are in
    force. *)
Lemma static_effective {VE : ValidatorEnv} cfg d t n g s :
  Config_Validate cfg = Ok tt -> group_in (c_groups cfg) t n = Some s -> GetGroup cfg (Ok d) t n = Ok g ->
  exists mc ids, GetMergedConfig cfg (gc_template g) g = Ok mc /\ ResolveSubnetKey cfg (mc_subnet_pool mc) = Ok ids /\
    (mc_subnet_pool mc = "" \/ ids ≠ []) /\ Forall (fun lb => is_Some (c_load_balancers cfg !! lb)) (gc_load_balancers g) /\
    gc_load_balancers g = gc_load_balancers s.
Proof.
  intros Hv Hs Hg. destruct (valid_group cfg Hv t n s Hs) as (Ht & _ & [[tpl Htpl] Hlbs]%group_refs_ok).
  assert (t ≠ "") as Hne by (intros ->; done).
  destruct (static_group_restricted cfg d t n s Hne Hs) as (g' & Hg' & Etpl & Epool & _ & _ & Elb & _).
  rewrite Hg in Hg'. injection Hg' as <-.
  assert (exists mc, GetMergedConfig cfg (gc_template g) g = Ok mc) as [mc Hmc].
  { unfold GetMergedConfig. rewrite Etpl, Htpl. eauto. }
  pose proof Hs as (gs & Hgs & Hgs')%group_in_Some.
  destruct (valid_pool cfg Hv g) with (mc := mc) as (ids & Hids & Hne'); [rewrite Epool; by eapply so_groups, Hgs'; [apply valid_subnets|]|done|].
  exists mc, ids. by rewrite Elb.
Qed.

(** C26. Configurations are well formed: in a configuration that validation
    accepts, every static group resolves whatever dynamic overrides are in force.
    Its tenant and key are identifiers, the lookup succeeds, its template and all its
    load balancers exist, its instances' configuration can be merged, their subnet
    pool resolves to at least one subnet unless none is set, and the certificate
    templates its files name exist. *)
Theorem validated_groups_resolve (VE : ValidatorEnv) (cfg : Config) (d : DynGroups) (t n : string) (s : GroupConfig) :
  Config_Validate cfg = Ok tt -> group_in (c_groups cfg) t n = Some s ->
  exists g mc ids, GetGroup cfg (Ok d) t n = Ok g /\ identifier t /\ identifier n /\
    GetMergedConfig cfg (gc_template g) g = Ok mc /\ ResolveSubnetKey cfg (mc_subnet_pool mc) = Ok ids /\
    (mc_subnet_pool mc = "" \/ ids ≠ []) /\ Forall (fun lb => is_Some (c_load_balancers cfg !! lb)) (gc_load_balancers g) /\
    (forall f file name, mc_files mc !! f = Some file -> fc_kind file = "certificate" -> fc_template file = Some (JString name) ->
       is_Some (c_certificates cfg !! name)).
Proof.
  intros Hv Hs. destruct (valid_group cfg Hv t n s Hs) as (Ht & Hn & _).
  assert (t ≠ "") as Hne by (intros ->; done).
  destruct (static_group_restricted cfg d t n s Hne Hs) as (g & Hg & _).
  destruct (static_effective cfg d t n g s Hv Hs Hg) as (mc & ids & Hmc & Hids & Hpool & Hlbs & _).
  exists g, mc, ids. apply validate_identifier_ok in Ht, Hn. split_and!; [done..|].
  intros f file name Hf. unfold GetMergedConfig in Hmc. destruct (c_templates cfg !! gc_template g) as [tpl|] eqn:Etpl; [|done].
  injection Hmc as <-. by eapply valid_certificate.
Qed.

(** ** Resources of one tenant *)

Lemma elem_of_public_addresses cfg t p : (t, p) ∈ public_addresses cfg <-> exists nat, c_nat cfg !! t = Some nat /\ p ∈ nat_public_addresses nat.
Proof.
  unfold public_addresses. rewrite list_elem_of_bind. split.
  - intros ([t' nc] & (p' & Heq & Hp)%list_elem_of_fmap & Hn%elem_of_map_to_list). simplify_eq. eauto.
  - intros (nc & Hn & Hp). exists (t, nc). split; [|by apply elem_of_map_to_list]. apply list_elem_of_fmap. eauto.
Qed.

(** No shared network resources: in an accepted configuration two tenants
    never have the same fixed public address, however it is written, nor the same
    allocation on AWS; a subnet pool routed through one tenant's NAT holds no group
    of another tenant (NAT groups apart); and no provider subnet is listed in two
    pools. *)
Theorem validated_tenants_isolated (VE : ValidatorEnv) (cfg : Config) :
  Config_Validate cfg = Ok tt ->
  (forall t1 t2 nat1 nat2 p1 p2, c_nat cfg !! t1 = Some nat1 -> c_nat cfg !! t2 = Some nat2 ->
     p1 ∈ nat_public_addresses nat1 -> p2 ∈ nat_public_addresses nat2 -> t1 ≠ t2 ->
     ParseAddr (pa_ipv4 p1) ≠ ParseAddr (pa_ipv4 p2) /\
     (s_infra_provider (c_settings cfg) = "aws" -> pa_allocation_id p1 ≠ pa_allocation_id p2)) /\
  (forall t1 n1 g1 t2 n2 g2, placed cfg t1 n1 g1 -> is_Some (c_nat cfg !! t1) -> placed cfg t2 n2 g2 ->
     placement cfg g1 = placement cfg g2 -> t1 = t2) /\
  (forall k1 k2 ids1 ids2 id, c_subnet_pools cfg !! k1 = Some ids1 -> c_subnet_pools cfg !! k2 = Some ids2 ->
     id ∈ ids1 -> id ∈ ids2 -> k1 = k2).
Proof.
  intros Hv. destruct (valid_parts cfg Hv) as (_ & [_ _ Hapart] & _). pose proof (valid_subnets cfg Hv) as Hs. split_and!.
  - intros t1 t2 nat1 nat2 p1 p2 H1 H2 Hp1 Hp2 Hne.
    apply (pairs_elem (fun x y : string * PublicAddress => addresses_apart cfg x.2 y.2) _ (t1, p1) (t2, p2) Hapart);
      [apply elem_of_public_addresses; eauto..|congruence].
  - apply Hs.
  - intros k1 k2 ids1 ids2 id H1 H2 Hi1 Hi2. destruct (decide (k1 = k2)) as [|Hne]; [done|]. exfalso.
    assert (forall k ids, c_subnet_pools cfg !! k = Some ids -> id ∈ ids -> (k, id) ∈ pool_subnets cfg) as Hin.
    { intros k ids Hk Hid. apply list_elem_of_bind. exists (k, ids). split; [|by apply elem_of_map_to_list]. apply list_elem_of_fmap. eauto. }
    assert (Symmetric (fun x y : string * string => x.2 ≠ y.2)) as Hsym by (by intros x y H).
    apply (pairs_elem (fun x y : string * string => x.2 ≠ y.2) _ (k1, id) (k2, id) (so_disjoint _ Hs)); [by eapply Hin..|congruence|done].
Qed.

(** ** Defaults *)

Lemma or_default_idem v d : or_default (or_default v d) d = or_default v d.
Proof. unfold or_default. repeat case_bool_decide; done. Qed.
Lemma or_default_nonzero v d : d ≠ 0 -> or_default v d ≠ 0.
Proof. unfold or_default. by case_bool_decide. Qed.
Lemma or_text_idem v d : or_text (or_text v d) d = or_text v d.
Proof. unfold or_text. repeat case_bool_decide; done. Qed.

(** The provider and the prefix that [default_secrets] sets. *)
Definition secrets_provider (infra p : string) : string :=
  if bool_decide (p = "") then (if bool_decide (infra = "aws") then "aws-parameter-store" else if bool_decide (infra = "google") then "google-secret-manager" else p) else p.
Definition secrets_prefix (p x : string) : string :=
  if bool_decide (p = "aws-parameter-store") then or_text x "/nstance/" else if bool_decide (p = "aws-secrets-manager") then or_text x "nstance/"
  else if bool_decide (p = "google-secret-manager") then or_text x "nstance-" else x.

Lemma default_secrets_eq infra sec :
  default_secrets infra sec =
  {| sec with sc_provider := secrets_provider infra (sc_provider sec); sc_prefix := secrets_prefix (secrets_provider infra (sc_provider sec)) (sc_prefix sec) |}.
Proof.
  destruct sec as [pid p x key old ttl]. unfold default_secrets, secrets_provider, secrets_prefix. cbn [sc_provider sc_prefix].
  destruct (decide (p = "")) as [->|Hp].
  - rewrite (bool_decide_true ("" = "")) by done. cbn [andb]. destruct (decide (infra = "aws")) as [->|Ha]; [done|].
    rewrite (bool_decide_false (infra = "aws")) by done. cbn [andb]. rewrite (bool_decide_true ("" = "")) by done. cbn [andb].
    destruct (decide (infra = "google")) as [->|Hg]; [done|]. by rewrite (bool_decide_false (infra = "google")).
  - rewrite (bool_decide_false (p = "")) by done. cbn [andb]. rewrite (bool_decide_false (p = "")) by done. cbn [andb].
    destruct (decide (p = "aws-parameter-store")) as [->|H1]; [done|]. rewrite (bool_decide_false (p = "aws-parameter-store")) by done.
    destruct (decide (p = "aws-secrets-manager")) as [->|H2]; [done|]. by rewrite (bool_decide_false (p = "aws-secrets-manager")).
Qed.

Lemma default_secrets_idem infra sec : default_secrets infra (default_secrets infra sec) = default_secrets infra sec.
Proof.
  rewrite !default_secrets_eq. destruct sec as [pid p x key old ttl]. cbn [sc_provider sc_prefix].
  assert (secrets_provider infra (secrets_provider infra p) = secrets_provider infra p) as ->.
  { unfold secrets_provider. destruct (decide (p = "")) as [->|Hp]; [|by rewrite !(bool_decide_false (p = ""))].
    rewrite (bool_decide_true ("" = "")) by done. destruct (decide (infra = "aws")) as [->|Ha]; [done|].
    rewrite (bool_decide_false (infra = "aws")) by done. destruct (decide (infra = "google")) as [->|Hg]; [done|].
    by rewrite !(bool_decide_false (infra = "google")). }
  f_equal. unfold secrets_prefix. repeat case_bool_decide; try done; apply or_text_idem.
Qed.

Lemma default_election_idem e : default_election (default_election e) = default_election e.
Proof. destruct e. unfold default_election. simpl. by rewrite !or_default_idem. Qed.

Lemma default_nat_idem n : default_nat (default_nat n) = default_nat n.
Proof.
  destruct n. unfold default_nat. simpl. rewrite or_text_idem, or_default_idem.
  f_equal; repeat case_bool_decide; try done; apply or_default_idem.
Qed.

Lemma default_settings_idem s : default_settings (default_settings s) = default_settings s.
Proof.
  destruct s. unfold default_settings. simpl. rewrite default_secrets_idem, !default_election_idem, !or_default_idem. f_equal.
  destruct s_cluster_storage as [[]|]; simpl; [|done]. by rewrite or_text_idem.
Qed.

Lemma defaults_idem cfg : SetDefaults (SetDefaults cfg) = SetDefaults cfg.
Proof.
  destruct cfg. unfold SetDefaults. simpl. rewrite !or_default_idem, default_settings_idem, <-!map_fmap_compose. f_equal.
  - apply map_fmap_ext. intros n t _. destruct t. simpl. by rewrite or_default_idem.
  - apply map_fmap_ext. intros n nc _. apply default_nat_idem.
  - apply map_fmap_ext. intros n c _. destruct c. simpl. by rewrite or_default_idem.
Qed.

(** A parsed configuration has its defaults applied once and for all,
    is accepted whatever the order in which its maps are read, and always collects
    garbage: the interval is positive and shorter than the registration timeout,
    although the comment and the error messages offer zero to disable the collector. *)
Theorem parsed_config_complete (VE : ValidatorEnv) (decoded : res Config) (cfg : Config) :
  Parse decoded = Ok cfg ->
  SetDefaults cfg = cfg /\
  (forall VE', same_checks VE VE' -> Parse (H := VE') decoded = Ok cfg) /\
  0 < s_gc_interval (c_settings cfg) < c_registration_timeout cfg.
Proof.
  unfold Parse. destruct decoded as [cfg0|]; [|done]. destruct (Config_Validate (SetDefaults cfg0)) as [[]|] eqn:Hv; [|done]. intros [= <-].
  split; [apply defaults_idem|]. split.
  - intros VE' Hsame. by rewrite (proj1 (validate_order VE VE' _ Hsame) Hv).
  - destruct (valid_parts _ Hv) as (_ & _ & _ & _ & Hgc & _). unfold validate_gc in Hgc.
    rewrite !res_bind_ok, !refuse_ok in Hgc. destruct cfg0. unfold SetDefaults, default_settings in *. simpl in *.
    pose proof (or_default_nonzero (s_gc_interval c_settings) (2 * minute) ltac:(done)) as H1.
    pose proof (or_default_nonzero c_registration_timeout (5 * minute) ltac:(done)) as H2.
    revert Hgc H1 H2. generalize (or_default (s_gc_interval c_settings) (2 * minute)), (or_default c_registration_timeout (5 * minute)).
    intros i r. repeat case_bool_decide; simpl; naive_solver lia.
Qed.

(** ** Advertised addresses *)

(** A host that can be advertised: it names one, and it can be joined with a port. *)
Definition host_text (h : string) : Prop := isWildcardHost h = false /\ no_brackets (chars h) = true.

(** An address other servers and agents can reach at [port]. *)
Definition advertised_at (addr port : string) : Prop := exists host, SplitHostPort addr = Ok (host, port) /\ isWildcardHost host = false.

Lemma join_advertised h addr host port : host_text h -> SplitHostPort addr = Ok (host, port) -> advertised_at (JoinHostPort h port) port.
Proof. intros [Hw Hb] [Hp Hc]%split_port. exists h. by rewrite split_join. Qed.

Lemma fill_advertised ip addr host port : (needs_host addr = true -> host_text ip) -> SplitHostPort addr = Ok (host, port) -> advertised_at (fill_host ip addr) port.
Proof.
  unfold fill_host, needs_host. intros Hip Hs. rewrite Hs in *. destruct (isWildcardHost host) eqn:Ew; [by eapply join_advertised; auto|].
  by exists host.
Qed.

Lemma override_splits h addr addr' host port :
  host_text h -> override_host h addr = Ok addr' -> SplitHostPort addr = Ok (host, port) -> SplitHostPort addr' = Ok (h, port).
Proof.
  unfold override_host. intros [_ Hb] Ho Hs. rewrite Hs in Ho. destruct (isWildcardHost host); [|done]. injection Ho as <-.
  apply split_port in Hs as [? ?]. by apply split_join.
Qed.

Lemma detected_host ifaces bind ip : (forall l a, ifaces = Ok l -> a ∈ l -> if_loopback a = false -> host_text (if_text a)) -> detectPrimaryIP ifaces bind = Ok ip -> host_text ip.
Proof.
  unfold detectPrimaryIP. intros Hall. destruct ifaces as [l|]; [|done].
  destruct (list_find _ l) as [[i a]|] eqn:E; [|done]. apply list_find_Some in E as (Hi & Ha & _). intros [= <-].
  apply (Hall l a eq_refl); [by eapply list_elem_of_lookup_2|]. by destruct (if_ipnet a), (if_loopback a).
Qed.

Lemma valid_addr_splits a : validateAddr a = true -> exists host port, SplitHostPort a = Ok (host, port).
Proof. unfold validateAddr. case_bool_decide; [done|]. destruct (SplitHostPort a) as [[h p]|]; [eauto|done]. Qed.

Lemma addrs_tags_all a : addrs_tags a = true -> Forall (fun x => exists host port, SplitHostPort x = Ok (host, port)) (all_addrs a).
Proof.
  unfold addrs_tags, all_addrs. rewrite !andb_true_iff. intros ((((? & ?) & ?) & ?) & ?). by repeat constructor; apply valid_addr_splits.
Qed.

(** The addresses at a position of two records of addresses. *)
Definition addrs_rel (R : string -> string -> Prop) (a b : Addrs) : Prop := Forall2 R (all_addrs a) (all_addrs b).

Definition same_port (x y : string) : Prop := exists hx hy port, SplitHostPort x = Ok (hx, port) /\ SplitHostPort y = Ok (hy, port).

(** Reachable at the port it had. *)
Definition made_reachable (x y : string) : Prop := exists hx port, SplitHostPort x = Ok (hx, port) /\ advertised_at y port.

Lemma override_stage h a a' :
  (h = "" \/ host_text h) -> Forall (fun x => exists host port, SplitHostPort x = Ok (host, port)) (all_addrs a) ->
  (if bool_decide (h = "") then Ok a
   else health ← override_host h (ad_health a); election ← override_host h (ad_election a); Ok {| a with ad_health := health; ad_election := election |}) = Ok a' ->
  addrs_rel same_port a a'.
Proof.
  intros Hh Hall Ho. destruct a as [x1 x2 x3 x4 x5]. unfold all_addrs in Hall. rewrite !Forall_cons in Hall. simpl in *.
  destruct Hall as ((h1 & p1 & E1) & (h2 & p2 & E2) & (h3 & p3 & E3) & (h4 & p4 & E4) & (h5 & p5 & E5) & _).
  case_bool_decide as He; [injection Ho as <-; repeat constructor; simpl; unfold same_port; eauto 10|].
  destruct Hh as [|Hh]; [done|].
  destruct (override_host h x1) as [y1|] eqn:O1; [|done]. simpl in Ho. destruct (override_host h x2) as [y2|] eqn:O2; [|done]. injection Ho as <-.
  eapply override_splits in O1; [|done..]. eapply override_splits in O2; [|done..].
  repeat constructor; simpl; unfold same_port; eauto 10.
Qed.

Lemma fill_stage ip a :
  (existsb needs_host (all_addrs a) = true -> host_text ip) -> forall a0, addrs_rel same_port a0 a ->
  addrs_rel made_reachable a0 (if existsb needs_host (all_addrs a) then map_addrs (fill_host ip) a else a).
Proof.
  intros Hip a0 Hrel. assert (forall x y, y ∈ all_addrs a -> same_port x y ->
    made_reachable x (if existsb needs_host (all_addrs a) then fill_host ip y else y)) as Hone.
  { intros x y Hy (hx & hy & port & Hx & Hy'). exists hx, port. split; [done|]. destruct (existsb needs_host (all_addrs a)) eqn:E.
    - eapply fill_advertised; [|done]. intros _. by apply Hip.
    - exists hy. split; [done|]. assert (needs_host y = false) as Hn.
      { destruct (needs_host y) eqn:En; [|done]. assert (existsb needs_host (all_addrs a) = true); [|congruence].
        apply existsb_exists. exists y. by rewrite <-list_elem_of_In. }
      unfold needs_host in Hn. by rewrite Hy' in Hn. }
  unfold addrs_rel in *. assert (all_addrs (if existsb needs_host (all_addrs a) then map_addrs (fill_host ip) a else a) =
    (fun y => if existsb needs_host (all_addrs a) then fill_host ip y else y) <$> all_addrs a) as ->.
  { destruct (existsb needs_host (all_addrs a)); [by destruct a|]. by rewrite list_fmap_id. }
  apply Forall2_fmap_r. apply Forall2_same_length_lookup. apply Forall2_same_length_lookup in Hrel as [Hlen Hrel]. split; [done|].
  intros i x y Hx Hy. apply Hone; [by eapply list_elem_of_lookup_2|by eapply Hrel].
Qed.

(** A server's advertised addresses are reachable: when detection succeeds
    on an accepted configuration, each of the five addresses keeps its port and gets
    a host that is not a wildcard, provided the interfaces' addresses and the
    [--advertise-host] value are proper hosts; nothing else of the configuration
    changes. *)
Theorem advertised_hosts_complete (VE : ValidatorEnv) (SL : StructLaws) (cfg cfg' : Config) (ifaces : res (list IfaceAddr)) (advertiseHost : string) :
  Config_Validate cfg = Ok tt ->
  (advertiseHost = "" \/ host_text advertiseHost) ->
  (forall l a, ifaces = Ok l -> a ∈ l -> if_loopback a = false -> host_text (if_text a)) ->
  autoDetectAdvertiseHosts ifaces advertiseHost cfg = Ok cfg' ->
  addrs_rel made_reachable (s_advertise (c_settings cfg)) (s_advertise (c_settings cfg')) /\
  cfg' = set_advertise cfg (s_advertise (c_settings cfg')).
Proof.
  intros Hv Hh Hif Hr. unfold autoDetectAdvertiseHosts in Hr.
  assert (addrs_tags (s_advertise (c_settings cfg)) = true) as Htags.
  { pose proof (struct_sound cfg (valid_struct cfg Hv)) as Ht. unfold struct_tags in Ht. rewrite !andb_true_iff in Ht. tauto. }
  destruct (if bool_decide (advertiseHost = "") then _ else _) as [a|] eqn:Ea; [|done]. cbn [mbind res_bind] in Hr.
  apply override_stage in Ea; [|done|by apply addrs_tags_all].
  destruct (existsb needs_host (all_addrs a)) eqn:En; cbn [negb] in Hr.
  - destruct (SplitHostPort (ad_health (s_bind (c_settings cfg)))) as [[bindHost ?]|]; [|done]. destruct (detectPrimaryIP ifaces bindHost) as [ip|] eqn:Ei; [|done].
    injection Hr as <-. split; [|by destruct cfg as [? ? ? ? ? ? ? ? ? ? ? ? ? ? ? []]]. simpl.
    pose proof (fill_stage ip a) as Hf. rewrite En in Hf. apply Hf; [|done]. intros _. by eapply detected_host.
  - injection Hr as <-. split; [|by destruct cfg as [? ? ? ? ? ? ? ? ? ? ? ? ? ? ? []]]. simpl.
    pose proof (fill_stage "" a) as Hf. rewrite En in Hf. by apply Hf.
Qed.
