(* ===== verification/Args.v ===== *)
(** * The nested merge of instance arguments ([src/internal/server/config/types.go])

    [deepMergeArgs] works on Go maps, which are references: a nested map of the
    source is not copied into the destination but shared with it, and a later merge
    into the destination writes through the shared map.  The model keeps the maps in
    a store and threads it through the merges, so the sharing is visible.

    The source's entries are read when the loop starts: nothing the loop does changes
    them unless the two maps are one, and then it writes back what is there. *)

From S2P Require Import Prelude Json Config ProxyConfig.

(** ** The store *)

Abbreviation Loc := positive.

(** A value of [map[string]interface{}]: a nested map, or anything else. *)
Inductive Val :=
  | VLeaf (j : Json)
  | VMap (l : Loc).

#[global] Instance Val_eq_dec : EqDecision Val.
Proof. solve_decision. Defined.

Abbreviation Heap := (gmap Loc (gmap string Val)).

Definition entries (h : Heap) (l : Loc) : gmap string Val := default ∅ (h !! l).

(** [dst[k] = v]. *)
Definition set_entry (dst : Loc) (k : string) (v : Val) (h : Heap) : Heap := <[dst := <[k := v]> (entries h dst)]> h.

(** ** The merge *)

Section Merge.
Context {RO : RangeOrder}.

(** A loop that may run out of fuel. *)
Fixpoint fold_fuel {S A} (body : S -> A -> option S) (s : S) (l : list A) : option S :=
  match l with
  | [] => Some s
  | x :: l' => match body s x with Some s' => fold_fuel body s' l' | None => None end
  end.

Fixpoint deepMergeArgs (fuel : nat) (dst src : Loc) (h : Heap) : option Heap :=
  match fuel with
  | O => None
  | S fuel =>
      fold_fuel (fun h '(k, v) =>
        match v, entries h dst !! k with
        | VMap vMap, Some (VMap dMap) => deepMergeArgs fuel dMap vMap h
        | _, _ => Some (set_entry dst k v h)
        end) h (range_over 30 (entries h src))
  end.

(** The arguments part of [GetMergedConfig]: a new map, into which the defaults, the
    template's and the group's arguments are merged. *)
Definition mergeArgs (fuel : nat) (defaults template group : Loc) (h : Heap) : option (Heap * Loc) :=
  let merged := fresh (dom h) in
  match deepMergeArgs fuel merged defaults (<[merged := ∅]> h) with
  | None => None
  | Some h1 =>
      match deepMergeArgs fuel merged template h1 with
      | None => None
      | Some h2 =>
          match deepMergeArgs fuel merged group h2 with
          | None => None
          | Some h3 => Some (h3, merged)
          end
      end
  end.
End Merge.

(** ** Reading *)

(** The value at a path. *)
Fixpoint at_path (h : Heap) (v : Val) (p : list string) : option Val :=
  match p with
  | [] => Some v
  | k :: p' =>
      match v with
      | VLeaf _ => None
      | VMap l => match entries h l !! k with Some v' => at_path h v' p' | None => None end
      end
  end.

(** What merging two trees of values gives at a path: as long as both have a map
    there, the walk goes on in both; where they part, the source's value if it has
    one, else the destination's. *)
Fixpoint merged_at (d s : list string -> option Val) (p : list string) : option Val :=
  match p with
  | [] => d []
  | k :: p' =>
      match s [k], d [k] with
      | Some (VMap _), Some (VMap _) => merged_at (fun q => d (k :: q)) (fun q => s (k :: q)) p'
      | Some _, _ => s (k :: p')
      | None, _ => d (k :: p')
      end
  end.

(** The locations below a map, each at one path only; two maps without a common
    location; a bound on the depth. *)
Definition unshared (h : Heap) (l : Loc) : Prop :=
  forall p q x, at_path h (VMap l) p = Some (VMap x) -> at_path h (VMap l) q = Some (VMap x) -> p = q.
Definition apart (h : Heap) (l1 l2 : Loc) : Prop :=
  forall p q x, at_path h (VMap l1) p = Some (VMap x) -> at_path h (VMap l2) q ≠ Some (VMap x).
Definition depth_le (h : Heap) (l : Loc) (n : nat) : Prop :=
  forall p x, at_path h (VMap l) p = Some (VMap x) -> (length p < n)%nat.

Lemma at_cons h l k p : at_path h (VMap l) (k :: p) = match entries h l !! k with Some v => at_path h v p | None => None end.
Proof. done. Qed.

Lemma at_one h l k : at_path h (VMap l) [k] = entries h l !! k.
Proof. simpl. by destruct (entries h l !! k). Qed.

Lemma at_child h l k v p : entries h l !! k = Some v -> at_path h (VMap l) (k :: p) = at_path h v p.
Proof. intros Hk. simpl. by rewrite Hk. Qed.

(** A change elsewhere is not seen. *)
Lemma at_agree h h' v p :
  (forall q l, at_path h v q = Some (VMap l) -> h' !! l = h !! l) -> at_path h' v p = at_path h v p.
Proof.
  revert v. induction p as [|k p IH]; intros v Hag; [done|]. destruct v as [j|l]; [done|]. simpl.
  assert (entries h' l = entries h l) as -> by (unfold entries; by rewrite (Hag [] l)).
  destruct (entries h l !! k) as [v'|] eqn:Hk; [|done]. apply IH. intros q l' Hq. apply (Hag (k :: q)). by rewrite (at_child _ _ _ _ _ Hk).
Qed.

Lemma merged_ext d s d' s' p : (forall q, d q = d' q) -> (forall q, s q = s' q) -> merged_at d s p = merged_at d' s' p.
Proof.
  revert d s d' s'. induction p as [|k p IH]; intros d s d' s' Hd Hs; simpl; [done|]. rewrite <-!Hd, <-!Hs.
  destruct (s [k]) as [[j|l]|]; [done| |done]. destruct (d [k]) as [[j'|l']|]; [done| |done]. by apply IH.
Qed.

(** Every location of the merge is one of the two at the same path. *)
Lemma merged_origin d s p x : merged_at d s p = Some (VMap x) -> d p = Some (VMap x) \/ s p = Some (VMap x).
Proof.
  revert d s. induction p as [|k p IH]; intros d s; simpl; [by left|].
  destruct (s [k]) as [[j|l]|]; [by right| |by left]. destruct (d [k]) as [[j'|l']|]; [by right| |by right]. intros H. by apply IH in H.
Qed.
