(* ===== verification/ArgsFacts.v ===== *)
(** * What the nested merge computes, and what it changes *)

From S2P Require Import Prelude Json Config ProxyConfig Args.

Section Facts.
Context {RO : RangeOrder}.

(** ** The loop over the source's entries *)

(** The locations below [dst] in the original store. *)
Definition below (h : Heap) (l x : Loc) : Prop := exists p, at_path h (VMap l) p = Some (VMap x).

(** The store [hi] after the keys [done]: they have the merged values, the others
    the old ones, and only locations below the destination changed. *)
Record loop_inv (h : Heap) (dst src : Loc) (done : list string) (hi : Heap) : Prop := mkLoopInv {
  li_frame : forall l, ~ below h dst l -> hi !! l = h !! l;
  li_done : forall k p, k ∈ done -> at_path hi (VMap dst) (k :: p) = merged_at (at_path h (VMap dst)) (at_path h (VMap src)) (k :: p);
  li_todo : forall k p, k ∉ done -> at_path hi (VMap dst) (k :: p) = at_path h (VMap dst) (k :: p);
}.

Lemma apart_frame h dst src l : apart h dst src -> below h src l -> ~ below h dst l.
Proof. intros Ha [q Hq] [p Hp]. by apply (Ha p q l). Qed.

(** The source is as it was. *)
Lemma source_kept h dst src done hi :
  apart h dst src -> loop_inv h dst src done hi -> forall v p, (exists q, at_path h (VMap src) q = Some v) -> at_path hi v p = at_path h v p.
Proof.
  intros Ha Hinv v p [q Hq]. apply at_agree. intros q' l Hl. apply (li_frame _ _ _ _ _ Hinv), (apart_frame h dst src); [done|].
  exists (q ++ q'). revert Hq Hl. generalize (VMap src) as w. induction q as [|k q IH]; intros w Hq Hl; simpl in *; [by injection Hq as ->|].
  destruct w as [|l']; [done|]. destruct (entries h l' !! k); [|done]. by eapply IH.
Qed.

(** A location below a key of the destination comes from one side, at that path. *)
Lemma origin h dst src done hi k p x :
  loop_inv h dst src done hi -> at_path hi (VMap dst) (k :: p) = Some (VMap x) ->
  at_path h (VMap dst) (k :: p) = Some (VMap x) \/ at_path h (VMap src) (k :: p) = Some (VMap x).
Proof.
  intros Hinv Hx. destruct (decide (k ∈ done)) as [Hin|Hin].
  - rewrite (li_done _ _ _ _ _ Hinv) in Hx by done. by apply merged_origin in Hx.
  - rewrite (li_todo _ _ _ _ _ Hinv) in Hx by done. by left.
Qed.

(** Assigning an entry. *)
Lemma set_step h dst src done hi k v :
  unshared h dst -> apart h dst src -> loop_inv h dst src done hi -> k ∉ done ->
  entries h src !! k = Some v -> (forall d, entries h dst !! k = Some (VMap d) -> forall s, v ≠ VMap s) ->
  loop_inv h dst src (k :: done) (set_entry dst k v hi).
Proof.
  intros Hu Ha Hinv Hk Hv Hne.
  assert (forall k' p l, k' ≠ k -> at_path hi (VMap dst) (k' :: p) = Some (VMap l) -> l ≠ dst) as Hother.
  { intros k' p l _ Hl ->. apply (origin _ _ _ _ _ _ _ _ Hinv) in Hl as [Hl|Hl]; [by specialize (Hu [] (k' :: p) dst eq_refl Hl)|by apply (Ha [] (k' :: p) dst)]. }
  assert (forall k' p, k' ≠ k -> at_path (set_entry dst k v hi) (VMap dst) (k' :: p) = at_path hi (VMap dst) (k' :: p)) as Hkeep.
  { intros k' p Hk'. simpl. unfold set_entry at 1, entries at 1. rewrite lookup_insert, decide_True by done. simpl. rewrite lookup_insert_ne by done.
    destruct (entries hi dst !! k') as [v'|] eqn:Hv'; [|done]. apply at_agree. intros q l Hl. unfold set_entry.
    rewrite lookup_insert_ne; [done|]. intros <-. apply (Hother k' q dst Hk'); [|done]. by rewrite (at_child _ _ _ _ _ Hv'). }
  split.
  - intros l Hl. unfold set_entry. rewrite lookup_insert_ne; [by apply Hinv|]. intros <-. apply Hl. by exists [].
  - intros k' p [->|Hin]%elem_of_cons.
    + simpl. unfold set_entry at 1, entries at 1. rewrite lookup_insert, decide_True by done. simpl. rewrite lookup_insert, decide_True by done.
      assert (at_path (set_entry dst k v hi) v p = at_path h v p) as ->.
      { rewrite <-(source_kept h dst src done hi Ha Hinv v p) by (exists [k]; by rewrite at_one). apply at_agree. intros q l Hl. unfold set_entry.
        rewrite lookup_insert_ne; [done|]. intros <-. apply (Ha [] (k :: q) dst); [done|]. rewrite (at_child _ _ _ _ _ Hv).
        rewrite <-(source_kept h dst src done hi Ha Hinv v q) by (exists [k]; by rewrite at_one). done. }
      rewrite Hv. destruct v as [j|s]; [done|]. destruct (entries h dst !! k) as [[j|d]|] eqn:Hd; simpl; [done| |done].
      by destruct (Hne d eq_refl s).
    + rewrite Hkeep by (by intros ->). by apply Hinv.
  - intros k' p [Hk' Hin]%not_elem_of_cons. rewrite Hkeep by done. by apply Hinv.
Qed.

(** Merging below an entry. *)
Lemma merge_step h dst src done hi hi' k d s :
  unshared h dst -> apart h dst src -> loop_inv h dst src done hi -> k ∉ done ->
  entries h src !! k = Some (VMap s) -> entries h dst !! k = Some (VMap d) ->
  (forall p, at_path hi' (VMap d) p = merged_at (at_path hi (VMap d)) (at_path hi (VMap s)) p) ->
  (forall l, ~ below hi d l -> hi' !! l = hi !! l) ->
  loop_inv h dst src (k :: done) hi'.
Proof.
  intros Hu Ha Hinv Hk Hs Hd Hmerge Hframe.
  assert (entries hi dst !! k = Some (VMap d)) as Hdi.
  { rewrite <-at_one, (li_todo _ _ _ _ _ Hinv) by done. by rewrite at_one. }
  assert (forall p, at_path hi (VMap d) p = at_path h (VMap d) p) as Hdk.
  { intros p. rewrite <-(at_child hi dst k _ p Hdi), <-(at_child h dst k _ p Hd). by apply Hinv. }
  assert (forall p, at_path hi (VMap s) p = at_path h (VMap s) p) as Hsk.
  { intros p. apply (source_kept h dst src done hi Ha Hinv). exists [k]. by rewrite at_one. }
  assert (forall l, below hi d l -> below h dst l) as Hbelow.
  { intros l [p Hp]. exists (k :: p). by rewrite (at_child _ _ _ _ _ Hd), <-Hdk. }
  assert (hi' !! dst = hi !! dst) as Hdst.
  { apply Hframe. intros [p Hp]. rewrite Hdk in Hp. specialize (Hu [] (k :: p) dst eq_refl). rewrite (at_child _ _ _ _ _ Hd) in Hu. by specialize (Hu Hp). }
  assert (forall k' p, k' ≠ k -> at_path hi' (VMap dst) (k' :: p) = at_path hi (VMap dst) (k' :: p)) as Hkeep.
  { intros k' p Hk'. simpl. unfold entries at 1. rewrite Hdst. fold (entries hi dst). destruct (entries hi dst !! k') as [v'|] eqn:Hv'; [|done].
    apply at_agree. intros q l Hl. apply Hframe. intros [q' Hq']. rewrite Hdk, <-(at_child h dst k _ q' Hd) in Hq'.
    rewrite <-(at_child hi dst k' _ q Hv') in Hl. apply (origin _ _ _ _ _ _ _ _ Hinv) in Hl as [Hl|Hl].
    - specialize (Hu _ _ _ Hl Hq'). congruence.
    - by apply (Ha _ _ _ Hq') in Hl. }
  split.
  - intros l Hl. rewrite Hframe; [by apply Hinv|]. intros Hb. by apply Hl, Hbelow.
  - intros k' p [->|Hin]%elem_of_cons; [|rewrite Hkeep by (by intros ->); by apply Hinv].
    simpl. unfold entries at 1. rewrite Hdst. fold (entries hi dst). rewrite Hdi, Hmerge. rewrite Hs, Hd. simpl. rewrite ?Hs, ?Hd.
    apply merged_ext; intros q; [rewrite Hdk|rewrite Hsk]; simpl; by rewrite ?Hs, ?Hd.
  - intros k' p [Hk' Hin]%not_elem_of_cons. rewrite Hkeep by done. by apply Hinv.
Qed.

Lemma loop_start h dst src : loop_inv h dst src [] h.
Proof. split; [done| |done]. intros k p Hk. by apply elem_of_nil in Hk. Qed.

(** A key the source lacks keeps the destination's values. *)
Lemma merged_missing h dst src k p :
  entries h src !! k = None -> merged_at (at_path h (VMap dst)) (at_path h (VMap src)) (k :: p) = at_path h (VMap dst) (k :: p).
Proof. intros Hk. simpl. by rewrite Hk. Qed.

Lemma below_child h l k d x : entries h l !! k = Some (VMap d) -> below h d x -> below h l x.
Proof. intros Hk [p Hp]. exists (k :: p). by rewrite (at_child _ _ _ _ _ Hk). Qed.

(** One merge, for a given amount of fuel: it ends, each path then holds the merged
    value, and only maps below the destination were written. *)
Definition merges (fuel : nat) : Prop := forall dst src h,
  unshared h dst -> apart h dst src -> depth_le h src fuel ->
  exists h', deepMergeArgs fuel dst src h = Some h' /\
    (forall p, at_path h' (VMap dst) p = merged_at (at_path h (VMap dst)) (at_path h (VMap src)) p) /\
    (forall l, ~ below h dst l -> h' !! l = h !! l).

(** The body of the loop. *)
Definition merge_entry (fuel : nat) (dst : Loc) (h : Heap) (kv : string * Val) : option Heap :=
  let '(k, v) := kv in
  match v, entries h dst !! k with
  | VMap vMap, Some (VMap dMap) => deepMergeArgs fuel dMap vMap h
  | _, _ => Some (set_entry dst k v h)
  end.

Lemma entry_run fuel dst src h done hi k v :
  merges fuel -> unshared h dst -> apart h dst src -> depth_le h src (S fuel) ->
  loop_inv h dst src done hi -> k ∉ done -> entries h src !! k = Some v ->
  exists hi', merge_entry fuel dst hi (k, v) = Some hi' /\ loop_inv h dst src (k :: done) hi'.
Proof.
  intros IH Hu Ha Hd Hinv Hkd Hv.
  assert (entries hi dst !! k = entries h dst !! k) as Hdk by (by rewrite <-!at_one, (li_todo _ _ _ _ _ Hinv)).
  unfold merge_entry. rewrite Hdk. destruct v as [j|sv]; [eexists; split; [done|by apply set_step; try done]|].
  destruct (entries h dst !! k) as [[j|dv]|] eqn:Hdv; [by eexists; split; [done|apply set_step; try done; congruence]| |by eexists; split; [done|apply set_step; try done; congruence]].
  assert (forall q, at_path hi (VMap sv) q = at_path h (VMap src) (k :: q)) as Hsv.
  { intros q. rewrite (source_kept h dst src done hi Ha Hinv) by (exists [k]; by rewrite at_one). by rewrite (at_child h src k _ q Hv). }
  assert (forall r, at_path hi (VMap dv) r = at_path h (VMap dst) (k :: r)) as Hr.
  { intros r. rewrite <-(at_child hi dst k (VMap dv) r) by (by rewrite Hdk). by apply Hinv. }
  destruct (IH dv sv hi) as (hi' & Hrun & Hmerge & Hframe).
  - intros p q x Hp Hq. rewrite Hr in Hp, Hq. specialize (Hu _ _ _ Hp Hq). congruence.
  - intros p q x Hp Hq. rewrite Hr in Hp. rewrite Hsv in Hq. exact (Ha _ _ _ Hp Hq).
  - intros p x Hp. rewrite Hsv in Hp. apply Hd in Hp. simpl in Hp. lia.
  - exists hi'. split; [done|]. by eapply merge_step.
Qed.

Lemma loop_run fuel dst src h :
  merges fuel -> unshared h dst -> apart h dst src -> depth_le h src (S fuel) ->
  forall todo done hi, loop_inv h dst src done hi -> NoDup (todo.*1 ++ done) -> (forall k v, (k, v) ∈ todo -> entries h src !! k = Some v) ->
  exists h', fold_fuel (merge_entry fuel dst) hi todo = Some h' /\ loop_inv h dst src (rev todo.*1 ++ done) h'.
Proof.
  intros IH Hu Ha Hd. induction todo as [|[k v] todo IHt]; intros done hi Hinv Hnd Hsrc; [by exists hi|].
  simpl in Hnd. apply NoDup_cons in Hnd as [Hk Hnd]. rewrite not_elem_of_app in Hk. destruct Hk as [Hkt Hkd].
  destruct (entry_run fuel dst src h done hi k v) as (hi' & Hstep & Hinv'); [done..|apply Hsrc; left|].
  cbn [fold_fuel]. rewrite Hstep. destruct (IHt (k :: done) hi' Hinv') as (h' & Hfold & Hfin).
  - rewrite <-Permutation_middle. simpl. apply NoDup_cons. rewrite not_elem_of_app. done.
  - intros k' v' Hin. apply Hsrc. by right.
  - exists h'. split; [done|]. simpl. by rewrite <-app_assoc.
Qed.

Lemma merge_run fuel : merges fuel.
Proof.
  induction fuel as [|fuel IH]; intros dst src h Hu Ha Hd.
  { specialize (Hd [] src eq_refl). simpl in Hd. lia. }
  destruct (loop_run fuel dst src h IH Hu Ha Hd (range_over 30 (entries h src)) [] h (loop_start h dst src)) as (h' & Hrun & Hinv).
  - rewrite app_nil_r. apply NoDup_range.
  - intros k v Hin. by apply elem_of_range in Hin.
  - exists h'. split; [done|]. split; [|apply Hinv]. intros [|k p]; [done|].
    destruct (decide (k ∈ (range_over 30 (entries h src)).*1)) as [Hin|Hin].
    + apply (li_done _ _ _ _ _ Hinv). rewrite app_nil_r. by rewrite <-Permutation_rev.
    + rewrite (li_todo _ _ _ _ _ Hinv) by (rewrite app_nil_r; by rewrite <-Permutation_rev).
      symmetry. apply merged_missing. destruct (entries h src !! k) as [v|] eqn:Hv; [|done]. destruct Hin.
      apply list_elem_of_fmap. exists (k, v). split; [done|]. by apply elem_of_range.
Qed.

(** The store only grows. *)
Lemma merge_dom fuel dst src h h' : deepMergeArgs fuel dst src h = Some h' -> dom h ⊆ dom h'.
Proof.
  revert dst src h h'. induction fuel as [|fuel IH]; intros dst src h h' Hr; [done|]. simpl in Hr.
  generalize dependent h. intros h. generalize (range_over 30 (entries h src)) as l. revert h.
  intros h l. revert h. induction l as [|[k v] l IHl]; intros h Hr; simpl in Hr; [by injection Hr as ->|].
  assert (forall hi, Some (set_entry dst k v h) = Some hi -> dom h ⊆ dom hi) as Hset.
  { intros hi [= <-]. unfold set_entry. rewrite dom_insert. set_solver. }
  destruct v as [j|sv]; [by etrans; [apply Hset|apply IHl]|].
  destruct (entries h dst !! k) as [[j|dv]|]; [by etrans; [apply Hset|apply IHl]| |by etrans; [apply Hset|apply IHl]].
  destruct (deepMergeArgs fuel dv sv h) as [hi|] eqn:E; [|done]. etrans; [by eapply IH|by apply IHl].
Qed.

(** ** The arguments of an instance *)

(** Every map below [l] is in the store. *)
Definition closed (h : Heap) (l : Loc) : Prop := forall x, below h l x -> x ∈ dom h.

(** A map that shares nothing within itself and is in the store. *)
Record tree (h : Heap) (fuel : nat) (l : Loc) : Prop := mkTree {
  tr_unshared : unshared h l;
  tr_closed : closed h l;
  tr_depth : depth_le h l fuel;
}.

Lemma at_other h h' l : (forall x, below h l x -> h' !! x = h !! x) -> forall p, at_path h' (VMap l) p = at_path h (VMap l) p.
Proof. intros H p. apply at_agree. intros q x Hx. apply H. by exists q. Qed.

Lemma below_same h h' l : (forall x, below h l x -> h' !! x = h !! x) -> forall x, below h' l x <-> below h l x.
Proof. intros H x. unfold below. by setoid_rewrite (at_other h h' l H). Qed.

(** Nothing changes a tree but writes to its maps. *)
Lemma tree_other h h' fuel l : (forall x, below h l x -> h' !! x = h !! x) -> tree h fuel l -> tree h' fuel l.
Proof.
  intros H [Hu Hc Hd]. split.
  - intros p q x. rewrite !(at_other h h' l H). apply Hu.
  - intros x Hx. rewrite (below_same h h' l H) in Hx. pose proof (Hc x Hx) as Hx'. apply elem_of_dom. rewrite H by done. by apply elem_of_dom.
  - intros p x. rewrite (at_other h h' l H). apply Hd.
Qed.

(** Merging a tree into an unshared map that is apart from it. *)
Lemma merge_tree fuel dst src h :
  tree h fuel dst -> tree h fuel src -> apart h dst src ->
  exists h', deepMergeArgs fuel dst src h = Some h' /\
    (forall p, at_path h' (VMap dst) p = merged_at (at_path h (VMap dst)) (at_path h (VMap src)) p) /\
    (forall l, ~ below h dst l -> h' !! l = h !! l) /\ (forall l, l ∈ dom h -> l ∈ dom h') /\
    tree h' fuel dst /\ (forall x, below h' dst x -> below h dst x \/ (below h src x /\ x ≠ src)).
Proof.
  intros Td Ts Ha. destruct (merge_run fuel dst src h) as (h' & Hrun & Hat & Hframe); [apply Td|done|apply Ts|].
  assert (forall p x, at_path h' (VMap dst) p = Some (VMap x) -> at_path h (VMap dst) p = Some (VMap x) \/ (at_path h (VMap src) p = Some (VMap x) /\ p ≠ [])) as Ho.
  { intros p x. rewrite Hat. destruct p as [|k p]; [by left|]. intros [?|?]%merged_origin; [by left|by right]. }
  assert (forall l, l ∈ dom h -> l ∈ dom h') as Hdom.
  { intros l Hl. by apply (merge_dom _ _ _ _ _ Hrun). }
  exists h'. split_and!; [done..| |].
  - split.
    + intros p q x [Hp|[Hp _]]%Ho [Hq|[Hq _]]%Ho; [by eapply Td|by destruct (Ha _ _ _ Hp Hq)|by destruct (Ha _ _ _ Hq Hp)|by eapply Ts].
    + intros x [p [Hp|[Hp _]]%Ho]; apply Hdom; [apply (tr_closed _ _ _ Td)|apply (tr_closed _ _ _ Ts)]; by exists p.
    + intros p x [Hp|[Hp _]]%Ho; [by eapply Td|by eapply Ts].
  - intros x [p [Hp|[Hp Hne]]%Ho]; [left; by exists p|right]. split; [by exists p|]. intros ->. destruct Hne.
    by apply (tr_unshared _ _ _ Ts p [] src).
Qed.

(** Three trees without common maps, as a decoded configuration has them. *)
Record args_ok (h : Heap) (fuel : nat) (defaults template group : Loc) : Prop := mkArgsOk {
  ao_defaults : tree h fuel defaults;
  ao_template : tree h fuel template;
  ao_group : tree h fuel group;
  ao_dt : apart h defaults template;
  ao_dg : apart h defaults group;
  ao_tg : apart h template group;
}.

Lemma apart_below h l1 l2 x : apart h l1 l2 -> below h l1 x -> below h l2 x -> False.
Proof. intros Ha [p Hp] [q Hq]. by apply (Ha p q x). Qed.

Lemma merged_ext_cons d s d' s' k p :
  (forall k q, d (k :: q) = d' (k :: q)) -> (forall q, s q = s' q) -> merged_at d s (k :: p) = merged_at d' s' (k :: p).
Proof.
  intros Hd Hs. simpl. rewrite <-!Hd, <-!Hs. destruct (s [k]) as [[j|l]|]; [done| |done]. destruct (d [k]) as [[j'|l']|]; [done| |done].
  apply merged_ext; intros q; [apply Hd|apply Hs].
Qed.

Lemma merged_fresh (d s : list string -> option Val) k p :
  (forall k q, d (k :: q) = None) -> (s [k] = None -> s (k :: p) = None) -> merged_at d s (k :: p) = s (k :: p).
Proof. intros Hd Hs. simpl. rewrite !Hd. destruct (s [k]) as [[]|]; [done|done|]. by rewrite Hs. Qed.

(** The new map, and the store after the defaults were merged into it. *)
Lemma first_stage fuel h defaults :
  tree h fuel defaults ->
  let m := fresh (dom h) in
  exists h1, deepMergeArgs fuel m defaults (<[m := ∅]> h) = Some h1 /\ (forall l, l ≠ m -> h1 !! l = h !! l) /\
    (forall k p, at_path h1 (VMap m) (k :: p) = at_path h (VMap defaults) (k :: p)) /\ tree h1 fuel m /\
    (forall x, below h1 m x -> x = m \/ (below h defaults x /\ x ≠ defaults)).
Proof.
  intros Td m. assert (m ∉ dom h) as Hm by apply is_fresh. set (h0 := <[m := ∅]> h).
  assert (forall x, below h0 m x -> x = m) as Hb0.
  { intros x [[|k p] Hp]; [by injection Hp|]. simpl in Hp. unfold entries, h0 in Hp. rewrite lookup_insert, decide_True in Hp by done. done. }
  assert (forall p x, at_path h0 (VMap m) p = Some (VMap x) -> p = []) as Hp0.
  { intros [|k p] x Hp; [done|]. simpl in Hp. unfold entries, h0 in Hp. rewrite lookup_insert, decide_True in Hp by done. done. }
  assert (forall l x, closed h l -> below h l x -> h0 !! x = h !! x) as H0.
  { intros l x Hc Hx. unfold h0. rewrite lookup_insert_ne; [done|]. intros <-. by apply Hm, (Hc m). }
  assert (tree h0 fuel m) as Tm.
  { split; [intros p q x Hp Hq; apply Hp0 in Hp as ->; by apply Hp0 in Hq as ->|intros x Hx%Hb0; subst x; unfold h0; rewrite dom_insert; set_solver|].
    intros p x Hp%Hp0. subst p. apply (tr_depth _ _ _ Td [] defaults). done. }
  assert (forall x, below h defaults x -> h0 !! x = h !! x) as HD by (intros x; apply H0, Td).
  destruct (merge_tree fuel m defaults h0 Tm (tree_other _ _ _ _ HD Td)) as (h1 & Hrun & Hat & Hframe & _ & T1 & Hb1).
  { intros p q x Hp Hq. assert (x = m) as -> by (apply Hb0; by exists p). rewrite (at_other _ _ _ HD) in Hq.
    apply Hm, (tr_closed _ _ _ Td). by exists q. }
  exists h1. split_and!; [done|..|done|].
  - intros l Hl. rewrite Hframe; [unfold h0; by rewrite lookup_insert_ne|]. intros Hx%Hb0. done.
  - intros k p. rewrite Hat, merged_fresh; [apply (at_other _ _ _ HD)| |].
    + intros k' q. simpl. unfold entries, h0. by rewrite lookup_insert, decide_True.
    + rewrite at_one, at_cons. by intros ->.
  - intros x [Hx%Hb0|[Hx Hne]]%Hb1; [by left|right]. split; [|done]. by apply (below_same _ _ _ HD).
Qed.

(** The three merges. *)
Lemma merge_args_run fuel h defaults template group :
  args_ok h fuel defaults template group ->
  exists h' m, mergeArgs fuel defaults template group h = Some (h', m) /\
    (forall k p, at_path h' (VMap m) (k :: p) =
       merged_at (merged_at (at_path h (VMap defaults)) (at_path h (VMap template))) (at_path h (VMap group)) (k :: p)) /\
    entries h' defaults = entries h defaults.
Proof.
  intros [Td Tt Tg Hdt Hdg Htg]. destruct (first_stage fuel h defaults Td) as (h1 & Hrun1 & Hframe1 & Hat1 & Tm1 & Hb1).
  set (m := fresh (dom h)) in *. assert (m ∉ dom h) as Hm by apply is_fresh.
  assert (forall l, closed h l -> forall x, below h l x -> h1 !! x = h !! x) as H1.
  { intros l Hc x Hx. apply Hframe1. intros ->. by apply Hm, (Hc m). }
  pose proof (H1 _ (tr_closed _ _ _ Tt)) as Ht1. pose proof (H1 _ (tr_closed _ _ _ Tg)) as Hg1. pose proof (H1 _ (tr_closed _ _ _ Td)) as Hd1.
  assert (forall l, closed h l -> apart h defaults l -> forall x, below h1 m x -> below h l x -> False) as Hm1.
  { intros l Hc Ha x [->|[Hx _]]%Hb1 Hl; [by apply Hm, (Hc m)|by eapply apart_below]. }
  destruct (merge_tree fuel m template h1 Tm1 (tree_other _ _ _ _ Ht1 Tt)) as (h2 & Hrun2 & Hat2 & Hframe2 & _ & Tm2 & Hb2).
  { intros p q x Hp Hq. rewrite (at_other _ _ _ Ht1) in Hq. apply (Hm1 template (tr_closed _ _ _ Tt) Hdt x); [by exists p|by exists q]. }
  assert (forall x, below h2 m x -> below h1 m x \/ below h template x) as Hb2'.
  { intros x [Hx|[Hx _]]%Hb2; [by left|right]. by apply (below_same _ _ _ Ht1). }
  assert (forall x, below h group x -> h2 !! x = h !! x) as Hg2.
  { intros x Hx. rewrite Hframe2; [by apply Hg1|]. intros Hb. by apply (Hm1 group (tr_closed _ _ _ Tg) Hdg x). }
  destruct (merge_tree fuel m group h2 Tm2 (tree_other _ _ _ _ Hg2 Tg)) as (h3 & Hrun3 & Hat3 & Hframe3 & _ & _ & _).
  { intros p q x Hp Hq. rewrite (at_other _ _ _ Hg2) in Hq. destruct (Hb2' x) as [Hb|Hb]; [by exists p|by apply (Hm1 group (tr_closed _ _ _ Tg) Hdg x); [|exists q]|].
    apply (apart_below h template group x Htg Hb). by exists q. }
  exists h3, m. split_and!.
  - unfold mergeArgs. fold m. by rewrite Hrun1, Hrun2, Hrun3.
  - intros k p. rewrite Hat3. apply merged_ext_cons; [|apply (at_other _ _ _ Hg2)]. intros k' q. rewrite Hat2.
    apply merged_ext_cons; [done|apply (at_other _ _ _ Ht1)].
  - assert (below h defaults defaults) as Hself by (by exists []).
    assert (~ below h1 m defaults) as Hno1.
    { intros [Heq|[_ ?]]%Hb1; [|done]. apply Hm. rewrite <-Heq. by apply (tr_closed _ _ _ Td). }
    unfold entries. rewrite Hframe3; [by rewrite Hframe2, Hd1|].
    intros [Hb|Hb]%Hb2'; [done|]. by apply (apart_below h defaults template defaults Hdt).
Qed.
End Facts.

(** The nested merge is right the first time, and ends: for the arguments of
    a freshly decoded configuration, which share no maps, it terminates with fuel for
    their depth, and the merged arguments hold at every path the group's value, else
    the template's, else the default, descending as long as both sides have a map. *)
Theorem merge_args_first (RO : RangeOrder) fuel h defaults template group :
  args_ok h fuel defaults template group ->
  exists h' m, mergeArgs fuel defaults template group h = Some (h', m) /\
    forall k p, at_path h' (VMap m) (k :: p) =
      merged_at (merged_at (at_path h (VMap defaults)) (at_path h (VMap template))) (at_path h (VMap group)) (k :: p).
Proof. intros Hok. destruct (merge_args_run fuel h _ _ _ Hok) as (h' & m & Hr & Hat & _). by exists h', m. Qed.

(** The nested merge writes into the configuration: after computing the
    arguments of one instance, every nested map of the defaults that its template and
    group do not replace by a plain value holds the merged values, the template's and
    the group's included. *)
Theorem merge_args_writes_defaults (RO : RangeOrder) fuel h defaults template group h' m k d :
  args_ok h fuel defaults template group ->
  mergeArgs fuel defaults template group h = Some (h', m) ->
  entries h defaults !! k = Some (VMap d) ->
  (forall j, entries h template !! k ≠ Some (VLeaf j)) -> (forall j, entries h group !! k ≠ Some (VLeaf j)) ->
  forall p, at_path h' (VMap defaults) (k :: p) =
    merged_at (merged_at (at_path h (VMap defaults)) (at_path h (VMap template))) (at_path h (VMap group)) (k :: p).
Proof.
  intros Hok Hr Hd Ht Hg p. destruct (merge_args_run fuel h _ _ _ Hok) as (h1 & m1 & Hr' & Hat & He). rewrite Hr in Hr'. injection Hr' as <- <-.
  assert (entries h' m !! k = Some (VMap d)) as Hm.
  { rewrite <-at_one, Hat. cbn [merged_at]. rewrite !at_one, Hd. destruct (entries h group !! k) as [[j|g]|]; [by destruct (Hg j)| |];
      (destruct (entries h template !! k) as [[j|t]|]; [by destruct (Ht j)| |]); cbn [merged_at]; by rewrite ?at_one, ?Hd. }
  rewrite <-Hat, (at_child _ _ _ _ _ Hm). apply at_child. by rewrite He.
Qed.
