(* ===== verification/Samples.v ===== *)
(** * Sample settings

    The settings of a small AWS shard, shared by the concrete runs: they pass
    validation, and the advertised election address still lacks its host.  Maps are
    read in the order of their representation, the struct validator checks exactly
    its tags, and no URL parses. *)

From S2P Require Import Prelude Provider Json GoText Config ProxyConfig Validation.

#[global] Instance demo_order : RangeOrder := {|
  range_over := fun A _ m => map_to_list m;
  range_perm := fun A _ m => reflexivity _;
|}.

#[global] Instance demo_validator : ValidatorEnv := {|
  ve_range := demo_order;
  ve_struct := fun cfg => if struct_tags cfg then None else Some (ErrMsg "tags");
  ve_url := fun _ => None;
|}.

Lemma demo_struct_laws : @StructLaws demo_validator.
Proof. split. intros cfg. simpl. by destruct (struct_tags cfg). Qed.

Definition demo_election : LeaderElectionConfig := mkLeaderElectionConfig None (5 * second) (30 * second) (15 * second).

Definition demo_settings : Settings :=
  mkSettings None (mkSecretsConfig "" "aws-parameter-store" "/nstance/" None [] 0) demo_election "aws" "us-east-1"
    (mkAddrs "0.0.0.0:8990" "0.0.0.0:8991" "0.0.0.0:8992" "0.0.0.0:8993" "0.0.0.0:8994")
    (mkAddrs "10.0.0.5:8990" ":8991" "10.0.0.9:8992" "10.0.0.9:8993" "10.0.0.9:8994")
    None (30 * second) (21600 * second) (10 * second) (120 * second) demo_election ∅ ∅ ∅ ∅ None.
