(* ===== verification/World.v ===== *)
(** * The world the server's components act on

    [World] is the state the lifecycle components share: the SQLite cache, the
    instance records in object storage, and the trace of externally visible
    actions.  [Env] is everything the code observes but does not control: the
    clock, the provider's answers, driver and storage failures, the loaded
    configuration, the tenant sleep state and leadership.  Each observation is
    indexed by the number of observations made so far ([w_tick]), so the
    environment may change between any two of them: a theorem for every [Env]
    covers every interleaving of the environment with the modelled code.

    A provider is thereby a parameter: the theorems assume nothing about its
    answers beyond what their hypotheses say. *)

From S2P Require Import Prelude Provider LocalDB Config.

(** ** Object-storage instance records ([instances.InstanceRecord]) *)

Record InstanceRecord := mkInstanceRecord {
  ir_instance_id : string;
  ir_tenant : string;
  ir_group : string;
  ir_on_demand : bool;
  ir_subnet_id : string;
  ir_provider_instance_id : string;
  ir_instance_type : string;
  ir_status : string;
  ir_private_ipv4 : string;
  ir_private_ipv6 : string;
  ir_hostname : string;
  ir_created_at : Z;
  ir_last_updated : Z;
  ir_registration_jwt : string;
  ir_infra_config_hash : string;
  ir_registered_at : option Z;
  ir_public_key_pem : string;
  ir_cert_serial : string;
  ir_cert_expires_at : option Z;
}.

(** ** Reconciliation events ([reconciler.ReconcileEvent]) *)

Inductive EventType :=
  | EventCheckInstance | EventGroupChanged | EventInstanceDeleted | EventDrainAcked
  | EventTerminationNotice | EventInitialReconcile | EventTenantChanged | EventOther.

#[global] Instance EventType_eq_dec : EqDecision EventType.
Proof. solve_decision. Defined.

Record ReconcileEvent := mkEvent {
  ev_type : EventType;
  ev_tenant : string;
  ev_group : string;
  ev_instance_id : string;
  ev_timestamp : Z;
  ev_prevent_duplicate : bool;
  ev_cause : string;
  ev_attempt : Z;
}.

#[global] Instance ReconcileEvent_eq_dec : EqDecision ReconcileEvent.
Proof. solve_decision. Defined.

(** ** Actions on the outside world *)

(** [infra.CreateInstanceRequest]: the placement fields. *)
Record ProviderRequest := mkProviderRequest {
  pq_instance_id : string;
  pq_group : string;
  pq_template : string;
  pq_instance_kind : string;
  pq_instance_type : string;
  pq_subnet_id : string;
  pq_nonce : string;
  pq_ip_forwarding : bool;
  pq_nat_tag : bool;
}.

Inductive Action :=
  | ActProviderCreate (req : ProviderRequest)
  | ActProviderDelete (instanceID providerID : string)
  | ActRegisterLB (req : LBRequest)
  | ActDeregisterLB (req : LBRequest)
  | ActLBState (req : LBRequest) (st : res LBTargetState)
  | ActNotifyDrain (instanceID group reason : string) (unhealthyAt deleteAt : Z)
  | ActNotifyError (tenant group instanceID : string)
  | ActEnqueue (ev : ReconcileEvent)
  | ActStoragePut (key : string)
  | ActStorageDelete (key : string).

Record World := mkWorld {
  w_tick : nat;
  w_db : DB;
  w_store : gmap string InstanceRecord;
  w_trace : list Action;
}.

(** ** What the NAT manager decides

    The NAT manager keeps its own document of assignments (modelled with it in
    [ManagedNat.v]); what it makes of that document is an answer of the
    environment here, and the creation it then asks the instance manager for is
    carried out on the world. *)

(** [startReplacement], once the replacement is claimed: the NAT group, the
    identifier claimed, the instance type, and what releasing the claim would
    answer. *)
Record NatClaim := mkNatClaim {
  ncl_group : string;
  ncl_id : string;
  ncl_instance_type : string;
  ncl_release : res unit;
}.

(** [ReplaceInstance]: an answer without a creation, or a claimed replacement for
    an assignment of a tenant. *)
Inductive NatReplacement :=
  | NatReplied (r : res unit)
  | NatClaimed (tenant : string) (c : NatClaim).

(** [PrepareSubnet]: an answer without a creation, the first NAT instance of a
    subnet, or the replacement of a failed one. *)
Inductive NatPreparation :=
  | PrepReplied (r : res unit)
  | PrepCreate (group id : string)
  | PrepReplace (c : NatClaim).

(** ** The environment *)

Class Env := mkEnv {
  env_now : nat -> Z;                                     (* time.Now *)
  env_config_loaded : nat -> bool;                        (* GetCurrent() != nil *)
  env_config : nat -> Config;                             (* *GetCurrent() *)
  env_dynamic : nat -> res DynGroups;                     (* LoadDynamicGroups *)
  env_asleep : nat -> string -> bool;                     (* TenantState.IsAsleep *)
  env_registration_blocked : nat -> string -> bool;       (* TargetRegistrationBlocked *)
  env_leader : nat -> bool;                               (* isLeader *)
  env_db_fault : nat -> option err;                       (* SQLite driver failure *)
  env_store_fault : nat -> option err;                    (* object storage failure *)
  env_unmarshal : nat -> string -> option err;            (* json.Unmarshal of the record under a key *)
  env_new_id : nat -> string -> res string;               (* puidv7.New *)
  env_puid_decode : string -> string -> res string;       (* puidv7.Decode(id, prefix) *)
  env_nonce : nat -> string -> res string;                (* registration nonce JWT for an instance *)
  env_userdata : nat -> res unit;                         (* userdata and argument templates render *)
  env_infra_hash : nat -> MergedConfig -> string;         (* HashInfraConfig, sha256 *)
  env_subnet_capacity : nat -> string -> res bool;        (* Provider.CheckSubnetCapacity *)
  env_prepare_subnet : nat -> string -> string -> NatPreparation; (* the NAT manager's PrepareSubnet *)
  env_provider_create : nat -> ProviderRequest -> res ProviderResponse;
  env_provider_delete : nat -> string -> string -> res unit;
  env_provider_status : nat -> string -> string -> res InstanceStatus;
  env_provider_list : nat -> string -> res (list InstanceStatus * string);
  env_lb_state : nat -> LBRequest -> res LBTargetState;
  env_lb_register : nat -> LBRequest -> res unit;
  env_lb_deregister : nat -> LBRequest -> res unit;
  env_nat_replace : nat -> string -> NatReplacement;      (* the NAT manager's ReplaceInstance *)
  env_rand : nat -> Z;                                    (* rand.Int63, and map iteration order *)
  env_select : nat -> bool;                               (* which ready case of a select runs *)
}.

Section World.
Context `{Env}.

(** Observe the environment. *)
Definition observe {A} (f : nat -> A) : M World A :=
  fun w => ({| w with w_tick := S (w_tick w) |}, f (w_tick w)).

Definition emit (a : Action) : M World unit :=
  fun w => ({| w with w_trace := w_trace w ++ [a] |}, tt).

Definition time_now : M World Z := observe env_now.

(** Run a SQLite statement: the driver may fail, leaving the database alone. *)
Definition db_exec {A} (f : DB -> res (DB * A)) : M World (res A) :=
  fault ← observe env_db_fault;
  match fault with
  | Some e => mret (Err e)
  | None => fun w =>
      match f (w_db w) with
      | Ok (db', a) => ({| w with w_db := db' |}, Ok a)
      | Err e => (w, Err e)
      end
  end.

(** A statement that reads [time.Now().UTC()] and returns only an error. *)
Definition dbx (f : Z -> DB -> res DB) : M World (res unit) :=
  now ← time_now;
  db_exec (fun db => match f now db with Ok db' => Ok (db', tt) | Err e => Err e end).

(** A query. *)
Definition dbq {A} (f : Z -> DB -> res A) : M World (res A) :=
  now ← time_now;
  db_exec (fun db => match f now db with Ok a => Ok (db, a) | Err e => Err e end).

(** [storage.Put], [storage.Delete], [storage.Get] on instance records. *)
Definition store_put (key : string) (r : InstanceRecord) : M World (res unit) :=
  fault ← observe env_store_fault;
  match fault with
  | Some e => mret (Err e)
  | None => fun w => ({| w with w_store := <[key := r]> (w_store w);
                                w_trace := w_trace w ++ [ActStoragePut key] |}, Ok tt)
  end.

Definition store_delete (key : string) : M World (res unit) :=
  fault ← observe env_store_fault;
  match fault with
  | Some e => mret (Err e)
  | None => fun w => ({| w with w_store := delete key (w_store w);
                                w_trace := w_trace w ++ [ActStorageDelete key] |}, Ok tt)
  end.

Definition store_get (key : string) : M World (res InstanceRecord) :=
  fault ← observe env_store_fault;
  match fault with
  | Some e => mret (Err e)
  | None => fun w => (w, match w_store w !! key with Some r => Ok r | None => Err ErrNotFound end)
  end.

(** Decoding the bytes of a record. *)
Definition unmarshal_record (key : string) (r : InstanceRecord) : M World (res InstanceRecord) :=
  bad ← observe (fun n => env_unmarshal n key);
  mret (match bad with Some e => Err e | None => Ok r end).

(** [for x := range m] over a Go map: the remaining keys are visited in an
    order the runtime draws at random. *)
Fixpoint range_order {A} (fuel : nat) (l : list A) : M World (list A) :=
  match fuel with
  | O => mret l
  | S fuel' =>
      r ← observe env_rand;
      let k := Z.to_nat (r `mod` Z.of_nat (length l)) in
      match l !! k with
      | None => mret l
      | Some x => rest ← range_order fuel' (take k l ++ drop (S k) l); mret (x :: rest)
      end
  end.

Definition range_map {A} (l : list A) : M World (list A) := range_order (length l) l.

(** [config.GetGroup(ctx, loader, tenant, key)]. *)
Definition get_group (tenant key : string) : M World (res GroupConfig) :=
  cfg ← observe env_config;
  dyn ← observe env_dynamic;
  mret (GetGroup cfg dyn tenant key).

(** ** How the primitives change the world *)

Lemma observe_db {A} (f : nat -> A) w : w_db (observe f w).1 = w_db w.
Proof. done. Qed.

(** Steps that leave the database, the records and the trace alone. *)
Definition silent {A} (m : M World A) : Prop :=
  forall w, w_db (m w).1 = w_db w /\ w_store (m w).1 = w_store w /\ w_trace (m w).1 = w_trace w.

Lemma silent_ret {A} (a : A) : silent (mret a).
Proof. by intros w. Qed.

Lemma silent_observe {A} (f : nat -> A) : silent (observe f).
Proof. by intros w. Qed.

Lemma silent_time_now : silent time_now.
Proof. apply silent_observe. Qed.

Lemma silent_bind {A B} (m : M World A) (f : A -> M World B) :
  silent m -> (forall a, silent (f a)) -> silent (m ≫= f).
Proof.
  intros Hm Hf w. rewrite M_bind_eq. destruct (Hm w) as (? & ? & ?).
  destruct (Hf (m w).2 (m w).1) as (? & ? & ?). split_and!; congruence.
Qed.

Lemma silent_dbq {A} (f : Z -> DB -> res A) : silent (dbq f).
Proof.
  unfold dbq, db_exec. apply silent_bind; [apply silent_observe|]. intros now.
  apply silent_bind; [apply silent_observe|]. intros [e|]; [apply silent_ret|].
  intros w. destruct (f now (w_db w)); done.
Qed.

Lemma silent_get_group t k : silent (get_group t k).
Proof.
  unfold get_group. apply silent_bind; [apply silent_observe|]. intros cfg.
  apply silent_bind; [apply silent_observe|]. intros dyn. apply silent_ret.
Qed.

Lemma silent_range_map {A} (l : list A) : silent (range_map l).
Proof.
  unfold range_map. generalize (length l) as n. intros n. revert l. induction n as [|n IH]; intros l; simpl.
  { apply silent_ret. }
  apply silent_bind; [apply silent_observe|]. intros r. destruct (l !! _); [|apply silent_ret].
  apply silent_bind; [apply IH|]. intros rest. apply silent_ret.
Qed.

(** Whatever the order, every key is visited exactly once. *)
Lemma range_map_perm {A} (l : list A) w : (range_map l w).2 ≡ₚ l.
Proof.
  unfold range_map. generalize (length l) as n. intros n. revert l w.
  induction n as [|n IH]; intros l w; simpl; [done|]. rewrite M_bind_eq. simpl.
  destruct (l !! _) as [x|] eqn:Hx; [|done]. rewrite M_bind_eq. simpl. rewrite IH.
  rewrite Permutation_middle. by rewrite (take_drop_middle l _ x Hx).
Qed.

Lemma silent_store_get k : silent (store_get k).
Proof.
  unfold store_get. apply silent_bind; [apply silent_observe|]. intros [e|]; [apply silent_ret|].
  by intros w.
Qed.

Lemma silent_unmarshal_record k r : silent (unmarshal_record k r).
Proof. unfold unmarshal_record. apply silent_bind; [apply silent_observe|]. intros bad. apply silent_ret. Qed.

(** What a query answers: a driver failure, or the query on the current
    database at some clock reading. *)
Lemma dbq_result {A} (f : Z -> DB -> res A) w :
  (exists e, env_db_fault (S (w_tick w)) = Some e /\ (dbq f w).2 = Err e) \/
  (env_db_fault (S (w_tick w)) = None /\ (dbq f w).2 = f (env_now (w_tick w)) (w_db w)).
Proof.
  unfold dbq, db_exec, time_now, observe, mbind, M_bind. simpl.
  destruct (env_db_fault (S (w_tick w))) as [e|] eqn:He; [left; eauto|right].
  split; [done|]. cbn. by destruct (f (env_now (w_tick w)) (w_db w)).
Qed.

(** What a statement does: nothing on failure, the statement on success. *)
Lemma dbx_result (f : Z -> DB -> res DB) w :
  w_store (dbx f w).1 = w_store w /\ w_trace (dbx f w).1 = w_trace w /\
  ((exists e, (dbx f w).2 = Err e /\ w_db (dbx f w).1 = w_db w) \/
   (exists db', f (env_now (w_tick w)) (w_db w) = Ok db' /\ (dbx f w).2 = Ok tt /\
      w_db (dbx f w).1 = db')).
Proof.
  unfold dbx, db_exec, time_now, observe, mbind, M_bind. simpl.
  destruct (env_db_fault (S (w_tick w))) as [e|] eqn:He; simpl; [split_and!; eauto|].
  cbn. destruct (f (env_now (w_tick w)) (w_db w)) as [db'|e] eqn:Hf; simpl; split_and!; eauto 6.
Qed.

(** ** Inversion of runs *)

(** Nothing but the tick changed. *)
Definition same_state (w w' : World) : Prop :=
  w_db w' = w_db w /\ w_store w' = w_store w /\ w_trace w' = w_trace w.

Lemma same_state_trans w1 w2 w3 : same_state w1 w2 -> same_state w2 w3 -> same_state w1 w3.
Proof. unfold same_state. intros (? & ? & ?) (? & ? & ?). split_and!; congruence. Qed.

Lemma silent_run {A} (m : M World A) w w' a : silent m -> m w = (w', a) -> same_state w w'.
Proof. intros Hs Hr. specialize (Hs w). by rewrite Hr in Hs. Qed.

Lemma observe_run {A} (f : nat -> A) w w' a :
  observe f w = (w', a) -> a = f (w_tick w) /\ same_state w w'.
Proof. unfold observe. intros [= <- <-]. done. Qed.

Lemma emit_run x w w' u :
  emit x w = (w', u) -> w_db w' = w_db w /\ w_store w' = w_store w /\ w_trace w' = w_trace w ++ [x].
Proof. unfold emit. by intros [= <- <-]. Qed.

Lemma dbq_run {A} (f : Z -> DB -> res A) w w' r :
  dbq f w = (w', r) ->
  same_state w w' /\ ((exists n e, env_db_fault n = Some e /\ r = Err e) \/ exists now, r = f now (w_db w)).
Proof.
  intros Hr. split; [exact (silent_run _ _ _ _ (silent_dbq f) Hr)|].
  pose proof (dbq_result f w) as Hq. rewrite Hr in Hq. simpl in Hq.
  destruct Hq as [(e & ? & ?)|[_ ?]]; eauto 10.
Qed.

Lemma dbx_run (f : Z -> DB -> res DB) w w' r :
  dbx f w = (w', r) ->
  w_store w' = w_store w /\ w_trace w' = w_trace w /\
  ((exists e, r = Err e /\ w_db w' = w_db w /\
      ((exists n, env_db_fault n = Some e) \/ exists now, f now (w_db w) = Err e)) \/
   (exists now db', f now (w_db w) = Ok db' /\ r = Ok tt /\ w_db w' = db')).
Proof.
  unfold dbx, db_exec, time_now, observe, mbind, M_bind. simpl.
  destruct (env_db_fault (S (w_tick w))) as [e|] eqn:He; cbn.
  { intros [= <- <-]. split_and!; eauto 10. }
  destruct (f (env_now (w_tick w)) (w_db w)) as [db'|e] eqn:Hf; intros [= <- <-]; simpl;
    split_and!; eauto 10.
Qed.

Lemma store_put_run k rec w w' r :
  store_put k rec w = (w', r) ->
  w_db w' = w_db w /\
  ((exists e, r = Err e /\ same_state w w') \/
   (r = Ok tt /\ w_store w' = <[k := rec]> (w_store w) /\ w_trace w' = w_trace w ++ [ActStoragePut k])).
Proof.
  unfold store_put. intros Hr. run_step Hr. apply observe_run in Hrun as (_ & ? & ? & ?).
  destruct a.
  - injection Hr as <- <-. unfold same_state. eauto 10.
  - injection Hr as <- <-. simpl. split; [done|]. right. split_and!; congruence.
Qed.

Lemma store_get_run k w w' r :
  store_get k w = (w', r) ->
  same_state w w' /\ ((exists e, r = Err e) \/ exists rec, r = Ok rec /\ w_store w !! k = Some rec).
Proof.
  intros Hr. split; [exact (silent_run _ _ _ _ (silent_store_get k) Hr)|].
  unfold store_get in Hr. run_step Hr. apply observe_run in Hrun as (_ & _ & Hs & _).
  destruct a; injection Hr as <- <-; eauto.
  rewrite Hs. destruct (w_store w !! k); eauto.
Qed.

(** Invariants of the database alone. *)
Definition db_inv (I : DB -> Prop) (w : World) : Prop := I (w_db w).

Lemma silent_preserves_db {A} I (m : M World A) : silent m -> preserves (db_inv I) m.
Proof. intros Hs w Hw. unfold db_inv. by rewrite (proj1 (Hs w)). Qed.

Lemma preserves_dbx I (f : Z -> DB -> res DB) :
  (forall now db db', I db -> f now db = Ok db' -> I db') -> preserves (db_inv I) (dbx f).
Proof.
  intros Hf w Hw. unfold db_inv in *.
  destruct (dbx_result f w) as (_ & _ & [(e & _ & ->)|(db' & Hr & _ & ->)]); eauto.
Qed.

Lemma preserves_emit I a : preserves (db_inv I) (emit a).
Proof. by intros w. Qed.

Lemma preserves_store_put I k r : preserves (db_inv I) (store_put k r).
Proof.
  unfold store_put. apply preserves_bind; [by apply silent_preserves_db, silent_observe|].
  intros [e|]; [apply preserves_ret|by intros w].
Qed.

Lemma preserves_store_delete I k : preserves (db_inv I) (store_delete k).
Proof.
  unfold store_delete. apply preserves_bind; [by apply silent_preserves_db, silent_observe|].
  intros [e|]; [apply preserves_ret|by intros w].
Qed.
End World.

Create HintDb world.
#[export] Hint Resolve silent_ret silent_observe silent_time_now silent_dbq silent_get_group silent_store_get silent_unmarshal_record silent_range_map : world.
#[export] Hint Resolve preserves_ret preserves_emit preserves_store_put preserves_store_delete : world.

(** Decompose a model program into its primitive steps, splitting every [match]
    and [if] on the way. *)
Ltac prog_step :=
  match goal with
  | |- preserves _ (mbind _ _) => apply preserves_bind; [|intros ?]
  | |- preserves _ (match ?x with _ => _ end) => destruct x eqn:?
  | |- preserves _ (let '_ := ?x in _) => destruct x eqn:?
  | |- silent (mbind _ _) => apply silent_bind; [|intros ?]
  | |- silent (match ?x with _ => _ end) => destruct x eqn:?
  | |- silent _ => solve [auto with world]
  | |- preserves _ _ => solve [auto with world | apply silent_preserves_db; auto with world]
  end.

Ltac prog := repeat prog_step.
