(* ===== verification/Instances.v ===== *)
(** * Instance manager ([src/internal/server/instances])

    Creation (pre-insert, pending record, provider call, commit), deletion behind
    the load-balancer withdrawal barrier, load-balancer registration, subnet
    placement and the cache rebuild of a new leader.  Each mutex-protected
    method is one computation in [M World]; the environment may change at every
    observation inside it. *)

From S2P Require Import Prelude Provider Json LocalDB Config World.

(** [instances.CreateInstanceRequest] (tags are passed through to the provider
    untouched and are not modelled). *)
Record CreateInstanceRequest := mkCreateInstanceRequest {
  cr_instance_id : string;
  cr_group : string;
  cr_tenant : string;
  cr_template : string;
  cr_instance_type : string;
  cr_subnet_pool : string;
  cr_vars : gmap string string;
  cr_args : gmap string Json;
  cr_on_demand : bool;
}.

(** [instances.CreateInstanceResponse]. *)
Record CreateInstanceResponse := mkCreateInstanceResponse {
  rs_instance_id : string;
  rs_group : string;
  rs_provider_instance_id : string;
  rs_status : string;
  rs_private_ipv4 : string;
  rs_private_ipv6 : string;
  rs_hostname : string;
  rs_created_at : Z;
  rs_registration_jwt : string;
}.

Section Manager.
Context `{Env}.

(** ** Storage keys (storage.go) *)

Definition StorageKey (instanceID : string) : res string :=
  if bool_decide (String.length instanceID < 3)%nat then Err (ErrMsg "invalid instance ID: too short")
  else
    let prefix := String.substring 0 3 instanceID in
    match env_puid_decode instanceID prefix with
    | Err e => Err (ErrWrap "invalid instance ID" e)
    | Ok uuid => Ok (uuid ++ "-" ++ prefix)%string
    end.

(** [instance/{tenant}.{storage-key}.json] *)
Definition record_key (tenant storageKey : string) : string :=
  ("instance/" ++ tenant ++ "." ++ storageKey ++ ".json")%string.

Definition storeInstanceRecord (record : InstanceRecord) : M World (res unit) :=
  if bool_decide (ir_tenant record = "") then mret (Err (ErrMsg "tenant is required"))
  else match StorageKey (ir_instance_id record) with
  | Err e => mret (Err (ErrWrap "failed to generate storage key" e))
  | Ok k => store_put (record_key (ir_tenant record) k) record
  end.

Definition getInstanceRecord (tenant instanceID : string) : M World (res InstanceRecord) :=
  if bool_decide (tenant = "") then mret (Err (ErrMsg "tenant is required"))
  else match StorageKey instanceID with
  | Err e => mret (Err (ErrWrap "failed to generate storage key" e))
  | Ok k =>
      r ← store_get (record_key tenant k);
      match r with
      | Err e => mret (Err (ErrWrap "failed to get instance record" e))
      | Ok data =>
          u ← unmarshal_record (record_key tenant k) data;
          match u with
          | Err e => mret (Err (ErrWrap "failed to unmarshal instance record" e))
          | Ok rec => mret (Ok rec)
          end
      end
  end.

(** Read-modify-write of the registration fields; [providerID], addresses and
    hostname only overwrite when present. *)
Definition UpdateRegistration (tenant instanceID publicKeyPEM certSerial : string) (expiresAt : Z)
    (providerID : option string) (privateIPv4 privateIPv6 hostname : string) : M World (res unit) :=
  r ← getInstanceRecord tenant instanceID;
  match r with
  | Err e => mret (Err (ErrWrap "failed to get instance record" e))
  | Ok record =>
      now ← time_now;
      storeInstanceRecord {| record with
        ir_registered_at := Some now;
        ir_public_key_pem := publicKeyPEM;
        ir_cert_serial := certSerial;
        ir_cert_expires_at := Some expiresAt;
        ir_last_updated := now;
        ir_provider_instance_id := default (ir_provider_instance_id record) providerID;
        ir_private_ipv4 := (if bool_decide (privateIPv4 = "") then ir_private_ipv4 record else privateIPv4);
        ir_private_ipv6 := (if bool_decide (privateIPv6 = "") then ir_private_ipv6 record else privateIPv6);
        ir_hostname := (if bool_decide (hostname = "") then ir_hostname record else hostname) |}
  end.

(** ** Registration nonce *)

(** The cached runtime hash only feeds the token; failing to read it is logged. *)
Definition generateRegistrationNonce (instanceID groupKey tenant : string) : M World (res string) :=
  if bool_decide (tenant = "") then mret (Err (ErrMsg "tenant is required"))
  else
    _ ← (if bool_decide (groupKey = "") then mret (Ok None)
         else dbq (fun _ db => LocalDB.GetGroup tenant groupKey db));
    observe (fun n => env_nonce n instanceID).

(** ** Subnet placement *)

Definition fillLimit : Z := 53.

(** Candidate order: fewest instances first, then by identifier. *)
Definition cand_le (counts : gmap string Z) (a b : string) : Prop :=
  default 0 (counts !! a) < default 0 (counts !! b) \/
  (default 0 (counts !! a) = default 0 (counts !! b) /\ String.le a b).

#[global] Instance cand_le_dec counts : RelDecision (cand_le counts).
Proof. intros a b. unfold cand_le. apply _. Defined.

(** The first subnet of [l] that is not skipped and that the provider says has
    capacity; a failed check is logged and the subnet passed over. *)
Fixpoint first_with_capacity (skip : string -> bool) (l : list string) : M World (option string) :=
  match l with
  | [] => mret None
  | id :: l' =>
      if skip id then first_with_capacity skip l'
      else
        c ← observe (fun n => env_subnet_capacity n id);
        match c with
        | Ok true => mret (Some id)
        | Ok false | Err _ => first_with_capacity skip l'
        end
  end.

Definition selectSubnetWithCapacity (cfg : Config) (tenant subnetPool : string) (populatedOnly : bool)
    : M World (res string) :=
  match ResolveSubnetKey cfg subnetPool with
  | Err e => mret (Err (ErrWrap "failed to resolve subnet pool" e))
  | Ok [] => mret (Err (ErrMsg "subnet pool has no provider subnet IDs"))
  | Ok ids =>
      let subnetIDs := merge_sort String.le ids in
      r ← dbq (fun _ db => Ok (LocalDB.CountInstancesBySubnet tenant db));
      match r with
      | Err e => mret (Err (ErrWrap "count instances by subnet" e))
      | Ok counts =>
          let count id := default 0 (counts !! id) in
          let candidates := merge_sort (cand_le counts) subnetIDs in
          first ← first_with_capacity
            (fun id => bool_decide (fillLimit <= count id) || (populatedOnly && bool_decide (count id = 0)))
            subnetIDs;
          match first with
          | Some id => mret (Ok id)
          | None =>
              second ← first_with_capacity
                (fun id => populatedOnly && bool_decide (count id = 0)) candidates;
              match second with
              | Some id => mret (Ok id)
              | None => mret (Err (ErrMsg "no subnets with available capacity"))
              end
          end
      end
  end.

(** [prepareSubnet && m.subnetPreparer != nil]: the preparation a creation asks
    for, if any. *)
Definition Preparer : Type := option (string -> string -> M World (res unit)).

(** Selection followed by the managed-NAT preparation, with one fallback to an
    already populated subnet when the dependency is exhausted. *)
Definition select_and_prepare (cfg : Config) (tenant subnetPool : string) (preparer : Preparer)
    : M World (res string) :=
  r ← selectSubnetWithCapacity cfg tenant subnetPool false;
  match r with
  | Err e => mret (Err (ErrWrap "failed to select subnet" e))
  | Ok subnetID =>
      match preparer with
      | None => mret (Ok subnetID)
      | Some prepare =>
          p ← prepare tenant subnetID;
          match p with
          | Ok _ => mret (Ok subnetID)
          | Err e =>
              if negb (err_is e ErrSubnetDependencyCapacity) then mret (Err (ErrWrap "prepare subnet" e))
              else
                f ← selectSubnetWithCapacity cfg tenant subnetPool true;
                match f with
                | Err _ => mret (Err (ErrWrap "prepare subnet" e))
                | Ok fallbackID =>
                    if bool_decide (fallbackID = subnetID) then mret (Err (ErrWrap "prepare subnet" e))
                    else
                      p2 ← prepare tenant fallbackID;
                      match p2 with
                      | Err e2 => mret (Err (ErrWrap "prepare fallback subnet" e2))
                      | Ok _ => mret (Ok fallbackID)
                      end
                end
          end
      end
  end.

(** ** Creation *)

(** The group configuration with the request's overrides applied. *)
Definition final_group (req : CreateInstanceRequest) (templateName : string) (g : GroupConfig) : GroupConfig :=
  mkGroupConfig templateName (Some 1)
    (if bool_decide (cr_instance_type req = "") then gc_instance_type g else cr_instance_type req)
    (if bool_decide (cr_subnet_pool req = "") then gc_subnet_pool g else cr_subnet_pool req)
    (cr_vars req ∪ gc_vars g) (cr_args req ∪ gc_args g) None [].

(** The SQLite row inserted before the provider call. *)
Definition pre_insert (req : CreateInstanceRequest) (id subnetID jwt infraHash : string) (now : Z) : Instance :=
  mkInstance id (cr_tenant req) (cr_group req) (cr_on_demand req) subnetID None None None None None None
    None jwt (Some now) None None None None None (Some infraHash) None None now None None.

(** The object-storage record written before the provider call. *)
Definition pending_record (req : CreateInstanceRequest) (id subnetID jwt infraHash instanceType : string)
    (now : Z) : InstanceRecord :=
  mkInstanceRecord id (cr_tenant req) (cr_group req) (cr_on_demand req) subnetID "" instanceType "pending"
    "" "" "" now now jwt infraHash None "" "" None.

(** The row [UpdateInstance] is called with: every column it writes and the
    request does not set is NULL. *)
Definition created_row (req : CreateInstanceRequest) (id subnetID : string) (resp : ProviderResponse)
    (providerAt : Z) : Instance :=
  mkInstance id "" (cr_group req) (cr_on_demand req) subnetID (Some (pr_provider_instance_id resp))
    (Some providerAt)
    (if bool_decide (pr_hostname resp = "") then None else Some (pr_hostname resp)) None
    (Some (pr_private_ipv4 resp)) (Some (pr_private_ipv6 resp)) None "" None None None None None None
    None None None 0 None None.

Definition provider_request (cfg : Config) (req : CreateInstanceRequest) (id templateName kind instanceType
    subnetID jwt : string) : ProviderRequest :=
  let nat := c_nat cfg !! cr_tenant req in
  mkProviderRequest id (cr_group req) templateName kind instanceType subnetID jwt
    (match nat with Some n => bool_decide (cr_group req = nat_group n) | None => false end)
    (match nat with Some n => bool_decide (cr_group req ≠ nat_group n) | None => false end).

(** The provider call and what follows it. *)
Definition provider_create (req : CreateInstanceRequest) (preq : ProviderRequest) (record : InstanceRecord)
    : M World (res CreateInstanceResponse) :=
  let id := pq_instance_id preq in
  _ ← emit (ActProviderCreate preq);
  r ← observe (fun n => env_provider_create n preq);
  match r with
  | Err e => mret (Err (ErrWrap "failed to create instance" e))
  | Ok resp =>
      if bool_decide (pr_provider_instance_id resp = "")
      then mret (Err (ErrMsg "provider returned empty instance ID"))
      else
        updated ← time_now;
        _ ← storeInstanceRecord {| record with
              ir_provider_instance_id := pr_provider_instance_id resp;
              ir_private_ipv4 := pr_private_ipv4 resp;
              ir_private_ipv6 := pr_private_ipv6 resp;
              ir_hostname := pr_hostname resp;
              ir_last_updated := updated |};
        providerAt ← time_now;
        u ← dbx (fun now db =>
              LocalDB.UpdateInstance now (created_row req id (pq_subnet_id preq) resp providerAt) db);
        match u with
        | Err e => mret (Err (ErrWrap "failed to update instance in local DB" e))
        | Ok _ => mret (Ok (mkCreateInstanceResponse id (cr_group req)
            (pr_provider_instance_id resp) (pr_status resp) (pr_private_ipv4 resp)
            (pr_private_ipv6 resp) (pr_hostname resp) (pr_launched_at resp) (pq_nonce preq)))
        end
  end.

(** Pre-insert, pending record, provider call, in that order. *)
Definition insert_and_create (cfg : Config) (req : CreateInstanceRequest) (merged : MergedConfig)
    (id templateName kind jwt subnetID : string) : M World (res CreateInstanceResponse) :=
  infraHash ← observe (fun n => env_infra_hash n merged);
  now ← time_now;
  ins ← db_exec (fun db =>
    match LocalDB.CreateInstance (pre_insert req id subnetID jwt infraHash now) db with
    | Ok db' => Ok (db', tt) | Err e => Err e end);
  match ins with
  | Err e => mret (Err (ErrWrap "failed to pre-insert instance record" e))
  | Ok _ =>
      let record := pending_record req id subnetID jwt infraHash (mc_instance_type merged) now in
      st ← storeInstanceRecord record;
      match st with
      | Err e => mret (Err (ErrWrap "failed to store pending instance record" e))
      | Ok _ => provider_create req
          (provider_request cfg req id templateName kind (mc_instance_type merged) subnetID jwt) record
      end
  end.

(** From the resolved template on: identifier, merged configuration, nonce,
    templates, subnet. *)
Definition create_from_template (cfg : Config) (req : CreateInstanceRequest) (g : GroupConfig)
    (templateName : string) (tc : TemplateConfig) (preparer : Preparer)
    : M World (res CreateInstanceResponse) :=
  idr ← (if bool_decide (cr_instance_id req = "") then observe (fun n => env_new_id n (tc_kind tc))
         else mret (Ok (cr_instance_id req)));
  match idr with
  | Err e => mret (Err (ErrWrap "failed to generate instance ID" e))
  | Ok id =>
      match GetMergedConfig cfg templateName (final_group req templateName g) with
      | Err e => mret (Err (ErrWrap "failed to merge instance configuration" e))
      | Ok merged =>
          jr ← generateRegistrationNonce id (cr_group req) (cr_tenant req);
          match jr with
          | Err e => mret (Err (ErrWrap "failed to generate registration nonce" e))
          | Ok jwt =>
              ud ← observe env_userdata;
              match ud with
              | Err e => mret (Err (ErrWrap "failed to process userdata template" e))
              | Ok _ =>
                  ar ← observe env_userdata;
                  match ar with
                  | Err e => mret (Err (ErrWrap "failed to process args" e))
                  | Ok _ =>
                      let subnetPool := if bool_decide (cr_subnet_pool req = "") then mc_subnet_pool merged
                                        else cr_subnet_pool req in
                      if bool_decide (subnetPool = "")
                      then mret (Err (ErrMsg "no subnet pool specified for instance"))
                      else
                        sr ← select_and_prepare cfg (cr_tenant req) subnetPool preparer;
                        match sr with
                        | Err e => mret (Err e)
                        | Ok subnetID => insert_and_create cfg req merged id templateName (tc_kind tc) jwt subnetID
                        end
                  end
              end
          end
      end
  end.

Definition createInstance (req : CreateInstanceRequest) (preparer : Preparer)
    : M World (res CreateInstanceResponse) :=
  if bool_decide (cr_group req = "") then mret (Err (ErrMsg "group is required for on-demand instances"))
  else if bool_decide (cr_tenant req = "") then mret (Err (ErrMsg "tenant is required"))
  else
    loaded ← observe env_config_loaded;
    if negb loaded then mret (Err (ErrMsg "no configuration available"))
    else
      cfg ← observe env_config;
      gr ← get_group (cr_tenant req) (cr_group req);
      match gr with
      | Err _ => mret (Err (ErrMsg "group not found"))
      | Ok g =>
          let templateName := if bool_decide (cr_template req = "") then gc_template g else cr_template req in
          match c_templates cfg !! templateName with
          | None => mret (Err (ErrMsg "template not found"))
          | Some tc => create_from_template cfg req g templateName tc preparer
          end
      end.

(** [Manager.CreateNATInstance]. *)
Definition CreateNATInstance (req : CreateInstanceRequest) : M World (res CreateInstanceResponse) :=
  cfg ← observe env_config;
  match c_nat cfg !! cr_tenant req with
  | Some n =>
      if bool_decide (nat_group n = "") || negb (bool_decide (cr_group req = nat_group n))
      then mret (Err (ErrMsg "group is not the tenant NAT group"))
      else createInstance req None
  | None => mret (Err (ErrMsg "group is not the tenant NAT group"))
  end.

(** ** The NAT manager's creations (nat/manager.go) *)

(** [startReplacement], from the claimed assignment on: the instance is created, or
    the claim is given back. *)
Definition create_replacement (tenant : string) (c : NatClaim) : M World (res unit) :=
  r ← CreateNATInstance
        (mkCreateInstanceRequest (ncl_id c) (ncl_group c) tenant "" (ncl_instance_type c) "" ∅ ∅ false);
  match r with
  | Ok _ => mret (Ok tt)
  | Err e =>
      let createErr := ErrWrap "create replacement NAT instance" e in
      mret (Err (match ncl_release c with
                 | Err e' => ErrJoin createErr (ErrWrap "release replacement NAT assignment" e')
                 | Ok _ => createErr
                 end))
  end.

(** [nat.Manager.ReplaceInstance], the reconciler's NAT replacement handler. *)
Definition ReplaceNATInstance (instanceID : string) : M World (res unit) :=
  d ← observe (fun n => env_nat_replace n instanceID);
  match d with
  | NatReplied r => mret r
  | NatClaimed tenant c => create_replacement tenant c
  end.

Definition ErrNATNotReady : err := ErrMsg "managed NAT is not ready".

(** [nat.Manager.PrepareSubnet], the instance manager's subnet preparer. *)
Definition PrepareNATSubnet (tenant subnetID : string) : M World (res unit) :=
  d ← observe (fun n => env_prepare_subnet n tenant subnetID);
  match d with
  | PrepReplied r => mret r
  | PrepCreate group id =>
      r ← CreateNATInstance (mkCreateInstanceRequest id group tenant "" "" "" ∅ ∅ false);
      mret (Err (match r with Err e => ErrWrap "create NAT instance" e | Ok _ => ErrNATNotReady end))
  | PrepReplace c =>
      r ← create_replacement tenant c;
      mret (Err (match r with Err e => e | Ok _ => ErrNATNotReady end))
  end.

(** [Manager.CreateInstance] ([hasPreparer]: the NAT manager is installed as the
    subnet preparer). *)
Definition CreateInstance (hasPreparer : bool) (req : CreateInstanceRequest)
    : M World (res CreateInstanceResponse) :=
  createInstance req (if hasPreparer then Some PrepareNATSubnet else None).

(** ** Load-balancer withdrawal and deletion *)

Definition lb_request (cfg : Config) (pid : string) (lb : LoadBalancerConfig) : LBRequest :=
  mkLBRequest pid lb (c_zone cfg) false.

(** [provider.GetLBTargetState], [RegisterWithLB] and [DeregisterFromLB]. *)
Definition lb_state (req : LBRequest) : M World (res LBTargetState) :=
  st ← observe (fun n => env_lb_state n req);
  _ ← emit (ActLBState req st);
  mret st.

Definition lb_register (req : LBRequest) : M World (res unit) :=
  _ ← emit (ActRegisterLB req);
  observe (fun n => env_lb_register n req).

Definition lb_deregister (req : LBRequest) : M World (res unit) :=
  _ ← emit (ActDeregisterLB req);
  observe (fun n => env_lb_deregister n req).

(** Ask for the target's removal and read its state back. *)
Definition deregister_and_confirm (id lbKey : string) (req : LBRequest) : M World (res LBTargetState) :=
  d ← lb_deregister req;
  match d with
  | Err e =>
      _ ← dbx (fun now db => LocalDB.UpsertLBInstance now lbKey id LBStatusFailed db);
      mret (Err (ErrWrap "deregistering instance from load balancer" e))
  | Ok _ =>
      s' ← lb_state req;
      match s' with
      | Err e => mret (Err (ErrWrap "confirming deregistration" e))
      | Ok st => mret (Ok st)
      end
  end.

(** The target's state, after asking for its removal when it is not yet gone. *)
Definition withdraw_target (id lbKey : string) (req : LBRequest) : M World (res LBTargetState) :=
  s ← lb_state req;
  match s with
  | Err e => mret (Err (ErrWrap "checking target state" e))
  | Ok st => if bool_decide (st = LBTargetDeregistered) then mret (Ok st)
             else deregister_and_confirm id lbKey req
  end.

(** One iteration of the loop of [deregisterInstanceFromLB]. *)
Definition deregister_one (cfg : Config) (inst : Instance) (pid : string) (r : LBInstance)
    : M World (res unit) :=
  match c_load_balancers cfg !! lb_key r with
  | None => mret (Err (ErrMsg "load balancer is no longer configured; cannot safely deregister"))
  | Some lb =>
      if bool_decide (lbc_provider lb = "tunnel") then mret (Ok tt)
      else
        w ← withdraw_target (i_id inst) (lb_key r) (lb_request cfg pid lb);
        match w with
        | Err e => mret (Err e)
        | Ok st =>
            asleep ← (if bool_decide (st = LBTargetDraining)
                      then observe (fun n => env_asleep n (i_tenant inst)) else mret false);
            if (asleep : bool) then mret (Ok tt)
            else if negb (bool_decide (st = LBTargetDeregistered))
            then mret (Err (ErrMsg "instance target is still present in load balancer"))
            else
              u ← dbx (fun now db =>
                    LocalDB.UpsertLBInstance now (lb_key r) (i_id inst) LBStatusDeregistered db);
              match u with
              | Err e => mret (Err (ErrWrap "recording deregistration" e))
              | Ok _ => mret (Ok tt)
              end
        end
  end.

Definition deregisterInstanceFromLB (inst : Instance) : M World (res unit) :=
  match i_provider_id inst with
  | None => mret (Err (ErrMsg "instance has no provider ID"))
  | Some pid =>
      l ← dbq (fun _ db => Ok (LocalDB.GetLBInstancesForInstance (i_id inst) db));
      match l with
      | Err e => mret (Err (ErrWrap "getting LB instances" e))
      | Ok [] => mret (Ok tt)
      | Ok rows =>
          loaded ← observe env_config_loaded;
          if negb loaded then mret (Err (ErrMsg "configuration not loaded"))
          else
            cfg ← observe env_config;
            for_each_err rows (deregister_one cfg inst pid)
      end
  end.

(** Steps 3 to 5 of [DeleteInstance]: every failure is logged and passed over. *)
Definition delete_cleanup (tenant instanceID : string) : M World unit :=
  _ ← dbx (fun _ db => LocalDB.DeleteLBInstancesForInstance instanceID db);
  r ← getInstanceRecord tenant instanceID;
  _ ← (match r with
       | Err _ => mret (Ok tt)
       | Ok record =>
           now ← time_now;
           storeInstanceRecord {| record with ir_status := StatusDeleting; ir_last_updated := now |}
       end);
  _ ← dbx (fun now db => LocalDB.DeleteInstance now instanceID db);
  mret tt.

(** Whether the provider call failed for a reason other than the VM being gone. *)
Definition delete_failure (d : res unit) : option err :=
  match d with
  | Err e => if err_is e ErrInstanceNotFound then None else Some e
  | Ok _ => None
  end.

(** Step 2 and what follows it. *)
Definition delete_from_provider (tenant instanceID pid : string) : M World (res unit) :=
  _ ← emit (ActProviderDelete instanceID pid);
  d ← observe (fun n => env_provider_delete n instanceID pid);
  match delete_failure d with
  | Some e => mret (Err (ErrWrap "failed to delete instance" e))
  | None => _ ← delete_cleanup tenant instanceID; mret (Ok tt)
  end.

Definition DeleteInstance (tenant instanceID : string) : M World (res unit) :=
  g ← dbq (fun _ db => LocalDB.GetInstance instanceID db);
  match g with
  | Err e => mret (Err (ErrWrap "instance not found in local DB" e))
  | Ok inst =>
      if negb (bool_decide (i_tenant inst = tenant)) then mret (Err ErrInstanceTenantMismatch)
      else match i_provider_id inst with
      | None | Some "" => mret (Err (ErrMsg "instance has no provider ID"))
      | Some pid =>
          m ← (if bool_decide (i_drain_started_at inst = None)
               then dbx (fun now db => LocalDB.MarkDrainStarted now instanceID db)
               else mret (Ok tt));
          match m with
          | Err e => mret (Err (ErrWrap "marking instance deletion intent" e))
          | Ok _ =>
              w ← deregisterInstanceFromLB inst;
              match w with
              | Err e => mret (Err (ErrWrap "failed to withdraw instance from load balancers" e))
              | Ok _ => delete_from_provider (i_tenant inst) instanceID pid
              end
          end
      end
  end.

(** [Manager.GetInstanceStatus] (the provider's status; group and creation time
    are copied from the row). *)
Definition GetInstanceStatus (tenant instanceID : string) : M World (res (InstanceStatus * string * Z)) :=
  g ← dbq (fun _ db => LocalDB.GetInstance instanceID db);
  match g with
  | Err e => mret (Err (ErrWrap "instance not found in local DB" e))
  | Ok inst =>
      if negb (bool_decide (i_tenant inst = tenant)) then mret (Err ErrInstanceTenantMismatch)
      else match i_provider_id inst with
      | None | Some "" => mret (Err (ErrMsg "instance has no provider ID yet"))
      | Some pid =>
          s ← observe (fun n => env_provider_status n instanceID pid);
          match s with
          | Err e => mret (Err (ErrWrap "failed to get instance status from provider" e))
          | Ok st => mret (Ok (st, i_group inst, i_created_at inst))
          end
      end
  end.

Definition ValidateInstanceTenant (tenant instanceID : string) : M World (res unit) :=
  g ← dbq (fun _ db => LocalDB.GetInstance instanceID db);
  match g with
  | Err e => mret (Err (ErrWrap "instance not found in local DB" e))
  | Ok inst =>
      if negb (bool_decide (i_tenant inst = tenant)) then mret (Err ErrInstanceTenantMismatch)
      else mret (Ok tt)
  end.

(** ** Load-balancer registration *)

(** Confirmation half of [reconcileLoadBalancerTarget]. *)
Definition record_if_healthy (lbKey id : string) (st : LBTargetState) : M World (res unit) :=
  if negb (bool_decide (st = LBTargetHealthy)) then mret (Ok tt)
  else
    u ← dbx (fun now db => LocalDB.UpsertLBInstance now lbKey id LBStatusRegistered db);
    match u with
    | Err e => mret (Err (ErrWrap "recording target registration" e))
    | Ok _ => mret (Ok tt)
    end.

Definition reconcileLoadBalancerTarget (cfg : Config) (inst : Instance) (lbKey : string)
    : M World (res unit) :=
  match i_provider_id inst with
  | None => mret (Err (ErrMsg "instance has no provider ID"))
  | Some pid =>
      match c_load_balancers cfg !! lbKey with
      | None => mret (Err (ErrMsg "load balancer is not configured"))
      | Some lb =>
          if bool_decide (lbc_provider lb = "tunnel") then mret (Ok tt)
          else
            let req := lb_request cfg pid lb in
            s ← lb_state req;
            match s with
            | Err e => mret (Err (ErrWrap "checking target state" e))
            | Ok LBTargetHealthy => record_if_healthy lbKey (i_id inst) LBTargetHealthy
            | Ok LBTargetDeregistered | Ok LBTargetPartial =>
                r ← lb_register req;
                match r with
                | Err e =>
                    _ ← dbx (fun now db => LocalDB.UpsertLBInstance now lbKey (i_id inst) LBStatusFailed db);
                    mret (Err (ErrWrap "registering target" e))
                | Ok _ =>
                    s' ← lb_state req;
                    match s' with
                    | Err e => mret (Err (ErrWrap "confirming target state" e))
                    | Ok st => record_if_healthy lbKey (i_id inst) st
                    end
                end
            | Ok _ => mret (Ok tt)
            end
      end
  end.

(** The registrations the group's configuration asks for. *)
Definition register_group_lbs (cfg : Config) (inst : Instance) (lbs : list string) : M World unit :=
  for_each lbs (fun lbKey =>
    u ← dbx (fun now db => LocalDB.UpsertLBInstance now lbKey (i_id inst) LBStatusPending db);
    match u with
    | Err _ => mret tt
    | Ok _ => _ ← reconcileLoadBalancerTarget cfg inst lbKey; mret tt
    end).

(** Retry of one pending or failed registration. *)
Definition retry_pending_lb (cfg : Config) (target : LBInstance) : M World unit :=
  g ← dbq (fun _ db => LocalDB.GetInstance (lb_instance_id target) db);
  match g with
  | Err _ => mret tt
  | Ok inst =>
      if bool_decide (i_provider_id inst = None) || negb (bool_decide (i_drain_started_at inst = None))
      then mret tt
      else
        blocked ← observe (fun n => env_registration_blocked n (i_tenant inst));
        if (blocked : bool) then mret tt
        else _ ← reconcileLoadBalancerTarget cfg inst (lb_key target); mret tt
  end.

Definition retry_pending_lbs (cfg : Config) : M World (res unit) :=
  p ← dbq (fun _ db => Ok (LocalDB.GetPendingOrFailedLBInstances db));
  match p with
  | Err e => mret (Err (ErrWrap "getting pending load balancer registrations" e))
  | Ok targets => _ ← for_each targets (retry_pending_lb cfg); mret (Ok tt)
  end.

Definition ReconcileLoadBalancers (instanceID : string) : M World (res unit) :=
  g ← dbq (fun _ db => LocalDB.GetInstance instanceID db);
  match g with
  | Err e => mret (Err (ErrWrap "getting instance" e))
  | Ok inst =>
      if negb (bool_decide (i_drain_started_at inst = None)) then mret (Ok tt)
      else
        loaded ← observe env_config_loaded;
        if negb loaded then mret (Err (ErrMsg "configuration not loaded"))
        else
          cfg ← observe env_config;
          if bool_decide (c_load_balancers cfg = ∅) then mret (Ok tt)
          else
            blocked ← observe (fun n => env_registration_blocked n (i_tenant inst));
            if (blocked : bool) then retry_pending_lbs cfg
            else
              gr ← get_group (i_tenant inst) (i_group inst);
              match gr with
              | Err _ => mret (Ok tt)
              | Ok group =>
                  _ ← register_group_lbs cfg inst (gc_load_balancers group);
                  retry_pending_lbs cfg
              end
  end.

(** ** Cache rebuild on leadership acquisition *)

(** [storage.List(ctx, "instance/")]: the keys in object-key order. *)
Definition store_list (prefix : string) : M World (res (list string)) :=
  fault ← observe env_store_fault;
  match fault with
  | Some e => mret (Err e)
  | None => fun w => (w, Ok (merge_sort String.le
      (filter (fun k => String.prefix prefix k = true) (elements (dom (w_store w))))))
  end.

(** The row a stored record is restored to. *)
Definition row_of_record (r : InstanceRecord) : Instance :=
  mkInstance (ir_instance_id r) (ir_tenant r) (ir_group r) (ir_on_demand r) (ir_subnet_id r)
    (if bool_decide (ir_provider_instance_id r = "") then None else Some (ir_provider_instance_id r))
    None None None None None None (ir_registration_jwt r) (Some (ir_created_at r)) None
    (ir_registered_at r) None None None (Some (ir_infra_config_hash r)) None None
    (ir_created_at r) (Some (ir_last_updated r)) None.

(** Load every record; one that cannot be read or decoded is skipped. *)
Fixpoint load_records (keys : list string) : M World (list Instance) :=
  match keys with
  | [] => mret []
  | k :: keys' =>
      r ← store_get k;
      match r with
      | Err _ => load_records keys'
      | Ok data =>
          u ← unmarshal_record k data;
          match u with
          | Err _ => load_records keys'
          | Ok rec => rest ← load_records keys'; mret (row_of_record rec :: rest)
          end
      end
  end.

Definition seedFromS3 : M World (res unit) :=
  l ← store_list "instance/";
  match l with
  | Err e => mret (Err (ErrWrap "failed to list S3 instance files" e))
  | Ok keys =>
      insts ← load_records keys;
      match insts with
      | [] => mret (Ok tt)
      | _ =>
          u ← dbx (fun now db => LocalDB.SeedFromS3Data now insts db);
          match u with
          | Err e => mret (Err (ErrWrap "failed to seed database from S3" e))
          | Ok _ => mret (Ok tt)
          end
      end
  end.

(** The pagination loop; [None] when [fuel] pages were not enough. *)
Fixpoint list_pages (fuel : nat) (token : string) : M World (option (res (list InstanceStatus))) :=
  match fuel with
  | O => mret None
  | S fuel' =>
      r ← observe (fun n => env_provider_list n token);
      match r with
      | Err e => mret (Some (Err (ErrWrap "failed to list provider instances" e)))
      | Ok (page, next) =>
          if bool_decide (next = "") then mret (Some (Ok page))
          else
            rest ← list_pages fuel' next;
            mret (match rest with
                  | Some (Ok l) => Some (Ok (page ++ l))
                  | other => other
                  end)
      end
  end.

(** [providerOwnership]: the last listing of a provider identifier wins. *)
Definition provider_ownership (l : list InstanceStatus) : gmap string string :=
  foldl (fun m pi => if bool_decide (st_provider_instance_id pi = "") then m
                     else <[st_provider_instance_id pi := st_instance_id pi]> m) ∅ l.

Definition nonempty (s : string) : option string := if bool_decide (s = "") then None else Some s.

(** The update a provider instance contributes. *)
Definition row_of_status (pi : InstanceStatus) : option Instance :=
  if bool_decide (st_provider_instance_id pi = "") || bool_decide (st_instance_id pi = "") then None
  else Some (mkInstance (st_instance_id pi) "" "" false "" (Some (st_provider_instance_id pi)) None
    (nonempty (st_hostname pi)) None (nonempty (st_private_ipv4 pi)) (nonempty (st_private_ipv6 pi))
    (Some pi) "" None None None None None None None None None 0 None None).

Definition seedFromProvider (fuel : nat) : M World (option (res unit)) :=
  loaded ← observe env_config_loaded;
  if negb loaded then mret (Some (Err (ErrMsg "no configuration available")))
  else
    pages ← list_pages fuel "";
    match pages with
    | None => mret None
    | Some (Err e) => mret (Some (Err e))
    | Some (Ok all) =>
        u ← (match omap row_of_status all with
             | [] => mret (Ok tt)
             | rows => dbx (fun now db => LocalDB.SeedFromProviderData now rows db)
             end);
        match u with
        | Err e => mret (Some (Err (ErrWrap "failed to seed database from provider" e)))
        | Ok _ =>
            now ← time_now;
            d ← db_exec (LocalDB.MarkInstancesDeletedIfProviderMissing now (provider_ownership all));
            match d with
            | Err e => mret (Some (Err (ErrWrap "failed to mark deleted instances" e)))
            | Ok _ => mret (Some (Ok tt))
            end
        end
    end.

(** [Manager.getShardID]. *)
Definition getShardID : M World string :=
  loaded ← observe env_config_loaded;
  if negb loaded then mret "unknown"
  else cfg ← observe env_config; mret (c_shard_id cfg).

Definition RebuildCache (fuel : nat) : M World (option (res unit)) :=
  shard ← getShardID;
  if bool_decide (shard = "unknown") then mret (Some (Err (ErrMsg "cannot rebuild cache: shard ID unknown")))
  else
    s ← seedFromS3;
    match s with
    | Err e => mret (Some (Err (ErrWrap "failed to seed from S3" e)))
    | Ok _ =>
        p ← seedFromProvider fuel;
        match p with
        | None => mret None
        | Some (Err e) => mret (Some (Err (ErrWrap "failed to seed from provider" e)))
        | Some (Ok _) => mret (Some (Ok tt))
        end
    end.
End Manager.
