(* ===== verification/InstancesFacts.v ===== *)
(** * Properties of the instance manager

    What every outcome of a creation leaves behind, the barrier in front of a
    deletion, load-balancer registration, subnet placement, and the cache
    rebuild. *)

From S2P Require Import Prelude Provider LocalDB LocalDBFacts Config World Instances.
Import LocalDB.

Section Create.
Context `{Env}.

Lemma silent_selectSubnet cfg t p b : silent (selectSubnetWithCapacity cfg t p b).
Proof.
  assert (forall skip l, silent (first_with_capacity skip l)) as Hf.
  { intros skip l. induction l as [|x l IH]; simpl; prog; done. }
  unfold selectSubnetWithCapacity. prog; apply Hf.
Qed.

(** The preparation of a creation: nothing, or NAT instances created for the
    tenant, one after the other. *)
Inductive nat_creations (t : string) : World -> World -> Prop :=
  | nat_creations_none w w' : same_state w w' -> nat_creations t w w'
  | nat_creations_one req w w1 w2 w' r :
      nat_creations t w w1 -> cr_tenant req = t -> cr_on_demand req = false ->
      CreateNATInstance req w1 = (w2, r) -> same_state w2 w' -> nat_creations t w w'.

Lemma nat_creations_silent t w w1 w' : nat_creations t w w1 -> same_state w1 w' -> nat_creations t w w'.
Proof.
  intros Hn Hs. destruct Hn as [w w1 Hs1|req w w0 w2 w1 r Hn Ht Hod Hr Hs2].
  - apply nat_creations_none. by eapply same_state_trans.
  - eapply nat_creations_one; [exact Hn|done|done|exact Hr|]. by eapply same_state_trans.
Qed.

Lemma silent_nat_creations t w w1 w' : same_state w w1 -> nat_creations t w1 w' -> nat_creations t w w'.
Proof.
  intros Hs Hn. induction Hn as [w1 w' Hs1|req w1 w0 w2 w' r Hn IH Ht Hod Hr Hs2].
  - apply nat_creations_none. by eapply same_state_trans.
  - eapply nat_creations_one; [by apply IH|done|done|exact Hr|done].
Qed.

Lemma nat_creations_trans t w w1 w' : nat_creations t w w1 -> nat_creations t w1 w' -> nat_creations t w w'.
Proof.
  intros Hn Hn'. induction Hn' as [w1 w' Hs1|req w1 w0 w2 w' r _ IH Ht Hod Hr Hs2].
  - by eapply nat_creations_silent.
  - eapply nat_creations_one; [by apply IH|done|done|exact Hr|done].
Qed.

Lemma CreateNATInstance_creations req w w' r :
  cr_on_demand req = false -> CreateNATInstance req w = (w', r) -> nat_creations (cr_tenant req) w w'.
Proof.
  intros Hod Hr. eapply nat_creations_one; [by apply nat_creations_none|done|done|exact Hr|done].
Qed.

Lemma create_replacement_creations t c w w' r : create_replacement t c w = (w', r) -> nat_creations t w w'.
Proof.
  unfold create_replacement. intros Hr. run_bind Hr as w1 cr H1.
  apply CreateNATInstance_creations in H1; [|done]. simpl in H1.
  eapply nat_creations_silent; [exact H1|]. destruct cr; by injection Hr as <- <-.
Qed.

Lemma PrepareNATSubnet_creations t sn w w' r : PrepareNATSubnet t sn w = (w', r) -> nat_creations t w w'.
Proof.
  unfold PrepareNATSubnet. intros Hr. run_bind Hr as w1 d H1. apply observe_run in H1 as [_ H1].
  eapply silent_nat_creations; [exact H1|]. destruct d as [a|group id|c].
  - injection Hr as <- <-. by apply nat_creations_none.
  - run_bind Hr as w2 cr H2. apply CreateNATInstance_creations in H2; [|done]. by injection Hr as <- <-.
  - run_bind Hr as w2 cr H2. apply create_replacement_creations in H2. by injection Hr as <- <-.
Qed.

(** [preparer hp]: what [CreateInstance] passes on. *)
Definition preparer (hp : bool) : Preparer := if hp then Some PrepareNATSubnet else None.

Lemma select_and_prepare_run cfg t p hp w w' r :
  select_and_prepare cfg t p (preparer hp) w = (w', r) ->
  nat_creations t w w' /\ (hp = false -> same_state w w').
Proof.
  unfold select_and_prepare. intros Hr. run_bind Hr as w1 s1 H1.
  apply (silent_run _ _ _ _ (silent_selectSubnet _ _ _ _)) in H1.
  assert (same_state w1 w' -> nat_creations t w w' /\ (hp = false -> same_state w w')) as Hdone.
  { intros Hs. pose proof (same_state_trans _ _ _ H1 Hs). split; [by apply nat_creations_none|done]. }
  destruct s1 as [sn|e]; [|apply Hdone; by injection Hr as <- <-].
  destruct hp; simpl in Hr; [|apply Hdone; by injection Hr as <- <-].
  split; [|done]. eapply silent_nat_creations; [exact H1|].
  run_bind Hr as w2 p1 H2. apply PrepareNATSubnet_creations in H2. eapply nat_creations_trans; [exact H2|].
  destruct p1 as [[]|e]; [injection Hr as <- <-; by apply nat_creations_none|].
  destruct (negb _); [injection Hr as <- <-; by apply nat_creations_none|].
  run_bind Hr as w3 f H3. apply (silent_run _ _ _ _ (silent_selectSubnet _ _ _ _)) in H3.
  eapply silent_nat_creations; [exact H3|].
  destruct f as [sn2|e2]; [|injection Hr as <- <-; by apply nat_creations_none].
  case_bool_decide; [injection Hr as <- <-; by apply nat_creations_none|].
  run_bind Hr as w4 p2 H4. apply PrepareNATSubnet_creations in H4. eapply nat_creations_silent; [exact H4|].
  destruct p2; by injection Hr as <- <-.
Qed.

Lemma silent_generateRegistrationNonce id g t : silent (generateRegistrationNonce id g t).
Proof. unfold generateRegistrationNonce. prog. Qed.

Lemma storeInstanceRecord_run rec w w' r :
  storeInstanceRecord rec w = (w', r) ->
  w_db w' = w_db w /\
  ((exists e, r = Err e /\ same_state w w') \/
   exists k, StorageKey (ir_instance_id rec) = Ok k /\ r = Ok tt /\
     w_store w' = <[record_key (ir_tenant rec) k := rec]> (w_store w) /\
     w_trace w' = w_trace w ++ [ActStoragePut (record_key (ir_tenant rec) k)]).
Proof.
  unfold storeInstanceRecord. intros Hr. run_steps Hr; try (unfold same_state; by eauto 10).
  apply store_put_run in Hr as [? [(? & ? & ?)|(? & ? & ?)]]; naive_solver.
Qed.

(** The row a creation leaves in the cache for the request [preq] it sent. *)
Record tracked_row (req : CreateInstanceRequest) (preq : ProviderRequest) (row : Instance) : Prop := {
  tr_id : i_id row = pq_instance_id preq;
  tr_tenant : i_tenant row = cr_tenant req;
  tr_group : i_group row = cr_group req;
  tr_on_demand : i_on_demand row = cr_on_demand req;
  tr_subnet : i_subnet_id row = pq_subnet_id preq;
  tr_nonce : i_nonce row = pq_nonce preq;
  tr_issued : i_issued_at row = Some (i_created_at row);
  tr_unregistered : i_registered_at row = None;
  tr_not_deleted : i_deleted_at row = None;
  tr_state : i_provider_state row = None;
  tr_drain : i_drain_started_at row = None;
}.

(** Every outcome of a creation. *)
Inductive create_outcome (req : CreateInstanceRequest) (w w' : World) (r : res CreateInstanceResponse) : Prop :=
  | create_nothing e :
      same_state w w' -> r = Err e -> create_outcome req w w' r
  | create_inserted e preq row :
      tracked_row req preq row -> i_provider_id row = None ->
      i_id row ∉ (i_id <$> instances (w_db w)) ->
      w_db w' = with_instances (instances (w_db w) ++ [row]) (w_db w) ->
      w_store w' = w_store w -> w_trace w' = w_trace w ->
      r = Err e -> create_outcome req w w' r
  | create_called preq row key rest rec :
      tracked_row req preq row ->
      i_id row ∉ (i_id <$> instances (w_db w)) ->
      w_db w' = with_instances (instances (w_db w) ++ [row]) (w_db w) ->
      w_trace w' = w_trace w ++ ActStoragePut key :: ActProviderCreate preq :: rest ->
      rest ⊆ [ActStoragePut key] ->
      w_store w' !! key = Some rec -> ir_instance_id rec = i_id row -> ir_tenant rec = i_tenant row ->
      ir_registration_jwt rec = i_nonce row ->
      match r with
      | Ok resp => rs_instance_id resp = i_id row /\ rs_provider_instance_id resp ≠ "" /\
                   i_provider_id row = Some (rs_provider_instance_id resp)
      | Err _ => i_provider_id row = None
      end -> create_outcome req w w' r.

Lemma create_outcome_silent req w w1 w' r :
  same_state w w1 -> create_outcome req w1 w' r -> create_outcome req w w' r.
Proof.
  intros Hs Ho. pose proof Hs as (Hd & Hst & Ht).
  destruct Ho as [e Hs' He|e preq row Htr Hp Hf Hdb Hst' Ht' He|preq row key rest rec Htr Hf Hdb Ht' ? ? ? ? ? ?].
  - eapply create_nothing; [by eapply same_state_trans|done].
  - rewrite Hd in Hf, Hdb. eapply create_inserted; (eassumption || congruence).
  - rewrite Hd in Hf, Hdb. rewrite Ht in Ht'. eapply create_called; eassumption.
Qed.

(** Leave with an error and no effect; step over an effect-free prefix. *)
Ltac create_fail Hr := injection Hr as <- <-; by eapply create_nothing.
Ltac create_skip Hs := eapply create_outcome_silent; [exact Hs|]; clear Hs.

(** [UpdateInstance] on the freshly inserted row touches that row alone. *)
Lemma UpdateInstance_fresh now inst row l db :
  i_id inst = i_id row -> i_id row ∉ (i_id <$> l) ->
  exists row', UpdateInstance now inst (with_instances (l ++ [row]) db) =
                 Ok (with_instances (l ++ [row']) (with_instances (l ++ [row]) db)) /\
    i_id row' = i_id row /\ i_tenant row' = i_tenant row /\ i_nonce row' = i_nonce row /\
    i_issued_at row' = i_issued_at row /\ i_created_at row' = i_created_at row /\
    i_drain_started_at row' = i_drain_started_at row /\
    i_group row' = i_group inst /\ i_on_demand row' = i_on_demand inst /\
    i_subnet_id row' = i_subnet_id inst /\ i_provider_id row' = i_provider_id inst /\
    i_provider_state row' = i_provider_state inst /\ i_registered_at row' = i_registered_at inst /\
    i_deleted_at row' = i_deleted_at inst.
Proof.
  intros Hid Hfresh. unfold UpdateInstance, update_or_norows. simpl.
  destruct (affected _ (l ++ [row])) eqn:Ha.
  { assert (bool_decide (i_id row = i_id inst) = false) as Hf
      by (apply (proj1 (affected_0 _ _) Ha); set_solver).
    rewrite bool_decide_eq_false in Hf. congruence. }
  eexists. split.
  - unfold upd. rewrite fmap_app. simpl. rewrite bool_decide_true by done.
    f_equal. f_equal. f_equal. apply (upd_id (fun i => bool_decide (i_id i = i_id inst))).
    intros x Hx. apply bool_decide_eq_false. intros Heq. apply Hfresh.
    apply list_elem_of_fmap. exists x. split; [congruence|done].
  - simpl. split_and!; done.
Qed.
(** The provider call and its follow-up, from a state in which the row and the
    pending record are already stored. *)
Lemma provider_create_run req preq rec row l db w w' r key :
  tracked_row req preq row -> i_provider_id row = None -> i_id row ∉ (i_id <$> l) ->
  w_db w = with_instances (l ++ [row]) db ->
  StorageKey (ir_instance_id rec) = Ok key -> ir_instance_id rec = i_id row ->
  w_store w !! record_key (ir_tenant rec) key = Some rec ->
  provider_create req preq rec w = (w', r) ->
  exists row' rest rec', tracked_row req preq row' /\ i_id row' = i_id row /\
    w_db w' = with_instances (l ++ [row']) db /\
    w_trace w' = w_trace w ++ ActProviderCreate preq :: rest /\
    rest ⊆ [ActStoragePut (record_key (ir_tenant rec) key)] /\
    w_store w' !! record_key (ir_tenant rec) key = Some rec' /\
    ir_instance_id rec' = ir_instance_id rec /\ ir_tenant rec' = ir_tenant rec /\
    ir_registration_jwt rec' = ir_registration_jwt rec /\
    match r with
    | Ok resp => rs_instance_id resp = i_id row' /\ rs_provider_instance_id resp ≠ "" /\
                 i_provider_id row' = Some (rs_provider_instance_id resp)
    | Err _ => i_provider_id row' = None
    end.
Proof.
  intros Htr Hp Hfresh Hdb Hk Hrid Hst Hr. unfold provider_create in Hr.
  run_bind Hr as w1 u H1. apply emit_run in H1 as (Hd1 & Hs1 & Ht1).
  run_bind Hr as w2 pr H2. apply observe_run in H2 as (_ & Hd2 & Hs2 & Ht2).
  destruct pr as [resp|e]; [case_bool_decide as Hne|].
  - run_step Hr. exists row, [], rec. split_and!; try done; try congruence; try set_solver.
  - run_bind Hr as w3 t1 H3. apply observe_run in H3 as (_ & Hd3 & Hs3 & Ht3).
    run_bind Hr as w4 sr H4. apply storeInstanceRecord_run in H4 as [Hd4 Hput]. simpl in Hput.
    run_bind Hr as w5 t2 H5. apply observe_run in H5 as (_ & Hd5 & Hs5 & Ht5).
    run_bind Hr as w6 ur H6. apply dbx_run in H6 as (Hs6 & Ht6 & Hupd).
    assert (exists rest rec', w_trace w6 = w_trace w ++ ActProviderCreate preq :: rest /\
      rest ⊆ [ActStoragePut (record_key (ir_tenant rec) key)] /\
      w_store w6 !! record_key (ir_tenant rec) key = Some rec' /\
      ir_instance_id rec' = ir_instance_id rec /\ ir_tenant rec' = ir_tenant rec /\
      ir_registration_jwt rec' = ir_registration_jwt rec)
      as (rest & rec' & Htr' & Hrest & Hst' & Hr1 & Hr2 & Hr3).
    { destruct Hput as [(e & _ & _ & Hs4 & Ht4)|(k' & Hk' & _ & Hs4 & Ht4)].
      - exists [], rec. split_and!; try done; try set_solver; congruence.
      - assert (k' = key) as -> by congruence. eexists [_], _. split_and!.
        + rewrite Ht6, Ht5, Ht4, Ht3, Ht2, Ht1, <-app_assoc. done.
        + set_solver.
        + rewrite Hs6, Hs5, Hs4, lookup_insert_eq. done.
        + done.
        + done.
        + done. }
    assert (w_db w5 = with_instances (l ++ [row]) db) as Hd5' by congruence.
    rewrite Hd5' in Hupd.
    destruct Hupd as [(e & -> & Hd6 & _)|(now & db' & Hu & -> & Hd6)]; run_step Hr.
    + exists row, rest, rec'. split_and!; try done; congruence.
    + destruct (UpdateInstance_fresh now (created_row req (pq_instance_id preq) (pq_subnet_id preq) resp t2)
        row l db) as (row' & Hu' & ? & ? & ? & ? & ? & ? & ? & ? & ? & Hpid & ? & ? & ?);
        [simpl; symmetry; apply Htr|done|].
      rewrite Hu' in Hu. injection Hu as <-. destruct Htr.
      exists row', rest, rec'. simpl in *.
      split_and!; try done; try congruence. split; simpl; congruence.
  - run_step Hr. exists row, [], rec. split_and!; try done; try congruence; try set_solver.
Qed.

Lemma CreateInstance_Ok inst db db' :
  LocalDB.CreateInstance inst db = Ok db' ->
  i_drain_started_at inst = None -> i_drain_acked_at inst = None ->
  db' = with_instances (instances db ++ [inst]) db /\ i_id inst ∉ (i_id <$> instances db).
Proof.
  unfold LocalDB.CreateInstance. case_bool_decide as Hid; [done|]. case_bool_decide; [done|].
  simpl. intros [= <-] H1 H2. split; [|done]. destruct inst; simpl in *; subst. done.
Qed.

Lemma insert_and_create_run cfg req merged id tmpl kind jwt subnet w w' r :
  insert_and_create cfg req merged id tmpl kind jwt subnet w = (w', r) -> create_outcome req w w' r.
Proof.
  unfold insert_and_create. intros Hr.
  run_bind Hr as w1 hash H1. apply observe_run in H1 as [_ Hs1].
  run_bind Hr as w2 now H2. apply observe_run in H2 as [_ Hs2].
  pose proof (same_state_trans _ _ _ Hs1 Hs2) as Hs. clear Hs1 Hs2 w1.
  create_skip Hs.
  run_bind Hr as w3 ins H3.
  set (row := pre_insert req id subnet jwt hash now) in *.
  set (preq := provider_request cfg req id tmpl kind (mc_instance_type merged) subnet jwt) in *.
  assert (tracked_row req preq row) as Htr by (split; done).
  unfold db_exec in H3. run_bind H3 as w4 fault H4. apply observe_run in H4 as [_ Hs4].
  destruct fault as [e|]; [injection H3 as <- <-; create_fail Hr|].
  create_skip Hs4.
  destruct (LocalDB.CreateInstance row (w_db w4)) as [db'|e] eqn:Hc.
  2: { injection H3 as <- <-. create_fail Hr. }
  apply CreateInstance_Ok in Hc as [-> Hfresh]; [|done|done]. injection H3 as <- <-.
  run_bind Hr as w5 st H5. apply storeInstanceRecord_run in H5 as [Hd5 Hput]. simpl in *.
  destruct Hput as [(e & -> & _ & ? & ?)|(k & Hk & -> & Hst & Ht)].
  { injection Hr as <- <-. eapply (create_inserted _ _ _ _ _ preq row); done. }
  eapply (provider_create_run _ _ _ row (instances (w_db w4)) (w_db w4)) in Hr
    as (row' & rest & rec' & Htr' & Hid & Hdb & Htrace & Hrest & Hst' & Hr1 & Hr2 & Hr3 & Hres); try done.
  2: { rewrite Hst. simpl. by rewrite lookup_insert_eq. }
  eapply (create_called _ _ _ _ preq row'); try done.
  - by rewrite Hid.
  - rewrite Htrace, Ht, <-app_assoc. done.
  - rewrite Hr1, Hid. done.
  - rewrite Hr2. symmetry. apply Htr'.
  - rewrite Hr3. symmetry. apply Htr'.
Qed.

(** A creation: its preparation, then its own outcome. *)
Definition prepared_outcome (hp : bool) (req : CreateInstanceRequest) (w w' : World) (r : res CreateInstanceResponse) : Prop :=
  exists w1, nat_creations (cr_tenant req) w w1 /\ (hp = false -> same_state w w1) /\ create_outcome req w1 w' r.

Lemma unprepared hp req w w' r : create_outcome req w w' r -> prepared_outcome hp req w w' r.
Proof. intros Ho. exists w. split_and!; [by apply nat_creations_none|done|done]. Qed.

Lemma prepared_outcome_silent hp req w w1 w' r :
  same_state w w1 -> prepared_outcome hp req w1 w' r -> prepared_outcome hp req w w' r.
Proof.
  intros Hs (w2 & Hn & Hsame & Ho). exists w2. split_and!; [by eapply silent_nat_creations| |done].
  intros Hf. eapply same_state_trans; [exact Hs|auto].
Qed.

Ltac prep_fail Hr := injection Hr as <- <-; apply unprepared; by eapply create_nothing.
Ltac prep_skip Hs := eapply prepared_outcome_silent; [exact Hs|]; clear Hs.

Lemma create_from_template_run cfg req g tmpl tc hp w w' r :
  create_from_template cfg req g tmpl tc (preparer hp) w = (w', r) -> prepared_outcome hp req w w' r.
Proof.
  unfold create_from_template. intros Hr. run_bind Hr as w1 idr H1.
  assert (same_state w w1) as Hs by (destruct (bool_decide _) in H1; [apply observe_run in H1 as []|injection H1 as <- <-]; done).
  prep_skip Hs. clear H1.
  destruct idr as [id|e]; [|prep_fail Hr].
  destruct (GetMergedConfig _ _ _) as [merged|e]; [|prep_fail Hr].
  run_bind Hr as w2 jr H2. apply (silent_run _ _ _ _ (silent_generateRegistrationNonce _ _ _)) in H2.
  prep_skip H2.
  destruct jr as [jwt|e]; [|prep_fail Hr].
  run_bind Hr as w3 ud H3. apply observe_run in H3 as [_ H3].
  prep_skip H3.
  destruct ud as [_|e]; [|prep_fail Hr].
  run_bind Hr as w4 ar H4. apply observe_run in H4 as [_ H4].
  prep_skip H4.
  destruct ar as [_|e]; [|prep_fail Hr].
  cbv zeta in Hr. destruct (bool_decide ((if bool_decide (cr_subnet_pool req = "") then _ else _) = "")).
  { prep_fail Hr. }
  run_bind Hr as w5 sr H5. apply select_and_prepare_run in H5 as [Hn Hsame].
  exists w5. split_and!; [done|done|].
  destruct sr as [subnet|e]; [|create_fail Hr].
  by eapply insert_and_create_run.
Qed.

Lemma createInstance_run req hp w w' r :
  createInstance req (preparer hp) w = (w', r) -> prepared_outcome hp req w w' r.
Proof.
  unfold createInstance. intros Hr.
  case_bool_decide as Hg; [prep_fail Hr|].
  case_bool_decide as Htn; [prep_fail Hr|].
  run_bind Hr as w1 loaded H1. apply observe_run in H1 as [_ H1].
  prep_skip H1.
  destruct loaded; [|prep_fail Hr]. simpl in Hr.
  run_bind Hr as w2 cfg H2. apply observe_run in H2 as [_ H2].
  prep_skip H2.
  run_bind Hr as w3 gr H3. apply (silent_run _ _ _ _ (silent_get_group _ _)) in H3.
  prep_skip H3.
  destruct gr as [g|e]; [|prep_fail Hr].
  destruct (c_templates cfg !! _); [|prep_fail Hr].
  by eapply create_from_template_run.
Qed.

(** A row of a group that is its tenant's managed-NAT group in some configuration. *)
Definition nat_row (i : Instance) : Prop :=
  exists n nc, c_nat (env_config n) !! i_tenant i = Some nc /\ nat_group nc = i_group i.

(** What a creation does to the cache, apart from its preparation: at most one new
    row, of the requested tenant, group and kind, and exactly one when it succeeds. *)
Lemma outcome_rows req w w' r :
  create_outcome req w w' r ->
  exists extra, w_db w' = with_instances (instances (w_db w) ++ extra) (w_db w) /\
    (length extra <= 1)%nat /\ (is_ok r = true -> length extra = 1%nat) /\
    (forall i, i ∈ extra -> (i_id i ∉ (i_id <$> instances (w_db w))) /\ i_tenant i = cr_tenant req /\
       i_group i = cr_group req /\ i_on_demand i = cr_on_demand req /\ active i = true).
Proof.
  intros Hr. assert (forall preq row, tracked_row req preq row -> active row = true) as Hact.
  { intros preq row []. unfold active, not_deleted, status_ok. by rewrite bool_decide_true, tr_state0. }
  destruct Hr as [e (Hd & _ & _) ->|e preq row Htr Hp Hf Hdb _ _ ->|preq row key rest rec Htr Hf Hdb].
  - exists []. rewrite app_nil_r, Hd. split_and!; try done; [by destruct (w_db w)|simpl; lia|set_solver].
  - exists [row]. split_and!; try done. intros i ->%list_elem_of_singleton.
    split_and!; [done|apply Htr|apply Htr|apply Htr|by eapply Hact].
  - exists [row]. split_and!; try done. intros i ->%list_elem_of_singleton.
    split_and!; [done|apply Htr|apply Htr|apply Htr|by eapply Hact].
Qed.

Lemma with_instances_nil db : db = with_instances (instances db ++ []) db.
Proof. rewrite app_nil_r. by destruct db. Qed.

Lemma with_instances_twice db a b :
  with_instances (instances (with_instances (instances db ++ a) db) ++ b) (with_instances (instances db ++ a) db) =
  with_instances (instances db ++ a ++ b) db.
Proof. simpl. by rewrite <-app_assoc. Qed.

(** A NAT creation is refused unless the group is the tenant's NAT group. *)
Lemma CreateNATInstance_run req w w' r :
  CreateNATInstance req w = (w', r) ->
  create_outcome req w w' r /\
  (same_state w w' \/ exists n nc, c_nat (env_config n) !! cr_tenant req = Some nc /\ nat_group nc = cr_group req).
Proof.
  unfold CreateNATInstance. intros Hr. run_bind Hr as w1 cfg H1. apply observe_run in H1 as [-> H1].
  destruct (c_nat _ !! _) as [nc|] eqn:Hnc.
  2: { injection Hr as <- <-. split; [by eapply create_nothing|by left]. }
  destruct (_ || _) eqn:Hg; [injection Hr as <- <-; split; [by eapply create_nothing|by left]|].
  apply orb_false_iff in Hg as [_ Hg%negb_false_iff%bool_decide_eq_true].
  apply (createInstance_run req false) in Hr as (w2 & _ & Hs & Ho). split; [|right; by eauto].
  eapply create_outcome_silent; [|exact Ho]. eapply same_state_trans; [exact H1|auto].
Qed.

(** The preparation adds rows of the tenant's NAT group and nothing else. *)
Lemma nat_creations_rows t w w' :
  nat_creations t w w' ->
  exists extra, w_db w' = with_instances (instances (w_db w) ++ extra) (w_db w) /\
    (forall i, i ∈ extra -> i_tenant i = t /\ nat_row i /\ i_on_demand i = false /\ active i = true).
Proof.
  induction 1 as [w w' (Hd & _)|req w w1 w2 w' r _ IH Ht Hod Hr (Hd & _)].
  { exists []. split; [rewrite Hd; apply with_instances_nil|set_solver]. }
  destruct IH as (e1 & Hd1 & Hx1). apply CreateNATInstance_run in Hr as [Ho Hnat].
  destruct Hnat as [(Hs & _)|(n & nc & Hnc & Hg)]; [exists e1; split; [congruence|done]|].
  apply outcome_rows in Ho as (e2 & Hd2 & _ & _ & Hx2). exists (e1 ++ e2).
  split; [rewrite Hd, Hd2, Hd1; apply with_instances_twice|].
  intros i [Hi|Hi]%elem_of_app; [by apply Hx1|]. destruct (Hx2 i Hi) as (_ & Hti & Hgi & Hoi & Ha).
  split_and!; [congruence| |congruence|done]. exists n, nc. split; congruence.
Qed.

(** What a creation does to the cache: rows of the tenant's NAT group, when it
    prepares a subnet, and then at most one row of the request, exactly one when it
    succeeds. *)
Lemma create_rows req hp w w' r :
  createInstance req (preparer hp) w = (w', r) ->
  exists nats extra, w_db w' = with_instances (instances (w_db w) ++ nats ++ extra) (w_db w) /\
    (forall i, i ∈ nats -> i_tenant i = cr_tenant req /\ nat_row i /\ i_on_demand i = false /\ active i = true) /\
    (length extra <= 1)%nat /\ (is_ok r = true -> length extra = 1%nat) /\
    (forall i, i ∈ extra -> (i_id i ∉ (i_id <$> instances (w_db w))) /\ i_tenant i = cr_tenant req /\
       i_group i = cr_group req /\ i_on_demand i = cr_on_demand req /\ active i = true).
Proof.
  intros (w1 & (nats & Hd1 & Hnats)%nat_creations_rows & _ & (extra & Hd & Hle & Hok & Hx)%outcome_rows)%createInstance_run.
  exists nats, extra. split_and!; try done.
  - rewrite Hd, Hd1. apply with_instances_twice.
  - intros i Hi. destruct (Hx i Hi) as (Hf & Hrest). split; [|done]. rewrite Hd1 in Hf. simpl in Hf. set_solver.
Qed.

Lemma tracked_dangling req preq row w now maxAge :
  tracked_row req preq row -> row ∈ instances (w_db w) -> i_created_at row < now - maxAge ->
  row ∈ FindDanglingInstances now maxAge (w_db w) /\
  (i_provider_id row = None -> row ∈ FindStalePreInserts now maxAge (w_db w)).
Proof.
  intros [] Hin Hlt.
  unfold FindDanglingInstances, FindStalePreInserts, not_deleted, before.
  rewrite elem_of_order_by, !elem_of_sel, tr_issued0, tr_unregistered0, tr_not_deleted0, !bool_decide_true by done.
  split; [done|]. by intros ->.
Qed.

(** C1. No VM is ever requested without a trace of it: a creation first has its
    subnet prepared, if asked to, which creates NAT instances of the tenant one
    after the other ([w1] is the world after that; each is a creation without a
    preparation, so this theorem speaks of it too); then it either makes
    no provider call, or makes exactly one, after the pending record reached
    object storage and with a live, unregistered row of the requested tenant,
    group and nonce in the cache.  Whatever happens next (provider error, lost
    record update, failed commit), that row is found by the garbage collector
    once it is old enough: as dangling always, as a stale pre-insert when the
    creation failed; on success the row carries the provider's identifier. *)
Theorem create_never_orphans req hp w :
  match createInstance req (preparer hp) w with
  | (w', r) => exists w1, nat_creations (cr_tenant req) w w1 /\ (hp = false -> same_state w w1) /\
    ((w_trace w' = w_trace w1 /\ is_ok r = false) \/
    exists preq row key rest rec,
      w_trace w' = w_trace w1 ++ ActStoragePut key :: ActProviderCreate preq :: rest /\
      rest ⊆ [ActStoragePut key] /\
      w_store w' !! key = Some rec /\ ir_instance_id rec = i_id row /\ ir_registration_jwt rec = i_nonce row /\
      row ∈ instances (w_db w') /\ tracked_row req preq row /\
      (forall now maxAge, i_created_at row < now - maxAge ->
         row ∈ FindDanglingInstances now maxAge (w_db w') /\
         (is_ok r = false -> row ∈ FindStalePreInserts now maxAge (w_db w'))) /\
      (forall resp, r = Ok resp -> rs_provider_instance_id resp ≠ "" /\
         i_provider_id row = Some (rs_provider_instance_id resp)))
  end.
Proof.
  destruct (createInstance req (preparer hp) w) as [w' r] eqn:Hr. apply createInstance_run in Hr.
  destruct Hr as (w1 & Hn & Hsame & Hr). exists w1. split_and!; [done|done|].
  destruct Hr as [e (_ & _ & Ht) ->|e preq row _ _ _ _ _ Ht ->
    |preq row key rest rec Htr Hf Hdb Ht Hrest Hst Hr1 Hr2 Hr3 Hres]; [by left|by left|].
  right. assert (row ∈ instances (w_db w')) as Hin by (rewrite Hdb; simpl; set_solver).
  exists preq, row, key, rest, rec. split_and!; try done.
  - intros now maxAge Hlt. destruct (tracked_dangling _ _ _ _ _ _ Htr Hin Hlt) as [Hd Hp].
    split; [done|]. destruct r; [done|auto].
  - intros resp ->. by destruct Hres as (_ & ? & ?).
Qed.
End Create.

Section Delete.
Context `{Env}.

(** [w'] extends the trace of [w] by [l], all of whose actions satisfy [P]. *)
Definition extends (P : Action -> Prop) (w w' : World) (l : list Action) : Prop :=
  w_trace w' = w_trace w ++ l /\ Forall P l.

Lemma extends_same P w w' : w_trace w' = w_trace w -> extends P w w' [].
Proof. intros Ht. split; [by rewrite app_nil_r|constructor]. Qed.

Lemma extends_trans P w1 w2 w3 l1 l2 :
  extends P w1 w2 l1 -> extends P w2 w3 l2 -> extends P w1 w3 (l1 ++ l2).
Proof. intros [Ht1 H1] [Ht2 H2]. split; [by rewrite Ht2, Ht1, app_assoc|by apply Forall_app]. Qed.

(** The actions of the withdrawal phase. *)
Definition withdrawal (a : Action) : Prop :=
  match a with ActLBState _ _ | ActDeregisterLB _ => True | _ => False end.

Lemma lb_state_run req w w' st :
  lb_state req w = (w', st) -> w_db w' = w_db w /\ w_store w' = w_store w /\
  extends withdrawal w w' [ActLBState req st].
Proof.
  unfold lb_state. intros Hr. run_bind Hr as w1 s H1. apply observe_run in H1 as [_ (Hd1 & Hs1 & Ht1)].
  run_bind Hr as w2 u H2. apply emit_run in H2 as (Hd2 & Hs2 & Ht2). injection Hr as <- <-.
  unfold extends. rewrite Ht2, Ht1. split_and!; try congruence. by constructor.
Qed.

Lemma UpsertLBInstance_instances now k id s db db' :
  UpsertLBInstance now k id s db = Ok db' -> instances db' = instances db.
Proof. unfold UpsertLBInstance. destruct (affected _ _); [case_match; [done|]|]; by intros [= <-]. Qed.

Lemma upsert_lb_run k id s w w' r :
  dbx (fun now db => UpsertLBInstance now k id s db) w = (w', r) ->
  instances (w_db w') = instances (w_db w) /\ w_store w' = w_store w /\ w_trace w' = w_trace w.
Proof.
  intros (? & ? & [(e & _ & -> & _)|(now & db' & Hu & _ & ->)])%dbx_run; [done|].
  by apply UpsertLBInstance_instances in Hu.
Qed.

(** A withdrawal step: the instance table and the records are untouched, only
    withdrawal actions happen, and a reported state was observed. *)
Definition withdrawal_step (req : LBRequest) (w w' : World) (r : res LBTargetState) : Prop :=
  instances (w_db w') = instances (w_db w) /\ w_store w' = w_store w /\
  exists l, extends withdrawal w w' l /\ (forall st, r = Ok st -> ActLBState req (Ok st) ∈ l).

Lemma deregister_and_confirm_run id k req w w' r :
  deregister_and_confirm id k req w = (w', r) -> withdrawal_step req w w' r.
Proof.
  unfold deregister_and_confirm. intros Hr. run_bind Hr as w2 d H2. unfold lb_deregister in H2.
  run_bind H2 as w1 u H1. apply emit_run in H1 as (Hd1 & Hs1 & Ht1).
  apply observe_run in H2 as [_ (Hd2 & Hs2 & Ht2)].
  assert (extends withdrawal w w2 [ActDeregisterLB req]) as He.
  { split; [by rewrite Ht2, Ht1|by repeat constructor]. }
  destruct d as [_|e].
  - run_bind Hr as w4 s' H4. apply lb_state_run in H4 as (Hd4 & Hs4 & He4).
    pose proof (extends_trans _ _ _ _ _ _ He He4) as He'.
    destruct s' as [st'|e]; injection Hr as <- <-; (split_and!; [congruence|congruence|]);
      (eexists; split; [exact He'|]); intros st0 [= <-]. set_solver.
  - run_bind Hr as w4 u4 H4. apply upsert_lb_run in H4 as (Hi4 & Hs4 & Ht4). injection Hr as <- <-.
    split_and!; [congruence|congruence|]. eexists. split; [|done].
    eapply extends_trans; [exact He|by apply extends_same].
Qed.

Lemma withdraw_target_run id k req w w' r :
  withdraw_target id k req w = (w', r) -> withdrawal_step req w w' r.
Proof.
  unfold withdraw_target. intros Hr. run_bind Hr as w1 s H1. apply lb_state_run in H1 as (Hd1 & Hs1 & He1).
  destruct s as [st|e]; [case_bool_decide as Hst|].
  - injection Hr as <- <-. split_and!; [congruence|done|].
    eexists. split; [exact He1|]. intros ? [= <-]. set_solver.
  - apply deregister_and_confirm_run in Hr as (Hi & Hs & l & He & Hst').
    split_and!; [congruence|congruence|]. eexists. split; [by eapply extends_trans|]. set_solver.
  - injection Hr as <- <-. split_and!; [congruence|done|]. eexists. split; [exact He1|done].
Qed.

(** The target of one load-balancer row is known to take no new connection:
    it is a tunnel, or was seen deregistered, or was seen draining while the
    tenant was asleep. *)
Definition lb_withdrawn (cfg : Config) (tenant pid : string) (tr : list Action) (r : LBInstance) : Prop :=
  exists lb, c_load_balancers cfg !! lb_key r = Some lb /\
    (lbc_provider lb = "tunnel" \/
     ActLBState (lb_request cfg pid lb) (Ok LBTargetDeregistered) ∈ tr \/
     (ActLBState (lb_request cfg pid lb) (Ok LBTargetDraining) ∈ tr /\
      exists n, env_asleep n tenant = true)).

Lemma lb_withdrawn_mono cfg t pid tr tr' r :
  tr ⊆ tr' -> lb_withdrawn cfg t pid tr r -> lb_withdrawn cfg t pid tr' r.
Proof. unfold lb_withdrawn. set_solver. Qed.

(** As [withdrawal_step], for the rows [rows] of instance [inst]. *)
Definition withdrawn_rows (cfg : Config) (inst : Instance) (pid : string) (rows : list LBInstance)
    (w w' : World) (r : res unit) : Prop :=
  instances (w_db w') = instances (w_db w) /\ w_store w' = w_store w /\
  exists l, extends withdrawal w w' l /\
    (r = Ok tt -> Forall (lb_withdrawn cfg (i_tenant inst) pid l) rows).

Lemma deregister_one_run cfg inst pid row w w' r :
  deregister_one cfg inst pid row w = (w', r) -> withdrawn_rows cfg inst pid [row] w w' r.
Proof.
  unfold deregister_one, withdrawn_rows. intros Hr.
  destruct (c_load_balancers cfg !! lb_key row) as [lb|] eqn:Hlb.
  2: { injection Hr as <- <-. split_and!; try done. exists []. split; [by apply extends_same|done]. }
  case_bool_decide as Htun.
  { injection Hr as <- <-. split_and!; try done. exists []. split; [by apply extends_same|].
    intros _. constructor; [|done]. exists lb. eauto. }
  run_bind Hr as w1 wr H1. apply withdraw_target_run in H1 as (Hi1 & Hs1 & l & He & Hst).
  destruct wr as [st|e]; [|injection Hr as <- <-; split_and!; [done|done|]; by exists l].
  specialize (Hst st eq_refl). run_bind Hr as w2 asleep H2.
  assert (same_state w1 w2 /\ (asleep = true -> st = LBTargetDraining /\ exists n, env_asleep n (i_tenant inst) = true))
    as [(Hd2 & Hs2 & Ht2) Hasleep].
  { destruct (bool_decide (st = LBTargetDraining)) eqn:Hdr.
    - apply bool_decide_eq_true in Hdr. apply observe_run in H2 as [-> ?]. eauto.
    - by injection H2 as <- <-. }
  assert (extends withdrawal w w2 l) as He2 by (unfold extends in *; by rewrite Ht2).
  destruct asleep; [|case_bool_decide as Hdereg; simpl in Hr].
  - destruct (Hasleep eq_refl) as [-> Hn]. injection Hr as <- <-. split_and!; [congruence|congruence|].
    exists l. split; [done|]. intros _. constructor; [|done]. exists lb. eauto.
  - subst st. run_bind Hr as w3 u H3. apply upsert_lb_run in H3 as (Hi3 & Hs3 & Ht3).
    assert (extends withdrawal w w3 l) as He3 by (unfold extends in *; by rewrite Ht3).
    destruct u; injection Hr as <- <-; (split_and!; [congruence|congruence|]); exists l; (split; [done|]); [|done].
    intros _. constructor; [|done]. exists lb. eauto.
  - injection Hr as <- <-. split_and!; [congruence|congruence|]. by exists l.
Qed.

Lemma deregister_rows_run cfg inst pid rows w w' r :
  for_each_err rows (deregister_one cfg inst pid) w = (w', r) -> withdrawn_rows cfg inst pid rows w w' r.
Proof.
  revert w. induction rows as [|row rows IH]; intros w Hr; simpl in Hr.
  { injection Hr as <- <-. split_and!; try done. exists []. split; [by apply extends_same|done]. }
  run_bind Hr as w1 r1 H1. apply deregister_one_run in H1 as (Hi1 & Hs1 & l1 & He1 & Hw1).
  destruct r1 as [[]|e]; [|injection Hr as <- <-; split_and!; [done|done|]; by exists l1].
  apply IH in Hr as (Hi & Hs & l2 & He2 & Hw2). split_and!; [congruence|congruence|].
  exists (l1 ++ l2). split; [by eapply extends_trans|]. intros ->.
  specialize (Hw1 eq_refl). specialize (Hw2 eq_refl). inversion_clear Hw1.
  constructor.
  - eapply lb_withdrawn_mono; [|eassumption]. set_solver.
  - eapply Forall_impl; [exact Hw2|]. intros x Hx. eapply lb_withdrawn_mono; [|exact Hx]. set_solver.
Qed.

(** The whole withdrawal: on success every load-balancer row of the instance
    was withdrawn under one configuration snapshot. *)
Definition withdrawn_instance (inst : Instance) (w w' : World) (l : list Action) (r : res unit) : Prop :=
  instances (w_db w') = instances (w_db w) /\ w_store w' = w_store w /\ extends withdrawal w w' l /\
  (r = Ok tt -> exists pid n, i_provider_id inst = Some pid /\
     Forall (lb_withdrawn (env_config n) (i_tenant inst) pid l)
       (GetLBInstancesForInstance (i_id inst) (w_db w))).

Lemma deregisterInstanceFromLB_run inst w w' r :
  deregisterInstanceFromLB inst w = (w', r) -> exists l, withdrawn_instance inst w w' l r.
Proof.
  unfold deregisterInstanceFromLB, withdrawn_instance. intros Hr.
  destruct (i_provider_id inst) as [pid|] eqn:Hpid.
  2: { injection Hr as <- <-. exists []. split_and!; try done. by apply extends_same. }
  run_bind Hr as w1 rows H1. apply dbq_run in H1 as [(Hd1 & Hs1 & Ht1) Hrows].
  destruct rows as [rows|e].
  2: { injection Hr as <- <-. exists []. split_and!; try congruence. by apply extends_same. }
  destruct Hrows as [(n & e & _ & ?)|(now & [= Hrows])]; [done|].
  destruct rows as [|row rows].
  { injection Hr as <- <-. exists []. split_and!; try congruence; [by apply extends_same|].
    intros _. exists pid, 0%nat. rewrite <-Hrows. done. }
  run_bind Hr as w2 loaded H2. apply observe_run in H2 as [_ (Hd2 & Hs2 & Ht2)].
  destruct loaded; simpl in Hr.
  2: { injection Hr as <- <-. exists []. split_and!; try congruence. apply extends_same; congruence. }
  run_bind Hr as w3 cfg H3. apply observe_run in H3 as [Hcfg (Hd3 & Hs3 & Ht3)].
  apply (deregister_rows_run _ _ _ (row :: rows)) in Hr as (Hi & Hs & l & He & Hw).
  exists l. split_and!; try congruence.
  - unfold extends in *. by rewrite Ht3, Ht2, Ht1 in He.
  - intros Hok. exists pid, (w_tick w2). rewrite <-Hrows, <-Hcfg. eauto.
Qed.

Definition record_write (a : Action) : Prop :=
  match a with ActStoragePut _ => True | _ => False end.

Lemma getInstanceRecord_silent t id : silent (getInstanceRecord t id).
Proof. unfold getInstanceRecord. prog. Qed.

(** Soft-deleting through the driver: done, or no change and a driver failure
    or a row that was not live. *)
Lemma delete_row_run id w w' r :
  dbx (fun now db => LocalDB.DeleteInstance now id db) w = (w', r) ->
  w_store w' = w_store w /\ w_trace w' = w_trace w /\ shrinks (w_db w) (w_db w') /\
  lb_instances (w_db w') = lb_instances (w_db w) /\
  ((forall n, env_db_fault n = None) -> GetInstance id (w_db w') = Err ErrNoRows) /\
  (forall id', id' ≠ id -> GetInstance id' (w_db w') = GetInstance id' (w_db w)).
Proof.
  intros (Hs & Ht & [(e & -> & Hd & Hw)|(now & db' & Hdel & -> & Hd)])%dbx_run; rewrite Hd.
  - split_and!; try done. intros Hnf. destruct Hw as [(n & Hn)|(now & Hdel)]; [by rewrite Hnf in Hn|].
    unfold LocalDB.DeleteInstance, update_or_norows in Hdel.
    destruct (affected (live_id id) (instances (w_db w))) eqn:Ha; [|done].
    destruct (GetInstance id (w_db w)) as [i|e'] eqn:Hg; [|by apply GetInstance_Err in Hg as [-> _]].
    apply GetInstance_Ok in Hg as (Hi & Hl). apply live_id_true in Hl.
    by rewrite (proj1 (affected_0 _ _) Ha i Hi) in Hl.
  - split_and!; try done.
    + by eapply shrinks_DeleteInstance.
    + by apply DeleteInstance_Ok in Hdel as [-> _].
    + intros _. destruct (GetInstance id db') as [i|e] eqn:Hg; [|by apply GetInstance_Err in Hg as [-> _]].
      apply GetInstance_Ok in Hg as (Hi & Hl). apply live_id_true in Hl.
      by rewrite (deleted_not_live _ _ _ _ _ Hdel Hi) in Hl.
    + intros id' Hne. apply DeleteInstance_Ok in Hdel as [-> _]. by apply GetInstance_upd_other.
Qed.

Lemma delete_cleanup_run t id w w' u :
  delete_cleanup t id w = (w', u) ->
  shrinks (w_db w) (w_db w') /\ (exists l, extends record_write w w' l) /\
  ((forall n, env_db_fault n = None) ->
     GetInstance id (w_db w') = Err ErrNoRows /\ GetLBInstancesForInstance id (w_db w') = []) /\
  (forall id', id' ≠ id -> GetInstance id' (w_db w') = GetInstance id' (w_db w)).
Proof.
  unfold delete_cleanup. intros Hr.
  run_bind Hr as w1 r1 H1. apply dbx_run in H1 as (_ & Ht1 & Hlb).
  run_bind Hr as w2 r2 H2. apply (silent_run _ _ _ _ (getInstanceRecord_silent _ _)) in H2 as (Hd2 & _ & Ht2).
  run_bind Hr as w3 r3 H3.
  assert (w_db w3 = w_db w2 /\ exists l, extends record_write w2 w3 l) as [Hd3 [l He]].
  { destruct r2 as [rec|e]; [|injection H3 as <- <-; eauto using extends_same].
    run_bind H3 as w4 t4 H4. apply observe_run in H4 as [_ (Hd4 & _ & Ht4)].
    apply storeInstanceRecord_run in H3 as [Hd [(e & _ & _ & _ & Ht)|(k & _ & _ & _ & Ht)]];
      (split; [congruence|]).
    - exists []. apply extends_same. congruence.
    - exists [ActStoragePut (record_key (ir_tenant rec) k)].
      split; [by rewrite Ht, Ht4|by repeat constructor]. }
  run_bind Hr as w4 r4 H4. apply delete_row_run in H4 as (_ & Ht4 & Hsh & Hlbs & Hdead & Hoth).
  injection Hr as <- <-.
  assert (instances (w_db w1) = instances (w_db w)) as Hi1.
  { destruct Hlb as [(e & _ & -> & _)|(now & db' & [= <-] & _ & ->)]; done. }
  assert (instances (w_db w3) = instances (w_db w)) as Hi3 by congruence. split_and!.
  - etransitivity; [by apply shrinks_instances|exact Hsh].
  - exists l. unfold extends in *. by rewrite Ht4, <-Ht1, <-Ht2.
  - intros Hnf. split; [auto|].
    destruct Hlb as [(e & _ & _ & [(n & Hn)|(now & ?)])|(now & db' & [= <-] & _ & Hd1)];
      [by rewrite Hnf in Hn|done|].
    unfold GetLBInstancesForInstance. rewrite Hlbs, Hd3, Hd2, Hd1. simpl. unfold sel, del.
    rewrite list_filter_filter. apply elem_of_nil_inv. intros x [[Hx Hx'] _]%list_elem_of_filter. congruence.
  - intros id' Hne. rewrite Hoth by done. apply GetInstance_ext. by rewrite Hi3.
Qed.

(** Every outcome of a deletion. *)
Inductive delete_outcome (tenant id : string) (w w' : World) (r : res unit) : Prop :=
  | delete_refused e : same_state w w' -> r = Err e -> delete_outcome tenant id w w' r
  | delete_blocked e inst l :
      GetInstance id (w_db w) = Ok inst -> i_tenant inst = tenant ->
      extends withdrawal w w' l -> shrinks (w_db w) (w_db w') ->
      (forall id', id' ≠ id -> GetInstance id' (w_db w') = GetInstance id' (w_db w)) ->
      r = Err e -> delete_outcome tenant id w w' r
  | delete_called inst pid l rest n m :
      GetInstance id (w_db w) = Ok inst -> i_tenant inst = tenant ->
      i_provider_id inst = Some pid -> pid ≠ "" ->
      w_trace w' = w_trace w ++ l ++ ActProviderDelete id pid :: rest ->
      Forall withdrawal l -> Forall record_write rest ->
      Forall (lb_withdrawn (env_config n) tenant pid l) (GetLBInstancesForInstance id (w_db w)) ->
      shrinks (w_db w) (w_db w') ->
      (forall id', id' ≠ id -> GetInstance id' (w_db w') = GetInstance id' (w_db w)) ->
      is_ok r = match env_provider_delete m id pid with Ok _ => true | Err e => err_is e ErrInstanceNotFound end ->
      ((forall n, env_db_fault n = None) -> is_ok r = true ->
         GetInstance id (w_db w') = Err ErrNoRows /\ GetLBInstancesForInstance id (w_db w') = []) ->
      delete_outcome tenant id w w' r.

(** Recording the deletion intent. *)
Lemma mark_drain_run inst id w w' r :
  (if bool_decide (i_drain_started_at inst = None)
   then dbx (fun now db => MarkDrainStarted now id db) else mret (Ok tt)) w = (w', r) ->
  w_store w' = w_store w /\ w_trace w' = w_trace w /\ shrinks (w_db w) (w_db w') /\
  lb_instances (w_db w') = lb_instances (w_db w) /\
  (is_ok r = false -> w_db w' = w_db w) /\
  (forall id', id' ≠ id -> GetInstance id' (w_db w') = GetInstance id' (w_db w)).
Proof.
  intros Hr. run_step Hr; [|injection Hr as <- <-; by split_and!].
  apply dbx_run in Hr as (Hs & Ht & [(e & -> & Hd & _)|(now & db' & Hm & -> & Hd)]); rewrite Hd;
    [by split_and!|]. split_and!; try done.
  - by eapply shrinks_MarkDrainStarted.
  - by apply update_or_norows_Ok in Hm as [-> _].
  - intros id' Hne. apply update_or_norows_Ok in Hm as [-> _]. by apply GetInstance_upd_other.
Qed.

(** The provider call and the cleanup behind it. *)
Lemma delete_from_provider_run tenant id pid w w' r :
  delete_from_provider tenant id pid w = (w', r) ->
  shrinks (w_db w) (w_db w') /\
  (forall id', id' ≠ id -> GetInstance id' (w_db w') = GetInstance id' (w_db w)) /\
  (exists rest, w_trace w' = w_trace w ++ ActProviderDelete id pid :: rest /\ Forall record_write rest) /\
  (exists m, is_ok r = bool_decide (delete_failure (env_provider_delete m id pid) = None)) /\
  ((forall n, env_db_fault n = None) -> is_ok r = true ->
     GetInstance id (w_db w') = Err ErrNoRows /\ GetLBInstancesForInstance id (w_db w') = []).
Proof.
  unfold delete_from_provider. intros Hr. run_bind Hr as w1 u1 H1. apply emit_run in H1 as (Hd1 & _ & Ht1).
  run_bind Hr as w2 d H2. apply observe_run in H2 as [Hd (Hd2 & _ & Ht2)].
  destruct (delete_failure d) as [e|] eqn:Hf.
  - injection Hr as <- <-. rewrite Hd2, Hd1. split_and!; try done.
    + exists []. split; [by rewrite Ht2, Ht1|constructor].
    + exists (w_tick w1). by rewrite <-Hd, Hf.
  - run_bind Hr as w3 u3 H3. injection Hr as <- <-.
    apply delete_cleanup_run in H3 as (Hsh & (l & Htr & Hl) & Hdead & Hoth).
    rewrite Hd2, Hd1 in *. split_and!; auto.
    + exists l. split; [|done]. by rewrite Htr, Ht2, Ht1, <-app_assoc.
    + exists (w_tick w1). by rewrite <-Hd, Hf.
Qed.

Lemma DeleteInstance_run tenant id w w' r :
  Instances.DeleteInstance tenant id w = (w', r) -> delete_outcome tenant id w w' r.
Proof.
  unfold Instances.DeleteInstance. intros Hr. run_bind Hr as w1 g H1. apply dbq_run in H1 as [Hs1 Hg].
  destruct g as [inst|e]; [|injection Hr as <- <-; by eapply delete_refused].
  destruct Hg as [(? & ? & _ & ?)|(_ & Hg)]; [done|]. symmetry in Hg.
  case_bool_decide as Hten; simpl in Hr; [|injection Hr as <- <-; by eapply delete_refused].
  destruct (i_provider_id inst) as [pid|] eqn:Hpid; [|injection Hr as <- <-; by eapply delete_refused].
  destruct (decide (pid = "")) as [->|Hne]; [injection Hr as <- <-; by eapply delete_refused|].
  destruct pid as [|c pid']; [done|]. set (pid := String c pid') in *.
  run_bind Hr as w2 m H2. apply mark_drain_run in H2 as (Hs2 & Ht2 & Hsh2 & Hlb2 & Hno2 & Hoth2).
  destruct Hs1 as (Hd1 & Hs1 & Ht1). rewrite Hd1 in *. destruct m as [[]|e].
  2: { injection Hr as <- <-. eapply delete_refused; [|done]. unfold same_state. split_and!; try congruence. auto. }
  run_bind Hr as w3 wr H3. apply deregisterInstanceFromLB_run in H3 as (l & Hi3 & Hs3 & [Htr3 Hl] & Hw).
  assert (i_id inst = id) as Hid by (by apply GetInstance_Ok in Hg as (_ & ? & _)).
  assert (forall id', id' ≠ id -> GetInstance id' (w_db w3) = GetInstance id' (w_db w)) as Hoth3.
  { intros id' Hne'. rewrite <-Hoth2 by done. apply GetInstance_ext. by rewrite Hi3. }
  assert (shrinks (w_db w) (w_db w3)) as Hsh3.
  { etransitivity; [exact Hsh2|by apply shrinks_instances]. }
  destruct wr as [[]|e].
  2: { injection Hr as <- <-. eapply (delete_blocked _ _ _ _ _ _ inst l); try done.
       split; [by rewrite Htr3, Ht2, Ht1|done]. }
  destruct (Hw eq_refl) as (pid0 & n & Hp0 & Hfa). assert (pid0 = pid) as -> by congruence.
  apply delete_from_provider_run in Hr as (Hsh & Hoth & (rest & Htr & Hrest) & (m & Hm) & Hdead).
  eapply (delete_called _ _ _ _ _ inst pid l rest n m); try done.
  - rewrite Htr, Htr3, Ht2, Ht1, <-app_assoc. done.
  - rewrite Hid in Hfa. unfold GetLBInstancesForInstance in *. rewrite Hlb2 in Hfa. by rewrite <-Hten.
  - by etransitivity.
  - intros id' Hne'. rewrite Hoth by done. auto.
  - rewrite Hm. unfold delete_failure. by destruct (env_provider_delete m id pid) as [|e']; [|destruct (err_is e' _)].
Qed.

(** C2. The deletion barrier.  A VM is deleted at the provider only for a live
    instance of the calling tenant with a provider identifier, and only after
    every load balancer the instance has a row for was observed, in this very
    call and under one configuration, to have let go of it: deregistered, or
    draining while the tenant sleeps (tunnels have no target).  No target is
    registered in between.  If the call stops earlier it returns an error. *)
Theorem delete_behind_barrier tenant id w :
  match Instances.DeleteInstance tenant id w with
  | (w', r) =>
    (is_ok r = false /\ exists l, w_trace w' = w_trace w ++ l /\ Forall withdrawal l) \/
    exists inst pid l rest n,
      GetInstance id (w_db w) = Ok inst /\ i_tenant inst = tenant /\
      i_provider_id inst = Some pid /\ pid ≠ "" /\
      w_trace w' = w_trace w ++ l ++ ActProviderDelete id pid :: rest /\
      Forall withdrawal l /\ Forall record_write rest /\
      Forall (lb_withdrawn (env_config n) tenant pid l) (GetLBInstancesForInstance id (w_db w))
  end.
Proof.
  destruct (Instances.DeleteInstance tenant id w) as [w' r] eqn:Hr. apply DeleteInstance_run in Hr.
  destruct Hr as [e (_ & _ & Ht) ->|e inst l _ _ [Ht Hl] _ _ ->|inst pid l rest n m].
  - left. split; [done|]. exists []. by rewrite app_nil_r.
  - left. eauto.
  - right. exists inst, pid, l, rest, n. by split_and!.
Qed.

(** Tenant isolation: asking for an instance of another tenant (deletion,
    status or validation) is refused with an error and changes nothing. *)
Theorem tenant_isolation tenant id w inst :
  GetInstance id (w_db w) = Ok inst -> i_tenant inst ≠ tenant ->
  (same_state w (Instances.DeleteInstance tenant id w).1 /\
   is_ok (Instances.DeleteInstance tenant id w).2 = false) /\
  (same_state w (GetInstanceStatus tenant id w).1 /\ is_ok (GetInstanceStatus tenant id w).2 = false) /\
  (same_state w (ValidateInstanceTenant tenant id w).1 /\ is_ok (ValidateInstanceTenant tenant id w).2 = false).
Proof.
  intros Hg Hne. unfold Instances.DeleteInstance, GetInstanceStatus, ValidateInstanceTenant.
  rewrite !M_bind_eq. destruct (dbq _ w) as [w1 g] eqn:H1. apply dbq_run in H1 as [Hs1 Hq]. simpl.
  destruct Hq as [(n & e & _ & ->)|(_ & ->)]; [by split_and!|]. rewrite Hg.
  by rewrite bool_decide_false by done.
Qed.

(** A successful deletion, when the cache accepts its statements, leaves
    neither a live row nor a load-balancer row of the instance, touches no other
    instance, and the provider had accepted the deletion or no longer knew the
    VM. *)
Theorem delete_success tenant id w :
  (forall n, env_db_fault n = None) ->
  is_ok (Instances.DeleteInstance tenant id w).2 = true ->
  let db' := w_db (Instances.DeleteInstance tenant id w).1 in
  GetInstance id db' = Err ErrNoRows /\ GetLBInstancesForInstance id db' = [] /\
  (forall id', id' ≠ id -> GetInstance id' db' = GetInstance id' (w_db w)) /\
  (exists m pid, match env_provider_delete m id pid with
                 | Ok _ => True | Err e => err_is e ErrInstanceNotFound = true end).
Proof.
  intros Hnf Hok. destruct (Instances.DeleteInstance tenant id w) as [w' r] eqn:Hr.
  apply DeleteInstance_run in Hr. simpl in *.
  destruct Hr as [e _ ->|e inst l _ _ _ _ _ ->|inst pid l rest n m _ _ _ _ _ _ _ _ _ Hoth Hm Hdead]; [done|done|].
  destruct (Hdead Hnf Hok) as [H1 H2]. split_and!; try done.
  exists m, pid. rewrite Hok in Hm. by destruct (env_provider_delete m id pid).
Qed.

(** The interface law clients use: a deletion never grows a group. *)
Lemma delete_shrinks tenant id w w' r :
  Instances.DeleteInstance tenant id w = (w', r) -> shrinks (w_db w) (w_db w').
Proof.
  intros Hr%DeleteInstance_run. destruct Hr as [e (Hd & _) _| |]; [|done|done].
  rewrite Hd. reflexivity.
Qed.
End Delete.

Section Register.
Context `{Env}.
(** The state at the start of the reconciliation. *)
Variable w0 : World.

(** A registrable instance: live, not draining, with a provider identifier, of
    a tenant whose registrations were seen unblocked. *)
Definition registrable (i : Instance) : Prop :=
  i ∈ instances (w_db w0) /\ i_deleted_at i = None /\ i_drain_started_at i = None /\
  exists n, env_registration_blocked n (i_tenant i) = false.

Definition registration_ok (a : Action) : Prop :=
  match a with
  | ActLBState _ _ => True
  | ActRegisterLB req => exists i, registrable i /\ i_provider_id i = Some (lr_provider_instance_id req)
  | _ => False
  end.

Definition reg_inv (w : World) : Prop :=
  instances (w_db w) = instances (w_db w0) /\ exists l, extends registration_ok w0 w l.

Lemma reg_inv_silent {A} (m : M World A) : silent m -> preserves reg_inv m.
Proof.
  intros Hs w [Hi (l & Ht & Hl)]. destruct (Hs w) as (Hd & _ & Ht').
  split; [by rewrite Hd|]. exists l. split; [by rewrite Ht'|done].
Qed.

Lemma reg_inv_upsert k id s : preserves reg_inv (dbx (fun now db => UpsertLBInstance now k id s db)).
Proof.
  intros w [Hi (l & Ht & Hl)]. destruct (dbx _ w) as [w' r] eqn:Hr. apply upsert_lb_run in Hr as (Hi' & _ & Ht').
  simpl. split; [by rewrite Hi'|]. exists l. split; [by simpl; rewrite Ht'|done].
Qed.

Lemma reg_inv_emit a : registration_ok a -> preserves reg_inv (emit a).
Proof.
  intros Ha w [Hi (l & Ht & Hl)]. split; [done|]. exists (l ++ [a]).
  split; [by simpl; rewrite Ht, app_assoc|apply Forall_app; auto].
Qed.

Lemma reg_inv_lb_state req : preserves reg_inv (lb_state req).
Proof.
  unfold lb_state. apply preserves_bind; [apply reg_inv_silent, silent_observe|]. intros st.
  apply preserves_bind; [by apply reg_inv_emit|]. intros _. apply preserves_ret.
Qed.

Lemma reg_inv_lb_register req :
  (exists i, registrable i /\ i_provider_id i = Some (lr_provider_instance_id req)) ->
  preserves reg_inv (lb_register req).
Proof.
  intros Hi. unfold lb_register. apply preserves_bind; [by apply reg_inv_emit|].
  intros _. apply reg_inv_silent, silent_observe.
Qed.

Lemma reg_inv_target cfg inst k : registrable inst -> preserves reg_inv (reconcileLoadBalancerTarget cfg inst k).
Proof.
  intros Hreg. unfold reconcileLoadBalancerTarget, record_if_healthy.
  repeat first
    [ apply preserves_ret | apply reg_inv_lb_state | apply reg_inv_upsert
    | apply reg_inv_lb_register; by eauto
    | apply preserves_bind; [|intros ?]
    | match goal with |- preserves _ (match ?x with _ => _ end) => destruct x eqn:? end ].
Qed.

Lemma reg_inv_group_lbs cfg inst lbs : registrable inst -> preserves reg_inv (register_group_lbs cfg inst lbs).
Proof.
  intros Hreg. apply preserves_for_each. intros k _. apply preserves_bind; [apply reg_inv_upsert|].
  intros [|]; [|apply preserves_ret]. apply preserves_bind; [by apply reg_inv_target|]. intros _. apply preserves_ret.
Qed.

Lemma reg_inv_retry cfg target : preserves reg_inv (retry_pending_lb cfg target).
Proof.
  intros w Hinv. unfold retry_pending_lb. rewrite M_bind_eq. destruct (dbq _ w) as [w1 g] eqn:H1.
  assert (reg_inv w1) as Hinv1.
  { pose proof (reg_inv_silent _ (silent_dbq (fun _ db => GetInstance (lb_instance_id target) db)) w Hinv) as Hp.
    by rewrite H1 in Hp. }
  apply dbq_run in H1 as [_ Hq]. simpl. destruct g as [inst|e]; [|done].
  destruct Hq as [(? & ? & _ & ?)|(_ & Hg)]; [done|]. symmetry in Hg.
  apply GetInstance_Ok in Hg as (Hin & _ & Hdel). rewrite (proj1 Hinv) in Hin.
  destruct (bool_decide _ || _) eqn:Hb; [done|].
  apply orb_false_iff in Hb as [_ Hdr%negb_false_iff%bool_decide_eq_true].
  rewrite M_bind_eq. simpl. destruct (env_registration_blocked (w_tick w1) (i_tenant inst)) eqn:Hbl; [done|].
  rewrite M_bind_eq. simpl. apply (reg_inv_target cfg inst (lb_key target)); [|done].
  split_and!; eauto.
Qed.

Lemma reg_inv_retries cfg : preserves reg_inv (retry_pending_lbs cfg).
Proof.
  unfold retry_pending_lbs. apply preserves_bind; [apply reg_inv_silent, silent_dbq|].
  intros [targets|e]; [|apply preserves_ret]. apply preserves_bind; [|intros _; apply preserves_ret].
  apply preserves_for_each. intros t _. apply reg_inv_retry.
Qed.
End Register.

Section RegisterTheorems.
Context `{Env}.

Lemma ReconcileLoadBalancers_inv id w : reg_inv w (ReconcileLoadBalancers id w).1.
Proof.
  assert (reg_inv w w) as Hinv by (split; [done|]; exists []; by apply extends_same).
  unfold ReconcileLoadBalancers. rewrite M_bind_eq. destruct (dbq _ w) as [w1 g] eqn:H1.
  assert (reg_inv w w1) as Hinv1.
  { pose proof (reg_inv_silent w _ (silent_dbq (fun _ db => GetInstance id db)) w Hinv) as Hp. by rewrite H1 in Hp. }
  apply dbq_run in H1 as [_ Hq]. simpl. destruct g as [inst|e]; [|done].
  destruct Hq as [(? & ? & _ & ?)|(_ & Hg)]; [done|]. symmetry in Hg.
  apply GetInstance_Ok in Hg as (Hin & _ & Hdel).
  case_bool_decide as Hdr; [simpl|done].
  rewrite M_bind_eq. simpl. destruct (env_config_loaded _); [simpl|done].
  rewrite M_bind_eq. simpl. case_bool_decide; [done|].
  rewrite M_bind_eq. simpl. destruct (env_registration_blocked _ _) eqn:Hbl.
  { by apply (reg_inv_retries w). }
  rewrite M_bind_eq. set (w2 := {| w1 with w_tick := _ |}).
  pose proof (reg_inv_silent w _ (silent_get_group (i_tenant inst) (i_group inst)) w2 Hinv1) as Hinv2.
  destruct (get_group _ _ w2) as [w3 [grp|e]]; simpl in *; [|done].
  rewrite M_bind_eq. apply (reg_inv_retries w). apply (reg_inv_group_lbs w); [|done].
  split_and!; eauto.
Qed.

(** C7. Load-balancer registration never races a deletion or a sleep: every
    target registered by [ReconcileLoadBalancers], for the instance it was
    called for or for a retried one, belongs to a live instance that has not
    started draining (deletion records that intent before it withdraws targets)
    and whose tenant was observed not to block registrations; no instance row is
    modified. *)
Theorem registration_safe id w :
  match ReconcileLoadBalancers id w with
  | (w', _) =>
    instances (w_db w') = instances (w_db w) /\
    exists l, w_trace w' = w_trace w ++ l /\
      forall req, ActRegisterLB req ∈ l ->
        exists i n, i ∈ instances (w_db w) /\ i_deleted_at i = None /\ i_drain_started_at i = None /\
          i_provider_id i = Some (lr_provider_instance_id req) /\
          env_registration_blocked n (i_tenant i) = false
  end.
Proof.
  pose proof (ReconcileLoadBalancers_inv id w) as Hinv.
  destruct (ReconcileLoadBalancers id w) as [w' r]. destruct Hinv as [Hi (l & Ht & Hl)].
  split; [done|]. exists l. split; [done|]. intros req Hin.
  rewrite Forall_forall in Hl. destruct (Hl _ Hin) as (i & (? & ? & ? & n & ?) & ?).
  exists i, n. by split_and!.
Qed.
End RegisterTheorems.

Section Placement.
Context `{Env}.

(** The provider was asked about [id] and did not report capacity. *)
Definition refused (id : string) : Prop := exists n, env_subnet_capacity n id ≠ Ok true.

Lemma first_with_capacity_run skip l w w' o :
  first_with_capacity skip l w = (w', o) ->
  match o with
  | Some id => skip id = false /\ (exists n, env_subnet_capacity n id = Ok true) /\
      exists l1 l2, l = l1 ++ id :: l2 /\ forall x, x ∈ l1 -> skip x = false -> refused x
  | None => forall x, x ∈ l -> skip x = false -> refused x
  end.
Proof.
  revert w. induction l as [|y l IH]; intros w Hr; simpl in Hr; [injection Hr as <- <-; set_solver|].
  assert (forall w1, first_with_capacity skip l w1 = (w', o) -> (skip y = false -> refused y) ->
    match o with
    | Some id => skip id = false /\ (exists n, env_subnet_capacity n id = Ok true) /\
        exists l1 l2, y :: l = l1 ++ id :: l2 /\ forall x, x ∈ l1 -> skip x = false -> refused x
    | None => forall x, x ∈ y :: l -> skip x = false -> refused x
    end) as Hnext.
  { intros w1 H1 Hy. apply IH in H1. destruct o as [id|].
    - destruct H1 as (? & ? & l1 & l2 & -> & Hl1). split_and!; [done|done|].
      exists (y :: l1), l2. split; [done|]. intros x [->|Hx]%elem_of_cons; auto.
    - intros x [->|Hx]%elem_of_cons; auto. }
  destruct (skip y) eqn:Hskip; [eapply Hnext; [exact Hr|done]|].
  run_bind Hr as w1 c H1. apply observe_run in H1 as [-> _].
  destruct (env_subnet_capacity (w_tick w) y) as [[]|e] eqn:Hc.
  - injection Hr as <- <-. split_and!; [done|by eauto|]. exists [], l. split; [done|]. set_solver.
  - eapply Hnext; [exact Hr|]. intros _. exists (w_tick w). by rewrite Hc.
  - eapply Hnext; [exact Hr|]. intros _. exists (w_tick w). by rewrite Hc.
Qed.

#[local] Instance cand_le_total counts : Total (cand_le counts).
Proof. intros a b. unfold cand_le. destruct (total String.le a b); lia || (destruct (Z.lt_trichotomy (default 0 (counts !! a)) (default 0 (counts !! b))) as [|[|]]; naive_solver). Qed.

#[local] Instance cand_le_trans counts : Transitive (cand_le counts).
Proof.
  intros a b c [|[? ?]] [|[? ?]]; unfold cand_le; try (left; lia).
  right. split; [congruence|]. by transitivity b.
Qed.

(** In a sorted list, what is strictly before an element precedes it. *)
Lemma sorted_before {A} (R : A -> A -> Prop) l1 x l2 y :
  StronglySorted R (l1 ++ x :: l2) -> y ∈ l1 ++ x :: l2 -> y ≠ x -> ~ R x y -> y ∈ l1.
Proof.
  intros Hs [Hy|[->|Hy]%elem_of_cons]%elem_of_app Hne Hn; [done|done|].
  destruct Hn. induction l1 as [|z l1 IH]; simpl in Hs; inversion_clear Hs as [|? ? Hs' Hf]; [|auto].
  rewrite Forall_forall in Hf. auto.
Qed.

(** The subnet counter counts the tenant's active rows. *)
Lemma CountInstancesBySubnet_spec tenant db s :
  default 0 (CountInstancesBySubnet tenant db !! s) =
  Z.of_nat (affected (fun i => bool_decide (i_tenant i = tenant) && active i &&
                               bool_decide (i_subnet_id i = s)) (instances db)).
Proof.
  unfold CountInstancesBySubnet, affected, sel.
  induction (instances db) as [|i l IH]; [done|]. rewrite !filter_cons.
  destruct (bool_decide (i_tenant i = tenant) && active i) eqn:Ha; simpl; [|exact IH].
  destruct (decide (i_subnet_id i = s)) as [<-|Hne].
  - rewrite lookup_insert_eq, bool_decide_true by done. simpl. rewrite IH. lia.
  - by rewrite lookup_insert_ne, bool_decide_false by done.
Qed.

(** Subnet placement.  The chosen subnet is in the pool, reported capacity
    and, in the fallback round, already holds an instance of the tenant.  While
    some eligible subnet holds fewer than 53 instances the choice is the first
    such subnet, in identifier order, that has capacity; once the choice is a
    subnet at or above that limit, every eligible subnet below the limit and
    every less loaded eligible subnet was refused by the provider.  A failure
    means every eligible subnet was refused. *)
Theorem subnet_selection cfg tenant pool po ids w :
  ResolveSubnetKey cfg pool = Ok ids ->
  (forall n, env_db_fault n = None) ->
  let count s := Z.of_nat (affected (fun i => bool_decide (i_tenant i = tenant) && active i &&
                               bool_decide (i_subnet_id i = s)) (instances (w_db w))) in
  let eligible s := s ∈ ids /\ (po = true -> count s ≠ 0) in
  match (selectSubnetWithCapacity cfg tenant pool po w).2 with
  | Ok id =>
      eligible id /\ (exists n, env_subnet_capacity n id = Ok true) /\
      (count id < 53 -> forall s, eligible s -> count s < 53 -> s ≠ id -> ~ String.le id s -> refused s) /\
      (53 <= count id -> forall s, eligible s -> count s < 53 \/ count s < count id -> refused s)
  | Err _ => forall s, eligible s -> refused s
  end.
Proof.
  intros Hids Hnf count eligible. unfold selectSubnetWithCapacity. rewrite Hids.
  destruct ids as [|id0 ids0]; [by intros s [Hs%elem_of_nil _]|].
  cbv beta iota. set (ids := id0 :: ids0) in *. clearbody ids.
  rewrite M_bind_eq. destruct (dbq _ w) as [w1 q] eqn:Hq. apply dbq_run in Hq as [_ Hq]. simpl.
  destruct Hq as [(n & e & Hn & _)|(_ & ->)]; [by rewrite Hnf in Hn|].
  set (counts := CountInstancesBySubnet tenant (w_db w)).
  assert (forall s, default 0 (counts !! s) = count s) as Hcount by (intros s; apply CountInstancesBySubnet_spec).
  assert (forall s, (po && bool_decide (default 0 (counts !! s) = 0)) = false <-> (po = true -> count s ≠ 0)) as Hpo.
  { intros s. rewrite Hcount. rewrite andb_false_iff, bool_decide_eq_false. destruct po; naive_solver. }
  rewrite M_bind_eq. destruct (first_with_capacity _ (merge_sort String.le ids) w1) as [w2 o1] eqn:H1.
  apply first_with_capacity_run in H1. simpl. destruct o1 as [id|].
  { destruct H1 as (Hskip & Hcap & l1 & l2 & Hl & Hl1). simpl.
    apply orb_false_iff in Hskip as [Hlim Hpo1]. apply bool_decide_eq_false in Hlim. unfold fillLimit in Hlim.
    rewrite Hcount in Hlim. assert (id ∈ ids) as Hin.
    { rewrite <-(merge_sort_Permutation String.le ids), Hl. set_solver. }
    split_and!; [split; [done|by apply Hpo]|done| |lia].
    intros _ s [Hs Hspo] Hlt Hne Hle. apply Hl1.
    - eapply sorted_before; [rewrite <-Hl; apply StronglySorted_merge_sort; apply _| |done|done].
      by rewrite <-Hl, merge_sort_Permutation.
    - apply orb_false_iff. split; [apply bool_decide_eq_false; unfold fillLimit; rewrite Hcount; lia|by apply Hpo]. }
  assert (forall s, eligible s -> count s < 53 -> refused s) as Hfull.
  { intros s [Hs Hspo] Hlt. apply H1; [by rewrite merge_sort_Permutation|].
    apply orb_false_iff. split; [apply bool_decide_eq_false; unfold fillLimit; rewrite Hcount; lia|by apply Hpo]. }
  rewrite M_bind_eq. destruct (first_with_capacity _ (merge_sort (cand_le counts) _) w2) as [w3 o2] eqn:H2.
  apply first_with_capacity_run in H2. simpl. destruct o2 as [id|]; simpl.
  - destruct H2 as (Hskip & Hcap & l1 & l2 & Hl & Hl1).
    assert (id ∈ ids) as Hin.
    { rewrite <-(merge_sort_Permutation String.le ids),
        <-(merge_sort_Permutation (cand_le counts) (merge_sort String.le ids)), Hl. set_solver. }
    split_and!; [split; [done|by apply Hpo]|done|intros ? s Hel ? _ _; by apply Hfull|].
    intros Hge s Hel [Hlt|Hlt]; [by apply Hfull|]. destruct Hel as [Hs Hspo]. apply Hl1; [|by apply Hpo].
    eapply sorted_before; [rewrite <-Hl; apply StronglySorted_merge_sort; apply _| | |].
    + by rewrite <-Hl, !merge_sort_Permutation.
    + intros ->. lia.
    + unfold cand_le. rewrite !Hcount. lia.
  - intros s [Hs Hspo]. apply H2; [by rewrite !merge_sort_Permutation|by apply Hpo].
Qed.
End Placement.

Section Rebuild.
Context `{Env}.

(** ** Seeding from object storage *)

(** [l] has a row [id] stamped with the sync time. *)
Definition synced (t : Z) (id : string) (l : list Instance) : Prop :=
  exists i, i ∈ l /\ i_id i = id /\ i_updated_at i = Some t.

Lemma seed_s3_row_synced t inst l l' :
  seed_s3_row t inst l = Ok l' ->
  synced t (i_id inst) l' /\ (forall id, synced t id l -> synced t id l').
Proof.
  unfold seed_s3_row. case_match; [done|]. case_bool_decide as Hin; intros [= <-].
  - split.
    + apply list_elem_of_fmap in Hin as (i & Hid & Hi). eexists. split; [|split].
      * apply elem_of_upd. exists i. split; [done|reflexivity].
      * rewrite bool_decide_true by done. simpl. done.
      * rewrite bool_decide_true by done. done.
    + intros id (i & Hi & Hid & Hu). eexists. split; [|split].
      * apply elem_of_upd. exists i. split; [done|reflexivity].
      * by case_bool_decide.
      * by case_bool_decide.
  - split; [eexists; split; [apply elem_of_app; right; apply list_elem_of_singleton; reflexivity|done]|].
    intros id (i & Hi & ?). exists i. split; [set_solver|done].
Qed.

Lemma seed_s3_rows_synced t insts l l' :
  seed_s3_rows t insts l = Ok l' ->
  (forall inst, inst ∈ insts -> synced t (i_id inst) l') /\ (forall id, synced t id l -> synced t id l').
Proof.
  revert l. induction insts as [|inst insts IH]; intros l Hs; simpl in Hs.
  { injection Hs as <-. set_solver. }
  unfold mbind, res_bind in Hs. destruct (seed_s3_row t inst l) as [l1|e] eqn:H1; [|done].
  apply seed_s3_row_synced in H1 as [Hnew Hold]. apply IH in Hs as [Hin Hmono].
  split; [|auto]. intros x [->|Hx]%elem_of_cons; auto.
Qed.

Lemma SeedFromS3Data_synced t insts db db' :
  SeedFromS3Data t insts db = Ok db' ->
  forall inst, inst ∈ insts -> synced t (i_id inst) (instances db').
Proof.
  unfold SeedFromS3Data, mbind, res_bind. destruct (seed_s3_rows t insts (instances db)) as [l|e] eqn:Hl; [|done].
  apply seed_s3_rows_synced in Hl as [Hin _]. unfold delete_instances. case_match; [done|]. intros [= <-] inst Hi.
  destruct (Hin inst Hi) as (i & Hil & Hid & Hu). exists i. split; [|done]. simpl. apply elem_of_del.
  split; [|done]. rewrite Hu. simpl. rewrite bool_decide_false by lia. by rewrite andb_false_r.
Qed.

(** A read of the record under [k] failed, or what it read could not be decoded. *)
Definition read_failed (k : string) : Prop :=
  (exists n, env_store_fault n ≠ None) \/ (exists n, env_unmarshal n k ≠ None).

Lemma unmarshal_record_run k data w w' r :
  unmarshal_record k data w = (w', r) -> same_state w w' /\ (r = Ok data \/ exists n, env_unmarshal n k ≠ None).
Proof.
  unfold unmarshal_record. intros Hr. run_bind Hr as w1 bad H1. apply observe_run in H1 as [Hb H1].
  destruct bad as [e|]; injection Hr as <- <-; (split; [done|]); [right|by left].
  exists (w_tick w). by rewrite <-Hb.
Qed.

Lemma load_records_run keys w w' insts :
  load_records keys w = (w', insts) ->
  same_state w w' /\
  (forall k rec, k ∈ keys -> w_store w !! k = Some rec -> row_of_record rec ∈ insts \/ read_failed k).
Proof.
  revert w insts. induction keys as [|k keys IH]; intros w insts Hr; simpl in Hr.
  { injection Hr as <- <-. split; [done|]. set_solver. }
  run_bind Hr as w1 r H1.
  assert (same_state w w1 /\ (forall data, r = Ok data -> w_store w !! k = Some data) /\
    (forall e, r = Err e -> (exists n, env_store_fault n ≠ None) \/ w_store w !! k = None)) as (Hs1 & Hok & Herr).
  { split; [by apply store_get_run in H1 as [? _]|]. unfold store_get in H1. run_bind H1 as w3 fault H3.
    apply observe_run in H3 as [Hf (_ & Hst3 & _)]. destruct fault as [e|]; injection H1 as <- <-.
    - split; [done|]. intros e' _. left. exists (w_tick w). by rewrite <-Hf.
    - rewrite Hst3. destruct (w_store w !! k); split; intros ? [=]; subst; auto. }
  pose proof Hs1 as (_ & Hst & _).
  destruct r as [data|e].
  - run_bind Hr as w2 u H2. apply unmarshal_record_run in H2 as [Hs2 Hu]. pose proof Hs2 as (_ & Hst2 & _).
    specialize (Hok data eq_refl). destruct u as [rec0|e].
    + run_bind Hr as w3 rest H3. injection Hr as <- <-. apply IH in H3 as [Hs3 Hrest].
      split; [eapply same_state_trans, same_state_trans; [exact Hs1|exact Hs2|exact Hs3]|].
      intros k' rec [->|Hk]%elem_of_cons Hrec.
      * destruct Hu as [[= ->]|Hn]; [left; assert (rec = data) as -> by congruence; set_solver|right; by right].
      * destruct (Hrest k' rec Hk); [congruence|left; set_solver|by right].
    + apply IH in Hr as [Hs3 Hrest].
      split; [eapply same_state_trans, same_state_trans; [exact Hs1|exact Hs2|exact Hs3]|].
      intros k' rec [->|Hk]%elem_of_cons Hrec; [|apply Hrest; [done|congruence]].
      destruct Hu as [[=]|Hn]. right. by right.
  - apply IH in Hr as [Hs3 Hrest]. split; [by eapply same_state_trans|].
    intros k' rec [->|Hk]%elem_of_cons Hrec; [|apply Hrest; [done|congruence]].
    destruct (Herr e eq_refl) as [Hn|Hnone]; [right; by left|congruence].
Qed.

(** Records survive: every listed record has a row after the seed, unless its read
    failed. *)
Lemma seedFromS3_run w w' r :
  seedFromS3 w = (w', r) ->
  w_store w' = w_store w /\ w_trace w' = w_trace w /\ (db_wf (w_db w) -> db_wf (w_db w')) /\
  (r = Ok tt ->
     forall k rec, w_store w !! k = Some rec -> String.prefix "instance/" k = true ->
       (exists i, i ∈ instances (w_db w') /\ i_id i = ir_instance_id rec) \/ read_failed k).
Proof.
  unfold seedFromS3, store_list. intros Hr. run_bind Hr as w1 kr H1. run_bind H1 as w2 f H2.
  apply observe_run in H2 as [_ (Hd2 & Hs2 & Ht2)].
  destruct f as [e|]; injection H1 as <- <-; [injection Hr as <- <-; rewrite Hd2; by split_and!|].
  run_bind Hr as w3 insts H3. apply load_records_run in H3 as [(Hd3 & Hs3 & Ht3) Hload].
  assert (w_store w3 = w_store w) as Hs by congruence. assert (w_trace w3 = w_trace w) as Ht by congruence.
  assert (w_db w3 = w_db w) as Hd by congruence.
  assert (forall k rec, w_store w !! k = Some rec ->
    String.prefix "instance/" k = true -> row_of_record rec ∈ insts \/ read_failed k) as Hall.
  { intros k rec Hk Hpre. eapply Hload; [|by rewrite Hs2].
    rewrite merge_sort_Permutation, list_elem_of_filter, elem_of_elements, elem_of_dom, Hs2.
    eauto. }
  destruct insts as [|i0 insts'].
  { injection Hr as <- <-. rewrite Hd, Hs, Ht. split_and!; try done.
    intros _ k rec Hk Hpre. right. by destruct (Hall k rec Hk Hpre) as [?%elem_of_nil|?]. }
  run_bind Hr as w4 u H4. apply dbx_run in H4 as (Hs4 & Ht4 & Hseed). rewrite Hd in Hseed.
  destruct Hseed as [(e & -> & Hd4 & _)|(now & db' & Hseed & -> & Hd4)]; injection Hr as <- <-; rewrite Hd4.
  - split_and!; try done; congruence.
  - split_and!; try congruence; [intros; by eapply db_wf_seed_s3|]. intros _ k rec Hk Hpre.
    destruct (Hall k rec Hk Hpre) as [Hin|]; [left|by right].
    destruct (SeedFromS3Data_synced _ _ _ _ Hseed _ Hin) as (i & ? & ? & _). eauto.
Qed.

(** ** Seeding from the provider *)

(** [l] is a complete listing the provider gave, page by page, from [token]. *)
Inductive provider_listing : string -> list InstanceStatus -> Prop :=
  | listing_last n token page :
      env_provider_list n token = Ok (page, "") -> provider_listing token page
  | listing_more n token page next l :
      env_provider_list n token = Ok (page, next) -> next ≠ "" -> provider_listing next l ->
      provider_listing token (page ++ l).

Lemma list_pages_run fuel token w w' r :
  list_pages fuel token w = (w', r) ->
  same_state w w' /\ (forall l, r = Some (Ok l) -> provider_listing token l).
Proof.
  revert token w r. induction fuel as [|fuel IH]; intros token w r Hr; simpl in Hr; [by injection Hr as <- <-|].
  run_bind Hr as w1 pr H1. apply observe_run in H1 as [Hpr Hs1].
  destruct pr as [[page next]|e]; [|injection Hr as <- <-; by split].
  case_bool_decide as Hn.
  - injection Hr as <- <-. subst next. split; [done|]. intros l [= <-]. by eapply listing_last.
  - run_bind Hr as w2 rest H2. injection Hr as <- <-. apply IH in H2 as [Hs2 Hl].
    split; [by eapply same_state_trans|]. destruct rest as [[l0|]|]; intros l [= <-].
    eapply listing_more; eauto.
Qed.

(** The pagination loop ends when the provider's tokens make progress. *)
Lemma list_pages_terminates (rank : string -> nat) fuel token w :
  (forall n t page next, env_provider_list n t = Ok (page, next) -> next ≠ "" -> (rank next < rank t)%nat) ->
  (rank token < fuel)%nat -> (list_pages fuel token w).2 ≠ None.
Proof.
  intros Hrank. revert token w. induction fuel as [|fuel IH]; intros token w Hlt; [lia|]. simpl.
  rewrite M_bind_eq. simpl. destruct (env_provider_list (w_tick w) token) as [[page next]|e] eqn:Hp; [|done].
  case_bool_decide as Hn; [done|]. rewrite M_bind_eq. simpl.
  specialize (Hrank _ _ _ _ Hp Hn).
  specialize (IH next {| w with w_tick := S (w_tick w) |} ltac:(lia)).
  by destruct (list_pages fuel next _) as [w2 [[l|e]|]].
Qed.

Lemma seed_provider_ids now rows db db' :
  SeedFromProviderData now rows db = Ok db' -> i_id <$> instances db' = i_id <$> instances db.
Proof.
  unfold SeedFromProviderData. intros [= <-]. simpl. generalize (instances db) as l.
  induction rows as [|row rows IH]; intros l; simpl; [done|]. rewrite IH. by apply fmap_upd_key.
Qed.

Lemma seedFromProvider_run fuel w w' r :
  seedFromProvider fuel w = (w', Some r) ->
  w_store w' = w_store w /\ w_trace w' = w_trace w /\
  (i_id <$> instances (w_db w') = i_id <$> instances (w_db w)) /\ (db_wf (w_db w) -> db_wf (w_db w')) /\
  (r = Ok tt -> db_wf (w_db w) -> exists l, provider_listing "" l /\
     forall i pid, i ∈ instances (w_db w') -> i_deleted_at i = None -> i_provider_id i = Some pid ->
       provider_ownership l !! pid = Some (i_id i)).
Proof.
  unfold seedFromProvider. intros Hr. run_bind Hr as w1 loaded H1. apply observe_run in H1 as [_ (Hd1 & Hs1 & Ht1)].
  destruct loaded; simpl in Hr; [|injection Hr as <- <-; rewrite Hd1; by split_and!].
  run_bind Hr as w2 pages H2. apply list_pages_run in H2 as [(Hd2 & Hs2 & Ht2) Hl].
  assert (w_db w2 = w_db w /\ w_store w2 = w_store w /\ w_trace w2 = w_trace w) as (Hd & Hs & Ht) by (split_and!; congruence).
  destruct pages as [[l|e]|]; [|injection Hr as <- <-; rewrite Hd; by split_and!|done].
  specialize (Hl l eq_refl). run_bind Hr as w3 u H3.
  assert (w_store w3 = w_store w /\ w_trace w3 = w_trace w /\
    (i_id <$> instances (w_db w3) = i_id <$> instances (w_db w)) /\ (db_wf (w_db w) -> db_wf (w_db w3)))
    as (Hs3 & Ht3 & Hid3 & Hwf3).
  { destruct (omap row_of_status l) as [|row rows]; [injection H3 as <- <-; rewrite Hd; by split_and!|].
    apply dbx_run in H3 as (Hs3 & Ht3 & Hseed). rewrite Hd in Hseed.
    destruct Hseed as [(e & _ & -> & _)|(now & db' & Hseed & _ & ->)]; split_and!; try congruence.
    - by eapply seed_provider_ids.
    - intros. by eapply db_wf_seed_provider. }
  destruct u as [u|e]; [|injection Hr as <- <-; by split_and!].
  run_bind Hr as w4 now H4. apply observe_run in H4 as [_ (Hd4 & Hs4 & Ht4)].
  run_bind Hr as w5 d H5. unfold db_exec in H5. run_bind H5 as w6 f H6.
  apply observe_run in H6 as [_ (Hd6 & Hs6 & Ht6)].
  assert (w_db w6 = w_db w3) as Hd63 by congruence.
  destruct f as [e|]; [injection H5 as <- <-; injection Hr as <- <-; rewrite Hd63; split_and!; try done; congruence|].
  destruct (MarkInstancesDeletedIfProviderMissing now (provider_ownership l) (w_db w6)) as [[db' ids]|e] eqn:Hm.
  2: { by rewrite MarkInstancesDeletedIfProviderMissing_eq in Hm. }
  injection H5 as <- <-. injection Hr as <- <-. simpl. rewrite Hd63 in Hm. split_and!; try congruence.
  - rewrite MarkInstancesDeletedIfProviderMissing_eq in Hm. injection Hm as <- _. simpl.
    by rewrite mark_deleted_rows_key.
  - intros Hwf. eapply db_wf_missing; [|exact Hm]. auto.
  - intros _ Hwf. exists l. split; [done|]. intros i pid. eapply provider_missing_live; [|exact Hm]. auto.
Qed.


(** The rebuild terminates whenever the provider's pagination makes
    progress: if every continuation token is closer to the end than the one it
    answers, more pages of fuel than the first token's distance always give a
    result. *)
Theorem rebuild_terminates (rank : string -> nat) fuel w :
  (forall n t page next, env_provider_list n t = Ok (page, next) -> next ≠ "" -> (rank next < rank t)%nat) ->
  (rank "" < fuel)%nat -> (RebuildCache fuel w).2 ≠ None.
Proof.
  intros Hrank Hlt. unfold RebuildCache. rewrite M_bind_eq. case_bool_decide; [done|].
  rewrite M_bind_eq. destruct (seedFromS3 _) as [w2 [[]|e]]; simpl; [|done].
  rewrite M_bind_eq. assert ((seedFromProvider fuel w2).2 ≠ None) as Hne.
  { unfold seedFromProvider. rewrite M_bind_eq. destruct (negb _); [done|]. rewrite M_bind_eq.
    pose proof (list_pages_terminates rank fuel "" (observe env_config_loaded w2).1 Hrank Hlt) as Hp.
    destruct (list_pages fuel "" _) as [w3 [[l|e]|]]; simpl in *; [|done|done]. rewrite M_bind_eq.
    lazymatch goal with |- (match ?x.2 with _ => _ end _).2 ≠ None => destruct x as [w4 [u|e]] end; simpl; [|done].
    rewrite !M_bind_eq. by destruct (db_exec _ _) as [w5 [d|e]]. }
  destruct (seedFromProvider fuel w2) as [w3 [[u|e]|]]; simpl in *; done.
Qed.

(** Rows restored from object storage have no infrastructure hash. *)
Definition no_hash (db : DB) : Prop := forall i, i ∈ instances db -> i_infra_config_hash i = None.

Lemma no_hash_seed_s3 now insts db db' : no_hash db -> SeedFromS3Data now insts db = Ok db' -> no_hash db'.
Proof.
  unfold SeedFromS3Data, mbind, res_bind. intros Hno.
  destruct (seed_s3_rows now insts (instances db)) as [l|e] eqn:Hl; [|done].
  assert (forall i, i ∈ l -> i_infra_config_hash i = None) as Hno'.
  { unfold no_hash in Hno. revert Hno Hl. generalize (instances db).
    induction insts as [|inst insts IH]; simpl; intros l0 Hno Hl; [by injection Hl as <-|].
    unfold mbind, res_bind in Hl. destruct (seed_s3_row now inst l0) as [l1|e] eqn:H1; [|done].
    eapply (IH l1); [|done]. revert H1. unfold seed_s3_row. case_match; [done|]. case_bool_decide; intros [= <-].
    - intros i (j & Hj & ->)%elem_of_upd. by case_bool_decide; simpl; apply Hno.
    - intros i [Hi| ->%list_elem_of_singleton]%elem_of_app; [by apply Hno|done]. }
  intros [-> _]%delete_instances_Ok i [_ Hi]%elem_of_del. by apply Hno'.
Qed.

Lemma no_hash_seed_provider now rows db db' : no_hash db -> SeedFromProviderData now rows db = Ok db' -> no_hash db'.
Proof.
  unfold SeedFromProviderData, no_hash. intros Hno [= <-]. simpl. revert Hno. generalize (instances db) as l.
  induction rows as [|row rows IH]; intros l Hno; simpl; [done|]. apply IH.
  intros i (j & Hj & ->)%elem_of_upd. by case_bool_decide; simpl; apply Hno.
Qed.

Lemma no_hash_missing now own db db' ids :
  no_hash db -> MarkInstancesDeletedIfProviderMissing now own db = Ok (db', ids) -> no_hash db'.
Proof.
  rewrite MarkInstancesDeletedIfProviderMissing_eq. intros Hno [= <- <-] i Hi.
  apply elem_of_mark_deleted_rows in Hi as (j & Hj & _ & [[_ ->]|[_ ->]]); exact (Hno j Hj).
Qed.

Lemma preserves_db_exec {A} I (f : DB -> res (DB * A)) :
  (forall db db' a, I db -> f db = Ok (db', a) -> I db') -> preserves (db_inv I) (db_exec f).
Proof.
  intros Hf. unfold db_exec. apply preserves_bind; [apply silent_preserves_db, silent_observe|].
  intros [e|]; [apply preserves_ret|]. intros w Hw. unfold db_inv in *. simpl.
  destruct (f (w_db w)) as [[db' a]|e] eqn:He; simpl; eauto.
Qed.

(** The rebuild loses the infrastructure hashes: starting from an empty
    cache, no row has one afterwards, although every record in storage carries
    the hash the instance was created with (the seed's column list omits it). *)
Theorem rebuild_loses_infra_hash fuel w i :
  instances (w_db w) = [] ->
  i ∈ instances (w_db (RebuildCache fuel w).1) -> i_infra_config_hash i = None.
Proof.
  intros Hemp. assert (preserves (db_inv no_hash) (RebuildCache fuel)) as Hp.
  { assert (forall keys, silent (load_records keys)) as Hload.
    { intros keys. induction keys; simpl; prog; done. }
    assert (forall n t, silent (list_pages n t)) as Hpages.
    { intros n. induction n; intros t; simpl; prog; auto. }
    assert (silent (store_list "instance/")) as Hlist.
    { unfold store_list. prog. by intros w1. }
    unfold RebuildCache, seedFromS3, seedFromProvider, getShardID.
    prog; try (apply silent_preserves_db; by auto).
    - apply preserves_dbx. intros ???. apply no_hash_seed_s3.
    - apply preserves_dbx. intros ???. apply no_hash_seed_provider.
    - apply preserves_db_exec. intros ???. apply no_hash_missing. }
  apply Hp. intros j. rewrite Hemp. by intros ?%elem_of_nil.
Qed.
End Rebuild.

(** ** What the manager promises to its clients *)

Section Invariants.
Context `{Env}.

Lemma preserves_storeInstanceRecord I rec : preserves (db_inv I) (storeInstanceRecord rec).
Proof. unfold storeInstanceRecord. prog. Qed.

Lemma create_db_wf_with req p :
  (forall cfg t pool, preserves (db_inv db_wf) (select_and_prepare cfg t pool p)) ->
  preserves (db_inv db_wf) (createInstance req p).
Proof.
  intros Hprep.
  assert (forall cfg m id tn k j s, preserves (db_inv db_wf) (insert_and_create cfg req m id tn k j s)) as Hic.
  { intros. unfold insert_and_create, provider_create.
    prog; try apply preserves_storeInstanceRecord.
    - apply preserves_db_exec. intros db db' u Hwf. destruct (LocalDB.CreateInstance _ _) eqn:Hc; [|done].
      intros [= <- <-]. by eapply db_wf_create.
    - apply preserves_dbx. intros ???. apply db_wf_UpdateInstance. }
  unfold createInstance, create_from_template.
  prog; first [apply Hic | apply Hprep | apply silent_preserves_db, silent_generateRegistrationNonce].
Qed.

Lemma create_nat_db_wf req : preserves (db_inv db_wf) (CreateNATInstance req).
Proof.
  unfold CreateNATInstance. prog. apply create_db_wf_with. intros cfg t pool.
  unfold select_and_prepare. prog. apply silent_preserves_db, silent_selectSubnet.
Qed.

Lemma replacement_db_wf t c : preserves (db_inv db_wf) (create_replacement t c).
Proof. unfold create_replacement. prog. apply create_nat_db_wf. Qed.

Lemma create_db_wf req hp : preserves (db_inv db_wf) (createInstance req (preparer hp)).
Proof.
  apply create_db_wf_with. intros cfg t pool. unfold select_and_prepare, PrepareNATSubnet.
  destruct hp; simpl; [unfold PrepareNATSubnet|]; prog;
    first [apply silent_preserves_db, silent_selectSubnet | apply create_nat_db_wf | apply replacement_db_wf].
Qed.

Lemma replace_nat_db_wf id : preserves (db_inv db_wf) (ReplaceNATInstance id).
Proof. unfold ReplaceNATInstance. prog. apply replacement_db_wf. Qed.

(** The replacement handler adds rows of managed-NAT groups and nothing else. *)
Lemma replace_nat_rows id w w' r :
  ReplaceNATInstance id w = (w', r) ->
  exists extra, instances (w_db w') = instances (w_db w) ++ extra /\
    (forall i, i ∈ extra -> nat_row i /\ i_on_demand i = false /\ active i = true).
Proof.
  unfold ReplaceNATInstance. intros Hr. run_bind Hr as w1 d H1. apply observe_run in H1 as [_ (Hd1 & _)].
  destruct d as [a|t c]; [injection Hr as <- <-; exists []; rewrite app_nil_r, Hd1; split; [done|set_solver]|].
  apply create_replacement_creations, nat_creations_rows in Hr as (extra & Hd & Hx). exists extra.
  rewrite Hd, Hd1. split; [done|]. intros i Hi. by destruct (Hx i Hi) as (_ & ? & ? & ?).
Qed.

(** ** The reconciler's sentinel never comes from a creation

    [ErrTenantAsleep] is the reconciler's own error.  If nothing the environment
    answers carries it, no error of a creation does. *)

Definition private_err (e : err) : Prop := err_is e ErrTenantAsleep = false.

Definition private_res {A} (r : res A) : Prop := forall e, r = Err e -> private_err e.

Record env_private : Prop := {
  ep_db n e : env_db_fault n = Some e -> private_err e;
  ep_store n e : env_store_fault n = Some e -> private_err e;
  ep_id n k : private_res (env_new_id n k);
  ep_decode i p : private_res (env_puid_decode i p);
  ep_nonce n i : private_res (env_nonce n i);
  ep_userdata n : private_res (env_userdata n);
  ep_create n q : private_res (env_provider_create n q);
  ep_prepare n t sn : match env_prepare_subnet n t sn with
                      | PrepReplied r => private_res r
                      | PrepCreate _ _ => True
                      | PrepReplace c => private_res (ncl_release c)
                      end;
}.

Definition errs_private {A} (m : M World (res A)) : Prop := forall w, private_res (m w).2.

Lemma errs_ret_ok {A} (a : A) : errs_private (mret (Ok a)).
Proof. by intros w e. Qed.

Lemma errs_ret_err {A} (e : err) : private_err e -> errs_private (mret (M := M World) (@Err A e)).
Proof. by intros He w e' [= <-]. Qed.

Lemma errs_bind {A B} (m : M World A) (f : A -> M World (res B)) :
  (forall a, errs_private (f a)) -> errs_private (m ≫= f).
Proof. intros Hf w. rewrite M_bind_eq. apply Hf. Qed.

Lemma errs_bind_res {A B} (m : M World (res A)) (f : res A -> M World (res B)) :
  errs_private m -> (forall r, private_res r -> errs_private (f r)) -> errs_private (m ≫= f).
Proof. intros Hm Hf w. rewrite M_bind_eq. apply Hf, Hm. Qed.

Lemma errs_observe {A} (f : nat -> res A) : (forall n, private_res (f n)) -> errs_private (observe f).
Proof. intros Hf w. apply Hf. Qed.

Lemma errs_bind_observe {A B} (f : nat -> A) (k : A -> M World (res B)) :
  (forall n, errs_private (k (f n))) -> errs_private (observe f ≫= k).
Proof. intros Hf w. rewrite M_bind_eq. apply Hf. Qed.

Section Private.
Hypothesis HP : env_private.

(** Leave with an error of the code's own. *)
Ltac errs_if := lazymatch goal with |- errs_private (if ?b then _ else _) => destruct b end; [by apply errs_ret_err|].

Lemma errs_db_exec {A} (f : DB -> res (DB * A)) : (forall db, private_res (f db)) -> errs_private (db_exec f).
Proof.
  intros Hf w e. unfold db_exec, mbind, M_bind, observe. simpl. destruct (env_db_fault _) eqn:Hn; simpl.
  { intros [= <-]. by eapply (ep_db HP). }
  destruct (f (w_db w)) as [[db' a]|e'] eqn:Hr; simpl; [done|]. intros [= <-]. by apply (Hf (w_db w)).
Qed.

Lemma errs_dbx f : (forall now db, private_res (f now db)) -> errs_private (dbx f).
Proof.
  intros Hf. unfold dbx. apply errs_bind. intros now. apply errs_db_exec. intros db e.
  destruct (f now db) eqn:Hr; [done|]. intros [= <-]. by apply (Hf now db).
Qed.

Lemma errs_dbq {A} (f : Z -> DB -> res A) : (forall now db, private_res (f now db)) -> errs_private (dbq f).
Proof.
  intros Hf. unfold dbq. apply errs_bind. intros now. apply errs_db_exec. intros db e.
  destruct (f now db) eqn:Hr; [done|]. intros [= <-]. by apply (Hf now db).
Qed.

Lemma store_put_errs k rec : errs_private (store_put k rec).
Proof.
  intros w e. unfold store_put, mbind, M_bind, observe. simpl. destruct (env_store_fault _) eqn:Hn; simpl; [|done].
  intros [= <-]. by eapply (ep_store HP).
Qed.

Lemma storeInstanceRecord_errs rec : errs_private (storeInstanceRecord rec).
Proof.
  unfold storeInstanceRecord. errs_if.
  destruct (StorageKey _) as [k|e] eqn:Hk; [apply store_put_errs|]. apply errs_ret_err.
  unfold StorageKey in Hk. destruct (bool_decide _); [by injection Hk as <-|].
  destruct (env_puid_decode _ _) eqn:Hd; [done|]. injection Hk as <-. exact (ep_decode HP _ _ _ Hd).
Qed.

Lemma insert_and_create_errs cfg req merged id tn k jwt sn :
  errs_private (insert_and_create cfg req merged id tn k jwt sn).
Proof.
  unfold insert_and_create. apply errs_bind. intros hash. apply errs_bind. intros now.
  apply errs_bind_res.
  { apply errs_db_exec. intros db e. destruct (LocalDB.CreateInstance _ _) eqn:Hc; [done|]. intros [= <-].
    unfold LocalDB.CreateInstance in Hc. repeat case_match; by simplify_eq. }
  intros ins Hins. destruct ins as [u|e]; [|apply errs_ret_err; exact (Hins e eq_refl)].
  apply errs_bind_res; [apply storeInstanceRecord_errs|]. intros st Hst.
  destruct st as [[]|e]; [|apply errs_ret_err; exact (Hst e eq_refl)].
  unfold provider_create. apply errs_bind. intros _.
  apply errs_bind_res; [apply errs_observe; intros n; apply (ep_create HP)|]. intros pr Hpr.
  destruct pr as [resp|e]; [|apply errs_ret_err; exact (Hpr e eq_refl)].
  errs_if. do 3 (apply errs_bind; intros ?). apply errs_bind_res.
  { apply errs_dbx. intros now' db e. unfold UpdateInstance, update_or_norows. case_match; by intros [= <-]. }
  intros u' Hu. destruct u' as [u'|e]; [apply errs_ret_ok|apply errs_ret_err; exact (Hu e eq_refl)].
Qed.

Lemma selectSubnet_errs cfg t p b : errs_private (selectSubnetWithCapacity cfg t p b).
Proof.
  unfold selectSubnetWithCapacity. destruct (ResolveSubnetKey cfg p) as [[|x ids]|e] eqn:Hk; [by apply errs_ret_err| |].
  - cbv zeta. apply errs_bind_res; [apply errs_dbq; by intros ?? e|]. intros r Hr.
    destruct r as [counts|e]; [|apply errs_ret_err; exact (Hr e eq_refl)].
    apply errs_bind. intros [y|]; [apply errs_ret_ok|]. apply errs_bind. intros [y|]; [apply errs_ret_ok|by apply errs_ret_err].
  - apply errs_ret_err. unfold ResolveSubnetKey in Hk. repeat case_match; by simplify_eq.
Qed.

Lemma create_errs_with req p :
  (forall cfg t pool, errs_private (select_and_prepare cfg t pool p)) -> errs_private (createInstance req p).
Proof.
  intros Hprep. unfold createInstance. do 2 errs_if.
  apply errs_bind. intros loaded. destruct (negb loaded); [by apply errs_ret_err|].
  apply errs_bind. intros cfg. apply errs_bind. intros [g|e]; [|by apply errs_ret_err]. cbv zeta.
  destruct (c_templates cfg !! _) as [tc|]; [|by apply errs_ret_err]. unfold create_from_template.
  apply errs_bind_res.
  { destruct (bool_decide _); [apply errs_observe; intros n; apply (ep_id HP)|apply errs_ret_ok]. }
  intros idr Hid. destruct idr as [id|e]; [|apply errs_ret_err; exact (Hid e eq_refl)].
  destruct (GetMergedConfig _ _ _) as [merged|e] eqn:Hm.
  2: { apply errs_ret_err. unfold GetMergedConfig in Hm. case_match; by simplify_eq. }
  apply errs_bind_res.
  { unfold generateRegistrationNonce. errs_if.
    apply errs_bind. intros _. apply errs_observe. intros n. apply (ep_nonce HP). }
  intros jr Hj. destruct jr as [jwt|e]; [|apply errs_ret_err; exact (Hj e eq_refl)].
  do 2 (apply errs_bind_res; [apply errs_observe; intros n; apply (ep_userdata HP)|]; 
    let Hu := fresh in intros [?|e] Hu; [|apply errs_ret_err; exact (Hu e eq_refl)]).
  cbv zeta. errs_if.
  apply errs_bind_res; [apply Hprep|]. intros sr Hs.
  destruct sr as [sn|e]; [apply insert_and_create_errs|apply errs_ret_err; exact (Hs e eq_refl)].
Qed.

Lemma select_and_prepare_errs cfg t pool p :
  match p with Some prepare => forall t sn, errs_private (prepare t sn) | None => True end ->
  errs_private (select_and_prepare cfg t pool p).
Proof.
  intros Hp. unfold select_and_prepare. apply errs_bind_res; [apply selectSubnet_errs|]. intros r Hr.
  destruct r as [sn|e]; [|apply errs_ret_err; exact (Hr e eq_refl)].
  destruct p as [prepare|]; [|apply errs_ret_ok]. apply errs_bind_res; [apply Hp|]. intros p1 H1.
  destruct p1 as [[]|e]; [apply errs_ret_ok|]. specialize (H1 e eq_refl).
  destruct (negb _); [by apply errs_ret_err|]. apply errs_bind. intros [fb|e']; [|by apply errs_ret_err].
  errs_if. apply errs_bind_res; [apply Hp|]. intros p2 H2.
  destruct p2 as [[]|e2]; [apply errs_ret_ok|apply errs_ret_err; exact (H2 e2 eq_refl)].
Qed.

Lemma create_nat_errs req : errs_private (CreateNATInstance req).
Proof.
  unfold CreateNATInstance. apply errs_bind. intros cfg. destruct (c_nat cfg !! _); [|by apply errs_ret_err].
  destruct (_ || _); [by apply errs_ret_err|]. apply create_errs_with. intros. by apply select_and_prepare_errs.
Qed.

Lemma create_replacement_errs t c : private_res (ncl_release c) -> errs_private (create_replacement t c).
Proof.
  intros Hc. unfold create_replacement. apply errs_bind_res; [apply create_nat_errs|]. intros r Hr.
  destruct r as [resp|e]; [apply errs_ret_ok|]. apply errs_ret_err. specialize (Hr e eq_refl).
  destruct (ncl_release c) as [[]|e']; [exact Hr|]. specialize (Hc e' eq_refl). unfold private_err in *. simpl. by rewrite Hr, Hc.
Qed.

Lemma prepare_errs t sn : errs_private (PrepareNATSubnet t sn).
Proof.
  unfold PrepareNATSubnet. apply errs_bind_observe. intros n. pose proof (ep_prepare HP n t sn) as Hp.
  destruct (env_prepare_subnet _ _ _) as [r|g id|c]; [by intros w| |].
  - apply errs_bind_res; [apply create_nat_errs|]. intros r Hr.
    apply errs_ret_err. destruct r as [resp|e]; [done|exact (Hr e eq_refl)].
  - apply errs_bind_res; [by apply create_replacement_errs|]. intros r Hr.
    apply errs_ret_err. destruct r as [resp|e]; [done|exact (Hr e eq_refl)].
Qed.

Lemma create_errs req hp : errs_private (createInstance req (preparer hp)).
Proof.
  apply create_errs_with. intros. apply select_and_prepare_errs. destruct hp; [exact prepare_errs|done].
Qed.
End Private.

Lemma upsert_lb_wf k id s : preserves (db_inv db_wf) (dbx (fun now db => UpsertLBInstance now k id s db)).
Proof. apply preserves_dbx. intros ???. apply db_wf_lb_upsert. Qed.

Lemma deregister_wf inst : preserves (db_inv db_wf) (deregisterInstanceFromLB inst).
Proof.
  unfold deregisterInstanceFromLB. prog. apply preserves_for_each_err. intros row _.
  unfold deregister_one, withdraw_target, deregister_and_confirm, lb_state, lb_deregister.
  prog; apply upsert_lb_wf.
Qed.

Lemma delete_db_wf tenant id : preserves (db_inv db_wf) (Instances.DeleteInstance tenant id).
Proof.
  unfold Instances.DeleteInstance, delete_from_provider, delete_cleanup.
  prog; first [ apply deregister_wf | apply preserves_storeInstanceRecord
    | apply silent_preserves_db, getInstanceRecord_silent | apply preserves_dbx; intros ??? ].
  - apply db_wf_MarkDrainStarted.
  - apply db_wf_lb_delete.
  - apply db_wf_DeleteInstance.
Qed.
End Invariants.
