(* ===== verification/Reconciler.v ===== *)
(** * Reconciler ([src/internal/server/reconciler])

    The event loop that keeps every group at its desired size.  Its own state
    (queue, leadership term, delayed events, deduplication map, expiry timers,
    rate-limit clock) is [RState], over the shared [World]; each handler is a
    computation in [M RState].  The instance manager is reached through the
    interface the Go package declares ([InstanceManager]), so the handlers and
    their theorems do not depend on how instances are created or deleted.

    [notifyDrain] and [notifyError] are installed, as [cmd/root.go] does. *)

From S2P Require Import Prelude Provider LocalDB Config World Instances.

(** ** The interface to the instance manager *)

Class InstanceManager := mkInstanceManager {
  im_create : CreateInstanceRequest -> M World (res CreateInstanceResponse);
  im_delete : string -> string -> M World (res unit);
}.

(** ** State *)

(** An event a timer will put on the queue after [sc_delay]; [sc_term] is the term
    captured when it was scheduled. *)
Record Scheduled := mkScheduled {
  sc_delay : Z;
  sc_event : ReconcileEvent;
  sc_term : Z;
}.

Record RState := mkRState {
  rs_world : World;
  rs_queue : list (ReconcileEvent * Z);
  rs_scheduled : list Scheduled;
  rs_recent : gmap string Z;
  rs_timers : gmap (string * string) (Z * Z);   (* delay and term of each expiry timer *)
  rs_last_create : Z;
  rs_started : bool;
  rs_cancelled : bool;                          (* ctx.Err() != nil *)
  rs_term : Z;                                  (* uint64 *)
}.

Definition queue_capacity : Z := 1000.

(** [r.term++] on a [uint64]. *)
Definition next_term (t : Z) : Z := (t + 1) `mod` 2 ^ 64.

(** Run a computation on the world inside the reconciler. *)
Definition lift {A} (m : M World A) : M RState A :=
  fun s => let '(w, a) := m (rs_world s) in ({| s with rs_world := w |}, a).

(** ** Retry policy (retry.go) *)

(** [RetryPolicy]; the jitter fraction as numerator and denominator. *)
Record RetryPolicy := mkRetryPolicy {
  rp_base_delay : Z;
  rp_max_delay : Z;
  rp_max_attempts : Z;
  rp_jitter_num : Z;
  rp_jitter_den : Z;
}.

(** [backoffDelay]: [None] is the panic of [rand.Int63n] on a non-positive bound.
    [r] is the random draw.  The float product is exact here: the delays are below
    2^53. *)
Definition backoffDelay (policy : RetryPolicy) (attempt r : Z) : option Z :=
  let raw := wrap64 (rp_base_delay policy * wrap64 (Z.shiftl 1 attempt)) in
  let delay := if bool_decide (rp_max_delay policy < raw) then rp_max_delay policy else raw in
  let bound := Z.quot (delay * rp_jitter_num policy) (rp_jitter_den policy) in
  if bool_decide (bound <= 0) then None else Some (delay + r `mod` bound).

Definition policyFor (t : EventType) : RetryPolicy :=
  match t with
  | EventGroupChanged | EventInitialReconcile | EventInstanceDeleted | EventTerminationNotice
  | EventDrainAcked => mkRetryPolicy (5 * second) (120 * second) 8 1 4
  | _ => mkRetryPolicy (5 * second) (120 * second) 8 1 4
  end.

Definition disconnectFollowUpPolicy : RetryPolicy := mkRetryPolicy (3 * second) (30 * second) 8 1 4.

(** [isPermanentError]: a [PermanentError] anywhere in the chain. *)
Fixpoint isPermanentError (e : err) : bool :=
  match e with
  | ErrWrapPerm _ => true
  | ErrWrap _ e' => isPermanentError e'
  | ErrJoin e1 e2 => isPermanentError e1 || isPermanentError e2
  | _ => false
  end.

Definition event_name (t : EventType) : string :=
  match t with
  | EventCheckInstance => "CheckInstance"
  | EventGroupChanged => "GroupChanged"
  | EventInstanceDeleted => "InstanceDeleted"
  | EventDrainAcked => "DrainAcked"
  | EventTerminationNotice => "TerminationNotice"
  | EventInitialReconcile => "InitialReconcile"
  | EventTenantChanged => "TenantChanged"
  | EventOther => ""
  end.

Definition maxOversizePadding : Z := 1.
Definition expiryTimerPadding : Z := second.

(** The group's drain timeout, or the server default. *)
Definition drain_timeout (cfg : Config) (g : GroupConfig) : Z :=
  default (c_default_drain_timeout cfg) (gc_drain_timeout g).

Section Reconciler.
Context `{Env} `{InstanceManager}.
(** [createRateLimit], and whether [natReplacementHandler] is set. *)
Variable createRateLimit : Z.
Variable hasNATHandler : bool.

Definition notify_error (tenant group id : string) : M RState unit := lift (emit (ActNotifyError tenant group id)).

(** ** Queue and timers (reconciler.go) *)

Definition full (s : RState) : bool := bool_decide (queue_capacity <= Z.of_nat (length (rs_queue s))).

Definition push (ev : ReconcileEvent) (term : Z) : M RState unit :=
  modify (fun s => {| s with rs_queue := rs_queue s ++ [(ev, term)] |}).

(** [Enqueue]: with both cases of the select ready, either may run. *)
Definition Enqueue (ev : ReconcileEvent) : M RState unit :=
  s ← get_st;
  coin ← lift (observe env_select);
  if full s then mret tt
  else if rs_cancelled s && negb coin then mret tt
  else push ev (rs_term s).

(** [EnqueueTenantChanged] blocks while the queue is full; the call is modelled
    at the moment it proceeds. *)
Definition EnqueueTenantChanged (tenant : string) : M RState unit :=
  s ← get_st;
  if negb (rs_started s) || rs_cancelled s then mret tt
  else
    now ← lift time_now;
    push (mkEvent EventTenantChanged tenant "" "" now false "" 0) (rs_term s).

Definition scheduleEvent (delay : Z) (ev : ReconcileEvent) : M RState unit :=
  s ← get_st;
  if negb (rs_started s) || rs_cancelled s then mret tt
  else modify (fun s => {| s with rs_scheduled := rs_scheduled s ++ [mkScheduled delay ev (rs_term s)] |}).

(** Schedule after a backoff; the panic branch of [backoffDelay] schedules
    nothing ([backoff_no_panic] shows it is not reached). *)
Definition schedule_backoff (policy : RetryPolicy) (attempt : Z) (ev : ReconcileEvent) : M RState unit :=
  r ← lift (observe env_rand);
  match backoffDelay policy attempt r with
  | None => mret tt
  | Some delay => scheduleEvent delay ev
  end.

Definition scheduleRetry (ev : ReconcileEvent) : M RState unit :=
  let policy := policyFor (ev_type ev) in
  if bool_decide (rp_max_attempts policy <= ev_attempt ev) then mret tt
  else schedule_backoff policy (ev_attempt ev)
         {| ev with ev_attempt := ev_attempt ev + 1; ev_prevent_duplicate := false |}.

Definition cancelGroupExpiryTimer (tenant groupKey : string) : M RState unit :=
  modify (fun s => {| s with rs_timers := delete (tenant, groupKey) (rs_timers s) |}).

Definition stopAllExpiryTimers : M RState unit := modify (fun s => {| s with rs_timers := ∅ |}).

Definition Start : M RState unit :=
  modify (fun s => if rs_started s then s
                   else {| s with rs_started := true; rs_cancelled := false; rs_term := next_term (rs_term s) |}).

(** [Stop], up to the wait for the loop, and after it.  In between the loop may
    still take an event. *)
Definition stop_begin : M RState unit :=
  _ ← modify (fun s => {| s with rs_term := next_term (rs_term s); rs_cancelled := true |});
  stopAllExpiryTimers.

Definition stop_end : M RState unit := modify (fun s => {| s with rs_started := false |}).

Definition Stop : M RState unit :=
  s ← get_st;
  if negb (rs_started s) then mret tt else _ ← stop_begin; stop_end.

(** ** Creation and deletion *)

(** [createInstanceForGroup]: serialised by [createMu]; the sleep of the rate
    limiter only lets time pass. *)
Definition createInstanceForGroup (tenant groupKey : string) (group : GroupConfig) (allowOversize : bool)
    : M RState (res CreateInstanceResponse) :=
  asleep ← lift (observe (fun n => env_asleep n tenant));
  if (asleep : bool) then mret (Err ErrTenantAsleep)
  else
    c ← lift (dbq (fun _ db => Ok (LocalDB.GetInstanceCountByGroup tenant groupKey true db)));
    match c with
    | Err e => mret (Err (ErrWrap "failed to get current instance count" e))
    | Ok currentCount =>
        let maxSize := if allowOversize then GetSize group + maxOversizePadding else GetSize group in
        if bool_decide (maxSize <= currentCount)
        then mret (Err (ErrMsg "group already at or above max size"))
        else
          _ ← (if bool_decide (0 < createRateLimit) then lift time_now else mret 0);
          asleep2 ← lift (observe (fun n => env_asleep n tenant));
          if (asleep2 : bool) then mret (Err ErrTenantAsleep)
          else
            r ← lift (im_create (mkCreateInstanceRequest "" groupKey tenant (gc_template group)
                   (gc_instance_type group) (gc_subnet_pool group) (gc_vars group) (gc_args group) false));
            match r with
            | Err e => mret (Err (ErrWrap "failed to create instance" e))
            | Ok resp =>
                now ← lift time_now;
                _ ← modify (fun s => {| s with rs_last_create := now |});
                mret (Ok resp)
            end
    end.

(** [deleteInstance]: the result is only logged and reported. *)
Definition deleteInstance (tenant instanceID : string) : M RState unit :=
  r ← lift (im_delete tenant instanceID);
  match r with
  | Ok _ => mret tt
  | Err _ =>
      g ← lift (dbq (fun _ db => LocalDB.GetInstance instanceID db));
      match g with
      | Ok inst => notify_error (i_tenant inst) (i_group inst) instanceID
      | Err _ => mret tt
      end
  end.

(** ** Replacement and drain (drain.go) *)

(** Whether the NAT manager owns the group, and what its [ReplaceInstance], the
    handler the server installs, answers if so; it may create a NAT instance. *)
Definition replaceNATInstance (instanceID tenant groupKey : string) : M RState (bool * res unit) :=
  cfg ← lift (observe env_config);
  match c_nat cfg !! tenant with
  | Some n =>
      if negb (bool_decide (nat_group n = groupKey)) then mret (false, Ok tt)
      else if negb hasNATHandler then mret (true, Err (ErrMsg "NAT replacement handler is not configured"))
      else r ← lift (ReplaceNATInstance instanceID); mret (true, r)
  | None => mret (false, Ok tt)
  end.

Definition initiateInstanceDrain (instanceID groupKey reason : string) (timeout : Z) (alreadyDraining : bool)
    : M RState bool :=
  if alreadyDraining then mret false
  else
    m ← lift (dbx (fun now db => LocalDB.MarkDrainStarted now instanceID db));
    match m with
    | Err _ => mret false
    | Ok _ =>
        now ← lift time_now;
        _ ← lift (emit (ActNotifyDrain instanceID groupKey reason now (now + timeout)));
        mret true
    end.

Definition replaceAndDrain (instanceID tenant groupKey reason : string) (group : GroupConfig) (skipDrain : bool)
    : M RState unit :=
  nat ← replaceNATInstance instanceID tenant groupKey;
  if (nat : bool * res unit).1 then mret tt
  else
    cfg ← lift (observe env_config);
    r ← createInstanceForGroup tenant groupKey group true;
    match r with
    | Err _ => mret tt
    | Ok _ =>
        if skipDrain || bool_decide (drain_timeout cfg group = 0) then deleteInstance tenant instanceID
        else
          _ ← initiateInstanceDrain instanceID groupKey reason (drain_timeout cfg group) false;
          now ← lift time_now;
          scheduleEvent (drain_timeout cfg group)
            (mkEvent EventCheckInstance "" "" instanceID now false "" 0)
    end.

(** ** Health (health.go) *)

(** The provider's verdict on a draining instance that is neither acknowledged
    nor overdue. *)
Definition draining_gone (instanceID : string) (inst : Instance) : M RState bool :=
  match i_provider_id inst with
  | None | Some "" => mret false
  | Some pid =>
      s ← lift (observe (fun n => env_provider_status n instanceID pid));
      mret (match s with
            | Err e => err_is e ErrInstanceNotFound
            | Ok st => IsUnhealthy (st_status st)
            end)
  end.

(** [handleDrainCompletion], for an instance whose drain started at [started]. *)
Definition handleDrainCompletion (instanceID : string) (inst : Instance) (started timeout : Z) : M RState unit :=
  now ← lift time_now;
  if bool_decide (i_drain_acked_at inst ≠ None) then deleteInstance (i_tenant inst) instanceID
  else if bool_decide (timeout <= now - started) then deleteInstance (i_tenant inst) instanceID
  else
    gone ← draining_gone instanceID inst;
    if (gone : bool) then deleteInstance (i_tenant inst) instanceID else mret tt.

Definition replaceInstance (instanceID : string) (skipDrain : bool) : M RState unit :=
  g ← lift (dbq (fun _ db => LocalDB.GetInstance instanceID db));
  match g with
  | Err _ => mret tt
  | Ok inst =>
      gr ← lift (get_group (i_tenant inst) (i_group inst));
      match gr with
      | Err _ => mret tt
      | Ok group =>
          match i_drain_started_at inst with
          | Some started =>
              cfg ← lift (observe env_config);
              handleDrainCompletion instanceID inst started (drain_timeout cfg group)
          | None => replaceAndDrain instanceID (i_tenant inst) (i_group inst) "unhealthy" group skipDrain
          end
      end
  end.

Definition scheduleDisconnectFollowUp (ev : ReconcileEvent) (inst : Instance) (instanceID : string)
    : M RState unit :=
  if match i_health_at inst with Some h => bool_decide (ev_timestamp ev < h) | None => false end then mret tt
  else if bool_decide (rp_max_attempts disconnectFollowUpPolicy <= ev_attempt ev) then mret tt
  else schedule_backoff disconnectFollowUpPolicy (ev_attempt ev)
         (mkEvent EventCheckInstance "" "" instanceID (ev_timestamp ev) false "disconnect" (ev_attempt ev + 1)).

(** Whether the agent missed three or more health intervals; [int(d / interval)]
    truncates towards zero. *)
Definition missed_reports (cfg : Config) (inst : Instance) (now : Z) : bool :=
  match i_health_at inst with
  | Some h => bool_decide (0 < c_health_check_interval cfg) &&
              bool_decide (3 <= Z.quot (now - h) (c_health_check_interval cfg))
  | None => false
  end.

(** The provider's answer to a health check, and what follows from it. *)
Definition check_status (ev : ReconcileEvent) (inst : Instance) (instanceID : string)
    (status : res InstanceStatus) : M RState unit :=
  match status with
  | Err e =>
      if err_is e ErrInstanceNotFound then
        _ ← lift (dbx (fun now db => LocalDB.UpdateInstanceProviderState now instanceID terminatedState db));
        replaceInstance instanceID true
      else
        _ ← notify_error (i_tenant inst) (i_group inst) instanceID;
        scheduleDisconnectFollowUp ev inst instanceID
  | Ok st =>
      if IsUnhealthy (st_status st) then
        _ ← lift (dbx (fun now db => LocalDB.UpdateInstanceProviderState now instanceID st db));
        replaceInstance instanceID true
      else
        cfg ← lift (observe env_config);
        now ← lift time_now;
        if missed_reports cfg inst now then replaceInstance instanceID false
        else if bool_decide (ev_cause ev = "disconnect") then scheduleDisconnectFollowUp ev inst instanceID
        else mret tt
  end.

Definition handleCheckInstance (ev : ReconcileEvent) : M RState unit :=
  let instanceID := ev_instance_id ev in
  g ← lift (dbq (fun _ db => LocalDB.GetInstance instanceID db));
  match g with
  | Err _ => mret tt
  | Ok inst =>
      if bool_decide (i_deleted_at inst ≠ None) then mret tt
      else match i_drain_started_at inst with
      | Some started =>
          gr ← lift (get_group (i_tenant inst) (i_group inst));
          match gr with
          | Err _ => mret tt
          | Ok group =>
              cfg ← lift (observe env_config);
              handleDrainCompletion instanceID inst started (drain_timeout cfg group)
          end
      | None =>
          match i_provider_id inst with
          | None | Some "" => mret tt
          | Some pid =>
              s ← lift (observe (fun n => env_provider_status n instanceID pid));
              check_status ev inst instanceID s
          end
      end
  end.

(** ** Expiry (expiry.go) *)

Definition expireInstance (instanceID reason : string) : M RState unit :=
  g ← lift (dbq (fun _ db => LocalDB.GetInstance instanceID db));
  match g with
  | Err _ => mret tt
  | Ok inst =>
      gr ← lift (get_group (i_tenant inst) (i_group inst));
      match gr with
      | Err _ => mret tt
      | Ok group => replaceAndDrain instanceID (i_tenant inst) (i_group inst) reason group false
      end
  end.

(** How many of [ids] are draining; a failed lookup is logged and passed over. *)
Fixpoint count_draining (ids : list string) : M RState Z :=
  match ids with
  | [] => mret 0
  | id :: ids' =>
      g ← lift (dbq (fun _ db => LocalDB.GetInstance id db));
      n ← count_draining ids';
      mret (match g with
            | Ok inst => if bool_decide (i_drain_started_at inst = None) then n else n + 1
            | Err _ => n
            end)
  end.

(** The oldest managed instance of the group that is older than [age]. *)
Definition oldest_of_group (age : Z) (tenant groupKey : string) : M RState (res (option Instance)) :=
  r ← lift (dbq (fun now db => Ok (LocalDB.GetInstancesOlderThan now age false db)));
  match r with
  | Err e => mret (Err e)
  | Ok l => mret (Ok (head (filter (fun i => LocalDB.in_group tenant groupKey i = true) l)))
  end.

Definition checkGroupExpiry (tenant groupKey : string) : M RState unit :=
  cfg ← lift (observe env_config);
  let expiry := c_expiry cfg in
  if bool_decide (ex_eligible_age expiry = 0) && bool_decide (ex_forced_age expiry = 0) then mret tt
  else
    l ← lift (dbq (fun _ db => Ok (LocalDB.GetInstancesByGroup tenant groupKey true db)));
    match l with
    | Err _ => mret tt
    | Ok ids =>
        draining ← count_draining ids;
        forced ← (if bool_decide (0 < ex_forced_age expiry)
                  then oldest_of_group (ex_forced_age expiry) tenant groupKey else mret (Ok None));
        match forced with
        | Err _ => mret tt
        | Ok (Some inst) => expireInstance (i_id inst) "forced-expiry"
        | Ok None =>
            if bool_decide (draining = 0) && bool_decide (0 < ex_eligible_age expiry) then
              eligible ← oldest_of_group (ex_eligible_age expiry) tenant groupKey;
              match eligible with
              | Err _ | Ok None => mret tt
              | Ok (Some inst) => expireInstance (i_id inst) "eligible-expiry"
              end
            else mret tt
        end
    end.

Definition checkOnDemandExpiry : M RState unit :=
  cfg ← lift (observe env_config);
  let age := ex_ondemand_age (c_expiry cfg) in
  if bool_decide (age = 0) then mret tt
  else
    r ← lift (dbq (fun now db => Ok (LocalDB.GetInstancesOlderThan now age true db)));
    match r with
    | Ok (oldest :: _) => expireInstance (i_id oldest) "ondemand-expiry"
    | _ => mret tt
    end.

(** The delay until the next expiry check of an instance of age [age]. *)
Definition next_expiry (expiry : ExpiryConfig) (age : Z) : Z :=
  let eligibleIn := if bool_decide (0 < ex_eligible_age expiry) then ex_eligible_age expiry - age else 0 in
  let next :=
    if bool_decide (0 < ex_forced_age expiry) then
      let forcedIn := ex_forced_age expiry - age in
      if bool_decide (eligibleIn = 0) || bool_decide (forcedIn < eligibleIn) then forcedIn else eligibleIn
    else eligibleIn in
  if bool_decide (next <= 0) then expiryTimerPadding else next + expiryTimerPadding.

Definition scheduleGroupExpiry (tenant groupKey : string) : M RState unit :=
  cfg ← lift (observe env_config);
  let expiry := c_expiry cfg in
  if bool_decide (ex_eligible_age expiry = 0) && bool_decide (ex_forced_age expiry = 0) then mret tt
  else
    r ← lift (dbq (fun _ db => Ok (LocalDB.GetOldestManagedInstanceByGroup tenant groupKey db)));
    match r with
    | Err _ => mret tt
    | Ok None => cancelGroupExpiryTimer tenant groupKey
    | Ok (Some oldest) =>
        now ← lift time_now;
        modify (fun s => {| s with rs_timers :=
          <[(tenant, groupKey) := (next_expiry expiry (now - i_created_at oldest), rs_term s)]> (rs_timers s) |})
    end.

(** ** Scaling (scaling.go) *)

Fixpoint scaleUp (tenant groupKey : string) (group : GroupConfig) (count : nat) : M RState (res unit) :=
  match count with
  | O => mret (Ok tt)
  | S count' =>
      r ← createInstanceForGroup tenant groupKey group false;
      match r with
      | Ok _ => scaleUp tenant groupKey group count'
      | Err e =>
          if err_is e ErrTenantAsleep then mret (Ok tt)
          else
            _ ← notify_error tenant groupKey "";
            mret (Err (ErrWrap "failed to create instance for group" e))
      end
  end.

(** Delete each of [ids], collecting the failures. *)
Fixpoint delete_each (tenant groupKey : string) (ids : list string) : M RState (list err) :=
  match ids with
  | [] => mret []
  | id :: ids' =>
      r ← lift (im_delete tenant id);
      match r with
      | Ok _ => delete_each tenant groupKey ids'
      | Err e =>
          _ ← notify_error tenant groupKey id;
          es ← delete_each tenant groupKey ids';
          mret (ErrWrap "delete instance" e :: es)
      end
  end.

Definition scaleDown (tenant groupKey : string) (instances : list string) (count : nat) : M RState (res unit) :=
  es ← delete_each tenant groupKey (take count instances);
  mret (res_of_err (join_errs es)).

(** The scan of [checkGroupConfigDrift]: [None] when an instance is draining,
    otherwise the first (oldest) instance whose hash differs. *)
Fixpoint find_drifted (hash : string) (found : option string) (ids : list string)
    : M RState (option (option string)) :=
  match ids with
  | [] => mret (Some found)
  | id :: ids' =>
      g ← lift (dbq (fun _ db => LocalDB.GetInstance id db));
      match g with
      | Err _ => find_drifted hash found ids'
      | Ok inst =>
          if bool_decide (i_drain_started_at inst ≠ None) then mret None
          else
            let found' := match found with
                          | Some _ => found
                          | None => if bool_decide (default "" (i_infra_config_hash inst) = hash) then None else Some id
                          end in
            find_drifted hash found' ids'
      end
  end.

Definition checkGroupConfigDrift (tenant groupKey : string) (group : GroupConfig) : M RState unit :=
  d ← lift (dbq (fun _ db => LocalDB.GetGroup tenant groupKey db));
  match d with
  | Err _ | Ok None => mret tt
  | Ok (Some dbGroup) =>
      match g_infra_config_hash dbGroup with
      | None => mret tt
      | Some hash =>
          l ← lift (dbq (fun _ db => Ok (LocalDB.GetInstancesByGroup tenant groupKey true db)));
          match l with
          | Err _ => mret tt
          | Ok ids =>
              f ← find_drifted hash None ids;
              match f with
              | Some (Some id) => replaceAndDrain id tenant groupKey "config-drift" group false
              | _ => mret tt
              end
          end
      end
  end.

(** The scaling step of [handleGroupChanged], with the sleep state it read. *)
Definition scale_group (tenant groupKey : string) (group : GroupConfig) (instances : list string) (asleep : bool)
    : M RState (res unit) :=
  let currentCount := Z.of_nat (length instances) in
  let desiredCount := if asleep then 0 else GetSize group in
  up ← (if bool_decide (currentCount < desiredCount)
        then scaleUp tenant groupKey group (Z.to_nat (desiredCount - currentCount)) else mret (Ok tt));
  match up with
  | Err e => mret (Err e)
  | Ok _ =>
      if bool_decide (desiredCount < currentCount)
      then scaleDown tenant groupKey instances (Z.to_nat (currentCount - desiredCount)) else mret (Ok tt)
  end.

Definition handleGroupChanged (tenant groupKey : string) : M RState (res unit) :=
  cfg ← lift (observe env_config);
  if match c_nat cfg !! tenant with Some n => bool_decide (nat_group n = groupKey) | None => false end
  then mret (Ok tt)
  else
    l ← lift (dbq (fun _ db => Ok (LocalDB.GetInstancesByGroup tenant groupKey true db)));
    match l with
    | Err e => mret (Err (ErrWrap "failed to get current instances for group" e))
    | Ok instances =>
        gr ← lift (get_group tenant groupKey);
        match gr with
        | Err _ =>
            _ ← cancelGroupExpiryTimer tenant groupKey;
            if bool_decide (instances = []) then mret (Ok tt)
            else scaleDown tenant groupKey instances (length instances)
        | Ok group =>
            asleep ← lift (observe (fun n => env_asleep n tenant));
            r ← scale_group tenant groupKey group instances asleep;
            match r with
            | Err e => mret (Err e)
            | Ok _ =>
                if (asleep : bool) then _ ← cancelGroupExpiryTimer tenant groupKey; mret (Ok tt)
                else
                  _ ← checkGroupConfigDrift tenant groupKey group;
                  _ ← checkGroupExpiry tenant groupKey;
                  _ ← scheduleGroupExpiry tenant groupKey;
                  mret (Ok tt)
            end
        end
    end.

(** Reconcile several groups, remembering the first error. *)
Fixpoint reconcile_groups (first : res unit) (ids : list (string * string)) : M RState (res unit) :=
  match ids with
  | [] => mret first
  | (t, g) :: ids' =>
      r ← handleGroupChanged t g;
      reconcile_groups (match first with Ok _ => r | Err _ => first end) ids'
  end.

(** The groups to reconcile: configured ones and those with managed instances. *)
Definition group_identities (keep : string -> bool) : M RState (res (list (string * string))) :=
  cfg ← lift (observe env_config);
  dyn ← lift (observe env_dynamic);
  match GetAllGroups cfg dyn with
  | Err e => mret (Err (ErrWrap "failed to get groups" e))
  | Ok gs =>
      m ← lift (dbq (fun _ db => Ok (LocalDB.GetActiveManagedGroupIdentities db)));
      match m with
      | Err e => mret (Err (ErrWrap "failed to get active managed groups" e))
      | Ok managed =>
          order ← lift (range_map (remove_dups
            (filter (fun i => keep i.1 = true) (((fun x => (x.1.1, x.1.2)) <$> gs) ++ managed))));
          mret (Ok order)
      end
  end.

Definition handleInitialReconcile : M RState (res unit) :=
  ids ← group_identities (fun _ => true);
  match ids with
  | Err e => mret (Err e)
  | Ok l =>
      r ← reconcile_groups (Ok tt) l;
      _ ← checkOnDemandExpiry;
      mret r
  end.

Definition handleTenantChanged (tenant : string) : M RState (res unit) :=
  ids ← group_identities (fun t => bool_decide (t = tenant));
  match ids with
  | Err e => mret (Err e)
  | Ok l => reconcile_groups (Ok tt) l
  end.

(** ** Events (events.go) *)

Definition handleSpotTerminating (instanceID : string) : M RState (res unit) :=
  g ← lift (dbq (fun _ db => LocalDB.GetInstance instanceID db));
  match g with
  | Err e => mret (Err (ErrWrap "failed to get instance from localDB" e))
  | Ok inst =>
      asleep ← lift (observe (fun n => env_asleep n (i_tenant inst)));
      if (asleep : bool) then mret (Ok tt)
      else
        nat ← replaceNATInstance instanceID (i_tenant inst) (i_group inst);
        if (nat : bool * res unit).1 then mret nat.2
        else
          gr ← lift (get_group (i_tenant inst) (i_group inst));
          match gr with
          | Err e => mret (Err (ErrWrap "failed to get group configuration" e))
          | Ok group =>
              cfg ← lift (observe env_config);
              _ ← (if bool_decide (0 < drain_timeout cfg group)
                   then initiateInstanceDrain instanceID (i_group inst) "spot-terminating"
                          (drain_timeout cfg group) (bool_decide (i_drain_started_at inst ≠ None))
                   else mret false);
              r ← createInstanceForGroup (i_tenant inst) (i_group inst) group true;
              match r with
              | Ok _ => mret (Ok tt)
              | Err e =>
                  if err_is e ErrTenantAsleep then mret (Ok tt)
                  else
                    _ ← notify_error (i_tenant inst) (i_group inst) instanceID;
                    mret (Err (ErrWrap "failed to create replacement for spot-terminating instance" e))
              end
          end
  end.

Definition handleInstanceDeleted (tenant groupKey : string) : M RState (res unit) :=
  if negb (bool_decide (tenant = "")) && negb (bool_decide (groupKey = ""))
  then handleGroupChanged tenant groupKey else mret (Ok tt).

Definition handleDrainAcked (tenant instanceID : string) : M RState (res unit) :=
  _ ← lift (dbx (fun now db => LocalDB.MarkDrainAcked now instanceID db));
  r ← lift (im_delete tenant instanceID);
  match r with
  | Ok _ => mret (Ok tt)
  | Err e =>
      g ← lift (dbq (fun _ db => LocalDB.GetInstance instanceID db));
      _ ← (match g with
           | Ok inst => notify_error (i_tenant inst) (i_group inst) instanceID
           | Err _ => mret tt
           end);
      mret (Err (ErrWrap "failed to delete drained instance" e))
  end.

(** ** The loop *)

Definition event_key (ev : ReconcileEvent) : string :=
  (event_name (ev_type ev) ++ ":" ++ ev_group ev ++ ":" ++ ev_instance_id ev)%string.

(** Drop stale deduplication entries once there are more than a hundred. *)
Definition clean_recent (now cooldown : Z) (m : gmap string Z) : gmap string Z :=
  if bool_decide (100 < size m)%nat then filter (fun kv => ~ kv.2 < now - cooldown) m else m.

(** The deduplication check: [true] when the event was processed recently. *)
Definition duplicate (ev : ReconcileEvent) (cooldown : Z) : M RState bool :=
  if negb (ev_prevent_duplicate ev) then mret false
  else
    now ← lift time_now;
    _ ← modify (fun s => {| s with rs_recent := clean_recent now cooldown (rs_recent s) |});
    s ← get_st;
    match rs_recent s !! event_key ev with
    | None => mret false
    | Some last => now2 ← lift time_now; mret (bool_decide (now2 - last < cooldown))
    end.

(** The [switch] of [handleEvent]. *)
Definition dispatch (ev : ReconcileEvent) : M RState (res unit) :=
  match ev_type ev with
  | EventInitialReconcile => handleInitialReconcile
  | EventTenantChanged => handleTenantChanged (ev_tenant ev)
  | EventGroupChanged => handleGroupChanged (ev_tenant ev) (ev_group ev)
  | EventCheckInstance => _ ← handleCheckInstance ev; mret (Ok tt)
  | EventTerminationNotice => handleSpotTerminating (ev_instance_id ev)
  | EventInstanceDeleted => handleInstanceDeleted (ev_tenant ev) (ev_group ev)
  | EventDrainAcked => handleDrainAcked (ev_tenant ev) (ev_instance_id ev)
  | EventOther => mret (Ok tt)
  end.

(** What follows the [switch]: mark as processed, or retry. *)
Definition conclude (ev : ReconcileEvent) (r : res unit) : M RState unit :=
  match r with
  | Ok _ =>
      if ev_prevent_duplicate ev then
        now ← lift time_now;
        modify (fun s => {| s with rs_recent := <[event_key ev := now]> (rs_recent s) |})
      else mret tt
  | Err e => if isPermanentError e then mret tt else scheduleRetry ev
  end.

Definition handleEvent (ev : ReconcileEvent) : M RState unit :=
  leader ← lift (observe env_leader);
  if negb leader then mret tt
  else
    loaded ← lift (observe env_config_loaded);
    if negb loaded then mret tt
    else
      cfg ← lift (observe env_config);
      dup ← duplicate ev (2 * c_health_check_interval cfg);
      if (dup : bool) then mret tt
      else r ← dispatch ev; conclude ev r.

(** One iteration of [reconcileLoop] with an event available. *)
Definition loop_step : M RState unit :=
  s ← get_st;
  match rs_queue s with
  | [] => mret tt
  | (ev, term) :: rest =>
      _ ← modify (fun s => {| s with rs_queue := rest |});
      if bool_decide (term = rs_term s) then handleEvent ev else mret tt
  end.

(** A delayed event fires: dropped when the queue is full; when its context is
    also done, either case of the select may run.  The context captured is the
    one of the term, cancelled once the term is over. *)
Definition fire_scheduled (k : nat) : M RState unit :=
  s ← get_st;
  match rs_scheduled s !! k with
  | None => mret tt
  | Some sc =>
      _ ← modify (fun s => {| s with rs_scheduled := delete k (rs_scheduled s) |});
      coin ← lift (observe env_select);
      if full s then mret tt
      else if negb (bool_decide (sc_term sc = rs_term s)) && negb coin then mret tt
      else push (sc_event sc) (sc_term sc)
  end.

(** An expiry timer fires. *)
Definition fire_timer (tenant groupKey : string) : M RState unit :=
  s ← get_st;
  match rs_timers s !! (tenant, groupKey) with
  | None => mret tt
  | Some (_, term) =>
      coin ← lift (observe env_select);
      if full s then mret tt
      else if negb (bool_decide (term = rs_term s)) && negb coin then mret tt
      else push (mkEvent EventGroupChanged tenant groupKey "" 0 false "" 0) term
  end.

(** The reconciler as a transition system: leadership changes, enqueues from
    other components (which leave [Attempt] zero), timers, and loop iterations,
    in any order. *)
Inductive rstep : RState -> RState -> Prop :=
  | rstep_start s : rstep s (Start s).1
  | rstep_stop_begin s : rs_started s = true -> rstep s (stop_begin s).1
  | rstep_stop_end s : rs_started s = true -> rs_cancelled s = true -> rstep s (stop_end s).1
  | rstep_enqueue ev s : ev_attempt ev = 0 -> rstep s (Enqueue ev s).1
  | rstep_tenant t s : Z.of_nat (length (rs_queue s)) < queue_capacity -> rstep s (EnqueueTenantChanged t s).1
  | rstep_scheduled k s : rstep s (fire_scheduled k s).1
  | rstep_timer t g s : rstep s (fire_timer t g s).1
  | rstep_loop s : rs_started s = true -> rstep s (loop_step s).1.
End Reconciler.
