(* ===== verification/ReconcilerFacts.v ===== *)
(** * Properties of the reconciler

    The theorems are proved against the laws of the instance-manager interface;
    [manager_laws] shows that the modelled manager satisfies them. *)

From S2P Require Import Prelude Provider LocalDB LocalDBFacts Config World Instances InstancesFacts Reconciler.
Import LocalDB.

(** ** The contract between the reconciler and the instance manager *)

Class InstanceManagerLaws `{Env} `{InstanceManager} : Prop := {
  law_create_rows req w w' r :
    im_create req w = (w', r) ->
    exists nats extra, instances (w_db w') = instances (w_db w) ++ nats ++ extra /\
      (forall i, i ∈ nats -> i_tenant i = cr_tenant req /\ nat_row i) /\
      (length extra <= 1)%nat /\ (is_ok r = true -> length extra = 1%nat) /\
      (forall i, i ∈ extra -> i_tenant i = cr_tenant req /\ i_group i = cr_group req /\
         i_on_demand i = cr_on_demand req /\ active i = true);
  law_create_wf req : preserves (db_inv db_wf) (im_create req);
  law_delete_shrinks t id w w' r : im_delete t id w = (w', r) -> shrinks (w_db w) (w_db w');
  law_delete_wf t id : preserves (db_inv db_wf) (im_delete t id);
  law_delete_other t id w w' r id' :
    im_delete t id w = (w', r) -> id' ≠ id -> GetInstance id' (w_db w') = GetInstance id' (w_db w);
  law_delete_gone t id w w' r :
    (forall n, env_db_fault n = None) -> im_delete t id w = (w', r) -> is_ok r = true ->
    GetInstance id (w_db w') = Err ErrNoRows;
}.

(** [instances.Manager], with or without a subnet preparer, as the interface. *)
Definition manager `{Env} (hasPreparer : bool) : InstanceManager :=
  mkInstanceManager (Instances.CreateInstance hasPreparer) Instances.DeleteInstance.

Section ManagerLaws.
Context `{Env}.

Lemma manager_laws hp : InstanceManagerLaws (H0 := manager hp).
Proof.
  split; simpl.
  - intros req w w' r (nats & extra & Hd & Hn & Hle & Hok & Hx)%create_rows. exists nats, extra.
    split_and!; [by rewrite Hd|by intros i Hi; destruct (Hn i Hi) as (? & ? & _)|done|done|].
    intros i Hi. by destruct (Hx i Hi) as (_ & ? & ? & ? & ?).
  - intros req. apply create_db_wf.
  - intros t id w w' r. apply delete_shrinks.
  - intros t id. apply delete_db_wf.
  - intros t id w w' r id' Hr%DeleteInstance_run Hne.
    destruct Hr as [e (Hd & _) _|e inst l _ _ _ _ Ho _|inst pid l rest n m _ _ _ _ _ _ _ _ _ Ho]; auto.
    by rewrite Hd.
  - intros t id w w' r Hnf Hr%DeleteInstance_run Hok.
    destruct Hr as [e _ ->|e inst l _ _ _ _ _ ->|inst pid l rest n m _ _ _ _ _ _ _ _ _ _ _ Hdead]; [done|done|].
    by destruct (Hdead Hnf Hok).
Qed.

(** No error of the manager is the reconciler's sentinel, if the environment's
    answers are not. *)
Lemma manager_private hp req w e :
  env_private -> (im_create (InstanceManager := manager hp) req w).2 = Err e -> err_is e ErrTenantAsleep = false.
Proof. intros HP. apply (create_errs HP req hp w e). Qed.
End ManagerLaws.

(** ** Reasoning about the reconciler's state *)

(** An invariant of the database, seen from the reconciler. *)
Definition rdb_inv (P : DB -> Prop) (s : RState) : Prop := P (w_db (rs_world s)).

Section Lift.
Context `{Env}.

Lemma lift_run {A} (m : M World A) s s' a :
  lift m s = (s', a) -> exists w', m (rs_world s) = (w', a) /\ s' = {| s with rs_world := w' |}.
Proof. unfold lift. destruct (m (rs_world s)) as [w' a'] eqn:Hm. intros [= <- <-]. eauto. Qed.

Lemma lift_eq {A} (m : M World A) s :
  lift m s = ({| s with rs_world := (m (rs_world s)).1 |}, (m (rs_world s)).2).
Proof. unfold lift. by destruct (m (rs_world s)). Qed.

Lemma preserves_lift {A} P (m : M World A) : preserves (db_inv P) m -> preserves (rdb_inv P) (lift m).
Proof. intros Hm s Hs. rewrite lift_eq. apply Hm. exact Hs. Qed.

Lemma preserves_lift_silent {A} P (m : M World A) : silent m -> preserves (rdb_inv P) (lift m).
Proof. intros Hm. by apply preserves_lift, silent_preserves_db. Qed.

Lemma preserves_modify P f : (forall s, rs_world (f s) = rs_world s) -> preserves (rdb_inv P) (modify f).
Proof. intros Hf s Hs. unfold rdb_inv, modify in *. simpl. by rewrite Hf. Qed.

Lemma preserves_get_st {W} (I : W -> Prop) : preserves I get_st.
Proof. by intros s. Qed.

Lemma preserves_notify_error P t g id : preserves (rdb_inv P) (notify_error t g id).
Proof. apply preserves_lift, preserves_emit. Qed.

Lemma preserves_scheduleEvent P d ev : preserves (rdb_inv P) (scheduleEvent d ev).
Proof.
  unfold scheduleEvent. apply preserves_bind; [apply preserves_get_st|]. intros s.
  destruct (_ || _); [apply preserves_ret|by apply preserves_modify].
Qed.

Lemma preserves_schedule_backoff P pol a ev : preserves (rdb_inv P) (schedule_backoff pol a ev).
Proof.
  unfold schedule_backoff. apply preserves_bind; [apply preserves_lift_silent, silent_observe|]. intros r.
  destruct (backoffDelay _ _ _); [apply preserves_scheduleEvent|apply preserves_ret].
Qed.

(** A configuration the group can have: what [GetGroup] answers at some point. *)
Definition group_ok (t g : string) (grp : GroupConfig) : Prop :=
  exists n m, Config.GetGroup (env_config n) (env_dynamic m) t g = Ok grp.

Lemma preserves_bind_get_group {A} P t g (f : res GroupConfig -> M RState A) :
  (forall e, preserves (rdb_inv P) (f (Err e))) ->
  (forall grp, group_ok t g grp -> preserves (rdb_inv P) (f (Ok grp))) ->
  preserves (rdb_inv P) (lift (get_group t g) ≫= f).
Proof.
  intros He Hg s Hs. rewrite M_bind_eq, lift_eq. simpl.
  destruct (Config.GetGroup (env_config (w_tick (rs_world s))) (env_dynamic (S (w_tick (rs_world s)))) t g)
    as [grp|e] eqn:Hgg; [apply Hg|apply He]; unfold group_ok; eauto.
Qed.
End Lift.

Create HintDb recon.
#[export] Hint Resolve preserves_ret preserves_get_st preserves_notify_error preserves_scheduleEvent
  preserves_schedule_backoff : recon.
#[export] Hint Extern 1 (preserves _ (lift _)) => apply preserves_lift_silent; solve [auto with world] : recon.
#[export] Hint Extern 1 (preserves _ (modify _)) => apply preserves_modify; done : recon.

Ltac rprog_step :=
  match goal with
  | |- preserves _ _ => solve [auto 3 with recon nocore]
  | |- preserves _ (lift (get_group _ _) ≫= _) => apply preserves_bind_get_group; intros
  | |- preserves _ (mbind _ _) => apply preserves_bind; [|intros ?]
  | |- preserves _ (match ?x with _ => _ end) => destruct x eqn:?
  end.
Ltac rprog := repeat rprog_step.

(** ** Database invariants through every handler

    [P] is stable under row maps that never revive a row (deletions and drain
    marks), under guarded creation, under the NAT replacement handler, and, for the
    row being health-checked, under a provider-state update when [checked] holds. *)
Section Handlers.
Context `{HE : Env} `{IM : InstanceManager} `{IML : !InstanceManagerLaws}.
Variables (rate : Z) (nat_handler : bool).
Variable P : DB -> Prop.
Variable checked : string -> DB -> Prop.
Hypothesis P_shrinks : forall db db', P db -> shrinks db db' -> P db'.
Hypothesis P_create : forall t g grp ov, group_ok t g grp ->
  preserves (rdb_inv P) (createInstanceForGroup rate t g grp ov).
Hypothesis P_nat : forall id, preserves (rdb_inv P) (lift (ReplaceNATInstance id)).
Hypothesis P_state : forall now id st db db', P db -> checked id db -> 
  UpdateInstanceProviderState now id st db = Ok db' -> P db'.

Lemma P_delete t id : preserves (rdb_inv P) (lift (im_delete t id)).
Proof.
  intros s Hs. rewrite lift_eq. destruct (im_delete t id (rs_world s)) as [w' r] eqn:Hd.
  unfold rdb_inv in *. simpl. apply law_delete_shrinks in Hd. eauto.
Qed.

Lemma P_mark_drain id : preserves (rdb_inv P) (lift (dbx (fun now db => MarkDrainStarted now id db))).
Proof.
  apply preserves_lift, preserves_dbx. intros now db db' HP Hm. eapply P_shrinks; [done|].
  by eapply shrinks_MarkDrainStarted.
Qed.

Lemma P_mark_acked id : preserves (rdb_inv P) (lift (dbx (fun now db => MarkDrainAcked now id db))).
Proof.
  apply preserves_lift, preserves_dbx. intros now db db' HP [-> _]%update_or_norows_Ok.
  eapply P_shrinks; [exact HP|]. eapply shrinks_upd; [done|]. intros i _. by split_and!.
Qed.

#[local] Hint Resolve P_delete P_mark_drain P_mark_acked P_nat : recon.

Lemma P_deleteInstance t id : preserves (rdb_inv P) (deleteInstance t id).
Proof. unfold deleteInstance. rprog. Qed.

Lemma P_replaceNATInstance id t g : preserves (rdb_inv P) (replaceNATInstance nat_handler id t g).
Proof. unfold replaceNATInstance. rprog. Qed.

Lemma P_initiateInstanceDrain id g r d b : preserves (rdb_inv P) (initiateInstanceDrain id g r d b).
Proof. unfold initiateInstanceDrain. rprog. apply preserves_lift, preserves_emit. Qed.

#[local] Hint Resolve P_deleteInstance P_replaceNATInstance P_initiateInstanceDrain : recon.

Lemma P_replaceAndDrain id t g reason grp skip :
  group_ok t g grp -> preserves (rdb_inv P) (replaceAndDrain rate nat_handler id t g reason grp skip).
Proof. intros Hok. unfold replaceAndDrain. rprog; by apply P_create. Qed.

Lemma P_handleDrainCompletion id inst st d : preserves (rdb_inv P) (handleDrainCompletion id inst st d).
Proof. unfold handleDrainCompletion, draining_gone. rprog. Qed.

#[local] Hint Resolve P_handleDrainCompletion : recon.

Lemma P_replaceInstance id skip : preserves (rdb_inv P) (replaceInstance rate nat_handler id skip).
Proof. unfold replaceInstance. rprog; by apply P_replaceAndDrain. Qed.

Lemma P_expireInstance id reason : preserves (rdb_inv P) (expireInstance rate nat_handler id reason).
Proof. unfold expireInstance. rprog; by apply P_replaceAndDrain. Qed.

#[local] Hint Resolve P_replaceInstance P_expireInstance : recon.

Lemma P_count_draining ids : preserves (rdb_inv P) (count_draining ids).
Proof. induction ids; simpl; rprog; done. Qed.

Lemma P_find_drifted h f ids : preserves (rdb_inv P) (find_drifted h f ids).
Proof. revert f. induction ids; intros f; simpl; rprog; done. Qed.

Lemma P_oldest_of_group age t g : preserves (rdb_inv P) (oldest_of_group age t g).
Proof. unfold oldest_of_group. rprog. Qed.

#[local] Hint Resolve P_count_draining P_find_drifted P_oldest_of_group : recon.

Lemma P_checkGroupExpiry t g : preserves (rdb_inv P) (checkGroupExpiry rate nat_handler t g).
Proof. unfold checkGroupExpiry. rprog. Qed.

Lemma P_checkOnDemandExpiry : preserves (rdb_inv P) (checkOnDemandExpiry rate nat_handler).
Proof. unfold checkOnDemandExpiry. rprog. Qed.

Lemma P_scheduleGroupExpiry t g : preserves (rdb_inv P) (scheduleGroupExpiry t g).
Proof. unfold scheduleGroupExpiry, cancelGroupExpiryTimer. rprog. Qed.

Lemma P_delete_each t g ids : preserves (rdb_inv P) (delete_each t g ids).
Proof. induction ids; simpl; rprog; done. Qed.

Lemma P_scaleDown t g ids n : preserves (rdb_inv P) (scaleDown t g ids n).
Proof. unfold scaleDown. rprog. apply P_delete_each. Qed.

Lemma P_scaleUp t g grp n : group_ok t g grp -> preserves (rdb_inv P) (scaleUp rate t g grp n).
Proof. intros Hok. induction n; simpl; rprog; first [by apply P_create|done]. Qed.

Lemma P_checkGroupConfigDrift t g grp :
  group_ok t g grp -> preserves (rdb_inv P) (checkGroupConfigDrift rate nat_handler t g grp).
Proof. intros Hok. unfold checkGroupConfigDrift. rprog; by apply P_replaceAndDrain. Qed.

#[local] Hint Resolve P_checkGroupExpiry P_checkOnDemandExpiry P_scheduleGroupExpiry P_scaleDown : recon.

Lemma P_scale_group t g grp ids b : group_ok t g grp -> preserves (rdb_inv P) (scale_group rate t g grp ids b).
Proof. intros Hok. unfold scale_group. rprog; by apply P_scaleUp. Qed.

Lemma P_handleGroupChanged t g : preserves (rdb_inv P) (handleGroupChanged rate nat_handler t g).
Proof.
  unfold handleGroupChanged, cancelGroupExpiryTimer.
  rprog; [by apply P_scale_group|by apply P_checkGroupConfigDrift].
Qed.

#[local] Hint Resolve P_handleGroupChanged : recon.

Lemma P_reconcile_groups f ids : preserves (rdb_inv P) (reconcile_groups rate nat_handler f ids).
Proof. revert f. induction ids as [|[t g] ids IH]; intros f; simpl; rprog; apply IH. Qed.

Lemma P_group_identities keep : preserves (rdb_inv P) (group_identities keep).
Proof. unfold group_identities. rprog. Qed.

#[local] Hint Resolve P_reconcile_groups P_group_identities : recon.

Lemma P_handleSpotTerminating id : preserves (rdb_inv P) (handleSpotTerminating rate nat_handler id).
Proof. unfold handleSpotTerminating. rprog; by apply P_create. Qed.

Lemma P_handleDrainAcked t id : preserves (rdb_inv P) (handleDrainAcked t id).
Proof. unfold handleDrainAcked. rprog. Qed.

(** A health check needs [checked] of the instance it looks at, because it may
    record a provider state. *)
Lemma P_state_update id st s s' r :
  rdb_inv P s -> checked id (w_db (rs_world s)) ->
  lift (dbx (fun now db => UpdateInstanceProviderState now id st db)) s = (s', r) -> rdb_inv P s'.
Proof.
  intros Hs Hc (w' & Hw & ->)%lift_run. unfold rdb_inv in *. simpl.
  apply dbx_run in Hw as (_ & _ & [(e & _ & -> & _)|(now & db' & Hu & _ & ->)]); eauto.
Qed.

Lemma P_check_status ev inst id status :
  hoare (fun s => rdb_inv P s /\ checked id (w_db (rs_world s)))
    (check_status rate nat_handler ev inst id status) (fun _ => rdb_inv P).
Proof.
  intros s [Hs Hc]. assert (forall st,
    rdb_inv P (((lift (dbx (fun now db => UpdateInstanceProviderState now id st db)) : M RState (res unit)) ≫=
                 fun _ => replaceInstance rate nat_handler id true) s).1) as Hup.
  { intros st. rewrite M_bind_eq. apply P_replaceInstance.
    destruct (lift (dbx _) s) as [s' r] eqn:Hl. by eapply P_state_update. }
  unfold check_status. destruct status as [st|e].
  - destruct (IsUnhealthy _); [apply Hup|].
    revert s Hs Hc Hup. intros s Hs _ _. revert s Hs.
    lazymatch goal with |- forall s, _ -> rdb_inv P (?m s).1 => change (preserves (rdb_inv P) m) end.
    unfold scheduleDisconnectFollowUp. rprog.
  - destruct (err_is _ _); [apply Hup|].
    revert s Hs Hc Hup. intros s Hs _ _. revert s Hs.
    lazymatch goal with |- forall s, _ -> rdb_inv P (?m s).1 => change (preserves (rdb_inv P) m) end.
    unfold scheduleDisconnectFollowUp. rprog.
Qed.

Lemma P_handleCheckInstance ev :
  hoare (fun s => rdb_inv P s /\ checked (ev_instance_id ev) (w_db (rs_world s)))
    (handleCheckInstance rate nat_handler ev) (fun _ => rdb_inv P).
Proof.
  assert (forall A (m : M World A), silent m ->
    hoare (fun s => rdb_inv P s /\ checked (ev_instance_id ev) (w_db (rs_world s))) (lift m)
      (fun _ s => rdb_inv P s /\ checked (ev_instance_id ev) (w_db (rs_world s)))) as Hsil.
  { intros A m Hm s [Hs Hc]. rewrite lift_eq. unfold rdb_inv in *. simpl. by rewrite (proj1 (Hm _)). }
  assert (forall A (m : M RState A), preserves (rdb_inv P) m ->
    hoare (fun s => rdb_inv P s /\ checked (ev_instance_id ev) (w_db (rs_world s))) m (fun _ => rdb_inv P)) as Hpres.
  { intros A m Hm s [Hs _]. by apply Hm. }
  unfold handleCheckInstance. eapply hoare_bind; [apply Hsil, silent_dbq|]. intros [inst|e]; [|apply Hpres; rprog].
  destruct (bool_decide _); [apply Hpres; rprog|].
  destruct (i_drain_started_at inst) as [started|]; [apply Hpres; rprog|].
  destruct (i_provider_id inst) as [[|c pid]|]; [apply Hpres; rprog| |apply Hpres; rprog].
  eapply hoare_bind; [apply Hsil, silent_observe|]. intros status. apply P_check_status.
Qed.

(** The whole switch. *)
Lemma P_dispatch ev :
  hoare (fun s => rdb_inv P s /\ (ev_type ev = EventCheckInstance -> checked (ev_instance_id ev) (w_db (rs_world s))))
    (dispatch rate nat_handler ev) (fun _ => rdb_inv P).
Proof.
  intros s [Hs Hc]. unfold dispatch. destruct (ev_type ev) eqn:Ht.
  - rewrite M_bind_eq. apply P_handleCheckInstance. auto.
  - by apply P_handleGroupChanged.
  - clear Hc. revert s Hs. change (preserves (rdb_inv P) (handleInstanceDeleted rate nat_handler (ev_tenant ev) (ev_group ev))).
    unfold handleInstanceDeleted. rprog.
  - by apply P_handleDrainAcked.
  - by apply P_handleSpotTerminating.
  - clear Hc. revert s Hs. change (preserves (rdb_inv P) (handleInitialReconcile rate nat_handler)).
    unfold handleInitialReconcile. rprog.
  - clear Hc. revert s Hs. change (preserves (rdb_inv P) (handleTenantChanged rate nat_handler (ev_tenant ev))).
    unfold handleTenantChanged. rprog.
  - done.
Qed.

Lemma P_conclude ev r : preserves (rdb_inv P) (conclude ev r).
Proof. unfold conclude, scheduleRetry. rprog. Qed.

Lemma P_handleEvent ev :
  hoare (fun s => rdb_inv P s /\ (ev_type ev = EventCheckInstance -> checked (ev_instance_id ev) (w_db (rs_world s))))
    (handleEvent rate nat_handler ev) (fun _ => rdb_inv P).
Proof.
  set (Pre := fun s => rdb_inv P s /\ (ev_type ev = EventCheckInstance -> checked (ev_instance_id ev) (w_db (rs_world s)))).
  assert (forall A (m : M World A), silent m -> preserves Pre (lift m)) as Hsil.
  { intros A m Hm s [Hs Hc]. rewrite lift_eq. unfold Pre, rdb_inv in *. simpl. by rewrite (proj1 (Hm _)). }
  assert (forall A (a : A), hoare Pre (mret a) (fun _ => rdb_inv P)) as Hret by (by intros A a s [? _]).
  unfold handleEvent. eapply hoare_bind; [apply Hsil, silent_observe|]. intros leader. destruct (negb leader); [apply Hret|].
  eapply hoare_bind; [apply Hsil, silent_observe|]. intros loaded. destruct (negb loaded); [apply Hret|].
  eapply hoare_bind; [apply Hsil, silent_observe|]. intros cfg.
  eapply hoare_bind with (R := fun _ => Pre).
  { unfold duplicate. destruct (negb _); [apply preserves_ret|].
    apply preserves_bind; [apply Hsil, silent_time_now|]. intros now.
    apply preserves_bind; [by intros s|]. intros _. apply preserves_bind; [by intros s|]. intros s1.
    destruct (rs_recent s1 !! _); [|apply preserves_ret].
    apply preserves_bind; [apply Hsil, silent_time_now|]. intros now2. apply preserves_ret. }
  intros [|]; [apply Hret|]. eapply hoare_bind; [apply P_dispatch|]. intros r. apply P_conclude.
Qed.
End Handlers.

(** ** Group size *)

(** The number of managed instances the scaling decisions count. *)
Definition managed (t g : string) (db : DB) : Z := Z.of_nat (length (group_rows t g true db)).

Section GroupSize.
Context `{HE : Env} `{IM : InstanceManager} `{IML : !InstanceManagerLaws}.
Variables (rate : Z) (nat_handler : bool).

Lemma managed_shrinks t g db db' : shrinks db db' -> managed t g db' <= managed t g db.
Proof. intros Hs. unfold managed. pose proof (shrinks_group_rows t g true _ _ Hs). lia. Qed.

(** What one guarded creation does: nothing to the database, or, after reading
    the count of the group and finding it below the bound, one call of the
    manager. *)
Lemma createInstanceForGroup_run t g grp ov s s' r :
  createInstanceForGroup rate t g grp ov s = (s', r) ->
  (w_db (rs_world s') = w_db (rs_world s) /\ w_trace (rs_world s') = w_trace (rs_world s) /\ exists e, r = Err e) \/
  (managed t g (w_db (rs_world s)) < GetSize grp + (if ov then 1 else 0) /\
   (exists n, env_asleep n t = false) /\
   exists req w1 w2 rc, cr_tenant req = t /\ cr_group req = g /\ cr_on_demand req = false /\
     same_state (rs_world s) w1 /\ im_create req w1 = (w2, rc) /\ same_state w2 (rs_world s') /\
     is_ok r = is_ok rc).
Proof.
  unfold createInstanceForGroup. intros Hr.
  run_bind Hr as s1 asleep H1. apply lift_run in H1 as (w1 & H1 & ->). apply observe_run in H1 as [_ Hs1].
  destruct asleep; [injection Hr as <- <-; left; destruct Hs1 as (? & ? & ?); eauto|].
  run_bind Hr as s2 c H2. apply lift_run in H2 as (w2 & H2 & ->). simpl in H2. apply dbq_run in H2 as [Hs2 Hc].
  pose proof (same_state_trans _ _ _ Hs1 Hs2) as Hs. clear Hs2.
  destruct c as [cnt|e]; [|injection Hr as <- <-; left; destruct Hs as (? & ? & ?); eauto].
  destruct Hc as [(? & ? & _ & ?)|(_ & [= Hc])]; [done|].
  case_bool_decide as Hmax; [injection Hr as <- <-; left; destruct Hs as (? & ? & ?); eauto|].
  run_bind Hr as s3 u H3.
  assert (exists w3, s3 = {| s with rs_world := w3 |} /\ same_state (rs_world s) w3) as (w3 & -> & Hs3).
  { destruct (bool_decide (0 < rate)).
    - apply lift_run in H3 as (w3 & H3 & ->). apply observe_run in H3 as [_ H3]. simpl in H3.
      exists w3. split; [done|]. by eapply same_state_trans.
    - injection H3 as <- <-. exists w2. done. }
  run_bind Hr as s4 asleep2 H4. apply lift_run in H4 as (w4 & H4 & ->). apply observe_run in H4 as [Ha Hs4]. simpl in *.
  pose proof (same_state_trans _ _ _ Hs3 Hs4) as Hs34.
  destruct asleep2; [injection Hr as <- <-; left; destruct Hs34 as (? & ? & ?); eauto|].
  run_bind Hr as s5 rc H5. apply lift_run in H5 as (w5 & H5 & ->). simpl in H5. right.
  split; [|split; [by eauto|]].
  { destruct Hs1 as (Hd1 & _). unfold GetInstanceCountByGroup in Hc. rewrite Hd1 in Hc. unfold managed.
    unfold maxOversizePadding in *. destruct ov; lia. }
  assert (same_state w5 (rs_world s') /\ is_ok r = is_ok rc) as [Hs5 Hok].
  { destruct rc as [resp|e]; [|by injection Hr as <- <-].
    run_bind Hr as s6 now H6. apply lift_run in H6 as (w6 & H6 & ->). apply observe_run in H6 as [_ H6].
    run_bind Hr as s7 u7 H7. injection H7 as <- <-. injection Hr as <- <-. done. }
  eexists _, w4, w5, rc. split_and!; [| | |exact Hs34|exact H5|done|done]; done.
Qed.

Lemma group_rows_snoc t g ex db db' extra :
  instances db' = instances db ++ extra ->
  group_rows t g ex db' = group_rows t g ex db ++
    sel (fun i => in_group t g i && active i && (negb ex || negb (i_on_demand i))) extra.
Proof. intros Hi. unfold group_rows, sel. by rewrite Hi, filter_app. Qed.

(** The group is never its tenant's managed-NAT group. *)
Definition not_nat (t g : string) : Prop :=
  forall n nc, c_nat (env_config n) !! t = Some nc -> nat_group nc ≠ g.

(** Rows of NAT groups do not count for it. *)
Lemma managed_nats t g db db' nats :
  not_nat t g -> instances db' = instances db ++ nats -> (forall i, i ∈ nats -> nat_row i) ->
  managed t g db' = managed t g db.
Proof.
  intros Hnn Hi Hn. unfold managed. rewrite (group_rows_snoc t g true _ _ _ Hi), length_app.
  assert (sel (fun i => in_group t g i && active i && (negb true || negb (i_on_demand i))) nats = []) as ->.
  { apply elem_of_nil_inv. intros i [Hc Hin]%elem_of_sel. destruct (Hn i Hin) as (n & nc & Hnc & Hg).
    apply andb_true_iff in Hc as [[Hc%in_group_true _]%andb_true_iff _]. destruct Hc as [Ht Hgi].
    rewrite Ht in Hnc. apply (Hnn n nc Hnc). congruence. }
  simpl. lia.
Qed.

(** A creation for [(t, g)] adds at most one managed row there, and exactly one
    when it succeeds; other groups are unaffected (NAT groups apart). *)
Lemma managed_create t g req w w' r :
  not_nat t g -> im_create req w = (w', r) -> cr_on_demand req = false ->
  if bool_decide (cr_tenant req = t /\ cr_group req = g)
  then managed t g (w_db w) <= managed t g (w_db w') <= managed t g (w_db w) + 1 /\
       (is_ok r = true -> managed t g (w_db w') = managed t g (w_db w) + 1)
  else managed t g (w_db w') = managed t g (w_db w).
Proof.
  intros Hnn (nats & extra & Hi & Hn & Hle & Hok & Hx)%law_create_rows Hod.
  rewrite app_assoc in Hi.
  rewrite <-(managed_nats t g (w_db w) (with_instances (instances (w_db w) ++ nats) (w_db w)) nats Hnn eq_refl
    (fun i Hin => proj2 (Hn i Hin))).
  set (db1 := with_instances (instances (w_db w) ++ nats) (w_db w)).
  change (instances (w_db w) ++ nats) with (instances db1) in Hi. unfold managed.
  rewrite (group_rows_snoc t g true _ _ _ Hi), length_app.
  assert (length (sel (fun i => in_group t g i && active i && (negb true || negb (i_on_demand i))) extra) <= length extra)%nat
    as Hlen by (apply length_filter).
  case_bool_decide as Heq.
  - split; [lia|]. intros Hr. specialize (Hok Hr).
    destruct extra as [|i [|]]; [done| |done]. destruct (Hx i ltac:(set_solver)) as (Ht & Hg & Ho & Ha).
    destruct Heq as [<- <-]. unfold sel. rewrite filter_cons, decide_True; [simpl; lia|].
    rewrite Ha, Ho, Hod. unfold in_group. rewrite !bool_decide_true by done. done.
  - assert (sel (fun i => in_group t g i && active i && (negb true || negb (i_on_demand i))) extra = []) as ->.
    { apply elem_of_nil_inv. intros i [Hc Hin]%elem_of_sel. destruct (Hx i Hin) as (Ht & Hg & _).
      apply andb_true_iff in Hc as [[Hc%in_group_true _]%andb_true_iff _]. naive_solver. }
    simpl. lia.
Qed.

(** The row of a checked instance counts as running, so recording an unhealthy
    state for it cannot add to the count. *)
Definition checked_running (id : string) (db : DB) : Prop :=
  forall i, i ∈ instances db -> live_id id i = true -> status_ok i = true.

Lemma UpdateInstanceProviderState_shrinks now id st db db' :
  checked_running id db -> UpdateInstanceProviderState now id st db = Ok db' -> shrinks db db'.
Proof.
  intros Hc [-> _]%update_or_norows_Ok. unfold shrinks, checked_running in *. simpl. unfold upd.
  induction (instances db) as [|i l IH]; [constructor|]. rewrite fmap_cons. constructor; [|apply IH; set_solver].
  destruct (live_id id i) eqn:Hl; [|reflexivity]. split_and!; try done. intros _.
  unfold active. rewrite (Hc i) by (done || set_solver). apply live_id_true in Hl as [_ Hd].
  unfold not_deleted. by rewrite Hd.
Qed.

(** C3. A group that is never its tenant's managed-NAT group does not grow beyond
    its size plus one.  If [size] bounds every size the configuration gives the
    group while the event is handled, handling any event keeps the number of
    managed instances at most [size + 1] (the extra one is the replacement of a
    draining instance), NAT instances created on the way included in the run.  One
    side condition: when the event is a health check, the live row of the checked
    instance is not recorded as already unhealthy ([checked_running]), because a
    recovered status would make it count again. *)
Theorem group_size_bounded t g size ev s :
  not_nat t g ->
  (forall n m grp, Config.GetGroup (env_config n) (env_dynamic m) t g = Ok grp -> GetSize grp <= size) ->
  (ev_type ev = EventCheckInstance -> checked_running (ev_instance_id ev) (w_db (rs_world s))) ->
  managed t g (w_db (rs_world s)) <= size + 1 ->
  managed t g (w_db (rs_world (handleEvent rate nat_handler ev s).1)) <= size + 1.
Proof.
  intros Hnn Hsize Hchk Hs.
  apply (P_handleEvent rate nat_handler (fun db => managed t g db <= size + 1) checked_running); [| | | |done].
  - intros db db' HP Hsh. pose proof (managed_shrinks t g _ _ Hsh). lia.
  - intros t' g' grp ov (n & m & Hg) s0 Hs0. unfold rdb_inv in *.
    destruct (createInstanceForGroup rate t' g' grp ov s0) as [s1 r] eqn:Hc. simpl.
    apply createInstanceForGroup_run in Hc as [(-> & _)|(Hlt & _ & req & w1 & w2 & rc & <- & <- & Hod & Hs1 & Hcr & Hs2 & _)]; [done|].
    destruct Hs1 as (Hd1 & _), Hs2 as (Hd2 & _). rewrite Hd2.
    pose proof (managed_create t g _ _ _ _ Hnn Hcr Hod) as Hm. rewrite Hd1 in Hm.
    case_bool_decide as Heq; [|lia]. destruct Heq as [<- <-]. apply Hsize in Hg. destruct ov; lia.
  - intros id s0 Hs0. rewrite lift_eq. unfold rdb_inv in *. simpl.
    destruct (ReplaceNATInstance id (rs_world s0)) as [w' r] eqn:Hr. apply replace_nat_rows in Hr as (nats & Hi & Hn).
    simpl. by rewrite (managed_nats t g (w_db (rs_world s0)) _ nats Hnn Hi (fun i Hin => proj1 (Hn i Hin))).
  - intros now id st db db' HP Hc Hu. pose proof (managed_shrinks t g _ _ (UpdateInstanceProviderState_shrinks _ _ _ _ _ Hc Hu)). lia.
Qed.
End GroupSize.

(** ** Sleeping tenants and convergence *)

Section Convergence.
Context `{HE : Env} `{IM : InstanceManager} `{IML : !InstanceManagerLaws}.
Variables (rate : Z) (nat_handler : bool).

(** C6. No instance is created for a sleeping tenant, NAT instances apart: while
    the tenant is asleep, handling any event leaves no row of that tenant that was
    not there before, except rows of its managed-NAT group.  The exception is real:
    a failed NAT instance is replaced whether or not the tenant sleeps, because
    neither the reconciler nor the NAT manager's replacement asks. *)
Theorem no_creation_while_asleep t ev s i :
  (forall n, env_asleep n t = true) ->
  i ∈ instances (w_db (rs_world (handleEvent rate nat_handler ev s).1)) -> i_tenant i = t ->
  (exists j, j ∈ instances (w_db (rs_world s)) /\ i_tenant j = t /\ i_group j = i_group i /\ i_id j = i_id i) \/ nat_row i.
Proof.
  intros Hasleep. set (P := fun db => forall i, i ∈ instances db -> i_tenant i = t ->
    (exists j, j ∈ instances (w_db (rs_world s)) /\ i_tenant j = t /\ i_group j = i_group i /\ i_id j = i_id i) \/ nat_row i).
  assert (rdb_inv P (handleEvent rate nat_handler ev s).1) as HP; [|exact (HP i)].
  apply (P_handleEvent rate nat_handler P (fun _ _ => True)); [| | | |split; [|done]; intros j Hj Ht; left; by exists j].
  - intros db db' HP Hsh k Hk Ht. unfold shrinks in Hsh.
    apply list_elem_of_lookup in Hk as [n Hn]. destruct (Forall2_lookup_r _ _ _ _ _ Hsh Hn) as (k0 & Hk0 & Hr).
    destruct Hr as (Hid & Hten & Hgrp & _). assert (nat_row k0 <-> nat_row k) as Hnr
      by (unfold nat_row; by rewrite Hten, Hgrp).
    destruct (HP k0) as [(j & ? & ? & ? & ?)|Hkn];
      [by eapply list_elem_of_lookup_2|congruence| |right; tauto]. left. exists j. split_and!; congruence.
  - intros t' g' grp ov _ s0 Hs0. destruct (createInstanceForGroup rate t' g' grp ov s0) as [s1 r] eqn:Hc.
    apply createInstanceForGroup_run in Hc as [(Hd & _)|(_ & (n & Hn) & req & w1 & w2 & rc & Ht & _ & _ & Hs1 & Hcr & Hs2 & _)];
      unfold rdb_inv in *; simpl; [by rewrite Hd|].
    destruct Hs1 as (Hd1 & _), Hs2 as (-> & _). apply law_create_rows in Hcr as (nats & extra & Hi & Hnats & _ & _ & Hx).
    assert (t' ≠ t) as Hne by (intros ->; by rewrite Hasleep in Hn).
    intros k Hk Hten. rewrite Hi, Hd1 in Hk. apply elem_of_app in Hk as [Hk|[Hk|Hk]%elem_of_app]; [by apply Hs0| |].
    + destruct (Hnats k Hk) as (Hkt & _). congruence.
    + destruct (Hx k Hk) as (Hkt & _). congruence.
  - intros id s0 Hs0. rewrite lift_eq. unfold rdb_inv in *. simpl.
    destruct (ReplaceNATInstance id (rs_world s0)) as [w' r] eqn:Hr. apply replace_nat_rows in Hr as (nats & Hi & Hn).
    simpl. intros k Hk Hten. rewrite Hi in Hk. apply elem_of_app in Hk as [Hk|Hk]; [by apply Hs0|].
    right. apply Hn, Hk.
  - intros now id st db db' HP _ [-> _]%update_or_norows_Ok k (k0 & Hk0 & ->)%elem_of_upd Ht.
    destruct (HP k0 Hk0) as [(j & ? & ? & ? & ?)|Hn]; [by destruct (live_id id k0)| |].
    + left. exists j. split_and!; [done|done|by destruct (live_id id k0)..].
    + right. unfold nat_row in *. by destruct (live_id id k0).
Qed.

(** Membership in a group, through lookups. *)
Lemma elem_of_group_lookup t g db id :
  db_wf db -> id ∈ GetInstancesByGroup t g true db <->
  exists i, GetInstance id db = Ok i /\ in_group t g i = true /\ status_ok i = true /\ i_on_demand i = false.
Proof.
  intros Hwf. rewrite elem_of_GetInstancesByGroup. setoid_rewrite elem_of_group_rows. split.
  - intros (i & (Hi & Ht & Hg & Ha & Ho) & Hid). exists i. unfold active, not_deleted in Ha.
    apply andb_true_iff in Ha as [Hd%bool_decide_eq_true Hst]. split_and!; auto.
    + by apply GetInstance_wf.
    + by apply in_group_true.
  - intros (i & Hg & [Ht Hgk]%in_group_true & Hst & Ho). apply GetInstance_Ok in Hg as (Hi & Hid & Hd).
    exists i. split_and!; auto. unfold active, not_deleted. by rewrite Hd.
Qed.

Lemma managed_list t g db : managed t g db = Z.of_nat (length (GetInstancesByGroup t g true db)).
Proof. unfold managed, GetInstancesByGroup. by rewrite length_fmap, length_order_by. Qed.

Lemma NoDup_GetInstancesByGroup t g ex db : db_wf db -> NoDup (GetInstancesByGroup t g ex db).
Proof. intros Hwf. unfold GetInstancesByGroup. rewrite order_by_perm. apply NoDup_fmap_sel, (wf_ids _ Hwf). Qed.

Lemma im_delete_run t id s s' r :
  lift (im_delete t id) s = (s', r) -> db_wf (w_db (rs_world s)) ->
  db_wf (w_db (rs_world s')) /\
  ((forall n, env_db_fault n = None) -> is_ok r = true -> GetInstance id (w_db (rs_world s')) = Err ErrNoRows) /\
  (forall id', id' ≠ id -> GetInstance id' (w_db (rs_world s')) = GetInstance id' (w_db (rs_world s))).
Proof.
  intros (w' & Hd & ->)%lift_run Hwf. simpl. split_and!.
  - pose proof (law_delete_wf t id (rs_world s) Hwf) as Hp. by rewrite Hd in Hp.
  - intros Hnf. by eapply law_delete_gone.
  - intros id'. by eapply law_delete_other.
Qed.

Lemma delete_each_run t g ids s s' es :
  delete_each t g ids s = (s', es) -> db_wf (w_db (rs_world s)) ->
  db_wf (w_db (rs_world s')) /\
  ((forall n, env_db_fault n = None) -> es = [] ->
     forall id, id ∈ ids -> GetInstance id (w_db (rs_world s')) = Err ErrNoRows) /\
  (forall id, id ∉ ids -> GetInstance id (w_db (rs_world s')) = GetInstance id (w_db (rs_world s))).
Proof.
  revert s es. induction ids as [|id ids IH]; intros s es Hr Hwf; simpl in Hr.
  { injection Hr as <- <-. split_and!; [done|set_solver|done]. }
  run_bind Hr as s1 r H1. apply im_delete_run in H1 as (Hwf1 & Hgone1 & Hoth1); [|done].
  destruct r as [[]|e].
  - apply IH in Hr as (Hwf' & Hgone & Hoth); [|done]. split_and!; [done| |].
    + intros Hnf Hes id' [->|Hid]%elem_of_cons; [|auto].
      destruct (decide (id ∈ ids)); [auto|]. rewrite Hoth by done. auto.
    + intros id' [Hne Hni]%not_elem_of_cons. rewrite Hoth by done. auto.
  - run_bind Hr as s2 u H2. apply lift_run in H2 as (w2 & (Hd2 & _)%emit_run & ->). simpl in Hd2.
    run_bind Hr as s3 es' H3. injection Hr as <- <-. apply IH in H3 as (Hwf' & _ & Hoth); [|simpl; by rewrite Hd2].
    simpl in Hoth. split_and!; [done|done|].
    intros id' [Hne Hni]%not_elem_of_cons. rewrite Hoth, Hd2 by done. auto.
Qed.

(** Deleting a prefix of a group's list leaves exactly the rest. *)
Lemma scaleDown_run t g n s s' r :
  let L := GetInstancesByGroup t g true (w_db (rs_world s)) in
  db_wf (w_db (rs_world s)) -> (forall n, env_db_fault n = None) ->
  scaleDown t g L n s = (s', r) -> r = Ok tt ->
  GetInstancesByGroup t g true (w_db (rs_world s')) ≡ₚ drop n L.
Proof.
  intros L Hwf Hnf Hr ->. unfold scaleDown in Hr. run_bind Hr as s1 es H1. injection Hr as <- Hes.
  assert (es = []) as -> by (by destruct es as [|e es]).
  apply delete_each_run in H1 as (Hwf' & Hgone & Hoth); [|done].
  pose proof (NoDup_GetInstancesByGroup t g true _ Hwf) as HndL. fold L in HndL.
  rewrite <-(take_drop n L) in HndL. apply NoDup_app in HndL as (_ & Hdisj & Hnd).
  apply NoDup_Permutation; [by apply NoDup_GetInstancesByGroup|done|]. intros id.
  rewrite elem_of_group_lookup by done. split.
  - intros (i & Hg & Hrest). destruct (decide (id ∈ take n L)) as [Hin|Hin].
    { by rewrite (Hgone Hnf eq_refl id Hin) in Hg. }
    rewrite Hoth in Hg by done.
    assert (id ∈ L) as HinL by (apply elem_of_group_lookup; eauto).
    rewrite <-(take_drop n L) in HinL. set_solver.
  - intros Hin. rewrite Hoth by (intros Hc; by apply (Hdisj id)).
    apply elem_of_group_lookup; [done|]. fold L. rewrite <-(take_drop n L). set_solver.
Qed.

Section Awake.
Variable t : string.
Hypothesis no_fault : forall n, env_db_fault n = None.
(** The sentinel is private to the reconciler. *)
Hypothesis private : forall req w e, (im_create req w).2 = Err e -> err_is e ErrTenantAsleep = false.

Lemma create_error_awake g grp ov s s' e :
  (forall n, env_asleep n t = false) ->
  createInstanceForGroup rate t g grp ov s = (s', Err e) -> err_is e ErrTenantAsleep = false.
Proof.
  intros Hawake. unfold createInstanceForGroup. intros Hr.
  run_bind Hr as s1 asleep H1. apply lift_run in H1 as (w1 & [-> _]%observe_run & ->). rewrite Hawake in Hr.
  run_bind Hr as s2 c H2. apply lift_run in H2 as (w2 & [_ Hc]%dbq_run & ->).
  destruct Hc as [(n & e' & Hn & _)|(_ & ->)]; [by rewrite no_fault in Hn|].
  case_bool_decide; [by injection Hr as _ <-|].
  run_bind Hr as s3 u H3. run_bind Hr as s4 asleep2 H4. apply lift_run in H4 as (w4 & [-> _]%observe_run & ->).
  rewrite Hawake in Hr. run_bind Hr as s5 rc H5. apply lift_run in H5 as (w5 & H5 & ->).
  destruct rc as [resp|e'].
  - run_bind Hr as s6 now H6. by run_bind Hr as s7 u7 H7.
  - injection Hr as _ <-. simpl. match type of H5 with im_create ?q ?w = _ => apply (private q w) end. by rewrite H5.
Qed.

Lemma scaleUp_run g grp n s s' :
  not_nat t g -> (forall n, env_asleep n t = false) ->
  scaleUp rate t g grp n s = (s', Ok tt) ->
  managed t g (w_db (rs_world s')) = managed t g (w_db (rs_world s)) + Z.of_nat n.
Proof.
  intros Hnn Hawake. revert s. induction n as [|n IH]; intros s Hr; simpl in Hr; [injection Hr as <-; lia|].
  run_bind Hr as s1 c H1. destruct c as [resp|e].
  - apply IH in Hr. rewrite Hr. apply createInstanceForGroup_run in H1
      as [(_ & _ & e & ?)|(_ & _ & req & w1 & w2 & rc & Ht & Hg & Hod & Hs1 & Hcr & Hs2 & Hok)]; [done|].
    destruct Hs1 as (Hd1 & _), Hs2 as (Hd2 & _).
    pose proof (managed_create t g _ _ _ _ Hnn Hcr Hod) as Hm. rewrite bool_decide_true in Hm by done.
    destruct Hm as [_ Hm]. rewrite Hd2, Hm, Hd1 by done. lia.
  - apply create_error_awake in H1; [|done]. rewrite H1 in Hr. by run_bind Hr as s2 u H2.
Qed.

Lemma scale_group_run g grp b s s' :
  not_nat t g -> db_wf (w_db (rs_world s)) -> (forall n, env_asleep n t = b) ->
  scale_group rate t g grp (GetInstancesByGroup t g true (w_db (rs_world s))) b s = (s', Ok tt) ->
  managed t g (w_db (rs_world s')) = Z.max 0 (if b then 0 else GetSize grp).
Proof.
  intros Hnn Hwf Hb Hr. unfold scale_group in Hr. run_bind Hr as s1 up H1.
  set (L := GetInstancesByGroup t g true (w_db (rs_world s))) in *.
  set (desired := if b then 0 else GetSize grp) in *.
  assert (managed t g (w_db (rs_world s)) = Z.of_nat (length L)) as HL by apply managed_list.
  destruct (decide (Z.of_nat (length L) < desired)) as [Hup|Hup];
    [rewrite bool_decide_true in H1 by done|rewrite bool_decide_false in H1 by done].
  - destruct up as [[]|e]; [|done]. destruct b; [unfold desired in *; lia|]. apply scaleUp_run in H1; [|done|done].
    rewrite bool_decide_false in Hr by lia. injection Hr as <-. lia.
  - injection H1 as <- <-. case_bool_decide as Hdown; [|injection Hr as <-; lia].
    apply scaleDown_run in Hr; [|done|done|done].
    rewrite managed_list, Hr, length_drop. fold L. lia.
Qed.

(** C5. Convergence.  For a group that is not the tenant's managed-NAT group (those
    are left to the NAT manager), of a size that is not negative: when no database
    statement fails, the cache is well formed, the tenant is asleep or awake
    throughout ([b]) and no error of the instance manager is the reconciler's own
    sentinel ([manager_private] shows it of the modelled manager), a scaling pass
    that reports success leaves the group with exactly its desired number of
    managed instances: the configured size while the tenant is awake, none while it
    sleeps. *)
Theorem scaling_converges g grp b s s' :
  not_nat t g -> db_wf (w_db (rs_world s)) -> (forall n, env_asleep n t = b) -> 0 <= GetSize grp ->
  scale_group rate t g grp (GetInstancesByGroup t g true (w_db (rs_world s))) b s = (s', Ok tt) ->
  managed t g (w_db (rs_world s')) = if b then 0 else GetSize grp.
Proof. intros Hnn Hwf Hb Hsz Hr. apply scale_group_run in Hr; [|done|done|done]. destruct b; lia. Qed.

(** A successful reconciliation of a group that is asleep, or whose
    configuration cannot be read, leaves no managed instance. *)
Lemma handleGroupChanged_unwanted g s s' :
  db_wf (w_db (rs_world s)) ->
  not_nat t g ->
  (forall n, env_asleep n t = true) \/ (forall n m, exists e, Config.GetGroup (env_config n) (env_dynamic m) t g = Err e) ->
  handleGroupChanged rate nat_handler t g s = (s', Ok tt) ->
  managed t g (w_db (rs_world s')) = 0.
Proof.
  intros Hwf Hnat Hun Hr. unfold handleGroupChanged in Hr.
  run_bind Hr as s1 cfg H1. apply lift_run in H1 as (w1 & [-> (Hd1 & _)]%observe_run & ->).
  assert (match c_nat (env_config (w_tick (rs_world s))) !! t with
          | Some n => bool_decide (nat_group n = g) | None => false end = false) as Hn.
  { specialize (Hnat (w_tick (rs_world s))). destruct (c_nat _ !! t); [by rewrite bool_decide_false by auto|done]. }
  rewrite Hn in Hr. clear Hn.
  run_bind Hr as s2 l H2. apply lift_run in H2 as (w2 & [(Hd2 & _) Hl]%dbq_run & ->). simpl in *.
  destruct Hl as [(n & e & Hn & _)|(_ & ->)]; [by rewrite no_fault in Hn|]. rewrite Hd1 in *.
  run_bind Hr as s3 gr H3. apply lift_run in H3 as (w3 & H3 & ->). simpl in H3.
  pose proof (silent_run _ _ _ _ (silent_get_group _ _) H3) as (Hd3 & _).
  set (L := GetInstancesByGroup t g true (w_db (rs_world s))) in *.
  assert (w_db w3 = w_db (rs_world s)) as Hd by congruence.
  destruct gr as [grp|e].
  - destruct Hun as [Hasleep|Hgone].
    2: { unfold get_group in H3. rewrite !M_bind_eq in H3. injection H3 as _ H3. simpl in H3.
         destruct (Hgone (w_tick w2) (S (w_tick w2))) as [e He]. by rewrite He in H3. }
    run_bind Hr as s4 b H4. apply lift_run in H4 as (w4 & [-> (Hd4 & _)]%observe_run & Hs4). rewrite Hasleep in Hr.
    assert (w_db (rs_world s4) = w_db (rs_world s)) as Hd4' by (rewrite Hs4; simpl in *; congruence). clear Hs4.
    run_bind Hr as s5 r H5. destruct r as [[]|e]; [|done].
    assert (managed t g (w_db (rs_world s5)) = 0) as Hm.
    { unfold L in H5. rewrite <-Hd4' in H5, Hwf. exact (scale_group_run g grp true s4 s5 Hnat Hwf Hasleep H5). }
    run_bind Hr as s6 u H6. injection H6 as <- _. by injection Hr as <-.
  - run_bind Hr as s4 u H4. injection H4 as Hs4 _.
    assert (w_db (rs_world s4) = w_db (rs_world s)) as Hd4' by (by rewrite <-Hs4). clear Hs4.
    unfold L in Hr. rewrite <-Hd4' in Hr, Hwf. rewrite managed_list. case_bool_decide as HL.
    + injection Hr as <-. by rewrite HL.
    + rewrite (scaleDown_run t g _ _ s' (Ok tt) Hwf no_fault Hr eq_refl). by rewrite drop_all.
Qed.

(** Sleep empties the tenant's groups: if handling a group's change reports
    success while the tenant sleeps, no managed instance of the group is left
    (NAT groups are the NAT manager's). *)
Theorem sleeping_group_emptied g s s' :
  db_wf (w_db (rs_world s)) ->
  not_nat t g ->
  (forall n, env_asleep n t = true) ->
  handleGroupChanged rate nat_handler t g s = (s', Ok tt) ->
  managed t g (w_db (rs_world s')) = 0.
Proof. eauto using handleGroupChanged_unwanted. Qed.

(** A failure to load the dynamic groups is treated as the deletion of the
    group: whatever the static configuration says, a reconciliation that runs
    while they cannot be loaded and reports success has deleted every managed
    instance of the group. *)
Theorem load_failure_empties_group g s s' :
  t ≠ "" -> db_wf (w_db (rs_world s)) ->
  not_nat t g ->
  (forall m, exists e, env_dynamic m = Err e) ->
  handleGroupChanged rate nat_handler t g s = (s', Ok tt) ->
  managed t g (w_db (rs_world s')) = 0.
Proof.
  intros Ht Hwf Hnat Hdyn. apply handleGroupChanged_unwanted; [done|done|]. right. intros n m.
  destruct (Hdyn m) as [e He]. unfold Config.GetGroup. rewrite bool_decide_false, He by done. eauto.
Qed.
End Awake.
End Convergence.

(** ** Retry *)

(** Both policies of the package satisfy this. *)
Definition policy_ok (p : RetryPolicy) : Prop :=
  4 <= rp_base_delay p <= rp_max_delay p /\ rp_max_delay p < 2 ^ 40 /\
  rp_max_attempts p <= 8 /\ rp_jitter_num p = 1 /\ rp_jitter_den p = 4.

Lemma policyFor_ok t : policy_ok (policyFor t).
Proof. destruct t; unfold policy_ok, policyFor, second; simpl; lia. Qed.

Lemma disconnectFollowUpPolicy_ok : policy_ok disconnectFollowUpPolicy.
Proof. unfold policy_ok, disconnectFollowUpPolicy, second; simpl; lia. Qed.

(** The backoff never panics, never overflows, and stays between the base delay
    and 1.25 times the maximum. *)
Lemma backoffDelay_range p a r :
  policy_ok p -> 0 <= a < 8 ->
  exists d, backoffDelay p a r = Some d /\ rp_base_delay p <= d < rp_max_delay p + rp_max_delay p / 4.
Proof.
  intros (Hb & Hm & Ha & Hn & Hd) Hat. unfold backoffDelay. rewrite Hn, Hd.
  assert (exists k, Z.shiftl 1 a = k /\ 1 <= k <= 128) as (k & -> & Hk).
  { assert (a = 0 \/ a = 1 \/ a = 2 \/ a = 3 \/ a = 4 \/ a = 5 \/ a = 6 \/ a = 7) as Hcases by lia.
    destruct_or! Hcases; subst a; eexists; (split; [reflexivity|]); vm_compute; split; congruence. }
  rewrite (wrap64_id k) by lia. rewrite wrap64_id by nia.
  set (d := if bool_decide (rp_max_delay p < rp_base_delay p * k) then rp_max_delay p else rp_base_delay p * k).
  assert (rp_base_delay p <= d <= rp_max_delay p) as Hdr by (unfold d; case_bool_decide; nia).
  rewrite Z.quot_div_nonneg by lia. rewrite Z.mul_1_r.
  assert (1 <= d / 4) by (apply Z.div_le_lower_bound; lia).
  rewrite bool_decide_false by lia. exists (d + r `mod` (d / 4)). split; [done|].
  pose proof (Z.mod_pos_bound r (d / 4) ltac:(lia)). pose proof (Z.div_le_mono d (rp_max_delay p) 4). lia.
Qed.

Section Loop.
Context `{HE : Env} `{IM : InstanceManager}.
Variables (rate : Z) (nat_handler : bool).

(** What scheduling after a backoff adds. *)
Lemma schedule_backoff_run p a ev s s' u :
  policy_ok p -> 0 <= a < 8 -> schedule_backoff p a ev s = (s', u) ->
  rs_queue s' = rs_queue s /\ rs_term s' = rs_term s /\
  (rs_scheduled s' = rs_scheduled s \/
   exists d, rs_scheduled s' = rs_scheduled s ++ [mkScheduled d ev (rs_term s)] /\
     rp_base_delay p <= d < rp_max_delay p + rp_max_delay p / 4).
Proof.
  intros Hp Ha Hr. unfold schedule_backoff in Hr. run_bind Hr as s1 r H1. apply lift_run in H1 as (w1 & _ & ->).
  destruct (backoffDelay_range p a r Hp Ha) as (d & Hd & Hrange). rewrite Hd in Hr.
  unfold scheduleEvent in Hr. run_bind Hr as s2 s3 H2. injection H2 as <- <-.
  destruct (negb _ || _); [injection Hr as <- <-; by eauto|]. injection Hr as <- <-. simpl. eauto 10.
Qed.

(** Retries are bounded: a failed event is retried at most eight times.
    Each retry carries the next attempt number, bypasses deduplication, belongs
    to the current term and waits between the base delay and 1.25 times the
    maximum delay; the random jitter never panics and the shifted delay never
    overflows.  The eighth failure schedules nothing. *)
Theorem retry_bounded ev s :
  0 <= ev_attempt ev ->
  let s' := (scheduleRetry ev s).1 in
  (rs_scheduled s' = rs_scheduled s \/
   exists d ev', rs_scheduled s' = rs_scheduled s ++ [mkScheduled d ev' (rs_term s)] /\
     ev_type ev' = ev_type ev /\ ev_instance_id ev' = ev_instance_id ev /\ ev_tenant ev' = ev_tenant ev /\
     ev_group ev' = ev_group ev /\ ev_attempt ev' = ev_attempt ev + 1 /\ ev_attempt ev' <= 8 /\
     ev_prevent_duplicate ev' = false /\ 5 * second <= d < 150 * second) /\
  (8 <= ev_attempt ev -> s' = s) /\
  (forall r, ev_attempt ev < 8 -> backoffDelay (policyFor (ev_type ev)) (ev_attempt ev) r ≠ None).
Proof.
  intros Ha s'. assert (rp_max_attempts (policyFor (ev_type ev)) = 8 /\ rp_base_delay (policyFor (ev_type ev)) = 5 * second
    /\ rp_max_delay (policyFor (ev_type ev)) = 120 * second) as (Hmax & Hbase & Hmd) by (by destruct (ev_type ev)).
  unfold s', scheduleRetry. rewrite Hmax. split_and!.
  - case_bool_decide; [by left|].
    destruct (schedule_backoff _ _ _ s) as [s1 u] eqn:Hs. apply schedule_backoff_run in Hs as (_ & _ & [Hq|(d & Hq & Hd)]);
      [by left| |apply policyFor_ok|lia].
    right. rewrite Hbase, Hmd in Hd. change (120 * second / 4) with (30 * second) in Hd. unfold second in *.
    eexists d, _. split; [exact Hq|]. simpl. split_and!; try done; lia.
  - intros Hge. by rewrite bool_decide_true.
  - intros r Hlt. destruct (backoffDelay_range (policyFor (ev_type ev)) (ev_attempt ev) r) as (d & -> & _);
      [apply policyFor_ok|lia|done].
Qed.

(** ** Leadership and terms *)

Definition quiet (s s' : RState) : Prop :=
  same_state (rs_world s) (rs_world s') /\ rs_scheduled s' = rs_scheduled s /\ rs_recent s' = rs_recent s /\
  rs_timers s' = rs_timers s /\ rs_term s' = rs_term s.

(** Events act only for the leadership term that enqueued them and only
    while this server is the leader: the loop takes an event of another term, or
    any event while not leader or before a configuration is loaded, off the
    queue without touching the cache, the records, the provider, the timers or
    the deduplication state. *)
Theorem stale_events_ignored ev term rest s :
  rs_queue s = (ev, term) :: rest ->
  term ≠ rs_term s \/ (forall n, env_leader n = false) \/ (forall n, env_config_loaded n = false) ->
  rs_queue (loop_step rate nat_handler s).1 = rest /\ quiet s (loop_step rate nat_handler s).1.
Proof.
  intros Hq Hstale. unfold loop_step. rewrite M_bind_eq. simpl. rewrite Hq. rewrite M_bind_eq. simpl.
  case_bool_decide as Ht; [|done]. destruct Hstale as [|[Hl|Hl]]; [done| |].
  - unfold handleEvent. rewrite M_bind_eq, lift_eq. simpl. rewrite Hl. done.
  - unfold handleEvent. rewrite M_bind_eq, lift_eq. simpl. destruct (env_leader _); [simpl|done].
    rewrite M_bind_eq, lift_eq. simpl. rewrite Hl. done.
Qed.

(** Terms recorded anywhere are not ahead of the current one. *)
Definition terms_le (s : RState) : Prop :=
  0 <= rs_term s < 2 ^ 64 /\
  (forall ev term, (ev, term) ∈ rs_queue s -> 0 <= term <= rs_term s) /\
  (forall sc, sc ∈ rs_scheduled s -> 0 <= sc_term sc <= rs_term s) /\
  (forall k d term, rs_timers s !! k = Some (d, term) -> 0 <= term <= rs_term s).

(** A restart cuts off the past: after a stop and a start (short of the
    2^64th restart), every event still queued is of an older term, so the loop
    drops it, and no expiry timer survives. *)
Theorem restart_drops_queue s ev term :
  terms_le s -> rs_started s = true -> rs_term s + 2 < 2 ^ 64 ->
  let s' := (Start (Stop s).1).1 in
  ((ev, term) ∈ rs_queue s' -> term ≠ rs_term s') /\ rs_timers s' = ∅ /\
  rs_started s' = true /\ rs_cancelled s' = false /\ terms_le s'.
Proof.
  intros (Ht & Hq & Hsc & Htm) Hst Hlt s'. unfold s', Stop. rewrite M_bind_eq. simpl. rewrite Hst. simpl.
  unfold next_term. rewrite (Z.mod_small (rs_term s + 1)) by lia. rewrite Z.mod_small by lia.
  split_and!; try done.
  - intros Hin. apply Hq in Hin. lia.
  - split_and!; simpl; [lia|lia| | |].
    + intros ev' term' Hin. apply Hq in Hin. lia.
    + intros sc Hin. apply Hsc in Hin. lia.
    + intros k d term'. by rewrite lookup_empty.
Qed.
End Loop.

(** ** The loop's own state as a transition system *)

(** [I] is kept by everything a handler does to the reconciler's own state. *)
Section Frame.
Context `{HE : Env} `{IM : InstanceManager}.
Variables (rate : Z) (nat_handler : bool).
Variable I : RState -> Prop.
Hypothesis I_lift : forall A (m : M World A), preserves I (lift m).
Hypothesis I_last : forall t, preserves I (modify (fun s => {| s with rs_last_create := t |})).
Hypothesis I_recent : forall f, preserves I (modify (fun s => {| s with rs_recent := f (rs_recent s) |})).
Hypothesis I_cancel : forall t g, preserves I (cancelGroupExpiryTimer t g).
Hypothesis I_timer : forall k d, preserves I (modify (fun s => {| s with rs_timers := <[k := (d, rs_term s)]> (rs_timers s) |})).
Hypothesis I_schedule : forall d ev, 0 <= ev_attempt ev <= 8 -> preserves I (scheduleEvent d ev).

Ltac fprog_step :=
  match goal with
  | |- preserves _ (mret _) => apply preserves_ret
  | |- preserves _ get_st => apply preserves_get_st
  | |- preserves _ (lift _) => apply I_lift
  | |- preserves _ (notify_error _ _ _) => apply I_lift
  | |- preserves _ (cancelGroupExpiryTimer _ _) => apply I_cancel
  | |- preserves _ (scheduleEvent _ _) => apply I_schedule; simpl; lia
  | |- preserves _ (modify _) => first [apply I_last | apply I_timer | apply I_recent]
  | |- preserves _ (mbind _ _) => apply preserves_bind; [|intros ?]
  | |- preserves _ (match ?x with _ => _ end) => destruct x eqn:?
  | |- preserves _ _ => solve [auto]
  end.
Ltac fprog := repeat fprog_step.

Lemma I_create t g grp ov : preserves I (createInstanceForGroup rate t g grp ov).
Proof. unfold createInstanceForGroup. fprog. Qed.

Lemma I_deleteInstance t id : preserves I (deleteInstance t id).
Proof. unfold deleteInstance. fprog. Qed.

Lemma I_initiate id g r d b : preserves I (initiateInstanceDrain id g r d b).
Proof. unfold initiateInstanceDrain. fprog. Qed.

#[local] Hint Resolve I_create I_deleteInstance I_initiate : core.

Lemma I_replaceAndDrain id t g reason grp skip : preserves I (replaceAndDrain rate nat_handler id t g reason grp skip).
Proof. unfold replaceAndDrain, replaceNATInstance. fprog. Qed.

Lemma I_handleDrainCompletion id inst st d : preserves I (handleDrainCompletion id inst st d).
Proof. unfold handleDrainCompletion, draining_gone. fprog. Qed.

#[local] Hint Resolve I_replaceAndDrain I_handleDrainCompletion : core.

Lemma I_backoff p a ev : 0 <= ev_attempt ev <= 8 -> preserves I (schedule_backoff p a ev).
Proof. intros Ha. unfold schedule_backoff. fprog. Qed.

Lemma I_replaceInstance id skip : preserves I (replaceInstance rate nat_handler id skip).
Proof. unfold replaceInstance. fprog. Qed.

Lemma I_expireInstance id r : preserves I (expireInstance rate nat_handler id r).
Proof. unfold expireInstance. fprog. Qed.

#[local] Hint Resolve I_replaceInstance I_expireInstance : core.

Lemma I_followUp ev inst id : 0 <= ev_attempt ev -> preserves I (scheduleDisconnectFollowUp ev inst id).
Proof.
  intros Ha. unfold scheduleDisconnectFollowUp.
  lazymatch goal with |- preserves _ (if ?b then _ else _) => destruct b end; [apply preserves_ret|].
  case_bool_decide as Hm; [apply preserves_ret|]. apply I_backoff. simpl in *. lia.
Qed.

#[local] Hint Resolve I_followUp : core.

Lemma I_handleCheckInstance ev : 0 <= ev_attempt ev -> preserves I (handleCheckInstance rate nat_handler ev).
Proof. intros Ha. unfold handleCheckInstance, check_status. fprog. Qed.

Lemma I_count_draining ids : preserves I (count_draining ids).
Proof. induction ids; simpl; fprog. Qed.

Lemma I_find_drifted h f ids : preserves I (find_drifted h f ids).
Proof. revert f. induction ids; intros f; simpl; fprog. Qed.

Lemma I_scaleUp t g grp n : preserves I (scaleUp rate t g grp n).
Proof. induction n; simpl; fprog. Qed.

Lemma I_delete_each t g ids : preserves I (delete_each t g ids).
Proof. induction ids; simpl; fprog. Qed.

#[local] Hint Resolve I_handleCheckInstance I_count_draining I_find_drifted I_scaleUp I_delete_each : core.

Lemma I_handleGroupChanged t g : preserves I (handleGroupChanged rate nat_handler t g).
Proof.
  unfold handleGroupChanged, scale_group, scaleDown, checkGroupConfigDrift, checkGroupExpiry, oldest_of_group,
    scheduleGroupExpiry. fprog.
Qed.

#[local] Hint Resolve I_handleGroupChanged : core.

Lemma I_reconcile_groups f ids : preserves I (reconcile_groups rate nat_handler f ids).
Proof. revert f. induction ids as [|[t g] ids IH]; intros f; simpl; fprog. Qed.

#[local] Hint Resolve I_reconcile_groups : core.

Lemma I_handleEvent ev : 0 <= ev_attempt ev -> preserves I (handleEvent rate nat_handler ev).
Proof.
  intros Ha. assert (preserves I (dispatch rate nat_handler ev)) as Hd.
  { unfold dispatch, handleInitialReconcile, handleTenantChanged, group_identities, handleSpotTerminating,
      replaceNATInstance, handleInstanceDeleted, handleDrainAcked, checkOnDemandExpiry. fprog. }
  assert (forall r, preserves I (conclude ev r)) as Hc.
  { intros r. unfold conclude. fprog.
    unfold scheduleRetry. case_bool_decide as Hm; [apply preserves_ret|]. apply I_backoff. simpl.
    destruct (ev_type ev); simpl in Hm; lia. }
  unfold handleEvent, duplicate. fprog.
Qed.
End Frame.

Section Reachable.
Context `{HE : Env} `{IM : InstanceManager}.
Variables (rate : Z) (nat_handler : bool).

Definition attempt_ok (ev : ReconcileEvent) : Prop := 0 <= ev_attempt ev <= 8.

(** The queue is within its capacity and attempt numbers within the retry bound. *)
Definition loop_inv (s : RState) : Prop :=
  Z.of_nat (length (rs_queue s)) <= queue_capacity /\
  Forall (fun q => attempt_ok q.1) (rs_queue s) /\ Forall (fun sc => attempt_ok (sc_event sc)) (rs_scheduled s).

Lemma loop_inv_schedule d ev : attempt_ok ev -> preserves loop_inv (scheduleEvent d ev).
Proof.
  intros Ha s (Hl & Hq & Hs). unfold scheduleEvent. rewrite M_bind_eq. simpl.
  destruct (negb _ || _); [done|]. simpl. split_and!; try done. simpl. apply Forall_app. auto.
Qed.

Lemma loop_inv_handleEvent ev : 0 <= ev_attempt ev -> preserves loop_inv (handleEvent rate nat_handler ev).
Proof.
  apply I_handleEvent; try (by intros; intros s Hs; exact Hs).
  - intros A m s Hs. rewrite lift_eq. exact Hs.
  - intros d e He. by apply loop_inv_schedule.
Qed.

Lemma loop_inv_push ev term s : loop_inv s -> attempt_ok ev -> Z.of_nat (length (rs_queue s)) < queue_capacity ->
  loop_inv (push ev term s).1.
Proof.
  intros (Hl & Hq & Hs) Ha Hlt. split_and!; simpl; [rewrite length_app; simpl; lia|apply Forall_app; auto|done].
Qed.

Lemma not_full s : full s = false -> Z.of_nat (length (rs_queue s)) < queue_capacity.
Proof. unfold full. rewrite bool_decide_eq_false. lia. Qed.

Lemma rstep_loop_inv s s' : rstep rate nat_handler s s' -> loop_inv s -> loop_inv s'.
Proof.
  intros Hstep Hs. destruct Hstep as [s|s Hst|s Hst Hc|ev s Ha|t s Hq|k s|t g s|s Hst].
  - unfold Start. simpl. by destruct (rs_started s).
  - done.
  - done.
  - unfold Enqueue. rewrite !M_bind_eq, lift_eq. simpl. destruct (full s) eqn:Hf; [done|].
    destruct (_ && _); [done|]. apply loop_inv_push; [done|unfold attempt_ok; lia|by apply not_full].
  - unfold EnqueueTenantChanged. rewrite M_bind_eq. simpl. destruct (_ || _); [done|].
    rewrite M_bind_eq, lift_eq. apply loop_inv_push; [done|unfold attempt_ok; simpl; lia|done].
  - unfold fire_scheduled. rewrite M_bind_eq. simpl. destruct (rs_scheduled s !! k) as [sc|] eqn:Hk; [|done].
    rewrite !M_bind_eq, lift_eq. simpl. destruct Hs as (Hl & Hq & Hsc).
    assert (attempt_ok (sc_event sc)) as Ha by exact (proj1 (Forall_lookup _ _) Hsc _ _ Hk).
    assert (Forall (fun sc => attempt_ok (sc_event sc)) (delete k (rs_scheduled s))) as Hdel.
    { rewrite delete_take_drop. apply Forall_app. split; [by apply Forall_take|by apply Forall_drop]. }
    destruct (full s) eqn:Hf; [done|]. destruct (_ && _); [done|].
    apply loop_inv_push; [done|done|by apply not_full].
  - unfold fire_timer. rewrite M_bind_eq. simpl. destruct (rs_timers s !! _) as [[d term]|]; [|done].
    rewrite M_bind_eq, lift_eq. simpl. destruct (full s) eqn:Hf; [done|]. destruct (_ && _); [done|].
    apply loop_inv_push; [done|unfold attempt_ok; simpl; lia|by apply not_full].
  - unfold loop_step. rewrite M_bind_eq. simpl. destruct (rs_queue s) as [|[ev term] rest] eqn:Hq; [done|].
    rewrite M_bind_eq. simpl. destruct Hs as (Hl & Hqa & Hsc). rewrite Hq in Hl, Hqa. simpl in Hl.
    inversion_clear Hqa as [|? ? Ha Hrest]. simpl in Ha.
    assert (loop_inv {| s with rs_queue := rest |}) as Hs' by (split_and!; simpl; [lia|done|done]).
    case_bool_decide; [|done]. apply loop_inv_handleEvent; [|done]. unfold attempt_ok in Ha. lia.
Qed.

(** In every reachable state of the reconciler, whatever the interleaving of
    leadership changes, enqueues, timers and loop iterations, the queue holds at
    most a thousand events and every queued or delayed event is within eight
    retry attempts. *)
Theorem reachable_loop_bounded s s' :
  rtc (rstep rate nat_handler) s s' -> rs_queue s = [] -> rs_scheduled s = [] ->
  Z.of_nat (length (rs_queue s')) <= 1000 /\
  (forall ev term, (ev, term) ∈ rs_queue s' -> 0 <= ev_attempt ev <= 8) /\
  (forall sc, sc ∈ rs_scheduled s' -> 0 <= ev_attempt (sc_event sc) <= 8).
Proof.
  intros Hsteps Hq Hsc. assert (loop_inv s) as Hinv.
  { unfold loop_inv. rewrite Hq, Hsc. split_and!; [done|constructor|constructor]. }
  assert (loop_inv s') as (Hl & Hqa & Hsa).
  { clear Hq Hsc. induction Hsteps; [done|]. eauto using rstep_loop_inv. }
  rewrite Forall_forall in Hqa. rewrite Forall_forall in Hsa. split_and!; [done| |].
  - intros ev term Hin. exact (Hqa _ Hin).
  - intros sc Hin. exact (Hsa _ Hin).
Qed.
End Reachable.

(** ** Deduplication, drain completion, expiry and drift *)

Section Decisions.
Context `{HE : Env} `{IM : InstanceManager}.
Variables (rate : Z) (nat_handler : bool).

(** Deduplication: an event that asks for it and whose key was processed
    less than two health-check intervals ago is dropped before any handler runs,
    leaving the cache, the records, the trace, the delayed events and the
    processed-at time as they were (entries older than the cooldown may be
    dropped from the map). *)
Theorem duplicate_dropped ev s last interval :
  ev_prevent_duplicate ev = true -> rs_recent s !! event_key ev = Some last ->
  (forall n, c_health_check_interval (env_config n) = interval) ->
  (forall n, env_now n - last < 2 * interval) ->
  let s' := (handleEvent rate nat_handler ev s).1 in
  same_state (rs_world s) (rs_world s') /\ rs_queue s' = rs_queue s /\ rs_scheduled s' = rs_scheduled s /\
  rs_timers s' = rs_timers s /\ rs_recent s' !! event_key ev = Some last.
Proof.
  intros Hpd Hlast Hint Hnow s'. unfold s', handleEvent.
  rewrite M_bind_eq, lift_eq. simpl. destruct (env_leader _); [simpl|done].
  rewrite M_bind_eq, lift_eq. simpl. destruct (env_config_loaded _); [simpl|done].
  rewrite M_bind_eq, lift_eq. simpl. rewrite M_bind_eq. unfold duplicate. rewrite Hpd. simpl.
  rewrite M_bind_eq, lift_eq. simpl. rewrite M_bind_eq. simpl. rewrite M_bind_eq. simpl. rewrite Hint.
  set (now := env_now _).
  assert (clean_recent now (2 * interval) (rs_recent s) !! event_key ev = Some last) as Hkeep.
  { unfold clean_recent. case_bool_decide; [|done]. apply map_lookup_filter_Some. split; [done|]. simpl.
    specialize (Hnow (S (S (S (w_tick (rs_world s)))))). unfold now. lia. }
  rewrite Hkeep. rewrite M_bind_eq, lift_eq. simpl. rewrite bool_decide_true by apply Hnow. simpl. by split_and!.
Qed.

(** The provider still runs the instance. *)
Definition provider_alive (id : string) : Prop :=
  forall n pid, match env_provider_status n id pid with
                | Ok st => IsUnhealthy (st_status st) = false
                | Err e => err_is e ErrInstanceNotFound = false
                end.

(** Drain completion.  A draining instance that is not acknowledged, whose
    timeout has not elapsed and that the provider still runs is left alone; once
    it is acknowledged or overdue its deletion is attempted at once, on behalf of
    its own tenant. *)
Theorem drain_completion id inst started timeout s :
  (i_drain_acked_at inst = None -> (forall n, env_now n - started < timeout) -> provider_alive id ->
     same_state (rs_world s) (rs_world (handleDrainCompletion id inst started timeout s).1)) /\
  (i_drain_acked_at inst ≠ None \/ (forall n, timeout <= env_now n - started) ->
     exists s1, same_state (rs_world s) (rs_world s1) /\
       handleDrainCompletion id inst started timeout s = deleteInstance (i_tenant inst) id s1).
Proof.
  split.
  - intros Hack Hnow Halive. unfold handleDrainCompletion. rewrite M_bind_eq, lift_eq. simpl.
    rewrite bool_decide_false by (by intros ?). rewrite bool_decide_false by (specialize (Hnow (w_tick (rs_world s))); lia).
    rewrite M_bind_eq. unfold draining_gone. destruct (i_provider_id inst) as [[|c pid]|]; [done| |done].
    rewrite M_bind_eq, lift_eq. simpl. specialize (Halive (S (w_tick (rs_world s))) (String c pid)).
    destruct (env_provider_status _ id (String c pid)); simpl in *; by rewrite Halive.
  - intros Hdue. exists {| s with rs_world := (time_now (rs_world s)).1 |}. split; [done|].
    unfold handleDrainCompletion. rewrite M_bind_eq, lift_eq. simpl.
    destruct Hdue as [Hack|Hdue]; [by rewrite bool_decide_true|].
    case_bool_decide; [done|]. rewrite bool_decide_true; [done|apply Hdue].
Qed.

(** The expiry timer.  The next check is set to the earliest configured
    threshold the oldest instance has not reached, never in the past, plus one
    second of padding, so the timer fires when the instance is strictly old
    enough.  The one exception is an instance exactly at the eligible age: then
    the timer waits for the forced age. *)
Theorem expiry_timer expiry age :
  0 <= ex_eligible_age expiry -> 0 <= ex_forced_age expiry ->
  let e := ex_eligible_age expiry in let f := ex_forced_age expiry in
  expiryTimerPadding <= next_expiry expiry age /\
  (0 < e -> f = 0 -> next_expiry expiry age = Z.max 0 (e - age) + expiryTimerPadding) /\
  (e = 0 -> 0 < f -> next_expiry expiry age = Z.max 0 (f - age) + expiryTimerPadding) /\
  (0 < e -> 0 < f -> age ≠ e -> next_expiry expiry age = Z.max 0 (Z.min e f - age) + expiryTimerPadding) /\
  (0 < e -> e < f -> age = e -> next_expiry expiry age = f - age + expiryTimerPadding).
Proof.
  intros He Hf e f. unfold next_expiry, expiryTimerPadding, second.
  fold e f. split_and!; intros; repeat case_bool_decide; simpl in *; lia.
Qed.

(** Reference: the instances as the drift check sees them. *)
Definition draining_in (db : DB) (id : string) : bool :=
  match GetInstance id db with Ok i => bool_decide (i_drain_started_at i ≠ None) | Err _ => false end.

Definition drifted_in (db : DB) (hash id : string) : bool :=
  match GetInstance id db with
  | Ok i => negb (bool_decide (default "" (i_infra_config_hash i) = hash))
  | Err _ => false
  end.

Lemma find_drifted_run hash found ids s :
  (forall n, env_db_fault n = None) ->
  (find_drifted hash found ids s).2 =
    (if existsb (draining_in (w_db (rs_world s))) ids then None
     else Some (match found with Some x => Some x | None => List.find (drifted_in (w_db (rs_world s)) hash) ids end)).
Proof.
  intros Hnf. revert found s. induction ids as [|id ids IH]; intros found s; simpl; [by destruct found|].
  rewrite M_bind_eq. destruct (lift _ s) as [s1 g] eqn:H1. apply lift_run in H1 as (w1 & [(Hd & _) Hg]%dbq_run & ->). simpl.
  destruct Hg as [(n & e & Hn & _)|(_ & ->)]; [by rewrite Hnf in Hn|].
  unfold draining_in at 1, drifted_in at 1. destruct (GetInstance id (w_db (rs_world s))) as [inst|e].
  - destruct (bool_decide (i_drain_started_at inst ≠ None)); [done|]. rewrite IH. simpl. rewrite Hd.
    destruct (existsb _ ids); [done|]. destruct found; [done|].
    by destruct (bool_decide (default "" (i_infra_config_hash inst) = hash)).
  - rewrite IH. simpl. by rewrite Hd.
Qed.

(** Drift rotation picks one instance, the oldest of the group whose
    infrastructure hash differs from the group's (a row without a hash counts as
    different from any non-empty one), and none at all while some instance of the
    group is draining. *)
Theorem drift_selection t g hash s :
  (forall n, env_db_fault n = None) ->
  let db := w_db (rs_world s) in
  let ids := GetInstancesByGroup t g true db in
  (find_drifted hash None ids s).2 =
    (if existsb (draining_in db) ids then None else Some (List.find (drifted_in db hash) ids)).
Proof. intros Hnf db ids. by rewrite find_drifted_run. Qed.
End Decisions.
