(* ===== verification/GC.v ===== *)
(** * Garbage collection ([src/internal/server/gc])

    The leader's periodic cycle: terminate unhealthy, dangling and stale
    pre-inserted instances, report missed health reports, and remove the records
    of instances deleted long enough ago.  Deletion goes through the same
    interface as the reconciler's, so the load-balancer barrier applies. *)

From S2P Require Import Prelude Provider LocalDB LocalDBFacts Config World Instances InstancesFacts Reconciler.

Section GC.
Context `{HE : Env} `{IM : InstanceManager}.
(** Whether a deleter and a reconciler are installed. *)
Variables hasDeleter hasReconciler : bool.

(** The record deletion shared by both sweeps: [None] when there is no key to
    delete (bad identifier or missing tenant). *)
Definition delete_record (inst : Instance) : M World (option (res unit)) :=
  match StorageKey (i_id inst) with
  | Err _ => mret None
  | Ok k => if bool_decide (i_tenant inst = "") then mret None
            else r ← store_delete (record_key (i_tenant inst) k); mret (Some r)
  end.

(** The second half of an iteration: record, row, reconciliation event. *)
Definition finish_cleanup (inst : Instance) : M World unit :=
  _ ← delete_record inst;
  _ ← dbx (fun now db => LocalDB.DeleteInstance now (i_id inst) db);
  if hasReconciler && negb (bool_decide (i_tenant inst = "")) && negb (bool_decide (i_group inst = "")) then
    now ← time_now;
    emit (ActEnqueue (mkEvent EventGroupChanged (i_tenant inst) (i_group inst) "" now false "" 0))
  else mret tt.

Definition terminate_one (inst : Instance) : M World unit :=
  match i_provider_id inst with
  | None | Some "" => finish_cleanup inst
  | Some _ =>
      if negb hasDeleter then mret tt
      else
        r ← im_delete (i_tenant inst) (i_id inst);
        match r with
        | Err _ => mret tt
        | Ok _ => finish_cleanup inst
        end
  end.

Definition terminateAndCleanup (toCleanup : list Instance) : M World unit := for_each toCleanup terminate_one.

Definition RunGarbageCollection (maxAge : Z) : M World (res unit) :=
  u ← dbq (fun _ db => Ok (LocalDB.FindUnhealthyProviderInstances db));
  match u with
  | Err e => mret (Err (ErrWrap "find unhealthy instances" e))
  | Ok unhealthy =>
      _ ← terminateAndCleanup unhealthy;
      d ← dbq (fun now db => Ok (LocalDB.FindDanglingInstances now maxAge db));
      match d with
      | Err e => mret (Err (ErrWrap "find dangling instances" e))
      | Ok dangling =>
          _ ← terminateAndCleanup dangling;
          s ← dbq (fun now db => Ok (LocalDB.FindStalePreInserts now maxAge db));
          match s with
          | Err e => mret (Err (ErrWrap "find stale pre-inserts" e))
          | Ok stale => _ ← terminateAndCleanup stale; mret (Ok tt)
          end
      end
  end.

(** One stale health report.  [None]: the division by a zero interval panics. *)
Fixpoint report_stale (interval : Z) (l : list Instance) : M World (option unit) :=
  match l with
  | [] => mret (Some tt)
  | inst :: l' =>
      match i_health_at inst with
      | None => report_stale interval l'
      | Some h =>
          _ ← time_now;
          if bool_decide (interval = 0) then mret None
          else
            _ ← (if hasReconciler then
                   now ← time_now;
                   emit (ActEnqueue (mkEvent EventCheckInstance "" "" (i_id inst) now true "" 0))
                 else mret tt);
            report_stale interval l'
      end
  end.

Definition CheckInstanceHealth (interval : Z) : M World (option (res unit)) :=
  now ← time_now;
  q ← dbq (fun _ db => Ok (LocalDB.QueryStaleHealthInstances (now - interval) db));
  match q with
  | Err e => mret (Some (Err (ErrWrap "query stale health instances" e)))
  | Ok l => r ← report_stale interval l; mret (match r with None => None | Some _ => Some (Ok tt) end)
  end.

Definition DefaultDeletedRecordRetention : Z := 30 * 60 * second.

(** One record past retention: the row goes only once the record is gone. *)
Definition purge_one (inst : Instance) : M World unit :=
  r ← delete_record inst;
  match r with
  | None => mret tt
  | Some (Err e) =>
      if bool_decide (e = ErrNotFound)
      then _ ← dbx (fun _ db => LocalDB.PurgeDeletedInstance (i_id inst) db); mret tt
      else mret tt
  | Some (Ok _) => _ ← dbx (fun _ db => LocalDB.PurgeDeletedInstance (i_id inst) db); mret tt
  end.

Definition CleanupDeletedInstanceRecords (retention : Z) : M World (res unit) :=
  let retention := if bool_decide (retention <= 0) then DefaultDeletedRecordRetention else retention in
  now ← time_now;
  d ← dbq (fun _ db => Ok (LocalDB.FindDeletedInstancesPastRetention (now - retention) db));
  match d with
  | Err e => mret (Err (ErrWrap "find deleted instances" e))
  | Ok l => _ ← for_each l purge_one; mret (Ok tt)
  end.

(** [Runner.runCycle]; [None] is a panic. *)
Definition runCycle (registrationTimeout healthCheckInterval retention : Z) : M World (option unit) :=
  leader ← observe env_leader;
  if negb leader then mret (Some tt)
  else
    r ← RunGarbageCollection registrationTimeout;
    match r with
    | Err _ => mret (Some tt)
    | Ok _ =>
        h ← CheckInstanceHealth healthCheckInterval;
        match h with
        | None => mret None
        | Some _ => _ ← CleanupDeletedInstanceRecords retention; mret (Some tt)
        end
    end.
End GC.
