(* ===== verification/GCFacts.v ===== *)
(** * Properties of garbage collection *)

From S2P Require Import Prelude Provider LocalDB LocalDBFacts Config World Instances InstancesFacts Reconciler ReconcilerFacts GC.
Import LocalDB.

Section Collect.
Context `{HE : Env} `{IM : InstanceManager} `{IML : !InstanceManagerLaws}.
Variables hasDeleter hasReconciler : bool.

Lemma preserves_delete_record I inst : preserves (db_inv I) (delete_record inst).
Proof. unfold delete_record. prog. Qed.

Lemma preserves_delete_row I id :
  (forall now db db', I db -> LocalDB.DeleteInstance now id db = Ok db' -> I db') ->
  preserves (db_inv I) (dbx (fun now db => LocalDB.DeleteInstance now id db)).
Proof. apply preserves_dbx. Qed.

(** Invariants of the database through one termination. *)
Lemma preserves_terminate_one I inst :
  (forall now db db', I db -> LocalDB.DeleteInstance now (i_id inst) db = Ok db' -> I db') ->
  preserves (db_inv I) (im_delete (i_tenant inst) (i_id inst)) ->
  preserves (db_inv I) (terminate_one hasDeleter hasReconciler inst).
Proof.
  intros Hrow Hdel. unfold terminate_one, finish_cleanup.
  prog; try done; try apply preserves_delete_record; by apply preserves_delete_row.
Qed.

Lemma terminate_one_wf inst : preserves (db_inv db_wf) (terminate_one hasDeleter hasReconciler inst).
Proof. apply preserves_terminate_one; [intros ???; apply db_wf_DeleteInstance|apply law_delete_wf]. Qed.

(** Terminating one instance leaves the lookup of every other one alone. *)
Lemma terminate_one_other id i inst :
  i_id inst ≠ id ->
  preserves (db_inv (fun db => GetInstance id db = Ok i)) (terminate_one hasDeleter hasReconciler inst).
Proof.
  intros Hne. apply preserves_terminate_one.
  - intros now db db' Hg [-> _]%DeleteInstance_Ok. by rewrite GetInstance_upd_other.
  - intros w Hw. unfold db_inv in *. destruct (im_delete _ _ w) as [w' r] eqn:Hd. simpl.
    by rewrite (law_delete_other _ _ _ _ _ _ Hd).
Qed.

Lemma terminate_list id i l :
  (forall inst, inst ∈ l -> i_id inst ≠ id) ->
  preserves (db_inv (fun db => GetInstance id db = Ok i)) (terminateAndCleanup hasDeleter hasReconciler l).
Proof. intros Hl. apply preserves_for_each. intros inst Hin. apply terminate_one_other. auto. Qed.

Lemma terminate_list_wf l : preserves (db_inv db_wf) (terminateAndCleanup hasDeleter hasReconciler l).
Proof. apply preserves_for_each. intros inst _. apply terminate_one_wf. Qed.

(** A row the collector must not touch: registered, known to the provider, and
    not recorded as unhealthy. *)
Definition healthy (i : Instance) : Prop :=
  i_registered_at i ≠ None /\ i_provider_id i ≠ None /\
  match i_provider_state i with Some st => IsUnhealthy (st_status st) = false | None => True end.

(** None of the three queries returns it. *)
Lemma healthy_not_selected i db (p : Instance -> bool) inst :
  db_wf db -> GetInstance (i_id i) db = Ok i -> p i = false -> inst ∈ sel p (instances db) -> i_id inst ≠ i_id i.
Proof.
  intros Hwf Hg Hp [Hpi Hin]%elem_of_sel Heq. apply GetInstance_Ok in Hg as (Hi & _).
  rewrite (NoDup_fmap_inj i_id (instances db) inst i (wf_ids _ Hwf) Hin Hi Heq) in Hpi. congruence.
Qed.

Lemma healthy_not_found i db now maxAge inst :
  db_wf db -> healthy i -> GetInstance (i_id i) db = Ok i ->
  inst ∈ FindUnhealthyProviderInstances db \/ inst ∈ FindDanglingInstances now maxAge db \/
  inst ∈ FindStalePreInserts now maxAge db -> i_id inst ≠ i_id i.
Proof.
  intros Hwf (Hreg & Hpid & Hst) Hg [Hin|[Hin|Hin]].
  - eapply healthy_not_selected; [done|done| |exact Hin]. cbv beta.
    destruct (i_provider_state i); [rewrite Hst|]; by rewrite andb_false_r.
  - unfold FindDanglingInstances in Hin. rewrite elem_of_order_by in Hin.
    eapply healthy_not_selected; [done|done| |exact Hin]. cbv beta. by destruct (i_registered_at i).
  - eapply healthy_not_selected; [done|done| |exact Hin]. cbv beta. by destruct (i_provider_id i).
Qed.

(** C4. Garbage collection never touches a healthy instance: one that is
    registered, known to the provider and not recorded in an unhealthy state is
    looked up exactly as before after a whole collection, whatever else is
    collected and whichever calls fail; the cache stays well formed. *)
Theorem gc_spares_healthy maxAge i w :
  db_wf (w_db w) -> healthy i -> GetInstance (i_id i) (w_db w) = Ok i ->
  let w' := (RunGarbageCollection hasDeleter hasReconciler maxAge w).1 in
  db_wf (w_db w') /\ GetInstance (i_id i) (w_db w') = Ok i.
Proof.
  intros Hwf Hh Hg w'.
  set (J := db_inv (fun db => db_wf db /\ GetInstance (i_id i) db = Ok i)).
  assert (forall l, (forall inst, inst ∈ l -> i_id inst ≠ i_id i) -> preserves J (terminateAndCleanup hasDeleter hasReconciler l)) as Hl.
  { intros l Hl w0 [Hw1 Hw2]. split; [by apply terminate_list_wf|by apply terminate_list]. }
  assert (forall A (q : Z -> DB -> res A) (P : A -> Prop) (f : res A -> M World (res unit)),
    (forall now db a, db_wf db -> GetInstance (i_id i) db = Ok i -> q now db = Ok a -> P a) ->
    (forall e, preserves J (f (Err e))) -> (forall a, P a -> preserves J (f (Ok a))) -> preserves J (dbq q ≫= f)) as Hq.
  { intros A q P f HqP He Ha w0 Hw0. rewrite M_bind_eq. destruct (dbq q w0) as [w1 r] eqn:H1.
    apply dbq_run in H1 as [(Hd & _) Hr]. assert (J w1) as Hw1 by (unfold J, db_inv in *; by rewrite Hd).
    simpl. destruct r as [a|e]; [|by apply He]. destruct Hr as [(n & e & _ & ?)|(now & Hr)]; [done|].
    apply Ha; [|done]. destruct Hw0. by eapply HqP. }
  assert (preserves J (RunGarbageCollection hasDeleter hasReconciler maxAge)) as Hp; [|by apply Hp].
  unfold RunGarbageCollection.
  apply (Hq _ _ (fun l => forall inst, inst ∈ l -> i_id inst ≠ i_id i)); [|intros; apply preserves_ret|].
  { intros now db l Hw0 Hg0 [= <-] inst Hin. apply (healthy_not_found i db now maxAge); auto. }
  intros l1 H1. apply preserves_bind; [by apply Hl|]. intros _.
  apply (Hq _ _ (fun l => forall inst, inst ∈ l -> i_id inst ≠ i_id i)); [|intros; apply preserves_ret|].
  { intros now db l Hw0 Hg0 [= <-] inst Hin. apply (healthy_not_found i db now maxAge); auto. }
  intros l2 H2. apply preserves_bind; [by apply Hl|]. intros _.
  apply (Hq _ _ (fun l => forall inst, inst ∈ l -> i_id inst ≠ i_id i)); [|intros; apply preserves_ret|].
  { intros now db l Hw0 Hg0 [= <-] inst Hin. apply (healthy_not_found i db now maxAge); auto. }
  intros l3 H3. apply preserves_bind; [by apply Hl|]. intros _. apply preserves_ret.
Qed.
End Collect.

Section Retention.
Context `{HE : Env}.

Lemma store_delete_run k w w' r :
  store_delete k w = (w', r) ->
  w_db w' = w_db w /\
  ((exists e n, r = Err e /\ env_store_fault n = Some e /\ w_store w' = w_store w) \/
   (r = Ok tt /\ w_store w' = delete k (w_store w))).
Proof.
  unfold store_delete. intros Hr. run_bind Hr as w1 f H1. apply observe_run in H1 as [Hf (Hd & Hs & _)].
  destruct f as [e|]; injection Hr as <- <-; (split; [done|]); [left; by eauto 6|right; simpl; by rewrite Hs].
Qed.

Lemma delete_record_run inst w w' r :
  delete_record inst w = (w', r) ->
  w_db w' = w_db w /\ (forall k, w_store w !! k = None -> w_store w' !! k = None) /\
  (forall x, r = Some x -> exists k, StorageKey (i_id inst) = Ok k /\
     match x with
     | Ok _ => w_store w' !! record_key (i_tenant inst) k = None
     | Err e => exists n, env_store_fault n = Some e
     end).
Proof.
  unfold delete_record. intros Hr. destruct (StorageKey (i_id inst)) as [k|e]; [|by injection Hr as <- <-].
  case_bool_decide; [by injection Hr as <- <-|]. run_bind Hr as w1 x H1. injection Hr as <- <-.
  apply store_delete_run in H1 as [Hd [(e & n & -> & Hn & Hs)|(-> & Hs)]]; split_and!; try done.
  - by rewrite Hs.
  - intros x [= <-]. eauto.
  - intros k' Hk'. rewrite Hs. apply lookup_delete_None. auto.
  - intros x [= <-]. exists k. split; [done|]. by rewrite Hs, lookup_delete_eq.
Qed.

(** The record of [i] is gone from storage, or storage said it was not there. *)
Definition record_gone (i : Instance) (w : World) : Prop :=
  exists k, StorageKey (i_id i) = Ok k /\
    (w_store w !! record_key (i_tenant i) k = None \/ exists n, env_store_fault n = Some ErrNotFound).

Lemma PurgeDeletedInstance_Ok id db db' :
  PurgeDeletedInstance id db = Ok db' ->
  instances db' = del (fun i => bool_decide (i_id i = id) && is_set (i_deleted_at i)) (instances db).
Proof.
  unfold PurgeDeletedInstance, mbind, res_bind. destruct (delete_instances _ db) as [d|e] eqn:Hd; [|done].
  apply delete_instances_Ok in Hd as [-> _]. destruct (affected _ _); [done|]. by intros [= <-].
Qed.

(** One purge, relative to the rows [l0] the sweep started from: rows only
    disappear, and a row of [l0] that disappeared is [inst] itself with its
    record gone. *)
Lemma purge_one_run inst w w' u :
  purge_one inst w = (w', u) ->
  (forall k, w_store w !! k = None -> w_store w' !! k = None) /\
  (forall i, i ∈ instances (w_db w') -> i ∈ instances (w_db w)) /\
  (forall i, i ∈ instances (w_db w) -> i ∈ instances (w_db w') \/
     (i_id i = i_id inst /\ i_deleted_at i ≠ None /\ (i_tenant i = i_tenant inst -> record_gone i w'))).
Proof.
  unfold purge_one. intros Hr. run_bind Hr as w1 r H1. apply delete_record_run in H1 as (Hd1 & Hst1 & Hrec).
  assert (forall w2 x, dbx (fun _ db => PurgeDeletedInstance (i_id inst) db) w1 = (w2, x) ->
    (exists k, StorageKey (i_id inst) = Ok k /\
      (w_store w1 !! record_key (i_tenant inst) k = None \/ exists n, env_store_fault n = Some ErrNotFound)) ->
    (forall k, w_store w !! k = None -> w_store w2 !! k = None) /\
    (forall i, i ∈ instances (w_db w2) -> i ∈ instances (w_db w)) /\
    (forall i, i ∈ instances (w_db w) -> i ∈ instances (w_db w2) \/
       (i_id i = i_id inst /\ i_deleted_at i ≠ None /\ (i_tenant i = i_tenant inst -> record_gone i w2)))) as Hpurge.
  { intros w2 x H2 (k & Hk & Hgone). apply dbx_run in H2 as (Hs2 & _ & Hp). rewrite Hs2.
    destruct Hp as [(e & _ & -> & _)|(now & db' & Hp%PurgeDeletedInstance_Ok & _ & ->)]; rewrite ?Hd1 in *;
      [by split_and!; auto|]. rewrite Hp. split_and!; [done|by intros i [_ Hi]%elem_of_del|].
    intros i Hi. destruct (bool_decide (i_id i = i_id inst) && is_set (i_deleted_at i)) eqn:Hb.
    - right. apply andb_true_iff in Hb as [Hid%bool_decide_eq_true Hset]. split_and!; [done|by destruct (i_deleted_at i)|].
      intros Hten. exists k. rewrite Hid, Hten, Hs2. done.
    - left. by apply elem_of_del. }
  destruct r as [[x|e]|].
  - run_bind Hr as w2 y H2. injection Hr as <- <-. apply Hpurge in H2; [done|].
    destruct (Hrec _ eq_refl) as (k & Hk & Hn). eauto.
  - case_bool_decide as He; [|injection Hr as <- <-; rewrite Hd1; by split_and!; auto].
    run_bind Hr as w2 y H2. injection Hr as <- <-. apply Hpurge in H2; [done|].
    destruct (Hrec _ eq_refl) as (k & Hk & Hn). subst e. eauto.
  - injection Hr as <- <-. rewrite Hd1. by split_and!; auto.
Qed.

Lemma purge_list_run l w w' u :
  for_each l purge_one w = (w', u) -> NoDup (i_id <$> instances (w_db w)) -> l ⊆ instances (w_db w) ->
  (forall k, w_store w !! k = None -> w_store w' !! k = None) /\
  (forall i, i ∈ instances (w_db w') -> i ∈ instances (w_db w)) /\
  (forall i, i ∈ instances (w_db w) -> i ∈ instances (w_db w') \/ (i ∈ l /\ record_gone i w')).
Proof.
  intros Hr Hnd Hsub. assert (forall l', l' ⊆ l -> forall w1 u, for_each l' purge_one w1 = (w', u) ->
    (forall i, i ∈ instances (w_db w1) -> i ∈ instances (w_db w)) ->
    (forall k, w_store w1 !! k = None -> w_store w' !! k = None) /\
    (forall i, i ∈ instances (w_db w') -> i ∈ instances (w_db w1)) /\
    (forall i, i ∈ instances (w_db w1) -> i ∈ instances (w_db w') \/ (i ∈ l /\ record_gone i w'))) as Hgen.
  2: { eapply Hgen; eauto. }
  clear Hr. intros l'. induction l' as [|inst l' IH]; intros Hl' w1 u1 Hr Hw1; simpl in Hr.
  { injection Hr as <- <-. by split_and!; auto. }
  run_bind Hr as w2 u2 H2. apply purge_one_run in H2 as (Hst2 & Hsub2 & Hout2).
  apply IH in Hr as (Hst & Hsub' & Hout); [|set_solver|auto]. split_and!; [auto|auto|].
  intros i Hi. destruct (Hout2 i Hi) as [Hi2|(Hid & _ & Hgone)]; [auto|]. right.
  assert (i = inst) as -> by (eapply (NoDup_fmap_inj i_id (instances (w_db w))); [done|auto|set_solver|done]).
  split; [set_solver|]. destruct (Hgone eq_refl) as (k & Hk & [Hn|Hn]); exists k; eauto.
Qed.

(** Retention.  The deleted-record sweep never removes a row that is live or
    was deleted within the retention period (thirty minutes when none is
    configured), adds none, and removes a row only once its record is gone from
    object storage, so a later rebuild cannot bring it back. *)
Theorem retention_sweep retention w :
  db_wf (w_db w) ->
  let R := if bool_decide (retention <= 0) then 30 * 60 * second else retention in
  match CleanupDeletedInstanceRecords retention w with
  | (w', _) =>
    (forall i, i ∈ instances (w_db w') -> i ∈ instances (w_db w)) /\
    (forall i, i ∈ instances (w_db w) -> i ∈ instances (w_db w') \/
       ((exists d n, i_deleted_at i = Some d /\ d < env_now n - R) /\ record_gone i w'))
  end.
Proof.
  intros Hwf R. destruct (CleanupDeletedInstanceRecords retention w) as [w' r] eqn:Hr.
  unfold CleanupDeletedInstanceRecords in Hr. run_bind Hr as w1 now H1. apply observe_run in H1 as [Hnow (Hd1 & _)].
  run_bind Hr as w2 q H2. apply dbq_run in H2 as [(Hd2 & _) Hq]. rewrite Hd1 in *.
  destruct q as [l|e]; [|injection Hr as <- <-; rewrite Hd2; by auto].
  destruct Hq as [(? & ? & _ & ?)|(_ & [= ->])]; [done|].
  run_bind Hr as w3 u H3. injection Hr as <- <-. set (l := FindDeletedInstancesPastRetention _ _) in *.
  assert (forall i, i ∈ l -> i ∈ instances (w_db w) /\ exists d n, i_deleted_at i = Some d /\ d < env_now n - R) as Hl.
  { intros i [Hp Hi]%elem_of_sel. split; [done|]. apply andb_true_iff in Hp as [_ Hb].
    destruct (i_deleted_at i) as [d|]; [|done]. simpl in Hb. apply bool_decide_eq_true in Hb.
    exists d, (w_tick w). rewrite <-Hnow. done. }
  apply purge_list_run in H3 as (_ & Hsub & Hout); rewrite ?Hd2 in *; [|apply (wf_ids _ Hwf)|intros i Hi; by apply Hl].
  split; [done|]. intros i Hi. destruct (Hout i Hi) as [?|[Hin ?]]; [auto|]. right. split; [|done]. by apply Hl.
Qed.
End Retention.

(** ** Public keys and the purge *)

Definition has_key (db : DB) (id : string) : Prop := id ∈ (pk_instance_id <$> public_keys db).

(** Every method but [StorePublicKeys] leaves the table of public keys alone. *)
Lemma step_public_keys db db' :
  db_step db db' -> foreign_keys db' = foreign_keys db /\
  (public_keys db' = public_keys db \/ exists now id keys, StorePublicKeys now id keys db = Ok db').
Proof.
  intros Hstep. destruct Hstep as
    [inst db db' Hs|now inst db db' Hs|now id db db' Hs|id db db' Hs|now id pem ip4 ip6 host db db' Hs
    |now id nonce pem db db' Hs|now id h db db' Hs|now id st db db' Hs|now insts db db' Hs|now insts db db' Hs
    |now id db db' Hs|now id db db' Hs|now ids db db' Hs|now own ids db db' Hs|now k id st db db' Hs|id db db' Hs
    |now t g r i db db' Hs|now hs db db' Hs|now id c t n pem db db' Hs|now c pem db db' Hs|m at_ db db' Hs
    |now id keys db db' Hs].
  - unfold CreateInstance in Hs. destruct (_ || _); [done|]. injection Hs as <-. auto.
  - apply update_or_norows_Ok in Hs as [-> _]. auto.
  - apply update_or_norows_Ok in Hs as [-> _]. auto.
  - unfold PurgeDeletedInstance, mbind, res_bind in Hs. destruct (delete_instances _ db) as [d|e] eqn:Hd; [|done].
    apply delete_instances_Ok in Hd as [-> _]. destruct (affected _ _); [done|]. injection Hs as <-. auto.
  - injection Hs as <-. auto.
  - apply update_or_norows_Ok in Hs as [-> _]. auto.
  - apply update_or_norows_Ok in Hs as [-> _]. auto.
  - apply update_or_norows_Ok in Hs as [-> _]. auto.
  - injection Hs as <-. auto.
  - unfold SeedFromS3Data, mbind, res_bind in Hs. destruct (seed_s3_rows _ _ _); [|done].
    apply delete_instances_Ok in Hs as [-> _]. auto.
  - apply update_or_norows_Ok in Hs as [-> _]. auto.
  - apply update_or_norows_Ok in Hs as [-> _]. auto.
  - rewrite MarkInstancesDeleted_eq in Hs. injection Hs as <-. auto.
  - rewrite MarkInstancesDeletedIfProviderMissing_eq in Hs. injection Hs as <- <-. auto.
  - unfold UpsertLBInstance in Hs. destruct (affected _ _); [destruct (_ && _); [done|]|]; injection Hs as <-; auto.
  - injection Hs as <-. auto.
  - unfold UpsertGroup in Hs. case_bool_decide; [done|]. injection Hs as <-. auto.
  - unfold ReplaceGroupHashes, mbind, res_bind in Hs. destruct (replace_group_rows _ _ _); [|done]. injection Hs as <-. auto.
  - unfold CreateOperatorRegistrationRecord in Hs. destruct (_ || _); [done|]. injection Hs as <-. auto.
  - unfold UpdateOperatorRegistration in Hs. destruct (affected _ _); [done|]. injection Hs as <-. auto.
  - injection Hs as <-. auto.
  - split; [|eauto]. unfold StorePublicKeys in Hs. destruct keys as [|key keys]; [by injection Hs as <-|].
    destruct (_ && _); [done|]. injection Hs as <-.
    assert (forall ks d, foreign_keys (foldl (fun d key => store_key_row now id key d) d ks) = foreign_keys d) as Hfk.
    { intros ks. induction ks as [|k ks IH]; intros d; simpl; [done|]. by rewrite IH. }
    exact (Hfk (key :: keys) db).
Qed.

Lemma store_key_row_kept now id key db x : has_key db x -> has_key (store_key_row now id key db) x.
Proof.
  unfold has_key. simpl. rewrite fmap_app, elem_of_app. intros (r & -> & Hr)%list_elem_of_fmap.
  destruct (bool_decide (pk_instance_id r = id) && bool_decide (pk_filename r = pks_filename key)) eqn:Hb.
  - right. apply andb_true_iff in Hb as [Hid%bool_decide_eq_true _]. simpl. set_solver.
  - left. apply list_elem_of_fmap. exists r. split; [done|]. by apply elem_of_del.
Qed.

Lemma StorePublicKeys_kept now id keys db db' x :
  StorePublicKeys now id keys db = Ok db' -> has_key db x -> has_key db' x.
Proof.
  assert (forall ks d, has_key d x -> has_key (foldl (fun d key => store_key_row now id key d) d ks) x) as Hks.
  { intros ks. induction ks as [|k ks IH]; intros d Hx; simpl; [done|]. by apply IH, store_key_row_kept. }
  unfold StorePublicKeys. destruct keys as [|key keys]; [by intros [= <-]|]. destruct (_ && _); [done|].
  intros [= <-]. apply (Hks (key :: keys)).
Qed.

Lemma has_key_steps db db' x :
  rtc db_step db db' -> has_key db x -> has_key db' x /\ foreign_keys db' = foreign_keys db.
Proof.
  induction 1 as [|db1 db2 db3 Hs _ IH]; intros Hx; [done|].
  apply step_public_keys in Hs as [Hfk [Hpk|(now & id & keys & Hst)]].
  - destruct IH as [? ->]; [unfold has_key in *; by rewrite Hpk|]. done.
  - destruct IH as [? ->]; [by eapply StorePublicKeys_kept|]. done.
Qed.

(** An instance that ever submitted a public key can never be purged: no
    method removes rows of [public_keys], so with foreign keys enforced the purge
    of such an instance is a constraint error in every later state, and the row
    outlives its retention period for good. *)
Theorem submitted_key_blocks_purge db db' id i :
  foreign_keys db = true -> has_key db id -> rtc db_step db db' ->
  i ∈ instances db' -> i_id i = id -> i_deleted_at i ≠ None ->
  PurgeDeletedInstance id db' = Err ErrConstraint.
Proof.
  intros Hfk Hk Hsteps Hi Hid Hdel. destruct (has_key_steps _ _ _ Hsteps Hk) as [Hk' Hfk'].
  unfold PurgeDeletedInstance, delete_instances. rewrite Hfk', Hfk. simpl.
  rewrite (proj2 (existsb_exists _ _)); [done|]. exists i. split.
  - apply list_elem_of_In, elem_of_sel. split; [|done]. rewrite bool_decide_true by done.
    by destruct (i_deleted_at i).
  - unfold referenced. unfold has_key in Hk'. rewrite Hid, bool_decide_true; done.
Qed.
