(* ===== verification/Certificates.v ===== *)
(** * Client certificates: issuing and authentication

    [src/internal/server/keys/ed25519.go] and [src/internal/server/pki/client.go]
    issue certificates that name a client, its tenant and its role;
    [src/internal/server/api/auth.go] reads them back on every call.  PEM, X.509 and
    ASN.1 are the standard library's: the class [Crypto] holds their functions and
    [CryptoLaws] the round trips their documentation promises. *)

From S2P Require Import Prelude Provider LocalDB Config World.
From stdpp Require pretty.

(** ** gRPC results *)

Inductive Code :=
  | Unauthenticated | PermissionDenied | InvalidArgument | FailedPrecondition | Internal | NotFound | Unavailable.

(** A reply, or [status.Errorf(code, message)]. *)
Inductive rpc (A : Type) : Type :=
  | Reply (a : A)
  | Fail (code : Code) (message : string).
Arguments Reply {A} a.
Arguments Fail {A} code message.

(** ** The standard library *)

Record PemBlock := mkPemBlock { pb_type : string; pb_bytes : string }.

Inductive PublicKey :=
  | Ed25519Public (raw : string)
  | OtherPublic (raw : string).

Inductive PrivateKey :=
  | Ed25519Private (raw : string)
  | OtherPrivate (raw : string).

Record Extension := mkExtension { ext_id : list Z; ext_value : string }.

(** A parsed [x509.Certificate]. *)
Record Certificate := mkCertificate {
  ct_serial_number : Z;
  ct_common_name : string;
  ct_organization : list string;
  ct_extensions : list Extension;
  ct_public_key : PublicKey;
}.

(** An [x509.Certificate] as the template of a new one. *)
Record Template := mkTemplate {
  tm_serial_number : Z;
  tm_common_name : string;
  tm_organization : list string;
  tm_not_before : Z;
  tm_not_after : Z;
  tm_client_auth : bool;      (* ExtKeyUsage is exactly ClientAuth *)
  tm_is_ca : bool;
  tm_extra_extensions : list Extension;
}.

Class Crypto := mkCrypto {
  pem_decode : string -> option (PemBlock * string);       (* the block and the rest *)
  pem_encode : PemBlock -> string;
  x509_parse_certificate : string -> res Certificate;
  x509_parse_pkcs8 : string -> res PrivateKey;
  x509_parse_pkix : string -> res PublicKey;
  x509_create_certificate : nat -> Template -> Certificate -> PublicKey -> PrivateKey -> res string;
  x509_verify : Z -> Certificate -> Certificate -> res unit; (* at a time, against a root, for client authentication *)
  asn1_marshal : string -> res string;
  asn1_unmarshal : string -> res string;
}.

(** Encoding then decoding gives back what was encoded; a created certificate
    parses to the template's subject, serial number and key, and carries the extra
    extensions after the standard ones, whose identifiers are in the arc 2.5.29. *)
Class CryptoLaws `{Crypto} := mkCryptoLaws {
  pem_roundtrip : forall b, pem_decode (pem_encode b) = Some (b, "");
  asn1_roundtrip : forall v b, asn1_marshal v = Ok b -> asn1_unmarshal b = Ok v;
  x509_roundtrip : forall n t ca pub key der, x509_create_certificate n t ca pub key = Ok der ->
    exists c standard, x509_parse_certificate der = Ok c /\
      ct_serial_number c = tm_serial_number t /\ ct_common_name c = tm_common_name t /\
      ct_organization c = tm_organization t /\ ct_public_key c = pub /\
      ct_extensions c = standard ++ tm_extra_extensions t /\
      Forall (fun e => take 3 (ext_id e) = [2; 5; 29]) standard;
}.

Section Certificates.
Context `{Env} `{Crypto}.

(** ** Keys (keys/ed25519.go) *)

Definition ParseEd25519PrivateKey (data : string) : res PrivateKey :=
  match pem_decode data with
  | None => Err (ErrMsg "failed to decode PEM block")
  | Some (block, rest) =>
      if bool_decide (pb_type block ≠ "PRIVATE KEY") then Err (ErrMsg "invalid PEM block type")
      else if bool_decide (rest ≠ "") then Err (ErrMsg "unexpected data after PEM block")
      else match x509_parse_pkcs8 (pb_bytes block) with
        | Err e => Err (ErrWrap "failed to parse private key" e)
        | Ok (OtherPrivate _) => Err (ErrMsg "key is not an Ed25519 private key")
        | Ok key => Ok key
        end
  end.

(** ** Issuing (pki/client.go) *)

Definition roleOID : list Z := [1; 3; 6; 1; 4; 1; 999999; 1].

Definition hour : Z := 3600 * 1000000000.

(** The client's key in its PEM form. *)
Definition parse_client_key (clientPublicKeyPEM : string) : res PublicKey :=
  match pem_decode clientPublicKeyPEM with
  | None => Err (ErrMsg "failed to decode client public key PEM")
  | Some (block, _) =>
      match x509_parse_pkix (pb_bytes block) with
      | Err e => Err (ErrWrap "failed to parse client public key" e)
      | Ok (OtherPublic _) => Err (ErrMsg "client public key must be Ed25519")
      | Ok key => Ok key
      end
  end.

(** The template once the inputs were parsed, signed and encoded. *)
Definition sign_client_certificate (caCert : Certificate) (caKey : PrivateKey) (key : PublicKey)
    (clientID role tenant : string) (ttlHours : Z) : M World (res (string * Z)) :=
  if bool_decide (tenant = "") then mret (Err (ErrMsg "tenant is required"))
  else
    now ← time_now;
    let expiresAt := now + wrap64 (ttlHours * hour) in
    serial ← time_now;
    match asn1_marshal role with
    | Err e => mret (Err (ErrWrap "failed to marshal role extension" e))
    | Ok roleBytes =>
        let template := mkTemplate serial clientID [tenant] now expiresAt true false [mkExtension roleOID roleBytes] in
        der ← observe (fun n => x509_create_certificate n template caCert key caKey);
        mret match der with
        | Err e => Err (ErrWrap "failed to generate client certificate" e)
        | Ok certDER => Ok (pem_encode (mkPemBlock "CERTIFICATE" certDER), expiresAt)
        end
    end.

Definition GenerateClientCertificate (caCertPEM caKeyPEM clientPublicKeyPEM clientID role tenant : string)
    (ttlHours : Z) : M World (res (string * Z)) :=
  match pem_decode caCertPEM with
  | None => mret (Err (ErrMsg "failed to decode CA certificate PEM"))
  | Some (caCertBlock, _) =>
      match x509_parse_certificate (pb_bytes caCertBlock) with
      | Err e => mret (Err (ErrWrap "failed to parse CA certificate" e))
      | Ok caCert =>
          match ParseEd25519PrivateKey caKeyPEM with
          | Err e => mret (Err (ErrWrap "failed to parse CA private key" e))
          | Ok caKey =>
              match parse_client_key clientPublicKeyPEM with
              | Err e => mret (Err e)
              | Ok key => sign_client_certificate caCert caKey key clientID role tenant ttlHours
              end
          end
      end
  end.

(** The serial number in decimal. *)
Definition ExtractCertSerial (certPEM : string) : res string :=
  match pem_decode certPEM with
  | None => Err (ErrMsg "failed to decode certificate PEM")
  | Some (block, _) =>
      match x509_parse_certificate (pb_bytes block) with
      | Err e => Err (ErrWrap "failed to parse certificate" e)
      | Ok cert => Ok (pretty.pretty (ct_serial_number cert))
      end
  end.

(** ** Authentication (api/auth.go) *)

Record ClientInfo := mkClientInfo {
  ci_client_id : string;
  ci_role : string;
  ci_tenant : string;
  ci_cert : Certificate;
}.

Definition ParseCertificateFromPEM (certPEM : string) : res Certificate :=
  match pem_decode certPEM with
  | None => Err (ErrMsg "failed to decode PEM block")
  | Some (block, _) =>
      if bool_decide (pb_type block ≠ "CERTIFICATE") then Err (ErrMsg "invalid PEM block type")
      else match x509_parse_certificate (pb_bytes block) with
        | Err e => Err (ErrWrap "failed to parse certificate" e)
        | Ok cert => Ok cert
        end
  end.

(** The first extension with the role's identifier. *)
Definition role_of (extensions : list Extension) : string :=
  match filter (fun e => ext_id e = roleOID) extensions with
  | [] => ""
  | e :: _ => match asn1_unmarshal (ext_value e) with Err _ => ext_value e | Ok role => role end
  end.

Definition extractClientInfo (cert : Certificate) : res ClientInfo :=
  if bool_decide (ct_common_name cert = "") then Err (ErrMsg "client ID not found in certificate")
  else match ct_organization cert with
  | [tenant] =>
      let role := role_of (ct_extensions cert) in
      if bool_decide (role = "") then Err (ErrMsg "role not found in certificate")
      else Ok (mkClientInfo (ct_common_name cert) role tenant cert)
  | [] => Err (ErrMsg "certificate contains no Organization value")
  | _ => Err (ErrMsg "certificate contains multiple Organization values")
  end.

(** What the connection says about the peer. *)
Inductive Peer :=
  | NoPeer
  | NoTLS
  | TLSPeer (certificates : list Certificate).

Record AuthInterceptor := mkAuthInterceptor {
  ai_ca_cert : Certificate;
  ai_required_role : string;
}.

Definition verifyCertificate (a : AuthInterceptor) (cert : Certificate) : M World (res unit) :=
  now ← time_now;
  mret match x509_verify now (ai_ca_cert a) cert with
  | Err e => Err (ErrWrap "certificate verification failed" e)
  | Ok u => Ok u
  end.

Definition authenticate (a : AuthInterceptor) (p : Peer) : M World (rpc ClientInfo) :=
  match p with
  | NoPeer => mret (Fail Unauthenticated "no peer information")
  | NoTLS => mret (Fail Unauthenticated "no TLS authentication info")
  | TLSPeer [] => mret (Fail Unauthenticated "no client certificate provided")
  | TLSPeer (clientCert :: _) =>
      v ← verifyCertificate a clientCert;
      match v with
      | Err _ => mret (Fail Unauthenticated "certificate verification failed")
      | Ok _ =>
          match extractClientInfo clientCert with
          | Err _ => mret (Fail Unauthenticated "failed to extract client info")
          | Ok clientInfo =>
              if bool_decide (ci_role clientInfo ≠ ai_required_role a)
              then mret (Fail PermissionDenied "insufficient permissions")
              else mret (Reply clientInfo)
          end
      end
  end.

(** ** Round trip *)

Context {HL : CryptoLaws}.

Lemma role_of_issued standard role roleBytes :
  Forall (fun e => take 3 (ext_id e) = [2; 5; 29]) standard -> asn1_marshal role = Ok roleBytes ->
  role_of (standard ++ [mkExtension roleOID roleBytes]) = role.
Proof.
  intros Hstd Hm. unfold role_of. rewrite filter_app, filter_cons_True by done.
  replace (filter _ standard) with (@nil Extension); simpl; [by rewrite (asn1_roundtrip _ _ Hm)|].
  symmetry. induction Hstd as [|e l He Hl IH]; [done|]. rewrite filter_cons_False; [done|].
  intros Heq. by rewrite Heq in He.
Qed.

(** What an issued certificate says when it is read back. *)
Definition issued_as (certPEM clientID role tenant clientPublicKeyPEM : string) : Prop :=
  exists cert key, ParseCertificateFromPEM certPEM = Ok cert /\
    parse_client_key clientPublicKeyPEM = Ok key /\ ct_public_key cert = key /\
    ct_common_name cert = clientID /\
    extractClientInfo cert = Ok (mkClientInfo clientID role tenant cert).

Lemma GenerateClientCertificate_run ca caKey pub clientID role tenant ttl w w' certPEM expiresAt :
  clientID ≠ "" -> role ≠ "" ->
  GenerateClientCertificate ca caKey pub clientID role tenant ttl w = (w', Ok (certPEM, expiresAt)) ->
  same_state w w' /\ tenant ≠ "" /\ (exists n, expiresAt = env_now n + wrap64 (ttl * hour)) /\
  issued_as certPEM clientID role tenant pub.
Proof.
  intros Hid Hrole. unfold GenerateClientCertificate. intros Hr.
  destruct (pem_decode ca) as [[b ?]|]; [|done]. destruct (x509_parse_certificate (pb_bytes b)) as [caCert|]; [|done].
  destruct (ParseEd25519PrivateKey caKey) as [k|]; [|done].
  destruct (parse_client_key pub) as [key|] eqn:Hkey; [|done]. unfold sign_client_certificate in Hr.
  case_bool_decide as Ht; [done|]. run_bind Hr as w1 now H1. apply observe_run in H1 as (-> & H1).
  run_bind Hr as w2 serial H2. apply observe_run in H2 as (_ & H2).
  destruct (asn1_marshal role) as [roleBytes|] eqn:Hm; [|done].
  run_bind Hr as w3 der H3. apply observe_run in H3 as (Hder & H3). symmetry in Hder. injection Hr as <- Hres.
  destruct der as [certDER|]; simplify_eq/=.
  apply x509_roundtrip in Hder as (c & standard & Hp & _ & Hcn & Horg & Hpub & Hext & Hstd).
  split_and!; [eauto using same_state_trans|done|by eexists|].
  exists c, key. unfold ParseCertificateFromPEM, extractClientInfo. rewrite pem_roundtrip. simpl.
  rewrite Hp. split_and!; try done.
  simpl in *. rewrite Hcn, Horg, Hext. rewrite bool_decide_false by done.
  by rewrite (role_of_issued _ _ _ Hstd Hm), bool_decide_false.
Qed.

(** An issued certificate authenticates as exactly its identity, for its role only. *)
Lemma issued_authenticates a cert certPEM clientID role tenant pub others w w' r :
  issued_as certPEM clientID role tenant pub -> ParseCertificateFromPEM certPEM = Ok cert ->
  authenticate a (TLSPeer (cert :: others)) w = (w', r) ->
  same_state w w' /\
  match r with
  | Reply info => info = mkClientInfo clientID role tenant cert /\ ai_required_role a = role
  | Fail PermissionDenied _ => ai_required_role a ≠ role
  | Fail Unauthenticated _ => exists now e, x509_verify now (ai_ca_cert a) cert = Err e
  | Fail _ _ => False
  end.
Proof.
  intros (c & key & Hc & _ & _ & _ & Hinfo) Hcert. rewrite Hc in Hcert. injection Hcert as ->.
  unfold authenticate, verifyCertificate. intros Hr. run_bind Hr as w1 v H1. run_bind H1 as w2 now H2.
  apply observe_run in H2 as (-> & H2). injection H1 as <- <-.
  destruct (x509_verify _ (ai_ca_cert a) cert) as [u|e] eqn:Hv; [|injection Hr as <- <-; split; eauto].
  rewrite Hinfo in Hr. simpl in Hr. case_bool_decide as Hrole; injection Hr as <- <-; (split; [done|]); [congruence|].
  by split.
Qed.
End Certificates.
