(* ===== verification/Registration.v ===== *)
(** * Registration of agents and operators

    [src/internal/server/api/registration] and [src/pkg/nonce/nonce.go]: a client
    presents a signed nonce and a public key and receives a certificate for the
    identity in the nonce.  [src/internal/server/api/operator/renew_certificate.go]
    renews an operator's certificate.

    Agents' nonces are single use through the instance row in the local database;
    operators' nonces are bound to the first key that uses them by a conditional
    create in cluster storage, which every server of the cluster may attempt at any
    time ([rg_others]: nobody overwrites or deletes these objects). *)

From S2P Require Import Prelude Provider LocalDB Config World Instances Certificates.

(** [nonce.Claims]. *)
Record Claims := mkClaims {
  cl_subject : string;
  cl_kind : string;
  cl_config_hash : string;
  cl_cluster_id : string;
  cl_shard : string;
  cl_group : string;
  cl_on_demand : bool;
  cl_tenant : string;
}.

(** [proto.RegisterClientRequest]. *)
Record RegisterClientRequest := mkRegisterClientRequest {
  rq_nonce_jwt : string;
  rq_public_key_pem : string;
  rq_private_ipv4 : string;
  rq_private_ipv6 : string;
  rq_hostname : string;
}.

(** The record kept for an operator: written at registration and at renewal. *)
Record OperatorRecord := mkOperatorRecord {
  or_client_id : string;
  or_tenant : string;
  or_public_key_pem : string;
  or_cert_serial : string;
  or_expires_at : Z;
  or_renewed : bool;
}.

(** The shared world and the objects of cluster storage: nonce bindings (under
    [operator-nonce/]) and operator records (under [operator/]). *)
Record RegState := mkRegState {
  rg_world : World;
  rg_bindings : gmap string string;
  rg_operators : gmap string OperatorRecord;
}.

(** The service's dependencies. *)
Class RegEnv := mkRegEnv {
  rg_shard_leader : nat -> bool;
  rg_cluster_leader : nat -> bool;
  rg_jwt_ed25519 : string -> res bool;               (* the token parses; its method is EdDSA *)
  rg_jwt_verify : nat -> string -> res (Claims * bool); (* signature and time claims, with the service's key *)
  rg_digest : string -> string;                      (* hexadecimal SHA-256 *)
  rg_has_manager : bool;                             (* instanceManager != nil *)
  rg_ca_cert_pem : string;
  rg_ca_key_pem : string;
  rg_others : nat -> gmap string string;             (* bindings created by other servers *)
  rg_bind_fault : nat -> option (err * bool);        (* PutIfMatch fails; whether it took effect *)
  rg_get_fault : nat -> option err;
  rg_put_fault : nat -> option err;
}.

Section Registration.
Context `{Env} `{Crypto} `{RegEnv}.

(** ** Nonces (pkg/nonce) *)

Definition nonce_Validate (n : nat) (token kind : string) : res Claims :=
  match rg_jwt_ed25519 token with
  | Err e => Err (ErrWrap "parse nonce" e)
  | Ok false => Err (ErrWrap "parse nonce" (ErrMsg "unexpected signing method"))
  | Ok true =>
      match rg_jwt_verify n token with
      | Err e => Err (ErrWrap "parse nonce" e)
      | Ok (claims, valid) =>
          if negb valid then Err (ErrMsg "invalid nonce")
          else if bool_decide (cl_kind claims ≠ kind) then Err (ErrMsg "invalid kind")
          else if bool_decide (cl_subject claims = "") || bool_decide (cl_cluster_id claims = "") ||
                  bool_decide (cl_tenant claims = "")
          then Err (ErrMsg "nonce requires sub, cluster_id, and tenant")
          else Ok claims
      end
  end.

(** ** The shared state *)

(** A step on the world; meanwhile other servers may bind nonces that are free. *)
Definition on_world {A} (m : M World A) : M RegState A :=
  fun s => let '(w, a) := m (rg_world s) in
    (mkRegState w (rg_bindings s ∪ rg_others (w_tick (rg_world s))) (rg_operators s), a).

Definition create_object (key data : string) (fault : option (err * bool)) : M RegState (res unit) :=
  fun s =>
    let create := {| s with rg_bindings := <[key := data]> (rg_bindings s) |} in
    match rg_bindings s !! key, fault with
    | Some _, Some (e, _) => (s, Err e)
    | Some _, None => (s, Err ErrPrecondition)
    | None, Some (e, applied) => (if applied : bool then create else s, Err e)
    | None, None => (create, Ok tt)
    end.

(** [clusterStorage.PutIfMatch(key, data, "")]: create only. *)
Definition storage_create (key data : string) : M RegState (res unit) :=
  fault ← on_world (observe rg_bind_fault);
  create_object key data fault.

Definition storage_read (key : string) : M RegState (res string) :=
  fault ← on_world (observe rg_get_fault);
  match fault with
  | Some e => mret (Err e)
  | None => fun s : RegState => (s, match rg_bindings s !! key with Some v => Ok v | None => Err ErrNotFound end)
  end.

Definition storage_put_operator (key : string) (record : OperatorRecord) : M RegState (res unit) :=
  fault ← on_world (observe rg_put_fault);
  match fault with
  | Some e => mret (Err e)
  | None => fun s : RegState => ({| s with rg_operators := <[key := record]> (rg_operators s) |}, Ok tt)
  end.

(** ** The service (service.go) *)

Definition isInstanceID (id : string) : bool := is_ok (env_puid_decode id "").

Definition getCertificateTTL (certType : string) : M RegState Z :=
  loaded ← on_world (observe env_config_loaded);
  cfg ← on_world (observe env_config);
  mret (if negb loaded then 24
        else match c_certificates cfg !! certType with
        | Some cert => if bool_decide (cc_ttl cert > 0) then cc_ttl cert else 24
        | None => 24
        end).

Definition operator_key (tenant storageKey : string) : string :=
  ("operator/" ++ tenant ++ "." ++ storageKey ++ ".json")%string.

Definition storeRegistrationInS3 (clientID tenant publicKeyPEM certSerial : string) (expiresAt : Z)
    (providerID : option string) (privateIPv4 privateIPv6 hostname : string) : M RegState (res unit) :=
  if isInstanceID clientID then
    if rg_has_manager then
      on_world (UpdateRegistration tenant clientID publicKeyPEM certSerial expiresAt providerID
                  privateIPv4 privateIPv6 hostname)
    else mret (Ok tt)
  else if bool_decide (tenant = "") then mret (Err (ErrMsg "tenant is required for operator registration"))
  else
    let storageKey := match StorageKey clientID with Ok k => k | Err _ => clientID end in
    storage_put_operator (operator_key tenant storageKey)
      (mkOperatorRecord clientID tenant publicKeyPEM certSerial expiresAt false).

(** ** RegisterAgent *)

(** From the certificate on: store the record, then mark the row, whose failure is
    only logged. *)
Definition finish_agent (req : RegisterClientRequest) (instanceID tenant : string) (providerID : option string)
    (certPEM : string) (expiresAt : Z) : M RegState (rpc (string * Z)) :=
  match ExtractCertSerial certPEM with
  | Err _ => mret (Fail Internal "failed to process certificate")
  | Ok certSerial =>
      r ← storeRegistrationInS3 instanceID tenant (rq_public_key_pem req) certSerial expiresAt providerID
            (rq_private_ipv4 req) (rq_private_ipv6 req) (rq_hostname req);
      match r with
      | Err _ => mret (Fail Internal "failed to complete registration")
      | Ok _ =>
          _ ← on_world (dbx (fun now => LocalDB.MarkInstanceRegistered now instanceID (rq_public_key_pem req)
                               (rq_private_ipv4 req) (rq_private_ipv6 req) (rq_hostname req)));
          mret (Reply (certPEM, expiresAt))
      end
  end.

Definition register_agent_claims (req : RegisterClientRequest) (claims : Claims) : M RegState (rpc (string * Z)) :=
  loaded ← on_world (observe env_config_loaded);
  cfg ← on_world (observe env_config);
  if negb loaded then mret (Fail Internal "config not loaded")
  else if bool_decide (cl_cluster_id claims ≠ c_cluster_id cfg) then mret (Fail InvalidArgument "cluster_id mismatch")
  else if bool_decide (cl_shard claims ≠ c_shard_id cfg) then mret (Fail InvalidArgument "shard mismatch")
  else
    row ← on_world (dbq (fun _ => LocalDB.GetInstanceByNonce (rq_nonce_jwt req)));
    match row with
    | Err _ => mret (Fail Unauthenticated "nonce validation failed")
    | Ok instance =>
        if bool_decide (is_Some (i_registered_at instance)) then mret (Fail Unauthenticated "nonce already used")
        else
          ttl ← getCertificateTTL "agent";
          cert ← on_world (GenerateClientCertificate rg_ca_cert_pem rg_ca_key_pem (rq_public_key_pem req)
                             (cl_subject claims) "agent" (cl_tenant claims) ttl);
          match cert with
          | Err _ => mret (Fail Internal "failed to generate certificate")
          | Ok (certPEM, expiresAt) =>
              finish_agent req (cl_subject claims) (cl_tenant claims) (i_provider_id instance) certPEM expiresAt
          end
    end.

Definition RegisterAgent (req : RegisterClientRequest) : M RegState (rpc (string * Z)) :=
  leader ← on_world (observe rg_shard_leader);
  if negb leader then mret (Fail FailedPrecondition "not the shard leader")
  else
    claims ← on_world (observe (fun n => nonce_Validate n (rq_nonce_jwt req) "agent"));
    match claims with
    | Err _ => mret (Fail Unauthenticated "invalid registration nonce")
    | Ok claims => register_agent_claims req claims
    end.

(** ** RegisterOperator *)

Definition nonce_key (nonce : string) : string := ("operator-nonce/" ++ rg_digest nonce ++ ".pem")%string.

(** Binds the nonce to the first key that uses it; [true] on first use. *)
Definition claimOperatorNonce (nonce publicKeyPEM : string) : M RegState (res bool) :=
  r ← storage_create (nonce_key nonce) publicKeyPEM;
  match r with
  | Ok _ => mret (Ok true)
  | Err e =>
      if negb (err_is e ErrPrecondition) then mret (Err (ErrWrap "persist nonce binding" e))
      else
        existing ← storage_read (nonce_key nonce);
        match existing with
        | Err e => mret (Err (ErrWrap "read nonce binding" e))
        | Ok key =>
            if bool_decide (key ≠ publicKeyPEM)
            then mret (Err (ErrMsg "nonce already used with a different public key"))
            else mret (Ok false)
        end
  end.

(** The row of a first use; its failure is only logged. *)
Definition cache_operator (firstUse : bool) (clusterID tenant nonce publicKeyPEM : string) : M RegState (res unit) :=
  if firstUse then
    id ← on_world (observe (fun n => env_new_id n "opr"));
    match id with
    | Err e => mret (Err (ErrWrap "generating operator ID" e))
    | Ok id => on_world (dbx (fun now => LocalDB.CreateOperatorRegistrationRecord now id clusterID tenant nonce publicKeyPEM))
    end
  else mret (Ok tt).

(** From the certificate on. *)
Definition finish_operator (req : RegisterClientRequest) (clusterID tenant certPEM : string) (expiresAt : Z)
    : M RegState (rpc (string * Z)) :=
  first ← claimOperatorNonce (rq_nonce_jwt req) (rq_public_key_pem req);
  match first with
  | Err _ => mret (Fail Unauthenticated "nonce validation failed")
  | Ok firstUse =>
      match ExtractCertSerial certPEM with
      | Err _ => mret (Fail Internal "failed to process certificate")
      | Ok certSerial =>
          _ ← cache_operator firstUse clusterID tenant (rq_nonce_jwt req) (rq_public_key_pem req);
          r ← storeRegistrationInS3 clusterID tenant (rq_public_key_pem req) certSerial expiresAt None "" "" "";
          mret match r with
          | Err _ => Fail Internal "failed to complete registration"
          | Ok _ => Reply (certPEM, expiresAt)
          end
      end
  end.

Definition register_operator_claims (req : RegisterClientRequest) (claims : Claims) : M RegState (rpc (string * Z)) :=
  loaded ← on_world (observe env_config_loaded);
  cfg ← on_world (observe env_config);
  if negb loaded then mret (Fail Internal "config not loaded")
  else if bool_decide (cl_cluster_id claims ≠ c_cluster_id cfg) then mret (Fail InvalidArgument "cluster_id mismatch")
  else if bool_decide (cl_subject claims ≠ cl_cluster_id claims)
  then mret (Fail InvalidArgument "subject and cluster_id mismatch")
  else
    ttl ← getCertificateTTL "operator";
    cert ← on_world (GenerateClientCertificate rg_ca_cert_pem rg_ca_key_pem (rq_public_key_pem req)
                       (cl_subject claims) "operator" (cl_tenant claims) ttl);
    match cert with
    | Err _ => mret (Fail Internal "failed to generate certificate")
    | Ok (certPEM, expiresAt) => finish_operator req (cl_subject claims) (cl_tenant claims) certPEM expiresAt
    end.

Definition RegisterOperator (req : RegisterClientRequest) : M RegState (rpc (string * Z)) :=
  leader ← on_world (observe rg_cluster_leader);
  if negb leader then mret (Fail FailedPrecondition "not the cluster leader")
  else
    claims ← on_world (observe (fun n => nonce_Validate n (rq_nonce_jwt req) "operator"));
    match claims with
    | Err _ => mret (Fail Unauthenticated "invalid registration nonce")
    | Ok claims => register_operator_claims req claims
    end.

(** ** RenewCertificate (operator service)

    Cluster storage and the leadership check are configured, as [cmd/root.go] does. *)

Definition renewal_ttl (role : string) : M RegState Z :=
  loaded ← on_world (observe env_config_loaded);
  cfg ← on_world (observe env_config);
  mret (if negb loaded then 24 * 365
        else match c_certificates cfg !! role with
        | Some cert => if bool_decide (cc_ttl cert > 0) then cc_ttl cert else 24 * 365
        | None => 24 * 365
        end).

Definition updateOperatorRegistrationInS3 (clusterID tenant publicKeyPEM certSerial : string) (expiresAt : Z)
    : M RegState (res unit) :=
  storage_put_operator (operator_key tenant clusterID)
    (mkOperatorRecord clusterID tenant publicKeyPEM certSerial expiresAt true).

Definition RenewCertificate (clientInfo : ClientInfo) (publicKeyPEM : string) : M RegState (rpc (string * Z)) :=
  if bool_decide (publicKeyPEM = "") then mret (Fail InvalidArgument "public_key_pem is required")
  else
    leader ← on_world (observe rg_cluster_leader);
    if negb leader then mret (Fail FailedPrecondition "not the cluster leader")
    else if bool_decide (ci_role clientInfo ≠ "operator")
    then mret (Fail PermissionDenied "certificate renewal only available for operators")
    else
      loaded ← on_world (observe env_config_loaded);
      if negb loaded then mret (Fail Internal "config not loaded")
      else
        ttl ← renewal_ttl "operator";
        cert ← on_world (GenerateClientCertificate rg_ca_cert_pem rg_ca_key_pem publicKeyPEM
                           (ci_client_id clientInfo) (ci_role clientInfo) (ci_tenant clientInfo) ttl);
        match cert with
        | Err _ => mret (Fail Internal "failed to generate certificate")
        | Ok (certPEM, expiresAt) =>
            match ExtractCertSerial certPEM with
            | Err _ => mret (Fail Internal "failed to process certificate")
            | Ok certSerial =>
                r ← updateOperatorRegistrationInS3 (ci_client_id clientInfo) (ci_tenant clientInfo)
                      publicKeyPEM certSerial expiresAt;
                match r with
                | Err _ => mret (Fail Internal "failed to update registration")
                | Ok _ =>
                    _ ← on_world (dbx (fun now => LocalDB.UpdateOperatorRegistration now (ci_client_id clientInfo) publicKeyPEM));
                    mret (Reply (certPEM, expiresAt))
                end
            end
        end.

End Registration.
