(* ===== verification/RegistrationFacts.v ===== *)
(** * Theorems about registration

    A certificate speaks for the identity in the nonce and nothing else; an
    operator's nonce belongs to the first key that used it, across servers; an
    agent's nonce works once, as long as the database records its use. *)

From S2P Require Import Prelude Provider LocalDB LocalDBFacts Config World Instances Certificates Registration.
From stdpp Require Import relations.

(** ** Nonce bindings only grow *)

Definition grows {A} (m : M RegState A) : Prop := forall s, rg_bindings s ⊆ rg_bindings (m s).1.

Lemma grows_ret {A} (a : A) : grows (mret a).
Proof. by intros s. Qed.

Lemma grows_bind {A B} (m : M RegState A) (f : A -> M RegState B) :
  grows m -> (forall a, grows (f a)) -> grows (m ≫= f).
Proof. intros Hm Hf s. rewrite M_bind_eq. etrans; [apply Hm|apply Hf]. Qed.

Lemma grows_on_world `{RegEnv} {A} (m : M World A) : grows (on_world m).
Proof. intros s. unfold on_world. destruct (m (rg_world s)). simpl. apply map_union_subseteq_l. Qed.

Lemma grows_create_object k d fault : grows (create_object k d fault).
Proof.
  intros s. unfold create_object. destruct (rg_bindings s !! k) eqn:Hk, fault as [[e []]|]; simpl; try done;
    by apply insert_subseteq.
Qed.

Create HintDb registration.
#[export] Hint Resolve grows_ret grows_on_world grows_create_object : registration.

Ltac grows_step :=
  match goal with
  | |- grows (mbind _ _) => apply grows_bind; [|intros ?]
  | |- grows (match ?x with _ => _ end) => destruct x
  | |- grows _ => solve [auto with registration | by intros s]
  end.

Section Growth.
Context {HE : Env} {HC : Crypto} {HR : RegEnv}.

Lemma grows_storage_put_operator k r : grows (storage_put_operator k r).
Proof. unfold storage_put_operator. repeat grows_step. Qed.

Lemma grows_storeRegistrationInS3 id t k c e p v4 v6 h : grows (storeRegistrationInS3 id t k c e p v4 v6 h).
Proof. unfold storeRegistrationInS3, storage_put_operator. repeat grows_step. Qed.

Lemma grows_RegisterAgent req : grows (RegisterAgent req).
Proof.
  unfold RegisterAgent, register_agent_claims, finish_agent, getCertificateTTL.
  repeat grows_step; apply grows_storeRegistrationInS3.
Qed.

Lemma grows_claimOperatorNonce nonce key : grows (claimOperatorNonce nonce key).
Proof. unfold claimOperatorNonce, storage_create, storage_read. repeat grows_step. Qed.

Lemma grows_RegisterOperator req : grows (RegisterOperator req).
Proof.
  unfold RegisterOperator, register_operator_claims, finish_operator, getCertificateTTL, cache_operator.
  repeat grows_step; (apply grows_claimOperatorNonce || apply grows_storeRegistrationInS3).
Qed.

Lemma grows_RenewCertificate info key : grows (RenewCertificate info key).
Proof.
  unfold RenewCertificate, renewal_ttl, updateOperatorRegistrationInS3.
  repeat grows_step; apply grows_storage_put_operator.
Qed.
End Growth.

(** ** The cluster *)

(** What happens in the cluster: a call to any server of it, with any environment
    and any state of that server's own, or other servers' first uses of nonces. *)
Inductive cluster_step (digest : string -> string) : RegState -> RegState -> Prop :=
  | cluster_agent (E : Env) (C : Crypto) (R : RegEnv) req s :
      rg_digest = digest -> cluster_step digest s (RegisterAgent req s).1
  | cluster_operator (E : Env) (C : Crypto) (R : RegEnv) req s :
      rg_digest = digest -> cluster_step digest s (RegisterOperator req s).1
  | cluster_renew (E : Env) (C : Crypto) (R : RegEnv) info key s :
      rg_digest = digest -> cluster_step digest s (RenewCertificate info key s).1
  | cluster_other_server w s : cluster_step digest s {| s with rg_world := w |}.

Lemma cluster_grows digest s s' : rtc (cluster_step digest) s s' -> rg_bindings s ⊆ rg_bindings s'.
Proof.
  induction 1 as [|s s1 s2 Hstep _ IH]; [done|]. etrans; [|exact IH]. destruct Hstep.
  - apply grows_RegisterAgent.
  - apply grows_RegisterOperator.
  - apply grows_RenewCertificate.
  - done.
Qed.

Section Operator.
Context {HE : Env} {HC : Crypto} {HR : RegEnv}.

Lemma on_world_run {A} (m : M World A) s s' a :
  on_world m s = (s', a) -> m (rg_world s) = (rg_world s', a) /\ rg_operators s' = rg_operators s.
Proof. unfold on_world. destruct (m (rg_world s)) as [w x]. by intros [= <- <-]. Qed.

(** A claim that succeeds leaves the nonce bound to the claimed key. *)
Lemma claimOperatorNonce_run nonce key s s' first :
  claimOperatorNonce nonce key s = (s', Ok first) -> rg_bindings s' !! nonce_key nonce = Some key.
Proof.
  unfold claimOperatorNonce, storage_create. intros Hr. run_bind Hr as s1 r H1. run_bind H1 as s2 fault H2.
  unfold create_object in H1.
  destruct (rg_bindings s2 !! nonce_key nonce) as [k|] eqn:Hk, fault as [[e applied]|]; injection H1 as <- <-.
  1, 2, 3: destruct (negb _); [done|]; unfold storage_read in Hr; run_bind Hr as s3 ex H3;
    destruct ex as [k'|]; [|done]; case_bool_decide as Hne; [done|]; injection Hr as <- _;
    run_bind H3 as s4 gf H4; destruct gf; injection H3 as <- H3; [done|];
    destruct (rg_bindings s4 !! nonce_key nonce); simplify_eq; done.
  injection Hr as <- _. simpl. by rewrite lookup_insert_eq.
Qed.

(** How a registration succeeds: the nonce validates, a certificate is issued for
    its subject, and the rest follows. *)
Lemma RegisterOperator_run req s s' certPEM expiresAt :
  RegisterOperator req s = (s', Reply (certPEM, expiresAt)) ->
  exists n claims ttl s1 s2,
    nonce_Validate n (rq_nonce_jwt req) "operator" = Ok claims /\
    on_world (GenerateClientCertificate rg_ca_cert_pem rg_ca_key_pem (rq_public_key_pem req)
                (cl_subject claims) "operator" (cl_tenant claims) ttl) s1 = (s2, Ok (certPEM, expiresAt)) /\
    finish_operator req (cl_subject claims) (cl_tenant claims) certPEM expiresAt s2 = (s', Reply (certPEM, expiresAt)).
Proof.
  unfold RegisterOperator, register_operator_claims. intros Hr.
  run_bind Hr as s1 leader H1. destruct (negb leader); [done|].
  run_bind Hr as s2 cl H2. apply on_world_run in H2 as (H2 & _). apply observe_run in H2 as (Hv & _).
  destruct cl as [claims|]; [|done]. run_bind Hr as s3 loaded H3. run_bind Hr as s4 cfg H4.
  do 3 (case_match; [done|]). run_bind Hr as s5 ttl H5. run_bind Hr as s6 cert H6.
  destruct cert as [[pem exp]|]; [|done].
  assert ((pem, exp) = (certPEM, expiresAt)) as [= -> ->].
  { unfold finish_operator in Hr. run_bind Hr as s7 first H7. destruct first; [|done].
    destruct (ExtractCertSerial pem); [|done]. run_bind Hr as s8 u H8. run_bind Hr as s9 r H9.
    rewrite M_ret_eq in Hr. destruct r; [|done]. by injection Hr as _ -> ->. }
  by exists (w_tick (rg_world s1)), claims, ttl, s5, s6.
Qed.

Lemma RegisterOperator_binds req s s' c :
  RegisterOperator req s = (s', Reply c) -> rg_bindings s' !! nonce_key (rq_nonce_jwt req) = Some (rq_public_key_pem req).
Proof.
  destruct c as [pem exp]. intros (n & claims & ttl & s1 & s2 & _ & _ & Hr)%RegisterOperator_run.
  unfold finish_operator in Hr.
  run_bind Hr as s9 first Hclaim. destruct first as [first|]; [|done].
  apply claimOperatorNonce_run in Hclaim. destruct (ExtractCertSerial _) as [serial|]; [|done].
  assert (grows (cache_operator first (cl_subject claims) (cl_tenant claims) (rq_nonce_jwt req) (rq_public_key_pem req))) as Hg1
    by (unfold cache_operator; repeat grows_step).
  run_bind Hr as s10 u Hcache. run_bind Hr as s11 r Hstore. destruct r; [|done]. injection Hr as <-.
  specialize (Hg1 s9). rewrite Hcache in Hg1.
  pose proof (grows_storeRegistrationInS3 (cl_subject claims) (cl_tenant claims) (rq_public_key_pem req) serial exp None "" "" "" s10) as Hg2.
  rewrite Hstore in Hg2. eapply lookup_weaken; [exact Hclaim|]. by etrans.
Qed.
End Operator.

(** C15. An operator's registration nonce belongs to the first public key that used
    it: when two registrations with the same nonce succeed, at any two servers of
    the cluster, whatever calls and failures happened in between, they were made
    with the same public key. *)
Theorem operator_nonce_bound (E1 E2 : Env) (C1 C2 : Crypto) (R1 R2 : RegEnv) req1 req2 s s1 s2 s3 c1 c2 :
  @rg_digest R1 = @rg_digest R2 -> rq_nonce_jwt req1 = rq_nonce_jwt req2 ->
  @RegisterOperator E1 C1 R1 req1 s = (s1, Reply c1) ->
  rtc (cluster_step (@rg_digest R1)) s1 s2 ->
  @RegisterOperator E2 C2 R2 req2 s2 = (s3, Reply c2) ->
  rq_public_key_pem req1 = rq_public_key_pem req2.
Proof.
  intros Hd Hn H1%RegisterOperator_binds Hsteps%cluster_grows H2.
  pose proof (@grows_RegisterOperator E2 C2 R2 req2 s2) as Hg. rewrite H2 in Hg.
  apply RegisterOperator_binds in H2.
  assert (@nonce_key R1 (rq_nonce_jwt req1) = @nonce_key R2 (rq_nonce_jwt req2)) as Heq
    by (unfold nonce_key; congruence).
  rewrite Heq in H1. simpl in Hg. eapply (lookup_weaken _ (rg_bindings s3)) in H1; [|by etrans]. congruence.
Qed.

(** ** Agents *)

Section Agent.
Context {HE : Env} {HC : Crypto} {HR : RegEnv}.

Lemma silent_GenerateClientCertificate ca k pub id role t ttl : silent (GenerateClientCertificate ca k pub id role t ttl).
Proof. unfold GenerateClientCertificate, sign_client_certificate. prog. Qed.

(** A step that leaves the world alone, in the registration state. *)
Lemma on_world_silent {A} (m : M World A) s s' a :
  silent m -> on_world m s = (s', a) ->
  same_state (rg_world s) (rg_world s') /\ rg_operators s' = rg_operators s.
Proof. intros Hm (Hr & Ho)%on_world_run. split; [exact (silent_run _ _ _ _ Hm Hr)|done]. Qed.

(** The row of a nonce. *)
Lemma GetInstanceByNonce_Ok nonce db i :
  LocalDB.GetInstanceByNonce nonce db = Ok i -> i ∈ instances db /\ i_nonce i = nonce /\ LocalDB.not_deleted i = true.
Proof.
  unfold LocalDB.GetInstanceByNonce.
  intros [[Hn%bool_decide_eq_true Hd]%andb_true_iff Hin]%first_row_Ok%elem_of_sel. done.
Qed.

(** The call returned an error and changed nothing so far. *)
Ltac refused Hr :=
  injection Hr as <- <-; left; split_and!; [eauto using same_state_trans|congruence|eauto].

(** Either the registration stops before anything is issued, or it found an
    unregistered row for the nonce. *)
Lemma RegisterAgent_cases req s s' r :
  RegisterAgent req s = (s', r) ->
  (same_state (rg_world s) (rg_world s') /\ rg_operators s' = rg_operators s /\ exists code msg, r = Fail code msg) \/
  (exists n claims row ttl s1,
     nonce_Validate n (rq_nonce_jwt req) "agent" = Ok claims /\
     LocalDB.GetInstanceByNonce (rq_nonce_jwt req) (w_db (rg_world s)) = Ok row /\ i_registered_at row = None /\
     same_state (rg_world s) (rg_world s1) /\
     (cert ← on_world (GenerateClientCertificate rg_ca_cert_pem rg_ca_key_pem (rq_public_key_pem req)
                         (cl_subject claims) "agent" (cl_tenant claims) ttl);
      match cert with
      | Err _ => mret (Fail Internal "failed to generate certificate")
      | Ok (certPEM, expiresAt) =>
          finish_agent req (cl_subject claims) (cl_tenant claims) (i_provider_id row) certPEM expiresAt
      end) s1 = (s', r)).
Proof.
  unfold RegisterAgent, register_agent_claims. intros Hr.
  run_bind Hr as s1 leader H1. apply on_world_silent in H1 as [H1 O1]; [|auto with world].
  destruct (negb leader); [refused Hr|].
  run_bind Hr as s2 cl H2. pose proof H2 as [Hv _]%on_world_run. apply observe_run in Hv as (Hv & _).
  apply on_world_silent in H2 as [H2 O2]; [|auto with world].
  destruct cl as [claims|]; [|refused Hr].
  run_bind Hr as s3 loaded H3. apply on_world_silent in H3 as [H3 O3]; [|auto with world].
  run_bind Hr as s4 cfg H4. apply on_world_silent in H4 as [H4 O4]; [|auto with world].
  assert (same_state (rg_world s) (rg_world s4)) as Hs by eauto using same_state_trans.
  destruct (negb loaded); [refused Hr|].
  case_bool_decide as Hc; [refused Hr|].
  case_bool_decide as Hsh; [refused Hr|].
  run_bind Hr as s5 row H5. pose proof H5 as [Hq _]%on_world_run. apply dbq_run in Hq as [_ Hq].
  apply on_world_silent in H5 as [H5 O5]; [|auto with world].
  assert (same_state (rg_world s) (rg_world s5)) as Hs5 by eauto using same_state_trans.
  destruct row as [row|]; [|refused Hr].
  case_bool_decide as Hreg; [refused Hr|].
  run_bind Hr as s6 ttl H6.
  assert (same_state (rg_world s5) (rg_world s6)) as Hs6.
  { unfold getCertificateTTL in H6. run_bind H6 as t1 x1 K1. apply on_world_silent in K1 as [K1 _]; [|auto with world].
    run_bind H6 as t2 x2 K2. apply on_world_silent in K2 as [K2 _]; [|auto with world].
    injection H6 as <- _. by eapply same_state_trans. }
  right. exists (w_tick (rg_world s1)), claims, row, ttl, s6. split_and!; [by symmetry| | |by eapply same_state_trans|done].
  - destruct Hq as [(? & ? & _ & ?)|[now Hq]]; [done|]. by rewrite Hq, (proj1 Hs).
  - by apply eq_None_not_Some.
Qed.

(** Storing the record does not touch the database; marking the row registers it,
    unless the database fails. *)
Lemma UpdateRegistration_db t id k c e p v4 v6 h w w' r :
  UpdateRegistration t id k c e p v4 v6 h w = (w', r) -> w_db w' = w_db w.
Proof.
  assert (preserves (db_inv (fun db => db = w_db w)) (UpdateRegistration t id k c e p v4 v6 h)) as Hp.
  { unfold UpdateRegistration, getInstanceRecord, storeInstanceRecord. prog. }
  intros Hr. specialize (Hp w eq_refl). by rewrite Hr in Hp.
Qed.

Lemma storeRegistrationInS3_db id t k c e p v4 v6 h s s' r :
  storeRegistrationInS3 id t k c e p v4 v6 h s = (s', r) -> w_db (rg_world s') = w_db (rg_world s).
Proof.
  unfold storeRegistrationInS3. intros Hr.
  destruct (isInstanceID id); [destruct rg_has_manager|case_bool_decide].
  - apply on_world_run in Hr as [Hr _]. by eapply UpdateRegistration_db.
  - by injection Hr as <- _.
  - by injection Hr as <- _.
  - unfold storage_put_operator in Hr. run_bind Hr as s1 fault Hf.
    apply on_world_silent in Hf as [[Hdb _] _]; [|auto with world]. rewrite <-Hdb.
    destruct fault; by injection Hr as <- _.
Qed.

Lemma finish_agent_run req id t p certPEM expiresAt s s' r :
  finish_agent req id t p certPEM expiresAt s = (s', r) ->
  (exists code msg, r = Fail code msg /\ w_db (rg_world s') = w_db (rg_world s)) \/
  (r = Reply (certPEM, expiresAt) /\
   ((exists n e, env_db_fault n = Some e /\ w_db (rg_world s') = w_db (rg_world s)) \/
    (exists now, LocalDB.MarkInstanceRegistered now id (rq_public_key_pem req) (rq_private_ipv4 req)
                   (rq_private_ipv6 req) (rq_hostname req) (w_db (rg_world s)) = Ok (w_db (rg_world s'))))).
Proof.
  unfold finish_agent. intros Hr.
  destruct (ExtractCertSerial certPEM); [|injection Hr as <- <-; left; eauto].
  run_bind Hr as s1 st H1. apply storeRegistrationInS3_db in H1.
  destruct st; [|injection Hr as <- <-; left; eauto]. run_bind Hr as s2 m H2. injection Hr as <- <-.
  right. split; [done|]. apply on_world_run in H2 as [H2 _]. rewrite <-H1.
  apply dbx_run in H2 as (_ & _ & [(e & _ & Hdb & [[n Hf]|[now Hm]])|(now & db' & Hm & _ & Hdb)]);
    [left; eauto|done|]. right. exists now. by rewrite Hm, Hdb.
Qed.

(** How an agent's registration succeeds. *)
Lemma RegisterAgent_run req s s' certPEM expiresAt :
  RegisterAgent req s = (s', Reply (certPEM, expiresAt)) ->
  exists n claims row ttl s1 s2,
    nonce_Validate n (rq_nonce_jwt req) "agent" = Ok claims /\
    LocalDB.GetInstanceByNonce (rq_nonce_jwt req) (w_db (rg_world s)) = Ok row /\ i_registered_at row = None /\
    on_world (GenerateClientCertificate rg_ca_cert_pem rg_ca_key_pem (rq_public_key_pem req)
                (cl_subject claims) "agent" (cl_tenant claims) ttl) s1 = (s2, Ok (certPEM, expiresAt)) /\
    w_db (rg_world s2) = w_db (rg_world s) /\
    finish_agent req (cl_subject claims) (cl_tenant claims) (i_provider_id row) certPEM expiresAt s2 =
      (s', Reply (certPEM, expiresAt)).
Proof.
  intros [(_ & _ & ? & ? & ?)|(n & claims & row & ttl & s1 & Hv & Hrow & Hreg & Hs & Hr)]%RegisterAgent_cases; [done|].
  run_bind Hr as s2 cert Hc. destruct cert as [[pem exp]|]; [|done].
  pose proof (on_world_silent _ _ _ _ (silent_GenerateClientCertificate _ _ _ _ _ _ _) Hc) as [[Hdb _] _].
  assert ((pem, exp) = (certPEM, expiresAt)) as [= -> ->].
  { apply finish_agent_run in Hr as [(? & ? & ? & _)|[Hrep _]]; [done|congruence]. }
  exists n, claims, row, ttl, s1, s2. split_and!; try done. by rewrite Hdb, (proj1 Hs).
Qed.

(** An agent's registration nonce works once.  The nonce names the instance whose
    row carries it, and the database does not fail.  After a registration succeeded,
    and as long as the rows with this nonce keep the registration time they then
    have, every further registration with it is refused, with any public key,
    and issues and stores nothing. *)
Theorem agent_nonce_single_use req req' s s1 s2 s3 c r :
  (forall n, env_db_fault n = None) ->
  (forall n claims i, nonce_Validate n (rq_nonce_jwt req) "agent" = Ok claims ->
     i ∈ instances (w_db (rg_world s)) -> i_nonce i = rq_nonce_jwt req -> i_id i = cl_subject claims) ->
  RegisterAgent req s = (s1, Reply c) ->
  rq_nonce_jwt req' = rq_nonce_jwt req ->
  (forall i, i ∈ instances (w_db (rg_world s2)) -> i_nonce i = rq_nonce_jwt req -> LocalDB.not_deleted i = true ->
     exists j, j ∈ instances (w_db (rg_world s1)) /\ i_nonce j = rq_nonce_jwt req /\
       LocalDB.not_deleted j = true /\ i_registered_at j = i_registered_at i) ->
  RegisterAgent req' s2 = (s3, r) ->
  (exists code msg, r = Fail code msg) /\
  same_state (rg_world s2) (rg_world s3) /\ rg_operators s3 = rg_operators s2.
Proof.
  intros Hdb Hnames H1 Hsame Hkeep H2. destruct c as [certPEM expiresAt].
  apply RegisterAgent_run in H1 as (n & claims & row & ttl & t1 & t2 & Hv & _ & _ & _ & Ht2 & Hfin).
  apply finish_agent_run in Hfin as [(? & ? & ? & _)|(_ & [(n' & e & Hf & _)|(now & Hmark)])]; [done|by rewrite Hdb in Hf|].
  rewrite Ht2 in Hmark. injection Hmark as Hmark.
  assert (forall j, j ∈ instances (w_db (rg_world s1)) -> i_nonce j = rq_nonce_jwt req ->
            LocalDB.not_deleted j = true -> is_Some (i_registered_at j)) as Hreg.
  { intros j Hj Hn Hd. rewrite <-Hmark in Hj. apply elem_of_upd in Hj as (i & Hi & Hij).
    destruct (LocalDB.live_id (cl_subject claims) i) eqn:Hlive; subst j; [by eexists|].
    unfold LocalDB.live_id in Hlive. rewrite (Hnames n claims i Hv Hi Hn), bool_decide_true, Hd in Hlive by done. done. }
  apply RegisterAgent_cases in H2 as [(Hs & Ho & Hfail)|(_ & _ & row' & _ & _ & _ & Hrow & Hnone & _)]; [done|].
  rewrite Hsame in Hrow. apply GetInstanceByNonce_Ok in Hrow as (Hin & Hn & Hd).
  destruct (Hkeep row' Hin Hn Hd) as (j & Hj & Hjn & Hjd & Heq). rewrite Hnone in Heq.
  destruct (Hreg j Hj Hjn Hjd) as [t Ht]. congruence.
Qed.

(** ** Identity *)

Context {HL : CryptoLaws}.

Lemma nonce_Validate_subject n token kind claims : nonce_Validate n token kind = Ok claims -> cl_subject claims ≠ "".
Proof.
  unfold nonce_Validate. intros Hv. repeat case_match; simplify_eq.
  repeat match goal with Hx : _ || _ = false |- _ => apply orb_false_iff in Hx as [? ?] end.
  by eapply bool_decide_eq_false.
Qed.

(** C14. A registration yields a certificate for the identity in the nonce: presented
    to any service of the server, it authenticates as the nonce's subject and
    tenant with the role of the registration, at services for that role and at no
    others, and it holds the public key of the request. *)
Theorem registration_identity (agent : bool) req s s' certPEM expiresAt :
  let role := if agent then "agent" else "operator" in
  (if agent then RegisterAgent req s else RegisterOperator req s) = (s', Reply (certPEM, expiresAt)) ->
  exists n claims cert,
    nonce_Validate n (rq_nonce_jwt req) role = Ok claims /\
    ParseCertificateFromPEM certPEM = Ok cert /\
    parse_client_key (rq_public_key_pem req) = Ok (ct_public_key cert) /\
    forall a others w w' r, authenticate a (TLSPeer (cert :: others)) w = (w', r) ->
      match r with
      | Reply info => info = mkClientInfo (cl_subject claims) role (cl_tenant claims) cert /\ ai_required_role a = role
      | Fail PermissionDenied _ => ai_required_role a ≠ role
      | Fail Unauthenticated _ => exists now e, x509_verify now (ai_ca_cert a) cert = Err e
      | Fail _ _ => False
      end.
Proof.
  intros role Hr.
  assert (exists n claims ttl s1 s2, nonce_Validate n (rq_nonce_jwt req) role = Ok claims /\
    on_world (GenerateClientCertificate rg_ca_cert_pem rg_ca_key_pem (rq_public_key_pem req)
                (cl_subject claims) role (cl_tenant claims) ttl) s1 = (s2, Ok (certPEM, expiresAt)))
    as (n & claims & ttl & s1 & s2 & Hv & Hg).
  { subst role. destruct agent.
    - apply RegisterAgent_run in Hr as (n & claims & row & ttl & s1 & s2 & ? & _ & _ & ? & _). eauto 10.
    - apply RegisterOperator_run in Hr as (n & claims & ttl & s1 & s2 & ? & ? & _). eauto 10. }
  apply on_world_run in Hg as [Hg _]. apply GenerateClientCertificate_run in Hg as (_ & _ & _ & Hiss).
  - pose proof Hiss as (cert & key & Hcert & Hkey & Hpub & _). exists n, claims, cert.
    split_and!; [done|done|by rewrite Hpub|]. intros a others w w' r Ha.
    by eapply issued_authenticates in Ha as [_ Ha].
  - by eapply nonce_Validate_subject.
  - by destruct agent.
Qed.
End Agent.
