(* ===== verification/Document.v ===== *)
(** * JSON documents in object storage, updated by compare-and-swap

    The tenant-state manager and the NAT assignment store each keep one JSON
    document in shard storage ([src/internal/server/storage]) and change it by
    loading it with its entity tag and writing it back with [PutIfMatch].  This
    file holds the object as other writers and failures see it: between any two
    steps another writer may replace or delete the object, any request may fail,
    and a write that reports failure may nevertheless have been applied. *)

From S2P Require Import Prelude.

(** An object's content: a document that decodes, or bytes that do not. *)
Inductive Blob (D : Type) : Type :=
  | Doc (d : D)
  | Malformed.
Arguments Doc {D} d.
Arguments Malformed {D}.

(** What a client did, oldest first: each conditional write that took effect with
    the object it replaced, and each call to another component ([E]). *)
Inductive LogEntry (D E : Type) : Type :=
  | Wrote (old : option (Blob D)) (new : D)
  | Did (e : E).
Arguments Wrote {D E} old new.
Arguments Did {D E} e.

(** The object, its version, the tick of the next interleaving point, and the log. *)
Record Store (D E : Type) : Type := mkStore {
  s_tick : nat;
  s_version : nat;
  s_obj : option (Blob D);
  s_log : list (LogEntry D E);
}.
Arguments mkStore {D E} _ _ _ _.
Arguments s_tick {D E} _.
Arguments s_version {D E} _.
Arguments s_obj {D E} _.
Arguments s_log {D E} _.

(** The storage service and everyone else using it. *)
Class DocEnv (D : Type) := mkDocEnv {
  doc_etag : nat -> Blob D -> string;          (* entity tag of a version of the object *)
  doc_others : nat -> option (Blob D) -> option (option (Blob D)); (* what another writer put in its place *)
  doc_get_fault : nat -> option err;
  doc_put_fault : nat -> option (err * bool);  (* the failure, and whether the write took effect *)
}.

(** Entity tags identify content: S3 and the file backend use a digest, Google
    Cloud Storage a generation number.  An empty tag stands for no object. *)
Class DocLaws (D : Type) `{!DocEnv D} := mkDocLaws {
  doc_etag_inj : forall v v' b b', doc_etag v b = doc_etag v' b' -> b = b';
  doc_etag_nonempty : forall v b, doc_etag v b ≠ "";
  doc_put_fault_kind : forall n e applied, doc_put_fault n = Some (e, applied) -> err_is e ErrPrecondition = false;
  doc_get_fault_kind : forall n e, doc_get_fault n = Some e -> err_is e ErrNotFound = false;
}.

Section Document.
Context {D E : Type} {HD : DocEnv D}.

(** The object after the other writers' turn. *)
Definition after_others (n : nat) (b : option (Blob D)) : option (Blob D) := default b (doc_others n b).

(** An interleaving point: other writers may act (a write makes a new version),
    then the environment is read. *)
Definition st_observe {A} (f : nat -> A) : M (Store D E) A :=
  fun s =>
    let n := s_tick s in
    (mkStore (S n) (match doc_others n (s_obj s) with Some _ => S (s_version s) | None => s_version s end)
       (after_others n (s_obj s)) (s_log s), f n).

Definition st_did (e : E) : M (Store D E) unit :=
  fun s => (mkStore (s_tick s) (s_version s) (s_obj s) (s_log s ++ [Did e]), tt).

(** [Storage.Get]. *)
Definition storage_get : M (Store D E) (res (Blob D * string)) :=
  fault ← st_observe doc_get_fault;
  match fault with
  | Some e => mret (Err e)
  | None => fun s =>
      (s, match s_obj s with
          | None => Err ErrNotFound
          | Some b => Ok (b, doc_etag (s_version s) b)
          end)
  end.

(** The precondition of [PutIfMatch]: no object for the empty tag, otherwise an
    object that still carries the tag. *)
Definition etag_matches (etag : string) (s : Store D E) : bool :=
  match s_obj s with
  | None => bool_decide (etag = "")
  | Some b => negb (bool_decide (etag = "")) && bool_decide (doc_etag (s_version s) b = etag)
  end.

Definition st_write (d : D) (s : Store D E) : Store D E :=
  mkStore (s_tick s) (S (s_version s)) (Some (Doc d)) (s_log s ++ [Wrote (s_obj s) d]).

Definition conditional_write (d : D) (etag : string) (fault : option (err * bool)) : M (Store D E) (res unit) :=
  fun s =>
    match fault with
    | Some (e, applied) => (if applied && etag_matches etag s then st_write d s else s, Err e)
    | None => if etag_matches etag s then (st_write d s, Ok tt) else (s, Err ErrPrecondition)
    end.

(** [Storage.PutIfMatch]. *)
Definition storage_put_if_match (d : D) (etag : string) : M (Store D E) (res unit) :=
  fault ← st_observe doc_put_fault;
  conditional_write d etag fault.

(** The document a client sees: an absent object is the empty document. *)
Definition doc_of (empty : D) (b : option (Blob D)) : D :=
  match b with Some (Doc d) => d | _ => empty end.

(** [load]: an absent object is an empty document with no tag; one that does not
    decode is an error. *)
Definition load_doc (empty : D) (name : string) : M (Store D E) (res (D * string)) :=
  r ← storage_get;
  mret match r with
  | Err e => if err_is e ErrNotFound then Ok (empty, "") else Err (ErrWrap ("load " ++ name) e)
  | Ok (Doc d, etag) => Ok (d, etag)
  | Ok (Malformed, _) => Err (ErrMsg ("decode " ++ name))
  end.

(** ** Every write replaces the document that was loaded *)

(** [log] extends the log of [s] by [new] entries. *)
Definition extends (s s' : Store D E) (new : list (LogEntry D E)) : Prop := s_log s' = s_log s ++ new.

Lemma extends_nil s s' : s_log s' = s_log s -> extends s s' [].
Proof. unfold extends. by rewrite app_nil_r. Qed.

Lemma log_extends_trans s1 s2 s3 l1 l2 : extends s1 s2 l1 -> extends s2 s3 l2 -> extends s1 s3 (l1 ++ l2).
Proof. unfold extends. intros H1 H2. by rewrite H2, H1, app_assoc. Qed.

Lemma st_observe_run {A} (f : nat -> A) s s' a :
  st_observe f s = (s', a) ->
  a = f (s_tick s) /\ extends s s' [] /\ s_obj s' = after_others (s_tick s) (s_obj s) /\ s_tick s' = S (s_tick s).
Proof. unfold st_observe. intros [= <- <-]. simpl. split_and!; [done|by apply extends_nil|done..]. Qed.

Context {HL : DocLaws D}.

(** A tag that matches pins the object. *)
Lemma etag_matches_empty s : etag_matches "" s = true -> s_obj s = None.
Proof. unfold etag_matches. destruct (s_obj s); [|done]. by rewrite bool_decide_true. Qed.

Lemma etag_matches_pins v b s : etag_matches (doc_etag v b) s = true -> s_obj s = Some b.
Proof.
  unfold etag_matches. destruct (s_obj s) as [b'|].
  - intros [_ Heq%bool_decide_eq_true]%andb_true_iff. f_equal. by eapply doc_etag_inj.
  - intros Heq%bool_decide_eq_true. by destruct (doc_etag_nonempty v b).
Qed.

(** A read returns the current object with a tag that pins it. *)
Lemma storage_get_run s s' r :
  storage_get s = (s', r) ->
  extends s s' [] /\ s_obj s' = after_others (s_tick s) (s_obj s) /\ s_tick s' = S (s_tick s) /\
  match r with
  | Err e => err_is e ErrNotFound = true -> s_obj s' = None
  | Ok (b, etag) => s_obj s' = Some b /\ (forall s2, etag_matches etag s2 = true -> s_obj s2 = Some b)
  end.
Proof.
  unfold storage_get. intros Hr. run_bind Hr as s1 fault H1. apply st_observe_run in H1 as (-> & He & Ho & Ht).
  destruct (doc_get_fault (s_tick s)) as [e|] eqn:Hf; injection Hr as <- <-; (split_and!; [done..|]).
  - by rewrite (doc_get_fault_kind _ _ Hf).
  - destruct (s_obj s1) as [b|] eqn:Hs; [|done]. eauto using etag_matches_pins.
Qed.

(** A load that succeeds returns the current document, and its tag pins it. *)
Lemma load_doc_run empty name s s' r :
  load_doc empty name s = (s', r) ->
  extends s s' [] /\ s_obj s' = after_others (s_tick s) (s_obj s) /\ s_tick s' = S (s_tick s) /\
  match r with
  | Err e => True
  | Ok (d, etag) => doc_of empty (s_obj s') = d /\ s_obj s' ≠ Some Malformed /\
      (forall s2, etag_matches etag s2 = true -> s_obj s2 = s_obj s')
  end.
Proof.
  unfold load_doc. intros Hr. run_bind Hr as s1 g H1. injection Hr as <- <-.
  apply storage_get_run in H1 as (He & Ho & Ht & Hg). split_and!; [done..|].
  destruct g as [[[d|] etag]|e]; simpl; [| done |destruct (err_is e ErrNotFound) eqn:Hk; [|done]].
  - destruct Hg as [-> Hpin]. eauto.
  - rewrite Hg by done. eauto using etag_matches_empty.
Qed.

(** A conditional write logs at most one entry, of the object it replaced. *)
Lemma put_if_match_run d etag s s' r :
  storage_put_if_match d etag s = (s', r) ->
  s_tick s' = S (s_tick s) /\
  ((extends s s' [] /\ s_obj s' = after_others (s_tick s) (s_obj s) /\ exists e, r = Err e) \/
   (exists s1, s_obj s1 = after_others (s_tick s) (s_obj s) /\ etag_matches etag s1 = true /\
      extends s s' [Wrote (s_obj s1) d] /\ s_obj s' = Some (Doc d) /\
      (r = Ok tt \/ exists e, r = Err e /\ err_is e ErrPrecondition = false))).
Proof.
  unfold storage_put_if_match, conditional_write. intros Hr. run_bind Hr as s1 fault H1.
  apply st_observe_run in H1 as (-> & He & Ho & Ht). unfold extends in *. rewrite app_nil_r in He.
  destruct (doc_put_fault (s_tick s)) as [[e applied]|] eqn:Hf;
    [destruct (applied && etag_matches etag s1) eqn:Hm|destruct (etag_matches etag s1) eqn:Hm];
    injection Hr as <- <-; simpl; (split; [done|]).
  - right. exists s1. apply andb_true_iff in Hm as [_ Hm]. rewrite He. split_and!; eauto.
    right. eauto using doc_put_fault_kind.
  - left. rewrite app_nil_r. eauto.
  - right. exists s1. rewrite He. split_and!; eauto.
  - left. rewrite app_nil_r. eauto.
Qed.
End Document.
