(* ===== verification/FileStore.v ===== *)
(** * The file backend of object storage ([src/internal/server/storage/file.go])

    Objects are files under a directory.  Several processes use the directory at the
    same time: every method is a program over system calls, the calls of all programs
    interleave, any call may fail (a failing write may leave part of its data) and a
    process may die between any two calls, which releases its locks and leaves its
    temporary files.  A conditional write holds a lock file of its key; everything is
    published by a hard link or a rename of a complete temporary file.

    [Storage] is the code; [Kernel] the files, locks and system calls; [Processes] the
    interleaving.  Directories are not represented: creating one may fail and otherwise
    changes no object.  Reading a file and walking the tree happen at one moment. *)

From S2P Require Import Prelude GoText.
From stdpp Require Import relations.
From Stdlib Require Import Ascii.

Module Storage.

Inductive Errno := EEXIST | ENOENT | EOTHER.

Inductive Call :=
  | CtxErr
  | MkdirAll (dir : string)
  | CreateTemp (dir pattern : string)
  | Chmod (path : string)
  | WriteTo (path data : string)
  | Fsync (path : string)
  | CloseFile (path : string)
  | LinkFile (old new : string)
  | RenameFile (old new : string)
  | RemoveFile (path : string)
  | ReadFile (path : string)
  | StatFile (path : string)
  | WalkTree (dir : string)
  | OpenLock (path : string)
  | Flock (path : string)
  | Funlock (path : string)
  | CloseLock (path : string).

Inductive Reply :=
  | Got (data : string)
  | Listed (paths : list string)
  | Failed (e : Errno).

(** A program: it returns, or makes a call and goes on with the reply. *)
Inductive Prog (A : Type) : Type :=
  | Return (a : A)
  | Do (c : Call) (k : Reply -> Prog A).
Arguments Return {A} a.
Arguments Do {A} c k.

#[global] Instance Prog_ret : MRet Prog := @Return.
#[global] Instance Prog_bind : MBind Prog :=
  fun A B f => fix bind (m : Prog A) : Prog B :=
    match m with
    | Return a => f a
    | Do c k => Do c (fun r => bind (k r))
    end.

#[global] Instance Prog_fmap : FMap Prog := fun A B f m => m ≫= fun a => Return (f a).

Definition sys (c : Call) : Prog (string + Errno) :=
  Do c (fun r => Return match r with Got d => inl d | Listed _ => inl "" | Failed e => inr e end).

(** [if err != nil { return fmt.Errorf("...: %w", err) }]. *)
Definition os (msg : string) (c : Call) : Prog (res string) :=
  r ← sys c; mret match r with inl d => Ok d | inr _ => Err (ErrWrap msg (ErrMsg "system call")) end.

Definition ignore {A} (m : Prog A) : Prog unit := _ ← m; mret tt.

(** A deferred call. *)
Definition finally {A} (m : Prog A) (cleanup : Prog unit) : Prog A := a ← m; _ ← cleanup; mret a.

Definition p_bind {A B} (m : Prog (res A)) (f : A -> Prog (res B)) : Prog (res B) :=
  r ← m; match r with Ok a => f a | Err e => mret (Err e) end.

#[local] Notation "x ←? m ; f" := (p_bind m (fun x => f)) (at level 20, m at level 100, f at level 200, only parsing).

Class FileEnv := mkFileEnv {
  baseDir : string;
  md5hex : string -> string;                 (* fmt.Sprintf("%x", md5.Sum(data)) *)
}.

Section Storage.
Context {FE : FileEnv}.

(** [filepath.Dir]. *)
Definition Dir (path : string) : string :=
  match split_last "/"%char (chars path) with
  | Some (d, _) => Clean (text (d ++ ["/"%char]))
  | None => "."
  end.

Definition file_path (key : string) : string := Clean (baseDir ++ "/" ++ key).

Definition validateKey (key : string) : res unit :=
  if has_word ".." key then Err (ErrMsg "invalid key: path traversal not allowed")
  else if IsAbs (Clean key) then Err (ErrMsg "invalid key: absolute paths not allowed")
  else Ok tt.

Definition valid {A} (key : string) (m : Prog (res A)) : Prog (res A) :=
  match validateKey key with Err e => mret (Err e) | Ok _ => m end.

Definition conditionalLockPath (key : string) : string := Clean (baseDir ++ ".locks/" ++ md5hex key ++ ".lock").

Definition Get (key : string) : Prog (res (string * string)) :=
  valid key
    (r ← sys (ReadFile (file_path key));
     mret match r with
          | inl data => Ok (data, md5hex data)
          | inr ENOENT => Err ErrNotFound
          | inr _ => Err (ErrWrap "failed to read file" (ErrMsg "system call"))
          end).

(** A step on the temporary file, which is closed when the step fails. *)
Definition on_temp (temp msg : string) (c : Call) : Prog (res unit) :=
  r ← os msg c;
  match r with
  | Ok _ => mret (Ok tt)
  | Err e => _ ← ignore (sys (CloseFile temp)); mret (Err e)
  end.

(** [publishFile]. *)
Definition publishFile (dir filePath data : string) : Prog (res unit) :=
  temp ←? os "failed to create temporary file" (CreateTemp dir ".nstance-put-");
  finally
    (_ ←? on_temp temp "failed to set file permissions" (Chmod temp);
     _ ←? on_temp temp "failed to write temporary file" (WriteTo temp data);
     _ ←? on_temp temp "failed to sync temporary file" (Fsync temp);
     _ ←? os "failed to close temporary file" (CloseFile temp);
     _ ←? os "failed to publish file" (RenameFile temp filePath);
     mret (Ok tt))
    (ignore (sys (RemoveFile temp))).

(** [Put], and [PutStream] with the data its reader yields. *)
Definition Put (key data : string) : Prog (res unit) :=
  valid key
    (let filePath := file_path key in
     let dir := Dir filePath in
     _ ←? os "failed to create directory" (MkdirAll dir);
     publishFile dir filePath data).

(** The entity tag of [GetMetadata]. *)
Definition GetMetadata (key : string) : Prog (res string) :=
  valid key
    (let filePath := file_path key in
     r ← sys (StatFile filePath);
     match r with
     | inr ENOENT => mret (Err ErrNotFound)
     | inr _ => mret (Err (ErrWrap "failed to get file metadata" (ErrMsg "system call")))
     | inl _ =>
         data ←? os "failed to read file for ETag" (ReadFile filePath);
         mret (Ok (md5hex data))
     end).

(** [putIfMatchLocked]: an object that must not exist is linked in place. *)
Definition create_object (filePath dir data : string) : Prog (res unit) :=
  temp ←? os "failed to create temporary file" (CreateTemp dir ".nstance-create-");
  finally
    (_ ←? on_temp temp "failed to set file permissions" (Chmod temp);
     _ ←? on_temp temp "failed to write temporary file" (WriteTo temp data);
     _ ←? os "failed to close temporary file" (CloseFile temp);
     r ← sys (LinkFile temp filePath);
     mret match r with
          | inl _ => Ok tt
          | inr EEXIST => Err ErrPrecondition
          | inr _ => Err (ErrWrap "failed to publish file" (ErrMsg "system call"))
          end)
    (ignore (sys (RemoveFile temp))).

Definition replace_object (filePath dir data : string) : Prog (res unit) :=
  temp ←? os "failed to create temporary file" (CreateTemp dir ".nstance-update-");
  finally
    (_ ←? on_temp temp "failed to set file permissions" (Chmod temp);
     _ ←? on_temp temp "failed to write temporary file" (WriteTo temp data);
     _ ←? on_temp temp "failed to sync temporary file" (Fsync temp);
     _ ←? os "failed to close temporary file" (CloseFile temp);
     _ ←? os "failed to publish file" (RenameFile temp filePath);
     mret (Ok tt))
    (ignore (sys (RemoveFile temp))).

Definition putIfMatchLocked (key filePath dir data etag : string) : Prog (res unit) :=
  if bool_decide (etag = "") then create_object filePath dir data
  else
    meta ← GetMetadata key;
    match meta with
    | Err e =>
        if err_is e ErrNotFound then mret (Err ErrPrecondition)
        else mret (Err (ErrWrap "failed to get current metadata" e))
    | Ok currentETag =>
        if bool_decide (currentETag <> etag) then mret (Err ErrPrecondition)
        else replace_object filePath dir data
    end.

Definition ctx_err : Prog (res unit) :=
  r ← sys CtxErr; mret match r with inl _ => Ok tt | inr _ => Err ErrCanceled end.

(** [withKeyLock]. *)
Definition withKeyLock (key : string) (mutate : Prog (res unit)) : Prog (res unit) :=
  _ ←? ctx_err;
  let lockPath := conditionalLockPath key in
  _ ←? os "failed to create mutation lock directory" (MkdirAll (Dir lockPath));
  _ ←? os "failed to open mutation lock" (OpenLock lockPath);
  finally
    (_ ←? os "failed to lock mutation" (Flock lockPath);
     finally (_ ←? ctx_err; mutate) (ignore (sys (Funlock lockPath))))
    (ignore (sys (CloseLock lockPath))).

Definition PutIfMatch (key data etag : string) : Prog (res unit) :=
  valid key
    (let filePath := file_path key in
     let dir := Dir filePath in
     _ ←? os "failed to create directory" (MkdirAll dir);
     withKeyLock key (putIfMatchLocked key filePath dir data etag)).

Definition Delete (key : string) : Prog (res unit) :=
  valid key
    (r ← sys (RemoveFile (file_path key));
     mret match r with
          | inl _ | inr ENOENT => Ok tt
          | inr _ => Err (ErrWrap "failed to delete file" (ErrMsg "system call"))
          end).

Definition Exists (key : string) : Prog (res bool) :=
  valid key
    (r ← sys (StatFile (file_path key));
     mret match r with
          | inl _ => Ok true
          | inr ENOENT => Ok false
          | inr _ => Err (ErrWrap "failed to check file existence" (ErrMsg "system call"))
          end).

(** [List]: the paths below the base directory, without it, that have the prefix. *)
Definition relative (path : string) : option string :=
  if has_prefix (baseDir ++ "/") path then Some (text (drop (length (chars (baseDir ++ "/"))) (chars path))) else None.

Definition List (prefix : string) : Prog (res (list string)) :=
  valid prefix
    (Do (WalkTree baseDir) (fun r =>
       mret match r with
            | Listed paths => Ok (filter (fun k => has_prefix prefix k = true) (omap relative paths))
            | _ => Err (ErrWrap "failed to list files" (ErrMsg "system call"))
            end)).

(** ** Methods as operations *)

Inductive Op :=
  | OGet (key : string)
  | OPut (key data : string)
  | OPutIfMatch (key data etag : string)
  | ODelete (key : string)
  | OExists (key : string)
  | OGetMetadata (key : string)
  | OList (prefix : string).

Inductive Result :=
  | RError (r : res unit)
  | RGet (r : res (string * string))
  | RExists (r : res bool)
  | RMetadata (r : res string)
  | RList (r : res (list string)).

Definition run_op (op : Op) : Prog Result :=
  match op with
  | OGet key => RGet <$> Get key
  | OPut key data => RError <$> Put key data
  | OPutIfMatch key data etag => RError <$> PutIfMatch key data etag
  | ODelete key => RError <$> Delete key
  | OExists key => RExists <$> Exists key
  | OGetMetadata key => RMetadata <$> GetMetadata key
  | OList prefix => RList <$> List prefix
  end.

(** ** Scopes ([scoped.go]) *)

(** [ScopedStorage.prefixKey], and [stripPrefix] with [strings.TrimPrefix]. *)
Definition prefixKey (prefix key : string) : string := (prefix ++ key)%string.

Definition stripPrefix (prefix key : string) : string :=
  if has_prefix prefix key then text (drop (length (chars prefix)) (chars key)) else key.

(** The methods of [ScopedStorage] over a file backend. *)
Definition run_scoped (prefix : string) (op : Op) : Prog Result :=
  match op with
  | OGet key => RGet <$> Get (prefixKey prefix key)
  | OPut key data => RError <$> Put (prefixKey prefix key) data
  | OPutIfMatch key data etag => RError <$> PutIfMatch (prefixKey prefix key) data etag
  | ODelete key => RError <$> Delete (prefixKey prefix key)
  | OExists key => RExists <$> Exists (prefixKey prefix key)
  | OGetMetadata key => RMetadata <$> GetMetadata (prefixKey prefix key)
  | OList key =>
      r ← List (prefixKey prefix key);
      mret (RList match r with Err e => Err e | Ok keys => Ok (stripPrefix prefix <$> keys) end)
  end.
End Storage.
End Storage.

(** ** The operating system *)

Module Kernel.
Import Storage.

(** What happened to objects: a file was linked or renamed into place, or removed. *)
Inductive Event :=
  | Published (process : nat) (path : string) (old : option string) (new : string)
  | Removed (process : nat) (path : string).

(** Files, the holders of locks, who created a temporary file (names are not used
    again), and what happened. *)
Record FS := mkFS {
  fs_files : gmap string string;
  fs_locks : gmap string nat;
  fs_owner : gmap string nat;
  fs_log : list Event;
}.

Definition set_file (path : string) (data : option string) (s : FS) : FS :=
  {| s with fs_files := match data with Some d => <[path := d]> (fs_files s) | None => delete path (fs_files s) end |}.

Definition log_event (e : Event) (s : FS) : FS := {| s with fs_log := fs_log s ++ [e] |}.

(** A write to a file that is there. *)
Definition write_file (path data : string) (s : FS) : FS :=
  match fs_files s !! path with Some _ => set_file path (Some data) s | None => s end.

(** The lock is released by its holder only. *)
Definition release (t : nat) (path : string) (s : FS) : FS :=
  if bool_decide (fs_locks s !! path = Some t) then {| s with fs_locks := delete path (fs_locks s) |} else s.

(** The call of process [t]; [None] while it has to wait.  With a fault the call fails,
    a write after having left [partial]; closing a lock file always releases it. *)
Definition perform (t : nat) (c : Call) (fault : option string) (fresh : string) (s : FS) : option (FS * Reply) :=
  match fault, c with
  | _, CloseLock path => Some (release t path s, Got "")
  | Some partial, WriteTo path _ => Some (write_file path partial s, Failed EOTHER)
  | Some _, _ => Some (s, Failed EOTHER)
  | None, (CtxErr | MkdirAll _ | Chmod _ | Fsync _ | CloseFile _ | OpenLock _) => Some (s, Got "")
  | None, CreateTemp dir pattern =>
      let path := (dir ++ "/" ++ pattern ++ fresh)%string in
      if bool_decide (fs_owner s !! path = None /\ fs_files s !! path = None)
      then Some ({| (set_file path (Some "") s) with fs_owner := <[path := t]> (fs_owner s) |}, Got path)
      else None
  | None, WriteTo path data => Some (write_file path data s, Got "")
  | None, LinkFile old new =>
      match fs_files s !! old, fs_files s !! new with
      | None, _ => Some (s, Failed ENOENT)
      | Some _, Some _ => Some (s, Failed EEXIST)
      | Some d, None => Some (log_event (Published t new None d) (set_file new (Some d) s), Got "")
      end
  | None, RenameFile old new =>
      match fs_files s !! old with
      | None => Some (s, Failed ENOENT)
      | Some d => Some (log_event (Published t new (fs_files s !! new) d) (set_file new (Some d) (set_file old None s)), Got "")
      end
  | None, RemoveFile path =>
      match fs_files s !! path with
      | None => Some (s, Failed ENOENT)
      | Some _ => Some (log_event (Removed t path) (set_file path None s), Got "")
      end
  | None, ReadFile path => Some (s, match fs_files s !! path with Some d => Got d | None => Failed ENOENT end)
  | None, StatFile path => Some (s, match fs_files s !! path with Some _ => Got "" | None => Failed ENOENT end)
  | None, WalkTree dir => Some (s, Listed (filter (fun p => has_prefix (dir ++ "/") p = true) (map_to_list (fs_files s)).*1))
  | None, Flock path =>
      match fs_locks s !! path with
      | Some _ => None
      | None => Some ({| s with fs_locks := <[path := t]> (fs_locks s) |}, Got "")
      end
  | None, Funlock path => Some (release t path s, Got "")
  end.

(** The locks of a process that ends. *)
Definition release_all (t : nat) (s : FS) : FS := {| s with fs_locks := filter (fun x => x.2 <> t) (fs_locks s) |}.
End Kernel.

(** ** Processes *)

Module Processes.
Import Storage Kernel.

(** The programs that are running, the operations that were called and the results of
    those that returned. *)
Record System := mkSystem {
  y_fs : FS;
  y_progs : gmap nat (Prog Result);
  y_ops : gmap nat Op;
  y_results : gmap nat Result;
}.

Definition initial (files : gmap string string) : System := mkSystem (mkFS files ∅ ∅ []) ∅ ∅ ∅.

Section Processes.
Context {FE : FileEnv}.

Inductive step (allowed : Op -> Prop) : System -> System -> Prop :=
  | step_begin y t op :
      allowed op -> y_ops y !! t = None ->
      step allowed y {| y with y_progs := <[t := run_op op]> (y_progs y); y_ops := <[t := op]> (y_ops y) |}
  | step_call y t c k fault fresh fs r :
      y_progs y !! t = Some (Do c k) -> perform t c fault fresh (y_fs y) = Some (fs, r) ->
      step allowed y {| y with y_fs := fs; y_progs := <[t := k r]> (y_progs y) |}
  | step_return y t r :
      y_progs y !! t = Some (Return r) ->
      step allowed y {| y with y_progs := delete t (y_progs y); y_results := <[t := r]> (y_results y) |}
  | step_crash y t :
      is_Some (y_progs y !! t) ->
      step allowed y {| y with y_fs := release_all t (y_fs y); y_progs := delete t (y_progs y) |}.
End Processes.
End Processes.

(** ** Rely and guarantee

    What a process may count on while others run ([rely]), the calls it may make
    ([permitted]), and proof outlines of programs ([spec]) from both. *)

Module Facts.
Import Storage Kernel Processes.

Section Facts.
Context {FE : FileEnv} (key0 : string).

(** The object that is only written conditionally. *)
Abbreviation path0 := (file_path key0).
Abbreviation lock0 := (conditionalLockPath key0).

Definition temporary (path : string) : bool := has_word ".nstance-" path.

Definition tag (content : option string) : string := match content with None => "" | Some d => md5hex d end.

Definition op_key (op : Op) : string :=
  match op with
  | OGet k | OPut k _ | OPutIfMatch k _ _ | ODelete k | OExists k | OGetMetadata k | OList k => k
  end.

Definition op_data (op : Op) : option string :=
  match op with OPut _ d | OPutIfMatch _ d _ => Some d | _ => None end.

(** Who may run: objects are not named like temporary files, and the object is written
    with its own key and conditionally. *)
Definition friendly (op : Op) : Prop :=
  match op with
  | OPut k _ | ODelete k => temporary (file_path k) = false /\ file_path k <> path0
  | OPutIfMatch k _ _ => temporary (file_path k) = false /\ (file_path k = path0 -> k = key0)
  | _ => True
  end.

(** What [t] published. *)
Definition mine (t : nat) (log : list Event) : list (string * option string * string) :=
  omap (fun e => match e with
                 | Published t' p old new => if decide (t' = t) then Some (p, old, new) else None
                 | Removed _ _ => None
                 end) log.

Record rely (t : nat) (s s' : FS) : Prop := {
  ry_mine : mine t (fs_log s') = mine t (fs_log s);
  ry_locks : forall l, fs_locks s !! l = Some t -> fs_locks s' !! l = Some t;
  ry_temps : forall q, fs_owner s !! q = Some t -> fs_owner s' !! q = Some t /\ fs_files s' !! q = fs_files s !! q;
  ry_locked : fs_locks s !! lock0 = Some t -> fs_files s' !! path0 = fs_files s !! path0;
}.

(** Temporary files are named as such. *)
Definition owners_temporary (s : FS) : Prop := forall q t, fs_owner s !! q = Some t -> temporary q = true.

(** A publication as the operation asks for it. *)
Definition good (op : Op) (p : string) (old : option string) (new : string) : Prop :=
  p = file_path (op_key op) /\ op_data op = Some new /\
  (p = path0 -> exists etag, op = OPutIfMatch key0 new etag /\ tag old = etag).

(** The file [a] may be put in the place of [b]. *)
Definition may_publish (t : nat) (op : Op) (a b : string) (old : option string) (s : FS) : Prop :=
  fs_owner s !! a = Some t /\ temporary b = false /\ (b = path0 -> fs_locks s !! lock0 = Some t) /\
  forall d, fs_files s !! a = Some d -> good op b old d.

Definition permitted (t : nat) (op : Op) (c : Call) (s : FS) : Prop :=
  match c with
  | CreateTemp _ pattern => temporary pattern = true
  | WriteTo p _ => fs_owner s !! p = Some t
  | LinkFile a b => may_publish t op a b None s
  | RenameFile a b => may_publish t op a b (fs_files s !! b) s
  | RemoveFile p => fs_owner s !! p = Some t \/ (temporary p = false /\ p <> path0)
  | _ => True
  end.

(** What a call of [t] does to objects. *)
Inductive effect (t : nat) (op : Op) (s s' : FS) : Prop :=
  | effect_none :
      fs_log s' = fs_log s -> (forall q, temporary q = false -> fs_files s' !! q = fs_files s !! q) -> effect t op s s'
  | effect_publish p new :
      fs_log s' = fs_log s ++ [Published t p (fs_files s !! p) new] -> good op p (fs_files s !! p) new ->
      (forall q, temporary q = false -> fs_files s' !! q = if decide (q = p) then Some new else fs_files s !! q) -> effect t op s s'
  | effect_remove p :
      fs_log s' = fs_log s ++ [Removed t p] -> p <> path0 ->
      (forall q, temporary q = false -> fs_files s' !! q = if decide (q = p) then None else fs_files s !! q) -> effect t op s s'.

Lemma cut_word_app w l1 l2 : cut_word w l2 <> None -> cut_word w (l1 ++ l2) <> None.
Proof.
  intros H. induction l1 as [| a l1 IH]; [done |]. cbn [app cut_word]. case_bool_decide; [done |].
  destruct (cut_word w (l1 ++ l2)) as [[] |]; done.
Qed.

Lemma cut_word_app_l w l1 l2 : cut_word w l1 <> None -> cut_word w (l1 ++ l2) <> None.
Proof.
  induction l1 as [| a l1 IH].
  - cbn. case_bool_decide as Hw; [| done]. intros _. rewrite firstn_nil in Hw. rewrite <-Hw. by destruct l2.
  - cbn [app cut_word]. case_bool_decide as Hw.
    + intros _. rewrite bool_decide_eq_true_2; [done |]. rewrite <-Hw at 2.
      change (a :: l1 ++ l2) with ((a :: l1) ++ l2). rewrite take_app_le; [done |].
      apply (f_equal length) in Hw. rewrite length_take in Hw. lia.
    + destruct (cut_word w l1) as [[] |]; [| done]. intros _. case_bool_decide; [done |].
      destruct (cut_word w (l1 ++ l2)) as [[] |]; [done |]. by destruct IH.
Qed.

Lemma temporary_in a b c : temporary b = true -> temporary (a ++ "/" ++ b ++ c) = true.
Proof.
  unfold temporary, has_word. rewrite !bool_decide_eq_true. intros H. rewrite !chars_app.
  apply cut_word_app, cut_word_app, cut_word_app_l, H.
Qed.

#[global] Instance rely_preorder t : PreOrder (rely t).
Proof.
  split.
  - intros s. by split.
  - intros s1 s2 s3 [A1 A2 A3 A4] [B1 B2 B3 B4]. split; [congruence | auto | |].
    + intros q Hq. destruct (A3 q Hq) as [Ho Hf]. destruct (B3 q Ho) as [Ho' Hf']. split; [done | congruence].
    + intros Hl. rewrite (B4 (A2 _ Hl)). auto.
Qed.

Context (Hvisible0 : temporary path0 = false).

(** A call that changes files changes only the caller's own temporary files and, with
    what it holds, objects. *)
Lemma rely_other t t' s s' :
  owners_temporary s -> t' <> t ->
  mine t' (fs_log s') = mine t' (fs_log s) ->
  (forall l, fs_locks s !! l = Some t' -> fs_locks s' !! l = Some t') ->
  (forall q, fs_owner s !! q = Some t' -> fs_owner s' !! q = Some t') ->
  (forall q, fs_files s' !! q = fs_files s !! q \/ fs_owner s !! q = Some t \/ (fs_owner s !! q = None /\ temporary q = true) \/
     (temporary q = false /\ (q = path0 -> fs_locks s !! lock0 = Some t))) ->
  rely t' s s'.
Proof.
  intros Hown Hne Hm Hl Ho Hf. split; [done | done | |].
  - intros q Hq. split; [auto |]. destruct (Hf q) as [H | [H | [[H _] | [H _]]]]; [done | congruence | congruence |].
    apply Hown in Hq. congruence.
  - intros Hlock. destruct (Hf path0) as [H | [H | [[_ H] | [_ H]]]]; [done | apply Hown in H; congruence | congruence |].
    specialize (H eq_refl). congruence.
Qed.

Lemma mine_other t t' log e : t' <> t -> (forall p old new, e <> Published t' p old new) -> mine t' (log ++ [e]) = mine t' log.
Proof.
  intros Hne He. unfold mine. rewrite omap_app. destruct e as [t1 p old new | t1 p]; cbn; [| by rewrite app_nil_r].
  destruct (decide (t1 = t')) as [-> |]; [by destruct (He p old new) | by rewrite app_nil_r].
Qed.

Lemma set_file_lookup p d s q : fs_files (set_file p d s) !! q = if decide (q = p) then d else fs_files s !! q.
Proof.
  unfold set_file. cbn. destruct (decide (q = p)) as [-> | Hne]; destruct d; simplify_map_eq; done.
Qed.

(** What a permitted call guarantees. *)
Definition guaranteed (t : nat) (op : Op) (s s' : FS) : Prop :=
  owners_temporary s' /\ (forall t', t' <> t -> rely t' s s') /\ effect t op s s'.

Section Calls.
Context (t : nat) (op : Op) (s : FS) (Hown : owners_temporary s).

Lemma quiet_ok : guaranteed t op s s.
Proof. split; [done |]. split; [done |]. by apply effect_none. Qed.

Lemma write_ok p d : fs_owner s !! p = Some t -> guaranteed t op s (write_file p d s).
Proof.
  intros Hp. unfold write_file. destruct (fs_files s !! p) eqn:E; [| apply quiet_ok]. split; [exact Hown |]. split.
  - intros t' Hne. apply (rely_other t); try done. intros q. rewrite set_file_lookup. case_decide; subst; auto.
  - apply effect_none; [done |]. intros q Hq. rewrite set_file_lookup. case_decide; [subst | done]. apply Hown in Hp. congruence.
Qed.

Lemma release_ok l : guaranteed t op s (release t l s).
Proof.
  unfold release. case_bool_decide as Hl; [| apply quiet_ok]. split; [exact Hown |]. split.
  - intros t' Hne. apply (rely_other t); cbn; try done; [| auto]. intros l' Hl'. rewrite lookup_delete_ne; [done |]. congruence.
  - by apply effect_none.
Qed.

(** [drop]: the file is renamed, not linked. *)
Lemma publish_ok a b d (drop : bool) :
  may_publish t op a b (fs_files s !! b) s -> fs_files s !! a = Some d ->
  guaranteed t op s (log_event (Published t b (fs_files s !! b) d) (set_file b (Some d) (if drop then set_file a None s else s))).
Proof.
  intros (Ha & Hb & Hlock & Hgood) Hd. specialize (Hgood d Hd). set (s0 := if drop then set_file a None s else s).
  set (s1 := log_event _ _).
  assert (forall q, fs_files s1 !! q = if decide (q = b) then Some d else if decide (q = a) then (if drop then None else Some d) else fs_files s !! q) as Hlk.
  { intros q. unfold s1, s0. cbn [log_event fs_files]. destruct drop; rewrite !set_file_lookup; repeat case_decide; subst; done. }
  split; [unfold s1, s0; by destruct drop |]. split.
  - intros t' Hne. apply (rely_other t); try done.
    + unfold s1, s0. destruct drop; cbn; apply mine_other with (t := t); try done; intros ???; congruence.
    + unfold s1, s0. by destruct drop.
    + unfold s1, s0. by destruct drop.
    + intros q. rewrite Hlk. repeat case_decide; subst; auto 6.
  - apply (effect_publish _ _ _ _ b d); [unfold s1, s0; by destruct drop | done |]. intros q Hq. rewrite Hlk.
    case_decide; [done |]. case_decide; [subst | done]. apply Hown in Ha. congruence.
Qed.

Lemma remove_ok p :
  fs_owner s !! p = Some t \/ (temporary p = false /\ p <> path0) ->
  guaranteed t op s (log_event (Removed t p) (set_file p None s)).
Proof.
  intros Hp. assert (p <> path0) as Hp0 by (destruct Hp as [Hp | [_ Hp]]; [intros ->; apply Hown in Hp; congruence | done]).
  split; [exact Hown |]. split.
  - intros t' Hne. apply (rely_other t); try done; [by apply mine_other with (t := t) |].
    intros q. cbn [log_event fs_files]. rewrite set_file_lookup. case_decide; [subst | auto].
    destruct Hp as [Hp | [Hp _]]; [auto | right; right; right; split; [done | congruence]].
  - apply (effect_remove _ _ _ _ p); [done | done |]. intros q Hq. cbn [log_event fs_files]. by rewrite set_file_lookup.
Qed.

Lemma create_ok path :
  fs_owner s !! path = None -> temporary path = true ->
  guaranteed t op s {| (set_file path (Some "") s) with fs_owner := <[path := t]> (fs_owner s) |}.
Proof.
  intros Hfo Htemp. split; [| split].
  - intros q t1. cbn. destruct (decide (path = q)) as [<- | Hq]; [done |]. rewrite lookup_insert_ne by done. apply Hown.
  - intros t' Hne. apply (rely_other t); cbn [fs_log fs_locks fs_owner fs_files]; try done.
    + intros q Hq. rewrite lookup_insert_ne; [done |]. congruence.
    + intros q. destruct (decide (path = q)) as [<- |]; [auto 6 |]. left. by apply lookup_insert_ne.
  - apply effect_none; [done |]. intros q Hq. apply lookup_insert_ne. congruence.
Qed.

Lemma flock_ok l : fs_locks s !! l = None -> guaranteed t op s {| s with fs_locks := <[l := t]> (fs_locks s) |}.
Proof.
  intros Hl. split; [exact Hown |]. split; [| by apply effect_none].
  intros t' Hne. apply (rely_other t); cbn; try done; [| auto]. intros l' Hl'. rewrite lookup_insert_ne; [done |]. congruence.
Qed.

Lemma perform_ok c fault fresh s' r : permitted t op c s -> perform t c fault fresh s = Some (s', r) -> guaranteed t op s s'.
Proof.
  intros Hperm Hrun. destruct c, fault as [partial |]; cbn [perform permitted] in Hrun, Hperm;
    try (injection Hrun as <- <-; first [apply quiet_ok | by apply write_ok | apply release_ok]).
  - case_bool_decide as Hfree; [| done]. destruct Hfree as [Hfo Hff]. injection Hrun as <- <-. by apply create_ok, temporary_in.
  - destruct (fs_files s !! old) as [d |] eqn:Ea; [| injection Hrun as <- <-; apply quiet_ok].
    destruct (fs_files s !! new) eqn:Eb; injection Hrun as <- <-; [apply quiet_ok |].
    pose proof (publish_ok old new d false) as H. rewrite Eb in H. by apply H.
  - destruct (fs_files s !! old) as [d |] eqn:Ea; injection Hrun as <- <-; [| apply quiet_ok]. by apply (publish_ok old new d true).
  - destruct (fs_files s !! path) as [d |] eqn:Ea; injection Hrun as <- <-; [by apply remove_ok | apply quiet_ok].
  - destruct (fs_locks s !! path) eqn:El; [done |]. injection Hrun as <- <-. by apply flock_ok.
Qed.
End Calls.

(** ** Proof outlines *)

Definition stable (t : nat) (P : FS -> Prop) : Prop := forall s s', rely t s s' -> P s -> P s'.

(** An outline annotates every point of a program with an assertion that others keep. *)
Inductive spec (t : nat) (op : Op) {A} : (FS -> Prop) -> Prog A -> (A -> FS -> Prop) -> Prop :=
  | spec_return P a (Q : A -> FS -> Prop) : stable t P -> (forall s, P s -> Q a s) -> spec t op P (Return a) Q
  | spec_do P c k (Q : A -> FS -> Prop) (R : Reply -> FS -> Prop) :
      stable t P -> (forall s, P s -> permitted t op c s) ->
      (forall s fault fresh s' r, P s -> perform t c fault fresh s = Some (s', r) -> R r s') ->
      (forall r, spec t op (R r) (k r) Q) -> spec t op P (Do c k) Q.

Lemma spec_pre t op {A} (P P' : FS -> Prop) (m : Prog A) Q :
  stable t P' -> (forall s, P' s -> P s) -> spec t op P m Q -> spec t op P' m Q.
Proof.
  intros Hs Hi H. destruct H as [P a Q _ HQ | P c k Q R _ Hp Hr Hk]; [constructor; auto | by apply (spec_do t op P' c k Q R); eauto].
Qed.

Lemma spec_bind t op {A B} P (m : Prog A) (f : A -> Prog B) Q R :
  spec t op P m R -> (forall a, spec t op (R a) (f a) Q) -> spec t op P (m ≫= f) Q.
Proof.
  intros Hm Hf. induction Hm as [P a R Hs Hi | P c k R R' Hs Hp Hr Hk IH].
  - by apply (spec_pre t op (R a)).
  - apply (spec_do t op P c _ Q R'); [done | done | done |]. intros r. by apply IH.
Qed.

Lemma spec_ret t op {A} P (a : A) (Q : A -> FS -> Prop) : stable t P -> (forall s, P s -> Q a s) -> spec t op P (mret a) Q.
Proof. by constructor. Qed.

(** An assertion for each outcome of a call that may fail. *)
Definition either {A} (good : A -> FS -> Prop) (bad : FS -> Prop) (r : res A) : FS -> Prop :=
  match r with Ok a => good a | Err _ => bad end.

Lemma spec_p_bind t op {A B} P (m : Prog (res A)) (f : A -> Prog (res B)) R E Q :
  stable t E -> spec t op P m (either R E) -> (forall a, spec t op (R a) (f a) Q) -> (forall e s, E s -> Q (Err e) s) ->
  spec t op P (p_bind m f) Q.
Proof. intros HE Hm Hf He. apply (spec_bind t op P m _ Q _ Hm). intros [a | e]; [apply Hf | by apply spec_ret; auto]. Qed.

Lemma spec_finally t op {A} P (m : Prog A) cleanup R Q :
  spec t op P m R -> (forall a, spec t op (R a) cleanup (fun _ => Q a)) -> (forall a, stable t (Q a)) ->
  spec t op P (finally m cleanup) Q.
Proof.
  intros Hm Hc Hs. apply (spec_bind t op P m _ Q _ Hm). intros a. apply (spec_bind t op _ _ _ _ _ (Hc a)). intros _. by apply spec_ret.
Qed.

Lemma spec_sys t op c P (good : string -> FS -> Prop) (bad : Errno -> FS -> Prop) :
  stable t P -> (forall d, stable t (good d)) -> (forall e, stable t (bad e)) -> (forall s, P s -> permitted t op c s) ->
  (forall s fault fresh s' r, P s -> perform t c fault fresh s = Some (s', r) ->
     match r with Got d => good d s' | Listed _ => good "" s' | Failed e => bad e s' end) ->
  spec t op P (sys c) (fun r => match r with inl d => good d | inr e => bad e end).
Proof.
  intros HP Hg Hb Hperm Hrun.
  apply (spec_do t op P c _ _ (fun r => match r with Got d => good d | Listed _ => good "" | Failed e => bad e end)); [done | done | |].
  - intros s fault fresh s' r Hs Hr. specialize (Hrun s fault fresh s' r Hs Hr). by destruct r.
  - intros [d | l | e]; by constructor.
Qed.

Lemma spec_os t op msg c P (good : string -> FS -> Prop) (bad : FS -> Prop) :
  (forall d, stable t (good d)) -> stable t bad ->
  spec t op P (sys c) (fun r => match r with inl d => good d | inr _ => bad end) -> spec t op P (os msg c) (either good bad).
Proof. intros Hg Hb H. apply (spec_bind t op P _ _ _ _ H). intros [d | e]; by apply spec_ret. Qed.

Lemma spec_ignore t op {A} (m : Prog A) P Q : stable t Q -> spec t op P m (fun _ => Q) -> spec t op P (ignore m) (fun _ => Q).
Proof. intros HQ H. apply (spec_bind t op P m _ _ _ H). intros _. by apply spec_ret. Qed.

(** ** What a writing process knows *)

Section Writer.
Context (t : nat) (op : Op).
Abbreviation key := (op_key op).

(** What it published, whether it holds the lock of its key, its temporary file with its
    content, and the tag it has seen on the object while holding the lock. *)
Definition know (locked : bool) (temp : option (string * option string)) (seen : option string)
    (pub : list (string * option string * string) -> Prop) (s : FS) : Prop :=
  pub (mine t (fs_log s)) /\
  (locked = true -> fs_locks s !! conditionalLockPath key = Some t) /\
  (forall q d, temp = Some (q, d) -> temporary q = true /\ fs_owner s !! q = Some t /\ (forall x, d = Some x -> fs_files s !! q = Some x)) /\
  (forall e, seen = Some e -> key = key0 -> locked = true /\ tag (fs_files s !! path0) = e).

(** Nothing was published, or the data in the place of the object. *)
Definition none (l : list (string * option string * string)) : Prop := l = [].
Definition one (data : string) (l : list (string * option string * string)) : Prop := exists old, l = [(file_path key, old, data)].

Lemma know_stable locked temp seen pub : stable t (know locked temp seen pub).
Proof.
  intros s s' [R1 R2 R3 R4] (K1 & K2 & K3 & K4). split_and!; [congruence | auto | |].
  - intros q d Hq. destruct (K3 q d Hq) as (Ht & Ho & Hf). destruct (R3 q Ho) as [Ho' Hf']. split_and!; [done | done |].
    intros x Hx. rewrite Hf'. auto.
  - intros e He Hk. destruct (K4 e He Hk) as [-> Ht]. split; [done |]. rewrite R4; [done |]. rewrite <-Hk. auto.
Qed.
#[local] Hint Resolve know_stable : core.

(** Forgetting. *)
Lemma know_forget locked q d seen pub s : know locked (Some (q, d)) seen pub s -> know locked (Some (q, None)) None pub s.
Proof. intros (K1 & K2 & K3 & K4). split_and!; [done | done | | done]. intros q' d' [= <- <-]. destruct (K3 q d eq_refl) as (H1 & H2 & _). done. Qed.

Lemma know_seen locked seen pub s : know locked None seen pub s -> know locked None None pub s.
Proof. intros (K1 & K2 & K3 & K4). by split_and!. Qed.

(** Calls that change nothing. *)
Definition quiet (c : Call) : bool :=
  match c with
  | CtxErr | MkdirAll _ | Chmod _ | Fsync _ | CloseFile _ | OpenLock _ | ReadFile _ | StatFile _ | WalkTree _ => true
  | _ => false
  end.

Lemma quiet_run c fault fresh s s' r : quiet c = true -> perform t c fault fresh s = Some (s', r) -> s' = s.
Proof. intros Hq Hr. destruct c; try done; destruct fault; cbn in Hr; by injection Hr as <- <-. Qed.

Lemma spec_quiet P c : stable t P -> quiet c = true -> spec t op P (sys c) (fun _ => P).
Proof.
  intros HP Hq. eapply (spec_bind t op P (sys c) (fun x => Return x) _ (fun r => match r with inl _ => P | inr _ => P end)).
  - apply spec_sys; [done | done | done | |].
    + intros s _. by destruct c.
    + intros s fault fresh s' r Hs Hr. rewrite (quiet_run _ _ _ _ _ _ Hq Hr). by destruct r.
  - intros [d | e]; by constructor.
Qed.

Lemma spec_flock temp pub :
  spec t op (know false temp None pub) (sys (Flock (conditionalLockPath key)))
    (fun r => match r with inl _ => know true temp None pub | inr _ => know false temp None pub end).
Proof.
  apply spec_sys with (good := fun _ => know true temp None pub) (bad := fun _ => know false temp None pub); try by auto.
  intros s fault fresh s' r (K1 & K2 & K3 & K4) Hr. destruct fault as [partial |]; cbn in Hr; [injection Hr as <- <-; by split_and! |].
  destruct (fs_locks s !! _); [done |]. injection Hr as <- <-. split_and!; [done | | done | done].
  intros _. cbn. by rewrite lookup_insert_eq.
Qed.

Lemma know_release locked temp pub l s : know locked temp None pub s -> know false temp None pub (release t l s).
Proof. intros (K1 & K2 & K3 & K4). unfold release. case_bool_decide; by split_and!. Qed.

Lemma spec_release locked temp pub c l :
  c = Funlock l \/ c = CloseLock l -> spec t op (know locked temp None pub) (ignore (sys c)) (fun _ => know false temp None pub).
Proof.
  intros Hc. apply spec_ignore; [done |].
  eapply (spec_bind t op _ (sys c) (fun x => Return x) _ (fun r => match r with inl _ => know false temp None pub | inr _ => know false temp None pub end)).
  - apply spec_sys; auto.
    + intros s _. by destruct Hc as [-> | ->].
    + intros s fault fresh s' r K Hr. assert (know false temp None pub s) as K0 by (destruct K as (K1 & K2 & K3 & K4); by split_and!).
      destruct Hc as [-> | ->], fault as [partial |]; cbn in Hr; injection Hr as <- <-; try done; by eapply know_release.
  - intros [d | e]; by constructor.
Qed.

Lemma spec_create locked seen pub dir pattern :
  temporary pattern = true ->
  spec t op (know locked None seen pub) (sys (CreateTemp dir pattern))
    (fun r => match r with inl q => know locked (Some (q, Some "")) seen pub | inr _ => know locked None None pub end).
Proof.
  intros Hpat. apply spec_sys with (good := fun q => know locked (Some (q, Some "")) seen pub) (bad := fun _ => know locked None None pub); auto.
  intros s fault fresh s' r (K1 & K2 & K3 & K4) Hr. destruct fault as [partial |]; cbn [perform] in Hr; [injection Hr as <- <-; by split_and! |].
  case_bool_decide as Hfree; [| done]. destruct Hfree as [Hfo Hff]. injection Hr as <- <-.
  set (path := (dir ++ "/" ++ pattern ++ fresh)%string) in *.
  assert (temporary path = true) as Htemp by by apply temporary_in. split_and!; [done | done | |]; cbn [fs_owner fs_files].
  - intros q d [= <- <-]. rewrite lookup_insert_eq. split_and!; [done | done |]. intros x [= <-]. cbn. by rewrite lookup_insert_eq.
  - intros e He Hk. destruct (K4 e He Hk) as [-> Hs]. split; [done |]. cbn. rewrite lookup_insert_ne; [done | congruence].
Qed.

Lemma know_write locked q d x seen pub s :
  know locked (Some (q, Some d)) seen pub s -> know locked (Some (q, Some x)) seen pub (write_file q x s).
Proof.
  intros (K1 & K2 & K3 & K4). destruct (K3 q (Some d) eq_refl) as (Ht & Ho & Hf). unfold write_file. rewrite (Hf d eq_refl).
  split_and!; [done | done | |].
  - intros q' d' [= <- <-]. split_and!; [done | done |]. intros y [= <-]. rewrite set_file_lookup. by case_decide.
  - intros e He Hk. destruct (K4 e He Hk) as [-> Hs]. split; [done |]. rewrite set_file_lookup. case_decide; [congruence | done].
Qed.

Lemma spec_write locked q d x seen pub :
  spec t op (know locked (Some (q, Some d)) seen pub) (sys (WriteTo q x))
    (fun r => match r with inl _ => know locked (Some (q, Some x)) seen pub | inr _ => know locked (Some (q, None)) None pub end).
Proof.
  apply spec_sys with (good := fun _ => know locked (Some (q, Some x)) seen pub) (bad := fun _ => know locked (Some (q, None)) None pub); auto.
  - intros s (_ & _ & K & _). by destruct (K q (Some d) eq_refl) as (_ & H & _).
  - intros s fault fresh s' r K Hr. destruct fault as [partial |]; cbn in Hr; injection Hr as <- <-; [eapply know_forget |]; by eapply know_write.
Qed.

(** The data may be put in place: elsewhere, or with the lock over the object whose tag
    the operation names. *)
Definition ready (locked : bool) (seen : option string) (data : string) : Prop :=
  op_data op = Some data /\ temporary (file_path key) = false /\
  (file_path key = path0 -> locked = true /\ key = key0 /\ exists etag, op = OPutIfMatch key0 data etag /\ seen = Some etag).

Lemma ready_publish locked q seen data s old :
  ready locked seen data -> know locked (Some (q, Some data)) seen none s -> (file_path key = path0 -> old = fs_files s !! path0) ->
  may_publish t op q (file_path key) old s.
Proof.
  intros (Hd & Hv & Hr) (K1 & K2 & K3 & K4) Hold. destruct (K3 q _ eq_refl) as (Ht & Ho & Hf). split_and!; [done | done | |].
  - intros Hp. destruct (Hr Hp) as (Hl & Hk & _). rewrite <-Hk. auto.
  - intros d Hd'. rewrite (Hf _ eq_refl) in Hd'. injection Hd' as <-. split_and!; [done | done |].
    intros Hp. destruct (Hr Hp) as (Hl & Hk & etag & Hop & Hseen). exists etag. split; [done |].
    rewrite Hold by done. by destruct (K4 etag Hseen Hk).
Qed.

Lemma know_published locked q d seen data old s s' :
  know locked (Some (q, d)) seen none s -> fs_log s' = fs_log s ++ [Published t (file_path key) old data] ->
  fs_locks s' = fs_locks s -> fs_owner s' = fs_owner s -> know locked (Some (q, None)) None (one data) s'.
Proof.
  intros (K1 & K2 & K3 & K4) Hlog Hlocks Hown. split_and!; [| by rewrite Hlocks | | done].
  - exists old. rewrite Hlog. unfold mine, none in *. rewrite omap_app, K1. cbn. by rewrite decide_True.
  - intros q' d' [= <- <-]. rewrite Hown. destruct (K3 q d eq_refl) as (H1 & H2 & _). done.
Qed.

Lemma spec_rename locked q seen data :
  ready locked seen data ->
  spec t op (know locked (Some (q, Some data)) seen none) (sys (RenameFile q (file_path key)))
    (fun r => match r with inl _ => know locked (Some (q, None)) None (one data) | inr _ => know locked (Some (q, None)) None none end).
Proof.
  intros Hready. apply spec_sys with (good := fun _ => know locked (Some (q, None)) None (one data)) (bad := fun _ => know locked (Some (q, None)) None none); auto.
  - intros s K. cbn. eapply ready_publish; [done | done |]. by intros ->.
  - intros s fault fresh s' r K Hr. destruct fault as [partial |]; cbn in Hr; [injection Hr as <- <-; by eapply know_forget |].
    destruct K as (K1 & K2 & K3 & K4) eqn:HK. clear HK. destruct (K3 q _ eq_refl) as (Ht & Ho & Hf). rewrite (Hf _ eq_refl) in Hr.
    injection Hr as <- <-. by eapply (know_published locked q (Some data) seen data).
Qed.

Lemma spec_link locked q data :
  ready locked (Some "") data ->
  spec t op (know locked (Some (q, Some data)) None none) (sys (LinkFile q (file_path key)))
    (fun r => match r with inl _ => know locked (Some (q, None)) None (one data) | inr _ => know locked (Some (q, None)) None none end).
Proof.
  intros (Hd & Hv & Hready).
  apply spec_sys with (good := fun _ => know locked (Some (q, None)) None (one data)) (bad := fun _ => know locked (Some (q, None)) None none); auto.
  - intros s (K1 & K2 & K3 & K4). destruct (K3 q _ eq_refl) as (Ht & Ho & Hf). cbn. split_and!; [done | done | |].
    + intros Hp. destruct (Hready Hp) as (Hl & Hk & _). rewrite <-Hk. auto.
    + intros d Hd'. rewrite (Hf _ eq_refl) in Hd'. injection Hd' as <-. split_and!; [done | done |].
      intros Hp. destruct (Hready Hp) as (_ & _ & etag & Hop & [= <-]). by exists "".
  - intros s fault fresh s' r K Hr. destruct fault as [partial |]; cbn in Hr; [injection Hr as <- <-; by eapply know_forget |].
    destruct (proj1 (proj2 (proj2 K)) q _ eq_refl) as (Ht & Ho & Hf). rewrite (Hf _ eq_refl) in Hr.
    destruct (fs_files s !! file_path key); injection Hr as <- <-; [by eapply know_forget |].
    by eapply (know_published locked q (Some data) None data).
Qed.

(** Removing the temporary file, whatever became of it. *)
Lemma spec_remove_temp locked q pub :
  spec t op (know locked (Some (q, None)) None pub) (ignore (sys (RemoveFile q))) (fun _ => know locked None None pub).
Proof.
  apply spec_ignore; [done |].
  eapply (spec_bind t op _ (sys _) (fun x => Return x) _ (fun r => match r with inl _ => know locked None None pub | inr _ => know locked None None pub end)).
  - apply spec_sys; auto.
    + intros s (_ & _ & K & _). left. by destruct (K q _ eq_refl) as (_ & H & _).
    + intros s fault fresh s' r (K1 & K2 & K3 & K4) Hr. destruct fault as [partial |]; cbn in Hr; [injection Hr as <- <-; by split_and! |].
      destruct (fs_files s !! q); injection Hr as <- <-; [| by split_and!]. split_and!; [| done | done | done].
      cbn. unfold mine. rewrite omap_app. cbn. by rewrite app_nil_r.
  - intros [d | e]; by constructor.
Qed.

(** Reading the object's tag under the lock. *)
Lemma spec_read_tag locked :
  locked = true ->
  spec t op (know locked None None none) (sys (ReadFile (file_path key)))
    (fun r => match r with inl d => know locked None (Some (md5hex d)) none | inr _ => know locked None None none end).
Proof.
  intros Hlk. apply spec_sys with (good := fun d => know locked None (Some (md5hex d)) none) (bad := fun _ => know locked None None none); try by auto.
  intros s fault fresh s' r (K1 & K2 & K3 & K4) Hr. destruct fault as [partial |]; cbn in Hr; [injection Hr as <- <-; by split_and! |].
  injection Hr as <- <-. destruct (fs_files s !! file_path key) as [d |] eqn:Ef; [| by split_and!].
  split_and!; [done | done | done |]. intros e [= <-] Hk. split; [done |]. rewrite <-Hk, Ef. done.
Qed.

(** ** The methods *)

Lemma spec_on_temp q msg c P : stable t P -> quiet c = true -> spec t op P (on_temp q msg c) (either (fun _ => P) P).
Proof.
  intros HP Hq. eapply (spec_bind t op P (os msg c) _ _ (either (fun _ => P) P)).
  - apply spec_os; [done | done |]. eapply (spec_bind t op P (sys c) (fun x => Return x)); [by apply spec_quiet |]. intros [d | e]; by constructor.
  - intros [d | e]; cbn [either]; [by apply spec_ret |].
    eapply (spec_bind t op _ _ _ _ (fun _ => P)); [apply spec_ignore; [done |]; by apply spec_quiet |]. intros _. by apply spec_ret.
Qed.

Lemma spec_quiet_os msg c P : stable t P -> quiet c = true -> spec t op P (os msg c) (either (fun _ => P) P).
Proof.
  intros HP Hq. apply spec_os; [done | done |].
  eapply (spec_bind t op P (sys c) (fun x => Return x)); [by apply spec_quiet |]. intros [d | e]; by constructor.
Qed.

Lemma spec_write_temp locked q d x seen msg :
  spec t op (know locked (Some (q, Some d)) seen none) (on_temp q msg (WriteTo q x))
    (either (fun _ => know locked (Some (q, Some x)) seen none) (know locked (Some (q, None)) None none)).
Proof.
  eapply (spec_bind t op _ (os msg _) _ _ (either (fun _ => know locked (Some (q, Some x)) seen none) (know locked (Some (q, None)) None none))).
  - apply spec_os; [done | done |]. apply spec_write.
  - intros [y | e]; cbn [either]; [by apply spec_ret |].
    eapply (spec_bind t op _ _ _ _ (fun _ => know locked (Some (q, None)) None none)); [apply spec_ignore; [done |]; by apply spec_quiet |].
    intros _. by apply spec_ret.
Qed.

(** What is left when a write is over. *)
Abbreviation written locked data := (either (fun _ : unit => know locked None None (one data)) (know locked None None none)).
Abbreviation on_disk locked q data :=
  (either (fun _ : unit => know locked (Some (q, None)) None (one data)) (know locked (Some (q, None)) None none)).

(** A body that works on a temporary file, which is removed. *)
Lemma spec_temp_file locked seen data msg dir pattern (body : string -> Prog (res unit)) :
  temporary pattern = true -> (forall q, spec t op (know locked (Some (q, Some "")) seen none) (body q) (on_disk locked q data)) ->
  spec t op (know locked None seen none)
    (p_bind (os msg (CreateTemp dir pattern)) (fun q => finally (body q) (ignore (sys (RemoveFile q))))) (written locked data).
Proof.
  intros Hpat Hbody. eapply (spec_p_bind _ _ _ _ _ (fun q => know locked (Some (q, Some "")) seen none) (know locked None None none)); [done | | | done].
  - apply spec_os; [done | done |]. by apply spec_create.
  - intros q. eapply spec_finally; [apply Hbody | | by intros [|]; cbn [either]]. intros [[] | e]; apply spec_remove_temp.
Qed.

Lemma spec_rename_body locked seen data q m1 m2 m3 m4 m5 :
  ready locked seen data ->
  spec t op (know locked (Some (q, Some "")) seen none)
    (p_bind (on_temp q m1 (Chmod q)) (fun _ => p_bind (on_temp q m2 (WriteTo q data)) (fun _ => p_bind (on_temp q m3 (Fsync q)) (fun _ =>
       p_bind (os m4 (CloseFile q)) (fun _ => p_bind (os m5 (RenameFile q (file_path key))) (fun _ => mret (Ok tt)))))))
    (on_disk locked q data).
Proof.
  intros Hready.
  assert (forall d s, know locked (Some (q, Some d)) seen none s -> know locked (Some (q, None)) None none s) as Hforget by (intros; by eapply know_forget).
  eapply (spec_p_bind _ _ _ _ _ (fun _ => know locked (Some (q, Some "")) seen none)); [| by apply spec_on_temp | | by intros; eapply Hforget]; [done |].
  cbv beta. intros _. eapply spec_p_bind; [| apply spec_write_temp | | by intros]; [done |]. cbv beta. intros _.
  eapply (spec_p_bind _ _ _ _ _ (fun _ => know locked (Some (q, Some data)) seen none)); [| by apply spec_on_temp | | by intros; eapply Hforget]; [done |]. cbv beta. intros _.
  eapply (spec_p_bind _ _ _ _ _ (fun _ => know locked (Some (q, Some data)) seen none)); [| by apply spec_quiet_os | | by intros; eapply Hforget]; [done |]. cbv beta. intros _.
  eapply (spec_p_bind _ _ _ _ _ (fun _ => know locked (Some (q, None)) None (one data))); [| apply spec_os; [done | done |]; by apply spec_rename | | by intros]; [done |].
  cbv beta. intros _. by apply spec_ret.
Qed.

Lemma spec_create_object data dir locked :
  ready locked (Some "") data -> spec t op (know locked None None none) (create_object (file_path key) dir data) (written locked data).
Proof.
  intros Hready. apply spec_temp_file; [done |]. intros q.
  assert (forall d s, know locked (Some (q, Some d)) None none s -> know locked (Some (q, None)) None none s) as Hforget by (intros; by eapply know_forget).
  eapply (spec_p_bind _ _ _ _ _ (fun _ => know locked (Some (q, Some "")) None none)); [| by apply spec_on_temp | | by intros; eapply Hforget]; [done |].
  cbv beta. intros _. eapply spec_p_bind; [| apply spec_write_temp | | by intros]; [done |]. cbv beta. intros _.
  eapply (spec_p_bind _ _ _ _ _ (fun _ => know locked (Some (q, Some data)) None none)); [| by apply spec_quiet_os | | by intros; eapply Hforget]; [done |]. cbv beta. intros _.
  eapply spec_bind; [by apply spec_link |]. intros [d | e]; [by apply spec_ret |]. destruct e; by apply spec_ret.
Qed.

Lemma spec_GetMetadata :
  spec t op (know true None None none) (GetMetadata key) (either (fun e => know true None (Some e) none) (know true None None none)).
Proof.
  unfold GetMetadata, valid. destruct (validateKey key); [| by apply spec_ret].
  eapply spec_bind; [by apply spec_quiet |]. intros [d | e]; [| by destruct e; apply spec_ret].
  eapply (spec_p_bind _ _ _ _ _ (fun d => know true None (Some (md5hex d)) none) (know true None None none)); [done | | | by intros].
  { apply spec_os; [done | done |]. by apply spec_read_tag. }
  intros data. by apply spec_ret.
Qed.

Lemma spec_locked data etag dir :
  op = OPutIfMatch key data etag -> friendly op ->
  spec t op (know true None None none) (putIfMatchLocked key (file_path key) dir data etag) (written true data).
Proof.
  intros Hop Hfr. assert (forall seen, seen = Some etag -> ready true seen data) as Hready.
  { intros seen ->. rewrite Hop in Hfr. cbn in Hfr. destruct Hfr as [Hv Hk]. split_and!; [by rewrite Hop | done |].
    intros Hp. specialize (Hk Hp). split_and!; [done | done |]. exists etag. by rewrite <-Hk. }
  unfold putIfMatchLocked. case_bool_decide as He; [subst etag; apply spec_create_object; auto |].
  eapply spec_bind; [apply spec_GetMetadata |]. intros [cur | e]; cbn [either]; [| destruct (err_is e ErrNotFound); by apply spec_ret].
  case_bool_decide as Hc; [apply spec_ret; [done |]; by apply know_seen |]. subst cur.
  apply spec_temp_file; [done |]. intros q. apply spec_rename_body. auto.
Qed.

Lemma spec_ctx P : stable t P -> spec t op P ctx_err (either (fun _ => P) P).
Proof. intros HP. eapply spec_bind; [by apply spec_quiet |]. intros [d | e]; by apply spec_ret. Qed.

Lemma spec_PutIfMatch data etag :
  op = OPutIfMatch key data etag -> friendly op -> spec t op (know false None None none) (PutIfMatch key data etag) (written false data).
Proof.
  intros Hop Hfr. unfold PutIfMatch, valid. destruct (validateKey key); [| by apply spec_ret].
  eapply (spec_p_bind _ _ _ _ _ (fun _ => know false None None none)); [| by apply spec_quiet_os | | by intros]; [done |]. cbv beta. intros _. unfold withKeyLock.
  eapply (spec_p_bind _ _ _ _ _ (fun _ => know false None None none)); [| by apply spec_ctx | | by intros]; [done |]. cbv beta. intros _.
  eapply (spec_p_bind _ _ _ _ _ (fun _ => know false None None none)); [| by apply spec_quiet_os | | by intros]; [done |]. cbv beta. intros _.
  eapply (spec_p_bind _ _ _ _ _ (fun _ => know false None None none)); [| by apply spec_quiet_os | | by intros]; [done |]. cbv beta. intros _.
  eapply (spec_finally _ _ _ _ _ (written false data)); [| | by intros [|]; cbn [either]].
  2:{ intros [[] | e]; cbn [either]; eapply spec_release; by right. }
  eapply (spec_p_bind _ _ _ _ _ (fun _ => know true None None none)); [| apply spec_os; [done | done |]; by apply spec_flock | | by intros]; [done |]. cbv beta. intros _.
  eapply (spec_finally _ _ _ _ _ (written true data)); [| | by intros [|]; cbn [either]].
  2:{ intros [[] | e]; cbn [either]; eapply spec_release; by left. }
  eapply (spec_p_bind _ _ _ _ _ (fun _ => know true None None none)); [| by apply spec_ctx | | by intros]; [done |]. cbv beta. intros _. by apply spec_locked.
Qed.

Lemma spec_Put data : op = OPut key data -> friendly op -> spec t op (know false None None none) (Put key data) (written false data).
Proof.
  intros Hop Hfr. unfold Put, valid. destruct (validateKey key); [| by apply spec_ret].
  eapply (spec_p_bind _ _ _ _ _ (fun _ => know false None None none)); [| by apply spec_quiet_os | | by intros]; [done |]. cbv beta. intros _.
  apply spec_temp_file; [done |]. intros q. apply spec_rename_body. rewrite Hop in Hfr. destruct Hfr as [Hv Hne]. cbn in Hv, Hne.
  split_and!; [by rewrite Hop | done | done].
Qed.

Lemma spec_Delete : op = ODelete key -> friendly op -> spec t op (know false None None none) (Delete key) (fun _ => know false None None none).
Proof.
  intros Hop Hfr. unfold Delete, valid. destruct (validateKey key); [| by apply spec_ret].
  rewrite Hop in Hfr. destruct Hfr as [Hv Hne]. cbn in Hv, Hne.
  eapply (spec_bind t op _ (sys _) _ _ (fun r => match r with inl _ => know false None None none | inr _ => know false None None none end)).
  - apply spec_sys; auto.
    + intros s _. by right.
    + intros s fault fresh s' r (K1 & K2 & K3 & K4) Hr. destruct fault as [partial |]; cbn in Hr; [injection Hr as <- <-; by split_and! |].
      destruct (fs_files s !! file_path key); injection Hr as <- <-; [| by split_and!]. split_and!; [| done | done | done].
      unfold none, mine in *. cbn. by rewrite omap_app, K1.
  - intros [d | [| |]]; by apply spec_ret.
Qed.

End Writer.

(** How many publications an operation that returned has made. *)
Definition post (t : nat) (op : Op) (r : Result) (s : FS) : Prop :=
  match op_data op, r with
  | Some data, RError (Ok _) => one op data (mine t (fs_log s))
  | _, _ => mine t (fs_log s) = []
  end.

Lemma know_post t op pub r s : know t op false None None pub s ->
  match op_data op, r with Some data, RError (Ok _) => forall l, pub l -> one op data l | _, _ => forall l, pub l -> l = [] end -> post t op r s.
Proof. intros (K & _). unfold post. destruct (op_data op), r as [[] | | | |]; auto. Qed.

Lemma spec_map t op {A} (f : A -> Result) P (m : Prog A) R :
  spec t op P m R -> (forall a, stable t (R a)) -> (forall a s, R a s -> post t op (f a) s) -> spec t op P (f <$> m) (post t op).
Proof. intros Hm Hs Hp. eapply spec_bind; [exact Hm |]. intros a. apply spec_return; auto. Qed.

Lemma spec_run_op t op : friendly op -> spec t op (know t op false None None none) (run_op op) (post t op).
Proof.
  intros Hfr. assert (forall P (c : Call), stable t P -> quiet c = true -> spec t op P (sys c) (fun _ => P)) as Hq by (intros; by apply spec_quiet).
  pose proof (know_stable t op false None None none) as Hs.
  destruct op as [k | k d | k d e | k | k | k | k]; cbn [run_op].
  - eapply spec_map with (R := fun _ => know t _ false None None none); [| done |].
    + unfold Get, valid. destruct (validateKey k); [| by apply spec_ret]. eapply spec_bind; [by apply Hq |].
      intros [x | [| |]]; by apply spec_ret.
    + intros a s K. eapply know_post; [exact K | cbn; auto].
  - eapply spec_map; [by apply spec_Put | intros [|]; apply know_stable |]. intros [[] | e] s K; (eapply know_post; [exact K | cbn; auto]).
  - eapply spec_map; [by apply spec_PutIfMatch | intros [|]; apply know_stable |]. intros [[] | e'] s K; (eapply know_post; [exact K | cbn; auto]).
  - eapply spec_map with (R := fun _ => know t (ODelete k) false None None none); [by apply (spec_Delete t (ODelete k)) | done |]. intros a s K. eapply know_post; [exact K | cbn; auto].
  - eapply spec_map with (R := fun _ => know t _ false None None none); [| done |].
    + unfold Exists, valid. destruct (validateKey k); [| by apply spec_ret]. eapply spec_bind; [by apply Hq |].
      intros [x | [| |]]; by apply spec_ret.
    + intros a s K. eapply know_post; [exact K | cbn; auto].
  - eapply spec_map with (R := fun _ => know t _ false None None none); [| done |].
    + unfold GetMetadata, valid. destruct (validateKey k); [| by apply spec_ret]. eapply spec_bind; [by apply Hq |].
      intros [x | [| |]]; [| by apply spec_ret ..]. eapply spec_bind.
      * eapply spec_bind; [by apply Hq |]. intros [y | e]; by apply (spec_ret _ _ _ _ (fun _ => know t (OGetMetadata k) false None None none)).
      * intros [y | e]; by apply spec_ret.
    + intros a s K. eapply know_post; [exact K | cbn; auto].
  - eapply spec_map with (R := fun _ => know t _ false None None none); [| done |].
    + unfold List, valid. destruct (validateKey k); [| by apply spec_ret].
      apply spec_do with (R := fun _ => know t (OList k) false None None none); [done | done | | intros [| |]; by apply spec_ret].
      intros s fault fresh s' r K Hr. by rewrite (quiet_run t (WalkTree baseDir) fault fresh s s' r eq_refl Hr).
    + intros a s K. eapply know_post; [exact K | cbn; auto].
Qed.

(** ** Scopes *)

Lemma has_prefix_app p s : has_prefix p s = true <-> exists r, s = (p ++ r)%string.
Proof.
  unfold has_prefix. rewrite bool_decide_eq_true. split.
  - intros H. exists (text (drop (length (chars p)) (chars s))). rewrite <-(text_chars s) at 1.
    rewrite <-(text_chars (p ++ _)). f_equal. rewrite chars_app, chars_text, <-H at 1. by rewrite take_drop.
  - intros [r ->]. by rewrite chars_app, take_app_length.
Qed.

Lemma strip_prefixed p key : stripPrefix p (prefixKey p key) = key.
Proof.
  unfold stripPrefix, prefixKey. rewrite (proj2 (has_prefix_app p _)) by eauto. by rewrite chars_app, drop_app_length, text_chars.
Qed.

(** Keys listed through a scope are keys of the scope: prefixed again they are the keys
    that the backend listed, so a read through the scope finds what was listed. *)
Lemma scoped_listing p q keys :
  Forall (fun k => has_prefix (prefixKey p q) k = true) keys -> prefixKey p <$> (stripPrefix p <$> keys) = keys /\
  Forall (fun k => has_prefix q k = true) (stripPrefix p <$> keys).
Proof.
  induction 1 as [| k keys Hk _ [IH1 IH2]]; [done |]. apply has_prefix_app in Hk as [r ->].
  assert (prefixKey p q ++ r = prefixKey p (q ++ r))%string as -> by (unfold prefixKey; rewrite <-(text_chars ((p ++ q) ++ r)), <-(text_chars (p ++ q ++ r)); by rewrite !chars_app, app_assoc).
  rewrite !fmap_cons, strip_prefixed, IH1. split; [done |]. constructor; [| done]. apply has_prefix_app. eauto.
Qed.

(** ** All processes *)

Context (files0 : gmap string string).

(** The publications of the object: what each replaced and what it put there. *)
Definition history (log : list Event) : list (option string * string) :=
  omap (fun e => match e with
                 | Published _ p old new => if decide (p = path0) then Some (old, new) else None
                 | Removed _ _ => None
                 end) log.

(** Each publication replaces what the one before it left. *)
Fixpoint chain (c : option string) (l : list (option string * string)) (c' : option string) : Prop :=
  match l with
  | [] => c = c'
  | (old, new) :: l' => old = c /\ chain (Some new) l' c'
  end.

Lemma chain_snoc c l c' new : chain c l c' -> chain c (l ++ [(c', new)]) (Some new).
Proof. revert c. induction l as [| [old n] l IH]; intros c; cbn; [by intros -> |]. intros [-> H]. split; [done | by apply IH]. Qed.

Record good_system (y : System) : Prop := {
  gs_owners : owners_temporary (y_fs y);
  gs_progs : forall t m, y_progs y !! t = Some m -> exists op P, y_ops y !! t = Some op /\ spec t op P m (post t op) /\ P (y_fs y);
  gs_results : forall t r, y_results y !! t = Some r ->
    y_progs y !! t = None /\ exists op, y_ops y !! t = Some op /\ post t op r (y_fs y);
  gs_fresh : forall t, y_ops y !! t = None -> mine t (fs_log (y_fs y)) = [];
  gs_events : forall t p old new, Published t p old new ∈ fs_log (y_fs y) -> exists op, y_ops y !! t = Some op /\ good op p old new;
  gs_chain : chain (files0 !! path0) (history (fs_log (y_fs y))) (fs_files (y_fs y) !! path0);
  gs_origin : forall q c, temporary q = false -> fs_files (y_fs y) !! q = Some c ->
    files0 !! q = Some c \/ exists t old, Published t q old c ∈ fs_log (y_fs y);
}.

Lemma disk_initial_good : good_system (initial files0).
Proof.
  split; cbn; [intros q t H; cbn in H; by rewrite lookup_empty in H | by intros t m; rewrite lookup_empty | by intros t r; rewrite lookup_empty | done | | done | auto].
  by intros t p old new ?%not_elem_of_nil.
Qed.

Lemma post_stable t op r : stable t (post t op r).
Proof. intros s s' [R _ _ _]. unfold post. by rewrite R. Qed.

(** What a call does to the log and the objects. *)
Lemma effect_events t op s s' :
  effect t op s s' -> forall t' p old new, Published t' p old new ∈ fs_log s' ->
  Published t' p old new ∈ fs_log s \/ (t' = t /\ good op p old new).
Proof.
  intros [Hl _ | p1 n1 Hl Hg _ | p1 Hl _ _] t' p old new; rewrite Hl, ?elem_of_app, ?list_elem_of_singleton; [auto | |].
  - intros [H | [= -> -> -> ->]]; auto.
  - intros [H | [=]]; auto.
Qed.

Lemma effect_chain t op s s' c :
  effect t op s s' -> chain c (history (fs_log s)) (fs_files s !! path0) -> chain c (history (fs_log s')) (fs_files s' !! path0).
Proof.
  intros [Hl Hf | p new Hl Hg Hf | p Hl Hp Hf] Hc; rewrite Hl, (Hf _ Hvisible0); [done | |]; unfold history; rewrite omap_app; cbn.
  - destruct (decide (p = path0)) as [-> | Hne]; [rewrite decide_True by done; by apply chain_snoc |].
    rewrite decide_False by done. by rewrite app_nil_r.
  - rewrite decide_False by done. by rewrite app_nil_r.
Qed.

Lemma effect_origin t op s s' q c :
  effect t op s s' -> temporary q = false -> fs_files s' !! q = Some c ->
  fs_files s !! q = Some c \/ exists old, Published t q old c ∈ fs_log s'.
Proof.
  intros [Hl Hf | p new Hl Hg Hf | p Hl Hp Hf] Hq; rewrite (Hf _ Hq), ?Hl; [auto | |]; case_decide as Hd; [| auto | done | auto].
  subst p. intros [= ->]. right. exists (fs_files s !! q). apply elem_of_app. right. apply list_elem_of_singleton. done.
Qed.

Lemma effect_log t op s s' : effect t op s s' -> forall e, e ∈ fs_log s -> e ∈ fs_log s'.
Proof. intros [Hl _ | p new Hl _ _ | p Hl _ _] e He; rewrite Hl, ?elem_of_app; auto. Qed.

Lemma call_good y t c k fault fresh fs r :
  good_system y -> y_progs y !! t = Some (Do c k) -> perform t c fault fresh (y_fs y) = Some (fs, r) ->
  good_system {| y with y_fs := fs; y_progs := <[t := k r]> (y_progs y) |}.
Proof.
  intros [Ho Hp Hr Hfr He Hc Hor] Ht Hrun. destruct (Hp _ _ Ht) as (op & P & Hop & Hspec & HP).
  inversion Hspec as [| ? ? ? ? R Hs Hperm Hnext Hk]; subst.
  destruct (perform_ok t op (y_fs y) Ho c fault fresh fs r (Hperm _ HP) Hrun) as (Ho' & Hrely & Heff).
  split; cbn [y_fs y_progs y_ops y_results]; [done | | | | | by eapply effect_chain |].
  - intros t' m. destruct (decide (t = t')) as [<- | Hne].
    + rewrite lookup_insert_eq. intros [= <-]. exists op, (R r). split_and!; [done | done |]. by eapply Hnext.
    + rewrite lookup_insert_ne by done. intros Hm. destruct (Hp _ _ Hm) as (op' & P' & Hop' & Hspec' & HP'). exists op', P'. split_and!; [done | done |].
      assert (stable t' P') as Hst by by destruct Hspec'. eapply Hst; [| done]. by apply Hrely.
  - intros t' r' Hr'. destruct (Hr _ _ Hr') as [Hnone (op' & Hop' & Hpost)]. assert (t' <> t) as Hne by congruence.
    split; [by rewrite lookup_insert_ne |]. exists op'. split; [done |]. eapply post_stable; [by apply Hrely | done].
  - intros t' Hnone. assert (t' <> t) as Hne by congruence. rewrite (ry_mine _ _ _ (Hrely t' Hne)). auto.
  - intros t' p old new Hin. destruct (effect_events _ _ _ _ Heff _ _ _ _ Hin) as [H | [-> H]]; eauto.
  - intros q x Hq Hx. destruct (effect_origin _ _ _ _ _ _ Heff Hq Hx) as [H | [old H]]; [| eauto].
    destruct (Hor q x Hq H) as [H' | (t' & old & H')]; [auto |]. right. exists t', old. by eapply effect_log.
Qed.

Lemma crash_rely t t' s : t' <> t -> rely t' s (release_all t s).
Proof.
  intros Hne. split; [done | | done | done]. intros l Hl. cbn. apply map_lookup_filter_Some. split; [done |]. cbn. congruence.
Qed.

Lemma disk_step_good y y' : step friendly y y' -> good_system y -> good_system y'.
Proof.
  intros Hstep Hy. destruct Hstep as [y t op Hfriendly Hnew | y t c k fault fresh fs r Ht Hrun | y t r Ht | y t [m Ht]].
  - destruct Hy as [Ho Hp Hr Hfr He Hc Hor].
    assert (forall t' op', y_ops y !! t' = Some op' -> <[t := op]> (y_ops y) !! t' = Some op') as Hkeep.
    { intros t' op' H. rewrite lookup_insert_ne; [done |]. congruence. }
    split; cbn [y_fs y_progs y_ops y_results]; [done | | | | | done | done].
    + intros t' m. destruct (decide (t = t')) as [<- | Hne].
      * rewrite !lookup_insert_eq. intros [= <-]. exists op, (know t op false None None none). split_and!; [done | by apply spec_run_op |].
        split_and!; [by apply Hfr | done | done | done].
      * rewrite !lookup_insert_ne by done. apply Hp.
    + intros t' r Hr'. destruct (Hr _ _ Hr') as [Hnone (op' & Hop' & Hpost)]. split; [rewrite lookup_insert_ne; [done | congruence] | eauto].
    + intros t'. destruct (decide (t = t')) as [<- | Hne]; [by rewrite lookup_insert_eq |]. rewrite lookup_insert_ne by done. apply Hfr.
    + intros t' p old new Hin. destruct (He _ _ _ _ Hin) as (op' & Hop' & H). eauto.
  - by eapply call_good.
  - destruct Hy as [Ho Hp Hr Hfr He Hc Hor]. destruct (Hp _ _ Ht) as (op & P & Hop & Hspec & HP).
    split; cbn [y_fs y_progs y_ops y_results]; [done | | | done | done | done | done].
    + intros t' m [_ Hm]%lookup_delete_Some. by apply Hp.
    + intros t' r'. destruct (decide (t = t')) as [<- | Hne].
      * rewrite lookup_insert_eq. intros [= <-]. split; [by rewrite lookup_delete_eq |]. exists op. split; [done |].
        inversion Hspec as [? ? ? _ HQ |]; subst. by apply HQ.
      * rewrite lookup_insert_ne by done. intros Hr'. destruct (Hr _ _ Hr'). split; [by rewrite lookup_delete_ne | done].
  - destruct Hy as [Ho Hp Hr Hfr He Hc Hor]. split; cbn [y_fs y_progs y_ops y_results]; [done | | | done | done | done | done].
    + intros t' m' [Hne Hm]%lookup_delete_Some. destruct (Hp _ _ Hm) as (op' & P' & Hop' & Hspec' & HP'). exists op', P'. split_and!; [done | done |].
      assert (stable t' P') as Hst by by destruct Hspec'. eapply Hst; [| done]. by apply crash_rely.
    + intros t' r' Hr'. destruct (Hr _ _ Hr') as [Hnone (op' & Hop' & Hpost)]. split; [rewrite lookup_delete_None; auto | eauto].
Qed.

Lemma reachable_good y : rtc (step friendly) (initial files0) y -> good_system y.
Proof.
  intros Hr. pose proof disk_initial_good as H0. revert H0. induction Hr as [| a b c Hab Hbc IH]; [done |]. intros Ha. by apply IH, (disk_step_good a b).
Qed.
End Facts.

(** C9. Conditional writes are atomic.  Any number of processes run any methods at the
    same time, calls fail, writes stop halfway, processes die.  For an object that is
    only written conditionally, the publications form one chain, each replacing exactly
    what the one before left; each is the data of a conditional write whose entity tag
    is that of the content it replaced, or the empty tag when there was none; a
    conditional write that returned success published its data exactly once, one that
    returned an error nothing.  And every object, however it is written, is whole: it
    is what was there at the start or the data of one operation on it. *)
Theorem conditional_writes_atomic (FE : FileEnv) (key : string) (files0 : gmap string string) (y : System) :
  temporary (file_path key) = false -> rtc (step (friendly key)) (initial files0) y ->
  chain (files0 !! file_path key) (history key (fs_log (y_fs y))) (fs_files (y_fs y) !! file_path key) /\
  (forall t old new, Published t (file_path key) old new ∈ fs_log (y_fs y) ->
     exists etag, y_ops y !! t = Some (OPutIfMatch key new etag) /\ tag old = etag) /\
  (forall t data etag r, y_ops y !! t = Some (OPutIfMatch key data etag) -> y_results y !! t = Some (RError r) ->
     if is_ok r then exists old, mine t (fs_log (y_fs y)) = [(file_path key, old, data)] else mine t (fs_log (y_fs y)) = []) /\
  (forall q c, temporary q = false -> fs_files (y_fs y) !! q = Some c ->
     files0 !! q = Some c \/ exists t op, y_ops y !! t = Some op /\ file_path (op_key op) = q /\ op_data op = Some c).
Proof.
  intros Hv Hr. destruct (reachable_good key Hv files0 y Hr) as [_ _ Hres _ He Hc Hor]. split_and!; [done | | |].
  - intros t old new Hin. destruct (He _ _ _ _ Hin) as (op & Hop & _ & _ & H). destruct (H eq_refl) as (etag & -> & Ht). eauto.
  - intros t data etag r Hop Hr'. destruct (Hres _ _ Hr') as [_ (op & Hop' & Hpost)]. rewrite Hop in Hop'. injection Hop' as <-.
    unfold post in Hpost. cbn in Hpost. destruct r as [[] | e]; exact Hpost.
  - intros q c Hq Hx. destruct (Hor q c Hq Hx) as [H | (t & old & H)]; [auto |]. right.
    destruct (He _ _ _ _ H) as (op & Hop & Hp & Hd & _). exists t, op. auto.
Qed.
End Facts.

(** ** Concrete runs *)

Module FileWitnesses.
Import Storage Kernel Processes Facts.

(** A schedule: who acts, and how the call goes. *)
Inductive Action :=
  | Begin (t : nat) (op : Op)
  | Act (t : nat) (n : nat)                 (* its next [n] calls, without faults *)
  | Finish (t : nat).

#[local] Instance demo_files : FileEnv := {|
  baseDir := "/data";
  md5hex := fun d => ("#" ++ d)%string;
|}.

Fixpoint calls (t n : nat) (y : System) : option System :=
  match n with
  | O => Some y
  | S n =>
      match y_progs y !! t with
      | Some (Do c k) =>
          match perform t c None (Itoa (Z.of_nat t)) (y_fs y) with
          | Some (fs, r) => calls t n {| y with y_fs := fs; y_progs := <[t := k r]> (y_progs y) |}
          | None => None
          end
      | _ => None
      end
  end.

Definition act (a : Action) (y : System) : option System :=
  match a with
  | Begin t op =>
      if bool_decide (y_ops y !! t = None)
      then Some {| y with y_progs := <[t := run_op op]> (y_progs y); y_ops := <[t := op]> (y_ops y) |} else None
  | Act t n => calls t n y
  | Finish t =>
      match y_progs y !! t with
      | Some (Return r) => Some {| y with y_progs := delete t (y_progs y); y_results := <[t := r]> (y_results y) |}
      | _ => None
      end
  end.

Definition schedule (l : list Action) (y : System) : option System := foldl (fun o a => o ≫= act a) (Some y) l.

Definition begins (allowed : Op -> Prop) (a : Action) : Prop := match a with Begin _ op => allowed op | _ => True end.

Lemma calls_steps allowed t n y y' : calls t n y = Some y' -> rtc (step allowed) y y'.
Proof.
  revert y. induction n as [| n IH]; intros y; cbn [calls]; [intros [= ->]; apply rtc_refl |]. destruct (y_progs y !! t) as [[|c k] |] eqn:E; try done.
  destruct (perform t c None (Itoa (Z.of_nat t)) (y_fs y)) as [[fs r] |] eqn:Ep; [| done]. intros H. eapply rtc_l; [by eapply step_call | by apply IH].
Qed.

Lemma act_steps allowed a y y' : begins allowed a -> act a y = Some y' -> rtc (step allowed) y y'.
Proof.
  destruct a as [t op | t n | t]; cbn [act begins]; intros Ha.
  - case_bool_decide; [| done]. intros [= <-]. by apply rtc_once, step_begin.
  - apply calls_steps.
  - destruct (y_progs y !! t) as [[r | c k] |] eqn:E; try done. intros [= <-]. by eapply rtc_once, step_return.
Qed.

Lemma schedule_steps allowed l y y' : Forall (begins allowed) l -> schedule l y = Some y' -> rtc (step allowed) y y'.
Proof.
  unfold schedule. revert y. induction l as [| a l IH]; intros y; cbn; [intros _ [= ->]; apply rtc_refl |]. intros [Ha Hl]%Forall_cons.
  destruct (act a y) as [y1 |] eqn:E.
  - intros H. etrans; [by eapply act_steps | by apply IH].
  - intros H. exfalso. revert H. clear. induction l; cbn; [done | auto].
Qed.

(** Two servers update the same object from the same version: one wins. *)
Definition store0 : gmap string string := {[ "/data/tenants.jsonc" := "v1" ]}.
Definition race : list Action :=
  [Begin 1 (OPutIfMatch "tenants.jsonc" "v2" "#v1"); Begin 2 (OPutIfMatch "tenants.jsonc" "w2" "#v1");
   Act 1 6; Act 2 4; Act 1 11; Finish 1; Act 2 6; Finish 2].

Definition raced : System := default (initial ∅) (schedule race (initial store0)).

Lemma atomic_witness :
  rtc (step (friendly "tenants.jsonc")) (initial store0) raced /\
  y_results raced !! 1%nat = Some (RError (Ok tt)) /\ y_results raced !! 2%nat = Some (RError (Err ErrPrecondition)) /\
  chain (store0 !! file_path "tenants.jsonc") (history "tenants.jsonc" (fs_log (y_fs raced))) (Some "v2") /\
  mine 2 (fs_log (y_fs raced)) = [].
Proof.
  assert (rtc (step (friendly "tenants.jsonc")) (initial store0) raced) as Hr.
  { apply (schedule_steps _ race); [| vm_compute; reflexivity]. repeat constructor. }
  destruct (conditional_writes_atomic demo_files "tenants.jsonc" store0 raced eq_refl Hr) as (H1 & _ & H2 & _).
  split; [exact Hr |]. split; [vm_compute; reflexivity |]. split; [vm_compute; reflexivity |]. split.
  - replace (Some "v2") with (fs_files (y_fs raced) !! file_path "tenants.jsonc") by (vm_compute; reflexivity). exact H1.
  - exact (H2 2%nat "w2" "#v1" (Err ErrPrecondition) eq_refl eq_refl).
Defined.

(** [Put] takes no lock: one that lands between the check and the rename of a
    conditional write is lost, and both report success. *)
Definition overtaken : System := default (initial ∅) (schedule
  [Begin 1 (OPutIfMatch "tenants.jsonc" "v2" "#v1"); Act 1 8; Begin 2 (OPut "tenants.jsonc" "x"); Act 2 8; Finish 2; Act 1 9; Finish 1]
  (initial store0)).

Example unconditional_write_lost :
  y_results overtaken !! 1%nat = Some (RError (Ok tt)) /\ y_results overtaken !! 2%nat = Some (RError (Ok tt)) /\
  history "tenants.jsonc" (fs_log (y_fs overtaken)) = [(Some "v1", "x"); (Some "x", "v2")] /\ tag (Some "x") <> "#v1".
Proof. split_and!; [vm_compute; reflexivity .. | done]. Qed.

(** A write that is under way, or whose process died, shows among the objects: [List]
    returns its temporary file, and [Get] its content. *)
Definition interrupted : System := default (initial ∅) (schedule
  [Begin 3 (OPut "instance/i-1.json" "record"); Act 3 4; Begin 4 (OList "instance/"); Act 4 1; Finish 4;
   Begin 5 (OGet "instance/.nstance-put-3"); Act 5 1; Finish 5] (initial ∅)).

Example temporary_listed :
  y_results interrupted !! 4%nat = Some (RList (Ok ["instance/.nstance-put-3"])) /\
  y_results interrupted !! 5%nat = Some (RGet (Ok ("record", "#record"))).
Proof. split; vm_compute; reflexivity. Qed.
End FileWitnesses.
