(* ===== verification/ContentTags.v ===== *)
(** * A storage service whose entity tags are the content

    An instance of the interface of [Document.v] that meets its laws: documents are
    written out as trees of strings and integers, and the tag spells out the tree.
    It lets the modelled code be evaluated on concrete documents. *)

From S2P Require Import Prelude Document.

(** A document as a tree of strings and integers. *)
Definition Tree : Type := gen_tree (string + Z).
Definition tree_opt {A} (f : A -> Tree) (o : option A) : Tree :=
  match o with None => GenNode 0 [] | Some a => GenNode 1 [f a] end.
Definition tree_Z (z : Z) : Tree := GenLeaf (inr z).
Definition tree_string (x : string) : Tree := GenLeaf (inl x).
Definition tree_bool (b : bool) : Tree := GenNode (if b then 1 else 0) [].
Definition tree_map {A} (f : A -> Tree) (m : gmap string A) : Tree :=
  GenNode 0 ((fun '(k, a) => GenNode 1 [tree_string k; f a]) <$> map_to_list m).
Definition tree_blob {D} (f : D -> Tree) (b : Blob D) : Tree :=
  match b with Malformed => GenNode 0 [] | Doc d => GenNode 1 [f d] end.

#[global] Instance tree_opt_inj {A} (f : A -> Tree) : Inj (=) (=) f -> Inj (=) (=) (tree_opt f).
Proof. intros Hf [] [] H; simplify_eq/=; by f_equal. Qed.
#[global] Instance tree_Z_inj : Inj (=) (=) tree_Z.
Proof. by intros ? ? [= ->]. Qed.
#[global] Instance tree_bool_inj : Inj (=) (=) tree_bool.
Proof. by intros [] []. Qed.
#[global] Instance tree_blob_inj {D} (f : D -> Tree) : Inj (=) (=) f -> Inj (=) (=) (tree_blob f).
Proof. intros Hf [] [] H; simplify_eq/=; by f_equal. Qed.
#[global] Instance tree_map_inj {A} (f : A -> Tree) : Inj (=) (=) f -> Inj (=) (=) (tree_map f).
Proof.
  intros Hf m1 m2 H. apply map_to_list_inj. unfold tree_map in H. injection H as H.
  apply list_fmap_eq_inj in H; [by rewrite H|]. intros [] [] H'. simplify_eq/=. done.
Qed.

Fixpoint bits_of (p : positive) : string :=
  match p with
  | xH => "1"
  | xO p' => "0" +:+ bits_of p'
  | xI p' => "2" +:+ bits_of p'
  end.

Lemma bits_of_inj p q : bits_of p = bits_of q -> p = q.
Proof. revert q. induction p; intros []; simpl; intros H; inversion H; f_equal; auto; by destruct p. Qed.

(** A service whose tags are the content, where nothing fails or interferes. *)
Definition content_env {D} (f : D -> Tree) : DocEnv D := {|
  doc_etag := fun _ b => bits_of (encode (tree_blob f b));
  doc_others := fun _ _ => None;
  doc_get_fault := fun _ => None;
  doc_put_fault := fun _ => None;
|}.

Lemma content_laws {D} (f : D -> Tree) : Inj (=) (=) f -> @DocLaws D (content_env f).
Proof.
  intros Hf. split; simpl; [|by intros _ b; destruct (encode _)|done..].
  intros _ _ b b' Hb. by apply bits_of_inj, (inj encode), (inj (tree_blob f)) in Hb.
Qed.
