(* ===== verification/TenantState.v ===== *)
(** * Tenant sleep and wake

    [src/internal/server/tenantstate/manager.go]: the durable runtime state of
    tenants ([tenants.jsonc]), changed by compare-and-swap, the ordered cutover
    between instance targets and the wake path, resumption of an interrupted
    transition by the next leader, and wake timers.

    The provider and tunnel operations ([Cutover]) and the callbacks of the
    callers are answered by the environment.  At every step other servers may
    change the document, and other goroutines of this server may refresh the
    cache, except inside [update], where [documentMu] is held. *)

From S2P Require Import Prelude Document.

Record SleepState := mkSleepState { sl_wake_at : option Z }.

Record TransitionProgress := mkTransitionProgress {
  tp_wake_at : option Z;
  tp_withdrawal_at : option Z;
  tp_guarded : bool;
  tp_restoring : bool;
}.

Record TenantState := mkTenantState {
  ts_sleep : option SleepState;
  ts_transition : option TransitionProgress;
  ts_target_registration_blocked : bool;
}.

Definition zero_progress : TransitionProgress := mkTransitionProgress None None false false.
Definition zero_tenant : TenantState := mkTenantState None None false.

Definition stateDocument : Type := gmap string TenantState.

(** [state[tenant]]: the zero value when absent. *)
Definition entry_of (state : stateDocument) (tenant : string) : TenantState :=
  default zero_tenant (state !! tenant).

Inductive CutoverCall :=
  | InstallWakePath
  | WaitWakePathReady
  | BeginTargetWithdrawal
  | CheckActivity (since : Z)
  | FinishTargetWithdrawal
  | RestoreTargets
  | WaitTargetsReady
  | RemoveWakePath.

Inductive TenantEvent :=
  | Called (tenant : string) (c : CutoverCall) (r : res unit)
  | Callback (tenant : string) (r : res unit)
  | Notified (tenant : string).

(** The manager: the object in storage, the cached document, the wake timers
    (when each fires and the deadline it expects), and the leadership term. *)
Record Manager := mkManager {
  tm_store : Store stateDocument TenantEvent;
  tm_state : stateDocument;
  tm_timers : gmap string (Z * Z);
  tm_term : option nat;
  tm_terms : nat;
}.

Class TenantEnv := mkTenantEnv {
  te_doc :: DocEnv stateDocument;
  te_now : nat -> Z;
  te_ctx_err : nat -> option err;             (* ctx.Err() of the operation *)
  te_term_done : nat -> bool;                 (* term.ctx.Err() != nil *)
  te_has_cutover : bool;                      (* SetCutover was called before Start *)
  te_call : nat -> string -> CutoverCall -> res unit;
  te_callback : nat -> res unit;              (* check, create and wait callbacks *)
  te_reinstall : nat -> bool;                 (* another goroutine refreshes the cache *)
  te_timer_retry : Z;
}.

Definition maxCASRetries : nat := 4.
Definition state_name : string := "tenant state".

Definition with_entry (tenant : string) (e : TenantState) (state : stateDocument) : stateDocument :=
  <[tenant := e]> state.

Section Manager.
Context {HT : TenantEnv}.

(** ** The cache and its timers *)

(** The timers of [install] and [scheduleLocked]: one per sleeping tenant with a
    deadline, firing at the deadline or at once when it has passed. *)
Definition wake_timers (now : Z) (state : stateDocument) : gmap string (Z * Z) :=
  omap (fun e => match ts_sleep e with
                 | Some (mkSleepState (Some wakeAt)) => Some (now + Z.max 0 (wakeAt - now), wakeAt)
                 | _ => None
                 end) state.

Definition install_at (now : Z) (done : bool) (state : stateDocument) (m : Manager) : Manager :=
  {| m with tm_state := state;
            tm_timers := if bool_decide (tm_term m = None) || done then ∅ else wake_timers now state |}.

(** An interleaving point outside [update]. *)
Definition t_observe {A} (f : nat -> A) : M Manager A :=
  fun m =>
    let n := s_tick (tm_store m) in
    let '(s', a) := st_observe f (tm_store m) in
    let m' := {| m with tm_store := s' |} in
    (match te_reinstall n, s_obj s' with
     | true, Some (Doc d) => install_at (te_now n) (te_term_done n) d m'
     | true, None => install_at (te_now n) (te_term_done n) ∅ m'
     | _, _ => m'
     end, a).

Definition on_store {A} (x : M (Store stateDocument TenantEvent) A) : M Manager A :=
  fun m => let '(s', a) := x (tm_store m) in ({| m with tm_store := s' |}, a).

Definition t_did (e : TenantEvent) : M Manager unit := on_store (st_did e).

Definition install (state : stateDocument) : M Manager unit :=
  done ← on_store (st_observe te_term_done);
  now ← on_store (st_observe te_now);
  modify (install_at now done state).

Definition load : M Manager (res (stateDocument * string)) := on_store (load_doc ∅ state_name).

Definition ctx_err : M Manager (option err) := t_observe te_ctx_err.

(** ** [update]

    [mutate] is a closure: it says whether the document changed and may set
    variables of its caller ([acc]), which keep their values across attempts. *)
Fixpoint update_loop {A} (attempts : nat) (mutate : stateDocument -> A -> bool * stateDocument * A)
    (acc : A) : M Manager (res stateDocument * A) :=
  match attempts with
  | O => mret (Err (ErrMsg "tenant state CAS conflict after 4 attempts"), acc)
  | S n =>
      c ← on_store (st_observe te_ctx_err);
      match c with
      | Some e => mret (Err e, acc)
      | None =>
          l ← load;
          match l with
          | Err e => mret (Err e, acc)
          | Ok (state, etag) =>
              match mutate state acc with
              | (false, state', acc') => _ ← install state'; mret (Ok state', acc')
              | (true, state', acc') =>
                  p ← on_store (storage_put_if_match state' etag);
                  match p with
                  | Err e =>
                      if err_is e ErrPrecondition then update_loop n mutate acc'
                      else mret (Err (ErrWrap "write tenant state" e), acc')
                  | Ok _ => _ ← install state'; mret (Ok state', acc')
                  end
              end
          end
      end
  end.

Definition update {A} (mutate : stateDocument -> A -> bool * stateDocument * A) (acc : A) :
    M Manager (res stateDocument * A) :=
  update_loop maxCASRetries mutate acc.

(** A mutation that sets no variable and returns only the error. *)
Definition update_ (mutate : stateDocument -> bool * stateDocument) : M Manager (res unit) :=
  r ← update (fun state (_ : unit) => let '(b, s) := mutate state in (b, s, tt)) tt;
  mret (match fst r with Ok _ => Ok tt | Err e => Err e end).

(** ** Reads of the cache *)

Definition IsAsleep (m : Manager) (tenant : string) : bool :=
  bool_decide (is_Some (ts_sleep (entry_of (tm_state m) tenant))).

Definition Status (m : Manager) (tenant : string) : bool * option Z :=
  match ts_sleep (entry_of (tm_state m) tenant) with
  | None => (false, None)
  | Some s => (true, sl_wake_at s)
  end.

Definition TargetRegistrationBlocked (m : Manager) (tenant : string) : bool :=
  ts_target_registration_blocked (entry_of (tm_state m) tenant).

Definition transition (tenant : string) : M Manager TransitionProgress :=
  _ ← t_observe (fun _ => tt);
  gets (fun m => default zero_progress (ts_transition (entry_of (tm_state m) tenant))).

Definition is_asleep (tenant : string) : M Manager bool :=
  _ ← t_observe (fun _ => tt);
  gets (fun m => IsAsleep m tenant).

(** ** Calls to other components *)

Definition call (tenant : string) (c : CutoverCall) : M Manager (res unit) :=
  r ← t_observe (fun n => te_call n tenant c);
  _ ← t_did (Called tenant c r);
  mret r.

Definition callback (tenant : string) : M Manager (res unit) :=
  r ← t_observe te_callback;
  _ ← t_did (Callback tenant r);
  mret r.

Definition notifyChanged (tenant : string) : M Manager unit := t_did (Notified tenant).

(** ** Durable facts *)

(** [entry.Transition], allocated when nil. *)
Definition progress_of (e : TenantState) : TransitionProgress := default zero_progress (ts_transition e).

Definition markTransition (tenant : string) (mark : TransitionProgress -> TransitionProgress) : M Manager (res unit) :=
  update_ (fun state =>
    let e := entry_of state tenant in
    (true, with_entry tenant {| e with ts_transition := Some (mark (progress_of e)) |} state)).

Definition blockTargetRegistration (tenant : string) : M Manager (res unit) :=
  update_ (fun state =>
    let e := entry_of state tenant in
    if ts_target_registration_blocked e then (false, state)
    else (true, with_entry tenant {| e with ts_target_registration_blocked := true |} state)).

Definition beginRestore (tenant : string) : M Manager (res unit) :=
  update_ (fun state =>
    let e := entry_of state tenant in
    let p := progress_of e in
    (true, with_entry tenant {| e with ts_transition := Some {| p with tp_restoring := true |};
                                       ts_target_registration_blocked := false |} state)).

(** ** Restore and sleep sequences *)

Definition restore (tenant : string) : M Manager (res unit) :=
  b ← beginRestore tenant;
  match b with
  | Err e => mret (Err e)
  | Ok _ =>
      r1 ← call tenant RestoreTargets;
      match r1 with
      | Err e => mret (Err (ErrWrap "restore targets" e))
      | Ok _ =>
          r2 ← call tenant WaitTargetsReady;
          match r2 with
          | Err e => mret (Err (ErrWrap "wait for restored targets" e))
          | Ok _ =>
              r3 ← call tenant RemoveWakePath;
              match r3 with
              | Err e => mret (Err (ErrWrap "remove wake path" e))
              | Ok _ =>
                  u ← update_ (fun state => (true, delete tenant state));
                  match u with
                  | Err e => mret (Err e)
                  | Ok _ => _ ← notifyChanged tenant; mret (Ok tt)
                  end
              end
          end
      end
  end.

(** [if restoreErr := m.restore(...); restoreErr != nil { return errors.Join(err, restoreErr) }; return err]. *)
Definition roll_back (tenant : string) (e : err) : M Manager (res unit) :=
  r ← restore tenant;
  mret (Err (match r with Ok _ => e | Err e' => ErrJoin e e' end)).

(** The withdrawal half of [continueSleep]: block registrations, begin to
    withdraw the targets and record when. *)
Definition withdraw (tenant : string) : M Manager (res unit) :=
  b ← blockTargetRegistration tenant;
  match b with
  | Err e => mret (Err e)
  | Ok _ =>
      r ← call tenant BeginTargetWithdrawal;
      match r with
      | Err e => roll_back tenant e
      | Ok _ =>
          now ← t_observe te_now;
          k ← markTransition tenant (fun p => {| p with tp_withdrawal_at := Some now |});
          match k with
          | Err e => roll_back tenant e
          | Ok _ => mret (Ok tt)
          end
      end
  end.

(** The guarded half: no activity since the withdrawal, then finish it. *)
Definition guard (tenant : string) : M Manager (res unit) :=
  p ← transition tenant;
  if tp_guarded p then
    match tp_withdrawal_at p with
    | None => mret (Err (ErrMsg "guarded transition has no withdrawal timestamp"))
    | Some at_ =>
        a ← call tenant (CheckActivity at_);
        match a with
        | Err e => roll_back tenant e
        | Ok _ =>
            f ← call tenant FinishTargetWithdrawal;
            match f with
            | Err e => roll_back tenant e
            | Ok _ => mret (Ok tt)
            end
        end
    end
  else mret (Ok tt).

Definition continueSleep (tenant : string) : M Manager (res unit) :=
  r1 ← call tenant InstallWakePath;
  match r1 with
  | Err e => mret (Err e)
  | Ok _ =>
      r2 ← call tenant WaitWakePathReady;
      match r2 with
      | Err e => mret (Err e)
      | Ok _ =>
          p ← transition tenant;
          w ← (if bool_decide (tp_withdrawal_at p = None) then withdraw tenant else mret (Ok tt));
          match w with
          | Err e => mret (Err e)
          | Ok _ => guard tenant
          end
      end
  end.

(** ** Entering a term *)

(** [activeContext] and [runForTenant]: the operation runs in the active term with
    the tenant's lock held, after the cache was refreshed. *)
Definition runForTenant {A} (tenant : string) (run : M Manager (res A)) : M Manager (res A) :=
  c ← ctx_err;
  match c with
  | Some e => mret (Err e)
  | None =>
      done ← t_observe te_term_done;
      t ← gets tm_term;
      if bool_decide (t = None) || done then mret (Err ErrInactive)
      else
        c2 ← ctx_err;
        match c2 with
        | Some e => mret (Err e)
        | None =>
            u ← update_ (fun state => (false, state));
            match u with
            | Err e => mret (Err e)
            | Ok _ =>
                r ← run;
                match r with
                | Err e => mret (Err e)
                | Ok a => c3 ← ctx_err; mret (match c3 with Some e => Err e | None => Ok a end)
                end
            end
        end
  end.

(** ** [Sleep] *)

(** The variables the closures of [Sleep] set. *)
Record SleepVars := mkSleepVars { sv_already : bool; sv_changed : bool }.

Definition sleep_plain (tenant : string) (wakeAt : option Z) (state : stateDocument) (v : SleepVars) :
    bool * stateDocument * SleepVars :=
  let e := entry_of state tenant in
  match ts_sleep e with
  | Some s =>
      if bool_decide (sl_wake_at s = wakeAt) then (false, state, {| v with sv_already := true |})
      else (true, with_entry tenant {| e with ts_sleep := Some (mkSleepState wakeAt) |} state, mkSleepVars true true)
  | None => (true, with_entry tenant {| e with ts_sleep := Some (mkSleepState wakeAt) |} state, mkSleepVars false true)
  end.

(** With a cutover: record the transition, or only move the deadline of a tenant
    that already sleeps. *)
Definition sleep_begin (tenant : string) (wakeAt : option Z) (guarded : bool) (state : stateDocument) (v : SleepVars) :
    bool * stateDocument * SleepVars :=
  let e := entry_of state tenant in
  match ts_sleep e with
  | Some s =>
      if bool_decide (sl_wake_at s = wakeAt) then (false, state, {| v with sv_already := true |})
      else (true, with_entry tenant {| e with ts_sleep := Some (mkSleepState wakeAt) |} state, mkSleepVars true true)
  | None =>
      let p := progress_of e in
      (true, with_entry tenant {| e with ts_transition :=
               Some {| p with tp_wake_at := wakeAt; tp_guarded := guarded |} |} state,
       {| v with sv_already := false |})
  end.

Definition sleep_commit (tenant : string) (wakeAt : option Z) (state : stateDocument) (v : SleepVars) :
    bool * stateDocument * SleepVars :=
  let e := entry_of state tenant in
  (true, with_entry tenant {| e with ts_sleep := Some (mkSleepState wakeAt); ts_transition := None |} state,
   {| v with sv_changed := true |}).

(** What [Sleep] runs under the tenant lock: the final document and variables. *)
Definition sleep_run (tenant : string) (wakeAt : option Z) (guarded : bool) (has_check : bool) :
    M Manager (res (stateDocument * SleepVars)) :=
  c ← (if has_check then callback tenant else mret (Ok tt));
  match c with
  | Err e => mret (Err e)
  | Ok _ =>
      if te_has_cutover then
        r ← update (sleep_begin tenant wakeAt guarded) (mkSleepVars false false);
        match fst r with
        | Err e => mret (Err e)
        | Ok state =>
            if sv_already (snd r) then mret (Ok (state, snd r))
            else
              k ← continueSleep tenant;
              match k with
              | Err e => mret (Err e)
              | Ok _ =>
                  r2 ← update (sleep_commit tenant wakeAt) (snd r);
                  mret (match fst r2 with Err e => Err e | Ok state2 => Ok (state2, snd r2) end)
              end
        end
      else
        r ← update (sleep_plain tenant wakeAt) (mkSleepVars false false);
        mret (match fst r with Err e => Err e | Ok state => Ok (state, snd r) end)
  end.

(** The entry the returned document holds is dereferenced. *)
Definition Sleep (tenant : string) (wakeAt : option Z) (guarded has_check : bool) : M Manager (res (bool * option Z)) :=
  r ← runForTenant tenant (sleep_run tenant wakeAt guarded has_check);
  match r with
  | Err e => mret (Err e)
  | Ok (state, v) =>
      _ ← (if sv_changed v then notifyChanged tenant else mret tt);
      mret (match ts_sleep (entry_of state tenant) with
            | Some s => Ok (sv_already v, sl_wake_at s)
            | None => Err (ErrMsg "nil pointer dereference")
            end)
  end.

(** ** [wake] and its callers *)

Definition wake_plain (tenant : string) (state : stateDocument) (_ : bool) : bool * stateDocument * bool :=
  match ts_sleep (entry_of state tenant) with
  | None => (false, state, true)
  | Some _ => (true, delete tenant state, false)
  end.

Definition wake_begin (tenant : string) (state : stateDocument) (_ : bool) : bool * stateDocument * bool :=
  let e := entry_of state tenant in
  if bool_decide (ts_sleep e = None /\ ts_transition e = None) then (false, state, true)
  else (true, with_entry tenant {| e with ts_sleep := None; ts_transition := Some (progress_of e) |} state, false).

(** Returns [alreadyAwake]. *)
Definition wake (tenant : string) : M Manager (res bool) :=
  if te_has_cutover then
    r ← update (wake_begin tenant) false;
    match fst r with
    | Err e => mret (Err e)
    | Ok _ =>
        if (snd r : bool) then mret (Ok true)
        else
          _ ← notifyChanged tenant;
          k ← restore tenant;
          mret (match k with Err e => Err e | Ok _ => Ok false end)
    end
  else
    r ← update (wake_plain tenant) false;
    match fst r with
    | Err e => mret (Err e)
    | Ok _ => _ ← (if (snd r : bool) then mret tt else notifyChanged tenant); mret (Ok (snd r))
    end.

Definition Wake (tenant : string) : M Manager (res bool) := runForTenant tenant (wake tenant).

Definition CreateOnDemand (tenant : string) : M Manager (res unit) :=
  runForTenant tenant (r ← wake tenant; match r with Err e => mret (Err e) | Ok _ => callback tenant end).

Definition WakeAndWait (tenant : string) : M Manager (res bool) :=
  runForTenant tenant
    (r ← wake tenant;
     match r with
     | Err e => mret (Err e)
     | Ok b => c ← callback tenant; mret (match c with Err e => Err e | Ok _ => Ok b end)
     end).

(** ** Resumption *)

(** [entry.Transition.WakeAt] is dereferenced; the panic on a nil transition is
    reported by the flag. *)
Definition resume_commit (tenant : string) (state : stateDocument) (_ : bool) : bool * stateDocument * bool :=
  let e := entry_of state tenant in
  match ts_transition e with
  | None => (false, state, true)
  | Some p => (true, with_entry tenant {| e with ts_sleep := Some (mkSleepState (tp_wake_at p)); ts_transition := None |} state, false)
  end.

Definition resume_run (tenant : string) : M Manager (res unit) :=
  p ← transition tenant;
  if tp_restoring p then restore tenant
  else
    asleep ← is_asleep tenant;
    if (asleep : bool) then
      r1 ← call tenant InstallWakePath;
      match r1 with Err e => mret (Err e) | Ok _ => call tenant WaitWakePathReady end
    else
      k ← continueSleep tenant;
      match k with
      | Err e => mret (Err e)
      | Ok _ =>
          r ← update (resume_commit tenant) false;
          match fst r with
          | Err e => mret (Err e)
          | Ok _ =>
              if (snd r : bool) then mret (Err (ErrMsg "nil pointer dereference"))
              else _ ← notifyChanged tenant; mret (Ok tt)
          end
      end.

Definition resumeTenant (tenant : string) : M Manager (res unit) := runForTenant tenant (resume_run tenant).

(** The tenants [resumeTransitions] starts a goroutine for; each repeats
    [resumeTenant] until it succeeds or the term ends. *)
Definition resume_tenants (m : Manager) : list string :=
  fst <$> filter (fun '(_, e) => is_Some (ts_transition e) \/ is_Some (ts_sleep e)) (map_to_list (tm_state m)).

Definition resumeTransitions : M Manager (list string) :=
  _ ← t_observe (fun _ => tt);
  gets (fun m => if bool_decide (tm_term m = None) || negb te_has_cutover then [] else resume_tenants m).

(** ** Terms *)

Definition Refresh : M Manager (res unit) :=
  l ← load;
  match l with
  | Err e => mret (Err e)
  | Ok (state, _) => _ ← install state; mret (Ok tt)
  end.

Definition stop_term (m : Manager) : Manager := {| m with tm_term := None; tm_timers := ∅ |}.

Definition Stop : M Manager unit := modify stop_term.

(** Returns the tenants that are being resumed. *)
Definition Start : M Manager (res (list string)) :=
  _ ← modify (fun m : Manager => let m' := stop_term m in
                       {| m' with tm_term := Some (S (tm_terms m)); tm_terms := S (tm_terms m) |});
  r ← Refresh;
  match r with
  | Err e => _ ← modify stop_term; mret (Err e)
  | Ok _ => l ← resumeTransitions; mret (Ok l)
  end.

(** ** Timers *)

Definition due (now expected : Z) (e : TenantState) : bool :=
  match ts_sleep e with
  | Some (mkSleepState (Some w)) => bool_decide (w = expected) && negb (bool_decide (now < w))
  | _ => false
  end.

(** [wakeIfDue term tenant expected], run when a timer of [term] fires. *)
Definition wakeIfDue (term : nat) (tenant : string) (expected : Z) : M Manager unit :=
  done ← t_observe te_term_done;
  cur ← gets tm_term;
  if done || negb (bool_decide (cur = Some term)) then mret tt
  else
    e ← gets (fun m => entry_of (tm_state m) tenant);
    now ← t_observe te_now;
    if due now expected e then
      r ← Wake tenant;
      match r with
      | Ok _ => mret tt
      | Err _ =>
          done' ← t_observe te_term_done;
          now' ← t_observe te_now;
          modify (fun m : Manager =>
            if done' || negb (bool_decide (tm_term m = Some term)) then m
            else {| m with tm_timers := <[tenant := (now' + te_timer_retry, expected)]> (tm_timers m) |})
      end
    else mret tt.
End Manager.
