(* ===== verification/TenantStateFacts.v ===== *)
(** * Theorems about tenant sleep and wake

    What the tenant-state manager writes and calls, and in which order, whatever
    other servers do to the document and whichever requests fail; and what its
    operations achieve when nothing interferes. *)

From S2P Require Import Prelude Document TenantState.

Section Log.
Context {HT : TenantEnv} {HL : DocLaws stateDocument}.

Definition Log : Type := list (LogEntry stateDocument TenantEvent).
Definition log (m : Manager) : Log := s_log (tm_store m).
Definition doc (m : Manager) : stateDocument := doc_of ∅ (s_obj (tm_store m)).

(** [x] extends the log by a list satisfying [Q], whatever it returns. *)
Definition emits {A} (Q : Log -> Prop) (x : M Manager A) : Prop :=
  forall m, exists l, log (x m).1 = log m ++ l /\ Q l.

(** Properties of log segments that hold of a concatenation of segments. *)
Class AppClosed (Q : Log -> Prop) := mkAppClosed {
  ac_nil : Q [];
  ac_app : forall l1 l2, Q l1 -> Q l2 -> Q (l1 ++ l2);
}.

#[global] Instance Forall_app_closed P : AppClosed (Forall P).
Proof. split; [constructor|intros; by apply Forall_app_2]. Qed.

#[global] Instance and_app_closed Q1 Q2 : AppClosed Q1 -> AppClosed Q2 -> AppClosed (fun l => Q1 l /\ Q2 l).
Proof. intros H1 H2. split; [by split; apply ac_nil|]. intros l1 l2 [] []. by split; apply ac_app. Qed.

Lemma emits_bind {A B} Q `{!AppClosed Q} (x : M Manager A) (f : A -> M Manager B) :
  emits Q x -> (forall a, emits Q (f a)) -> emits Q (x ≫= f).
Proof.
  intros Hx Hf m. rewrite M_bind_eq. destruct (Hx m) as (l1 & H1 & ?).
  destruct (Hf (x m).2 (x m).1) as (l2 & H2 & ?). exists (l1 ++ l2).
  rewrite H2, H1, app_assoc. split; [done|by apply ac_app].
Qed.

Lemma emits_quiet {A} Q `{!AppClosed Q} (x : M Manager A) : (forall m, log (x m).1 = log m) -> emits Q x.
Proof. intros Hx m. exists []. rewrite Hx, app_nil_r. split; [done|apply ac_nil]. Qed.

Lemma emits_ret {A} Q `{!AppClosed Q} (a : A) : emits Q (mret a).
Proof. by apply emits_quiet. Qed.

Lemma emits_gets {A} Q `{!AppClosed Q} (f : Manager -> A) : emits Q (gets f).
Proof. by apply emits_quiet. Qed.

Lemma emits_weaken {A} (Q Q' : Log -> Prop) (x : M Manager A) :
  (forall l, Q l -> Q' l) -> emits Q x -> emits Q' x.
Proof. intros HQ Hx m. destruct (Hx m) as (l & ? & ?). eauto. Qed.

Lemma t_observe_log {A} (f : nat -> A) m : log (t_observe f m).1 = log m.
Proof. unfold t_observe, st_observe. simpl. by destruct (te_reinstall _), (after_others _ _) as [[]|]. Qed.

Lemma emits_t_observe {A} Q `{!AppClosed Q} (f : nat -> A) : emits Q (t_observe f).
Proof. apply emits_quiet; [done|apply t_observe_log]. Qed.

Lemma install_log d m : log (install d m).1 = log m.
Proof. done. Qed.

Lemma emits_transition Q `{!AppClosed Q} t : emits Q (transition t).
Proof. apply emits_bind; [done|by apply emits_t_observe|]. intros _. by apply emits_gets. Qed.

Lemma emits_is_asleep Q `{!AppClosed Q} t : emits Q (is_asleep t).
Proof. apply emits_bind; [done|by apply emits_t_observe|]. intros _. by apply emits_gets. Qed.

Lemma t_did_log e m : log (t_did e m).1 = log m ++ [Did e].
Proof. done. Qed.

Lemma emits_t_did (Q : Log -> Prop) e : Q [Did e] -> emits Q (t_did e).
Proof. intros HQ m. exists [Did e]. by rewrite t_did_log. Qed.

Lemma emits_call (Q : Log -> Prop) t c : (forall n, Q [Did (Called t c (te_call n t c))]) -> emits Q (call t c).
Proof.
  intros HQ m. unfold call. rewrite !M_bind_eq, M_ret_eq. cbn [fst]. eexists [Did (Called t c _)].
  rewrite t_did_log, t_observe_log. split; [done|apply HQ].
Qed.

Lemma emits_callback (Q : Log -> Prop) t : (forall r, Q [Did (Callback t r)]) -> emits Q (callback t).
Proof.
  intros HQ m. unfold callback. rewrite !M_bind_eq, M_ret_eq. cbn [fst]. eexists [Did (Callback t _)].
  rewrite t_did_log, t_observe_log. split; [done|apply HQ].
Qed.

(** ** What [update] writes *)

(** A write of [mutate]'s result over the document it was given. *)
Definition written {A} (mutate : stateDocument -> A -> bool * stateDocument * A)
    (x : LogEntry stateDocument TenantEvent) : Prop :=
  exists old new acc acc', x = Wrote old new /\ old ≠ Some Malformed /\
    mutate (doc_of ∅ old) acc = (true, new, acc').

(** Nobody else changes the entry of [t]: its lock is held and this server leads. *)
Definition rely (t : string) : Prop := forall n b, doc_of ∅ (after_others n b) !! t = doc_of ∅ b !! t.

(** The document entry [x] replaced is [t]'s entry in [m]. *)
Definition over (t : string) (m : Manager) (x : LogEntry stateDocument TenantEvent) : Prop :=
  match x with Wrote old _ => doc_of ∅ old !! t = doc m !! t | Did _ => True end.

(** One run of [update]: nothing or one write is logged; on success the result
    is [mutate] of a document that was current, and it is cached. *)
Definition update_post {A} (mutate : stateDocument -> A -> bool * stateDocument * A)
    (m m' : Manager) (r : res stateDocument) (acc' : A) (l : Log) : Prop :=
  log m' = log m ++ l /\ tm_term m' = tm_term m /\
  (l = [] \/ exists x, l = [x] /\ written mutate x) /\
  (forall t, rely t -> Forall (over t m) l) /\
  (forall d', r = Ok d' -> tm_state m' = d' /\ (forall t, rely t -> doc m' !! t = d' !! t) /\
     exists d acc b, mutate d acc = (b, d', acc') /\ (forall t, rely t -> d !! t = doc m !! t) /\
       if b then (exists old, l = [Wrote old d'] /\ doc_of ∅ old = d) else l = []).

(** A step of the storage that logs nothing. *)
Definition idle (m m' : Manager) : Prop :=
  log m' = log m /\ tm_term m' = tm_term m /\ tm_state m' = tm_state m /\
  (forall t, rely t -> doc m' !! t = doc m !! t).

Lemma idle_trans m1 m2 m3 : idle m1 m2 -> idle m2 m3 -> idle m1 m3.
Proof.
  intros (? & ? & ? & Ha) (? & ? & ? & Hb). split_and!; [congruence..|].
  intros t Ht. by rewrite Hb, Ha.
Qed.

Lemma store_observe_run {A} (f : nat -> A) m m' a :
  on_store (st_observe f) m = (m', a) -> a = f (s_tick (tm_store m)) /\ idle m m'.
Proof. unfold on_store, st_observe, idle, doc. simpl. intros [= <- <-]. simpl. split_and!; auto. Qed.

Lemma load_run m m' r :
  load m = (m', r) -> idle m m' /\
  (forall d etag, r = Ok (d, etag) -> doc m' = d /\ s_obj (tm_store m') ≠ Some Malformed /\
     forall s2 : Store stateDocument TenantEvent, etag_matches etag s2 = true -> s_obj s2 = s_obj (tm_store m')).
Proof.
  unfold load, on_store. destruct (load_doc ∅ state_name (tm_store m)) as [s' r'] eqn:Hl.
  intros [= <- <-]. apply load_doc_run in Hl as (He & Ho & _ & Hr). unfold extends in He. rewrite app_nil_r in He.
  unfold idle, log, doc. simpl. split_and!; [done..| |].
  - intros t Ht. by rewrite Ho, Ht.
  - intros d etag ->. done.
Qed.

Lemma install_run d m m' u :
  install d m = (m', u) ->
  log m' = log m /\ tm_term m' = tm_term m /\ tm_state m' = d /\ (forall t, rely t -> doc m' !! t = doc m !! t).
Proof.
  unfold install. intros Hr. run_bind Hr as m1 dn H1. apply store_observe_run in H1 as [_ Hi].
  run_bind Hr as m2 now H2. apply store_observe_run in H2 as [_ Hi2]. injection Hr as <- <-.
  destruct (idle_trans _ _ _ Hi Hi2) as (? & ? & ? & ?). done.
Qed.

Lemma put_run d etag m m' r :
  on_store (storage_put_if_match d etag) m = (m', r) ->
  tm_term m' = tm_term m /\ tm_state m' = tm_state m /\
  ((idle m m' /\ exists e, r = Err e) \/
   (exists s1 : Store stateDocument TenantEvent, (forall t, rely t -> doc_of ∅ (s_obj s1) !! t = doc m !! t) /\ etag_matches etag s1 = true /\
      log m' = log m ++ [Wrote (s_obj s1) d] /\ doc m' = d /\
      (r = Ok tt \/ exists e, r = Err e /\ err_is e ErrPrecondition = false))).
Proof.
  unfold on_store. destruct (storage_put_if_match d etag (tm_store m)) as [s' r'] eqn:Hp.
  intros [= <- <-]. simpl. split_and!; [done..|]. unfold idle, log, doc. simpl.
  apply put_if_match_run in Hp as [_ [(He & Ho & Hr)|(s1 & Ho & Hm & He & Ho' & Hr)]]; unfold extends in He.
  - left. rewrite app_nil_r in He. split_and!; [done..| |done]. intros t Ht. by rewrite Ho, Ht.
  - right. exists s1. rewrite Ho'. split_and!; [|done..]. intros t Ht. by rewrite Ho, Ht.
Qed.

Lemma update_post_idle {A} (mutate : stateDocument -> A -> _) m m1 m' r acc' l :
  idle m m1 -> update_post mutate m1 m' r acc' l -> update_post mutate m m' r acc' l.
Proof.
  intros (Hlog & Hterm & Hst & Hd) (H1 & H2 & H3 & H4 & H5). split_and!; [congruence|congruence|done| |].
  - intros t Ht. eapply Forall_impl; [by apply H4|]. intros [old new|]; simpl; [|done]. by rewrite Hd.
  - intros d' Hr. destruct (H5 d' Hr) as (? & ? & d & acc & b & ? & Hdd & ?). split_and!; [done..|].
    exists d, acc, b. split_and!; [done| |done]. intros t Ht. by rewrite Hdd, Hd.
Qed.

Lemma update_post_fail {A} (mutate : stateDocument -> A -> _) m m' e acc' :
  idle m m' -> update_post mutate m m' (Err e) acc' [].
Proof. intros (H1 & H2 & _). split_and!; [by rewrite app_nil_r|done|by left|constructor|done]. Qed.

(** A mutation that reports no change made none. *)
Definition honest {A} (mutate : stateDocument -> A -> bool * stateDocument * A) : Prop :=
  forall d acc d' acc', mutate d acc = (false, d', acc') -> d' = d.

Lemma update_loop_run {A} n (mutate : stateDocument -> A -> bool * stateDocument * A) acc m m' r acc' :
  honest mutate ->
  update_loop n mutate acc m = (m', (r, acc')) -> exists l, update_post mutate m m' r acc' l.
Proof.
  intros Hh. revert acc m. induction n as [|n IH]; intros acc m Hr; simpl in Hr.
  { injection Hr as <- <- <-. exists []. by apply update_post_fail. }
  run_bind Hr as m1 c H1. apply store_observe_run in H1 as [_ Hi].
  destruct c as [e|]; [injection Hr as <- <- <-; exists []; by apply update_post_fail|].
  run_bind Hr as m2 g H2. apply load_run in H2 as [Hi2 Hload]. pose proof (idle_trans _ _ _ Hi Hi2) as Hi12.
  destruct g as [[d etag]|e]; [|injection Hr as <- <- <-; exists []; by apply update_post_fail].
  destruct (Hload d etag eq_refl) as (Hdoc & Hwf & Hpin). clear Hload.
  destruct (mutate d acc) as [[[|] d'] acc1] eqn:Hm.
  - run_bind Hr as m3 p H3. apply put_run in H3 as (Ht3 & Hs3 & [[Hi3 [e ->]]|(s1 & Hd1 & Hmatch & Hl3 & Hd3 & Hp)]).
    + pose proof (idle_trans _ _ _ Hi12 Hi3) as Hi123.
      destruct (err_is e ErrPrecondition); [|injection Hr as <- <- <-; exists []; by apply update_post_fail].
      destruct (IH _ _ Hr) as [l Hl]. exists l. by eapply update_post_idle.
    + apply Hpin in Hmatch. assert (written mutate (Wrote (s_obj s1) d')) as Hw.
      { exists (s_obj s1), d', acc, acc1. rewrite Hmatch. unfold doc in Hdoc. by rewrite Hdoc. }
      exists [Wrote (s_obj s1) d']. apply (update_post_idle _ _ m2); [done|].
      destruct Hp as [->|(e & -> & He)].
      * run_bind Hr as m4 u H4. apply install_run in H4 as (Hl4 & Ht4 & Hs4 & Hd4). injection Hr as <- <- <-.
        split_and!; [congruence|congruence|eauto|by intros t Ht; repeat constructor; apply Hd1|].
        intros d'' [= <-]. split_and!; [done|by intros t Ht; rewrite Hd4, Hd3|].
        exists d, acc, true. split_and!; [done|by rewrite <-Hdoc|]. exists (s_obj s1). by rewrite Hmatch.
      * rewrite He in Hr. injection Hr as <- <- <-. split_and!; [done|congruence|eauto| |done].
        intros t Ht; repeat constructor; by apply Hd1.
  - run_bind Hr as m3 u H3. apply install_run in H3 as (Hl3 & Ht3 & Hs3 & Hd3). injection Hr as <- <- <-.
    exists []. apply (update_post_idle _ _ m2); [done|].
    split_and!; [by rewrite app_nil_r|done|by left|by constructor|].
    pose proof (Hh _ _ _ _ Hm) as ->.
    intros d'' [= <-]. split_and!; [done|by intros t Ht; rewrite Hd3, Hdoc|].
    exists d, acc, false. split_and!; [done|by rewrite <-Hdoc|done].
Qed.

Lemma update_run {A} (mutate : stateDocument -> A -> bool * stateDocument * A) acc m m' r :
  honest mutate -> update mutate acc m = (m', r) -> exists l, update_post mutate m m' r.1 r.2 l.
Proof. destruct r. apply update_loop_run. Qed.

(** The same for mutations that set no variable. *)
Definition pure_mutation (f : stateDocument -> bool * stateDocument) (d : stateDocument) (_ : unit) :
    bool * stateDocument * unit := let '(b, s) := f d in (b, s, tt).

Lemma update__run (f : stateDocument -> bool * stateDocument) m m' r :
  honest (pure_mutation f) -> update_ f m = (m', r) ->
  exists l r' u, update_post (pure_mutation f) m m' r' u l /\ (r = Ok tt -> exists d', r' = Ok d').
Proof.
  intros Hh Hr. unfold update_ in Hr. run_bind Hr as m1 x H1. injection Hr as <- <-.
  apply update_run in H1 as [l Hl]; [|done]. exists l, x.1, x.2. split; [done|]. destruct x as [[] ?]; eauto. done.
Qed.

Lemma emits_update {A} Q `{!AppClosed Q} (mutate : stateDocument -> A -> _) acc :
  honest mutate -> (forall x, written mutate x -> Q [x]) -> emits Q (update mutate acc).
Proof.
  intros Hh HQ m. destruct (update mutate acc m) as [m' r] eqn:Hr.
  apply update_run in Hr as (l & Hl & _ & [->|(x & -> & Hx)] & _); [..|done]; simpl.
  - exists []. split; [done|apply ac_nil].
  - exists [x]. auto.
Qed.

(** ** Mutations *)

(** A mutation that sets the entry of [t] or leaves the document alone; only one
    marked [falls] may put a tenant to sleep that was not asleep. *)
Definition sets {A} (falls : bool) (t : string) (mutate : stateDocument -> A -> bool * stateDocument * A) : Prop :=
  forall d acc, match mutate d acc with
    | (true, d', _) => exists e, d' = with_entry t e d /\
        (falls = false -> is_Some (ts_sleep e) -> is_Some (ts_sleep (entry_of d t)))
    | (false, d', _) => d' = d
    end.

Lemma sets_honest {A} b t (mutate : stateDocument -> A -> _) : sets b t mutate -> honest mutate.
Proof. intros Hs d acc d' acc' Hm. specialize (Hs d acc). by rewrite Hm in Hs. Qed.

Lemma sets_written {A} b t (mutate : stateDocument -> A -> _) x :
  sets b t mutate -> written mutate x ->
  exists old e, old ≠ Some Malformed /\ x = Wrote old (with_entry t e (doc_of ∅ old)) /\
    (b = false -> is_Some (ts_sleep e) -> is_Some (ts_sleep (entry_of (doc_of ∅ old) t))).
Proof.
  intros Hs (old & new & acc & acc' & -> & Ho & Hm). specialize (Hs (doc_of ∅ old) acc). rewrite Hm in Hs.
  destruct Hs as (e & -> & ?). eauto 6.
Qed.

Ltac mutation :=
  intros d acc; unfold pure_mutation; simpl; repeat case_match; simplify_eq; try done;
  eexists; (split; [reflexivity|]); simpl; try done; eauto.

Lemma sets_sleep_plain t w : sets true t (sleep_plain t w).
Proof. unfold sleep_plain. mutation. Qed.

Lemma sets_sleep_begin t w g : sets false t (sleep_begin t w g).
Proof. unfold sleep_begin. mutation. Qed.

Lemma sets_sleep_commit t w : sets true t (sleep_commit t w).
Proof. unfold sleep_commit. mutation. Qed.

Lemma sets_wake_begin t : sets false t (wake_begin t).
Proof. unfold wake_begin. mutation. Qed.

Lemma sets_resume_commit t : sets true t (resume_commit t).
Proof. unfold resume_commit. mutation. Qed.

Definition noop_mutation (d : stateDocument) : bool * stateDocument := (false, d).
Definition mark_mutation t mark (d : stateDocument) : bool * stateDocument :=
  let e := entry_of d t in (true, with_entry t {| e with ts_transition := Some (mark (progress_of e)) |} d).
Definition block_mutation t (d : stateDocument) : bool * stateDocument :=
  let e := entry_of d t in
  if ts_target_registration_blocked e then (false, d)
  else (true, with_entry t {| e with ts_target_registration_blocked := true |} d).
Definition restore_mutation t (d : stateDocument) : bool * stateDocument :=
  let e := entry_of d t in let p := progress_of e in
  (true, with_entry t {| e with ts_transition := Some {| p with tp_restoring := true |};
                                ts_target_registration_blocked := false |} d).
Definition delete_mutation t (d : stateDocument) : bool * stateDocument := (true, delete t d).

Lemma sets_noop t : sets false t (pure_mutation noop_mutation).
Proof. unfold noop_mutation. mutation. Qed.
Lemma sets_mark t mark : sets false t (pure_mutation (mark_mutation t mark)).
Proof. unfold mark_mutation. mutation. Qed.
Lemma sets_block t : sets false t (pure_mutation (block_mutation t)).
Proof. unfold block_mutation. mutation. Qed.
Lemma sets_restore t : sets false t (pure_mutation (restore_mutation t)).
Proof. unfold restore_mutation. mutation. Qed.
Lemma honest_delete t : honest (pure_mutation (delete_mutation t)).
Proof. by intros d [] d' []. Qed.
Lemma honest_wake_plain t : honest (wake_plain t).
Proof. intros d acc d' acc'. unfold wake_plain. case_match; congruence. Qed.

(** No withdrawal is recorded where there was none. *)
Definition withdrawal_kept (t : string) (d d' : stateDocument) : Prop :=
  tp_withdrawal_at (progress_of (entry_of d' t)) ≠ None -> tp_withdrawal_at (progress_of (entry_of d t)) ≠ None.

Definition keeps_withdrawal {A} (t : string) (mutate : stateDocument -> A -> bool * stateDocument * A) : Prop :=
  forall d acc d' acc', mutate d acc = (true, d', acc') -> withdrawal_kept t d d'.

Lemma lookup_with_entry t e (d : stateDocument) : with_entry t e d !! t = Some e.
Proof. exact (lookup_insert_eq d t e). Qed.

Lemma entry_of_with_entry t e d : entry_of (with_entry t e d) t = e.
Proof. unfold entry_of. by rewrite lookup_with_entry. Qed.

Ltac keeps :=
  intros d acc d' acc'; unfold pure_mutation; simpl; repeat case_match; intros ?; simplify_eq; try done;
  unfold withdrawal_kept; rewrite entry_of_with_entry; done.

Lemma keeps_sleep_plain t w : keeps_withdrawal t (sleep_plain t w).
Proof. unfold sleep_plain. keeps. Qed.
Lemma keeps_sleep_begin t w g : keeps_withdrawal t (sleep_begin t w g).
Proof. unfold sleep_begin. keeps. Qed.
Lemma keeps_sleep_commit t w : keeps_withdrawal t (sleep_commit t w).
Proof. unfold sleep_commit. keeps. Qed.
Lemma keeps_wake_begin t : keeps_withdrawal t (wake_begin t).
Proof. unfold wake_begin. keeps. Qed.
Lemma keeps_resume_commit t : keeps_withdrawal t (resume_commit t).
Proof. unfold resume_commit. keeps. Qed.
Lemma keeps_noop t : keeps_withdrawal t (pure_mutation noop_mutation).
Proof. unfold noop_mutation. keeps. Qed.
Lemma keeps_block t : keeps_withdrawal t (pure_mutation (block_mutation t)).
Proof. unfold block_mutation. keeps. Qed.
Lemma keeps_restore t : keeps_withdrawal t (pure_mutation (restore_mutation t)).
Proof. unfold restore_mutation. keeps. Qed.

#[local] Hint Resolve keeps_sleep_plain keeps_sleep_begin keeps_sleep_commit keeps_wake_begin keeps_resume_commit
  keeps_noop keeps_block keeps_restore : core.

(** ** Segments of the operations

    For a property of segments that single calls other than [RemoveWakePath],
    callbacks, notifications and writes of the tenant's entry that record no
    withdrawal satisfy, and that [restore] and [withdraw] satisfy, every operation
    on the tenant satisfies it. *)
Section Segments.
Context (Q : Log -> Prop) {HQ : AppClosed Q} (t : string).
Hypothesis HQcall : forall c n, c ≠ RemoveWakePath -> Q [Did (Called t c (te_call n t c))].
Hypothesis HQcallback : forall r, Q [Did (Callback t r)].
Hypothesis HQnotified : Q [Did (Notified t)].
Hypothesis HQset : forall old e, old ≠ Some Malformed ->
  (is_Some (ts_sleep e) -> is_Some (ts_sleep (entry_of (doc_of ∅ old) t))) ->
  withdrawal_kept t (doc_of ∅ old) (with_entry t e (doc_of ∅ old)) -> Q [Wrote old (with_entry t e (doc_of ∅ old))].
Hypothesis HQplain : forall old, te_has_cutover = false -> old ≠ Some Malformed -> Q [Wrote old (delete t (doc_of ∅ old))].

Lemma emits_sets {A} (mutate : stateDocument -> A -> _) acc :
  sets false t mutate -> keeps_withdrawal t mutate -> emits Q (update mutate acc).
Proof.
  intros Hs Hk. apply emits_update; [done|by eapply sets_honest|].
  intros x Hx. destruct (sets_written _ _ _ _ Hs Hx) as (old & e & ? & -> & ?).
  destruct Hx as (? & ? & acc0 & acc' & [= <- <-] & _ & Hm). eauto.
Qed.

Lemma emits_sets_ (f : stateDocument -> bool * stateDocument) :
  sets false t (pure_mutation f) -> keeps_withdrawal t (pure_mutation f) -> emits Q (update_ f).
Proof. intros Hs Hk. apply emits_bind; [done|by apply emits_sets|]. intros x. by apply emits_ret. Qed.

Lemma emits_callQ c : c ≠ RemoveWakePath -> emits Q (call t c).
Proof. intros. apply emits_call. auto. Qed.

Lemma emits_notify : emits Q (notifyChanged t).
Proof. by apply emits_t_did. Qed.

Hypothesis HQrestore : emits Q (restore t).
Hypothesis HQwithdraw : emits Q (withdraw t).

(** Walk through an operation. *)
Ltac segment :=
  repeat lazymatch goal with
  | |- emits _ (restore _) => exact HQrestore
  | |- emits _ (_ ≫= _) => apply emits_bind; [exact HQ| |intros ?]
  | |- emits _ (mret _) => apply emits_ret; exact HQ
  | |- emits _ (gets _) => apply emits_gets; exact HQ
  | |- emits _ (t_observe _) => apply emits_t_observe; exact HQ
  | |- emits _ (transition _) => apply emits_transition; exact HQ
  | |- emits _ (is_asleep _) => apply emits_is_asleep; exact HQ
  | |- emits _ (callback _) => apply emits_callback; exact HQcallback
  | |- emits _ (notifyChanged _) => apply emits_notify
  | |- emits _ (call _ _) => apply emits_callQ; discriminate
  | |- emits _ (match ?x with _ => _ end) => destruct x eqn:?
  end; try assumption.

Lemma emits_guard : emits Q (guard t).
Proof. unfold guard, roll_back. segment. Qed.

Lemma emits_continueSleep : emits Q (continueSleep t).
Proof. unfold continueSleep. segment. apply emits_guard. Qed.

Lemma emits_wake : emits Q (wake t).
Proof.
  unfold wake. segment; [by apply emits_sets; [apply sets_wake_begin|]|].
  apply emits_update; [done|apply honest_wake_plain|]. intros x (old & new & acc & acc' & -> & ? & Hm).
  unfold wake_plain in Hm. case_match; simplify_eq. auto.
Qed.

Lemma emits_sleep_begin w g acc : emits Q (update (sleep_begin t w g) acc).
Proof. by apply emits_sets; [apply sets_sleep_begin|]. Qed.

(** The writes that put the tenant to sleep. *)
Hypothesis HQfalls : forall old e, old ≠ Some Malformed ->
  withdrawal_kept t (doc_of ∅ old) (with_entry t e (doc_of ∅ old)) -> Q [Wrote old (with_entry t e (doc_of ∅ old))].

Lemma emits_falls {A} (mutate : stateDocument -> A -> _) acc :
  sets true t mutate -> keeps_withdrawal t mutate -> emits Q (update mutate acc).
Proof.
  intros Hs Hk. apply emits_update; [done|by eapply sets_honest|].
  intros x Hx. destruct (sets_written _ _ _ _ Hs Hx) as (old & e & ? & -> & ?).
  destruct Hx as (? & ? & acc0 & acc' & [= <- <-] & _ & Hm). eauto.
Qed.

Lemma emits_sleep_run w g c : emits Q (sleep_run t w g c).
Proof.
  unfold sleep_run. segment; first [apply emits_continueSleep|apply emits_sleep_begin|apply emits_falls].
  all: eauto using sets_sleep_commit, sets_sleep_plain.
Qed.

Lemma emits_runForTenant {A} (run : M Manager (res A)) : emits Q run -> emits Q (runForTenant t run).
Proof. intros. unfold runForTenant, ctx_err. segment. by apply (emits_sets_ noop_mutation); [apply sets_noop|]. Qed.

Lemma emits_Sleep w g c : emits Q (Sleep t w g c).
Proof. unfold Sleep. segment. apply emits_runForTenant, emits_sleep_run. Qed.

Lemma emits_Wake : emits Q (Wake t).
Proof. apply emits_runForTenant, emits_wake. Qed.

Lemma emits_CreateOnDemand : emits Q (CreateOnDemand t).
Proof. apply emits_runForTenant. segment. apply emits_wake. Qed.

Lemma emits_WakeAndWait : emits Q (WakeAndWait t).
Proof. apply emits_runForTenant. segment. apply emits_wake. Qed.

Lemma emits_resumeTenant : emits Q (resumeTenant t).
Proof. apply emits_runForTenant. unfold resume_run. segment; [apply emits_continueSleep|by apply emits_falls; [apply sets_resume_commit|]]. Qed.

Lemma emits_wakeIfDue term w : emits Q (wakeIfDue term t w).
Proof.
  unfold wakeIfDue. segment; [apply emits_Wake|]. apply emits_quiet; [done|]. intros m. unfold modify. simpl.
  by case_match.
Qed.
End Segments.

(** ** Operations on one tenant *)

Inductive TenantOp :=
  | OpSleep (wakeAt : option Z) (guarded has_check : bool)
  | OpWake
  | OpCreateOnDemand
  | OpWakeAndWait
  | OpResume
  | OpTimer (term : nat) (expected : Z).

Definition run_op (t : string) (op : TenantOp) : M Manager unit :=
  match op with
  | OpSleep w g c => _ ← Sleep t w g c; mret tt
  | OpWake => _ ← Wake t; mret tt
  | OpCreateOnDemand => _ ← CreateOnDemand t; mret tt
  | OpWakeAndWait => _ ← WakeAndWait t; mret tt
  | OpResume => _ ← resumeTenant t; mret tt
  | OpTimer term w => wakeIfDue term t w
  end.

Lemma emits_run_op Q `{!AppClosed Q} t op :
  (forall c n, c ≠ RemoveWakePath -> Q [Did (Called t c (te_call n t c))]) ->
  (forall r, Q [Did (Callback t r)]) -> Q [Did (Notified t)] ->
  (forall old e, old ≠ Some Malformed -> withdrawal_kept t (doc_of ∅ old) (with_entry t e (doc_of ∅ old)) ->
     Q [Wrote old (with_entry t e (doc_of ∅ old))]) ->
  (forall old, te_has_cutover = false -> old ≠ Some Malformed -> Q [Wrote old (delete t (doc_of ∅ old))]) ->
  emits Q (restore t) -> emits Q (withdraw t) -> emits Q (run_op t op).
Proof.
  intros. destruct op; simpl; [..|apply emits_wakeIfDue; by auto];
    (apply emits_bind; [done| |intros ?; by apply emits_ret]).
  - apply emits_Sleep; auto.
  - apply emits_Wake; auto.
  - apply emits_CreateOnDemand; auto.
  - apply emits_WakeAndWait; auto.
  - apply emits_resumeTenant; auto.
Qed.

(** A write leaves every other tenant's entry as it found it. *)
Definition keeps_others (t : string) (x : LogEntry stateDocument TenantEvent) : Prop :=
  match x with
  | Wrote old new => old ≠ Some Malformed /\ forall t', t' ≠ t -> new !! t' = doc_of ∅ old !! t'
  | Did _ => True
  end.

Lemma emits_restore_plain Q `{!AppClosed Q} t :
  (forall c n, Q [Did (Called t c (te_call n t c))]) -> Q [Did (Notified t)] ->
  (forall old e, old ≠ Some Malformed -> (is_Some (ts_sleep e) -> is_Some (ts_sleep (entry_of (doc_of ∅ old) t))) ->
     withdrawal_kept t (doc_of ∅ old) (with_entry t e (doc_of ∅ old)) -> Q [Wrote old (with_entry t e (doc_of ∅ old))]) ->
  (forall old, old ≠ Some Malformed -> Q [Wrote old (delete t (doc_of ∅ old))]) -> emits Q (restore t).
Proof.
  intros Hc Hn Hs Hd. unfold restore.
  apply emits_bind; [done|by apply (emits_sets_ Q t Hs (restore_mutation t)); [apply sets_restore|]|].
  intros [_|e]; [|by apply emits_ret].
  do 3 (apply emits_bind; [done|by apply emits_call|]; intros [_|e]; [|by apply emits_ret]).
  apply emits_bind; [done| |intros [_|e]; [|by apply emits_ret]].
  - apply emits_bind; [done| |intros; by apply emits_ret].
    apply emits_update; [done|apply (honest_delete t)|].
    intros x (old & new & [] & [] & -> & Ho & [= <-]). auto.
  - apply emits_bind; [done|by apply emits_t_did|intros; by apply emits_ret].
Qed.

Lemma emits_roll_back Q `{!AppClosed Q} t e : emits Q (restore t) -> emits Q (roll_back t e).
Proof. intros Hr. unfold roll_back. apply emits_bind; [done|done|]. intros r. by apply emits_ret. Qed.

Lemma emits_withdraw_plain Q `{!AppClosed Q} t :
  (forall n, Q [Did (Called t BeginTargetWithdrawal (te_call n t BeginTargetWithdrawal))]) ->
  (forall old e, old ≠ Some Malformed -> (is_Some (ts_sleep e) -> is_Some (ts_sleep (entry_of (doc_of ∅ old) t))) ->
     Q [Wrote old (with_entry t e (doc_of ∅ old))]) ->
  emits Q (restore t) -> emits Q (withdraw t).
Proof.
  intros Hc Hs Hr. unfold withdraw.
  assert (forall f, sets false t (pure_mutation f) -> emits Q (update_ f)) as Hup.
  { intros f Hf. apply emits_bind; [done| |intros; by apply emits_ret]. apply emits_update; [done|by eapply sets_honest|].
    intros x Hx. destruct (sets_written _ _ _ _ Hf Hx) as (old & e & ? & -> & ?). auto. }
  apply emits_bind; [done|apply (Hup (block_mutation t)), sets_block|]. intros [_|e]; [|by apply emits_ret].
  apply emits_bind; [done|by apply emits_call|]. intros [_|e]; [|by apply emits_roll_back].
  apply emits_bind; [done|by apply emits_t_observe|]. intros now.
  apply emits_bind; [done|apply (Hup (mark_mutation t _)), sets_mark|].
  intros [_|e]; [by apply emits_ret|by apply emits_roll_back].
Qed.

(** ** Order *)

(** Every entry of a segment satisfies [P] with the entries before it. *)
Definition each (P : Log -> LogEntry stateDocument TenantEvent -> Prop) (l : Log) : Prop :=
  forall l1 x l2, l = l1 ++ x :: l2 -> P l1 x.

Lemma each_app_closed P : (forall l0 l1 x, P l1 x -> P (l0 ++ l1) x) -> AppClosed (each P).
Proof.
  intros HP. split; [intros [] ? ? ?; done|]. intros la lb Ha Hb l1 x l2 Heq.
  apply app_eq_inv in Heq as [(k & -> & Hk)|(k & -> & Hk)].
  - destruct k as [|y k]; simplify_eq/=; [|by eapply Ha].
    rewrite <-(app_nil_r l1). apply HP. by eapply (Hb []).
  - apply HP. by eapply Hb.
Qed.

Lemma each_snoc P l x : each P l -> P l x -> each P (l ++ [x]).
Proof.
  intros Hl Hx l1 y l2 Heq. destruct l2 as [|z l2 _] using rev_ind.
  - apply app_inj_tail in Heq as [-> ->]. done.
  - rewrite app_comm_cons, app_assoc in Heq. apply app_inj_tail in Heq as [-> _]. by eapply Hl.
Qed.

(** The wake path goes only once the targets are restored and ready, registration
    having been unblocked and the restoration recorded before; a tenant's entry
    goes only once the wake path is gone. *)
Definition restore_step (t : string) (before : Log) (x : LogEntry stateDocument TenantEvent) : Prop :=
  match x with
  | Did (Called _ RemoveWakePath _) =>
      exists old new, [Wrote old new; Did (Called t RestoreTargets (Ok tt)); Did (Called t WaitTargetsReady (Ok tt))] `suffix_of` before /\
        ts_target_registration_blocked (entry_of new t) = false /\ tp_restoring (progress_of (entry_of new t)) = true
  | Wrote old new =>
      is_Some (doc_of ∅ old !! t) -> new !! t = None -> [Did (Called t RemoveWakePath (Ok tt))] `suffix_of` before
  | Did _ => True
  end.

#[global] Instance restore_step_closed t : AppClosed (each (restore_step t)).
Proof.
  apply each_app_closed. intros l0 l1 [old new|[? [] ?|? ?|?]]; simpl; try done.
  - intros Hp Ho Hn. by apply suffix_app_r, Hp.
  - intros (old & new & Hs & Hx). exists old, new. split; [by apply suffix_app_r|done].
Qed.

Lemma each_single P x : P [] x -> each P [x].
Proof. intros HP. apply (each_snoc P []); [intros [] ? ? ?; done|done]. Qed.

Lemma call_run t c m m' r :
  call t c m = (m', r) -> log m' = log m ++ [Did (Called t c r)].
Proof.
  unfold call. intros Hr. run_bind Hr as m1 a H1. run_bind Hr as m2 u H2. injection Hr as <- <-.
  pose proof (t_observe_log (fun n => te_call n t c) m) as Hl. rewrite H1 in Hl. simpl in Hl.
  pose proof (t_did_log (Called t c a) m1) as Hl2. rewrite H2 in Hl2. simpl in Hl2. by rewrite Hl2, Hl.
Qed.

Lemma each_update {A} P (mutate : stateDocument -> A -> _) m m' r acc l l0 :
  update_post mutate m m' r acc l -> each P l0 ->
  (forall x, written mutate x -> P l0 x) -> each P (l0 ++ l).
Proof.
  intros (_ & _ & [->|(x & -> & Hx)] & _) H0 HP; [by rewrite app_nil_r|]. apply each_snoc; auto.
Qed.

Lemma lookup_with_entry_ne t e (d : stateDocument) t' : t' ≠ t -> with_entry t e d !! t' = d !! t'.
Proof. intros Hn. exact (lookup_insert_ne d t t' e (not_eq_sym Hn)). Qed.

Lemma lookup_delete_doc_ne t (d : stateDocument) t' : t' ≠ t -> delete t d !! t' = d !! t'.
Proof. intros Hn. exact (lookup_delete_ne d t t' (not_eq_sym Hn)). Qed.

(** The record [beginRestore] leaves behind. *)
Lemma beginRestore_run t m m' r :
  beginRestore t m = (m', r) ->
  exists l, log m' = log m ++ l /\ each (restore_step t) l /\
    (r = Ok tt -> exists old new, l = [Wrote old new] /\
       ts_target_registration_blocked (entry_of new t) = false /\ tp_restoring (progress_of (entry_of new t)) = true).
Proof.
  intros Hr. apply (update__run (restore_mutation t)) in Hr as (l & r1 & u & Hp & Hok);
    [|by eapply sets_honest, sets_restore]. exists l. split; [apply Hp|]. split.
  - apply (each_update _ _ _ _ _ _ _ [] Hp); [intros [] ? ? ?; done|].
    intros x Hx. destruct (sets_written _ _ _ _ (sets_restore t) Hx) as (old & e & _ & -> & _).
    intros _ Hn. by rewrite lookup_with_entry in Hn.
  - intros Hr. destruct (Hok Hr) as [d' ->]. destruct Hp as (_ & _ & _ & _ & Hp).
    destruct (Hp d' eq_refl) as (_ & _ & d & acc & b & Hm & _ & Hl).
    unfold pure_mutation, restore_mutation in Hm. injection Hm as <- <- _.
    destruct Hl as (old & -> & <-). eexists _, _. split; [done|]. rewrite entry_of_with_entry. done.
Qed.

Lemma emits_restore_ordered t : emits (each (restore_step t)) (restore t).
Proof.
  intros m. destruct (restore t m) as [m' r] eqn:Hr. unfold restore in Hr. simpl.
  run_bind Hr as m1 b H1. apply beginRestore_run in H1 as (l1 & Hl1 & He1 & Hok).
  destruct b as [[]|e]; [|injection Hr as <- <-; eauto].
  destruct (Hok eq_refl) as (old & new & -> & Hnew). clear Hok.
  run_bind Hr as m2 r2 H2. apply call_run in H2. rewrite Hl1, <-app_assoc in H2.
  pose proof (each_snoc _ _ (Did (Called t RestoreTargets r2)) He1 I) as He2.
  destruct r2 as [[]|e]; [|injection Hr as <- <-; eauto].
  run_bind Hr as m3 r3 H3. apply call_run in H3. rewrite H2, <-app_assoc in H3.
  pose proof (each_snoc _ _ (Did (Called t WaitTargetsReady r3)) He2 I) as He3.
  destruct r3 as [[]|e]; [|injection Hr as <- <-; eauto].
  run_bind Hr as m4 r4 H4. apply call_run in H4. rewrite H3, <-app_assoc in H4.
  assert (each (restore_step t) [Wrote old new; Did (Called t RestoreTargets (Ok tt)); Did (Called t WaitTargetsReady (Ok tt));
    Did (Called t RemoveWakePath r4)]) as He4 by (apply (each_snoc _ _ _ He3); by exists old, new).
  destruct r4 as [[]|e]; [|injection Hr as <- <-; eauto].
  run_bind Hr as m5 r5 H5. apply (update__run (delete_mutation t)) in H5 as (l5 & r' & u & Hp & _); [|apply honest_delete].
  pose proof Hp as (Hl5 & _). rewrite H4, <-app_assoc in Hl5.
  assert (each (restore_step t) ([Wrote old new; Did (Called t RestoreTargets (Ok tt));
    Did (Called t WaitTargetsReady (Ok tt)); Did (Called t RemoveWakePath (Ok tt))] ++ l5)) as He5.
  { apply (each_update _ _ _ _ _ _ _ _ Hp He4). intros x (o & n & [] & [] & -> & _ & _) _ _. by eexists [_; _; _]. }
  destruct r5 as [[]|e]; [|injection Hr as <- <-; eauto].
  run_bind Hr as m6 u6 H6. injection Hr as <- <-. unfold notifyChanged in H6.
  pose proof (t_did_log (Notified t) m5) as Hl6. rewrite H6 in Hl6. simpl in Hl6.
  rewrite Hl5, <-app_assoc in Hl6. eexists. split; [exact Hl6|]. by apply (each_snoc (restore_step t) (_ ++ l5)).
Qed.

(** ** Theorems that hold whatever others do *)

(** Every write of an operation on a tenant keeps the other tenants' entries. *)
Lemma run_op_isolated t op : emits (Forall (keeps_others t)) (run_op t op).
Proof.
  assert (forall old (e : TenantState), old ≠ Some Malformed ->
    Forall (keeps_others t) [Wrote old (with_entry t e (doc_of ∅ old))]) as Hset.
  { intros old e Ho. repeat constructor; [done|]. intros t' Ht. by apply lookup_with_entry_ne. }
  assert (forall old, old ≠ Some Malformed -> Forall (keeps_others t) [Wrote old (delete t (doc_of ∅ old))]) as Hdel.
  { intros old Ho. repeat constructor; [done|]. intros t' Ht. by apply lookup_delete_doc_ne. }
  assert (emits (Forall (keeps_others t)) (restore t)) as Hres
    by (apply emits_restore_plain; [apply _|by repeat constructor..|auto|done]).
  apply emits_run_op; [apply _|by repeat constructor..| | |done|].
  - auto.
  - auto.
  - apply emits_withdraw_plain; [apply _|by repeat constructor|auto|done].
Qed.

(** C10. Isolation of tenants.  Whatever other servers do to the shared document
    and whichever requests fail, every write an operation on one tenant makes
    replaces a well-formed document by one that has exactly the same entries for
    all other tenants: concurrent changes are never lost. *)
Theorem tenant_updates_isolated t op m :
  exists l, log (run_op t op m).1 = log m ++ l /\ Forall (keeps_others t) l.
Proof. apply run_op_isolated. Qed.

Lemma run_op_restores t op : te_has_cutover = true -> emits (each (restore_step t)) (run_op t op).
Proof.
  intros Hc. apply emits_run_op; [apply _|..].
  - intros [] n Hne; try done; by apply each_single.
  - intros r. by apply each_single.
  - by apply each_single.
  - intros old e Ho _. apply each_single. intros _ Hn. by rewrite lookup_with_entry in Hn.
  - intros old. by rewrite Hc.
  - apply emits_restore_ordered.
  - apply emits_withdraw_plain; [apply _| | |apply emits_restore_ordered].
    + intros n. by apply each_single.
    + intros old e Ho _. apply each_single. intros _ Hn. by rewrite lookup_with_entry in Hn.
Qed.

(** What is recorded of a call is what the cutover answered. *)
Definition honest_call (x : LogEntry stateDocument TenantEvent) : Prop :=
  match x with Did (Called t c r) => exists n, r = te_call n t c | _ => True end.

Lemma run_op_honest t op : emits (Forall honest_call) (run_op t op).
Proof.
  assert (forall c n, Forall honest_call [Did (Called t c (te_call n t c))]) as Hcall by (intros c n; constructor; [by exists n|done]).
  assert (emits (Forall honest_call) (restore t)) as Hres
    by (apply emits_restore_plain; [apply _|exact Hcall|by repeat constructor..]).
  apply emits_run_op; [apply _|by intros; apply Hcall|by repeat constructor..|done|].
  apply emits_withdraw_plain; [apply _|intros n; apply Hcall|by repeat constructor|done].
Qed.

(** A withdrawal is recorded only once the targets were asked to go and stopped
    accepting: the write that records it comes right after a successful
    [BeginTargetWithdrawal]. *)
Definition withdrawal_step (t : string) (before : Log) (x : LogEntry stateDocument TenantEvent) : Prop :=
  match x with
  | Wrote old new =>
      tp_withdrawal_at (progress_of (entry_of (doc_of ∅ old) t)) = None ->
      tp_withdrawal_at (progress_of (entry_of new t)) ≠ None ->
      [Did (Called t BeginTargetWithdrawal (Ok tt))] `suffix_of` before
  | Did _ => True
  end.

#[global] Instance withdrawal_step_closed t : AppClosed (each (withdrawal_step t)).
Proof. apply each_app_closed. intros l0 l1 [old new|]; simpl; [|done]. intros Hp Ho Hn. by apply suffix_app_r, Hp. Qed.

Lemma withdrawal_step_kept t old new : withdrawal_kept t (doc_of ∅ old) new -> each (withdrawal_step t) [Wrote old new].
Proof. intros Hk. apply each_single. intros Ho Hn. by destruct (Hk Hn). Qed.

Lemma withdrawal_step_restore t : emits (each (withdrawal_step t)) (restore t).
Proof.
  apply emits_restore_plain; [apply _|intros; by apply each_single|by apply each_single| |].
  - intros old e _ _ Hk. by apply withdrawal_step_kept.
  - intros old _. apply withdrawal_step_kept. intros Hn. destruct Hn. unfold entry_of.
    by rewrite (lookup_delete_eq (doc_of ∅ old : gmap _ _) t).
Qed.

Lemma withdrawal_step_withdraw t : emits (each (withdrawal_step t)) (withdraw t).
Proof.
  intros m. destruct (withdraw t m) as [m' r] eqn:Hr. unfold withdraw in Hr. simpl.
  run_bind Hr as m1 b H1.
  assert (exists l1, log m1 = log m ++ l1 /\ each (withdrawal_step t) l1) as (l1 & Hl1 & He1).
  { apply (update__run (block_mutation t)) in H1 as (l & r1 & u & Hp & _); [|by eapply sets_honest, sets_block].
    exists l. split; [apply Hp|]. apply (each_update _ _ _ _ _ _ _ [] Hp); [intros [] ? ? ?; done|].
    intros x Hx. destruct Hx as (old & new & a & a' & -> & _ & Hm). intros Ho Hn. by destruct (keeps_block t _ _ _ _ Hm Hn). }
  destruct b as [[]|e]; [|injection Hr as <- <-; eauto].
  run_bind Hr as m2 r2 H2. apply call_run in H2. rewrite Hl1, <-app_assoc in H2.
  assert (each (withdrawal_step t) (l1 ++ [Did (Called t BeginTargetWithdrawal r2)])) as He2 by (by apply each_snoc).
  assert (forall m0 m0' e l r0, log m0 = log m ++ l -> each (withdrawal_step t) l -> roll_back t e m0 = (m0', r0) ->
    exists l', log m0' = log m ++ l' /\ each (withdrawal_step t) l') as Hroll.
  { intros m0 m0' e l r0 Hl He Hb. destruct (emits_roll_back _ t e (withdrawal_step_restore t) m0) as (lr & Hlr & Her).
    rewrite Hb in Hlr. simpl in Hlr. exists (l ++ lr). rewrite Hlr, Hl, app_assoc. split; [done|by apply ac_app]. }
  destruct r2 as [[]|e]; [|exact (Hroll m2 m' e _ r H2 He2 Hr)].
  run_bind Hr as m3 now H3. pose proof (t_observe_log te_now m2) as Hl3. rewrite H3 in Hl3. simpl in Hl3.
  run_bind Hr as m4 k H4.
  apply (update__run (mark_mutation t (fun p => {| p with tp_withdrawal_at := Some now |}))) in H4 as (l4 & r4 & u & Hp & _); [|by eapply sets_honest, sets_mark].
  pose proof Hp as (Hl4 & _). rewrite Hl3, H2, <-(app_assoc (log m)) in Hl4.
  assert (each (withdrawal_step t) ((l1 ++ [Did (Called t BeginTargetWithdrawal (Ok tt))]) ++ l4)) as He4.
  { apply (each_update _ _ _ _ _ _ _ _ Hp He2). intros x (old & new & a & a' & -> & _ & _) _ _. by exists l1. }
  destruct k as [[]|e]; [injection Hr as <- <-; eexists; split; [exact Hl4|done]|exact (Hroll m4 m' e _ r Hl4 He4 Hr)].
Qed.

Lemma run_op_withdraws t op : emits (each (withdrawal_step t)) (run_op t op).
Proof.
  apply emits_run_op; [apply _|..].
  - intros c n _. by apply each_single.
  - intros r. by apply each_single.
  - by apply each_single.
  - intros old e _ Hk. by apply withdrawal_step_kept.
  - intros old _ _. apply withdrawal_step_kept. intros Hn. destruct Hn. unfold entry_of.
    by rewrite (lookup_delete_eq (doc_of ∅ old : gmap _ _) t).
  - apply withdrawal_step_restore.
  - apply withdrawal_step_withdraw.
Qed.

(** Restoration order.  In every operation on a tenant the wake path is removed
    only immediately after the instance targets were restored and found ready,
    with the registration block already durably lifted; and the tenant's entry is
    deleted only immediately after the wake path was removed.  So a tenant is
    never without a path for its traffic because of a wake, however it fails. *)
Theorem restore_order t op m :
  te_has_cutover = true ->
  exists l, log (run_op t op m).1 = log m ++ l /\ each (restore_step t) l.
Proof. intros Hc. by apply run_op_restores. Qed.

(** ** Runs in which nobody else touches the tenant *)

(** The cache agrees with the document about [t]. *)
Definition coherent (t : string) (m : Manager) : Prop := tm_state m !! t = doc m !! t.

Lemma entry_of_eq (d d' : stateDocument) t : d !! t = d' !! t -> entry_of d t = entry_of d' t.
Proof. unfold entry_of. by intros ->. Qed.

Section Rely.
Context (t : string) (Hrely : rely t).

(** [m'] follows [m] with [l] logged and the entry of [t] as it was. *)
Definition steady (m m' : Manager) (l : Log) : Prop :=
  log m' = log m ++ l /\ tm_term m' = tm_term m /\ doc m' !! t = doc m !! t /\ (coherent t m -> coherent t m').

Lemma steady_trans m1 m2 m3 l1 l2 : steady m1 m2 l1 -> steady m2 m3 l2 -> steady m1 m3 (l1 ++ l2).
Proof.
  intros (H1 & ? & H2 & ?) (H3 & ? & H4 & ?). split_and!; [by rewrite H3, H1, app_assoc|congruence|congruence|auto].
Qed.

Lemma t_observe_run {A} (f : nat -> A) m m' a :
  t_observe f m = (m', a) -> a = f (s_tick (tm_store m)) /\ steady m m' [].
Proof.
  unfold t_observe. simpl. set (b' := after_others (s_tick (tm_store m)) (s_obj (tm_store m))).
  pose proof (Hrely (s_tick (tm_store m)) (s_obj (tm_store m))) as Hd. fold b' in Hd.
  intros [= <- <-]. split; [done|]. unfold steady, coherent, log, doc in *. rewrite app_nil_r.
  destruct (te_reinstall _), b' as [[d|]|] eqn:Hb; simpl; rewrite ?Hb; simpl; (split_and!; [done..|]);
    intros Hco; rewrite ?Hco; done.
Qed.

Lemma did_run e m m' u : t_did e m = (m', u) -> steady m m' [Did e].
Proof. intros Hr. unfold t_did, on_store in Hr. injection Hr as <- <-. by split_and!. Qed.

Lemma call_steady c m m' r : call t c m = (m', r) -> steady m m' [Did (Called t c r)].
Proof.
  unfold call. intros Hr. run_bind Hr as m1 a H1. run_bind Hr as m2 u H2. injection Hr as <- <-.
  apply t_observe_run in H1 as [_ H1]. apply did_run in H2. by apply (steady_trans _ _ _ [] _ H1).
Qed.

Lemma transition_run m m' p :
  transition t m = (m', p) -> coherent t m -> steady m m' [] /\ p = progress_of (entry_of (doc m) t).
Proof.
  unfold transition. intros Hr Hco. run_bind Hr as m1 a H1. apply t_observe_run in H1 as [_ H1]. injection Hr as <- <-.
  split; [done|]. destruct H1 as (_ & _ & Hd & Hco'). unfold progress_of. do 2 f_equal.
  apply entry_of_eq. rewrite <-Hd. by apply Hco'.
Qed.

(** A successful [update_] applies its mutation to the current entry. *)
Lemma update__ok (f : stateDocument -> bool * stateDocument) b m m' :
  sets b t (pure_mutation f) -> update_ f m = (m', Ok tt) ->
  exists d old, d !! t = doc m !! t /\ doc m' !! t = (f d).2 !! t /\ coherent t m' /\ tm_term m' = tm_term m /\
    log m' = log m ++ (if (f d).1 then [Wrote old (f d).2] else []).
Proof.
  intros Hs Hr. apply update__run in Hr as (l & r' & u & (Hl & Ht & _ & _ & Hp) & Hok); [|by eapply sets_honest].
  destruct (Hok eq_refl) as [d' ->]. destruct (Hp d' eq_refl) as (Hst & Hdoc & d & [] & c & Hm & Hd & Hlog).
  unfold pure_mutation in Hm. destruct (f d) as [c' d''] eqn:Hf. injection Hm as -> -> _.
  unfold coherent. rewrite Hst, Hdoc, Hl by done.
  destruct c; [destruct Hlog as (old & -> & _)|subst l]; exists d; [exists old|exists None]; rewrite Hf; auto 10.
Qed.

Lemma roll_back_err e m m' : roll_back t e m ≠ (m', Ok tt).
Proof. intros Hr. unfold roll_back in Hr. run_bind Hr as m1 r H1. by injection Hr. Qed.

(** The entry of [t]. *)
Definition cur (m : Manager) : TenantState := entry_of (doc m) t.

Lemma steady_cur m m' l : steady m m' l -> cur m' = cur m.
Proof. intros (_ & _ & Hd & _). by apply entry_of_eq. Qed.

Lemma block_ok m m' :
  blockTargetRegistration t m = (m', Ok tt) ->
  (let e := cur m in cur m' = {| e with ts_target_registration_blocked := true |}) /\ coherent t m' /\
  exists l, log m' = log m ++ l.
Proof.
  intros Hr. apply (update__ok (block_mutation t) false) in Hr as (d & old & Hd & Hd' & Hco & _ & Hl); [|apply sets_block].
  split_and!; [|done|eauto]. unfold cur. rewrite (entry_of_eq _ _ t Hd'), <-(entry_of_eq _ _ t Hd). unfold block_mutation.
  destruct (ts_target_registration_blocked (entry_of d t)) eqn:Hb; simpl; [|apply entry_of_with_entry].
  by destruct (entry_of d t); simpl in *; subst.
Qed.

Lemma mark_ok mark m m' :
  markTransition t mark m = (m', Ok tt) ->
  (let e := cur m in cur m' = {| e with ts_transition := Some (mark (progress_of e)) |}) /\ coherent t m' /\
  exists l, log m' = log m ++ l.
Proof.
  intros Hr. apply (update__ok (mark_mutation t mark) false) in Hr as (d & old & Hd & Hd' & Hco & _ & Hl); [|apply sets_mark].
  split_and!; [|done|eauto]. unfold cur. rewrite (entry_of_eq _ _ t Hd'), <-(entry_of_eq _ _ t Hd). apply entry_of_with_entry.
Qed.

(** A successful withdrawal blocked registrations and recorded its time. *)
Lemma withdraw_ok m m' :
  withdraw t m = (m', Ok tt) -> coherent t m ->
  coherent t m' /\ (exists l, log m' = log m ++ l /\ Did (Called t BeginTargetWithdrawal (Ok tt)) ∈ l) /\
  ts_sleep (cur m') = ts_sleep (cur m) /\ ts_target_registration_blocked (cur m') = true /\
  exists at_, ts_transition (cur m') =
    Some (let p := progress_of (cur m) in {| p with tp_withdrawal_at := Some at_ |}).
Proof.
  intros Hr Hco. unfold withdraw in Hr. run_bind Hr as m1 b H1. destruct b as [[]|]; [|done].
  apply block_ok in H1 as (Hc1 & Hco1 & l1 & Hl1).
  run_bind Hr as m2 r H2. apply call_steady in H2. destruct r as [[]|e]; [|by apply roll_back_err in Hr].
  run_bind Hr as m3 now H3. apply t_observe_run in H3 as [_ H3].
  run_bind Hr as m4 k H4. destruct k as [[]|e]; [|by apply roll_back_err in Hr]. injection Hr as <-.
  apply mark_ok in H4 as (Hc4 & Hco4 & l4 & Hl4). cbv zeta in *.
  rewrite (steady_cur _ _ _ H3), (steady_cur _ _ _ H2), Hc1 in Hc4.
  destruct (steady_trans _ _ _ _ _ H2 H3) as (Hl3 & _). rewrite Hc4. split_and!; [done| |done|done|by exists now].
  eexists. split; [by rewrite Hl4, Hl3, Hl1, <-!app_assoc|]. set_solver.
Qed.

(** A successful guard of a guarded transition checked for activity since the
    recorded withdrawal and finished it. *)
Definition guard_calls (p : TransitionProgress) : Log :=
  match tp_guarded p, tp_withdrawal_at p with
  | true, Some at_ => [Did (Called t (CheckActivity at_) (Ok tt)); Did (Called t FinishTargetWithdrawal (Ok tt))]
  | _, _ => []
  end.

Lemma guard_ok m m' :
  guard t m = (m', Ok tt) -> coherent t m -> steady m m' (guard_calls (progress_of (cur m))).
Proof.
  intros Hr Hco. unfold guard in Hr. run_bind Hr as m1 p H1. apply transition_run in H1 as [H1 ->]; [|done].
  fold (cur m) in *. unfold guard_calls. destruct (tp_guarded _); [|by injection Hr as <-].
  destruct (tp_withdrawal_at _) as [at_|]; [|by injection Hr].
  run_bind Hr as m2 a H2. apply call_steady in H2. destruct a as [[]|e]; [|by apply roll_back_err in Hr].
  run_bind Hr as m3 f H3. apply call_steady in H3. destruct f as [[]|e]; [|by apply roll_back_err in Hr].
  injection Hr as <-. exact (steady_trans _ _ _ [] _ H1 (steady_trans _ _ _ [_] [_] H2 H3)).
Qed.

(** The calls a tenant's sleep must be preceded by. *)
Definition sleep_calls (p : TransitionProgress) : Log :=
  [Did (Called t InstallWakePath (Ok tt)); Did (Called t WaitWakePathReady (Ok tt))] ++ guard_calls p.

(** A recorded withdrawal goes with blocked registrations. *)
Definition withdrawn_blocked (e : TenantState) : Prop :=
  tp_withdrawal_at (progress_of e) ≠ None -> ts_target_registration_blocked e = true.

Lemma continueSleep_ok m m' :
  continueSleep t m = (m', Ok tt) -> coherent t m -> withdrawn_blocked (cur m) ->
  coherent t m' /\ ts_sleep (cur m') = ts_sleep (cur m) /\ ts_target_registration_blocked (cur m') = true /\
  exists p at_ l, ts_transition (cur m') = Some p /\ tp_withdrawal_at p = Some at_ /\
    tp_wake_at p = tp_wake_at (progress_of (cur m)) /\ tp_guarded p = tp_guarded (progress_of (cur m)) /\
    log m' = log m ++ l /\ sleep_calls p `sublist_of` l /\
    (tp_withdrawal_at (progress_of (cur m)) = None -> Did (Called t BeginTargetWithdrawal (Ok tt)) ∈ l).
Proof.
  intros Hr Hco Hwb. unfold continueSleep in Hr.
  run_bind Hr as m1 r1 H1. apply call_steady in H1. destruct r1 as [[]|]; [|done].
  run_bind Hr as m2 r2 H2. apply call_steady in H2. destruct r2 as [[]|]; [|done].
  pose proof (steady_trans _ _ _ _ _ H1 H2) as H12. run_bind Hr as m3 p H3.
  apply transition_run in H3 as [H3 ->]; [|by apply H12]. pose proof (steady_trans _ _ _ _ _ H12 H3) as H13.
  fold (cur m2) in Hr. rewrite (steady_cur _ _ _ H12) in Hr. pose proof (steady_cur _ _ _ H13) as Hc3.
  destruct H13 as (Hl3 & _ & _ & Hco3). specialize (Hco3 Hco).
  run_bind Hr as m4 w H4. destruct w as [[]|]; [|done].
  assert (coherent t m4 /\ ts_sleep (cur m4) = ts_sleep (cur m) /\ ts_target_registration_blocked (cur m4) = true /\
    exists p at_ l, ts_transition (cur m4) = Some p /\ tp_withdrawal_at p = Some at_ /\
      tp_wake_at p = tp_wake_at (progress_of (cur m)) /\ tp_guarded p = tp_guarded (progress_of (cur m)) /\
      log m4 = log m3 ++ l /\
      (tp_withdrawal_at (progress_of (cur m)) = None -> Did (Called t BeginTargetWithdrawal (Ok tt)) ∈ l))
    as (Hco4 & Hs4 & Hb4 & p & at_ & l4 & Hp4 & Hat & Hwk & Hgd & Hl4 & Hbeg).
  { destruct (decide (tp_withdrawal_at (progress_of (cur m)) = None)) as [Hn|Hn].
    - rewrite bool_decide_true in H4 by done. apply withdraw_ok in H4 as (? & (l & ? & ?) & Hs & ? & at_ & Htr); [|done].
      rewrite Hc3 in *. split_and!; [done..|]. eexists _, at_, l. split_and!; [exact Htr|done..].
    - rewrite bool_decide_false in H4 by done. injection H4 as <-. rewrite Hc3. split_and!; [done..|by apply Hwb|].
      destruct (tp_withdrawal_at (progress_of (cur m))) as [at_|] eqn:Hat; [|done].
      exists (progress_of (cur m)), at_, []. rewrite app_nil_r. split_and!; [|done..].
      unfold progress_of in *. by destruct (ts_transition (cur m)). }
  apply guard_ok in Hr as Hg; [|done]. rewrite (steady_cur _ _ _ Hg). destruct Hg as (Hl5 & _ & _ & Hco5).
  assert (progress_of (cur m4) = p) as Hpp by (unfold progress_of; by rewrite Hp4). rewrite Hpp in Hl5.
  split_and!; [auto..|]. eexists p, at_, _. split_and!; [done..| | |].
  - by rewrite Hl5, Hl4, Hl3, <-!app_assoc.
  - unfold sleep_calls. simpl. do 2 apply sublist_skip. by apply sublist_inserts_l.
  - set_solver.
Qed.

(** ** Falling asleep *)

(** A write that puts the tenant to sleep finds registrations blocked and the
    withdrawal recorded, after the calls that make the wake path ready and, for a
    guarded sleep, saw no activity since and finished the withdrawal; if the
    operation found no withdrawal recorded ([w0]), it has begun one. *)
Definition sleep_step (w0 : option Z) (before : Log) (x : LogEntry stateDocument TenantEvent) : Prop :=
  match x with
  | Wrote old new =>
      let e := entry_of (doc_of ∅ old) t in
      ts_sleep e = None -> ts_sleep (entry_of new t) ≠ None ->
      ts_target_registration_blocked e = true /\ ts_target_registration_blocked (entry_of new t) = true /\
      exists p at_, ts_transition e = Some p /\ tp_withdrawal_at p = Some at_ /\ sleep_calls p `sublist_of` before /\
        (w0 = None -> Did (Called t BeginTargetWithdrawal (Ok tt)) ∈ before)
  | Did _ => True
  end.

#[local] Instance sleep_step_closed w0 : AppClosed (each (sleep_step w0)).
Proof.
  apply each_app_closed. intros l0 l1 [old new|]; [|done]. simpl. intros Hx Hs Hn.
  destruct (Hx Hs Hn) as (? & ? & p & at_ & ? & ? & ? & Hbeg). split_and!; [done..|]. exists p, at_.
  split_and!; [done..|by apply sublist_inserts_l|]. intros Hw. apply elem_of_app. auto.
Qed.

Lemma sleep_step_call w0 c r : each (sleep_step w0) [Did (Called t c r)].
Proof. by apply each_single. Qed.

Lemma sleep_step_set w0 old e :
  old ≠ Some Malformed -> (is_Some (ts_sleep e) -> is_Some (ts_sleep (entry_of (doc_of ∅ old) t))) ->
  each (sleep_step w0) [Wrote old (with_entry t e (doc_of ∅ old))].
Proof.
  intros _ Hd. apply each_single. simpl. rewrite entry_of_with_entry. intros Hs Hn.
  rewrite Hs in Hd. destruct (ts_sleep e); [|done]. by destruct Hd.
Qed.

Lemma sleep_step_restore w0 : emits (each (sleep_step w0)) (restore t).
Proof.
  apply emits_restore_plain; [apply _|intros; apply sleep_step_call|by apply each_single|intros; by apply sleep_step_set|].
  intros old _. apply each_single. simpl. intros _ Hn. destruct Hn. unfold entry_of.
  by rewrite (lookup_delete_eq (doc_of ∅ old : gmap _ _) t).
Qed.

Lemma sleep_step_continue w0 : emits (each (sleep_step w0)) (continueSleep t).
Proof.
  apply emits_continueSleep; [apply _|intros; apply sleep_step_call|apply sleep_step_restore|].
  apply emits_withdraw_plain; [apply _|intros; apply sleep_step_call|apply sleep_step_set|apply sleep_step_restore].
Qed.

(** The last write of a sleep, once [continueSleep] has succeeded. *)
Lemma commit_step {A} (mutate : stateDocument -> A -> _) acc m m' r l p at_ w0 :
  update mutate acc m = (m', r) -> sets true t mutate ->
  (forall x, written mutate x -> match x with Wrote old new =>
     ts_target_registration_blocked (entry_of new t) = ts_target_registration_blocked (entry_of (doc_of ∅ old) t)
     | Did _ => True end) ->
  ts_target_registration_blocked (cur m) = true -> ts_transition (cur m) = Some p -> tp_withdrawal_at p = Some at_ ->
  sleep_calls p `sublist_of` l -> (w0 = None -> Did (Called t BeginTargetWithdrawal (Ok tt)) ∈ l) ->
  each (sleep_step w0) l ->
  exists l', log m' = log m ++ l' /\ each (sleep_step w0) (l ++ l').
Proof.
  intros Hr Hs Hkeep Hb Ht Hat Hsub Hbeg He. apply update_run in Hr as [l' Hp]; [|by eapply sets_honest].
  exists l'. split; [apply Hp|]. destruct Hp as (_ & _ & [->|(x & -> & Hx)] & Hov & _); [by rewrite app_nil_r|].
  apply each_snoc; [done|]. specialize (Hov t Hrely). apply Forall_cons in Hov as [Hov _]. specialize (Hkeep x Hx).
  destruct x as [old new|]; [|done]. simpl in *. pose proof (entry_of_eq _ _ t Hov) as He'. rewrite He' in *.
  intros _ _. split_and!; [done|by rewrite Hkeep|]. by exists p, at_.
Qed.

(** What [runForTenant] runs, and from where. *)
Lemma runForTenant_run {A} (run : M Manager (res A)) m m' r :
  runForTenant t run m = (m', r) ->
  (log m' = log m /\ exists e, r = Err e) \/
  (exists m1 m2 r1, run m1 = (m2, r1) /\ log m1 = log m /\ coherent t m1 /\ cur m1 = cur m /\
     tm_term m1 = tm_term m /\ tm_term m ≠ None /\ steady m2 m' [] /\ (forall a, r = Ok a -> r1 = Ok a)).
Proof.
  intros Hr. unfold runForTenant, ctx_err in Hr.
  run_bind Hr as m1 c H1. apply t_observe_run in H1 as [_ H1].
  destruct c as [e|]; [injection Hr as <- <-; left; split; [by rewrite (proj1 H1), app_nil_r|eauto]|].
  run_bind Hr as m2 d H2. apply t_observe_run in H2 as [_ H2]. pose proof (steady_trans _ _ _ _ _ H1 H2) as H12.
  run_bind Hr as m3 tm H3. injection H3 as <- <-.
  destruct (bool_decide (tm_term m2 = None) || d) eqn:Hin.
  { injection Hr as <- <-. left. split; [by rewrite (proj1 H12), app_nil_r|eauto]. }
  apply orb_false_iff in Hin as [Hin%bool_decide_eq_false _].
  run_bind Hr as m4 c2 H4. apply t_observe_run in H4 as [_ H4]. pose proof (steady_trans _ _ _ _ _ H12 H4) as H14.
  destruct c2 as [e|]; [injection Hr as <- <-; left; split; [by rewrite (proj1 H14), app_nil_r|eauto]|].
  run_bind Hr as m5 u H5. destruct u as [[]|e].
  - apply (update__ok noop_mutation false) in H5 as (dd & old & Hd & Hd5 & Hco & Ht5 & Hl5); [|apply sets_noop].
    simpl in *. rewrite app_nil_r in Hl5. destruct H14 as (Hl4 & Ht4 & Hd4 & _). rewrite app_nil_r in Hl4.
    run_bind Hr as m6 r1 H6. right. exists m5, m6, r1.
    assert (cur m5 = cur m) as Hc by (unfold cur; apply entry_of_eq; congruence).
    assert (tm_term m ≠ None) by (rewrite <-(proj1 (proj2 H12)); done).
    destruct r1 as [a|e].
    + run_bind Hr as m7 c3 H7. apply t_observe_run in H7 as [_ H7]. injection Hr as <- <-.
      split_and!; try congruence. intros a'. destruct c3; congruence.
    + injection Hr as <- <-. split_and!; try congruence. split_and!; try congruence. by rewrite app_nil_r.
  - apply (update__run noop_mutation) in H5 as (l & r' & u & Hp & _); [|eapply sets_honest, (sets_noop t)].
    injection Hr as <- <-. left. destruct Hp as (Hl & _ & [->|(x & -> & Hx)] & _).
    + split; [|eauto]. by rewrite Hl, (proj1 H14), !app_nil_r.
    + by destruct Hx as (? & ? & [] & [] & _ & _ & ?).
Qed.

Lemma runForTenant_each {A} w0 (run : M Manager (res A)) m :
  (forall m1, coherent t m1 -> cur m1 = cur m -> exists l, log (run m1).1 = log m1 ++ l /\ each (sleep_step w0) l) ->
  exists l, log (runForTenant t run m).1 = log m ++ l /\ each (sleep_step w0) l.
Proof.
  intros Hrun. destruct (runForTenant t run m) as [m' r] eqn:Hr. simpl.
  apply runForTenant_run in Hr as [[-> _]|(m1 & m2 & r1 & H1 & Hl1 & Hco & Hc & _ & _ & Hs & _)].
  - exists []. rewrite app_nil_r. split; [done|apply ac_nil].
  - destruct (Hrun m1 Hco Hc) as (l & Hl & He). rewrite H1 in Hl. simpl in Hl. exists l.
    by rewrite (proj1 Hs), app_nil_r, Hl, Hl1.
Qed.

(** What the first write of [Sleep] leaves of a tenant that is awake. *)
Lemma sleep_begin_ok w g acc m m' d v :
  update (sleep_begin t w g) acc m = (m', (Ok d, v)) -> sv_already v = false -> withdrawn_blocked (cur m) ->
  coherent t m' /\ withdrawn_blocked (cur m') /\ ts_sleep (cur m') = None /\
  progress_of (cur m') = (let p := progress_of (cur m) in {| p with tp_wake_at := w; tp_guarded := g |}) /\
  ts_target_registration_blocked (cur m') = ts_target_registration_blocked (cur m).
Proof.
  intros Hr Hv Hwb. apply update_run in Hr as (l & _ & _ & _ & _ & Hp); [|eapply sets_honest, sets_sleep_begin].
  destruct (Hp d eq_refl) as (Hst & Hdoc & d0 & acc0 & b & Hm & Hd & _). specialize (Hd t Hrely). specialize (Hdoc t Hrely).
  unfold sleep_begin in Hm. rewrite (entry_of_eq _ _ t Hd) in Hm. fold (cur m) in Hm.
  assert (cur m' = entry_of d t) as Hc by by apply entry_of_eq.
  destruct (ts_sleep (cur m)) as [sl|] eqn:Hs.
  { simpl in Hm. destruct (bool_decide (sl_wake_at sl = w)); injection Hm as <- <- <-; done. }
  injection Hm as <- <- <-. rewrite entry_of_with_entry in Hc. rewrite Hc. unfold coherent. rewrite Hst, Hdoc.
  unfold withdrawn_blocked, progress_of in *. simpl. done.
Qed.

Lemma sleep_run_each w g c m :
  te_has_cutover = true -> withdrawn_blocked (cur m) -> coherent t m ->
  exists l, log (sleep_run t w g c m).1 = log m ++ l /\ each (sleep_step (tp_withdrawal_at (progress_of (cur m)))) l.
Proof.
  intros Hcut Hwb Hco. set (w0 := tp_withdrawal_at (progress_of (cur m))). destruct (sleep_run t w g c m) as [m' r] eqn:Hr. unfold sleep_run in Hr. simpl.
  run_bind Hr as m1 c1 H1. rewrite Hcut in Hr.
  assert (exists l1, steady m m1 l1 /\ each (sleep_step w0) l1) as (l1 & Hs1 & He1).
  { destruct c.
    - unfold callback in H1. run_bind H1 as m2 a H2. run_bind H1 as m3 u H3. injection H1 as <- <-.
      apply t_observe_run in H2 as [_ H2]. apply did_run in H3. eexists. split; [by eapply steady_trans|]. by apply each_single.
    - injection H1 as <- <-. exists []. split; [split_and!; by rewrite ?app_nil_r|apply ac_nil]. }
  pose proof (steady_cur _ _ _ Hs1) as Hc1. destruct c1 as [[]|e]; [|injection Hr as <- <-; exists l1; split; [apply Hs1|done]].
  run_bind Hr as m2 x2 H2. destruct x2 as [r2 v2].
  destruct (emits_sleep_begin (each (sleep_step w0)) t (fun old e Ho Hs _ => sleep_step_set w0 old e Ho Hs) w g (mkSleepVars false false) m1) as (l2 & Hl2 & He2).
  rewrite H2 in Hl2. simpl in Hl2, Hr. rewrite (proj1 Hs1), <-app_assoc in Hl2.
  pose proof (ac_app _ _ He1 He2) as He12.
  destruct r2 as [d|e]; [|injection Hr as <- <-; eauto].
  destruct (sv_already v2) eqn:Hv; [injection Hr as <- <-; eauto|].
  apply sleep_begin_ok in H2 as (Hco2 & Hwb2 & _ & Hp2 & _); [|done|by rewrite Hc1].
  assert (tp_withdrawal_at (progress_of (cur m2)) = w0) as Hw2 by (rewrite Hp2, Hc1; done).
  run_bind Hr as m3 k H3. destruct (sleep_step_continue w0 m2) as (l3 & Hl3 & He3). rewrite H3 in Hl3. simpl in Hl3.
  destruct k as [[]|e]; [|injection Hr as <- <-; rewrite Hl3, Hl2, <-app_assoc; eexists; split; [done|by apply ac_app]].
  apply continueSleep_ok in H3 as (_ & _ & Hb3 & p & at_ & l & Hp & Hat & _ & _ & Hl & Hsub & Hbeg); [|done..].
  rewrite Hw2 in Hbeg.
  rewrite Hl in Hl3. apply app_inj_1 in Hl3 as [_ ->]; [|done].
  run_bind Hr as m4 r4 H4. injection Hr as <- <-.
  eapply commit_step in H4 as (l4 & Hl4 & He4); [|apply sets_sleep_commit| |done..].
  - exists (l1 ++ l2 ++ l3 ++ l4). rewrite Hl4, Hl, Hl2, <-!app_assoc. split; [done|]. rewrite app_assoc. by apply ac_app.
  - intros x (old & new & ? & ? & -> & _ & Hm). unfold sleep_commit in Hm. injection Hm as <- _. by rewrite entry_of_with_entry.
Qed.

Lemma resume_each m :
  withdrawn_blocked (cur m) ->
  exists l, log (resumeTenant t m).1 = log m ++ l /\ each (sleep_step (tp_withdrawal_at (progress_of (cur m)))) l.
Proof.
  set (w0 := tp_withdrawal_at (progress_of (cur m))). intros Hwb. apply runForTenant_each. intros m1 Hco Hc. rewrite <-Hc in Hwb.
  destruct (resume_run t m1) as [m' r] eqn:Hr. unfold resume_run in Hr. simpl.
  run_bind Hr as m2 p H2. apply transition_run in H2 as [H2 ->]; [|done]. pose proof (steady_cur _ _ _ H2) as Hc2.
  fold (cur m1) in Hr. destruct (tp_restoring _).
  { destruct (sleep_step_restore w0 m2) as (l & Hl & He). rewrite Hr in Hl. simpl in Hl. rewrite (proj1 H2), app_nil_r in Hl. eauto. }
  unfold is_asleep in Hr. run_bind Hr as m3 b H3. run_bind H3 as m4 a H4. injection H3 as <- <-.
  apply t_observe_run in H4 as [_ H4]. pose proof (steady_trans _ _ _ _ _ H2 H4) as H24. simpl in H24.
  pose proof (proj2 (proj2 (proj2 H24)) Hco) as Hco4. pose proof (steady_cur _ _ _ H24) as Hc4.
  destruct (IsAsleep m4 t).
  { run_bind Hr as m5 r5 H5. apply call_steady in H5. pose proof (steady_trans _ _ _ _ _ H24 H5) as H25.
    destruct r5 as [[]|e]; [|injection Hr as <- <-; eexists; split; [apply H25|by apply each_single]].
    apply call_steady in Hr. eexists. split; [apply (steady_trans _ _ _ _ _ H25 Hr)|].
    apply (ac_app (Q := each (sleep_step w0)) [_] [_]); by apply each_single. }
  run_bind Hr as m5 k H5. destruct (sleep_step_continue w0 m4) as (l3 & Hl3 & He3). rewrite H5 in Hl3. simpl in Hl3.
  pose proof (proj1 H24) as Hl4. rewrite app_nil_r in Hl4. rewrite Hl4 in Hl3.
  destruct k as [[]|e]; [|injection Hr as <- <-; eauto].
  apply continueSleep_ok in H5 as (_ & _ & Hb5 & p & at_ & l & Hp & Hat & _ & _ & Hl & Hsub & Hbeg); [|done|by rewrite Hc4].
  rewrite Hc4, Hc in Hbeg. fold w0 in Hbeg.
  rewrite Hl, Hl4 in Hl3. apply app_inj_1 in Hl3 as [_ ->]; [|done].
  run_bind Hr as m6 r6 H6. eapply commit_step in H6 as (l6 & Hl6 & He6); [|apply sets_resume_commit| |done..].
  2:{ intros x (old & new & ? & ? & -> & _ & Hm). unfold resume_commit in Hm. case_match; simplify_eq. by rewrite entry_of_with_entry. }
  rewrite Hl, Hl4, <-app_assoc in Hl6. destruct (fst r6); [|injection Hr as <- <-; eauto].
  destruct (snd r6); [injection Hr as <- <-; eauto|]. run_bind Hr as m7 u H7. injection Hr as <- <-.
  apply did_run in H7. eexists. split; [by rewrite (proj1 H7), Hl6, <-app_assoc|]. apply ac_app; [done|by apply each_single].
Qed.
End Rely.

Lemma sleep_each t m wakeAt guarded has_check :
  rely t -> te_has_cutover = true -> withdrawn_blocked (cur t m) ->
  (exists l, log (Sleep t wakeAt guarded has_check m).1 = log m ++ l /\ each (sleep_step t (tp_withdrawal_at (progress_of (cur t m)))) l) /\
  (exists l, log (resumeTenant t m).1 = log m ++ l /\ each (sleep_step t (tp_withdrawal_at (progress_of (cur t m)))) l).
Proof.
  intros Hrely Hcut Hwb. split; [|by apply resume_each].
  unfold Sleep. rewrite M_bind_eq.
  destruct (runForTenant_each t Hrely (tp_withdrawal_at (progress_of (cur t m))) (sleep_run t wakeAt guarded has_check) m) as (l & Hl & He).
  { intros m1 Hco Hc. rewrite <-Hc. apply sleep_run_each; [done..|by rewrite Hc|done]. }
  destruct (runForTenant _ _ _) as [m1 [[d v]|e]]; simpl in *; [|eauto].
  rewrite M_bind_eq. destruct (sv_changed v); simpl; [|eauto].
  exists (l ++ [Did (Notified t)]). unfold log in *. simpl. rewrite Hl, app_assoc. split; [done|].
  apply each_snoc; done.
Qed.

(** Sleep behind the cutover.  As long as nobody else changes the tenant's
    entry, every write by which [Sleep] or a resumed transition puts the tenant to
    sleep is preceded, in the same operation, by a successful installation of the
    wake path and a successful wait for it; target registration is durably blocked
    and the withdrawal's time durably recorded before it and stay so; and a
    guarded sleep has seen no activity since that time and has finished the
    withdrawal; an operation that found no withdrawal recorded has begun one.  Failing requests and half-applied writes included. *)
Theorem sleep_after_cutover t m wakeAt guarded has_check :
  rely t -> te_has_cutover = true -> withdrawn_blocked (cur t m) ->
  (exists l, log (Sleep t wakeAt guarded has_check m).1 = log m ++ l /\ each (sleep_step t (tp_withdrawal_at (progress_of (cur t m)))) l) /\
  (exists l, log (resumeTenant t m).1 = log m ++ l /\ each (sleep_step t (tp_withdrawal_at (progress_of (cur t m)))) l).
Proof. apply sleep_each. Qed.
End Log.
