(* ===== verification/TenantStateRuns.v ===== *)
(** * Undisturbed runs of tenant sleep and wake

    What sleeping, waking and resuming achieve when no request fails and nobody
    else changes the document: the exact document and log that result.  Two of
    the theorems describe what the code does after an interruption. *)

From S2P Require Import Prelude Document TenantState TenantStateFacts.
From S2P Require Import ContentTags.

(** No failure, no interference, a cutover that succeeds. *)
Class QuietEnv `{HT : TenantEnv} := mkQuietEnv {
  q_ctx : forall n, te_ctx_err n = None;
  q_term : forall n, te_term_done n = false;
  q_get : forall n, doc_get_fault n = None;
  q_put : forall n, doc_put_fault n = None;
  q_others : forall n b, doc_others n b = None;
  q_call : forall n t c, te_call n t c = Ok tt;
  q_cutover : te_has_cutover = true;
}.

Section Quiet.
Context {HT : TenantEnv} {HL : DocLaws stateDocument} {HQ : QuietEnv}.

(** Only tenants asleep until some time have a timer. *)
Definition timed (d : stateDocument) (timers : gmap string (Z * Z)) : Prop :=
  forall t, timers !! t ≠ None -> exists w, ts_sleep (entry_of d t) = Some (mkSleepState (Some w)).

Lemma install_timed now done d m : timed d (tm_timers (install_at now done d m)).
Proof.
  intros t. simpl. destruct (bool_decide _ || done); [by rewrite lookup_empty|].
  unfold wake_timers, entry_of, stateDocument in *. rewrite lookup_omap.
  destruct (d !! t) as [e|] eqn:He; simpl; [|done]. destruct (ts_sleep e) as [[[w|]]|]; [eauto|done..].
Qed.

(** [m'] follows [m] with document [d], cached, and [l] logged. *)
Record settled (m m' : Manager) (d : stateDocument) (l : Log) : Prop := mkSettled {
  sd_wf : s_obj (tm_store m') ≠ Some Malformed;
  sd_term : tm_term m' = tm_term m;
  sd_cache : tm_state m' = d;
  sd_doc : doc m' = d;
  sd_log : log m' = log m ++ l;
  sd_timers : timed d (tm_timers m');
}.

(** A state whose document decodes and is cached. *)
Definition ready (m : Manager) : Prop :=
  s_obj (tm_store m) ≠ Some Malformed /\ tm_state m = doc m /\ timed (doc m) (tm_timers m).

Lemma settled_ready m m' d l : settled m m' d l -> ready m'.
Proof. intros []. subst. split_and!; [done|congruence|by rewrite sd_doc0]. Qed.

Lemma settled_trans m1 m2 m3 d2 d3 l1 l2 : settled m1 m2 d2 l1 -> settled m2 m3 d3 l2 -> settled m1 m3 d3 (l1 ++ l2).
Proof. intros [] []. split; try congruence; [|done]. rewrite app_assoc. congruence. Qed.

(** Outside [update] the cache may be refreshed: it stays the document. *)
Lemma t_observe_quiet {A} (f : nat -> A) m :
  ready m -> exists m' n, t_observe f m = (m', f n) /\ settled m m' (doc m) [].
Proof.
  intros (Hwf & Hc & Htm). unfold t_observe. simpl. unfold after_others. rewrite q_others. simpl. eexists _, _. split; [reflexivity|].
  unfold doc in *. destruct (te_reinstall _), (s_obj (tm_store m)) as [[d|]|] eqn:Ho; try done;
    split; unfold log, doc; simpl; rewrite ?Ho, ?app_nil_r; try done; apply (install_timed _ _ _ m).
Qed.

(** The same without the cache: what can be said of a state that is not ready. *)
Lemma t_observe_wf {A} (f : nat -> A) m :
  s_obj (tm_store m) ≠ Some Malformed ->
  exists m' n, t_observe f m = (m', f n) /\ s_obj (tm_store m') ≠ Some Malformed /\ tm_term m' = tm_term m /\
    doc m' = doc m /\ log m' = log m.
Proof.
  intros Hwf. unfold t_observe. simpl. unfold after_others. rewrite q_others. simpl. eexists _, _. split; [reflexivity|].
  unfold doc. destruct (te_reinstall _), (s_obj (tm_store m)) as [[d|]|] eqn:Ho; try done; simpl; rewrite ?Ho; done.
Qed.

(** One interleaving point of the store. *)
Definition tick_up (m : Manager) : Manager :=
  let s := tm_store m in {| m with tm_store := mkStore (S (s_tick s)) (s_version s) (s_obj s) (s_log s) |}.

Lemma store_observe_quiet {A} (f : nat -> A) m :
  on_store (st_observe f) m = (tick_up m, f (s_tick (tm_store m))).
Proof.
  unfold on_store, st_observe, after_others. simpl.
  by rewrite q_others.
Qed.

Definition cur_etag (m : Manager) : string :=
  match s_obj (tm_store m) with None => "" | Some b => doc_etag (s_version (tm_store m)) b end.

Lemma load_quiet m :
  s_obj (tm_store m) ≠ Some Malformed -> load m = (tick_up m, Ok (doc m, cur_etag m)).
Proof.
  intros Hwf. unfold load, on_store, load_doc, storage_get, mbind, M_bind, st_observe, after_others. simpl.
  rewrite q_others, q_get. simpl. unfold cur_etag, doc.
  destruct (s_obj (tm_store m)) as [[d|]|] eqn:Ho; [| done|]; unfold tick_up; simpl; rewrite Ho; reflexivity.
Qed.

Lemma put_quiet d m :
  on_store (storage_put_if_match d (cur_etag m)) m =
  (let s := tm_store m in
   {| m with tm_store := mkStore (S (s_tick s)) (S (s_version s)) (Some (Doc d)) (s_log s ++ [Wrote (s_obj s) d]) |}, Ok tt).
Proof.
  unfold on_store, storage_put_if_match, conditional_write, mbind, M_bind, st_observe, after_others. simpl.
  rewrite q_others, q_put. simpl. unfold etag_matches, cur_etag. simpl.
  destruct (s_obj (tm_store m)) as [b|] eqn:Ho; [|done].
  rewrite bool_decide_false by apply doc_etag_nonempty. by rewrite bool_decide_true.
Qed.

Lemma update_quiet {A} (mutate : stateDocument -> A -> bool * stateDocument * A) acc m b d' acc' :
  s_obj (tm_store m) ≠ Some Malformed -> honest mutate -> mutate (doc m) acc = (b, d', acc') ->
  exists m', update mutate acc m = (m', (Ok d', acc')) /\
    settled m m' d' (if b then [Wrote (s_obj (tm_store m)) d'] else []).
Proof.
  intros Hwf Hh Hm. unfold update, maxCASRetries. cbn [update_loop].
  rewrite M_bind_eq, store_observe_quiet. cbn [fst snd]. rewrite q_ctx.
  rewrite M_bind_eq, load_quiet by done. cbn [fst snd].
  change (doc (tick_up m)) with (doc m). rewrite Hm. destruct b.
  - rewrite M_bind_eq. change (cur_etag (tick_up m)) with (cur_etag (tick_up (tick_up m))). rewrite put_quiet. cbn [fst snd].
    rewrite M_bind_eq. unfold install. rewrite !M_bind_eq, !store_observe_quiet. eexists. split; [reflexivity|]. split; try done. apply (install_timed _ _ _ m).
  - rewrite M_bind_eq. unfold install. rewrite !M_bind_eq, !store_observe_quiet. eexists. split; [reflexivity|].
    apply Hh in Hm as ->. split; try done; [by rewrite app_nil_r|apply (install_timed _ _ _ m)].
Qed.

Lemma update__quiet f m b d' :
  s_obj (tm_store m) ≠ Some Malformed -> honest (pure_mutation f) -> f (doc m) = (b, d') ->
  exists m', update_ f m = (m', Ok tt) /\ settled m m' d' (if b then [Wrote (s_obj (tm_store m)) d'] else []).
Proof.
  intros Hwf Hh Hf. unfold update_. rewrite M_bind_eq.
  destruct (update_quiet (pure_mutation f) tt m b d' tt) as (m' & Hu & Hs); [done..| |].
  - unfold pure_mutation. by rewrite Hf.
  - unfold pure_mutation in Hu. rewrite Hu. eauto.
Qed.

Lemma call_quiet t c m : ready m -> exists m', call t c m = (m', Ok tt) /\ settled m m' (doc m) [Did (Called t c (Ok tt))].
Proof.
  intros Hr. unfold call. rewrite M_bind_eq.
  destruct (t_observe_quiet (fun n => te_call n t c) m Hr) as (m1 & n & -> & Hs). cbn [fst snd]. rewrite q_call.
  rewrite M_bind_eq. eexists. split; [reflexivity|]. apply (settled_trans _ _ _ _ _ [] _ Hs). by split; destruct Hs.
Qed.

Lemma transition_quiet t m :
  ready m -> exists m', transition t m = (m', progress_of (entry_of (doc m) t)) /\ settled m m' (doc m) [].
Proof.
  intros Hr. unfold transition. rewrite M_bind_eq.
  destruct (t_observe_quiet (fun _ => tt) m Hr) as (m1 & n & -> & Hs). cbn [fst snd].
  exists m1. split; [|done]. unfold gets, progress_of. by rewrite (sd_cache _ _ _ _ Hs).
Qed.

Lemma with_entry_twice t e e' (d : stateDocument) : with_entry t e (with_entry t e' d) = with_entry t e d.
Proof. exact (insert_insert_eq d t e e'). Qed.

Lemma with_entry_delete t e (d : stateDocument) : delete t (with_entry t e d) = delete t d.
Proof. exact (delete_insert_eq d t e). Qed.

Lemma with_entry_id t (d : stateDocument) :
  tp_withdrawal_at (progress_of (entry_of d t)) ≠ None -> with_entry t (entry_of d t) d = d.
Proof.
  intros Hp. unfold entry_of in *. destruct (d !! t) as [e|] eqn:He; [|done]. exact (insert_id d t e He).
Qed.

(** ** [continueSleep] *)

Definition after_continue (now : Z) (e : TenantState) : TenantState :=
  match tp_withdrawal_at (progress_of e) with
  | Some _ => e
  | None => mkTenantState (ts_sleep e)
              (Some (let p := progress_of e in {| p with tp_withdrawal_at := Some now |})) true
  end.

Lemma withdraw_quiet t m :
  ready m -> tp_withdrawal_at (progress_of (entry_of (doc m) t)) = None ->
  exists m' now l, withdraw t m = (m', Ok tt) /\
    settled m m' (with_entry t (after_continue now (entry_of (doc m) t)) (doc m)) l.
Proof.
  intros Hr Hn. unfold withdraw. set (e := entry_of (doc m) t) in *.
  set (e1 := {| e with ts_target_registration_blocked := true |}).
  assert (exists m1 l1 d1, blockTargetRegistration t m = (m1, Ok tt) /\ settled m m1 d1 l1 /\
    entry_of d1 t = e1 /\ forall x, with_entry t x d1 = with_entry t x (doc m)) as (m1 & l1 & d1 & E1 & S1 & He1 & Hd1).
  { destruct (update__quiet (block_mutation t) m _ _ (proj1 Hr) (sets_honest _ _ _ (sets_block t)) (surjective_pairing _)) as (m1 & E1 & S1).
    unfold block_mutation in E1, S1. fold e in E1, S1. destruct (ts_target_registration_blocked e) eqn:Hb; simpl in S1.
    - eexists _, _, _. split_and!; [exact E1|exact S1| |done]. unfold e1. fold e. by destruct e; simpl in *; subst.
    - eexists _, _, _. split_and!; [exact E1|exact S1|apply entry_of_with_entry|]. intros x. apply with_entry_twice. }
  rewrite M_bind_eq, E1. cbn [fst snd].
  destruct (call_quiet t BeginTargetWithdrawal m1 (settled_ready _ _ _ _ S1)) as (m2 & E2 & S2).
  rewrite M_bind_eq, E2. cbn [fst snd]. rewrite (sd_doc _ _ _ _ S1) in S2.
  destruct (t_observe_quiet te_now m2 (settled_ready _ _ _ _ S2)) as (m3 & n & E3 & S3).
  rewrite M_bind_eq, E3. cbn [fst snd]. rewrite (sd_doc _ _ _ _ S2) in S3.
  destruct (update__quiet (mark_mutation t (fun p => {| p with tp_withdrawal_at := Some (te_now n) |})) m3 true
    (with_entry t (after_continue (te_now n) e) (doc m))) as (m4 & E4 & S4);
    [apply (sd_wf _ _ _ _ S3)|eapply sets_honest, sets_mark| |].
  { unfold mark_mutation. rewrite (sd_doc _ _ _ _ S3), He1, Hd1. unfold after_continue. by rewrite Hn. }
  rewrite M_bind_eq. unfold markTransition. unfold mark_mutation in E4. rewrite E4. cbn [fst snd].
  eexists m4, (te_now n), _. split; [done|].
  exact (settled_trans _ _ _ _ _ _ _ S1 (settled_trans _ _ _ _ _ _ _ S2 (settled_trans _ _ _ _ _ _ _ S3 S4))).
Qed.

Lemma guard_quiet t m :
  ready m -> tp_withdrawal_at (progress_of (entry_of (doc m) t)) ≠ None ->
  exists m', guard t m = (m', Ok tt) /\ settled m m' (doc m) (guard_calls t (progress_of (entry_of (doc m) t))).
Proof.
  intros Hr Hn. unfold guard, guard_calls.
  destruct (transition_quiet t m Hr) as (m1 & E1 & S1). rewrite M_bind_eq, E1. cbn [fst snd].
  destruct (tp_guarded _); [|eauto]. destruct (tp_withdrawal_at _) as [at_|]; [|done].
  destruct (call_quiet t (CheckActivity at_) m1 (settled_ready _ _ _ _ S1)) as (m2 & E2 & S2).
  rewrite M_bind_eq, E2. cbn [fst snd]. rewrite (sd_doc _ _ _ _ S1) in S2.
  destruct (call_quiet t FinishTargetWithdrawal m2 (settled_ready _ _ _ _ S2)) as (m3 & E3 & S3).
  rewrite M_bind_eq, E3. cbn [fst snd]. rewrite (sd_doc _ _ _ _ S2) in S3. eexists. split; [done|].
  exact (settled_trans _ _ _ _ _ _ _ S1 (settled_trans _ _ _ _ _ _ _ S2 S3)).
Qed.

(** Undisturbed, the cutover to sleep succeeds; a withdrawal already on record is
    not repeated. *)
Lemma continueSleep_quiet t m :
  ready m -> exists m' now l, continueSleep t m = (m', Ok tt) /\
    settled m m' (with_entry t (after_continue now (entry_of (doc m) t)) (doc m)) l /\
    (tp_withdrawal_at (progress_of (entry_of (doc m) t)) ≠ None -> l = sleep_calls t (progress_of (entry_of (doc m) t))).
Proof.
  intros Hr. unfold continueSleep. set (e := entry_of (doc m) t).
  destruct (call_quiet t InstallWakePath m Hr) as (m1 & E1 & S1). rewrite M_bind_eq, E1. cbn [fst snd].
  destruct (call_quiet t WaitWakePathReady m1 (settled_ready _ _ _ _ S1)) as (m2 & E2 & S2).
  rewrite M_bind_eq, E2. cbn [fst snd]. rewrite (sd_doc _ _ _ _ S1) in S2.
  destruct (transition_quiet t m2 (settled_ready _ _ _ _ S2)) as (m3 & E3 & S3).
  rewrite M_bind_eq, E3. cbn [fst snd]. rewrite (sd_doc _ _ _ _ S2) in *. fold e. rewrite M_bind_eq.
  pose proof (settled_trans _ _ _ _ _ _ _ S1 (settled_trans _ _ _ _ _ _ _ S2 S3)) as S123.
  assert (entry_of (doc m3) t = e) as He3 by (unfold e; by rewrite (sd_doc _ _ _ _ S3)).
  destruct (tp_withdrawal_at (progress_of e)) as [at_|] eqn:Hat.
  - rewrite bool_decide_false by done. cbn [fst snd].
    destruct (guard_quiet t m3 (settled_ready _ _ _ _ S3)) as (m4 & E4 & S4); rewrite He3 in *; [by rewrite Hat|].
    rewrite (sd_doc _ _ _ _ S3) in S4.
    rewrite M_ret_eq. cbn [fst snd]. exists m4, 0. eexists. split_and!; [done| |].
    + unfold after_continue. rewrite Hat. unfold e. rewrite with_entry_id by (fold e; by rewrite Hat).
      exact (settled_trans _ _ _ _ _ _ _ S123 S4).
    + by rewrite app_nil_r.
  - rewrite bool_decide_true by done.
    destruct (withdraw_quiet t m3 (settled_ready _ _ _ _ S3)) as (m4 & now & l & E4 & S4); rewrite He3 in *; [done|].
    rewrite (sd_doc _ _ _ _ S3) in S4. rewrite E4. cbn [fst snd].
    destruct (guard_quiet t m4 (settled_ready _ _ _ _ S4)) as (m5 & E5 & S5); rewrite (sd_doc _ _ _ _ S4), entry_of_with_entry in *.
    { unfold after_continue. by rewrite Hat. }
    exists m5, now. eexists. split_and!; [done|exact (settled_trans _ _ _ _ _ _ _ S123 (settled_trans _ _ _ _ _ _ _ S4 S5))|done].
Qed.

(** ** Operations *)

(** A manager that leads over a document that decodes. *)
Definition leading (m : Manager) : Prop := s_obj (tm_store m) ≠ Some Malformed /\ tm_term m ≠ None.

Lemma settled_leading m m' d l : leading m -> settled m m' d l -> leading m'.
Proof. intros [_ ?] []. split; congruence. Qed.

Lemma runForTenant_quiet {A} t (run : M Manager (res A)) m (P : A -> stateDocument -> Log -> Prop) :
  leading m ->
  (forall m1, ready m1 -> doc m1 = doc m ->
     exists m2 a d l, run m1 = (m2, Ok a) /\ settled m1 m2 d l /\ P a d l) ->
  exists m' a d l, runForTenant t run m = (m', Ok a) /\ settled m m' d l /\ P a d l.
Proof.
  intros [Hwf Hterm] Hrun. unfold runForTenant, ctx_err.
  destruct (t_observe_wf te_ctx_err m Hwf) as (m1 & n1 & E1 & Hwf1 & Ht1 & Hd1 & Hl1).
  rewrite M_bind_eq, E1. cbn [fst snd]. rewrite q_ctx.
  destruct (t_observe_wf te_term_done m1 Hwf1) as (m2 & n2 & E2 & Hwf2 & Ht2 & Hd2 & Hl2).
  rewrite M_bind_eq, E2. cbn [fst snd]. rewrite M_bind_eq. unfold gets. cbn [fst snd].
  rewrite q_term, bool_decide_false by congruence. cbv [orb].
  destruct (t_observe_wf te_ctx_err m2 Hwf2) as (m3 & n3 & E3 & Hwf3 & Ht3 & Hd3 & Hl3).
  rewrite M_bind_eq, E3. cbn [fst snd]. rewrite q_ctx.
  destruct (update__quiet noop_mutation m3 false (doc m3) Hwf3 (sets_honest _ _ _ (sets_noop t)) eq_refl) as (m4 & E4 & S4).
  rewrite M_bind_eq. unfold noop_mutation in E4. rewrite E4. cbn [fst snd].
  destruct (Hrun m4 (settled_ready _ _ _ _ S4)) as (m5 & a & d & l & E5 & S5 & HP).
  { rewrite (sd_doc _ _ _ _ S4). congruence. }
  rewrite M_bind_eq, E5. cbn [fst snd].
  destruct (t_observe_quiet te_ctx_err m5 (settled_ready _ _ _ _ S5)) as (m6 & n6 & E6 & S6).
  rewrite M_bind_eq, E6. cbn [fst snd]. rewrite q_ctx, (sd_doc _ _ _ _ S5) in *.
  exists m6, a, d, l. split_and!; [done| |done]. pose proof (settled_trans _ _ _ _ _ _ _ S4 (settled_trans _ _ _ _ _ _ _ S5 S6)) as S.
  destruct S. split; try congruence; [|done]. rewrite sd_log0, Hl3, Hl2, Hl1. by rewrite !app_nil_l, app_nil_r.
Qed.

Lemma notify_settled t m : ready m -> exists m', notifyChanged t m = (m', tt) /\ settled m m' (doc m) [Did (Notified t)].
Proof. intros (Hwf & Hc & Htm). eexists. split; [reflexivity|]. by split. Qed.

Lemma restore_quiet t m : ready m -> exists m' l, restore t m = (m', Ok tt) /\ settled m m' (delete t (doc m)) l.
Proof.
  intros Hr. unfold restore.
  destruct (update__quiet (restore_mutation t) m _ _ (proj1 Hr) (sets_honest _ _ _ (sets_restore t)) eq_refl) as (m1 & E1 & S1).
  unfold restore_mutation in E1. unfold beginRestore. rewrite M_bind_eq, E1. cbn [fst snd].
  destruct (call_quiet t RestoreTargets m1 (settled_ready _ _ _ _ S1)) as (m2 & E2 & S2).
  rewrite M_bind_eq, E2. cbn [fst snd]. rewrite (sd_doc _ _ _ _ S1) in S2.
  destruct (call_quiet t WaitTargetsReady m2 (settled_ready _ _ _ _ S2)) as (m3 & E3 & S3).
  rewrite M_bind_eq, E3. cbn [fst snd]. rewrite (sd_doc _ _ _ _ S2) in S3.
  destruct (call_quiet t RemoveWakePath m3 (settled_ready _ _ _ _ S3)) as (m4 & E4 & S4).
  rewrite M_bind_eq, E4. cbn [fst snd]. rewrite (sd_doc _ _ _ _ S3) in S4.
  destruct (update__quiet (delete_mutation t) m4 true (delete t (doc m))) as (m5 & E5 & S5);
    [apply (sd_wf _ _ _ _ S4)|apply honest_delete| |].
  { unfold delete_mutation. rewrite (sd_doc _ _ _ _ S4). f_equal. apply with_entry_delete. }
  unfold delete_mutation in E5. rewrite M_bind_eq, E5. cbn [fst snd].
  destruct (notify_settled t m5 (settled_ready _ _ _ _ S5)) as (m6 & E6 & S6).
  rewrite M_bind_eq, E6. cbn [fst snd]. rewrite (sd_doc _ _ _ _ S5) in S6. eexists m6, _. split; [done|].
  exact (settled_trans _ _ _ _ _ _ _ S1 (settled_trans _ _ _ _ _ _ _ S2 (settled_trans _ _ _ _ _ _ _ S3
    (settled_trans _ _ _ _ _ _ _ S4 (settled_trans _ _ _ _ _ _ _ S5 S6))))).
Qed.

(** The entry a sleep ends in. *)
Definition asleep_entry (w : option Z) (now : Z) (e : TenantState) : TenantState :=
  let c := after_continue now e in {| c with ts_sleep := Some (mkSleepState w); ts_transition := None |}.

Lemma Sleep_quiet t w g m :
  leading m -> ts_sleep (entry_of (doc m) t) = None ->
  exists m' now l, Sleep t w g false m = (m', Ok (false, w)) /\
    settled m m' (with_entry t (asleep_entry w now (entry_of (doc m) t)) (doc m)) l /\
    (tp_withdrawal_at (progress_of (entry_of (doc m) t)) ≠ None -> Did (Called t BeginTargetWithdrawal (Ok tt)) ∉ l).
Proof.
  intros Hlead Hs. unfold Sleep. rewrite M_bind_eq. set (e := entry_of (doc m) t) in *.
  edestruct (runForTenant_quiet t (sleep_run t w g false) m (fun a d l =>
    d = a.1 /\ a.2 = mkSleepVars false true /\ (exists now, d = with_entry t (asleep_entry w now e) (doc m)) /\
    (tp_withdrawal_at (progress_of e) ≠ None -> Did (Called t BeginTargetWithdrawal (Ok tt)) ∉ l))) as (m1 & a & d & l & E1 & S1 & Hd & Ha & [now Hnow] & Hl); [done| |].
  { intros m1 Hr Hdoc. unfold sleep_run. rewrite M_bind_eq, M_ret_eq. cbn [fst snd]. rewrite q_cutover.
    set (p1 := let p := progress_of e in {| p with tp_wake_at := w; tp_guarded := g |}).
    set (e1 := {| e with ts_transition := Some p1 |}).
    destruct (update_quiet (sleep_begin t w g) (mkSleepVars false false) m1 true (with_entry t e1 (doc m)) (mkSleepVars false false)) as (m2 & E2 & S2);
      [apply Hr|eapply sets_honest, sets_sleep_begin| |].
    { unfold sleep_begin, e1. rewrite Hdoc. fold e. by rewrite Hs. }
    rewrite M_bind_eq, E2. cbn [fst snd sv_already].
    destruct (continueSleep_quiet t m2 (settled_ready _ _ _ _ S2)) as (m3 & now & l3 & E3 & S3 & Hl3).
    rewrite M_bind_eq, E3. cbn [fst snd]. rewrite (sd_doc _ _ _ _ S2), entry_of_with_entry, with_entry_twice in *.
    destruct (update_quiet (sleep_commit t w) (mkSleepVars false false) m3 true (with_entry t (asleep_entry w now e) (doc m)) (mkSleepVars false true)) as (m4 & E4 & S4);
      [apply (sd_wf _ _ _ _ S3)|eapply sets_honest, sets_sleep_commit| |].
    { unfold sleep_commit. rewrite (sd_doc _ _ _ _ S3), entry_of_with_entry, with_entry_twice. unfold asleep_entry. do 3 f_equal.
      unfold after_continue, e1, p1, progress_of. simpl. by destruct (tp_withdrawal_at _). }
    rewrite M_bind_eq, E4. cbn [fst snd]. eexists m4, _, _, _. split_and!; [done|exact (settled_trans _ _ _ _ _ _ _ S2 (settled_trans _ _ _ _ _ _ _ S3 S4))|done..|by exists now|].
    intros Hw. rewrite Hl3 by (unfold e1, p1, progress_of; by simpl). unfold sleep_calls, guard_calls.
    repeat case_match; set_solver. }
  rewrite E1. cbn [fst snd]. destruct a as [d' v]. simpl in Hd, Ha. subst d' v. simpl sv_changed.
  destruct (notify_settled t m1 (settled_ready _ _ _ _ S1)) as (m2 & E2 & S2).
  rewrite M_bind_eq, E2. cbn [fst snd]. rewrite (sd_doc _ _ _ _ S1) in S2. rewrite Hnow, entry_of_with_entry in *.
  exists m2, now. eexists. split_and!; [done|exact (settled_trans _ _ _ _ _ _ _ S1 S2)|]. set_solver.
Qed.

Lemma Wake_quiet t m :
  leading m -> ts_sleep (entry_of (doc m) t) ≠ None \/ ts_transition (entry_of (doc m) t) ≠ None ->
  exists m' l, Wake t m = (m', Ok false) /\ settled m m' (delete t (doc m)) l.
Proof.
  intros Hlead He. unfold Wake. set (e := entry_of (doc m) t) in *.
  destruct (runForTenant_quiet t (wake t) m (fun a d _ => a = false /\ d = delete t (doc m)))
    as (m' & a & d & l & E & S & -> & ->); [done| |eauto].
  intros m1 Hr Hdoc. unfold wake. rewrite q_cutover.
  destruct (update_quiet (wake_begin t) false m1 true
    (with_entry t {| e with ts_sleep := None; ts_transition := Some (progress_of e) |} (doc m)) false) as (m2 & E2 & S2);
    [apply Hr|eapply sets_honest, sets_wake_begin| |].
  { unfold wake_begin. rewrite Hdoc. fold e. rewrite bool_decide_false; [done|]. intros [? ?]. by destruct He. }
  rewrite M_bind_eq, E2. cbn [fst snd].
  destruct (notify_settled t m2 (settled_ready _ _ _ _ S2)) as (m3 & E3 & S3).
  rewrite M_bind_eq, E3. cbn [fst snd]. rewrite (sd_doc _ _ _ _ S2) in S3.
  destruct (restore_quiet t m3 (settled_ready _ _ _ _ S3)) as (m4 & l4 & E4 & S4).
  rewrite M_bind_eq, E4. cbn [fst snd]. rewrite (sd_doc _ _ _ _ S3), with_entry_delete in S4.
  eexists m4, _, _, _. split_and!; [done|exact (settled_trans _ _ _ _ _ _ _ S2 (settled_trans _ _ _ _ _ _ _ S3 S4))|done..].
Qed.

Lemma resumeTenant_quiet t m :
  leading m -> ts_sleep (entry_of (doc m) t) = None -> tp_restoring (progress_of (entry_of (doc m) t)) = false ->
  exists m' now l, resumeTenant t m = (m', Ok tt) /\
    settled m m' (with_entry t (asleep_entry (tp_wake_at (progress_of (entry_of (doc m) t))) now (entry_of (doc m) t)) (doc m)) l.
Proof.
  intros Hlead Hs Hres. set (e := entry_of (doc m) t) in *.
  match goal with |- exists m' now l, _ = _ /\ settled _ _ (with_entry _ (asleep_entry ?w _ _) _) _ => set (w' := w) end.
  edestruct (runForTenant_quiet t (resume_run t) m (fun (_ : unit) d _ => exists now, d = with_entry t (asleep_entry w' now e) (doc m)))
    as (m' & [] & d & l & E & S & now & ->); [done| |eexists m', now, l; split; [exact E|done]].
  intros m1 Hr Hdoc. unfold resume_run. destruct (transition_quiet t m1 Hr) as (m2 & E2 & S2).
  rewrite M_bind_eq, E2. cbn [fst snd]. rewrite Hdoc in *. fold e. rewrite Hres.
  unfold is_asleep. rewrite M_bind_eq, M_bind_eq.
  destruct (t_observe_quiet (fun _ => tt) m2 (settled_ready _ _ _ _ S2)) as (m3 & n & E3 & S3). rewrite E3. cbn [fst snd gets].
  rewrite (sd_doc _ _ _ _ S2) in S3. unfold IsAsleep. rewrite (sd_cache _ _ _ _ S3). fold e.
  rewrite Hs, bool_decide_false by by intros [].
  destruct (continueSleep_quiet t m3 (settled_ready _ _ _ _ S3)) as (m4 & now & l4 & E4 & S4 & _).
  rewrite M_bind_eq, E4. cbn [fst snd]. rewrite (sd_doc _ _ _ _ S3) in *. fold e in E4, S4.
  destruct (update_quiet (resume_commit t) false m4 true (with_entry t (asleep_entry w' now e) (doc m)) false) as (m5 & E5 & S5);
    [apply (sd_wf _ _ _ _ S4)|eapply sets_honest, sets_resume_commit| |].
  { unfold resume_commit, asleep_entry. rewrite (sd_doc _ _ _ _ S4), entry_of_with_entry.
    unfold w', after_continue, progress_of. destruct (ts_transition e) as [p|] eqn:Ht; simpl;
      [destruct (tp_withdrawal_at p); simpl; rewrite ?Ht|]; by rewrite with_entry_twice. }
  rewrite M_bind_eq, E5. cbn [fst snd].
  destruct (notify_settled t m5 (settled_ready _ _ _ _ S5)) as (m6 & E6 & S6).
  rewrite M_bind_eq, E6. cbn [fst snd]. rewrite (sd_doc _ _ _ _ S5) in S6. eexists m6, tt, _, _.
  split_and!; [done| |by exists now].
  exact (settled_trans _ _ _ _ _ _ _ S2 (settled_trans _ _ _ _ _ _ _ S3 (settled_trans _ _ _ _ _ _ _ S4 (settled_trans _ _ _ _ _ _ _ S5 S6)))).
Qed.

(** C11. Sleep and wake.  When nothing fails and nobody interferes, [Sleep] of a
    tenant without an entry succeeds, reports the requested deadline and leaves
    the tenant asleep with that deadline, registrations blocked and every other
    entry alone; a following [Wake] succeeds, reports that the tenant was not
    awake, and gives back exactly the document before the sleep. *)
Theorem sleep_wake_roundtrip t wakeAt guarded m :
  leading m -> doc m !! t = None ->
  match Sleep t wakeAt guarded false m with
  | (m1, r1) => r1 = Ok (false, wakeAt) /\ Status m1 t = (true, wakeAt) /\ IsAsleep m1 t = true /\
      TargetRegistrationBlocked m1 t = true /\ (forall t', t' ≠ t -> doc m1 !! t' = doc m !! t') /\
      match Wake t m1 with
      | (m2, r2) => r2 = Ok false /\ IsAsleep m2 t = false /\ doc m2 = doc m
      end
  end.
Proof.
  intros Hlead Hnone. assert (entry_of (doc m) t = zero_tenant) as He by (unfold entry_of; by rewrite Hnone).
  destruct (Sleep_quiet t wakeAt guarded m Hlead) as (m1 & now & l1 & E1 & S1 & _); [by rewrite He|].
  rewrite E1. rewrite He in S1. unfold Status, IsAsleep, TargetRegistrationBlocked.
  rewrite (sd_cache _ _ _ _ S1), entry_of_with_entry. simpl.
  split_and!; [done..| |].
  { intros t' Ht. rewrite (sd_doc _ _ _ _ S1). by apply lookup_with_entry_ne. }
  destruct (Wake_quiet t m1 (settled_leading _ _ _ _ Hlead S1)) as (m2 & l2 & E2 & S2).
  { left. by rewrite (sd_doc _ _ _ _ S1), entry_of_with_entry. }
  rewrite E2. rewrite (sd_doc _ _ _ _ S1), with_entry_delete in S2.
  assert (delete t (doc m) = doc m) as Hd by exact (delete_id (doc m) t Hnone). rewrite Hd in S2.
  rewrite (sd_cache _ _ _ _ S2), He. split_and!; [done|done|apply S2].
Qed.

(** Resumption cannot tell a finished or begun wake from a sleep.  A resumption
    that gets its turn after the tenant was woken (no entry is left), or after a
    wake whose first write was its last, succeeds and leaves the tenant asleep
    without a deadline, so no timer will wake it. *)
Theorem resume_sleeps_awake_tenant t m d :
  leading m ->
  doc m !! t = None \/
  (ts_sleep (entry_of d t) ≠ None /\ ts_transition (entry_of d t) = None /\ doc m = (wake_begin t d false).1.2) ->
  match resumeTenant t m with
  | (m', r) => r = Ok tt /\ Status m' t = (true, None) /\ tm_timers m' !! t = None
  end.
Proof.
  intros Hlead Hcase.
  assert (ts_sleep (entry_of (doc m) t) = None /\ progress_of (entry_of (doc m) t) = zero_progress) as [Hs Hp].
  { destruct Hcase as [Hn|(Hd & Ht & ->)]; [unfold entry_of; by rewrite Hn|].
    unfold wake_begin. rewrite bool_decide_false by (by intros [? ?]). simpl. rewrite entry_of_with_entry. simpl.
    unfold progress_of. by rewrite Ht. }
  destruct (resumeTenant_quiet t m Hlead Hs) as (m' & now & l & E & S); rewrite Hp in *; [done|].
  rewrite E. unfold Status. rewrite (sd_cache _ _ _ _ S), entry_of_with_entry. split_and!; [done..|].
  destruct (tm_timers m' !! t) eqn:Htm; [|done]. destruct (sd_timers _ _ _ _ S t) as [w Hw]; [by rewrite Htm|].
  by rewrite entry_of_with_entry in Hw.
Qed.

(** A sleep after a failed restoration.  When restoring the targets failed, the
    transition keeps its withdrawal time while registrations are unblocked.  A
    following unguarded [Sleep] then succeeds without withdrawing the targets
    again, and the tenant sleeps with target registration allowed. *)
Theorem sleep_after_failed_restore t wakeAt m p at_ :
  leading m -> ts_sleep (entry_of (doc m) t) = None -> ts_transition (entry_of (doc m) t) = Some p ->
  tp_restoring p = true -> tp_withdrawal_at p = Some at_ -> ts_target_registration_blocked (entry_of (doc m) t) = false ->
  match Sleep t wakeAt false false m with
  | (m', r) => r = Ok (false, wakeAt) /\ IsAsleep m' t = true /\ TargetRegistrationBlocked m' t = false /\
      exists l, log m' = log m ++ l /\ Did (Called t BeginTargetWithdrawal (Ok tt)) ∉ l
  end.
Proof.
  intros Hlead Hs Ht _ Hat Hb. destruct (Sleep_quiet t wakeAt false m Hlead Hs) as (m' & now & l & E & S & Hl).
  assert (progress_of (entry_of (doc m) t) = p) as Hp by (unfold progress_of; by rewrite Ht). rewrite Hp, Hat in *.
  rewrite E. unfold IsAsleep, TargetRegistrationBlocked. rewrite (sd_cache _ _ _ _ S), entry_of_with_entry.
  unfold asleep_entry, after_continue. rewrite Hp, Hat. simpl.
  split_and!; [done|done|done|]. exists l. split; [apply S|by apply Hl].
Qed.
End Quiet.

(** ** Timers *)

(** A timer of another term, or one whose tenant is not asleep until exactly the
    expected time or not yet due, does nothing. *)
Lemma wakeIfDue_idle `{HT : TenantEnv} term t expected m m1 d :
  t_observe te_term_done m = (m1, d) ->
  tm_term m ≠ Some term \/ (forall n, due (te_now n) expected (entry_of (tm_state m1) t) = false) ->
  log (wakeIfDue term t expected m).1 = log m.
Proof.
  intros Ho Hcase. pose proof (t_observe_log te_term_done m) as Hl. rewrite Ho in Hl. simpl in Hl.
  assert (tm_term m1 = tm_term m) as Ht.
  { unfold t_observe in Ho. simpl in Ho. injection Ho as <- _. by destruct (te_reinstall _), (after_others _ _) as [[]|]. }
  unfold wakeIfDue. rewrite M_bind_eq, Ho. cbn [fst snd]. rewrite M_bind_eq. unfold gets. cbn [fst snd].
  destruct (d || negb (bool_decide (tm_term m1 = Some term))) eqn:Hs; [done|].
  apply orb_false_iff in Hs as [_ Hs]. apply negb_false_iff, bool_decide_eq_true in Hs.
  destruct Hcase as [Hne|Hdue]; [congruence|].
  rewrite M_bind_eq. cbn [fst snd]. rewrite M_bind_eq.
  pose proof (t_observe_log te_now m1) as Hl2. destruct (t_observe te_now m1) as [m2 now] eqn:Ho2. simpl in *.
  unfold t_observe in Ho2. simpl in Ho2. injection Ho2 as _ <-. rewrite Hdue. simpl. congruence.
Qed.

(** Wake timers.  A timer that fires for an earlier leadership term, for a tenant
    that is not asleep until exactly the deadline the timer was set for, or before
    that deadline, neither writes nor calls anything, whatever the environment
    does.  A timer that fires after the deadline of a tenant still asleep until
    then wakes it when nothing fails: its entry is gone. *)
Theorem timer_wakes_when_due `{HT : TenantEnv} {HL : DocLaws stateDocument} term t expected m :
  (tm_term m ≠ Some term \/
     (forall n, due (te_now n) expected (entry_of (tm_state (t_observe te_term_done m).1) t) = false) ->
   log (wakeIfDue term t expected m).1 = log m) /\
  (QuietEnv -> ready m -> tm_term m = Some term ->
     ts_sleep (entry_of (doc m) t) = Some (mkSleepState (Some expected)) -> (forall n, expected <= te_now n) ->
   doc (wakeIfDue term t expected m).1 = delete t (doc m) /\ IsAsleep (wakeIfDue term t expected m).1 t = false).
Proof.
  split; [intros; by eapply wakeIfDue_idle; [apply surjective_pairing|]|]. intros HQ Hr Hterm Hs Hnow. unfold wakeIfDue.
  destruct (t_observe_quiet te_term_done m Hr) as (m1 & n & E1 & S1). rewrite M_bind_eq, E1. cbn [fst snd].
  rewrite M_bind_eq. unfold gets. cbn [fst snd]. rewrite q_term, (sd_term _ _ _ _ S1), bool_decide_true by done. cbv [orb negb].
  rewrite M_bind_eq. cbn [fst snd]. rewrite (sd_cache _ _ _ _ S1), M_bind_eq.
  destruct (t_observe_quiet te_now m1 (settled_ready _ _ _ _ S1)) as (m2 & n2 & E2 & S2). rewrite E2. cbn [fst snd].
  rewrite (sd_doc _ _ _ _ S1) in S2. unfold due. rewrite Hs, bool_decide_true by done.
  rewrite bool_decide_false by (specialize (Hnow n2); lia). cbv [andb negb].
  pose proof (settled_trans _ _ _ _ _ _ _ S1 S2) as S12.
  destruct (Wake_quiet t m2) as (m3 & l & E3 & S3).
  { split; [apply S12|]. rewrite (sd_term _ _ _ _ S12). congruence. }
  { left. by rewrite (sd_doc _ _ _ _ S12), Hs. }
  rewrite M_bind_eq, E3. cbn [fst snd]. rewrite (sd_doc _ _ _ _ S12) in S3. simpl.
  split; [apply S3|]. unfold IsAsleep. rewrite (sd_cache _ _ _ _ S3). unfold entry_of.
  assert ((delete t (doc m) : stateDocument) !! t = None) as Hd by exact (lookup_delete_eq (doc m) t). by rewrite Hd.
Qed.

(** ** Concrete runs of tenant sleep and wake

    A storage service whose entity tags spell out the content, in which nothing
    fails, and managers over small documents: the hypotheses of the theorems hold
    and the modelled code is evaluated. *)
Module TenantStateWitnesses.
(** ** Entity tags *)

Definition tree_progress (p : TransitionProgress) : Tree :=
  GenNode 0 [tree_opt tree_Z (tp_wake_at p); tree_opt tree_Z (tp_withdrawal_at p);
             tree_bool (tp_guarded p); tree_bool (tp_restoring p)].
Definition tree_tenant (e : TenantState) : Tree :=
  GenNode 0 [tree_opt (fun x => tree_opt tree_Z (sl_wake_at x)) (ts_sleep e);
             tree_opt tree_progress (ts_transition e); tree_bool (ts_target_registration_blocked e)].

#[global] Instance tree_progress_inj : Inj (=) (=) tree_progress.
Proof.
  intros [] [] [= Ha Hb Hc Hd]. apply (inj (tree_opt tree_Z)) in Ha, Hb. subst.
  by repeat match goal with b : bool |- _ => destruct b end.
Qed.
#[global] Instance tree_sleep_inj : Inj (=) (=) (fun x => tree_opt tree_Z (sl_wake_at x)).
Proof. intros [] [] H. apply (inj (tree_opt tree_Z)) in H. simpl in H. by subst. Qed.
#[global] Instance tree_tenant_inj : Inj (=) (=) tree_tenant.
Proof.
  intros [] [] [= Ha Hb Hc]. apply (inj (tree_opt _)) in Ha, Hb. subst.
  by repeat match goal with b : bool |- _ => destruct b end.
Qed.

(** ** The environment and managers *)

Definition demo_tenant_env : TenantEnv := {|
  te_doc := content_env (tree_map tree_tenant : stateDocument -> Tree);
  te_now := fun n => 1000;
  te_ctx_err := fun _ => None;
  te_term_done := fun _ => false;
  te_has_cutover := true;
  te_call := fun _ _ _ => Ok tt;
  te_callback := fun _ => Ok tt;
  te_reinstall := fun _ => false;
  te_timer_retry := 1;
|}.

Lemma demo_tenant_laws : @DocLaws stateDocument (@te_doc demo_tenant_env).
Proof. apply content_laws. unfold stateDocument. apply _. Qed.

Lemma demo_quiet : @QuietEnv demo_tenant_env.
Proof. by split. Qed.

(** A manager that leads term 1 over document [d], cached. *)
Definition demo_manager (d : stateDocument) : Manager :=
  mkManager (mkStore 0 0 (Some (Doc d)) []) d (wake_timers 1000 d) (Some 1%nat) 1.

Lemma demo_leading d : leading (demo_manager d).
Proof. by split. Qed.

Lemma demo_rely t : @rely demo_tenant_env t.
Proof. by intros n b. Qed.

Definition other_doc : stateDocument := {[ "other" := mkTenantState None None false ]}.

(** ** Witnesses *)

Definition slept : Manager := (@run_op demo_tenant_env "acme" (OpSleep None true false) (demo_manager other_doc)).1.

Lemma tenant_updates_isolated_witness : length (log slept) = 10%nat /\ Forall (keeps_others "acme") (log slept).
Proof.
  split; [vm_compute; reflexivity|].
  destruct (@tenant_updates_isolated demo_tenant_env demo_tenant_laws "acme" (OpSleep None true false) (demo_manager other_doc))
    as (l & Hl & Hf). unfold slept. rewrite Hl. exact Hf.
Defined.

(** A tenant asleep until [w]. *)
Definition sleeping_doc (w : option Z) : stateDocument := {[ "acme" := mkTenantState (Some (mkSleepState w)) None true ]}.

Definition woken : Manager := (@run_op demo_tenant_env "acme" OpWake (demo_manager (sleeping_doc None))).1.

Lemma restore_order_witness :
  log woken !! 5%nat = Some (Did (Called "acme" RemoveWakePath (Ok tt))) /\ each (restore_step "acme") (log woken).
Proof.
  split; [vm_compute; reflexivity|].
  destruct (@restore_order demo_tenant_env demo_tenant_laws "acme" OpWake (demo_manager (sleeping_doc None)) eq_refl)
    as (l & Hl & He). unfold woken. rewrite Hl. exact He.
Defined.

Lemma sleep_after_cutover_witness :
  each (sleep_step "acme" None) (log (@Sleep demo_tenant_env "acme" (Some 2000) true false (demo_manager other_doc)).1).
Proof.
  destruct (@sleep_after_cutover demo_tenant_env demo_tenant_laws "acme" (demo_manager other_doc) (Some 2000) true false
    (demo_rely "acme") eq_refl) as [(l & Hl & He) _].
  - intros H. exfalso. apply H. reflexivity.
  - rewrite Hl. exact He.
Defined.

Lemma sleep_wake_roundtrip_witness :
  doc (@Wake demo_tenant_env "acme" (@Sleep demo_tenant_env "acme" (Some 2000) true false (demo_manager other_doc)).1).1 = other_doc.
Proof.
  pose proof (@sleep_wake_roundtrip demo_tenant_env demo_tenant_laws demo_quiet "acme" (Some 2000) true
    (demo_manager other_doc) (demo_leading other_doc) eq_refl) as H.
  destruct (@Sleep demo_tenant_env "acme" (Some 2000) true false (demo_manager other_doc)) as [m1 r1].
  destruct H as (_ & _ & _ & _ & _ & H). simpl. destruct (@Wake demo_tenant_env "acme" m1) as [m2 r2]. apply H.
Defined.

(** Resumed after [acme] was woken. *)
Lemma resume_sleeps_awake_tenant_witness :
  Status (@resumeTenant demo_tenant_env "acme" (demo_manager other_doc)).1 "acme" = (true, None).
Proof.
  pose proof (@resume_sleeps_awake_tenant demo_tenant_env demo_tenant_laws demo_quiet "acme" (demo_manager other_doc) ∅
    (demo_leading other_doc) (or_introl eq_refl)) as H.
  destruct (@resumeTenant demo_tenant_env "acme" (demo_manager other_doc)) as [m1 r1]. apply H.
Defined.

(** What a failed restoration leaves. *)
Definition failed_restore : stateDocument :=
  {[ "acme" := mkTenantState None (Some (mkTransitionProgress None (Some 900) true true)) false ]}.

Lemma sleep_after_failed_restore_witness :
  TargetRegistrationBlocked (@Sleep demo_tenant_env "acme" None false false (demo_manager failed_restore)).1 "acme" = false.
Proof.
  pose proof (@sleep_after_failed_restore demo_tenant_env demo_tenant_laws demo_quiet "acme" None (demo_manager failed_restore)
    (mkTransitionProgress None (Some 900) true true) 900 (demo_leading failed_restore) eq_refl eq_refl eq_refl eq_refl eq_refl) as H.
  destruct (@Sleep demo_tenant_env "acme" None false false (demo_manager failed_restore)) as [m1 r1]. apply H.
Defined.

Lemma timer_wakes_when_due_witness :
  doc (@wakeIfDue demo_tenant_env 1 "acme" 900 (demo_manager (sleeping_doc (Some 900)))).1 = ∅.
Proof.
  pose proof (@timer_wakes_when_due demo_tenant_env demo_tenant_laws 1 "acme" 900 (demo_manager (sleeping_doc (Some 900)))) as [_ H].
  destruct (H demo_quiet) as [H1 _]; [|reflexivity|reflexivity|intros n; simpl; lia|rewrite H1; reflexivity].
  split_and!; [done|reflexivity|]. apply (install_timed 1000 false _ (demo_manager ∅)).
Defined.
End TenantStateWitnesses.
