(* ===== verification/OperatorApi.v ===== *)
(** * The operator API ([src/internal/server/api/operator])

    The calls an operator makes on instances and on its tenant's sleep state.  Every
    handler takes the tenant from the caller's certificate ([ClientInfo]), checks
    the request, calls the instance manager or the tenant state, and maps their
    errors to status codes.  The instance handlers run over the reconciler's state,
    since an acknowledged drain is an event; the tenant handlers over the tenant
    state and the listener activity.

    [src/internal/server/listeneractivity/tracker.go] is modelled with them. *)

From S2P Require Import Prelude Provider LocalDB Config World Instances Reconciler Certificates Document TenantState.

(** ** Instances *)

(** [tenantState] in [CreateInstance]: [CreateOnDemand] refuses before it runs the
    callback, or runs it and returns its error. *)
Class TenantGate := mkTenantGate {
  tg_present : bool;
  tg_refuses : nat -> string -> option err;
}.

(** [proto.InstanceConfig]. *)
Record InstanceConfig := mkInstanceConfig {
  icf_group : string;
  icf_template : string;
  icf_instance_type : string;
  icf_subnet_pool : string;
  icf_vars : gmap string string;
}.

(** [proto.InstanceStatusResponse]. *)
Record InstanceStatusResponse := mkInstanceStatusResponse {
  isr_instance_id : string;
  isr_status : string;
  isr_provider_instance_id : string;
  isr_created_at : Z;
  isr_last_seen : Z;
}.

Definition tenantInstanceError {A} (e : err) : rpc A :=
  if err_is e ErrNoRows then Fail NotFound "instance not found"
  else if err_is e ErrInstanceTenantMismatch then Fail PermissionDenied "instance belongs to another tenant"
  else Fail Internal "failed to get instance".

Section InstanceCalls.
Context `{Env} `{TenantGate}.

Definition GetInstanceStatus (info : ClientInfo) (instanceID : string) : M RState (rpc InstanceStatusResponse) :=
  if bool_decide (instanceID = "") then mret (Fail InvalidArgument "instance_id is required")
  else
    r ← lift (Instances.GetInstanceStatus (ci_tenant info) instanceID);
    match r with
    | Err e =>
        if err_is e ErrNoRows || err_is e ErrInstanceTenantMismatch then mret (tenantInstanceError e)
        else mret (Fail Internal "failed to get instance status")
    | Ok (st, _, createdAt) =>
        now ← lift time_now;
        mret (Reply (mkInstanceStatusResponse instanceID (st_status st) (st_provider_instance_id st) createdAt now))
    end.

(** The status of the response. *)
Definition DeleteInstance (info : ClientInfo) (instanceID : string) : M RState (rpc string) :=
  if bool_decide (instanceID = "") then mret (Fail InvalidArgument "instance_id is required")
  else
    r ← lift (Instances.GetInstanceStatus (ci_tenant info) instanceID);
    match r with
    | Err e =>
        if err_is e ErrInstanceTenantMismatch then mret (tenantInstanceError e)
        else mret (Reply StatusUnknown)
    | Ok (st, _, _) =>
        if bool_decide (st_status st = StatusDeleted) || bool_decide (st_status st = StatusDeleting)
        then mret (Reply (st_status st))
        else
          d ← lift (Instances.DeleteInstance (ci_tenant info) instanceID);
          match d with
          | Err e =>
              if err_is e ErrInstanceTenantMismatch then mret (tenantInstanceError e)
              else mret (Fail Internal "failed to delete instance")
          | Ok _ => mret (Reply StatusDeleting)
          end
    end.

(** [onDrainAcked] enqueues an event for the reconciler. *)
Definition AcknowledgeDrained (info : ClientInfo) (instanceID : string) : M RState (rpc unit) :=
  if bool_decide (instanceID = "") then mret (Fail InvalidArgument "instance_id is required")
  else
    r ← lift (ValidateInstanceTenant (ci_tenant info) instanceID);
    match r with
    | Err e => mret (tenantInstanceError e)
    | Ok _ =>
        now ← lift time_now;
        _ ← Enqueue (mkEvent EventDrainAcked (ci_tenant info) "" instanceID now false "" 0);
        mret (Reply tt)
    end.

(** [create] run directly or by [CreateOnDemand]. *)
Definition create_admitted (hasPreparer : bool) (req : CreateInstanceRequest) : M RState (res CreateInstanceResponse) :=
  if tg_present then
    refused ← lift (observe (fun n => tg_refuses n (cr_tenant req)));
    match refused with
    | Some e => mret (Err e)
    | None => lift (Instances.CreateInstance hasPreparer req)
    end
  else lift (Instances.CreateInstance hasPreparer req).

(** The instance identifier and status of the response; the request is absent when
    the message is nil. *)
Definition CreateInstance (hasPreparer : bool) (info : ClientInfo) (req : option (string * option InstanceConfig))
    : M RState (rpc (string * string)) :=
  match req with
  | None => mret (Fail InvalidArgument "request is required")
  | Some (_, None) => mret (Fail InvalidArgument "instance config is required")
  | Some (instanceID, Some config) =>
      if bool_decide (icf_group config = "") then mret (Fail InvalidArgument "group is required")
      else
        r ← create_admitted hasPreparer
              (mkCreateInstanceRequest instanceID (icf_group config) (ci_tenant info) (icf_template config)
                 (icf_instance_type config) (icf_subnet_pool config) (icf_vars config) ∅ true);
        mret match r with
        | Err e =>
            if err_is e ErrInactive || err_is e ErrCanceled then Fail Unavailable "shard leadership changed"
            else Fail Internal "failed to create instance"
        | Ok resp => Reply (rs_instance_id resp, rs_status resp)
        end
  end.

(** A call of an operator on instances. *)
Inductive InstanceCall :=
  | CallGet (instanceID : string)
  | CallDelete (instanceID : string)
  | CallAcknowledge (instanceID : string)
  | CallCreate (hasPreparer : bool) (req : option (string * option InstanceConfig)).

Definition run_call (info : ClientInfo) (c : InstanceCall) : M RState unit :=
  match c with
  | CallGet id => _ ← GetInstanceStatus info id; mret tt
  | CallDelete id => _ ← DeleteInstance info id; mret tt
  | CallAcknowledge id => _ ← AcknowledgeDrained info id; mret tt
  | CallCreate hp req => _ ← CreateInstance hp info req; mret tt
  end.
End InstanceCalls.

(** ** Listener activity *)

Record Observation := mkObservation {
  ob_last_active : Z;
  ob_available : bool;
}.

(** Tenant, listener and instance. *)
Definition Tracker : Type := gmap string (gmap string (gmap string Observation)).

Definition Tracker_Update (tenant listener instanceID : string) (active available : bool) (observedAt : Z)
    (t : Tracker) : Tracker :=
  let listeners := default ∅ (t !! tenant) in
  let instances := default ∅ (listeners !! listener) in
  let lastActive :=
    match instances !! instanceID with
    | Some previous => if active || negb available || negb (ob_available previous) then observedAt else ob_last_active previous
    | None => observedAt
    end in
  <[tenant := <[listener := <[instanceID := mkObservation lastActive available]> instances]> listeners]> t.

Definition Snapshot (tenant : string) (t : Tracker) : gmap string (gmap string Observation) := default ∅ (t !! tenant).

Definition Reset (tenant : string) (t : Tracker) : Tracker := delete tenant t.

(** ** Tenants *)

Record TenantApi := mkTenantApi {
  ta_manager : Manager;
  ta_activity : Tracker;
}.

Definition on_manager {A} (m : M Manager A) : M TenantApi A :=
  fun s => let '(t, a) := m (ta_manager s) in (mkTenantApi t (ta_activity s), a).

Definition reset_activity (tenant : string) : M TenantApi unit :=
  fun s => ({| s with ta_activity := Reset tenant (ta_activity s) |}, tt).

(** [proto.SleepTenantRequest]; [wakeAt] is [Some None] when the timestamp is not
    valid. *)
Record SleepTenantRequest := mkSleepTenantRequest {
  sr_tenant : string;
  sr_wake_at : option (option Z);
  sr_if_not_busy : bool;
}.

(** [proto.WakeTenantRequest]. *)
Record WakeTenantRequest := mkWakeTenantRequest {
  wr_tenant : string;
  wr_listener : option string;
}.

Inductive SleepResult := ResultSlept | ResultAlreadyAsleep | ResultBusy.
Inductive WakeResult := ResultWoke | ResultAlreadyAwake.

Section TenantCalls.
Context `{TenantEnv}.

(** [sleepReady]; [tenantState != nil]. *)
Context (sleepReady hasTenantState : bool).

Definition authorizedTenant (info : ClientInfo) (requested : string) : rpc string :=
  if bool_decide (requested = "") then Fail InvalidArgument "tenant is required"
  else match Config.Validate "tenant ID" requested with
  | Err _ => Fail InvalidArgument "invalid tenant"
  | Ok _ =>
      if bool_decide (ci_tenant info ≠ requested)
      then Fail PermissionDenied "tenant does not match operator certificate"
      else Reply requested
  end.

(** The callback given to [Sleep] asks the local database for on-demand instances of
    the tenant and fails with [ErrSleepBlocked] or the database's error
    ([te_callback]). *)
Definition SleepTenant (info : ClientInfo) (req : option SleepTenantRequest) : M TenantApi (rpc (SleepResult * option Z)) :=
  match req with
  | None => mret (Fail InvalidArgument "request is required")
  | Some req =>
      match authorizedTenant info (sr_tenant req) with
      | Fail c m => mret (Fail c m)
      | Reply tenant =>
          if negb sleepReady then mret (Fail FailedPrecondition "tenant sleep is unavailable until provider cutover is configured")
          else if negb hasTenantState then mret (Fail FailedPrecondition "tenant state is unavailable")
          else match sr_wake_at req with
          | Some None => mret (Fail InvalidArgument "invalid wake_at")
          | wakeAt =>
              r ← on_manager (Sleep tenant (mjoin wakeAt) (sr_if_not_busy req) true);
              mret match r with
              | Err e =>
                  if err_is e ErrSleepBlocked || err_is e ErrBusy then Reply (ResultBusy, None)
                  else if err_is e ErrInactive || err_is e ErrCanceled then Fail Unavailable "shard leadership changed"
                  else Fail Internal "failed to begin tenant sleep"
              | Ok (alreadyAsleep, effectiveWakeAt) =>
                  Reply (if (alreadyAsleep : bool) then ResultAlreadyAsleep else ResultSlept, effectiveWakeAt)
              end
          end
      end
  end.

Definition WakeTenant (info : ClientInfo) (req : option WakeTenantRequest) : M TenantApi (rpc WakeResult) :=
  match req with
  | None => mret (Fail InvalidArgument "request is required")
  | Some req =>
      match authorizedTenant info (wr_tenant req) with
      | Fail c m => mret (Fail c m)
      | Reply tenant =>
          if negb sleepReady then mret (Fail FailedPrecondition "tenant wake is unavailable until provider cutover is configured")
          else if bool_decide (is_Some (wr_listener req))
          then mret (Fail FailedPrecondition "listener-scoped wake is not available until proxy listeners are configured")
          else if negb hasTenantState then mret (Fail FailedPrecondition "tenant state is unavailable")
          else
            r ← on_manager (Wake tenant);
            match r with
            | Err e =>
                mret (if err_is e ErrInactive || err_is e ErrCanceled then Fail Unavailable "shard leadership changed"
                      else Fail Internal "failed to persist tenant wake state")
            | Ok alreadyAwake =>
                _ ← reset_activity tenant;
                mret (Reply (if (alreadyAwake : bool) then ResultAlreadyAwake else ResultWoke))
            end
      end
  end.
End TenantCalls.
