(* ===== verification/OperatorApiFacts.v ===== *)
(** * Theorems about the operator API

    What an operator's calls can reach: nothing of another tenant.  And one case in
    which a failed deletion is reported as done. *)

From S2P Require Import Prelude Provider LocalDB LocalDBFacts Config World Instances InstancesFacts Reconciler ReconcilerFacts Certificates Document TenantState TenantStateFacts OperatorApi.
Import LocalDB.

Section Confined.
Context {HE : Env} {HG : TenantGate}.

(** An action an operator of [t] may cause: a VM is created for a row of the tenant
    that did not exist before and deleted for a live row of the tenant. *)
Definition action_of (t : string) (w w' : World) (a : Action) : Prop :=
  match a with
  | ActProviderCreate preq =>
      (pq_instance_id preq ∉ (i_id <$> instances (w_db w))) /\
      exists row, row ∈ instances (w_db w') /\ i_id row = pq_instance_id preq /\ i_tenant row = t
  | ActProviderDelete id _ => exists inst, GetInstance id (w_db w) = Ok inst /\ i_tenant inst = t
  | _ => True
  end.

(** The effect of a call on the world: live instances of other tenants stay as they
    are, and the actions are the tenant's. *)
Definition confined (t : string) (w w' : World) : Prop :=
  (forall id inst, GetInstance id (w_db w) = Ok inst -> i_tenant inst ≠ t -> GetInstance id (w_db w') = Ok inst) /\
  (exists l, w_trace w' = w_trace w ++ l /\ Forall (action_of t w w') l).

Lemma same_state_confined t w w' : same_state w w' -> confined t w w'.
Proof. intros (Hd & _ & Ht). split; [by rewrite Hd|]. exists []. by rewrite app_nil_r. Qed.

(** New rows do not hide another one. *)
Lemma GetInstance_app id inst extra db :
  GetInstance id db = Ok inst -> GetInstance id (with_instances (instances db ++ extra) db) = Ok inst.
Proof.
  unfold GetInstance, sel. simpl. rewrite filter_app.
  by destruct (filter (fun r => live_id id r = true) (instances db)).
Qed.

(** A step that only adds rows. *)
Definition grown (t : string) (w w' : World) : Prop :=
  exists extra l, w_db w' = with_instances (instances (w_db w) ++ extra) (w_db w) /\
    w_trace w' = w_trace w ++ l /\ Forall (action_of t w w') l /\ Forall (fun a => forall id pid, a ≠ ActProviderDelete id pid) l.

Lemma grown_confined t w w' : grown t w w' -> confined t w w'.
Proof.
  intros (extra & l & Hd & Ht & Hl & _). split; [|by eauto]. intros id inst Hg _. rewrite Hd. by apply GetInstance_app.
Qed.

Lemma same_state_grown t w w' : same_state w w' -> grown t w w'.
Proof. intros (Hd & _ & Ht). exists [], []. rewrite Hd, Ht. split_and!; [apply with_instances_nil|by rewrite app_nil_r|done|done]. Qed.

Lemma grown_trans t w w1 w' : grown t w w1 -> grown t w1 w' -> grown t w w'.
Proof.
  intros (e1 & l1 & Hd1 & Ht1 & Hl1 & Hn1) (e2 & l2 & Hd2 & Ht2 & Hl2 & Hn2). exists (e1 ++ e2), (l1 ++ l2).
  assert (w_db w' = with_instances (instances (w_db w) ++ e1 ++ e2) (w_db w)) as Hd
    by (rewrite Hd2, Hd1; apply with_instances_twice).
  split_and!; [done|by rewrite Ht2, Ht1, app_assoc| |by apply Forall_app]. apply Forall_app. split.
  - eapply Forall_impl; [exact Hl1|]. intros a Ha. destruct a; simpl in *; try done.
    destruct Ha as (Hf & row & Hin & Hrow). split; [done|]. exists row. split; [|done].
    rewrite Hd. rewrite Hd1 in Hin. simpl in *. set_solver.
  - apply Forall_forall. intros a Ha. rewrite Forall_forall in Hl2, Hn2. specialize (Hl2 a Ha). specialize (Hn2 a Ha).
    destruct a; simpl in *; try done.
    + destruct Hl2 as [Hf Hrow]. split; [|done]. rewrite Hd1 in Hf. simpl in Hf. set_solver.
    + by destruct (Hn2 instanceID providerID).
Qed.

Lemma outcome_grown req w w' r : create_outcome req w w' r -> grown (cr_tenant req) w w'.
Proof.
  intros [e Hs _|e preq row Htr _ _ Hd _ Ht _|preq row key rest rec Htr Hf Hd Ht Hrest _ _ _ _ _].
  - by apply same_state_grown.
  - exists [row], []. rewrite app_nil_r. done.
  - exists [row], (ActStoragePut key :: ActProviderCreate preq :: rest).
    assert (forall a, a ∈ rest -> a = ActStoragePut key) as Hr
      by (intros a Ha%Hrest; by apply list_elem_of_singleton in Ha).
    split_and!; [done|done| |].
    + constructor; [done|]. constructor.
      * simpl. rewrite <-(tr_id _ _ _ Htr). split; [done|]. exists row. rewrite Hd. simpl.
        split_and!; [set_solver|done|apply Htr].
      * apply Forall_forall. by intros a ->%Hr.
    + do 2 (constructor; [done|]). apply Forall_forall. by intros a ->%Hr.
Qed.

Lemma nat_creations_grown t w w' : nat_creations t w w' -> grown t w w'.
Proof.
  induction 1 as [w w' Hs|req w w1 w2 w' r _ IH <- _ Hr Hs]; [by apply same_state_grown|].
  eapply grown_trans; [exact IH|]. eapply grown_trans; [|by apply same_state_grown].
  apply CreateNATInstance_run in Hr as [Ho _]. by eapply outcome_grown.
Qed.

Lemma create_confined hp req w w' r :
  Instances.CreateInstance hp req w = (w', r) -> confined (cr_tenant req) w w'.
Proof.
  intros (w1 & Hn & _ & Ho)%createInstance_run. apply grown_confined.
  eapply grown_trans; [by apply nat_creations_grown|by eapply outcome_grown].
Qed.

Lemma delete_confined t id w w' r : Instances.DeleteInstance t id w = (w', r) -> confined t w w'.
Proof.
  intros Hr%DeleteInstance_run.
  assert (forall inst id' inst', GetInstance id (w_db w) = Ok inst -> i_tenant inst = t ->
    GetInstance id' (w_db w) = Ok inst' -> i_tenant inst' ≠ t -> id' ≠ id) as Hother by naive_solver congruence.
  destruct Hr as [e Hs _|e inst l Hg Ht [Htr Hl] _ Ho _|inst pid l rest n m Hg Ht _ _ Htr Hl Hrest _ _ Ho _ _].
  - by apply same_state_confined.
  - split; [intros id' inst' Hg' Hne; rewrite Ho; eauto|]. exists l. split; [done|].
    eapply Forall_impl; [exact Hl|]. by intros [].
  - split; [intros id' inst' Hg' Hne; rewrite Ho; eauto|].
    exists (l ++ ActProviderDelete id pid :: rest). split; [done|]. apply Forall_app. split.
    + eapply Forall_impl; [exact Hl|]. by intros [].
    + constructor; [by exists inst|]. eapply Forall_impl; [exact Hrest|]. by intros [].
Qed.

Lemma silent_GetInstanceStatus t id : silent (Instances.GetInstanceStatus t id).
Proof. unfold Instances.GetInstanceStatus. prog. Qed.

(** What validating an instance of the tenant establishes. *)
Lemma ValidateInstanceTenant_run t id w w' r :
  ValidateInstanceTenant t id w = (w', r) ->
  same_state w w' /\ (r = Ok tt -> exists inst, GetInstance id (w_db w) = Ok inst /\ i_tenant inst = t).
Proof.
  unfold ValidateInstanceTenant. intros Hr. run_bind Hr as w1 g H1. apply dbq_run in H1 as [Hs Hq].
  destruct g as [inst|e]; [|by injection Hr as <- <-].
  destruct (negb _) eqn:Ht; injection Hr as <- <-; (split; [done|]); [done|]. intros _.
  apply negb_false_iff, bool_decide_eq_true in Ht.
  destruct Hq as [(? & ? & _ & ?)|[now Hq]]; [done|]. eauto.
Qed.

(** An event for an instance of the tenant. *)
Definition event_of (t : string) (w : World) (ev : ReconcileEvent) : Prop :=
  ev_type ev = EventDrainAcked /\ ev_tenant ev = t /\
  exists inst, GetInstance (ev_instance_id ev) (w_db w) = Ok inst /\ i_tenant inst = t.

Lemma Enqueue_run ev s s' u :
  Enqueue ev s = (s', u) ->
  same_state (rs_world s) (rs_world s') /\
  (rs_queue s' = rs_queue s \/ exists term, rs_queue s' = rs_queue s ++ [(ev, term)]).
Proof.
  unfold Enqueue. rewrite !M_bind_eq, lift_eq. simpl.
  destruct (full s); [|destruct (_ && _)]; intros [= <- <-]; simpl; (split; [done|]); eauto.
Qed.

(** A handler that only runs a manager call. *)
Lemma lift_confined {A} t (m : M World A) s s' a :
  (forall w w' r, m w = (w', r) -> confined t w w') -> lift m s = (s', a) ->
  confined t (rs_world s) (rs_world s') /\ rs_queue s' = rs_queue s.
Proof. intros Hm (w' & Hr & ->)%lift_run. simpl. eauto. Qed.

Lemma lift_silent {A} (m : M World A) s s' a :
  silent m -> lift m s = (s', a) -> same_state (rs_world s) (rs_world s') /\ rs_queue s' = rs_queue s.
Proof. intros Hm (w' & Hr & ->)%lift_run. simpl. split; [by eapply silent_run|done]. Qed.

Lemma confined_silent t w w1 w' : same_state w w1 -> confined t w1 w' -> confined t w w'.
Proof. intros (Hd & _ & Ht) [Hg (l & Hl & Ha)]. unfold confined, action_of in *. rewrite <-Hd, <-Ht. eauto. Qed.

(** The outcome of a call. *)
Definition call_confined (t : string) (s s' : RState) : Prop :=
  confined t (rs_world s) (rs_world s') /\
  (rs_queue s' = rs_queue s \/
   exists ev term, rs_queue s' = rs_queue s ++ [(ev, term)] /\ event_of t (rs_world s) ev).

Lemma GetInstanceStatus_confined info id s s' r :
  OperatorApi.GetInstanceStatus info id s = (s', r) -> same_state (rs_world s) (rs_world s') /\ rs_queue s' = rs_queue s.
Proof.
  unfold OperatorApi.GetInstanceStatus. intros Hr. case_bool_decide; [by injection Hr as <- <-|].
  run_bind Hr as s1 st H1. apply lift_silent in H1 as [Hs Hq]; [|apply silent_GetInstanceStatus].
  destruct st as [[[st g] c]|e]; [|destruct (_ || _); by injection Hr as <- <-].
  run_bind Hr as s2 now H2. apply lift_silent in H2 as [Hs2 Hq2]; [|auto with world].
  injection Hr as <- <-. split; [by eapply same_state_trans|congruence].
Qed.

Lemma DeleteInstance_confined info id s s' r :
  OperatorApi.DeleteInstance info id s = (s', r) -> call_confined (ci_tenant info) s s'.
Proof.
  unfold OperatorApi.DeleteInstance. intros Hr.
  case_bool_decide; [injection Hr as <- <-; split; [by apply same_state_confined|by left]|].
  run_bind Hr as s1 st H1. apply lift_silent in H1 as [Hs Hq]; [|apply silent_GetInstanceStatus].
  destruct st as [[[st g] c]|e];
    [|destruct (err_is _ _); injection Hr as <- <-; (split; [by apply same_state_confined|by left])].
  destruct (_ || _).
  - injection Hr as <- <-. split; [by apply same_state_confined|by left].
  - run_bind Hr as s2 d H2. apply (lift_confined (ci_tenant info)) in H2 as [Hc Hq2]; [|apply delete_confined].
    assert (call_confined (ci_tenant info) s s2) as Hcc.
    { split; [by eapply confined_silent|left; congruence]. }
    destruct d; [by injection Hr as <- <-|]. destruct (err_is _ _); by injection Hr as <- <-.
Qed.

Lemma AcknowledgeDrained_confined info id s s' r :
  OperatorApi.AcknowledgeDrained info id s = (s', r) -> call_confined (ci_tenant info) s s'.
Proof.
  unfold OperatorApi.AcknowledgeDrained. intros Hr.
  case_bool_decide; [injection Hr as <- <-; split; [by apply same_state_confined|by left]|].
  run_bind Hr as s1 v H1. apply lift_run in H1 as (w1 & H1 & ->). apply ValidateInstanceTenant_run in H1 as [Hs Hv].
  destruct v as [[]|e]; [|injection Hr as <- <-; split; [by apply same_state_confined|by left]].
  run_bind Hr as s2 now H2. apply lift_silent in H2 as [Hs2 Hq2]; [|auto with world].
  run_bind Hr as s3 u H3. apply Enqueue_run in H3 as [Hs3 Hq3]. injection Hr as <- <-.
  split; [eapply same_state_confined, same_state_trans, same_state_trans; [exact Hs|exact Hs2|exact Hs3]|].
  destruct Hq3 as [Hq3|[term Hq3]]; rewrite Hq3, Hq2; [by left|]. right. do 2 eexists. split; [done|].
  split; [done|]. split; [done|]. by apply Hv.
Qed.

Lemma CreateInstance_confined hp info req s s' r :
  OperatorApi.CreateInstance hp info req s = (s', r) -> call_confined (ci_tenant info) s s'.
Proof.
  unfold OperatorApi.CreateInstance. intros Hr.
  destruct req as [[id [config|]]|]; [|injection Hr as <- <-; split; [by apply same_state_confined|by left]..].
  case_bool_decide; [injection Hr as <- <-; split; [by apply same_state_confined|by left]|].
  run_bind Hr as s1 c H1. injection Hr as <- <-. unfold create_admitted in H1.
  destruct tg_present; [run_bind H1 as s2 refused H2;
    apply lift_silent in H2 as [Hs2 Hq2]; [|auto with world];
    destruct refused as [e|]; [injection H1 as <- <-; split; [by apply same_state_confined|left; congruence]|]|].
  - eapply (lift_confined (ci_tenant info)) in H1 as [Hc Hq]; [|intros w w' x; by apply create_confined].
    split; [by eapply confined_silent|left; congruence].
  - eapply (lift_confined (ci_tenant info)) in H1 as [Hc Hq]; [|intros w w' x; by apply create_confined].
    split; [done|by left].
Qed.

(** An operator reaches nothing of another tenant: whatever it asks for and
    whatever fails, a call on instances leaves every live instance of the other
    tenants exactly as it was; VMs are created only for new rows of the tenant in
    the caller's certificate and deleted only for its live instances; and the only
    event it causes is for an instance of its tenant. *)
Theorem operator_calls_confined info c s :
  let t := ci_tenant info in
  let s' := (run_call info c s).1 in
  (forall id inst, GetInstance id (w_db (rs_world s)) = Ok inst -> i_tenant inst ≠ t ->
     GetInstance id (w_db (rs_world s')) = Ok inst) /\
  (exists l, w_trace (rs_world s') = w_trace (rs_world s) ++ l /\
     Forall (action_of t (rs_world s) (rs_world s')) l) /\
  (rs_queue s' = rs_queue s \/
   exists ev term, rs_queue s' = rs_queue s ++ [(ev, term)] /\ event_of t (rs_world s) ev).
Proof.
  cbn zeta. cut (call_confined (ci_tenant info) s (run_call info c s).1); [by intros [[? ?] ?]|].
  destruct c as [id|id|id|hp req]; unfold run_call; rewrite M_bind_eq; simpl.
  - destruct (OperatorApi.GetInstanceStatus info id s) as [s' r] eqn:Hr. apply GetInstanceStatus_confined in Hr as [Hs Hq].
    split; [by apply same_state_confined|by left].
  - destruct (OperatorApi.DeleteInstance info id s) as [s' r] eqn:Hr. by eapply DeleteInstance_confined.
  - destruct (OperatorApi.AcknowledgeDrained info id s) as [s' r] eqn:Hr. by eapply AcknowledgeDrained_confined.
  - destruct (OperatorApi.CreateInstance hp info req s) as [s' r] eqn:Hr. by eapply CreateInstance_confined.
Qed.

(** A deletion that could not be tried is reported as done: when the provider's
    status of a live instance of the caller's tenant cannot be read, the call
    succeeds with status unknown, as for an instance that does not exist, and the
    instance and its VM stay. *)
Theorem delete_failure_reported_done info id inst pid s :
  (forall n, env_db_fault n = None) -> id ≠ "" ->
  GetInstance id (w_db (rs_world s)) = Ok inst -> i_tenant inst = ci_tenant info ->
  i_provider_id inst = Some pid -> pid ≠ "" ->
  (forall n, exists e, env_provider_status n id pid = Err e /\ err_is e ErrInstanceTenantMismatch = false) ->
  (OperatorApi.DeleteInstance info id s).2 = Reply StatusUnknown /\
  same_state (rs_world s) (rs_world (OperatorApi.DeleteInstance info id s).1) /\
  GetInstance id (w_db (rs_world (OperatorApi.DeleteInstance info id s).1)) = Ok inst.
Proof.
  intros Hdb Hid Hg Ht Hpid Hne Hst. unfold OperatorApi.DeleteInstance. rewrite bool_decide_false by done.
  rewrite M_bind_eq, lift_eq. simpl. unfold Instances.GetInstanceStatus. rewrite M_bind_eq.
  destruct (dbq _ (rs_world s)) as [w1 g] eqn:H1. apply dbq_run in H1 as [Hs1 Hq]. simpl.
  destruct Hq as [(n & e & Hf & _)|(_ & ->)]; [by rewrite Hdb in Hf|]. rewrite Hg, Ht, bool_decide_true, Hpid by done. simpl.
  destruct pid as [|a pid]; [done|]. rewrite M_bind_eq. simpl.
  destruct (Hst (w_tick w1)) as (e & -> & He). simpl. rewrite He. simpl.
  split; [done|]. assert (same_state (rs_world s) {| w1 with w_tick := S (w_tick w1) |}) as Hs by exact Hs1.
  split; [done|]. by rewrite (proj1 Hs1).
Qed.
End Confined.

(** ** Tenants *)

Section TenantsConfined.
Context {HT : TenantEnv} {HL : DocLaws stateDocument}.
Context (sleepReady hasTenantState : bool).

(** A call on the sleep state of a tenant. *)
Inductive TenantCall :=
  | CallSleep (req : option SleepTenantRequest)
  | CallWake (req : option WakeTenantRequest).

(** The tenant a call asks for, if any. *)
Definition requested_of (c : TenantCall) : option string :=
  match c with
  | CallSleep req => sr_tenant <$> req
  | CallWake req => wr_tenant <$> req
  end.

Definition run_tenant_call (info : ClientInfo) (c : TenantCall) : M TenantApi bool :=
  match c with
  | CallSleep req => x ← SleepTenant sleepReady hasTenantState info req; mret (match x with Reply _ => true | _ => false end)
  | CallWake req => x ← WakeTenant sleepReady hasTenantState info req; mret (match x with Reply _ => true | _ => false end)
  end.

Lemma authorizedTenant_Reply info requested tenant :
  authorizedTenant info requested = Reply tenant -> tenant = requested /\ ci_tenant info = requested.
Proof. unfold authorizedTenant. repeat case_match; intros ?; simplify_eq. by case_bool_decide. Qed.

(** What the tenant state logs for a call. *)
Lemma on_manager_isolated {A} t (m : M Manager A) s s' a :
  emits (Forall (keeps_others t)) m -> on_manager m s = (s', a) ->
  ta_activity s' = ta_activity s /\
  exists l, log (ta_manager s') = log (ta_manager s) ++ l /\ Forall (keeps_others t) l.
Proof.
  intros Hm. unfold on_manager. pose proof (Hm (ta_manager s)) as Hl.
  destruct (m (ta_manager s)) as [t' x]. intros [= <- <-]. done.
Qed.

Definition tenant_confined (t : string) (s s' : TenantApi) : Prop :=
  (exists l, log (ta_manager s') = log (ta_manager s) ++ l /\ Forall (keeps_others t) l) /\
  (forall t', t' ≠ t -> ta_activity s' !! t' = ta_activity s !! t').

Lemma tenant_confined_refl t s : tenant_confined t s s.
Proof. split; [|done]. exists []. by rewrite app_nil_r. Qed.

(** A tenant operation run for its effect only. *)
Lemma emits_drop {A} Q (m : M Manager A) : emits Q (_ ← m; mret tt) -> emits Q m.
Proof. intros Hm x. specialize (Hm x). by rewrite M_bind_eq in Hm. Qed.

Lemma SleepTenant_confined info req s s' x :
  SleepTenant sleepReady hasTenantState info req s = (s', x) ->
  tenant_confined (ci_tenant info) s s' /\
  (sr_tenant <$> req ≠ Some (ci_tenant info) -> s' = s /\ exists c m, x = Fail c m).
Proof.
  unfold SleepTenant. destruct req as [[r w b]|]; simpl; [|intros [= <- <-]; split; [apply tenant_confined_refl|eauto]].
  destruct (authorizedTenant info r) as [t|c m] eqn:Ha;
    [|intros [= <- <-]; split; [apply tenant_confined_refl|eauto]].
  apply authorizedTenant_Reply in Ha as [-> Ht].
  destruct sleepReady, hasTenantState; simpl; try (intros [= <- <-]; split; [apply tenant_confined_refl|congruence]).
  intros Hr. destruct w as [[w|]|]; [| injection Hr as <- <-; split; [apply tenant_confined_refl|congruence] |];
    run_bind Hr as s1 y H1; injection Hr as <- <-;
    (apply (on_manager_isolated (ci_tenant info)) in H1 as [Hact Hl];
      [split; [split; [done|by rewrite Hact]|congruence]|]); rewrite Ht.
  - apply emits_drop, (run_op_isolated r (OpSleep (Some w) b true)).
  - apply emits_drop, (run_op_isolated r (OpSleep None b true)).
Qed.

Lemma WakeTenant_confined info req s s' x :
  WakeTenant sleepReady hasTenantState info req s = (s', x) ->
  tenant_confined (ci_tenant info) s s' /\
  (wr_tenant <$> req ≠ Some (ci_tenant info) -> s' = s /\ exists c m, x = Fail c m).
Proof.
  unfold WakeTenant. destruct req as [[r l]|]; simpl; [|intros [= <- <-]; split; [apply tenant_confined_refl|eauto]].
  destruct (authorizedTenant info r) as [t|c m] eqn:Ha;
    [|intros [= <- <-]; split; [apply tenant_confined_refl|eauto]].
  apply authorizedTenant_Reply in Ha as [-> Ht].
  destruct sleepReady; simpl; [|intros [= <- <-]; split; [apply tenant_confined_refl|congruence]].
  case_bool_decide; [intros [= <- <-]; split; [apply tenant_confined_refl|congruence]|].
  destruct hasTenantState; simpl; [|intros [= <- <-]; split; [apply tenant_confined_refl|congruence]].
  intros Hr. run_bind Hr as s1 y H1. apply (on_manager_isolated (ci_tenant info)) in H1 as [Hact Hl].
  - destruct y as [y|e]; [run_bind Hr as s2 u H2; injection H2 as <- _|]; injection Hr as <- <-;
      (split; [|congruence]); (split; [done|]); simpl; rewrite Hact; [|done].
    intros t' Hne. apply lookup_delete_ne. congruence.
  - rewrite Ht. apply emits_drop, (run_op_isolated r OpWake).
Qed.

(** The tenant of the certificate bounds sleep and wake: a request for another
    tenant is refused and changes nothing, and whatever a call writes, under
    concurrent writers and failures, keeps all other tenants' entries and listener
    observations. *)
Theorem tenant_calls_confined info c s :
  let t := ci_tenant info in
  let s' := (run_tenant_call info c s).1 in
  (requested_of c ≠ Some t -> s' = s /\ (run_tenant_call info c s).2 = false) /\
  (exists l, log (ta_manager s') = log (ta_manager s) ++ l /\ Forall (keeps_others t) l) /\
  (forall t', t' ≠ t -> ta_activity s' !! t' = ta_activity s !! t').
Proof.
  cbn zeta. destruct c as [req|req]; unfold run_tenant_call; rewrite M_bind_eq; simpl.
  - destruct (SleepTenant _ _ info req s) as [s' x] eqn:Hr.
    apply SleepTenant_confined in Hr as [[Hl Ha] Hne]. split; [|done]. intros Hx.
    by destruct (Hne Hx) as (-> & ? & ? & ->).
  - destruct (WakeTenant _ _ info req s) as [s' x] eqn:Hr.
    apply WakeTenant_confined in Hr as [[Hl Ha] Hne]. split; [|done]. intros Hx.
    by destruct (Hne Hx) as (-> & ? & ? & ->).
Qed.
End TenantsConfined.
