(* ===== verification/ManagedNat.v ===== *)
(** * Managed NAT ([src/internal/server/nat])

    [assignments.go]: the durable document of NAT instances, one entry per
    instance, changed by compare-and-swap.  [manager.go]: preparing a subnet before
    instances are created in it, create-before-destroy replacement, promotion,
    and removal of unused NAT instances.

    The local database is read as other goroutines left it ([ne_db]); the
    provider's routes and the instance manager are interfaces in the source and
    are answered by the environment; their calls are logged.  Comparing sampled
    utilisation with the configured thresholds is floating-point arithmetic and
    is a parameter ([ne_scale_up], [ne_scale_down]). *)

From S2P Require Import Prelude Provider LocalDB Config Document.
Import LocalDB.

Record Assignment := mkAssignment {
  as_tenant : string;
  as_instance_subnet_id : string;
  as_instance_id : string;
  as_instance_type : string;
  as_provider_id : string;
  as_public_address : option PublicAddress;
  as_empty_since : option Z;
  as_deleting : bool;
  as_retiring : bool;
  as_routed : bool;
  as_replaces : string;
  as_created_at : Z;
  as_last_scale_at : option Z;
}.

#[global] Instance Assignment_eq_dec : EqDecision Assignment.
Proof. solve_decision. Defined.

(** The zero value. *)
Definition zero_assignment : Assignment := mkAssignment "" "" "" "" "" None None false false false "" 0 None.

Abbreviation Assignments := (gmap string Assignment).

(** [provider.NATRouteRequest]. *)
Record NATRouteRequest := mkNATRouteRequest {
  rq_cluster_id : string;
  rq_tenant : string;
  rq_instance_subnet_id : string;
  rq_destination_cidr : string;
  rq_provider_instance_id : string;
  rq_previous_provider_instance_id : string;
  rq_public_address : option PublicAddress;
  rq_instance_tag : string;
}.

Inductive NatEvent :=
  | EnsuredRoute (req : NATRouteRequest) (r : res unit)
  | RemovedRoute (req : NATRouteRequest) (r : res unit)
  | CreatedNAT (id tenant group instanceType : string) (r : res unit)
  | DeletedNAT (tenant id : string) (r : res unit).

(** [metricSample]: when it was taken and the cumulated packet drops; the other
    readings only enter the threshold comparisons. *)
Record MetricSample := mkMetricSample { ms_at : Z; ms_drops : Z; ms_reading : nat }.

Record NatState := mkNatState {
  n_store : Store Assignments NatEvent;
  n_metrics : gmap string MetricSample;
  n_up_since : gmap string Z;
  n_down_since : gmap string Z;
}.

Class NatEnv := mkNatEnv {
  ne_doc :: DocEnv Assignments;
  ne_now : nat -> Z;
  ne_config : nat -> Config;
  ne_db : nat -> DB;
  ne_db_fault : nat -> option err;
  ne_asleep : nat -> string -> bool;
  ne_new_id : nat -> string -> res string;                (* puidv7.New *)
  ne_network_tag : string -> string -> string -> string;  (* provider.NATNetworkTag, sha256 *)
  ne_ensure_route : nat -> NATRouteRequest -> res unit;
  ne_remove_route : nat -> NATRouteRequest -> res unit;
  ne_create : nat -> string -> res unit;                  (* CreateNATInstance *)
  ne_delete : nat -> string -> res unit;                  (* DeleteInstance *)
  ne_rand : nat -> nat -> Z;                              (* map iteration order *)
  ne_scale_up : NATConfig -> MetricSample -> MetricSample -> bool;
  ne_scale_down : NATConfig -> MetricSample -> MetricSample -> bool;
}.

(** [for x := range m]: the remaining elements are visited in an order drawn at random. *)
Fixpoint draw_order {A} (fuel : nat) (rand : nat -> Z) (k : nat) (l : list A) : list A :=
  match fuel with
  | O => l
  | S fuel' =>
      let i := Z.to_nat (rand k `mod` Z.of_nat (length l)) in
      match l !! i with
      | None => l
      | Some x => x :: draw_order fuel' rand (S k) (take i l ++ drop (S i) l)
      end
  end.

Section Nat.
Context {HN : NatEnv}.

Definition values (tick : nat) (m : Assignments) : list Assignment :=
  draw_order (size m) (ne_rand tick) 0 (snd <$> map_to_list m).

Definition n_observe {A} (f : nat -> A) : M NatState A :=
  fun s => let '(st, a) := st_observe f (n_store s) in ({| s with n_store := st |}, a).

Definition on_doc {A} (x : M (Store Assignments NatEvent) A) : M NatState A :=
  fun s => let '(st, a) := x (n_store s) in ({| s with n_store := st |}, a).

Definition n_did (e : NatEvent) : M NatState unit := on_doc (st_did e).

(** ** assignments.go *)

Definition assignment_name : string := "NAT assignment state".

Definition load : M NatState (res (Assignments * string)) := on_doc (load_doc ∅ assignment_name).

(** [apply] sees the document and sets a variable of its caller; an unchanged
    document is not written back. *)
Fixpoint update_loop {A} (attempts : nat) (apply : nat -> Assignments -> A -> A * res Assignments) (acc : A) :
    M NatState (res unit * A) :=
  match attempts with
  | O => mret (Err (ErrMsg "update NAT assignment state: too many concurrent updates"), acc)
  | S n =>
      l ← load;
      match l with
      | Err e => mret (Err e, acc)
      | Ok (state, etag) =>
          tick ← gets (fun s => s_tick (n_store s));
          match apply tick state acc with
          | (acc', Err e) => mret (Err e, acc')
          | (acc', Ok state') =>
              if bool_decide (state' = state) then mret (Ok tt, acc')
              else
                p ← on_doc (storage_put_if_match state' etag);
                match p with
                | Err e => if err_is e ErrPrecondition then update_loop n apply acc'
                           else mret (Err (ErrWrap "write NAT assignment state" e), acc')
                | Ok _ => mret (Ok tt, acc')
                end
          end
      end
  end.

Definition update {A} (apply : nat -> Assignments -> A -> A * res Assignments) (acc : A) : M NatState (res unit * A) :=
  update_loop 8 apply acc.

Definition update_ (apply : Assignments -> res Assignments) : M NatState (res unit) :=
  r ← update (fun _ d (_ : unit) => (tt, apply d)) tt;
  mret (fst r).

(** The first configured address no assignment holds; none when none is configured. *)
Definition address_used (m : Assignments) (ip : string) : bool :=
  existsb (fun a => match as_public_address a with Some p => bool_decide (pa_ipv4 p = ip) | None => false end)
    (snd <$> map_to_list m).

Definition availableAddress (addresses : list PublicAddress) (m : Assignments) : res (option PublicAddress) :=
  match addresses with
  | [] => Ok None
  | _ => match filter (fun p => address_used m (pa_ipv4 p) = false) addresses with
         | p :: _ => Ok (Some p)
         | [] => Err ErrPublicAddressesExhausted
         end
  end.

Definition claim_apply (addresses : list PublicAddress) (tenant subnet id instanceType : string) (createdAt : Z)
    (_ : nat) (m : Assignments) (claimed : Assignment) : Assignment * res Assignments :=
  match m !! id with
  | Some existing => (existing, Ok m)
  | None =>
      match availableAddress addresses m with
      | Err e => (claimed, Err e)
      | Ok address =>
          let a := mkAssignment tenant subnet id instanceType "" address None false false false "" createdAt None in
          (a, Ok (<[id := a]> m))
      end
  end.

Definition Claim (addresses : list PublicAddress) (tenant subnet id instanceType : string) (createdAt : Z) :
    M NatState (res Assignment) :=
  if bool_decide (tenant = "") || bool_decide (subnet = "") || bool_decide (id = "")
  then mret (Err (ErrMsg "tenant, instance subnet, and instance are required"))
  else
    r ← update (claim_apply addresses tenant subnet id instanceType createdAt) zero_assignment;
    mret (match fst r with Err e => Err e | Ok _ => Ok (snd r) end).

Definition not_assigned (id : string) : err := ErrMsg ("NAT instance " ++ id ++ " is not assigned")%string.

Definition replacement_apply (current : Assignment) (id instanceType : string) (createdAt : Z)
    (tick : nat) (m : Assignments) (replacement : Assignment) : Assignment * res Assignments :=
  match m !! id with
  | Some existing => (existing, Ok m)
  | None =>
      match filter (fun a => as_replaces a = as_instance_id current) (values tick m) with
      | pending :: _ => (pending, Ok m)
      | [] =>
          match m !! as_instance_id current with
          | None => (replacement, Err (not_assigned (as_instance_id current)))
          | Some _ =>
              let a := mkAssignment (as_tenant current) (as_instance_subnet_id current) id instanceType ""
                         (as_public_address current) None false false false (as_instance_id current) createdAt None in
              (a, Ok (<[id := a]> m))
          end
      end
  end.

Definition ClaimReplacement (current : Assignment) (id instanceType : string) (createdAt : Z) : M NatState (res Assignment) :=
  r ← update (replacement_apply current id instanceType createdAt) zero_assignment;
  mret (match fst r with Err e => Err e | Ok _ => Ok (snd r) end).

Definition lifecycle_apply (id : string) (f : Assignment -> Assignment) (m : Assignments) : res Assignments :=
  match m !! id with
  | None => Err (not_assigned id)
  | Some a => Ok (<[id := f a]> m)
  end.

Definition Update (id : string) (f : Assignment -> Assignment) : M NatState (res unit) := update_ (lifecycle_apply id f).

Definition promote_apply (id : string) (scaledAt : Z) (m : Assignments) : res Assignments :=
  match m !! id with
  | None => Err (ErrMsg ("NAT instance " ++ id ++ " is not a replacement")%string)
  | Some r =>
      if bool_decide (as_replaces r = "") then Err (ErrMsg ("NAT instance " ++ id ++ " is not a replacement")%string)
      else
        match m !! as_replaces r with
        | None => Err (ErrMsg ("replaced NAT instance " ++ as_replaces r ++ " is not assigned")%string)
        | Some p =>
            let p' := {| p with as_retiring := true; as_routed := false |} in
            let r' := {| r with as_replaces := ""; as_routed := true; as_last_scale_at := Some scaledAt |} in
            Ok (<[as_instance_id r' := r']> (<[as_instance_id p' := p']> m))
        end
  end.

Definition Promote (id : string) (scaledAt : Z) : M NatState (res unit) := update_ (promote_apply id scaledAt).

Definition Release (id : string) : M NatState (res unit) := update_ (fun m => Ok (delete id m)).

Definition GetAssignments : M NatState (res Assignments) :=
  l ← load;
  mret (match l with Err e => Err e | Ok (d, _) => Ok d end).

(** ** manager.go *)

(** Reads of the local database; no live row is [None]. *)
Definition get_instance (id : string) : M NatState (res (option Instance)) :=
  fault ← n_observe ne_db_fault;
  match fault with
  | Some e => mret (Err e)
  | None =>
      db ← n_observe ne_db;
      mret (match GetInstance id db with Ok i => Ok (Some i) | Err _ => Ok None end)
  end.

Definition list_instances : M NatState (res (list Instance)) :=
  fault ← n_observe ne_db_fault;
  match fault with
  | Some e => mret (Err e)
  | None => db ← n_observe ne_db; mret (Ok (ListInstances db))
  end.

(** A missing instance, or a failure the provider confirmed. *)
Definition instanceFailed (i : option Instance) : bool :=
  match i with
  | None => true
  | Some i => match i_provider_state i with Some st => IsUnhealthy (st_status st) | None => false end
  end.

(** The provider identifier of a NAT instance that is ready to carry traffic. *)
Definition instanceReady (i : option Instance) (healthInterval now : Z) : option string :=
  match i with
  | Some i' =>
      if instanceFailed i then None
      else match i_provider_id i', i_registered_at i', i_health_at i' with
           | Some pid, Some _, Some h =>
               if bool_decide (healthInterval <= 0) || bool_decide (now - h < 3 * healthInterval) then Some pid else None
           | _, _, _ => None
           end
  | None => None
  end.

(** [cfg.Groups[tenant][key]] and the kind of its template: zero values when absent. *)
Definition nat_group_type (cfg : Config) (tenant key : string) : string :=
  match group_in (c_groups cfg) tenant key with Some g => gc_instance_type g | None => "" end.

Definition nat_group_kind (cfg : Config) (tenant key : string) : string :=
  match group_in (c_groups cfg) tenant key with
  | Some g => match c_templates cfg !! gc_template g with Some t => tc_kind t | None => "" end
  | None => match c_templates cfg !! "" with Some t => tc_kind t | None => "" end
  end.

Definition routeRequest (cfg : Config) (m : Assignments) (a : Assignment) : NATRouteRequest :=
  mkNATRouteRequest (c_cluster_id cfg) (as_tenant a) (as_instance_subnet_id a)
    (if bool_decide (nat_mode <$> c_nat cfg !! as_tenant a = Some "nat64") then "64:ff9b::/96" else "0.0.0.0/0")
    (as_provider_id a)
    (match m !! as_replaces a with Some p => as_provider_id p | None => "" end)
    (as_public_address a)
    (ne_network_tag (c_cluster_id cfg) (as_tenant a) (as_instance_subnet_id a)).

Definition set_provider_id (pid : string) (a : Assignment) : Assignment := {| a with as_provider_id := pid |}.

(** The VM's identifier is recorded before the route moves. *)
Definition ensureRoute (id : string) (req : NATRouteRequest) : M NatState (res unit) :=
  u ← Update id (set_provider_id (rq_provider_instance_id req));
  match u with
  | Err e => mret (Err (ErrWrap "record NAT provider instance" e))
  | Ok _ =>
      r ← n_observe (fun n => ne_ensure_route n req);
      _ ← n_did (EnsuredRoute req r);
      mret r
  end.

Definition create_nat (id tenant group instanceType : string) : M NatState (res unit) :=
  r ← n_observe (fun n => ne_create n id);
  _ ← n_did (CreatedNAT id tenant group instanceType r);
  mret r.

Definition startReplacement (cfg : Config) (nc : NATConfig) (current : Assignment) (instanceType : string) (now : Z) :
    M NatState (res unit) :=
  i ← n_observe (fun n => ne_new_id n (nat_group_kind cfg (as_tenant current) (nat_group nc)));
  match i with
  | Err e => mret (Err (ErrWrap "generate replacement NAT instance ID" e))
  | Ok id =>
      c ← ClaimReplacement current id instanceType now;
      match c with
      | Err e => mret (Err e)
      | Ok replacement =>
          if negb (bool_decide (as_instance_id replacement = id)) then mret (Ok tt)
          else
            r ← create_nat id (as_tenant current) (nat_group nc) instanceType;
            match r with
            | Err e =>
                let createErr := ErrWrap "create replacement NAT instance" e in
                rel ← Release id;
                mret (Err (match rel with
                           | Err e' => ErrJoin createErr (ErrWrap "release replacement NAT assignment" e')
                           | Ok _ => createErr
                           end))
            | Ok _ =>
                _ ← modify (fun s : NatState =>
                       {| s with n_up_since := delete (as_instance_id current) (n_up_since s);
                                 n_down_since := delete (as_instance_id current) (n_down_since s) |});
                mret (Ok tt)
            end
      end
  end.

Definition dedicated (cfg : Config) (tenant : string) : option NATConfig :=
  match c_nat cfg !! tenant with
  | Some nc => if bool_decide (nat_group nc = "") then None else Some nc
  | None => None
  end.

Definition ReplaceInstance (id : string) : M NatState (res unit) :=
  l ← GetAssignments;
  match l with
  | Err e => mret (Err e)
  | Ok m =>
      match m !! id with
      | None => mret (Ok tt)
      | Some a =>
          if as_deleting a || as_retiring a || negb (bool_decide (as_replaces a = "")) then mret (Ok tt)
          else
            cfg ← n_observe ne_config;
            match dedicated cfg (as_tenant a) with
            | None => mret (Ok tt)
            | Some nc => now ← n_observe ne_now; startReplacement cfg nc a (as_instance_type a) now
            end
      end
  end.

(** The assignment that serves a subnet. *)
Definition serves (tenant subnet : string) (a : Assignment) : bool :=
  bool_decide (as_tenant a = tenant) && bool_decide (as_instance_subnet_id a = subnet) &&
  bool_decide (as_replaces a = "") && negb (as_deleting a) && negb (as_retiring a).

Definition ErrNotReady : err := ErrMsg "managed NAT is not ready".

(** The assignment found or claimed for the subnet. *)
Definition claim_for (cfg : Config) (nc : NATConfig) (tenant subnet : string) : M NatState (res Assignment) :=
  i ← n_observe (fun n => ne_new_id n (nat_group_kind cfg tenant (nat_group nc)));
  match i with
  | Err e => mret (Err (ErrWrap "generate NAT instance ID" e))
  | Ok id =>
      now ← n_observe ne_now;
      c ← Claim (nat_public_addresses nc) tenant subnet id (nat_group_type cfg tenant (nat_group nc)) now;
      mret (match c with
            | Ok a => Ok a
            | Err e => if err_is e ErrPublicAddressesExhausted then Err (ErrJoin ErrSubnetDependencyCapacity e) else Err e
            end)
  end.

Definition find_or_claim (cfg : Config) (nc : NATConfig) (m : Assignments) (tenant subnet : string) :
    M NatState (res Assignment) :=
  tick ← gets (fun s => s_tick (n_store s));
  match filter (fun a => serves tenant subnet a = true) (values tick m) with
  | a :: _ => if bool_decide (as_instance_id a = "") then claim_for cfg nc tenant subnet else mret (Ok a)
  | [] => claim_for cfg nc tenant subnet
  end.

(** A healthy routed instance stays in use while its replacement is on the way. *)
Definition has_replacement (m : Assignments) (a : Assignment) : bool :=
  as_routed a && existsb (fun c => bool_decide (as_replaces c = as_instance_id a) && negb (as_deleting c)) (snd <$> map_to_list m).

Definition mark_routed (instanceType : string) (a : Assignment) : Assignment :=
  {| a with as_instance_type := instanceType; as_empty_since := None; as_deleting := false; as_routed := true |}.

Definition PrepareSubnet (tenant subnet : string) : M NatState (res unit) :=
  cfg ← n_observe ne_config;
  match c_nat cfg !! tenant with
  | None => mret (Ok tt)
  | Some nc =>
      l ← GetAssignments;
      match l with
      | Err e => mret (Err e)
      | Ok m =>
          f ← find_or_claim cfg nc m tenant subnet;
          match f with
          | Err e => mret (Err e)
          | Ok a =>
              g ← get_instance (as_instance_id a);
              match g with
              | Err e => mret (Err (ErrWrap "read NAT instance" e))
              | Ok i =>
                  if bool_decide (i = None) && negb (as_routed a) && bool_decide (as_provider_id a = "") then
                    r ← create_nat (as_instance_id a) tenant (nat_group nc) "";
                    mret (match r with Err e => Err (ErrWrap "create NAT instance" e) | Ok _ => Err ErrNotReady end)
                  else if instanceFailed i then
                    now ← n_observe ne_now;
                    r ← startReplacement cfg nc a (as_instance_type a) now;
                    mret (match r with Err e => Err e | Ok _ => Err ErrNotReady end)
                  else
                    now ← n_observe ne_now;
                    match instanceReady i (c_health_check_interval cfg) now with
                    | None => mret (Err ErrNotReady)
                    | Some pid =>
                        if has_replacement m a then mret (Ok tt)
                        else
                          let a' := set_provider_id pid a in
                          e ← ensureRoute (as_instance_id a) (routeRequest cfg m a');
                          match e with
                          | Err e => mret (Err e)
                          | Ok _ =>
                              let ty := if bool_decide (as_instance_type a = "")
                                        then nat_group_type cfg tenant (nat_group nc) else as_instance_type a in
                              u ← Update (as_instance_id a) (mark_routed ty);
                              mret (match u with Err e => Err (ErrWrap "record NAT provider instance" e) | Ok _ => Ok tt end)
                          end
                    end
              end
          end
      end
  end.

(** Withdraw the route of [a]: back to the instance it was to replace when there is
    one, otherwise remove it.  Nothing when [a] never carried the route. *)
Definition withdraw_route (cfg : Config) (m : Assignments) (a : Assignment) : M NatState (res unit) :=
  if as_retiring a || (negb (bool_decide (as_replaces a = "")) && bool_decide (as_provider_id a = "")) then mret (Ok tt)
  else
    let remove :=
      r ← n_observe (fun n => ne_remove_route n (routeRequest cfg m a));
      _ ← n_did (RemovedRoute (routeRequest cfg m a) r);
      mret (match r with Err e => Err (ErrWrap "remove NAT route" e) | Ok _ => Ok tt end) in
    match m !! as_replaces a with
    | Some previous =>
        if bool_decide (dedicated cfg (as_tenant a) = None) || as_deleting previous || as_retiring previous then remove
        else
          g ← get_instance (as_instance_id previous);
          match g with
          | Err e => mret (Err (ErrWrap "read previous NAT instance" e))
          | Ok i =>
              now ← n_observe ne_now;
              let ready := instanceReady i (c_health_check_interval cfg) now in
              e ← (match ready with
                   | Some pid =>
                       let req := routeRequest cfg m (set_provider_id pid previous) in
                       x ← ensureRoute (as_instance_id previous)
                             {| req with rq_previous_provider_instance_id := as_provider_id a |};
                       mret (match x with Err e => Err (ErrWrap "restore previous NAT route" e) | Ok _ => Ok tt end)
                   | None => mret (Ok tt)
                   end);
              match e with
              | Err e => mret (Err e)
              | Ok _ => Update (as_instance_id previous)
                          (fun c => {| c with as_routed := bool_decide (is_Some ready) |})
              end
          end
    | None => remove
    end.

Definition mark_deleting (a : Assignment) : Assignment := {| a with as_deleting := true; as_routed := false |}.

Definition deleteAssignment (cfg : Config) (m : Assignments) (a : Assignment) : M NatState (res unit) :=
  d ← (if as_deleting a then mret (Ok tt)
       else
         w ← withdraw_route cfg m a;
         match w with
         | Err e => mret (Err e)
         | Ok _ =>
             r ← n_observe (fun n => ne_delete n (as_instance_id a));
             _ ← n_did (DeletedNAT (as_tenant a) (as_instance_id a) r);
             match r with
             | Err e => if err_is e ErrNoRows then Update (as_instance_id a) mark_deleting
                        else mret (Err (ErrWrap "delete NAT instance" e))
             | Ok _ => Update (as_instance_id a) mark_deleting
             end
         end);
  match d with
  | Err e => mret (Err e)
  | Ok _ => Release (as_instance_id a)
  end.

(** The first loop of [Reconcile]: pending replacements.  It ends the pass at the
    first one that is promoted or given up. *)
Fixpoint reconcile_replacements (cfg : Config) (m : Assignments) (now : Z) (l : list Assignment) :
    M NatState (option (res unit)) :=
  match l with
  | [] => mret None
  | a :: rest =>
      if bool_decide (as_replaces a = "") || as_deleting a then reconcile_replacements cfg m now rest
      else
        g ← get_instance (as_instance_id a);
        let ready := match g with Ok i => instanceReady i (c_health_check_interval cfg) now | Err _ => None end in
        match dedicated cfg (as_tenant a), ready with
        | None, _ => r ← deleteAssignment cfg m a; mret (Some r)
        | Some nc, None =>
            if bool_decide (nat_replacement_timeout nc <= now - as_created_at a)
            then r ← deleteAssignment cfg m a; mret (Some r)
            else reconcile_replacements cfg m now rest
        | Some nc, Some pid =>
            e ← ensureRoute (as_instance_id a) (routeRequest cfg m (set_provider_id pid a));
            match e with
            | Err e => mret (Some (Err (ErrWrap "switch NAT route to replacement" e)))
            | Ok _ => p ← Promote (as_instance_id a) now; mret (Some p)
            end
        end
  end.

(** Instances of the subnet that are not NAT instances themselves. *)
Definition dependents (m : Assignments) (l : list Instance) (a : Assignment) : list Instance :=
  filter (fun i => i_tenant i = as_tenant a /\ i_subnet_id i = as_instance_subnet_id a /\
                   existsb (fun x => bool_decide (as_instance_id x = i_id i)) (snd <$> map_to_list m) = false) l.

Definition clear_empty (a : Assignment) : Assignment := {| a with as_empty_since := None |}.
Definition set_empty (now : Z) (a : Assignment) : Assignment := {| a with as_empty_since := Some now |}.
Definition set_routed (a : Assignment) : Assignment := {| a with as_routed := true |}.

(** An assignment instances depend on: keep it working. *)
Definition keep_assignment (cfg : Config) (nc : NATConfig) (m : Assignments) (now : Z) (a : Assignment) : M NatState (res unit) :=
  u ← (if bool_decide (as_empty_since a = None) then mret (Ok tt) else Update (as_instance_id a) clear_empty);
  match u with
  | Err e => mret (Err e)
  | Ok _ =>
      g ← get_instance (as_instance_id a);
      match g with
      | Err e => mret (Err (ErrWrap "read NAT instance" e))
      | Ok i =>
          if instanceFailed i then startReplacement cfg nc a (as_instance_type a) now
          else
            match as_routed a, instanceReady i (c_health_check_interval cfg) now with
            | false, Some pid =>
                e ← ensureRoute (as_instance_id a) (routeRequest cfg m (set_provider_id pid a));
                match e with
                | Err e => mret (Err (ErrWrap "restore active NAT route" e))
                | Ok _ => Update (as_instance_id a) set_routed
                end
            | _, _ => mret (Ok tt)
            end
      end
  end.

(** One iteration of the second loop. *)
Definition reconcile_assignment (cfg : Config) (m : Assignments) (li : list Instance) (now : Z) (a : Assignment) : M NatState (res unit) :=
  if negb (bool_decide (as_replaces a = "")) && negb (as_deleting a) then mret (Ok tt)
  else
    let nc := dedicated cfg (as_tenant a) in
    match nc with
    | Some nc' =>
        if negb (bool_decide (dependents m li a = [])) && negb (as_deleting a) && negb (as_retiring a)
        then keep_assignment cfg nc' m now a
        else
          asleep ← n_observe (fun n => ne_asleep n (as_tenant a));
          if negb (as_deleting a) && negb (as_retiring a) && negb asleep then
            match as_empty_since a with
            | None => Update (as_instance_id a) (set_empty now)
            | Some t =>
                if bool_decide (now - t < nat_last_instance_grace_period nc') then mret (Ok tt)
                else deleteAssignment cfg m a
            end
          else deleteAssignment cfg m a
    | None => _ ← n_observe (fun n => ne_asleep n (as_tenant a)); deleteAssignment cfg m a
    end.

Definition Reconcile : M NatState (res unit) :=
  cfg ← n_observe ne_config;
  l ← GetAssignments;
  match l with
  | Err e => mret (Err e)
  | Ok m =>
      li ← list_instances;
      match li with
      | Err e => mret (Err (ErrWrap "list instances" e))
      | Ok li =>
          now ← n_observe ne_now;
          tick ← gets (fun s => s_tick (n_store s));
          r ← reconcile_replacements cfg m now (values tick m);
          match r with
          | Some x => mret x
          | None =>
              tick' ← gets (fun s => s_tick (n_store s));
              for_each_err (values tick' m) (reconcile_assignment cfg m li now)
          end
      end
  end.

(** ** Vertical scaling *)

Definition index_of (x : string) (l : list string) : option nat := fst <$> list_find (fun y => y = x) l.

(** A health report: packet drop counters (64 bit) and the other readings, absent
    when the report is incomplete. *)
Record NatMetrics := mkNatMetrics { nm_rx_drops : Z; nm_tx_drops : Z; nm_reading : nat }.

(** A signal that must last for [window] before the type changes. *)
Definition sustained (since : option Z) (window observedAt : Z) : bool :=
  match since with None => false | Some t => bool_decide (window <= observedAt - t) end.

Definition scale (cfg : Config) (nc : NATConfig) (a : Assignment) (id : string) (previous current : MetricSample) (observedAt : Z) :
    M NatState (res unit) :=
  match index_of (as_instance_type a) (nat_instance_type_ladder nc) with
  | None => mret (Err (ErrMsg "NAT instance type is not in the configured ladder"))
  | Some index =>
      if match as_last_scale_at a with Some t => bool_decide (observedAt - t < nat_cooldown nc) | None => false end
      then mret (Ok tt)
      else
        match ne_scale_up nc previous current, nat_instance_type_ladder nc !! S index with
        | true, Some bigger =>
            _ ← modify (fun s : NatState => {| s with n_down_since := delete id (n_down_since s) |});
            since ← gets (fun s => n_up_since s !! id);
            if bool_decide (since = None) then
              _ ← modify (fun s : NatState => {| s with n_up_since := <[id := observedAt]> (n_up_since s) |}); mret (Ok tt)
            else if sustained since (nat_scale_up_window nc) observedAt then startReplacement cfg nc a bigger observedAt
            else mret (Ok tt)
        | _, _ =>
            _ ← modify (fun s : NatState => {| s with n_up_since := delete id (n_up_since s) |});
            match ne_scale_down nc previous current, index with
            | true, S below =>
                since ← gets (fun s => n_down_since s !! id);
                if bool_decide (since = None) then
                  _ ← modify (fun s : NatState => {| s with n_down_since := <[id := observedAt]> (n_down_since s) |}); mret (Ok tt)
                else if sustained since (nat_scale_down_window nc) observedAt
                     then startReplacement cfg nc a (default "" (nat_instance_type_ladder nc !! below)) observedAt
                     else mret (Ok tt)
            | _, _ =>
                _ ← modify (fun s : NatState => {| s with n_down_since := delete id (n_down_since s) |}); mret (Ok tt)
            end
        end
  end.

Definition Observe (id : string) (metrics : option NatMetrics) (observedAt : Z) : M NatState (res unit) :=
  match metrics with
  | None =>
      _ ← modify (fun s : NatState => {| s with n_up_since := delete id (n_up_since s);
                                               n_down_since := delete id (n_down_since s) |});
      mret (Ok tt)
  | Some x =>
      let current := mkMetricSample observedAt ((nm_rx_drops x + nm_tx_drops x) `mod` 2 ^ 64) (nm_reading x) in
      previous ← gets (fun s => n_metrics s !! id);
      _ ← modify (fun s : NatState => {| s with n_metrics := <[id := current]> (n_metrics s) |});
      match previous with
      | None => mret (Ok tt)
      | Some p =>
          if negb (bool_decide (ms_at p < ms_at current)) || bool_decide (ms_drops current < ms_drops p) then mret (Ok tt)
          else
            l ← GetAssignments;
            match l with
            | Err e => mret (Err e)
            | Ok m =>
                tick ← gets (fun s => s_tick (n_store s));
                match filter (fun a => as_instance_id a = id /\ as_replaces a = "" /\ as_deleting a = false) (values tick m) with
                | [] => mret (Ok tt)
                | a :: _ =>
                    if bool_decide (as_instance_id a = "") then mret (Ok tt)
                    else
                      cfg ← n_observe ne_config;
                      match dedicated cfg (as_tenant a) with
                      | None => mret (Ok tt)
                      | Some nc => scale cfg nc a id p current observedAt
                      end
                end
            end
      end
  end.
End Nat.
