(* ===== verification/ManagedNatFacts.v ===== *)
(** * Theorems about managed NAT

    The invariant of the assignment document and when a NAT instance is deleted,
    for the server that leads: nobody else writes the document, any request may
    fail, and a write that reports failure may have been applied. *)

From S2P Require Import Prelude Provider LocalDB Config Document ManagedNat.
From S2P Require Import Samples.
From S2P Require Import ContentTags.
Import LocalDB.

(** What an assignment owns; it never changes. *)
Definition owner (a : Assignment) : string * string * option PublicAddress :=
  (as_tenant a, as_instance_subnet_id a, as_public_address a).

Definition address (a : Assignment) : option string := pa_ipv4 <$> as_public_address a.

(** Entries are stored under their instance; a fixed address belongs to one subnet
    of one tenant; an instance has at most one pending replacement. *)
Record nat_wf (d : Assignments) : Prop := mkNatWf {
  nw_key : forall id a, d !! id = Some a -> as_instance_id a = id;
  nw_address : forall i j a b ip, d !! i = Some a -> d !! j = Some b -> address a = Some ip -> address b = Some ip ->
    as_tenant a = as_tenant b /\ as_instance_subnet_id a = as_instance_subnet_id b;
  nw_replaces : forall i j a b, d !! i = Some a -> d !! j = Some b -> as_replaces a ≠ "" ->
    as_replaces a = as_replaces b -> i = j;
}.

(** Whoever of [L] is in the document still owns the same. *)
Definition owns (L : list Assignment) (d : Assignments) : Prop :=
  forall a b, a ∈ L -> d !! as_instance_id a = Some b -> owner b = owner a.

Lemma draw_order_perm {A} n rand k (l : list A) : draw_order n rand k l ≡ₚ l.
Proof.
  revert k l. induction n as [|n IH]; intros k l; simpl; [done|].
  destruct (l !! _) as [x|] eqn:Hx; [|done]. rewrite IH, Permutation_middle. by rewrite (take_drop_middle l _ x Hx).
Qed.

Section Facts.
Context {HN : NatEnv}.

Lemma elem_of_values tick m a : a ∈ values tick m <-> exists id, m !! id = Some a.
Proof.
  unfold values. rewrite draw_order_perm, list_elem_of_fmap. split.
  - intros ([id x] & -> & Hin). exists id. by apply elem_of_map_to_list.
  - intros [id Hid]. exists (id, a). split; [done|]. by apply elem_of_map_to_list.
Qed.

Lemma address_used_spec m ip :
  address_used m ip = true <-> exists id a, m !! id = Some a /\ address a = Some ip.
Proof.
  unfold address_used. rewrite existsb_exists. split.
  - intros (a & Hin%list_elem_of_In & Hp). apply list_elem_of_fmap in Hin as ([id x] & -> & Hin%elem_of_map_to_list).
    exists id, x. split; [done|]. simpl in Hp. unfold address. destruct (as_public_address x); [|done].
    by apply bool_decide_eq_true in Hp as <-.
  - intros (id & a & Hm & Ha). exists a. split.
    + apply list_elem_of_In, list_elem_of_fmap. exists (id, a). split; [done|]. by apply elem_of_map_to_list.
    + unfold address in Ha. destruct (as_public_address a); [|done]. simplify_eq/=. by rewrite bool_decide_true.
Qed.

(** A claimed address is configured and free. *)
Lemma availableAddress_free addresses m p :
  availableAddress addresses m = Ok (Some p) -> p ∈ addresses /\ address_used m (pa_ipv4 p) = false.
Proof.
  unfold availableAddress. destruct addresses as [|q l]; [done|].
  destruct (filter _ (q :: l)) as [|p' l'] eqn:Hf; [done|]. intros [= <-].
  assert (p' ∈ filter (fun p => address_used m (pa_ipv4 p) = false) (q :: l)) as Hin by (rewrite Hf; set_solver).
  apply list_elem_of_filter in Hin as [? ?]. done.
Qed.

(** ** Mutations keep the invariant *)

Section Mutations.
Context (L : list Assignment).

Definition inv (d : Assignments) : Prop := nat_wf d /\ owns L d.

(** Adding an assignment whose owner holds its address already or alone. *)
Lemma inv_insert_new d id a :
  inv d -> d !! id = None -> as_instance_id a = id -> id ∉ as_instance_id <$> L ->
  (forall j b ip, d !! j = Some b -> address a = Some ip -> address b = Some ip ->
     as_tenant a = as_tenant b /\ as_instance_subnet_id a = as_instance_subnet_id b) ->
  (as_replaces a ≠ "" -> forall j b, d !! j = Some b -> as_replaces b ≠ as_replaces a) ->
  inv (<[id := a]> d).
Proof.
  intros [[Hk Ha Hr] Ho] Hn Hid Hfresh Haddr Hrepl. split; [split|].
  - intros i x. rewrite lookup_insert_Some. intros [[<- <-]|[_ Hx]]; eauto.
  - intros i j x y ip Hx Hy. rewrite lookup_insert_Some in Hx, Hy.
    destruct Hx as [[<- <-]|[_ Hx]], Hy as [[<- <-]|[_ Hy]]; [done|eauto| |eauto].
    intros Hax Hay. destruct (Haddr i x ip Hx Hay Hax). split; congruence.
  - intros i j x y Hx Hy Hne Heq. rewrite lookup_insert_Some in Hx, Hy.
    destruct Hx as [[<- <-]|[_ Hx]], Hy as [[<- <-]|[_ Hy]]; [done| | |by eapply Hr].
    + by destruct (Hrepl Hne j y Hy).
    + destruct (Hrepl ltac:(congruence) i x Hx). congruence.
  - intros x y Hx Hy. rewrite lookup_insert_Some in Hy. destruct Hy as [[Heq <-]|[_ Hy]]; [|by apply Ho].
    destruct Hfresh. rewrite Heq. by apply list_elem_of_fmap_2.
Qed.

(** Changing only lifecycle fields, possibly clearing [Replaces]. *)
Lemma inv_change d id a a' :
  inv d -> d !! id = Some a -> owner a' = owner a -> as_instance_id a' = as_instance_id a ->
  (as_replaces a' = as_replaces a \/ as_replaces a' = "") -> inv (<[id := a']> d).
Proof.
  intros [[Hk Ha Hr] Ho] Hin Hown Hid Hrep. unfold owner in Hown. injection Hown as Ht Hs Hp.
  assert (address a' = address a) as Hadr by (unfold address; congruence). split; [split|].
  - intros i x. rewrite lookup_insert_Some. intros [[<- <-]|[_ Hx]]; [|eauto]. rewrite Hid. eauto.
  - intros i j x y ip Hx Hy. rewrite lookup_insert_Some in Hx, Hy.
    destruct Hx as [[<- <-]|[_ Hx]], Hy as [[<- <-]|[_ Hy]]; rewrite ?Hadr, ?Ht, ?Hs; eauto.
  - intros i j x y Hx Hy Hne Heq. rewrite lookup_insert_Some in Hx, Hy.
    destruct Hx as [[<- <-]|[_ Hx]], Hy as [[<- <-]|[_ Hy]]; [done|..]; eapply Hr; eauto; destruct Hrep; congruence.
  - intros x y Hx Hy. rewrite lookup_insert_Some in Hy. destruct Hy as [[Heq <-]|[_ Hy]]; [|by apply Ho].
    rewrite <-(Ho x a Hx) by congruence. unfold owner. congruence.
Qed.

Lemma inv_delete d id : inv d -> inv (delete id d).
Proof.
  intros [[Hk Ha Hr] Ho]. split; [split|].
  - intros i x [_ Hx]%lookup_delete_Some. eauto.
  - intros i j x y ip [_ Hx]%lookup_delete_Some [_ Hy]%lookup_delete_Some. eauto.
  - intros i j x y [_ Hx]%lookup_delete_Some [_ Hy]%lookup_delete_Some. eauto.
  - intros x y Hx [_ Hy]%lookup_delete_Some. eauto.
Qed.

Lemma claim_inv addresses tenant subnet id ty now tick d c c' d' :
  inv d -> id ∉ as_instance_id <$> L ->
  claim_apply addresses tenant subnet id ty now tick d c = (c', Ok d') -> inv d' /\ d' !! id = Some c'.
Proof.
  intros Hi Hfresh Hc. unfold claim_apply in Hc. destruct (d !! id) as [x|] eqn:Hid; [by injection Hc as <- <-|].
  destruct (availableAddress addresses d) as [ad|] eqn:Had; [|done]. injection Hc as <- <-.
  rewrite lookup_insert_eq. split; [|done]. apply inv_insert_new; [done..| |done].
  unfold address. simpl. destruct ad as [p|]; [|done]. simpl. intros j b ip Hb [= <-] Hab.
  apply availableAddress_free in Had as [_ Hu]. by rewrite (proj2 (address_used_spec _ _)) in Hu by eauto.
Qed.

(** [a], when it is in the document, owns there what it says. *)
Definition agrees (a : Assignment) (d : Assignments) : Prop :=
  forall b, d !! as_instance_id a = Some b -> owner b = owner a.

Lemma owns_agrees a d : inv d -> a ∈ L -> agrees a d.
Proof. intros [_ Ho] Ha b. by apply Ho. Qed.

Lemma replacement_inv current id ty now tick d c c' d' :
  inv d -> id ∉ as_instance_id <$> L -> agrees current d ->
  replacement_apply current id ty now tick d c = (c', Ok d') -> inv d' /\ agrees current d'.
Proof.
  intros Hi Hfresh Hcur Hr. unfold replacement_apply in Hr. destruct (d !! id) as [x|] eqn:Hid; [by injection Hr as <- <-|].
  destruct (filter _ _) as [|p l] eqn:Hf; [|by injection Hr as <- <-].
  destruct (d !! as_instance_id current) as [b|] eqn:Hb; [|done]. injection Hr as <- <-.
  pose proof Hi as [Hwf Ho]. pose proof (Hcur b Hb) as Hown. unfold owner in Hown. injection Hown as Ht Hs Hp.
  split; [|intros x Hx; rewrite lookup_insert_ne in Hx by congruence; by apply Hcur].
  apply inv_insert_new; auto; simpl.
  - intros j x ip Hx Ha Hax. rewrite <-Ht, <-Hs. eapply (nw_address _ Hwf); [exact Hb|exact Hx| |exact Hax].
    unfold address in *. simpl in Ha. by rewrite Hp.
  - intros _ j x Hx Heq. assert (x ∈ filter (fun a => as_replaces a = as_instance_id current) (values tick d)) as Hin.
    { apply list_elem_of_filter. split; [done|]. apply elem_of_values. eauto. }
    rewrite Hf in Hin. by apply not_elem_of_nil in Hin.
Qed.

Lemma lifecycle_inv id f d d' :
  inv d -> (forall a, owner (f a) = owner a /\ as_instance_id (f a) = as_instance_id a /\ as_replaces (f a) = as_replaces a) ->
  lifecycle_apply id f d = Ok d' -> inv d'.
Proof.
  intros Hi Hf Hl. unfold lifecycle_apply in Hl. destruct (d !! id) as [a|] eqn:Ha; [|done]. injection Hl as <-.
  destruct (Hf a) as (? & ? & ?). eapply inv_change; eauto.
Qed.

Lemma promote_inv id now d d' : inv d -> promote_apply id now d = Ok d' -> inv d'.
Proof.
  intros Hi Hp. unfold promote_apply in Hp. destruct (d !! id) as [r|] eqn:Hr; [|done].
  case_bool_decide; [done|]. destruct (d !! as_replaces r) as [p|] eqn:Hpr; [|done]. injection Hp as <-. simpl.
  pose proof (nw_key _ (proj1 Hi) _ _ Hr) as Hkr. pose proof (nw_key _ (proj1 Hi) _ _ Hpr) as Hkp.
  rewrite Hkr, Hkp. destruct (decide (id = as_replaces r)) as [<-|Hne].
  - rewrite insert_insert_eq. eapply inv_change; eauto.
  - apply (inv_change _ id r); [eapply inv_change; eauto|rewrite lookup_insert_ne; [exact Hr|congruence]|done|by rewrite Hkr|by right].
Qed.
End Mutations.

(** ** Runs of the leader *)

Section Sole.
Context {HL : DocLaws Assignments}.
Hypothesis Hsole : forall n b, doc_others n b = None.

Definition ndoc (s : NatState) : Assignments := doc_of ∅ (s_obj (n_store s)).

(** An invariant of the document. *)
Definition on_ndoc (J : Assignments -> Prop) (s : NatState) : Prop := J (ndoc s).

Lemma n_observe_run {A} (f : nat -> A) s s' a :
  n_observe f s = (s', a) -> (exists n, a = f n) /\ ndoc s' = ndoc s /\ s_log (n_store s') = s_log (n_store s).
Proof.
  unfold n_observe, st_observe, after_others. simpl. rewrite Hsole. intros [= <- <-]. split_and!; [eauto|done..].
Qed.

Lemma nat_load_run s s' r :
  load s = (s', r) -> ndoc s' = ndoc s /\ s_log (n_store s') = s_log (n_store s) /\
    (forall d etag, r = Ok (d, etag) -> d = ndoc s).
Proof.
  unfold load, on_doc. destruct (load_doc ∅ assignment_name (n_store s)) as [st r'] eqn:Hl. intros [= <- <-].
  apply load_doc_run in Hl as (He & Ho & _ & Hr). unfold extends in He. rewrite app_nil_r in He.
  unfold after_others in Ho. rewrite Hsole in Ho. simpl in Ho. unfold ndoc. simpl. rewrite Ho. split_and!; [done..|].
  intros d etag ->. destruct Hr as [<- _]. by rewrite Ho.
Qed.

Lemma nat_put_run d etag s s' r :
  on_doc (storage_put_if_match d etag) s = (s', r) ->
  (ndoc s' = ndoc s /\ (exists e, r = Err e)) \/ ndoc s' = d.
Proof.
  unfold on_doc. destruct (storage_put_if_match d etag (n_store s)) as [st r'] eqn:Hp. intros [= <- <-].
  apply put_if_match_run in Hp as [_ [(_ & Ho & Hr)|(s1 & _ & _ & _ & Ho & _)]]; unfold ndoc; simpl; rewrite Ho; [left|by right].
  unfold after_others. rewrite Hsole. done.
Qed.

(** Everything but [update] leaves the document alone. *)
Lemma preserves_observe {A} J (f : nat -> A) : preserves (on_ndoc J) (n_observe f).
Proof.
  intros s Hs. destruct (n_observe f s) as [s' a] eqn:Hr. apply n_observe_run in Hr as (_ & Hd & _).
  unfold on_ndoc in *. simpl. by rewrite Hd.
Qed.

Lemma preserves_did J e : preserves (on_ndoc J) (n_did e).
Proof. by intros s. Qed.

Lemma preserves_nat_modify J f : (forall s, n_store (f s) = n_store s) -> preserves (on_ndoc J) (modify f).
Proof. intros Hf s Hs. unfold on_ndoc, ndoc in *. simpl. by rewrite Hf. Qed.

(** [update] keeps what its mutation keeps. *)
Lemma update_loop_hoare {A} J (K : A -> Assignments -> Prop) n (apply : nat -> Assignments -> A -> A * res Assignments) acc :
  (forall tick d a a' d', J d -> apply tick d a = (a', Ok d') -> J d' /\ K a' d') ->
  hoare (on_ndoc J) (update_loop n apply acc) (fun r s => J (ndoc s) /\ (r.1 = Ok tt -> K r.2 (ndoc s))).
Proof.
  intros HJ. revert acc. induction n as [|n IH]; intros acc s Hs; [done|]. simpl update_loop.
  rewrite M_bind_eq. destruct (load s) as [s1 l] eqn:Hl. apply nat_load_run in Hl as (Hd1 & _ & Hok). cbn [fst snd].
  assert (J (ndoc s1)) as Hs1 by (rewrite Hd1; exact Hs).
  destruct l as [[d etag]|e]; [|done]. rewrite M_bind_eq. unfold gets. cbn [fst snd].
  rewrite (Hok d etag eq_refl) in *. clear Hok. set (tick := s_tick _).
  destruct (apply tick (ndoc s) acc) as [acc' [d'|e]] eqn:Ha; [|done].
  destruct (HJ _ _ _ _ _ Hs Ha) as [HJ' HK]. destruct (bool_decide (d' = ndoc s)) eqn:Hb.
  { apply bool_decide_eq_true in Hb as ->. simpl. rewrite Hd1. done. }
  rewrite M_bind_eq. destruct (on_doc (storage_put_if_match d' etag) s1) as [s2 p] eqn:Hp. cbn [fst snd].
  apply nat_put_run in Hp as [[Hd2 [e ->]]|Hd2].
  - destruct (err_is e ErrPrecondition); [apply IH; unfold on_ndoc; by rewrite Hd2|]. simpl. by rewrite Hd2.
  - destruct p as [[]|e]; [simpl; by rewrite Hd2|].
    destruct (err_is e ErrPrecondition); [apply IH; unfold on_ndoc; by rewrite Hd2|]. simpl. by rewrite Hd2.
Qed.

Lemma preserves_update_ J f :
  (forall d d', J d -> f d = Ok d' -> J d') -> preserves (on_ndoc J) (update_ f).
Proof.
  intros HJ s Hs. unfold update_. rewrite M_bind_eq, M_ret_eq.
  apply (update_loop_hoare J (fun _ _ => True) 8 (fun _ d (_ : unit) => (tt, f d)) tt); [|done].
  intros tick d a a' d' Hd Heq. injection Heq as _ Heq. eauto.
Qed.

(** ** Operations of the leader keep the invariant *)

Section Ops.
Context (L : list Assignment).
(** Generated identifiers are new. *)
Hypothesis Hfresh : forall n kind id, ne_new_id n kind = Ok id -> id ∉ as_instance_id <$> L.
Let I := on_ndoc (inv L).

Lemma preserves_Update id f :
  (forall a, owner (f a) = owner a /\ as_instance_id (f a) = as_instance_id a /\ as_replaces (f a) = as_replaces a) ->
  preserves I (Update id f).
Proof. intros Hf. apply preserves_update_. intros d d' Hd Hl. by eapply lifecycle_inv. Qed.

Lemma preserves_Promote id now : preserves I (Promote id now).
Proof. apply preserves_update_. intros d d' Hd Hl. by eapply promote_inv. Qed.

Lemma preserves_Release id : preserves I (Release id).
Proof. apply preserves_update_. intros d d' Hd [= <-]. by apply inv_delete. Qed.

Lemma preserves_GetAssignments J : preserves (on_ndoc J) GetAssignments.
Proof.
  intros s Hs. unfold GetAssignments. rewrite M_bind_eq, M_ret_eq. destruct (load s) as [s1 l] eqn:Hl.
  apply nat_load_run in Hl as (Hd & _). unfold on_ndoc in *. simpl. by rewrite Hd.
Qed.

Lemma preserves_get_instance J id : preserves (on_ndoc J) (get_instance id).
Proof.
  apply preserves_bind; [apply preserves_observe|]. intros [e|]; [apply preserves_ret|].
  apply preserves_bind; [apply preserves_observe|]. intros db. apply preserves_ret.
Qed.

(** Walk through an operation. *)
Ltac keep :=
  repeat lazymatch goal with
  | |- preserves _ (_ ≫= _) => apply preserves_bind; [|intros ?]
  | |- preserves _ (mret _) => apply preserves_ret
  | |- preserves _ (gets _) => apply preserves_gets
  | |- preserves _ (n_observe _) => apply preserves_observe
  | |- preserves _ (n_did _) => apply preserves_did
  | |- preserves _ (get_instance _) => apply preserves_get_instance
  | |- preserves _ GetAssignments => apply preserves_GetAssignments
  | |- preserves _ (modify _) => apply preserves_nat_modify; done
  | |- preserves _ (Promote _ _) => apply preserves_Promote
  | |- preserves _ (Release _) => apply preserves_Release
  | |- preserves _ (Update _ _) => apply preserves_Update; done
  | |- preserves _ (match ?x with _ => _ end) => destruct x eqn:?
  end; cbv zeta.

Lemma preserves_ensureRoute id req : preserves I (ensureRoute id req).
Proof. unfold ensureRoute. keep. Qed.

Lemma preserves_create_nat id t g ty J : preserves (on_ndoc J) (create_nat id t g ty).
Proof. unfold create_nat. keep. Qed.

Lemma startReplacement_inv cfg nc a ty now :
  hoare (fun s => inv L (ndoc s) /\ agrees a (ndoc s)) (startReplacement cfg nc a ty now) (fun _ s => inv L (ndoc s)).
Proof.
  unfold startReplacement. intros s [Hi Ha]. rewrite M_bind_eq.
  destruct (n_observe _ s) as [s1 i] eqn:H1. apply n_observe_run in H1 as ([n Hn] & Hd1 & _). cbn [fst snd].
  destruct i as [id|e]; [|simpl; by rewrite Hd1]. symmetry in Hn. apply Hfresh in Hn.
  unfold ClaimReplacement, update. rewrite M_bind_eq, M_bind_eq, M_ret_eq. cbn [fst snd].
  destruct (update_loop_hoare (fun d => inv L d /\ agrees a d) (fun _ _ => True) 8
    (replacement_apply a id ty now) zero_assignment) with (w := s1) as [[Hi2 _] _].
  { intros tick d c c' d' [Hd Hag] Hr. split; [|done]. by eapply replacement_inv. }
  { unfold on_ndoc. by rewrite Hd1. }
  destruct (update_loop 8 _ _ s1) as [s2 [[u|e] c]]; [|done]. simpl in Hi2. cbn [fst snd].
  destruct (negb _); [done|].
  match goal with |- context [(?m ≫= ?k) s2] => assert (preserves I (m ≫= k)) as Hp end; [|by apply Hp].
  apply preserves_bind; [apply preserves_create_nat|]. intros [[]|e']; keep.
Qed.

Lemma preserves_startReplacement cfg nc a ty now : a ∈ L -> preserves I (startReplacement cfg nc a ty now).
Proof. intros Ha s Hs. apply startReplacement_inv. split; [done|]. by apply (owns_agrees L). Qed.

Lemma preserves_withdraw_route cfg m a : preserves I (withdraw_route cfg m a).
Proof. unfold withdraw_route. keep; apply preserves_ensureRoute. Qed.

Lemma preserves_deleteAssignment cfg m a : preserves I (deleteAssignment cfg m a).
Proof. unfold deleteAssignment. keep; apply preserves_withdraw_route. Qed.

Lemma preserves_replacements cfg m now l : preserves I (reconcile_replacements cfg m now l).
Proof.
  induction l as [|a l IH]; simpl; keep; try apply IH; try apply preserves_deleteAssignment; apply preserves_ensureRoute.
Qed.

Lemma preserves_keep cfg nc m now a : a ∈ L -> preserves I (keep_assignment cfg nc m now a).
Proof. intros Ha. unfold keep_assignment. keep; first [by apply preserves_startReplacement|apply preserves_ensureRoute]. Qed.

Lemma preserves_assignment cfg m li now a : a ∈ L -> preserves I (reconcile_assignment cfg m li now a).
Proof.
  intros Ha. unfold reconcile_assignment. keep; first [by apply preserves_keep|apply preserves_deleteAssignment].
Qed.

Lemma preserves_scale cfg nc a id p c now : a ∈ L -> preserves I (scale cfg nc a id p c now).
Proof. intros Ha. unfold scale. keep; by apply preserves_startReplacement. Qed.
End Ops.

Lemma GetAssignments_run s s' r :
  GetAssignments s = (s', r) -> ndoc s' = ndoc s /\ s_log (n_store s') = s_log (n_store s) /\ (forall m, r = Ok m -> m = ndoc s).
Proof.
  unfold GetAssignments. intros Hr. run_bind Hr as s1 l Hl. apply nat_load_run in Hl as (Hd & Hlog & Hok).
  injection Hr as <- <-. split_and!; [done..|]. intros m. destruct l as [[d etag]|e]; [|done]. intros [= <-]. eauto.
Qed.

(** All assignments of a document. *)
Definition all (d : Assignments) : list Assignment := snd <$> map_to_list d.

Lemma elem_of_all d a : a ∈ all d <-> exists id, d !! id = Some a.
Proof.
  unfold all. rewrite list_elem_of_fmap. split.
  - intros ([id x] & -> & Hin). exists id. by apply elem_of_map_to_list.
  - intros [id Hid]. exists (id, a). split; [done|]. by apply elem_of_map_to_list.
Qed.

Lemma values_all tick d a : a ∈ values tick d -> a ∈ all d.
Proof. by rewrite elem_of_values, elem_of_all. Qed.

Lemma inv_all d : nat_wf d -> inv (all d) d.
Proof.
  intros Hwf. split; [done|]. intros a b [id Hid]%elem_of_all Hb. pose proof (nw_key _ Hwf _ _ Hid). congruence.
Qed.

Definition fresh_ids (d : Assignments) : Prop := forall n kind id, ne_new_id n kind = Ok id -> d !! id = None.

Lemma fresh_all d : nat_wf d -> fresh_ids d -> forall n kind id, ne_new_id n kind = Ok id -> id ∉ as_instance_id <$> all d.
Proof.
  intros Hwf Hf n kind id Hid. rewrite list_elem_of_fmap. intros (a & -> & [k Hk]%elem_of_all).
  pose proof (nw_key _ Hwf _ _ Hk). subst k. by rewrite (Hf _ _ _ Hid) in Hk.
Qed.

Section Whole.
Context (s0 : NatState).
Hypothesis Hwf : nat_wf (ndoc s0).
Hypothesis Hnew : fresh_ids (ndoc s0).
Let L := all (ndoc s0).
Let Hfresh := fresh_all (ndoc s0) Hwf Hnew.

(** The rest of an operation, from a state [s] satisfying the invariant. *)
Ltac whole s Hs :=
  match goal with |- context [(?f ≫= ?k) s] =>
    assert (preserves (on_ndoc (inv L)) (f ≫= k)) as Hp; [|exact (proj1 (Hp s Hs))] end.

Lemma ReplaceInstance_inv id : nat_wf (ndoc (ReplaceInstance id s0).1).
Proof.
  unfold ReplaceInstance. rewrite M_bind_eq. destruct (GetAssignments s0) as [s1 l] eqn:H1.
  apply GetAssignments_run in H1 as (Hd & _ & Hm). cbn [fst snd].
  assert (inv L (ndoc s1)) as Hi by (rewrite Hd; by apply inv_all).
  destruct l as [m|e]; [|apply Hi]. specialize (Hm m eq_refl). destruct (m !! id) as [a|] eqn:Ha; [|apply Hi].
  destruct (_ || _); [apply Hi|].
  whole s1 Hi.
  apply preserves_bind; [apply preserves_observe|]. intros cfg. destruct (dedicated _ _); [|apply preserves_ret].
  apply preserves_bind; [apply preserves_observe|]. intros now. apply preserves_startReplacement; [exact Hfresh|].
  subst m. apply elem_of_all. eauto.
Qed.

Lemma Observe_inv id x at_ : nat_wf (ndoc (Observe id x at_ s0).1).
Proof.
  unfold Observe. destruct x as [x|]; [|done]. rewrite M_bind_eq. unfold gets. cbn [fst snd].
  rewrite M_bind_eq. unfold modify. cbn [fst snd]. set (s1 := {| s0 with n_metrics := _ |}).
  destruct (n_metrics s0 !! id) as [p|]; [|done]. destruct (_ || _); [done|].
  rewrite M_bind_eq. destruct (GetAssignments s1) as [s2 l] eqn:H1.
  apply GetAssignments_run in H1 as (Hd & _ & Hm). cbn [fst snd]. change (ndoc s1) with (ndoc s0) in *.
  assert (inv L (ndoc s2)) as Hi by (rewrite Hd; by apply inv_all).
  destruct l as [m|e]; [|apply Hi]. specialize (Hm m eq_refl). subst m. rewrite M_bind_eq. cbn [fst snd].
  destruct (filter _ _) as [|a l] eqn:Hf; [apply Hi|].
  assert (a ∈ L) as Ha by (eapply values_all, list_elem_of_filter; rewrite Hf; left).
  destruct (bool_decide _); [apply Hi|].
  whole s2 Hi.
  apply preserves_bind; [apply preserves_observe|]. intros cfg. destruct (dedicated _ _); [|apply preserves_ret].
  by apply preserves_scale.
Qed.

Lemma Reconcile_inv : nat_wf (ndoc (Reconcile s0).1).
Proof.
  unfold Reconcile. rewrite M_bind_eq. destruct (n_observe ne_config s0) as [s1 cfg] eqn:H1.
  apply n_observe_run in H1 as (_ & Hd1 & _). cbn [fst snd]. rewrite M_bind_eq.
  destruct (GetAssignments s1) as [s2 l] eqn:H2. apply GetAssignments_run in H2 as (Hd2 & _ & Hm). cbn [fst snd].
  assert (inv L (ndoc s2)) as Hi by (rewrite Hd2, Hd1; by apply inv_all).
  destruct l as [m|e]; [|apply Hi]. specialize (Hm m eq_refl). rewrite Hd1 in Hm. subst m.
  whole s2 Hi.
  apply preserves_bind.
  { unfold list_instances. apply preserves_bind; [apply preserves_observe|]. intros [e|]; [apply preserves_ret|].
    apply preserves_bind; [apply preserves_observe|]. intros db. apply preserves_ret. }
  intros [li|e]; [|apply preserves_ret].
  apply preserves_bind; [apply preserves_observe|]. intros now. apply preserves_bind; [apply preserves_gets|]. intros tick.
  apply preserves_bind; [apply preserves_replacements|]. intros [x|]; [apply preserves_ret|].
  apply preserves_bind; [apply preserves_gets|]. intros tick'. apply preserves_for_each_err.
  intros a Ha. apply preserves_assignment; [exact Hfresh|]. by eapply values_all.
Qed.

(** The assignment found or claimed owns what the document says. *)
Lemma find_or_claim_inv cfg nc t sn :
  hoare (on_ndoc (inv L)) (find_or_claim cfg nc (ndoc s0) t sn)
    (fun r s => inv L (ndoc s) /\ forall a, r = Ok a -> agrees a (ndoc s)).
Proof.
  assert (hoare (on_ndoc (inv L)) (claim_for cfg nc t sn) (fun r s => inv L (ndoc s) /\ forall a, r = Ok a -> agrees a (ndoc s))) as Hclaim.
  { intros s Hs. unfold claim_for. rewrite M_bind_eq.
    destruct (n_observe _ s) as [s1 i] eqn:H1. apply n_observe_run in H1 as ([n Hn] & Hd1 & _). cbn [fst snd].
    destruct i as [id|e]; [|simpl; by rewrite Hd1]. symmetry in Hn. apply Hfresh in Hn.
    rewrite M_bind_eq. destruct (n_observe ne_now s1) as [s2 now] eqn:H2. apply n_observe_run in H2 as (_ & Hd2 & _). cbn [fst snd].
    rewrite M_bind_eq. unfold Claim. destruct (_ || _); [simpl; by rewrite Hd2, Hd1|].
    rewrite M_bind_eq, M_ret_eq. unfold update. set (ty := nat_group_type _ _ _).
    destruct (update_loop_hoare (inv L) (fun a d => d !! as_instance_id a = Some a) 8
      (claim_apply (nat_public_addresses nc) t sn id ty now) zero_assignment) with (w := s2) as [Hi Hk].
    { intros tick d c c' d' Hd Hc. eapply claim_inv in Hc as [Hd' Hc']; [|done..]. split; [done|].
      by rewrite (nw_key _ (proj1 Hd') _ _ Hc'). }
    { unfold on_ndoc. by rewrite Hd2, Hd1. }
    destruct (update_loop 8 _ _ s2) as [s3 [[[]|e] a]]; simpl in *.
    - split; [done|]. intros a' [= <-] b Hb. rewrite Hk in Hb by done. congruence.
    - split; [done|]. intros a'. by destruct (err_is e _). }
  intros s Hs. unfold find_or_claim. rewrite M_bind_eq. unfold gets. cbn [fst snd].
  destruct (filter _ _) as [|a l] eqn:Hf; [by apply Hclaim|].
  destruct (bool_decide _); [by apply Hclaim|]. split; [done|]. intros a' [= <-]. apply (owns_agrees L); [done|].
  eapply values_all, list_elem_of_filter. rewrite Hf. left.
Qed.

Lemma PrepareSubnet_inv t sn : nat_wf (ndoc (PrepareSubnet t sn s0).1).
Proof.
  unfold PrepareSubnet. rewrite M_bind_eq. destruct (n_observe ne_config s0) as [s1 cfg] eqn:H1.
  apply n_observe_run in H1 as (_ & Hd1 & _). cbn [fst snd]. destruct (c_nat cfg !! t) as [nc|]; [|simpl; by rewrite Hd1].
  rewrite M_bind_eq. destruct (GetAssignments s1) as [s2 l] eqn:H2. apply GetAssignments_run in H2 as (Hd2 & _ & Hm). cbn [fst snd].
  assert (inv L (ndoc s2)) as Hi by (rewrite Hd2, Hd1; by apply inv_all).
  destruct l as [m|e]; [|apply Hi]. specialize (Hm m eq_refl). rewrite Hd1 in Hm. subst m.
  rewrite M_bind_eq. destruct (find_or_claim_inv cfg nc t sn s2 Hi) as [Hi3 Ha3].
  destruct (find_or_claim cfg nc (ndoc s0) t sn s2) as [s3 [a|e]]; [|apply Hi3]. simpl in Hi3, Ha3. cbn [fst snd].
  specialize (Ha3 a eq_refl). rewrite M_bind_eq.
  pose proof (preserves_get_instance (fun d => inv L d /\ agrees a d) (as_instance_id a) s3 (conj Hi3 Ha3)) as [Hi4 Ha4].
  destruct (get_instance (as_instance_id a) s3) as [s4 [i|e]]; [|apply Hi4]. simpl in Hi4, Ha4. cbn [fst snd].
  destruct (_ && _ && _).
  { whole s4 Hi4. apply preserves_bind; [apply preserves_create_nat|]. intros r. apply preserves_ret. }
  destruct (instanceFailed i).
  { rewrite M_bind_eq. destruct (n_observe ne_now s4) as [s5 now] eqn:H5. apply n_observe_run in H5 as (_ & Hd5 & _). cbn [fst snd].
    rewrite M_bind_eq, M_ret_eq. cbn [fst]. refine (proj1 (startReplacement_inv L Hfresh cfg nc a _ now s5 _)). by rewrite Hd5. }
  whole s4 Hi4.
  apply preserves_bind; [apply preserves_observe|]. intros now.
  destruct (instanceReady _ _ _); [|apply preserves_ret]. destruct (has_replacement _ _); [apply preserves_ret|].
  apply preserves_bind; [apply preserves_ensureRoute|]. intros [u|e]; [|apply preserves_ret].
  apply preserves_bind; [by apply preserves_Update|]. intros r. apply preserves_ret.
Qed.
End Whole.

(** The operations that change the document. *)
Inductive NatOp :=
  | OpPrepareSubnet (tenant subnet : string)
  | OpReplaceInstance (id : string)
  | OpReconcile
  | OpObserve (id : string) (metrics : option NatMetrics) (observedAt : Z).

Definition run_nat (op : NatOp) (s : NatState) : NatState :=
  match op with
  | OpPrepareSubnet t sn => (PrepareSubnet t sn s).1
  | OpReplaceInstance id => (ReplaceInstance id s).1
  | OpReconcile => (Reconcile s).1
  | OpObserve id x at_ => (Observe id x at_ s).1
  end.


(** ** When a NAT instance is deleted *)

(** A reason to delete the instance of [a] in one pass over [m]. *)
Definition may_delete (cfg : Config) (m : Assignments) (li : list Instance) (now : Z) (a : Assignment) : Prop :=
  as_deleting a = false /\
  forall nc, dedicated cfg (as_tenant a) = Some nc ->
    if decide (as_replaces a = "")
    then as_retiring a = true \/
         (dependents m li a = [] /\
          ((exists n, ne_asleep n (as_tenant a) = true) \/
           exists t, as_empty_since a = Some t /\ nat_last_instance_grace_period nc <= now - t))
    else nat_replacement_timeout nc <= now - as_created_at a.

Section Deletions.
Context (P : LogEntry Assignments NatEvent -> Prop).
Hypothesis HPw : forall old new, P (Wrote old new).
Hypothesis HPd : forall e, (forall t id r, e ≠ DeletedNAT t id r) -> P (Did e).
Let Q (s : NatState) : Prop := Forall P (s_log (n_store s)).

Lemma logs_observe {A} (f : nat -> A) : preserves Q (n_observe f).
Proof.
  intros s Hs. destruct (n_observe f s) as [s' a] eqn:Hr. apply n_observe_run in Hr as (_ & _ & Hl).
  unfold Q in *. simpl. by rewrite Hl.
Qed.

Lemma logs_did e : P (Did e) -> preserves Q (n_did e).
Proof. intros He s Hs. unfold Q in *. simpl. apply Forall_app_2; [done|by constructor]. Qed.

Lemma logs_update {A} (apply : nat -> Assignments -> A -> A * res Assignments) n acc : preserves Q (update_loop n apply acc).
Proof.
  revert acc. induction n as [|n IH]; intros acc; [apply preserves_ret|]. simpl. apply preserves_bind.
  { intros s Hs. destruct (load s) as [s1 l] eqn:Hl. apply nat_load_run in Hl as (_ & Hl & _). unfold Q in *. simpl. by rewrite Hl. }
  intros [[d etag]|e]; [|apply preserves_ret]. apply preserves_bind; [apply preserves_gets|]. intros tick.
  destruct (apply tick d acc) as [acc' [d'|e]]; [|apply preserves_ret]. destruct (bool_decide _); [apply preserves_ret|].
  apply preserves_bind; [|intros [u|e]; [apply preserves_ret|destruct (err_is _ _); [apply IH|apply preserves_ret]]].
  intros s Hs. destruct (on_doc (storage_put_if_match d' etag) s) as [s' r] eqn:Hp. unfold on_doc in Hp.
  destruct (storage_put_if_match d' etag (n_store s)) as [st r'] eqn:Hp'. injection Hp as <- <-. unfold Q in *. simpl.
  apply put_if_match_run in Hp' as [_ [(He & _)|(s1 & _ & _ & He & _)]]; unfold extends in He; rewrite He.
  - by rewrite app_nil_r.
  - apply Forall_app_2; [done|by constructor].
Qed.

Lemma logs_update_ f : preserves Q (update_ f).
Proof. apply preserves_bind; [apply logs_update|]. intros r. apply preserves_ret. Qed.

Lemma logs_ClaimReplacement a id ty now : preserves Q (ClaimReplacement a id ty now).
Proof. apply preserves_bind; [apply logs_update|]. intros r. apply preserves_ret. Qed.

Ltac logs :=
  repeat lazymatch goal with
  | |- preserves _ (_ ≫= _) => apply preserves_bind; [|intros ?]
  | |- preserves _ (mret _) => apply preserves_ret
  | |- preserves _ (gets _) => apply preserves_gets
  | |- preserves _ (n_observe _) => apply logs_observe
  | |- preserves _ (n_did _) => apply logs_did, HPd; done
  | |- preserves _ (modify _) => by intros ? ?
  | |- preserves _ (Promote _ _) => apply logs_update_
  | |- preserves _ (Release _) => apply logs_update_
  | |- preserves _ (Update _ _) => apply logs_update_
  | |- preserves _ (ClaimReplacement _ _ _ _) => apply logs_ClaimReplacement
  | |- preserves _ (get_instance _) => unfold get_instance
  | |- preserves _ (ensureRoute _ _) => unfold ensureRoute
  | |- preserves _ (create_nat _ _ _ _) => unfold create_nat
  | |- preserves _ (match ?x with _ => _ end) => destruct x eqn:?
  end; cbv zeta.

Lemma logs_startReplacement cfg nc a ty now : preserves Q (startReplacement cfg nc a ty now).
Proof. unfold startReplacement. logs. Qed.

Lemma logs_withdraw_route cfg m a : preserves Q (withdraw_route cfg m a).
Proof. unfold withdraw_route. logs. Qed.

Lemma logs_deleteAssignment cfg m a :
  (as_deleting a = false -> forall r, P (Did (DeletedNAT (as_tenant a) (as_instance_id a) r))) ->
  preserves Q (deleteAssignment cfg m a).
Proof.
  intros HP. unfold deleteAssignment. apply preserves_bind; [|intros [u|e]; [apply logs_update_|apply preserves_ret]].
  destruct (as_deleting a) eqn:Hd; [apply preserves_ret|].
  apply preserves_bind; [apply logs_withdraw_route|]. intros [u|e]; [|apply preserves_ret].
  apply preserves_bind; [apply logs_observe|]. intros r. apply preserves_bind; [by apply logs_did, HP|]. intros _.
  destruct r as [x|e]; [apply logs_update_|]. destruct (err_is _ _); [apply logs_update_|apply preserves_ret].
Qed.

Lemma logs_replacements cfg m li now l :
  (forall a r, a ∈ l -> may_delete cfg m li now a -> P (Did (DeletedNAT (as_tenant a) (as_instance_id a) r))) ->
  preserves Q (reconcile_replacements cfg m now l).
Proof.
  induction l as [|a l IH]; intros HP; simpl; [apply preserves_ret|].
  assert (preserves Q (reconcile_replacements cfg m now l)) as Hl by (apply IH; intros; apply HP; [by right|done]).
  destruct (_ || _) eqn:Hskip; [done|]. apply orb_false_iff in Hskip as [Hrep%bool_decide_eq_false Hdel].
  apply preserves_bind; [logs|]. intros g. cbv zeta. set (ready := match g with Ok _ => _ | Err _ => _ end).
  destruct (dedicated cfg (as_tenant a)) as [nc|] eqn:Hded; [destruct ready as [pid|]|].
  - logs.
  - destruct (bool_decide _) eqn:Ht; [|done]. apply bool_decide_eq_true in Ht. apply preserves_bind; [|intros r; apply preserves_ret].
    apply logs_deleteAssignment. intros _ r. apply HP; [left|]. split; [done|].
    intros nc' [= <-]%(eq_trans (eq_sym Hded)). by rewrite decide_False.
  - apply preserves_bind; [|intros r; apply preserves_ret].
    apply logs_deleteAssignment. intros _ r. apply HP; [left|]. split; [done|]. intros nc'. by rewrite Hded.
Qed.

Lemma logs_assignment cfg m li now a :
  (forall r, may_delete cfg m li now a -> P (Did (DeletedNAT (as_tenant a) (as_instance_id a) r))) ->
  preserves Q (reconcile_assignment cfg m li now a).
Proof.
  intros HP. unfold reconcile_assignment.
  destruct (negb (bool_decide (as_replaces a = "")) && negb (as_deleting a)) eqn:Hskip; [apply preserves_ret|].
  assert (as_deleting a = false -> as_replaces a = "") as Hrep.
  { intros Hd. rewrite Hd, andb_true_r in Hskip. by apply negb_false_iff, bool_decide_eq_true in Hskip. }
  destruct (dedicated cfg (as_tenant a)) as [nc|] eqn:Hded.
  2:{ apply preserves_bind; [apply logs_observe|]. intros _. apply logs_deleteAssignment. intros Hd r. apply HP.
      split; [done|]. intros nc'. by rewrite Hded. }
  assert (as_deleting a = false -> (as_retiring a = true \/ (dependents m li a = [] /\
          ((exists n, ne_asleep n (as_tenant a) = true) \/
           exists t, as_empty_since a = Some t /\ nat_last_instance_grace_period nc <= now - t))) -> may_delete cfg m li now a) as Hmay.
  { intros Hd Hx. split; [done|]. intros nc' [= <-]%(eq_trans (eq_sym Hded)). by rewrite decide_True by auto. }
  destruct (negb (bool_decide (dependents m li a = [])) && _ && _) eqn:Hkeep.
  { unfold keep_assignment. logs; try apply logs_startReplacement. }
  intros s Hs. rewrite M_bind_eq. pose proof (logs_observe (fun n => ne_asleep n (as_tenant a)) s Hs) as Hs1.
  destruct (n_observe (fun n => ne_asleep n (as_tenant a)) s) as [s1 asleep] eqn:Ho. cbn [fst snd] in Hs1 |- *.
  apply n_observe_run in Ho as ([n Hn] & _).
  match goal with |- Q (?f s1).1 => cut (preserves Q f); [intros Hf; exact (Hf s1 Hs1)|] end.
  assert (as_deleting a = false -> as_retiring a = false -> dependents m li a = []) as Hdep.
  { intros Hd Hret. rewrite Hd, Hret, !andb_true_r in Hkeep. by apply negb_false_iff, bool_decide_eq_true in Hkeep. }
  destruct (negb (as_deleting a) && negb (as_retiring a) && negb asleep) eqn:Hwait.
  - apply andb_true_iff in Hwait as [[Hd%negb_true_iff Hret%negb_true_iff]%andb_true_iff _].
    destruct (as_empty_since a) as [t|] eqn:Ht; [|apply logs_update_].
    destruct (bool_decide (now - t < _)) eqn:Hg; [apply preserves_ret|]. apply bool_decide_eq_false in Hg.
    apply logs_deleteAssignment. intros _ r. apply HP, Hmay; [done|]. right. split; [auto|]. right. exists t. split; [done|lia].
  - apply logs_deleteAssignment. intros Hd r. apply HP, Hmay; [done|]. rewrite Hd in Hwait. simpl in Hwait.
    destruct (as_retiring a) eqn:Hret; [by left|]. right. split; [auto|]. left. exists n. by destruct asleep.
Qed.
End Deletions.

(** C13. Create before destroy.  A reconciliation pass deletes a NAT instance only
    when the tenant no longer uses managed NAT; or it is a replacement that did
    not become ready within its timeout; or its successor was promoted; or no
    instance of the subnet depends on it and the tenant sleeps or has left it
    unused for the grace period.  In particular an instance that serves dependents
    and has not been replaced is never deleted. *)
Theorem nat_deletion_justified s t id r :
  nat_wf (ndoc s) -> Did (DeletedNAT t id r) ∈ s_log (n_store (Reconcile s).1) ->
  Did (DeletedNAT t id r) ∈ s_log (n_store s) \/
  exists a n1 n2 n3, ndoc s !! id = Some a /\ t = as_tenant a /\
    may_delete (ne_config n1) (ndoc s) (ListInstances (ne_db n2)) (ne_now n3) a.
Proof.
  intros Hwf Hin. set (R := fun t id => exists a n1 n2 n3, ndoc s !! id = Some a /\ t = as_tenant a /\
    may_delete (ne_config n1) (ndoc s) (ListInstances (ne_db n2)) (ne_now n3) a).
  set (P := fun x => x ∈ s_log (n_store s) \/ match x with Did (DeletedNAT t id _) => R t id | _ => True end).
  cut (Forall P (s_log (n_store (Reconcile s).1))).
  { intros HF. eapply Forall_forall in Hin; [|exact HF]. exact Hin. }
  assert (forall old new, P (Wrote old new)) as HPw by (by right).
  assert (forall e, (forall t id r, e ≠ DeletedNAT t id r) -> P (Did e)) as HPd.
  { intros [] He; right; try done. by destruct (He tenant id0 r0). }
  assert (Forall P (s_log (n_store s))) as H0 by (apply Forall_forall; intros x Hx; by left).
  unfold Reconcile. rewrite M_bind_eq. destruct (n_observe ne_config s) as [s1 cfg] eqn:H1.
  apply n_observe_run in H1 as ([n1 Hn1] & Hd1 & Hl1). cbn [fst snd]. rewrite M_bind_eq.
  destruct (GetAssignments s1) as [s2 l] eqn:H2. apply GetAssignments_run in H2 as (Hd2 & Hl2 & Hm). cbn [fst snd].
  rewrite <-Hl1, <-Hl2 in H0. destruct l as [m|e]; [|done]. specialize (Hm m eq_refl). rewrite Hd1 in Hm. subst m.
  rewrite M_bind_eq. unfold list_instances. rewrite M_bind_eq.
  destruct (n_observe ne_db_fault s2) as [s3 f] eqn:H3. apply n_observe_run in H3 as (_ & _ & Hl3). cbn [fst snd].
  rewrite <-Hl3 in H0. destruct f as [e|]; [done|]. rewrite M_bind_eq.
  destruct (n_observe ne_db s3) as [s4 db] eqn:H4. apply n_observe_run in H4 as ([n2 Hn2] & _ & Hl4). cbn [fst snd].
  rewrite <-Hl4 in H0. rewrite M_ret_eq. cbn [fst snd]. rewrite M_bind_eq.
  destruct (n_observe ne_now s4) as [s5 now] eqn:H5. apply n_observe_run in H5 as ([n3 Hn3] & _ & Hl5). cbn [fst snd].
  rewrite <-Hl5 in H0. subst cfg db now.
  assert (forall a r, a ∈ all (ndoc s) -> may_delete (ne_config n1) (ndoc s) (ListInstances (ne_db n2)) (ne_now n3) a ->
    P (Did (DeletedNAT (as_tenant a) (as_instance_id a) r))) as HP.
  { intros a r' [k Hk]%elem_of_all Hmay. right. exists a, n1, n2, n3. by rewrite (nw_key _ Hwf _ _ Hk). }
  match goal with |- Forall P (s_log (n_store (?f s5).1)) =>
    cut (preserves (fun s => Forall P (s_log (n_store s))) f); [intros Hf; exact (Hf s5 H0)|] end.
  apply preserves_bind; [apply preserves_gets|]. intros tick.
  apply preserves_bind; [apply (logs_replacements P HPw HPd _ _ (ListInstances (ne_db n2))); intros a r' Ha; apply HP; by eapply values_all|].
  intros [x|]; [apply preserves_ret|]. apply preserves_bind; [apply preserves_gets|]. intros tick'.
  apply preserves_for_each_err. intros a Ha. apply (logs_assignment P HPw HPd). intros r'. apply HP. by eapply values_all.
Qed.
End Sole.
End Facts.

(** ** Concrete runs of managed NAT

    One tenant with two subnets and one fixed address, on which the hypotheses of
    the theorems about managed NAT hold. *)
Module ManagedNatWitnesses.
Import LocalDB.

Definition tree_address (p : PublicAddress) : Tree := GenNode 0 [tree_string (pa_ipv4 p); tree_string (pa_allocation_id p)].

Definition tree_assignment (a : Assignment) : Tree :=
  GenNode 0 [tree_string (as_tenant a); tree_string (as_instance_subnet_id a); tree_string (as_instance_id a);
    tree_string (as_instance_type a); tree_string (as_provider_id a); tree_opt tree_address (as_public_address a);
    tree_opt tree_Z (as_empty_since a); tree_bool (as_deleting a); tree_bool (as_retiring a); tree_bool (as_routed a);
    tree_string (as_replaces a); tree_Z (as_created_at a); tree_opt tree_Z (as_last_scale_at a)].

#[global] Instance tree_address_inj : Inj (=) (=) tree_address.
Proof. intros [] [] H. by simplify_eq/=. Qed.

#[global] Instance tree_assignment_inj : Inj (=) (=) tree_assignment.
Proof.
  intros [] [] H. injection H as -> -> -> -> -> Ha Hb Hc Hd He -> -> Hf.
  apply (inj (tree_opt tree_address)) in Ha. apply (inj (tree_opt tree_Z)) in Hb, Hf. subst.
  by repeat match goal with b : bool |- _ => destruct b end.
Qed.

Definition demo_nat_config : NATConfig :=
  mkNATConfig "nat" "nat44" [mkPublicAddress "192.0.2.1" "eip-1"] 600 ["small"; "large"]
    (mkNATThresholds (Q2Qc 80) (Q2Qc 80) (Q2Qc 1)) (mkNATThresholds (Q2Qc 30) (Q2Qc 30) (Q2Qc 0)) 120 1200 600 300.

Definition demo_config : Config :=
  mkConfig "cl" "s1" "zone-a" 60 300 600 ∅ [] (mkExpiryConfig 0 0 0) ∅ ∅
    {[ "tpl" := mkTemplateConfig "nat" "amd64" "small" "pool" ∅ ∅ ∅ None 1 ]}
    {[ "acme" := {[ "nat" := mkGroupConfig "tpl" None "small" "" ∅ ∅ None [] ]} ]}
    {[ "acme" := demo_nat_config ]} ∅ demo_settings.

Definition demo_nat_env : NatEnv := {|
  ne_doc := content_env (tree_map tree_assignment);
  ne_now := fun _ => 1000000;
  ne_config := fun _ => demo_config;
  ne_db := fun _ => empty_db true;
  ne_db_fault := fun _ => None;
  ne_asleep := fun _ _ => false;
  ne_new_id := fun _ _ => Ok "nat-new";
  ne_network_tag := fun _ _ _ => "tag";
  ne_ensure_route := fun _ _ => Ok tt;
  ne_remove_route := fun _ _ => Ok tt;
  ne_create := fun _ _ => Ok tt;
  ne_delete := fun _ _ => Ok tt;
  ne_rand := fun _ _ => 0;
  ne_scale_up := fun _ _ _ => false;
  ne_scale_down := fun _ _ _ => false;
|}.

Lemma demo_nat_laws : @DocLaws Assignments (@ne_doc demo_nat_env).
Proof. apply content_laws. apply _. Qed.

Lemma demo_nat_sole : forall n b, @doc_others _ (@ne_doc demo_nat_env) n b = None.
Proof. done. Qed.

(** A routed NAT instance of subnet [sn-1] that nothing depends on since time 0. *)
Definition idle_nat : Assignment :=
  mkAssignment "acme" "sn-1" "nat-1" "small" "vm-1" (Some (mkPublicAddress "192.0.2.1" "eip-1")) (Some 0) false false true "" 0 None.

Definition demo_nat_state (d : Assignments) : NatState := mkNatState (mkStore 0 0 (Some (Doc d)) []) ∅ ∅ ∅.

Definition idle_doc : Assignments := {[ "nat-1" := idle_nat ]}.

Lemma idle_doc_wf : nat_wf idle_doc.
Proof.
  unfold idle_doc. split.
  - intros id a Ha. apply lookup_singleton_Some in Ha as [<- <-]. reflexivity.
  - intros i j a b ip Ha Hb _ _. apply lookup_singleton_Some in Ha as [_ <-], Hb as [_ <-]. done.
  - intros i j a b Ha Hb _ _. apply lookup_singleton_Some in Ha as [<- _], Hb as [<- _]. done.
Qed.


(** The idle instance is past its grace period: a pass deletes it. *)
Lemma nat_deletion_justified_witness :
  exists a n1 n2 n3, idle_doc !! "nat-1" = Some a /\ "acme" = as_tenant a /\
    @may_delete demo_nat_env (@ne_config demo_nat_env n1) idle_doc (ListInstances (@ne_db demo_nat_env n2)) (@ne_now demo_nat_env n3) a.
Proof.
  destruct (@nat_deletion_justified demo_nat_env demo_nat_laws demo_nat_sole (demo_nat_state idle_doc) "acme" "nat-1" (Ok tt))
    as [Hin|H].
  - exact idle_doc_wf.
  - apply (list_elem_of_lookup_2 _ 1). vm_compute. reflexivity.
  - apply not_elem_of_nil in Hin. destruct Hin.
  - exact H.
Defined.
End ManagedNatWitnesses.
