(* ===== verification/AgentStreams.v ===== *)
(** * Delivery of files and key requests to agents ([src/internal/server/api/agent])

    [queue.go], [files.go] and [key_requests.go].  An agent keeps a stream open on
    which the server sends file patches: all changed files, then the
    configuration hash that commits them.  Health reports ask for patches
    ([requestFiles]), goroutines generate them, and streams come and go, all at the
    same time.

    The shared maps and the wake-up channels are [Service]; each critical section
    of a mutex is one function.  Streams and generating goroutines are program
    counters over it ([stream_next], [Generator]), and [step] interleaves them in
    any order with any answers of the file generator and the network.  Go compares
    requests, patches and channels by pointer; here they carry a reference from one
    allocator.  Cancelling a request only makes its generator fail, which it may do
    at any time, so [Cancel] leaves no trace in the state. *)

From S2P Require Import Prelude.
From stdpp Require Import relations.

Module Files.

Record PendingFile := mkPendingFile {
  pf_filename : string;
  pf_content : string;
  pf_last_modified : Z;
}.

#[global] Instance PendingFile_eq_dec : EqDecision PendingFile.
Proof. solve_decision. Defined.

Record pendingFilePatch := mkPatch {
  pp_ref : nat;
  pp_files : list PendingFile;
  pp_config_hash : string;
}.

#[global] Instance pendingFilePatch_eq_dec : EqDecision pendingFilePatch.
Proof. solve_decision. Defined.

Record fileRequest := mkFileRequest {
  fr_ref : nat;
  fr_config_hash : string;
}.

(** The maps guarded by [pendingFilesMu], the channels (capacity one) that hold a
    token, and the allocator of references. *)
Record Service := mkService {
  pendingFiles : gmap string pendingFilePatch;
  fileRequests : gmap string fileRequest;
  pendingFilesNotify : gmap string nat;
  chan_tokens : gset nat;
  next_ref : nat;
}.

Definition initial_service : Service := mkService ∅ ∅ ∅ ∅ 0.

(** A send that does not block: a full channel is left full. *)
Definition notifyStream (ch : option nat) (s : Service) : Service :=
  match ch with
  | None => s
  | Some c => {| s with chan_tokens := {[c]} ∪ chan_tokens s |}
  end.

(** ** File requests *)

(** The critical section that starts a request; [None] when nothing is started. *)
Definition requestFiles_start (instanceID configHash : string) (s : Service) : Service * option fileRequest :=
  if bool_decide (pp_config_hash <$> pendingFiles s !! instanceID = Some configHash) then (s, None)
  else
    let request := mkFileRequest (next_ref s) configHash in
    ({| s with fileRequests := <[instanceID := request]> (fileRequests s); next_ref := S (next_ref s) |},
     Some request).

Definition requestFiles (instanceID configHash : string) (s : Service) : Service * option fileRequest :=
  match pendingFilesNotify s !! instanceID with
  | None => (s, None)
  | Some _ =>
      match fileRequests s !! instanceID with
      | Some request =>
          if bool_decide (fr_config_hash request = configHash) then (s, None)
          else requestFiles_start instanceID configHash
                 {| s with fileRequests := delete instanceID (fileRequests s) |}
      | None => requestFiles_start instanceID configHash s
      end
  end.

(** What [GenerateFiles] returns. *)
Record Generated := mkGenerated {
  gen_files : gmap string string;
  gen_runtime_hash : string;
  gen_err : option err;
}.

(** No files asked for (an empty, non-nil list): only the hash is sent. *)
Definition generate (configHash : string) (filenames : option (list string)) (answer : Generated) : Generated :=
  match filenames with
  | Some [] => mkGenerated ∅ configHash None
  | _ => answer
  end.

(** The goroutine's critical section: the result is dropped when the request was
    replaced, generation failed, the configuration moved on, or the stream left.
    [range] is the order in which the map of files is visited.  Returns the channel
    to notify. *)
Definition finishRequest (instanceID : string) (request : fileRequest) (g : Generated)
    (range : list (string * string)) (now : Z) (s : Service) : Service * option nat :=
  if bool_decide (fr_ref <$> fileRequests s !! instanceID = Some (fr_ref request)) then
    let s := {| s with fileRequests := delete instanceID (fileRequests s) |} in
    if bool_decide (is_Some (gen_err g)) then (s, None)
    else if bool_decide (gen_runtime_hash g ≠ fr_config_hash request) then (s, None)
    else if bool_decide (gen_runtime_hash g = "") then (s, None)
    else match pendingFilesNotify s !! instanceID with
      | None => (s, None)
      | Some notify =>
          let files := (fun '(filename, content) => mkPendingFile filename content now) <$> range in
          let patch := mkPatch (next_ref s) files (gen_runtime_hash g) in
          ({| s with pendingFiles := <[instanceID := patch]> (pendingFiles s); next_ref := S (next_ref s) |},
           Some notify)
      end
  else (s, None).

Definition ForgetInstance (instanceID : string) (s : Service) : Service :=
  {| s with pendingFiles := delete instanceID (pendingFiles s);
            fileRequests := delete instanceID (fileRequests s) |}.

(** ** Streams *)

(** Records a new channel and returns it with the one it replaced, which is
    notified after the critical section. *)
Definition registerPendingFilesStream (instanceID : string) (s : Service) : Service * (nat * option nat) :=
  let ch := next_ref s in
  ({| s with pendingFilesNotify := <[instanceID := ch]> (pendingFilesNotify s); next_ref := S ch |},
   (ch, pendingFilesNotify s !! instanceID)).

Definition unregisterPendingFilesStream (instanceID : string) (ch : nat) (s : Service) : Service :=
  if bool_decide (pendingFilesNotify s !! instanceID = Some ch) then
    {| s with pendingFilesNotify := delete instanceID (pendingFilesNotify s);
              pendingFiles := delete instanceID (pendingFiles s);
              fileRequests := delete instanceID (fileRequests s) |}
  else s.

(** [proto.FileTransfer]: a file, or the hash that ends a patch. *)
Inductive FileTransfer :=
  | TransferFile (file : PendingFile)
  | TransferCommit (configHash : string).

#[global] Instance FileTransfer_eq_dec : EqDecision FileTransfer.
Proof. solve_decision. Defined.

Definition patch_messages (p : pendingFilePatch) : list FileTransfer :=
  (TransferFile <$> pp_files p) ++ [TransferCommit (pp_config_hash p)].

(** First critical section of [sendPendingFiles]: [None] when the stream was
    replaced, otherwise the pending patch. *)
Definition sendPendingFiles_begin (instanceID : string) (owner : nat) (s : Service)
    : option (option pendingFilePatch) :=
  if bool_decide (pendingFilesNotify s !! instanceID ≠ Some owner) then None
  else Some (pendingFiles s !! instanceID).

(** Last critical section of [sendPendingFiles]: a newer patch is not cleared. *)
Definition sendPendingFiles_end (instanceID : string) (owner : nat) (pending : pendingFilePatch)
    (s : Service) : Service :=
  if bool_decide (pendingFilesNotify s !! instanceID = Some owner) &&
     bool_decide (pp_ref <$> pendingFiles s !! instanceID = Some (pp_ref pending))
  then {| s with pendingFiles := delete instanceID (pendingFiles s) |}
  else s.

(** Where [ReceiveFiles] is: registered but the replaced stream is not yet
    notified, at the top of the loop, sending a patch (with the messages left),
    blocked in [select], returning, or gone. *)
Inductive StreamPc :=
  | Registered (previous : option nat)
  | Checking
  | Sending (patch : pendingFilePatch) (rest : list FileTransfer)
  | Waiting
  | Closing
  | Closed.

#[global] Instance StreamPc_eq_dec : EqDecision StreamPc.
Proof. solve_decision. Defined.

(** A call of [ReceiveFiles] and the messages sent on its stream, oldest first. *)
Record Stream := mkStream {
  st_instance : string;
  st_pc : StreamPc;
  st_sent : list FileTransfer;
}.

#[global] Instance Stream_eq_dec : EqDecision Stream.
Proof. solve_decision. Defined.

Definition goto (pc : StreamPc) (st : Stream) : Stream := {| st with st_pc := pc |}.

Inductive StreamEvent :=
  | Proceed        (* run up to the next point that waits *)
  | SendOk         (* stream.Send returns nil *)
  | SendErr        (* stream.Send returns an error *)
  | Woken          (* <-notify *)
  | Disconnected.  (* <-stream.Context().Done() *)

(** [ReceiveFiles] and [sendPendingFiles], one step. *)
Definition stream_next (ch : nat) (ev : StreamEvent) (st : Stream) (s : Service) : option (Service * Stream) :=
  match st_pc st, ev with
  | Registered previous, Proceed => Some (notifyStream previous s, goto Checking st)
  | Checking, Proceed =>
      Some (s, match sendPendingFiles_begin (st_instance st) ch s with
               | None => goto Closing st
               | Some None => goto Waiting st
               | Some (Some pending) => goto (Sending pending (patch_messages pending)) st
               end)
  | Sending pending (m :: rest), SendOk =>
      Some (s, mkStream (st_instance st) (Sending pending rest) (st_sent st ++ [m]))
  | Sending pending (m :: rest), SendErr => Some (s, goto Closing st)
  | Sending pending [], Proceed =>
      Some (sendPendingFiles_end (st_instance st) ch pending s, goto Waiting st)
  | Waiting, Woken =>
      if bool_decide (ch ∈ chan_tokens s)
      then Some ({| s with chan_tokens := chan_tokens s ∖ {[ch]} |}, goto Checking st)
      else None
  | Waiting, Disconnected => Some (s, goto Closing st)
  | Closing, Proceed => Some (unregisterPendingFilesStream (st_instance st) ch s, goto Closed st)
  | _, _ => None
  end.

(** ** The system *)

Inductive GeneratorPc :=
  | Generating
  | Notifying (ch : nat)
  | Finished.

(** The goroutine of a request. *)
Record Generator := mkGenerator {
  g_instance : string;
  g_request : fileRequest;
  g_filenames : option (list string);
  g_pc : GeneratorPc;
}.

(** Streams by their channel, goroutines by their request. *)
Record System := mkSystem {
  sys_service : Service;
  sys_streams : gmap nat Stream;
  sys_generators : gmap nat Generator;
}.

Definition initial : System := mkSystem initial_service ∅ ∅.

Definition connect (instanceID : string) (y : System) : System :=
  let '(s, (ch, previous)) := registerPendingFilesStream instanceID (sys_service y) in
  mkSystem s (<[ch := mkStream instanceID (Registered previous) []]> (sys_streams y)) (sys_generators y).

Definition start_request (instanceID configHash : string) (filenames : option (list string)) (y : System) : System :=
  let '(s, request) := requestFiles instanceID configHash (sys_service y) in
  mkSystem s (sys_streams y)
    match request with
    | None => sys_generators y
    | Some r => <[fr_ref r := mkGenerator instanceID r filenames Generating]> (sys_generators y)
    end.

Definition finish_request (r : nat) (g : Generator) (answer : Generated) (range : list (string * string))
    (now : Z) (y : System) : System :=
  let result := generate (fr_config_hash (g_request g)) (g_filenames g) answer in
  let '(s, notify) := finishRequest (g_instance g) (g_request g) result range now (sys_service y) in
  mkSystem s (sys_streams y)
    (<[r := {| g with g_pc := match notify with Some ch => Notifying ch | None => Finished end |}]> (sys_generators y)).

Definition notify_stream (r : nat) (g : Generator) (ch : nat) (y : System) : System :=
  mkSystem (notifyStream (Some ch) (sys_service y)) (sys_streams y)
    (<[r := {| g with g_pc := Finished |}]> (sys_generators y)).

Definition forget (instanceID : string) (y : System) : System :=
  {| y with sys_service := ForgetInstance instanceID (sys_service y) |}.

Inductive step : System -> System -> Prop :=
  | step_connect instanceID y : step y (connect instanceID y)
  | step_stream ch ev st s' st' y :
      sys_streams y !! ch = Some st ->
      stream_next ch ev st (sys_service y) = Some (s', st') ->
      step y (mkSystem s' (<[ch := st']> (sys_streams y)) (sys_generators y))
  | step_request instanceID configHash filenames y :
      step y (start_request instanceID configHash filenames y)
  | step_generated r g answer range now y :
      sys_generators y !! r = Some g -> g_pc g = Generating ->
      range ≡ₚ map_to_list (gen_files (generate (fr_config_hash (g_request g)) (g_filenames g) answer)) ->
      step y (finish_request r g answer range now y)
  | step_notify r g ch y :
      sys_generators y !! r = Some g -> g_pc g = Notifying ch ->
      step y (notify_stream r g ch y)
  | step_forget instanceID y : step y (forget instanceID y).

End Files.

(** ** Key generation requests *)

Module Keys.

Record PendingKeyRequest := mkKeyRequest {
  kr_key_names : list string;
  kr_created : Z;
}.

Record Service := mkService {
  pendingKeyRequests : gmap string (list PendingKeyRequest);
  pendingKeyRequestsNotify : gmap string nat;
  chan_tokens : gset nat;
  next_ref : nat;
}.

Definition initial_service : Service := mkService ∅ ∅ ∅ 0.

Definition notifyStream (ch : option nat) (s : Service) : Service :=
  match ch with
  | None => s
  | Some c => {| s with chan_tokens := {[c]} ∪ chan_tokens s |}
  end.

(** The requests queued for an instance ([nil] when there is no entry). *)
Definition queued (instanceID : string) (s : Service) : list PendingKeyRequest :=
  default [] (pendingKeyRequests s !! instanceID).

(** Returns the channel to notify after the critical section. *)
Definition queueKeyRequest (instanceID : string) (keyNames : list string) (now : Z) (s : Service)
    : Service * option nat :=
  ({| s with pendingKeyRequests :=
        <[instanceID := queued instanceID s ++ [mkKeyRequest keyNames now]]> (pendingKeyRequests s) |},
   pendingKeyRequestsNotify s !! instanceID).

Definition getPendingKeyRequests (instanceID : string) (s : Service) : Service * list PendingKeyRequest :=
  match queued instanceID s with
  | [] => (s, [])
  | requests => ({| s with pendingKeyRequests := delete instanceID (pendingKeyRequests s) |}, requests)
  end.

Definition registerPendingKeyRequestsStream (instanceID : string) (s : Service) : Service * nat :=
  let ch := next_ref s in
  ({| s with pendingKeyRequestsNotify := <[instanceID := ch]> (pendingKeyRequestsNotify s); next_ref := S ch |}, ch).

Definition unregisterPendingKeyRequestsStream (instanceID : string) (ch : nat) (s : Service) : Service :=
  if bool_decide (pendingKeyRequestsNotify s !! instanceID = Some ch)
  then {| s with pendingKeyRequestsNotify := delete instanceID (pendingKeyRequestsNotify s) |}
  else s.

(** [sendPendingKeyRequests] once the requests were taken: [sends] answers the
    successive [Send] calls; the requests delivered, and whether all were. *)
Fixpoint sendKeyRequests (sends : nat -> bool) (requests : list PendingKeyRequest)
    : list PendingKeyRequest * bool :=
  match requests with
  | [] => ([], true)
  | r :: rest =>
      if sends 0%nat then
        let '(delivered, ok) := sendKeyRequests (fun n => sends (S n)) rest in (r :: delivered, ok)
      else ([], false)
  end.

(** Critical sections of [pendingKeyRequestsMu] and channel operations, in the order
    in which they happen. *)
Inductive KeyEvent :=
  | KQueue (instanceID : string) (keyNames : list string) (now : Z)
  | KTake (instanceID : string)
  | KRegister (instanceID : string)
  | KUnregister (instanceID : string) (ch : nat)
  | KNotify (ch : nat)
  | KWoken (ch : nat).

(** The state after an event, and the requests a stream of the instance took. *)
Definition key_step (s : Service) (ev : KeyEvent) : Service * option (string * list PendingKeyRequest) :=
  match ev with
  | KQueue instanceID keyNames now => ((queueKeyRequest instanceID keyNames now s).1, None)
  | KTake instanceID =>
      let '(s', requests) := getPendingKeyRequests instanceID s in (s', Some (instanceID, requests))
  | KRegister instanceID => ((registerPendingKeyRequestsStream instanceID s).1, None)
  | KUnregister instanceID ch => (unregisterPendingKeyRequestsStream instanceID ch s, None)
  | KNotify ch => (notifyStream (Some ch) s, None)
  | KWoken ch => ({| s with chan_tokens := chan_tokens s ∖ {[ch]} |}, None)
  end.

Fixpoint run_keys (s : Service) (evs : list KeyEvent) : Service * list (string * list PendingKeyRequest) :=
  match evs with
  | [] => (s, [])
  | ev :: rest =>
      let '(s', taken) := key_step s ev in
      let '(s'', later) := run_keys s' rest in
      (s'', option_list taken ++ later)
  end.

(** The requests queued for an instance in a sequence of events. *)
Definition queued_by (instanceID : string) (ev : KeyEvent) : list PendingKeyRequest :=
  match ev with
  | KQueue i keyNames now => if bool_decide (i = instanceID) then [mkKeyRequest keyNames now] else []
  | _ => []
  end.

(** The requests taken for an instance. *)
Definition taken_for (instanceID : string) (taken : string * list PendingKeyRequest) : list PendingKeyRequest :=
  if bool_decide (taken.1 = instanceID) then taken.2 else [].

End Keys.
