(* ===== verification/AgentStreamsFacts.v ===== *)
(** * Theorems about the delivery of files and key requests to agents

    Invariants of the interleaved system of [AgentStreams.v], by induction on its
    steps: no wake-up is lost, patches are sent whole and committed last, and only
    a result of the newest request is ever installed. *)

From S2P Require Import Prelude AgentStreams.
From stdpp Require Import relations.

Module FilesFacts.
Import Files.

(** ** Every reference in use was allocated *)

Definition allocated (s : Service) : Prop :=
  (forall i ch, pendingFilesNotify s !! i = Some ch -> (ch < next_ref s)%nat) /\
  (forall i p, pendingFiles s !! i = Some p -> (pp_ref p < next_ref s)%nat) /\
  (forall i r, fileRequests s !! i = Some r -> (fr_ref r < next_ref s)%nat).

(** ** Who will wake a stream *)

(** A token is in the channel, or a goroutine is about to put one there. *)
Definition signalled (ch : nat) (y : System) : Prop :=
  ch ∈ chan_tokens (sys_service y) \/
  (exists r g, sys_generators y !! r = Some g /\ g_pc g = Notifying ch).

(** The stream that replaced [ch] is about to wake it. *)
Definition replaced_by_new (ch : nat) (y : System) : Prop :=
  exists ch' st', sys_streams y !! ch' = Some st' /\ st_pc st' = Registered (Some ch).

Definition current (ch : nat) (st : Stream) (y : System) : Prop :=
  pendingFilesNotify (sys_service y) !! st_instance st = Some ch.

#[global] Instance current_dec ch st y : Decision (current ch st y).
Proof. unfold current. apply _. Defined.

(** What a stream may rely on at each point of its loop. *)
Definition stream_ok (ch : nat) (st : Stream) (y : System) : Prop :=
  (ch < next_ref (sys_service y))%nat /\
  match st_pc st with
  | Waiting =>
      (current ch st y -> is_Some (pendingFiles (sys_service y) !! st_instance st) -> signalled ch y) /\
      (~ current ch st y -> signalled ch y \/ replaced_by_new ch y)
  | Sending p rest =>
      (current ch st y ->
        forall p', pendingFiles (sys_service y) !! st_instance st = Some p' -> pp_ref p' = pp_ref p \/ signalled ch y) /\
      (~ current ch st y -> signalled ch y \/ replaced_by_new ch y)
  | Closed => ~ current ch st y
  | _ => True
  end.

(** The messages on a stream are whole patches, each ended by its hash, and a part
    of one patch after them. *)
Definition sent_ok (st : Stream) : Prop :=
  exists done part,
    st_sent st = concat (patch_messages <$> done) ++ part /\
    match st_pc st with
    | Sending p rest => part ++ rest = patch_messages p
    | Closing | Closed => exists p, part `prefix_of` patch_messages p
    | _ => part = []
    end.

Record sys_ok (y : System) : Prop := {
  ok_allocated : allocated (sys_service y);
  ok_notify : forall i ch, pendingFilesNotify (sys_service y) !! i = Some ch ->
    exists st, sys_streams y !! ch = Some st /\ st_instance st = i;
  ok_pending : forall i, is_Some (pendingFiles (sys_service y) !! i) \/ is_Some (fileRequests (sys_service y) !! i) ->
    is_Some (pendingFilesNotify (sys_service y) !! i);
  ok_generators : forall r g, sys_generators y !! r = Some g -> (r < next_ref (sys_service y))%nat;
  ok_streams : forall ch st, sys_streams y !! ch = Some st -> stream_ok ch st y;
}.

(** ** What a step of another goroutine leaves alone *)

(** The interference a stream tolerates: its wake-ups stay on their way, it stops
    being current only by being replaced, and a new patch comes with a wake-up. *)
Definition tolerates (ch : nat) (st : Stream) (y y' : System) : Prop :=
  (next_ref (sys_service y) <= next_ref (sys_service y'))%nat /\
  (signalled ch y -> signalled ch y') /\
  (replaced_by_new ch y -> signalled ch y' \/ replaced_by_new ch y') /\
  (current ch st y' -> current ch st y) /\
  (current ch st y -> current ch st y' \/ signalled ch y' \/ replaced_by_new ch y') /\
  (current ch st y' -> forall p, pendingFiles (sys_service y') !! st_instance st = Some p ->
     pendingFiles (sys_service y) !! st_instance st = Some p \/ signalled ch y').

Lemma stream_ok_tolerates ch st y y' : tolerates ch st y y' -> stream_ok ch st y -> stream_ok ch st y'.
Proof.
  intros (Href & Hsig & Hnew & Hcur & Hcur' & Hpend) [Hlt Hpc]. split; [lia|].
  assert (~ current ch st y' -> (~ current ch st y -> signalled ch y \/ replaced_by_new ch y) ->
          signalled ch y' \/ replaced_by_new ch y') as Hgone.
  { intros Hn Hold. destruct (decide (current ch st y)) as [Hc|Hc]; [naive_solver|].
    destruct (Hold Hc); auto. }
  destruct (st_pc st); try done; [| |naive_solver].
  - destruct Hpc as [Hp Hn]. split; [|by auto]. intros Hc p' Hp'.
    destruct (Hpend Hc p' Hp') as [Hold|]; [|by right].
    destruct (Hp (Hcur Hc) p' Hold); auto.
  - destruct Hpc as [Hp Hn]. split; [|by auto]. intros Hc [p' Hp'].
    destruct (Hpend Hc p' Hp'); eauto.
Qed.

(** Only the maps of wake-ups matter when the notify map and tokens are kept. *)
Lemma signalled_tokens ch y y' :
  chan_tokens (sys_service y) ⊆ chan_tokens (sys_service y') ->
  (forall r g, sys_generators y !! r = Some g -> g_pc g = Notifying ch ->
     ch ∈ chan_tokens (sys_service y') \/ sys_generators y' !! r = Some g) ->
  signalled ch y -> signalled ch y'.
Proof. intros Ht Hg [Hc|(r & g & Hr & Hpc)]; [left; set_solver|]. unfold signalled. naive_solver. Qed.

(** A new stream. *)
Lemma connect_tolerates i ch st y :
  sys_ok y -> sys_streams y !! ch = Some st -> tolerates ch st y (connect i y).
Proof.
  intros Hok Hst. pose proof (ok_streams y Hok ch st Hst) as [Hlt _].
  unfold tolerates, connect. simpl. split_and!; [lia|done| | | |by auto].
  - intros (ch' & st' & Hch' & Hpc). right. exists ch', st'. split; [|done].
    simpl. pose proof (ok_streams y Hok ch' st' Hch') as [Hlt' _]. by rewrite lookup_insert_ne by lia.
  - unfold current. simpl. rewrite lookup_insert. case_decide; [|done]. intros [= <-]. lia.
  - unfold current. simpl. intros Hc. destruct (decide (i = st_instance st)) as [->|Hne].
    + right. right. exists (next_ref (sys_service y)). eexists. simpl. rewrite lookup_insert_eq.
      split; [done|]. simpl. by rewrite Hc.
    + left. by rewrite lookup_insert_ne.
Qed.

(** What a step of a stream does to the shared state. *)
Lemma stream_next_effects ch0 ev st0 s s' st0' :
  stream_next ch0 ev st0 s = Some (s', st0') ->
  next_ref s' = next_ref s /\ st_instance st0' = st_instance st0 /\
  (forall c, c ≠ ch0 -> c ∈ chan_tokens s -> c ∈ chan_tokens s') /\
  (forall c, st_pc st0 = Registered (Some c) -> c ∈ chan_tokens s') /\
  (forall i c, pendingFilesNotify s' !! i = Some c -> pendingFilesNotify s !! i = Some c) /\
  (forall i c, c ≠ ch0 -> pendingFilesNotify s !! i = Some c -> pendingFilesNotify s' !! i = Some c) /\
  (forall i p, pendingFiles s' !! i = Some p -> pendingFiles s !! i = Some p) /\
  (forall i r, fileRequests s' !! i = Some r -> fileRequests s !! i = Some r) /\
  (forall i, pendingFilesNotify s' !! i = None ->
     pendingFilesNotify s !! i = None \/ (pendingFiles s' !! i = None /\ fileRequests s' !! i = None)) /\
  (forall c, st_pc st0' ≠ Registered c).
Proof.
  unfold stream_next. intros Hn.
  destruct (st_pc st0) as [prev| |p [|m rest]| | |] eqn:Hpc, ev; try done;
    try (case_bool_decide; [|done]); simplify_eq/=; try (split_and!; naive_solver).
  - destruct prev; simpl; split_and!; set_solver.
  - split_and!; repeat case_match; naive_solver.
  - unfold sendPendingFiles_end. case_match; simpl; split_and!; try naive_solver.
    intros i q. rewrite lookup_delete_Some. naive_solver.
  - split_and!; set_solver.
  - unfold unregisterPendingFilesStream. case_bool_decide as Hcur; simpl; split_and!; try naive_solver.
    + intros i c. rewrite lookup_delete_Some. naive_solver.
    + intros i c Hc Hi. rewrite lookup_delete_ne; [done|]. intros <-. congruence.
    + intros i q. rewrite lookup_delete_Some. naive_solver.
    + intros i q. rewrite lookup_delete_Some. naive_solver.
    + intros i. rewrite !lookup_delete. case_decide; naive_solver.
Qed.

Lemma stream_tolerates ch0 ev st0 s' st0' ch st y :
  sys_streams y !! ch0 = Some st0 ->
  stream_next ch0 ev st0 (sys_service y) = Some (s', st0') -> ch ≠ ch0 ->
  tolerates ch st y (mkSystem s' (<[ch0 := st0']> (sys_streams y)) (sys_generators y)).
Proof.
  intros Hst0 (Href & Hi & Htok & Hprev & Hcur & Hcur' & Hpend & _)%stream_next_effects Hne.
  unfold tolerates, current. simpl. split_and!; [lia| | |by auto|by auto|by auto].
  - intros [Ht|Hg]; [left; by apply Htok|by right].
  - intros (ch' & st' & Hst' & Hpc). destruct (decide (ch' = ch0)) as [->|Hn].
    + left. left. apply Hprev. congruence.
    + right. exists ch', st'. simpl. by rewrite lookup_insert_ne.
Qed.

(** What starting a request does to the shared state. *)
Lemma requestFiles_effects i h s s' r :
  requestFiles i h s = (s', r) ->
  pendingFiles s' = pendingFiles s /\ pendingFilesNotify s' = pendingFilesNotify s /\
  chan_tokens s' = chan_tokens s /\ (next_ref s <= next_ref s')%nat /\
  (forall j q, fileRequests s' !! j = Some q ->
     (fileRequests s !! j = Some q \/ (j = i /\ r = Some q)) ) /\
  (forall q, r = Some q -> fr_ref q = next_ref s /\ next_ref s' = S (next_ref s) /\
     fr_config_hash q = h /\ is_Some (pendingFilesNotify s !! i)).
Proof.
  unfold requestFiles, requestFiles_start. intros Hr.
  repeat case_match; simplify_eq/=; split_and!; try done; try lia; try naive_solver;
    intros j q; rewrite ?lookup_insert_Some, ?lookup_delete_Some; naive_solver.
Qed.

Lemma request_tolerates i h fs ch st y :
  sys_ok y -> tolerates ch st y (start_request i h fs y).
Proof.
  intros Hok. unfold start_request. destruct (requestFiles i h (sys_service y)) as [s' r] eqn:Hr.
  apply requestFiles_effects in Hr as (Hp & Hn & Ht & Href & _ & Hq).
  unfold tolerates, current. simpl. rewrite Hp, Hn. split_and!; [lia| |by auto..].
  apply signalled_tokens; simpl; [by rewrite Ht|]. intros k g Hk _. right.
  destruct r as [q|]; [|done]. destruct (Hq q eq_refl) as [-> _].
  apply ok_generators in Hk as Hlt; [|done]. by rewrite lookup_insert_ne by lia.
Qed.

(** What the end of a request does: an installed patch answers the newest request
    of an instance whose stream is there. *)
Lemma finishRequest_effects i q g range now s s' n :
  finishRequest i q g range now s = (s', n) ->
  pendingFilesNotify s' = pendingFilesNotify s /\ chan_tokens s' = chan_tokens s /\
  (next_ref s <= next_ref s')%nat /\
  (forall j r, fileRequests s' !! j = Some r -> fileRequests s !! j = Some r) /\
  (n = None -> pendingFiles s' = pendingFiles s) /\
  (forall ch, n = Some ch -> pendingFilesNotify s !! i = Some ch /\ next_ref s' = S (next_ref s) /\
     fr_ref <$> fileRequests s !! i = Some (fr_ref q) /\ gen_err g = None /\
     gen_runtime_hash g = fr_config_hash q /\ gen_runtime_hash g ≠ "" /\
     pendingFiles s' = <[i := mkPatch (next_ref s)
       ((fun '(filename, content) => mkPendingFile filename content now) <$> range) (gen_runtime_hash g)]> (pendingFiles s)).
Proof.
  unfold finishRequest. intros Hr.
  repeat case_match; simplify_eq/=; repeat match goal with
    | H : bool_decide _ = true |- _ => apply bool_decide_eq_true in H
    | H : bool_decide _ = false |- _ => apply bool_decide_eq_false in H
    end; split_and!; try done; try lia;
    try (intros j r; rewrite lookup_delete_Some; naive_solver); try naive_solver.
  intros ch [= <-]. split_and!; try done.
  - by apply eq_None_not_Some.
  - by apply dec_stable.
Qed.

Lemma generated_tolerates r g answer range now ch st y :
  sys_generators y !! r = Some g -> g_pc g = Generating ->
  tolerates ch st y (finish_request r g answer range now y).
Proof.
  intros Hg Hpc. unfold finish_request.
  destruct (finishRequest _ _ _ _ _ _) as [s' n] eqn:Hf.
  apply finishRequest_effects in Hf as (Hn & Ht & Href & _ & Hnone & Hsome).
  unfold tolerates, current. simpl. rewrite Hn. split_and!; [lia| |by auto..|].
  - apply signalled_tokens; simpl; [by rewrite Ht|]. intros k g' Hk Hk'. right.
    destruct (decide (k = r)) as [->|]; [congruence|]. by rewrite lookup_insert_ne.
  - intros Hc p Hp. destruct n as [ch'|]; [|left; by rewrite <-Hnone].
    destruct (Hsome ch' eq_refl) as (Hch' & _ & _ & _ & _ & _ & Hpend). rewrite Hpend in Hp.
    apply lookup_insert_Some in Hp as [[Hi _]|[_ Hp]]; [|by left].
    rewrite Hi in Hch'. right. right. exists r. eexists. simpl. rewrite lookup_insert_eq. split; [done|]. simpl. congruence.
Qed.

Lemma notify_tolerates r g ch0 ch st y :
  sys_generators y !! r = Some g -> g_pc g = Notifying ch0 -> tolerates ch st y (notify_stream r g ch0 y).
Proof.
  intros Hg Hpc. unfold tolerates, current, notify_stream. simpl. split_and!; [lia| |by auto..].
  apply signalled_tokens; simpl; [set_solver|]. intros k g' Hk Hk'.
  destruct (decide (k = r)) as [->|]; [|right; by rewrite lookup_insert_ne].
  left. assert (ch = ch0) as -> by congruence. set_solver.
Qed.

Lemma forget_tolerates i ch st y : tolerates ch st y (forget i y).
Proof.
  unfold tolerates, current, forget. simpl. split_and!; [lia|done|by auto..|].
  intros _ p. rewrite lookup_delete_Some. naive_solver.
Qed.

(** ** A stream's own steps *)

Lemma own_signal ch st' y s' : chan_tokens s' = chan_tokens (sys_service y) ->
  signalled ch y -> signalled ch (mkSystem s' (<[ch := st']> (sys_streams y)) (sys_generators y)).
Proof. intros Ht. apply signalled_tokens; simpl; [by rewrite Ht|by auto]. Qed.

Lemma own_wakeup ch st st' y s' :
  sys_streams y !! ch = Some st -> (forall c, st_pc st ≠ Registered c) -> chan_tokens s' = chan_tokens (sys_service y) ->
  signalled ch y \/ replaced_by_new ch y ->
  signalled ch (mkSystem s' (<[ch := st']> (sys_streams y)) (sys_generators y)) \/
  replaced_by_new ch (mkSystem s' (<[ch := st']> (sys_streams y)) (sys_generators y)).
Proof.
  intros Hst Hpc Ht [Hs|(ch' & st2 & Hst2 & Hpc2)]; [left; by apply own_signal|].
  right. exists ch', st2. simpl. rewrite lookup_insert_ne; [done|]. intros <-. congruence.
Qed.

Lemma stream_step_ok ch ev st s' st' y :
  sys_ok y -> sys_streams y !! ch = Some st -> stream_next ch ev st (sys_service y) = Some (s', st') ->
  stream_ok ch st' (mkSystem s' (<[ch := st']> (sys_streams y)) (sys_generators y)).
Proof.
  intros Hok Hst Hn. pose proof (ok_streams y Hok ch st Hst) as [Hlt Hpc].
  pose proof (stream_next_effects _ _ _ _ _ _ Hn) as (Href & Hinst & _).
  split; [simpl; lia|]. revert Hn. unfold stream_next.
  destruct (st_pc st) as [prev| |p [|m rest]| | |] eqn:Hst', ev; try done; intros Hn;
    try (case_bool_decide; [|done]); simplify_eq/=; try done.
  - unfold sendPendingFiles_begin. case_bool_decide as Hc; simpl; [done|].
    destruct (pendingFiles (sys_service y) !! st_instance st) as [p|] eqn:Hp; simpl; unfold current; simpl.
    + split; [|done]. intros _ p'. rewrite Hp. intros [= <-]. by left.
    + split; [|done]. intros _ [p' Hp']. congruence.
  - destruct Hpc as [Hp Hn]. unfold sendPendingFiles_end. case_match eqn:Hm; simpl.
    + apply andb_true_iff in Hm as [Hc%bool_decide_eq_true _]. unfold current. simpl.
      rewrite lookup_delete_eq. split; [|done]. by intros _ [].
    + split; [|intros Hc; eapply own_wakeup; [done|congruence|done|by apply Hn]].
      intros Hc [p' Hp']. simpl in Hp'. apply own_signal; [done|].
      destruct (Hp Hc p' Hp') as [Heq|]; [|by auto].
      unfold current in Hc. simpl in Hc. rewrite !bool_decide_true in Hm by (rewrite ?Hp'; simpl; congruence). done.
  - destruct Hpc as [Hp Hn]. split; [|intros Hc; eapply own_wakeup; [done|congruence|done|by apply Hn]].
    intros Hc p' Hp'. destruct (Hp Hc p' Hp'); [by left|right]. by apply own_signal.
  - unfold unregisterPendingFilesStream, current. simpl. case_bool_decide; simpl; [by rewrite lookup_delete_eq|done].
Qed.

(** ** The invariant holds in every reachable state *)

Lemma initial_ok : sys_ok initial.
Proof.
  split; unfold allocated; simpl; [split_and!|..]; intros *; rewrite ?lookup_empty; try done.
  by intros [[]|[]].
Qed.

(** Streams other than the one that moves are left alone by every step. *)
Lemma step_tolerates y y' ch st :
  sys_ok y -> step y y' -> sys_streams y !! ch = Some st ->
  sys_streams y' !! ch = Some st -> stream_ok ch st y'.
Proof.
  intros Hok Hstep Hst Hst'. pose proof (ok_streams y Hok ch st Hst) as Hold.
  destruct Hstep as [i y|ch0 ev st0 s' st0' y Hst0 Hn|i h fs y|r g a l now y Hg Hpc Hperm|r g c y Hg Hpc|i y].
  - by eapply stream_ok_tolerates, Hold; apply connect_tolerates.
  - destruct (decide (ch = ch0)) as [->|Hne].
    + simpl in Hst'. rewrite lookup_insert_eq in Hst'. simplify_eq. by eapply stream_step_ok.
    + by eapply stream_ok_tolerates, Hold; eapply stream_tolerates.
  - by eapply stream_ok_tolerates, Hold; apply request_tolerates.
  - by eapply stream_ok_tolerates, Hold; eapply generated_tolerates.
  - by eapply stream_ok_tolerates, Hold; eapply notify_tolerates.
  - by eapply stream_ok_tolerates, Hold; apply forget_tolerates.
Qed.

(** The part of the invariant about the shared maps. *)
Lemma step_allocated y y' : sys_ok y -> step y y' -> allocated (sys_service y').
Proof.
  intros Hok Hstep. destruct (ok_allocated y Hok) as (Hn & Hp & Hr). unfold allocated.
  destruct Hstep as [i y|ch0 ev st0 s' st0' y Hst0 Hs|i h fs y|r g a l now y Hg Hpc Hperm|r g c y Hg Hpc|i y]; simpl.
  - split_and!.
    + intros j ch. rewrite lookup_insert_Some. intros [[_ <-]|[_ H]]; [lia|]. apply Hn in H. lia.
    + intros j p H. apply Hp in H. lia.
    + intros j q H. apply Hr in H. lia.
  - apply stream_next_effects in Hs as (-> & _ & _ & _ & Hs1 & _ & Hs2 & Hs3 & _). split_and!; eauto.
  - unfold start_request. destruct (requestFiles i h (sys_service y)) as [s' q] eqn:Hq. simpl.
    apply requestFiles_effects in Hq as (-> & -> & _ & Href & Hreq & Hnew). split_and!.
    + intros j ch H. apply Hn in H. lia.
    + intros j p H. apply Hp in H. lia.
    + intros j q' [H|[-> ->]]%Hreq; [apply Hr in H; lia|]. destruct (Hnew q' eq_refl). lia.
  - unfold finish_request. destruct (finishRequest _ _ _ _ _ _) as [s' n] eqn:Hf. simpl.
    apply finishRequest_effects in Hf as (-> & _ & Href & Hreq & Hnone & Hsome). split_and!.
    + intros j ch H. apply Hn in H. lia.
    + intros j p H. destruct n as [ch|]; [|rewrite Hnone in H by done; apply Hp in H; lia].
      destruct (Hsome ch eq_refl) as (_ & Hnext & _ & _ & _ & _ & Hpend). rewrite Hpend in H.
      apply lookup_insert_Some in H as [[_ <-]|[_ H]]; [simpl; lia|]. apply Hp in H. lia.
    + intros j q H%Hreq. apply Hr in H. lia.
  - split_and!; eauto.
  - split_and!; [by eauto|..]; intros j q; rewrite lookup_delete_Some; naive_solver.
Qed.

Lemma step_generators y y' r g :
  sys_ok y -> step y y' -> sys_generators y' !! r = Some g -> (r < next_ref (sys_service y'))%nat.
Proof.
  intros Hok Hstep. pose proof (ok_generators y Hok) as Hgen.
  destruct Hstep as [i y|ch0 ev st0 s' st0' y Hst0 Hs|i h fs y|r0 g0 a l now y Hg Hpc Hperm|r0 g0 c y Hg Hpc|i y]; simpl.
  - intros H%Hgen. lia.
  - apply stream_next_effects in Hs as (-> & _). by apply Hgen.
  - unfold start_request. destruct (requestFiles i h (sys_service y)) as [s' q] eqn:Hq. simpl.
    apply requestFiles_effects in Hq as (_ & _ & _ & Href & _ & Hnew). destruct q as [q|].
    + destruct (Hnew q eq_refl) as (-> & -> & _). rewrite lookup_insert_Some. intros [[<- _]|[_ H%Hgen]]; lia.
    + intros H%Hgen. lia.
  - unfold finish_request. destruct (finishRequest _ _ _ _ _ _) as [s' n] eqn:Hf. simpl.
    apply finishRequest_effects in Hf as (_ & _ & Href & _).
    rewrite lookup_insert_Some. apply Hgen in Hg. intros [[<- _]|[_ H%Hgen]]; lia.
  - rewrite lookup_insert_Some. apply Hgen in Hg. intros [[<- _]|[_ H%Hgen]]; lia.
  - apply Hgen.
Qed.

(** The notify map points at streams of its instance. *)
Lemma step_notify_map y y' i ch :
  sys_ok y -> step y y' -> pendingFilesNotify (sys_service y') !! i = Some ch ->
  exists st, sys_streams y' !! ch = Some st /\ st_instance st = i.
Proof.
  intros Hok Hstep. pose proof (ok_notify y Hok i ch) as Hn.
  destruct Hstep as [j y|ch0 ev st0 s' st0' y Hst0 Hs|j h fs y|r0 g0 a l now y Hg Hpc Hperm|r0 g0 c y Hg Hpc|j y]; simpl.
  - rewrite !lookup_insert_Some. intros [[-> <-]|[Hj H]].
    + eexists. by rewrite lookup_insert_eq.
    + destruct (Hn H) as (st & Hst & Hi). exists st. split; [|done].
      pose proof (ok_streams y Hok ch st Hst) as [Hlt _]. by rewrite lookup_insert_ne by lia.
  - apply stream_next_effects in Hs as (_ & Hi & _ & _ & Hcur & _). intros H%Hcur.
    destruct (Hn H) as (st & Hst & Hsti). destruct (decide (ch = ch0)) as [->|Hne].
    + exists st0'. rewrite lookup_insert_eq. split; [done|congruence].
    + exists st. by rewrite lookup_insert_ne.
  - unfold start_request. destruct (requestFiles j h (sys_service y)) as [s' q] eqn:Hq. simpl.
    by apply requestFiles_effects in Hq as (_ & -> & _).
  - unfold finish_request. destruct (finishRequest _ _ _ _ _ _) as [s' n] eqn:Hf. simpl.
    by apply finishRequest_effects in Hf as (-> & _).
  - done.
  - done.
Qed.

(** File work is kept only for instances with a registered stream. *)
Lemma step_pending y y' i :
  sys_ok y -> step y y' ->
  is_Some (pendingFiles (sys_service y') !! i) \/ is_Some (fileRequests (sys_service y') !! i) ->
  is_Some (pendingFilesNotify (sys_service y') !! i).
Proof.
  intros Hok Hstep. pose proof (ok_pending y Hok i) as Hp.
  destruct Hstep as [j y|ch0 ev st0 s' st0' y Hst0 Hs|j h fs y|r0 g0 a l now y Hg Hpc Hperm|r0 g0 c y Hg Hpc|j y]; simpl.
  - intros H%Hp. rewrite lookup_insert. by case_decide.
  - apply stream_next_effects in Hs as (_ & _ & _ & _ & _ & _ & Hs2 & Hs3 & Hs4 & _). intros H.
    destruct (pendingFilesNotify s' !! i) eqn:Hn; [done|]. destruct (Hs4 i Hn) as [Hn0|[Ha Hb]].
    + rewrite <-Hn0. apply Hp. destruct H as [[p H%Hs2]|[q H%Hs3]]; rewrite H; eauto.
    + rewrite Ha, Hb in H. by destruct H as [[]|[]].
  - unfold start_request. destruct (requestFiles j h (sys_service y)) as [s' q] eqn:Hq. simpl.
    apply requestFiles_effects in Hq as (-> & -> & _ & _ & Hreq & Hnew). intros [H|[q' H]]; [by auto|].
    destruct (Hreq i q' H) as [H'|[-> ->]]; [rewrite H' in Hp; eauto|]. by destruct (Hnew q' eq_refl) as (_ & _ & _ & ?).
  - unfold finish_request. destruct (finishRequest _ _ _ _ _ _) as [s' n] eqn:Hf. simpl.
    apply finishRequest_effects in Hf as (-> & _ & _ & Hreq & Hnone & Hsome).
    intros [H|[q' H%Hreq]]; [|rewrite H in Hp; eauto]. destruct n as [ch|]; [|rewrite Hnone in H by done; auto].
    destruct (Hsome ch eq_refl) as (Hch & _ & _ & _ & _ & _ & Hpend). rewrite Hpend in H.
    rewrite lookup_insert in H. case_decide as Hi; [subst i; by rewrite Hch|auto].
  - done.
  - rewrite !lookup_delete. case_decide; [by intros [[]|[]]|done].
Qed.

Lemma step_ok y y' : sys_ok y -> step y y' -> sys_ok y'.
Proof.
  intros Hok Hstep. split.
  - by eapply step_allocated.
  - intros i ch. by eapply step_notify_map.
  - intros i. by eapply step_pending.
  - intros r g. by eapply step_generators.
  - intros ch st Hst. destruct (decide (sys_streams y !! ch = Some st)) as [Hold|Hnew].
    + by eapply step_tolerates.
    + destruct Hstep as [j y|ch0 ev st0 s' st0' y Hst0 Hs|j h fs y|r0 g0 a l now y Hg Hpc Hperm|r0 g0 c y Hg Hpc|j y]; simpl in *.
      * apply lookup_insert_Some in Hst as [[<- <-]|[_ H]]; [|done]. split; simpl; [lia|done].
      * apply lookup_insert_Some in Hst as [[<- <-]|[_ H]]; [|done]. by eapply stream_step_ok.
      * unfold start_request in Hst. by destruct (requestFiles _ _ _).
      * unfold finish_request in Hst. by destruct (finishRequest _ _ _ _ _ _).
      * done.
      * done.
Qed.

Lemma reachable_ok y : rtc step initial y -> sys_ok y.
Proof. intros Hr. pose proof initial_ok as Hok. induction Hr; eauto using step_ok. Qed.

(** ** Wake-ups *)

(** No wake-up is lost: in every reachable state, a stream that is blocked
    although a patch is pending for it, or although a newer stream has replaced it,
    has a token in its channel, or a goroutine is about to put one there, or the
    stream that replaced it is. *)
Theorem no_lost_wakeup y ch st :
  rtc step initial y -> sys_streams y !! ch = Some st -> st_pc st = Waiting ->
  is_Some (pendingFiles (sys_service y) !! st_instance st) \/
  pendingFilesNotify (sys_service y) !! st_instance st ≠ Some ch ->
  ch ∈ chan_tokens (sys_service y) \/
  (exists r g, sys_generators y !! r = Some g /\ g_pc g = Notifying ch) \/
  (exists ch' st', sys_streams y !! ch' = Some st' /\ st_pc st' = Registered (Some ch)).
Proof.
  intros Hok%reachable_ok Hst Hpc Hwork.
  pose proof (ok_streams y Hok ch st Hst) as [_ Hs]. rewrite Hpc in Hs. destruct Hs as [Hp Hn].
  destruct (decide (current ch st y)) as [Hc|Hc].
  - destruct Hwork as [Hw|Hw]; [|done]. destruct (Hp Hc Hw); auto.
  - destruct (Hn Hc) as [[]|]; auto.
Qed.

(** ** Delivery *)

(** A step of a stream on its own, in a system whose stream it is. *)
Lemma stream_run_step ch ev st s' st' s streams gens :
  streams !! ch = Some st -> stream_next ch ev st s = Some (s', st') ->
  step (mkSystem s streams gens) (mkSystem s' (<[ch := st']> streams) gens).
Proof. intros Hst Hn. by apply (step_stream ch ev st s' st' (mkSystem s streams gens)). Qed.

(** Sending what is left of a patch. *)
Lemma send_rest ch i p rest sent s streams gens :
  streams !! ch = Some (mkStream i (Sending p rest) sent) ->
  rtc step (mkSystem s streams gens)
           (mkSystem s (<[ch := mkStream i (Sending p []) (sent ++ rest)]> streams) gens).
Proof.
  revert sent streams. induction rest as [|m rest IH]; intros sent streams Hst.
  - rewrite app_nil_r, insert_id by done. apply rtc_refl.
  - eapply rtc_l; [by eapply (stream_run_step ch SendOk)|].
    etrans; [apply IH; by rewrite lookup_insert_eq|].
    rewrite insert_insert_eq, <-app_assoc. apply rtc_refl.
Qed.

(** Serving a pending patch once woken. *)
Lemma serve_patch ch i p sent s streams gens :
  pendingFilesNotify s !! i = Some ch -> pendingFiles s !! i = Some p -> ch ∈ chan_tokens s ->
  streams !! ch = Some (mkStream i Waiting sent) ->
  exists s', rtc step (mkSystem s streams gens)
               (mkSystem s' (<[ch := mkStream i Waiting (sent ++ patch_messages p)]> streams) gens) /\
    pendingFiles s' !! i = None.
Proof.
  intros Hn Hp Ht Hst. eexists. split.
  - eapply rtc_l; [eapply (stream_run_step ch Woken); [done|]; cbn [stream_next st_pc]; by rewrite bool_decide_true|].
    eapply rtc_l; [eapply (stream_run_step ch Proceed); [by rewrite lookup_insert_eq|]; cbn [stream_next st_pc goto]|].
    { unfold sendPendingFiles_begin. cbn [goto st_instance pendingFilesNotify pendingFiles]. rewrite bool_decide_false by (by intros []). rewrite Hp. done. }
    rewrite insert_insert_eq. etrans; [eapply send_rest; by rewrite lookup_insert_eq|].
    rewrite insert_insert_eq.
    eapply rtc_l; [eapply (stream_run_step ch Proceed); [by rewrite lookup_insert_eq|]; cbn [stream_next st_pc]|].
    { unfold sendPendingFiles_end. cbn [goto st_instance pendingFilesNotify pendingFiles]. rewrite !bool_decide_true by (rewrite ?Hp; done). done. }
    rewrite insert_insert_eq. apply rtc_refl.
  - simpl. by rewrite lookup_delete_eq.
Qed.

(** Delivery is always possible: from every reachable state in which a patch is
    pending and the instance's current stream is blocked, the goroutines alone can
    go on, in a way that sends exactly this patch, the committing hash last, on
    that stream and leaves nothing pending. *)
Theorem pending_patch_deliverable y ch st p :
  rtc step initial y -> sys_streams y !! ch = Some st -> st_pc st = Waiting ->
  pendingFilesNotify (sys_service y) !! st_instance st = Some ch ->
  pendingFiles (sys_service y) !! st_instance st = Some p ->
  exists y', rtc step y y' /\
    sys_streams y' !! ch = Some (mkStream (st_instance st) Waiting (st_sent st ++ patch_messages p)) /\
    pendingFiles (sys_service y') !! st_instance st = None.
Proof.
  intros Hok%reachable_ok Hst Hpc Hn Hp. destruct st as [i pc sent]. simpl in *. subst pc.
  pose proof (ok_streams y Hok ch _ Hst) as [_ [Hsig _]].
  destruct y as [s streams gens]. simpl in *.
  assert (signalled ch (mkSystem s streams gens)) as [Ht|(r & g & Hg & Hgpc)].
  { apply Hsig; [done|]. simpl. by rewrite Hp. }
  - destruct (serve_patch ch i p sent s streams gens) as (s' & Hrun & Hnone); [done..|].
    eexists. split; [exact Hrun|]. simpl. by rewrite lookup_insert_eq.
  - destruct (serve_patch ch i p sent (notifyStream (Some ch) s) streams
      (<[r := {| g with g_pc := Finished |}]> gens)) as (s' & Hrun & Hnone); [done..|set_solver|done|].
    eexists. split.
    + eapply rtc_l, Hrun. by apply (step_notify r g ch (mkSystem s streams gens)).
    + simpl. by rewrite lookup_insert_eq.
Qed.

(** ** Whole patches *)

Lemma stream_next_sent ch ev st s s' st' :
  stream_next ch ev st s = Some (s', st') -> sent_ok st -> sent_ok st'.
Proof.
  unfold stream_next, sent_ok. intros Hn (done & part & Hsent & Hpc).
  destruct (st_pc st) as [prev| |p [|m rest]| | |] eqn:Hst, ev; try done;
    try (case_bool_decide; [|done]); simplify_eq/=; try subst part; try (exists done, []; done).
  - destruct (sendPendingFiles_begin _ _ _) as [[p|]|]; simpl; exists done, []; try done.
    split; [done|]. exists (mkPatch 0 [] ""). apply prefix_nil.
  - exists (done ++ [p]), []. rewrite fmap_app, concat_app. simpl. rewrite !app_nil_r in *. by subst part.
  - exists done, (part ++ [m]). rewrite <-app_assoc. split; [by rewrite Hsent, app_assoc|done].
  - exists done, part. split; [done|]. exists p. rewrite <-Hpc. by eexists.
  - exists done, []. split; [done|]. exists (mkPatch 0 [] ""). apply prefix_nil.
  - by exists done, part.
Qed.

Definition all_sent_ok (y : System) : Prop := forall ch st, sys_streams y !! ch = Some st -> sent_ok st.

Lemma step_sent y y' : step y y' -> all_sent_ok y -> all_sent_ok y'.
Proof.
  intros Hstep IH ch st.
  destruct Hstep as [j y|ch0 ev st0 s' st0' y Hst0 Hs|j h fs y|r0 g0 a l now y Hg Hpc Hperm|r0 g0 c y Hg Hpc|j y]; simpl.
  - rewrite lookup_insert_Some. intros [[_ <-]|[_ H]]; [by exists [], []|by eapply IH].
  - rewrite lookup_insert_Some. intros [[_ <-]|[_ H]]; [|by eapply IH].
    eapply stream_next_sent; [exact Hs|by eapply IH].
  - unfold start_request. destruct (requestFiles _ _ _). apply IH.
  - unfold finish_request. destruct (finishRequest _ _ _ _ _ _). apply IH.
  - apply IH.
  - apply IH.
Qed.

(** Patches reach an agent whole: in every reachable state the messages of a
    stream are a sequence of complete patches, each with all its files before the
    hash that commits it, followed by at most a part of one patch; while nothing is
    being sent and the stream is open there is no such part. *)
Theorem patches_sent_whole y ch st :
  rtc step initial y -> sys_streams y !! ch = Some st ->
  exists done part,
    st_sent st = concat (patch_messages <$> done) ++ part /\
    match st_pc st with
    | Sending p rest => part ++ rest = patch_messages p
    | Closing | Closed => exists p, part `prefix_of` patch_messages p
    | _ => part = []
    end.
Proof.
  intros Hr. assert (all_sent_ok initial) as Hall by done. revert ch st.
  change (all_sent_ok y). induction Hr; eauto using step_sent.
Qed.

(** ** Requests and their goroutines *)

Definition requests_ok (y : System) : Prop :=
  (forall r g, sys_generators y !! r = Some g -> fr_ref (g_request g) = r) /\
  (forall i q, fileRequests (sys_service y) !! i = Some q ->
     exists g, sys_generators y !! fr_ref q = Some g /\ g_request g = q).

(** Replacing a goroutine by a later state of itself. *)
Lemma requests_ok_update y r g g' s' streams' :
  requests_ok y -> sys_generators y !! r = Some g -> g_request g' = g_request g ->
  (forall i q, fileRequests s' !! i = Some q -> fileRequests (sys_service y) !! i = Some q) ->
  requests_ok (mkSystem s' streams' (<[r := g']> (sys_generators y))).
Proof.
  intros [Hg Hq] Hr Heq Hsub. split; simpl.
  - intros k h. rewrite lookup_insert_Some. intros [[<- <-]|[_ H]]; [rewrite Heq|]; eauto.
  - intros i q Hi%Hsub. destruct (Hq i q Hi) as (h & Hh & Hhq).
    destruct (decide (r = fr_ref q)) as [->|Hne]; [|rewrite lookup_insert_ne by done; eauto].
    exists g'. rewrite lookup_insert_eq. split; [done|]. congruence.
Qed.

Lemma step_requests y y' : sys_ok y -> step y y' -> requests_ok y -> requests_ok y'.
Proof.
  intros Hok Hstep Hreq.
  destruct Hstep as [j y|ch0 ev st0 s' st0' y Hst0 Hs|j h fs y|r0 g0 a l now y Hg Hpc Hperm|r0 g0 c y Hg Hpc|j y].
  - done.
  - apply stream_next_effects in Hs as (_ & _ & _ & _ & _ & _ & _ & Hs3 & _).
    split; [apply Hreq|]. intros i q Hi%Hs3. by apply Hreq in Hi.
  - unfold start_request. destruct (requestFiles j h (sys_service y)) as [s' q] eqn:Hq.
    apply requestFiles_effects in Hq as (_ & _ & _ & _ & Hsub & Hnew). destruct Hreq as [Hg Hr].
    destruct q as [q|]; [destruct (Hnew q eq_refl) as (Href & _)|].
    + split; simpl.
      * intros r g. rewrite lookup_insert_Some. intros [[<- <-]|[_ H]]; [done|eauto].
      * intros i q' [H|[-> [= ->]]]%Hsub; [|eexists; by rewrite lookup_insert_eq].
        destruct (Hr i q' H) as (g & Hg' & <-). exists g. split; [|done].
        apply ok_generators in Hg' as Hlt; [|done]. by rewrite lookup_insert_ne by lia.
    + split; [done|]. intros i q' [H|[_ ?]]%Hsub; [by eapply Hr|done].
  - unfold finish_request. destruct (finishRequest _ _ _ _ _ _) as [s' n] eqn:Hf.
    apply finishRequest_effects in Hf as (_ & _ & _ & Hsub & _). by eapply requests_ok_update.
  - by eapply requests_ok_update.
  - split; [apply Hreq|]. simpl. intros i q. rewrite lookup_delete_Some. intros [_ H]. by apply Hreq in H.
Qed.

Lemma reachable_requests y : rtc step initial y -> sys_ok y /\ requests_ok y.
Proof.
  intros Hr. assert (requests_ok initial) as Hreq by (split; simpl; intros *; by rewrite lookup_empty).
  pose proof initial_ok as Hok. revert Hok Hreq. induction Hr; eauto using step_ok, step_requests.
Qed.

(** Stale results are discarded: a patch becomes pending only as the answer of
    the goroutine whose request is the newest one of the instance, generated without
    error for exactly the requested configuration hash, and it holds exactly the
    files that were generated. *)
Theorem newest_request_installed y y' i p :
  rtc step initial y -> step y y' ->
  pendingFiles (sys_service y') !! i = Some p -> pendingFiles (sys_service y) !! i ≠ Some p ->
  exists r g answer,
    let result := generate (fr_config_hash (g_request g)) (g_filenames g) answer in
    sys_generators y !! r = Some g /\ g_pc g = Generating /\
    fileRequests (sys_service y) !! i = Some (g_request g) /\
    gen_err result = None /\ gen_runtime_hash result = fr_config_hash (g_request g) /\
    pp_config_hash p = fr_config_hash (g_request g) /\ pp_config_hash p ≠ "" /\
    (fun f => (pf_filename f, pf_content f)) <$> pp_files p ≡ₚ map_to_list (gen_files result).
Proof.
  intros [Hok [Href Hq]]%reachable_requests Hstep Hnew Hold.
  destruct Hstep as [j y|ch0 ev st0 s' st0' y Hst0 Hs|j h fs y|r0 g0 a l now y Hg Hpc Hperm|r0 g0 c y Hg Hpc|j y]; simpl in *.
  - done.
  - apply stream_next_effects in Hs as (_ & _ & _ & _ & _ & _ & Hs2 & _). by apply Hs2 in Hnew.
  - unfold start_request in Hnew. destruct (requestFiles j h (sys_service y)) as [s' q] eqn:Hr.
    apply requestFiles_effects in Hr as (Hp & _). simpl in Hnew. by rewrite Hp in Hnew.
  - unfold finish_request in Hnew. destruct (finishRequest _ _ _ _ _ _) as [s' n] eqn:Hf. simpl in Hnew.
    apply finishRequest_effects in Hf as (_ & _ & _ & _ & Hnone & Hsome).
    destruct n as [ch|]; [|by rewrite Hnone in Hnew].
    destruct (Hsome ch eq_refl) as (_ & _ & Hr & He & Hh & Hh' & Hpend). rewrite Hpend in Hnew.
    apply lookup_insert_Some in Hnew as [[<- <-]|[_ H]]; [|done]. exists r0, g0, a. cbn zeta. simpl.
    apply fmap_Some in Hr as (q & Hq' & Hqr). destruct (Hq _ q Hq') as (g1 & Hg1 & <-).
    rewrite <-Hqr, (Href _ _ Hg) in Hg1. simplify_eq. split_and!; try done.
    rewrite <-Hperm, <-list_fmap_compose. erewrite list_fmap_ext; [by rewrite list_fmap_id|].
    by intros k [name content] _.
  - done.
  - by apply lookup_delete_Some in Hnew as [_ Hnew].
Qed.

End FilesFacts.

Module KeysFacts.
Import Keys.

Lemma queued_step s ev i s' taken :
  key_step s ev = (s', taken) ->
  concat (taken_for i <$> option_list taken) ++ queued i s' = queued i s ++ queued_by i ev.
Proof.
  unfold key_step, getPendingKeyRequests, unregisterPendingKeyRequestsStream. intros Hs.
  destruct ev as [j names now|j|j|j ch|ch|ch]; simpl in *; simplify_eq/=;
    try (by rewrite app_nil_r).
  - unfold queued. simpl. rewrite lookup_insert. case_bool_decide; case_decide; subst; simpl; rewrite ?app_nil_r; done.
  - rewrite app_nil_r. destruct (queued j s) as [|q qs] eqn:Hq; simplify_eq/=; unfold taken_for; simpl; rewrite app_nil_r.
    + by case_bool_decide.
    + unfold queued in *. simpl. rewrite lookup_delete. case_bool_decide; case_decide; subst; simpl; rewrite ?Hq, ?app_nil_r; done.
  - rewrite app_nil_r. by case_bool_decide.
Qed.

(** Key requests are handed to a stream exactly once and in order: whatever the
    interleaving, what streams took for an instance followed by what is still
    queued is what was queued for it. *)
Theorem key_requests_exactly_once i evs s s' taken :
  run_keys s evs = (s', taken) ->
  concat (taken_for i <$> taken) ++ queued i s' = queued i s ++ concat (queued_by i <$> evs).
Proof.
  revert s taken. induction evs as [|ev evs IH]; intros s taken; simpl.
  - intros [= <- <-]. by rewrite app_nil_r.
  - destruct (key_step s ev) as [s1 t1] eqn:H1, (run_keys s1 evs) as [s2 t2] eqn:H2. intros [= <- <-].
    rewrite fmap_app, concat_app, <-app_assoc, (IH _ _ H2), !app_assoc. f_equal. by apply queued_step.
Qed.

End KeysFacts.

(** ** Concrete runs of the delivery of files

    One agent connects, asks for the files of configuration [v1] and they are
    generated: the hypotheses of the theorems of [AgentStreamsFacts.v] hold. *)
Module AgentStreamsWitnesses.
Import Files FilesFacts.

(** A step of a stream, computed. *)
Definition stream_do (ch : nat) (ev : StreamEvent) (y : System) : System :=
  match sys_streams y !! ch with
  | Some st =>
      match stream_next ch ev st (sys_service y) with
      | Some (s', st') => mkSystem s' (<[ch := st']> (sys_streams y)) (sys_generators y)
      | None => y
      end
  | None => y
  end.

Lemma stream_do_rtc ch ev y : rtc step y (stream_do ch ev y).
Proof.
  unfold stream_do. destruct (sys_streams y !! ch) as [st|] eqn:Hst; [|done].
  destruct (stream_next ch ev st (sys_service y)) as [[s' st']|] eqn:Hn; [|done].
  by eapply rtc_once, step_stream.
Qed.

Definition demo_files : gmap string string := {["kubelet.env" := "A=1"]} ∪ {["motd.json" := "{}"]}.
Definition demo_answer : Generated := mkGenerated demo_files "v1" None.

(** The stream is blocked and a request was started. *)
Definition demo_requested : System :=
  start_request "i-1" "v1" None (stream_do 0 Proceed (stream_do 0 Proceed (connect "i-1" initial))).

Definition demo_generator : Generator := mkGenerator "i-1" (mkFileRequest 1 "v1") None Generating.

(** The files were generated; the goroutine has yet to notify the stream. *)
Definition demo_pending : System :=
  finish_request 1 demo_generator demo_answer (map_to_list demo_files) 7 demo_requested.

Lemma demo_requested_reachable : rtc step initial demo_requested.
Proof.
  unfold demo_requested. etrans; [apply rtc_once, (step_connect "i-1")|].
  etrans; [apply stream_do_rtc|]. etrans; [apply stream_do_rtc|]. apply rtc_once, step_request.
Qed.

Lemma demo_generated_step : step demo_requested demo_pending.
Proof. by apply step_generated; [vm_compute| |]. Qed.

Lemma demo_pending_reachable : rtc step initial demo_pending.
Proof. etrans; [apply demo_requested_reachable|apply rtc_once, demo_generated_step]. Qed.

Definition demo_stream : Stream := mkStream "i-1" Waiting [].
Definition demo_patch : pendingFilePatch :=
  mkPatch 2 ((fun '(name, content) => mkPendingFile name content 7) <$> map_to_list demo_files) "v1".

Lemma demo_pending_stream : sys_streams demo_pending !! 0%nat = Some demo_stream.
Proof. by vm_compute. Qed.
Lemma demo_pending_patch : pendingFiles (sys_service demo_pending) !! "i-1" = Some demo_patch.
Proof. by vm_compute. Qed.

Lemma no_lost_wakeup_witness :
  0%nat ∈ chan_tokens (sys_service demo_pending) \/
  (exists r g, sys_generators demo_pending !! r = Some g /\ g_pc g = Notifying 0) \/
  (exists ch' st', sys_streams demo_pending !! ch' = Some st' /\ st_pc st' = Registered (Some 0%nat)).
Proof.
  apply (no_lost_wakeup demo_pending 0 demo_stream); [apply demo_pending_reachable|apply demo_pending_stream|done|].
  left. eexists. apply demo_pending_patch.
Defined.

Lemma pending_patch_deliverable_witness :
  exists y', rtc step demo_pending y' /\
    sys_streams y' !! 0%nat = Some (mkStream "i-1" Waiting (patch_messages demo_patch)) /\
    pendingFiles (sys_service y') !! "i-1" = None.
Proof.
  apply (pending_patch_deliverable demo_pending 0 demo_stream demo_patch);
    [apply demo_pending_reachable|apply demo_pending_stream|done|by vm_compute|apply demo_pending_patch].
Defined.

(** The stream after it was woken, sent the patch and blocked again. *)
Definition demo_served : System :=
  stream_do 0 Proceed (stream_do 0 SendOk (stream_do 0 SendOk (stream_do 0 SendOk
    (stream_do 0 Proceed (stream_do 0 Woken
      (notify_stream 1 {| demo_generator with g_pc := Notifying 0 |} 0 demo_pending)))))).

Lemma demo_served_reachable : rtc step initial demo_served.
Proof.
  unfold demo_served. etrans; [apply demo_pending_reachable|].
  etrans; [apply rtc_once, (step_notify 1 {| demo_generator with g_pc := Notifying 0 |} 0 demo_pending); [by vm_compute|done]|].
  do 5 (etrans; [apply stream_do_rtc|]). apply stream_do_rtc.
Qed.

Lemma patches_sent_whole_witness :
  exists done part,
    patch_messages demo_patch = concat (patch_messages <$> done) ++ part /\ part = [].
Proof.
  apply (patches_sent_whole demo_served 0 (mkStream "i-1" Waiting (patch_messages demo_patch)));
    [apply demo_served_reachable|by vm_compute].
Defined.

Lemma newest_request_installed_witness :
  exists r g answer,
    let result := generate (fr_config_hash (g_request g)) (g_filenames g) answer in
    sys_generators demo_requested !! r = Some g /\ g_pc g = Generating /\
    fileRequests (sys_service demo_requested) !! "i-1" = Some (g_request g) /\
    gen_err result = None /\ gen_runtime_hash result = fr_config_hash (g_request g) /\
    pp_config_hash demo_patch = fr_config_hash (g_request g) /\ pp_config_hash demo_patch ≠ "" /\
    (fun f => (pf_filename f, pf_content f)) <$> pp_files demo_patch ≡ₚ map_to_list (gen_files result).
Proof.
  apply (newest_request_installed demo_requested demo_pending);
    [apply demo_requested_reachable|apply demo_generated_step|apply demo_pending_patch|by vm_compute].
Defined.

Lemma key_requests_exactly_once_witness :
  let evs := [Keys.KQueue "i-1" ["tls"] 1; Keys.KTake "i-1"; Keys.KQueue "i-1" ["ssh"] 2] in
  concat (Keys.taken_for "i-1" <$> (Keys.run_keys Keys.initial_service evs).2) ++
    Keys.queued "i-1" (Keys.run_keys Keys.initial_service evs).1 =
  [Keys.mkKeyRequest ["tls"] 1; Keys.mkKeyRequest ["ssh"] 2].
Proof.
  intros evs. rewrite (KeysFacts.key_requests_exactly_once "i-1" evs Keys.initial_service
    (Keys.run_keys Keys.initial_service evs).1 (Keys.run_keys Keys.initial_service evs).2); [by vm_compute|].
  by rewrite <-surjective_pairing.
Defined.
End AgentStreamsWitnesses.
