(* ===== verification/Witnesses.v ===== *)
(** * Concrete runs

    A small deployment (one tenant [acme] with one group [web] of size one behind
    one load balancer, two subnets) on which the hypotheses of the theorems hold
    and the modelled code is evaluated. *)

From S2P Require Import Prelude Provider LocalDB LocalDBFacts Config Samples World.
From S2P Require Import Instances InstancesFacts Reconciler ReconcilerFacts GC GCFacts.
Import LocalDB.

(** ** The deployment *)

Definition demo_group : GroupConfig := mkGroupConfig "tpl" (Some 1) "" "" ∅ ∅ None ["lb"].

Definition demo_config : Config :=
  mkConfig "cl" "s1" "zone-a" (60 * second) (300 * second) (600 * second)
    {[ "pool" := ["sn-b"; "sn-a"] ]} [] (mkExpiryConfig 0 0 0)
    {[ "lb" := mkLoadBalancerConfig "aws" [("arn", 443, 8443, 9443)] [] [] [] ]} ∅
    {[ "tpl" := mkTemplateConfig "knc" "amd64" "t3.small" "pool" ∅ ∅ ∅ None 1 ]}
    {[ "acme" := {[ "web" := demo_group ]} ]} ∅ {[ "agent" := mkCertConfig 48 ]} demo_settings.

Definition demo_status (id pid status : string) : InstanceStatus := mkInstanceStatus id pid status "" "" "" "".

(** Everything works; [asleep], [dynok] (dynamic groups load) and [leader] vary. *)
Definition demo_env (asleep dynok leader : bool) : Env := {|
  env_now := fun _ => 100000 * second;
  env_config_loaded := fun _ => true;
  env_config := fun _ => demo_config;
  env_dynamic := fun _ => if dynok then Ok ∅ else Err (ErrExternal 1);
  env_asleep := fun _ _ => asleep;
  env_registration_blocked := fun _ _ => asleep;
  env_leader := fun _ => leader;
  env_db_fault := fun _ => None;
  env_store_fault := fun _ => None;
  env_unmarshal := fun _ _ => None;
  env_new_id := fun _ kind => Ok (kind ++ "-new")%string;
  env_puid_decode := fun id _ => Ok id;
  env_nonce := fun _ id => Ok ("jwt-" ++ id)%string;
  env_userdata := fun _ => Ok tt;
  env_infra_hash := fun _ _ => "hash";
  env_subnet_capacity := fun _ _ => Ok true;
  env_prepare_subnet := fun _ _ _ => PrepReplied (Ok tt);
  env_provider_create := fun _ req => Ok (mkProviderResponse ("vm-" ++ pq_instance_id req)%string "pending" "10.0.0.1" "" "" 0);
  env_provider_delete := fun _ _ _ => Ok tt;
  env_provider_status := fun _ id pid => Ok (demo_status id pid StatusRunning);
  env_provider_list := fun _ _ => Ok ([demo_status "knc-old" "vm-old" StatusRunning], "");
  env_lb_state := fun _ _ => Ok LBTargetDeregistered;
  env_lb_register := fun _ _ => Ok tt;
  env_lb_deregister := fun _ _ => Ok tt;
  env_nat_replace := fun _ _ => NatReplied (Ok tt);
  env_rand := fun _ => 5;
  env_select := fun _ => true;
|}.

(** A managed row of [acme/web]. *)
Definition demo_row (id : string) (registered deleted : option Z) : Instance :=
  mkInstance id "acme" "web" false "sn-a" (Some ("vm-" ++ id)%string) None None None None None None
    ("jwt-" ++ id)%string (Some 0) None registered None None None (Some "hash") None None 0 None deleted.

Definition old : Instance := demo_row "knc-old" (Some 1) None.

Definition demo_db : DB := with_instances [old] (empty_db true).

Definition demo_world (db : DB) : World := mkWorld 0 db ∅ [].

Definition demo_state (db : DB) : RState := mkRState (demo_world db) [] [] ∅ ∅ 0 true false 1.

Lemma demo_db_wf : db_wf demo_db.
Proof. eapply (db_wf_create old (empty_db true)); [apply db_wf_empty|reflexivity]. Qed.

Lemma demo_deleted_wf d : db_wf (with_instances [demo_row "knc-old" (Some 1) (Some d)] (empty_db true)).
Proof. eapply (db_wf_create (demo_row "knc-old" (Some 1) (Some d)) (empty_db true)); [apply db_wf_empty|reflexivity]. Qed.

(** ** LocalDB *)

Lemma reachable_db_wf_witness : db_wf demo_db.
Proof.
  apply (reachable_db_wf true). eapply rtc_l; [|apply rtc_refl]. by eapply (step_create old).
Defined.

Lemma group_query_spec_witness :
  GetInstanceCountByGroup "acme" "web" true demo_db = 1 /\ NoDup (GetInstancesByGroup "acme" "web" true demo_db).
Proof.
  destruct (group_query_spec "acme" "web" true demo_db demo_db_wf) as (_ & Hnd & _ & Hc). split; [|exact Hnd].
  rewrite Hc. reflexivity.
Defined.

Lemma soft_delete_spec_witness :
  exists db', DeleteInstance 5 "knc-old" demo_db = Ok db' /\ GetInstance "knc-old" db' = Err ErrNoRows.
Proof.
  eexists. split; [reflexivity|]. eapply (soft_delete_spec 5 "knc-old" demo_db). reflexivity.
Defined.

Lemma provider_missing_spec_witness :
  exists i, i ∈ instances demo_db /\ i_id i = "knc-old" /\ provider_missing {[ "vm-knc-old" := "other" ]} i = true.
Proof.
  edestruct (provider_missing_spec 5 {[ "vm-knc-old" := "other" ]} demo_db) as (_ & _ & Hids);
    [exact demo_db_wf|vm_compute; reflexivity|]. apply Hids. left.
Defined.

(** ** Config *)

Lemma static_group_restricted_witness :
  exists g, Config.GetGroup demo_config (Ok ∅) "acme" "web" = Ok g /\ gc_template g = "tpl".
Proof.
  destruct (static_group_restricted demo_config ∅ "acme" "web" demo_group) as (g & Hg & Ht & _);
    [discriminate|reflexivity|]. exists g. split; [exact Hg|exact Ht].
Defined.

(** ** Instances *)

Lemma tenant_isolation_witness :
  is_ok (Instances.DeleteInstance (H := demo_env false true true) "evil" "knc-old" (demo_world demo_db)).2 = false.
Proof.
  eapply (tenant_isolation (H := demo_env false true true) "evil" "knc-old" (demo_world demo_db) old);
    [reflexivity|discriminate].
Defined.

Lemma delete_success_witness :
  GetInstance "knc-old"
    (w_db (Instances.DeleteInstance (H := demo_env false true true) "acme" "knc-old" (demo_world demo_db)).1) = Err ErrNoRows.
Proof.
  apply (delete_success (H := demo_env false true true) "acme" "knc-old" (demo_world demo_db));
    [intros n; reflexivity|vm_compute; reflexivity].
Defined.

Lemma subnet_selection_witness :
  exists id, (selectSubnetWithCapacity (H := demo_env false true true) demo_config "acme" "pool" false
     (demo_world demo_db)).2 = Ok id /\ id ∈ ["sn-b"; "sn-a"].
Proof.
  pose proof (subnet_selection (H := demo_env false true true) demo_config "acme" "pool" false ["sn-b"; "sn-a"]
    (demo_world demo_db) eq_refl (fun n => eq_refl)) as Hs. cbv zeta in Hs.
  destruct (selectSubnetWithCapacity (H := demo_env false true true) demo_config "acme" "pool" false
     (demo_world demo_db)).2 as [id|e] eqn:He; [exists id; split; [reflexivity|apply Hs]|].
  vm_compute in He. discriminate He.
Defined.

Lemma rebuild_terminates_witness : (RebuildCache (H := demo_env false true true) 1 (demo_world demo_db)).2 ≠ None.
Proof.
  apply (rebuild_terminates (H := demo_env false true true) (fun _ => 0%nat) 1 (demo_world demo_db)); [|lia].
  intros n t page next [= _ <-] Hne. destruct (Hne eq_refl).
Defined.

(** A record in storage, an empty cache, and the row the rebuild makes of it. *)
Definition demo_record : InstanceRecord :=
  mkInstanceRecord "knc-old" "acme" "web" false "sn-a" "vm-old" "t3.small" "pending" "" "" "" 0 0 "jwt" "hash"
    (Some 1) "" "" None.

Definition failover_world : World :=
  mkWorld 0 (empty_db true) {[ "instance/acme.knc-old-knc.json" := demo_record ]} [].


Lemma rebuild_loses_infra_hash_witness :
  exists i, i ∈ instances (w_db (RebuildCache (H := demo_env false true true) 1 failover_world).1) /\
    i_infra_config_hash i = None.
Proof.
  eexists. assert (forall i, i ∈ instances (w_db (RebuildCache (H := demo_env false true true) 1 failover_world).1) ->
    i ∈ instances (w_db (RebuildCache (H := demo_env false true true) 1 failover_world).1) /\
    i_infra_config_hash i = None) as Hall.
  { intros i Hi. split; [exact Hi|].
    exact (rebuild_loses_infra_hash (H := demo_env false true true) 1 failover_world i eq_refl Hi). }
  apply Hall. apply list_elem_of_In. vm_compute. left. reflexivity.
Defined.

(** ** Reconciler *)

Definition demo_im (a d l : bool) : InstanceManager := manager (H := demo_env a d l) false.

Lemma demo_laws a d l : InstanceManagerLaws (H := demo_env a d l) (H0 := demo_im a d l).
Proof. apply (manager_laws (H := demo_env a d l) false). Qed.

Definition group_event : ReconcileEvent := mkEvent EventGroupChanged "acme" "web" "" 0 false "" 0.

Definition check_event : ReconcileEvent := mkEvent EventCheckInstance "" "" "knc-old" 0 true "" 0.


(** A manager that only soft-deletes rows, for the theorems that hold of every
    implementation of the interface. *)
Definition row_manager (a d l : bool) : InstanceManager := mkInstanceManager
  (fun _ => mret (Err (ErrMsg "creation disabled")))
  (fun _ id => dbx (H := demo_env a d l) (fun now db => LocalDB.DeleteInstance now id db)).

Lemma row_manager_laws a d l : InstanceManagerLaws (H := demo_env a d l) (H0 := row_manager a d l).
Proof.
  split; simpl.
  - intros req w w' r [= <- <-]. exists [], []. rewrite app_nil_r. split_and!; [done|set_solver|simpl; lia|done|set_solver].
  - intros req. apply preserves_ret.
  - intros t id w w' r Hr. by apply delete_row_run in Hr as (_ & _ & ? & _).
  - intros t id. apply preserves_dbx. intros ???. apply db_wf_DeleteInstance.
  - intros t id w w' r id' Hr. apply delete_row_run in Hr as (_ & _ & _ & _ & _ & ?). auto.
  - intros t id w w' r Hnf Hr _. apply delete_row_run in Hr as (_ & _ & _ & _ & Hg & _). auto.
Qed.

Lemma row_manager_private a d l req w e :
  (im_create (InstanceManager := row_manager a d l) req w).2 = Err e -> err_is e ErrTenantAsleep = false.
Proof. by intros [= <-]. Qed.

Lemma demo_no_nat a d l : not_nat (HE := demo_env a d l) "acme" "web".
Proof. intros n nc Hn. discriminate Hn. Qed.

Lemma demo_private a d l : env_private (H := demo_env a d l).
Proof. split; unfold private_res; simpl; intros; discriminate. Qed.

Lemma demo_im_private a d l req w e :
  (im_create (InstanceManager := demo_im a d l) req w).2 = Err e -> err_is e ErrTenantAsleep = false.
Proof. apply (manager_private (H := demo_env a d l) false). apply demo_private. Qed.

(** The same tenant with a managed-NAT group whose only instance the provider no
    longer knows; the NAT manager has claimed a replacement. *)
Definition nat_demo_config : Config := {| demo_config with
  c_groups := {[ "acme" := {[ "web" := demo_group; "nat" := mkGroupConfig "tpl" (Some 0) "" "" ∅ ∅ None [] ]} ]};
  c_nat := {[ "acme" := mkNATConfig "nat" "nat44" [] 0 [] (mkNATThresholds 0 0 0) (mkNATThresholds 0 0 0) 0 0 0 0 ]} |}.

Definition nat_demo_env (asleep : bool) : Env := let e := demo_env asleep true true in {| e with
  env_config := fun _ => nat_demo_config;
  env_provider_status := fun _ id pid =>
    if bool_decide (id = "knc-nat") then Err ErrInstanceNotFound else Ok (demo_status id pid StatusRunning);
  env_nat_replace := fun _ _ => NatClaimed "acme" (mkNatClaim "nat" "knc-nat2" "t3.small" (Ok tt)) |}.

Definition nat_demo_im (a : bool) : InstanceManager := manager (H := nat_demo_env a) true.

Lemma nat_demo_laws a : InstanceManagerLaws (H := nat_demo_env a) (H0 := nat_demo_im a).
Proof. apply (manager_laws (H := nat_demo_env a) true). Qed.

Definition nat_demo_row : Instance := let i := demo_row "knc-nat" (Some 1) None in {| i with i_group := "nat" |}.

Definition nat_demo_db : DB := with_instances [old; nat_demo_row] (empty_db true).

Definition nat_check_event : ReconcileEvent := mkEvent EventCheckInstance "" "" "knc-nat" 0 true "" 0.

(** From an empty cache, a change of the group creates its one instance. *)
Lemma group_size_bounded_witness :
  managed "acme" "web" (w_db (rs_world (handleEvent (H := nat_demo_env false) (H0 := nat_demo_im false) 0 true
    group_event (demo_state (empty_db true))).1)) = 1 /\
  managed "acme" "web" (w_db (rs_world (handleEvent (H := nat_demo_env false) (H0 := nat_demo_im false) 0 true
    nat_check_event (demo_state nat_demo_db)).1)) <= 1 + 1.
Proof.
  split; [vm_compute; reflexivity|].
  apply (group_size_bounded (HE := nat_demo_env false) (IM := nat_demo_im false)
    (IML := nat_demo_laws false) 0 true "acme" "web" 1 nat_check_event (demo_state nat_demo_db)).
  - intros n nc Hn. vm_compute in Hn. injection Hn as <-. discriminate.
  - intros n m grp Hg. vm_compute in Hg. injection Hg as <-. vm_compute. discriminate.
  - intros _ i Hi Hl. apply list_elem_of_In in Hi. simpl in Hi. destruct Hi as [<-|[<-|[]]]; reflexivity.
  - vm_compute. discriminate.
Defined.

(** While the tenant sleeps, the check of its lost NAT instance creates the
    replacement and nothing else: three rows are left, the new one of the NAT
    group. *)
Lemma no_creation_while_asleep_witness :
  let s' := (handleEvent (H := nat_demo_env true) (H0 := nat_demo_im true) 0 true nat_check_event (demo_state nat_demo_db)).1 in
  i_id <$> instances (w_db (rs_world s')) = ["knc-old"; "knc-nat"; "knc-nat2"] /\
  forall i, i ∈ instances (w_db (rs_world s')) -> i_tenant i = "acme" ->
    (exists j, j ∈ instances nat_demo_db /\ i_tenant j = "acme" /\ i_group j = i_group i /\ i_id j = i_id i) \/
    nat_row (H := nat_demo_env true) i.
Proof.
  cbv zeta. split; [vm_compute; reflexivity|]. intros i.
  apply (no_creation_while_asleep (HE := nat_demo_env true) (IM := nat_demo_im true)
    (IML := nat_demo_laws true) 0 true "acme" nat_check_event (demo_state nat_demo_db) i).
  intros n. reflexivity.
Defined.

(** The manager creates the missing instance. *)
Lemma scaling_converges_witness :
  managed "acme" "web" (w_db (rs_world (scale_group (H := demo_env false true true) (H0 := demo_im false true true)
    0 "acme" "web" demo_group (GetInstancesByGroup "acme" "web" true (empty_db true)) false
    (demo_state (empty_db true))).1)) = 1.
Proof.
  apply (scaling_converges (HE := demo_env false true true) (IM := demo_im false true true)
    (IML := demo_laws false true true) 0 "acme" (fun n => eq_refl) (demo_im_private false true true)
    "web" demo_group false (demo_state (empty_db true)));
    [exact (demo_no_nat false true true)|apply db_wf_empty|intros n; reflexivity|vm_compute; discriminate|].
  vm_compute. reflexivity.
Defined.

Lemma sleeping_group_emptied_witness :
  managed "acme" "web" (w_db (rs_world (handleGroupChanged (H := demo_env true true true)
    (H0 := row_manager true true true) 0 false "acme" "web" (demo_state demo_db)).1)) = 0.
Proof.
  apply (sleeping_group_emptied (HE := demo_env true true true) (IM := row_manager true true true)
    (IML := row_manager_laws true true true) 0 false "acme" (fun n => eq_refl) (row_manager_private true true true)
    "web" (demo_state demo_db)); [exact demo_db_wf|exact (demo_no_nat true true true)|intros n; reflexivity|vm_compute; reflexivity].
Defined.

Lemma load_failure_empties_group_witness :
  managed "acme" "web" (w_db (rs_world (handleGroupChanged (H := demo_env false false true)
    (H0 := row_manager false false true) 0 false "acme" "web" (demo_state demo_db)).1)) = 0.
Proof.
  apply (load_failure_empties_group (HE := demo_env false false true) (IM := row_manager false false true)
    (IML := row_manager_laws false false true) 0 false "acme" (fun n => eq_refl) (row_manager_private false false true)
    "web" (demo_state demo_db)); [discriminate|exact demo_db_wf|exact (demo_no_nat false false true)| |vm_compute; reflexivity].
  intros m. exists (ErrExternal 1). reflexivity.
Defined.

Lemma retry_bounded_witness :
  exists d ev', rs_scheduled (scheduleRetry (H := demo_env false true true) group_event (demo_state demo_db)).1 =
    [mkScheduled d ev' 1] /\ d < 150 * second.
Proof.
  destruct (retry_bounded (HE := demo_env false true true) group_event (demo_state demo_db)) as [[Hno|(d & ev' & Hq & Hr)] _].
  - vm_compute. discriminate.
  - vm_compute in Hno. discriminate Hno.
  - exists d, ev'. split; [exact Hq|apply Hr].
Defined.

(** An event of an older term at the head of the queue. *)
Definition stale_state : RState := mkRState (demo_world demo_db) [(group_event, 0)] [] ∅ ∅ 0 true false 1.

Lemma stale_events_ignored_witness :
  quiet stale_state (loop_step (H := demo_env false true true) (H0 := demo_im false true true) 0 false stale_state).1.
Proof.
  apply (stale_events_ignored (HE := demo_env false true true) (IM := demo_im false true true) 0 false
    group_event 0 [] stale_state); [reflexivity|left; vm_compute; discriminate].
Defined.

Lemma restart_drops_queue_witness :
  rs_timers (Start (Stop stale_state).1).1 = ∅ /\ terms_le (Start (Stop stale_state).1).1.
Proof.
  destruct (restart_drops_queue stale_state group_event 0) as (_ & Ht & _ & _ & Hle).
  - split_and!; simpl; [lia|lia|set_solver by lia|set_solver by lia|]. intros k d term. rewrite lookup_empty. discriminate.
  - reflexivity.
  - vm_compute. reflexivity.
  - split; [exact Ht|exact Hle].
Defined.

Lemma reachable_loop_bounded_witness :
  Z.of_nat (length (rs_queue (Enqueue (H := demo_env false true true) group_event (demo_state demo_db)).1)) <= 1000.
Proof.
  eapply (reachable_loop_bounded (HE := demo_env false true true) (IM := demo_im false true true) 0 false
    (demo_state demo_db)); [|reflexivity|reflexivity].
  eapply rtc_l; [|apply rtc_refl]. apply rstep_enqueue. reflexivity.
Defined.

Definition deduplicated_state : RState :=
  mkRState (demo_world demo_db) [] [] {[ event_key check_event := 99990 * second ]} ∅ 0 true false 1.

Lemma duplicate_dropped_witness :
  same_state (demo_world demo_db)
    (rs_world (handleEvent (H := demo_env false true true) (H0 := demo_im false true true) 0 false check_event deduplicated_state).1).
Proof.
  apply (duplicate_dropped (HE := demo_env false true true) (IM := demo_im false true true) 0 false check_event
    deduplicated_state (99990 * second) (60 * second)); [reflexivity|reflexivity|intros n; reflexivity|].
  intros n. vm_compute. reflexivity.
Defined.

Lemma expiry_timer_witness : next_expiry (mkExpiryConfig 100 200 0) 40 = 60 + expiryTimerPadding.
Proof.
  destruct (expiry_timer (mkExpiryConfig 100 200 0) 40) as (_ & _ & _ & Hb & _); [simpl; lia|simpl; lia|].
  apply Hb; simpl; lia.
Defined.

Lemma drift_selection_witness :
  (find_drifted (H := demo_env false true true) "other" None (GetInstancesByGroup "acme" "web" true demo_db)
     (demo_state demo_db)).2 = Some (Some "knc-old").
Proof.
  etransitivity;
    [exact (drift_selection (HE := demo_env false true true) "acme" "web" "other" (demo_state demo_db) (fun n => eq_refl))|].
  vm_compute. reflexivity.
Defined.

(** ** Garbage collection *)

Lemma gc_spares_healthy_witness :
  GetInstance "knc-old" (w_db (RunGarbageCollection (HE := demo_env false true true) (IM := demo_im false true true)
    true true (600 * second) (demo_world demo_db)).1) = Ok old.
Proof.
  apply (gc_spares_healthy (HE := demo_env false true true) (IM := demo_im false true true)
    (IML := demo_laws false true true) true true (600 * second) old (demo_world demo_db));
    [exact demo_db_wf|split_and!; [discriminate|discriminate|exact I]|reflexivity].
Defined.

(** A row deleted long ago is purged; its record is gone by then. *)
Definition long_deleted : Instance := demo_row "knc-old" (Some 1) (Some 2).
Definition swept : World :=
  (CleanupDeletedInstanceRecords (HE := demo_env false true true) 0
     (demo_world (with_instances [long_deleted] (empty_db true)))).1.

Lemma retention_sweep_witness :
  instances (w_db swept) = [] /\ record_gone (HE := demo_env false true true) long_deleted swept.
Proof.
  assert (instances (w_db swept) = []) as Hgone by (vm_compute; reflexivity). split; [done|].
  pose proof (retention_sweep (HE := demo_env false true true) 0
    (demo_world (with_instances [long_deleted] (empty_db true))) (demo_deleted_wf 2)) as Hr. cbv zeta in Hr.
  unfold swept in *. destruct (CleanupDeletedInstanceRecords _ _) as [w' r]. simpl in *.
  destruct Hr as [_ Hr]. destruct (Hr long_deleted) as [Hin|[_ Hrec]]; [left| |done].
  rewrite Hgone in Hin. by apply not_elem_of_nil in Hin.
Defined.

(** A deleted instance that once submitted a key. *)
Definition keyed_db : DB :=
  mkDB [demo_row "knc-old" (Some 1) (Some 2)] [mkPublicKey 1 "knc-old" "kubelet.pub" "pem" None 0 0 None]
    [] [] [] [] 1 true.

Lemma submitted_key_blocks_purge_witness : PurgeDeletedInstance "knc-old" keyed_db = Err ErrConstraint.
Proof.
  eapply (submitted_key_blocks_purge keyed_db keyed_db "knc-old" (demo_row "knc-old" (Some 1) (Some 2)));
    [reflexivity|left|apply rtc_refl|left|reflexivity|discriminate].
Defined.
