(* ===== verification/RegistrationWitnesses.v ===== *)
(** * Concrete registrations

    An encoding of PEM blocks and certificates that meets the laws of [Crypto], one
    agent and one operator nonce, and registrations with them. *)

From S2P Require Import Prelude Provider LocalDB Config World Instances Certificates Registration RegistrationFacts ContentTags Witnesses.
From stdpp Require Import relations.
From Stdlib Require Import Ascii.
From S2P Require Import Reconciler.
From S2P Require Import Document.
From S2P Require Import TenantState.
From S2P Require Import TenantStateFacts.
From S2P Require Import TenantStateRuns.
From S2P Require Import OperatorApi.
From S2P Require Import OperatorApiFacts.

(** ** Encodings *)

Fixpoint of_bits (s : string) : positive :=
  match s with
  | String "0"%char s' => xO (of_bits s')
  | String "2"%char s' => xI (of_bits s')
  | _ => xH
  end.

Lemma of_bits_of p : of_bits (bits_of p) = p.
Proof. induction p; simpl; by f_equal. Qed.

(** Type and content of a block, separated by the type's length in unary. *)
Fixpoint tally (n : nat) (s : string) : string := match n with O => String "."%char s | S m => String "|"%char (tally m s) end.
Fixpoint untally (s : string) : nat * string :=
  match s with
  | String "|"%char s' => let '(n, rest) := untally s' in (S n, rest)
  | String _ s' => (0%nat, s')
  | EmptyString => (0%nat, "")
  end.

Lemma untally_tally n s : untally (tally n s) = (n, s).
Proof. induction n as [|n IH]; simpl; [done|]. by rewrite IH. Qed.

Fixpoint cut (n : nat) (s : string) : string * string :=
  match n, s with
  | S m, String a s' => let '(l, r) := cut m s' in (String a l, r)
  | _, _ => ("", s)
  end.

Lemma cut_app a b : cut (String.length a) (a +:+ b) = (a, b).
Proof. induction a as [|c a IH]; simpl; [done|]. by rewrite IH. Qed.

Definition CertTuple : Type := Z * string * list string * list (list Z * string) * (bool * string).

Definition cert_tuple (t : Template) (pub : PublicKey) : CertTuple :=
  (tm_serial_number t, tm_common_name t, tm_organization t,
   (fun e => (ext_id e, ext_value e)) <$> tm_extra_extensions t,
   match pub with Ed25519Public k => (true, k) | OtherPublic k => (false, k) end).

Definition tuple_cert (c : CertTuple) : Certificate :=
  let '(serial, cn, org, exts, (ed, k)) := c in
  mkCertificate serial cn org ((fun '(i, v) => mkExtension i v) <$> exts) (if ed : bool then Ed25519Public k else OtherPublic k).

#[global] Instance demo_crypto : Crypto := {|
  pem_decode := fun s => let '(n, rest) := untally s in let '(ty, bytes) := cut n rest in Some (mkPemBlock ty bytes, "");
  pem_encode := fun b => tally (String.length (pb_type b)) (pb_type b +:+ pb_bytes b);
  x509_parse_certificate := fun s => match decode (of_bits s) with Some c => Ok (tuple_cert c) | None => Err (ErrMsg "x509") end;
  x509_parse_pkcs8 := fun s => Ok (Ed25519Private s);
  x509_parse_pkix := fun s => Ok (Ed25519Public s);
  x509_create_certificate := fun _ t _ pub _ => Ok (bits_of (encode (cert_tuple t pub)));
  x509_verify := fun _ _ _ => Ok tt;
  asn1_marshal := fun s => Ok (String "s"%char s);
  asn1_unmarshal := fun s => match s with String _ v => Ok v | EmptyString => Err (ErrMsg "asn1") end;
|}.

#[global] Instance demo_crypto_laws : CryptoLaws.
Proof.
  split.
  - intros [ty bytes]. simpl. by rewrite untally_tally, cut_app.
  - simpl. by intros v b [= <-].
  - simpl. intros n t ca pub key der [= <-]. rewrite of_bits_of, decode_encode.
    exists (tuple_cert (cert_tuple t pub)), [].
    assert ((fun '(i, v) => mkExtension i v) <$> ((fun e => (ext_id e, ext_value e)) <$> tm_extra_extensions t) =
      tm_extra_extensions t) as Hext.
    { rewrite <-list_fmap_compose. erewrite list_fmap_ext; [by rewrite list_fmap_id|]. by intros ? [] _. }
    by destruct pub.
Qed.

(** ** The server *)

(** The shared environment; identifiers of instances start with [knc]; the database
    fails at one observation, if any. *)
Definition reg_env (fault : option nat) : Env :=
  let base := demo_env false true true in
  {| base with
     env_puid_decode := fun id _ => if String.prefix "knc" id then Ok id else Err (ErrMsg "puid");
     env_db_fault := fun n => if bool_decide (fault = Some n) then Some (ErrExternal 1) else None |}.

Definition demo_claims (kind subject shard : string) : Claims := mkClaims subject kind "" "cl" shard "" false "acme".

(** Two nonces, for the instance [knc-old] and for the operator of the cluster. *)
#[global] Instance demo_reg : RegEnv := {|
  rg_shard_leader := fun _ => true;
  rg_cluster_leader := fun _ => true;
  rg_jwt_ed25519 := fun _ => Ok true;
  rg_jwt_verify := fun _ token =>
    if bool_decide (token = "jwt-knc-old") then Ok (demo_claims "agent" "knc-old" "s1", true)
    else if bool_decide (token = "jwt-operator") then Ok (demo_claims "operator" "cl" "", true)
    else Err (ErrMsg "signature");
  rg_digest := fun s => s;
  rg_has_manager := true;
  rg_ca_cert_pem := pem_encode (mkPemBlock "CERTIFICATE" (bits_of (encode
    (cert_tuple (mkTemplate 1 "ca" [] 0 0 false true []) (Ed25519Public "ca")))));
  rg_ca_key_pem := pem_encode (mkPemBlock "PRIVATE KEY" "ca");
  rg_others := fun _ => ∅;
  rg_bind_fault := fun _ => None;
  rg_get_fault := fun _ => None;
  rg_put_fault := fun _ => None;
|}.

Definition demo_request (nonce key : string) : RegisterClientRequest :=
  mkRegisterClientRequest nonce (pem_encode (mkPemBlock "PUBLIC KEY" key)) "10.0.0.1" "" "".

(** The row of [knc-old] before its agent registered, and its record. *)
Definition unregistered_db : DB := LocalDB.with_instances [demo_row "knc-old" None None] (LocalDB.empty_db true).
Definition demo_record : InstanceRecord :=
  mkInstanceRecord "knc-old" "acme" "web" false "sn-a" "vm-knc-old" "t3.small" "running" "" "" "" 0 0 "jwt-knc-old" "hash" None "" "" None.
Definition demo_reg_state : RegState :=
  mkRegState (mkWorld 0 unregistered_db {[ record_key "acme" "knc-old-knc" := demo_record ]} []) ∅ ∅.

Definition replied {A} (r : rpc A) : bool := match r with Reply _ => true | Fail _ _ => false end.

Lemma replied_inv {A} (r : rpc A) : replied r = true -> exists a, r = Reply a.
Proof. destruct r; [by eexists|done]. Qed.

(** ** Runs *)

Definition agent_run : RegState * rpc (string * Z) :=
  RegisterAgent (H := reg_env None) (demo_request "jwt-knc-old" "key-a") demo_reg_state.

Definition operator_run : RegState * rpc (string * Z) :=
  RegisterOperator (H := reg_env None) (demo_request "jwt-operator" "key-a") demo_reg_state.

Lemma agent_replies : exists c, agent_run.2 = Reply c.
Proof. apply replied_inv. by vm_compute. Qed.

Lemma operator_replies : exists c, operator_run.2 = Reply c.
Proof. apply replied_inv. by vm_compute. Qed.

Lemma agent_run_eq c : agent_run.2 = Reply c ->
  RegisterAgent (H := reg_env None) (demo_request "jwt-knc-old" "key-a") demo_reg_state = (agent_run.1, Reply c).
Proof. intros <-. unfold agent_run. apply surjective_pairing. Qed.

Lemma operator_run_eq c : operator_run.2 = Reply c ->
  RegisterOperator (H := reg_env None) (demo_request "jwt-operator" "key-a") demo_reg_state = (operator_run.1, Reply c).
Proof. intros <-. unfold operator_run. apply surjective_pairing. Qed.

(** A second registration with the same nonce and another key is refused. *)
Lemma agent_nonce_single_use_witness :
  exists code msg,
    (RegisterAgent (H := reg_env None) (demo_request "jwt-knc-old" "key-b") agent_run.1).2 = Fail code msg.
Proof.
  destruct agent_replies as [c Hc].
  destruct (RegisterAgent (H := reg_env None) (demo_request "jwt-knc-old" "key-b") agent_run.1) as [s3 r] eqn:H2.
  eapply (agent_nonce_single_use (HE := reg_env None) (demo_request "jwt-knc-old" "key-a")
    (demo_request "jwt-knc-old" "key-b") demo_reg_state agent_run.1 agent_run.1 s3 c r).
  - intros n. reflexivity.
  - intros n claims i Hv Hi _. vm_compute in Hv. injection Hv as <-.
    apply list_elem_of_singleton in Hi as ->. reflexivity.
  - apply agent_run_eq, Hc.
  - reflexivity.
  - intros i Hi Hn Hd. exists i. split; [exact Hi|]. split; [exact Hn|]. split; [exact Hd|reflexivity].
  - exact H2.
Defined.

(** The operator's retry with its key is the only one that succeeds. *)
Lemma operator_nonce_bound_witness :
  (exists c, (RegisterOperator (H := reg_env None) (demo_request "jwt-operator" "key-a") operator_run.1).2 = Reply c) /\
  rq_public_key_pem (demo_request "jwt-operator" "key-a") = rq_public_key_pem (demo_request "jwt-operator" "key-a").
Proof.
  destruct operator_replies as [c Hc].
  destruct (RegisterOperator (H := reg_env None) (demo_request "jwt-operator" "key-a") operator_run.1) as [s3 r] eqn:H2.
  assert (exists c2, r = Reply c2) as [c2 ->].
  { apply replied_inv. change r with (s3, r).2. rewrite <-H2. by vm_compute. }
  split; [by exists c2|].
  eapply (operator_nonce_bound (reg_env None) (reg_env None) demo_crypto demo_crypto demo_reg demo_reg
    (demo_request "jwt-operator" "key-a") (demo_request "jwt-operator" "key-a") demo_reg_state operator_run.1 operator_run.1 s3 c c2);
    [reflexivity|reflexivity| |apply rtc_refl|exact H2].
  apply operator_run_eq, Hc.
Defined.

Lemma registration_identity_witness :
  exists n claims, @nonce_Validate demo_reg n "jwt-knc-old" "agent" = Ok claims.
Proof.
  destruct agent_replies as [[certPEM expiresAt] Hc].
  destruct (registration_identity (HE := reg_env None) true (demo_request "jwt-knc-old" "key-a") demo_reg_state
    agent_run.1 certPEM expiresAt) as (n & claims & cert & Hv & _).
  - apply agent_run_eq, Hc.
  - exists n, claims. exact Hv.
Defined.

(** A nonce whose use the database did not record can be used again: when marking
    the row fails, which the handler only logs, the registration still succeeds,
    and the same nonce then yields a certificate for another public key. *)
Theorem agent_nonce_replayable :
  exists (E : Env) (R : RegEnv) req req' s,
    rq_nonce_jwt req' = rq_nonce_jwt req /\ rq_public_key_pem req' ≠ rq_public_key_pem req /\
    (exists c, (RegisterAgent req s).2 = Reply c) /\
    (exists c', (RegisterAgent req' (RegisterAgent req s).1).2 = Reply c').
Proof.
  exists (reg_env (Some 16%nat)), demo_reg, (demo_request "jwt-knc-old" "key-a"), (demo_request "jwt-knc-old" "key-b"), demo_reg_state.
  split_and!; [done|done|apply replied_inv; by vm_compute|apply replied_inv; by vm_compute].
Qed.

(** ** Concrete calls of an operator

    The operator of tenant [acme] on the deployments of [Witnesses.v] and
    [TenantStateRuns.v]. *)
Module OperatorApiWitnesses.
Import TenantStateWitnesses.

Definition acme_operator : ClientInfo :=
  mkClientInfo "cl" "operator" "acme" (mkCertificate 1 "cl" ["acme"] [] (Ed25519Public "key")).

(** The provider does not answer status requests. *)
Definition no_status_env : Env :=
  let base := demo_env false true true in
  {| base with env_provider_status := fun _ _ _ => Err (ErrExternal 1) |}.

Lemma delete_failure_reported_done_witness :
  (OperatorApi.DeleteInstance (H := no_status_env) acme_operator "knc-old" (demo_state demo_db)).2 = Reply StatusUnknown.
Proof.
  apply (delete_failure_reported_done (HE := no_status_env) acme_operator "knc-old" old "vm-knc-old" (demo_state demo_db));
    [reflexivity|discriminate|reflexivity|reflexivity|reflexivity|discriminate|].
  intros n. exists (ErrExternal 1). split; reflexivity.
Defined.

(** [acme]'s operator cannot wake another tenant. *)
Lemma tenant_calls_confined_witness :
  let s := mkTenantApi (demo_manager (sleeping_doc None)) ∅ in
  (run_tenant_call (HT := demo_tenant_env) true true acme_operator (CallWake (Some (mkWakeTenantRequest "other" None))) s).1 = s.
Proof.
  intros s.
  destruct (tenant_calls_confined (HT := demo_tenant_env) (HL := demo_tenant_laws) true true acme_operator
    (CallWake (Some (mkWakeTenantRequest "other" None))) s) as [Hrefused _].
  destruct Hrefused as [Hs _]; [discriminate|exact Hs].
Defined.
End OperatorApiWitnesses.
