(* ===== verification/Loader.v ===== *)
(** * The configuration loader ([src/internal/server/config/loader.go])

    The loader keeps the static configuration and the dynamic groups in memory,
    a copy of both on disk, and the hash of every effective group in the local
    database.  The dynamic groups are shared with other servers: they are one
    object in shard storage ([groups.jsonc]), changed by compare-and-swap.

    The loader's mutexes make each operation below atomic for this process; other
    writers of the shared object act at every request ([Document]).  Decoding the
    static configuration and the machine's interface addresses are parameters, as are
    the two digests: the infrastructure hash is answered per observation, because the
    nested arguments it covers are not a function of the configuration alone. *)

From S2P Require Import Prelude LocalDB Config Validation Document.

(** What the bytes of a groups object decode to: the groups ([None] for the JSON
    value [null]), and whether they have comments or trailing commas, which only
    the JSONC parser accepts. *)
Record Content := mkContent {
  ct_groups : option DynGroups;
  ct_extended : bool;
}.

(** The bytes of a configuration object: their length, and what the JSONC and JSON
    decoders make of them. *)
Record ConfigData := mkConfigData {
  cd_size : Z;
  cd_decoded : res Config;
}.

(** [config.ConfigMetadata]; [LastModified] is never set. *)
Record ConfigMetadata := mkConfigMetadata {
  cm_etag : string;
  cm_size : Z;
}.

Record Loader := mkLoader {
  l_store : Store Content unit;                (* groups.jsonc in shard storage *)
  l_cache_config : option ConfigData;          (* config.jsonc in the disk cache *)
  l_cache_groups : option (Blob Content);      (* groups.json in the disk cache *)
  l_db : DB;
  l_config : option Config;
  l_config_meta : option ConfigMetadata;
  l_groups : option DynGroups;                 (* nil until loaded *)
}.

Class LoaderEnv := mkLoaderEnv {
  le_doc :: DocEnv Content;
  le_validator :: ValidatorEnv;
  le_now : nat -> Z;
  le_config_get : nat -> res (ConfigData * string);      (* storage.Get of config.jsonc *)
  le_ctx_done : nat -> option err;                       (* ctx.Done() wins the backoff select *)
  le_interfaces : nat -> res (list IfaceAddr);           (* net.InterfaceAddrs *)
  le_advertise_host : string;                            (* --advertise-host *)
  le_cache_etag : ConfigData -> string;
  le_cache_get_fault : nat -> option err;
  le_cache_put_fault : nat -> option (err * bool);       (* the failure, and whether the file was replaced *)
  le_db_fault : nat -> option err;
  le_runtime_digest : gmap string string -> gmap string FileConfig -> string; (* sha256 of the JSON of vars and files *)
  le_infra_hash : nat -> MergedConfig -> string;         (* HashInfraConfig *)
  le_max_retries : nat;
}.

(** [NewLoader]: nothing in memory; the disk cache and the database survive restarts. *)
Definition NewLoader (store : Store Content unit) (cc : option ConfigData) (cg : option (Blob Content)) (db : DB) : Loader :=
  mkLoader store cc cg db None None None.

(** ** Groups by tenant and key *)

(** The candidate of [UpdateDynamicGroup]. *)
Definition set_group (tenant key : string) (g : GroupConfig) (groups : DynGroups) : DynGroups :=
  <[tenant := <[key := g]> (default ∅ (groups !! tenant))]> groups.

(** The candidate of [DeleteDynamicGroup]: a tenant without groups is removed. *)
Definition remove_group (tenant key : string) (groups : DynGroups) : DynGroups :=
  let rest := delete key (default ∅ (groups !! tenant)) in
  if bool_decide (rest = ∅) then delete tenant groups else <[tenant := rest]> groups.

(** [parseGroups]: both JSON and JSONC; [null] is no groups. *)
Definition parseGroups (b : Blob Content) : res DynGroups :=
  match b with
  | Doc c => Ok (default ∅ (ct_groups c))
  | Malformed => Err (ErrMsg "failed to parse dynamic groups JSONC")
  end.

(** [json.MarshalIndent] of the groups. *)
Definition marshal (groups : DynGroups) : Content := mkContent (Some groups) false.

Section Loader.
Context {LE : LoaderEnv}.

(** [Parse] of the bytes. *)
Definition cd_parsed (d : ConfigData) : res Config := Parse (cd_decoded d).

(** The shared object, which is also the loader's clock. *)
Definition on_store {A} (m : M (Store Content unit) A) : M Loader A :=
  fun l => let '(st, a) := m (l_store l) in ({| l with l_store := st |}, a).

Definition l_observe {A} (f : nat -> A) : M Loader A := on_store (st_observe f).

Definition set_cache_groups (b : option (Blob Content)) (l : Loader) : Loader := {| l with l_cache_groups := b |}.
Definition set_cache_config (c : option ConfigData) (l : Loader) : Loader := {| l with l_cache_config := c |}.
Definition set_groups (g : option DynGroups) (l : Loader) : Loader := {| l with l_groups := g |}.
Definition set_db (db : DB) (l : Loader) : Loader := {| l with l_db := db |}.

(** A write or delete of a cache file: it may fail with or without effect. *)
Definition cache_write (f : Loader -> Loader) : M Loader (res unit) :=
  fault ← l_observe le_cache_put_fault;
  match fault with
  | Some (e, true) => _ ← modify f; mret (Err e)
  | Some (e, false) => mret (Err e)
  | None => _ ← modify f; mret (Ok tt)
  end.

Definition saveGroupsToCache (b : Blob Content) : M Loader (res unit) := cache_write (set_cache_groups (Some b)).

(** The disk cache is decoded as plain JSON. *)
Definition loadGroupsFromCache : M Loader (option (option DynGroups)) :=
  fault ← l_observe le_cache_get_fault;
  gets (fun l =>
    match fault, l_cache_groups l with
    | None, Some (Doc c) => if ct_extended c then None else Some (ct_groups c)
    | _, _ => None
    end).

Definition loadDynamicGroupsFromStorage : M Loader (res (DynGroups * string)) :=
  r ← on_store storage_get;
  match r with
  | Err e => mret (if err_is e ErrNotFound then Ok (∅, "") else Err (ErrWrap "failed to load dynamic groups" e))
  | Ok (data, etag) =>
      match parseGroups data with
      | Err e => mret (Err e)
      | Ok groups => _ ← saveGroupsToCache data; mret (Ok (groups, etag))
      end
  end.

(** ** Hashes of the effective groups *)

Definition HashRuntimeConfig (mc : MergedConfig) : string := le_runtime_digest (mc_vars mc) (mc_files mc).

Definition hash_group (cfg : Config) (tg : string * string * GroupConfig) : M Loader (res GroupHashes) :=
  let '(tenant, key, g) := tg in
  if bool_decide (gc_template g = "") then mret (Err (ErrMsg "no template"))
  else match GetMergedConfig cfg (gc_template g) g with
  | Err e => mret (Err (ErrWrap key e))
  | Ok mc =>
      infra ← l_observe (fun n => le_infra_hash n mc);
      mret (Ok (mkGroupHashes tenant key (HashRuntimeConfig mc) infra))
  end.

Fixpoint hash_groups (cfg : Config) (tgs : list (string * string * GroupConfig)) : M Loader (res (list GroupHashes)) :=
  match tgs with
  | [] => mret (Ok [])
  | tg :: rest =>
      r ← hash_group cfg tg;
      match r with
      | Err e => mret (Err e)
      | Ok h =>
          rs ← hash_groups cfg rest;
          mret match rs with Err e => Err e | Ok hs => Ok (h :: hs) end
      end
  end.

(** Every effective group with its tenant and key. *)
Definition effective_groups (cfg : Config) (groups : DynGroups) : list (string * string * GroupConfig) :=
  t ← elements (dom (c_groups cfg) ∪ dom groups);
  kg ← map_to_list (tenant_groups cfg groups t);
  [(t, kg.1, kg.2)].

Definition computeGroupHashes (cfg : option Config) (groups : DynGroups) : M Loader (res (list GroupHashes)) :=
  match cfg with
  | None => mret (Ok [])
  | Some c => hash_groups c (effective_groups c groups)
  end.

(** [localDB.ReplaceGroupHashes]: one transaction. *)
Definition replaceGroupHashes (hashes : list GroupHashes) : M Loader (res unit) :=
  now ← l_observe le_now;
  fault ← l_observe le_db_fault;
  match fault with
  | Some e => mret (Err e)
  | None => fun l =>
      match LocalDB.ReplaceGroupHashes now hashes (l_db l) with
      | Err e => (l, Err e)
      | Ok db => (set_db db l, Ok tt)
      end
  end.

(** ** Changing the dynamic groups *)

Definition publishDynamicGroupsLocallyLocked (groups : DynGroups) (hashes : list GroupHashes) : M Loader (res unit) :=
  r ← replaceGroupHashes hashes;
  match r with
  | Err e => mret (Err (ErrWrap "failed to publish group hashes" e))
  | Ok _ =>
      _ ← saveGroupsToCache (Doc (marshal groups));
      _ ← modify (set_groups (Some groups));
      mret (Ok tt)
  end.

Definition publishLoadedDynamicGroupsLocked (groups : DynGroups) : M Loader (res unit) :=
  cfg ← gets l_config;
  h ← computeGroupHashes cfg groups;
  match h with
  | Err e => mret (Err (ErrWrap "failed to compute group hashes" e))
  | Ok hashes => publishDynamicGroupsLocallyLocked groups hashes
  end.

(** The shared write, then the local state; a local failure invalidates the disk
    cache, which is older than the object from then on. *)
Definition write_and_publish (groups : DynGroups) (etag : string) (hashes : list GroupHashes) : M Loader (res unit) :=
  w ← on_store (storage_put_if_match (marshal groups) etag);
  match w with
  | Err e =>
      mret (if err_is e ErrPrecondition then Err (ErrMsg "groups file was modified by another process")
            else Err (ErrWrap "failed to write dynamic groups" e))
  | Ok _ =>
      p ← publishDynamicGroupsLocallyLocked groups hashes;
      match p with
      | Ok _ => mret (Ok tt)
      | Err e =>
          _ ← cache_write (set_cache_groups None);
          mret (Err (ErrWrap "dynamic groups saved but failed to update local state" e))
      end
  end.

Definition saveDynamicGroupsLocked (groups : DynGroups) (etag : string) : M Loader (res unit) :=
  cfg ← gets l_config;
  h ← computeGroupHashes cfg groups;
  match h with
  | Err e => mret (Err (ErrWrap "failed to compute group hashes" e))
  | Ok hashes => write_and_publish groups etag hashes
  end.

(** [update] is given the existing group, if there is one. *)
Definition UpdateDynamicGroup (tenant key : string) (update : option GroupConfig -> res GroupConfig) : M Loader (res unit) :=
  r ← loadDynamicGroupsFromStorage;
  match r with
  | Err e => mret (Err e)
  | Ok (groups, etag) =>
      match update (group_in groups tenant key) with
      | Err e => mret (Err e)
      | Ok g => saveDynamicGroupsLocked (set_group tenant key g groups) etag
      end
  end.

Definition SetDynamicGroup (tenant key : string) (g : GroupConfig) : M Loader (res unit) :=
  UpdateDynamicGroup tenant key (fun _ => Ok g).

Definition DeleteDynamicGroup (tenant key : string) : M Loader (res unit) :=
  r ← loadDynamicGroupsFromStorage;
  match r with
  | Err e => mret (Err e)
  | Ok (groups, etag) =>
      match group_in groups tenant key with
      | None => publishLoadedDynamicGroupsLocked groups
      | Some _ => saveDynamicGroupsLocked (remove_group tenant key groups) etag
      end
  end.

(** ** Loading *)

(** One attempt more than [remaining]; the context may end during the backoff. *)
Fixpoint download_attempts (first : bool) (remaining : nat) : M Loader (res (ConfigData * string)) :=
  done ← (if first then mret None else l_observe le_ctx_done);
  match (done : option err) with
  | Some e => mret (Err e)
  | None =>
      r ← l_observe le_config_get;
      match r with
      | Ok d => mret (Ok d)
      | Err e =>
          match remaining with
          | O => mret (Err (ErrWrap "storage download failed" e))
          | S n => download_attempts false n
          end
      end
  end.

Definition downloadWithRetry : M Loader (res (ConfigData * string)) := download_attempts true le_max_retries.

(** The disk cache's configuration, when it can be read and parses; one that does
    not parse is deleted. *)
Definition config_from_cache : M Loader (option (ConfigData * string)) :=
  fault ← l_observe le_cache_get_fault;
  cached ← gets l_cache_config;
  match fault, cached with
  | None, Some d =>
      if is_ok (cd_parsed d) then mret (Some (d, le_cache_etag d))
      else _ ← cache_write (set_cache_config None); mret None
  | _, _ => mret None
  end.

(** The configuration's bytes and tag. *)
Definition load_config_data (forceRefresh : bool) : M Loader (res (ConfigData * string)) :=
  cached ← (if forceRefresh then mret None else config_from_cache);
  match (cached : option (ConfigData * string)) with
  | Some d => mret (Ok d)
  | None =>
      r ← downloadWithRetry;
      match r with
      | Err e => mret (Err (ErrWrap "failed to download configuration" e))
      | Ok (d, etag) => _ ← cache_write (set_cache_config (Some d)); mret (Ok (d, etag))
      end
  end.

(** [loadDynamicGroupsFromStorage] as [LoadConfigAndGroups] calls it. *)
Definition groups_from_storage : M Loader (res (option DynGroups)) :=
  r ← loadDynamicGroupsFromStorage;
  mret match r with
  | Err e => Err (ErrWrap "failed to load dynamic groups" e)
  | Ok (g, _) => Ok (Some g)
  end.

(** The groups to install: from storage when forced, else the ones in memory, else
    the disk cache, else storage. *)
Definition load_groups (forceRefresh : bool) : M Loader (res (option DynGroups)) :=
  if forceRefresh then groups_from_storage
  else
    current ← gets l_groups;
    match current with
    | Some g => mret (Ok (Some g))
    | None =>
        cached ← loadGroupsFromCache;
        match cached with
        | Some g => mret (Ok g)
        | None => groups_from_storage
        end
    end.

Definition install_config (cfg : Config) (meta : ConfigMetadata) (groups : option DynGroups) (l : Loader) : Loader :=
  {| l with l_groups := groups; l_config := Some cfg; l_config_meta := Some meta |}.

(** The hashes are stored before the configuration and groups are installed. *)
Definition install_loaded (d : ConfigData) (etag : string) (cfg : Config) (groups : option DynGroups) : M Loader (res Config) :=
  h ← computeGroupHashes (Some cfg) (default ∅ groups);
  match h with
  | Err e => mret (Err (ErrWrap "failed to compute group hashes" e))
  | Ok hashes =>
      r ← replaceGroupHashes hashes;
      match r with
      | Err e => mret (Err (ErrWrap "failed to sync groups to cache" e))
      | Ok _ => _ ← modify (install_config cfg (mkConfigMetadata etag (cd_size d)) groups); mret (Ok cfg)
      end
  end.

Definition LoadConfigAndGroups (forceRefresh : bool) : M Loader (res Config) :=
  r ← load_config_data forceRefresh;
  match r with
  | Err e => mret (Err e)
  | Ok (d, etag) =>
      match cd_parsed d with
      | Err e => mret (Err (ErrWrap "configuration validation failed" e))
      | Ok cfg =>
          ifaces ← l_observe le_interfaces;
          match autoDetectAdvertiseHosts ifaces le_advertise_host cfg with
          | Err e => mret (Err e)
          | Ok cfg =>
              g ← load_groups forceRefresh;
              match g with
              | Err e => mret (Err e)
              | Ok groups => install_loaded d etag cfg groups
              end
          end
      end
  end.

Definition LoadDynamicGroups : M Loader (res DynGroups) :=
  current ← gets l_groups;
  match current with
  | Some g => mret (Ok g)
  | None =>
      cached ← loadGroupsFromCache;
      match cached with
      | Some g => _ ← modify (set_groups g); mret (Ok (default ∅ g))
      | None =>
          r ← loadDynamicGroupsFromStorage;
          match r with
          | Err e => mret (Err e)
          | Ok (g, _) => _ ← modify (set_groups (Some g)); mret (Ok g)
          end
      end
  end.

Definition SyncGroupsToCache : M Loader (res unit) :=
  cfg ← gets l_config;
  match cfg with
  | None => mret (Err (ErrMsg "configuration not loaded"))
  | Some _ =>
      groups ← gets l_groups;
      h ← computeGroupHashes cfg (default ∅ groups);
      match h with
      | Err e => mret (Err e)
      | Ok hashes => replaceGroupHashes hashes
      end
  end.

Definition CleanCache : M Loader unit :=
  _ ← cache_write (set_cache_config None);
  _ ← cache_write (set_cache_groups None);
  mret tt.

(** ** Reads *)

(** In memory only. *)
Definition GetDynamicGroup (tenant key : string) (l : Loader) : option GroupConfig :=
  if bool_decide (tenant = "") then None
  else match l_groups l with
  | None => None
  | Some groups => group_in groups tenant key
  end.

Definition GetCachedGroup (tenant group : string) (l : Loader) : res (option Group) := LocalDB.GetGroup tenant group (l_db l).

(** [config.GetConfigAndGroup]: both read under the locks. *)
Definition GetConfigAndGroup (tenant key : string) (l : Loader) : res (Config * GroupConfig) :=
  if bool_decide (tenant = "") then Err (ErrMsg "tenant is required")
  else match l_config l, l_groups l with
  | None, _ => Err (ErrMsg "configuration not loaded")
  | _, None => Err (ErrMsg "dynamic groups not loaded")
  | Some cfg, Some groups =>
      match tenant_groups cfg groups tenant !! key with
      | None => Err (ErrMsg "group not found")
      | Some g => Ok (cfg, g)
      end
  end.

(** [config.UpsertGroup] and [config.DeleteGroup]; [cfg] is [GetCurrent()]. *)
Definition UpsertGroup (cfg : Config) (tenant key : string) (group : GroupConfig) : M Loader (res unit) :=
  if bool_decide (tenant = "") then mret (Err (ErrMsg "tenant is required"))
  else UpdateDynamicGroup tenant key (UpsertGroup_update cfg tenant key group).

Definition DeleteGroup (tenant key : string) : M Loader (res unit) :=
  if bool_decide (tenant = "") then mret (Err (ErrMsg "tenant is required"))
  else DeleteDynamicGroup tenant key.
End Loader.
