(* ===== verification/LoaderFacts.v ===== *)
(** * Facts about the configuration loader

    Two views of the loader are compared with a simple one.  To other servers it is
    a client of one table of groups keyed by tenant and key, on which every update
    and deletion acts atomically.  To the readers of its own process it is a
    configuration, its groups and their hashes that always belong together. *)

From S2P Require Import Prelude LocalDB LocalDBFacts Config Validation Document Loader.

(** ** What an operation leaves alone *)

(** [m] does not change the part [f] of the state. *)
Definition keeps {W X A} (f : W -> X) (m : M W A) : Prop := forall w, f (m w).1 = f w.

Create HintDb keeps.

Section Keeps.
Context {W X : Type} (f : W -> X).

Lemma keeps_ret {A} (a : A) : keeps f (mret a).
Proof. by intros w. Qed.

Lemma keeps_gets {A} (g : W -> A) : keeps f (gets g).
Proof. by intros w. Qed.

Lemma keeps_bind {A B} (m : M W A) (k : A -> M W B) : keeps f m -> (forall a, keeps f (k a)) -> keeps f (m ≫= k).
Proof. intros Hm Hk w. rewrite M_bind_eq. by rewrite Hk, Hm. Qed.

Lemma keeps_modify (g : W -> W) : (forall w, f (g w) = f w) -> keeps f (modify g).
Proof. intros Hg w. apply Hg. Qed.

Lemma keeps_for_each {A} (l : list A) body : (forall x, keeps f (body x)) -> keeps f (for_each l body).
Proof.
  intros Hb. induction l as [|x l IH]; simpl; [apply keeps_ret|]. by apply keeps_bind.
Qed.

Lemma keeps_run {A} (m : M W A) w w' a : keeps f m -> m w = (w', a) -> f w' = f w.
Proof. intros Hk Hr. specialize (Hk w). by rewrite Hr in Hk. Qed.
End Keeps.

#[export] Hint Resolve keeps_ret keeps_gets : keeps.

(** Split sequences and branches. *)
Ltac keep :=
  repeat lazymatch goal with
  | |- keeps _ (_ ≫= _) => apply keeps_bind; [|intros ?]
  | |- keeps _ (match ?x with _ => _ end) => destruct x
  | |- keeps _ (modify _) => apply keeps_modify; intros ?
  end; auto 2 with keeps nocore.

(** The same for an invariant, with the hints of the database [plain]. *)
Create HintDb plain.

Ltac plainly :=
  repeat lazymatch goal with
  | |- preserves _ (_ ≫= _) => apply preserves_bind; [|intros ?]
  | |- preserves _ (match ?x with _ => _ end) => destruct x
  | |- preserves _ (mret _) => apply preserves_ret
  | |- preserves _ (gets _) => apply preserves_gets
  | |- preserves _ (modify _) => by intros ? [? ?]
  end; auto 2 with plain nocore.

(** ** Rows of the groups table *)

Definition row_key (g : Group) : string * string := (g_tenant g, g_group_key g).
Definition hash_key (h : GroupHashes) : string * string := (gh_tenant h, gh_group_key h).

Lemma group_is_key t k g : LocalDB.group_is t k g = true <-> row_key g = (t, k).
Proof.
  unfold LocalDB.group_is, row_key. rewrite andb_true_iff, !bool_decide_eq_true. naive_solver.
Qed.

Lemma upsert_group_row_elem now h l row :
  row ∈ LocalDB.upsert_group_row now h l ->
  (row_key row = hash_key h /\ g_runtime_config_hash row = Some (gh_runtime_hash h)) \/ row ∈ l.
Proof.
  unfold LocalDB.upsert_group_row. destruct (affected _ l).
  - rewrite elem_of_app, list_elem_of_singleton. intros [ | ->]; [by right|by left].
  - intros (y & Hy & ->)%elem_of_upd. destruct (LocalDB.group_is _ _ y) eqn:Hg; [|by right].
    apply group_is_key in Hg. by left.
Qed.

Lemma upsert_group_row_keys_grow now h l k :
  k = hash_key h \/ k ∈ (row_key <$> l) -> k ∈ (row_key <$> LocalDB.upsert_group_row now h l).
Proof.
  unfold LocalDB.upsert_group_row. destruct (affected _ l) eqn:Ha.
  - rewrite fmap_app, elem_of_app. intros [-> | ]; [right; by apply list_elem_of_singleton|by left].
  - rewrite fmap_upd_key by done. intros [-> | ]; [|done].
    assert (exists y, y ∈ sel (LocalDB.group_is (gh_tenant h) (gh_group_key h)) l) as [y [Hg Hy]%elem_of_sel].
    { unfold affected in Ha. destruct (sel _ l) as [|y ?]; [done|]. exists y. apply list_elem_of_here. }
    apply group_is_key in Hg. apply list_elem_of_fmap. eauto.
Qed.

Lemma replace_group_rows_run now hs l rows :
  LocalDB.replace_group_rows now hs l = Ok rows ->
  (forall row, row ∈ rows -> (exists h, h ∈ hs /\ row_key row = hash_key h /\
     g_runtime_config_hash row = Some (gh_runtime_hash h)) \/ row ∈ l) /\
  (forall k, k ∈ (hash_key <$> hs) \/ k ∈ (row_key <$> l) -> k ∈ (row_key <$> rows)).
Proof.
  revert l. induction hs as [|h hs IH]; intros l Hr; simpl in Hr.
  { injection Hr as <-. split; [by right|]. intros k [Hk%elem_of_nil|]; done. }
  case_bool_decide; [done|]. apply IH in Hr as [Hrows Hkeys]. split.
  - intros row [(h' & Hh & ?)|Hl]%Hrows; [left; exists h'; split; [by apply list_elem_of_further|done]|].
    apply upsert_group_row_elem in Hl as [?|]; [left|by right]. exists h. split; [apply list_elem_of_here|done].
  - intros k Hk. apply Hkeys. rewrite fmap_cons, elem_of_cons in Hk. destruct Hk as [[-> | ]|];
      eauto using upsert_group_row_keys_grow.
Qed.

(** ** The table of groups *)

Abbreviation Table := (gmap (string * string) GroupConfig).

Definition flat (groups : DynGroups) : Table :=
  map_uncurry (M1 := gmap string) (M2 := gmap string) (M12 := gmap (string * string)) groups.

(** The table an object holds. *)
Definition table (b : option (Blob Content)) : Table :=
  match b with
  | Some (Doc c) => flat (default ∅ (ct_groups c))
  | _ => ∅
  end.

Inductive TableOp :=
  | TableUpdate (tenant key : string) (f : option GroupConfig -> res GroupConfig)
  | TableDelete (tenant key : string).

(** The atomic operations. *)
Definition table_step (op : TableOp) (t : Table) : res Table :=
  match op with
  | TableUpdate tenant key f => g ← f (t !! (tenant, key)); Ok (<[(tenant, key) := g]> t)
  | TableDelete tenant key => Ok (delete (tenant, key) t)
  end.

Lemma lookup_flat groups t k : flat groups !! (t, k) = group_in groups t k.
Proof. unfold flat, group_in. rewrite lookup_map_uncurry. by destruct (groups !! t). Qed.

Lemma group_in_set t k g groups t' k' :
  group_in (set_group t k g groups) t' k' = if decide (t' = t /\ k' = k) then Some g else group_in groups t' k'.
Proof.
  unfold group_in, set_group. destruct (decide (t' = t)) as [->|Ht].
  - rewrite lookup_insert_eq. destruct (decide (k' = k)) as [->|Hk].
    + rewrite lookup_insert_eq. by rewrite decide_True.
    + rewrite lookup_insert_ne by done. rewrite decide_False by naive_solver.
      by destruct (groups !! t); simpl; rewrite ?lookup_empty.
  - rewrite lookup_insert_ne by done. by rewrite decide_False by naive_solver.
Qed.

Lemma group_in_remove t k groups t' k' :
  group_in (remove_group t k groups) t' k' = if decide (t' = t /\ k' = k) then None else group_in groups t' k'.
Proof.
  unfold group_in, remove_group. set (rest := delete k (default ∅ (groups !! t))).
  assert (forall x, rest !! x = if decide (x = k) then None else match groups !! t with Some gs => gs !! x | None => None end) as Hrest.
  { intros x. subst rest. case_decide as Hx; [subst; apply lookup_delete_eq|].
    rewrite lookup_delete_ne by done. by destruct (groups !! t); simpl; rewrite ?lookup_empty. }
  destruct (decide (t' = t)) as [->|Ht].
  - specialize (Hrest k'). case_bool_decide as Hempty.
    + rewrite lookup_delete_eq. rewrite Hempty, lookup_empty in Hrest. repeat case_decide; naive_solver.
    + rewrite lookup_insert_eq, Hrest. repeat case_decide; naive_solver.
  - rewrite (decide_False (P := t' = t /\ k' = k)) by naive_solver.
    case_bool_decide; [by rewrite lookup_delete_ne|by rewrite lookup_insert_ne].
Qed.

Lemma flat_set t k g groups : flat (set_group t k g groups) = <[(t, k) := g]> (flat groups).
Proof.
  apply map_eq. intros [t' k']. rewrite lookup_flat, group_in_set. case_decide as Hk.
  - destruct Hk as [-> ->]. by rewrite lookup_insert_eq.
  - rewrite lookup_insert_ne by naive_solver. by rewrite lookup_flat.
Qed.

Lemma flat_remove t k groups : flat (remove_group t k groups) = delete (t, k) (flat groups).
Proof.
  apply map_eq. intros [t' k']. rewrite lookup_flat, group_in_remove. case_decide as Hk.
  - destruct Hk as [-> ->]. by rewrite lookup_delete_eq.
  - rewrite lookup_delete_ne by naive_solver. by rewrite lookup_flat.
Qed.

(** ** Runs *)

(** What readers of the process see. *)
Definition memory (l : Loader) : option Config * option ConfigMetadata * option DynGroups * DB :=
  (l_config l, l_config_meta l, l_groups l, l_db l).

Definition written (l : Loader) : list (LogEntry Content unit) := s_log (l_store l).

(** A part of the state that reads of the shared object do not change. *)
Definition steady {X} (f : Loader -> X) : Prop :=
  forall l st, s_log st = s_log (l_store l) -> f {| l with l_store := st |} = f l.

Lemma steady_memory : steady memory.
Proof. by intros l st _. Qed.

Lemma steady_written : steady written.
Proof. by intros l st H. Qed.

Lemma steady_config : steady l_config.
Proof. by intros l st _. Qed.

#[export] Hint Resolve steady_memory steady_written steady_config : keeps.

Section LoaderRuns.
Context {LE : LoaderEnv} {HL : DocLaws Content}.

(** *** Parts that are kept *)

Section Kept.
Context {X : Type} (f : Loader -> X) (Hf : steady f).

Lemma keeps_observe {A} (g : nat -> A) : keeps f (l_observe g).
Proof. intros l. apply Hf. done. Qed.

Lemma keeps_get : keeps f (on_store storage_get).
Proof.
  intros l. unfold on_store. destruct (storage_get (l_store l)) as [st r] eqn:Hr. apply Hf.
  apply storage_get_run in Hr as (He & _). unfold extends in He. by rewrite He, app_nil_r.
Qed.

Hint Resolve keeps_observe keeps_get : keeps.

Lemma keeps_cache_write g : (forall l, f (g l) = f l) -> keeps f (cache_write g).
Proof. intros Hg. unfold cache_write. keep. all: by apply keeps_modify. Qed.

Lemma keeps_loadGroupsFromCache : keeps f loadGroupsFromCache.
Proof. unfold loadGroupsFromCache. keep. Qed.

Lemma keeps_download b n : keeps f (download_attempts b n).
Proof. revert b. induction n as [|n IH]; intros b; simpl; keep. Qed.

Lemma keeps_hash_groups cfg tgs : keeps f (hash_groups cfg tgs).
Proof. induction tgs as [|[[t k] g] tgs IH]; simpl; keep. Qed.

Lemma keeps_computeGroupHashes cfg groups : keeps f (computeGroupHashes cfg groups).
Proof. destruct cfg; simpl; [apply keeps_hash_groups|apply keeps_ret]. Qed.

Lemma keeps_replaceGroupHashes hs : (forall l db, f (set_db db l) = f l) -> keeps f (replaceGroupHashes hs).
Proof.
  intros Hdb. unfold replaceGroupHashes. keep. intros l. by destruct (LocalDB.ReplaceGroupHashes _ _ _); simpl.
Qed.

Context (Hcache : forall l b, f (set_cache_groups b l) = f l).

Lemma keeps_load_storage : keeps f loadDynamicGroupsFromStorage.
Proof. unfold loadDynamicGroupsFromStorage, saveGroupsToCache. keep. by apply keeps_cache_write. Qed.

Lemma keeps_groups_from_storage : keeps f groups_from_storage.
Proof. unfold groups_from_storage. keep. apply keeps_load_storage. Qed.

Lemma keeps_load_groups force : keeps f (load_groups force).
Proof.
  unfold load_groups. destruct force; keep; auto using keeps_groups_from_storage, keeps_loadGroupsFromCache.
Qed.

Context (Hconfig : forall l c, f (set_cache_config c l) = f l).

Lemma keeps_load_config_data force : keeps f (load_config_data force).
Proof.
  unfold load_config_data, config_from_cache, downloadWithRetry. destruct force; keep;
    auto using keeps_cache_write, keeps_download.
Qed.
End Kept.

(** *** Hashes *)

(** [r] is the runtime hash of the effective group. *)
Definition hash_of (cfg : Config) (groups : DynGroups) (t k r : string) : Prop :=
  exists g mc, tenant_groups cfg groups t !! k = Some g /\ GetMergedConfig cfg (gc_template g) g = Ok mc /\
    r = HashRuntimeConfig mc.

(** Computed hashes cover exactly the effective groups. *)
Definition hashes_for (cfg : Config) (groups : DynGroups) (hs : list GroupHashes) : Prop :=
  (forall h, h ∈ hs -> hash_of cfg groups (gh_tenant h) (gh_group_key h) (gh_runtime_hash h)) /\
  (forall t k g, tenant_groups cfg groups t !! k = Some g -> exists h, h ∈ hs /\ gh_tenant h = t /\ gh_group_key h = k).

(** So do stored rows. *)
Definition rows_for (cfg : Config) (groups : DynGroups) (rows : list Group) : Prop :=
  (forall g, g ∈ rows -> exists r, g_runtime_config_hash g = Some r /\ hash_of cfg groups (g_tenant g) (g_group_key g) r) /\
  (forall t k g, tenant_groups cfg groups t !! k = Some g -> exists row, row ∈ rows /\ g_tenant row = t /\ g_group_key row = k).

Lemma elem_of_effective cfg groups t k g :
  (t, k, g) ∈ effective_groups cfg groups <-> tenant_groups cfg groups t !! k = Some g.
Proof.
  unfold effective_groups. rewrite list_elem_of_bind. split.
  - intros (t' & Hin & _). apply list_elem_of_bind in Hin as ([k' g'] & Heq%list_elem_of_singleton & Hin).
    simplify_eq/=. by apply elem_of_map_to_list.
  - intros Hg. exists t. split.
    + apply list_elem_of_bind. exists (k, g). split; [by apply list_elem_of_singleton|by apply elem_of_map_to_list].
    + apply elem_of_elements, elem_of_union. rewrite lookup_tenant_groups in Hg. unfold group_in in Hg.
      destruct (c_groups cfg !! t) eqn:Hs; [left; by eapply elem_of_dom_2|].
      destruct (groups !! t) eqn:Hd; [right; by eapply elem_of_dom_2|done].
Qed.

Lemma hash_groups_run cfg tgs l l' hs :
  hash_groups cfg tgs l = (l', Ok hs) ->
  Forall2 (fun tg h => exists mc, GetMergedConfig cfg (gc_template tg.2) tg.2 = Ok mc /\ gh_tenant h = tg.1.1 /\
    gh_group_key h = tg.1.2 /\ gh_runtime_hash h = HashRuntimeConfig mc) tgs hs.
Proof.
  revert l l' hs. induction tgs as [|[[t k] g] tgs IH]; intros l l' hs Hr; simpl in Hr.
  { by injection Hr as <- <-. }
  run_bind Hr as l1 r H1. unfold hash_group in H1. case_bool_decide; [by injection H1 as <- <-|].
  destruct (GetMergedConfig cfg (gc_template g) g) as [mc|e] eqn:Hm; [|by injection H1 as <- <-].
  run_bind H1 as l2 infra H2. injection H1 as <- <-. run_bind Hr as l3 rs H3.
  destruct rs as [hs'|e]; simplify_eq/=. injection Hr as <- <-. constructor; [|eauto]. simpl. eauto.
Qed.

Lemma computeGroupHashes_run cfg groups l l' hs :
  computeGroupHashes (Some cfg) groups l = (l', Ok hs) -> hashes_for cfg groups hs.
Proof.
  simpl. intros H%hash_groups_run. split.
  - intros h Hh. apply list_elem_of_lookup in Hh as [i Hi]. eapply Forall2_lookup_r in H as ([[t k] g] & Htg & mc & Hm & Ht & Hk & Hh); [|done].
    apply list_elem_of_lookup_2, elem_of_effective in Htg. simpl in *. rewrite Ht, Hk. by exists g, mc.
  - intros t k g Hg. apply elem_of_effective, list_elem_of_lookup in Hg as [i Hi].
    eapply Forall2_lookup_l in H as (h & Hh & mc & Hm & Ht & Hk & _); [|done].
    exists h. eauto using list_elem_of_lookup_2.
Qed.

Lemma replace_rows_for cfg groups now hs db db' :
  hashes_for cfg groups hs -> LocalDB.ReplaceGroupHashes now hs db = Ok db' -> rows_for cfg groups (LocalDB.groups db').
Proof.
  intros [Hh Hall] Hr. unfold LocalDB.ReplaceGroupHashes, mbind, res_bind in Hr.
  destruct (LocalDB.replace_group_rows now hs []) as [rows|] eqn:Hrows; [|done]. injection Hr as <-. simpl.
  apply replace_group_rows_run in Hrows as [Hrow Hkey]. split.
  - intros row [(h & Hin & [= -> ->] & ->)|Hnil%elem_of_nil]%Hrow; [|done]. eauto.
  - intros t k g Hg. destruct (Hall _ _ _ Hg) as (h & Hin & <- & <-).
    assert (hash_key h ∈ (row_key <$> rows)) as Hk by (apply Hkey; left; apply list_elem_of_fmap; eauto).
    apply list_elem_of_fmap in Hk as (row & [= -> ->] & Hrow'). eauto.
Qed.

(** *** Publishing *)

(** The new groups are in memory, their hashes in the database. *)
Definition published (groups : DynGroups) (l l' : Loader) : Prop :=
  l_config l' = l_config l /\ l_groups l' = Some groups /\
  forall cfg, l_config l = Some cfg -> rows_for cfg groups (LocalDB.groups (l_db l')).

Lemma replaceGroupHashes_run hs l l' r :
  replaceGroupHashes hs l = (l', r) ->
  match r with
  | Err _ => memory l' = memory l
  | Ok _ => exists now, LocalDB.ReplaceGroupHashes now hs (l_db l) = Ok (l_db l') /\
      l_config l' = l_config l /\ l_groups l' = l_groups l
  end.
Proof.
  unfold replaceGroupHashes. intros Hr. run_bind Hr as l1 now H1. run_bind Hr as l2 fault H2.
  apply (keeps_run memory) in H1; [|apply keeps_observe, steady_memory].
  apply (keeps_run memory) in H2; [|apply keeps_observe, steady_memory].
  rewrite H1 in H2. destruct fault as [e|]; [by injection Hr as <- <-|].
  unfold memory in H2. injection H2 as Hc Hm Hg Hdb. rewrite Hdb in Hr.
  destruct (LocalDB.ReplaceGroupHashes now hs (l_db l)) as [db|e] eqn:Hrep; injection Hr as <- <-.
  - exists now. simpl. by rewrite Hc, Hg.
  - unfold memory. congruence.
Qed.

Lemma cache_write_run g l l' r :
  (forall x, memory (g x) = memory x) -> (forall x, written (g x) = written x) -> cache_write g l = (l', r) ->
  memory l' = memory l /\ written l' = written l.
Proof.
  intros Hm Hw Hr. split; (eapply keeps_run; [|exact Hr]); apply keeps_cache_write; auto with keeps.
Qed.

Lemma publish_run cfg groups hashes l l' r :
  l_config l = cfg -> (forall c, cfg = Some c -> hashes_for c groups hashes) ->
  publishDynamicGroupsLocallyLocked groups hashes l = (l', r) ->
  written l' = written l /\ match r with Err _ => memory l' = memory l | Ok _ => published groups l l' end.
Proof.
  intros Hcfg Hh Hr. unfold publishDynamicGroupsLocallyLocked in Hr. run_bind Hr as l1 x H1.
  pose proof (keeps_run _ _ _ _ _ (keeps_replaceGroupHashes written steady_written hashes (fun _ _ => eq_refl)) H1) as Hw.
  apply replaceGroupHashes_run in H1. destruct x as [[]|e]; [|by injection Hr as <- <-].
  destruct H1 as (now & Hrep & Hc & Hg). run_bind Hr as l2 y H2.
  apply cache_write_run in H2 as [Hm2 Hw2]; [|done..]. unfold memory in Hm2. injection Hm2 as Hc2 _ Hg2 Hdb2.
  run_bind Hr as l3 z H3. injection H3 as <- <-. injection Hr as <- <-.
  split; [unfold written in *; simpl; congruence|]. split_and!; simpl; [congruence|done|].
  intros c Hsc. rewrite Hdb2. eapply replace_rows_for; [apply Hh; congruence|done].
Qed.

Lemma computed_hashes cfg groups l l' hs :
  computeGroupHashes cfg groups l = (l', Ok hs) -> forall c, cfg = Some c -> hashes_for c groups hs.
Proof. intros Hr c ->. by eapply computeGroupHashes_run. Qed.

Lemma compute_run cfg groups l l' r :
  computeGroupHashes cfg groups l = (l', r) -> memory l' = memory l /\ written l' = written l.
Proof. intros Hr. split; (eapply keeps_run; [|exact Hr]); apply keeps_computeGroupHashes; auto with keeps. Qed.

Lemma publishLoaded_run groups l l' r :
  publishLoadedDynamicGroupsLocked groups l = (l', r) ->
  written l' = written l /\ match r with Err _ => memory l' = memory l | Ok _ => published groups l l' end.
Proof.
  unfold publishLoadedDynamicGroupsLocked. intros Hr. run_bind Hr as l1 cfg H1. injection H1 as <- <-.
  run_bind Hr as l2 h H2. pose proof (compute_run _ _ _ _ _ H2) as [Hm Hw].
  destruct h as [hs|e]; [|by injection Hr as <- <-]. pose proof (computed_hashes _ _ _ _ _ H2) as Hh.
  unfold memory in Hm. injection Hm as Hc Hmeta Hg Hdb.
  apply (publish_run (l_config l)) in Hr as [Hw3 Hp]; [|congruence|done]. split; [congruence|].
  unfold memory, published in *. destruct r as [[]|e]; [|congruence].
  destruct Hp as (Hc' & Hg' & Hrows). split_and!; [congruence|done|]. intros c Hsc. apply Hrows. congruence.
Qed.

(** *** The shared write *)

(** What came of an attempt to replace the object pinned by [etag]. *)
Definition saved (groups : DynGroups) (etag : string) (l l' : Loader) (r : res unit) : Prop :=
  (written l' = written l /\ memory l' = memory l /\ is_ok r = false) \/
  (exists s : Store Content unit, etag_matches etag s = true /\ written l' = written l ++ [Wrote (s_obj s) (marshal groups)] /\
     ((r = Ok tt /\ published groups l l') \/ (is_ok r = false /\ memory l' = memory l))).

Lemma put_groups_run groups etag l l' r :
  on_store (storage_put_if_match (marshal groups) etag) l = (l', r) ->
  memory l' = memory l /\
  ((written l' = written l /\ is_ok r = false) \/
   (exists s : Store Content unit, etag_matches etag s = true /\ written l' = written l ++ [Wrote (s_obj s) (marshal groups)])).
Proof.
  unfold on_store. destruct (storage_put_if_match _ _ (l_store l)) as [st x] eqn:Hput. intros [= <- <-].
  split; [done|]. apply put_if_match_run in Hput as [_ [(He & _ & e & ->)|(s & _ & Hs & He & _)]].
  - left. unfold extends in He. rewrite app_nil_r in He. done.
  - right. exists s. split; done.
Qed.

Lemma write_and_publish_run groups etag hashes l l' r :
  (forall c, l_config l = Some c -> hashes_for c groups hashes) ->
  write_and_publish groups etag hashes l = (l', r) -> saved groups etag l l' r.
Proof.
  intros Hh Hr. unfold write_and_publish in Hr. run_bind Hr as l1 w H1. apply put_groups_run in H1 as [Hm Hput].
  destruct w as [[]|e].
  - destruct Hput as [[_ ?]|(s & Hs & Hw)]; [done|]. right. exists s. split; [done|].
    unfold memory in Hm. injection Hm as Hc Hmeta Hg Hdb. run_bind Hr as l2 p H2.
    apply (publish_run (l_config l)) in H2 as [Hw2 Hp]; [|congruence|done]. unfold memory, published in *.
    destruct p as [[]|e].
    + injection Hr as <- <-. split; [congruence|]. left. split; [done|].
      destruct Hp as (Hc' & Hg' & Hrows). split_and!; [congruence|done|]. intros c Hsc. apply Hrows. congruence.
    + run_bind Hr as l3 y H3. injection Hr as <- <-. apply cache_write_run in H3 as [Hm3 Hw3]; [|done..].
      unfold memory in Hm3. split; [congruence|]. right. split; [done|congruence].
  - assert (l1 = l' /\ is_ok r = false) as [<- Hno] by (destruct (err_is e ErrPrecondition); by injection Hr as <- <-).
    destruct Hput as [[Hw _]|(s & Hs & Hw)]; [by left|right]. exists s. eauto.
Qed.

Lemma save_run groups etag l l' r :
  saveDynamicGroupsLocked groups etag l = (l', r) -> saved groups etag l l' r.
Proof.
  unfold saveDynamicGroupsLocked. intros Hr. run_bind Hr as l1 cfg H1. injection H1 as <- <-.
  run_bind Hr as l2 h H2. pose proof (compute_run _ _ _ _ _ H2) as [Hm Hw].
  destruct h as [hs|e]; [|injection Hr as <- <-; by left]. pose proof (computed_hashes _ _ _ _ _ H2) as Hh.
  unfold memory in Hm. injection Hm as Hc Hmeta Hg Hdb.
  apply write_and_publish_run in Hr; [|intros c Hsc; apply Hh; congruence].
  unfold saved, published, memory in *. rewrite Hc, Hmeta, Hg, Hdb, Hw in Hr. done.
Qed.

Lemma load_storage_run l l' groups etag :
  loadDynamicGroupsFromStorage l = (l', Ok (groups, etag)) ->
  exists obj, table obj = flat groups /\ (forall s : Store Content unit, etag_matches etag s = true -> s_obj s = obj).
Proof.
  unfold loadDynamicGroupsFromStorage. intros Hr. run_bind Hr as l1 x H1.
  unfold on_store in H1. destruct (storage_get (l_store l)) as [st y] eqn:Hget. injection H1 as <- <-.
  apply storage_get_run in Hget as (_ & _ & _ & Hy). destruct y as [[[c|] tag]|e]; simpl in Hr.
  - run_bind Hr as l2 z H2. injection Hr as <- <- <-. destruct Hy as [_ Hpin]. by exists (Some (Doc c)).
  - done.
  - destruct (err_is e ErrNotFound); [injection Hr as <- <- <-|done]. exists None.
    split; [done|apply etag_matches_empty].
Qed.

Lemma load_storage_kept l l' r :
  loadDynamicGroupsFromStorage l = (l', r) -> memory l' = memory l /\ written l' = written l.
Proof. intros Hr. split; (eapply keeps_run; [|exact Hr]); (apply keeps_load_storage; [auto with keeps|done]). Qed.

(** ** Operations *)

Definition to_unit {A} (m : M Loader (res A)) : M Loader (res unit) :=
  r ← m; mret match r with Ok _ => Ok tt | Err e => Err e end.

Inductive LoaderOp :=
  | OpTable (op : TableOp)
  | OpLoad (forceRefresh : bool)
  | OpLoadGroups
  | OpSync
  | OpClean.

Definition run_loader_op (op : LoaderOp) : M Loader (res unit) :=
  match op with
  | OpTable (TableUpdate t k f) => UpdateDynamicGroup t k f
  | OpTable (TableDelete t k) => DeleteDynamicGroup t k
  | OpLoad force => to_unit (LoadConfigAndGroups force)
  | OpLoadGroups => to_unit LoadDynamicGroups
  | OpSync => SyncGroupsToCache
  | OpClean => _ ← CleanCache; mret (Ok tt)
  end.

Fixpoint run_loader_ops (ops : list LoaderOp) : M Loader (list (res unit)) :=
  match ops with
  | [] => mret []
  | op :: ops' => r ← run_loader_op op; rs ← run_loader_ops ops'; mret (r :: rs)
  end.

(** What one operation on the table did: nothing that anyone can see, or one atomic
    step on the object it replaced; with success only after the step is visible
    here too, or, for a deletion, when there was nothing to delete. *)
Definition table_effect (op : TableOp) (l l' : Loader) (r : res unit) : Prop :=
  (written l' = written l /\ memory l' = memory l /\ is_ok r = false) \/
  (exists old groups, written l' = written l ++ [Wrote old (marshal groups)] /\
     table_step op (table old) = Ok (flat groups) /\
     ((r = Ok tt /\ published groups l l') \/ (is_ok r = false /\ memory l' = memory l))) \/
  (exists t k groups, op = TableDelete t k /\ r = Ok tt /\ written l' = written l /\
     flat groups !! (t, k) = None /\ published groups l l').

(** The state before the reading is as good as the state after it. *)
Lemma published_memory groups l0 l l' : memory l = memory l0 -> published groups l l' -> published groups l0 l'.
Proof. unfold memory, published. intros [= Hc _ _ _] (H1 & H2 & H3). rewrite Hc in *. done. Qed.

Lemma saved_effect op groups' groups etag obj l0 l l' r :
  memory l = memory l0 -> written l = written l0 -> table obj = flat groups' ->
  (forall s : Store Content unit, etag_matches etag s = true -> s_obj s = obj) ->
  table_step op (flat groups') = Ok (flat groups) -> saved groups etag l l' r -> table_effect op l0 l' r.
Proof.
  intros Hm Hw Ht Hpin Hstep [(H1 & H2 & H3)|(s & Hs & Hlog & Hcase)].
  - left. split_and!; congruence.
  - right; left. exists obj, groups. rewrite <-Hw, Ht. rewrite (Hpin _ Hs) in Hlog. split_and!; [done..|].
    destruct Hcase as [[-> Hp]|[Hno Hm']]; [left; split; [done|by eapply published_memory]|right; split; [done|congruence]].
Qed.

Lemma update_effect t k f l l' r :
  UpdateDynamicGroup t k f l = (l', r) -> table_effect (TableUpdate t k f) l l' r.
Proof.
  unfold UpdateDynamicGroup. intros Hr. run_bind Hr as l1 x H1. pose proof (load_storage_kept _ _ _ H1) as [Hm Hw].
  destruct x as [[groups etag]|e]; [|injection Hr as <- <-; by left].
  apply load_storage_run in H1 as (obj & Htab & Hpin).
  destruct (f (group_in groups t k)) as [g|e] eqn:Hf; [|injection Hr as <- <-; by left].
  apply save_run in Hr. eapply saved_effect; try done. unfold table_step, mbind, res_bind. by rewrite lookup_flat, Hf, flat_set.
Qed.

Lemma delete_effect t k l l' r :
  DeleteDynamicGroup t k l = (l', r) -> table_effect (TableDelete t k) l l' r.
Proof.
  unfold DeleteDynamicGroup. intros Hr. run_bind Hr as l1 x H1. pose proof (load_storage_kept _ _ _ H1) as [Hm Hw].
  destruct x as [[groups etag]|e]; [|injection Hr as <- <-; by left].
  apply load_storage_run in H1 as (obj & Htab & Hpin).
  destruct (group_in groups t k) as [g|] eqn:Hg.
  - apply save_run in Hr. eapply saved_effect; try done. simpl. by rewrite flat_remove.
  - apply publishLoaded_run in Hr as [Hw2 Hp]. destruct r as [[]|e]; [|left; split_and!; [congruence|congruence|done]].
    right; right. exists t, k, groups. split_and!; [done|done|congruence|by rewrite lookup_flat|by eapply published_memory].
Qed.

Lemma table_op_effect op l l' r : run_loader_op (OpTable op) l = (l', r) -> table_effect op l l' r.
Proof. destruct op; [apply update_effect|apply delete_effect]. Qed.

(** Loading and synchronising write nothing to the shared object. *)
Lemma keeps_written_op op : (forall top, op ≠ OpTable top) -> keeps written (run_loader_op op).
Proof.
  pose proof steady_written as Hst.
  destruct op as [op|force| | |]; intros Hop; [by destruct (Hop op)|..]; simpl; unfold to_unit.
  - apply keeps_bind; [|intros; apply keeps_ret]. unfold LoadConfigAndGroups, install_loaded. keep;
      auto using keeps_load_config_data, keeps_observe, keeps_load_groups, keeps_computeGroupHashes, keeps_replaceGroupHashes.
  - apply keeps_bind; [|intros; apply keeps_ret]. unfold LoadDynamicGroups. keep;
      auto using keeps_load_storage, keeps_loadGroupsFromCache.
  - unfold SyncGroupsToCache. keep; auto using keeps_computeGroupHashes, keeps_replaceGroupHashes.
  - unfold CleanCache. keep; auto using keeps_cache_write.
Qed.

(** A log explained as atomic steps on the table, in the order of the operations:
    an operation contributes the one step it stands for, or nothing; an update
    that reported success contributed its step. *)
Inductive linearised : list (LoaderOp * res unit) -> list (LogEntry Content unit) -> Prop :=
  | lin_nil : linearised [] []
  | lin_step op r old new rest log :
      table_step op (table old) = Ok (table (Some (Doc new))) -> linearised rest log ->
      linearised ((OpTable op, r) :: rest) (Wrote old new :: log)
  | lin_silent op r rest log :
      (forall t k f, op = OpTable (TableUpdate t k f) -> is_ok r = false) -> linearised rest log ->
      linearised ((op, r) :: rest) log.

Lemma op_linearised op l l' r rest log :
  run_loader_op op l = (l', r) -> linearised rest log ->
  exists new, written l' = written l ++ new /\ linearised ((op, r) :: rest) (new ++ log).
Proof.
  intros Hr Hrest.
  assert ((forall top, op ≠ OpTable top) -> exists new, written l' = written l ++ new /\ linearised ((op, r) :: rest) (new ++ log)) as quiet.
  { intros Hop. exists []. rewrite app_nil_r. split; [by eapply keeps_run; [apply keeps_written_op|]|].
    apply lin_silent; [|done]. intros t k f ->. by destruct (Hop (TableUpdate t k f)). }
  destruct op as [top|force| | |].
  - apply table_op_effect in Hr as [(Hw & _ & Hno)|[(old & g & Hw & Hstep & _)|(t & k & g & -> & _ & Hw & _)]].
    + exists []. rewrite app_nil_r. split; [done|]. by apply lin_silent.
    + exists [Wrote old (marshal g)]. split; [done|]. by apply lin_step.
    + exists []. rewrite app_nil_r. split; [done|]. by apply lin_silent.
  - by apply quiet.
  - by apply quiet.
  - by apply quiet.
  - by apply quiet.
Qed.

(** C16. The loader refines the table: whatever other servers write between any two
    requests, and whatever fails, the writes of a sequence of loader operations are
    atomic steps on the table of groups keyed by tenant and key, at most one per
    operation and in their order, each applied to the very table it replaced; and
    an update that reports success has made its step. *)
Theorem group_updates_linearised ops l l' rs :
  run_loader_ops ops l = (l', rs) ->
  exists log, written l' = written l ++ log /\ linearised (zip ops rs) log.
Proof.
  revert l l' rs. induction ops as [|op ops IH]; intros l l' rs Hr; simpl in Hr.
  { injection Hr as <- <-. exists []. rewrite app_nil_r. split; [done|constructor]. }
  run_bind Hr as l1 r H1. run_bind Hr as l2 rs' H2. injection Hr as <- <-.
  apply IH in H2 as (log & Hw & Hlin). destruct (op_linearised _ _ _ _ _ _ H1 Hlin) as (new & Hw1 & Hlin1).
  exists (new ++ log). split; [by rewrite Hw, Hw1, app_assoc|done].
Qed.

(** ** The local view *)

(** The groups of an object are not the JSON value [null]. *)
Definition plain (b : option (Blob Content)) : Prop := forall c, b = Some (Doc c) -> ct_groups c ≠ None.

Definition plain_loader (l : Loader) : Prop := plain (l_cache_groups l) /\ plain (s_obj (l_store l)).

(** Configuration, groups and hashes belong together. *)
Definition consistent (l : Loader) : Prop :=
  forall cfg, l_config l = Some cfg -> exists groups, l_groups l = Some groups /\ rows_for cfg groups (LocalDB.groups (l_db l)).

Definition view_ok (l : Loader) : Prop := plain_loader l /\ consistent l.

Lemma consistent_memory l l' : memory l' = memory l -> consistent l -> consistent l'.
Proof. unfold memory, consistent. intros [= -> _ -> ->]. done. Qed.

Lemma consistent_published groups l l' : published groups l l' -> consistent l'.
Proof. intros (Hc & Hg & Hrows) cfg Hcfg. rewrite Hc in Hcfg. eauto. Qed.

Lemma consistent_install d etag cfg g l l' r :
  consistent l -> install_loaded d etag cfg (Some g) l = (l', r) -> consistent l'.
Proof.
  unfold install_loaded. intros Hl Hr. run_bind Hr as l1 h H1. pose proof (compute_run _ _ _ _ _ H1) as [Hm _].
  destruct h as [hs|e]; [|injection Hr as <- <-; by eapply consistent_memory]. apply computeGroupHashes_run in H1.
  run_bind Hr as l2 x H2. apply replaceGroupHashes_run in H2. destruct x as [[]|e].
  - destruct H2 as (now & Hrep & _). run_bind Hr as l3 y H3. injection H3 as <- <-. injection Hr as <- <-.
    intros c [= <-]. exists g. split; [done|]. simpl. by eapply replace_rows_for.
  - injection Hr as <- <-. eapply consistent_memory; [by rewrite H2|done].
Qed.

(** Loading keeps the view consistent while [P] makes it find groups. *)
Lemma consistent_load_when (P : Loader -> Prop) force l l' r :
  preserves P (load_config_data force) -> preserves P (l_observe le_interfaces) ->
  (forall x x' g, P x -> load_groups force x = (x', Ok g) -> g ≠ None) ->
  P l -> consistent l -> LoadConfigAndGroups force l = (l', r) -> consistent l'.
Proof.
  unfold LoadConfigAndGroups. intros Hpc Hpa Hpg Hp Hl Hr. run_bind Hr as l1 d H1.
  pose proof (Hpc l Hp) as Hp1. rewrite H1 in Hp1. simpl in Hp1.
  apply (keeps_run memory) in H1; [|by apply keeps_load_config_data; auto with keeps].
  assert (consistent l1) as Hl1 by (by eapply consistent_memory). clear H1.
  destruct d as [[d etag]|e]; [|by injection Hr as <- <-].
  destruct (cd_parsed d) as [cfg|e]; [|by injection Hr as <- <-]. run_bind Hr as l2 a H2.
  pose proof (Hpa l1 Hp1) as Hp2. rewrite H2 in Hp2. simpl in Hp2.
  apply (keeps_run memory) in H2; [|apply keeps_observe; auto with keeps].
  assert (consistent l2) as Hl2 by (by eapply consistent_memory). clear H2.
  destruct (autoDetectAdvertiseHosts a le_advertise_host cfg) as [cfg'|e]; [|by injection Hr as <- <-]. run_bind Hr as l3 g H3.
  assert (consistent l3) as Hl3.
  { eapply consistent_memory; [|exact Hl2]. eapply keeps_run; [|exact H3]. by apply keeps_load_groups; auto with keeps. }
  destruct g as [g|e]; [|by injection Hr as <- <-]. apply Hpg in H3; [|done].
  destruct g as [g|]; [|done]. by eapply consistent_install.
Qed.

(** A forced load always finds groups. *)
Lemma groups_from_storage_some l l' g : groups_from_storage l = (l', Ok g) -> g ≠ None.
Proof.
  unfold groups_from_storage. intros Hr. run_bind Hr as l1 x H1. injection Hr as _ Hg.
  destruct x as [[? ?]|]; simplify_eq. congruence.
Qed.

Lemma consistent_force_load l l' r : consistent l -> LoadConfigAndGroups true l = (l', r) -> consistent l'.
Proof.
  intros Hl. apply (consistent_load_when (fun _ => True)); try done.
  intros x x' g _. apply groups_from_storage_some.
Qed.

Section Plain.
Context (Hothers : forall n b b', doc_others n b = Some b' -> plain b').

Lemma plain_others n b : plain b -> plain (after_others n b).
Proof. unfold after_others. intros Hb. destruct (doc_others n b) eqn:Ho; simpl; [by eapply Hothers|done]. Qed.

Lemma plain_observe {A} (f : nat -> A) : preserves plain_loader (l_observe f).
Proof. intros l [Hc Ho]. split; [done|by apply plain_others]. Qed.

Lemma plain_cache_write g : (forall l, plain_loader l -> plain_loader (g l)) -> preserves plain_loader (cache_write g).
Proof.
  intros Hg. apply preserves_bind; [apply plain_observe|]. intros [[e []]|].
  - apply preserves_bind; [intros l Hl; by apply Hg|intros; apply preserves_ret].
  - apply preserves_ret.
  - apply preserves_bind; [intros l Hl; by apply Hg|intros; apply preserves_ret].
Qed.

Lemma plain_set_cache b l : plain b -> plain_loader l -> plain_loader (set_cache_groups b l).
Proof. by intros Hb [_ Ho]. Qed.

Lemma plain_marshal groups : plain (Some (Doc (marshal groups))).
Proof. by intros c [= <-]. Qed.

Lemma plain_modify g : (forall l, l_cache_groups (g l) = l_cache_groups l /\ l_store (g l) = l_store l) -> preserves plain_loader (modify g).
Proof. intros Hg l [Hc Ho]. unfold plain_loader. simpl. destruct (Hg l) as [-> ->]. done. Qed.

Lemma plain_load_storage : preserves plain_loader loadDynamicGroupsFromStorage.
Proof.
  intros l [Hc Ho]. unfold loadDynamicGroupsFromStorage. rewrite M_bind_eq. unfold on_store.
  destruct (storage_get (l_store l)) as [st y] eqn:Hget. simpl.
  apply storage_get_run in Hget as (_ & Hobj & _ & Hy).
  assert (plain (s_obj st)) as Hst by (rewrite Hobj; by apply plain_others).
  destruct y as [[b tag]|e]; simpl; [|done]. destruct (parseGroups b); [|done]. rewrite M_bind_eq. simpl.
  apply plain_cache_write; [|done]. intros x Hx. apply plain_set_cache; [|done]. destruct Hy as [<- _]. done.
Qed.

Lemma plain_put groups etag : preserves plain_loader (on_store (storage_put_if_match (marshal groups) etag)).
Proof.
  intros l [Hc Ho]. unfold on_store. destruct (storage_put_if_match _ _ _) as [st y] eqn:Hput. simpl.
  apply put_if_match_run in Hput as [_ [(_ & Hobj & _)|(s & _ & _ & _ & Hobj & _)]]; (split; [done|]); simpl; rewrite Hobj.
  - by apply plain_others.
  - apply plain_marshal.
Qed.

Hint Resolve plain_observe plain_load_storage plain_put plain_set_cache plain_marshal : plain.

Lemma plain_hash_groups cfg tgs : preserves plain_loader (hash_groups cfg tgs).
Proof. induction tgs as [|[[t k] g] tgs IH]; simpl; unfold hash_group; plainly. Qed.

Lemma plain_compute cfg groups : preserves plain_loader (computeGroupHashes cfg groups).
Proof. destruct cfg; [apply plain_hash_groups|apply preserves_ret]. Qed.

Lemma plain_replace hs : preserves plain_loader (replaceGroupHashes hs).
Proof. unfold replaceGroupHashes. plainly. intros l [Hc Ho]. by destruct (LocalDB.ReplaceGroupHashes _ _ _). Qed.

Lemma plain_cache_groups groups : preserves plain_loader (saveGroupsToCache (Doc (marshal groups))).
Proof. apply plain_cache_write. auto with plain. Qed.

Lemma plain_cache_none : preserves plain_loader (cache_write (set_cache_groups None)).
Proof. apply plain_cache_write. intros l Hl. by apply plain_set_cache. Qed.

Lemma plain_cache_config c : preserves plain_loader (cache_write (set_cache_config c)).
Proof. apply plain_cache_write. by intros l [? ?]. Qed.

Hint Resolve plain_compute plain_replace plain_cache_groups plain_cache_none plain_cache_config : plain.

Lemma plain_publish groups hashes : preserves plain_loader (publishDynamicGroupsLocallyLocked groups hashes).
Proof. unfold publishDynamicGroupsLocallyLocked. plainly. Qed.

Hint Resolve plain_publish : plain.

Lemma plain_save groups etag : preserves plain_loader (saveDynamicGroupsLocked groups etag).
Proof. unfold saveDynamicGroupsLocked, write_and_publish. plainly. Qed.

Lemma plain_download b n : preserves plain_loader (download_attempts b n).
Proof. revert b. induction n as [|n IH]; intros b; simpl; plainly. Qed.

Hint Resolve plain_save plain_download : plain.

Lemma plain_load_config force : preserves plain_loader (load_config_data force).
Proof. unfold load_config_data, config_from_cache, downloadWithRetry. destruct force; plainly. Qed.

Lemma plain_load_groups force : preserves plain_loader (load_groups force).
Proof. unfold load_groups, groups_from_storage, loadGroupsFromCache. destruct force; plainly. Qed.

Hint Resolve plain_load_config plain_load_groups : plain.

Lemma plain_op op : preserves plain_loader (run_loader_op op).
Proof.
  destruct op as [[t k f|t k]|force| | |]; simpl; unfold UpdateDynamicGroup, DeleteDynamicGroup,
    publishLoadedDynamicGroupsLocked, to_unit, LoadConfigAndGroups, install_loaded, LoadDynamicGroups,
    loadGroupsFromCache, SyncGroupsToCache, CleanCache; plainly.
Qed.

(** Unless the disk cache holds [null], loading finds groups. *)
Lemma load_groups_some force l l' g :
  plain_loader l -> load_groups force l = (l', Ok g) -> g ≠ None.
Proof.
  intros [Hc _] Hr. pose proof groups_from_storage_some as Hstorage.
  unfold load_groups in Hr. destruct force; [eauto|]. run_bind Hr as l1 cur H1. injection H1 as <- <-.
  destruct (l_groups l); [by injection Hr as <- <-|]. run_bind Hr as l2 cached H2. unfold loadGroupsFromCache in H2.
  run_bind H2 as l3 fault H3. injection H3 as <- <-. unfold gets in H2. injection H2 as <- <-. simpl in Hr.
  destruct (le_cache_get_fault _); [eauto|].
  destruct (l_cache_groups l) as [[c|]|] eqn:Hcache; [|eauto|eauto]. destruct (ct_extended c); [eauto|].
  injection Hr as <- <-. by apply Hc.
Qed.

Lemma consistent_table op l l' r : run_loader_op (OpTable op) l = (l', r) -> consistent l -> consistent l'.
Proof.
  intros Hr%table_op_effect Hl.
  destruct Hr as [(_ & Hm & _)|[(old & g & _ & _ & [[_ Hp]|[_ Hm]])|(t & k & g & _ & _ & _ & _ & Hp)]];
    eauto using consistent_memory, consistent_published.
Qed.

Lemma consistent_load force l l' r :
  plain_loader l -> consistent l -> LoadConfigAndGroups force l = (l', r) -> consistent l'.
Proof.
  apply consistent_load_when; [apply plain_load_config|apply plain_observe|].
  intros x x' g Hx. by apply load_groups_some.
Qed.

Lemma consistent_load_groups l l' r : consistent l -> LoadDynamicGroups l = (l', r) -> consistent l'.
Proof.
  unfold LoadDynamicGroups. intros Hl Hr. run_bind Hr as l1 cur H1. injection H1 as <- <-.
  destruct (l_groups l) as [g|] eqn:Hg; [by injection Hr as <- <-|].
  assert (l_config l = None) as Hnone.
  { destruct (l_config l) as [cfg|] eqn:Hcfg; [|done]. destruct (Hl _ Hcfg) as (g & Hg' & _). congruence. }
  assert (keeps l_config LoadDynamicGroups) as Hk.
  { unfold LoadDynamicGroups. keep; auto using keeps_loadGroupsFromCache, keeps_load_storage, steady_config. }
  intros cfg Hcfg. specialize (Hk l). unfold LoadDynamicGroups in Hk. rewrite M_bind_eq in Hk. unfold gets at 1 2 in Hk.
  simpl in Hk. rewrite Hg, Hr in Hk. simpl in Hk. congruence.
Qed.

Lemma consistent_sync l l' r : consistent l -> SyncGroupsToCache l = (l', r) -> consistent l'.
Proof.
  unfold SyncGroupsToCache. intros Hl Hr. run_bind Hr as l1 cfg H1. injection H1 as <- <-.
  destruct (l_config l) as [cfg|] eqn:Hcfg; [|by injection Hr as <- <-].
  destruct (Hl _ Hcfg) as (g & Hg & _). run_bind Hr as l1 g' H1. injection H1 as <- <-. rewrite Hg in Hr. simpl in Hr.
  run_bind Hr as l2 h H2. change (computeGroupHashes (Some cfg) g l = (l2, h)) in H2. pose proof (compute_run _ _ _ _ _ H2) as [Hm _].
  assert (consistent l2) as Hl2 by (by eapply consistent_memory).
  destruct h as [hs|e]; [|by injection Hr as <- <-]. apply computeGroupHashes_run in H2.
  unfold memory in Hm. injection Hm as Hc _ Hg2 _. apply replaceGroupHashes_run in Hr. destruct r as [[]|e].
  - destruct Hr as (now & Hrep & Hc' & Hg'). intros c Hc''. exists g. split; [congruence|].
    replace c with cfg by congruence. by eapply replace_rows_for.
  - by eapply consistent_memory.
Qed.

Lemma view_ok_op op l l' r : run_loader_op op l = (l', r) -> view_ok l -> view_ok l'.
Proof.
  intros Hr [Hp Hl]. split; [pose proof (plain_op op l Hp) as Hpl; by rewrite Hr in Hpl|].
  destruct op as [top|force| | |]; [by eapply consistent_table|..]; simpl in Hr.
  - unfold to_unit in Hr. run_bind Hr as l1 x H1. injection Hr as <- <-. by eapply consistent_load.
  - unfold to_unit in Hr. run_bind Hr as l1 x H1. injection Hr as <- <-. by eapply consistent_load_groups.
  - by eapply consistent_sync.
  - run_bind Hr as l1 x H1. injection Hr as <- <-. eapply consistent_memory; [|done]. eapply keeps_run; [|exact H1].
    unfold CleanCache. keep; auto using keeps_cache_write, steady_memory.
Qed.

Lemma view_ok_ops ops l : view_ok l -> view_ok (run_loader_ops ops l).1.
Proof.
  revert l. induction ops as [|op ops IH]; intros l Hl; [done|]. simpl. rewrite M_bind_eq, M_bind_eq. simpl.
  apply IH. eapply view_ok_op; [apply surjective_pairing|done].
Qed.

Lemma view_ok_new store cc cg db : plain cg -> plain (s_obj store) -> view_ok (NewLoader store cc cg db).
Proof. intros Hc Ho. split; [done|]. by intros cfg. Qed.
End Plain.

Lemma cached_group_row t k l :
  t ≠ "" -> GetCachedGroup t k l = Ok (head (sel (LocalDB.group_is t k) (LocalDB.groups (l_db l)))).
Proof. intros Ht. unfold GetCachedGroup, LocalDB.GetGroup. by rewrite bool_decide_false. Qed.

Lemma cached_group_Some t k l row :
  GetCachedGroup t k l = Ok (Some row) -> t ≠ "" /\ row ∈ LocalDB.groups (l_db l) /\ g_tenant row = t /\ g_group_key row = k.
Proof.
  unfold GetCachedGroup, LocalDB.GetGroup. case_bool_decide; [done|]. intros [= Hh].
  assert (row ∈ sel (LocalDB.group_is t k) (LocalDB.groups (l_db l))) as [Hk Hin]%elem_of_sel.
  { destruct (sel _ _); simplify_eq/=. left. }
  apply group_is_key in Hk. unfold row_key in Hk. by simplify_eq.
Qed.

(** The local view is consistent at every moment: after any sequence of loads,
    updates, deletions, synchronisations and cache cleanings, failed ones included,
    by a loader that started with nothing in memory, and whatever other servers do
    to the shared object, every group readers can get has exactly one kind of stored
    hash, the runtime hash of that very group under the very configuration it comes
    with; and every stored hash is of such a group.  (The shared object and the disk
    cache are assumed never to be the JSON value [null].) *)
Theorem cached_hash_current ops store cc cg db :
  (forall n b b', doc_others n b = Some b' -> plain b') -> plain cg -> plain (s_obj store) ->
  let l := (run_loader_ops ops (NewLoader store cc cg db)).1 in
  (forall t k cfg g, GetConfigAndGroup t k l = Ok (cfg, g) ->
     exists row mc, GetCachedGroup t k l = Ok (Some row) /\ GetMergedConfig cfg (gc_template g) g = Ok mc /\
       g_runtime_config_hash row = Some (HashRuntimeConfig mc)) /\
  (forall t k row, l_config l ≠ None -> GetCachedGroup t k l = Ok (Some row) ->
     exists cfg g, GetConfigAndGroup t k l = Ok (cfg, g)).
Proof.
  intros Hothers Hcg Hobj l. assert (consistent l) as Hl by (by apply view_ok_ops, view_ok_new). split.
  - intros t k cfg g Hget. unfold GetConfigAndGroup in Hget. case_bool_decide as Ht; [done|].
    destruct (l_config l) as [c|] eqn:Hc; [|done]. destruct (Hl _ Hc) as (groups & Hg & Hrows & Hall). rewrite Hg in Hget.
    destruct (tenant_groups c groups t !! k) as [g'|] eqn:Hk; [|done]. injection Hget as -> ->.
    rewrite (cached_group_row _ _ _ Ht). destruct (Hall _ _ _ Hk) as (row & Hin & <- & <-).
    destruct (sel (LocalDB.group_is _ _) (LocalDB.groups (l_db l))) as [|row' rest] eqn:Hsel.
    { assert (row ∈ sel (LocalDB.group_is (g_tenant row) (g_group_key row)) (LocalDB.groups (l_db l))) as Habs.
      { apply elem_of_sel. split; [by apply group_is_key|done]. }
      rewrite Hsel in Habs. by apply elem_of_nil in Habs. }
    assert (row' ∈ row' :: rest) as Hin' by left. rewrite <-Hsel in Hin'. apply elem_of_sel in Hin' as [Hkey Hin'].
    apply group_is_key in Hkey. unfold row_key in Hkey. injection Hkey as Hkt Hkk.
    destruct (Hrows _ Hin') as (r & Hr & g'' & mc & Hg'' & Hm & ->). rewrite Hkt, Hkk, Hk in Hg''. injection Hg'' as <-.
    exists row', mc. done.
  - intros t k row Hc (Ht & Hin & Hrt & Hrk)%cached_group_Some. destruct (l_config l) as [c|] eqn:Hcfg; [|done].
    destruct (Hl _ Hcfg) as (groups & Hg & Hrows & _). destruct (Hrows _ Hin) as (r & _ & g & mc & Hk & _).
    exists c, g. unfold GetConfigAndGroup. rewrite bool_decide_false by done. rewrite Hcfg, Hg, <-Hrt, <-Hrk, Hk. done.
Qed.

(** A groups object holding [null] disables the readers that want configuration and
    group together: it is copied to the disk cache as it is, and a server that
    starts from that cache reports success, yet finds no group, not even a static
    one, until something changes the dynamic groups. *)
Theorem null_groups_hide_groups l l' cfg :
  l_groups l = None -> l_cache_groups l = Some (Doc (mkContent None false)) -> (forall n, le_cache_get_fault n = None) ->
  LoadConfigAndGroups false l = (l', Ok cfg) ->
  l_config l' = Some cfg /\ forall t k, is_ok (GetConfigAndGroup t k l') = false.
Proof.
  intros Hg Hcache Hfault Hr.
  assert (keeps (fun x => (l_groups x, l_cache_groups x)) (load_config_data false)) as Hk by (by apply keeps_load_config_data).
  unfold LoadConfigAndGroups in Hr. run_bind Hr as l1 d H1. apply (keeps_run _ _ _ _ _ Hk) in H1. injection H1 as Hg1 Hc1.
  destruct d as [[d etag]|]; [|done]. destruct (cd_parsed d) as [c|]; [|done]. run_bind Hr as l2 a H2. injection H2 as <- <-.
  destruct (autoDetectAdvertiseHosts _ _ _) as [c'|]; [|done]. run_bind Hr as l3 g H3. unfold load_groups in H3. run_bind H3 as l4 cur H4.
  injection H4 as <- <-. simpl in H3. rewrite Hg1, Hg in H3. run_bind H3 as l5 x H5. unfold loadGroupsFromCache in H5.
  run_bind H5 as l6 fault H6. injection H6 as <- <-. unfold gets in H5. simpl in H5. rewrite Hfault, Hc1, Hcache in H5.
  injection H5 as <- <-. injection H3 as <- <-. unfold install_loaded in Hr. run_bind Hr as l7 h H7. destruct h as [hs|]; [|done].
  run_bind Hr as l8 y H8. destruct y as [[]|]; [|done]. run_bind Hr as l9 z H9. injection H9 as <- <-. injection Hr as <- <-.
  split; [done|]. intros t k. unfold GetConfigAndGroup. simpl. by case_bool_decide.
Qed.
End LoaderRuns.
