(* ===== verification/LoaderValid.v ===== *)
(** * The configuration in use is a validated one

    Whatever the loader has installed passed validation when it was parsed, so the
    guarantees of [ValidationFacts.v] hold of the configuration its readers see; and
    an override left behind by a removed static group stops every later load. *)

From S2P Require Import Prelude Provider Json LocalDB Config GoText ProxyConfig NatValidation SubnetFacts Validation ValidationFacts Document Loader LoaderFacts.

Section Installed.
Context {LE : LoaderEnv} {HL : DocLaws Content}.

(** Where an installed configuration comes from. *)
Definition installed_from (cfg : Config) : Prop :=
  exists d ifaces cfg0, cd_parsed d = Ok cfg0 /\ autoDetectAdvertiseHosts ifaces le_advertise_host cfg0 = Ok cfg.

Definition installed_ok (l : Loader) : Prop := forall cfg, l_config l = Some cfg -> installed_from cfg.

Lemma installed_config l l' : l_config l' = l_config l -> installed_ok l -> installed_ok l'.
Proof. intros Hc Hl cfg. rewrite Hc. apply Hl. Qed.

Lemma installed_load force l l' r : installed_ok l -> LoadConfigAndGroups force l = (l', r) -> installed_ok l'.
Proof.
  unfold LoadConfigAndGroups. intros Hl Hr. run_bind Hr as l1 d H1.
  apply (keeps_run l_config) in H1; [|by apply keeps_load_config_data; auto with keeps]. apply (installed_config _ _ H1) in Hl. clear H1.
  destruct d as [[d etag]|e]; [|by injection Hr as <- <-].
  destruct (cd_parsed d) as [cfg0|e] eqn:Hp; [|by injection Hr as <- <-]. run_bind Hr as l2 ifaces H2.
  apply (keeps_run l_config) in H2; [|apply keeps_observe; auto with keeps]. apply (installed_config _ _ H2) in Hl. clear H2.
  destruct (autoDetectAdvertiseHosts ifaces le_advertise_host cfg0) as [cfg|e] eqn:Ha; [|by injection Hr as <- <-]. run_bind Hr as l3 g H3.
  apply (keeps_run l_config) in H3; [|by apply keeps_load_groups; auto with keeps]. apply (installed_config _ _ H3) in Hl. clear H3.
  destruct g as [g|e]; [|by injection Hr as <- <-]. unfold install_loaded in Hr. run_bind Hr as l4 h H4.
  apply (keeps_run l_config) in H4; [|apply keeps_computeGroupHashes; auto with keeps]. apply (installed_config _ _ H4) in Hl. clear H4.
  destruct h as [hs|e]; [|by injection Hr as <- <-]. run_bind Hr as l5 x H5.
  apply (keeps_run l_config) in H5; [|apply keeps_replaceGroupHashes; auto with keeps]. apply (installed_config _ _ H5) in Hl. clear H5.
  destruct x as [[]|e]; [|by injection Hr as <- <-]. run_bind Hr as l6 y H6. injection H6 as <- <-. injection Hr as <- <-.
  intros c [= <-]. by exists d, ifaces, cfg0.
Qed.

Lemma keeps_config_op op : (forall force, op ≠ OpLoad force) -> keeps l_config (run_loader_op op).
Proof.
  intros Hop. destruct op as [top|force| | |]; [|by destruct (Hop force)|..].
  - intros l. destruct (run_loader_op (OpTable top) l) as [l' r] eqn:Hr. apply table_op_effect in Hr. simpl.
    assert (memory l' = memory l -> l_config l' = l_config l) as Hmem by (unfold memory; congruence).
    destruct Hr as [(_ & Hm & _)|[(old & g & _ & _ & [[_ (Hc & _)]|[_ Hm]])|(t & k & g & _ & _ & _ & _ & (Hc & _))]]; auto.
  - simpl. unfold to_unit, LoadDynamicGroups. keep; auto using keeps_loadGroupsFromCache, keeps_load_storage, steady_config.
  - simpl. unfold SyncGroupsToCache. keep; auto using keeps_computeGroupHashes, keeps_replaceGroupHashes, steady_config.
  - simpl. unfold CleanCache. keep; auto using keeps_cache_write, steady_config.
Qed.

Lemma installed_ops ops l : installed_ok l -> installed_ok (run_loader_ops ops l).1.
Proof.
  revert l. induction ops as [|op ops IH]; intros l Hl; [done|]. simpl. rewrite M_bind_eq, M_bind_eq. simpl.
  apply IH. destruct (run_loader_op op l) as [l' r] eqn:Hr. simpl.
  assert ((exists force, op = OpLoad force) \/ (forall force, op ≠ OpLoad force)) as [[force ->]|Hop] by (destruct op; eauto; right; done).
  - simpl in Hr. unfold to_unit in Hr. run_bind Hr as l1 x H1. injection Hr as <- <-. by eapply installed_load.
  - eapply installed_config; [|exact Hl]. by eapply keeps_run; [apply keeps_config_op|].
Qed.

Lemma detection_only_advertise ifaces host cfg0 cfg :
  autoDetectAdvertiseHosts ifaces host cfg0 = Ok cfg -> cfg = set_advertise cfg0 (s_advertise (c_settings cfg)).
Proof.
  unfold autoDetectAdvertiseHosts. destruct (if bool_decide (host = "") then _ else _) as [a|]; [|done].
  cbn [mbind res_bind]. destruct (negb _); [by intros [= <-]|].
  destruct (SplitHostPort _) as [[? ?]|]; [|done]. destruct (detectPrimaryIP _ _); [|done]. by intros [= <-].
Qed.

(** The bytes come from storage or from the disk cache. *)
Lemma download_source b n l l' d e : download_attempts b n l = (l', Ok (d, e)) -> exists m, le_config_get m = Ok (d, e).
Proof.
  revert b l. induction n as [|n IH]; intros b l Hr; simpl in Hr; run_bind Hr as l1 x H1; (destruct x; [by injection Hr|]);
    run_bind Hr as l2 y H2; injection H2 as <- Hy; destruct y as [[d' e']|]; try done; try (injection Hr as <- <- <-; eauto).
  by eapply IH.
Qed.

Lemma load_config_source force l l' d e :
  load_config_data force l = (l', Ok (d, e)) -> (exists m e', le_config_get m = Ok (d, e')) \/ (force = false /\ l_cache_config l = Some d).
Proof.
  unfold load_config_data. intros Hr. run_bind Hr as l1 cached H1. destruct cached as [[d' e']|].
  - injection Hr as <- <- <-. right. destruct force; [by injection H1|]. split; [done|]. unfold config_from_cache in H1.
    run_bind H1 as l2 fault H2. injection H2 as <- <-. run_bind H1 as l3 c H3. injection H3 as <- <-. simpl in H1.
    destruct (le_cache_get_fault _); [by injection H1|]. destruct (l_cache_config l) as [c|]; [|by injection H1].
    destruct (is_ok (cd_parsed c)); [by injection H1 as <- -> _|]. run_bind H1 as l4 z H4. by injection H1.
  - run_bind Hr as l2 x H2. destruct x as [[d' e']|]; [|done]. run_bind Hr as l3 z H3. injection Hr as <- <- <-.
    left. apply download_source in H2 as [m Hm]. eauto.
Qed.

Lemma installed_valid cfg : installed_from cfg -> exists cfg0, Config_Validate cfg0 = Ok tt /\ cfg = set_advertise cfg0 (s_advertise (c_settings cfg)).
Proof.
  intros (d & ifaces & cfg0 & Hp & Ha). exists cfg0. split.
  - unfold cd_parsed, Parse in Hp. destruct (cd_decoded d) as [c|]; [|done].
    destruct (Config_Validate (SetDefaults c)) as [[]|] eqn:Hv; [|done]. by injection Hp as <-.
  - by eapply detection_only_advertise.
Qed.

(** ** Overrides without their group *)

Definition orphan (t k : string) (groups : DynGroups) : Prop := exists o, group_in groups t k = Some o /\ gc_template o = "".

(** Neither memory nor the shared object lost the override. *)
Definition holds_orphan (t k : string) (l : Loader) : Prop :=
  (exists g, l_groups l = Some g /\ orphan t k g) /\ (exists c g, s_obj (l_store l) = Some (Doc c) /\ ct_groups c = Some g /\ orphan t k g).

Lemma hash_groups_blocked cfg tgs t k g l l' r :
  (t, k, g) ∈ tgs -> gc_template g = "" -> hash_groups cfg tgs l = (l', r) -> is_ok r = false.
Proof.
  intros Hin Ht. revert l l' r. induction tgs as [|tg tgs IH]; intros l l' r Hr; [set_solver|]. simpl in Hr. run_bind Hr as l1 h H1.
  apply elem_of_cons in Hin as [<-|Hin].
  - unfold hash_group in H1. rewrite bool_decide_true in H1 by done. injection H1 as <- <-. by injection Hr as <- <-.
  - destruct h as [h|e]; [|by injection Hr as <- <-]. run_bind Hr as l2 rs H2. injection Hr as <- <-. apply IH in H2; [|done]. by destruct rs.
Qed.

Section Sole.
Context (Hsole : forall n b, doc_others n b = None) (t k : string).

Lemma orphan_observe {A} (f : nat -> A) : preserves (holds_orphan t k) (l_observe f).
Proof. intros l [Hg Ho]. split; [done|]. simpl. unfold after_others. by rewrite Hsole. Qed.

Lemma orphan_cache_write g : (forall l, l_groups (g l) = l_groups l /\ l_store (g l) = l_store l) -> preserves (holds_orphan t k) (cache_write g).
Proof.
  intros Hg. assert (preserves (holds_orphan t k) (modify g)) as Hmod.
  { intros l Hl. unfold holds_orphan. simpl. destruct (Hg l) as [-> ->]. done. }
  apply preserves_bind; [apply orphan_observe|]. intros [[e []]|]; repeat (apply preserves_bind; [done|intros ?]); apply preserves_ret.
Qed.

#[local] Hint Resolve orphan_observe : plain.
#[local] Hint Extern 2 (preserves _ (cache_write _)) => apply orphan_cache_write; done : plain.

Lemma orphan_download b n : preserves (holds_orphan t k) (download_attempts b n).
Proof. revert b. induction n as [|n IH]; intros b; simpl; plainly. Qed.
#[local] Hint Resolve orphan_download : plain.

Lemma orphan_load_config force : preserves (holds_orphan t k) (load_config_data force).
Proof. unfold load_config_data, config_from_cache, downloadWithRetry. destruct force; plainly. Qed.

Lemma orphan_load_groups force l l' g : holds_orphan t k l -> load_groups force l = (l', Ok (Some g)) -> orphan t k g.
Proof.
  intros [(g0 & Hg & Horph) (c & g1 & Hobj & Hc & Horph1)] Hr. unfold load_groups in Hr. destruct force.
  - unfold groups_from_storage in Hr. run_bind Hr as l1 x H1. injection Hr as <- Hx. unfold loadDynamicGroupsFromStorage in H1.
    run_bind H1 as l2 y H2. unfold on_store in H2. destruct (storage_get (l_store l)) as [st z] eqn:Hget. injection H2 as <- <-.
    apply storage_get_run in Hget as (_ & Ho & _ & Hz). unfold after_others in Ho. rewrite Hsole, Hobj in Ho. simpl in Ho.
    destruct z as [[b tag]|e].
    + destruct Hz as [Hb _]. rewrite Ho in Hb. injection Hb as <-. simpl in H1. rewrite Hc in H1. simpl in H1.
      run_bind H1 as l3 u H3. injection H1 as <- <-. simpl in Hx. by injection Hx as <-.
    + destruct (err_is e ErrNotFound) eqn:Ee; [by rewrite Hz in Ho|]. injection H1 as <- <-. done.
  - run_bind Hr as l1 cur H1. injection H1 as <- <-. rewrite Hg in Hr. by injection Hr as <- <-.
Qed.

Lemma orphan_found force l l' : holds_orphan t k l -> load_groups force l ≠ (l', Ok None).
Proof.
  intros [(g0 & Hg & _) _] Hr. destruct force; [by eapply groups_from_storage_some in Hr|].
  unfold load_groups in Hr. run_bind Hr as l1 cur H1. injection H1 as <- <-. by rewrite Hg in Hr.
Qed.

Lemma orphan_effective cfg groups o :
  group_in (c_groups cfg) t k = None -> group_in groups t k = Some o -> (t, k, o) ∈ effective_groups cfg groups.
Proof. intros Hs Ho. apply elem_of_effective. by rewrite lookup_tenant_groups, Hs, Ho. Qed.
End Sole.
End Installed.

(** Every configuration in use resolves: after any sequence of loader
    operations on a new loader, each static group of the installed configuration can
    be looked up whatever the overrides, its template and load balancers exist and
    its subnet pool resolves. *)
Theorem installed_groups_resolve (LE : LoaderEnv) (HL : DocLaws Content) ops store cc cg db cfg d t n s :
  l_config (run_loader_ops ops (NewLoader store cc cg db)).1 = Some cfg -> group_in (c_groups cfg) t n = Some s ->
  exists g mc ids, GetGroup cfg (Ok d) t n = Ok g /\ GetMergedConfig cfg (gc_template g) g = Ok mc /\
    ResolveSubnetKey cfg (mc_subnet_pool mc) = Ok ids /\ (mc_subnet_pool mc = "" \/ ids ≠ []) /\
    Forall (fun lb => is_Some (c_load_balancers cfg !! lb)) (gc_load_balancers g).
Proof.
  intros Hl Hs. assert (installed_ok (run_loader_ops ops (NewLoader store cc cg db)).1) as Hok by (by apply installed_ops).
  apply Hok in Hl as (cfg0 & Hv & Heq)%installed_valid. rewrite Heq in *. simpl in Hs.
  destruct (valid_group cfg0 Hv t n s Hs) as (Ht & _ & _).
  assert (t ≠ "") as Hne by (intros ->; done). destruct (static_group_restricted cfg0 d t n s Hne Hs) as (g & Hg & _).
  destruct (static_effective cfg0 d t n g s Hv Hs Hg) as (mc & ids & Hmc & Hids & Hpool & Hlbs & _). by exists g, mc, ids.
Qed.

(** An override that outlives its static group blocks the configuration:
    once the administrator removes a static group that an operator has resized, every
    load of the new configuration fails, forced or not, and the server keeps running
    on the old one, although validation accepts the new configuration. *)
Theorem orphan_override_blocks_load (LE : LoaderEnv) (HL : DocLaws Content) force l l' r t k :
  (forall n b, doc_others n b = None) -> holds_orphan t k l ->
  (forall m d e c, le_config_get m = Ok (d, e) -> cd_parsed d = Ok c -> group_in (c_groups c) t k = None) ->
  (force = false -> forall d c, l_cache_config l = Some d -> cd_parsed d = Ok c -> group_in (c_groups c) t k = None) ->
  LoadConfigAndGroups force l = (l', r) ->
  is_ok r = false /\ memory l' = memory l.
Proof.
  intros Hsole Hl Hstored Hcached Hr. unfold LoadConfigAndGroups in Hr. run_bind Hr as l1 d H1.
  pose proof (orphan_load_config Hsole t k force l Hl) as Hl1. rewrite H1 in Hl1. simpl in Hl1. pose proof H1 as Hm.
  apply (keeps_run memory) in Hm; [|by apply keeps_load_config_data; auto with keeps].
  destruct d as [[d etag]|e]; [|by injection Hr as <- <-]. apply load_config_source in H1.
  destruct (cd_parsed d) as [cfg0|e] eqn:Hp; [|by injection Hr as <- <-].
  assert (group_in (c_groups cfg0) t k = None) as Hno by (destruct H1 as [(m & e' & H1)|[-> H1]]; eauto). run_bind Hr as l2 ifaces H2.
  pose proof (orphan_observe Hsole t k le_interfaces l1 Hl1) as Hl2. rewrite H2 in Hl2. simpl in Hl2.
  apply (keeps_run memory) in H2; [|apply keeps_observe; auto with keeps]. rewrite Hm in H2.
  destruct (autoDetectAdvertiseHosts ifaces le_advertise_host cfg0) as [cfg|e] eqn:Ha; [|by injection Hr as <- <-].
  apply detection_only_advertise in Ha. assert (group_in (c_groups cfg) t k = None) as Hno' by (by rewrite Ha). run_bind Hr as l3 g H3.
  pose proof H3 as Hm3. apply (keeps_run memory) in Hm3; [|by apply keeps_load_groups; auto with keeps]. rewrite H2 in Hm3.
  destruct g as [g|e]; [|by injection Hr as <- <-].
  assert (exists o, (t, k, o) ∈ effective_groups cfg (default ∅ g) /\ gc_template o = "") as (o & Ho & Htpl).
  { destruct g as [g|]; [|by destruct (orphan_found t k force l2 l3 Hl2 H3)].
    apply (orphan_load_groups Hsole t k) in H3 as (o & Ho & Htpl); [|done]. exists o. split; [by apply orphan_effective|done]. }
  unfold install_loaded in Hr. run_bind Hr as l4 h H4. pose proof (compute_run _ _ _ _ _ H4) as [Hm4 _]. rewrite Hm3 in Hm4.
  simpl in H4. eapply hash_groups_blocked in H4; [|done..]. destruct h as [hs|e]; [done|]. by injection Hr as <- <-.
Qed.
