(* ===== verification/GroupApi.v ===== *)
(** * Group calls of the operator API ([src/internal/server/api/operator])

    [UpsertGroup], [DeleteGroup], [ListGroups], [RefreshConfig], [GetConfigStatus]
    and the snapshot and events of [WatchGroups].  The mutex [groupMutationMu]
    serialises the three calls that change groups; each handler is one step.

    The server loads a configuration before it serves.  A handler that would
    dereference a missing one is given the result [nil_config]; no theorem relies
    on it. *)

From S2P Require Import Prelude LocalDB Config Document Loader Certificates.

(** [int32(x)]. *)
Definition wrap32 (z : Z) : Z := (z + 2 ^ 31) `mod` 2 ^ 32 - 2 ^ 31.

(** [proto.GroupConfig]: [size] is an [int32] without presence. *)
Record ProtoGroupConfig := mkProtoGroupConfig {
  pg_template : string;
  pg_size : Z;
  pg_instance_type : string;
  pg_subnet_pool : string;
  pg_vars : gmap string string;
  pg_args : gmap string string;
}.

(** [proto.GroupStatus]. *)
Record GroupStatus := mkGroupStatus {
  gst_key : string;
  gst_tenant : string;
  gst_template : string;
  gst_size : Z;
  gst_instance_type : string;
  gst_subnet_pool : string;
  gst_vars : gmap string string;
  gst_is_static : bool;
  gst_etag : string;
  gst_actual_size : Z;
  gst_provider_ids : list string;
}.

(** Statuses by tenant and key. *)
Abbreviation Statuses := (gmap (string * string) GroupStatus).

(** [proto.GroupEvent]. *)
Inductive GroupEvent :=
  | GroupUpsert (g : GroupStatus)
  | GroupDelete (tenant key : string).

Definition event_key (ev : GroupEvent) : string :=
  match ev with GroupUpsert g => gst_key g | GroupDelete _ key => key end.

(** The service: the loader (with its database), the streams registered by tenant,
    what was sent on each, and the groups [onGroupChanged] was called for. *)
Record GroupService := mkGroupService {
  gs_loader : Loader;
  gs_streams : gmap string nat;
  gs_next_stream : nat;
  gs_sent : list (nat * GroupEvent);
  gs_changed : list (string * string);
}.

Class GroupEnv := mkGroupEnv {
  ge_loader :: LoaderEnv;
  ge_send : nat -> option err;                          (* stream.Send *)
  ge_refreshed : nat -> option (res unit);              (* onConfigRefreshed, when set *)
  ge_digest : string -> string -> string -> Z -> string -> string -> gmap string string -> bool -> string;
                                                        (* md5 of the JSON of the configuration fields *)
}.

Section GroupApi.
Context {GE : GroupEnv}.

Definition nil_config {A} : rpc A := Fail Internal "no configuration loaded".

Definition on_loader {A} (m : M Loader A) : M GroupService A :=
  fun s => let '(l, a) := m (gs_loader s) in ({| s with gs_loader := l |}, a).

Definition record_change (tenant key : string) (s : GroupService) : GroupService :=
  {| s with gs_changed := gs_changed s ++ [(tenant, key)] |}.

Definition onGroupChanged (tenant key : string) : M GroupService unit := modify (record_change tenant key).

Definition computeGroupEtag (key tenant template : string) (size : Z) (instanceType subnetPool : string)
    (vars : gmap string string) (isStatic : bool) : string :=
  ge_digest key tenant template size instanceType subnetPool vars isStatic.

Definition buildGroupStatus (tenant groupKey : string) (group : GroupConfig) (isStatic : bool) : M GroupService GroupStatus :=
  fault ← on_loader (l_observe le_db_fault);
  gets (fun s =>
    let ids := match fault with
               | Some _ => []
               | None => LocalDB.GetProviderIDsByGroup tenant groupKey true (l_db (gs_loader s))
               end in
    let size := wrap32 (GetSize group) in
    mkGroupStatus groupKey tenant (gc_template group) size (gc_instance_type group) (gc_subnet_pool group)
      (gc_vars group) isStatic
      (computeGroupEtag groupKey tenant (gc_template group) size (gc_instance_type group) (gc_subnet_pool group)
         (gc_vars group) isStatic)
      (wrap32 (Z.of_nat (length ids))) ids).

(** The group is the tenant's managed NAT group, which operators do not see. *)
Definition is_nat_group (cfg : Config) (tenant key : string) : bool :=
  match c_nat cfg !! tenant with
  | Some n => bool_decide (nat_group n = key)
  | None => false
  end.

Definition record_sent (stream : nat) (ev : GroupEvent) (s : GroupService) : GroupService :=
  {| s with gs_sent := gs_sent s ++ [(stream, ev)] |}.

Definition send (stream : nat) (ev : GroupEvent) : M GroupService (res unit) :=
  fault ← on_loader (l_observe ge_send);
  match fault with
  | Some e => mret (Err e)
  | None => _ ← modify (record_sent stream ev); mret (Ok tt)
  end.

Definition NotifyGroupEvent (tenant : string) (ev : GroupEvent) : M GroupService unit :=
  cfg ← gets (fun s => l_config (gs_loader s));
  streams ← gets gs_streams;
  match cfg with
  | None => mret tt
  | Some c =>
      if is_nat_group c tenant (event_key ev) then mret tt
      else match streams !! tenant with
      | None => mret tt
      | Some stream => _ ← send stream ev; mret tt
      end
  end.

(** [UpsertGroup]: the size is always taken from the request; its arguments are
    not. *)
Definition group_of_request (c : ProtoGroupConfig) : GroupConfig :=
  mkGroupConfig (pg_template c) (Some (pg_size c)) (pg_instance_type c) (pg_subnet_pool c) (pg_vars c) ∅ None [].

Definition is_static (cfg : Config) (tenant key : string) : bool :=
  bool_decide (group_in (c_groups cfg) tenant key ≠ None).

(** [config.GetGroup] through the loader. *)
Definition merged_group (cfg : Config) (tenant key : string) : M GroupService (res GroupConfig) :=
  dyn ← on_loader LoadDynamicGroups;
  mret (GetGroup cfg dyn tenant key).

Definition upsert_admitted (cfg : Config) (tenant key : string) (c : ProtoGroupConfig) : M GroupService (rpc GroupStatus) :=
  r ← on_loader (UpsertGroup cfg tenant key (group_of_request c));
  match r with
  | Err _ => mret (Fail Internal "failed to upsert group")
  | Ok _ =>
      _ ← onGroupChanged tenant key;
      g ← merged_group cfg tenant key;
      match g with
      | Err _ => mret (Fail Internal "failed to get merged group")
      | Ok merged =>
          status ← buildGroupStatus tenant key merged (is_static cfg tenant key);
          _ ← NotifyGroupEvent tenant (GroupUpsert status);
          mret (Reply status)
      end
  end.

(** The checks [UpsertGroup] and [DeleteGroup] share. *)
Definition check_key (tenant key : string) : option (Code * string) :=
  if bool_decide (key = "") then Some (InvalidArgument, "group key is required")
  else if negb (is_ok (Validate "tenant ID" tenant)) then Some (InvalidArgument, "invalid tenant")
  else if negb (is_ok (Validate "group ID" key)) then Some (InvalidArgument, "invalid group key")
  else None.

Definition UpsertGroup (info : ClientInfo) (key : string) (config : option ProtoGroupConfig) : M GroupService (rpc GroupStatus) :=
  match check_key (ci_tenant info) key, config with
  | Some (code, msg), _ => mret (Fail code msg)
  | None, None => mret (Fail InvalidArgument "group config is required")
  | None, Some c =>
      cfg ← gets (fun s => l_config (gs_loader s));
      match cfg with
      | None => mret nil_config
      | Some cfg => upsert_admitted cfg (ci_tenant info) key c
      end
  end.

Definition notify_deleted (cfg : Config) (tenant key : string) : M GroupService unit :=
  match group_in (c_groups cfg) tenant key with
  | Some static =>
      status ← buildGroupStatus tenant key static true;
      NotifyGroupEvent tenant (GroupUpsert status)
  | None => NotifyGroupEvent tenant (GroupDelete tenant key)
  end.

Definition DeleteGroup (info : ClientInfo) (key : string) : M GroupService (rpc unit) :=
  match check_key (ci_tenant info) key with
  | Some (code, msg) => mret (Fail code msg)
  | None =>
      r ← on_loader (Loader.DeleteGroup (ci_tenant info) key);
      match r with
      | Err _ => mret (Fail Internal "failed to delete group")
      | Ok _ =>
          _ ← onGroupChanged (ci_tenant info) key;
          cfg ← gets (fun s => l_config (gs_loader s));
          match cfg with
          | None => mret nil_config
          | Some cfg => _ ← notify_deleted cfg (ci_tenant info) key; mret (Reply tt)
          end
      end
  end.

(** *** Listing *)

(** [listGroups]' own merge of the static and the dynamic group. *)
Definition list_merge (static dynamic : option GroupConfig) : option GroupConfig :=
  match static with
  | Some s =>
      match dynamic with
      | None => Some s
      | Some d =>
          let s1 := match gc_size d with None => s | Some n => {| s with gc_size := Some n |} end in
          let s2 := if bool_decide (gc_instance_type d = "") then s1 else {| s1 with gc_instance_type := gc_instance_type d |} in
          Some (if bool_decide (gc_vars d = ∅) then s2
                else {| s2 with gc_vars := foldr (fun kv m => <[kv.1 := kv.2]> m) (gc_vars s) (map_to_list (gc_vars d)) |})
      end
  | None => dynamic
  end.

Fixpoint list_statuses (cfg : Config) (tenant : string) (keys : list string) : M GroupService (list GroupStatus) :=
  match keys with
  | [] => mret []
  | key :: rest =>
      dynamic ← gets (fun s => GetDynamicGroup tenant key (gs_loader s));
      match (if is_nat_group cfg tenant key then None
             else list_merge (group_in (c_groups cfg) tenant key) dynamic) with
      | None => list_statuses cfg tenant rest
      | Some g =>
          status ← buildGroupStatus tenant key g (is_static cfg tenant key);
          more ← list_statuses cfg tenant rest;
          mret (status :: more)
      end
  end.

(** [listGroups]: the groups the local database knows. *)
Definition listGroups (tenant : string) : M GroupService (res (list GroupStatus)) :=
  fault ← on_loader (l_observe le_db_fault);
  l ← gets gs_loader;
  match fault, LocalDB.GetAllGroups tenant (l_db l), l_config l with
  | Some e, _, _ => mret (Err e)
  | None, Err e, _ => mret (Err e)
  | None, Ok _, None => mret (Err (ErrMsg "no configuration loaded"))
  | None, Ok groups, Some cfg =>
      statuses ← list_statuses cfg tenant (map_to_list groups).*1;
      mret (Ok statuses)
  end.

Definition ListGroups (info : ClientInfo) : M GroupService (rpc (list GroupStatus)) :=
  r ← listGroups (ci_tenant info);
  mret match r with Ok gs => Reply gs | Err _ => Fail Internal "failed to list groups" end.

Definition GetConfigStatus : M GroupService (rpc ConfigMetadata) :=
  meta ← gets (fun s => l_config_meta (gs_loader s));
  mret match meta with None => Fail Internal "no configuration metadata available" | Some m => Reply m end.

(** *** Watching *)

Definition register_stream (tenant : string) (s : GroupService) : GroupService :=
  {| s with gs_streams := <[tenant := gs_next_stream s]> (gs_streams s); gs_next_stream := S (gs_next_stream s) |}.

Definition unregister_stream (tenant : string) (stream : nat) (s : GroupService) : GroupService :=
  {| s with gs_streams := if bool_decide (gs_streams s !! tenant = Some stream) then delete tenant (gs_streams s) else gs_streams s |}.

Definition send_snapshot (stream : nat) (gs : list GroupStatus) : M GroupService (res unit) :=
  for_each_err gs (fun g => send stream (GroupUpsert g)).

(** [WatchGroups] until it waits for the operator to disconnect; the stream's mutex
    holds back events until the snapshot is out.  The stream of the call, unless it
    ended with an error. *)
Definition WatchGroups (info : ClientInfo) : M GroupService (rpc nat) :=
  let tenant := ci_tenant info in
  stream ← gets gs_next_stream;
  _ ← modify (register_stream tenant);
  r ← listGroups tenant;
  match r with
  | Err _ => _ ← modify (unregister_stream tenant stream); mret (Fail Internal "failed to list groups")
  | Ok gs =>
      x ← send_snapshot stream gs;
      match x with
      | Err _ => _ ← modify (unregister_stream tenant stream); mret (Fail Unavailable "send failed")
      | Ok _ => mret (Reply stream)
      end
  end.

(** *** Refreshing the configuration *)

Fixpoint build_statuses (cfg : Config) (gs : list (string * string * GroupConfig)) (acc : Statuses) : M GroupService Statuses :=
  match gs with
  | [] => mret acc
  | (tenant, key, g) :: rest =>
      status ← buildGroupStatus tenant key g (is_static cfg tenant key);
      build_statuses cfg rest (<[(tenant, key) := status]> acc)
  end.

(** The effective groups of the loader, with their statuses. *)
Definition effective_statuses (cfg : Config) : M GroupService (res Statuses) :=
  dyn ← on_loader LoadDynamicGroups;
  match GetAllGroups cfg dyn with
  | Err e => mret (Err e)
  | Ok gs => statuses ← build_statuses cfg gs ∅; mret (Ok statuses)
  end.

(** The events of a transition: deletions and updates of the old groups, then
    additions. *)
Definition event_of_old (new : Statuses) (o : string * string * GroupStatus) : option (string * GroupEvent) :=
  let '(id, oldStatus) := o in
  match new !! id with
  | None => Some (id.1, GroupDelete id.1 id.2)
  | Some newStatus =>
      if bool_decide (gst_etag oldStatus = gst_etag newStatus) then None else Some (id.1, GroupUpsert newStatus)
  end.

Definition event_of_new (old : Statuses) (n : string * string * GroupStatus) : option (string * GroupEvent) :=
  let '(id, newStatus) := n in
  match old !! id with
  | Some _ => None
  | None => Some (id.1, GroupUpsert newStatus)
  end.

Definition transition_events (old new : Statuses) : list (string * GroupEvent) :=
  omap (event_of_old new) (map_to_list old) ++ omap (event_of_new old) (map_to_list new).

Record RefreshConfigResponse := mkRefreshConfigResponse {
  rf_updated : bool;
  rf_prev_etag : string;
  rf_etag : string;
}.

Definition config_etag : M GroupService string :=
  gets (fun s => match l_config_meta (gs_loader s) with Some m => cm_etag m | None => "" end).

(** From the new statuses on: reconcile every group of either side and every group
    that still has instances, then publish the events. *)
Definition announce (old new : Statuses) (managed : list (string * string)) : M GroupService unit :=
  _ ← for_each (elements (dom old ∪ dom new ∪ list_to_set managed)) (fun id => onGroupChanged id.1 id.2);
  for_each (transition_events old new) (fun te => NotifyGroupEvent te.1 te.2).

Definition after_reload (old : Statuses) (oldETag : string) (cfg : Config) : M GroupService (rpc RefreshConfigResponse) :=
  newETag ← config_etag;
  r ← effective_statuses cfg;
  match r with
  | Err _ => mret (Fail Internal "failed to list groups after refresh")
  | Ok new =>
      fault ← on_loader (l_observe le_db_fault);
      match fault with
      | Some _ => mret (Fail Internal "failed to list active managed groups after refresh")
      | None =>
          managed ← gets (fun s => LocalDB.GetActiveManagedGroupIdentities (l_db (gs_loader s)));
          _ ← announce old new managed;
          mret (Reply (mkRefreshConfigResponse (negb (bool_decide (oldETag = newETag))) oldETag newETag))
      end
  end.

Definition RefreshConfig : M GroupService (rpc RefreshConfigResponse) :=
  current ← gets (fun s => l_config (gs_loader s));
  match current with
  | None => mret nil_config
  | Some cfg =>
      r ← effective_statuses cfg;
      match r with
      | Err _ => mret (Fail Internal "failed to list groups before refresh")
      | Ok old =>
          oldETag ← config_etag;
          c ← on_loader (LoadConfigAndGroups true);
          match c with
          | Err _ => mret (Fail Internal "failed to refresh configuration")
          | Ok cfg' =>
              p ← on_loader (l_observe ge_refreshed);
              match p with
              | Some (Err _) => mret (Fail Internal "failed to publish proxy configuration")
              | _ => after_reload old oldETag cfg'
              end
          end
      end
  end.
End GroupApi.
