(* ===== verification/GroupApiFacts.v ===== *)
(** * Facts about the group calls

    What an operator knows of its groups is what the events on its stream add up
    to.  The snapshot of [WatchGroups] and the events of the calls that change
    groups keep that view equal, in the fields its entity tags cover, to the
    effective groups of the loader. *)

From S2P Require Import Prelude LocalDB LocalDBFacts Config Document Loader LoaderFacts Certificates GroupApi.

(** ** The two merges agree *)

Lemma foldr_insert_union (m1 m2 : gmap string string) :
  foldr (fun kv m => <[kv.1 := kv.2]> m) m2 (map_to_list m1) = m1 ∪ m2.
Proof.
  rewrite <-(list_to_map_to_list m1) at 2. induction (map_to_list m1) as [|[k v] l IH]; simpl.
  - by rewrite map_empty_union.
  - by rewrite IH, insert_union_l.
Qed.

(** [listGroups] merges a group itself; it does what [mergeGroups] does. *)
Lemma list_merge_eq static dynamic : list_merge static dynamic = merge_one static dynamic.
Proof.
  destruct static as [[st sz sit ssp sv sa sdt slb]|], dynamic as [[dt dz dit dsp dv da ddt dlb]|]; simpl; [|done..].
  rewrite foldr_insert_union. f_equal. destruct dz as [n|]; repeat case_bool_decide; subst; simpl;
    rewrite ?map_empty_union; done.
Qed.

(** ** Views *)

(** The entity tag of a group's configuration. *)
Definition group_etag `{GroupEnv} (tenant key : string) (g : GroupConfig) (isStatic : bool) : string :=
  computeGroupEtag key tenant (gc_template g) (wrap32 (GetSize g)) (gc_instance_type g) (gc_subnet_pool g) (gc_vars g) isStatic.

(** What the loader makes of a group: its entity tag, when it is an effective one. *)
Definition effective_etag `{GroupEnv} (l : Loader) (tenant key : string) : option string :=
  match l_config l, l_groups l with
  | Some cfg, Some groups => (fun g => group_etag tenant key g (is_static cfg tenant key)) <$> (tenant_groups cfg groups tenant !! key)
  | _, _ => None
  end.

(** The tenant's NAT group is hidden from operators. *)
Definition hidden (l : Loader) (tenant key : string) : bool :=
  match l_config l with Some cfg => is_nat_group cfg tenant key | None => false end.

Abbreviation View := (gmap string GroupStatus).

Definition apply_event (v : View) (ev : GroupEvent) : View :=
  match ev with
  | GroupUpsert g => <[gst_key g := g]> v
  | GroupDelete _ key => delete key v
  end.

Definition on_stream (stream : nat) (x : nat * GroupEvent) : option GroupEvent :=
  if bool_decide (x.1 = stream) then Some x.2 else None.

(** What the operator on a stream knows. *)
Definition view_of (stream : nat) (s : GroupService) : View := foldl apply_event ∅ (omap (on_stream stream) (gs_sent s)).

(** The view is current, up to the hidden group. *)
Definition current `{GroupEnv} (tenant : string) (v : View) (l : Loader) : Prop :=
  forall key, hidden l tenant key = false -> gst_etag <$> (v !! key) = effective_etag l tenant key.

Definition event_value (ev : GroupEvent) : option GroupStatus :=
  match ev with GroupUpsert g => Some g | GroupDelete _ _ => None end.

Lemma lookup_apply v ev key :
  apply_event v ev !! key = if decide (event_key ev = key) then event_value ev else v !! key.
Proof.
  destruct ev as [g|t k]; simpl; case_decide as Hk; subst;
    by rewrite ?lookup_insert_eq, ?lookup_delete_eq, ?lookup_insert_ne, ?lookup_delete_ne.
Qed.

(** Events that agree on a key, as far as [f] can see, leave their value there. *)
Lemma lookup_apply_all {B} (f : option GroupStatus -> B) evs v key x :
  (forall ev, ev ∈ evs -> event_key ev = key -> f (event_value ev) = x) ->
  f (foldl apply_event v evs !! key) = if bool_decide (key ∈ (event_key <$> evs)) then x else f (v !! key).
Proof.
  revert v. induction evs as [|ev evs IH]; intros v Hx; simpl; [done|].
  rewrite IH by (intros ev' Hin; apply Hx; by right). rewrite lookup_apply. destruct (decide (event_key ev = key)) as [Hk|Hk].
  - rewrite (bool_decide_true (key ∈ event_key ev :: _)) by (subst; left).
    case_bool_decide; [done|]. apply Hx; [left|done].
  - repeat case_bool_decide; set_solver.
Qed.

(** ** What the handlers' helpers leave alone *)

(** Everything but the clock. *)
Definition outer (s : GroupService) :=
  (gs_streams s, gs_next_stream s, gs_sent s, gs_changed s, memory (gs_loader s), written (gs_loader s)).

Section Helpers.
Context {GE : GroupEnv} {HL : DocLaws Content}.

Lemma keeps_on_loader {A} (m : M Loader A) : keeps memory m -> keeps written m -> keeps outer (on_loader m).
Proof.
  intros Hm Hw s. unfold on_loader. specialize (Hm (gs_loader s)). specialize (Hw (gs_loader s)).
  destruct (m (gs_loader s)) as [l a]. unfold outer. simpl in *. by rewrite Hm, Hw.
Qed.

Lemma keeps_outer_observe {A} (f : nat -> A) : keeps outer (on_loader (l_observe f)).
Proof. apply keeps_on_loader; apply keeps_observe; auto with keeps. Qed.

Hint Resolve keeps_outer_observe : keeps.

Lemma outer_inv s s' :
  outer s' = outer s -> gs_streams s' = gs_streams s /\ gs_next_stream s' = gs_next_stream s /\ gs_sent s' = gs_sent s /\
  l_config (gs_loader s') = l_config (gs_loader s) /\ l_groups (gs_loader s') = l_groups (gs_loader s) /\
  l_db (gs_loader s') = l_db (gs_loader s).
Proof. unfold outer, memory. by intros [= -> -> -> _ -> _ -> -> _]. Qed.

Lemma build_run t k g st s s' status :
  buildGroupStatus t k g st s = (s', status) ->
  outer s' = outer s /\ gst_key status = k /\ gst_tenant status = t /\ gst_etag status = group_etag t k g st.
Proof.
  unfold buildGroupStatus. intros Hr. run_bind Hr as s1 fault H1. injection Hr as <- <-.
  split; [|done]. by eapply keeps_run; [apply keeps_outer_observe|].
Qed.

Lemma load_groups_loaded l groups : l_groups l = Some groups -> LoadDynamicGroups l = (l, Ok groups).
Proof. intros Hg. unfold LoadDynamicGroups. rewrite M_bind_eq. unfold gets. simpl. by rewrite Hg. Qed.

(** *** Sending *)

Context (Hsend : forall n, ge_send n = None).

Lemma send_run stream ev s s' r :
  send stream ev s = (s', r) ->
  r = Ok tt /\ gs_sent s' = gs_sent s ++ [(stream, ev)] /\ gs_streams s' = gs_streams s /\ gs_next_stream s' = gs_next_stream s /\
  memory (gs_loader s') = memory (gs_loader s).
Proof.
  unfold send. intros Hr. run_bind Hr as s1 fault H1.
  pose proof (keeps_run _ _ _ _ _ (keeps_outer_observe ge_send) H1) as Ho. unfold on_loader in H1.
  destruct (l_observe ge_send (gs_loader s)) as [l f] eqn:Hf. injection H1 as <- <-.
  assert (f = None) as ->. { unfold l_observe, on_store, st_observe in Hf. injection Hf as _ <-. apply Hsend. }
  run_bind Hr as s2 u H2. injection H2 as <- <-. injection Hr as <- <-. apply (f_equal (fun x => x.1.2)) in Ho.
  by split_and!.
Qed.

(** A view after more events. *)
Lemma view_snoc stream s s' ev :
  gs_sent s' = gs_sent s ++ [(stream, ev)] -> view_of stream s' = apply_event (view_of stream s) ev.
Proof.
  unfold view_of. intros ->. rewrite omap_app, foldl_app. simpl. unfold on_stream at 2. simpl. by rewrite bool_decide_true.
Qed.

Lemma view_other stream stream' s s' ev :
  stream' ≠ stream -> gs_sent s' = gs_sent s ++ [(stream', ev)] -> view_of stream s' = view_of stream s.
Proof.
  unfold view_of. intros Hne ->. rewrite omap_app, foldl_app. simpl. unfold on_stream at 2. simpl. by rewrite bool_decide_false.
Qed.

(** Streams are numbered as they come and belong to one tenant. *)
Record streams_ok (s : GroupService) : Prop := {
  so_fresh : forall t n, gs_streams s !! t = Some n -> (n < gs_next_stream s)%nat;
  so_inj : forall t1 t2 n, gs_streams s !! t1 = Some n -> gs_streams s !! t2 = Some n -> t1 = t2;
  so_sent : forall n ev, (n, ev) ∈ gs_sent s -> (n < gs_next_stream s)%nat;
}.

(** The event reaches the tenant's operator. *)
Definition delivered (l : Loader) (t : string) (te : string * GroupEvent) : option GroupEvent :=
  if bool_decide (te.1 = t) && negb (hidden l t (event_key te.2)) then Some te.2 else None.

(** A state in which only events were sent. *)
Definition notified (t : string) (stream : nat) (evs : list GroupEvent) (s s' : GroupService) : Prop :=
  view_of stream s' = foldl apply_event (view_of stream s) evs /\
  gs_streams s' = gs_streams s /\ gs_next_stream s' = gs_next_stream s /\ memory (gs_loader s') = memory (gs_loader s) /\
  (streams_ok s -> streams_ok s').

Lemma hidden_memory l l' : memory l' = memory l -> hidden l' = hidden l.
Proof. unfold memory, hidden. by intros [= -> _ _ _]. Qed.

Lemma notify_run t stream te s s' u :
  streams_ok s -> gs_streams s !! t = Some stream -> l_config (gs_loader s) ≠ None ->
  NotifyGroupEvent te.1 te.2 s = (s', u) ->
  notified t stream (option_list (delivered (gs_loader s) t te)) s s'.
Proof.
  intros Hok Hstream Hcfg Hr. unfold NotifyGroupEvent in Hr. run_bind Hr as s1 cfg H1. injection H1 as <- <-.
  run_bind Hr as s2 streams H2. injection H2 as <- <-. unfold delivered, hidden.
  destruct (l_config (gs_loader s)) as [c|]; [|done]. destruct te as [t' ev]. simpl in *.
  destruct (is_nat_group c t' (event_key ev)) eqn:Hnat.
  { injection Hr as <- <-. unfold notified. split_and!; try done. case_bool_decide; subst; rewrite ?Hnat; done. }
  destruct (gs_streams s !! t') as [n|] eqn:Hn.
  - run_bind Hr as s3 r H3. injection Hr as <- <-. apply send_run in H3 as (_ & Hsent & Hstr & Hnext & Hm).
    unfold notified. split_and!; [|done..|].
    + case_bool_decide as Ht.
      * subst. rewrite Hnat. simplify_eq/=. by rewrite (view_snoc _ _ _ _ Hsent).
      * simpl. apply (view_other _ n _ _ ev); [|done]. intros ->. apply Ht. by eapply so_inj.
    + intros [Hf Hi Hs]. split; rewrite ?Hstr, ?Hnext; [done..|]. intros n' ev'. rewrite Hsent.
      rewrite elem_of_app, list_elem_of_singleton. intros [|[= -> ->]]; [by eapply Hs|by eapply Hf].
  - injection Hr as <- <-. unfold notified. rewrite bool_decide_false by congruence. done.
Qed.

Lemma notify_all_run t stream tes s s' u :
  streams_ok s -> gs_streams s !! t = Some stream -> l_config (gs_loader s) ≠ None ->
  for_each tes (fun te => NotifyGroupEvent te.1 te.2) s = (s', u) ->
  notified t stream (omap (delivered (gs_loader s) t) tes) s s'.
Proof.
  revert s. induction tes as [|te tes IH]; intros s Hok Hstream Hcfg Hr; simpl in Hr.
  { by injection Hr as <- <-. }
  run_bind Hr as s1 v H1. pose proof (notify_run _ _ _ _ _ _ Hok Hstream Hcfg H1) as (Hv & Hstr & Hnext & Hm & Hok1).
  apply IH in Hr as (Hv2 & Hstr2 & Hnext2 & Hm2 & Hok2); [|by auto|congruence|unfold memory in Hm; congruence].
  unfold notified. split_and!; [|congruence..|auto]. rewrite Hv2, Hv.
  assert (delivered (gs_loader s1) t = delivered (gs_loader s) t) as -> by (unfold delivered; by rewrite (hidden_memory _ _ Hm)).
  simpl. destruct (delivered (gs_loader s) t te); done.
Qed.

(** *** What a transition does to a view *)

(** Statuses are filed under their own tenant and key. *)
Definition filed (st : Statuses) : Prop := forall t k g, st !! (t, k) = Some g -> gst_key g = k.

Lemma transition_value old new t ev :
  filed new -> (t, ev) ∈ transition_events old new -> event_value ev = new !! (t, event_key ev).
Proof.
  intros Hf. unfold transition_events. rewrite elem_of_app, !list_elem_of_omap.
  intros [([[t' k'] o] & _ & He)|([[t' k'] n] & Hin%elem_of_map_to_list & He)]; simpl in He.
  - destruct (new !! (t', k')) as [n|] eqn:Hn; [case_bool_decide|]; simplify_eq/=; [by rewrite (Hf _ _ _ Hn)|done].
  - destruct (old !! (t', k')); simplify_eq/=. by rewrite (Hf _ _ _ Hin).
Qed.

Lemma transition_complete old new t k :
  filed new -> gst_etag <$> old !! (t, k) ≠ gst_etag <$> new !! (t, k) ->
  exists ev, (t, ev) ∈ transition_events old new /\ event_key ev = k.
Proof.
  intros Hf Hne. destruct (old !! (t, k)) as [o|] eqn:Ho.
  - assert (exists ev, event_of_old new (t, k, o) = Some (t, ev) /\ event_key ev = k) as (ev & He & Hk).
    { simpl. destruct (new !! (t, k)) as [n|] eqn:Hn; [|by eexists]. rewrite bool_decide_false by (simpl in Hne; congruence).
      eexists. split; [done|]. by apply (Hf _ _ _ Hn). }
    exists ev. split; [|done]. apply elem_of_app. left. apply list_elem_of_omap. exists (t, k, o).
    split; [by apply elem_of_map_to_list|done].
  - destruct (new !! (t, k)) as [n|] eqn:Hn; [|done]. exists (GroupUpsert n). split; [|by apply (Hf _ _ _ Hn)].
    apply elem_of_app. right. apply list_elem_of_omap. exists (t, k, n). split; [by apply elem_of_map_to_list|]. simpl. by rewrite Ho.
Qed.

(** Groups that did not change cause no events. *)
Lemma transition_silent old new l t :
  (forall k, gst_etag <$> old !! (t, k) = gst_etag <$> new !! (t, k)) ->
  omap (delivered l t) (transition_events old new) = [].
Proof.
  intros Heq. apply elem_of_nil_inv. intros ev ([t' ev'] & Hin & Hd)%list_elem_of_omap. unfold delivered in Hd. simpl in Hd.
  case_bool_decide; [subst t'|done]. clear Hd. unfold transition_events in Hin. rewrite elem_of_app, !list_elem_of_omap in Hin.
  destruct Hin as [([[t' k'] o] & Ho%elem_of_map_to_list & He)|([[t' k'] n] & Hn%elem_of_map_to_list & He)]; simpl in He.
  - destruct (new !! (t', k')) as [n|] eqn:Hn; [case_bool_decide as Hne|]; simplify_eq; specialize (Heq k'); rewrite Ho, Hn in Heq;
      simplify_eq/=.
  - destruct (old !! (t', k')) eqn:Ho; simplify_eq. specialize (Heq k'). by rewrite Ho, Hn in Heq.
Qed.

(** The events turn a view of the old groups into one of the new groups. *)
Lemma transition_view old new l t v k :
  filed new -> hidden l t k = false -> gst_etag <$> v !! k = gst_etag <$> old !! (t, k) ->
  gst_etag <$> foldl apply_event v (omap (delivered l t) (transition_events old new)) !! k = gst_etag <$> new !! (t, k).
Proof.
  intros Hf Hh Hv. rewrite (lookup_apply_all (fmap gst_etag) _ _ _ (gst_etag <$> new !! (t, k))).
  2:{ intros ev ([t' ev'] & Hin & Hd)%list_elem_of_omap <-. unfold delivered in Hd. simpl in Hd.
      case_bool_decide; simplify_eq/=. destruct (hidden l t (event_key ev')); simplify_eq/=. f_equal. by eapply transition_value. }
  case_bool_decide as Hin; [done|]. rewrite Hv.
  destruct (decide (gst_etag <$> old !! (t, k) = gst_etag <$> new !! (t, k))) as [|Hne]; [done|].
  destruct (transition_complete _ _ _ _ Hf Hne) as (ev & Hev & Hk). destruct Hin. apply list_elem_of_fmap.
  exists ev. split; [done|]. apply list_elem_of_omap. exists (t, ev). split; [done|]. unfold delivered. simpl.
  by rewrite bool_decide_true, Hk, Hh.
Qed.

(** *** The statuses of the effective groups *)

Lemma build_statuses_run cfg gs acc s s' st :
  build_statuses cfg gs acc s = (s', st) ->
  outer s' = outer s /\
  (forall t k x, st !! (t, k) = Some x -> acc !! (t, k) = Some x \/
     exists g, (t, k, g) ∈ gs /\ gst_key x = k /\ gst_etag x = group_etag t k g (is_static cfg t k)) /\
  (forall t k g, (t, k, g) ∈ gs \/ is_Some (acc !! (t, k)) -> is_Some (st !! (t, k))).
Proof.
  revert acc s. induction gs as [|[[t0 k0] g0] gs IH]; intros acc s Hr; simpl in Hr.
  { injection Hr as <- <-. split_and!; [done|by left|]. intros t k g [Hin%elem_of_nil|]; done. }
  run_bind Hr as s1 x0 H1. apply build_run in H1 as (Ho & Hk & _ & He). apply IH in Hr as (Ho2 & Hst & Hall).
  split_and!; [congruence| |].
  - intros t k x Hx. destruct (Hst _ _ _ Hx) as [Hacc|(g & Hin & Hg)]; [|right; exists g; split; [by right|done]].
    apply lookup_insert_Some in Hacc as [[[= <- <-] <-]|[_ Hacc]]; [|by left]. right. exists g0. split; [left|done].
  - intros t k g Hin. apply (Hall t k g). destruct (decide ((t, k) = (t0, k0))) as [[= -> ->]|Hne].
    + right. rewrite lookup_insert_eq. eauto.
    + rewrite lookup_insert_ne by congruence. destruct Hin as [[?|?]%elem_of_cons|]; [congruence|by left|by right].
Qed.

Lemma effective_statuses_run cfg groups s s' r :
  l_config (gs_loader s) = Some cfg -> l_groups (gs_loader s) = Some groups ->
  effective_statuses cfg s = (s', r) ->
  outer s' = outer s /\
  exists st, r = Ok st /\ filed st /\ forall t k, gst_etag <$> st !! (t, k) = effective_etag (gs_loader s) t k.
Proof.
  intros Hc Hg Hr. unfold effective_statuses in Hr. run_bind Hr as s1 dyn H1. unfold on_loader in H1.
  rewrite (load_groups_loaded _ _ Hg) in H1. injection H1 as <- <-.
  change (GetAllGroups cfg (Ok groups)) with (Ok (effective_groups cfg groups)) in Hr. cbv beta iota in Hr.
  run_bind Hr as s2 st H2. injection Hr as <- <-. apply build_statuses_run in H2 as (Ho & Hst & Hall).
  split; [by destruct s|]. exists st. split; [done|]. split.
  - intros t k x Hx. destruct (Hst _ _ _ Hx) as [|(g & _ & Hk & _)]; done.
  - intros t k. unfold effective_etag. rewrite Hc, Hg. destruct (st !! (t, k)) as [x|] eqn:Hx.
    + destruct (Hst _ _ _ Hx) as [|(g & Hin%elem_of_effective & _ & He)]; [done|]. rewrite Hin. simpl. by rewrite He.
    + destruct (tenant_groups cfg groups t !! k) as [g|] eqn:Heff; [|done].
      destruct (Hall t k g) as [y Hy]; [left; by apply elem_of_effective|congruence].
Qed.

(** *** Refreshing *)

(** Everything but the clock and the requested reconciliations. *)
Definition inner (s : GroupService) := (gs_streams s, gs_next_stream s, gs_sent s, memory (gs_loader s)).

Lemma outer_inner s s' : outer s' = outer s -> inner s' = inner s.
Proof. unfold outer, inner. intros Ho. congruence. Qed.

Lemma inner_inv s s' :
  inner s' = inner s -> gs_streams s' = gs_streams s /\ gs_next_stream s' = gs_next_stream s /\ gs_sent s' = gs_sent s /\
  memory (gs_loader s') = memory (gs_loader s).
Proof.
  intros Hi. split_and!; [exact (f_equal (fun x => x.1.1.1) Hi)|exact (f_equal (fun x => x.1.1.2) Hi)|
    exact (f_equal (fun x => x.1.2) Hi)|exact (f_equal snd Hi)].
Qed.

Lemma inner_view stream s s' : inner s' = inner s -> view_of stream s' = view_of stream s.
Proof. unfold inner, view_of. by intros [= _ _ -> _]. Qed.

Lemma streams_ok_same s s' :
  gs_streams s' = gs_streams s -> gs_next_stream s' = gs_next_stream s -> gs_sent s' = gs_sent s -> streams_ok s -> streams_ok s'.
Proof. intros H1 H2 H3 [Hf Hi Hs]. split; rewrite ?H1, ?H2, ?H3; done. Qed.

Lemma inner_ok s s' : inner s' = inner s -> streams_ok s -> streams_ok s'.
Proof. unfold inner. intros [= H1 H2 H3 _] [Hf Hi Hs]. split; rewrite ?H1, ?H2, ?H3; done. Qed.

Lemma current_memory t v l l' : memory l' = memory l -> current t v l -> current t v l'.
Proof. unfold memory, current, hidden, effective_etag. by intros [= -> _ -> _]. Qed.

Lemma changed_all ids s s' u :
  for_each ids (fun id => onGroupChanged id.1 id.2) s = (s', u) -> inner s' = inner s /\ gs_changed s' = gs_changed s ++ ids.
Proof.
  revert s. induction ids as [|[t k] ids IH]; intros s Hr; simpl in Hr.
  { injection Hr as <- <-. by rewrite app_nil_r. }
  run_bind Hr as s1 v H1. injection H1 as <- <-. apply IH in Hr as [Hi Hc]. split; [done|]. rewrite Hc. simpl. by rewrite <-app_assoc.
Qed.

Lemma keeps_changed_notify t ev : keeps gs_changed (NotifyGroupEvent t ev).
Proof.
  unfold NotifyGroupEvent, send. keep; done.
Qed.

Lemma force_load_run l l' cfg :
  LoadConfigAndGroups true l = (l', Ok cfg) -> l_config l' = Some cfg /\ exists groups, l_groups l' = Some groups.
Proof.
  unfold LoadConfigAndGroups. intros Hr. run_bind Hr as l1 d H1. destruct d as [[d etag]|e]; [|done].
  destruct (cd_parsed d) as [c|e]; [|done]. run_bind Hr as l2 a H2. destruct (Validation.autoDetectAdvertiseHosts _ _ _) as [c'|e]; [|done].
  run_bind Hr as l3 g H3. destruct g as [g|e]; [|done].
  assert (exists groups, g = Some groups) as [groups ->].
  { simpl in H3. unfold groups_from_storage in H3. run_bind H3 as l4 x H4. injection H3 as _ Hx.
    destruct x as [[? ?]|]; simplify_eq. eauto. }
  unfold install_loaded in Hr. run_bind Hr as l5 h H5. destruct h as [hs|e]; [|done].
  run_bind Hr as l6 x H6. destruct x as [[]|e]; [|done]. run_bind Hr as l7 y H7. injection H7 as <- <-.
  injection Hr as <- <-. simpl. eauto.
Qed.

Lemma announce_run t stream old new managed s s' u :
  streams_ok s -> gs_streams s !! t = Some stream -> l_config (gs_loader s) ≠ None -> filed new ->
  announce old new managed s = (s', u) ->
  gs_streams s' = gs_streams s /\ memory (gs_loader s') = memory (gs_loader s) /\
  gs_changed s' = gs_changed s ++ elements (dom old ∪ dom new ∪ list_to_set managed) /\
  (forall k, hidden (gs_loader s) t k = false -> gst_etag <$> view_of stream s !! k = gst_etag <$> old !! (t, k) ->
     gst_etag <$> view_of stream s' !! k = gst_etag <$> new !! (t, k)) /\
  ((forall k, gst_etag <$> old !! (t, k) = gst_etag <$> new !! (t, k)) -> view_of stream s' = view_of stream s).
Proof.
  intros Hok Hstream Hcfg Hf Hr. unfold announce in Hr. run_bind Hr as s1 v H1. apply changed_all in H1 as [Hi Hc].
  pose proof (inner_view stream _ _ Hi) as Hv. pose proof (inner_ok _ _ Hi Hok) as Hok1.
  apply inner_inv in Hi as (Hstr & Hnext & Hsent & Hm).
  pose proof (keeps_run _ _ _ _ _ (keeps_for_each gs_changed _ _ (fun te => keeps_changed_notify te.1 te.2)) Hr) as Hc2.
  eapply (notify_all_run t stream) in Hr as (Hv2 & Hstr2 & _ & Hm2 & _); [|done|congruence|unfold memory in Hm; congruence].
  split_and!; [congruence..| |].
  - intros k Hh Hk. rewrite Hv2, Hv. apply transition_view; [done| |done]. by rewrite (hidden_memory _ _ Hm).
  - intros Heq. rewrite Hv2, Hv. replace (omap _ _) with ([] : list GroupEvent); [done|]. symmetry. by apply transition_silent.
Qed.

Lemma after_reload_run t stream old oldETag cfg s s' resp :
  streams_ok s -> gs_streams s !! t = Some stream -> consistent (gs_loader s) -> l_config (gs_loader s) = Some cfg ->
  after_reload old oldETag cfg s = (s', Reply resp) ->
  gs_streams s' = gs_streams s /\ memory (gs_loader s') = memory (gs_loader s) /\
  (forall k, is_Some (old !! (t, k)) \/ effective_etag (gs_loader s) t k ≠ None -> (t, k) ∈ gs_changed s') /\
  (forall k, hidden (gs_loader s) t k = false -> gst_etag <$> view_of stream s !! k = gst_etag <$> old !! (t, k) ->
     gst_etag <$> view_of stream s' !! k = effective_etag (gs_loader s) t k) /\
  ((forall k, gst_etag <$> old !! (t, k) = effective_etag (gs_loader s) t k) -> view_of stream s' = view_of stream s).
Proof.
  intros Hok Hstream Hcons Hcfg Hr. destruct (Hcons _ Hcfg) as (groups & Hg & _). unfold after_reload in Hr.
  run_bind Hr as s1 newETag H1. injection H1 as <- <-. run_bind Hr as s2 r H2.
  apply (effective_statuses_run _ groups) in H2 as (Ho & new & -> & Hf & Heff); [|done..].
  pose proof (outer_inner _ _ Ho) as Hi2. run_bind Hr as s3 fault H3.
  apply (keeps_run outer) in H3; [|apply keeps_outer_observe]. pose proof (outer_inner _ _ H3) as Hi3. rewrite Hi2 in Hi3.
  destruct fault; [done|]. run_bind Hr as s4 managed H4. injection H4 as <- <-. run_bind Hr as s5 u H5. injection Hr as <- _.
  pose proof (inner_view stream _ _ Hi3) as Hv. pose proof (inner_ok _ _ Hi3 Hok) as Hok3.
  apply inner_inv in Hi3 as (Hstr & _ & _ & Hm).
  eapply (announce_run t stream) in H5 as (Hstr' & Hm' & Hch & Hview & Hsilent); [|done|congruence|unfold memory in Hm; congruence|done].
  split_and!; [congruence|congruence| | |].
  - intros k Hk. rewrite Hch. apply elem_of_app. right. apply elem_of_elements. rewrite !elem_of_union, !elem_of_dom.
    left. destruct Hk as [?|Hk]; [by left|right]. rewrite <-Heff in Hk. by destruct (new !! (t, k)).
  - intros k Hh Hk. rewrite <-Heff. apply Hview; [by rewrite (hidden_memory _ _ Hm)|by rewrite Hv].
  - intros Heq. rewrite Hsilent, Hv; [done|]. intros k. by rewrite Heq, Heff.
Qed.
End Helpers.

Section Calls.
Context {GE : GroupEnv} {HL : DocLaws Content}.

(** [RefreshConfig] up to the reload of configuration and groups: the statuses of
    the groups before it, and a consistent state that differs in what was loaded. *)
Lemma refresh_reload_run s s' r t :
  streams_ok s -> consistent (gs_loader s) -> RefreshConfig s = (s', r) ->
  (exists s5 old etag cfg, after_reload old etag cfg s5 = (s', r) /\ streams_ok s5 /\ gs_streams s5 = gs_streams s /\
     gs_sent s5 = gs_sent s /\ consistent (gs_loader s5) /\ l_config (gs_loader s5) = Some cfg /\
     forall k, gst_etag <$> old !! (t, k) = effective_etag (gs_loader s) t k) \/
  (exists code msg, r = Fail code msg /\ gs_streams s' = gs_streams s /\ gs_sent s' = gs_sent s /\ gs_changed s' = gs_changed s /\
     streams_ok s' /\ consistent (gs_loader s')).
Proof.
  intros Hok Hcons Hr. unfold RefreshConfig in Hr.
  run_bind Hr as s1 cfg H1. injection H1 as <- <-.
  destruct (l_config (gs_loader s)) as [cfg|] eqn:Hcfg; [|injection Hr as <- <-; right; by eexists _, _].
  destruct (Hcons _ Hcfg) as (groups & Hg & _). run_bind Hr as s2 r2 H2.
  apply (effective_statuses_run _ groups) in H2 as (Ho2 & old & -> & _ & Hold); [|done..].
  run_bind Hr as s3 oldETag H3. injection H3 as <- _. run_bind Hr as s4 c H4. unfold on_loader in H4.
  destruct (LoadConfigAndGroups true (gs_loader s2)) as [l4 r4] eqn:Hload. injection H4 as <- <-.
  assert (gs_changed s2 = gs_changed s) as Hch2 by (unfold outer in Ho2; congruence).
  pose proof (outer_inner _ _ Ho2) as Hi2. pose proof (inner_ok _ _ Hi2 Hok) as Hok2.
  apply inner_inv in Hi2 as (Hstr2 & Hn2 & Hs2 & Hm2).
  pose proof Hload as Hload'. apply consistent_force_load in Hload; [|by eapply consistent_memory].
  assert (streams_ok {| s2 with gs_loader := l4 |}) as Hok4 by (by eapply streams_ok_same).
  destruct r4 as [cfg'|]; [|injection Hr as <- <-; right; eexists _, _; split_and!; done].
  pose proof (force_load_run _ _ _ Hload') as [Hcfg4 _]. run_bind Hr as s5 p H5.
  apply (keeps_run outer) in H5; [|apply keeps_outer_observe].
  assert (gs_changed s5 = gs_changed s) as Hch5 by (rewrite <-Hch2; unfold outer in H5; simpl in H5; congruence).
  apply outer_inner in H5. pose proof (inner_ok _ _ H5 Hok4) as Hok5. apply inner_inv in H5 as (Hstr5 & _ & Hs5 & Hm5). simpl in Hstr5, Hs5, Hm5.
  assert (consistent (gs_loader s5)) as Hcons5 by (by eapply consistent_memory).
  assert (after_reload old oldETag cfg' s5 = (s', r) \/ (s5 = s' /\ exists msg, r = Fail Internal msg)) as [Hr'|[<- [msg ->]]].
  { destruct p as [[|]|]; [by left| |by left]. injection Hr as <- <-. right. eauto. }
  - left. exists s5, old, oldETag, cfg'. split_and!; [done|done|congruence|congruence|done|unfold memory in Hm5; congruence|done].
  - right. exists Internal, msg. split_and!; [done|congruence..|done|done].
Qed.

Lemma view_sent stream s s' : gs_sent s' = gs_sent s -> view_of stream s' = view_of stream s.
Proof. unfold view_of. by intros ->. Qed.

Lemma effective_memory l l' t k : memory l' = memory l -> effective_etag l' t k = effective_etag l t k.
Proof. unfold memory, effective_etag. by intros [= -> _ -> _]. Qed.

(** [RefreshConfig] keeps connected operators current: when it succeeds and its
    events can be sent, the operator of a tenant whose view of the groups was
    current before (up to the tenant's NAT group, which is hidden from it and stays
    the same) has a current view after, and reconciliation was requested for every
    group of the tenant that was or is effective. *)
Theorem refresh_keeps_views s s' resp t stream :
  (forall n, ge_send n = None) ->
  streams_ok s -> consistent (gs_loader s) -> gs_streams s !! t = Some stream ->
  current t (view_of stream s) (gs_loader s) ->
  RefreshConfig s = (s', Reply resp) ->
  (forall k, hidden (gs_loader s') t k = hidden (gs_loader s) t k) ->
  gs_streams s' !! t = Some stream /\ current t (view_of stream s') (gs_loader s') /\
  forall k, effective_etag (gs_loader s) t k ≠ None \/ effective_etag (gs_loader s') t k ≠ None -> (t, k) ∈ gs_changed s'.
Proof.
  intros Hsend Hok Hcons Hstream Hcur Hr Hhid.
  apply (refresh_reload_run _ _ _ t) in Hr as [(s5 & old & etag & cfg & Hr & Hok5 & Hstr5 & Hs5 & Hcons5 & Hcfg5 & Hold)|(? & ? & ? & _)]; [|done..].
  apply (after_reload_run Hsend t stream) in Hr as (Hstr & Hm & Hch & Hview & _); [|done|congruence|done..].
  split_and!; [congruence| |].
  - intros k Hk. rewrite (effective_memory _ _ _ _ Hm). apply Hview; [by rewrite <-(hidden_memory _ _ Hm)|].
    rewrite Hold, (view_sent _ _ _ Hs5). apply Hcur. by rewrite <-Hhid.
  - intros k. rewrite (effective_memory _ _ _ _ Hm). intros Hk. apply Hch. destruct Hk as [Hk|]; [left|by right].
    rewrite <-Hold in Hk. by destruct (old !! (t, k)).
Qed.

(** Events are only added to what was sent. *)
Lemma notify_sends t ev s : exists new, gs_sent (NotifyGroupEvent t ev s).1 = gs_sent s ++ new.
Proof.
  assert (forall l, gs_sent {| s with gs_loader := l |} = gs_sent s) as Hl by done.
  unfold NotifyGroupEvent, send, on_loader, l_observe, on_store, st_observe, modify, gets, mbind, M_bind, mret, M_ret. simpl.
  repeat case_match; simplify_eq/=; first [by exists []; rewrite app_nil_r | by eexists].
Qed.

Lemma notify_all_sends (tes : list (string * GroupEvent)) s s' u :
  for_each tes (fun te => NotifyGroupEvent te.1 te.2) s = (s', u) -> exists new, gs_sent s' = gs_sent s ++ new.
Proof.
  revert s. induction tes as [|te tes IH]; intros s Hr; simpl in Hr; [injection Hr as <- <-; exists []; by rewrite app_nil_r|].
  run_bind Hr as s1 v H1. destruct (notify_sends te.1 te.2 s) as [n1 E1]. rewrite H1 in E1. apply IH in Hr as [n2 E2].
  exists (n1 ++ n2). rewrite E2. simpl in E1. by rewrite E1, app_assoc.
Qed.

Lemma refresh_sends s s' resp :
  streams_ok s -> consistent (gs_loader s) -> RefreshConfig s = (s', Reply resp) -> exists new, gs_sent s' = gs_sent s ++ new.
Proof.
  intros Hok Hcons Hr.
  apply (refresh_reload_run _ _ _ "") in Hr as [(s5 & old & etag & cfg & Hr & _ & _ & Hs5 & Hcons5 & Hcfg5 & _)|(? & ? & ? & _)]; [|done..].
  rewrite <-Hs5. destruct (Hcons5 _ Hcfg5) as (groups & Hg & _). unfold after_reload in Hr. run_bind Hr as s6 newETag H6. injection H6 as <- _.
  run_bind Hr as s7 r H7. apply (effective_statuses_run _ groups) in H7 as (Ho7 & new & -> & _); [|done..].
  run_bind Hr as s8 fault H8. apply (keeps_run outer) in H8; [|apply keeps_outer_observe]. destruct fault; [done|].
  run_bind Hr as s9 managed H9. injection H9 as <- <-. run_bind Hr as s10 u H10. injection Hr as <- _.
  rewrite Ho7 in H8. apply outer_inner, inner_inv in H8 as (_ & _ & Hs8 & _). rewrite <-Hs8.
  unfold announce in H10. run_bind H10 as s11 v H11. apply changed_all in H11 as [Hi _]. apply inner_inv in Hi as (_ & _ & Hs11 & _).
  rewrite <-Hs11. by apply notify_all_sends in H10.
Qed.

(** Two views that agree on a group before some events agree after them. *)
Lemma apply_agree evs (v v' : View) k :
  gst_etag <$> v !! k = gst_etag <$> v' !! k -> gst_etag <$> foldl apply_event v evs !! k = gst_etag <$> foldl apply_event v' evs !! k.
Proof.
  revert v v'. induction evs as [|ev evs IH]; intros v v' Hk; simpl; [done|]. apply IH. rewrite !lookup_apply. by case_decide.
Qed.

(** A refresh that fails announces nothing. *)
Lemma refresh_fail_run s s' code msg :
  streams_ok s -> consistent (gs_loader s) -> RefreshConfig s = (s', Fail code msg) ->
  gs_streams s' = gs_streams s /\ gs_sent s' = gs_sent s /\ streams_ok s' /\ consistent (gs_loader s').
Proof.
  intros Hok Hcons Hr. apply (refresh_reload_run _ _ _ "") in Hr as
    [(s5 & old & etag & cfg & Hr & Hok5 & Hstr5 & Hs5 & Hcons5 & Hcfg5 & _)|(? & ? & _ & ? & ? & _ & ? & ?)]; [|done..].
  destruct (Hcons5 _ Hcfg5) as (groups & Hg & _). unfold after_reload in Hr. run_bind Hr as s6 newETag H6. injection H6 as <- _.
  run_bind Hr as s7 r H7. apply (effective_statuses_run _ groups) in H7 as (Ho7 & new & -> & _); [|done..].
  run_bind Hr as s8 fault H8. apply (keeps_run outer) in H8; [|apply keeps_outer_observe]. destruct fault.
  - injection Hr as <- _ _. rewrite Ho7 in H8. apply outer_inner in H8. pose proof (inner_ok _ _ H8 Hok5) as Hok8.
    apply inner_inv in H8 as (Hstr & _ & Hs & Hm). split_and!; [congruence|congruence|done|by eapply consistent_memory].
  - run_bind Hr as s9 managed H9. by run_bind Hr as s10 u H10.
Qed.

(** A refresh that fails after the new configuration was installed is not made up
    for: it sends nothing, and a retry compares the new groups with themselves, so
    unless they change again the operator keeps the view it had. *)
Theorem refresh_retry_silent s s1 code msg s2 resp t stream :
  (forall n, ge_send n = None) ->
  streams_ok s -> consistent (gs_loader s) -> gs_streams s !! t = Some stream ->
  RefreshConfig s = (s1, Fail code msg) -> RefreshConfig s1 = (s2, Reply resp) ->
  (forall k, effective_etag (gs_loader s2) t k = effective_etag (gs_loader s1) t k) ->
  view_of stream s2 = view_of stream s.
Proof.
  intros Hsend Hok Hcons Hstream Hr1 Hr2 Heq. apply refresh_fail_run in Hr1 as (Hstr1 & Hs1 & Hok1 & Hcons1); [|done..].
  apply (refresh_reload_run _ _ _ t) in Hr2 as [(s5 & old & etag & cfg & Hr & Hok5 & Hstr5 & Hs5 & Hcons5 & Hcfg5 & Hold)|(? & ? & ? & _)]; [|done..].
  apply (after_reload_run Hsend t stream) in Hr as (_ & Hm & _ & _ & Hsilent); [|done|congruence|done..].
  rewrite Hsilent; [rewrite (view_sent _ _ _ Hs5); by apply view_sent|].
  intros k. by rewrite Hold, <-Heq, (effective_memory _ _ _ _ Hm).
Qed.

(** *** Listing and watching *)

Lemma lookup_all_groups (rows : list Group) m0 row :
  row ∈ rows \/ is_Some (m0 !! g_group_key row) ->
  is_Some (foldl (fun (m : gmap string Group) g => <[g_group_key g := g]> m) m0 rows !! g_group_key row).
Proof.
  revert m0. induction rows as [|r rows IH]; intros m0 Hrow; simpl; [destruct Hrow as [Hin%elem_of_nil|]; done|].
  apply IH. destruct Hrow as [[->|]%elem_of_cons|]; [right; rewrite lookup_insert_eq; eauto|by left|].
  right. destruct (decide (g_group_key r = g_group_key row)) as [->|]; [rewrite lookup_insert_eq; eauto|by rewrite lookup_insert_ne].
Qed.

(** What a listed status says. *)
Definition listed (cfg : Config) (groups : DynGroups) (t : string) (x : GroupStatus) : Prop :=
  is_nat_group cfg t (gst_key x) = false /\ gst_tenant x = t /\
  exists g, tenant_groups cfg groups t !! gst_key x = Some g /\ gst_etag x = group_etag t (gst_key x) g (is_static cfg t (gst_key x)).

Lemma list_statuses_run cfg groups t keys s s' xs :
  t ≠ "" -> l_config (gs_loader s) = Some cfg -> l_groups (gs_loader s) = Some groups ->
  list_statuses cfg t keys s = (s', xs) ->
  outer s' = outer s /\ Forall (listed cfg groups t) xs /\
  (forall k, k ∈ keys -> is_nat_group cfg t k = false -> is_Some (tenant_groups cfg groups t !! k) -> k ∈ (gst_key <$> xs)).
Proof.
  intros Ht. revert s xs. induction keys as [|key keys IH]; intros s xs Hc Hg Hr; simpl in Hr.
  { injection Hr as <- <-. split_and!; [done|constructor|]. by intros k Hk%elem_of_nil. }
  run_bind Hr as s1 dynamic H1. injection H1 as <- <-. rewrite list_merge_eq in Hr.
  assert (merge_one (group_in (c_groups cfg) t key) (GetDynamicGroup t key (gs_loader s)) = tenant_groups cfg groups t !! key) as Heff.
  { unfold GetDynamicGroup. rewrite bool_decide_false, Hg by done. by rewrite lookup_tenant_groups. }
  rewrite Heff in Hr. destruct (is_nat_group cfg t key) eqn:Hnat.
  { apply IH in Hr as (Ho & Hall & Hin); [|done..]. split_and!; [done..|].
    intros k [->|Hk]%elem_of_cons Hn Hs; [congruence|by apply Hin]. }
  destruct (tenant_groups cfg groups t !! key) as [g|] eqn:Htg.
  - run_bind Hr as s2 x H2. apply build_run in H2 as (Ho2 & Hk2 & Ht2 & He2). run_bind Hr as s3 more H3. injection Hr as <- <-.
    pose proof (outer_inv _ _ Ho2) as (_ & _ & _ & Hc2 & Hg2 & _). apply IH in H3 as (Ho3 & Hall & Hin); [|congruence..].
    split_and!; [congruence| |].
    + constructor; [|done]. unfold listed. rewrite Hk2. split_and!; [done|done|]. by exists g.
    + intros k [->|Hk]%elem_of_cons Hn Hs; [rewrite <-Hk2; left|right; by apply Hin].
  - apply IH in Hr as (Ho & Hall & Hin); [|done..]. split_and!; [done..|].
    intros k [->|Hk]%elem_of_cons Hn Hs; [rewrite Htg in Hs; by destruct Hs|by apply Hin].
Qed.

Lemma listGroups_run cfg groups t s s' xs :
  consistent (gs_loader s) -> l_config (gs_loader s) = Some cfg -> l_groups (gs_loader s) = Some groups ->
  listGroups t s = (s', Ok xs) ->
  outer s' = outer s /\ Forall (listed cfg groups t) xs /\
  (forall k, is_nat_group cfg t k = false -> is_Some (tenant_groups cfg groups t !! k) -> k ∈ (gst_key <$> xs)).
Proof.
  intros Hcons Hc Hg Hr. unfold listGroups in Hr. run_bind Hr as s1 fault H1.
  apply (keeps_run outer) in H1; [|apply keeps_outer_observe]. pose proof (outer_inv _ _ H1) as (_ & _ & _ & Hc1 & Hg1 & Hdb1).
  run_bind Hr as s2 l H2. injection H2 as <- <-. rewrite Hc1, Hc, Hdb1 in Hr. unfold LocalDB.GetAllGroups in Hr.
  case_bool_decide as Ht; [by destruct fault|]. destruct fault; [done|]. run_bind Hr as s3 ys H3. injection Hr as <- <-.
  apply (list_statuses_run _ groups) in H3 as (Ho & Hall & Hin); [|done|congruence|congruence].
  split_and!; [congruence|done|]. intros k Hn [g Hk]. apply Hin; [|done|by exists g].
  destruct (Hcons _ Hc) as (groups' & Hg' & _ & Hrows). replace groups' with groups in * by congruence.
  destruct (Hrows _ _ _ Hk) as (row & Hrow & Htr & <-). apply list_elem_of_fmap.
  destruct (lookup_all_groups (sel (fun g => bool_decide (g_tenant g = t)) (LocalDB.groups (l_db (gs_loader s)))) ∅ row) as [y Hy].
  { left. apply elem_of_sel. by rewrite bool_decide_true. }
  exists (g_group_key row, y). split; [done|]. by apply elem_of_map_to_list.
Qed.

Lemma snapshot_run (Hsend : forall n, ge_send n = None) stream xs s s' r :
  send_snapshot stream xs s = (s', r) ->
  r = Ok tt /\ gs_sent s' = gs_sent s ++ ((fun x => (stream, GroupUpsert x)) <$> xs) /\ gs_streams s' = gs_streams s /\
  gs_next_stream s' = gs_next_stream s /\ memory (gs_loader s') = memory (gs_loader s).
Proof.
  revert s. induction xs as [|x xs IH]; intros s Hr; simpl in Hr.
  { injection Hr as <- <-. by rewrite app_nil_r. }
  run_bind Hr as s1 y H1. apply (send_run Hsend) in H1 as (-> & Hs1 & Hstr & Hn & Hm).
  apply IH in Hr as (-> & Hs & Hstr2 & Hn2 & Hm2). split_and!; [done|rewrite Hs, Hs1, <-app_assoc; done|congruence..].
Qed.

Lemma register_ok t s : streams_ok s -> streams_ok (register_stream t s).
Proof.
  intros [Hf Hi Hs]. split; simpl.
  - intros t' n [[_ <-]|[_ Hn%Hf]]%lookup_insert_Some; lia.
  - intros t1 t2 n [[<- <-]|[Hne1 H1]]%lookup_insert_Some [[<- Hn]|[Hne2 H2]]%lookup_insert_Some; [done| | |by eapply Hi].
    + apply Hf in H2. lia.
    + subst. apply Hf in H1. lia.
  - intros n ev Hin%Hs. lia.
Qed.

Lemma on_stream_here stream ev : on_stream stream (stream, ev) = Some ev.
Proof. unfold on_stream. by rewrite bool_decide_true. Qed.

(** Nothing was sent on a stream that is not registered yet. *)
Lemma view_fresh xs s s' :
  streams_ok s -> gs_sent s' = gs_sent s ++ ((fun x => (gs_next_stream s, GroupUpsert x)) <$> xs) ->
  view_of (gs_next_stream s) s' = foldl apply_event ∅ (GroupUpsert <$> xs).
Proof.
  intros Hok Hs. unfold view_of. rewrite Hs, omap_app. f_equal.
  assert (omap (on_stream (gs_next_stream s)) (gs_sent s) = []) as ->.
  { apply elem_of_nil_inv. intros ev ([n ev'] & Hin & Hev)%list_elem_of_omap. unfold on_stream in Hev. simpl in Hev.
    case_bool_decide; simplify_eq. apply so_sent in Hin; [lia|done]. }
  clear Hs. simpl. induction xs as [|x xs IH]; [done|]. cbn. rewrite on_stream_here. f_equal. apply IH.
Qed.

(** A snapshot of the listed groups. *)
Lemma listed_view cfg groups t xs l :
  l_config l = Some cfg -> l_groups l = Some groups -> Forall (listed cfg groups t) xs ->
  (forall k, is_nat_group cfg t k = false -> is_Some (tenant_groups cfg groups t !! k) -> k ∈ (gst_key <$> xs)) ->
  let v := foldl apply_event ∅ (GroupUpsert <$> xs) in
  current t v l /\ forall k, hidden l t k = true -> v !! k = None.
Proof.
  intros Hc Hg Hall Hin v. rewrite Forall_forall in Hall.
  assert (event_key <$> (GroupUpsert <$> xs) = gst_key <$> xs) as Hkeys by (by rewrite <-list_fmap_compose).
  unfold current, hidden. rewrite Hc. split.
  - intros k Hk. subst v. rewrite (lookup_apply_all (fmap (M := option) gst_etag) _ _ _ (effective_etag l t k)), Hkeys.
    2:{ intros ev (x & -> & Hx)%list_elem_of_fmap <-. destruct (Hall _ Hx) as (_ & _ & g & Htg & He).
        simpl. unfold effective_etag. by rewrite Hc, Hg, Htg, He. }
    case_bool_decide as Hnin; [done|]. rewrite lookup_empty. simpl. unfold effective_etag. rewrite Hc, Hg.
    destruct (tenant_groups cfg groups t !! k) eqn:Htg; [|done]. destruct Hnin. apply Hin; [done|by rewrite Htg].
  - intros k Hk. subst v. rewrite (lookup_apply_all (fun o => o) _ _ _ None).
    + case_bool_decide; [done|]. apply lookup_empty.
    + intros ev (x & -> & Hx)%list_elem_of_fmap <-. destruct (Hall _ Hx) as (Hn & _). simpl in Hk. congruence.
Qed.

Lemma watch_run info s s' stream :
  (forall n, ge_send n = None) ->
  streams_ok s -> consistent (gs_loader s) -> l_config (gs_loader s) ≠ None ->
  WatchGroups info s = (s', Reply stream) ->
  streams_ok s' /\ memory (gs_loader s') = memory (gs_loader s) /\ gs_streams s' !! ci_tenant info = Some stream /\
  current (ci_tenant info) (view_of stream s') (gs_loader s') /\
  forall key, hidden (gs_loader s') (ci_tenant info) key = true -> view_of stream s' !! key = None.
Proof.
  intros Hsend Hok Hcons Hcfg Hr. destruct (l_config (gs_loader s)) as [cfg|] eqn:Hc; [|done].
  destruct (Hcons _ Hc) as (groups & Hg & _). unfold WatchGroups in Hr. run_bind Hr as s1 st H1. injection H1 as <- <-.
  run_bind Hr as s2 u H2. injection H2 as <- <-. run_bind Hr as s3 r H3. destruct r as [xs|]; [|by run_bind Hr as s4 u H4].
  apply (listGroups_run cfg groups) in H3 as (Ho & Hall & Hin); [|done..].
  apply outer_inner, inner_inv in Ho as (Hstr & Hn & Hs & Hm). run_bind Hr as s4 x H4.
  apply (snapshot_run Hsend) in H4 as (-> & Hs4 & Hstr4 & Hn4 & Hm4). injection Hr as <- <-.
  rewrite Hs in Hs4. rewrite Hstr in Hstr4. rewrite Hn in Hn4. rewrite Hm in Hm4. simpl in Hs4, Hstr4, Hn4, Hm4.
  assert (l_config (gs_loader s4) = Some cfg /\ l_groups (gs_loader s4) = Some groups) as [Hc4 Hg4] by (unfold memory in Hm4; split; congruence).
  rewrite (view_fresh _ _ _ Hok Hs4).
  destruct (listed_view cfg groups (ci_tenant info) xs (gs_loader s4)) as [Hcur Hhid]; [done..|].
  split_and!; [|done|by rewrite Hstr4, lookup_insert_eq|done..].
  pose proof (register_ok (ci_tenant info) _ Hok) as [Hf Hi Hsent]. split; rewrite ?Hstr4, ?Hn4; [done..|].
  intros n ev. rewrite Hs4, elem_of_app. intros [|(x & [= -> ->] & _)%list_elem_of_fmap]; [by eapply Hsent|]. lia.
Qed.

(** [WatchGroups] starts with a current view: when the snapshot could be sent, the
    new stream is the tenant's, and the operator on it knows exactly the effective
    groups of its tenant, with current configuration, and not the tenant's NAT
    group. *)
Theorem watch_starts_current info s s' stream :
  (forall n, ge_send n = None) ->
  streams_ok s -> consistent (gs_loader s) -> l_config (gs_loader s) ≠ None ->
  WatchGroups info s = (s', Reply stream) ->
  streams_ok s' /\ memory (gs_loader s') = memory (gs_loader s) /\ gs_streams s' !! ci_tenant info = Some stream /\
  current (ci_tenant info) (view_of stream s') (gs_loader s') /\
  forall key, hidden (gs_loader s') (ci_tenant info) key = true -> view_of stream s' !! key = None.
Proof. apply watch_run. Qed.

(** *** Changing one group *)

(** Only one group differs. *)
Definition only_changed (t key : string) (groups groups' : DynGroups) : Prop :=
  forall t' k, (t', k) ≠ (t, key) -> group_in groups' t' k = group_in groups t' k.

(** The event of the changed group brings every view up to date. *)
Lemma notify_change_current (Hsend : forall n, ge_send n = None) t stream t' ev groups groups' s s1 s2 u :
  streams_ok s1 -> gs_streams s1 !! t = Some stream ->
  l_config (gs_loader s1) = l_config (gs_loader s) -> l_config (gs_loader s1) ≠ None ->
  l_groups (gs_loader s) = Some groups -> l_groups (gs_loader s1) = Some groups' ->
  view_of stream s1 = view_of stream s -> current t (view_of stream s) (gs_loader s) ->
  only_changed t' (event_key ev) groups groups' ->
  gst_etag <$> event_value ev = effective_etag (gs_loader s1) t' (event_key ev) ->
  NotifyGroupEvent t' ev s1 = (s2, u) ->
  gs_streams s2 !! t = Some stream /\ current t (view_of stream s2) (gs_loader s2).
Proof.
  intros Hok Hstream Hc Hcfg Hg Hg1 Hv Hcur Hother Hval Hr.
  destruct (notify_run Hsend t stream (t', ev) s1 s2 u Hok Hstream Hcfg Hr) as (Hv2 & Hstr2 & _ & Hm2 & _).
  split; [congruence|]. eapply current_memory; [exact Hm2|]. intros k Hk. rewrite Hv2, Hv. unfold delivered. simpl.
  assert ((t, k) ≠ (t', event_key ev) -> gst_etag <$> view_of stream s !! k = effective_etag (gs_loader s1) t k) as Hsame.
  { intros Hne. rewrite Hcur by (unfold hidden in *; by rewrite <-Hc). unfold effective_etag. rewrite Hc, Hg, Hg1.
    destruct (l_config (gs_loader s)); [|done]. by rewrite !lookup_tenant_groups, Hother. }
  case_bool_decide as Ht; simpl; [subst t'|apply Hsame; congruence].
  destruct (hidden (gs_loader s1) t (event_key ev)) eqn:Hh; simpl; [apply Hsame; congruence|].
  rewrite lookup_apply. case_decide as Hkey; [by subst|]. apply Hsame. congruence.
Qed.

Lemma loader_change_run op s s1 :
  on_loader (run_loader_op (OpTable op)) s = (s1, Ok tt) ->
  gs_streams s1 = gs_streams s /\ gs_next_stream s1 = gs_next_stream s /\ gs_sent s1 = gs_sent s /\
  exists groups', published groups' (gs_loader s) (gs_loader s1) /\
    match op with TableDelete t k => group_in groups' t k = None | TableUpdate _ _ _ => True end.
Proof.
  unfold on_loader. destruct (run_loader_op (OpTable op) (gs_loader s)) as [l r] eqn:Hr. intros [= <- ->]. split_and!; [done..|].
  apply table_op_effect in Hr as [(_ & _ & ?)|[(old & g & _ & Hstep & [[_ Hp]|[? _]])|(t & k & g & -> & _ & _ & Hn & Hp)]]; [done| |done|].
  - exists g. split; [done|]. destruct op as [|t k]; [done|]. simpl in Hstep. injection Hstep as Hstep.
    rewrite <-lookup_flat, <-Hstep. apply lookup_delete_eq.
  - exists g. split; [done|]. by rewrite <-lookup_flat.
Qed.

Lemma keeps_memory_notify t ev : keeps (fun s => memory (gs_loader s)) (NotifyGroupEvent t ev).
Proof. unfold NotifyGroupEvent, send. keep; done. Qed.

Lemma upsert_current (Hsend : forall n, ge_send n = None) info key c status s s' groups groups' t stream :
  streams_ok s -> gs_streams s !! t = Some stream -> l_groups (gs_loader s) = Some groups ->
  current t (view_of stream s) (gs_loader s) -> UpsertGroup info key c s = (s', Reply status) ->
  l_groups (gs_loader s') = Some groups' -> only_changed (ci_tenant info) key groups groups' ->
  gs_streams s' !! t = Some stream /\ current t (view_of stream s') (gs_loader s').
Proof.
  intros Hok Hstream Hg Hcur Hr Hg' Honly. unfold UpsertGroup in Hr. destruct (check_key _ _) as [[]|]; [done|].
  destruct c as [c|]; [|done]. run_bind Hr as s0 cfg H0. injection H0 as <- <-.
  destruct (l_config (gs_loader s)) as [cfg|] eqn:Hcfg; [|done]. unfold upsert_admitted, Loader.UpsertGroup in Hr.
  run_bind Hr as s1 r H1. case_bool_decide as Ht; [by injection H1 as <- <-|]. destruct r as [[]|]; [|done].
  apply (loader_change_run (TableUpdate _ _ _)) in H1 as (Hstr1 & Hn1 & Hs1 & groups1 & (Hc1 & Hg1 & _) & _).
  run_bind Hr as s2 u H2. injection H2 as <- <-. run_bind Hr as s3 g H3. unfold merged_group in H3. run_bind H3 as s4 dyn H4.
  unfold on_loader in H4. rewrite (load_groups_loaded _ _ Hg1) in H4. injection H4 as <- <-. injection H3 as <- <-.
  unfold GetGroup in Hr. rewrite bool_decide_false in Hr by done.
  destruct (tenant_groups cfg groups1 (ci_tenant info) !! key) as [merged|] eqn:Hm; [|done].
  run_bind Hr as s5 x H5. apply build_run in H5 as (Ho & Hk & _ & He). apply outer_inner, inner_inv in Ho as (Hstr5 & Hn5 & Hs5 & Hm5).
  simpl in Hstr5, Hn5, Hs5, Hm5. run_bind Hr as s6 u H6. injection Hr as <- <-.
  pose proof (keeps_run _ _ _ _ _ (keeps_memory_notify _ _) H6) as Hm6. simpl in Hm6.
  assert (l_config (gs_loader s5) = Some cfg /\ l_groups (gs_loader s5) = Some groups1) as [Hc5 Hg5] by (unfold memory in Hm5; split; congruence).
  assert (groups1 = groups') as -> by (unfold memory in Hm6; congruence).
  apply (notify_change_current Hsend t stream (ci_tenant info) (GroupUpsert x) groups groups' s s5 s6 u); try done; try congruence.
  - eapply (streams_ok_same s); [congruence..|done].
  - unfold view_of. by rewrite Hs5, Hs1.
  - simpl. by rewrite Hk.
  - simpl. unfold effective_etag. by rewrite Hc5, Hg5, Hk, Hm, He.
Qed.

Lemma delete_current (Hsend : forall n, ge_send n = None) info key s s' groups groups' t stream :
  streams_ok s -> gs_streams s !! t = Some stream -> l_groups (gs_loader s) = Some groups ->
  current t (view_of stream s) (gs_loader s) -> DeleteGroup info key s = (s', Reply tt) ->
  l_groups (gs_loader s') = Some groups' -> only_changed (ci_tenant info) key groups groups' ->
  gs_streams s' !! t = Some stream /\ current t (view_of stream s') (gs_loader s').
Proof.
  intros Hok Hstream Hg Hcur Hr Hg' Honly. unfold DeleteGroup in Hr. destruct (check_key _ _) as [[]|]; [done|].
  unfold Loader.DeleteGroup in Hr. run_bind Hr as s1 r H1. case_bool_decide as Ht; [by injection H1 as <- <-|].
  destruct r as [[]|]; [|done].
  apply (loader_change_run (TableDelete _ _)) in H1 as (Hstr1 & Hn1 & Hs1 & groups1 & (Hc1 & Hg1 & _) & Hnone).
  run_bind Hr as s2 u H2. injection H2 as <- <-. run_bind Hr as s3 c H3. injection H3 as <- <-. simpl in Hr.
  destruct (l_config (gs_loader s1)) as [cfg|] eqn:Hcfg; [|done]. run_bind Hr as s4 u H4. injection Hr as <-.
  assert (exists ev s5, NotifyGroupEvent (ci_tenant info) ev s5 = (s4, u) /\ inner s5 = inner s1 /\ event_key ev = key /\
    gst_etag <$> event_value ev = effective_etag (gs_loader s1) (ci_tenant info) key) as (ev & s5 & H5 & Hi5 & Hk & Hval).
  { unfold notify_deleted in H4. unfold effective_etag. rewrite Hcfg, Hg1, lookup_tenant_groups, Hnone. unfold is_static.
    destruct (group_in (c_groups cfg) (ci_tenant info) key) as [static|] eqn:Hst.
    - run_bind H4 as s5 x H5. apply build_run in H5 as (Ho & Hk & _ & He). exists (GroupUpsert x), s5.
      split_and!; [done|by apply outer_inner in Ho|done|]. simpl. by rewrite He.
    - by exists (GroupDelete (ci_tenant info) key), (record_change (ci_tenant info) key s1). }
  apply inner_inv in Hi5 as (Hstr5 & Hn5 & Hs5 & Hm5). pose proof (keeps_run _ _ _ _ _ (keeps_memory_notify _ _) H5) as Hm6. simpl in Hm6.
  assert (l_config (gs_loader s5) = Some cfg /\ l_groups (gs_loader s5) = Some groups1) as [Hc5 Hg5] by (unfold memory in Hm5; split; congruence).
  assert (groups1 = groups') as -> by (unfold memory in Hm6; congruence). subst key.
  apply (notify_change_current Hsend t stream (ci_tenant info) ev groups groups' s s5 s4 u); try done; try congruence.
  - eapply (streams_ok_same s); [congruence..|done].
  - unfold view_of. by rewrite Hs5, Hs1.
  - rewrite Hval. unfold effective_etag. by rewrite Hc5, Hg5, Hcfg, Hg1.
Qed.

(** A group changed through the API is announced: when [UpsertGroup] or
    [DeleteGroup] succeeds, its event can be sent, and nobody else changed another
    group in the shared object meanwhile, then the operator of any tenant whose view
    was current keeps a current view.  A deleted group with a static configuration
    is announced with that, and any other as gone. *)
Theorem group_changes_keep_views info key s s' groups groups' t stream :
  (forall n, ge_send n = None) ->
  streams_ok s -> gs_streams s !! t = Some stream -> l_groups (gs_loader s) = Some groups ->
  current t (view_of stream s) (gs_loader s) ->
  (exists c status, UpsertGroup info key c s = (s', Reply status)) \/ DeleteGroup info key s = (s', Reply tt) ->
  l_groups (gs_loader s') = Some groups' -> only_changed (ci_tenant info) key groups groups' ->
  gs_streams s' !! t = Some stream /\ current t (view_of stream s') (gs_loader s').
Proof.
  intros Hsend Hok Hstream Hg Hcur [(c & status & Hr)|Hr] Hg' Honly;
    [by eapply upsert_current|by eapply delete_current].
Qed.
End Calls.
