(* ===== verification/GroupWitnesses.v ===== *)
(** * Concrete runs of the configuration loader and the group calls

    A shard whose administrator replaces the configuration: first the static group
    [web] of tenant [acme] has one instance, then two and there is a group [db].
    An operator of [acme] watches its groups and changes them. *)

From S2P Require Import Prelude Json LocalDB Config Document ContentTags Loader LoaderFacts Certificates GroupApi GroupApiFacts.
From S2P Require Import Validation Samples Witnesses.

(** ** Entity tags of the groups object *)

Definition tree_group (g : GroupConfig) : Tree :=
  GenNode 0 [tree_string (gc_template g); tree_opt tree_Z (gc_size g); tree_string (gc_instance_type g);
             tree_string (gc_subnet_pool g); tree_map tree_string (gc_vars g); tree_map json_tree (gc_args g);
             tree_opt tree_Z (gc_drain_timeout g); GenNode 0 (tree_string <$> gc_load_balancers g)].
Definition tree_content (c : Content) : Tree :=
  GenNode 0 [tree_opt (tree_map (tree_map tree_group)) (ct_groups c); tree_bool (ct_extended c)].

#[global] Instance tree_string_inj : Inj (=) (=) tree_string.
Proof. by intros ? ? [= ->]. Qed.
#[global] Instance tree_group_inj : Inj (=) (=) tree_group.
Proof.
  intros [] [] H. unfold tree_group in H. simpl in H. injection H as Ha Hb Hc Hd He Hf Hg Hh.
  apply (inj (tree_opt tree_Z)) in Hb, Hg.
  apply (f_equal (GenNode 0)), (inj (tree_map tree_string)) in He. apply (f_equal (GenNode 0)), (inj (tree_map json_tree)) in Hf.
  apply (list_fmap_eq_inj tree_string) in Hh; [|intros ? ? Hs; by injection Hs]. by subst.
Qed.
#[global] Instance tree_content_inj : Inj (=) (=) tree_content.
Proof.
  intros [] [] H. unfold tree_content in H. simpl in H. injection H as Ha Hb. apply (inj (tree_opt _)) in Ha.
  assert (ct_extended0 = ct_extended) as <- by (by destruct ct_extended, ct_extended0). by subst.
Qed.

(** ** The environment *)

(** The configuration after the change. *)
Definition grown_config : Config :=
  {| demo_config with c_groups := {[ "acme" := {[ "web" := {| demo_group with gc_size := Some 2 |}; "db" := demo_group ]} ]} |}.

(** A configuration after the detection of its advertised hosts. *)
Definition detected (cfg : Config) : Config :=
  set_advertise cfg (mkAddrs "10.0.0.5:8990" "10.0.0.5:8991" "10.0.0.9:8992" "10.0.0.9:8993" "10.0.0.9:8994").

(** [cfg] is what the administrator uploaded; publishing the proxy configuration
    fails before tick [broken]. *)
Definition shard_env (cfg : Config) (broken : nat) : GroupEnv := {|
  ge_loader := {|
    le_doc := content_env tree_content;
    le_now := fun _ => 5;
    le_config_get := fun _ => Ok (mkConfigData 10 (Ok cfg), "tag");
    le_ctx_done := fun _ => None;
    le_validator := demo_validator;
    le_interfaces := fun _ => Ok [mkIfaceAddr true true true "127.0.0.1"; mkIfaceAddr true false true "10.0.0.5"];
    le_advertise_host := "";
    le_cache_etag := fun _ => "file";
    le_cache_get_fault := fun _ => None;
    le_cache_put_fault := fun _ => None;
    le_db_fault := fun _ => None;
    le_runtime_digest := fun vars files => "sha";
    le_infra_hash := fun _ _ => "hash";
    le_max_retries := 2;
  |};
  ge_send := fun _ => None;
  ge_refreshed := fun n => Some (if bool_decide (n < broken)%nat then Err (ErrExternal 1) else Ok tt);
  ge_digest := fun key tenant template size ty pool vars static => (key ++ (if bool_decide (size = 1) then ":1" else ":2"))%string;
|}.

Lemma shard_laws cfg broken : @DocLaws Content (@le_doc (@ge_loader (shard_env cfg broken))).
Proof. apply content_laws, _. Qed.

Lemma shard_others cfg broken n b b' : @doc_others Content (@le_doc (@ge_loader (shard_env cfg broken))) n b = Some b' -> plain b'.
Proof. done. Qed.

Definition no_groups : Store Content unit := mkStore 0 0 None [].

(** The loader after the server started. *)
Definition started : Loader := ((LoadConfigAndGroups (LE := @ge_loader (shard_env demo_config 0)) true) (NewLoader no_groups None None (empty_db true))).1.

Definition operator_info : ClientInfo := mkClientInfo "op" "operator" "acme" (mkCertificate 1 "op" [] [] (Ed25519Public "k")).

Definition service : GroupService := mkGroupService started ∅ 0 [] [].

(** The service with the operator connected. *)
Definition watched : GroupService := (WatchGroups (GE := shard_env demo_config 0) operator_info service).1.

(** ** The hypotheses hold *)

Lemma started_consistent : @consistent (@ge_loader (shard_env demo_config 0)) started.
Proof.
  pose proof (shard_laws demo_config 0) as HL.
  eapply (consistent_force_load (LE := @ge_loader (shard_env demo_config 0))); [|apply surjective_pairing]. done.
Qed.

Lemma service_ok : streams_ok service.
Proof. split; [done|done|]. by intros n ev Hin%elem_of_nil. Qed.

Lemma reply_run {A} (m : M GroupService (rpc A)) s a : (m s).2 = Reply a -> m s = ((m s).1, Reply a).
Proof. intros <-. apply surjective_pairing. Qed.

Lemma fail_run {A} (m : M GroupService (rpc A)) s c e : (m s).2 = Fail c e -> m s = ((m s).1, Fail c e).
Proof. intros <-. apply surjective_pairing. Qed.

Lemma watched_current :
  streams_ok watched /\ memory (gs_loader watched) = memory started /\ gs_streams watched !! "acme" = Some 0%nat /\
  current (H := shard_env demo_config 0) "acme" (view_of 0 watched) (gs_loader watched).
Proof.
  assert (l_config (gs_loader service) ≠ None) as Hcfg by (vm_compute; discriminate).
  assert (WatchGroups (GE := shard_env demo_config 0) operator_info service = (watched, Reply 0%nat)) as Hr.
  { unfold watched. apply reply_run. vm_compute. reflexivity. }
  destruct (watch_run (GE := shard_env demo_config 0) operator_info service watched 0 (fun _ => eq_refl) service_ok
    started_consistent Hcfg Hr) as (H1 & H2 & H3 & H4 & _). exact (conj H1 (conj H2 (conj H3 H4))).
Qed.

(** ** The loader *)

Definition scale_web : LoaderOp := OpTable (TableUpdate "acme" "web" (fun _ => Ok {| zero_group with gc_size := Some 3 |})).

(** Another group, a deletion of it, and a deletion of a group that does not exist. *)
Definition demo_ops : list LoaderOp :=
  [OpLoad true; scale_web; OpTable (TableDelete "acme" "api"); OpTable (TableDelete "acme" "web"); OpSync].

Definition demo_run : Loader * list (res unit) :=
  run_loader_ops (LE := @ge_loader (shard_env demo_config 0)) demo_ops (NewLoader no_groups None None (empty_db true)).

Lemma group_updates_linearised_witness :
  written demo_run.1 = [Wrote None (marshal {[ "acme" := {[ "web" := {| zero_group with gc_size := Some 3 |} ]} ]});
                        Wrote (Some (Doc (marshal {[ "acme" := {[ "web" := {| zero_group with gc_size := Some 3 |} ]} ]}))) (marshal ∅)] /\
  exists log, written demo_run.1 = [] ++ log /\ linearised (zip demo_ops demo_run.2) log.
Proof.
  split; [by vm_compute|].
  apply (group_updates_linearised (LE := @ge_loader (shard_env demo_config 0)) (HL := shard_laws _ _) demo_ops
           (NewLoader no_groups None None (empty_db true)) demo_run.1 demo_run.2).
  apply surjective_pairing.
Defined.

Lemma cached_hash_current_witness :
  is_ok (GetConfigAndGroup "acme" "web" (run_loader_ops (LE := @ge_loader (shard_env demo_config 0)) [OpLoad true; scale_web]
    (NewLoader no_groups None None (empty_db true))).1) = true /\
  forall cfg g, GetConfigAndGroup "acme" "web" (run_loader_ops (LE := @ge_loader (shard_env demo_config 0)) [OpLoad true; scale_web]
    (NewLoader no_groups None None (empty_db true))).1 = Ok (cfg, g) ->
  exists row mc, GetCachedGroup "acme" "web" (run_loader_ops (LE := @ge_loader (shard_env demo_config 0)) [OpLoad true; scale_web]
    (NewLoader no_groups None None (empty_db true))).1 = Ok (Some row) /\ GetMergedConfig cfg (gc_template g) g = Ok mc /\
    g_runtime_config_hash row = Some (HashRuntimeConfig (LE := @ge_loader (shard_env demo_config 0)) mc).
Proof.
  split; [by vm_compute|].
  refine (proj1 (cached_hash_current (LE := @ge_loader (shard_env demo_config 0)) (HL := shard_laws _ _)
    [OpLoad true; scale_web] no_groups None None (empty_db true) _ _ _) "acme" "web").
  - apply shard_others.
  - done.
  - done.
Defined.

Definition null_cached : Loader := NewLoader no_groups None (Some (Doc (mkContent None false))) (empty_db true).

Definition null_started : Loader := (LoadConfigAndGroups (LE := @ge_loader (shard_env demo_config 0)) false null_cached).1.

Lemma ok_run {A} (m : M Loader (res A)) l a : (m l).2 = Ok a -> m l = ((m l).1, Ok a).
Proof. intros <-. apply surjective_pairing. Qed.

Lemma null_groups_hide_groups_witness :
  group_in (c_groups demo_config) "acme" "web" ≠ None /\ l_config null_started = Some (detected demo_config) /\
  forall t k, is_ok (GetConfigAndGroup t k null_started) = false.
Proof.
  split; [vm_compute; discriminate|].
  assert (LoadConfigAndGroups (LE := @ge_loader (shard_env demo_config 0)) false null_cached = (null_started, Ok (detected demo_config))) as Hr.
  { unfold null_started. apply ok_run. vm_compute. reflexivity. }
  exact (null_groups_hide_groups (LE := @ge_loader (shard_env demo_config 0)) null_cached null_started (detected demo_config)
    eq_refl eq_refl (fun _ => eq_refl) Hr).
Defined.

(** ** The group calls *)

Lemma watch_starts_current_witness :
  gs_streams watched !! "acme" = Some 0%nat /\
  current (H := shard_env demo_config 0) "acme" (view_of 0 watched) (gs_loader watched).
Proof.
  assert (l_config (gs_loader service) ≠ None) as Hcfg by (vm_compute; discriminate).
  assert (WatchGroups (GE := shard_env demo_config 0) operator_info service = (watched, Reply 0%nat)) as Hr.
  { unfold watched. apply reply_run. vm_compute. reflexivity. }
  destruct (watch_starts_current (GE := shard_env demo_config 0) operator_info service watched 0 (fun _ => eq_refl) service_ok
    started_consistent Hcfg Hr) as (_ & _ & H3 & H4 & _). exact (conj H3 H4).
Defined.

Definition scale_request : option ProtoGroupConfig := Some (mkProtoGroupConfig "" 3 "" "" ∅ ∅).

(** The service after the operator scaled [web]. *)
Definition scaled : GroupService := (UpsertGroup (GE := shard_env demo_config 0) operator_info "web" scale_request watched).1.

Definition scaled_groups : DynGroups := set_group "acme" "web" {| zero_group with gc_size := Some 3 |} ∅.

Lemma scaled_only : only_changed "acme" "web" ∅ scaled_groups.
Proof.
  intros t' k Hne. unfold scaled_groups. rewrite group_in_set. rewrite decide_False; [done|]. intros [-> ->]. done.
Qed.

Lemma group_changes_keep_views_witness :
  current (H := shard_env demo_config 0) "acme" (view_of 0 scaled) (gs_loader scaled) /\
  gst_size <$> view_of 0 scaled !! "web" = Some 3.
Proof.
  destruct watched_current as (Hok & _ & Hstr & Hcur).
  assert (l_groups (gs_loader watched) = Some ∅) as Hg by (vm_compute; reflexivity).
  assert (l_groups (gs_loader scaled) = Some scaled_groups) as Hg' by (vm_compute; reflexivity).
  assert (exists status, UpsertGroup (GE := shard_env demo_config 0) operator_info "web" scale_request watched = (scaled, Reply status)) as [status Hr].
  { eexists. unfold scaled. apply reply_run. vm_compute. reflexivity. }
  split; [|vm_compute; reflexivity].
  exact (proj2 (group_changes_keep_views (GE := shard_env demo_config 0) (HL := shard_laws _ _) operator_info "web" watched scaled
    ∅ scaled_groups "acme" 0 (fun _ => eq_refl) Hok Hstr Hg Hcur (or_introl (ex_intro _ scale_request (ex_intro _ status Hr))) Hg' scaled_only)).
Defined.

(** The administrator uploads the grown configuration and refreshes. *)
Definition refreshed : GroupService := (RefreshConfig (GE := shard_env grown_config 0) watched).1.

Lemma watched_consistent : @consistent (@ge_loader (shard_env demo_config 0)) (gs_loader watched).
Proof.
  destruct watched_current as (_ & Hm & _). apply (consistent_memory (LE := @ge_loader (shard_env demo_config 0)) started); [done|].
  apply started_consistent.
Qed.

(** The digests do not depend on the configuration of the environment. *)
Lemma watched_consistent_grown n : @consistent (@ge_loader (shard_env grown_config n)) (gs_loader watched).
Proof. exact watched_consistent. Qed.

Lemma watched_current_grown n : current (H := shard_env grown_config n) "acme" (view_of 0 watched) (gs_loader watched).
Proof. destruct watched_current as (_ & _ & _ & Hcur). exact Hcur. Qed.

Lemma hidden_none l t k cfg : l_config l = Some cfg -> c_nat cfg = ∅ -> hidden l t k = false.
Proof. intros Hc Hn. unfold hidden, is_nat_group. by rewrite Hc, Hn, lookup_empty. Qed.

Lemma refresh_keeps_views_witness :
  current (H := shard_env grown_config 0) "acme" (view_of 0 refreshed) (gs_loader refreshed) /\
  gst_size <$> view_of 0 refreshed !! "web" = Some 2 /\ gst_size <$> view_of 0 refreshed !! "db" = Some 1.
Proof.
  destruct watched_current as (Hok & _ & Hstr & _).
  assert (exists resp, RefreshConfig (GE := shard_env grown_config 0) watched = (refreshed, Reply resp)) as [resp Hr].
  { eexists. unfold refreshed. apply reply_run. vm_compute. reflexivity. }
  assert (forall k, hidden (gs_loader refreshed) "acme" k = hidden (gs_loader watched) "acme" k) as Hhid.
  { intros k. rewrite (hidden_none _ _ _ (detected grown_config)), (hidden_none _ _ _ (detected demo_config)); [done|vm_compute; reflexivity..]. }
  split; [|split; vm_compute; reflexivity].
  exact (proj1 (proj2 (refresh_keeps_views (GE := shard_env grown_config 0) (HL := shard_laws _ _) watched refreshed resp "acme" 0
    (fun _ => eq_refl) Hok (watched_consistent_grown 0) Hstr (watched_current_grown 0) Hr Hhid))).
Defined.

(** Publishing the proxy configuration fails the first time. *)
Definition failed_tick : nat := S (s_tick (l_store (gs_loader (RefreshConfig (GE := shard_env grown_config 1000) watched).1))).
Definition half_refreshed : GroupService := (RefreshConfig (GE := shard_env grown_config failed_tick) watched).1.
Definition retried : GroupService := (RefreshConfig (GE := shard_env grown_config failed_tick) half_refreshed).1.

Lemma effective_same `{GroupEnv} l l' t k :
  l_config l' = l_config l -> l_groups l' = l_groups l -> effective_etag l' t k = effective_etag l t k.
Proof. intros Hc Hg. unfold effective_etag. by rewrite Hc, Hg. Qed.

Lemma refresh_retry_silent_witness :
  view_of 0 retried = view_of 0 watched /\ view_of 0 retried !! "db" = None /\
  effective_etag (H := shard_env grown_config 0) (gs_loader retried) "acme" "db" = Some "db:1".
Proof.
  destruct watched_current as (Hok & _ & Hstr & _).
  assert (exists code msg, RefreshConfig (GE := shard_env grown_config failed_tick) watched = (half_refreshed, Fail code msg)) as (code & msg & Hr1).
  { eexists _, _. unfold half_refreshed. apply fail_run. vm_compute. reflexivity. }
  assert (exists resp, RefreshConfig (GE := shard_env grown_config failed_tick) half_refreshed = (retried, Reply resp)) as [resp Hr2].
  { eexists. unfold retried. apply reply_run. vm_compute. reflexivity. }
  assert (l_config (gs_loader retried) = l_config (gs_loader half_refreshed)) as Hc by (vm_compute; reflexivity).
  assert (l_groups (gs_loader retried) = l_groups (gs_loader half_refreshed)) as Hg by (vm_compute; reflexivity).
  split; [|split; vm_compute; reflexivity].
  exact (refresh_retry_silent (GE := shard_env grown_config failed_tick) (HL := shard_laws _ _) watched half_refreshed code msg retried resp
    "acme" 0 (fun _ => eq_refl) Hok (watched_consistent_grown failed_tick) Hstr Hr1 Hr2
    (fun k => effective_same (H := shard_env grown_config failed_tick) _ _ "acme" k Hc Hg)).
Defined.
