(* ===== verification/TunnelControl.v ===== *)
(** * Tunnel control ([src/internal/server/tunnelcontrol/controller.go])

    While it leads, the server serves one tunnel supervisor on a local socket: it
    streams the desired state of every tunnel with a revision, renews the leases of
    running tunnels, and records the states the supervisor reports.  [SetDesired] and
    [Wait] are called by the tenant cutover, [Start] and [Stop] by leadership.

    [Controller] holds the fields guarded by the mutex; each critical section is one
    function.  Callers of [Wait] and connected streams ([Manage]) are program counters
    over it, and [step] interleaves them in any order, with any messages from any
    supervisor and any failures of the stream.  Go compares channels and sessions by
    pointer; here they carry a reference from one allocator.  A stream's context may end
    at any time, so [session.cancel] leaves no trace. *)

From S2P Require Import Prelude.
From stdpp Require Import relations.

#[local] Open Scope Z_scope.

(** [proto.TunnelDesiredState_State] and [proto.TunnelStatus_State]. *)
Inductive TunnelDesired := TUNNEL_DESIRED_STATE_UNSPECIFIED | TUNNEL_DESIRED_STATE_RUNNING | TUNNEL_DESIRED_STATE_STOPPED.

Inductive TunnelStatus :=
  | TUNNEL_STATUS_STATE_UNSPECIFIED | TUNNEL_STATUS_STATE_STARTING | TUNNEL_STATUS_STATE_READY
  | TUNNEL_STATUS_STATE_FAILED | TUNNEL_STATUS_STATE_STOPPED.

#[global] Instance TunnelDesired_eq_dec : EqDecision TunnelDesired.
Proof. solve_decision. Defined.

#[global] Instance TunnelStatus_eq_dec : EqDecision TunnelStatus.
Proof. solve_decision. Defined.

Module Tunnels.

(** [tunnelcontrol.ErrUnavailable]. *)
Definition ErrUnavailable : err := ErrMsg "tunnel supervisor unavailable".

(** [desired]: a tunnel's requested state and revision; [key]: a tunnel revision. *)
Definition Desired : Type := TunnelDesired * Z.
Definition Key : Type := string * Z.

(** [Controller]: the fields guarded by [mu].  [updates] are the sessions whose channel
    (capacity one) holds a token, [closed] the channels of waiters closed so far. *)
Record Controller := mkController {
  c_desired : gmap string Desired;
  c_next : Z;
  c_results : gmap Key (res TunnelStatus);
  c_waiters : gmap Key (list nat);
  c_active : bool;
  c_session : option nat;
  c_updates : gset nat;
  c_closed : gset nat;
}.

(** [New]. *)
Definition New (socket : string) : res Controller :=
  if bool_decide (socket = "") then Err (ErrMsg "tunnel control socket is required")
  else Ok (mkController ∅ 0 ∅ ∅ false None ∅ ∅).

Definition uint64 (z : Z) : Z := z `mod` 2 ^ 64.

(** [nextRevisionLocked]. *)
Definition nextRevisionLocked (next : Z) : Z :=
  let n := uint64 (next + 1) in if bool_decide (n = 0) then uint64 (n + 1) else n.

(** [signalLocked]: a send that does not block. *)
Definition signalLocked (c : Controller) : Controller :=
  match c_session c with
  | None => c
  | Some s => {| c with c_updates := {[s]} ∪ c_updates c |}
  end.

(** [Start]; [listening] says whether the socket could be bound. *)
Definition Start (listening : res unit) (c : Controller) : Controller * res unit :=
  if c_active c then (c, Err (ErrMsg "tunnel controller already started"))
  else match listening with
  | Err e => (c, Err e)
  | Ok _ => ({| c with c_active := true |}, Ok tt)
  end.

(** The revision in force is kept: not completed yet, or completed without failure. *)
Definition keep_revision (c : Controller) (tunnelName : string) (revision : Z) : bool :=
  match c_results c !! (tunnelName, revision) with
  | None => true
  | Some (Err _) => false
  | Some (Ok st) => negb (bool_decide (st = TUNNEL_STATUS_STATE_FAILED))
  end.

(** [SetDesired]. *)
Definition SetDesired (tunnelName : string) (state : TunnelDesired) (c : Controller) : Controller * res Z :=
  if bool_decide (tunnelName = "") then (c, Err (ErrMsg "tunnel name is required"))
  else if negb (bool_decide (state = TUNNEL_DESIRED_STATE_RUNNING)) && negb (bool_decide (state = TUNNEL_DESIRED_STATE_STOPPED))
  then (c, Err (ErrMsg "desired state must be RUNNING or STOPPED"))
  else if negb (c_active c) then (c, Err ErrUnavailable)
  else
    let set :=
      let revision := nextRevisionLocked (c_next c) in
      (signalLocked {| c with c_next := revision; c_desired := <[tunnelName := (state, revision)]> (c_desired c) |}, Ok revision) in
    match c_desired c !! tunnelName with
    | Some (current, revision) =>
        if bool_decide (current = state) && keep_revision c tunnelName revision then (c, Ok revision) else set
    | None => set
    end.

(** First critical section of [Stop]: every running tunnel is to stop.  [order] is the
    order in which the map is visited.  Returns the revisions to wait for. *)
Definition stop_one (acc : Controller * list Key) (tunnelName : string) : Controller * list Key :=
  let '(c, stops) := acc in
  match c_desired c !! tunnelName with
  | Some (TUNNEL_DESIRED_STATE_RUNNING, _) =>
      let revision := nextRevisionLocked (c_next c) in
      ({| c with c_next := revision; c_desired := <[tunnelName := (TUNNEL_DESIRED_STATE_STOPPED, revision)]> (c_desired c) |},
       stops ++ [(tunnelName, revision)])
  | _ => acc
  end.

Definition stop_begin (order : list string) (c : Controller) : option (Controller * list Key) :=
  if negb (c_active c) then None
  else let '(c, stops) := foldl stop_one (c, []) order in Some (signalLocked c, stops).

(** [failPendingLocked]. *)
Definition failPendingLocked (e : err) (c : Controller) : Controller :=
  let pending := filter (fun kw => c_results c !! kw.1 = None) (c_waiters c) in
  {| c with c_results := fmap (fun _ => Err e) pending ∪ c_results c;
            c_waiters := c_waiters c ∖ pending;
            c_closed := list_to_set (w ← map_to_list pending; w.2) ∪ c_closed c |}.

(** Last critical section of [Stop]. *)
Definition stop_end (c : Controller) : Controller :=
  failPendingLocked ErrUnavailable {| c with c_active := false; c_session := None |}.

(** ** [Wait] *)

(** Where a call of [Wait] is: about to look, blocked on a channel, removing itself, or
    returned. *)
Inductive WaitPc :=
  | Looking
  | Blocked (ch : nat)
  | Leaving (ch : nat) (e : err)
  | Returned (r : res TunnelStatus).

(** The critical section of the loop: the result if there is one, else a new waiter
    with the channel [ch]. *)
Definition wait_look (k : Key) (ch : nat) (c : Controller) : Controller * WaitPc :=
  match c_results c !! k with
  | Some r => (c, Returned r)
  | None =>
      if negb (c_active c) then (c, Returned (Err ErrUnavailable))
      else ({| c with c_waiters := <[k := default [] (c_waiters c !! k) ++ [ch]]> (c_waiters c) |}, Blocked ch)
  end.

(** [removeWaiter]. *)
Fixpoint remove_first (ch : nat) (l : list nat) : list nat :=
  match l with
  | [] => []
  | x :: l' => if bool_decide (x = ch) then l' else x :: remove_first ch l'
  end.

Definition removeWaiter (k : Key) (ch : nat) (c : Controller) : Controller :=
  let waiters := remove_first ch (default [] (c_waiters c !! k)) in
  if bool_decide (waiters = []) then {| c with c_waiters := delete k (c_waiters c) |}
  else {| c with c_waiters := <[k := waiters]> (c_waiters c) |}.

(** ** [Manage] *)

(** [proto.TunnelStatus] as it arrives, and [proto.TunnelDesiredState] as it is sent. *)
Record StatusMessage := mkStatusMessage {
  sm_tunnel_name : string;
  sm_revision : Z;
  sm_state : TunnelStatus;
}.

Record DesiredMessage := mkDesiredMessage {
  dm_tunnel_name : string;
  dm_revision : Z;
  dm_state : TunnelDesired;
  dm_lease_seconds : Z;
}.

#[global] Instance DesiredMessage_eq_dec : EqDecision DesiredMessage.
Proof. solve_decision. Defined.

Definition leaseDuration : Z := 30 * second.
Definition leaseSeconds : Z := ((leaseDuration + second - 1) / second) `mod` 2 ^ 32.

(** [recordStatus]. *)
Definition record_result (k : Key) (st : TunnelStatus) (c : Controller) : Controller :=
  {| c with c_results := <[k := Ok st]> (c_results c);
            c_closed := list_to_set (default [] (c_waiters c !! k)) ∪ c_closed c;
            c_waiters := delete k (c_waiters c) |}.

Definition recordStatus (m : StatusMessage) (c : Controller) : Controller :=
  if bool_decide (sm_tunnel_name m = "") || bool_decide (sm_revision m = 0) then c
  else match c_desired c !! sm_tunnel_name m with
  | None => c
  | Some (state, revision) =>
      let k := (sm_tunnel_name m, sm_revision m) in
      if bool_decide (revision ≠ sm_revision m) then c
      else match sm_state m with
      | TUNNEL_STATUS_STATE_STARTING =>
          if bool_decide (state = TUNNEL_DESIRED_STATE_RUNNING) then {| c with c_results := delete k (c_results c) |} else c
      | TUNNEL_STATUS_STATE_FAILED => record_result k (sm_state m) c
      | TUNNEL_STATUS_STATE_READY =>
          if bool_decide (state = TUNNEL_DESIRED_STATE_RUNNING) then record_result k (sm_state m) c else c
      | TUNNEL_STATUS_STATE_STOPPED =>
          if bool_decide (state = TUNNEL_DESIRED_STATE_STOPPED) then record_result k (sm_state m) c else c
      | TUNNEL_STATUS_STATE_UNSPECIFIED => c
      end
  end.

(** The critical section and the messages of [sendDesired]. *)
Definition desired_message (item : string * Desired) : DesiredMessage :=
  let '(name, (state, revision)) := item in
  mkDesiredMessage name revision state (if bool_decide (state = TUNNEL_DESIRED_STATE_RUNNING) then leaseSeconds else 0).

Definition sendDesired_items (includeStopped : bool) (c : Controller) : gmap string Desired :=
  filter (fun item => includeStopped = true \/ item.2.1 = TUNNEL_DESIRED_STATE_RUNNING) (c_desired c).

(** Where a call of [Manage] is: about to snapshot the desired states, sending, in the
    select, returning, or gone. *)
Inductive ManagePc :=
  | Snapshot (includeStopped : bool)
  | Sending (rest : list DesiredMessage)
  | Selecting
  | Closing
  | Gone.

(** A stream and the messages sent on it, oldest first. *)
Record Stream := mkStream {
  s_pc : ManagePc;
  s_sent : list DesiredMessage;
}.

Definition goto (pc : ManagePc) (s : Stream) : Stream := {| s with s_pc := pc |}.

(** The first critical section of [Manage]: the session is accepted or refused. *)
Definition accept (session : nat) (c : Controller) : res Controller :=
  if negb (c_active c) then Err (ErrMsg "server is not shard leader")
  else match c_session c with
  | Some _ => Err (ErrMsg "tunnel supervisor already connected")
  | None => Ok {| c with c_session := Some session |}
  end.

(** The deferred critical section. *)
Definition release (session : nat) (c : Controller) : Controller :=
  if bool_decide (c_session c = Some session) then {| c with c_session := None |} else c.

Inductive StreamEvent :=
  | Proceed (order : list DesiredMessage)   (* run up to the next point that waits *)
  | SendOk
  | SendErr
  | Updated                                 (* <-sess.updates *)
  | Tick                                    (* <-ticker.C *)
  | Received (m : StatusMessage)            (* a status from the supervisor *)
  | Ended.                                  (* <-ctx.Done(), or Recv failed *)

(** One step of [Manage]. *)
Definition stream_next (session : nat) (ev : StreamEvent) (s : Stream) (c : Controller) : option (Controller * Stream) :=
  match s_pc s, ev with
  | Snapshot b, Proceed order =>
      if bool_decide (order ≡ₚ desired_message <$> map_to_list (sendDesired_items b c)) then Some (c, goto (Sending order) s) else None
  | Sending (m :: rest), SendOk => Some (c, mkStream (Sending rest) (s_sent s ++ [m]))
  | Sending (m :: rest), SendErr => Some (c, goto Closing s)
  | Sending [], Proceed _ => Some (c, goto Selecting s)
  | Selecting, Updated =>
      if bool_decide (session ∈ c_updates c)
      then Some ({| c with c_updates := c_updates c ∖ {[session]} |}, goto (Snapshot true) s) else None
  | Selecting, Tick => Some (c, goto (Snapshot false) s)
  | Selecting, Received m => Some (recordStatus m c, s)
  | Selecting, Ended => Some (c, goto Closing s)
  | Closing, Proceed _ => Some (release session c, goto Gone s)
  | _, _ => None
  end.

(** ** The system *)

(** A call of [Wait]. *)
Record Waiter := mkWaiter {
  wt_key : Key;
  wt_pc : WaitPc;
}.

(** What was asked for and what supervisors reported, oldest first. *)
Inductive Entry :=
  | Asked (tunnelName : string) (state : TunnelDesired) (revision : Z)
  | Reported (m : StatusMessage).

(** Streams by their session, waiters by a reference; [y_stops] calls of [Stop] are
    between their critical sections. *)
Record System := mkSystem {
  y_controller : Controller;
  y_streams : gmap nat Stream;
  y_waiters : gmap nat Waiter;
  y_stops : nat;
  y_log : list Entry;
  y_ref : nat;
}.

Definition initial : System := mkSystem (mkController ∅ 0 ∅ ∅ false None ∅ ∅) ∅ ∅ 0 [] 0.

(** The revision [SetDesired] handed out, if it is new, and those of [Stop]. *)
Definition asked_set (name : string) (state : TunnelDesired) (old new : Controller) : list Entry :=
  if bool_decide (c_next new = c_next old) then [] else [Asked name state (c_next new)].

Definition asked_stops (stops : list Key) : list Entry := (fun k => Asked k.1 TUNNEL_DESIRED_STATE_STOPPED k.2) <$> stops.

Definition reported (ev : StreamEvent) : list Entry := match ev with Received m => [Reported m] | _ => [] end.

Inductive step : System -> System -> Prop :=
  | step_start listening c r y :
      Start listening (y_controller y) = (c, r) -> step y {| y with y_controller := c |}
  | step_set name state c r y :
      SetDesired name state (y_controller y) = (c, r) ->
      step y {| y with y_controller := c; y_log := y_log y ++ asked_set name state (y_controller y) c |}
  | step_stop_begin order c stops y :
      order ≡ₚ (map_to_list (c_desired (y_controller y))).*1 ->
      stop_begin order (y_controller y) = Some (c, stops) ->
      step y {| y with y_controller := c; y_stops := S (y_stops y); y_log := y_log y ++ asked_stops stops |}
  | step_stop_end n y :
      y_stops y = S n -> step y {| y with y_controller := stop_end (y_controller y); y_stops := n |}
  | step_wait k y :
      step y {| y with y_waiters := <[y_ref y := mkWaiter k Looking]> (y_waiters y); y_ref := S (y_ref y) |}
  | step_look w k c pc y :
      y_waiters y !! w = Some (mkWaiter k Looking) -> wait_look k (y_ref y) (y_controller y) = (c, pc) ->
      step y {| y with y_controller := c; y_waiters := <[w := mkWaiter k pc]> (y_waiters y); y_ref := S (y_ref y) |}
  | step_woken w k ch y :
      y_waiters y !! w = Some (mkWaiter k (Blocked ch)) -> ch ∈ c_closed (y_controller y) ->
      step y {| y with y_waiters := <[w := mkWaiter k Looking]> (y_waiters y) |}
  | step_cancelled w k ch e y :
      y_waiters y !! w = Some (mkWaiter k (Blocked ch)) ->
      step y {| y with y_waiters := <[w := mkWaiter k (Leaving ch e)]> (y_waiters y) |}
  | step_leave w k ch e y :
      y_waiters y !! w = Some (mkWaiter k (Leaving ch e)) ->
      step y {| y with y_controller := removeWaiter k ch (y_controller y); y_waiters := <[w := mkWaiter k (Returned (Err e))]> (y_waiters y) |}
  | step_connect c y :
      accept (y_ref y) (y_controller y) = Ok c ->
      step y {| y with y_controller := c; y_streams := <[y_ref y := mkStream (Snapshot true) []]> (y_streams y); y_ref := S (y_ref y) |}
  | step_stream n s ev c s' y :
      y_streams y !! n = Some s -> stream_next n ev s (y_controller y) = Some (c, s') ->
      step y {| y with y_controller := c; y_streams := <[n := s']> (y_streams y); y_log := y_log y ++ reported ev |}.

Definition reachable (y : System) : Prop := rtc step initial y.
End Tunnels.
