(* ===== verification/TunnelControlFacts.v ===== *)
(** * Tunnel control: what every interleaving keeps

    Invariants of [TunnelControl.v] by induction on steps: no waiter is forgotten, a
    result is what a supervisor reported for a revision that was asked for, revisions
    are never reused, and every change of the desired states reaches the connected
    supervisor. *)

From S2P Require Import Prelude TunnelControl.
From stdpp Require Import relations.
Import Tunnels.

#[local] Open Scope Z_scope.

(** An invariant holds in every reachable state. *)
Lemma reachable_inv (I : System -> Prop) :
  I initial -> (forall y y', I y -> step y y' -> I y') -> forall y, reachable y -> I y.
Proof. intros Hi Hs. apply (rtc_ind_r I initial); [done|]. intros y y' _ Hst Hy. by eapply Hs. Qed.

(** ** Critical sections *)

Lemma signal_fields c :
  c_desired (signalLocked c) = c_desired c /\ c_next (signalLocked c) = c_next c /\ c_results (signalLocked c) = c_results c /\
  c_waiters (signalLocked c) = c_waiters c /\ c_active (signalLocked c) = c_active c /\ c_session (signalLocked c) = c_session c /\
  c_closed (signalLocked c) = c_closed c /\
  c_updates (signalLocked c) = (match c_session c with Some s => {[s]} ∪ c_updates c | None => c_updates c end).
Proof. unfold signalLocked. destruct (c_session c) eqn:E; simpl; rewrite ?E; done. Qed.

(** [SetDesired] changes nothing, or records a new revision and signals. *)
Lemma SetDesired_cases name state c c' r :
  SetDesired name state c = (c', r) ->
  (c' = c /\ forall rev, r = Ok rev -> c_desired c !! name = Some (state, rev)) \/
  (c_active c = true /\ (state = TUNNEL_DESIRED_STATE_RUNNING \/ state = TUNNEL_DESIRED_STATE_STOPPED) /\
   r = Ok (nextRevisionLocked (c_next c)) /\
   c' = signalLocked {| c with c_next := nextRevisionLocked (c_next c);
                              c_desired := <[name := (state, nextRevisionLocked (c_next c))]> (c_desired c) |}).
Proof.
  unfold SetDesired. case_bool_decide; [intros [= <- <-]; by left|].
  destruct (negb _ && negb _) eqn:Hst; [intros [= <- <-]; by left|].
  assert (state = TUNNEL_DESIRED_STATE_RUNNING \/ state = TUNNEL_DESIRED_STATE_STOPPED) as Hs by (by destruct state; auto).
  destruct (c_active c) eqn:Ha; simpl; [|intros [= <- <-]; by left].
  destruct (c_desired c !! name) as [[cur rev]|] eqn:Hd; [|intros [= <- <-]; right; done].
  destruct (bool_decide (cur = state) && _) eqn:Hk; intros [= <- <-]; [left|right; done].
  apply andb_true_iff in Hk as [->%bool_decide_eq_true _]. split; [done|]. by intros ? [= <-].
Qed.

(** The controller with other desired states and revisions only. *)
Definition same_but_desired (c c' : Controller) : Prop :=
  c_results c' = c_results c /\ c_waiters c' = c_waiters c /\ c_active c' = c_active c /\ c_session c' = c_session c /\
  c_closed c' = c_closed c.

Lemma stop_one_same order c stops : same_but_desired c (foldl stop_one (c, stops) order).1 /\ c_updates (foldl stop_one (c, stops) order).1 = c_updates c.
Proof.
  revert c stops. induction order as [|n order IH]; intros c stops; simpl; [done|].
  destruct (c_desired c !! n) as [[[] rev]|]; try apply IH.
  destruct (IH {| c with c_next := nextRevisionLocked (c_next c);
    c_desired := <[n := (TUNNEL_DESIRED_STATE_STOPPED, nextRevisionLocked (c_next c))]> (c_desired c) |} (stops ++ [(n, nextRevisionLocked (c_next c))])) as [Hs Hu].
  done.
Qed.

Lemma stop_begin_same order c c' stops :
  stop_begin order c = Some (c', stops) -> same_but_desired c c' /\ c_active c = true /\
    c_updates c' = (match c_session c with Some s => {[s]} ∪ c_updates c | None => c_updates c end) /\
    c_desired c' = c_desired (foldl stop_one (c, []) order).1 /\ c_next c' = c_next (foldl stop_one (c, []) order).1 /\
    stops = (foldl stop_one (c, []) order).2.
Proof.
  unfold stop_begin. destruct (c_active c) eqn:Ha; simpl; [|done].
  pose proof (stop_one_same order c []) as [(H1 & H2 & H3 & H4 & H5) Hu]. destruct (foldl stop_one (c, []) order) as [c1 l]. simpl in *.
  intros [= <- <-]. destruct (signal_fields c1) as (Hd & Hn & Hr & Hw & Hact & Hs & Hc & Hup).
  rewrite Hd, Hn, Hup, H4, Hu. unfold same_but_desired. rewrite Hr, Hw, Hact, Hs, Hc. split_and!; done.
Qed.

Lemma recordStatus_cases m c :
  let k := (sm_tunnel_name m, sm_revision m) in
  recordStatus m c = c \/ recordStatus m c = {| c with c_results := delete k (c_results c) |} \/
  (recordStatus m c = record_result k (sm_state m) c /\ exists d, c_desired c !! k.1 = Some (d, k.2) /\
     (sm_state m = TUNNEL_STATUS_STATE_FAILED \/ (sm_state m = TUNNEL_STATUS_STATE_READY /\ d = TUNNEL_DESIRED_STATE_RUNNING) \/
      (sm_state m = TUNNEL_STATUS_STATE_STOPPED /\ d = TUNNEL_DESIRED_STATE_STOPPED))).
Proof.
  intros k. unfold recordStatus. destruct (_ || _); [by left|].
  destruct (c_desired c !! sm_tunnel_name m) as [[d rev]|] eqn:Hd; [|by left].
  case_bool_decide as Hrev; [by left|]. subst rev.
  destruct (sm_state m) eqn:Hm; try (by left); try (case_bool_decide; [|by left]); subst; eauto 10.
Qed.

(** What a message does to the fields it may touch. *)
Lemma recordStatus_fields m c :
  c_desired (recordStatus m c) = c_desired c /\ c_next (recordStatus m c) = c_next c /\ c_active (recordStatus m c) = c_active c /\
  c_session (recordStatus m c) = c_session c /\ c_updates (recordStatus m c) = c_updates c.
Proof. destruct (recordStatus_cases m c) as [-> |[-> |[-> _]]]; done. Qed.

(** ** Waiters *)

(** The channel a waiter holds. *)
Definition holds_chan (pc : WaitPc) (ch : nat) : Prop := pc = Blocked ch \/ exists e, pc = Leaving ch e.

Record wait_inv (y : System) : Prop := mkWaitInv {
  wi_listed : forall w k ch, y_waiters y !! w = Some (mkWaiter k (Blocked ch)) ->
    ch ∈ c_closed (y_controller y) \/ ch ∈ default [] (c_waiters (y_controller y) !! k);
  wi_open : forall k l, c_waiters (y_controller y) !! k = Some l ->
    c_results (y_controller y) !! k = None /\ c_active (y_controller y) = true;
  wi_unique : forall w1 w2 k1 k2 pc1 pc2 ch, y_waiters y !! w1 = Some (mkWaiter k1 pc1) -> y_waiters y !! w2 = Some (mkWaiter k2 pc2) ->
    holds_chan pc1 ch -> holds_chan pc2 ch -> w1 = w2;
  wi_fresh : forall w k pc ch, y_waiters y !! w = Some (mkWaiter k pc) -> holds_chan pc ch -> (ch < y_ref y)%nat;
}.

(** A step of the controller that leaves the calls of [Wait] alone: it keeps or closes
    their channels, and keeps the lists free of completed revisions. *)
Definition wait_safe (c c' : Controller) : Prop :=
  (forall k ch, ch ∈ default [] (c_waiters c !! k) -> ch ∈ c_closed c' \/ ch ∈ default [] (c_waiters c' !! k)) /\
  c_closed c ⊆ c_closed c' /\
  ((forall k l, c_waiters c !! k = Some l -> c_results c !! k = None /\ c_active c = true) ->
   forall k l, c_waiters c' !! k = Some l -> c_results c' !! k = None /\ c_active c' = true).

Lemma wait_safe_same c c' : same_but_desired c c' -> wait_safe c c'.
Proof. intros (Hr & Hw & Ha & _ & Hc). unfold wait_safe. rewrite Hr, Hw, Ha, Hc. split_and!; auto. Qed.

Lemma wait_safe_refl c : wait_safe c c.
Proof. by apply wait_safe_same. Qed.

Lemma wait_safe_set name state c c' r : SetDesired name state c = (c', r) -> wait_safe c c'.
Proof.
  intros [[-> _]|(_ & _ & _ & ->)]%SetDesired_cases; [apply wait_safe_refl|].
  apply wait_safe_same. unfold same_but_desired.
  match goal with |- context [signalLocked ?x] => destruct (signal_fields x) as (_ & _ & -> & -> & -> & -> & -> & _) end. done.
Qed.

Lemma wait_safe_record m c : wait_safe c (recordStatus m c).
Proof.
  destruct (recordStatus_cases m c) as [-> |[-> |[-> _]]]; [apply wait_safe_refl|..]; unfold wait_safe, record_result; simpl.
  - split_and!; [auto|done|]. intros Hw k l Hk. destruct (Hw k l Hk) as [Hr Ha]. split; [|done].
    rewrite lookup_delete. by case_decide.
  - set (k0 := (sm_tunnel_name m, sm_revision m)). split_and!; [|set_solver|].
    + intros k ch Hin. destruct (decide (k = k0)) as [->|Hne]; [left; set_solver|right]. by rewrite lookup_delete_ne.
    + intros Hw k l Hk. apply lookup_delete_Some in Hk as [Hne Hk]. rewrite lookup_insert_ne by done. eauto.
Qed.

Lemma wait_safe_stop_end c : 
  (forall k l, c_waiters c !! k = Some l -> c_results c !! k = None /\ c_active c = true) -> wait_safe c (stop_end c).
Proof.
  intros Hw. unfold stop_end, failPendingLocked. simpl.
  set (pending := filter (fun kw : Key * list nat => c_results c !! kw.1 = None) (c_waiters c)).
  assert (pending = c_waiters c) as Hp.
  { apply map_filter_id. intros k l Hk. by destruct (Hw k l Hk). }
  unfold wait_safe. simpl. rewrite Hp. split_and!; [|set_solver|].
  - intros k ch Hin. left. apply elem_of_union_l, elem_of_list_to_set, list_elem_of_bind.
    destruct (c_waiters c !! k) as [l|] eqn:Hk; simpl in Hin; [|set_solver]. exists (k, l). split; [done|]. by apply elem_of_map_to_list.
  - intros _ k l Hk. by rewrite map_difference_diag, lookup_empty in Hk.
Qed.

(** Steps that do not touch calls of [Wait] keep the invariant. *)
Lemma wait_inv_safe y y' :
  wait_inv y -> y_waiters y' = y_waiters y -> (y_ref y <= y_ref y')%nat -> wait_safe (y_controller y) (y_controller y') -> wait_inv y'.
Proof.
  intros [Hl Ho Hu Hf] Hw Hr (Hs1 & Hs2 & Hs3). split; rewrite ?Hw.
  - intros w k ch Hk. destruct (Hl w k ch Hk) as [Hc|Hc]; [left; by apply Hs2|by apply Hs1].
  - by apply Hs3.
  - done.
  - intros w k pc ch Hk Hh. pose proof (Hf w k pc ch Hk Hh). lia.
Qed.

Lemma wait_safe_stream n ev s c c' s' : stream_next n ev s c = Some (c', s') -> wait_safe c c'.
Proof.
  unfold stream_next. destruct (s_pc s) as [b|[|m rest]| | |], ev; try done;
    try (case_bool_decide; [|done]); intros [= <- <-]; try apply wait_safe_refl.
  - by apply wait_safe_same.
  - apply wait_safe_record.
  - unfold release. case_bool_decide; [|apply wait_safe_refl]. split_and!; simpl; auto.
Qed.

(** A waiter moves to [pc], which holds no channel the others hold. *)
Lemma wait_inv_move y y' w k0 pc0 pc :
  wait_inv y -> y_waiters y !! w = Some (mkWaiter k0 pc0) ->
  y_waiters y' = <[w := mkWaiter k0 pc]> (y_waiters y) -> (y_ref y <= y_ref y')%nat ->
  (forall k ch, ch ∈ c_closed (y_controller y) \/ ch ∈ default [] (c_waiters (y_controller y) !! k) -> ~ holds_chan pc0 ch ->
     ch ∈ c_closed (y_controller y') \/ ch ∈ default [] (c_waiters (y_controller y') !! k)) ->
  (forall ch, pc = Blocked ch -> ch ∈ c_closed (y_controller y') \/ ch ∈ default [] (c_waiters (y_controller y') !! k0)) ->
  (forall k l, c_waiters (y_controller y') !! k = Some l ->
     c_results (y_controller y') !! k = None /\ c_active (y_controller y') = true) ->
  (forall ch, holds_chan pc ch -> holds_chan pc0 ch \/ (y_ref y <= ch < y_ref y')%nat) -> wait_inv y'.
Proof.
  intros [Hl Ho Hu Hf] Hw Hw' Hr Hkeep Hnew Hopen Hch. split; rewrite ?Hw'.
  - intros w1 k ch [[<- [= <- Hpc]]|[Hne Hk]]%lookup_insert_Some; [by apply Hnew|].
    apply Hkeep; [by eapply Hl|]. intros Hh. apply Hne. symmetry. eapply (Hu w1 w); [done..|by left|done].
  - done.
  - intros w1 w2 k1 k2 pc1 pc2 ch [[<- [= <- <-]]|[Hne1 H1]]%lookup_insert_Some [[<- [= <- <-]]|[Hne2 H2]]%lookup_insert_Some Hh1 Hh2.
    + done.
    + destruct (Hch ch Hh1) as [Hh|Hlt]; [by eapply (Hu w w2)|]. pose proof (Hf w2 _ _ _ H2 Hh2). lia.
    + destruct (Hch ch Hh2) as [Hh|Hlt]; [by eapply (Hu w1 w)|]. pose proof (Hf w1 _ _ _ H1 Hh1). lia.
    + by eapply (Hu w1 w2).
  - intros w1 k pc1 ch [[<- [= <- <-]]|[Hne Hk]]%lookup_insert_Some Hh.
    + destruct (Hch ch Hh) as [Hh'|]; [|lia]. pose proof (Hf w _ _ _ Hw Hh'). lia.
    + pose proof (Hf w1 _ _ _ Hk Hh). lia.
Qed.

Lemma remove_first_elem x ch l : x ∈ l -> x ≠ ch -> x ∈ remove_first ch l.
Proof.
  induction l as [|z l IH]; simpl; [set_solver|]. intros [->|Hx]%elem_of_cons Hne.
  - rewrite bool_decide_eq_false_2 by done. by left.
  - case_bool_decide; [done|]. right. auto.
Qed.

Lemma wait_inv_look y w k c pc :
  wait_inv y -> y_waiters y !! w = Some (mkWaiter k Looking) -> wait_look k (y_ref y) (y_controller y) = (c, pc) ->
  wait_inv {| y with y_controller := c; y_waiters := <[w := mkWaiter k pc]> (y_waiters y); y_ref := S (y_ref y) |}.
Proof.
  intros Hi Hw. unfold wait_look. destruct (c_results (y_controller y) !! k) as [r|] eqn:Hr.
  { intros [= <- <-]. eapply (wait_inv_move y _ w k Looking); simpl; [done|done|done|lia|auto|done|apply Hi|].
    intros ch [?|[? ?]]; done. }
  destruct (c_active (y_controller y)) eqn:Ha; simpl; last first.
  { intros [= <- <-]. eapply (wait_inv_move y _ w k Looking); simpl; [done|done|done|lia|auto|done|apply Hi|].
    intros ch [?|[? ?]]; done. }
  intros [= <- <-]. eapply (wait_inv_move y _ w k Looking); simpl; [done|done|done|lia|..].
  - intros k1 ch [?|Hin] _; [by left|right]. destruct (decide (k1 = k)) as [->|]; [rewrite lookup_insert_eq; set_solver|by rewrite lookup_insert_ne].
  - intros ch [= <-]. right. rewrite lookup_insert_eq. set_solver.
  - intros k1 l. rewrite lookup_insert_Some. intros [[<- _]|[_ Hk]]; [done|]. by destruct (wi_open _ Hi _ _ Hk).
  - intros ch [[= <-]|[? ?]]; [right; lia|done].
Qed.

Lemma wait_inv_leave y w k ch e :
  wait_inv y -> y_waiters y !! w = Some (mkWaiter k (Leaving ch e)) ->
  wait_inv {| y with y_controller := removeWaiter k ch (y_controller y); y_waiters := <[w := mkWaiter k (Returned (Err e))]> (y_waiters y) |}.
Proof.
  intros Hi Hw. set (l := remove_first ch (default [] (c_waiters (y_controller y) !! k))).
  assert (c_waiters (removeWaiter k ch (y_controller y)) = (if bool_decide (l = []) then delete k else <[k := l]>) (c_waiters (y_controller y)) /\
    c_results (removeWaiter k ch (y_controller y)) = c_results (y_controller y) /\ c_active (removeWaiter k ch (y_controller y)) = c_active (y_controller y) /\
    c_closed (removeWaiter k ch (y_controller y)) = c_closed (y_controller y)) as (Hcw & Hcr & Hca & Hcc).
  { unfold removeWaiter. fold l. by destruct (bool_decide (l = [])). }
  eapply (wait_inv_move y _ w k (Leaving ch e)); simpl; rewrite ?Hcw, ?Hcr, ?Hca, ?Hcc; [done|done|done|lia| |done| |].
  - intros k1 ch1 [?|Hin] Hne; [by left|right]. destruct (decide (k1 = k)) as [->|Hk]; [|by case_bool_decide; rewrite ?lookup_delete_ne, ?lookup_insert_ne by done].
    assert (ch1 ∈ l) as Hl. { apply remove_first_elem; [done|]. intros ->. apply Hne. right. by exists e. }
    case_bool_decide as Hnil; [rewrite Hnil in Hl; set_solver|]. by rewrite lookup_insert_eq.
  - intros k1 l1. case_bool_decide as Hnil.
    + intros [_ Hk]%lookup_delete_Some. by eapply (wi_open _ Hi).
    + intros [[<- _]|[_ Hk]]%lookup_insert_Some; [|by eapply (wi_open _ Hi)].
      destruct (c_waiters (y_controller y) !! k) as [l0|] eqn:Hk; [by eapply (wi_open _ Hi)|]. done.
  - intros ch1 [?|[? ?]]; done.
Qed.

Lemma wait_inv_reachable y : reachable y -> wait_inv y.
Proof.
  apply reachable_inv.
  { split; simpl; intros *; rewrite ?lookup_empty; done. }
  intros y0 y1 Hi Hs. destruct Hs as [listening c r y0 Hst|name st c r y0 Hst|order c stops y0 Ho Hst|n y0 Hn|k y0|w k c pc y0 Hw Hl|
    w k ch y0 Hw Hc|w k ch e y0 Hw|w k ch e y0 Hw|c y0 Ha|n s ev c s' y0 Hs Hn].
  - eapply wait_inv_safe; simpl; [done|done|lia|]. unfold Start in Hst. destruct (c_active (y_controller y0)) eqn:Ha; [injection Hst as <- _; apply wait_safe_refl|].
    destruct listening; injection Hst as <- _; [|apply wait_safe_refl]. split_and!; simpl; [auto|done|].
    intros Hw k l Hk. destruct (Hw k l Hk) as [_ ?]. congruence.
  - eapply wait_inv_safe; simpl; [done|done|lia|]. by eapply wait_safe_set.
  - eapply wait_inv_safe; simpl; [done|done|lia|]. apply stop_begin_same in Hst as [? _]. by apply wait_safe_same.
  - eapply wait_inv_safe; simpl; [done|done|lia|]. apply wait_safe_stop_end, Hi.
  - destruct Hi as [Hl Ho Hu Hf]. split; simpl.
    + intros w k1 ch [[_ [=]]|[_ Hk]]%lookup_insert_Some. by eapply Hl.
    + done.
    + intros w1 w2 k1 k2 pc1 pc2 ch H1 H2 Hh1 Hh2.
      apply lookup_insert_Some in H1 as [[_ [= _ <-]]|[_ H1]]; [by destruct Hh1 as [?|[? ?]]|].
      apply lookup_insert_Some in H2 as [[_ [= _ <-]]|[_ H2]]; [by destruct Hh2 as [?|[? ?]]|]. by eapply (Hu w1 w2).
    + intros w k1 pc ch [[_ [= _ <-]]|[_ Hk]]%lookup_insert_Some Hh; [by destruct Hh as [?|[? ?]]|]. pose proof (Hf _ _ _ _ Hk Hh). lia.
  - by apply wait_inv_look.
  - eapply (wait_inv_move y0 _ w k (Blocked ch)); simpl; [done|done|done|lia|auto|done|apply Hi|]. intros ch1 [?|[? ?]]; done.
  - eapply (wait_inv_move y0 _ w k (Blocked ch)); simpl; [done|done|done|lia|auto|done|apply Hi|].
    intros ch1 [?|[e1 [= -> ->]]]; [done|left; by left].
  - by apply wait_inv_leave.
  - eapply wait_inv_safe; simpl; [done|done|lia|]. unfold accept in Ha. destruct (c_active _) eqn:Hact; [|done]. destruct (c_session _); [done|].
    simpl in Ha. injection Ha as <-. split_and!; simpl; [auto|done|]. intros Hx k l Hk. by destruct (Hx k l Hk).
  - eapply wait_inv_safe; simpl; [done|done|lia|]. by eapply wait_safe_stream.
Qed.

(** No forgotten waiter.  In every interleaving, a call of [Wait] that blocks on a
    revision that has a result, or on a controller whose term has ended, can go on: its
    channel has been closed.  So a recorded status reaches everybody who waits for it,
    and the end of a term releases everybody. *)
Theorem no_forgotten_waiter y w k ch :
  reachable y -> y_waiters y !! w = Some (mkWaiter k (Blocked ch)) ->
  is_Some (c_results (y_controller y) !! k) \/ c_active (y_controller y) = false -> ch ∈ c_closed (y_controller y).
Proof.
  intros Hy%wait_inv_reachable Hw Hc. destruct (wi_listed _ Hy w k ch Hw) as [|Hin]; [done|exfalso].
  destruct (c_waiters (y_controller y) !! k) as [l|] eqn:Hk; simpl in Hin; [|set_solver].
  destruct (wi_open _ Hy k l Hk) as [Hr Ha]. destruct Hc as [[r ?]|?]; congruence.
Qed.

(** ** Results and revisions *)

(** The state a report may complete. *)
Definition completes (st : TunnelStatus) (d : TunnelDesired) : Prop :=
  st = TUNNEL_STATUS_STATE_FAILED \/ (st = TUNNEL_STATUS_STATE_READY /\ d = TUNNEL_DESIRED_STATE_RUNNING) \/
  (st = TUNNEL_STATUS_STATE_STOPPED /\ d = TUNNEL_DESIRED_STATE_STOPPED).

Definition asks (log : list Entry) : list Z := omap (fun x => match x with Asked _ _ r => Some r | Reported _ => None end) log.

(** Fewer revisions than a 64-bit counter has values. *)
Definition few (log : list Entry) : Prop := Z.of_nat (length (asks log)) < 2 ^ 64 - 1.

(** Desired states were asked for, and revisions count up without reuse. *)
Record ask_inv (desired : gmap string Desired) (next : Z) (log : list Entry) : Prop := mkAskInv {
  ai_desired : forall n d r, desired !! n = Some (d, r) -> Asked n d r ∈ log;
  ai_next : few log -> next = Z.of_nat (length (asks log));
  ai_revs : few log -> NoDup (asks log) /\ Forall (fun r => 1 <= r <= next) (asks log);
}.

Record result_inv (y : System) : Prop := mkResultInv {
  ri_asks : ask_inv (c_desired (y_controller y)) (c_next (y_controller y)) (y_log y);
  ri_results : forall n r st, c_results (y_controller y) !! (n, r) = Some (Ok st) ->
    Reported (mkStatusMessage n r st) ∈ y_log y /\ exists d, Asked n d r ∈ y_log y /\ completes st d;
}.

Lemma next_revision z : 0 <= z < 2 ^ 64 - 1 -> nextRevisionLocked z = z + 1.
Proof. intros Hz. unfold nextRevisionLocked, uint64. rewrite Z.mod_small by lia. rewrite bool_decide_eq_false_2; [done|lia]. Qed.

Lemma next_revision_ne z : nextRevisionLocked z ≠ z.
Proof.
  unfold nextRevisionLocked, uint64. pose proof (Z.div_mod (z + 1) (2 ^ 64)) as Hq. change (2 ^ 64) with 18446744073709551616 in *.
  case_bool_decide as Hz; [rewrite Hz; intros <-; by vm_compute in Hz|]. intros Heq. lia.
Qed.

Lemma asks_app l1 l2 : asks (l1 ++ l2) = asks l1 ++ asks l2.
Proof. apply omap_app. Qed.

Lemma few_app l1 l2 : few (l1 ++ l2) -> few l1.
Proof. unfold few. rewrite asks_app, length_app. lia. Qed.

(** Handing out one revision. *)
Lemma ask_inv_extend desired next log n d :
  ask_inv desired next log ->
  ask_inv (<[n := (d, nextRevisionLocked next)]> desired) (nextRevisionLocked next) (log ++ [Asked n d (nextRevisionLocked next)]).
Proof.
  intros [Hd Hn Hv]. split.
  - intros n1 d1 r1 [[-> [= <- <-]]|[_ H]]%lookup_insert_Some; [set_solver|]. apply elem_of_app. left. eauto.
  - intros Hf. pose proof (few_app _ _ Hf) as Hf0. specialize (Hn Hf0). unfold few in Hf. rewrite asks_app, length_app in *.
    simpl in *. rewrite next_revision by lia. lia.
  - intros Hf. pose proof (few_app _ _ Hf) as Hf0. specialize (Hn Hf0). destruct (Hv Hf0) as [Hnd Hall]. unfold few in Hf.
    rewrite asks_app, length_app in Hf. simpl in Hf. rewrite asks_app. simpl. rewrite next_revision by lia. split.
    + apply NoDup_app. split_and!; [done| |apply NoDup_singleton]. intros r Hr Hin%list_elem_of_singleton.
      rewrite Forall_forall in Hall. specialize (Hall r Hr). simpl in Hall. lia.
    + apply Forall_app. split; [|apply Forall_singleton; lia]. eapply Forall_impl; [exact Hall|]. simpl. lia.
Qed.

(** Handing out none. *)
Lemma ask_inv_app desired next log l : ask_inv desired next log -> asks l = [] -> ask_inv desired next (log ++ l).
Proof.
  intros [Hd Hn Hv] Ha. split; unfold few in *; rewrite ?asks_app, ?Ha, ?app_nil_r; [|done|done].
  intros n d r H. apply elem_of_app. left. eauto.
Qed.

Lemma ask_inv_stops order c stops log :
  ask_inv (c_desired c) (c_next c) (log ++ asked_stops stops) ->
  let '(c', stops') := foldl stop_one (c, stops) order in ask_inv (c_desired c') (c_next c') (log ++ asked_stops stops').
Proof.
  revert c stops. induction order as [|n order IH]; intros c stops Hi; simpl; [done|].
  destruct (c_desired c !! n) as [[[] rev]|]; try (by apply IH). apply IH. simpl.
  unfold asked_stops. rewrite fmap_app, app_assoc. by apply ask_inv_extend.
Qed.

(** Results are kept or reported for the revision in force. *)
Lemma results_kept y y' l :
  result_inv y -> y_log y' = y_log y ++ l ->
  (forall n r st, c_results (y_controller y') !! (n, r) = Some (Ok st) ->
     c_results (y_controller y) !! (n, r) = Some (Ok st) \/
     (Reported (mkStatusMessage n r st) ∈ l /\ exists d, c_desired (y_controller y) !! n = Some (d, r) /\ completes st d)) ->
  forall n r st, c_results (y_controller y') !! (n, r) = Some (Ok st) ->
    Reported (mkStatusMessage n r st) ∈ y_log y' /\ exists d, Asked n d r ∈ y_log y' /\ completes st d.
Proof.
  intros [[Hd _ _] Hr] Hl Hr' n r st Hst. rewrite Hl. destruct (Hr' n r st Hst) as [H|[Hin (d & Hnd & Hc)]].
  - destruct (Hr n r st H) as (? & d & ? & ?). split; [set_solver|]. exists d. split; [set_solver|done].
  - split; [set_solver|]. exists d. split; [|done]. apply elem_of_app. left. eauto.
Qed.

(** Steps that ask for nothing and record nothing. *)
Lemma result_inv_same y y' :
  result_inv y -> y_log y' = y_log y -> c_desired (y_controller y') = c_desired (y_controller y) ->
  c_next (y_controller y') = c_next (y_controller y) ->
  (forall k st, c_results (y_controller y') !! k = Some (Ok st) -> c_results (y_controller y) !! k = Some (Ok st)) -> result_inv y'.
Proof.
  intros Hi Hl Hd Hn Hr. split; [rewrite Hl, Hd, Hn; apply Hi|].
  apply (results_kept y y' []); [done|by rewrite app_nil_r|]. intros n r st Hst. left. auto.
Qed.

Lemma result_inv_stream y n s ev c s' :
  result_inv y -> stream_next n ev s (y_controller y) = Some (c, s') ->
  result_inv {| y with y_controller := c; y_streams := <[n := s']> (y_streams y); y_log := y_log y ++ reported ev |}.
Proof.
  intros Hi Hn. assert (asks (reported ev) = []) as Ha by (by destruct ev).
  assert (c_desired c = c_desired (y_controller y) /\ c_next c = c_next (y_controller y) /\
    forall n r st, c_results c !! (n, r) = Some (Ok st) -> c_results (y_controller y) !! (n, r) = Some (Ok st) \/
      (Reported (mkStatusMessage n r st) ∈ reported ev /\ exists d, c_desired (y_controller y) !! n = Some (d, r) /\ completes st d)) as (Hd & Hx & Hr).
  { unfold stream_next in Hn. destruct (s_pc s) as [b|[|m rest]| | |], ev as [order| | | | |m'|]; try done;
      try (case_bool_decide; [|done]); injection Hn as <- <-; simpl; try (split_and!; [done|done|by left]).
    - destruct (recordStatus_fields m' (y_controller y)) as (-> & -> & _). split_and!; [done|done|]. intros n1 r1 st Hst.
      destruct (recordStatus_cases m' (y_controller y)) as [E|[E|(E & d & Hd & Hc)]]; rewrite E in Hst; simpl in Hst; [by left|..].
      + left. by apply lookup_delete_Some in Hst as [_ ?].
      + apply lookup_insert_Some in Hst as [[[= <- <-] [= <-]]|[_ ?]]; [right|by left]. split; [destruct m'; by left|]. by exists d.
    - unfold release. case_bool_decide; simpl; split_and!; [done|done|by left|done|done|by left]. }
  split; simpl; [rewrite Hd, Hx; apply ask_inv_app; [apply Hi|done]|].
  by apply (results_kept y {| y with y_controller := c; y_streams := <[n := s']> (y_streams y); y_log := y_log y ++ reported ev |} (reported ev)).
Qed.

Lemma result_inv_reachable y : reachable y -> result_inv y.
Proof.
  apply reachable_inv.
  { split; [split|]; simpl; [intros *; by rewrite lookup_empty|done|intros _; split; constructor|intros *; by rewrite lookup_empty]. }
  intros y0 y1 Hi Hs. destruct Hs as [listening c r y0 Hst|name st c r y0 Hst|order c stops y0 Ho Hst|n y0 Hn|k y0|w k c pc y0 Hw Hl|
    w k ch y0 Hw Hc|w k ch e y0 Hw|w k ch e y0 Hw|c y0 Ha|n s ev c s' y0 Hs Hn].
  - unfold Start in Hst. destruct (c_active _); [injection Hst as <- _; by apply (result_inv_same y0)|].
    destruct listening; injection Hst as <- _; by apply (result_inv_same y0).
  - apply SetDesired_cases in Hst as [[-> _]|(_ & _ & _ & ->)].
    + apply (result_inv_same y0); simpl; [done| |done..]. unfold asked_set. by rewrite bool_decide_eq_true_2, app_nil_r.
    + match goal with |- context [signalLocked ?x] => set (c1 := x); destruct (signal_fields c1) as (Hd & Hn & Hr & _) end.
      unfold asked_set. rewrite Hn. simpl. rewrite bool_decide_eq_false_2 by apply next_revision_ne. split; simpl.
      * rewrite Hd, Hn. simpl. apply ask_inv_extend, Hi.
      * rewrite Hr. intros n1 r1 st1 H1. destruct (ri_results _ Hi n1 r1 st1 H1) as (? & d & ? & ?).
        split; [set_solver|]. exists d. split; [set_solver|done].
  - apply stop_begin_same in Hst as ((Hr & _) & _ & _ & Hd & Hn & ->).
    pose proof (ask_inv_stops order (y_controller y0) [] (y_log y0)) as Hask. simpl in Hask. rewrite app_nil_r in Hask.
    specialize (Hask (ri_asks _ Hi)). destruct (foldl stop_one _ order) as [c2 stops]. simpl in *. split; simpl.
    + by rewrite Hd, Hn.
    + apply (results_kept y0 {| y0 with y_controller := c; y_stops := S (y_stops y0); y_log := y_log y0 ++ asked_stops stops |} (asked_stops stops)); [done..|].
      intros n1 r1 st H1. left. simpl in H1. by rewrite Hr in H1.
  - apply (result_inv_same y0); simpl; [done..|]. intros k st. rewrite lookup_union_Some_raw.
    intros [Hp|[_ ?]]; [|done]. by apply lookup_fmap_Some in Hp as (? & [=] & _).
  - by apply (result_inv_same y0).
  - apply (result_inv_same y0); simpl; [done|done|..]; unfold wait_look in Hl;
      (destruct (c_results _ !! k); [by injection Hl as <- _|]; destruct (negb _); by injection Hl as <- _).
  - by apply (result_inv_same y0).
  - by apply (result_inv_same y0).
  - apply (result_inv_same y0); simpl; [done|done|..]; unfold removeWaiter; by case_bool_decide.
  - unfold accept in Ha. destruct (negb _); [done|]. destruct (c_session _); [done|]. injection Ha as <-. by apply (result_inv_same y0).
  - by apply (result_inv_stream y0 n s ev).
Qed.

(** A revision is asked for once. *)
Lemma asked_unique log n1 n2 d1 d2 r : NoDup (asks log) -> Asked n1 d1 r ∈ log -> Asked n2 d2 r ∈ log -> d1 = d2.
Proof.
  induction log as [|x log IH]; [set_solver|]. unfold asks. simpl. intros Hnd.
  assert (forall n d, Asked n d r ∈ log -> r ∈ asks log) as Hin.
  { intros n d H. apply list_elem_of_omap. by exists (Asked n d r). }
  destruct x as [n d r'|m]; simpl in Hnd.
  - apply NoDup_cons in Hnd as [Hni Hnd]. intros [H1|H1]%elem_of_cons [H2|H2]%elem_of_cons.
    + congruence.
    + injection H1 as -> -> ->. by apply Hin in H2.
    + injection H2 as -> -> ->. by apply Hin in H1.
    + by apply IH.
  - intros [H1|H1]%elem_of_cons [H2|H2]%elem_of_cons; try done. by apply IH.
Qed.

(** A result is what a supervisor reported for that very request.  In every
    interleaving, whatever any supervisor sends, when [Wait] returns a status for a
    revision then a supervisor has reported exactly that status for that tunnel and
    revision; and for a revision handed out to make a tunnel run the status is READY or
    FAILED, for one to stop it STOPPED or FAILED, as long as fewer than 2^64 - 1
    revisions have been handed out. *)
Theorem wait_result_reported y k st ch c d :
  reachable y -> few (y_log y) -> wait_look k ch (y_controller y) = (c, Returned (Ok st)) -> Asked k.1 d k.2 ∈ y_log y ->
  Reported (mkStatusMessage k.1 k.2 st) ∈ y_log y /\ completes st d.
Proof.
  intros Hy%result_inv_reachable Hf Hl Hask. unfold wait_look in Hl. destruct k as [n r]. simpl in *.
  case_match eqn:Hr; [|by destruct (negb (c_active (y_controller y)))].
  injection Hl as <- ->. destruct (ri_results _ Hy n r st Hr) as (Hrep & d' & Hask' & Hc). split; [done|].
  destruct (ai_revs _ _ _ (ri_asks _ Hy) Hf) as [Hnd _]. by rewrite (asked_unique (y_log y) n n d d' r Hnd Hask Hask').
Qed.

(** ** Delivery to the supervisor *)

(** The last message sent about a tunnel. *)
Definition last_for (name : string) (l : list DesiredMessage) : option DesiredMessage :=
  last (filter (fun m => dm_tunnel_name m = name) l).

(** What is still to be sent. *)
Definition unsent (s : Stream) : list DesiredMessage := match s_pc s with Sending rest => rest | _ => [] end.

Definition open_stream (s : Stream) : Prop := s_pc s ≠ Closing /\ s_pc s ≠ Gone.

(** The stream has told, or is about to tell, the supervisor the state in force. *)
Definition told (c : Controller) (n : nat) (s : Stream) : Prop :=
  n ∈ c_updates c \/ s_pc s = Snapshot true \/
  forall name d, c_desired c !! name = Some d -> last_for name (s_sent s ++ unsent s) = Some (desired_message (name, d)).

Record told_inv (y : System) : Prop := mkToldInv {
  ti_session : forall n, c_session (y_controller y) = Some n -> exists s, y_streams y !! n = Some s /\ (open_stream s -> told (y_controller y) n s);
  ti_fresh : forall n s, y_streams y !! n = Some s -> (n < y_ref y)%nat;
}.

Lemma desired_message_name item : dm_tunnel_name (desired_message item) = item.1.
Proof. by destruct item as [n [d r]]. Qed.

Lemma last_for_app name l1 l2 : last_for name (l1 ++ l2) = (match last_for name l2 with Some m => Some m | None => last_for name l1 end).
Proof. unfold last_for. rewrite filter_app. by rewrite last_app. Qed.

(** The messages of a snapshot: one per tunnel included. *)
Lemma last_for_snapshot b c order name d :
  order ≡ₚ desired_message <$> map_to_list (sendDesired_items b c) -> c_desired c !! name = Some d ->
  last_for name order = Some (desired_message (name, d)) \/ (last_for name order = None /\ b = false).
Proof.
  intros Hp Hd. unfold last_for.
  assert (forall m, m ∈ filter (fun m => dm_tunnel_name m = name) order -> m = desired_message (name, d)) as Hall.
  { intros m [Hm Hin]%list_elem_of_filter. rewrite Hp in Hin. apply list_elem_of_fmap in Hin as ([n d'] & -> & Hin).
    rewrite desired_message_name in Hm. simpl in Hm. subst n. apply elem_of_map_to_list, map_lookup_filter_Some in Hin as [Hin _]. congruence. }
  destruct (last (filter (fun m => dm_tunnel_name m = name) order)) as [m|] eqn:Hl.
  - left. f_equal. apply Hall. by apply last_Some_elem_of.
  - right. split; [done|]. destruct b; [|done]. exfalso. apply last_None in Hl.
    assert (desired_message (name, d) ∈ filter (fun m => dm_tunnel_name m = name) order) as Hin; [|rewrite Hl in Hin; set_solver].
    apply list_elem_of_filter. split; [apply desired_message_name|]. rewrite Hp. apply list_elem_of_fmap. exists (name, d). split; [done|].
    apply elem_of_map_to_list, map_lookup_filter_Some. split; [done|by left].
Qed.

(** A step of the stream itself. *)
Lemma told_stream n ev s c c' s' :
  stream_next n ev s c = Some (c', s') -> (open_stream s -> told c n s) -> open_stream s' -> told c' n s'.
Proof.
  unfold stream_next, told, open_stream, unsent. destruct (s_pc s) as [b|[|m rest]| | |] eqn:Hpc, ev as [order| | | | |m'|]; try done.
  - case_bool_decide as Hp; [|done]. intros [= <- <-] Ht _. destruct Ht as [?|[[= ->]|Hall]]; [done|by left|..].
    + right. right. intros name d Hd. simpl. rewrite last_for_app. destruct (last_for_snapshot _ _ _ _ _ Hp Hd) as [->|[_ ?]]; done.
    + right. right. intros name d Hd. simpl. rewrite last_for_app. destruct (last_for_snapshot _ _ _ _ _ Hp Hd) as [->|[-> _]]; [done|].
      specialize (Hall name d Hd). by rewrite app_nil_r in Hall.
  - intros [= <- <-] Ht _. destruct Ht as [?|[?|Hall]]; [done|by left|done|]. right. right. done.
  - intros [= <- <-] Ht _. destruct Ht as [?|[?|Hall]]; [done|by left|done|]. right. right. simpl. intros name d Hd.
    rewrite <-app_assoc. simpl. by apply Hall.
  - intros [= <- <-] _ [? ?]. done.
  - case_bool_decide; [|done]. intros [= <- <-] _ _. right. by left.
  - intros [= <- <-] Ht _. destruct Ht as [?|[?|Hall]]; [done|by left|done|]. right. right. done.
  - intros [= <- <-] Ht Ho. destruct (recordStatus_fields m' c) as (-> & _ & _ & _ & ->). rewrite Hpc. by apply Ht.
  - intros [= <- <-] _ [? ?]. done.
  - intros [= <- <-] _ [? ?]. done.
Qed.

(** Steps of others: the session, its token and the desired states stay, or the token is set. *)
Lemma told_inv_other y y' :
  told_inv y -> (y_ref y <= y_ref y')%nat -> y_streams y' = y_streams y ->
  c_session (y_controller y') = None \/
  (c_session (y_controller y') = c_session (y_controller y) /\
   (forall n, c_session (y_controller y) = Some n -> n ∈ c_updates (y_controller y') \/
      (c_desired (y_controller y') = c_desired (y_controller y) /\ c_updates (y_controller y) ⊆ c_updates (y_controller y')))) ->
  told_inv y'.
Proof.
  intros [Hs Hf] Hr Hst Hc. split; rewrite Hst; [|intros n s Hn; specialize (Hf n s Hn); lia].
  intros n Hn. destruct Hc as [Hc|[Hc Hu]]; [congruence|]. rewrite Hc in Hn. destruct (Hs n Hn) as (s & Hlk & Ht). exists s.
  split; [done|]. intros Ho. destruct (Hu n Hn) as [?|[Hd Hsub]]; [by left|].
  destruct (Ht Ho) as [?|[?|Hall]]; [left; by apply Hsub|right; by left|right; right]. by rewrite Hd.
Qed.

Lemma stream_next_session n ev s c c' s' m :
  stream_next n ev s c = Some (c', s') -> c_session c' = Some m ->
  c_session c = Some m /\ c_desired c' = c_desired c /\ (m ≠ n -> m ∈ c_updates c -> m ∈ c_updates c').
Proof.
  unfold stream_next. destruct (s_pc s) as [b|[|x rest]| | |], ev as [order| | | | |m'|]; try done;
    try (case_bool_decide; [|done]); intros [= <- <-]; simpl; try (intros ->; split_and!; [done|done|]; auto; set_solver).
  - destruct (recordStatus_fields m' c) as (-> & _ & _ & -> & ->). done.
  - unfold release. case_bool_decide; simpl; [done|]. intros ->. done.
Qed.

Lemma told_inv_reachable y : reachable y -> told_inv y.
Proof.
  apply reachable_inv; [by split|].
  intros y0 y1 Hi Hs. destruct Hs as [listening c r y0 Hst|name st c r y0 Hst|order c stops y0 Ho Hst|n y0 Hn|k y0|w k c pc y0 Hw Hl|
    w k ch y0 Hw Hc|w k ch e y0 Hw|w k ch e y0 Hw|c y0 Ha|n s ev c s' y0 Hs Hn].
  - eapply told_inv_other; simpl; [done|lia|done|right]. unfold Start in Hst. destruct (c_active _); [injection Hst as <- _; eauto|].
    destruct listening; injection Hst as <- _; eauto.
  - eapply told_inv_other; simpl; [done|lia|done|right]. apply SetDesired_cases in Hst as [[-> _]|(_ & _ & _ & ->)]; [eauto|].
    match goal with |- context [signalLocked ?x] => destruct (signal_fields x) as (_ & _ & _ & _ & _ & -> & _ & ->) end. simpl.
    split; [done|]. intros n ->. left. set_solver.
  - eapply told_inv_other; simpl; [done|lia|done|right]. apply stop_begin_same in Hst as ((_ & _ & _ & -> & _) & _ & -> & _).
    split; [done|]. intros n ->. left. set_solver.
  - eapply told_inv_other; simpl; [done|lia|done|by left].
  - eapply told_inv_other; simpl; [done|lia|done|right]; eauto.
  - eapply told_inv_other; simpl; [done|lia|done|right]. unfold wait_look in Hl.
    destruct (c_results _ !! k); [injection Hl as <- _; eauto|]. destruct (negb _); injection Hl as <- _; simpl; eauto.
  - eapply told_inv_other; simpl; [done|lia|done|right]; eauto.
  - eapply told_inv_other; simpl; [done|lia|done|right]; eauto.
  - eapply told_inv_other; simpl; [done|lia|done|right]. unfold removeWaiter. case_bool_decide; simpl; eauto.
  - unfold accept in Ha. destruct (negb _); [done|]. destruct (c_session _) eqn:Hses; [done|]. injection Ha as <-. destruct Hi as [_ Hf].
    split; simpl.
    + intros n [= <-]. rewrite lookup_insert_eq. eexists. split; [done|]. intros _. right. by left.
    + intros n s [[<- _]|[_ Hk]]%lookup_insert_Some; [lia|]. specialize (Hf n s Hk). lia.
  - destruct Hi as [Hses Hf]. split; simpl.
    + intros m Hm. destruct (stream_next_session _ _ _ _ _ _ _ Hn Hm) as (Hm0 & Hd & Hu). destruct (Hses m Hm0) as (sm & Hlk & Ht).
      destruct (decide (m = n)) as [->|Hne].
      * rewrite Hs in Hlk. injection Hlk as <-. rewrite lookup_insert_eq. exists s'. split; [done|]. intros Ho. by eapply told_stream.
      * rewrite lookup_insert_ne by done. exists sm. split; [done|]. intros Ho. destruct (Ht Ho) as [?|[?|Hall]]; [left; auto|right; by left|right; right].
        by rewrite Hd.
    + intros m sm [[<- _]|[_ Hk]]%lookup_insert_Some; eauto.
Qed.

(** C20. Intent reaches the supervisor.  In every interleaving of requests, leadership
    changes and streams, when the stream of the connected supervisor waits without a
    pending signal, the last message sent to it about every tunnel is the state and
    revision in force: no change is lost, however it races with sending. *)
Theorem intent_delivered y n s name d :
  reachable y -> c_session (y_controller y) = Some n -> y_streams y !! n = Some s -> s_pc s = Selecting ->
  n ∉ c_updates (y_controller y) -> c_desired (y_controller y) !! name = Some d ->
  last_for name (s_sent s) = Some (desired_message (name, d)).
Proof.
  intros Hy%told_inv_reachable Hn Hs Hpc Hu Hd. destruct (ti_session _ Hy n Hn) as (s1 & Hs1 & Ht). rewrite Hs in Hs1. injection Hs1 as <-.
  destruct Ht as [?|[?|Hall]]; [by unfold open_stream; rewrite Hpc|done|congruence|].
  specialize (Hall name d Hd). unfold unsent in Hall. by rewrite Hpc, app_nil_r in Hall.
Qed.

(** Readiness outlives the supervisor.  When the supervisor's connection ends, the
    results it reported stay: a tunnel it had reported ready still counts as ready with
    nobody connected, asking for it to run hands out the old revision, and [Wait] for
    that revision returns READY at once. *)
Theorem ready_without_supervisor name revision n ch c :
  name ≠ "" -> c_active c = true -> c_session c = Some n ->
  c_desired c !! name = Some (TUNNEL_DESIRED_STATE_RUNNING, revision) ->
  c_results c !! (name, revision) = Some (Ok TUNNEL_STATUS_STATE_READY) ->
  let c' := release n c in
  c_session c' = None /\ SetDesired name TUNNEL_DESIRED_STATE_RUNNING c' = (c', Ok revision) /\
  wait_look (name, revision) ch c' = (c', Returned (Ok TUNNEL_STATUS_STATE_READY)).
Proof.
  intros Hn Ha Hs Hd Hr. unfold release. rewrite bool_decide_eq_true_2 by done. simpl. split; [done|].
  unfold SetDesired, wait_look, keep_revision. simpl. rewrite bool_decide_eq_false_2 by done. rewrite Ha, Hd. simpl.
  unfold Key in *. rewrite !Hr. done.
Qed.

(** ** A concrete run of tunnel control

    The leader starts, asks for tunnel [t] to run, a caller waits, the supervisor
    connects, is told, and reports ready. *)
Module TunnelWitnesses.
Import Tunnels.

#[local] Open Scope Z_scope.

(** ** The steps as functions *)

Definition do_start (y : System) : System := {| y with y_controller := (Start (Ok tt) (y_controller y)).1 |}.
Definition do_set (name : string) (st : TunnelDesired) (y : System) : System :=
  let c := (SetDesired name st (y_controller y)).1 in
  {| y with y_controller := c; y_log := y_log y ++ asked_set name st (y_controller y) c |}.
Definition do_wait (k : Key) (y : System) : System :=
  {| y with y_waiters := <[y_ref y := mkWaiter k Looking]> (y_waiters y); y_ref := S (y_ref y) |}.
Definition do_look (w : nat) (k : Key) (y : System) : System :=
  let '(c, pc) := wait_look k (y_ref y) (y_controller y) in
  {| y with y_controller := c; y_waiters := <[w := mkWaiter k pc]> (y_waiters y); y_ref := S (y_ref y) |}.
Definition do_connect (y : System) : System :=
  match accept (y_ref y) (y_controller y) with
  | Ok c => {| y with y_controller := c; y_streams := <[y_ref y := mkStream (Snapshot true) []]> (y_streams y); y_ref := S (y_ref y) |}
  | Err _ => y
  end.
Definition do_stream (n : nat) (ev : StreamEvent) (y : System) : System :=
  match y_streams y !! n with
  | None => y
  | Some s =>
      match stream_next n ev s (y_controller y) with
      | None => y
      | Some (c, s') => {| y with y_controller := c; y_streams := <[n := s']> (y_streams y); y_log := y_log y ++ reported ev |}
      end
  end.

Lemma reach_start y : reachable y -> reachable (do_start y).
Proof. intros H. eapply rtc_r; [exact H|]. eapply step_start. apply surjective_pairing. Qed.

Lemma reach_set name st y : reachable y -> reachable (do_set name st y).
Proof. intros H. eapply rtc_r; [exact H|]. eapply step_set. apply surjective_pairing. Qed.

Lemma reach_wait k y : reachable y -> reachable (do_wait k y).
Proof. intros H. eapply rtc_r; [exact H|]. apply step_wait. Qed.

Lemma reach_look w k y : reachable y -> y_waiters y !! w = Some (mkWaiter k Looking) -> reachable (do_look w k y).
Proof.
  intros H Hw. unfold do_look. destruct (wait_look k (y_ref y) (y_controller y)) as [c pc] eqn:E.
  eapply rtc_r; [exact H|]. by eapply step_look.
Qed.

Lemma reach_connect y : reachable y -> reachable (do_connect y).
Proof.
  intros H. unfold do_connect. destruct (accept _ _) eqn:E; [|done]. eapply rtc_r; [exact H|]. by apply step_connect.
Qed.

Lemma reach_stream n ev y : reachable y -> reachable (do_stream n ev y).
Proof.
  intros H. unfold do_stream. destruct (y_streams y !! n) as [s|] eqn:Hs; [|done].
  destruct (stream_next n ev s (y_controller y)) as [[c s']|] eqn:E; [|done]. eapply rtc_r; [exact H|]. by eapply step_stream.
Qed.

(** ** The run *)

Definition run_message : DesiredMessage := mkDesiredMessage "t" 1 TUNNEL_DESIRED_STATE_RUNNING 30.

Definition waiting : System := do_look 0 ("t", 1) (do_wait ("t", 1) (do_set "t" TUNNEL_DESIRED_STATE_RUNNING (do_start initial))).
Definition connected : System := do_stream 2 (Proceed []) (do_stream 2 SendOk (do_stream 2 (Proceed [run_message]) (do_connect waiting))).
Definition ready : System := do_stream 2 (Received (mkStatusMessage "t" 1 TUNNEL_STATUS_STATE_READY)) connected.

Lemma waiting_reachable : reachable waiting.
Proof. apply reach_look; [|vm_compute; reflexivity]. apply reach_wait, reach_set, reach_start. apply rtc_refl. Qed.

Lemma connected_reachable : reachable connected.
Proof. apply reach_stream, reach_stream, reach_stream, reach_connect, waiting_reachable. Qed.

Lemma ready_reachable : reachable ready.
Proof. apply reach_stream, connected_reachable. Qed.

(** ** Witnesses *)

Lemma waiter_witness : 1%nat ∈ c_closed (y_controller ready).
Proof.
  apply (no_forgotten_waiter ready 0 ("t", 1) 1 ready_reachable).
  - vm_compute. reflexivity.
  - left. exists (Ok TUNNEL_STATUS_STATE_READY). vm_compute. reflexivity.
Defined.

Lemma result_witness : Reported (mkStatusMessage "t" 1 TUNNEL_STATUS_STATE_READY) ∈ y_log ready.
Proof.
  refine (proj1 (wait_result_reported ready ("t", 1) TUNNEL_STATUS_STATE_READY 9 (y_controller ready) TUNNEL_DESIRED_STATE_RUNNING ready_reachable _ _ _)).
  - vm_compute. reflexivity.
  - vm_compute. reflexivity.
  - left.
Defined.

Lemma delivered_witness : last_for "t" [run_message] = Some run_message.
Proof.
  refine (intent_delivered ready 2 (mkStream Selecting [run_message]) "t" (TUNNEL_DESIRED_STATE_RUNNING, 1) ready_reachable _ _ _ _ _).
  - vm_compute. reflexivity.
  - vm_compute. reflexivity.
  - reflexivity.
  - apply (bool_decide_unpack _). vm_compute. exact I.
  - vm_compute. reflexivity.
Defined.

Lemma stale_ready_witness :
  c_session (release 2 (y_controller ready)) = None /\
  wait_look ("t", 1) 9 (release 2 (y_controller ready)) = (release 2 (y_controller ready), Returned (Ok TUNNEL_STATUS_STATE_READY)).
Proof.
  destruct (ready_without_supervisor "t" 1 2 9 (y_controller ready)) as (H1 & _ & H2).
  - discriminate.
  - vm_compute. reflexivity.
  - vm_compute. reflexivity.
  - vm_compute. reflexivity.
  - vm_compute. reflexivity.
  - exact (conj H1 H2).
Defined.
End TunnelWitnesses.
