(* ===== verification/TunnelSupervisor.v ===== *)
(** * The tunnel supervisor ([src/internal/tunnel/service.go])

    The supervisor beside the shard leader starts and stops tunnel Pods as the leader's
    stream asks ([TunnelControl.v] is the other end), each under a lease the leader
    renews.  [Service] holds the fields guarded by the mutex, the channel of statuses
    and the objects [ownedTunnel], which goroutines share by pointer: [v_heap] maps a
    reference to the object, [v_owned] a name to the reference of its current one.
    Goroutines (the runs, the timers of the leases and the ends of stops) are explicit,
    and [step] interleaves them with messages and the clock in any order.

    The runner ([Runtime.Run]) is a parameter: while it runs it may report health at any
    time, and it returns at any time, with or without a failed drain. *)

From S2P Require Import Prelude TunnelControl.
From stdpp Require Import relations.
Import Tunnels.

#[local] Open Scope Z_scope.

Module Supervisor.

(** The error of a run: none, one that is [ErrDrain], or another. *)
Inductive RunErr := NoErr | DrainErr | OtherErr.

#[global] Instance RunErr_eq_dec : EqDecision RunErr.
Proof. solve_decision. Defined.

(** [ownedTunnel]; [o_cancelled] and [o_done] are its context and its [done] channel. *)
Record Owned := mkOwned {
  o_revision : Z;
  o_generation : Z;
  o_state : TunnelStatus;
  o_run_err : RunErr;
  o_want_run : bool;
  o_stopping : bool;
  o_expires : Z;
  o_cancelled : bool;
  o_done : bool;
}.

(** Where the goroutine [run] is: in [runner.Run] (having reported ready or not), just
    returned, about to report a failure, in the backoff, about to restart, about to end
    after a failed drain, or ended. *)
Inductive RunPc :=
  | Running (reported : bool)
  | Finished (e : RunErr)
  | Reporting (e : RunErr)
  | Backoff
  | Restarting
  | Drained
  | Ended.

#[global] Instance RunPc_eq_dec : EqDecision RunPc.
Proof. solve_decision. Defined.

(** The goroutine of [expire]. *)
Record Timer := mkTimer {
  t_name : string;
  t_ref : nat;
  t_generation : Z;
  t_deadline : Z;
}.

Record Service := mkService {
  v_owned : gmap string nat;
  v_heap : gmap nat Owned;
  v_updates : list StatusMessage;
  v_failures : bool;
  v_runs : gmap nat (string * RunPc);
  v_timers : list Timer;
  v_finishing : list (string * nat);     (* goroutines of finishStop *)
  v_now : Z;
  v_next : nat;
}.

(** [NewService]: the names must be distinct and not empty. *)
Fixpoint allowed_names (names : list string) (allowed : gset string) : res (gset string) :=
  match names with
  | [] => Ok allowed
  | n :: rest =>
      if bool_decide (n = "") then Err (ErrMsg "empty tunnel name")
      else if bool_decide (n ∈ allowed) then Err (ErrMsg "duplicate tunnel name")
      else allowed_names rest ({[n]} ∪ allowed)
  end.

Definition initial : Service := mkService ∅ ∅ [] false ∅ [] [] 0 0.

Section Service.
Variable allowed : gset string.

(** [emit]: the channel holds 64 statuses, further ones are dropped. *)
Definition emit (m : StatusMessage) (v : Service) : Service :=
  if bool_decide (length (v_updates v) < 64)%nat then {| v with v_updates := v_updates v ++ [m] |} else v.

(** [statusMessage]. *)
Definition statusMessage (name : string) (o : Owned) : StatusMessage := mkStatusMessage name (o_revision o) (o_state o).

Definition set_owned (r : nat) (o : Owned) (v : Service) : Service := {| v with v_heap := <[r := o]> (v_heap v) |}.

(** [expire]: the goroutine is started. *)
Definition expire (name : string) (r : nat) (generation deadline : Z) (v : Service) : Service :=
  {| v with v_timers := v_timers v ++ [mkTimer name r generation deadline] |}.

(** [startLocked]. *)
Definition startLocked (name : string) (revision expires : Z) (v : Service) : Service :=
  let r := v_next v in
  let o := mkOwned revision 1 TUNNEL_STATUS_STATE_STARTING NoErr true false expires false false in
  let v := {| v with v_owned := <[name := r]> (v_owned v); v_heap := <[r := o]> (v_heap v); v_next := S r |} in
  let v := expire name r 1 expires (emit (statusMessage name o) v) in
  {| v with v_runs := <[r := (name, Running false)]> (v_runs v) |}.

(** [stopLocked]. *)
Definition stopLocked (name : string) (r : nat) (o : Owned) (v : Service) : Service :=
  let o := {| o with o_cancelled := true |} in
  if o_stopping o || bool_decide (o_run_err o = DrainErr) then set_owned r o v
  else
    let o := {| o with o_stopping := true; o_state := TUNNEL_STATUS_STATE_STARTING; o_run_err := NoErr |} in
    let v := emit (statusMessage name o) (set_owned r o v) in
    {| v with v_finishing := v_finishing v ++ [(name, r)] |}.

(** The object of a name, if it is owned. *)
Definition find_owned (name : string) (v : Service) : option (nat * Owned) :=
  match v_owned v !! name with
  | Some r => match v_heap v !! r with Some o => Some (r, o) | None => None end
  | None => None
  end.

(** [apply]. *)
Definition validate (m : DesiredMessage) : res unit :=
  if bool_decide (dm_tunnel_name m = "") then Err (ErrMsg "tunnel name is required")
  else if negb (bool_decide (dm_tunnel_name m ∈ allowed)) then Err (ErrMsg "tunnel is not configured")
  else if bool_decide (dm_revision m = 0) then Err (ErrMsg "tunnel revision must be non-zero")
  else if negb (bool_decide (dm_state m = TUNNEL_DESIRED_STATE_RUNNING)) && negb (bool_decide (dm_state m = TUNNEL_DESIRED_STATE_STOPPED))
  then Err (ErrMsg "tunnel state must be RUNNING or STOPPED")
  else if bool_decide (dm_state m = TUNNEL_DESIRED_STATE_RUNNING) && bool_decide (dm_lease_seconds m = 0)
  then Err (ErrMsg "running tunnel requires a positive lease")
  else Ok tt.

Definition renewed (m : DesiredMessage) (wantRun : bool) (expires : Z) (o : Owned) : Owned :=
  {| o with o_revision := dm_revision m; o_generation := uint64 (o_generation o + 1); o_want_run := wantRun; o_expires := expires |}.

Definition apply (m : DesiredMessage) (v : Service) : Service * res unit :=
  match validate m with
  | Err e => (v, Err e)
  | Ok _ =>
      let name := dm_tunnel_name m in
      let wantRun := bool_decide (dm_state m = TUNNEL_DESIRED_STATE_RUNNING) in
      let expires := v_now v + dm_lease_seconds m * second in
      match find_owned name v with
      | Some (r, o) =>
          if bool_decide (o_run_err o = DrainErr) then (v, Err (ErrMsg "tunnel Pod drain failed"))
          else
            let o := renewed m wantRun expires o in
            let v := set_owned r o v in
            let v := if wantRun then expire name r (o_generation o) expires v else stopLocked name r o v in
            (match v_heap v !! r with Some o' => emit (statusMessage name o') v | None => v end, Ok tt)
      | None =>
          if negb wantRun then (emit (mkStatusMessage name (dm_revision m) TUNNEL_STATUS_STATE_STOPPED) v, Ok tt)
          else (startLocked name (dm_revision m) expires v, Ok tt)
      end
  end.

(** [setStatus]. *)
Definition setStatus (name : string) (r : nat) (state : TunnelStatus) (e : RunErr) (v : Service) : Service :=
  match v_heap v !! r with
  | None => v
  | Some o =>
      if bool_decide (v_owned v !! name ≠ Some r) || (o_stopping o && negb (bool_decide (e = DrainErr))) then v
      else
        let o := {| o with o_state := state; o_run_err := e |} in
        emit (statusMessage name o) (set_owned r o v)
  end.

(** [isCurrent]. *)
Definition isCurrent (name : string) (r : nat) (v : Service) : bool := bool_decide (v_owned v !! name = Some r).

(** The critical section of the goroutine of [expire]. *)
Definition expired (t : Timer) (v : Service) : Service :=
  match find_owned (t_name t) v with
  | Some (r, o) =>
      if bool_decide (r = t_ref t) && bool_decide (o_generation o = t_generation t)
      then stopLocked (t_name t) r {| o with o_want_run := false |} v
      else v
  | None => v
  end.

(** The critical section of [finishStop]. *)
Definition finishStop (name : string) (r : nat) (v : Service) : Service :=
  match v_heap v !! r with
  | None => v
  | Some o =>
      if bool_decide (v_owned v !! name ≠ Some r) || bool_decide (o_run_err o = DrainErr) then v
      else
        let v := {| v with v_owned := delete name (v_owned v) |} in
        if o_want_run o && bool_decide (v_now v < o_expires o)
        then startLocked name (o_revision o) (o_expires o) v
        else emit (mkStatusMessage name (o_revision o) TUNNEL_STATUS_STATE_STOPPED) v
  end.

(** The critical section of [stopAll], over the names in the order visited. *)
Definition stop_name (v : Service) (name : string) : Service :=
  match find_owned name v with
  | Some (r, o) => stopLocked name r {| o with o_want_run := false |} v
  | None => v
  end.

Definition stopAll (order : list string) (v : Service) : Service := foldl stop_name v order.

(** ** The goroutine [run] *)

Definition set_pc (r : nat) (name : string) (pc : RunPc) (v : Service) : Service := {| v with v_runs := <[r := (name, pc)]> (v_runs v) |}.

(** [close(owned.done)]. *)
Definition close_done (r : nat) (v : Service) : Service :=
  match v_heap v !! r with Some o => set_owned r {| o with o_done := true |} v | None => v end.

Definition cancelled (r : nat) (v : Service) : bool := match v_heap v !! r with Some o => o_cancelled o | None => false end.

Inductive RunEvent :=
  | Healthy           (* ready(true) *)
  | Unhealthy         (* ready(false) *)
  | Return (e : RunErr)
  | Elapsed           (* the backoff's timer *)
  | Step.             (* run up to the next point that waits *)

Definition run_next (name : string) (r : nat) (pc : RunPc) (ev : RunEvent) (v : Service) : option Service :=
  match pc, ev with
  | Running reported, Healthy =>
      Some (if reported then v else set_pc r name (Running true) (setStatus name r TUNNEL_STATUS_STATE_READY NoErr v))
  | Running _, Unhealthy => Some (setStatus name r TUNNEL_STATUS_STATE_STARTING NoErr v)
  | Running _, Return e => Some (set_pc r name (Finished e) v)
  | Finished DrainErr, Step => Some (set_pc r name Drained (setStatus name r TUNNEL_STATUS_STATE_FAILED DrainErr v))
  | Drained, Step => Some (set_pc r name Ended (close_done r {| v with v_failures := true |}))
  | Finished e, Step =>
      Some (if cancelled r v then set_pc r name Ended (close_done r v) else set_pc r name (Reporting e) v)
  | Reporting e, Step => Some (set_pc r name Backoff (setStatus name r TUNNEL_STATUS_STATE_FAILED e v))
  | Backoff, Step => if cancelled r v then Some (set_pc r name Ended (close_done r v)) else None
  | Backoff, Elapsed =>
      Some (if isCurrent name r v then set_pc r name Restarting v else set_pc r name Ended (close_done r v))
  | Restarting, Step => Some (set_pc r name (Running false) (setStatus name r TUNNEL_STATUS_STATE_STARTING NoErr v))
  | _, _ => None
  end.

(** ** The system *)

Inductive step : Service -> Service -> Prop :=
  | step_apply m v : step v (apply m v).1
  | step_send m rest v : v_updates v = m :: rest -> step v {| v with v_updates := rest |}
  | step_failure v : v_failures v = true -> step v {| v with v_failures := false |}
  | step_run r name pc ev v v' :
      v_runs v !! r = Some (name, pc) -> run_next name r pc ev v = Some v' -> step v v'
  | step_expire t l1 l2 v :
      v_timers v = l1 ++ t :: l2 -> t_deadline t <= v_now v -> step v (expired t {| v with v_timers := l1 ++ l2 |})
  | step_finish name r o l1 l2 v :
      v_finishing v = l1 ++ (name, r) :: l2 -> v_heap v !! r = Some o -> o_done o = true ->
      step v (finishStop name r {| v with v_finishing := l1 ++ l2 |})
  | step_stop_all order v :
      order ≡ₚ (map_to_list (v_owned v)).*1 -> step v (stopAll order v)
  | step_clock now v : v_now v <= now -> step v {| v with v_now := now |}.

Definition reachable (v : Service) : Prop := rtc step initial v.
End Service.
End Supervisor.
