(* ===== verification/TunnelSupervisorFacts.v ===== *)
(** * Facts about the tunnel supervisor

    [inv] ties the names, the objects and the goroutines of [TunnelSupervisor.v]
    together; [frame] says what the critical sections that neither start nor end a run
    may change, and preserves [inv] and the leases.  The claims are at the end: one run
    per tunnel, what STOPPED promises, and that no lease is left without a timer. *)

From S2P Require Import Prelude TunnelControl TunnelSupervisor.
From stdpp Require Import relations.
Import Tunnels Supervisor.

#[local] Open Scope Z_scope.

(** ** Objects *)

(** What a critical section may do to an object that exists. *)
Record evolves (o o' : Owned) : Prop := mkEvolves {
  ev_done : o_done o' = o_done o;
  ev_state : o_state o <> TUNNEL_STATUS_STATE_STOPPED -> o_state o' <> TUNNEL_STATUS_STATE_STOPPED;
  ev_drain : o_run_err o' = DrainErr -> o_run_err o = DrainErr;
  ev_cancel : (o_stopping o = true -> o_cancelled o = true) -> o_stopping o' = true -> o_cancelled o' = true;
}.

(** The object still needs the timer it has. *)
Definition keeps_lease (o o' : Owned) : Prop :=
  o_stopping o' = false -> o_run_err o' <> DrainErr ->
  o_stopping o = false /\ o_run_err o <> DrainErr /\ o_generation o' = o_generation o /\ o_expires o' = o_expires o.

Definition live (v : Service) (name : string) (r : nat) : Prop := exists pc, v_runs v !! r = Some (name, pc) /\ pc <> Ended.

(** ** The invariant *)

Record inv (v : Service) : Prop := mkInv {
  inv_live : forall r name pc, v_runs v !! r = Some (name, pc) -> pc <> Ended -> v_owned v !! name = Some r;
  inv_heap : forall r name pc, v_runs v !! r = Some (name, pc) -> exists o, v_heap v !! r = Some o /\ (o_done o = true <-> pc = Ended);
  inv_owned : forall name r, v_owned v !! name = Some r -> exists pc, v_runs v !! r = Some (name, pc);
  inv_next : forall r, is_Some (v_heap v !! r) -> (r < v_next v)%nat;
  inv_state : forall r o, v_heap v !! r = Some o -> o_state o <> TUNNEL_STATUS_STATE_STOPPED;
  inv_drain : forall r name pc o, v_runs v !! r = Some (name, pc) -> v_heap v !! r = Some o -> o_run_err o = DrainErr -> pc = Drained \/ pc = Ended;
  inv_report : forall r name, v_runs v !! r <> Some (name, Reporting DrainErr);
  inv_cancel : forall r o, v_heap v !! r = Some o -> o_stopping o = true -> o_cancelled o = true;
}.

(** Every object that runs under a lease has its timer. *)
Definition leased (v : Service) : Prop :=
  forall name r o, v_owned v !! name = Some r -> v_heap v !! r = Some o -> o_stopping o = false -> o_run_err o <> DrainErr ->
  mkTimer name r (o_generation o) (o_expires o) ∈ v_timers v.

(** Statuses appended, none of them STOPPED. *)
Definition quiet (v v' : Service) : Prop :=
  exists l, v_updates v' = v_updates v ++ l /\ Forall (fun m => sm_state m <> TUNNEL_STATUS_STATE_STOPPED) l.

Record frame (v v' : Service) : Prop := mkFrame {
  fr_owned : v_owned v' = v_owned v;
  fr_runs : v_runs v' = v_runs v;
  fr_next : v_next v' = v_next v;
  fr_timers : v_timers v' = v_timers v;
  fr_heap : forall r, option_Forall2 (fun o o' => evolves o o' /\ keeps_lease o o') (v_heap v !! r) (v_heap v' !! r);
}.

#[export] Instance evolves_pre : PreOrder evolves.
Proof. split; [by intros o; split | intros a b c [] []; split; eauto; congruence]. Qed.

#[export] Instance keeps_lease_pre : PreOrder keeps_lease.
Proof.
  split; [by intros o | intros a b c H1 H2 Hs Hd].
  destruct (H2 Hs Hd) as (Hs' & Hd' & -> & ->). by apply H1.
Qed.

#[export] Instance quiet_pre : PreOrder quiet.
Proof.
  split; [intros v; exists []; by rewrite app_nil_r |].
  intros a b c (l & E & F) (l' & E' & F'). exists (l ++ l'). rewrite E', E, app_assoc. split; [done | by apply Forall_app].
Qed.

Lemma same_heap (h : gmap nat Owned) r : option_Forall2 (fun o o' => evolves o o' /\ keeps_lease o o') (h !! r) (h !! r).
Proof. destruct (h !! r); constructor. by split. Qed.

#[export] Instance frame_pre : PreOrder frame.
Proof.
  split.
  - intros v. split; auto. intros r. apply same_heap.
  - intros a b c [] []. split; try congruence. intros r. specialize (fr_heap0 r). specialize (fr_heap1 r).
    destruct fr_heap0 as [o o' [] | ]; inversion fr_heap1 as [? ? [] | ]; subst; constructor. split; by etransitivity.
Qed.

(** What [inv] needs of a step that moves no run. *)
Definition shape (v v' : Service) : Prop :=
  v_owned v' = v_owned v /\ v_runs v' = v_runs v /\ v_next v' = v_next v /\
  forall r, option_Forall2 evolves (v_heap v !! r) (v_heap v' !! r).

Lemma frame_shape v v' : frame v v' -> shape v v'.
Proof. intros [Eo Er En _ Eh]. repeat split; [done.. |]. intros r. by destruct (Eh r) as [? ? [] | ]; constructor. Qed.

Lemma shape_inv v v' : shape v v' -> inv v -> inv v'.
Proof.
  intros (Eo & Er & En & Eh) [A B C D E F G H].
  assert (Hback : forall r o', v_heap v' !! r = Some o' -> exists o, v_heap v !! r = Some o /\ evolves o o').
  { intros r o' Hr. specialize (Eh r). rewrite Hr in Eh. inversion Eh as [o ? He | ]; subst. by exists o. }
  split; rewrite ?Eo, ?Er, ?En; try done.
  - intros r name pc Hr. destruct (B r name pc Hr) as (o & Ho & Hd). specialize (Eh r). rewrite Ho in Eh.
    inversion Eh as [? o' [] | ]; subst. exists o'. split; [done |]. congruence.
  - intros r [o' Hr]. destruct (Hback r o' Hr) as (o & Ho & _). by apply D, (mk_is_Some _ o).
  - intros r o' Hr. destruct (Hback r o' Hr) as (o & Ho & Hev). apply (ev_state _ _ Hev). by eapply E.
  - intros r name pc o' Hr Ho' Hd. destruct (Hback r o' Ho') as (o & Ho & Hev). eapply F; eauto. by apply (ev_drain _ _ Hev).
  - intros r o' Hr. destruct (Hback r o' Hr) as (o & Ho & Hev). apply (ev_cancel _ _ Hev). by apply (H r).
Qed.

Lemma frame_inv v v' : frame v v' -> inv v -> inv v'.
Proof. intros. by eapply shape_inv; [apply frame_shape |]. Qed.

Lemma frame_leased v v' : frame v v' -> leased v -> leased v'.
Proof.
  intros [Eo _ _ Et Eh] L name r o' Hn Hr Hs Hd. rewrite Eo in Hn. rewrite Et. specialize (Eh r). rewrite Hr in Eh.
  inversion Eh as [o ? [_ Hk] Ho | ]; subst. destruct (Hk Hs Hd) as (Hs' & Hd' & -> & ->). by apply (L name r o).
Qed.

(** ** The critical sections *)

Lemma set_frame r o o' v : v_heap v !! r = Some o -> evolves o o' -> keeps_lease o o' -> frame v (set_owned r o' v).
Proof.
  intros Hr He Hk. split; try done. intros r'. cbn. destruct (decide (r' = r)) as [-> | N].
  - rewrite Hr, lookup_insert_eq. by constructor.
  - rewrite lookup_insert_ne by done. apply same_heap.
Qed.

Lemma emit_frame m v : frame v (emit m v).
Proof. unfold emit. case_bool_decide; split; try done; intros r; apply same_heap. Qed.

Lemma emit_quiet m v : sm_state m <> TUNNEL_STATUS_STATE_STOPPED -> quiet v (emit m v).
Proof. intros Hm. unfold emit. case_bool_decide; [exists [m]; auto | exists []; by rewrite app_nil_r]. Qed.

Lemma emit_heap m v : v_heap (emit m v) = v_heap v.
Proof. unfold emit. by case_bool_decide. Qed.

(** [stopLocked] is called with the object as the caller last wrote it. *)
Lemma stop_locked_frame name r o0 o v :
  v_heap v !! r = Some o0 -> evolves o0 o -> keeps_lease o0 o -> frame v (stopLocked name r o v).
Proof.
  intros Hr He Hk. unfold stopLocked. cbn. destruct (o_stopping o || _) eqn:Hs.
  - eapply set_frame; [done | |].
    + etransitivity; [exact He |]. by split.
    + etransitivity; [exact Hk |]. by intros ? ?.
  - match goal with |- context [set_owned r ?x v] => assert (frame v (set_owned r x v)) as Hset end.
    { eapply set_frame; [done | etransitivity; [exact He | by split] | intros Hf; discriminate Hf]. }
    etransitivity; [exact Hset |]. etransitivity; [apply emit_frame |]. split; try done. intros r'. apply same_heap.
Qed.

Lemma stop_locked_quiet name r o v : quiet v (stopLocked name r o v).
Proof.
  unfold stopLocked. cbn. destruct (o_stopping o || _); [exists []; by rewrite app_nil_r |].
  unfold emit. cbn. case_bool_decide; [eexists; split; [done |]; by repeat constructor | exists []; by rewrite app_nil_r].
Qed.

(** Its object is cancelled, and stopping or drained. *)
Lemma stop_locked_object name r o v :
  exists o', v_heap (stopLocked name r o v) !! r = Some o' /\ o_cancelled o' = true /\
    (o_stopping o' = true \/ o_run_err o' = DrainErr).
Proof.
  unfold stopLocked. cbn. destruct (o_stopping o || _) eqn:Hs.
  - eexists. cbn. rewrite lookup_insert_eq. split; [done |]. split; [done |]. cbn.
    apply orb_true_iff in Hs as [-> | Hd]; [by left | right; by apply bool_decide_eq_true in Hd].
  - eexists. cbn. rewrite emit_heap. cbn. rewrite lookup_insert_eq. split; [done |]. split; [done | by left].
Qed.

Lemma set_status_frame name r state e v :
  (forall o, v_heap v !! r = Some o -> o_run_err o <> DrainErr) -> e <> DrainErr -> state <> TUNNEL_STATUS_STATE_STOPPED ->
  frame v (setStatus name r state e v).
Proof.
  intros Hd He Hst. unfold setStatus. destruct (v_heap v !! r) as [o |] eqn:Hr; [| reflexivity].
  destruct (bool_decide _ || _); [reflexivity |]. etransitivity; [| apply emit_frame].
  apply (set_frame r o); [done | by split | ]. intros Hs _. split; [done |]. by split; [apply Hd |].
Qed.

Lemma set_status_quiet name r state e v : state <> TUNNEL_STATUS_STATE_STOPPED -> quiet v (setStatus name r state e v).
Proof.
  intros Hst. unfold setStatus. destruct (v_heap v !! r); [| reflexivity]. destruct (bool_decide _ || _); [reflexivity |].
  unfold emit. cbn. case_bool_decide; [eexists; split; [done |]; by repeat constructor | exists []; by rewrite app_nil_r].
Qed.

(** ** Starting, moving and ending a run *)

Lemma leased_mono v v' :
  v_owned v' = v_owned v -> v_timers v ⊆ v_timers v' ->
  (forall r o', v_heap v' !! r = Some o' -> exists o, v_heap v !! r = Some o /\ keeps_lease o o') -> leased v -> leased v'.
Proof.
  intros Eo Et Eh L name r o' Hn Hr Hs Hd. rewrite Eo in Hn. destruct (Eh r o' Hr) as (o & Ho & Hk).
  destruct (Hk Hs Hd) as (Hs' & Hd' & -> & ->). by apply Et, (L name r o).
Qed.

Lemma touch_inv r name pc pc' o o' v v' :
  inv v -> v_runs v !! r = Some (name, pc) -> pc <> Ended -> v_heap v !! r = Some o ->
  v_owned v' = v_owned v -> v_next v' = v_next v ->
  v_runs v' = <[r := (name, pc')]> (v_runs v) -> v_heap v' = <[r := o']> (v_heap v) ->
  (o_done o' = true <-> pc' = Ended) -> o_state o' <> TUNNEL_STATUS_STATE_STOPPED ->
  (o_run_err o' = DrainErr -> pc' = Drained \/ pc' = Ended) -> pc' <> Reporting DrainErr ->
  (o_stopping o' = true -> o_cancelled o' = true) -> inv v'.
Proof.
  intros [A B C D E F G H] Hr Hpc Ho Eo En Er Eh Hdone Hstate Hdrain Hrep Hcan.
  split; rewrite ?Eo, ?En, ?Er, ?Eh.
  - intros r2 n2 pc2 H2 Hl. apply lookup_insert_Some in H2 as [[<- [= <- <-]] | [N H2]]; eauto.
  - intros r2 n2 pc2 H2. apply lookup_insert_Some in H2 as [[<- [= <- <-]] | [N H2]].
    + exists o'. by rewrite lookup_insert_eq.
    + rewrite lookup_insert_ne by done. eauto.
  - intros n2 r2 H2. destruct (C n2 r2 H2) as [pc2 H2']. destruct (decide (r2 = r)) as [-> | N].
    + exists pc'. rewrite lookup_insert_eq. congruence.
    + exists pc2. by rewrite lookup_insert_ne.
  - intros r2 [o2 H2]. apply lookup_insert_Some in H2 as [[<- <-] | [N H2]]; apply D; eauto.
  - intros r2 o2 H2. apply lookup_insert_Some in H2 as [[<- <-] | [N H2]]; eauto.
  - intros r2 n2 pc2 o2 H2 H2'. apply lookup_insert_Some in H2 as [[<- [= <- <-]] | [N H2]].
    + rewrite lookup_insert_eq in H2'. injection H2' as <-. exact Hdrain.
    + rewrite lookup_insert_ne in H2' by done. eauto.
  - intros r2 n2 H2. apply lookup_insert_Some in H2 as [[<- [=]] | [N H2]]; [done |]. by apply (G r2 n2).
  - intros r2 o2 H2. apply lookup_insert_Some in H2 as [[<- <-] | [N H2]]; eauto.
Qed.

(** A run that moves on without ending. *)
Lemma move_inv r name pc pc' v :
  inv v -> v_runs v !! r = Some (name, pc) -> pc <> Ended -> pc <> Drained -> pc' <> Ended -> pc' <> Reporting DrainErr ->
  inv (set_pc r name pc' v).
Proof.
  intros I Hr Hpc Hnd Hpc' Hrep. destruct (inv_heap v I r name pc Hr) as (o & Ho & Hdone).
  eapply (touch_inv r name pc pc' o o); eauto using inv_state, inv_cancel.
  - cbn. by rewrite insert_id.
  - split; intros Hx; [by apply Hdone in Hx | done].
  - intros Hd. by destruct (inv_drain v I r name pc o Hr Ho Hd).
Qed.

Lemma end_inv r name pc v : inv v -> v_runs v !! r = Some (name, pc) -> pc <> Ended -> inv (set_pc r name Ended (close_done r v)).
Proof.
  intros I Hr Hpc. destruct (inv_heap v I r name pc Hr) as (o & Ho & Hdone). unfold close_done. rewrite Ho.
  eapply (touch_inv r name pc Ended o); eauto; cbn; eauto using inv_state, inv_cancel; done.
Qed.

Lemma move_leased r name pc v : leased v -> leased (set_pc r name pc v).
Proof. intros L. by apply (leased_mono v); [.. | done]; cbn; eauto; intros ? o'; exists o'. Qed.

Lemma end_leased r name pc v : leased v -> leased (set_pc r name pc (close_done r v)).
Proof.
  intros L. unfold close_done. destruct (v_heap v !! r) as [o |] eqn:Ho; [| by apply move_leased].
  apply (leased_mono v); [done | done | | done]. intros r' o'. cbn. intros H. apply lookup_insert_Some in H as [[<- <-] | [N H]].
  - exists o. by split.
  - exists o'. by split.
Qed.

Lemma start_fields name revision expires v :
  let v' := startLocked name revision expires v in
  let r := v_next v in
  v_owned v' = <[name := r]> (v_owned v) /\
  v_heap v' = <[r := mkOwned revision 1 TUNNEL_STATUS_STATE_STARTING NoErr true false expires false false]> (v_heap v) /\
  v_runs v' = <[r := (name, Running false)]> (v_runs v) /\ v_next v' = S r /\
  v_timers v' = v_timers v ++ [mkTimer name r 1 expires] /\ quiet v v'.
Proof.
  cbn. unfold startLocked, emit. cbn. case_bool_decide; cbn; repeat split; auto.
  - eexists. split; [done |]. by repeat constructor.
  - exists []. by rewrite app_nil_r.
Qed.

Lemma start_inv name revision expires v : inv v -> v_owned v !! name = None -> inv (startLocked name revision expires v).
Proof.
  intros [A B C D E F G H] Hn. destruct (start_fields name revision expires v) as (Eo & Eh & Er & En & _).
  assert (Hnew : forall r n pc, v_runs v !! r = Some (n, pc) -> r <> v_next v).
  { intros r n pc Hr ->. destruct (B _ n pc Hr) as (o & Ho & _). specialize (D _ (mk_is_Some _ _ Ho)). lia. }
  split; rewrite ?Eo, ?Eh, ?Er, ?En.
  - intros r n pc Hr Hl. apply lookup_insert_Some in Hr as [[<- [= <- <-]] | [N Hr]]; [by rewrite lookup_insert_eq |].
    pose proof (A r n pc Hr Hl) as Ho. rewrite lookup_insert_ne; [done |]. intros <-. congruence.
  - intros r n pc Hr. apply lookup_insert_Some in Hr as [[<- [= <- <-]] | [N Hr]].
    + eexists. rewrite lookup_insert_eq. by split.
    + rewrite lookup_insert_ne by done. eauto.
  - intros n r Ho. apply lookup_insert_Some in Ho as [[<- <-] | [N Ho]]; [exists (Running false); by rewrite lookup_insert_eq |].
    destruct (C n r Ho) as [pc Hr]. exists pc. rewrite lookup_insert_ne; [done |]. intros <-. by apply (Hnew _ n pc Hr).
  - intros r [o Ho]. apply lookup_insert_Some in Ho as [[<- _] | [N Ho]]; [lia |]. specialize (D r (mk_is_Some _ _ Ho)). lia.
  - intros r o Ho. apply lookup_insert_Some in Ho as [[<- <-] | [N Ho]]; [done | eauto].
  - intros r n pc o Hr Ho Hd. apply lookup_insert_Some in Hr as [[<- [= <- <-]] | [N Hr]].
    + rewrite lookup_insert_eq in Ho. injection Ho as <-. discriminate Hd.
    + rewrite lookup_insert_ne in Ho by done. eauto.
  - intros r n Hr. apply lookup_insert_Some in Hr as [[<- [=]] | [N Hr]]. by apply (G r n).
  - intros r o Ho. apply lookup_insert_Some in Ho as [[<- <-] | [N Ho]]; [done | eauto].
Qed.

Lemma start_leased name revision expires v : inv v -> leased v -> leased (startLocked name revision expires v).
Proof.
  intros I L n r o Hn Hr Hs Hd. destruct (start_fields name revision expires v) as (Eo & Eh & _ & _ & Et & _).
  rewrite Eo in Hn. rewrite Eh in Hr. rewrite Et. apply lookup_insert_Some in Hn as [[<- <-] | [N Hn]].
  - rewrite lookup_insert_eq in Hr. injection Hr as <-. cbn. set_solver.
  - destruct (inv_owned v I n r Hn) as [pc Hp]. destruct (inv_heap v I r n pc Hp) as (o2 & Ho2 & _).
    pose proof (inv_next v I r (mk_is_Some _ _ Ho2)). rewrite lookup_insert_ne in Hr by lia.
    apply elem_of_app. left. by apply (L n r o).
Qed.

(** ** Every step *)

(** What is proved of each step: the invariant, the leases and the statuses. *)
Definition good (v v' : Service) : Prop := inv v' /\ (leased v -> leased v') /\ quiet v v'.

Lemma frame_good v v' : inv v -> frame v v' -> quiet v v' -> good v v'.
Proof. intros I F Q. split; [by eapply frame_inv | by split; [apply frame_leased |]]. Qed.

Lemma move_good v v' r name pc pc' :
  good v v' -> v_runs v' !! r = Some (name, pc) -> pc <> Ended -> pc <> Drained -> pc' <> Ended -> pc' <> Reporting DrainErr ->
  good v (set_pc r name pc' v').
Proof. intros (I & L & Q) **. split; [by eapply move_inv | split; [intros ?; by apply move_leased, L | done]]. Qed.

Lemma close_quiet r name pc v : quiet v (set_pc r name pc (close_done r v)).
Proof. exists []. unfold close_done. rewrite app_nil_r. by destruct (v_heap v !! r). Qed.

Lemma end_good v r name pc : inv v -> v_runs v !! r = Some (name, pc) -> pc <> Ended -> good v (set_pc r name Ended (close_done r v)).
Proof. intros I Hr Hpc. split; [by eapply end_inv | split; [by apply end_leased | apply close_quiet]]. Qed.

Lemma self_good v : inv v -> good v v.
Proof. done. Qed.

(** A run that is neither drained nor ended reports. *)
Lemma set_status_good name r pc state e v :
  inv v -> v_runs v !! r = Some (name, pc) -> pc <> Ended -> pc <> Drained -> e <> DrainErr -> state <> TUNNEL_STATUS_STATE_STOPPED ->
  good v (setStatus name r state e v) /\ v_runs (setStatus name r state e v) !! r = Some (name, pc).
Proof.
  intros I Hr Hpc Hnd He Hst.
  assert (frame v (setStatus name r state e v)) as Fr.
  { apply set_status_frame; [| done | done]. intros o Ho Hd. by destruct (inv_drain v I r name pc o Hr Ho Hd). }
  split; [by apply frame_good; [| | apply set_status_quiet] |]. by rewrite (fr_runs _ _ Fr).
Qed.

(** A failed drain. *)
Lemma drain_good name r v :
  inv v -> v_runs v !! r = Some (name, Finished DrainErr) ->
  good v (set_pc r name Drained (setStatus name r TUNNEL_STATUS_STATE_FAILED DrainErr v)).
Proof.
  intros I Hr. destruct (inv_heap v I r name _ Hr) as (o & Ho & Hdone).
  pose proof (inv_live v I r name _ Hr ltac:(done)) as Hown.
  pose proof (set_status_quiet name r TUNNEL_STATUS_STATE_FAILED DrainErr v ltac:(done)) as Q. revert Q.
  unfold setStatus. rewrite Ho, Hown. rewrite (bool_decide_eq_false_2 (Some r <> Some r)) by auto. cbn [orb].
  rewrite (bool_decide_eq_true_2 (DrainErr = DrainErr)) by done. cbn [negb]. rewrite andb_false_r.
  set (o' := {| o with o_state := TUNNEL_STATUS_STATE_FAILED; o_run_err := DrainErr |}). intros Q.
  set (v' := emit (statusMessage name o') (set_owned r o' v)) in *.
  pose proof (emit_frame (statusMessage name o') (set_owned r o' v)) as [Eo Er En Et _]. fold v' in Eo, Er, En, Et.
  assert (v_heap v' = <[r := o']> (v_heap v)) as Eh by (unfold v'; by rewrite emit_heap).
  split; [| split].
  - eapply (touch_inv r name _ Drained o o' v); eauto; cbn; rewrite ?Eo, ?En, ?Er; try done.
    + by rewrite Hdone.
    + apply (inv_cancel v I r o Ho).
  - intros L. apply (leased_mono v); cbn; [by rewrite Eo | by rewrite Et | | done].
    intros r2 o2. rewrite Eh. intros H2. apply lookup_insert_Some in H2 as [[<- <-] | [N H2]]; [exists o; by split |].
    exists o2. by split.
  - exact Q.
Qed.

Lemma run_good r name pc ev v v' : inv v -> v_runs v !! r = Some (name, pc) -> run_next name r pc ev v = Some v' -> good v v'.
Proof.
  intros I Hr Hn. destruct pc as [rep | e | e | | | |]; destruct ev as [| | e' | |]; cbn in Hn; try discriminate Hn.
  - injection Hn as <-. destruct rep; [by apply self_good |].
    destruct (set_status_good name r (Running false) TUNNEL_STATUS_STATE_READY NoErr v) as [Hg Hr']; try done.
    by eapply move_good.
  - injection Hn as <-. by destruct (set_status_good name r (Running rep) TUNNEL_STATUS_STATE_STARTING NoErr v).
  - injection Hn as <-. eapply move_good; eauto using self_good; done.
  - by destruct e.
  - by destruct e.
  - by destruct e.
  - by destruct e.
  - destruct e; [| injection Hn as <-; by apply drain_good |]; injection Hn as <-;
      (destruct (cancelled r v); [by eapply end_good | eapply move_good; eauto using self_good; done]).
  - injection Hn as <-. destruct (decide (e = DrainErr)) as [-> | He]; [by destruct (inv_report v I r name) |].
    destruct (set_status_good name r (Reporting e) TUNNEL_STATUS_STATE_FAILED e v) as [Hg Hr']; try done. by eapply move_good.
  - injection Hn as <-. destruct (isCurrent name r v); [eapply move_good; eauto using self_good; done | by eapply end_good].
  - destruct (cancelled r v); [| done]. injection Hn as <-. by eapply end_good.
  - injection Hn as <-.
    destruct (set_status_good name r Restarting TUNNEL_STATUS_STATE_STARTING NoErr v) as [Hg Hr']; try done. by eapply move_good.
  - injection Hn as <-. destruct (end_good {| v with v_failures := true |} r name Drained) as (I' & L' & Q'); [by destruct I | done | done |].
    split; [done |]. split; [exact L' | exact Q'].
Qed.

(** The statuses a step appends: a STOPPED one only for a tunnel without a live run. *)
Definition honest (v v' : Service) : Prop :=
  exists l, v_updates v' = v_updates v ++ l /\
    Forall (fun m => sm_state m = TUNNEL_STATUS_STATE_STOPPED -> forall r, ~ live v' (sm_tunnel_name m) r) l.

Lemma quiet_honest v v' : quiet v v' -> honest v v'.
Proof. intros (l & E & F). exists l. split; [done |]. eapply Forall_impl; [exact F | done]. Qed.

Lemma not_owned_not_live v name r : inv v -> v_owned v !! name = None -> ~ live v name r.
Proof. intros I Hn (pc & Hr & Hl). pose proof (inv_live v I r name pc Hr Hl). congruence. Qed.

Lemma emit_stopped name revision v :
  inv v -> v_owned v !! name = None -> honest v (emit (mkStatusMessage name revision TUNNEL_STATUS_STATE_STOPPED) v).
Proof.
  intros I Hn. unfold emit. case_bool_decide; [| exists []; by rewrite app_nil_r].
  eexists. split; [done |]. constructor; [| done]. intros _ r. by apply (not_owned_not_live v).
Qed.

Lemma find_owned_Some name v r o : find_owned name v = Some (r, o) <-> v_owned v !! name = Some r /\ v_heap v !! r = Some o.
Proof.
  unfold find_owned. destruct (v_owned v !! name) as [r' |] eqn:E; [destruct (v_heap v !! r') as [o' |] eqn:E' |].
  - split; [by intros [= -> ->] | intros [[= ->] H]; congruence].
  - split; [done | intros [[= ->] H]; congruence].
  - split; [done | by intros [? ?]].
Qed.

Lemma find_owned_None name v : inv v -> find_owned name v = None -> v_owned v !! name = None.
Proof.
  intros I. unfold find_owned. destruct (v_owned v !! name) as [r |] eqn:E; [| done].
  destruct (inv_owned v I name r E) as [pc Hr]. by destruct (inv_heap v I r name pc Hr) as (o & -> & _).
Qed.

(** Leases but for one object, which [stopLocked] then stops. *)
Definition leased_but (r0 : nat) (v : Service) : Prop :=
  forall name r o, r <> r0 -> v_owned v !! name = Some r -> v_heap v !! r = Some o -> o_stopping o = false -> o_run_err o <> DrainErr ->
  mkTimer name r (o_generation o) (o_expires o) ∈ v_timers v.

Lemma stop_locked_leased name r o0 o v :
  v_heap v !! r = Some o0 -> evolves o0 o -> leased_but r v -> leased (stopLocked name r o v).
Proof.
  intros Hr He L n r' o' Hn Hr' Hs Hd. destruct (stop_locked_object name r o v) as (os & Hos & _ & Hor).
  destruct (decide (r' = r)) as [-> | N]; [destruct Hor; congruence |].
  revert Hn Hr'. unfold stopLocked. cbn. destruct (o_stopping o || _); cbn; unfold emit; repeat case_bool_decide; cbn;
    rewrite ?lookup_insert_ne by done; intros; by apply (L n r' o').
Qed.

(** [stopLocked] on an object the caller has changed. *)
Lemma stop_locked_shape name r o0 o v : v_heap v !! r = Some o0 -> evolves o0 o -> shape v (stopLocked name r o v).
Proof.
  intros Hr He. assert (shape v (set_owned r o v)) as (Eo & Er & En & Eh).
  { repeat split. intros r'. cbn. destruct (decide (r' = r)) as [-> | N]; [rewrite Hr, lookup_insert_eq; by constructor |].
    rewrite lookup_insert_ne by done. by destruct (v_heap v !! r'); constructor. }
  assert (stopLocked name r o (set_owned r o v) = stopLocked name r o v) as <-.
  { unfold stopLocked, set_owned, emit. cbn. by rewrite !insert_insert_eq. }
  destruct (frame_shape _ _ (stop_locked_frame name r o o (set_owned r o v) ltac:(by cbn; rewrite lookup_insert_eq) ltac:(done) ltac:(done)))
    as (Eo' & Er' & En' & Eh').
  repeat split; try congruence. intros r'. specialize (Eh r'). specialize (Eh' r').
  destruct Eh as [? ? | ]; inversion Eh'; subst; constructor. by etransitivity.
Qed.

Lemma expired_good t v :
  inv v -> t_deadline t <= v_now v -> forall l1 l2, v_timers v = l1 ++ t :: l2 ->
  let v' := expired t {| v with v_timers := l1 ++ l2 |} in good v v'.
Proof.
  intros I _ l1 l2 Et. cbn. unfold expired.
  assert (inv {| v with v_timers := l1 ++ l2 |}) as I' by by destruct I.
  assert (Hkeep : forall n r o, leased v -> v_owned v !! n = Some r -> v_heap v !! r = Some o -> o_stopping o = false ->
    o_run_err o <> DrainErr -> r <> t_ref t \/ o_generation o <> t_generation t \/ n <> t_name t ->
    mkTimer n r (o_generation o) (o_expires o) ∈ l1 ++ l2).
  { intros n r o L Hn Hr Hs Hd Hne. pose proof (L n r o Hn Hr Hs Hd) as Hin. rewrite Et in Hin.
    apply elem_of_app in Hin as [Hin | Hin]; [set_solver |]. apply elem_of_cons in Hin as [<- | Hin]; [| set_solver].
    cbn in Hne. tauto. }
  destruct (find_owned (t_name t) _) as [[r o] |] eqn:Hf.
  - apply find_owned_Some in Hf as [Hn Hr]. cbn in Hn, Hr.
    destruct (bool_decide (r = t_ref t) && _) eqn:Hc.
    + apply andb_prop in Hc as [->%bool_decide_eq_true _]. split; [| split].
      * eapply shape_inv; [| exact I']. by eapply stop_locked_shape; [exact Hr | by split].
      * intros L. eapply stop_locked_leased; [exact Hr | by split |]. intros n r' o' N Hn' Hr' Hs Hd. cbn in *. apply Hkeep; auto.
      * match goal with |- quiet _ (stopLocked ?n ?r ?o ?w) => destruct (stop_locked_quiet n r o w) as (l & E & F) end. by exists l.
    + split; [done |]. split; [| exists []; by rewrite app_nil_r]. intros L n r' o' Hn' Hr' Hs Hd. cbn in *. apply Hkeep; auto.
      destruct (decide (n = t_name t)) as [-> | N]; [| auto]. rewrite Hn in Hn'. injection Hn' as <-. rewrite Hr in Hr'. injection Hr' as <-.
      apply andb_false_iff in Hc as [Hc | Hc]; apply bool_decide_eq_false in Hc; auto.
  - split; [done |]. split; [| exists []; by rewrite app_nil_r]. intros L n r o Hn Hr Hs Hd. cbn in *. apply Hkeep; auto.
    right. right. intros ->. apply (find_owned_None _ _ I') in Hf. cbn in Hf. congruence.
Qed.

(** A tunnel whose run has ended is forgotten. *)
Lemma forget_inv name r v :
  inv v -> v_owned v !! name = Some r -> v_runs v !! r = Some (name, Ended) -> inv {| v with v_owned := delete name (v_owned v) |}.
Proof.
  intros [A B C D E F G H] Hn Hr. split; cbn; try done.
  - intros r' n pc Hr' Hl. pose proof (A r' n pc Hr' Hl) as Ho. rewrite lookup_delete_ne; [done |]. intros <-. congruence.
  - intros n r' Ho. apply lookup_delete_Some in Ho as [_ Ho]. eauto.
Qed.

(** What a step keeps. *)
Definition sound (v v' : Service) : Prop :=
  inv v' /\ (leased v -> leased v') /\ (honest v v' \/ exists m, v_updates v = m :: v_updates v').

Lemma good_sound v v' : good v v' -> sound v v'.
Proof. intros (I & L & Q). split; [done |]. split; [done |]. left. by apply quiet_honest. Qed.

Lemma finish_sound name r o v :
  inv v -> v_heap v !! r = Some o -> o_done o = true -> sound v (finishStop name r v).
Proof.
  intros I Ho Hd. unfold finishStop. rewrite Ho. destruct (bool_decide _ || _) eqn:Hc; [by apply good_sound, self_good |].
  apply orb_false_iff in Hc as [Hn _]. apply bool_decide_eq_false, dec_stable in Hn.
  assert (v_runs v !! r = Some (name, Ended)) as Hr.
  { destruct (inv_owned v I name r Hn) as [pc Hr]. destruct (inv_heap v I r name pc Hr) as (o' & Ho' & Hiff).
    rewrite Ho in Ho'. injection Ho' as <-. by rewrite (proj1 Hiff Hd) in Hr. }
  pose proof (forget_inv name r v I Hn Hr) as I'. set (w := {| v with v_owned := delete name (v_owned v) |}) in *.
  assert (Hnone : v_owned w !! name = None) by apply lookup_delete_eq.
  assert (Hl : leased v -> leased w).
  { intros L n r' o' Ho'. cbn in Ho'. apply lookup_delete_Some in Ho' as [_ Ho']. by apply (L n r'). }
  destruct (o_want_run o && _).
  - split; [by apply start_inv | split; [intros L; apply start_leased; auto |]].
    left. apply quiet_honest. by destruct (start_fields name (o_revision o) (o_expires o) w) as (_ & _ & _ & _ & _ & l & E & F); exists l.
  - split; [eapply frame_inv; [apply emit_frame | done] | split; [intros L; eapply frame_leased; [apply emit_frame | auto] |]].
    left. exact (emit_stopped name (o_revision o) w I' Hnone).
Qed.

Lemma renew_sound m r o expires wantRun v :
  inv v -> find_owned (dm_tunnel_name m) v = Some (r, o) ->
  let o' := renewed m wantRun expires o in
  let w := set_owned r o' v in
  good v (if wantRun then expire (dm_tunnel_name m) r (o_generation o') expires w else stopLocked (dm_tunnel_name m) r o' w).
Proof.
  intros I [Hn Hr]%find_owned_Some o' w.
  assert (inv w) as I'.
  { eapply shape_inv; [| exact I]. repeat split. intros r'. cbn. destruct (decide (r' = r)) as [-> | N].
    - rewrite Hr, lookup_insert_eq. constructor. by split.
    - rewrite lookup_insert_ne by done. by destruct (v_heap v !! r'); constructor. }
  assert (Hb : leased v -> leased_but r w).
  { intros L n r' o2 N Hn' Hr'. cbn in Hn', Hr'. rewrite lookup_insert_ne in Hr' by done. by apply (L n r'). }
  assert (Hr' : v_heap w !! r = Some o') by apply lookup_insert_eq.
  destruct wantRun.
  - split; [by destruct I' | split; [| exists []; by rewrite app_nil_r]]. intros L n r' o2 Hn' Hr2 Hs Hd. cbn [expire v_timers].
    apply elem_of_app. destruct (decide (r' = r)) as [-> | N]; [right | left; by apply (Hb L n r' o2)].
    cbn [expire v_heap v_owned] in Hn', Hr2. rewrite Hr' in Hr2. injection Hr2 as <-.
    destruct (inv_owned w I' n r Hn') as [pc Hp]. destruct (inv_owned w I' _ r Hn) as [pc2 Hp2]. rewrite Hp in Hp2. injection Hp2 as -> _.
    by apply list_elem_of_singleton.
  - split; [eapply shape_inv; [by eapply stop_locked_shape | done] | split].
    + intros L. eapply stop_locked_leased; eauto. done.
    + destruct (stop_locked_quiet (dm_tunnel_name m) r o' w) as (l & E & F). by exists l.
Qed.

Lemma emit_state_good name v v' r :
  good v v' -> good v (match v_heap v' !! r with Some o => emit (statusMessage name o) v' | None => v' end).
Proof.
  intros (I & L & Q). destruct (v_heap v' !! r) as [o |] eqn:Ho; [| done]. split; [eapply frame_inv; [apply emit_frame | done] |].
  split; [intros HL; eapply frame_leased; [apply emit_frame | auto] |]. etransitivity; [exact Q |].
  apply emit_quiet. cbn. by apply (inv_state v' I r o).
Qed.

Lemma apply_sound allowed m v : inv v -> sound v (apply allowed m v).1.
Proof.
  intros I. unfold apply. destruct (validate allowed m) as [[] |]; [| by apply good_sound, self_good].
  set (wantRun := bool_decide _). set (expires := v_now v + _). cbv zeta. clearbody wantRun.
  destruct (find_owned (dm_tunnel_name m) v) as [[r o] |] eqn:Hf.
  - destruct (bool_decide _); [by apply good_sound, self_good |]. cbn [fst].
    apply good_sound. exact (emit_state_good (dm_tunnel_name m) v _ r (renew_sound m r o expires wantRun v I Hf)).
  - pose proof (find_owned_None _ v I Hf) as Hn. destruct wantRun; cbn [negb fst].
    + apply good_sound. split; [by apply start_inv | split; [by apply start_leased |]].
      by destruct (start_fields (dm_tunnel_name m) (dm_revision m) expires v) as (_ & _ & _ & _ & _ & Q).
    + split; [eapply frame_inv; [apply emit_frame | done] | split; [by eapply frame_leased, emit_frame |]].
      left. by apply emit_stopped.
Qed.

Lemma stop_name_good v name : inv v -> good v (stop_name v name).
Proof.
  intros I. unfold stop_name. destruct (find_owned name v) as [[r o] |] eqn:Hf; [| by apply self_good].
  apply find_owned_Some in Hf as [_ Hr]. apply frame_good; [done | | apply stop_locked_quiet].
  eapply stop_locked_frame; [exact Hr | by split |]. by intros ? ?.
Qed.

Lemma stop_all_good order v : inv v -> good v (stopAll order v).
Proof.
  unfold stopAll. revert v. induction order as [| n order IH]; intros v I; [by apply self_good |]. cbn.
  destruct (stop_name_good v n I) as (I1 & L1 & Q1). destruct (IH _ I1) as (I2 & L2 & Q2).
  split; [done |]. split; [auto | by etransitivity].
Qed.

Lemma step_sound allowed v v' : step allowed v v' -> inv v -> sound v v'.
Proof.
  intros Hs I. destruct Hs as [m v | m rest v E | v E | r name pc ev v v' Hr Hn | t l1 l2 v Et Hd | name r o l1 l2 v Ef Ho Hd | order v Ho | now v Hn].
  - by apply apply_sound.
  - split; [by destruct I | split; [done |]]. right. by exists m.
  - apply good_sound. split; [by destruct I | split; [done | exists []; by rewrite app_nil_r]].
  - apply good_sound. by eapply run_good.
  - apply good_sound. by apply expired_good.
  - assert (inv {| v with v_finishing := l1 ++ l2 |}) as I' by by destruct I.
    exact (finish_sound name r o _ I' Ho Hd).
  - by apply good_sound, stop_all_good.
  - apply good_sound. split; [by destruct I | split; [done | exists []; by rewrite app_nil_r]].
Qed.

Lemma initial_inv : inv initial /\ leased initial.
Proof. split; [split | intros ? ? ? H]; cbn; try (intros * H); try (by rewrite lookup_empty in H); try by destruct H. Qed.

Lemma reachable_sound allowed v : reachable allowed v -> inv v /\ leased v.
Proof.
  intros Hr. pose proof initial_inv as HI. revert Hr HI. unfold reachable. generalize initial. intros v0 Hr.
  induction Hr as [| v0 v1 v2 Hs _ IH]; [done |]. intros [I L]. apply IH. destruct (step_sound allowed v0 v1 Hs I) as (I' & L' & _). auto.
Qed.

(** ** Claims *)

(** C21. At most one run of a tunnel is live at any time, and it is the one the
    supervisor owns under that name: whatever messages, expiries, failures, restarts
    and stops interleave, two goroutines never drive the same Pod. *)
Theorem one_run_per_tunnel (allowed : gset string) (v : Service) (name : string) (r r' : nat) (pc pc' : RunPc) :
  reachable allowed v ->
  v_runs v !! r = Some (name, pc) -> pc <> Ended -> v_runs v !! r' = Some (name, pc') -> pc' <> Ended ->
  r = r' /\ v_owned v !! name = Some r.
Proof.
  intros [I _]%reachable_sound H1 Hl1 H2 Hl2. pose proof (inv_live v I r name pc H1 Hl1). pose proof (inv_live v I r' name pc' H2 Hl2).
  split; congruence.
Qed.

(** A STOPPED status is queued for the leader only when no run of the tunnel is
    live: the runner has returned, which it does after it has revoked the Pod. *)
Theorem stopped_means_revoked (allowed : gset string) (v v' : Service) (l : list StatusMessage) (m : StatusMessage) (r : nat) :
  reachable allowed v -> step allowed v v' -> v_updates v' = v_updates v ++ l -> m ∈ l ->
  sm_state m = TUNNEL_STATUS_STATE_STOPPED -> ~ live v' (sm_tunnel_name m) r.
Proof.
  intros [I _]%reachable_sound Hs El Hm Hst. destruct (step_sound allowed v v' Hs I) as (_ & _ & [(l' & El' & F) | [m' E]]).
  - rewrite El in El'. apply app_inv_head in El' as ->. rewrite Forall_forall in F. by apply (F m).
  - rewrite E in El. apply (f_equal length) in El. rewrite length_app in El. cbn in El. lia.
Qed.

(** No tunnel outlives its lease unnoticed: when the lease of a run that is neither
    cancelled nor ended by a failed drain is over, a goroutine is due whose critical
    section cancels that run, marks its tunnel as stopping and withdraws the wish to
    run; renewals replace the lease and its timer together. *)
Theorem lease_enforced (allowed : gset string) (v : Service) (name : string) (r : nat) (o : Owned) (pc : RunPc) :
  reachable allowed v -> v_runs v !! r = Some (name, pc) -> pc <> Drained -> pc <> Ended ->
  v_heap v !! r = Some o -> o_cancelled o = false -> o_expires o <= v_now v ->
  exists v' o', step allowed v v' /\ v_heap v' !! r = Some o' /\ o_cancelled o' = true /\ o_stopping o' = true /\ o_want_run o' = false /\
    (name, r) ∈ v_finishing v'.
Proof.
  intros [I L]%reachable_sound Hr Hnd Hne Ho Hc He.
  assert (Hs : o_stopping o = false) by (destruct (o_stopping o) eqn:E; [pose proof (inv_cancel v I r o Ho E); congruence | done]).
  assert (Hd : o_run_err o <> DrainErr) by (intros E; by destruct (inv_drain v I r name pc o Hr Ho E)).
  pose proof (inv_live v I r name pc Hr Hne) as Hn.
  destruct (list_elem_of_split _ _ (L name r o Hn Ho Hs Hd)) as (l1 & l2 & Et).
  do 2 eexists. split; [exact (step_expire allowed _ l1 l2 v Et He) |].
  unfold expired. rewrite (proj2 (find_owned_Some name _ r o)) by done. cbn [t_name t_ref t_generation].
  rewrite !bool_decide_eq_true_2 by done. cbn [andb]. unfold stopLocked. cbn. rewrite Hs, bool_decide_eq_false_2 by done. cbn.
  rewrite emit_heap. cbn. rewrite lookup_insert_eq. repeat split. apply elem_of_app. right. by apply list_elem_of_singleton.
Qed.

(** ** A concrete run of the tunnel supervisor

    The leader asks for tunnel [t] under a lease of thirty seconds; in one run the lease
    is renewed and then lapses, in another the leader withdraws it and the Pod is
    revoked. *)
Module SupervisorWitnesses.
Import Tunnels Supervisor.

#[local] Open Scope Z_scope.

Definition names : gset string := {["t"; "u"]}.
Definition running : Service := (apply names (mkDesiredMessage "t" 1 TUNNEL_DESIRED_STATE_RUNNING 30) initial).1.
Definition renewed_later : Service :=
  (apply names (mkDesiredMessage "t" 2 TUNNEL_DESIRED_STATE_RUNNING 30) {| running with v_now := 10 * second |}).1.
Definition lapsed : Service := {| renewed_later with v_now := 41 * second |}.

Lemma running_reachable : reachable names running.
Proof. apply rtc_once, step_apply. Qed.

Lemma lapsed_reachable : reachable names lapsed.
Proof.
  apply (rtc_r _ renewed_later); [apply (rtc_r _ {| running with v_now := 10 * second |}); [apply (rtc_r _ running) |] |].
  - exact running_reachable.
  - apply (step_clock names (10 * second) running). vm_compute. discriminate.
  - apply step_apply.
  - apply (step_clock names (41 * second) renewed_later). vm_compute. discriminate.
Qed.

Definition withdrawn : Service := (apply names (mkDesiredMessage "t" 2 TUNNEL_DESIRED_STATE_STOPPED 0) running).1.
Definition returned : Service := set_pc 0 "t" (Finished NoErr) withdrawn.
Definition revoked : Service := set_pc 0 "t" Ended (close_done 0 returned).

Lemma revoked_reachable : reachable names revoked.
Proof.
  apply (rtc_r _ returned); [apply (rtc_r _ withdrawn); [apply (rtc_r _ running) |] |].
  - exact running_reachable.
  - apply step_apply.
  - apply (step_run names 0%nat "t" (Running false) (Return NoErr)); vm_compute; reflexivity.
  - apply (step_run names 0%nat "t" (Finished NoErr) Step); vm_compute; reflexivity.
Qed.

Lemma one_run_witness : 0%nat = 0%nat /\ v_owned renewed_later !! "t" = Some 0%nat.
Proof.
  refine (one_run_per_tunnel names lapsed "t" 0 0 (Running false) (Running false) lapsed_reachable _ _ _ _).
  - vm_compute. reflexivity.
  - discriminate.
  - vm_compute. reflexivity.
  - discriminate.
Defined.

Lemma stopped_witness : ~ live (finishStop "t" 0 {| revoked with v_finishing := [] |}) "t" 0.
Proof.
  refine (stopped_means_revoked names revoked _ [mkStatusMessage "t" 2 TUNNEL_STATUS_STATE_STOPPED] (mkStatusMessage "t" 2 TUNNEL_STATUS_STATE_STOPPED) 0 revoked_reachable
    (step_finish names "t" 0%nat (mkOwned 2 2 TUNNEL_STATUS_STATE_STARTING NoErr false true 0 true true) [] [] revoked _ _ _) _ _ _).
  - vm_compute. reflexivity.
  - vm_compute. reflexivity.
  - reflexivity.
  - vm_compute. reflexivity.
  - left.
  - reflexivity.
Defined.

Lemma lease_witness :
  exists v' o', step names lapsed v' /\ v_heap v' !! 0%nat = Some o' /\ o_cancelled o' = true /\ o_stopping o' = true /\ o_want_run o' = false /\
    ("t", 0%nat) ∈ v_finishing v'.
Proof.
  refine (lease_enforced names lapsed "t" 0 (mkOwned 2 2 TUNNEL_STATUS_STATE_STARTING NoErr true false (40 * second) false false) (Running false)
    lapsed_reachable _ _ _ _ _ _).
  - vm_compute. reflexivity.
  - discriminate.
  - discriminate.
  - vm_compute. reflexivity.
  - reflexivity.
  - vm_compute. discriminate.
Defined.
End SupervisorWitnesses.
