(* ===== verification/Cutover.v ===== *)
(** * Tenant cutover ([src/internal/server/tenantstate/cutover.go])

    [ProviderCutover] moves a tenant's traffic between its instances and the wake
    path: it registers and withdraws load-balancer targets, starts and stops wake
    tunnels and waits until the provider confirms.  It only reads the database and
    the configuration, which other goroutines change while it waits: both are
    observations indexed by the number of observations so far, like the provider's
    answers ([CutoverEnv]).

    What it does and is told is recorded in [k_trace].  A loop that waits takes the
    number of rounds as fuel and answers [None] when they run out; [CutoverFacts]
    says when they suffice. *)

From S2P Require Import Prelude Provider Json LocalDB GoText Config ProxyConfig TunnelControl.

(** [proto.Metrics]: what the cutover reads of it, the error and the number of
    active connections by port. *)
Record Metrics := mkMetrics {
  me_ebpf_error : option string;
  me_ebpf_counters : gmap Z Z;
}.

#[global] Instance Metrics_eq_dec : EqDecision Metrics.
Proof. solve_decision. Defined.

(** What is done, with its outcome. *)
Inductive CutoverEvent :=
  | KRegister (req : LBRequest) (r : res unit)
  | KDeregister (req : LBRequest) (r : res unit)
  | KState (req : LBRequest) (r : res LBTargetState)
  | KDesired (tunnel : string) (state : TunnelDesired) (r : res Z)
  | KStatus (tunnel : string) (revision : Z) (r : res TunnelStatus)
  | KDial (addr : string) (ok : bool).

Record Cutover := mkCutover {
  k_tick : nat;
  k_trace : list CutoverEvent;
}.

(** [CutoverOptions]; the functions and services it holds are the environment's. *)
Record CutoverOptions := mkCutoverOptions {
  ko_dependencies : bool;           (* Config, Instances, Provider and Targets are not nil *)
  ko_server_instance_id : string;
  ko_poll_interval : Z;
  ko_fresh_for : Z;
}.

Class CutoverEnv := mkCutoverEnv {
  ke_config : nat -> Config;                                  (* options.Config() *)
  ke_db : nat -> DB;                                          (* options.Instances *)
  ke_db_fault : nat -> option err;
  ke_now : nat -> Z;
  ke_lb_state : nat -> LBRequest -> res LBTargetState;        (* Provider.GetLBTargetState *)
  ke_lb_register : nat -> LBRequest -> res unit;              (* Provider.RegisterWithLB *)
  ke_lb_deregister : nat -> LBRequest -> res unit;            (* Provider.DeregisterFromLB *)
  ke_tunnel : nat -> bool;                                    (* c.tunnel() != nil *)
  ke_set_desired : nat -> string -> TunnelDesired -> res Z;   (* TunnelController.SetDesired *)
  ke_wait : nat -> string -> Z -> res TunnelStatus;           (* TunnelController.Wait *)
  ke_dial : nat -> string -> bool;                            (* DialContext succeeds *)
  ke_decode_health : option string -> res (option Metrics);   (* json.Unmarshal *)
  ke_select : nat -> option err;                              (* the case of the select that runs: ctx.Done with ctx.Err(), or the ticker *)
  ke_order : nat -> RangeOrder;                               (* for range over a map *)
  ke_ports : nat -> gset Z -> list Z;                         (* for range over a set of ports *)
  ke_ports_perm : forall n s, ke_ports n s ≡ₚ elements s;
}.

(** [NewProviderCutover]. *)
Definition NewProviderCutover (o : CutoverOptions) : res CutoverOptions :=
  if negb (ko_dependencies o) || bool_decide (ko_server_instance_id o = "")
  then Err (ErrMsg "config, instances, provider, targets, and server instance ID are required")
  else Ok {| o with
    ko_poll_interval := (if bool_decide (ko_poll_interval o <= 0) then 200000000 else ko_poll_interval o);
    ko_fresh_for := (if bool_decide (ko_fresh_for o <= 0) then 2 * minute else ko_fresh_for o) |}.

(** [infra.LoadBalancerConfigForProvider]: a copy, field by field. *)
Definition LoadBalancerConfigForProvider (lb : LoadBalancerConfig) : LoadBalancerConfig :=
  mkLoadBalancerConfig (lbc_provider lb)
    ((fun '(arn, listener, target, proxy) => (arn, listener, target, proxy)) <$> lbc_target_groups lb)
    (lbc_neg lb)
    ((fun '(ip, port) => (ip, port)) <$> lbc_frontends lb)
    ((fun '(target, proxy) => (target, proxy)) <$> lbc_listeners lb).

(** [config.LoadBalancerConfig{}]. *)
Definition zero_lb : LoadBalancerConfig := mkLoadBalancerConfig "" [] [] [] [].

Definition find_lb (cfg : Config) (name : string) : LoadBalancerConfig := default zero_lb (c_load_balancers cfg !! name).

(** [group.Size == nil || *group.Size <= 0] is its negation. *)
Definition sized (g : GroupConfig) : bool :=
  match gc_size g with Some n => bool_decide (0 < n) | None => false end.

Definition is_tunnel (lb : LoadBalancerConfig) : bool := bool_decide (lbc_provider lb = "tunnel").

(** [sameLB]. *)
Definition sameLB (left right : LoadBalancerConfig) : bool :=
  bool_decide (lbc_provider left = lbc_provider right) &&
  bool_decide (lbc_target_groups left = lbc_target_groups right) &&
  bool_decide (lbc_neg left = lbc_neg right).

(** [uint32(port)]. *)
Definition uint32 (z : Z) : Z := z `mod` 2 ^ 32.

(** ** Steps *)

(** A computation that may wait: [None] when it runs out of rounds. *)
Abbreviation W A := (M Cutover (option (res A))).

Definition w_bind {A B} (m : W A) (f : A -> W B) : W B :=
  m ≫= fun r => match r with
                | None => mret None
                | Some (Err e) => mret (Some (Err e))
                | Some (Ok a) => f a
                end.

Notation "x ←! m ; f" := (w_bind m (fun x => f))
  (at level 20, m at level 100, f at level 200, only parsing) : stdpp_scope.

(** A call that returns at once. *)
Definition now_ {A} (m : M Cutover (res A)) : W A := r ← m; mret (Some r).
Definition w_ret {A} (a : A) : W A := mret (Some (Ok a)).
Definition w_fail {A} (e : err) : W A := mret (Some (Err e)).

(** [if err := m; err != nil { return fmt.Errorf(msg, err) }]. *)
Definition w_wrap {A} (msg : string) (m : W A) : W A :=
  r ← m; mret (match r with Some (Err e) => Some (Err (ErrWrap msg e)) | _ => r end).

Fixpoint w_each {A} (l : list A) (body : A -> W unit) : W unit :=
  match l with
  | [] => w_ret tt
  | x :: l' => _ ←! body x; w_each l' body
  end.

(** A loop that threads an accumulator. *)
Fixpoint w_fold {S A} (body : S -> A -> W S) (s : S) (l : list A) : W S :=
  match l with
  | [] => w_ret s
  | x :: l' => s' ←! body s x; w_fold body s' l'
  end.

Definition k_observe {A} (f : nat -> A) : M Cutover A :=
  fun c => ({| c with k_tick := S (k_tick c) |}, f (k_tick c)).

Definition k_emit (e : CutoverEvent) : M Cutover unit :=
  fun c => ({| c with k_trace := k_trace c ++ [e] |}, tt).

(** A call to the outside world, recorded with its outcome. *)
Definition k_call {A} (f : nat -> res A) (e : res A -> CutoverEvent) : W A :=
  r ← k_observe f;
  _ ← k_emit (e r);
  mret (Some r).

(** One round of a polling loop: [Some a] leaves the loop, [None] waits. *)
Fixpoint poll {HK : CutoverEnv} {A} (fuel : nat) (round : W (option A)) : W A :=
  match fuel with
  | O => mret None
  | S fuel' =>
      o ←! round;
      match o with
      | Some a => w_ret a
      | None =>
          d ← k_observe ke_select;
          match d with
          | Some e => w_fail e
          | None => poll fuel' round
          end
      end
  end.

Section Cutover.
Context {HK : CutoverEnv}.
Variable opts : CutoverOptions.

Definition k_config : M Cutover Config := k_observe ke_config.

(** A query of the local cache: the driver may fail. *)
Definition k_query {A} (f : DB -> res A) : W A :=
  fault ← k_observe ke_db_fault;
  match fault with
  | Some e => w_fail e
  | None => db ← k_observe ke_db; mret (Some (f db))
  end.

(** [Manager.RegisterTarget], [Manager.DeregisterTarget] (instances), which call the
    provider under the lock of target changes, and [Provider.GetLBTargetState]. *)
Definition RegisterTarget (req : LBRequest) : W unit := k_call (fun n => ke_lb_register n req) (KRegister req).
Definition DeregisterTarget (req : LBRequest) : W unit := k_call (fun n => ke_lb_deregister n req) (KDeregister req).
Definition GetLBTargetState (req : LBRequest) : W LBTargetState := k_call (fun n => ke_lb_state n req) (KState req).

(** [c.tunnel()], then [controller.SetDesired] and [controller.Wait]. *)
Definition tunnel : W unit :=
  up ← k_observe ke_tunnel;
  if up : bool then w_ret tt else w_fail (ErrMsg "wake tunnel is unavailable").
Definition SetDesired (name : string) (d : TunnelDesired) : W Z := k_call (fun n => ke_set_desired n name d) (KDesired name d).
Definition Wait (name : string) (revision : Z) : W TunnelStatus := k_call (fun n => ke_wait n name revision) (KStatus name revision).

(** [ProviderCutover.loadBalancers]. *)
Definition add_lbs (cfg : Config) (set : gmap string LoadBalancerConfig) (named : string * GroupConfig) : gmap string LoadBalancerConfig :=
  if sized named.2 then foldl (fun set name => <[name := find_lb cfg name]> set) set (gc_load_balancers named.2)
  else set.

Definition loadBalancers (tenant : string) : M Cutover (list (string * LoadBalancerConfig)) :=
  cfg ← k_config;
  groups ← k_observe (fun n => @range_over (ke_order n) _ 0 (default ∅ (c_groups cfg !! tenant)));
  let set := foldl (add_lbs cfg) ∅ groups in
  mret ((fun name => (name, default zero_lb (set !! name))) <$> merge_sort String.le (map_to_list set).*1).

(** [ProviderCutover.instanceTargets]: the requests, and the keys already seen. *)
Definition target_key (lbName id : string) : string := (lbName ++ String Ascii.zero id)%string.

Definition add_target (cfg : Config) (lbName : string) (lb : LoadBalancerConfig)
    (acc : gset string * list LBRequest) (id : string) : gset string * list LBRequest :=
  let '(seen, result) := acc in
  if bool_decide (target_key lbName id ∈ seen) then acc
  else ({[target_key lbName id]} ∪ seen,
        result ++ [mkLBRequest id (LoadBalancerConfigForProvider lb) (c_zone cfg) false]).

Definition group_targets (cfg : Config) (group : GroupConfig) (ids : list string)
    (acc : gset string * list LBRequest) : gset string * list LBRequest :=
  foldl (fun acc lbName =>
    let lb := find_lb cfg lbName in
    if is_tunnel lb then acc else foldl (add_target cfg lbName lb) acc ids) acc (gc_load_balancers group).

Definition instanceTargets (tenant : string) : W (list LBRequest) :=
  cfg ← k_config;
  let groups := default ∅ (c_groups cfg !! tenant) in
  let groupNames := merge_sort String.le (map_to_list groups).*1 in
  acc ←! w_fold (fun acc groupName =>
    let group := default zero_group (groups !! groupName) in
    if negb (sized group) then w_ret acc
    else
      ids ←! w_wrap "list provider targets for group" (k_query (fun db => Ok (LocalDB.GetProviderIDsByGroup tenant groupName true db)));
      w_ret (group_targets cfg group ids acc)) (∅, []) groupNames;
  w_ret acc.2.

(** [ProviderCutover.waitState] and [waitNotAccepting]. *)
Definition waitState (fuel : nat) (req : LBRequest) (wanted : LBTargetState) : W unit :=
  poll fuel (state ←! GetLBTargetState req; w_ret (if bool_decide (state = wanted) then Some tt else None)).

Definition waitNotAccepting (fuel : nat) (req : LBRequest) : W unit :=
  poll fuel (state ←! GetLBTargetState req;
             w_ret (if bool_decide (state = LBTargetDraining) || bool_decide (state = LBTargetDeregistered)
                    then Some tt else None)).

(** The wake proxy's target: this server, at the proxy's port. *)
Definition wake_request (lb : LoadBalancerConfig) : M Cutover LBRequest :=
  cfg ← k_config;
  mret (mkLBRequest (ko_server_instance_id opts) (LoadBalancerConfigForProvider lb) (c_zone cfg) true).

(** [ProviderCutover.InstallWakePath]. *)
Definition install_lb (item : string * LoadBalancerConfig) : W unit :=
  let '(name, lb) := item in
  if is_tunnel lb then
    _ ←! tunnel;
    _ ←! w_wrap "start wake tunnel" (SetDesired name TUNNEL_DESIRED_STATE_RUNNING);
    w_ret tt
  else
    req ← wake_request lb;
    w_wrap "register wake proxy" (RegisterTarget req).

Definition InstallWakePath (tenant : string) : W unit :=
  lbs ← loadBalancers tenant;
  w_each lbs install_lb.

(** [ProviderCutover.WaitWakePathReady]. *)
Definition await_lb (fuel : nat) (item : string * LoadBalancerConfig) : W unit :=
  let '(name, lb) := item in
  if is_tunnel lb then
    _ ←! tunnel;
    revision ←! SetDesired name TUNNEL_DESIRED_STATE_RUNNING;
    status ←! Wait name revision;
    if bool_decide (status = TUNNEL_STATUS_STATE_READY) then w_ret tt
    else w_fail (ErrMsg "wake tunnel failed")
  else
    req ← wake_request lb;
    w_wrap "wake proxy" (waitState fuel req LBTargetHealthy).

Definition WaitWakePathReady (fuel : nat) (tenant : string) : W unit :=
  lbs ← loadBalancers tenant;
  w_each lbs (await_lb fuel).

(** [ProviderCutover.BeginTargetWithdrawal]. *)
Definition BeginTargetWithdrawal (fuel : nat) (tenant : string) : W unit :=
  targets ←! instanceTargets tenant;
  lbs ← loadBalancers tenant;
  let providerLoadBalancers := length (filter (fun item => is_tunnel item.2 = false) lbs) in
  if bool_decide (0 < providerLoadBalancers)%nat && bool_decide (targets = []) then
    w_fail (ErrMsg "refusing to withdraw instance targets without an observed target")
  else
    _ ←! w_each targets DeregisterTarget;
    w_each targets (waitNotAccepting fuel).

(** [ProviderCutover.FinishTargetWithdrawal]. *)
Definition FinishTargetWithdrawal (fuel : nat) (tenant : string) : W unit :=
  targets ←! instanceTargets tenant;
  w_each targets (fun target => waitState fuel target LBTargetDeregistered).

(** [ProviderCutover.RestoreTargets]. *)
Definition RestoreTargets (tenant : string) : W unit :=
  targets ←! instanceTargets tenant;
  w_each targets RegisterTarget.

(** [ProviderCutover.RemoveWakePath]. *)
Definition remove_lb (fuel : nat) (item : string * LoadBalancerConfig) : W unit :=
  let '(name, lb) := item in
  if is_tunnel lb then
    _ ←! tunnel;
    revision ←! SetDesired name TUNNEL_DESIRED_STATE_STOPPED;
    status ←! w_wrap "stop wake tunnel" (Wait name revision);
    if bool_decide (status = TUNNEL_STATUS_STATE_STOPPED) then w_ret tt
    else w_fail (ErrMsg "stop wake tunnel: unexpected state")
  else
    req ← wake_request lb;
    _ ←! DeregisterTarget req;
    waitState fuel req LBTargetDeregistered.

Definition RemoveWakePath (fuel : nat) (tenant : string) : W unit :=
  lbs ← loadBalancers tenant;
  w_each lbs (remove_lb fuel).

(** ** Tunnel upstreams *)

(** The instance's address: its IPv4 address, else its IPv6 address. *)
Definition instance_host (i : Instance) : string :=
  match i_ip4 i with
  | Some ip => ip
  | None => default "" (i_ip6 i)
  end.

(** Whether one of the instances is fresh and answers on the port. *)
Fixpoint any_reachable (cutoff port : Z) (ids : list string) : W bool :=
  match ids with
  | [] => w_ret false
  | id :: ids' =>
      instance ←! k_query (LocalDB.GetInstance id);
      if (match i_health_at instance with Some t => bool_decide (t < cutoff) | None => true end)
         || bool_decide (instance_host instance = "")
      then any_reachable cutoff port ids'
      else
        let addr := JoinHostPort (instance_host instance) (Itoa port) in
        ok ← k_observe (fun n => ke_dial n addr);
        _ ← k_emit (KDial addr ok);
        if ok : bool then w_ret true else any_reachable cutoff port ids'
  end.

Fixpoint any_group_reachable (cfg : Config) (tenant : string) (cutoff port : Z) (groups : list string) : W bool :=
  match groups with
  | [] => w_ret false
  | group :: groups' =>
      if negb (sized (default zero_group (default ∅ (c_groups cfg !! tenant) !! group)))
      then any_group_reachable cfg tenant cutoff port groups'
      else
        ids ←! k_query (fun db => Ok (LocalDB.GetInstancesByGroup tenant group true db));
        ready ←! any_reachable cutoff port ids;
        if ready : bool then w_ret true else any_group_reachable cfg tenant cutoff port groups'
  end.

(** [proxyConfig.Listeners[key]], the zero listener when there is none. *)
Definition find_listener (listeners : gmap string Listener) (name : string) (proxyPort : Z) : Listener :=
  default (mkListener "" [] 0 0 "") (listeners !! listener_key name proxyPort).

(** One round: how many listeners of the tenant's tunnels have no upstream. *)
Definition upstream_round (cfg : Config) (listeners : gmap string Listener) (tenant : string) : W (option unit) :=
  now ← k_observe ke_now;
  lbs ← loadBalancers tenant;
  remaining ←! w_fold (fun remaining item =>
    if negb (is_tunnel item.2) then w_ret remaining
    else w_fold (fun remaining configured =>
      let listener := find_listener listeners item.1 configured.2 in
      ready ←! any_group_reachable cfg tenant (now - ko_fresh_for opts) (li_target_port listener) (li_groups listener);
      w_ret (if ready : bool then remaining else S remaining)) remaining (lbc_listeners item.2)) O lbs;
  w_ret (if bool_decide (remaining = O) then Some tt else None).

(** [ProviderCutover.waitTunnelUpstreamReady]. *)
Definition waitTunnelUpstreamReady (fuel : nat) (tenant : string) : W unit :=
  cfg ← k_config;
  listeners ←! now_ (k_observe (fun n => @ProxyConfig (ke_order n) cfg));
  poll fuel (upstream_round cfg listeners tenant).

(** One round of [WaitTargetsReady]: the provider load balancers that have no
    healthy target yet. *)
Definition targets_round (tenant : string) : W (option unit) :=
  lbs ← loadBalancers tenant;
  let remaining : gset string := list_to_set (filter (fun item => is_tunnel item.2 = false) lbs).*1 in
  targets ←! instanceTargets tenant;
  remaining ←! w_fold (fun remaining target =>
    state ←! GetLBTargetState target;
    if bool_decide (state = LBTargetHealthy) then
      lbs ← loadBalancers tenant;
      w_ret (foldl (fun (remaining : gset string) item =>
               if sameLB (lr_config target) (LoadBalancerConfigForProvider item.2)
               then remaining ∖ {[item.1]} else remaining) remaining lbs)
    else w_ret remaining) remaining targets;
  w_ret (if bool_decide (remaining = ∅) then Some tt else None).

(** [ProviderCutover.WaitTargetsReady]. *)
Definition WaitTargetsReady (fuel : nat) (tenant : string) : W unit :=
  _ ←! poll fuel (targets_round tenant);
  waitTunnelUpstreamReady fuel tenant.

(** ** Activity *)

(** The target ports of a group's load balancers. *)
Definition group_ports (cfg : Config) (group : GroupConfig) : gset Z :=
  list_to_set (lbName ← gc_load_balancers group;
               let lb := find_lb cfg lbName in
               ((fun '(_, _, target, _) => uint32 target) <$> lbc_target_groups lb) ++
               ((fun '(target, _) => uint32 target) <$> lbc_listeners lb) ++
               ((fun '(_, port) => uint32 port) <$> lbc_frontends lb)).

Definition check_port (counters : gmap Z Z) (port : Z) : res unit :=
  match counters !! port with
  | None => Err (ErrMsg "eBPF activity for port unavailable on instance")
  | Some count => if bool_decide (0 < count) then Err ErrBusy else Ok tt
  end.

(** One instance: whether its report is fresh. *)
Definition check_instance (withdrawalAt : Z) (ports : gset Z) (fresh : bool) (id : string) : W bool :=
  instance ←! k_query (LocalDB.GetInstance id);
  if (match i_health_at instance with Some t => bool_decide (t <= withdrawalAt) | None => true end) then w_ret false
  else
    report ←! w_wrap "decode health for instance" (mret (Some (ke_decode_health (i_health instance))));
    match report with
    | None => w_fail (ErrMsg "decode health for instance: metrics are missing")
    | Some m =>
        match me_ebpf_error m with
        | Some _ => w_fail (ErrMsg "eBPF activity unavailable for instance")
        | None =>
            order ← k_observe (fun n => ke_ports n ports);
            _ ←! mret (Some (check_all order (check_port (me_ebpf_counters m))));
            w_ret fresh
        end
    end.

Definition check_group (withdrawalAt : Z) (cfg : Config) (tenant : string) (fresh : bool) (named : string * GroupConfig) : W bool :=
  let '(groupName, group) := named in
  if negb (sized group) then w_ret fresh
  else
    let ports := group_ports cfg group in
    if bool_decide (ports = ∅) then w_ret fresh
    else
      ids ←! k_query (fun db => Ok (LocalDB.GetInstancesByGroup tenant groupName true db));
      w_fold (check_instance withdrawalAt ports) fresh ids.

Definition activity_round (withdrawalAt : Z) (tenant : string) : W (option unit) :=
  cfg ← k_config;
  groups ← k_observe (fun n => @range_over (ke_order n) _ 0 (default ∅ (c_groups cfg !! tenant)));
  fresh ←! w_fold (check_group withdrawalAt cfg tenant) true groups;
  w_ret (if fresh : bool then Some tt else None).

(** [ProviderCutover.CheckActivity]. *)
Definition CheckActivity (fuel : nat) (tenant : string) (withdrawalAt : Z) : W unit :=
  poll fuel (activity_round withdrawalAt tenant).
End Cutover.
