(* ===== verification/CutoverFacts.v ===== *)
(** * What a cutover step that succeeds has made sure of

    Every operation only adds to the trace ([grows]); an operation that returns
    [nil] is inverted into the calls it made ([w_bind_ok], [w_each_ok], [poll_ok]). *)

From S2P Require Import Prelude Provider Json LocalDB GoText Config ProxyConfig ProxyConfigFacts TunnelControl Cutover.

(** [c'] is reached from [c]. *)
Definition later (c c' : Cutover) : Prop := (k_tick c <= k_tick c')%nat /\ k_trace c `prefix_of` k_trace c'.

#[global] Instance later_preorder : PreOrder later.
Proof.
  split; [by intros c; split|]. intros c1 c2 c3 [H1 P1] [H2 P2]. split; [lia|by etrans].
Qed.

Definition grows {A} (m : M Cutover A) : Prop := forall c, later c (m c).1.

(** The event was recorded between the two states. *)
Definition saw (c c' : Cutover) (e : CutoverEvent) : Prop := exists l, k_trace c' = k_trace c ++ l /\ e ∈ l.

Lemma saw_later c0 c1 c2 c3 e : later c0 c1 -> saw c1 c2 e -> later c2 c3 -> saw c0 c3 e.
Proof.
  intros [_ [l1 H1]] (l & Hl & He) [_ [l3 H3]]. exists (l1 ++ l ++ l3).
  rewrite H3, Hl, H1, <-!app_assoc. split; [done|set_solver].
Qed.

Lemma saw_from c0 c1 c2 e : later c0 c1 -> saw c1 c2 e -> saw c0 c2 e.
Proof. intros H1 H2. by apply (saw_later c0 c1 c2 c2). Qed.

Create HintDb cutover.

Section Grows.
Context {HK : CutoverEnv}.

Lemma cut_grows_ret {A} (a : A) : grows (mret a).
Proof. by intros c. Qed.

Lemma cut_grows_bind {A B} (m : M Cutover A) (f : A -> M Cutover B) : grows m -> (forall a, grows (f a)) -> grows (m ≫= f).
Proof. intros Hm Hf c. rewrite M_bind_eq. etrans; [apply Hm|apply Hf]. Qed.

Lemma grows_w_bind {A B} (m : W A) (f : A -> W B) : grows m -> (forall a, grows (f a)) -> grows (w_bind m f).
Proof. intros Hm Hf. apply cut_grows_bind; [done|]. intros [[a|e]|]; [apply Hf|apply cut_grows_ret..]. Qed.

Lemma grows_observe {A} (f : nat -> A) : grows (k_observe f).
Proof. intros c. split; simpl; [lia|done]. Qed.

Lemma grows_emit e : grows (k_emit e).
Proof. intros c. split; simpl; [lia|by apply prefix_app_r]. Qed.

Lemma grows_w_wrap {A} msg (m : W A) : grows m -> grows (w_wrap msg m).
Proof. intros Hm. apply cut_grows_bind; [done|]. intros r. apply cut_grows_ret. Qed.

Lemma grows_w_each {A} (l : list A) body : (forall x, grows (body x)) -> grows (w_each l body).
Proof. intros Hb. induction l as [|x l IH]; [apply cut_grows_ret|]. apply grows_w_bind; [apply Hb|done]. Qed.

Lemma grows_w_fold {S A} (body : S -> A -> W S) s l : (forall s x, grows (body s x)) -> grows (w_fold body s l).
Proof. intros Hb. revert s. induction l as [|x l IH]; intros s; [apply cut_grows_ret|]. by apply grows_w_bind. Qed.

Lemma grows_poll {A} fuel (round : W (option A)) : grows round -> grows (poll fuel round).
Proof.
  intros Hr. induction fuel as [|fuel IH]; [apply cut_grows_ret|]. apply grows_w_bind; [done|].
  intros [a|]; [apply cut_grows_ret|]. apply cut_grows_bind; [apply grows_observe|]. intros [e|]; [apply cut_grows_ret|done].
Qed.
End Grows.

#[export] Hint Resolve cut_grows_ret grows_observe grows_emit : cutover.

(** Split a program into its steps. *)
Ltac grow_step :=
  match goal with
  | |- grows (mbind _ _) => apply cut_grows_bind; [|intros ?]
  | |- grows (w_bind _ _) => apply grows_w_bind; [|intros ?]
  | |- grows (w_wrap _ _) => apply grows_w_wrap
  | |- grows (w_each _ _) => apply grows_w_each; intros ?
  | |- grows (w_fold _ _ _) => apply grows_w_fold; intros ? ?
  | |- grows (poll _ _) => apply grows_poll
  | |- grows (match ?x with _ => _ end) => destruct x
  | |- grows _ => solve [auto with cutover]
  | |- grows (w_ret _) => apply cut_grows_ret
  | |- grows (w_fail _) => apply cut_grows_ret
  | |- grows ((fun _ => _) _) => cbv beta
  end.
Ltac grow := repeat grow_step.

Section Runs.
Context {HK : CutoverEnv}.
Variable opts : CutoverOptions.

Lemma grows_call {A} (f : nat -> res A) e : grows (k_call f e).
Proof. unfold k_call. grow. Qed.

Lemma grows_query {A} (f : DB -> res A) : grows (k_query f).
Proof. unfold k_query. grow. Qed.

Lemma grows_loadBalancers t : grows (loadBalancers t).
Proof. unfold loadBalancers, k_config. grow. Qed.
#[local] Hint Resolve grows_call grows_query grows_loadBalancers : cutover.

Lemma grows_instanceTargets t : grows (instanceTargets t).
Proof. unfold instanceTargets, k_config. grow. Qed.

Lemma grows_state req : grows (GetLBTargetState req).
Proof. apply grows_call. Qed.

Lemma grows_tunnel : grows tunnel.
Proof. unfold tunnel. grow. Qed.

Lemma grows_wake_request lb : grows (wake_request opts lb).
Proof. unfold wake_request, k_config. grow. Qed.
#[local] Hint Resolve grows_instanceTargets grows_state grows_tunnel grows_wake_request : cutover.

Lemma grows_waitState n req st : grows (waitState n req st).
Proof. unfold waitState. grow. Qed.

Lemma grows_waitNotAccepting n req : grows (waitNotAccepting n req).
Proof. unfold waitNotAccepting. grow. Qed.
#[local] Hint Resolve grows_waitState grows_waitNotAccepting : cutover.

Lemma grows_any_reachable cutoff port ids : grows (any_reachable cutoff port ids).
Proof. induction ids as [|id ids IH]; simpl; grow. Qed.
#[local] Hint Resolve grows_any_reachable : cutover.

Lemma grows_any_group cfg t cutoff port gs : grows (any_group_reachable cfg t cutoff port gs).
Proof. induction gs as [|g gs IH]; simpl; grow. Qed.
#[local] Hint Resolve grows_any_group : cutover.

Lemma grows_upstream_round cfg ls t : grows (upstream_round opts cfg ls t).
Proof. unfold upstream_round. grow. Qed.

Lemma grows_targets_round t : grows (targets_round t).
Proof. unfold targets_round. grow. Qed.

Lemma grows_check_instance at_ ports fresh id : grows (check_instance at_ ports fresh id).
Proof. unfold check_instance. grow. Qed.
#[local] Hint Resolve grows_check_instance : cutover.

Lemma grows_check_group at_ cfg t fresh named : grows (check_group at_ cfg t fresh named).
Proof. unfold check_group. grow. Qed.
#[local] Hint Resolve grows_check_group : cutover.

Lemma grows_activity_round at_ t : grows (activity_round at_ t).
Proof. unfold activity_round, k_config. grow. Qed.

Lemma grows_remove_lb n item : grows (remove_lb opts n item).
Proof. unfold remove_lb, SetDesired, DeregisterTarget, Wait. grow. Qed.

Lemma grows_await_lb n item : grows (await_lb opts n item).
Proof. unfold await_lb, SetDesired, Wait. grow. Qed.

Lemma grows_install_lb item : grows (install_lb opts item).
Proof. unfold install_lb, SetDesired, RegisterTarget. grow. Qed.
End Runs.
#[export] Hint Resolve grows_call grows_query grows_loadBalancers grows_instanceTargets grows_state grows_tunnel
  grows_wake_request grows_waitState grows_waitNotAccepting grows_any_reachable grows_any_group grows_upstream_round
  grows_targets_round grows_check_instance grows_check_group grows_activity_round grows_remove_lb grows_await_lb
  grows_install_lb : cutover.

(** ** Inversion of successful runs *)

(** The event happened at an observation between the two states. *)
Definition between (c c' : Cutover) (n : nat) : Prop := (k_tick c <= n < k_tick c')%nat.

Lemma between_later c0 c1 c2 c3 n : later c0 c1 -> between c1 c2 n -> later c2 c3 -> between c0 c3 n.
Proof. intros [] ? []. unfold between in *. lia. Qed.

Section Inversion.
Context {HK : CutoverEnv}.

Lemma run_later {A} (m : M Cutover A) c c' a : grows m -> m c = (c', a) -> later c c'.
Proof. intros Hg Hm. specialize (Hg c). by rewrite Hm in Hg. Qed.

Lemma w_bind_ok {A B} (m : W A) (f : A -> W B) c c' b :
  w_bind m f c = (c', Some (Ok b)) <-> exists c1 a, m c = (c1, Some (Ok a)) /\ f a c1 = (c', Some (Ok b)).
Proof.
  unfold w_bind. rewrite M_bind_eq. destruct (m c) as [c1 [[a|e]|]]; simpl.
  - split; [eauto|]. by intros (? & ? & [= -> ->] & ?).
  - split; [by intros [=]|]. by intros (? & ? & [=] & ?).
  - split; [by intros [=]|]. by intros (? & ? & [=] & ?).
Qed.

Lemma w_ret_ok {A} (a b : A) c c' : w_ret a c = (c', Some (Ok b)) <-> c' = c /\ b = a.
Proof. unfold w_ret. rewrite M_ret_eq. naive_solver. Qed.

Lemma w_fail_ok {A} e (b : A) c c' : w_fail e c ≠ (c', Some (Ok b)).
Proof. done. Qed.

Lemma w_wrap_ok {A} msg (m : W A) c c' a : w_wrap msg m c = (c', Some (Ok a)) <-> m c = (c', Some (Ok a)).
Proof. unfold w_wrap. rewrite M_bind_eq. destruct (m c) as [c1 [[x|e]|]]; simpl; rewrite M_ret_eq; naive_solver. Qed.

Lemma w_each_ok {A} (l : list A) body c c' :
  (forall x, grows (body x)) -> w_each l body c = (c', Some (Ok tt)) ->
  Forall (fun x => exists c1 c2, later c c1 /\ body x c1 = (c2, Some (Ok tt)) /\ later c2 c') l /\ later c c'.
Proof.
  intros Hg. revert c. induction l as [|x l IH]; intros c; simpl.
  { intros [-> _]%w_ret_ok. by split. }
  intros (c1 & [] & Hb & Hr)%w_bind_ok. apply IH in Hr as [Hr Hl]. pose proof (run_later _ _ _ _ (Hg x) Hb) as Hc.
  split; [|by etrans]. constructor; [by exists c, c1|].
  eapply Forall_impl; [exact Hr|]. intros y (c2 & c3 & ? & ? & ?). exists c2, c3. split_and!; [by etrans|done..].
Qed.

Lemma k_call_ok {A} (f : nat -> res A) e c c' a :
  k_call f e c = (c', Some (Ok a)) -> saw c c' (e (Ok a)) /\ between c c' (k_tick c) /\ f (k_tick c) = Ok a.
Proof.
  unfold k_call. rewrite M_bind_eq. simpl. rewrite M_bind_eq. simpl. rewrite M_ret_eq. intros [= <- Hf].
  split_and!; [|unfold between; simpl; lia|done]. exists [e (Ok a)]. rewrite Hf. simpl. split; [done|set_solver].
Qed.

Lemma k_query_ok {A} (f : DB -> res A) c c' a :
  k_query f c = (c', Some (Ok a)) -> exists n, between c c' n /\ f (ke_db n) = Ok a.
Proof.
  unfold k_query. rewrite M_bind_eq. simpl. destruct (ke_db_fault _); [done|]. rewrite M_bind_eq. simpl. rewrite M_ret_eq.
  intros [= <- Hf]. exists (S (k_tick c)). split; [unfold between; simpl; lia|done].
Qed.

(** A polling loop that ends has had a conclusive round. *)
Lemma poll_ok {A} fuel (round : W (option A)) c c' a :
  grows round -> poll fuel round c = (c', Some (Ok a)) -> exists c1, later c c1 /\ round c1 = (c', Some (Ok (Some a))).
Proof.
  intros Hg. revert c. induction fuel as [|fuel IH]; intros c; simpl; [done|].
  intros (c1 & [x|] & Hr & Hk)%w_bind_ok.
  { apply w_ret_ok in Hk as [-> ->]. by exists c. }
  rewrite M_bind_eq in Hk. simpl in Hk. destruct (ke_select _); [done|].
  apply IH in Hk as (c2 & Hl & Hc2). exists c2. split; [|done].
  etrans; [by eapply run_later|]. etrans; [|done]. split; simpl; [lia|done].
Qed.

Lemma waitState_ok fuel req st c c' :
  waitState fuel req st c = (c', Some (Ok tt)) -> saw c c' (KState req (Ok st)) /\ later c c'.
Proof.
  intros Hr. pose proof (run_later _ _ _ _ (grows_waitState fuel req st) Hr) as Hl. split; [|done].
  apply poll_ok in Hr as (c1 & H1 & (c2 & s & Hs & [-> Hd]%w_ret_ok)%w_bind_ok); [|grow].
  case_bool_decide; [|done]. subst s. apply k_call_ok in Hs as [Hs _]. exact (saw_from _ _ _ _ H1 Hs).
Qed.

Lemma waitNotAccepting_ok fuel req c c' :
  waitNotAccepting fuel req c = (c', Some (Ok tt)) ->
  (saw c c' (KState req (Ok LBTargetDraining)) \/ saw c c' (KState req (Ok LBTargetDeregistered))) /\ later c c'.
Proof.
  intros Hr. pose proof (run_later _ _ _ _ (grows_waitNotAccepting fuel req) Hr) as Hl. split; [|done].
  apply poll_ok in Hr as (c1 & H1 & (c2 & s & Hs & [-> Hd]%w_ret_ok)%w_bind_ok); [|grow].
  apply k_call_ok in Hs as [Hs _]. destruct (decide (s = LBTargetDraining)) as [->|]; [left; exact (saw_from _ _ _ _ H1 Hs)|].
  destruct (decide (s = LBTargetDeregistered)) as [->|]; [right; exact (saw_from _ _ _ _ H1 Hs)|].
  by rewrite !bool_decide_eq_false_2 in Hd.
Qed.

Lemma tunnel_ok c c' u : tunnel c = (c', Some (Ok u)) -> later c c'.
Proof. apply run_later, grows_tunnel. Qed.

(** A loop that threads an accumulator. *)
Lemma w_fold_ok {S A} (body : S -> A -> W S) (P : list A -> S -> Cutover -> Prop) l :
  (forall s x, grows (body s x)) ->
  (forall pre s c x s' c', P pre s c -> body s x c = (c', Some (Ok s')) -> P (pre ++ [x]) s' c') ->
  forall pre s c s' c', P pre s c -> w_fold body s l c = (c', Some (Ok s')) -> P (pre ++ l) s' c' /\ later c c'.
Proof.
  intros Hg Hstep. induction l as [|x l IH]; intros pre s c s' c' HP; simpl.
  { intros [-> ->]%w_ret_ok. by rewrite app_nil_r. }
  intros (c1 & s1 & Hb & Hr)%w_bind_ok. apply (IH (pre ++ [x])) in Hr as [Hr Hl]; [|by eapply Hstep].
  rewrite <-app_assoc in Hr. split; [done|]. etrans; [|done]. by eapply run_later, Hb.
Qed.
End Inversion.

(** ** The load balancers and targets of a tenant *)

Lemma for_provider lb : LoadBalancerConfigForProvider lb = lb.
Proof.
  destruct lb as [p tgs neg fs ls]. unfold LoadBalancerConfigForProvider. simpl. f_equal;
    (rewrite <-(list_fmap_id tgs) at 2 || rewrite <-(list_fmap_id fs) at 2 || rewrite <-(list_fmap_id ls) at 2);
    apply list_fmap_ext; intros; by repeat case_match.
Qed.

Definition tenant_static (cfg : Config) (tenant : string) : gmap string GroupConfig := default ∅ (c_groups cfg !! tenant).

(** The load balancer is one of those the cutover handles. *)
Definition serves (cfg : Config) (tenant name : string) : Prop :=
  exists g group, tenant_static cfg tenant !! g = Some group /\ sized group = true /\ name ∈ gc_load_balancers group.

Lemma lookup_lb_fold cfg names (set : gmap string LoadBalancerConfig) name lb :
  (foldl (fun set name => <[name:=find_lb cfg name]> set) set names) !! name = Some lb <->
  (name ∈ names /\ lb = find_lb cfg name) \/ (~ name ∈ names /\ set !! name = Some lb).
Proof.
  revert set. induction names as [|x names IH]; intros set; simpl.
  { rewrite elem_of_nil. tauto. }
  rewrite IH, not_elem_of_cons, elem_of_cons. clear IH. destruct (decide (name = x)) as [->|Hne].
  - rewrite lookup_insert_eq. assert (Some (find_lb cfg x) = Some lb <-> lb = find_lb cfg x) as -> by (split; congruence).
    destruct (decide (x ∈ names)); tauto.
  - rewrite lookup_insert_ne by done. destruct (decide (name ∈ names)); tauto.
Qed.

Lemma lookup_lb_set cfg gs (set : gmap string LoadBalancerConfig) name lb :
  (forall n l, set !! n = Some l -> l = find_lb cfg n) ->
  (foldl (add_lbs cfg) set gs) !! name = Some lb <->
  lb = find_lb cfg name /\ (set !! name = Some lb \/ exists g group, (g, group) ∈ gs /\ sized group = true /\ name ∈ gc_load_balancers group).
Proof.
  revert set. induction gs as [|[g group] gs IH]; intros set Hs; simpl.
  { setoid_rewrite elem_of_nil. split; [|intros [_ [H|(? & ? & [] & _)]]; done]. intros H. split; [by apply Hs|by left]. }
  assert ((exists g0 gr, (g0, gr) ∈ (g, group) :: gs /\ sized gr = true /\ name ∈ gc_load_balancers gr) <->
    (sized group = true /\ name ∈ gc_load_balancers group) \/
    (exists g0 gr, (g0, gr) ∈ gs /\ sized gr = true /\ name ∈ gc_load_balancers gr)) as ->.
  { split.
    - intros (g0 & gr & [[= -> ->]|Hin]%elem_of_cons & ? & ?); [by left|right]. by exists g0, gr.
    - intros [[? ?]|(g0 & gr & ? & ? & ?)]; [exists g, group|exists g0, gr]; split_and!; try done; set_solver. }
  unfold add_lbs at 2. simpl. destruct (sized group) eqn:Eg.
  - rewrite IH.
    + rewrite lookup_lb_fold. destruct (decide (name ∈ gc_load_balancers group)); tauto.
    + intros n l [[_ ->]|[_ H]]%lookup_lb_fold; auto.
  - rewrite IH by done. assert (false = true <-> False) as -> by done. tauto.
Qed.

(** *** Keys of targets *)

(** Without a NUL, so that a key of [instanceTargets] determines the pair. *)
Fixpoint plain (s : string) : bool :=
  match s with
  | EmptyString => true
  | String a s' => negb (bool_decide (a = Ascii.zero)) && plain s'
  end.

Lemma target_key_inj a b x y : plain a = true -> plain b = true -> target_key a x = target_key b y -> a = b /\ x = y.
Proof.
  unfold target_key. revert b. induction a as [|ca a IH]; intros [|cb b]; simpl; rewrite ?andb_true_iff.
  - by intros _ _ [= ->].
  - intros _ [Hb _] [= <- _]. by rewrite bool_decide_eq_true_2 in Hb.
  - intros [Ha _] _ [= -> _]. by rewrite bool_decide_eq_true_2 in Ha.
  - intros [_ Ha] [_ Hb] [= -> Heq]. by destruct (IH b Ha Hb Heq) as [-> ->].
Qed.

Definition pair_request (cfg : Config) (p : string * string) : LBRequest :=
  mkLBRequest p.2 (find_lb cfg p.1) (c_zone cfg) false.

(** The pairs of load balancer and instance a group contributes. *)
Definition group_pairs (cfg : Config) (group : GroupConfig) (ids : list string) : list (string * string) :=
  lbName ← gc_load_balancers group; if is_tunnel (find_lb cfg lbName) then [] else pair lbName <$> ids.

(** The accumulator holds the pairs [ps] once each. *)
Definition holds (cfg : Config) (ps : list (string * string)) (acc : gset string * list LBRequest) : Prop :=
  exists qs, NoDup qs /\ (forall p, p ∈ qs <-> p ∈ ps) /\ Forall (fun p => plain p.1 = true) qs /\
    acc.2 = pair_request cfg <$> qs /\ forall k, k ∈ acc.1 <-> exists p, p ∈ qs /\ k = target_key p.1 p.2.

Lemma holds_add cfg ps acc lb id :
  plain lb = true -> holds cfg ps acc -> holds cfg (ps ++ [(lb, id)]) (add_target cfg lb (find_lb cfg lb) acc id).
Proof.
  intros Hlb (qs & Hnd & Hps & Hpl & Hres & Hseen). destruct acc as [seen result]. simpl in *.
  assert (target_key lb id ∈ seen <-> (lb, id) ∈ qs) as Hk.
  { rewrite Hseen. split; [|intros Hin; by exists (lb, id)]. intros ([lb' id'] & Hin & Hkey). rewrite Forall_forall in Hpl.
    apply target_key_inj in Hkey as [-> ->]; [done|done|exact (Hpl _ Hin)]. }
  case_bool_decide as Hin; rewrite Hk in Hin.
  - exists qs. split_and!; [done| |done..]. intros p. rewrite Hps, elem_of_app, list_elem_of_singleton.
    split; [by left|]. intros [? | ->]; [done|by apply Hps].
  - exists (qs ++ [(lb, id)]). split_and!.
    + apply NoDup_app. split_and!; [done|set_solver|apply NoDup_singleton].
    + intros p. rewrite !elem_of_app, Hps. done.
    + apply Forall_app. by split; [|apply Forall_singleton].
    + simpl. rewrite Hres, fmap_app. by rewrite for_provider.
    + intros k. simpl. rewrite elem_of_union, elem_of_singleton, Hseen, exists_snoc. simpl. tauto.
Qed.

Lemma holds_ids cfg ps acc lb ids :
  plain lb = true -> holds cfg ps acc -> holds cfg (ps ++ (pair lb <$> ids)) (foldl (add_target cfg lb (find_lb cfg lb)) acc ids).
Proof.
  intros Hlb. revert ps acc. induction ids as [|id ids IH]; intros ps acc Hh; [by rewrite app_nil_r|].
  rewrite fmap_cons, cons_middle, app_assoc. by apply IH, holds_add.
Qed.

Lemma holds_group cfg ps acc group ids :
  Forall (fun lb => plain lb = true) (gc_load_balancers group) -> holds cfg ps acc ->
  holds cfg (ps ++ group_pairs cfg group ids) (group_targets cfg group ids acc).
Proof.
  unfold group_pairs, group_targets. intros Hl. revert ps acc.
  induction Hl as [|lb lbs Hlb _ IH]; intros ps acc Hh; simpl; [by rewrite app_nil_r|].
  destruct (is_tunnel (find_lb cfg lb)) eqn:Et; simpl; [by apply IH|]. rewrite app_assoc. by apply IH, holds_ids.
Qed.

Lemma elem_of_group_pairs cfg group ids lb id :
  (lb, id) ∈ group_pairs cfg group ids <->
  lb ∈ gc_load_balancers group /\ is_tunnel (find_lb cfg lb) = false /\ id ∈ ids.
Proof.
  unfold group_pairs. rewrite list_elem_of_bind. split.
  - intros (lb' & Hin & Hlb). destruct (is_tunnel (find_lb cfg lb')) eqn:Et; [set_solver|].
    apply list_elem_of_fmap in Hin as (id' & [= -> ->] & ?). done.
  - intros (Hlb & Ht & Hid). exists lb. split; [|done]. rewrite Ht. apply list_elem_of_fmap. eauto.
Qed.

Section Targets.
Context {HK : CutoverEnv}.

(** The load balancers of the tenant's sized static groups, sorted and without
    repetition. *)
Lemma loadBalancers_run t c c' lbs :
  loadBalancers t c = (c', lbs) ->
  exists cfg, cfg = ke_config (k_tick c) /\ later c c' /\ between c c' (k_tick c) /\
    NoDup lbs.*1 /\ StronglySorted String.le lbs.*1 /\
    forall name lb, (name, lb) ∈ lbs <-> serves cfg t name /\ lb = find_lb cfg name.
Proof.
  intros Hr. pose proof (run_later _ _ _ _ (grows_loadBalancers t) Hr) as Hl.
  unfold loadBalancers, k_config in Hr. rewrite M_bind_eq in Hr. simpl in Hr. rewrite M_bind_eq in Hr. simpl in Hr.
  rewrite M_ret_eq in Hr. injection Hr as <- <-. set (cfg := ke_config (k_tick c)) in *.
  set (gs := range_over _ _). exists cfg. split_and!; [done|done|unfold between; simpl; lia|..].
  1,2: rewrite <-list_fmap_compose; unfold compose; simpl; rewrite list_fmap_id.
  - rewrite merge_sort_Permutation. apply NoDup_fst_map_to_list.
  - apply StronglySorted_merge_sort; apply _.
  - intros name lb. rewrite list_elem_of_fmap. setoid_rewrite merge_sort_Permutation.
    setoid_rewrite list_elem_of_fmap. pose proof (fun n l => lookup_lb_set cfg gs ∅ n l) as Hset.
    assert (forall n l, foldl (add_lbs cfg) ∅ gs !! n = Some l <-> l = find_lb cfg n /\ serves cfg t n) as Hs.
    { intros n l. rewrite Hset by set_solver. rewrite lookup_empty. unfold serves, gs.
      setoid_rewrite elem_of_range. naive_solver. }
    split.
    + intros (n & [= -> ->] & [n' l] & -> & Hin). simpl. apply elem_of_map_to_list in Hin. rewrite Hin. simpl.
      apply Hs in Hin as [-> ?]. done.
    + intros [Hsv ->]. assert (foldl (add_lbs cfg) ∅ gs !! name = Some (find_lb cfg name)) as Hlk by (by apply Hs).
      exists name. rewrite Hlk. split; [done|]. exists (name, find_lb cfg name). split; [done|]. by apply elem_of_map_to_list.
Qed.

(** The names of the tenant's load balancers have no NUL. *)
Definition plain_names (cfg : Config) (t : string) : Prop := forall name, serves cfg t name -> plain name = true.

(** Each pair is a provider load balancer and an instance of a sized static group,
    as the cache held it at some observation. *)
Definition pairs_sound (cfg : Config) (t : string) (c c' : Cutover) (ps : list (string * string)) : Prop :=
  forall lb id, (lb, id) ∈ ps -> exists g group n, tenant_static cfg t !! g = Some group /\ sized group = true /\
    lb ∈ gc_load_balancers group /\ is_tunnel (find_lb cfg lb) = false /\ between c c' n /\
    id ∈ LocalDB.GetProviderIDsByGroup t g true (ke_db n).

(** All pairs of the group at one observation are there. *)
Definition pairs_complete (cfg : Config) (t : string) (c c' : Cutover) (ps : list (string * string)) (g : string) (group : GroupConfig) : Prop :=
  exists n, between c c' n /\ forall lb id, lb ∈ gc_load_balancers group -> is_tunnel (find_lb cfg lb) = false ->
    id ∈ LocalDB.GetProviderIDsByGroup t g true (ke_db n) -> (lb, id) ∈ ps.

(** [targets] are exactly the targets of the tenant, once each. *)
Definition targets_of (cfg : Config) (t : string) (c c' : Cutover) (targets : list LBRequest) : Prop :=
  exists qs, NoDup qs /\ targets = pair_request cfg <$> qs /\ pairs_sound cfg t c c' qs /\
    forall g group, tenant_static cfg t !! g = Some group -> sized group = true -> pairs_complete cfg t c c' qs g group.

(** The loop of [instanceTargets] after the groups [pre]. *)
Definition targets_inv (cfg : Config) (t : string) (c : Cutover) (pre : list string) (acc : gset string * list LBRequest) (cc : Cutover) : Prop :=
  exists ps, holds cfg ps acc /\ later c cc /\ pairs_sound cfg t c cc ps /\
    forall g group, g ∈ pre -> tenant_static cfg t !! g = Some group -> sized group = true -> pairs_complete cfg t c cc ps g group.

Lemma targets_inv_later cfg t c pre acc cc cc' g :
  targets_inv cfg t c pre acc cc -> later cc cc' ->
  (forall group, tenant_static cfg t !! g = Some group -> sized group = false) -> targets_inv cfg t c (pre ++ [g]) acc cc'.
Proof.
  intros (ps & Hh & Hl & Hs & Hc) Hl' Hg. exists ps. split_and!; [done|by etrans|..].
  - intros lb id Hin. destruct (Hs lb id Hin) as (g' & group & n & ? & ? & ? & ? & Hn & ?). exists g', group, n.
    split_and!; [done..| |done]. by apply (between_later c c cc cc').
  - intros g' group [Hin| ->%list_elem_of_singleton]%elem_of_app Hlk Hsz; [|by rewrite (Hg group Hlk) in Hsz].
    destruct (Hc g' group Hin Hlk Hsz) as (n & Hn & Hall). exists n. split; [|done]. by apply (between_later c c cc cc').
Qed.

Lemma targets_inv_group cfg t c pre acc cc cc' g group n :
  targets_inv cfg t c pre acc cc -> later cc cc' -> between c cc' n ->
  tenant_static cfg t !! g = Some group -> sized group = true -> Forall (fun lb => plain lb = true) (gc_load_balancers group) ->
  targets_inv cfg t c (pre ++ [g]) (group_targets cfg group (LocalDB.GetProviderIDsByGroup t g true (ke_db n)) acc) cc'.
Proof.
  intros (ps & Hh & Hl & Hs & Hc) Hl' Hn Hg Hsz Hpl. eexists.
  split_and!; [by apply holds_group|by etrans|..].
  - intros lb id [Hin|(Hlb & Ht & Hid)%elem_of_group_pairs]%elem_of_app.
    + destruct (Hs lb id Hin) as (g' & group' & m & ? & ? & ? & ? & Hm & ?). exists g', group', m.
      split_and!; [done..| |done]. by apply (between_later c c cc cc').
    + exists g, group, n. done.
  - intros g' group' [Hin| ->%list_elem_of_singleton]%elem_of_app Hlk Hsz'.
    + destruct (Hc g' group' Hin Hlk Hsz') as (m & Hm & Hall). exists m. split; [by apply (between_later c c cc cc')|].
      intros lb id ? ? ?. apply elem_of_app. left. by apply Hall.
    + rewrite Hg in Hlk. injection Hlk as <-. exists n. split; [done|]. intros lb id ? ? ?. apply elem_of_app. right.
      by apply elem_of_group_pairs.
Qed.

Lemma instanceTargets_run t c c' targets :
  instanceTargets t c = (c', Some (Ok targets)) -> plain_names (ke_config (k_tick c)) t ->
  targets_of (ke_config (k_tick c)) t c c' targets /\ later c c'.
Proof.
  intros Hr Hpl. pose proof (run_later _ _ _ _ (grows_instanceTargets t) Hr) as Hl. split; [|done].
  unfold instanceTargets, k_config in Hr. rewrite M_bind_eq in Hr. simpl in Hr. set (cfg := ke_config (k_tick c)) in *.
  apply w_bind_ok in Hr as (c1 & acc & Hf & [-> ->]%w_ret_ok). fold (tenant_static cfg t) in Hf.
  eapply (w_fold_ok _ (targets_inv cfg t c)) with (pre := []) in Hf as [(ps & Hh & _ & Hsound & Hcomp) _]; simpl.
  - destruct Hh as (qs & Hnd & Hqs & _ & Hres & _). exists qs. split_and!; [done|done|..].
    + intros lb id Hin. by apply Hsound, Hqs.
    + intros g group Hg Hs. destruct (Hcomp g group) as (n & Hn & Hall); [|done..|].
      { simpl. rewrite merge_sort_Permutation. apply list_elem_of_fmap. exists (g, group). by rewrite elem_of_map_to_list. }
      exists n. split; [done|]. intros. apply Hqs. by apply Hall.
  - intros acc' g. grow.
  - intros pre acc1 cc g acc2 cc' Hinv. destruct (tenant_static cfg t !! g) as [group|] eqn:Hg; simpl; last first.
    { intros [-> ->]%w_ret_ok. eapply targets_inv_later; [done|done|]. intros group Hx. congruence. }
    destruct (sized group) eqn:Hsz; simpl; last first.
    { intros [-> ->]%w_ret_ok. eapply targets_inv_later; [done|done|]. intros group' Hx. congruence. }
    intros (c2 & ids & Hq%w_wrap_ok & [-> ->]%w_ret_ok)%w_bind_ok.
    pose proof (run_later _ _ _ _ (grows_query _) Hq) as Hl2. apply k_query_ok in Hq as (n & Hn & [= <-]).
    assert (later c cc) as Hlc by (by destruct Hinv as (? & _ & ? & _)).
    apply (targets_inv_group _ _ _ _ _ cc); [done|done|by apply (between_later c cc c2 c2)|done|done|].
    apply Forall_forall. intros lb Hlb. apply Hpl. by exists g, group.
  - exists []. split_and!; [|split; simpl; [lia|done]|intros ? ? ?; set_solver|intros ? ? ?; set_solver].
    exists []. split_and!; [constructor|done|constructor|done|]. intros k. simpl. split; [set_solver|]. intros (p & ? & _). set_solver.
Qed.
End Targets.
