(* ===== verification/CutoverSafety.v ===== *)
(** * The cutover's guarantees

    What each operation of [Cutover.v] has made sure of when it returns [nil], and
    that every operation returns once its context ends. *)

From S2P Require Import Prelude Provider Json LocalDB LocalDBFacts GoText Config ProxyConfig TunnelControl Cutover CutoverFacts.

Section Safety.
Context {HK : CutoverEnv}.
Variable opts : CutoverOptions.

(** The wake proxy's target at a load balancer: this server, in the zone of the
    configuration at some observation. *)
Definition wake_target (lb : LoadBalancerConfig) (n : nat) : LBRequest :=
  mkLBRequest (ko_server_instance_id opts) lb (c_zone (ke_config n)) true.

(** The wake path is confirmed at the load balancer: its tunnel, started, reports
    ready, or the provider reports the wake proxy healthy. *)
Definition wake_ready (c c' : Cutover) (name : string) (lb : LoadBalancerConfig) : Prop :=
  if is_tunnel lb
  then exists rev, saw c c' (KDesired name TUNNEL_DESIRED_STATE_RUNNING (Ok rev)) /\
         saw c c' (KStatus name rev (Ok TUNNEL_STATUS_STATE_READY))
  else exists n, saw c c' (KState (wake_target lb n) (Ok LBTargetHealthy)).

(** The wake path is confirmed gone. *)
Definition wake_gone (c c' : Cutover) (name : string) (lb : LoadBalancerConfig) : Prop :=
  if is_tunnel lb
  then exists rev, saw c c' (KDesired name TUNNEL_DESIRED_STATE_STOPPED (Ok rev)) /\
         saw c c' (KStatus name rev (Ok TUNNEL_STATUS_STATE_STOPPED))
  else exists n, saw c c' (KDeregister (wake_target lb n) (Ok tt)) /\
         saw c c' (KState (wake_target lb n) (Ok LBTargetDeregistered)).

(** The wake path was asked for. *)
Definition wake_requested (c c' : Cutover) (name : string) (lb : LoadBalancerConfig) : Prop :=
  if is_tunnel lb then exists rev, saw c c' (KDesired name TUNNEL_DESIRED_STATE_RUNNING (Ok rev))
  else exists n, saw c c' (KRegister (wake_target lb n) (Ok tt)).

Lemma wake_request_run lb c c' req :
  wake_request opts lb c = (c', req) -> (exists n, req = wake_target lb n) /\ later c c'.
Proof.
  intros Hr. split; [|by eapply run_later, Hr; apply grows_wake_request].
  unfold wake_request, k_config in Hr. rewrite M_bind_eq in Hr. simpl in Hr. rewrite M_ret_eq in Hr. injection Hr as <- <-.
  rewrite for_provider. by exists (k_tick c).
Qed.

(** Split a run at the wake request. *)
Lemma wake_request_bind {A} lb (f : LBRequest -> W A) c r :
  (req ← wake_request opts lb; f req) c = r -> exists c1 n, later c c1 /\ f (wake_target lb n) c1 = r.
Proof.
  rewrite M_bind_eq. destruct (wake_request opts lb c) as [c1 req] eqn:Hw. simpl. intros Hf.
  apply wake_request_run in Hw as [[n ->] Hl]. by exists c1, n.
Qed.

(** A run that starts or stops a tunnel and waits for it; [w] dresses the error. *)
Lemma tunnel_run (w : W TunnelStatus -> W TunnelStatus) name d st c c' (err_ : err) :
  (forall m c c' s, w m c = (c', Some (Ok s)) -> m c = (c', Some (Ok s))) ->
  w_bind tunnel (fun _ => w_bind (SetDesired name d) (fun rev => w_bind (w (Wait name rev)) (fun s =>
    if bool_decide (s = st) then w_ret tt else w_fail err_))) c = (c', Some (Ok tt)) ->
  exists rev, saw c c' (KDesired name d (Ok rev)) /\ saw c c' (KStatus name rev (Ok st)).
Proof.
  intros Hw (c1 & [] & H1 & (c2 & rev & H2 & (c3 & s & H3%Hw & H4)%w_bind_ok)%w_bind_ok)%w_bind_ok. pose proof (tunnel_ok _ _ _ H1) as L1.
  pose proof (run_later _ _ _ _ (grows_call _ _) H2) as L2. pose proof (run_later _ _ _ _ (grows_call _ _) H3) as L3.
  case_bool_decide as Es; [|done]. subst s. apply w_ret_ok in H4 as [-> _]. exists rev.
  apply k_call_ok in H2 as [H2 _]. apply k_call_ok in H3 as [H3 _]. split.
  - by apply (saw_later c c1 c2 c3).
  - apply (saw_from c c2); [by etrans|done].
Qed.

Lemma install_lb_run name lb c c' : install_lb opts (name, lb) c = (c', Some (Ok tt)) -> wake_requested c c' name lb.
Proof.
  unfold install_lb, wake_requested. destruct (is_tunnel lb).
  - intros (c1 & [] & H1 & (c2 & rev & H2%w_wrap_ok & [-> _]%w_ret_ok)%w_bind_ok)%w_bind_ok. exists rev.
    apply k_call_ok in H2 as [H2 _]. apply (saw_from c c1); [by eapply tunnel_ok|done].
  - intros (c1 & n & Hl & [Hr _]%w_wrap_ok%k_call_ok)%wake_request_bind. exists n. by apply (saw_from c c1).
Qed.

Lemma await_lb_run fuel name lb c c' : await_lb opts fuel (name, lb) c = (c', Some (Ok tt)) -> wake_ready c c' name lb.
Proof.
  unfold await_lb, wake_ready. destruct (is_tunnel lb).
  - by apply (tunnel_run (fun m => m)).
  - intros (c1 & n & Hl & Hr%w_wrap_ok)%wake_request_bind. exists n. apply waitState_ok in Hr as [Hr _]. by apply (saw_from c c1).
Qed.

Lemma remove_lb_run fuel name lb c c' : remove_lb opts fuel (name, lb) c = (c', Some (Ok tt)) -> wake_gone c c' name lb.
Proof.
  unfold remove_lb, wake_gone. destruct (is_tunnel lb).
  { apply (tunnel_run (w_wrap "stop wake tunnel")). intros m ? ? ?. apply w_wrap_ok. }
  intros (c1 & n & Hl & (c2 & [] & Hd & Hr)%w_bind_ok)%wake_request_bind. exists n.
  pose proof (run_later _ _ _ _ (grows_call _ _) Hd) as L2. apply k_call_ok in Hd as [Hd _].
  apply waitState_ok in Hr as [Hr L3]. split; [by apply (saw_later c c1 c2 c')|].
  apply (saw_from c c2); [by etrans|done].
Qed.

(** An operation that treats every load balancer of the tenant. *)
Lemma each_lb_run t (body : string * LoadBalancerConfig -> W unit) (Q : Cutover -> Cutover -> string -> LoadBalancerConfig -> Prop) c c' :
  (forall x, grows (body x)) ->
  (forall name lb c c', body (name, lb) c = (c', Some (Ok tt)) -> Q c c' name lb) ->
  (forall c0 c1 c2 c3 name lb, later c0 c1 -> Q c1 c2 name lb -> later c2 c3 -> Q c0 c3 name lb) ->
  (lbs ← loadBalancers t; w_each lbs body) c = (c', Some (Ok tt)) ->
  forall name, serves (ke_config (k_tick c)) t name -> Q c c' name (find_lb (ke_config (k_tick c)) name).
Proof.
  intros Hg Hb Hmono Hr name Hs. rewrite M_bind_eq in Hr. destruct (loadBalancers t c) as [c1 lbs] eqn:Hl. simpl in Hr.
  apply loadBalancers_run in Hl as (cfg & -> & Hl & _ & _ & _ & Hlbs).
  apply w_each_ok in Hr as [Hr _]; [|done]. rewrite Forall_forall in Hr.
  destruct (Hr (name, find_lb (ke_config (k_tick c)) name)) as (c2 & c3 & L2 & Hrun & L3); [by apply Hlbs|].
  eapply (Hmono c c2 c3 c'); [by etrans|by apply Hb|done].
Qed.

Lemma wake_ready_later c0 c1 c2 c3 name lb : later c0 c1 -> wake_ready c1 c2 name lb -> later c2 c3 -> wake_ready c0 c3 name lb.
Proof.
  intros L1 Hw L2. unfold wake_ready in *. destruct (is_tunnel lb).
  - destruct Hw as (rev & ? & ?). exists rev. split; by apply (saw_later c0 c1 c2 c3).
  - destruct Hw as (n & ?). exists n. by apply (saw_later c0 c1 c2 c3).
Qed.

Lemma wake_gone_later c0 c1 c2 c3 name lb : later c0 c1 -> wake_gone c1 c2 name lb -> later c2 c3 -> wake_gone c0 c3 name lb.
Proof.
  intros L1 Hw L2. unfold wake_gone in *.
  destruct (is_tunnel lb); destruct Hw as (x & ? & ?); exists x; split; by apply (saw_later c0 c1 c2 c3).
Qed.

Lemma wake_requested_later c0 c1 c2 c3 name lb :
  later c0 c1 -> wake_requested c1 c2 name lb -> later c2 c3 -> wake_requested c0 c3 name lb.
Proof.
  intros L1 Hw L2. unfold wake_requested in *.
  destruct (is_tunnel lb); destruct Hw as (x & ?); exists x; by apply (saw_later c0 c1 c2 c3).
Qed.

Lemma InstallWakePath_run t c c' name :
  InstallWakePath opts t c = (c', Some (Ok tt)) -> serves (ke_config (k_tick c)) t name ->
  wake_requested c c' name (find_lb (ke_config (k_tick c)) name).
Proof.
  intros Hr. eapply each_lb_run; [|exact install_lb_run|exact wake_requested_later|exact Hr]. apply grows_install_lb.
Qed.

Lemma WaitWakePathReady_run fuel t c c' name :
  WaitWakePathReady opts fuel t c = (c', Some (Ok tt)) -> serves (ke_config (k_tick c)) t name ->
  wake_ready c c' name (find_lb (ke_config (k_tick c)) name).
Proof.
  intros Hr. eapply each_lb_run; [|exact (await_lb_run fuel)|exact wake_ready_later|exact Hr]. apply grows_await_lb.
Qed.

Lemma RemoveWakePath_run fuel t c c' name :
  RemoveWakePath opts fuel t c = (c', Some (Ok tt)) -> serves (ke_config (k_tick c)) t name ->
  wake_gone c c' name (find_lb (ke_config (k_tick c)) name).
Proof.
  intros Hr. eapply each_lb_run; [|exact (remove_lb_run fuel)|exact wake_gone_later|exact Hr]. apply grows_remove_lb.
Qed.

(** *** Withdrawal *)

Definition refused_target (req : LBRequest) (c c' : Cutover) : Prop :=
  saw c c' (KState req (Ok LBTargetDraining)) \/ saw c c' (KState req (Ok LBTargetDeregistered)).

Lemma BeginTargetWithdrawal_run fuel t c c' :
  BeginTargetWithdrawal fuel t c = (c', Some (Ok tt)) -> plain_names (ke_config (k_tick c)) t ->
  exists targets c1 c2 c3, targets_of (ke_config (k_tick c)) t c c1 targets /\ later c c1 /\ later c1 c2 /\ later c2 c3 /\ later c3 c' /\
    (targets = [] -> forall name, serves (ke_config (k_tick c1)) t name -> is_tunnel (find_lb (ke_config (k_tick c1)) name) = true) /\
    Forall (fun req => saw c2 c3 (KDeregister req (Ok tt)) /\ refused_target req c3 c') targets.
Proof.
  intros (c1 & targets & Ht & Hr)%w_bind_ok Hpl. apply instanceTargets_run in Ht as [Ht L1]; [|done].
  rewrite M_bind_eq in Hr. destruct (loadBalancers t c1) as [c2 lbs] eqn:Hl. simpl in Hr.
  apply loadBalancers_run in Hl as (cfg & -> & L2 & _ & _ & _ & Hlbs).
  destruct (bool_decide (0 < _)%nat && _) eqn:Hguard; [done|].
  apply w_bind_ok in Hr as (c3 & [] & Hd & Hw).
  apply w_each_ok in Hd as [Hd L3]; [|intros; apply grows_call]. apply w_each_ok in Hw as [Hw L4]; [|apply grows_waitNotAccepting].
  exists targets, c1, c2, c3. split_and!; [done..| |].
  - intros -> name Hs. destruct (is_tunnel _) eqn:Et; [done|exfalso].
    rewrite andb_false_iff, !bool_decide_eq_false in Hguard. destruct Hguard as [Hz|?]; [|done].
    assert ((name, find_lb (ke_config (k_tick c1)) name) ∈ filter (fun item => is_tunnel item.2 = false) lbs) as Hin.
    { apply list_elem_of_filter. split; [done|]. by apply Hlbs. }
    destruct (filter _ lbs); [by apply elem_of_nil in Hin|simpl in Hz; lia].
  - rewrite Forall_forall in *. intros req Hin. split.
    + destruct (Hd req Hin) as (ca & cb & La & Hrun & Lb). apply k_call_ok in Hrun as [Hrun _]. by apply (saw_later c2 ca cb c3).
    + destruct (Hw req Hin) as (ca & cb & La & Hrun & Lb). apply waitNotAccepting_ok in Hrun as [[Hrun|Hrun] _]; [left|right];
        by apply (saw_later c3 ca cb c').
Qed.

Lemma FinishTargetWithdrawal_run fuel t c c' :
  FinishTargetWithdrawal fuel t c = (c', Some (Ok tt)) -> plain_names (ke_config (k_tick c)) t ->
  exists targets c1, targets_of (ke_config (k_tick c)) t c c1 targets /\ later c c1 /\
    Forall (fun req => saw c1 c' (KState req (Ok LBTargetDeregistered))) targets.
Proof.
  intros (c1 & targets & Ht & Hr)%w_bind_ok Hpl. apply instanceTargets_run in Ht as [Ht L1]; [|done].
  apply w_each_ok in Hr as [Hr _]; [|intros; apply grows_waitState]. exists targets, c1. split_and!; [done..|].
  eapply Forall_impl; [exact Hr|]. intros req (ca & cb & La & Hrun & Lb). apply waitState_ok in Hrun as [Hrun _].
  by apply (saw_later c1 ca cb c').
Qed.

Lemma RestoreTargets_run t c c' :
  RestoreTargets t c = (c', Some (Ok tt)) -> plain_names (ke_config (k_tick c)) t ->
  exists targets c1, targets_of (ke_config (k_tick c)) t c c1 targets /\ later c c1 /\
    Forall (fun req => saw c1 c' (KRegister req (Ok tt))) targets.
Proof.
  intros (c1 & targets & Ht & Hr)%w_bind_ok Hpl. apply instanceTargets_run in Ht as [Ht L1]; [|done].
  apply w_each_ok in Hr as [Hr _]; [|intros; apply grows_call]. exists targets, c1. split_and!; [done..|].
  eapply Forall_impl; [exact Hr|]. intros req (ca & cb & La & Hrun & Lb). apply k_call_ok in Hrun as [Hrun _].
  by apply (saw_later c1 ca cb c').
Qed.

(** *** Activity *)

(** The instance's report, read between the two states, is newer than the withdrawal
    and counts no connection at any of the ports. *)
Definition quiet_instance (at_ : Z) (ports : gset Z) (c c' : Cutover) (id : string) : Prop :=
  exists n inst h m, between c c' n /\ LocalDB.GetInstance id (ke_db n) = Ok inst /\
    i_health_at inst = Some h /\ at_ < h /\ ke_decode_health (i_health inst) = Ok (Some m) /\
    me_ebpf_error m = None /\ forall p, p ∈ ports -> exists k, me_ebpf_counters m !! p = Some k /\ k <= 0.

Lemma quiet_later at_ ports c0 c1 c2 c3 id : later c0 c1 -> quiet_instance at_ ports c1 c2 id -> later c2 c3 -> quiet_instance at_ ports c0 c3 id.
Proof. intros L1 (n & inst & h & m & Hn & ?) L2. exists n, inst, h, m. split; [by apply (between_later c0 c1 c2 c3)|done]. Qed.

Lemma check_ports_ok counters (ports : gset Z) order :
  order ≡ₚ elements ports -> check_all order (check_port counters) = Ok tt ->
  forall p, p ∈ ports -> exists k, counters !! p = Some k /\ k <= 0.
Proof.
  intros Hp Hc p Hin. apply check_all_ok in Hc. rewrite Hp, Forall_forall in Hc.
  specialize (Hc p (proj2 (elem_of_elements _ _) Hin)). unfold check_port in Hc.
  destruct (counters !! p) as [k|]; [|done]. case_bool_decide; [done|]. exists k. split; [done|lia].
Qed.

Lemma check_instance_run at_ ports fresh id c c' :
  check_instance at_ ports fresh id c = (c', Some (Ok true)) -> fresh = true /\ quiet_instance at_ ports c c' id.
Proof.
  intros Hr. pose proof (run_later _ _ _ _ (grows_check_instance _ _ _ _) Hr) as Lc.
  apply w_bind_ok in Hr as (c1 & inst & Hq & Hr).
  destruct (i_health_at inst) as [h|] eqn:Hh; [|by apply w_ret_ok in Hr as [_ ?]].
  case_bool_decide as Hlt; [by apply w_ret_ok in Hr as [_ ?]|].
  pose proof (run_later _ _ _ _ (grows_query _) Hq) as L1.
  apply w_bind_ok in Hr as (c2 & report & Hd%w_wrap_ok & Hr). rewrite M_ret_eq in Hd. injection Hd as -> Hd.
  destruct report as [m|]; [|done]. destruct (me_ebpf_error m) eqn:He; [done|].
  rewrite M_bind_eq in Hr. simpl in Hr. apply w_bind_ok in Hr as (c3 & [] & Hc & [-> ->]%w_ret_ok).
  rewrite M_ret_eq in Hc. injection Hc as <- Hc. split; [done|].
  apply k_query_ok in Hq as (n & Hn & Hi). exists n, inst, h, m.
  split_and!; [|done|done|lia|done|done|by eapply check_ports_ok; [apply ke_ports_perm|]].
  unfold between in *. simpl. lia.
Qed.

Lemma check_group_run at_ cfg t fresh g group c c' :
  check_group at_ cfg t fresh (g, group) c = (c', Some (Ok true)) ->
  fresh = true /\ (sized group = true -> group_ports cfg group ≠ ∅ ->
    exists n, between c c' n /\
      Forall (quiet_instance at_ (group_ports cfg group) c c') (LocalDB.GetInstancesByGroup t g true (ke_db n))).
Proof.
  unfold check_group. destruct (sized group); simpl; [|by intros [-> <-]%w_ret_ok].
  case_bool_decide; [by intros [-> <-]%w_ret_ok|]. intros (c1 & ids & Hq & Hf)%w_bind_ok.
  pose proof (run_later _ _ _ _ (grows_query _) Hq) as L1. apply k_query_ok in Hq as (n & Hn & [= <-]).
  set (ids := LocalDB.GetInstancesByGroup t g true (ke_db n)) in *.
  eapply (w_fold_ok _ (fun pre b cc => later c1 cc /\ (b = true -> fresh = true /\ Forall (quiet_instance at_ (group_ports cfg group) c1 cc) pre)))
    with (pre := []) in Hf as [[L2 Hf] _].
  - destruct (Hf eq_refl) as [-> Hall]. split; [done|]. intros _ _. exists n. split; [by apply (between_later c c c1 c')|].
    eapply Forall_impl; [exact Hall|]. intros id Hid. by apply (quiet_later _ _ c c1 c' c').
  - intros. apply grows_check_instance.
  - intros pre b cc id b' cc' [L2 HI] Hr. pose proof (run_later _ _ _ _ (grows_check_instance _ _ _ _) Hr) as L3.
    split; [by etrans|]. intros ->. apply check_instance_run in Hr as [-> Hid]. destruct (HI eq_refl) as [-> Hpre].
    split; [done|]. apply Forall_app. split.
    + eapply Forall_impl; [exact Hpre|]. intros id' Hid'. by apply (quiet_later _ _ c1 c1 cc cc').
    + apply Forall_singleton. by apply (quiet_later _ _ c1 cc cc' cc').
  - done.
Qed.

(** All instances behind the group's ports are quiet. *)
Definition quiet_group (at_ : Z) (cfg : Config) (t g : string) (group : GroupConfig) (c c' : Cutover) : Prop :=
  sized group = true -> group_ports cfg group ≠ ∅ ->
  exists n, between c c' n /\
    Forall (quiet_instance at_ (group_ports cfg group) c c') (LocalDB.GetInstancesByGroup t g true (ke_db n)).

Lemma quiet_group_later at_ cfg t g group c0 c1 c2 c3 :
  later c0 c1 -> quiet_group at_ cfg t g group c1 c2 -> later c2 c3 -> quiet_group at_ cfg t g group c0 c3.
Proof.
  intros L1 Hq L2 Hs Hp. destruct (Hq Hs Hp) as (n & Hn & Hall). exists n. split; [by apply (between_later c0 c1 c2 c3)|].
  eapply Forall_impl; [exact Hall|]. intros id Hid. by apply (quiet_later _ _ c0 c1 c2 c3).
Qed.

Lemma CheckActivity_run fuel t at_ c c' :
  CheckActivity fuel t at_ c = (c', Some (Ok tt)) ->
  exists c1, later c c1 /\ later c1 c' /\ forall g group, tenant_static (ke_config (k_tick c1)) t !! g = Some group ->
    quiet_group at_ (ke_config (k_tick c1)) t g group c1 c'.
Proof.
  intros (c1 & L1 & Hr)%poll_ok; [|apply grows_activity_round]. exists c1.
  pose proof (run_later _ _ _ _ (grows_activity_round _ _) Hr) as L2. split_and!; [done..|].
  unfold activity_round, k_config in Hr. rewrite M_bind_eq in Hr. simpl in Hr. rewrite M_bind_eq in Hr. simpl in Hr.
  set (cfg := ke_config (k_tick c1)) in *. apply w_bind_ok in Hr as (c2 & b & Hf & [-> Hb]%w_ret_ok).
  destruct b; [clear Hb|done].
  eapply (w_fold_ok _ (fun pre b cc => later c1 cc /\ (b = true -> Forall (fun '(g, group) => quiet_group at_ cfg t g group c1 cc) pre)))
    with (pre := []) in Hf as [[L3 Hf] _].
  - intros g group Hg. specialize (Hf eq_refl). rewrite Forall_forall in Hf. apply (Hf (g, group)).
    by apply elem_of_range.
  - intros. apply grows_check_group.
  - intros pre b cc [g group] b' cc' [L3 HI] Hr. pose proof (run_later _ _ _ _ (grows_check_group _ _ _ _ _) Hr) as L4.
    split; [by etrans|]. intros ->. apply check_group_run in Hr as [-> Hg]. apply Forall_app. split.
    + eapply Forall_impl; [exact (HI eq_refl)|]. intros [g' group'] Hq. by apply (quiet_group_later _ _ _ _ _ c1 c1 cc cc').
    + apply Forall_singleton. by apply (quiet_group_later _ _ _ _ _ c1 cc cc' cc').
  - split; [split; simpl; [lia|done]|done].
Qed.

(** *** Readiness of the instances *)

(** The provider reported a healthy target with the load balancer's resources. *)
Definition lb_healthy (c c' : Cutover) (name : string) : Prop :=
  exists n target, between c c' n /\ saw c c' (KState target (Ok LBTargetHealthy)) /\
    sameLB (lr_config target) (find_lb (ke_config n) name) = true.

Lemma lb_healthy_later c0 c1 c2 c3 name : later c0 c1 -> lb_healthy c1 c2 name -> later c2 c3 -> lb_healthy c0 c3 name.
Proof.
  intros L1 (n & target & ? & ? & ?) L2. exists n, target.
  split_and!; [by apply (between_later c0 c1 c2 c3)|by apply (saw_later c0 c1 c2 c3)|done].
Qed.

Lemma remaining_fold target (lbs : list (string * LoadBalancerConfig)) (remaining : gset string) name :
  name ∈ remaining ->
  name ∈ foldl (fun (remaining : gset string) item =>
           if sameLB target (LoadBalancerConfigForProvider item.2) then remaining ∖ {[item.1]} else remaining) remaining lbs \/
  exists lb, (name, lb) ∈ lbs /\ sameLB target lb = true.
Proof.
  revert remaining. induction lbs as [|[n lb] lbs IH]; intros remaining Hin; simpl; [by left|]. rewrite for_provider.
  assert (name ∈ (if sameLB target lb then remaining ∖ {[n]} else remaining) \/ (n = name /\ sameLB target lb = true)) as [Hr|[-> Hs]].
  { destruct (sameLB target lb); [|by left]. destruct (decide (name = n)); [by right|left; set_solver]. }
  - destruct (IH _ Hr) as [?|(lb' & ? & ?)]; [by left|right]. exists lb'. split; [by right|done].
  - right. exists lb. split; [by left|done].
Qed.

Lemma targets_round_run t c c' :
  targets_round t c = (c', Some (Ok (Some tt))) ->
  forall name, serves (ke_config (k_tick c)) t name -> is_tunnel (find_lb (ke_config (k_tick c)) name) = false -> lb_healthy c c' name.
Proof.
  intros Hr name Hs Ht. unfold targets_round in Hr. rewrite M_bind_eq in Hr.
  destruct (loadBalancers t c) as [c1 lbs] eqn:Hl. simpl in Hr. apply loadBalancers_run in Hl as (cfg & -> & L1 & _ & _ & _ & Hlbs).
  apply w_bind_ok in Hr as (c2 & targets & Hi & (c3 & rem & Hf & [-> Hrem]%w_ret_ok)%w_bind_ok).
  pose proof (run_later _ _ _ _ (grows_instanceTargets _) Hi) as L2. case_bool_decide as He; [subst rem|done].
  eapply (w_fold_ok _ (fun pre rem cc => later c cc /\ (name ∈ rem \/ lb_healthy c cc name))) with (pre := []) in Hf as [[_ [Hbad|?]] _];
    [set_solver|done|..].
  - intros rem target. grow.
  - intros pre rem cc target rem' cc' [L3 HI] (c4 & st & Hst & Hk)%w_bind_ok.
    pose proof (run_later _ _ _ _ (grows_state _) Hst) as L4. apply k_call_ok in Hst as [Hst _].
    case_bool_decide as Eh; last first.
    { apply w_ret_ok in Hk as [-> ->]. split; [by etrans|]. destruct HI as [?|?]; [by left|right]. by apply (lb_healthy_later c c cc c4). }
    subst st. rewrite M_bind_eq in Hk. destruct (loadBalancers t c4) as [c5 lbs'] eqn:Hl. simpl in Hk.
    apply loadBalancers_run in Hl as (cfg & -> & L5 & Hb & _ & _ & Hlbs'). apply w_ret_ok in Hk as [-> ->].
    assert (later cc c5) as L6 by (by etrans). split; [by etrans|].
    destruct HI as [Hin|?]; [|right; by apply (lb_healthy_later c c cc c5)].
    destruct (remaining_fold (lr_config target) lbs' rem name Hin) as [?|(lb & Hlb & Hsame)]; [by left|right].
    apply Hlbs' in Hlb as [_ ->]. exists (k_tick c4), target.
    split_and!; [apply (between_later c c4 c5 c5); [by do 2 (etrans; [|done])|done|done]|by apply (saw_later c cc c4 c5)|done].
  - split; [by etrans|left]. apply elem_of_list_to_set, list_elem_of_fmap. exists (name, find_lb (ke_config (k_tick c)) name).
    split; [done|]. apply list_elem_of_filter. split; [done|]. by apply Hlbs.
Qed.

(** An upstream of the listener answered: an instance of one of its groups whose last
    report is at most [fresh_for] old. *)
Definition upstream_ready (cutoff : Z) (c c' : Cutover) (t : string) (l : Listener) : Prop :=
  exists g n m inst h, g ∈ li_groups l /\ between c c' n /\ between c c' m /\
    i_id inst ∈ LocalDB.GetInstancesByGroup t g true (ke_db n) /\ LocalDB.GetInstance (i_id inst) (ke_db m) = Ok inst /\
    i_health_at inst = Some h /\ cutoff <= h /\ instance_host inst ≠ "" /\
    saw c c' (KDial (JoinHostPort (instance_host inst) (Itoa (li_target_port l))) true).

Lemma any_reachable_run cutoff port ids c c' :
  any_reachable cutoff port ids c = (c', Some (Ok true)) ->
  exists m inst h, i_id inst ∈ ids /\ between c c' m /\ LocalDB.GetInstance (i_id inst) (ke_db m) = Ok inst /\
    i_health_at inst = Some h /\ cutoff <= h /\ instance_host inst ≠ "" /\
    saw c c' (KDial (JoinHostPort (instance_host inst) (Itoa port)) true).
Proof.
  revert c. induction ids as [|id ids IH]; intros c; simpl; [by intros [_ ?]%w_ret_ok|].
  intros (c1 & inst & Hq & Hr)%w_bind_ok. pose proof (run_later _ _ _ _ (grows_query _) Hq) as L1.
  assert (forall cc, later c cc -> any_reachable cutoff port ids cc = (c', Some (Ok true)) -> exists m inst h,
    i_id inst ∈ id :: ids /\ between c c' m /\ LocalDB.GetInstance (i_id inst) (ke_db m) = Ok inst /\
    i_health_at inst = Some h /\ cutoff <= h /\ instance_host inst ≠ "" /\
    saw c c' (KDial (JoinHostPort (instance_host inst) (Itoa port)) true)) as Hrest.
  { intros cc Lc (m & i & h & Hin & Hm & ? & ? & ? & ? & Hsaw)%IH. exists m, i, h.
    split_and!; [by right|by apply (between_later c cc c' c')|done..|by apply (saw_from c cc)]. }
  destruct (_ || _) eqn:Hskip; [by apply (Hrest c1)|].
  rewrite M_bind_eq in Hr. simpl in Hr. rewrite M_bind_eq in Hr. simpl in Hr.
  apply orb_false_iff in Hskip as [Hh Hhost]. apply bool_decide_eq_false in Hhost.
  destruct (ke_dial _ _) eqn:Hdial; [|eapply Hrest, Hr; etrans; [exact L1|split; simpl; [lia|by apply prefix_app_r]]].
  apply w_ret_ok in Hr as [-> _]. destruct (i_health_at inst) as [h|] eqn:Eh; [|done]. apply bool_decide_eq_false in Hh.
  apply k_query_ok in Hq as (n & Hn & Hi).
  assert (i_id inst = id) as Hid by (by apply GetInstance_Ok in Hi as (_ & ? & _)).
  exists n, inst, h. rewrite Hid. split_and!; [by left|unfold between in *; simpl; lia|done|done|lia|done|].
  apply (saw_from c c1); [done|]. eexists [_]. simpl. split; [done|by left].
Qed.

Lemma upstream_later cutoff c0 c1 c2 c3 t l : later c0 c1 -> upstream_ready cutoff c1 c2 t l -> later c2 c3 -> upstream_ready cutoff c0 c3 t l.
Proof.
  intros L1 (g & n & m & inst & h & ? & ? & ? & ? & ? & ? & ? & ? & ?) L2. exists g, n, m, inst, h.
  split_and!; try done; [by apply (between_later c0 c1 c2 c3)..|by apply (saw_later c0 c1 c2 c3)].
Qed.

Lemma any_group_run cfg t cutoff l c c' gs :
  any_group_reachable cfg t cutoff (li_target_port l) gs c = (c', Some (Ok true)) -> gs ⊆ li_groups l -> upstream_ready cutoff c c' t l.
Proof.
  revert c. induction gs as [|g gs IH]; intros c; simpl; [by intros [_ ?]%w_ret_ok|]. intros Hr Hsub.
  assert (forall cc, later c cc -> any_group_reachable cfg t cutoff (li_target_port l) gs cc = (c', Some (Ok true)) ->
    upstream_ready cutoff c c' t l) as Hrest.
  { intros cc Lc Hcc. apply (upstream_later _ c cc c' c'); [done| |done]. apply IH; [done|set_solver]. }
  destruct (negb _); [by apply (Hrest c)|]. apply w_bind_ok in Hr as (c1 & ids & Hq & (c2 & b & Hb & Hr)%w_bind_ok).
  pose proof (run_later _ _ _ _ (grows_query _) Hq) as L1. pose proof (run_later _ _ _ _ (grows_any_reachable _ _ _) Hb) as L2.
  destruct b; [|by apply (Hrest c2); [etrans|]]. apply w_ret_ok in Hr as [-> _].
  apply k_query_ok in Hq as (n & Hn & [= <-]). apply any_reachable_run in Hb as (m & inst & h & Hin & Hm & ? & ? & ? & ? & ?).
  exists g, n, m, inst, h. split_and!; try done; [set_solver|by apply (between_later c c c1 c2)|by apply (between_later c c1 c2 c2)|by apply (saw_from c c1)].
Qed.

(** Counting loops: the count stays zero only if every element passed. *)
Lemma count_fold {A} (body : nat -> A -> W nat) (Q : A -> Cutover -> Cutover -> Prop) l c c' k :
  (forall s x, grows (body s x)) ->
  (forall x c0 c1 c2 c3, later c0 c1 -> Q x c1 c2 -> later c2 c3 -> Q x c0 c3) ->
  (forall x k c c', body k x c = (c', Some (Ok O)) -> k = O /\ Q x c c') ->
  w_fold body k l c = (c', Some (Ok O)) -> k = O /\ Forall (fun x => Q x c c') l.
Proof.
  intros Hg Hmono Hb Hf.
  eapply (w_fold_ok _ (fun pre k' cc => later c cc /\ (k' = O -> k = O /\ Forall (fun x => Q x c cc) pre))) with (pre := []) in Hf as [[_ Hf] _];
    [by apply Hf|done| |done].
  intros pre k1 cc x k2 cc' [L HI] Hr. pose proof (run_later _ _ _ _ (Hg _ _) Hr) as L2. split; [by etrans|]. intros ->.
  apply Hb in Hr as [-> HQ]. destruct (HI eq_refl) as [-> Hpre]. split; [done|]. apply Forall_app. split.
  - eapply Forall_impl; [exact Hpre|]. intros y Hy. by apply (Hmono y c c cc cc').
  - apply Forall_singleton. by apply (Hmono x c cc cc' cc').
Qed.

(** Every listener of the tenant's tunnels has an upstream that answers. *)
Definition tunnels_ready (cfg : Config) (listeners : gmap string Listener) (t : string) (c c' : Cutover) : Prop :=
  exists n m, between c c' n /\ between c c' m /\ forall name target proxy, serves (ke_config m) t name ->
    is_tunnel (find_lb (ke_config m) name) = true -> (target, proxy) ∈ lbc_listeners (find_lb (ke_config m) name) ->
    upstream_ready (ke_now n - ko_fresh_for opts) c c' t (find_listener listeners name proxy).

Lemma upstream_round_run cfg listeners t c c' :
  upstream_round opts cfg listeners t c = (c', Some (Ok (Some tt))) -> tunnels_ready cfg listeners t c c'.
Proof.
  intros Hr. pose proof (run_later _ _ _ _ (grows_upstream_round _ _ _ _) Hr) as L.
  unfold upstream_round in Hr. rewrite M_bind_eq in Hr. simpl in Hr. set (c0 := mkCutover _ _) in Hr.
  assert (later c c0) as L0 by (split; simpl; [lia|done]).
  rewrite M_bind_eq in Hr. destruct (loadBalancers t c0) as [c1 lbs] eqn:Hl. simpl in Hr.
  apply loadBalancers_run in Hl as (cfg1 & -> & L1 & Hb & _ & _ & Hlbs).
  apply w_bind_ok in Hr as (c2 & rem & Hf & [-> Hz]%w_ret_ok). case_bool_decide as Hrem; [subst rem; clear Hz|done].
  set (cutoff := ke_now (k_tick c) - ko_fresh_for opts) in *.
  assert (later c1 c2) as L2 by (eapply run_later, Hf; grow).
  apply (count_fold _ (fun item cc cc' => is_tunnel item.2 = true -> Forall (fun l => upstream_ready cutoff cc cc' t
    (find_listener listeners item.1 l.2)) (lbc_listeners item.2))) in Hf as [_ Hall].
  - exists (k_tick c), (k_tick c0). split_and!; [unfold between in *; simpl in *; destruct L2; lia|unfold between in *; simpl in *; destruct L2; lia|].
    intros name target proxy Hs Ht Hin. rewrite Forall_forall in Hall.
    specialize (Hall (name, find_lb (ke_config (k_tick c0)) name)). simpl in Hall. rewrite Forall_forall in Hall.
    apply (upstream_later _ c c1 c2 c2); [by etrans| |done]. by apply (Hall (proj2 (Hlbs _ _) (conj Hs eq_refl)) Ht (target, proxy)).
  - intros. grow.
  - intros item d0 d1 d2 d3 La Hq Lb Ht. eapply Forall_impl; [exact (Hq Ht)|]. intros l Hu. by apply (upstream_later _ d0 d1 d2 d3).
  - intros item k d d' Hr. destruct (is_tunnel item.2) eqn:Ht; simpl in Hr; [|by apply w_ret_ok in Hr as [-> <-]].
    apply (count_fold _ (fun l cc cc' => upstream_ready cutoff cc cc' t (find_listener listeners item.1 l.2))) in Hr as [-> Hr].
    + done.
    + intros. grow.
    + intros l d0 d1 d2 d3 ? ? ?. by apply (upstream_later _ d0 d1 d2 d3).
    + intros l k' e e' (e1 & b & Hb' & [-> Hk]%w_ret_ok)%w_bind_ok. destruct b; [|done]. split; [done|]. by eapply any_group_run.
Qed.

Lemma WaitTargetsReady_run fuel t c c' :
  WaitTargetsReady opts fuel t c = (c', Some (Ok tt)) ->
  exists c1 c2 c3 listeners, later c c1 /\ later c2 c3 /\ later c3 c' /\
    (forall name, serves (ke_config (k_tick c1)) t name -> is_tunnel (find_lb (ke_config (k_tick c1)) name) = false -> lb_healthy c1 c2 name) /\
    (exists n, @ProxyConfig (ke_order n) (ke_config (k_tick c2)) = Ok listeners) /\
    tunnels_ready (ke_config (k_tick c2)) listeners t c3 c'.
Proof.
  intros (c2 & [] & Hp & Hw)%w_bind_ok. apply poll_ok in Hp as (c1 & L1 & Hr); [|apply grows_targets_round].
  unfold waitTunnelUpstreamReady, k_config in Hw. rewrite M_bind_eq in Hw. simpl in Hw.
  apply w_bind_ok in Hw as (c3 & listeners & Hl & Hw). unfold now_ in Hl. rewrite M_bind_eq in Hl. simpl in Hl.
  rewrite M_ret_eq in Hl. injection Hl as <- Hl. apply poll_ok in Hw as (c4 & L4 & Hw); [|apply grows_upstream_round].
  exists c1, c2, c4, listeners. split_and!.
  - done.
  - etrans; [|exact L4]. split; simpl; [lia|done].
  - by eapply run_later, Hw; apply grows_upstream_round.
  - by apply targets_round_run.
  - by exists (S (k_tick c2)).
  - by apply upstream_round_run in Hw.
Qed.
End Safety.

(** ** Every wait ends *)

Section Ends.
Context {HK : CutoverEnv}.
Variable opts : CutoverOptions.

(** Never out of rounds from a state whose tick is at least [lo]. *)
Definition ends_from (lo : nat) {A} (m : W A) : Prop := forall c, (lo <= k_tick c)%nat -> (m c).2 ≠ None.

Lemma ends_bind lo {A B} (m : W A) (f : A -> W B) :
  grows m -> ends_from lo m -> (forall a, ends_from lo (f a)) -> ends_from lo (w_bind m f).
Proof.
  intros Hg Hm Hf c Hc. specialize (Hm c Hc). specialize (Hg c). unfold w_bind. rewrite M_bind_eq.
  destruct (m c) as [c1 [[a|e]|]]; simpl in *; [|done|done]. apply Hf. destruct Hg; lia.
Qed.

Lemma ends_step lo {A B} (m : M Cutover A) (f : A -> W B) : grows m -> (forall a, ends_from lo (f a)) -> ends_from lo (m ≫= f).
Proof. intros Hg Hf c Hc. rewrite M_bind_eq. apply Hf. destruct (Hg c). lia. Qed.

Lemma ends_ret lo {A} (r : res A) : ends_from lo (mret (Some r)).
Proof. by intros c. Qed.

Lemma ends_wrap lo {A} msg (m : W A) : ends_from lo m -> ends_from lo (w_wrap msg m).
Proof. intros Hm c Hc. specialize (Hm c Hc). unfold w_wrap. rewrite M_bind_eq. by destruct (m c) as [c1 [[|]|]]. Qed.

Lemma ends_each lo {A} (l : list A) body : (forall x, grows (body x)) -> (forall x, ends_from lo (body x)) -> ends_from lo (w_each l body).
Proof. intros Hg Hb. induction l as [|x l IH]; [apply ends_ret|]. by apply ends_bind. Qed.

Lemma ends_fold lo {S A} (body : S -> A -> W S) s l :
  (forall s x, grows (body s x)) -> (forall s x, ends_from lo (body s x)) -> ends_from lo (w_fold body s l).
Proof. intros Hg Hb. revert s. induction l as [|x l IH]; intros s; [apply ends_ret|]. by apply ends_bind. Qed.

Lemma ends_call lo {A} (f : nat -> res A) e : ends_from lo (k_call f e).
Proof. by intros c Hc. Qed.

Lemma ends_query lo {A} (f : DB -> res A) : ends_from lo (k_query f).
Proof. intros c Hc. unfold k_query. rewrite M_bind_eq. simpl. by destruct (ke_db_fault (k_tick c)). Qed.

(** From the observation [done] on, the select takes the context's case. *)
Definition ctx_ends (done : nat) : Prop := forall n, (done <= n)%nat -> ke_select n ≠ None.

Lemma ends_poll lo done fuel {A} (round : W (option A)) :
  ctx_ends done -> (done < lo + fuel)%nat -> (0 < fuel)%nat -> grows round -> ends_from lo round -> ends_from lo (poll fuel round).
Proof.
  intros Hd Hlt Hpos Hg Hr c. revert c lo Hlt Hpos Hr. induction fuel as [|fuel IH]; intros c lo Hlt Hpos Hr Hc; [lia|]. simpl.
  specialize (Hr c Hc) as Hrc. pose proof (Hg c) as [Ht _]. unfold w_bind at 1. rewrite M_bind_eq.
  destruct (round c) as [c1 [[[a|]|e]|]]; simpl in *; [done| |done|done]. rewrite M_bind_eq. simpl.
  destruct (ke_select (k_tick c1)) eqn:Hs; [done|].
  destruct (decide (done <= k_tick c1)%nat) as [Hle|]; [by destruct (Hd _ Hle)|].
  apply (IH _ (S (k_tick c1))); [lia|lia| |simpl; lia]. intros c2 Hc2. apply Hr. lia.
Qed.
End Ends.

Ltac end_step :=
  match goal with
  | |- ends_from _ (w_bind _ _) => apply ends_bind; [grow| |intros ?]
  | |- ends_from _ (mbind _ _) => apply ends_step; [grow|intros ?]
  | |- ends_from _ (w_wrap _ _) => apply ends_wrap
  | |- ends_from _ (w_each _ _) => apply ends_each; [intros; grow|intros ?]
  | |- ends_from _ (w_fold _ _ _) => apply ends_fold; [intros; grow|intros ? ?]
  | |- ends_from _ (k_call _ _) => apply ends_call
  | |- ends_from _ (k_query _) => apply ends_query
  | |- ends_from _ (match ?x with _ => _ end) => destruct x
  | |- ends_from _ (w_ret _) => apply ends_ret
  | |- ends_from _ (w_fail _) => apply ends_ret
  | |- ends_from _ (mret (Some _)) => apply ends_ret
  | |- ends_from _ _ => solve [auto with cutover]
  end.
Ltac ending := repeat (end_step; cbv beta).

Section Terminates.
Context {HK : CutoverEnv}.
Variable opts : CutoverOptions.

Lemma ends_tunnel lo : ends_from lo tunnel.
Proof. unfold tunnel. ending. Qed.

Lemma ends_instanceTargets lo t : ends_from lo (instanceTargets t).
Proof. unfold instanceTargets, k_config. ending. Qed.

Lemma ends_any_reachable lo cutoff port ids : ends_from lo (any_reachable cutoff port ids).
Proof. induction ids as [|id ids IH]; simpl; ending. Qed.
#[local] Hint Resolve ends_tunnel ends_instanceTargets ends_any_reachable : cutover.

Lemma ends_any_group lo cfg t cutoff port gs : ends_from lo (any_group_reachable cfg t cutoff port gs).
Proof. induction gs as [|g gs IH]; simpl; ending. Qed.
#[local] Hint Resolve ends_any_group : cutover.

Lemma ends_upstream_round lo cfg ls t : ends_from lo (upstream_round opts cfg ls t).
Proof. unfold upstream_round. ending. Qed.

Lemma ends_targets_round lo t : ends_from lo (targets_round t).
Proof. unfold targets_round, GetLBTargetState. ending. Qed.

Lemma ends_activity_round lo at_ t : ends_from lo (activity_round at_ t).
Proof. unfold activity_round, check_group, check_instance, k_config. ending. Qed.

Context (done lo fuel : nat) (Hdone : ctx_ends done) (Hfuel : (done < lo + fuel)%nat) (Hpos : (0 < fuel)%nat).

Lemma ends_waitState req st : ends_from lo (waitState fuel req st).
Proof. eapply ends_poll; [done..|grow|]. unfold GetLBTargetState. ending. Qed.

Lemma ends_waitNotAccepting req : ends_from lo (waitNotAccepting fuel req).
Proof. eapply ends_poll; [done..|grow|]. unfold GetLBTargetState. ending. Qed.
#[local] Hint Resolve ends_waitState ends_waitNotAccepting : cutover.

Lemma ends_WaitWakePathReady t : ends_from lo (WaitWakePathReady opts fuel t).
Proof. unfold WaitWakePathReady, await_lb, SetDesired, Wait. ending. Qed.

Lemma ends_BeginTargetWithdrawal t : ends_from lo (BeginTargetWithdrawal fuel t).
Proof. unfold BeginTargetWithdrawal, DeregisterTarget. ending. Qed.

Lemma ends_FinishTargetWithdrawal t : ends_from lo (FinishTargetWithdrawal fuel t).
Proof. unfold FinishTargetWithdrawal. ending. Qed.

Lemma ends_RestoreTargets t : ends_from lo (RestoreTargets t).
Proof. unfold RestoreTargets, RegisterTarget. ending. Qed.

Lemma ends_InstallWakePath t : ends_from lo (InstallWakePath opts t).
Proof. unfold InstallWakePath, install_lb, SetDesired, RegisterTarget. ending. Qed.

Lemma ends_RemoveWakePath t : ends_from lo (RemoveWakePath opts fuel t).
Proof. unfold RemoveWakePath, remove_lb, SetDesired, Wait, DeregisterTarget. ending. Qed.

Lemma ends_CheckActivity t at_ : ends_from lo (CheckActivity fuel t at_).
Proof. eapply ends_poll; [done..|grow|]. apply ends_activity_round. Qed.

Lemma ends_WaitTargetsReady t : ends_from lo (WaitTargetsReady opts fuel t).
Proof.
  unfold WaitTargetsReady. apply ends_bind; [grow| |intros _].
  - eapply ends_poll; [done..|grow|]. apply ends_targets_round.
  - unfold waitTunnelUpstreamReady, k_config, now_. apply ends_step; [grow|intros cfg].
    apply ends_bind; [grow|ending|intros ls]. eapply ends_poll; [done..|grow|]. apply ends_upstream_round.
Qed.
End Terminates.
