(* ===== verification/TenantCutover.v ===== *)
(** * Tenant transitions over the provider cutover

    [TenantState] calls a cutover through an interface; [Cutover] implements it.
    [CutoverImpl] is the contract between them: a call the manager sees succeed is a
    run of the corresponding method that returns [nil].  [promise] is what each
    method guarantees then ([run_call_promise]), and the transitions' order carries
    it over to what the provider confirmed before a tenant sleeps or loses its wake
    path. *)

From S2P Require Import Prelude Provider Json LocalDB GoText Config ProxyConfig Document TenantState TenantStateFacts.
From S2P Require Import TunnelControl Cutover CutoverFacts CutoverSafety.

Section Calls.
Context {HK : CutoverEnv}.
Variable opts : CutoverOptions.

(** The method behind each call of the [Cutover] interface. *)
Definition run_call (fuel : nat) (t : string) (call : CutoverCall) : W unit :=
  match call with
  | TenantState.InstallWakePath => Cutover.InstallWakePath opts t
  | TenantState.WaitWakePathReady => Cutover.WaitWakePathReady opts fuel t
  | TenantState.BeginTargetWithdrawal => Cutover.BeginTargetWithdrawal fuel t
  | TenantState.CheckActivity since => Cutover.CheckActivity fuel t since
  | TenantState.FinishTargetWithdrawal => Cutover.FinishTargetWithdrawal fuel t
  | TenantState.RestoreTargets => Cutover.RestoreTargets t
  | TenantState.WaitTargetsReady => Cutover.WaitTargetsReady opts fuel t
  | TenantState.RemoveWakePath => Cutover.RemoveWakePath opts fuel t
  end.

(** What a method that returned [nil] between [c] and [c'] has made sure of. *)
Definition promise (t : string) (call : CutoverCall) (c c' : Cutover) : Prop :=
  let cfg := ke_config (k_tick c) in
  match call with
  | TenantState.InstallWakePath => forall name, serves cfg t name -> wake_requested opts c c' name (find_lb cfg name)
  | TenantState.WaitWakePathReady => forall name, serves cfg t name -> wake_ready opts c c' name (find_lb cfg name)
  | TenantState.BeginTargetWithdrawal => plain_names cfg t -> exists targets c1 c2 c3,
      targets_of cfg t c c1 targets /\ later c c1 /\ later c1 c2 /\ later c2 c3 /\ later c3 c' /\
      (targets = [] -> forall name, serves (ke_config (k_tick c1)) t name -> is_tunnel (find_lb (ke_config (k_tick c1)) name) = true) /\
      Forall (fun req => saw c2 c3 (KDeregister req (Ok tt)) /\ refused_target req c3 c') targets
  | TenantState.CheckActivity since => exists c1, later c c1 /\ later c1 c' /\
      forall g group, tenant_static (ke_config (k_tick c1)) t !! g = Some group -> quiet_group since (ke_config (k_tick c1)) t g group c1 c'
  | TenantState.FinishTargetWithdrawal => plain_names cfg t -> exists targets c1, targets_of cfg t c c1 targets /\ later c c1 /\
      Forall (fun req => saw c1 c' (KState req (Ok LBTargetDeregistered))) targets
  | TenantState.RestoreTargets => plain_names cfg t -> exists targets c1, targets_of cfg t c c1 targets /\ later c c1 /\
      Forall (fun req => saw c1 c' (KRegister req (Ok tt))) targets
  | TenantState.WaitTargetsReady => exists c1 c2 c3 listeners, later c c1 /\ later c2 c3 /\ later c3 c' /\
      (forall name, serves (ke_config (k_tick c1)) t name -> is_tunnel (find_lb (ke_config (k_tick c1)) name) = false -> lb_healthy c1 c2 name) /\
      (exists n, @ProxyConfig (ke_order n) (ke_config (k_tick c2)) = Ok listeners) /\
      tunnels_ready opts (ke_config (k_tick c2)) listeners t c3 c'
  | TenantState.RemoveWakePath => forall name, serves cfg t name -> wake_gone opts c c' name (find_lb cfg name)
  end.

Lemma run_call_promise fuel t call c c' : run_call fuel t call c = (c', Some (Ok tt)) -> promise t call c c'.
Proof.
  destruct call; simpl; intros Hr.
  - intros name. by apply InstallWakePath_run.
  - intros name. by eapply WaitWakePathReady_run.
  - by eapply BeginTargetWithdrawal_run.
  - by eapply CheckActivity_run.
  - by eapply FinishTargetWithdrawal_run.
  - by eapply RestoreTargets_run.
  - by eapply WaitTargetsReady_run.
  - intros name. by eapply RemoveWakePath_run.
Qed.

Lemma run_call_ends done fuel t call c :
  ctx_ends done -> (done < k_tick c + fuel)%nat -> (0 < fuel)%nat -> (run_call fuel t call c).2 ≠ None.
Proof.
  intros Hd Hf Hp. assert (ends_from (k_tick c) (run_call fuel t call)) as He; [|by apply He].
  destruct call; simpl;
    eauto using ends_InstallWakePath, ends_WaitWakePathReady, ends_BeginTargetWithdrawal, ends_CheckActivity,
      ends_FinishTargetWithdrawal, ends_RestoreTargets, ends_WaitTargetsReady, ends_RemoveWakePath.
Qed.

(** The method was run, and kept its promise. *)
Definition confirmed (t : string) (call : CutoverCall) : Prop :=
  exists fuel c c', run_call fuel t call c = (c', Some (Ok tt)) /\ promise t call c c'.
End Calls.

(** The manager's calls are those of [ProviderCutover]. *)
Class CutoverImpl (HT : TenantEnv) (HK : CutoverEnv) (opts : CutoverOptions) : Prop :=
  cutover_impl : forall n t call, te_call n t call = Ok tt -> exists fuel c c', run_call opts fuel t call c = (c', Some (Ok tt)).

(** A cutover whose [n]-th call starts at observation [start n]: its answers, with a
    call that does not end reported as cancelled. *)
Definition call_of {HK : CutoverEnv} (opts : CutoverOptions) (fuel : nat) (start : nat -> nat) (n : nat) (t : string) (call : CutoverCall) : res unit :=
  default (Err ErrCanceled) (run_call opts fuel t call (mkCutover (start n) [])).2.

Lemma call_of_impl (HT : TenantEnv) (HK : CutoverEnv) opts fuel start :
  (forall n t call, te_call n t call = call_of opts fuel start n t call) -> CutoverImpl HT HK opts.
Proof.
  intros Hcall n t call. rewrite Hcall. unfold call_of.
  destruct (run_call opts fuel t call _) as [c' [r|]] eqn:Hr; simpl; [intros ->|done]. by exists fuel, (mkCutover (start n) []), c'.
Qed.

Section Composed.
Context {HT : TenantEnv} {HL : DocLaws stateDocument} {HK : CutoverEnv} (opts : CutoverOptions) {HI : CutoverImpl HT HK opts}.

Lemma honest_confirmed t call : honest_call (Did (Called t call (Ok tt))) -> confirmed opts t call.
Proof.
  intros [n Hn]. symmetry in Hn. destruct (HI n t call Hn) as (fuel & c & c' & Hr). exists fuel, c, c'. split; [done|].
  by eapply run_call_promise.
Qed.

(** A write that records a withdrawal where none was recorded rests on a confirmed
    withdrawal: every target was asked to go and seen not accepting. *)
Definition withdrawal_recorded (t : string) (x : LogEntry stateDocument TenantEvent) : Prop :=
  match x with
  | Wrote old new =>
      tp_withdrawal_at (progress_of (entry_of (doc_of ∅ old) t)) = None ->
      tp_withdrawal_at (progress_of (entry_of new t)) ≠ None -> confirmed opts t TenantState.BeginTargetWithdrawal
  | Did _ => True
  end.

(** Before a write that puts the tenant to sleep the cutover confirmed the wake path,
    the beginning of the withdrawal if the operation found none recorded ([w0]) and,
    for a guarded sleep, quiet and withdrawn instances. *)
Definition sleep_confirmed (t : string) (w0 : option Z) (x : LogEntry stateDocument TenantEvent) : Prop :=
  match x with
  | Wrote old new =>
      let e := entry_of (doc_of ∅ old) t in
      ts_sleep e = None -> ts_sleep (entry_of new t) ≠ None ->
      ts_target_registration_blocked e = true /\ confirmed opts t TenantState.InstallWakePath /\ confirmed opts t TenantState.WaitWakePathReady /\
      (w0 = None -> confirmed opts t TenantState.BeginTargetWithdrawal) /\
      exists p at_, ts_transition e = Some p /\ tp_withdrawal_at p = Some at_ /\
        (tp_guarded p = true -> confirmed opts t (TenantState.CheckActivity at_) /\ confirmed opts t TenantState.FinishTargetWithdrawal)
  | Did _ => True
  end.

(** When the wake path is removed the cutover has confirmed the instances; when the
    tenant's entry goes it has confirmed that the wake path is gone. *)
Definition wake_confirmed (t : string) (x : LogEntry stateDocument TenantEvent) : Prop :=
  match x with
  | Did (Called _ TenantState.RemoveWakePath _) => confirmed opts t TenantState.RestoreTargets /\ confirmed opts t TenantState.WaitTargetsReady
  | Wrote old new => is_Some (doc_of ∅ old !! t) -> new !! t = None -> confirmed opts t TenantState.RemoveWakePath
  | Did _ => True
  end.

(** An ordered and honest segment is confirmed. *)
Lemma each_confirmed (P : Log -> LogEntry stateDocument TenantEvent -> Prop) (Q : LogEntry stateDocument TenantEvent -> Prop) l :
  (forall before x, Forall honest_call before -> P before x -> Q x) -> each P l -> Forall honest_call l -> Forall Q l.
Proof.
  intros HPQ He Hh. apply Forall_forall. intros x (l1 & l2 & ->)%list_elem_of_split. apply Forall_app in Hh as [Hh _].
  by eapply HPQ; [|apply (He l1 x l2)].
Qed.

Lemma confirmed_before t call (before : Log) :
  Forall honest_call before -> Did (Called t call (Ok tt)) ∈ before -> confirmed opts t call.
Proof. rewrite Forall_forall. intros Hh Hin. by apply honest_confirmed, Hh. Qed.

Lemma withdrawal_step_confirmed t before x : Forall honest_call before -> withdrawal_step t before x -> withdrawal_recorded t x.
Proof.
  intros Hh. destruct x as [old new|]; [|done]. simpl. intros Hs Ho Hn. destruct (Hs Ho Hn) as [l ->].
  apply (confirmed_before t _ _ Hh). set_solver.
Qed.

Lemma sleep_step_confirmed t w0 before x : Forall honest_call before -> sleep_step t w0 before x -> sleep_confirmed t w0 x.
Proof.
  intros Hh. destruct x as [old new|]; [|done]. simpl. intros Hs Ha Hb.
  destruct (Hs Ha Hb) as (Hbl & _ & p & at_ & Hp & Hat & Hsub & Hbeg).
  assert (forall call, Did (Called t call (Ok tt)) ∈ sleep_calls t p -> confirmed opts t call) as Hin.
  { intros call Hc. eapply confirmed_before; [done|]. by eapply elem_of_submseteq, sublist_submseteq. }
  split_and!; [done|apply Hin; unfold sleep_calls; set_solver..| |].
  { intros Hw. by eapply confirmed_before, Hbeg. }
  exists p, at_. split_and!; [done..|]. intros Hg.
  split; apply Hin; unfold sleep_calls, guard_calls; rewrite Hg, Hat; set_solver.
Qed.

Lemma restore_step_confirmed t before x : Forall honest_call before -> restore_step t before x -> wake_confirmed t x.
Proof.
  intros Hh. destruct x as [old new|[? [] ?| |]]; simpl; try done.
  - intros Hs Ha Hb. destruct (Hs Ha Hb) as [l ->]. apply (confirmed_before t _ _ Hh). set_solver.
  - intros (old & new & [l ->] & _). split; apply (confirmed_before t _ _ Hh); set_solver.
Qed.

Lemma run_op_sleeps t m op :
  rely t -> te_has_cutover = true -> withdrawn_blocked (cur t m) ->
  match op with OpSleep _ _ _ | OpResume => 
    exists l, log (run_op t op m).1 = log m ++ l /\ each (sleep_step t (tp_withdrawal_at (progress_of (cur t m)))) l | _ => True end.
Proof.
  intros Hrely Hc Hw. destruct op as [w g k| | | | |]; simpl; try done; rewrite M_bind_eq; simpl.
  - by destruct (sleep_each t m w g k Hrely Hc Hw) as [? _].
  - by destruct (sleep_each t m None true true Hrely Hc Hw) as [_ ?].
Qed.

End Composed.

Section Claims.
Context {HK : CutoverEnv} (opts : CutoverOptions).

(** A withdrawal that succeeds is complete and confirmed.  When
    [BeginTargetWithdrawal] returns [nil], it has asked the provider to deregister
    every target of the tenant (each provider load balancer of each sized static
    group with each of the group's instances, once) before it started waiting, every
    target has since been observed draining or deregistered, and the list of targets
    is empty only if no load balancer of the tenant is the provider's.  When
    [FinishTargetWithdrawal] returns [nil], every target has been observed
    deregistered. *)
Theorem withdrawal_confirmed fuel t c c' :
  plain_names (ke_config (k_tick c)) t ->
  (Cutover.BeginTargetWithdrawal fuel t c = (c', Some (Ok tt)) ->
   exists targets c1 c2 c3, targets_of (ke_config (k_tick c)) t c c1 targets /\ later c c1 /\ later c1 c2 /\ later c2 c3 /\ later c3 c' /\
     (targets = [] -> forall name, serves (ke_config (k_tick c1)) t name -> is_tunnel (find_lb (ke_config (k_tick c1)) name) = true) /\
     Forall (fun req => saw c2 c3 (KDeregister req (Ok tt)) /\ refused_target req c3 c') targets) /\
  (Cutover.FinishTargetWithdrawal fuel t c = (c', Some (Ok tt)) ->
   exists targets c1, targets_of (ke_config (k_tick c)) t c c1 targets /\ later c c1 /\
     Forall (fun req => saw c1 c' (KState req (Ok LBTargetDeregistered))) targets).
Proof. intros Hp. split; intros Hr; [by eapply BeginTargetWithdrawal_run|by eapply FinishTargetWithdrawal_run]. Qed.

(** C18. Sleep is not guarded by stale reports.  When [CheckActivity] returns [nil], in
    its last round every instance of every sized static group with ports had a health
    report newer than the withdrawal, with metrics, without an eBPF error, and with a
    counter of no connections for each of the group's target ports. *)
Theorem activity_fresh fuel t since c c' :
  Cutover.CheckActivity fuel t since c = (c', Some (Ok tt)) ->
  exists c1, later c c1 /\ later c1 c' /\ forall g group,
    tenant_static (ke_config (k_tick c1)) t !! g = Some group -> sized group = true -> group_ports (ke_config (k_tick c1)) group ≠ ∅ ->
    exists n, between c1 c' n /\
      Forall (quiet_instance since (group_ports (ke_config (k_tick c1)) group) c1 c') (LocalDB.GetInstancesByGroup t g true (ke_db n)).
Proof. apply CheckActivity_run. Qed.

(** C19. The cutover ends with its context.  Once the select of the waiting loops takes
    the context's case, which it does from some observation on, every operation of the
    cutover returns: as many rounds as observations are left until then, and one more,
    are enough, whatever the provider, the tunnels and the database answer. *)
Theorem cutover_ends done fuel t call c :
  ctx_ends done -> (done < k_tick c + fuel)%nat -> (0 < fuel)%nat -> (run_call opts fuel t call c).2 ≠ None.
Proof. apply run_call_ends. Qed.

(** *** Sizes of the static configuration *)

(** No static group of the tenant has a size, at any observation. *)
Definition never_sized (t : string) : Prop :=
  forall n g group, tenant_static (ke_config n) t !! g = Some group -> sized group = false.

Lemma no_lbs t c : never_sized t -> exists c', loadBalancers t c = (c', []) /\ k_trace c' = k_trace c.
Proof.
  intros Hn. destruct (loadBalancers t c) as [c' lbs] eqn:Hl. pose proof Hl as Hrun.
  apply loadBalancers_run in Hrun as (cfg & -> & _ & _ & _ & _ & Hlbs).
  destruct lbs as [|[name lb] lbs].
  - exists c'. split; [done|]. unfold loadBalancers, k_config in Hl. rewrite M_bind_eq in Hl. simpl in Hl.
    rewrite M_bind_eq in Hl. simpl in Hl. rewrite M_ret_eq in Hl. by injection Hl as <- _.
  - destruct (proj1 (Hlbs name lb)) as [(g & group & Hg & Hs & _) _]; [by left|]. by rewrite (Hn _ _ _ Hg) in Hs.
Qed.

Lemma w_fold_idle {S A} (body : S -> A -> W S) s l c :
  (forall x, x ∈ l -> body s x = w_ret s) -> w_fold body s l c = (c, Some (Ok s)).
Proof.
  revert c. induction l as [|x l IH]; intros c Hb; [done|]. simpl. rewrite Hb by set_solver.
  unfold w_bind. rewrite M_bind_eq. simpl. apply IH. set_solver.
Qed.

Lemma no_targets t c : never_sized t -> exists c', instanceTargets t c = (c', Some (Ok [])) /\ k_trace c' = k_trace c.
Proof.
  intros Hn. unfold instanceTargets, k_config. rewrite M_bind_eq. simpl. unfold w_bind at 1. rewrite M_bind_eq.
  rewrite w_fold_idle.
  - simpl. by eexists.
  - intros g Hg. fold (tenant_static (ke_config (k_tick c)) t).
    assert (sized (default zero_group (tenant_static (ke_config (k_tick c)) t !! g)) = false) as ->; [|done].
    destruct (tenant_static _ _ !! g) eqn:E; [by eapply Hn|done].
Qed.

Lemma unsized_call fuel t call c :
  never_sized t ->
  match call with TenantState.WaitTargetsReady | TenantState.RestoreTargets | TenantState.RemoveWakePath => True
  | _ => exists c', run_call opts (S fuel) t call c = (c', Some (Ok tt)) /\ k_trace c' = k_trace c end.
Proof.
  intros Hn. destruct call; try done; simpl.
  - unfold Cutover.InstallWakePath. destruct (no_lbs t c Hn) as (c1 & Hl & Ht). rewrite M_bind_eq, Hl. by exists c1.
  - unfold Cutover.WaitWakePathReady. destruct (no_lbs t c Hn) as (c1 & Hl & Ht). rewrite M_bind_eq, Hl. by exists c1.
  - unfold Cutover.BeginTargetWithdrawal, w_bind. destruct (no_targets t c Hn) as (c1 & Hi & Ht1). rewrite M_bind_eq, Hi. simpl.
    destruct (no_lbs t c1 Hn) as (c2 & Hl & Ht2). rewrite M_bind_eq, Hl. simpl. exists c2. split; [done|by rewrite Ht2].
  - assert (exists c1, activity_round since t c = (c1, Some (Ok (Some tt))) /\ k_trace c1 = k_trace c) as (c1 & Hr & Ht).
    { unfold activity_round, k_config. rewrite M_bind_eq. simpl. rewrite M_bind_eq. simpl. unfold w_bind. rewrite M_bind_eq.
      rewrite w_fold_idle; [by eexists|]. intros [g group] Hin%elem_of_range. unfold check_group. by rewrite (Hn _ _ _ Hin). }
    unfold Cutover.CheckActivity. simpl. unfold w_bind at 1. rewrite M_bind_eq, Hr. by exists c1.
  - unfold Cutover.FinishTargetWithdrawal, w_bind. destruct (no_targets t c Hn) as (c1 & Hi & Ht1). rewrite M_bind_eq, Hi. by exists c1.
Qed.

(** The cutover reads the sizes of the static configuration only.  A tenant none of
    whose static groups has a size there, whatever size a dynamic override gives them
    and however many instances run, passes every step of going to sleep at once
    without a single request to the provider or a tunnel: no wake path is installed,
    no target withdrawn, no activity checked.  And a tenant with a sized static group
    behind a provider load balancer that an override has scaled to no instance can
    never begin the withdrawal. *)
Theorem cutover_ignores_overrides fuel t c :
  (never_sized t -> forall since call, call ∈ [TenantState.InstallWakePath; TenantState.WaitWakePathReady;
       TenantState.BeginTargetWithdrawal; TenantState.CheckActivity since; TenantState.FinishTargetWithdrawal] ->
     exists c', run_call opts (S fuel) t call c = (c', Some (Ok tt)) /\ k_trace c' = k_trace c) /\
  (plain_names (ke_config (k_tick c)) t ->
   (forall n, exists name, serves (ke_config n) t name /\ is_tunnel (find_lb (ke_config n) name) = false) ->
   (forall n g, LocalDB.GetProviderIDsByGroup t g true (ke_db n) = []) ->
   (run_call opts fuel t TenantState.BeginTargetWithdrawal c).2 ≠ Some (Ok tt)).
Proof.
  split.
  - intros Hn since call Hin. pose proof (unsized_call fuel t call c Hn) as Hc.
    repeat (apply elem_of_cons in Hin as [->|Hin]; [exact Hc|]). by apply elem_of_nil in Hin.
  - intros Hpl Hs Hids. simpl. destruct (Cutover.BeginTargetWithdrawal fuel t c) as [c' r] eqn:Hr. simpl. intros ->.
    apply BeginTargetWithdrawal_run in Hr as (targets & c1 & c2 & c3 & (qs & _ & -> & Hsound & _) & _ & _ & _ & _ & Hempty & _); [|done].
    destruct qs as [|[lb id] qs].
    + destruct (Hs (k_tick c1)) as (name & Hsv & Ht). by rewrite (Hempty eq_refl name Hsv) in Ht.
    + destruct (Hsound lb id) as (g & group & n & _ & _ & _ & _ & _ & Hid); [by left|]. rewrite Hids in Hid. by apply elem_of_nil in Hid.
Qed.
End Claims.
