(* ===== verification/ValidationWitnesses.v ===== *)
(** * Concrete configurations

    Two tenants of an AWS shard, each behind its own managed NAT with a fixed
    address, with an AWS load balancer and two Google load balancers that share a
    port; and the run of an administrator who removes a group that an operator has
    resized. *)

From S2P Require Import Prelude Provider Json LocalDB Config GoText ProxyConfig ProxyConfigFacts NatValidation SubnetFacts Validation ValidationFacts.
From S2P Require Import Samples Document ContentTags Loader LoaderFacts LoaderValid GroupApi Witnesses GroupWitnesses.

Definition nat_of (address allocation : string) : NATConfig :=
  mkNATConfig "nat" "" [mkPublicAddress address allocation] 0 ["small"; "large"] zero_thresholds zero_thresholds 0 0 0 0.

Definition two_tenants : Config :=
  mkConfig "cl" "s1" "zone-a" 0 0 0
    {[ "pool-a" := ["sn-1"; "sn-2"]; "pool-b" := ["sn-3"]; "public" := ["sn-4"] ]} ["pool-a"] (mkExpiryConfig 0 0 0)
    {[ "web" := mkLoadBalancerConfig "aws" [("arn", 443, 8443, 9443)] [] [] [];
       "g-a" := mkLoadBalancerConfig "google" [] ["neg-a"] [("192.0.2.8", 8080)] [];
       "g-b" := mkLoadBalancerConfig "google" [] ["neg-b"] [("192.0.2.9", 8080)] [] ]} ∅
    {[ "tpl" := mkTemplateConfig "knc" "amd64" "t3.small" "" ∅
         {[ "tls.crt" := mkFileConfig "certificate" "" (Some (JString "agent")) (Some ("agent", "tls")) ]} ∅ None 0;
       "nat" := mkTemplateConfig "nat" "amd64" "small" "public" ∅ ∅ ∅ None 0 ]}
    {[ "acme" := {[ "web" := mkGroupConfig "tpl" (Some 2) "" "pool-a" ∅ ∅ None ["web"; "g-a"];
                    "api" := mkGroupConfig "tpl" (Some 1) "" "pool-a" ∅ ∅ None ["web"];
                    "nat" := mkGroupConfig "nat" None "small" "" ∅ ∅ None [] ]};
       "beta" := {[ "web" := mkGroupConfig "tpl" (Some 1) "" "pool-b" ∅ ∅ None ["g-b"];
                    "nat" := mkGroupConfig "nat" None "small" "" ∅ ∅ None [] ]} ]}
    {[ "acme" := nat_of "192.0.2.1" "eip-1"; "beta" := nat_of "192.0.2.2" "eip-2" ]}
    {[ "agent" := mkCertConfig 0 ]} {| demo_settings with s_gc_interval := 0 |}.

Definition parsed : Config := SetDefaults two_tenants.

Lemma parsed_valid : Config_Validate parsed = Ok tt.
Proof. vm_compute. reflexivity. Qed.

(** Sharing anything is refused. *)
Example sharing_refused :
  Config_Validate {| parsed with c_nat := {[ "acme" := default_nat (nat_of "192.0.2.1" "eip-1"); "beta" := default_nat (nat_of "192.0.2.1" "eip-2") ]} |}
    = Err (ErrMsg "fixed public IPv4 address is used by two tenants") /\
  Config_Validate {| parsed with c_subnet_pools := {[ "pool-a" := ["sn-1"; "sn-2"]; "pool-b" := ["sn-2"]; "public" := ["sn-4"] ]} |}
    = Err (ErrMsg "provider subnet ID appears in multiple subnet pools").
Proof. split; vm_compute; reflexivity. Qed.

Definition listeners : gmap string Listener := match ProxyConfig parsed with Ok m => m | Err _ => ∅ end.

Lemma proxy_witness :
  ProxyConfig parsed = Ok listeners /\ dom listeners = {[ "web:9443"; "g-a/192.0.2.8:8080"; "g-b/192.0.2.9:8080" ]} /\
  (li_groups <$> listeners !! "web:9443") = Some ["api"; "web"] /\
  (forall k1 k2 l1 l2, listeners !! k1 = Some l1 -> listeners !! k2 = Some l2 -> k1 ≠ k2 ->
     li_proxy_port l1 = li_proxy_port l2 -> li_frontend_ip l1 ≠ li_frontend_ip l2).
Proof.
  assert (ProxyConfig parsed = Ok listeners) as Hp by (vm_compute; reflexivity).
  split; [exact Hp|]. split; [apply (bool_decide_unpack _); vm_compute; exact I|]. split; [vm_compute; reflexivity|].
  exact (proj2 (proxy_listeners_disjoint demo_order parsed listeners Hp)).
Defined.

Lemma resolve_witness :
  exists g mc ids, GetGroup parsed (Ok {[ "acme" := {[ "web" := {| zero_group with gc_size := Some 5 |} ]} ]}) "acme" "web" = Ok g /\
    GetMergedConfig parsed (gc_template g) g = Ok mc /\ ResolveSubnetKey parsed (mc_subnet_pool mc) = Ok ids.
Proof.
  assert (group_in (c_groups parsed) "acme" "web" = Some (mkGroupConfig "tpl" (Some 2) "" "pool-a" ∅ ∅ None ["web"; "g-a"])) as Hg by (vm_compute; reflexivity).
  destruct (validated_groups_resolve demo_validator parsed {[ "acme" := {[ "web" := {| zero_group with gc_size := Some 5 |} ]} ]}
    "acme" "web" _ parsed_valid Hg) as (g & mc & ids & H1 & _ & _ & H2 & H3 & _).
  exists g, mc, ids. exact (conj H1 (conj H2 H3)).
Defined.

Lemma isolated_witness :
  c_nat parsed !! "acme" = Some (default_nat (nat_of "192.0.2.1" "eip-1")) /\ c_nat parsed !! "beta" = Some (default_nat (nat_of "192.0.2.2" "eip-2")) /\
  (forall t1 n1 g1 t2 n2 g2, placed parsed t1 n1 g1 -> is_Some (c_nat parsed !! t1) -> placed parsed t2 n2 g2 ->
     placement parsed g1 = placement parsed g2 -> t1 = t2).
Proof.
  split; [vm_compute; reflexivity|]. split; [vm_compute; reflexivity|].
  exact (proj1 (proj2 (validated_tenants_isolated demo_validator parsed parsed_valid))).
Defined.

Lemma parse_witness :
  Parse (Ok two_tenants) = Ok parsed /\ s_gc_interval (c_settings two_tenants) = 0 /\ 0 < s_gc_interval (c_settings parsed) < c_registration_timeout parsed.
Proof.
  assert (Parse (Ok two_tenants) = Ok parsed) as Hp by (vm_compute; reflexivity).
  split; [exact Hp|]. split; [vm_compute; reflexivity|].
  exact (proj2 (proj2 (parsed_config_complete demo_validator (Ok two_tenants) parsed Hp))).
Defined.

Definition interfaces : res (list IfaceAddr) := Ok [mkIfaceAddr true true true "127.0.0.1"; mkIfaceAddr true false false "2001:db8::5"; mkIfaceAddr true false true "10.0.0.5"].

Lemma interfaces_named l a : interfaces = Ok l -> a ∈ l -> if_loopback a = false -> host_text (if_text a).
Proof.
  intros [= <-]. rewrite !elem_of_cons. intros [->|[->|[->|Hn]]] Hlo; [by discriminate Hlo|split; vm_compute; reflexivity..|set_solver].
Qed.

Lemma advertise_witness :
  exists cfg, autoDetectAdvertiseHosts interfaces "" parsed = Ok cfg /\
    s_advertise (c_settings cfg) = mkAddrs "10.0.0.5:8990" "10.0.0.5:8991" "10.0.0.9:8992" "10.0.0.9:8993" "10.0.0.9:8994" /\
    addrs_rel made_reachable (s_advertise (c_settings parsed)) (s_advertise (c_settings cfg)).
Proof.
  exists (detected parsed). assert (autoDetectAdvertiseHosts interfaces "" parsed = Ok (detected parsed)) as Ha by (vm_compute; reflexivity).
  split; [exact Ha|]. split; [reflexivity|].
  exact (proj1 (advertised_hosts_complete demo_validator demo_struct_laws parsed (detected parsed) interfaces "" parsed_valid (or_introl eq_refl) interfaces_named Ha)).
Defined.

(** ** The loader *)

Lemma installed_witness :
  l_config (run_loader_ops (LE := @ge_loader (shard_env demo_config 0)) [OpLoad true; scale_web] (NewLoader no_groups None None (empty_db true))).1 = Some (detected demo_config) /\
  exists g mc ids, GetGroup (detected demo_config) (Ok ∅) "acme" "web" = Ok g /\ GetMergedConfig (detected demo_config) (gc_template g) g = Ok mc /\
    ResolveSubnetKey (detected demo_config) (mc_subnet_pool mc) = Ok ids /\ (mc_subnet_pool mc = "" \/ ids ≠ []) /\
    Forall (fun lb => is_Some (c_load_balancers (detected demo_config) !! lb)) (gc_load_balancers g).
Proof.
  assert (l_config (run_loader_ops (LE := @ge_loader (shard_env demo_config 0)) [OpLoad true; scale_web] (NewLoader no_groups None None (empty_db true))).1
    = Some (detected demo_config)) as Hl by (vm_compute; reflexivity).
  split; [exact Hl|]. assert (group_in (c_groups (detected demo_config)) "acme" "web" = Some demo_group) as Hg by (vm_compute; reflexivity).
  exact (installed_groups_resolve (@ge_loader (shard_env demo_config 0)) (shard_laws demo_config 0) _ _ _ _ _ _ ∅ "acme" "web" demo_group Hl Hg).
Defined.

(** The operator resized [web]; the administrator renames it to [front]. *)
Definition renamed_config : Config := {| demo_config with c_groups := {[ "acme" := {[ "front" := demo_group ]} ]} |}.

Definition resized : Loader :=
  (run_loader_ops (LE := @ge_loader (shard_env demo_config 0)) [OpLoad true; scale_web] (NewLoader no_groups None None (empty_db true))).1.

Lemma orphan_witness :
  is_ok (Parse (Ok renamed_config)) = true /\
  exists l' r, LoadConfigAndGroups (LE := @ge_loader (shard_env renamed_config 0)) true resized = (l', r) /\ is_ok r = false /\ memory l' = memory resized.
Proof.
  split; [vm_compute; reflexivity|].
  destruct (LoadConfigAndGroups (LE := @ge_loader (shard_env renamed_config 0)) true resized) as [l' r] eqn:Hr. exists l', r. split; [reflexivity|].
  assert (holds_orphan "acme" "web" resized) as Hl.
  { split; [exists {[ "acme" := {[ "web" := {| zero_group with gc_size := Some 3 |} ]} ]}|
      exists (mkContent (Some {[ "acme" := {[ "web" := {| zero_group with gc_size := Some 3 |} ]} ]}) false), {[ "acme" := {[ "web" := {| zero_group with gc_size := Some 3 |} ]} ]}].
    - split; [vm_compute; reflexivity|]. exists {| zero_group with gc_size := Some 3 |}. split; vm_compute; reflexivity.
    - split; [vm_compute; reflexivity|]. split; [reflexivity|]. exists {| zero_group with gc_size := Some 3 |}. split; vm_compute; reflexivity. }
  refine (orphan_override_blocks_load (@ge_loader (shard_env renamed_config 0)) (shard_laws renamed_config 0) true resized l' r "acme" "web" (fun _ _ => eq_refl) Hl _ _ Hr).
  - intros m d e c [= <- <-]. vm_compute. intros [= <-]. reflexivity.
  - intros Hf. discriminate Hf.
Defined.

From S2P Require Import Args ArgsFacts.

(** ** A configuration whose templates leak into each other

    The defaults have a nested map [Metadata]; template [gpu] adds a key to it,
    template [plain] has no arguments of its own. *)
Module ArgsWitnesses.
#[local] Open Scope positive_scope.

Definition defaults_loc : Loc := 1.
Definition gpu_loc : Loc := 3.
Definition plain_loc : Loc := 5.
Definition group_loc : Loc := 6.

Definition decoded : Heap := {[
  1 := {[ "Metadata" := VMap 2; "Image" := VLeaf (JString "ami-1") ]}; 2 := {[ "env" := VLeaf (JString "prod") ]};
  3 := {[ "Metadata" := VMap 4 ]}; 4 := {[ "gpu" := VLeaf (JString "yes") ]};
  5 := ∅; 6 := {[ "Image" := VLeaf (JString "ami-2") ]} ]}.

(** Maps without nested maps, and with one. *)
Lemma flat_paths h l p x : (forall k c, entries h l !! k ≠ Some (VMap c)) -> at_path h (VMap l) p = Some (VMap x) -> p = [] /\ x = l.
Proof.
  intros Hf. destruct p as [|k p]; simpl; [by intros [= ->]|]. destruct (entries h l !! k) as [[j|c]|] eqn:E; [by destruct p|by destruct (Hf k c)|done].
Qed.

Lemma nested_paths h l k0 c0 p x :
  (forall k c, entries h l !! k = Some (VMap c) -> k = k0 /\ c = c0) -> (forall k c, entries h c0 !! k ≠ Some (VMap c)) ->
  at_path h (VMap l) p = Some (VMap x) -> (p = [] /\ x = l) \/ (p = [k0] /\ x = c0).
Proof.
  intros Hn Hf. destruct p as [|k p]; simpl; [intros [= ->]; by left|].
  destruct (entries h l !! k) as [[j|c]|] eqn:E; [by destruct p| |done]. apply Hn in E as [-> ->].
  intros Hp. apply flat_paths in Hp as [-> ->]; [by right|done].
Qed.

(** The entries of a given map, one by one. *)
Ltac each_entry H :=
  apply elem_of_map_to_list in H;
  match type of H with ?x ∈ ?l => let l' := eval vm_compute in l in change (x ∈ l') in H end; rewrite ?elem_of_cons in H;
  repeat match type of H with _ \/ _ => destruct H as [H|H] end; try (by apply elem_of_nil in H); naive_solver.

Lemma defaults_paths p x : at_path decoded (VMap defaults_loc) p = Some (VMap x) -> (p = [] /\ x = 1) \/ (p = ["Metadata"] /\ x = 2).
Proof. apply nested_paths; intros k c H; each_entry H. Qed.

Lemma gpu_paths p x : at_path decoded (VMap gpu_loc) p = Some (VMap x) -> (p = [] /\ x = 3) \/ (p = ["Metadata"] /\ x = 4).
Proof. apply nested_paths; intros k c H; each_entry H. Qed.

Lemma group_paths p x : at_path decoded (VMap group_loc) p = Some (VMap x) -> p = [] /\ x = 6.
Proof. apply flat_paths; intros k c H; each_entry H. Qed.

Lemma decoded_ok : args_ok decoded 2 defaults_loc gpu_loc group_loc.
Proof.
  split.
  - split; [intros p q x [[-> ->]|[-> ->]]%defaults_paths [[-> ?]|[-> ?]]%defaults_paths; done|
      intros x [p [[-> ->]|[-> ->]]%defaults_paths]; apply (bool_decide_unpack _); vm_compute; exact I|intros p x [[-> _]|[-> _]]%defaults_paths; simpl; lia].
  - split; [intros p q x [[-> ->]|[-> ->]]%gpu_paths [[-> ?]|[-> ?]]%gpu_paths; done|
      intros x [p [[-> ->]|[-> ->]]%gpu_paths]; apply (bool_decide_unpack _); vm_compute; exact I|intros p x [[-> _]|[-> _]]%gpu_paths; simpl; lia].
  - split; [intros p q x [-> ->]%group_paths [-> ?]%group_paths; done|
      intros x [p [-> ->]%group_paths]; apply (bool_decide_unpack _); vm_compute; exact I|intros p x [-> _]%group_paths; simpl; lia].
  - intros p q x [[-> ->]|[-> ->]]%defaults_paths [[_ ?]|[_ ?]]%gpu_paths; done.
  - intros p q x [[-> ->]|[-> ->]]%defaults_paths [_ ?]%group_paths; done.
  - intros p q x [[-> ->]|[-> ->]]%gpu_paths [_ ?]%group_paths; done.
Qed.

Definition after_gpu : Heap := match mergeArgs 2 defaults_loc gpu_loc group_loc decoded with Some (h, _) => h | None => ∅ end.
Definition gpu_merged : Loc := match mergeArgs 2 defaults_loc gpu_loc group_loc decoded with Some (_, m) => m | None => 1 end.

Lemma merge_first_witness :
  exists h' m, mergeArgs 2 defaults_loc gpu_loc group_loc decoded = Some (h', m) /\
    at_path h' (VMap m) ["Metadata"; "gpu"] = Some (VLeaf (JString "yes")) /\ at_path h' (VMap m) ["Image"] = Some (VLeaf (JString "ami-2")).
Proof.
  destruct (merge_args_first demo_order 2 decoded defaults_loc gpu_loc group_loc decoded_ok) as (h' & m & Hr & Hat).
  exists h', m. split; [exact Hr|]. split; (etransitivity; [apply Hat|vm_compute; reflexivity]).
Defined.

(** Another template's arguments hold the first template's key. *)
Lemma merge_leak_witness :
  at_path decoded (VMap defaults_loc) ["Metadata"; "gpu"] = None /\
  at_path after_gpu (VMap defaults_loc) ["Metadata"; "gpu"] = Some (VLeaf (JString "yes")) /\
  (exists h m, mergeArgs 2 defaults_loc plain_loc plain_loc decoded = Some (h, m) /\ at_path h (VMap m) ["Metadata"; "gpu"] = None) /\
  (exists h m, mergeArgs 2 defaults_loc plain_loc plain_loc after_gpu = Some (h, m) /\ at_path h (VMap m) ["Metadata"; "gpu"] = Some (VLeaf (JString "yes"))).
Proof.
  split; [vm_compute; reflexivity|]. split.
  - assert (mergeArgs 2 defaults_loc gpu_loc group_loc decoded = Some (after_gpu, gpu_merged)) as Hr by (vm_compute; reflexivity).
    etransitivity; [|shelve].
    refine (merge_args_writes_defaults demo_order 2 decoded defaults_loc gpu_loc group_loc after_gpu gpu_merged "Metadata" 2 decoded_ok Hr eq_refl _ _ ["gpu"]).
    + intros j. vm_compute. discriminate.
    + intros j. vm_compute. discriminate.
    Unshelve. vm_compute. reflexivity.
  - split; [exists (match mergeArgs 2 defaults_loc plain_loc plain_loc decoded with Some (h, _) => h | None => ∅ end), 7|
      exists (match mergeArgs 2 defaults_loc plain_loc plain_loc after_gpu with Some (h, _) => h | None => ∅ end), 8]; split; vm_compute; reflexivity.
Defined.
End ArgsWitnesses.
