(* ===== verification/OperatorStreams.v ===== *)
(** * Tenant status and the streams of instances and errors
    ([src/internal/server/api/operator])

    [GetTenantStatus] tells the operator since when the listeners of a tenant are idle,
    which decides whether the tenant may be put to sleep.  [WatchInstances] sends the
    drains that are pending and then the drains that begin, while the reconciler's
    notifications ([NotifyDrain]) run in goroutines of their own; [WatchErrors] and
    [NotifyError] share a map of streams. *)

From S2P Require Import Prelude Provider LocalDB LocalDBFacts GoText Config ProxyConfig Reconciler Certificates Document TenantState OperatorApi.
From stdpp Require Import relations sorting.

#[local] Open Scope Z_scope.

(** ** Tenant status *)

Module TenantStatus.

(** [time.Time{}], in nanoseconds of the Unix epoch. *)
Definition zero_time : Z := -62135596800 * second.

Record ListenerActivity := mkListenerActivity {
  la_listener : string;
  la_available : bool;
  la_idle_since : option Z;
}.

Record TenantStatusResponse := mkTenantStatusResponse {
  tr_asleep : bool;
  tr_wake_at : option Z;
  tr_listeners : list ListenerActivity;
}.

(** [cfg.Groups[tenant][group]] has instances. *)
Definition sized (cfg : Config) (tenant group : string) : bool :=
  match default ∅ (c_groups cfg !! tenant) !! group with
  | Some g => match gc_size g with Some n => 0 <? n | None => false end
  | None => false
  end.

(** What has been seen of a listener's instances: all available so far, the last
    activity, and their number. *)
Definition observe_instance (activity : gmap string Observation) (acc : bool * Z * Z) (id : string) : bool * Z * Z :=
  let '(available, idleSince, instances) := acc in
  match activity !! id with
  | Some item =>
      if ob_available item then (available, if idleSince <? ob_last_active item then ob_last_active item else idleSince, instances + 1)
      else (false, idleSince, instances + 1)
  | None => (false, idleSince, instances + 1)
  end.

Section Status.
(** The answers of [GetInstancesByGroup], which is asked for every listener and group. *)
Context {RO : RangeOrder} (query : string -> string -> res (list string)).

Fixpoint observe_groups (cfg : Config) (tenant name : string) (activity : gmap string Observation) (groups : list string) (acc : bool * Z * Z)
    : res (bool * Z * Z) :=
  match groups with
  | [] => Ok acc
  | group :: groups' =>
      if sized cfg tenant group then
        match query name group with
        | Err e => Err e
        | Ok ids => observe_groups cfg tenant name activity groups' (foldl (observe_instance activity) acc ids)
        end
      else observe_groups cfg tenant name activity groups' acc
  end.

Definition listener_activity (cfg : Config) (tenant name : string) (l : Listener) (activity : gmap string Observation) : res ListenerActivity :=
  match observe_groups cfg tenant name activity (li_groups l) (true, zero_time, 0) with
  | Err e => Err e
  | Ok (available, idleSince, instances) =>
      let available := available && (0 <? instances) in
      Ok (mkListenerActivity name available (if available then Some idleSince else None))
  end.

(** The tenant's listeners that have a group with instances, in order. *)
Definition status_names (cfg : Config) (tenant : string) (listeners : gmap string Listener) : list string :=
  merge_sort String.le
    (omap (fun x => if bool_decide (li_tenant x.2 = tenant) && existsb (sized cfg tenant) (li_groups x.2) then Some x.1 else None)
       (range_over 0 listeners)).

Fixpoint collect (cfg : Config) (tenant : string) (listeners : gmap string Listener) (snapshot : gmap string (gmap string Observation))
    (names : list string) : res (list ListenerActivity) :=
  match names with
  | [] => Ok []
  | name :: names' =>
      match listeners !! name with
      | None => collect cfg tenant listeners snapshot names'
      | Some l =>
          match listener_activity cfg tenant name l (default ∅ (snapshot !! name)) with
          | Err e => Err e
          | Ok a => rest ← collect cfg tenant listeners snapshot names'; Ok (a :: rest)
          end
      end
  end.

(** [GetTenantStatus]; [deps] says that its dependencies are configured, [status] is the
    answer of the tenant state. *)
Definition GetTenantStatus (info : ClientInfo) (req : option string) (deps : bool) (status : bool * option Z)
    (cfg : option Config) (t : Tracker) : rpc TenantStatusResponse :=
  match req with
  | None => Fail InvalidArgument "request is required"
  | Some requested =>
      match authorizedTenant info requested with
      | Fail c m => Fail c m
      | Reply tenant =>
          if negb deps then Fail FailedPrecondition "tenant status is unavailable"
          else match cfg with
          | None => Fail FailedPrecondition "configuration is unavailable"
          | Some cfg =>
              match ProxyConfig cfg with
              | Err _ => Fail Internal "derive proxy listeners"
              | Ok listeners =>
                  match collect cfg tenant listeners (Snapshot tenant t) (status_names cfg tenant listeners) with
                  | Err _ => Fail Internal "list listener instances"
                  | Ok ls => Reply (mkTenantStatusResponse status.1 status.2 ls)
                  end
              end
          end
      end
  end.
End Status.
End TenantStatus.

(** ** Streams of instances and errors *)

Module InstanceStreams.

(** [proto.InstanceEvent]. *)
Record InstanceEvent := mkInstanceEvent {
  ie_instance_id : string;
  ie_tenant : string;
  ie_group : string;
  ie_status : string;
  ie_reason : string;
  ie_unhealthy_at : Z;
  ie_delete_at : Z;
  ie_provider_instance_id : string;
}.

Record DrainNotification := mkDrainNotification {
  dn_instance_id : string;
  dn_group : string;
  dn_reason : string;
  dn_unhealthy_at : Z;
  dn_delete_at : Z;
}.

(** The event of the snapshot for a pending drain. *)
Definition snapshot_event (cfg : Config) (dyn : res DynGroups) (inst : Instance) : option InstanceEvent :=
  match i_drain_started_at inst with
  | None => None
  | Some started =>
      let timeout :=
        if negb (bool_decide (i_tenant inst = "")) && negb (bool_decide (i_group inst = "")) then
          match GetGroup cfg dyn (i_tenant inst) (i_group inst) with
          | Ok group => drain_timeout cfg group
          | Err _ => c_default_drain_timeout cfg
          end
        else c_default_drain_timeout cfg in
      Some (mkInstanceEvent (i_id inst) (i_tenant inst) (i_group inst) "pending_deletion" "unhealthy" started
              (wrap64 (started + timeout)) (default "" (i_provider_id inst)))
  end.

(** [NotifyDrain] up to the lookup of the stream: the tenant and the event, unless the
    instance cannot be announced. *)
Definition drain_event (r : res Instance) (n : DrainNotification) : option (string * InstanceEvent) :=
  match r with
  | Err _ => None
  | Ok inst =>
      let pid := default "" (i_provider_id inst) in
      if bool_decide (pid = "") || bool_decide (i_tenant inst = "") then None
      else Some (i_tenant inst, mkInstanceEvent (dn_instance_id n) (i_tenant inst) (dn_group n) "pending_deletion" (dn_reason n)
                   (dn_unhealthy_at n) (dn_delete_at n) pid)
  end.

(** The goroutine of [WatchInstances]: it has registered its stream and holds its mutex,
    sends the snapshot, and then waits for its context. *)
Inductive WatchPc := Registered | Snapshotting (todo : list InstanceEvent) | Waiting.

Record Watch := mkWatch {
  w_tenant : string;
  w_pc : WatchPc;
  w_sent : list InstanceEvent;
  w_failed : bool;        (* a send of a notification failed *)
}.

(** The goroutine of a notification: it reads the instance, looks up the stream of its
    tenant, and waits for the mutex of the stream it found. *)
Inductive Notify :=
  | Reading (n : DrainNotification)
  | Looking (tenant : string) (ev : InstanceEvent)
  | Sending (ev : InstanceEvent) (watch : nat).

(** The part of the service; [y_skipped] are the instances whose drain no notification
    announces: they could not be read or have no provider identifier, or the drain was
    begun by a deletion, which does not notify. *)
Record Service := mkService {
  y_db : DB;
  y_streams : gmap string nat;
  y_watches : gmap nat Watch;
  y_notifies : gmap nat Notify;
  y_skipped : list string;
}.

Definition initial (db : DB) : Service := mkService db ∅ ∅ ∅ [].

(** A drain is pending: a live row of the tenant. *)
Definition pending (db : DB) (tenant id : string) : Prop :=
  exists i, i ∈ instances db /\ i_id i = id /\ i_tenant i = tenant /\ is_Some (i_drain_started_at i) /\ LocalDB.not_deleted i = true.

Definition set_watch (w : nat) (x : Watch) (y : Service) : Service := {| y with y_watches := <[w := x]> (y_watches y) |}.

(** The deferred removal of the stream. *)
Definition unregister (w : nat) (x : Watch) (y : Service) : Service :=
  {| y with y_streams := (if bool_decide (y_streams y !! w_tenant x = Some w) then delete (w_tenant x) (y_streams y) else y_streams y);
            y_watches := delete w (y_watches y) |}.

(** The snapshot of [WatchInstances]. *)
Definition snapshot (cfg : Config) (dyn : res DynGroups) (tenant : string) (db : DB) : res (list InstanceEvent) :=
  match LocalDB.GetInstancesPendingDrain tenant db with
  | Ok insts => Ok (omap (snapshot_event cfg dyn) insts)
  | Err e => Err e
  end.

Inductive step (cfg : Config) : Service -> Service -> Prop :=
  (* the database changes in other ways, which begin no drains *)
  | step_db y db :
      NoDup (i_id <$> instances db) -> (forall tenant id, pending db tenant id -> pending (y_db y) tenant id) -> step cfg y {| y with y_db := db |}
  (* the reconciler begins a drain and then notifies *)
  | step_drain y now n db k :
      LocalDB.MarkDrainStarted now (dn_instance_id n) (y_db y) = Ok db -> y_notifies y !! k = None ->
      step cfg y {| y with y_db := db; y_notifies := <[k := Reading n]> (y_notifies y) |}
  (* [Manager.DeleteInstance] marks a drain that has not begun and notifies nobody *)
  | step_delete y now id inst db :
      LocalDB.GetInstance id (y_db y) = Ok inst -> i_drain_started_at inst = None ->
      LocalDB.MarkDrainStarted now id (y_db y) = Ok db ->
      step cfg y {| y with y_db := db; y_skipped := id :: y_skipped y |}
  | step_skip y k n r :
      y_notifies y !! k = Some (Reading n) -> (r = LocalDB.GetInstance (dn_instance_id n) (y_db y) \/ is_ok r = false) ->
      drain_event r n = None ->
      step cfg y {| y with y_notifies := delete k (y_notifies y); y_skipped := dn_instance_id n :: y_skipped y |}
  | step_read y k n tenant ev :
      y_notifies y !! k = Some (Reading n) -> drain_event (LocalDB.GetInstance (dn_instance_id n) (y_db y)) n = Some (tenant, ev) ->
      step cfg y {| y with y_notifies := <[k := Looking tenant ev]> (y_notifies y) |}
  | step_nobody y k tenant ev :
      y_notifies y !! k = Some (Looking tenant ev) -> y_streams y !! tenant = None ->
      step cfg y {| y with y_notifies := delete k (y_notifies y) |}
  | step_found y k tenant ev w :
      y_notifies y !! k = Some (Looking tenant ev) -> y_streams y !! tenant = Some w ->
      step cfg y {| y with y_notifies := <[k := Sending ev w]> (y_notifies y) |}
  (* the mutex is free: the event is sent, or the send fails *)
  | step_send y k ev w x (ok : bool) :
      y_notifies y !! k = Some (Sending ev w) -> y_watches y !! w = Some x -> w_pc x = Waiting ->
      step cfg y (set_watch w (if ok then {| x with w_sent := w_sent x ++ [ev] |} else {| x with w_failed := true |})
                    {| y with y_notifies := delete k (y_notifies y) |})
  (* the stream has ended *)
  | step_gone y k ev w :
      y_notifies y !! k = Some (Sending ev w) -> y_watches y !! w = None ->
      step cfg y {| y with y_notifies := delete k (y_notifies y) |}
  | step_watch y tenant w :
      y_watches y !! w = None -> (forall k ev, y_notifies y !! k <> Some (Sending ev w)) ->
      step cfg y {| (set_watch w (mkWatch tenant Registered [] false) y) with y_streams := <[tenant := w]> (y_streams y) |}
  | step_snapshot y w x dyn events :
      y_watches y !! w = Some x -> w_pc x = Registered -> snapshot cfg dyn (w_tenant x) (y_db y) = Ok events ->
      step cfg y (set_watch w {| x with w_pc := Snapshotting events |} y)
  | step_snapshot_send y w x ev todo :
      y_watches y !! w = Some x -> w_pc x = Snapshotting (ev :: todo) ->
      step cfg y (set_watch w {| x with w_pc := Snapshotting todo; w_sent := w_sent x ++ [ev] |} y)
  | step_snapshot_done y w x :
      y_watches y !! w = Some x -> w_pc x = Snapshotting [] -> step cfg y (set_watch w {| x with w_pc := Waiting |} y)
  (* a failed snapshot, a failed send of it, or the end of the context *)
  | step_end y w x : y_watches y !! w = Some x -> step cfg y (unregister w x y).
End InstanceStreams.

Module ErrorStreams.

(** [proto.ErrorEvent]. *)
Record ErrorEvent := mkErrorEvent { ee_group : string; ee_instance_id : string; ee_message : string }.

(** [errorsStreams], and what was sent on which stream. *)
Record Errors := mkErrors {
  er_streams : gmap string nat;
  er_sent : list (nat * ErrorEvent);
}.

(** [WatchErrors] when it begins and, deferred, when it ends. *)
Definition watch_begin (tenant : string) (stream : nat) (s : Errors) : Errors :=
  {| s with er_streams := <[tenant := stream]> (er_streams s) |}.

Definition watch_end (tenant : string) (stream : nat) (s : Errors) : Errors :=
  if bool_decide (er_streams s !! tenant = Some stream) then {| s with er_streams := delete tenant (er_streams s) |} else s.

(** [NotifyError]; [ok] says whether the send succeeds. *)
Definition NotifyError (tenant : string) (ev : ErrorEvent) (ok : bool) (s : Errors) : Errors :=
  match er_streams s !! tenant with
  | None => s
  | Some stream => if ok then {| s with er_sent := er_sent s ++ [(stream, ev)] |} else s
  end.

(** An operator that reconnects is told on its new stream, also when its old one ends
    after that. *)
Lemma reconnected_is_told tenant old new ev s :
  old <> new -> er_sent (NotifyError tenant ev true (watch_end tenant old (watch_begin tenant new s))) = er_sent s ++ [(new, ev)].
Proof.
  intros Hne. unfold watch_end, watch_begin, NotifyError. cbn. rewrite lookup_insert_eq.
  rewrite bool_decide_eq_false_2 by congruence. cbn. by rewrite lookup_insert_eq.
Qed.
End ErrorStreams.

(** ** What a reported idle time means *)

Module StatusFacts.
Import TenantStatus.

Section StatusFacts.
Context {RO : RangeOrder} (query : string -> string -> res (list string)).

(** The instance was seen available, and not active after [t]. *)
Definition idle_by (activity : gmap string Observation) (t : Z) (id : string) : Prop :=
  exists item, activity !! id = Some item /\ ob_available item = true /\ ob_last_active item <= t.

Lemma idle_by_mono activity t t' id : t <= t' -> idle_by activity t id -> idle_by activity t' id.
Proof. intros Ht (item & H1 & H2 & H3). exists item. split_and!; [done | done | lia]. Qed.

Lemma observe_instances activity ids a t n a' t' n' :
  foldl (observe_instance activity) (a, t, n) ids = (a', t', n') ->
  n' = n + Z.of_nat (length ids) /\ t <= t' /\ (a' = true -> a = true /\ Forall (idle_by activity t') ids).
Proof.
  revert a t n. induction ids as [| id ids IH]; intros a t n; cbn [foldl].
  { intros [= <- <- <-]. split_and!; [cbn; lia | lia |]. done. }
  unfold observe_instance at 2. destruct (activity !! id) as [item |] eqn:Ei; [destruct (ob_available item) eqn:Ea |];
    intros H; apply IH in H as (Hn & Ht & Ha); (split; [cbn [length]; lia |]).
  - destruct (Z.ltb_spec t (ob_last_active item)); (split; [lia |]); intros H'; destruct (Ha H') as [-> Hids]; (split; [done |]);
      constructor; try done; exists item; split_and!; [done | done | lia | done | done | lia].
  - split; [lia |]. intros H'. by destruct (Ha H').
  - split; [lia |]. intros H'. by destruct (Ha H').
Qed.

Lemma observe_groups_idle cfg tenant name activity groups a t n a' t' n' :
  observe_groups query cfg tenant name activity groups (a, t, n) = Ok (a', t', n') ->
  n <= n' /\ t <= t' /\ (n < n' -> exists group ids, group ∈ groups /\ sized cfg tenant group = true /\ query name group = Ok ids /\ ids <> []) /\
  (a' = true -> a = true /\ forall group, group ∈ groups -> sized cfg tenant group = true ->
     exists ids, query name group = Ok ids /\ Forall (idle_by activity t') ids).
Proof.
  revert a t n. induction groups as [| group groups IH]; intros a t n; cbn [observe_groups].
  { intros [= <- <- <-]. split_and!; [lia | lia | lia |]. intros ->. split; [done |]. by intros g ?%not_elem_of_nil. }
  destruct (sized cfg tenant group) eqn:Es.
  - destruct (query name group) as [ids | e] eqn:Eq; [| done].
    destruct (foldl (observe_instance activity) (a, t, n) ids) as [[a1 t1] n1] eqn:Ef. apply observe_instances in Ef as (Hn & Ht & Ha).
    intros H. apply IH in H as (Hn' & Ht' & Hex & Hall). split_and!; [lia | lia | |].
    + intros Hlt. destruct ids as [| id ids].
      * destruct Hex as (g & ids & Hg & Hrest); [cbn in Hn; lia |]. exists g, ids. split; [by right | done].
      * exists group, (id :: ids). split_and!; [left | done | done | done].
    + intros H'. destruct (Hall H') as [Ha1 Hgs]. destruct (Ha Ha1) as [-> Hids]. split; [done |].
      intros g [-> | Hg]%elem_of_cons Hsz; [| by apply Hgs]. exists ids. split; [done |].
      eapply Forall_impl; [exact Hids |]. intros id. by apply idle_by_mono.
  - intros H. apply IH in H as (Hn' & Ht' & Hex & Hall). split_and!; [lia | lia | |].
    + intros Hlt. destruct (Hex Hlt) as (g & ids & Hg & Hrest). exists g, ids. split; [by right | done].
    + intros H'. destruct (Hall H') as [-> Hgs]. split; [done |]. intros g [-> | Hg]%elem_of_cons Hsz; [congruence | by apply Hgs].
Qed.

Lemma collect_spec cfg tenant listeners snapshot names ls :
  collect query cfg tenant listeners snapshot names = Ok ls ->
  (forall a, a ∈ ls -> la_listener a ∈ names /\ exists l, listeners !! la_listener a = Some l /\
     listener_activity query cfg tenant (la_listener a) l (default ∅ (snapshot !! la_listener a)) = Ok a) /\
  (forall name, name ∈ names -> is_Some (listeners !! name) -> name ∈ la_listener <$> ls).
Proof.
  revert ls. induction names as [| name names IH]; intros ls; cbn [collect].
  { intros [= <-]. split; intros ? H; by apply not_elem_of_nil in H. }
  destruct (listeners !! name) as [l |] eqn:El.
  - destruct (listener_activity query cfg tenant name l _) as [a | e] eqn:Ea; [| done].
    destruct (collect query cfg tenant listeners snapshot names) as [rest | e] eqn:Er; [| done]. cbn. intros [= <-].
    destruct (IH rest eq_refl) as [H1 H2].
    assert (la_listener a = name) as Hname.
    { unfold listener_activity in Ea. destruct (observe_groups _ _ _ _ _ _ _) as [[[? ?] ?] |]; [| done]. by injection Ea as <-. }
    split.
    + intros x Hx. apply elem_of_cons in Hx as [Hx | Hx]; [subst x; rewrite Hname; split; [apply elem_of_cons; by left | by exists l] |].
      destruct (H1 x Hx) as [Hin Hl]. split; [by right | done].
    + intros n Hn Hs. apply elem_of_cons in Hn as [Hn | Hn]; rewrite fmap_cons, elem_of_cons; [left; congruence | right; auto].
  - intros H. destruct (IH ls H) as [H1 H2]. split.
    + intros x Hx. destruct (H1 x Hx) as [Hin Hl]. split; [by right | done].
    + intros n Hn [x Hs]. apply elem_of_cons in Hn as [Hn | Hn]; [congruence | eauto].
Qed.

Lemma status_names_spec cfg tenant listeners name :
  name ∈ status_names cfg tenant listeners <->
  exists l, listeners !! name = Some l /\ li_tenant l = tenant /\ exists group, group ∈ li_groups l /\ sized cfg tenant group = true.
Proof.
  unfold status_names. rewrite merge_sort_Permutation, list_elem_of_omap. split.
  - intros ([k l] & Hin & Hx). cbn in Hx. apply elem_of_range in Hin. case_bool_decide as Ht; [| done].
    destruct (existsb _ _) eqn:Ee; [| done]. injection Hx as <-. apply existsb_exists in Ee as (g & Hg & Hs).
    exists l. split_and!; [done | done |]. exists g. split; [by apply list_elem_of_In | done].
  - intros (l & Hl & Ht & g & Hg & Hs). exists (name, l). split; [by apply elem_of_range |]. cbn.
    rewrite bool_decide_eq_true_2 by done. rewrite (proj2 (existsb_exists _ _)); [done |]. exists g. split; [by apply list_elem_of_In | done].
Qed.
End StatusFacts.

(** C28. An idle time is true of every instance the status looks at.  The status of a
    tenant is given to an operator of that tenant only; it lists exactly the tenant's
    listeners with a group to which the static configuration gives a positive size; and
    when it says that a listener is idle since [t], the listener has an instance, and
    every instance of every such statically sized group was observed available by the
    listener's tracker and not active after [t].  A group that has its size from a
    dynamic override only is left out, and nothing is said of its instances. *)
Theorem reported_idle_sound (RO : RangeOrder) (query : string -> string -> res (list string)) (info : ClientInfo) (requested : string)
    (deps : bool) (status : bool * option Z) (cfg : Config) (t : Tracker) (r : TenantStatusResponse) :
  GetTenantStatus query info (Some requested) deps status (Some cfg) t = Reply r ->
  requested = ci_tenant info /\
  exists listeners, ProxyConfig cfg = Ok listeners /\
  (forall name, name ∈ la_listener <$> tr_listeners r <->
     exists l, listeners !! name = Some l /\ li_tenant l = requested /\ exists g, g ∈ li_groups l /\ sized cfg requested g = true) /\
  forall a since, a ∈ tr_listeners r -> la_idle_since a = Some since ->
  exists l, listeners !! la_listener a = Some l /\
    (exists g ids, g ∈ li_groups l /\ query (la_listener a) g = Ok ids /\ ids <> []) /\
    forall g, g ∈ li_groups l -> sized cfg requested g = true ->
    exists ids, query (la_listener a) g = Ok ids /\ Forall (idle_by (default ∅ (Snapshot requested t !! la_listener a)) since) ids.
Proof.
  unfold GetTenantStatus, authorizedTenant. case_bool_decide; [done |]. destruct (Config.Validate _ _) as [u | e0]; [| done].
  case_bool_decide as Ht; [done |]. destruct (negb deps); [done |].
  destruct (ProxyConfig cfg) as [listeners | e]; [| done]. destruct (collect _ _ _ _ _ _) as [ls | e] eqn:Ec; [| done]. intros [= <-].
  destruct (collect_spec _ _ _ _ _ _ _ Ec) as [H1 H2]. split; [done |]. exists listeners. split; [done |]. cbn [tr_listeners]. split.
  - intros name. rewrite <-status_names_spec. split.
    + intros Hn. apply list_elem_of_fmap in Hn as (a & -> & Ha). by destruct (H1 a Ha).
    + intros Hn. apply H2; [done |]. apply status_names_spec in Hn as (l & Hl & _). eauto.
  - intros x since Hx Hsince. destruct (H1 x Hx) as [_ (l & Hl & Hact)]. exists l. split; [done |].
    unfold listener_activity in Hact. destruct (observe_groups _ _ _ _ _ _ _) as [[[av since'] n] | e] eqn:Eo; [| done].
    injection Hact as Hact. rewrite <-Hact in Hsince. cbn in Hsince. clear Hact. destruct av; [| done]. destruct (Z.ltb_spec 0 n) as [Hn |]; [| done]. injection Hsince as ->.
    apply observe_groups_idle in Eo as (_ & _ & Hex & Hall). destruct (Hex Hn) as (g & ids & Hg & _ & Hq & Hne).
    destruct (Hall eq_refl) as [_ Hgs]. split; [by exists g, ids | exact Hgs].
Qed.
End StatusFacts.

(** ** No drain is missed *)

Module StreamFacts.
Import InstanceStreams.

Definition notify_id (n : Notify) : string :=
  match n with Reading d => dn_instance_id d | Looking _ ev | Sending ev _ => ie_instance_id ev end.

(** A notification that may still reach the stream [w] of the tenant. *)
Definition heading (tenant : string) (w : nat) (n : Notify) : Prop :=
  match n with Reading _ => True | Looking t _ => t = tenant | Sending _ w' => w' = w end.

Definition on_its_way (y : Service) (tenant : string) (w : nat) (id : string) : Prop :=
  exists k n, y_notifies y !! k = Some n /\ notify_id n = id /\ heading tenant w n.

Definition announced (x : Watch) (id : string) : Prop :=
  match w_pc x with
  | Registered => True
  | Snapshotting todo => id ∈ ie_instance_id <$> (w_sent x ++ todo)
  | Waiting => id ∈ ie_instance_id <$> w_sent x \/ w_failed x = true
  end.

Record good (y : Service) : Prop := {
  gd_ids : NoDup (i_id <$> instances (y_db y));
  gd_streams : forall tenant w, y_streams y !! tenant = Some w -> exists x, y_watches y !! w = Some x /\ w_tenant x = tenant;
  gd_announced : forall tenant w x id, y_streams y !! tenant = Some w -> y_watches y !! w = Some x -> pending (y_db y) tenant id ->
    announced x id \/ on_its_way y tenant w id \/ id ∈ y_skipped y;
}.

(** With unique identifiers the row that is read is the pending one. *)
Lemma pending_row db tenant id i :
  NoDup (i_id <$> instances db) -> pending db tenant id -> LocalDB.GetInstance id db = Ok i -> i_tenant i = tenant.
Proof.
  intros Hnd (j & Hj & Hid & Ht & _ & _) Hget. unfold LocalDB.GetInstance, LocalDB.first_row in Hget.
  destruct (sel (LocalDB.live_id id) (instances db)) as [| i' l] eqn:Es; [done |]. injection Hget as ->.
  assert (i ∈ sel (LocalDB.live_id id) (instances db)) as Hi by (rewrite Es; left).
  apply elem_of_sel in Hi as [Hlive Hi]. unfold LocalDB.live_id in Hlive. apply andb_true_iff in Hlive as [Hid'%bool_decide_eq_true _].
  apply list_elem_of_lookup in Hi as [a Ha], Hj as [b Hb].
  assert (a = b) as -> by (eapply (NoDup_lookup (i_id <$> instances db)); [done | rewrite list_lookup_fmap, Ha; done | rewrite list_lookup_fmap, Hb; cbn; congruence]).
  congruence.
Qed.

Lemma mark_pending now id db db' tenant id' :
  LocalDB.MarkDrainStarted now id db = Ok db' -> pending db' tenant id' -> id' = id \/ pending db tenant id'.
Proof.
  unfold LocalDB.MarkDrainStarted, LocalDB.update_or_norows. destruct (affected _ _); [done |]. intros [= <-] (i & Hi & Hid & Ht & Hd & Hl). cbn in Hi.
  apply elem_of_upd in Hi as (j & Hj & ->). destruct (LocalDB.live_id id j) eqn:E.
  - left. unfold LocalDB.live_id in E. apply andb_true_iff in E as [E%bool_decide_eq_true _]. cbn in Hid. congruence.
  - right. by exists j.
Qed.

Lemma mark_ids now id db db' : LocalDB.MarkDrainStarted now id db = Ok db' -> i_id <$> instances db' = i_id <$> instances db.
Proof.
  unfold LocalDB.MarkDrainStarted, LocalDB.update_or_norows. destruct (affected _ _); [done |]. intros [= <-]. cbn. unfold upd.
  rewrite <-list_fmap_compose. apply list_fmap_ext. intros idx i _. cbn. by destruct (LocalDB.live_id id i).
Qed.

(** The snapshot has every pending drain. *)
Lemma snapshot_complete cfg dyn tenant db events id :
  snapshot cfg dyn tenant db = Ok events -> pending db tenant id -> id ∈ ie_instance_id <$> events.
Proof.
  unfold snapshot, LocalDB.GetInstancesPendingDrain. case_bool_decide; [done |]. intros [= <-] (i & Hi & Hid & Ht & [d Hd] & Hl).
  apply list_elem_of_fmap. eexists. split; [| apply list_elem_of_omap; exists i; split;
    [apply elem_of_order_by, elem_of_sel; split; [| done] | unfold snapshot_event; rewrite Hd; reflexivity]]; [done |].
  rewrite Ht, Hd, Hl. by rewrite bool_decide_eq_true_2.
Qed.

Lemma drain_event_id r n tenant ev : drain_event r n = Some (tenant, ev) -> ie_instance_id ev = dn_instance_id n /\ exists i, r = Ok i /\ i_tenant i = tenant.
Proof.
  unfold drain_event. destruct r as [i | e]; [| done]. destruct (_ || _); [done |]. intros [= <- <-]. eauto.
Qed.

Lemma initial_announces db : NoDup (i_id <$> instances db) -> good (initial db).
Proof. intros H. split; cbn; [done | |]; intros *; by rewrite lookup_empty. Qed.

(** A watch goes on; what it has announced stays announced. *)
Lemma watch_good y w x x' :
  good y -> y_watches y !! w = Some x -> w_tenant x' = w_tenant x ->
  (forall id, pending (y_db y) (w_tenant x) id -> announced x id -> announced x' id) -> good (set_watch w x' y).
Proof.
  intros [Hn Hs Ha] Hw Ht Hann. split; cbn; [done | |].
  - intros tenant w' Hst. destruct (Hs _ _ Hst) as (x0 & Hx0 & Htx). destruct (decide (w = w')) as [<- | Hne].
    + exists x'. rewrite lookup_insert_eq. split; [done | congruence].
    + exists x0. by rewrite lookup_insert_ne.
  - intros tenant w' x0 id Hst. destruct (decide (w = w')) as [<- | Hne].
    + rewrite lookup_insert_eq. intros [= <-] Hp. destruct (Hs _ _ Hst) as (x1 & Hx1 & Htx). rewrite Hw in Hx1. injection Hx1 as <-.
      destruct (Ha _ _ _ _ Hst Hw Hp) as [H | [H | H]]; [left; apply Hann; [by rewrite Htx | done] | auto | auto].
    + rewrite lookup_insert_ne by done. intros Hx0 Hp. by apply (Ha tenant w').
Qed.

(** Notifications go on, if those that do not reach a stream any more are accounted for. *)
Lemma notifies_good y nts skipped :
  good y -> (forall id, id ∈ y_skipped y -> id ∈ skipped) ->
  (forall tenant w x k n, y_streams y !! tenant = Some w -> y_watches y !! w = Some x -> pending (y_db y) tenant (notify_id n) ->
     y_notifies y !! k = Some n -> heading tenant w n ->
     announced x (notify_id n) \/ (exists k' n', nts !! k' = Some n' /\ notify_id n' = notify_id n /\ heading tenant w n') \/ notify_id n ∈ skipped) ->
  good {| y with y_notifies := nts; y_skipped := skipped |}.
Proof.
  intros [Hn Hs Ha] Hsk Hway. split; cbn; [done | done |]. intros tenant w x id Hst Hw Hp.
  destruct (Ha _ _ _ _ Hst Hw Hp) as [H | [(k & n & Hk & <- & Hh) | H]]; [auto | | auto]. exact (Hway tenant w x k n Hst Hw Hp Hk Hh).
Qed.

(** One of them becomes [o]. *)
Lemma notify_good y k n (o : option Notify) skipped :
  good y -> y_notifies y !! k = Some n -> (forall id, id ∈ y_skipped y -> id ∈ skipped) ->
  (forall tenant w x, y_streams y !! tenant = Some w -> y_watches y !! w = Some x -> pending (y_db y) tenant (notify_id n) -> heading tenant w n ->
     announced x (notify_id n) \/ (exists n', o = Some n' /\ notify_id n' = notify_id n /\ heading tenant w n') \/ notify_id n ∈ skipped) ->
  good {| y with y_notifies := partial_alter (fun _ => o) k (y_notifies y); y_skipped := skipped |}.
Proof.
  intros Hy Hk Hsk H. apply notifies_good; [done | done |]. intros tenant w x k' n' Hst Hw Hp Hk' Hh. destruct (decide (k = k')) as [<- | Hne].
  - rewrite Hk in Hk'. injection Hk' as <-. destruct (H tenant w x Hst Hw Hp Hh) as [H' | [(n' & -> & H') | H']]; [auto | | auto].
    right. left. exists k, n'. by rewrite lookup_partial_alter_eq.
  - right. left. exists k', n'. by rewrite lookup_partial_alter_ne.
Qed.

Lemma drain_keeps_good y now n db k :
  good y -> LocalDB.MarkDrainStarted now (dn_instance_id n) (y_db y) = Ok db -> y_notifies y !! k = None ->
  good {| y with y_db := db; y_notifies := <[k := Reading n]> (y_notifies y) |}.
Proof.
  intros [Hn Hs Ha] Hm Hk. split; cbn; [by rewrite (mark_ids _ _ _ _ Hm) | done |]. intros tenant w x id Hst Hw Hp.
  assert (forall k' n', y_notifies y !! k' = Some n' -> <[k := Reading n]> (y_notifies y) !! k' = Some n') as Hkeep
    by (intros k' n' H; rewrite lookup_insert_ne; [done | congruence]).
  destruct (mark_pending _ _ _ _ _ _ Hm Hp) as [-> | Hp'].
  - right. left. exists k, (Reading n). split; [apply lookup_insert_eq | done].
  - destruct (Ha _ _ _ _ Hst Hw Hp') as [H | [(k' & n' & Hk' & H) | H]]; [auto | | auto]. right. left. exists k', n'. split; [by apply Hkeep | done].
Qed.

Lemma delete_keeps_good y now id0 db :
  good y -> LocalDB.MarkDrainStarted now id0 (y_db y) = Ok db ->
  good {| y with y_db := db; y_skipped := id0 :: y_skipped y |}.
Proof.
  intros [Hn Hs Ha] Hm. split; cbn; [by rewrite (mark_ids _ _ _ _ Hm) | done |]. intros tenant w x id Hst Hw Hp.
  destruct (mark_pending _ _ _ _ _ _ Hm Hp) as [-> | Hp']; [right; right; left |].
  destruct (Ha _ _ _ _ Hst Hw Hp') as [H | [H | H]]; [by left | right; by left | right; right; by right].
Qed.

Lemma begin_good y tenant w :
  good y -> y_watches y !! w = None ->
  good {| (set_watch w (mkWatch tenant Registered [] false) y) with y_streams := <[tenant := w]> (y_streams y) |}.
Proof.
  intros [Hn Hs Ha] Hw. split; cbn; [done | |].
  - intros t w'. destruct (decide (tenant = t)) as [<- | Hne].
    + rewrite lookup_insert_eq. intros [= <-]. rewrite lookup_insert_eq. by eexists.
    + rewrite lookup_insert_ne by done. intros Hst. destruct (Hs _ _ Hst) as (x & Hx & Ht). exists x. rewrite lookup_insert_ne; [done | congruence].
  - intros t w' x id. destruct (decide (tenant = t)) as [<- | Hne].
    + rewrite lookup_insert_eq. intros [= <-]. rewrite lookup_insert_eq. intros [= <-]. by left.
    + rewrite lookup_insert_ne by done. intros Hst. destruct (Hs _ _ Hst) as (x0 & Hx0 & _).
      rewrite lookup_insert_ne by congruence. intros Hx Hp. by apply (Ha t w').
Qed.

Lemma end_keeps_good y w x : good y -> y_watches y !! w = Some x -> good (unregister w x y).
Proof.
  intros [Hn Hs Ha] Hw.
  assert (forall t w', y_streams (unregister w x y) !! t = Some w' -> y_streams y !! t = Some w' /\ w' <> w) as Hst'.
  { intros t w'. unfold unregister. cbn. destruct (bool_decide (y_streams y !! w_tenant x = Some w)) eqn:E; intros H.
    - apply lookup_delete_Some in H as [Hne H]. split; [done |]. intros ->. destruct (Hs _ _ H) as (x0 & Hx0 & Ht0). congruence.
    - split; [done |]. intros ->. apply bool_decide_eq_false in E. destruct (Hs _ _ H) as (x0 & Hx0 & Ht0). congruence. }
  split; [done | |].
  - intros t w' H. destruct (Hst' _ _ H) as [H1 Hne]. destruct (Hs _ _ H1) as (x0 & Hx0 & Ht0). exists x0. cbn. by rewrite lookup_delete_ne.
  - intros t w' x0 id H Hx Hp. destruct (Hst' _ _ H) as [H1 Hne]. cbn in Hx, Hp. rewrite lookup_delete_ne in Hx by done. by apply (Ha t w').
Qed.

Lemma service_step_good cfg y y' : step cfg y y' -> good y -> good y'.
Proof.
  intros Hstep Hy. destruct Hstep as [y db Hnd Hp | y now n db k Hm Hk | y now id inst db _ _ Hm | y k n r Hk Hr He | y k n tenant ev Hk He | y k tenant ev Hk Hst
    | y k tenant ev w Hk Hst | y k ev w x ok Hk Hw Hpc | y k ev w Hk Hw | y tenant w Hw Hno | y w x dyn events Hw Hpc Hsn
    | y w x ev todo Hw Hpc | y w x Hw Hpc | y w x Hw].
  - destruct Hy as [_ Hs Ha]. split; cbn; [done | done |]. intros t w x id Hst Hw Hpend. apply (Ha t w x id Hst Hw). auto.
  - by eapply drain_keeps_good.
  - by eapply delete_keeps_good.
  - apply (notify_good y k (Reading n) None); [done | done | by right |]. intros t w x _ _ _ _. right. right. left.
  - apply (notify_good y k (Reading n) (Some (Looking tenant ev))); [done | done | done |]. intros t w x Hst Hw Hpend _. right. left.
    apply drain_event_id in He as [Hid (i & Hget & Ht)]. exists (Looking tenant ev). split_and!; [done | done |]. cbn.
    rewrite <-Ht. by eapply pending_row; [apply (gd_ids _ Hy) | |].
  - apply (notify_good y k (Looking tenant ev) None); [done | done | done |]. intros t w x Hst' _ _ Hh. cbn in Hh. congruence.
  - apply (notify_good y k (Looking tenant ev) (Some (Sending ev w))); [done | done | done |]. intros t w' x Hst' _ _ Hh. cbn in Hh. subst t.
    right. left. exists (Sending ev w). split_and!; [done | done |]. cbn. congruence.
  - set (x' := if ok then {| x with w_sent := w_sent x ++ [ev] |} else {| x with w_failed := true |}).
    assert (good (set_watch w x' y)) as Hy'.
    { apply (watch_good y w x); [done | done | by destruct ok |]. intros id _. unfold announced, x'.
      destruct ok; cbn; rewrite Hpc; [rewrite fmap_app, elem_of_app; tauto | tauto]. }
    apply (notify_good (set_watch w x' y) k (Sending ev w) None); [done | done | done |]. intros t w' x0 Hst Hx0 _ Hh. cbn in Hh. subst w'.
    left. cbn in Hx0. rewrite lookup_insert_eq in Hx0. injection Hx0 as <-. unfold announced, x'. destruct ok; cbn; rewrite Hpc; [left | by right].
    rewrite fmap_app, elem_of_app. right. left.
  - apply (notify_good y k (Sending ev w) None); [done | done | done |]. intros t w' x Hst Hx _ Hh. cbn in Hh. congruence.
  - by apply begin_good.
  - apply (watch_good y w x); [done | done | done |]. intros id Hpend _. unfold announced. cbn. rewrite fmap_app, elem_of_app. right.
    by eapply snapshot_complete.
  - apply (watch_good y w x); [done | done | done |]. intros id _. unfold announced. rewrite Hpc. cbn. by rewrite <-app_assoc.
  - apply (watch_good y w x); [done | done | done |]. intros id _. unfold announced. rewrite Hpc. cbn. rewrite app_nil_r. auto.
  - by apply end_keeps_good.
Qed.

(** C29. No drain that is to be announced is missed.  However the operator's
    connections, the beginnings of drains, their notifications, deletions and other
    changes of the database interleave: once the stream of a tenant has sent its
    snapshot and no send on it failed, every drain that is pending for the tenant has
    been sent on it, apart from those whose notification is still on its way, those of
    instances that could not be announced because they could not be read or have no
    provider identifier, and those that [Manager.DeleteInstance] began, which notifies
    nobody ([deletion_not_announced]). *)
Theorem drains_announced (cfg : Config) (db : DB) (y : Service) (tenant : string) (w : nat) (x : Watch) (id : string) :
  NoDup (i_id <$> instances db) -> rtc (step cfg) (initial db) y ->
  y_streams y !! tenant = Some w -> y_watches y !! w = Some x -> w_pc x = Waiting -> w_failed x = false ->
  pending (y_db y) tenant id -> id ∉ y_skipped y -> (forall k n, y_notifies y !! k = Some n -> notify_id n <> id) ->
  id ∈ ie_instance_id <$> w_sent x.
Proof.
  intros Hnd Hr Hst Hw Hpc Hf Hp Hsk Hno. assert (good y) as Hy.
  { pose proof (initial_announces db Hnd) as H0. revert H0. induction Hr as [| a b c Hab Hbc IH]; [done |]. intros Ha. by eapply IH, service_step_good. }
  destruct (gd_announced _ Hy _ _ _ _ Hst Hw Hp) as [H | [(k & n & Hk & Hid & _) | H]]; [| by destruct (Hno k n Hk) | done].
  unfold announced in H. rewrite Hpc in H. destruct H as [H | H]; [done | congruence].
Qed.
End StreamFacts.

(** ** Concrete runs *)

From S2P Require Import Samples Witnesses GroupWitnesses ValidationWitnesses.

Module StreamWitnesses.
Import TenantStatus StatusFacts InstanceStreams StreamFacts.

(** Two instances behind the AWS load balancer of [acme], idle since 100 and 200. *)
Definition acme_tracker : Tracker :=
  {[ "acme" := {[ "web:9443" := {[ "i-web" := mkObservation 100 true; "i-api" := mkObservation 200 true ]} ]} ]}.
Definition one_each (_ group : string) : res (list string) := Ok [("i-" ++ group)%string].
Definition acme_operator : ClientInfo := operator_info.
Definition acme_status : rpc TenantStatusResponse :=
  GetTenantStatus one_each acme_operator (Some "acme") true (false, None) (Some parsed) acme_tracker.
Definition acme_listeners : list ListenerActivity :=
  [mkListenerActivity "g-a/192.0.2.8:8080" false None; mkListenerActivity "web:9443" true (Some 200)].

Lemma idle_witness :
  acme_status = Reply (mkTenantStatusResponse false None acme_listeners) /\
  exists l, listeners !! "web:9443" = Some l /\
    forall g, g ∈ li_groups l -> sized parsed "acme" g = true ->
    exists ids, one_each "web:9443" g = Ok ids /\ Forall (idle_by (default ∅ (Snapshot "acme" acme_tracker !! "web:9443")) 200) ids.
Proof.
  assert (acme_status = Reply (mkTenantStatusResponse false None acme_listeners)) as Hs by (vm_compute; reflexivity).
  split; [exact Hs |].
  destruct (reported_idle_sound demo_order one_each acme_operator "acme" true (false, None) parsed acme_tracker _ Hs) as (_ & ls & Hls & _ & H).
  assert (ProxyConfig parsed = Ok listeners) as Hp by (vm_compute; reflexivity).
  assert (ls = listeners) as -> by congruence.
  assert (mkListenerActivity "web:9443" true (Some 200) ∈ acme_listeners) as Hin by (unfold acme_listeners; rewrite !elem_of_cons; auto).
  destruct (H _ 200 Hin eq_refl) as (l & Hl & _ & Hg). exists l. split; [exact Hl | exact Hg].
Defined.

(** The operator of [acme] is connected when the instance is drained. *)
Definition watched (w : Watch) (db : DB) (nts : gmap nat Notify) : Service := mkService db {[ "acme" := 1%nat ]} {[ 1%nat := w ]} nts [].
Definition drained_db : DB := match LocalDB.MarkDrainStarted 7 "knc-old" demo_db with Ok db => db | Err _ => demo_db end.
Definition notification : DrainNotification := mkDrainNotification "knc-old" "web" "expired" 7 127.
Definition drain_sent : InstanceEvent := mkInstanceEvent "knc-old" "acme" "web" "pending_deletion" "expired" 7 127 "vm-knc-old".
Definition told : Watch := mkWatch "acme" Waiting [drain_sent] false.

Lemma step_to cfg y z z' : step cfg y z -> z = z' -> step cfg y z'.
Proof. by intros H <-. Qed.

Lemma drain_reached : rtc (step parsed) (initial demo_db) (watched told drained_db ∅).
Proof.
  apply (rtc_l _ _ (watched (mkWatch "acme" Registered [] false) demo_db ∅)); [apply (step_watch parsed (initial demo_db) "acme" 1); [done | done] |].
  apply (rtc_l _ _ (watched (mkWatch "acme" (Snapshotting []) [] false) demo_db ∅));
    [by apply (step_snapshot parsed (watched (mkWatch "acme" Registered [] false) demo_db ∅) 1 (mkWatch "acme" Registered [] false) (Ok ∅) []) |].
  apply (rtc_l _ _ (watched (mkWatch "acme" Waiting [] false) demo_db ∅));
    [by apply (step_snapshot_done parsed (watched (mkWatch "acme" (Snapshotting []) [] false) demo_db ∅) 1 (mkWatch "acme" (Snapshotting []) [] false)) |].
  apply (rtc_l _ _ (watched (mkWatch "acme" Waiting [] false) drained_db {[ 1%nat := Reading notification ]}));
    [by apply (step_drain parsed (watched (mkWatch "acme" Waiting [] false) demo_db ∅) 7 notification drained_db 1) |].
  apply (rtc_l _ _ (watched (mkWatch "acme" Waiting [] false) drained_db {[ 1%nat := Looking "acme" drain_sent ]}));
    [eapply step_to; [by apply (step_read parsed (watched (mkWatch "acme" Waiting [] false) drained_db {[ 1%nat := Reading notification ]}) 1 notification "acme" drain_sent) | vm_compute; reflexivity] |].
  apply (rtc_l _ _ (watched (mkWatch "acme" Waiting [] false) drained_db {[ 1%nat := Sending drain_sent 1 ]}));
    [eapply step_to; [by apply (step_found parsed (watched (mkWatch "acme" Waiting [] false) drained_db {[ 1%nat := Looking "acme" drain_sent ]}) 1 "acme" drain_sent 1) | vm_compute; reflexivity] |].
  apply (rtc_l _ _ (watched told drained_db ∅)); [| apply rtc_refl].
  eapply step_to; [by apply (step_send parsed (watched (mkWatch "acme" Waiting [] false) drained_db {[ 1%nat := Sending drain_sent 1 ]}) 1 drain_sent 1 (mkWatch "acme" Waiting [] false) true) | vm_compute; reflexivity].
Qed.

(** A deletion begins a drain while the operator is connected: nothing is on its way
    and nothing has been sent. *)
Example deletion_not_announced :
  rtc (step parsed) (initial demo_db) {| (watched (mkWatch "acme" Waiting [] false) drained_db ∅) with y_skipped := ["knc-old"] |} /\
  pending drained_db "acme" "knc-old".
Proof.
  split; [| eexists; split; [left |]; split_and!; [reflexivity | reflexivity | by eexists | reflexivity]].
  apply (rtc_l _ _ (watched (mkWatch "acme" Registered [] false) demo_db ∅)); [apply (step_watch parsed (initial demo_db) "acme" 1); [done | done] |].
  apply (rtc_l _ _ (watched (mkWatch "acme" (Snapshotting []) [] false) demo_db ∅));
    [by apply (step_snapshot parsed (watched (mkWatch "acme" Registered [] false) demo_db ∅) 1 (mkWatch "acme" Registered [] false) (Ok ∅) []) |].
  apply (rtc_l _ _ (watched (mkWatch "acme" Waiting [] false) demo_db ∅));
    [by apply (step_snapshot_done parsed (watched (mkWatch "acme" (Snapshotting []) [] false) demo_db ∅) 1 (mkWatch "acme" (Snapshotting []) [] false)) |].
  eapply rtc_l; [| apply rtc_refl].
  by apply (step_delete parsed (watched (mkWatch "acme" Waiting [] false) demo_db ∅) 7 "knc-old" old drained_db).
Qed.

Lemma announced_witness :
  rtc (step parsed) (initial demo_db) (watched told drained_db ∅) /\ pending drained_db "acme" "knc-old" /\ "knc-old" ∈ ie_instance_id <$> w_sent told.
Proof.
  assert (pending drained_db "acme" "knc-old") as Hp.
  { eexists. split; [left |]. split_and!; [reflexivity | reflexivity | by eexists | reflexivity]. }
  split; [exact drain_reached |]. split; [exact Hp |].
  refine (drains_announced parsed demo_db (watched told drained_db ∅) "acme" 1 told "knc-old" _ drain_reached eq_refl eq_refl eq_refl eq_refl Hp _ _).
  - apply (bool_decide_unpack _). vm_compute. exact I.
  - apply not_elem_of_nil.
  - intros k n Hk. cbn in Hk. rewrite lookup_empty in Hk. discriminate Hk.
Defined.
End StreamWitnesses.
