(* ===== verification/Process.v ===== *)
(** * Computations of a process that may die

    The Kubernetes operator keeps no state of its own between reconciliations: what it
    must remember it stores, because its process may end at any call it makes.
    [X S A] is a computation with early returns of errors, as elsewhere, whose result
    is [None] when the process died on the way; the state is then what the outside
    world was left with.  [xspec] is partial in neither: it says what holds after a
    result, and what holds after an error or a death. *)

From S2P Require Import Prelude.

Abbreviation X S A := (M S (option (res A))).

Definition x_bind {S A B} (m : X S A) (f : A -> X S B) : X S B :=
  m ≫= fun r => match r with
                | None => mret None
                | Some (Err e) => mret (Some (Err e))
                | Some (Ok a) => f a
                end.

Notation "x ←? m ; f" := (x_bind m (fun x => f))
  (at level 20, m at level 100, f at level 200, only parsing) : stdpp_scope.

Definition x_ret {S A} (a : A) : X S A := mret (Some (Ok a)).
Definition x_fail {S A} (e : err) : X S A := mret (Some (Err e)).
Definition x_die {S A} : X S A := mret None.
Definition x_res {S A} (r : res A) : X S A := mret (Some r).

(** [if err := m; err != nil { return fmt.Errorf(msg, err) }]. *)
Definition x_wrap {S A} (msg : string) (m : X S A) : X S A :=
  r ← m; mret (match r with Some (Err e) => Some (Err (ErrWrap msg e)) | _ => r end).

(** [a, err := m], the error handled by what follows. *)
Definition x_try {S A} (m : X S A) : X S (res A) :=
  r ← m; mret (match r with Some r => Some (Ok r) | None => None end).

Definition x_mod {S} (f : S -> S) : X S unit := _ ← modify f; x_ret tt.
Definition x_get {S A} (f : S -> A) : X S A := a ← gets f; x_ret a.

Fixpoint x_each {S A} (l : list A) (body : A -> X S unit) : X S unit :=
  match l with
  | [] => x_ret tt
  | x :: l' => _ ←? body x; x_each l' body
  end.

Fixpoint x_fold {S A B} (body : B -> A -> X S B) (b : B) (l : list A) : X S B :=
  match l with
  | [] => x_ret b
  | x :: l' => b' ←? body b x; x_fold body b' l'
  end.

(** ** Runs *)

Lemma x_bind_eq {S A B} (m : X S A) (f : A -> X S B) s :
  x_bind m f s = match m s with
                 | (s1, Some (Ok a)) => f a s1
                 | (s1, Some (Err e)) => (s1, Some (Err e))
                 | (s1, None) => (s1, None)
                 end.
Proof. unfold x_bind, mbind, M_bind. by destruct (m s) as [s1 [[a | e] |]]. Qed.

Lemma x_try_eq {S A} (m : X S A) s :
  x_try m s = match m s with (s1, Some r) => (s1, Some (Ok r)) | (s1, None) => (s1, None) end.
Proof. unfold x_try, mbind, M_bind. by destruct (m s) as [s1 [r |]]. Qed.

(** ** What holds after a run *)

(** [Q a] after a result [a], [E] after an error or a death. *)
Definition xspec {S A} (P : S -> Prop) (m : X S A) (Q : A -> S -> Prop) (E : S -> Prop) : Prop :=
  forall s, P s -> match m s with
                   | (s', Some (Ok a)) => Q a s'
                   | (s', _) => E s'
                   end.

Section Rules.
Context {S A B : Type}.
Implicit Types (P E : S -> Prop) (m : X S A).

Lemma xspec_ret P (Q : A -> S -> Prop) E a : (forall s, P s -> Q a s) -> xspec P (x_ret a) Q E.
Proof. intros H s Hs. apply H, Hs. Qed.

Lemma xspec_fail P (Q : A -> S -> Prop) E e : (forall s, P s -> E s) -> xspec P (x_fail e) Q E.
Proof. intros H s Hs. apply H, Hs. Qed.

Lemma xspec_die P (Q : A -> S -> Prop) E : (forall s, P s -> E s) -> xspec P x_die Q E.
Proof. intros H s Hs. apply H, Hs. Qed.

Lemma xspec_res P (Q : A -> S -> Prop) E (r : res A) :
  (forall s, P s -> match r with Ok a => Q a s | Err _ => E s end) -> xspec P (x_res r) Q E.
Proof. intros H s Hs. specialize (H s Hs). by destruct r. Qed.

Lemma xspec_bind P m (f : A -> X S B) (Q : A -> S -> Prop) (R : B -> S -> Prop) E :
  xspec P m Q E -> (forall a, xspec (Q a) (f a) R E) -> xspec P (x_bind m f) R E.
Proof.
  intros Hm Hf s Hs. specialize (Hm s Hs). unfold x_bind, mbind, M_bind.
  destruct (m s) as [s' [[a | e] |]]; [apply Hf, Hm | done | done].
Qed.

Lemma xspec_weaken P P' m (Q Q' : A -> S -> Prop) E E' :
  xspec P' m Q' E' -> (forall s, P s -> P' s) -> (forall a s, Q' a s -> Q a s) -> (forall s, E' s -> E s) -> xspec P m Q E.
Proof. intros Hm HP HQ HE s Hs. specialize (Hm s (HP s Hs)). destruct (m s) as [s' [[a | e] |]]; auto. Qed.

Lemma xspec_wrap P m (Q : A -> S -> Prop) E msg : xspec P m Q E -> xspec P (x_wrap msg m) Q E.
Proof. intros Hm s Hs. specialize (Hm s Hs). unfold x_wrap, mbind, M_bind. by destruct (m s) as [s' [[a | e] |]]. Qed.

(** The error is a value: the two outcomes are told apart afterwards. *)
Lemma xspec_try P m (Q : A -> S -> Prop) E :
  xspec P m Q E -> xspec P (x_try m) (fun r s => match r with Ok a => Q a s | Err _ => E s end) E.
Proof. intros Hm s Hs. specialize (Hm s Hs). unfold x_try, mbind, M_bind. by destruct (m s) as [s' [[a | e] |]]. Qed.

Lemma xspec_mod P (Q : unit -> S -> Prop) E f : (forall s, P s -> Q tt (f s)) -> xspec P (x_mod f) Q E.
Proof. intros H s Hs. apply H, Hs. Qed.

Lemma xspec_get P (Q : A -> S -> Prop) E f : (forall s, P s -> Q (f s) s) -> xspec P (x_get f) Q E.
Proof. intros H s Hs. apply H, Hs. Qed.

Lemma xspec_pre (G : Prop) P m (Q : A -> S -> Prop) E : (G -> xspec P m Q E) -> xspec (fun s => G /\ P s) m Q E.
Proof. intros H s [HG Hs]. by apply (H HG). Qed.
End Rules.

Lemma xspec_each {S A} (P E : S -> Prop) (l : list A) (body : A -> X S unit) :
  (forall x, x ∈ l -> xspec P (body x) (fun _ => P) E) -> xspec P (x_each l body) (fun _ => P) E.
Proof.
  induction l as [| x l IH]; intros H; cbn [x_each]; [by apply xspec_ret |].
  eapply xspec_bind; [apply H; left |]. intros []. apply IH. intros y Hy. apply H. by right.
Qed.

(** A loop with an invariant on the accumulator and the elements left. *)
Lemma xspec_fold {S A B} (I : B -> list A -> S -> Prop) (E : S -> Prop) (body : B -> A -> X S B) l b :
  (forall b x l, xspec (I b (x :: l)) (body b x) (fun b' => I b' l) E) ->
  xspec (I b l) (x_fold body b l) (fun b' => I b' []) E.
Proof.
  intros H. revert b. induction l as [| x l IH]; intros b; cbn [x_fold]; [by apply xspec_ret |].
  eapply xspec_bind; [apply H | intros b'; apply IH].
Qed.
