(* ===== verification/ProxyPath.v ===== *)
(** * The wake path ([src/internal/server/wake], [src/internal/proxy])

    While a tenant sleeps its load balancers point at the proxy.  The server derives
    the proxy's listeners ([ProxyConfig]) and publishes them over a local socket; the
    proxy program follows the published snapshots, binds their ports, and for a
    connection that sends something asks the server to wake the listener's tenant; the
    server answers with the address of an instance that is healthy again.

    [Proxy] is the proxy's routing and its sockets; [Control] the publication, with the
    goroutines of the server's streams and of the proxy program as steps; [Handler] the
    server's answer to a wake.  Bytes that are relayed, and connections that are counted
    for shutdown, are not modelled. *)

From S2P Require Import Prelude Provider Json LocalDB GoText Config ProxyConfig Process.

#[local] Open Scope Z_scope.

Module Proxy.

(** The sixteen bytes of an address, as words: [net.IP.String] of two addresses is the
    same exactly when these are. *)
Definition ip_key (a : Addr) : list Z :=
  match a with
  | Addr4 v => [0; 0; 0; 0; 0; 65535; v `div` 65536; v `mod` 65536]
  | Addr6 ws _ => ws
  end.

(** [routingSnapshot]; a route is the identity of its listener. *)
Record Routes := mkRoutes {
  rt_exclusive : option string;
  rt_by_ip : gmap (list Z) string;
}.

Definition no_routes : Routes := mkRoutes None ∅.

(** The body of the loop of [New]. *)
Definition add_route (ports : gmap Z Routes) (item : string * Listener) : res (gmap Z Routes) :=
  let '(key, l) := item in
  let port := li_proxy_port l in
  if (port <? 1) || (65535 <? port) then Err (ErrMsg "listener has invalid proxy port")
  else
    let r := default no_routes (ports !! port) in
    if bool_decide (li_frontend_ip l = "") then
      if bool_decide (is_Some (rt_exclusive r)) || negb (bool_decide (rt_by_ip r = ∅))
      then Err (ErrMsg "proxy port is not exclusively owned")
      else Ok (<[port := mkRoutes (Some key) (rt_by_ip r)]> ports)
    else if bool_decide (is_Some (rt_exclusive r)) then Err (ErrMsg "proxy port mixes exclusive and frontend listeners")
    else match ParseIP (li_frontend_ip l) with
         | None => Err (ErrMsg "listener has invalid frontend IP")
         | Some ip =>
             match rt_by_ip r !! ip_key ip with
             | Some _ => Err (ErrMsg "frontend is used by two listeners")
             | None => Ok (<[port := mkRoutes None (<[ip_key ip := key]> (rt_by_ip r))]> ports)
             end
         end.

(** [Server]: the ports with their routes, those whose socket is open, and the
    configuration.  [sv_hold] is the hold timeout. *)
Record Server := mkServer {
  sv_hold : Z;
  sv_listeners : gmap string Listener;
  sv_ports : gmap Z Routes;
  sv_bound : gset Z;
  sv_started : bool;
}.

Class ProxyEnv := mkProxyEnv {
  px_order : nat -> RangeOrder;               (* for range over the listeners *)
  px_ports : nat -> gset Z -> list Z;         (* for range over ports *)
  px_ports_perm : forall n s, px_ports n s ≡ₚ elements s;
  px_listen : nat -> Z -> option err;         (* net.Listen fails *)
}.

Section Proxy.
Context {PE : ProxyEnv}.

(** [New]. *)
Definition New (n : nat) (hold : Z) (config : gmap string Listener) : res Server :=
  if hold <=? 0 then Err (ErrMsg "hold timeout must be positive")
  else
    match fold_err add_route ∅ (range_over (RangeOrder := px_order n) 0 config) with
    | Err e => Err e
    | Ok ports => Ok (mkServer hold config ports ∅ false)
    end.

(** Opens sockets until one fails: the ones opened and the error. *)
Fixpoint bind_ports (n : nat) (ports : list Z) (opened : gset Z) : gset Z * option err :=
  match ports with
  | [] => (opened, None)
  | port :: ports' =>
      match px_listen n port with
      | Some e => (opened, Some (ErrWrap "listen on proxy port" e))
      | None => bind_ports (S n) ports' ({[port]} ∪ opened)
      end
  end.

(** [Start]: every socket, or none. *)
Definition Start (n : nat) (s : Server) : Server * option err :=
  if sv_started s then (s, Some (ErrMsg "proxy server already started"))
  else match bind_ports n (px_ports n (dom (sv_ports s))) ∅ with
       | (_, Some e) => (s, Some e)
       | (opened, None) => ({| s with sv_bound := opened; sv_started := true |}, None)
       end.

(** [Reconcile]: ports that stay keep their socket, new ones are opened first, and the
    ones opened are closed again when one fails. *)
Definition replace_port (acc : gmap Z Routes * gset Z * gmap Z Routes) (port : Z) : gmap Z Routes * gset Z * gmap Z Routes :=
  let '(ports, bound, candidate) := acc in
  match candidate !! port with
  | None => (delete port ports, bound ∖ {[port]}, candidate)
  | Some next => (<[port := next]> ports, bound, delete port candidate)
  end.

Definition Reconcile (n : nat) (config : gmap string Listener) (s : Server) : Server * option err :=
  match New n (sv_hold s) config with
  | Err e => (s, Some e)
  | Ok candidate =>
      if negb (sv_started s) then (s, Some (ErrMsg "proxy server is not started"))
      else
        let fresh := filter (fun p => sv_ports s !! p = None) (px_ports n (dom (sv_ports candidate))) in
        match bind_ports n fresh ∅ with
        | (_, Some e) => (s, Some e)
        | (added, None) =>
            let '(ports, bound, rest) :=
              foldl replace_port (sv_ports s, sv_bound s, sv_ports candidate) (px_ports n (dom (sv_ports s))) in
            (mkServer (sv_hold s) config (foldl (fun m p => <[p.1 := p.2]> m) ports (map_to_list rest)) (bound ∪ added) true, None)
        end
  end.

(** [Close]: every socket is closed. *)
Definition Close (s : Server) : Server := {| s with sv_bound := ∅; sv_started := false |}.

(** The route of a connection, from the address it came in on. *)
Definition select_route (r : Routes) (localIP : option Addr) : option string :=
  match rt_exclusive r with
  | Some key => Some key
  | None => match localIP with Some ip => rt_by_ip r !! ip_key ip | None => None end
  end.

(** What [handleConnection] does for a connection. *)
Inductive ConnAction :=
  | CWake (listener : string) (timeout : Z)
  | CDial (addr : string) (timeout : Z)
  | CForward (payload : string).

(** [handleConnection], given the payload that was read ([None] for an error), the
    answers to the wake and the dial, and the clock when the connection was accepted
    and when the wake was answered. *)
Definition handleConnection (hold dialTimeout : Z) (routes : Routes) (localIP : option Addr) (payload : option string)
    (wake : string -> res string) (dial : string -> bool) (accepted woken : Z) : list ConnAction :=
  match payload with
  | None => []
  | Some data =>
      if bool_decide (data = "") then []
      else match select_route routes localIP with
           | None => []
           | Some listener =>
               let deadline := accepted + hold in
               CWake listener deadline ::
               match wake listener with
               | Err _ => []
               | Ok addr =>
                   let remaining := deadline - woken in
                   if remaining <=? 0 then []
                   else CDial addr (Z.min dialTimeout remaining) :: (if dial addr then [CForward data] else [])
               end
           end
  end.
End Proxy.
End Proxy.

Module Control.
Import Proxy.

(** [proto.ProxyConfigSnapshot]; ports travel as 32-bit numbers. *)
Record Snapshot := mkSnapshot {
  sn_generation : Z;
  sn_listeners : gmap string Listener;
}.

Definition wire_listener (l : Listener) : Listener :=
  {| l with li_target_port := li_target_port l `mod` 2 ^ 32; li_proxy_port := li_proxy_port l `mod` 2 ^ 32 |}.

Definition snapshotFromConfig (generation : Z) (cfg : gmap string Listener) : Snapshot :=
  mkSnapshot generation (wire_listener <$> cfg).

(** A stream of [WatchConfig]: its subscription's channel, of capacity one, what the
    goroutine does, and the snapshots sent that the client has not received. *)
Inductive StreamPc := Sending (snapshot : Snapshot) | Waiting.

Record Stream := mkStream {
  st_channel : option Snapshot;
  st_pc : StreamPc;
  st_wire : list Snapshot;
}.

(** The proxy process: the stream it reads and the generation it received last on it,
    the channel of configurations, the one to apply, and its server once started. *)
Record Process := mkProcess {
  pr_stream : option nat;
  pr_previous : option Z;
  pr_configs : option (gmap string Listener);
  pr_pending : option (gmap string Listener);
  pr_server : option Server;
}.

Definition new_process : Process := mkProcess None None None None None.

(** The control service of the server and the proxy.  The generation is an unsigned
    64-bit counter of publications, which wraps around. *)
Record System := mkSystem {
  sy_generation : Z;
  sy_snapshot : Snapshot;
  sy_streams : gmap nat Stream;
  sy_next : nat;
  sy_process : Process;
  sy_tick : nat;
}.

(** [wake.New], and a proxy that has not started. *)
Definition initial : System := mkSystem 0 (snapshotFromConfig 0 ∅) ∅ 0 new_process 0.

(** [Publish] replaces what is in every channel. *)
Definition Publish (cfg : gmap string Listener) (y : System) : System :=
  let generation := (sy_generation y + 1) `mod` 2 ^ 64 in
  let snapshot := snapshotFromConfig generation cfg in
  {| y with sy_generation := generation; sy_snapshot := snapshot;
            sy_streams := (fun st => {| st with st_channel := Some snapshot |}) <$> sy_streams y |}.

(** [subscribe], and the stream that sends the current snapshot. *)
Definition subscribe (y : System) : System :=
  {| y with sy_streams := <[sy_next y := mkStream None (Sending (sy_snapshot y)) []]> (sy_streams y); sy_next := S (sy_next y) |}.

Definition unsubscribe (id : nat) (y : System) : System := {| y with sy_streams := delete id (sy_streams y) |}.

(** [watchConfigSnapshots]: the generation of a snapshot, or an error. *)
Definition check_generation (previous : option Z) (generation : Z) : res Z :=
  match previous with
  | None => Ok generation
  | Some p =>
      if generation =? 0 then Err (ErrMsg "proxy config generation is zero after initial publication")
      else if generation <=? p then Err (ErrMsg "proxy config generation is not greater")
      else Ok generation
  end.

(** A snapshot is received: it replaces the one in the channel of configurations, or
    ends the watch. *)
Definition receive (sn : Snapshot) (p : Process) : Process :=
  match check_generation (pr_previous p) (sn_generation sn) with
  | Ok g => {| p with pr_previous := Some g; pr_configs := Some (sn_listeners sn) |}
  | Err _ => {| p with pr_stream := None |}
  end.

Section Control.
Context {PE : ProxyEnv} (hold : Z).

(** The main function: the first configuration starts the server; the process ends when
    it cannot be, and is started again. *)
Definition start_server (n : nat) (p : Process) : Process :=
  match pr_server p, pr_configs p with
  | None, Some cfg =>
      match New n hold cfg with
      | Err _ => new_process
      | Ok s => match Start n s with
                | (s, None) => {| p with pr_configs := None; pr_server := Some s |}
                | (_, Some _) => new_process
                end
      end
  | _, _ => p
  end.

(** The loop: a configuration becomes the pending one, which is tried at every tick. *)
Definition next_config (p : Process) : Process :=
  match pr_server p, pr_configs p with
  | Some _, Some cfg => {| p with pr_configs := None; pr_pending := Some cfg |}
  | _, _ => p
  end.

Definition retry_pending (n : nat) (p : Process) : Process :=
  match pr_server p, pr_pending p with
  | Some s, Some cfg =>
      match Reconcile n cfg s with
      | (s, None) => {| p with pr_server := Some s; pr_pending := None |}
      | (s, Some _) => {| p with pr_server := Some s |}
      end
  | _, _ => p
  end.

Definition set_process (p : Process) (y : System) : System := {| y with sy_process := p; sy_tick := S (sy_tick y) |}.
Definition set_stream (id : nat) (st : Stream) (y : System) : System := {| y with sy_streams := <[id := st]> (sy_streams y) |}.

Inductive step : System -> System -> Prop :=
  | step_publish y cfg : step y (Publish cfg y)
  | step_connect y :
      pr_stream (sy_process y) = None ->
      step y (set_process {| (sy_process y) with pr_stream := Some (sy_next y); pr_previous := None |} (subscribe y))
  | step_send y id st sn :
      sy_streams y !! id = Some st -> st_pc st = Sending sn ->
      step y (set_stream id {| st with st_pc := Waiting; st_wire := st_wire st ++ [sn] |} y)
  | step_take y id st sn :
      sy_streams y !! id = Some st -> st_pc st = Waiting -> st_channel st = Some sn ->
      step y (set_stream id {| st with st_pc := Sending sn; st_channel := None |} y)
  | step_end y id : step y (unsubscribe id y)
  | step_receive y id st sn rest :
      pr_stream (sy_process y) = Some id -> sy_streams y !! id = Some st -> st_wire st = sn :: rest ->
      step y (set_process (receive sn (sy_process y)) (set_stream id {| st with st_wire := rest |} y))
  | step_disconnect y : step y (set_process {| (sy_process y) with pr_stream := None |} y)
  | step_start y : step y (set_process (start_server (sy_tick y) (sy_process y)) y)
  | step_config y : step y (set_process (next_config (sy_process y)) y)
  | step_retry y : step y (set_process (retry_pending (sy_tick y) (sy_process y)) y).

(** [run k y y']: [y'] is reached from [y] with [k] publications. *)
Inductive run : Z -> System -> System -> Prop :=
  | run_here y : run 0 y y
  | run_publish k y y' cfg : run k y y' -> run (k + 1) y (Publish cfg y')
  | run_step k y y' y'' :
      run k y y' -> step y' y'' -> (forall cfg, y'' <> Publish cfg y') -> run k y y''.
End Control.
End Control.

Module Handler.

Class WakeEnv := mkWakeEnv {
  wk_config : nat -> res (gmap string Listener);   (* the configuration, when it is loaded *)
  wk_wake : nat -> string -> res bool;             (* Manager.wake, under the tenant's lock *)
  wk_db : nat -> DB;                               (* the instance store *)
  wk_db_fault : nat -> option err;
  wk_now : nat -> Z;
  wk_dial : nat -> string -> bool;
  wk_select : nat -> option err;                   (* ctx.Done with its error, or the ticker *)
  wk_ctx : nat -> bool;                            (* ctx.Err() != nil *)
}.

Section Handler.
Context {WE : WakeEnv}.

(** Computations indexed by the number of observations; [None] when the rounds of the
    polling loop run out. *)
Abbreviation H A := (X nat A).

Definition observe {A} (f : nat -> A) : H A := fun n => (S n, Some (Ok (f n))).

Definition query {A} (f : DB -> res A) : H (res A) :=
  observe (fun n => match wk_db_fault n with Some e => Err e | None => f (wk_db n) end).

(** The address of an instance that was healthy after [freshAfter]. *)
Definition usable (listener : Listener) (freshAfter : Z) (r : res Instance) : option string :=
  match r with
  | Err _ => None
  | Ok i =>
      match i_health_at i, i_ip4 i with
      | Some t, Some ip =>
          if bool_decide (t < freshAfter) || bool_decide (ParseIP ip = None) then None
          else Some (JoinHostPort ip (Itoa (li_target_port listener)))
      | _, _ => None
      end
  end.

Fixpoint try_instances (listener : Listener) (freshAfter : Z) (ids : list string) : H (option string) :=
  match ids with
  | [] => x_ret None
  | id :: ids' =>
      r ←? query (LocalDB.GetInstance id);
      match usable listener freshAfter r with
      | None => try_instances listener freshAfter ids'
      | Some address =>
          ok ←? observe (fun n => wk_dial n address);
          if ok : bool then x_ret (Some address) else try_instances listener freshAfter ids'
      end
  end.

Fixpoint try_groups (listener : Listener) (freshAfter : Z) (groups : list string) : H (option string) :=
  match groups with
  | [] => x_ret None
  | group :: groups' =>
      r ←? query (fun db => Ok (LocalDB.GetInstancesByGroup (li_tenant listener) group true db));
      match r with
      | Err e => x_fail (ErrWrap "list group instances" e)
      | Ok ids =>
          found ←? try_instances listener freshAfter ids;
          match found with
          | Some address => x_ret (Some address)
          | None => try_groups listener freshAfter groups'
          end
      end
  end.

Fixpoint waitForUpstream (fuel : nat) (listener : Listener) (freshAfter : Z) : H string :=
  match fuel with
  | O => x_die
  | S fuel =>
      found ←? try_groups listener freshAfter (li_groups listener);
      match found with
      | Some address => x_ret address
      | None =>
          d ←? observe wk_select;
          match d with
          | Some e => x_fail e
          | None => waitForUpstream fuel listener freshAfter
          end
      end
  end.

(** [WakeAndWait]: the tenant is woken, then the upstream awaited. *)
Definition WakeAndWait (tenant : string) (wait : H string) : H (bool * string) :=
  r ←? observe (fun n => wk_wake n tenant);
  alreadyAwake ←? x_res r;
  upstream ←? wait;
  x_ret (alreadyAwake, upstream).

Inductive WakeResult := RESULT_WOKE | RESULT_ALREADY_AWAKE.

(** [WakeListener]. *)
Definition WakeListener (fuel : nat) (listenerID : string) : H (WakeResult * string) :=
  if bool_decide (listenerID = "") then x_fail (ErrMsg "InvalidArgument: listener is required")
  else
    cfg ←? observe wk_config;
    match cfg with
    | Err e => x_fail (ErrWrap "Unavailable: proxy configuration unavailable" e)
    | Ok listeners =>
        match listeners !! listenerID with
        | None => x_fail (ErrMsg "NotFound: listener is not configured")
        | Some listener =>
            r ←? x_try (WakeAndWait (li_tenant listener)
                   (now ←? observe wk_now; waitForUpstream fuel listener now));
            match r with
            | Err e =>
                cancelled ←? observe wk_ctx;
                if cancelled : bool then x_fail (ErrMsg "DeadlineExceeded: timed out waiting for a ready upstream")
                else x_fail (ErrWrap "Unavailable: listener wake failed" e)
            | Ok (alreadyAwake, upstream) =>
                x_ret (if alreadyAwake : bool then RESULT_ALREADY_AWAKE else RESULT_WOKE, upstream)
            end
        end
    end.

(** The proxy's side, [UnixWaker.Wake]: an upstream, or an error. *)
Definition Wake (fuel : nat) (listener : string) : H string :=
  response ←? WakeListener fuel listener;
  if bool_decide (response.2 = "") then x_fail (ErrMsg "wake response did not include an upstream") else x_ret response.2.
End Handler.
End Handler.
