(* ===== verification/ProxyPathFacts.v ===== *)
(** * Facts about the wake path *)

From S2P Require Import Prelude Provider Json LocalDB GoText Config ProxyConfig ProxyConfigFacts NatValidation Validation ValidationFacts Process ProxyPath.
From stdpp Require Import relations.

#[local] Open Scope Z_scope.

Import Proxy.

(** ** Which listeners the proxy takes *)

Definition frontend (l : Listener) : option Addr := ParseIP (li_frontend_ip l).

(** A listener on its own: a port, and an address when it has a frontend. *)
Definition servable (l : Listener) : Prop :=
  1 <= li_proxy_port l <= 65535 /\ (li_frontend_ip l <> "" -> is_Some (frontend l)).

(** Two listeners whose connections cannot be told apart. *)
Definition clash (l1 l2 : Listener) : Prop :=
  li_proxy_port l1 = li_proxy_port l2 /\
  (li_frontend_ip l1 = "" \/ li_frontend_ip l2 = "" \/ exists a b, frontend l1 = Some a /\ frontend l2 = Some b /\ ip_key a = ip_key b).

Definition apart (x y : string * Listener) : Prop := ~ clash x.2 y.2.

#[global] Instance apart_symmetric : Symmetric apart.
Proof. intros x y H [Hp Hc]. apply H. split; [done |]. naive_solver. Qed.

(** The routes of a port. *)
Definition at_port (ports : gmap Z Routes) (p : Z) : Routes := default no_routes (ports !! p).

(** What the routes know of the listeners passed. *)
Definition routed (pre : list (string * Listener)) (ports : gmap Z Routes) : Prop :=
  Forall (fun x => servable x.2) pre /\
  (forall p key, rt_exclusive (at_port ports p) = Some key <->
     exists l, (key, l) ∈ pre /\ li_proxy_port l = p /\ li_frontend_ip l = "") /\
  (forall p k key, rt_by_ip (at_port ports p) !! k = Some key <->
     exists l a, (key, l) ∈ pre /\ li_proxy_port l = p /\ li_frontend_ip l <> "" /\ frontend l = Some a /\ ip_key a = k).

Lemma at_port_insert ports p r q : at_port (<[p := r]> ports) q = if decide (p = q) then r else at_port ports q.
Proof. unfold at_port. destruct (decide (p = q)) as [-> | Hne]; [by rewrite lookup_insert_eq | by rewrite lookup_insert_ne]. Qed.

(** A listener that was passed is in the routes of its port. *)
Lemma routed_seen pre ports key l :
  routed pre ports -> (key, l) ∈ pre ->
  if decide (li_frontend_ip l = "") then rt_exclusive (at_port ports (li_proxy_port l)) = Some key
  else exists a, frontend l = Some a /\ rt_by_ip (at_port ports (li_proxy_port l)) !! ip_key a = Some key.
Proof.
  intros (Hs & He & Hb) Hin. case_decide as Hf; [apply He; eauto |].
  rewrite Forall_forall in Hs. destruct (Hs _ Hin) as [_ [a Ha]]; [done |]. exists a. split; [done |]. apply Hb. eauto 10.
Qed.

Lemma add_route_apart pre ports x ports' :
  routed pre ports -> add_route ports x = Ok ports' -> servable x.2 /\ Forall (apart x) pre.
Proof.
  intros Hr. destruct x as [key l]. unfold add_route. cbv beta iota zeta. fold (at_port ports (li_proxy_port l)).
  destruct ((li_proxy_port l <? 1) || (65535 <? li_proxy_port l)) eqn:Ep; [done |].
  apply orb_false_iff in Ep as [Ep1%Z.ltb_ge Ep2%Z.ltb_ge]. set (r := at_port ports (li_proxy_port l)).
  case_bool_decide as Hf.
  - case_bool_decide as Ex; cbn [orb]; [done |]. case_bool_decide as Hemp; cbn [negb]; [| done]. intros _.
    split; [by split |]. apply Forall_forall. intros [k' l'] Hin [Hp _]. cbn in Hp.
    pose proof (routed_seen _ _ _ _ Hr Hin) as Hseen. rewrite <-Hp in Hseen. fold r in Hseen.
    case_decide; [by apply Ex; eauto |]. destruct Hseen as (a & _ & Hseen). by rewrite Hemp, lookup_empty in Hseen.
  - case_bool_decide as Ex; [done |]. destruct (ParseIP (li_frontend_ip l)) as [ip |] eqn:Eip; [| done].
    destruct (rt_by_ip r !! ip_key ip) eqn:Ek; [done |]. intros _. split; [split; [done | intros _; by eexists] |].
    apply Forall_forall. intros [k' l'] Hin [Hp Hc]. cbn in Hp, Hc.
    pose proof (routed_seen _ _ _ _ Hr Hin) as Hseen. rewrite <-Hp in Hseen. fold r in Hseen.
    case_decide; [by apply Ex; eauto |]. destruct Hseen as (a & Ha & Hseen).
    destruct Hc as [Hc | [Hc | (a1 & b1 & H1 & H2 & H3)]]; [done | done |]. unfold frontend in H1. congruence.
Qed.

Lemma add_route_routed pre ports key l ports' :
  routed pre ports -> add_route ports (key, l) = Ok ports' -> routed (pre ++ [(key, l)]) ports'.
Proof.
  intros Hr Hadd. destruct (add_route_apart pre ports (key, l) ports' Hr Hadd) as [Hserv Happ].
  destruct Hr as (Hs & He & Hb). cbn in Hserv. unfold add_route in Hadd. cbv beta iota zeta in Hadd. fold (at_port ports (li_proxy_port l)) in Hadd.
  destruct ((li_proxy_port l <? 1) || (65535 <? li_proxy_port l)); [done |].
  set (r := at_port ports (li_proxy_port l)) in *. split; [apply Forall_app; split; [done | by apply Forall_singleton] |].
  setoid_rewrite elem_of_app. setoid_rewrite list_elem_of_singleton. case_bool_decide as Hf.
  - case_bool_decide as Ex; cbn [orb] in Hadd; [done |]. case_bool_decide as Hemp; cbn [negb] in Hadd; [| done].
    injection Hadd as <-. split.
    + intros p k. rewrite at_port_insert. case_decide as Hp; cbn; [| rewrite He; naive_solver].
      subst p. split; [intros [= ->]; naive_solver |]. intros (l' & [Hin | [= -> ->]] & Hp & Hf'); [| done].
      destruct Ex. exists k. apply He. eauto.
    + intros p a k. rewrite at_port_insert. case_decide as Hp; cbn; [subst p; unfold r |]; rewrite Hb; naive_solver.
  - case_bool_decide as Ex; [done |]. destruct (ParseIP (li_frontend_ip l)) as [ip |] eqn:Eip; [| done].
    destruct (rt_by_ip r !! ip_key ip) eqn:Ek; [done |]. injection Hadd as <-. split.
    + intros p k. rewrite at_port_insert. case_decide as Hp; cbn; [| rewrite He; naive_solver].
      subst p. split; [done |]. intros (l' & [Hin | [= -> ->]] & Hp & Hf'); [| done]. destruct Ex. exists k. apply He. eauto.
    + intros p a k. rewrite at_port_insert. case_decide as Hp; cbn; [subst p | rewrite Hb; naive_solver].
      destruct (decide (ip_key ip = a)) as [<- | Hne].
      * rewrite lookup_insert_eq. split; [intros [= ->]; unfold frontend; naive_solver |].
        intros (l' & b & [Hin | [= -> ->]] & Hp & Hf' & Hb' & Hk); [| done].
        assert (rt_by_ip r !! ip_key ip = Some k) by (apply Hb; exists l', b; naive_solver). congruence.
      * rewrite lookup_insert_ne by done. unfold r. rewrite Hb. unfold frontend. naive_solver congruence.
Qed.

Lemma add_route_ok pre ports x : routed pre ports -> servable x.2 -> Forall (apart x) pre -> is_ok (add_route ports x) = true.
Proof.
  intros (Hs & He & Hb) [Hp Hip] Happ. destruct x as [key l]. cbn in Hp, Hip. unfold add_route. cbv beta iota zeta. fold (at_port ports (li_proxy_port l)).
  rewrite (proj2 (Z.ltb_ge _ _)), (proj2 (Z.ltb_ge 65535 _)) by lia. cbn [orb].
  set (r := at_port ports (li_proxy_port l)) in *. rewrite Forall_forall in Happ.
  assert (rt_exclusive r = None) as Hex.
  { destruct (rt_exclusive r) as [k |] eqn:E; [| done]. apply He in E as (l' & Hin & Hp' & Hf'). destruct (Happ _ Hin). split; cbn; auto. }
  rewrite Hex. case_bool_decide as Hf; rewrite bool_decide_eq_false_2 by apply is_Some_None; cbn [orb].
  - rewrite bool_decide_eq_true_2; [done |]. apply map_eq. intros a. rewrite lookup_empty.
    destruct (rt_by_ip r !! a) as [k |] eqn:E; [| done]. apply Hb in E as (l' & b & Hin & Hp' & _). destruct (Happ _ Hin). split; cbn; auto.
  - destruct (Hip Hf) as [ip Eip]. unfold frontend in Eip. rewrite Eip.
    destruct (rt_by_ip r !! ip_key ip) as [k |] eqn:E; [| done].
    apply Hb in E as (l' & b & Hin & Hp' & Hf' & Hb' & Hk). destruct (Happ _ Hin). split; cbn; [done |]. right. right. exists ip, b. auto.
Qed.

(** The listeners that the proxy can serve together. *)
Definition servable_together (m : gmap string Listener) : Prop :=
  map_Forall (fun _ => servable) m /\
  forall k1 k2 l1 l2, m !! k1 = Some l1 -> m !! k2 = Some l2 -> k1 <> k2 -> ~ clash l1 l2.

Section New.
Context {PE : ProxyEnv}.

Lemma fold_routes (RO : RangeOrder) m :
  (forall ports, fold_err add_route ∅ (range_over 0 m) = Ok ports -> routed (range_over 0 m) ports) /\
  (is_ok (fold_err add_route ∅ (range_over 0 m)) = true <-> servable_together m).
Proof.
  destruct (fold_err_pairs add_route (fun _ => True) routed (fun x => servable x.2) apart) with
    (l := range_over 0 m) (pre := @nil (string * Listener)) (s := ∅ : gmap Z Routes) as [H1 H2].
  - intros pre ports [key l] ports' Hr _ Ha. destruct (add_route_apart _ _ _ _ Hr Ha). split_and!; [done | done |].
    by eapply add_route_routed.
  - intros pre ports x Hr Hs Ha. by eapply add_route_ok.
  - by apply Forall_true.
  - split_and!; [constructor | |]; intros p; intros; unfold at_port; rewrite lookup_empty; cbn;
      [split; [done |]; intros (? & ?%not_elem_of_nil & _); done |].
    rewrite lookup_empty. split; [done |]. intros (? & ? & ?%not_elem_of_nil & _); done.
  - split; [exact H1 |]. rewrite H2. unfold servable_together. rewrite (Forall_range 0 m (fun x => servable x.2)).
    split.
    + intros (Hs & Hp & _). split; [done |]. intros k1 k2 l1 l2 Hk1 Hk2 Hne.
      apply (pairs_elem apart _ (k1, l1) (k2, l2) Hp); [by apply elem_of_range | by apply elem_of_range | congruence].
    + intros [Hs Hp]. split_and!; [done | | apply Forall_true; intros; constructor].
      pose proof (NoDup_range 0 m) as Hnd.
      assert (forall x, x ∈ range_over 0 m -> m !! x.1 = Some x.2) as Hin by (intros [k l] Hx; by apply elem_of_range in Hx).
      revert Hnd Hin. generalize (range_over 0 m). intros items. induction items as [| x items IH]; intros Hnd Hin; [done |].
      cbn [fmap list_fmap] in Hnd. apply NoDup_cons in Hnd as [Hx Hnd]. split.
      * apply Forall_forall. intros y Hy. apply (Hp x.1 y.1); [apply Hin; left | apply Hin; by right |].
        intros Heq. apply Hx. rewrite Heq. by apply list_elem_of_fmap_2.
      * apply IH; [done |]. intros y Hy. apply Hin. by right.
Qed.

(** The proxy takes exactly the configurations whose listeners it can tell apart, and
    then a connection gets the route of its listener and no other. *)
Lemma New_spec n hold m :
  (is_ok (New n hold m) = true <-> 0 < hold /\ servable_together m) /\
  (forall s, New n hold m = Ok s -> sv_listeners s = m /\ forall p ip key,
     select_route (at_port (sv_ports s) p) ip = Some key <->
     exists l, m !! key = Some l /\ li_proxy_port l = p /\
       (li_frontend_ip l = "" \/ (exists a b, ip = Some a /\ frontend l = Some b /\ ip_key a = ip_key b))).
Proof.
  unfold New. destruct (Z.leb_spec hold 0) as [Hh | Hh]; [split; [split; [done | lia] | done] |].
  destruct (fold_routes (px_order n) m) as [H1 H2]. split.
  - rewrite <-H2. destruct (fold_err add_route ∅ _); cbn; naive_solver.
  - intros s. destruct (fold_err add_route ∅ _) as [ports | e] eqn:E; [| done]. intros [= <-]. cbn. split; [done |].
    destruct (H1 ports eq_refl) as (Hs & He & Hb). pose proof (proj1 H2 eq_refl) as [_ Hap].
    assert (forall k l, (k, l) ∈ range_over (RangeOrder := px_order n) 0 m <-> m !! k = Some l) as Hin by (intros; apply elem_of_range).
    setoid_rewrite Hin in He. setoid_rewrite Hin in Hb. clear Hin H1 H2 E.
    intros p ip key. unfold select_route. destruct (rt_exclusive (at_port ports p)) as [k0 |] eqn:Ex.
    + apply He in Ex as Hl0. destruct Hl0 as (l0 & Hl0 & Hp0 & Hf0). split; [intros [= <-]; eauto |].
      intros (l & Hl & Hp & _). destruct (decide (k0 = key)) as [-> | Hne]; [done |]. exfalso.
      apply (Hap k0 key l0 l Hl0 Hl Hne). split; [congruence | by left].
    + destruct ip as [a |].
      * rewrite Hb. split; [intros (l & b & Hl & Hp & Hf & Hb' & Hk); eauto 10 |].
        intros (l & Hl & Hp & [Hf | (a' & b & [= <-] & Hb' & Hk)]).
        -- assert (rt_exclusive (at_port ports p) = Some key) by (apply He; eauto). congruence.
        -- exists l, b. split_and!; [done | done | | done | done]. intros Hf.
           assert (rt_exclusive (at_port ports p) = Some key) by (apply He; eauto). congruence.
      * split; [done |]. intros (l & Hl & Hp & [Hf | (a & b & [=] & _)]).
        assert (rt_exclusive (at_port ports p) = Some key) by (apply He; eauto). congruence.
Qed.
End New.

(** ** What the server publishes *)

Section Published.
Context {VE : ValidatorEnv} (cfg : Config) (Hvalid : Config_Validate cfg = Ok tt).
#[local] Existing Instance ve_range.

Lemma valid_lb name lb : c_load_balancers cfg !! name = Some lb -> validate_load_balancer lb = Ok tt.
Proof.
  intros Hlb. unfold Config_Validate in Hvalid. rewrite !res_bind_ok in Hvalid.
  destruct Hvalid as (_ & _ & _ & _ & _ & _ & _ & _ & Hlbs & _). rewrite check_all_ok, Forall_range in Hlbs.
  exact (Hlbs name lb Hlb).
Qed.

Lemma valid_port port : validateLoadBalancerPort port = Ok tt <-> 1 <= port <= 65535.
Proof. unfold validateLoadBalancerPort. rewrite refuse_ok, orb_false_iff, !bool_decide_eq_false. lia. Qed.

(** An entry has a valid port; one without a port of its own comes from a frontend. *)
Lemma valid_entry name lb t gs e :
  validate_load_balancer lb = Ok tt -> e ∈ lb_entries cfg name lb t gs ->
  1 <= li_proxy_port (le_listener e) <= 65535 /\
  (if le_exclusive e then li_frontend_ip (le_listener e) = ""
   else if bool_decide (1 < googlePorts cfg (li_proxy_port (le_listener e)))%nat
        then ParseAddr (li_frontend_ip (le_listener e)) <> None else li_frontend_ip (le_listener e) = "").
Proof.
  intros Hv He. unfold validate_load_balancer in Hv. cbv zeta in Hv. unfold lb_entries in He.
  destruct (bool_decide (lbc_provider lb = "aws")).
  - rewrite !res_bind_ok, check_all_ok, Forall_forall in Hv. destruct Hv as (_ & _ & Hv).
    apply list_elem_of_fmap in He as ([[[arn ln] target] proxy] & -> & Hin). specialize (Hv _ Hin). cbn in Hv.
    rewrite !res_bind_ok, !valid_port in Hv. cbn. tauto.
  - destruct (bool_decide (lbc_provider lb = "tunnel")) eqn:Et.
    + apply bool_decide_eq_true in Et. rewrite bool_decide_eq_false_2 in Hv by congruence. rewrite !res_bind_ok, check_all_ok, Forall_forall in Hv.
      destruct Hv as (_ & _ & Hv). apply list_elem_of_fmap in He as ([target proxy] & -> & Hin). specialize (Hv _ Hin). cbn in Hv.
      rewrite !res_bind_ok, !valid_port in Hv. cbn. tauto.
    + destruct (bool_decide (lbc_provider lb = "google")); [| by apply not_elem_of_nil in He].
      rewrite !res_bind_ok, (check_all_ok (lbc_frontends lb)), Forall_forall in Hv. destruct Hv as (_ & _ & _ & _ & Hv).
      apply list_elem_of_fmap in He as ([ip port] & -> & Hin). specialize (Hv _ Hin). cbn in Hv.
      rewrite res_bind_ok, refuse_ok, bool_decide_eq_false, valid_port in Hv.
      destruct (bool_decide (1 < googlePorts cfg port)%nat) eqn:Hg;
        cbn [le_listener le_exclusive li_proxy_port li_frontend_ip]; rewrite Hg; tauto.
Qed.

Lemma valid_listener m k l :
  ProxyConfig cfg = Ok m -> m !! k = Some l ->
  exists e, e ∈ proxy_entries cfg /\ le_key e = k /\ le_listener e = l /\ 1 <= li_proxy_port l <= 65535 /\
  (if le_exclusive e then li_frontend_ip l = ""
   else if bool_decide (1 < googlePorts cfg (li_proxy_port l))%nat then ParseAddr (li_frontend_ip l) <> None else li_frontend_ip l = "").
Proof.
  intros [_ ->]%proxy_config_run Hl. apply listener_entry in Hl as (e & He & Hk & Hle). exists e. do 3 (split; [done |]).
  unfold proxy_entries in He. apply list_elem_of_bind in He as ([name lb] & He & Hlb). apply elem_of_map_to_list in Hlb.
  destruct (tenants_of cfg name) as [| t []]; [by apply not_elem_of_nil in He | | by apply not_elem_of_nil in He].
  rewrite <-Hle. by eapply valid_entry; [eapply valid_lb |].
Qed.

(** Listeners with the same port have a frontend each. *)
Lemma shared_port m k1 k2 l1 l2 :
  ProxyConfig cfg = Ok m -> m !! k1 = Some l1 -> m !! k2 = Some l2 -> k1 <> k2 -> li_proxy_port l1 = li_proxy_port l2 ->
  li_frontend_ip l1 <> "" /\ li_frontend_ip l2 <> "".
Proof.
  intros Hm H1 H2 Hne Hport. destruct (proxy_listeners_disjoint _ cfg m Hm) as [_ Hd]. specialize (Hd k1 k2 l1 l2 H1 H2 Hne Hport).
  destruct (valid_listener m k1 l1 Hm H1) as (e1 & He1 & <- & <- & _ & Hc1).
  destruct (valid_listener m k2 l2 Hm H2) as (e2 & He2 & <- & <- & _ & Hc2).
  pose proof Hm as [Hok _]%proxy_config_run. destruct Hok as [_ _ _ Hpairs].
  destruct (pairs_elem compatible _ e1 e2 Hpairs He1 He2) as (_ & Hex & _); [congruence |].
  destruct (le_exclusive e1); [destruct Hex; auto |]. destruct (le_exclusive e2); [destruct Hex; auto |].
  rewrite <-Hport in Hc2. case_bool_decide; [| congruence]. split; intros Heq; [apply Hc1 | apply Hc2]; by rewrite Heq.
Qed.
End Published.

(** C25. What the server accepts and what the proxy serves.  For a configuration that
    validation accepts, the proxy takes the listeners the server derives from it exactly
    when every frontend address is one without a zone and no two frontends of a port are
    spellings of the same address; the server compares their texts only.  The time
    connections may be held is positive, as the proxy demands.  And when it takes them,
    a connection that came in on a port and an address is routed to a listener exactly
    when that listener has the port and either no frontend address or that very address;
    so there is at most one such listener, and where there is one it gets the
    connection. *)
Theorem published_config_served (VE : ValidatorEnv) (PE : ProxyEnv) (cfg : Config) (m : gmap string Listener) (n : nat) (hold : Z) :
  Config_Validate cfg = Ok tt -> ProxyConfig (RO := ve_range) cfg = Ok m -> 0 < hold ->
  (is_ok (New n hold m) = true <->
   (forall k l, m !! k = Some l -> li_frontend_ip l <> "" -> is_Some (frontend l)) /\
   (forall k1 k2 l1 l2 a b, m !! k1 = Some l1 -> m !! k2 = Some l2 -> k1 <> k2 -> li_proxy_port l1 = li_proxy_port l2 ->
      frontend l1 = Some a -> frontend l2 = Some b -> ip_key a <> ip_key b)) /\
  (forall s, New n hold m = Ok s -> forall p ip key,
     select_route (at_port (sv_ports s) p) ip = Some key <->
     exists l, m !! key = Some l /\ li_proxy_port l = p /\
       (li_frontend_ip l = "" \/ exists a b, ip = Some a /\ frontend l = Some b /\ ip_key a = ip_key b)).
Proof.
  intros Hv Hm Hh. destruct (New_spec n hold m) as [H1 H2]. split.
  - rewrite H1. split.
    + intros [_ [Hs Hc]]. split; [intros k l Hl; by apply (Hs k l Hl) |].
      intros k1 k2 l1 l2 a b Hk1 Hk2 Hne Hp Ha Hb Heq. apply (Hc k1 k2 l1 l2 Hk1 Hk2 Hne). split; [done |]. right. right. eauto.
    + intros [Hz Ha]. split; [done |]. split.
      * intros k l Hl. destruct (valid_listener cfg Hv m k l Hm Hl) as (e & _ & _ & _ & Hp & _). split; [done | by apply (Hz k)].
      * intros k1 k2 l1 l2 Hk1 Hk2 Hne [Hp Hc]. destruct (shared_port cfg Hv m k1 k2 l1 l2 Hm Hk1 Hk2 Hne Hp) as [F1 F2].
        destruct Hc as [Hc | [Hc | (a & b & E1 & E2 & E3)]]; [done | done |]. by apply (Ha k1 k2 l1 l2 a b).
  - intros s Hs. by destruct (H2 s Hs) as [_ H3].
Qed.

(** ** The proxy's sockets *)

Section Server.
Context {PE : ProxyEnv}.

Lemma bind_ports_all n ports opened opened' : bind_ports n ports opened = (opened', None) -> opened' = list_to_set ports ∪ opened.
Proof.
  revert n opened. induction ports as [| p ports IH]; intros n opened; cbn [bind_ports list_to_set foldr]; [intros [= <-]; set_solver |].
  destruct (px_listen n p); [done |]. intros ->%IH. set_solver.
Qed.

Lemma replace_ports (cand : gmap Z Routes) (order : list Z) (ports : gmap Z Routes) (bound : gset Z) (rest : gmap Z Routes) :
  NoDup order -> (forall p, p ∈ order -> rest !! p = cand !! p) ->
  let '(ports', bound', rest') := foldl replace_port (ports, bound, rest) order in
  (forall p, ports' !! p = if decide (p ∈ order) then cand !! p else ports !! p) /\
  (forall p, p ∈ bound' <-> p ∈ bound /\ (p ∈ order -> is_Some (cand !! p))) /\
  (forall p, rest' !! p = if decide (p ∈ order) then None else rest !! p).
Proof.
  revert ports bound rest. induction order as [| q order IH]; intros ports bound rest Hnd Hrest; cbn [foldl].
  { split_and!; [done | | done]. intros p. split; [| tauto]. intros H. split; [done |]. by intros ?%not_elem_of_nil. }
  apply NoDup_cons in Hnd as [Hq Hnd]. specialize (Hrest q ltac:(left)) as Hq'.
  assert (forall ports1 bound1 rest1,
    (forall p, p <> q -> ports1 !! p = ports !! p) -> ports1 !! q = cand !! q ->
    (forall p, p ∈ bound1 <-> p ∈ bound /\ (p = q -> is_Some (cand !! q))) ->
    (forall p, p <> q -> rest1 !! p = rest !! p) -> rest1 !! q = None ->
    let '(ports', bound', rest') := foldl replace_port (ports1, bound1, rest1) order in
    (forall p, ports' !! p = if decide (p ∈ q :: order) then cand !! p else ports !! p) /\
    (forall p, p ∈ bound' <-> p ∈ bound /\ (p ∈ q :: order -> is_Some (cand !! p))) /\
    (forall p, rest' !! p = if decide (p ∈ q :: order) then None else rest !! p)) as Hgo.
  { intros ports1 bound1 rest1 H1 H1q H2 H3 H3q.
    specialize (IH ports1 bound1 rest1 Hnd). destruct (foldl replace_port _ order) as [[ports' bound'] rest'].
    destruct IH as (A & B & C).
    { intros p Hp. rewrite H3 by (intros ->; done). apply Hrest. by right. }
    split_and!; intros p.
    - rewrite A. destruct (decide (p = q)) as [-> | Hne].
      + rewrite (decide_True _ _ (list_elem_of_here q order)), decide_False by done. done.
      + rewrite H1 by done. destruct (decide (p ∈ order)) as [Hin | Hin]; [by rewrite decide_True by (by right) |].
        rewrite decide_False; [done |]. intros [? | ?]%elem_of_cons; done.
    - rewrite B, H2. rewrite elem_of_cons. destruct (decide (p = q)) as [-> | Hne]; naive_solver.
    - rewrite C. destruct (decide (p = q)) as [-> | Hne].
      + rewrite (decide_True _ _ (list_elem_of_here q order)), decide_False by done. done.
      + rewrite H3 by done. destruct (decide (p ∈ order)) as [Hin | Hin]; [by rewrite decide_True by (by right) |].
        rewrite decide_False; [done |]. intros [? | ?]%elem_of_cons; done. }
  cbn [replace_port]. rewrite Hq'. destruct (cand !! q) as [r |] eqn:Eq; apply Hgo.
  - intros p Hne. by rewrite lookup_insert_ne.
  - by rewrite lookup_insert_eq.
  - naive_solver.
  - intros p Hne. by rewrite lookup_delete_ne.
  - apply lookup_delete_eq.
  - intros p Hne. by rewrite lookup_delete_ne.
  - apply lookup_delete_eq.
  - set_solver by naive_solver.
  - done.
  - congruence.
Qed.

(** A started server listens on exactly the ports of its listeners, with their routes. *)
Definition serving (s : Server) : Prop :=
  sv_started s = true /\ sv_bound s = dom (sv_ports s) /\
  exists n cand, New n (sv_hold s) (sv_listeners s) = Ok cand /\ sv_ports s = sv_ports cand.

Lemma New_fields n hold m s : New n hold m = Ok s -> sv_hold s = hold /\ sv_listeners s = m.
Proof. unfold New. destruct (hold <=? 0); [done |]. destruct (fold_err _ _ _); [| done]. by intros [= <-]. Qed.

Lemma Start_serving n0 n hold m s s' : New n0 hold m = Ok s -> Start n s = (s', None) -> serving s' /\ sv_listeners s' = m.
Proof.
  intros Hn. destruct (New_fields _ _ _ _ Hn) as [Hh Hm]. unfold Start. destruct (sv_started s); [done |].
  destruct (bind_ports n _ ∅) as [opened [e |]] eqn:Eb; [done |]. intros [= <-]. apply bind_ports_all in Eb.
  split; [| done]. split; [done |]. split.
  - cbn. rewrite Eb. apply set_eq. intros p. rewrite elem_of_union, elem_of_list_to_set, px_ports_perm, elem_of_elements. set_solver.
  - cbn. rewrite Hm, Hh. eauto.
Qed.

(** [Reconcile] replaces everything, or nothing. *)
Lemma Reconcile_spec n config s s' r :
  serving s -> Reconcile n config s = (s', r) ->
  match r with
  | None => serving s' /\ sv_listeners s' = config
  | Some _ => s' = s
  end.
Proof.
  intros (Hst & Hbd & _). unfold Reconcile. destruct (New n (sv_hold s) config) as [cand | e] eqn:En; [| by intros [= <- <-]].
  destruct (New_fields _ _ _ _ En) as [Hh Hm]. rewrite Hst. cbn [negb].
  destruct (bind_ports n _ ∅) as [added [e |]] eqn:Eb; [by intros [= <- <-] |]. apply bind_ports_all in Eb.
  pose proof (replace_ports (sv_ports cand) (px_ports n (dom (sv_ports s))) (sv_ports s) (sv_bound s) (sv_ports cand)) as Hrep.
  destruct (foldl replace_port _ _) as [[ports bound] rest]. destruct Hrep as (A & B & C).
  { rewrite px_ports_perm. apply NoDup_elements. }
  { done. }
  assert (forall p, p ∈ px_ports n (dom (sv_ports s)) <-> is_Some (sv_ports s !! p)) as Hdom
    by (intros p; by rewrite px_ports_perm, elem_of_elements, elem_of_dom).
  assert (foldl (fun m p => <[p.1 := p.2]> m) ports (map_to_list rest) = sv_ports cand) as Hports.
  { rewrite foldl_insert_union, list_to_map_to_list by apply NoDup_fst_map_to_list. apply map_eq. intros p.
    rewrite lookup_union, A, C. case_decide as Hp; [by rewrite (left_id_L None _) |].
    rewrite Hdom, <-eq_None_not_Some in Hp. rewrite Hp. by rewrite (right_id_L None _). }
  intros [= <- <-]. split; [| done]. split; [done |]. cbn [sv_bound sv_ports sv_hold sv_listeners]. rewrite Hports. split; [| eauto].
  apply set_eq. intros p. rewrite elem_of_union, B, Eb, elem_of_union, elem_of_list_to_set, list_elem_of_filter, Hdom.
  rewrite px_ports_perm, elem_of_elements, Hbd, !elem_of_dom. destruct (sv_ports s !! p) eqn:Es; set_solver by naive_solver.
Qed.
End Server.

(** ** The proxy follows what is published *)

Section Follow.
Context {PE : ProxyEnv} (hold : Z).
Import Control.

(** The snapshots on their way to a client, oldest first. *)
Definition in_flight (st : Stream) : list Snapshot :=
  st_wire st ++ (match st_pc st with Sending sn => [sn] | Waiting => [] end) ++
  (match st_channel st with Some sn => [sn] | None => [] end).

Definition gens (st : Stream) : list Z := sn_generation <$> in_flight st.

(** The configuration the process has last. *)
Definition latest (p : Process) : option (gmap string Listener) :=
  match pr_configs p with
  | Some c => Some c
  | None => match pr_pending p with Some c => Some c | None => sv_listeners <$> pr_server p end
  end.

(** A stream carries ever newer snapshots, the newest being the current one. *)
Record stream_good (y : System) (st : Stream) : Prop := {
  sg_sorted : StronglySorted Z.lt (gens st);
  sg_bound : Forall (fun g => 0 <= g <= sy_generation y) (gens st);
  sg_last : in_flight st <> [] -> last (in_flight st) = Some (sy_snapshot y);
}.

Record system_good (y : System) : Prop := {
  yg_generation : 0 <= sy_generation y /\ sn_generation (sy_snapshot y) = sy_generation y;
  yg_streams : forall id st, sy_streams y !! id = Some st -> (id < sy_next y)%nat /\ stream_good y st;
  yg_process : forall id, pr_stream (sy_process y) = Some id -> (id < sy_next y)%nat;
  yg_previous : forall p, pr_previous (sy_process y) = Some p -> 0 <= p <= sy_generation y;
  yg_reading : forall id st, pr_stream (sy_process y) = Some id -> sy_streams y !! id = Some st ->
    (forall p, pr_previous (sy_process y) = Some p -> Forall (fun g => p < g) (gens st)) /\
    (in_flight st = [] -> latest (sy_process y) = Some (sn_listeners (sy_snapshot y)));
  yg_server : forall s, pr_server (sy_process y) = Some s -> serving s;
  yg_pending : pr_server (sy_process y) = None -> pr_pending (sy_process y) = None;
}.

Lemma initial_good : system_good initial.
Proof. by split. Qed.

Lemma StronglySorted_snoc (l : list Z) x : StronglySorted Z.lt l -> Forall (fun y => y < x) l -> StronglySorted Z.lt (l ++ [x]).
Proof.
  intros Hs Hf. induction Hs as [| y l Hs IH Hy]; cbn; [repeat constructor |]. apply Forall_cons in Hf as [Hyx Hf].
  constructor; [by apply IH |]. apply Forall_app. split; [done | by apply Forall_singleton].
Qed.

Lemma StronglySorted_app_l (l1 l2 : list Z) : StronglySorted Z.lt (l1 ++ l2) -> StronglySorted Z.lt l1.
Proof.
  induction l1 as [| x l1 IH]; cbn; [constructor |]. intros [H1 H2]%StronglySorted_inv. constructor; [by apply IH |].
  by apply Forall_app in H2 as [? _].
Qed.

(** A new publication replaces what is in the channel. *)
Lemma publish_stream cfg y st :
  sy_generation y + 1 < 2 ^ 64 -> system_good y -> stream_good y st -> stream_good (Publish cfg y) {| st with st_channel := Some (sy_snapshot (Publish cfg y)) |}.
Proof.
  intros Hmax Hy [Hs Hb Hl]. set (base := st_wire st ++ (match st_pc st with Sending sn => [sn] | Waiting => [] end)).
  assert (in_flight st = base ++ (match st_channel st with Some sn => [sn] | None => [] end)) as Hbase
    by (unfold base, in_flight; by rewrite app_assoc).
  assert (in_flight {| st with st_channel := Some (sy_snapshot (Publish cfg y)) |} = base ++ [sy_snapshot (Publish cfg y)]) as Hnew
    by (unfold base, in_flight; cbn; by rewrite app_assoc).
  unfold gens in *. rewrite Hbase, fmap_app in Hs, Hb. apply Forall_app in Hb as [Hb _]. apply StronglySorted_app_l in Hs.
  destruct (yg_generation _ Hy) as [H0 _]. assert (sy_generation (Publish cfg y) = sy_generation y + 1) as Hgen
    by (cbn -[Z.modulo Z.pow]; by rewrite Z.mod_small by lia).
  assert (sn_generation (sy_snapshot (Publish cfg y)) = sy_generation y + 1) as Hsn by exact Hgen.
  split; unfold gens; rewrite Hnew, ?fmap_app, ?Hgen; cbn [fmap list_fmap]; rewrite ?Hsn.
  - apply StronglySorted_snoc; [done |]. eapply Forall_impl; [exact Hb |]. cbn. lia.
  - apply Forall_app. split; [eapply Forall_impl; [exact Hb |]; cbn; lia | apply Forall_singleton; cbn; lia].
  - intros _. apply last_snoc.
Qed.

Lemma publish_good cfg y : sy_generation y + 1 < 2 ^ 64 -> system_good y -> system_good (Publish cfg y).
Proof.
  intros Hmax Hy. pose proof Hy as [[H0 Hg] Hst Hpr Hpv Hrd Hsv Hpd].
  assert (forall id st, sy_streams (Publish cfg y) !! id = Some st -> exists st0, sy_streams y !! id = Some st0 /\
    st = {| st0 with st_channel := Some (sy_snapshot (Publish cfg y)) |}) as Hin.
  { intros id st. cbn. rewrite lookup_fmap. intros (st0 & -> & H)%fmap_Some. eauto. }
  assert (sy_generation (Publish cfg y) = sy_generation y + 1) as Hgen
    by (cbn -[Z.modulo Z.pow]; by rewrite Z.mod_small by lia).
  assert (sn_generation (sy_snapshot (Publish cfg y)) = sy_generation y + 1) as Hsn by exact Hgen.
  split; [rewrite Hgen, Hsn; split; [lia | done] | | done | | | done | done].
  - intros id st H. destruct (Hin id st H) as (st0 & H0' & ->). destruct (Hst _ _ H0') as [Hid Hgood]. split; [done |].
    by apply publish_stream.
  - intros p H. specialize (Hpv p H). rewrite Hgen. lia.
  - intros id st H1 H2. destruct (Hin id st H2) as (st0 & H0' & ->). destruct (Hst _ _ H0') as [Hid Hgood]. split.
    + intros p Hp. destruct (Hrd id st0 H1 H0') as [Hprev _]. specialize (Hprev p Hp). specialize (Hpv p Hp).
      unfold gens, in_flight in *. cbn. rewrite !fmap_app in *. rewrite !Forall_app in *. destruct Hprev as (A & B & _).
      split_and!; [done | done |]. apply Forall_singleton. fold (Publish cfg y). change (p < sn_generation (sy_snapshot (Publish cfg y))). lia.
    + unfold in_flight. cbn. intros H%(f_equal length). rewrite !length_app in H. cbn in H. lia.
Qed.
Lemma stream_good_same y y' st :
  sy_generation y' = sy_generation y -> sy_snapshot y' = sy_snapshot y -> stream_good y st -> stream_good y' st.
Proof. intros Hg Hs [A B C]. split; [done | by rewrite Hg | by rewrite Hs]. Qed.

(** A stream that passes a snapshot on has the same ones on their way. *)
Lemma set_stream_good id st st' y :
  sy_streams y !! id = Some st -> in_flight st' = in_flight st -> system_good y -> system_good (set_stream id st' y).
Proof.
  intros Hid Hfl Hy. destruct Hy as [Hg Hst Hpr Hpv Hrd Hsv Hpd].
  assert (forall id' st1, sy_streams (set_stream id st' y) !! id' = Some st1 ->
    exists st0, sy_streams y !! id' = Some st0 /\ in_flight st1 = in_flight st0) as Hin.
  { intros id' st1. cbn. destruct (decide (id = id')) as [<- | Hne];
      [rewrite lookup_insert_eq; intros [= <-]; eauto | rewrite lookup_insert_ne by done; eauto]. }
  split; try done.
  - intros id' st1 H. destruct (Hin _ _ H) as (st0 & H0 & Heq). destruct (Hst _ _ H0) as [Hlt [A B C]]. split; [done |].
    split; unfold gens; rewrite Heq; done.
  - intros id' st1 H1 H2. destruct (Hin _ _ H2) as (st0 & H0 & Heq). unfold gens. rewrite Heq. by apply (Hrd id' st0).
Qed.

(** Steps of the process that keep its stream and its latest configuration. *)
Lemma set_process_good p y :
  system_good y ->
  (pr_stream p = None \/
   pr_stream p = pr_stream (sy_process y) /\ pr_previous p = pr_previous (sy_process y) /\ latest p = latest (sy_process y)) ->
  (forall g, pr_previous p = Some g -> pr_previous (sy_process y) = Some g) ->
  (forall s, pr_server p = Some s -> serving s) -> (pr_server p = None -> pr_pending p = None) ->
  system_good (set_process p y).
Proof.
  intros [Hg Hst Hpr Hpv Hrd Hsv Hpd] Hp Hpp Hs Hn. split; cbn; try done.
  - intros id st H. destruct (Hst _ _ H). split; [done | by apply (stream_good_same y)].
  - intros id Hid. destruct Hp as [Hp | (Hp & _)]; [congruence |]. apply Hpr. congruence.
  - intros g H. by apply Hpv, Hpp.
  - intros id st Hid Hs1. destruct Hp as [Hp | (Hp & Hp2 & Hp3)]; [congruence |].
    rewrite Hp2, Hp3. apply (Hrd id st); [congruence | done].
Qed.

Lemma start_good n y : system_good y -> system_good (set_process (start_server hold n (sy_process y)) y).
Proof.
  intros Hy. pose proof Hy as [_ _ _ _ _ Hsv Hpd]. unfold start_server.
  destruct (pr_server (sy_process y)) as [s |] eqn:Es; [apply set_process_good; naive_solver |].
  destruct (pr_configs (sy_process y)) as [cfg |] eqn:Ec; [| apply set_process_good; naive_solver].
  destruct (New n hold cfg) as [s |] eqn:En; [| apply set_process_good; cbn; naive_solver].
  destruct (Start n s) as [s' [e |]] eqn:Est; [apply set_process_good; cbn; naive_solver |].
  destruct (Start_serving _ _ _ _ _ _ En Est) as [H1 H2]. apply set_process_good; cbn; [done | | done | naive_solver | done].
  right. unfold latest. cbn. rewrite Ec, Hpd by done. cbn. by rewrite H2.
Qed.

Lemma next_good y : system_good y -> system_good (set_process (next_config (sy_process y)) y).
Proof.
  intros Hy. pose proof Hy as [_ _ _ _ _ Hsv Hpd]. unfold next_config.
  destruct (pr_server (sy_process y)) as [s |] eqn:Es; [| apply set_process_good; naive_solver].
  destruct (pr_configs (sy_process y)) as [cfg |] eqn:Ec; [| apply set_process_good; naive_solver].
  apply set_process_good; cbn; [done | | done | naive_solver | congruence]. right. unfold latest. cbn. by rewrite Ec.
Qed.

Lemma retry_good n y : system_good y -> system_good (set_process (retry_pending n (sy_process y)) y).
Proof.
  intros Hy. pose proof Hy as [_ _ _ _ _ Hsv Hpd]. unfold retry_pending.
  destruct (pr_server (sy_process y)) as [s |] eqn:Es; [| apply set_process_good; naive_solver].
  destruct (pr_pending (sy_process y)) as [cfg |] eqn:Ec; [| apply set_process_good; naive_solver].
  destruct (Reconcile n cfg s) as [s' [e |]] eqn:Er; apply (Reconcile_spec n cfg s) in Er; [| by apply Hsv | | by apply Hsv].
  - subst s'. apply set_process_good; cbn; [done | | done | naive_solver | congruence]. right. unfold latest. cbn. by rewrite Ec.
  - destruct Er as [H1 H2]. apply set_process_good; cbn; [done | | done | naive_solver | congruence].
    right. unfold latest. cbn. rewrite Ec. destruct (pr_configs _); [done |]. by rewrite H2.
Qed.

(** The next snapshot on the wire is newer than the last one received. *)
Lemma receive_in_order y id st sn rest :
  system_good y -> pr_stream (sy_process y) = Some id -> sy_streams y !! id = Some st -> st_wire st = sn :: rest ->
  check_generation (pr_previous (sy_process y)) (sn_generation sn) = Ok (sn_generation sn).
Proof.
  intros [_ _ _ Hpv Hrd _ _] Hid Hst Hw. unfold check_generation. destruct (pr_previous (sy_process y)) as [p |] eqn:Ep; [| done].
  destruct (Hrd id st Hid Hst) as [H _]. specialize (H p eq_refl). specialize (Hpv p eq_refl).
  unfold gens, in_flight in H. rewrite Hw in H. cbn in H. apply Forall_cons in H as [H _].
  rewrite (proj2 (Z.eqb_neq _ _)), (proj2 (Z.leb_gt _ _)) by lia. done.
Qed.

Lemma receive_good y id st sn rest :
  system_good y -> pr_stream (sy_process y) = Some id -> sy_streams y !! id = Some st -> st_wire st = sn :: rest ->
  system_good (set_process (receive sn (sy_process y)) (set_stream id {| st with st_wire := rest |} y)).
Proof.
  intros Hy Hid Hst Hw. pose proof (receive_in_order y id st sn rest Hy Hid Hst Hw) as Hok.
  unfold receive. rewrite Hok. destruct Hy as [Hg Hall Hpr Hpv Hrd Hsv Hpd].
  set (st' := {| st with st_wire := rest |}).
  assert (in_flight st = sn :: in_flight st') as Hfl by (unfold in_flight; rewrite Hw; done).
  destruct (Hall _ _ Hst) as [Hlt [A B C]]. unfold gens in A, B. rewrite Hfl in A, B. cbn in A, B.
  apply StronglySorted_inv in A as [A1 A2]. apply Forall_cons in B as [B1 B2].
  assert (stream_good y st') as Hgood.
  { split; [done | done |]. intros Hne. rewrite Hfl in C. specialize (C ltac:(done)).
    destruct (in_flight st') as [| x l] eqn:E; [done |]. by rewrite <-C. }
  split; cbn; try done.
  - intros id' st1. destruct (decide (id = id')) as [<- | Hne]; [rewrite lookup_insert_eq; intros [= <-]; split; [done | by apply (stream_good_same y)] |].
    rewrite lookup_insert_ne by done. intros H. destruct (Hall _ _ H). split; [done | by apply (stream_good_same y)].
  - by intros p [= <-].
  - intros id' st1 Hid'. replace id' with id by congruence. rewrite lookup_insert_eq. intros [= <-]. split; [by intros p [= <-] |].
    intros Hnil. unfold latest. cbn. rewrite Hfl, Hnil in C. specialize (C ltac:(done)). cbn in C. by injection C as ->.
Qed.

Lemma step_good y y' :
  step hold y y' -> (forall cfg, y' <> Publish cfg y) -> system_good y ->
  system_good y' /\ sy_generation y' = sy_generation y.
Proof.
  intros Hstep Hpub Hy. split; [|by destruct Hstep; try done; destruct (Hpub cfg)]. destruct Hstep as [y cfg | y Hn | y id st sn H1 H2 | y id st sn H1 H2 H3 | y id | y id st sn rest H1 H2 H3 | y | y | y | y].
  - by destruct (Hpub cfg).
  - destruct Hy as [Hg Hst Hpr Hpv Hrd Hsv Hpd]. destruct Hg as [Hg0 Hg1].
    split; cbn; [done | | intros id [= <-]; lia | done | | done | done].
    + intros id st. destruct (decide (sy_next y = id)) as [<- | Hne].
      * rewrite lookup_insert_eq. intros [= <-]. split; [lia |]. split; cbn.
        -- repeat constructor.
        -- apply Forall_singleton. lia.
        -- done.
      * rewrite lookup_insert_ne by done. intros H. destruct (Hst _ _ H) as [Hlt [A B C]]. split; [lia | by split].
    + intros id st [= <-]. rewrite lookup_insert_eq. intros [= <-]. by split.
  - eapply set_stream_good; [done | | done]. unfold in_flight. cbn. rewrite H2. by rewrite <-!app_assoc.
  - eapply set_stream_good; [done | | done]. unfold in_flight. cbn. rewrite H2, H3. done.
  - destruct Hy as [Hg Hst Hpr Hpv Hrd Hsv Hpd]. split; cbn; try done; intros id' st.
    + intros [_ H]%lookup_delete_Some. destruct (Hst _ _ H). split; [done | by apply (stream_good_same y)].
    + intros H0 [_ H]%lookup_delete_Some. by apply (Hrd id').
  - by apply (receive_good y id st sn rest).
  - pose proof Hy as [_ _ _ _ _ Hsv Hpd]. apply set_process_good; cbn; auto.
  - by apply start_good.
  - by apply next_good.
  - by apply retry_good.
Qed.

Lemma publish_counts cfg y : sy_generation (Publish cfg y) <> sy_generation y.
Proof.
  cbn -[Z.modulo Z.pow]. intros H. pose proof (Z.mod_pos_bound (sy_generation y + 1) (2 ^ 64) ltac:(lia)).
  rewrite H in *. destruct (decide (sy_generation y + 1 = 2 ^ 64)) as [E |]; [by rewrite E, Z_mod_same_full in H; lia |].
  rewrite Z.mod_small in H; lia.
Qed.

(** Every interleaving is a run with some number of publications. *)
Lemma steps_run y y' : rtc (step hold) y y' -> exists k, run hold k y y'.
Proof.
  intros Hr. refine (rtc_ind_r (fun y' => exists k, run hold k y y') y _ _ y' Hr); [exists 0; constructor |].
  clear. intros y1 y2 _ Hstep [k IH].
  assert (forall cfg, sy_generation y2 = sy_generation y1 -> y2 <> Publish cfg y1) as Hne
    by (intros cfg Hg ->; by apply publish_counts in Hg).
  destruct Hstep; [exists (k + 1); by constructor | ..];
    (exists k; eapply run_step; [exact IH | by econstructor | intros cfg; by apply Hne]).
Qed.

(** While the counter has not wrapped, its value is the number of publications. *)
Lemma publication_run_good k y : run hold k initial y -> k < 2 ^ 64 -> system_good y /\ sy_generation y = k.
Proof.
  intros Hr. remember initial as y0 eqn:Hi. induction Hr as [y | k y y1 cfg Hr IH | k y y1 y2 Hr IH Hstep Hpub]; intros Hk; subst.
  - split; [apply initial_good | done].
  - destruct IH as [Hy Hg]; [done | lia |]. split; [by apply publish_good; [lia |] |].
    cbn -[Z.modulo Z.pow]. rewrite Hg, Z.mod_small; [done |]. destruct (yg_generation _ Hy) as [H0 _]. lia.
  - destruct IH as [Hy Hg]; [done | done |]. destruct (step_good _ _ Hstep Hpub Hy) as [Hy2 Hg2]. split; [done | lia].
Qed.

(** C24. The proxy follows what the server publishes.  In every interleaving of fewer
    than 2^64 publications (the generation is a 64-bit counter, and a wrapped one would
    be refused) with streams, disconnections, restarts of the proxy and failing binds: a
    snapshot that arrives is never refused as out of order; a started proxy listens on
    exactly the ports of the listeners it has; and when the stream the proxy reads has
    nothing on its way and the proxy nothing to apply, its listeners are exactly those
    of the last publication. *)
Theorem proxy_follows_server k y :
  run hold k initial y -> k < 2 ^ 64 ->
  (forall s, pr_server (sy_process y) = Some s -> serving s) /\
  forall id st, pr_stream (sy_process y) = Some id -> sy_streams y !! id = Some st ->
    (forall sn rest, st_wire st = sn :: rest -> is_ok (check_generation (pr_previous (sy_process y)) (sn_generation sn)) = true) /\
    (in_flight st = [] -> pr_configs (sy_process y) = None -> pr_pending (sy_process y) = None ->
     exists s, pr_server (sy_process y) = Some s /\ sv_listeners s = sn_listeners (sy_snapshot y)).
Proof.
  intros Hr Hk. destruct (publication_run_good k y Hr Hk) as [Hy _].
  split; [apply (yg_server _ Hy) |]. intros id st Hid Hst. split.
  - intros sn rest Hw. by rewrite (receive_in_order y id st sn rest).
  - intros Hnil Hc Hp. destruct (yg_reading _ Hy id st Hid Hst) as [_ H]. specialize (H Hnil). unfold latest in H.
    rewrite Hc, Hp in H. apply fmap_Some in H as (s & -> & ->). eauto.
Qed.
End Follow.

(** ** The answer to a wake *)

Section Wake.
Context {WE : Handler.WakeEnv}.
Import Handler.

(** Between the observations [n] and [n'], an instance of the group was seen in the
    store, healthy since [freshAfter], and answered at the address. *)
Definition seen_ready (l : Listener) (freshAfter : Z) (group addr : string) (n n' : nat) : Prop :=
  exists n0 n1 n2 row i t ip,
    (n <= n0 < n1)%nat /\ (n1 < n2 < n')%nat /\
    row ∈ LocalDB.group_rows (li_tenant l) group true (wk_db n0) /\
    LocalDB.GetInstance (i_id row) (wk_db n1) = Ok i /\ i_health_at i = Some t /\ freshAfter <= t /\
    i_ip4 i = Some ip /\ ParseIP ip <> None /\ addr = JoinHostPort ip (Itoa (li_target_port l)) /\ wk_dial n2 addr = true.

Lemma usable_inv l freshAfter r addr :
  usable l freshAfter r = Some addr ->
  exists i t ip, r = Ok i /\ i_health_at i = Some t /\ freshAfter <= t /\ i_ip4 i = Some ip /\ ParseIP ip <> None /\
    addr = JoinHostPort ip (Itoa (li_target_port l)).
Proof.
  unfold usable. destruct r as [i | e]; [| done]. destruct (i_health_at i) as [t |] eqn:Et; [| done].
  destruct (i_ip4 i) as [ip |] eqn:Ei; [| done].
  destruct (bool_decide (t < freshAfter)) eqn:E1; cbn [orb]; [done |]. destruct (bool_decide (ParseIP ip = None)) eqn:E2; [done |].
  apply bool_decide_eq_false in E1, E2. intros [= <-]. exists i, t, ip. split_and!; [done | done | lia | done | done | done].
Qed.

Lemma query_run {A} (f : DB -> res A) n : exists r, query f n = (S n, Some (Ok r)) /\ forall a, r = Ok a -> f (wk_db n) = Ok a.
Proof. unfold query, observe. eexists. split; [done |]. intros a. by destruct (wk_db_fault n). Qed.

(** One of the instances [ids] was seen healthy at [n1] and answered at [n2]. *)
Definition instance_ready (l : Listener) (freshAfter : Z) (ids : list string) (addr : string) (n n' : nat) : Prop :=
  exists n1 n2 id i t ip, (n <= n1)%nat /\ (n1 < n2 < n')%nat /\ id ∈ ids /\
    LocalDB.GetInstance id (wk_db n1) = Ok i /\ i_health_at i = Some t /\ freshAfter <= t /\
    i_ip4 i = Some ip /\ ParseIP ip <> None /\ addr = JoinHostPort ip (Itoa (li_target_port l)) /\ wk_dial n2 addr = true.

Lemma try_instances_found l freshAfter ids n n' addr :
  try_instances l freshAfter ids n = (n', Some (Ok (Some addr))) -> instance_ready l freshAfter ids addr n n'.
Proof.
  revert n. induction ids as [| id ids IH]; intros n; cbn [try_instances]; [done |].
  rewrite x_bind_eq. destruct (query_run (LocalDB.GetInstance id) n) as (r & -> & Hr).
  assert (forall m, (S n <= m)%nat -> try_instances l freshAfter ids m = (n', Some (Ok (Some addr))) ->
    instance_ready l freshAfter (id :: ids) addr n n') as Hnext.
  { intros m Hm H. destruct (IH m H) as (n1 & n2 & id' & i & t & ip & H1 & H2 & H3 & H4).
    exists n1, n2, id', i, t, ip. split; [lia |]. split; [done |]. split; [by right | exact H4]. }
  destruct (usable l freshAfter r) as [address |] eqn:Eu; [| by apply Hnext].
  rewrite x_bind_eq. cbn [observe]. destruct (wk_dial (S n) address) eqn:Ed; [| apply Hnext; lia].
  intros [= <- <-]. apply usable_inv in Eu as (i & t & ip & -> & Hu).
  exists n, (S n), id, i, t, ip. split; [lia |]. split; [lia |]. split; [left |]. split; [by apply Hr |]. naive_solver.
Qed.

Lemma try_instances_advances l freshAfter ids n : (n <= (try_instances l freshAfter ids n).1)%nat.
Proof.
  revert n. induction ids as [| id ids IH]; intros n; cbn [try_instances]; [done |].
  rewrite x_bind_eq. destruct (query_run (LocalDB.GetInstance id) n) as (r & -> & _).
  destruct (usable _ _ _); [| etrans; [| apply IH]; lia]. rewrite x_bind_eq. cbn [observe].
  destruct (wk_dial _ _); [cbn; lia |]. etrans; [| apply IH]. lia.
Qed.

Lemma try_groups_found l freshAfter groups n n' addr :
  try_groups l freshAfter groups n = (n', Some (Ok (Some addr))) -> exists group, group ∈ groups /\ seen_ready l freshAfter group addr n n'.
Proof.
  revert n. induction groups as [| group groups IH]; intros n; cbn [try_groups]; [done |].
  rewrite x_bind_eq. destruct (query_run (fun db => Ok (LocalDB.GetInstancesByGroup (li_tenant l) group true db)) n) as (r & -> & Hr).
  destruct r as [ids | e]; [| done]. specialize (Hr ids eq_refl). injection Hr as Hids. rewrite x_bind_eq.
  pose proof (try_instances_advances l freshAfter ids (S n)) as Hadv.
  destruct (try_instances l freshAfter ids (S n)) as [n1 [[[a |] | e] |]] eqn:E; [| | done | done].
  - intros [= <- <-]. apply try_instances_found in E as (m1 & m2 & id & i & t & ip & H1 & H2 & Hin & H3).
    exists group. split; [left |]. rewrite <-Hids in Hin. unfold LocalDB.GetInstancesByGroup in Hin.
    apply list_elem_of_fmap in Hin as (row & -> & Hrow).
    exists n, m1, m2, row, i, t, ip. split; [lia |]. split; [lia |]. split; [| exact H3].
    unfold order_by in Hrow. by rewrite merge_sort_Permutation in Hrow.
  - intros H. destruct (IH n1 H) as (g & Hg & n0 & m1 & m2 & row & i & t & ip & H1 & H2 & H3). cbn in Hadv.
    exists g. split; [by right |]. exists n0, m1, m2, row, i, t, ip. split; [lia |]. split; [lia | exact H3].
Qed.

Lemma try_groups_advances l freshAfter groups n : (n <= (try_groups l freshAfter groups n).1)%nat.
Proof.
  revert n. induction groups as [| group groups IH]; intros n; cbn [try_groups]; [done |].
  rewrite x_bind_eq. destruct (query_run (fun db => Ok (LocalDB.GetInstancesByGroup (li_tenant l) group true db)) n) as (r & -> & _).
  destruct r as [ids | e]; [| cbn; lia]. rewrite x_bind_eq. pose proof (try_instances_advances l freshAfter ids (S n)) as Hadv.
  destruct (try_instances l freshAfter ids (S n)) as [n1 [[[a |] | e] |]]; cbn in Hadv |- *; [lia | | lia | lia].
  etrans; [| apply IH]. lia.
Qed.

Lemma waitForUpstream_found fuel l freshAfter n n' addr :
  waitForUpstream fuel l freshAfter n = (n', Some (Ok addr)) -> exists group, group ∈ li_groups l /\ seen_ready l freshAfter group addr n n'.
Proof.
  revert n. induction fuel as [| fuel IH]; intros n; cbn [waitForUpstream]; [done |]. rewrite x_bind_eq.
  pose proof (try_groups_advances l freshAfter (li_groups l) n) as Hadv.
  destruct (try_groups l freshAfter (li_groups l) n) as [n1 [[[a |] | e] |]] eqn:E; [| | done | done].
  - intros [= <- <-]. by apply try_groups_found in E.
  - rewrite x_bind_eq. cbn [observe]. destruct (wk_select n1); [done |]. intros H. cbn in Hadv.
    destruct (IH (S n1) H) as (g & Hg & n0 & m1 & m2 & row & i & t & ip & H1 & H2 & H3). exists g. split; [done |].
    exists n0, m1, m2, row, i, t, ip. split; [lia |]. split; [lia | exact H3].
Qed.

(** What a wake that was asked for at the observation [n] and answered means: the
    listener is configured, its tenant was woken or awake, and after that an instance of
    one of its groups reported that it is healthy and accepted a connection. *)
Definition woken (listenerID : string) (r : WakeResult) (addr : string) (n n' : nat) : Prop :=
  exists listeners l awake group,
    wk_config n = Ok listeners /\ listeners !! listenerID = Some l /\
    wk_wake (S n) (li_tenant l) = Ok awake /\ r = (if awake : bool then RESULT_ALREADY_AWAKE else RESULT_WOKE) /\
    group ∈ li_groups l /\ seen_ready l (wk_now (S (S n))) group addr (S (S (S n))) n'.

Lemma WakeListener_woken fuel id n n' r addr : WakeListener fuel id n = (n', Some (Ok (r, addr))) -> woken id r addr n n'.
Proof.
  unfold WakeListener. case_bool_decide; [done |]. rewrite x_bind_eq. cbn [observe].
  destruct (wk_config n) as [listeners | e] eqn:Ec; [| done]. destruct (listeners !! id) as [l |] eqn:El; [| done].
  rewrite x_bind_eq, x_try_eq. unfold WakeAndWait. rewrite x_bind_eq. cbn [observe].
  destruct (wk_wake (S n) (li_tenant l)) as [awake | e] eqn:Ew.
  2:{ rewrite x_bind_eq. cbn. rewrite x_bind_eq. cbn. destruct (wk_ctx (S (S n))); done. }
  rewrite x_bind_eq. cbn [x_res mret M_ret]. rewrite x_bind_eq, x_bind_eq. cbn [observe].
  destruct (waitForUpstream fuel l (wk_now (S (S n))) (S (S (S n)))) as [n1 [[a | e] |]] eqn:Ew2; [| | done].
  - intros [= <- <- <-]. apply waitForUpstream_found in Ew2 as (group & Hg & Hs). exists listeners, l, awake, group. done.
  - rewrite x_bind_eq. cbn. destruct (wk_ctx n1); done.
Qed.

(** The search of one round always returns. *)
Lemma try_instances_returns l freshAfter ids n : is_Some (try_instances l freshAfter ids n).2.
Proof.
  revert n. induction ids as [| id ids IH]; intros n; cbn [try_instances]; [by eexists |].
  rewrite x_bind_eq. destruct (query_run (LocalDB.GetInstance id) n) as (r & -> & _).
  destruct (usable _ _ _); [| apply IH]. rewrite x_bind_eq. cbn [observe]. destruct (wk_dial _ _); [by eexists | apply IH].
Qed.

Lemma try_groups_returns l freshAfter groups n : is_Some (try_groups l freshAfter groups n).2.
Proof.
  revert n. induction groups as [| group groups IH]; intros n; cbn [try_groups]; [by eexists |].
  rewrite x_bind_eq. destruct (query_run (fun db => Ok (LocalDB.GetInstancesByGroup (li_tenant l) group true db)) n) as (r & -> & _).
  destruct r as [ids | e]; [| by eexists]. rewrite x_bind_eq. pose proof (try_instances_returns l freshAfter ids (S n)) as [r Hr].
  destruct (try_instances l freshAfter ids (S n)) as [n1 o]. cbn in Hr. subst o. destruct r as [[a |] | e]; [by eexists | apply IH | by eexists].
Qed.

(** A wait whose context is done from the observation [last] on ends with that many
    rounds, whatever the store and the dials answer. *)
Lemma waitForUpstream_returns last fuel l freshAfter n :
  (forall k, (last <= k)%nat -> wk_select k <> None) -> (0 < fuel)%nat -> (last < fuel + n)%nat ->
  is_Some (waitForUpstream fuel l freshAfter n).2.
Proof.
  intros Hdone. revert n. induction fuel as [| fuel IH]; intros n H0 Hf; cbn [waitForUpstream]; [lia |]. rewrite x_bind_eq.
  pose proof (try_groups_advances l freshAfter (li_groups l) n) as Hadv. pose proof (try_groups_returns l freshAfter (li_groups l) n) as [r Hr].
  destruct (try_groups l freshAfter (li_groups l) n) as [n1 o]. cbn in Hadv, Hr. subst o. destruct r as [[a |] | e]; [by eexists | | by eexists].
  rewrite x_bind_eq. cbn [observe]. destruct (wk_select n1) eqn:Es; [by eexists |].
  assert (n1 < last)%nat by (destruct (decide (last <= n1)%nat) as [Hl |]; [by destruct (Hdone n1 Hl) | lia]). apply IH; lia.
Qed.

(** Every wake is answered once its context is done. *)
Lemma WakeListener_returns last fuel id n :
  (forall k, (last <= k)%nat -> wk_select k <> None) -> (last < fuel)%nat -> is_Some (WakeListener fuel id n).2.
Proof.
  intros Hdone Hf. unfold WakeListener. case_bool_decide; [by eexists |]. rewrite x_bind_eq. cbn [observe].
  destruct (wk_config n) as [listeners | e]; [| by eexists]. destruct (listeners !! id) as [l |]; [| by eexists].
  rewrite x_bind_eq, x_try_eq. unfold WakeAndWait. rewrite x_bind_eq. cbn [observe].
  destruct (wk_wake (S n) (li_tenant l)) as [awake | e].
  2:{ rewrite x_bind_eq. cbn. rewrite x_bind_eq. cbn. by destruct (wk_ctx (S (S n))); eexists. }
  rewrite x_bind_eq. cbn [x_res mret M_ret]. rewrite x_bind_eq, x_bind_eq. cbn [observe].
  destruct (waitForUpstream_returns last fuel l (wk_now (S (S n))) (S (S (S n)))) as [r Hr]; [done | lia | lia |].
  destruct (waitForUpstream fuel l _ _) as [n1 o]. cbn in Hr. subst o. destruct r as [a | e]; [by eexists |].
  rewrite x_bind_eq. cbn. by destruct (wk_ctx n1); eexists.
Qed.

Lemma Wake_woken fuel id n n' addr : Wake fuel id n = (n', Some (Ok addr)) -> exists r, woken id r addr n n'.
Proof.
  unfold Wake. rewrite x_bind_eq. destruct (WakeListener fuel id n) as [n1 [[[r a] | e] |]] eqn:E; [| done | done].
  cbn. case_bool_decide; [done |]. intros [= <- <-]. exists r. by eapply WakeListener_woken.
Qed.
End Wake.

(** ** Connections *)

Section Connection.
Context {PE : ProxyEnv} {WE : Handler.WakeEnv}.
Import Handler.

(** What the proxy is answered when it asks at the observation [n]. *)
Definition answer (fuel n : nat) (listener : string) : res string :=
  match (Wake fuel listener n).2 with Some r => r | None => Err (ErrMsg "context deadline exceeded") end.

(** C23. A connection reaches the right tenant, awake.  A connection that sends nothing,
    as a load balancer's health check does, wakes nobody.  One that does wakes only the
    listener of its port and address among those the proxy serves; the proxy dials only
    an address at which, after that tenant was woken, an instance of one of the
    listener's groups with a healthy report newer than the wake accepted a connection;
    it does not dial past the time it may hold the connection; and what it forwards
    first is what the client sent. *)
Theorem proxied_connection_ready (s : Server) (dialTimeout : Z) (port : Z) (localIP : option Addr) (payload : option string)
    (fuel n : nat) (dial : string -> bool) (accepted answered : Z) :
  serving s ->
  let actions := handleConnection (sv_hold s) dialTimeout (at_port (sv_ports s) port) localIP payload (answer fuel n) dial accepted answered in
  (payload = None \/ payload = Some "" -> actions = []) /\
  (forall key t, CWake key t ∈ actions ->
     exists l, sv_listeners s !! key = Some l /\ li_proxy_port l = port /\
       (li_frontend_ip l = "" \/ exists a b, localIP = Some a /\ frontend l = Some b /\ ip_key a = ip_key b)) /\
  (forall addr t, CDial addr t ∈ actions ->
     t <= dialTimeout /\ answered + t <= accepted + sv_hold s /\
     exists key d r n', CWake key d ∈ actions /\ woken key r addr n n') /\
  (forall data, CForward data ∈ actions -> payload = Some data /\ exists addr t, CDial addr t ∈ actions /\ dial addr = true).
Proof.
  intros (_ & _ & n0 & cand & Hnew & Hports) actions. destruct (proj2 (New_spec n0 (sv_hold s) (sv_listeners s)) cand Hnew) as [_ Hroute].
  assert (forall key, select_route (at_port (sv_ports s) port) localIP = Some key -> _) as Hsel by
    (intros key Hk; rewrite Hports in Hk; exact (proj1 (Hroute port localIP key) Hk)).
  split.
  - by intros [-> | ->].
  - unfold actions, handleConnection. clear actions.
    destruct payload as [data |]; [| split_and!; intros *; by intros ?%not_elem_of_nil].
    case_bool_decide; [split_and!; intros *; by intros ?%not_elem_of_nil |].
    destruct (select_route _ localIP) as [key |]; [| split_and!; intros *; by intros ?%not_elem_of_nil].
    specialize (Hsel key eq_refl).
    destruct (answer fuel n key) as [addr | e] eqn:Ea.
    + assert (exists r n', woken key r addr n n') as (r & n' & Hw).
      { unfold answer in Ea. destruct (Wake fuel key n) as [n' [r |]] eqn:Ew; cbn in Ea; [subst r | done].
        apply Wake_woken in Ew as [r Hw]. eauto. }
      destruct (Z.leb_spec (accepted + sv_hold s - answered) 0); destruct (dial addr) eqn:Ed;
        split_and!; intros *; rewrite ?elem_of_cons, ?elem_of_nil; intros Hin; destruct_or?; simplify_eq/=;
        split_and?; try lia; try done; set_solver.
    + split_and!; intros *; rewrite elem_of_cons, elem_of_nil; naive_solver.
Qed.
End Connection.

(** ** Concrete runs *)

From S2P Require Import Samples Witnesses ValidationWitnesses.

Module ProxyWitnesses.
Import Control Handler.

#[local] Instance demo_proxy : ProxyEnv := {|
  px_order := fun _ => demo_order;
  px_ports := fun _ s => elements s;
  px_ports_perm := fun _ s => reflexivity _;
  px_listen := fun _ _ => None;
|}.

(** The listeners of the two tenants are served, each connection by its own tenant. *)
Lemma served_witness :
  Config_Validate parsed = Ok tt /\ ProxyConfig parsed = Ok listeners /\ is_ok (New 0 second listeners) = true /\
  forall s, New 0 second listeners = Ok s ->
    select_route (at_port (sv_ports s) 8080) (ParseIP "192.0.2.9") = Some "g-b/192.0.2.9:8080" /\
    select_route (at_port (sv_ports s) 8080) (ParseIP "192.0.2.10") <> Some "g-b/192.0.2.9:8080".
Proof.
  assert (ProxyConfig parsed = Ok listeners) as Hp by (vm_compute; reflexivity).
  split; [exact parsed_valid |]. split; [exact Hp |]. split; [vm_compute; reflexivity |]. intros s Hs.
  pose proof (proj2 (published_config_served demo_validator demo_proxy parsed listeners 0 second parsed_valid Hp eq_refl) s Hs) as Hr.
  assert (exists l1, listeners !! "g-b/192.0.2.9:8080" = Some l1 /\ li_proxy_port l1 = 8080 /\
    exists b, frontend l1 = Some b /\ (ip_key <$> ParseIP "192.0.2.9") = Some (ip_key b) /\
      (ip_key <$> ParseIP "192.0.2.10") <> Some (ip_key b) /\ li_frontend_ip l1 <> "") as (l1 & Hl1 & Hport & b & Hb & Hsame & Hother & Hne).
  { eexists. split; [vm_compute; reflexivity |]. split; [reflexivity |]. eexists. split; [vm_compute; reflexivity |].
    split; [vm_compute; reflexivity |]. split; vm_compute; discriminate. }
  split.
  - apply Hr. exists l1. split; [exact Hl1 |]. split; [exact Hport |]. right.
    apply fmap_Some in Hsame as (a & Ha & Hk). exists a, b. split; [exact Ha |]. split; [exact Hb | congruence].
  - intros Hsel. apply Hr in Hsel as (l & Hl & _ & Hf). rewrite Hl1 in Hl. injection Hl as <-.
    destruct Hf as [Hf | (a & b' & Ha & Hb' & Hk)]; [exact (Hne Hf) |].
    apply Hother. rewrite Ha. rewrite Hb in Hb'. injection Hb' as <-. cbn. rewrite Hk. reflexivity.
Defined.

(** Two spellings of one frontend pass validation and are published; the proxy refuses
    the whole configuration. *)
Definition aliased : Config :=
  {| parsed with c_load_balancers := <["g-a" := mkLoadBalancerConfig "google" [] ["neg-a"] [("2001:db8::8", 8080)] []]>
      (<["g-b" := mkLoadBalancerConfig "google" [] ["neg-b"] [("2001:db8:0::8", 8080)] []]> (c_load_balancers parsed)) |}.

Example aliased_frontends_refused :
  Config_Validate aliased = Ok tt /\ is_ok (ProxyConfig aliased) = true /\
  (m ← ProxyConfig aliased; New 0 second m) = Err (ErrMsg "frontend is used by two listeners").
Proof. split_and!; vm_compute; reflexivity. Qed.

(** The server publishes, the proxy connects, receives the snapshot and starts. *)
Definition stream_of (y : System) : Stream := default (mkStream None Waiting []) (sy_streams y !! 0%nat).

Definition published : System := Publish listeners initial.
Definition connected : System :=
  set_process {| (sy_process published) with pr_stream := Some (sy_next published); pr_previous := None |} (subscribe published).
Definition sent : System :=
  set_stream 0 {| (stream_of connected) with st_pc := Waiting; st_wire := st_wire (stream_of connected) ++ [sy_snapshot published] |} connected.
Definition received : System :=
  set_process (receive (sy_snapshot published) (sy_process sent)) (set_stream 0 {| (stream_of sent) with st_wire := [] |} sent).
Definition started_proxy : System := set_process (start_server second (sy_tick received) (sy_process received)) received.

Lemma started_reached : run second (0 + 1) initial started_proxy.
Proof.
  assert (forall y y' cfg, sy_generation y' = sy_generation y -> y' <> Publish cfg y) as Hne
    by (intros y y' cfg Hg ->; by apply publish_counts in Hg).
  apply (run_step _ _ _ received); [| apply step_start | intros cfg; by apply Hne].
  apply (run_step _ _ _ sent); [| by eapply step_receive | intros cfg; by apply Hne].
  apply (run_step _ _ _ connected); [| by apply step_send | intros cfg; by apply Hne].
  apply (run_step _ _ _ published); [| by apply step_connect | intros cfg; by apply Hne].
  apply run_publish, run_here.
Qed.

Lemma proxy_follows_witness :
  run second (0 + 1) initial started_proxy /\
  exists s, pr_server (sy_process started_proxy) = Some s /\ serving s /\ sv_listeners s = sn_listeners (sy_snapshot published).
Proof.
  split; [exact started_reached |]. destruct (proxy_follows_server second (0 + 1) started_proxy started_reached) as [H1 H2]; [reflexivity |].
  destruct (H2 0%nat (stream_of started_proxy)) as [_ H3]; [reflexivity | reflexivity |].
  destruct H3 as (s & Hs & Hl); [reflexivity | reflexivity | reflexivity |].
  exists s. split; [exact Hs |]. split; [exact (H1 s Hs) | exact Hl].
Defined.

(** A client of [acme] connects while the tenant sleeps. *)
Definition fresh_row : Instance := {| (demo_row "knc-new" (Some 1) None) with i_ip4 := Some "10.0.0.7"; i_health_at := Some 50 |}.

#[local] Instance demo_wake : WakeEnv := {|
  wk_config := fun _ => Ok listeners;
  wk_wake := fun _ _ => Ok false;
  wk_db := fun _ => LocalDB.with_instances [fresh_row] (LocalDB.empty_db true);
  wk_db_fault := fun _ => None;
  wk_now := fun _ => 40;
  wk_dial := fun _ _ => true;
  wk_select := fun _ => None;
  wk_ctx := fun _ => false;
|}.

Definition the_proxy : Server := default (mkServer 0 ∅ ∅ ∅ false) (pr_server (sy_process started_proxy)).

Lemma connection_witness :
  serving the_proxy /\
  let actions := handleConnection (sv_hold the_proxy) second (at_port (sv_ports the_proxy) 9443) (ParseIP "10.0.0.5") (Some "GET /")
    (answer 1 0) (fun _ => true) 0 60 in
  actions = [CWake "web:9443" second; CDial "10.0.0.7:8443" (second - 60); CForward "GET /"] /\
  exists key d r n', CWake key d ∈ actions /\ woken key r "10.0.0.7:8443" 0 n'.
Proof.
  assert (serving the_proxy) as Hs.
  { split; [vm_compute; reflexivity |]. split; [vm_compute; reflexivity |]. exists 3%nat. eexists. split; vm_compute; reflexivity. }
  split; [exact Hs |]. cbv zeta.
  destruct (proxied_connection_ready the_proxy second 9443 (ParseIP "10.0.0.5") (Some "GET /") 1 0 (fun _ => true) 0 60 Hs) as (_ & _ & H & _).
  assert (handleConnection (sv_hold the_proxy) second (at_port (sv_ports the_proxy) 9443) (ParseIP "10.0.0.5") (Some "GET /")
    (answer 1 0) (fun _ => true) 0 60 = [CWake "web:9443" second; CDial "10.0.0.7:8443" (second - 60); CForward "GET /"]) as Ha
    by (vm_compute; reflexivity).
  split; [exact Ha |]. apply (H "10.0.0.7:8443" (second - 60)). rewrite Ha. right. left.
Defined.
End ProxyWitnesses.
