(* ===== verification/Operator.v ===== *)
(** * Shared parts of the Kubernetes operator ([src/internal/operator])

    The controllers work on objects they read from the API server and write back; the
    API server and the shards are third parties, whose every answer is a parameter.  A
    reconciliation is a computation over [Run]: a tick per call, and the trace of the
    calls with their outcomes.  A call may also end the process ([Process.v]).

    Also here: the metadata the controllers look at, [node.go] and [provider.go]. *)

From S2P Require Import Prelude GoText Process.
From Stdlib Require Import Ascii.

#[local] Open Scope Z_scope.

Record Run (Ev : Type) := mkRun { run_tick : nat; run_trace : list Ev }.
Arguments mkRun {Ev} _ _.
Arguments run_tick {Ev} _.
Arguments run_trace {Ev} _.

(** A call: its answer, and what it leaves in the trace. *)
Definition call {Ev A} (f : nat -> option (res A)) (ev : option (res A) -> Ev) : X (Run Ev) A :=
  fun s => let r := f (run_tick s) in (mkRun (S (run_tick s)) (run_trace s ++ [ev r]), r).

(** A read, which leaves no trace. *)
Definition read {Ev A} (f : nat -> option (res A)) : X (Run Ev) A :=
  fun s => (mkRun (S (run_tick s)) (run_trace s), f (run_tick s)).

(** Something that is always there: the clock, the connections. *)
Definition look {Ev A} (f : nat -> A) : X (Run Ev) A := read (fun n => Some (Ok (f n))).

Definition note {Ev} (e : Ev) : X (Run Ev) unit := fun s => (mkRun (run_tick s) (run_trace s ++ [e]), Some (Ok tt)).

(** [client.IgnoreNotFound] on a read: [None] when there is no such object. *)
Definition found {Ev A} (m : X (Run Ev) A) : X (Run Ev) (option A) :=
  r ←? x_try m;
  match r with
  | Ok a => x_ret (Some a)
  | Err e => if bool_decide (e = ErrNotFound) then x_ret None else x_fail e
  end.

(** [ctrl.Result]. *)
Record Result := mkResult { r_requeue : bool; r_after : Z }.
Definition finished : Result := mkResult false 0.
Definition requeue_after (d : Z) : Result := mkResult false d.

(** ** Metadata *)

Record OwnerRef := mkOwnerRef { or_api_version : string; or_kind : string; or_name : string; or_uid : string }.

Record Condition := mkCondition {
  cd_type : string;
  cd_status : string;
  cd_reason : string;
  cd_message : string;
  cd_since : Z;
  cd_generation : Z;
}.

#[global] Instance OwnerRef_eq_dec : EqDecision OwnerRef.
Proof. solve_decision. Defined.
#[global] Instance Condition_eq_dec : EqDecision Condition.
Proof. solve_decision. Defined.

Record Meta := mkMeta {
  m_namespace : string;
  m_name : string;
  m_uid : string;
  m_generation : Z;
  m_deleting : bool;              (* DeletionTimestamp is set *)
  m_finalizers : list string;
  m_labels : gmap string string;
  m_annotations : gmap string string;
  m_owners : list OwnerRef;
}.

#[global] Instance Meta_eq_dec : EqDecision Meta.
Proof. solve_decision. Defined.

Definition new_meta (namespace name : string) (labels annotations : gmap string string) (owners : list OwnerRef) : Meta :=
  mkMeta namespace name "" 0 false [] labels annotations owners.

(** [controllerutil.ContainsFinalizer], [AddFinalizer] and [RemoveFinalizer]. *)
Definition has_finalizer (f : string) (m : Meta) : bool := bool_decide (f ∈ m_finalizers m).
Definition add_finalizer (f : string) (m : Meta) : Meta :=
  if has_finalizer f m then m else {| m with m_finalizers := m_finalizers m ++ [f] |}.
Definition remove_finalizer (f : string) (m : Meta) : Meta :=
  {| m with m_finalizers := filter (fun g => g ≠ f) (m_finalizers m) |}.

Lemma removed_finalizer f m : has_finalizer f (remove_finalizer f m) = false.
Proof. apply bool_decide_eq_false. cbn. rewrite list_elem_of_filter. tauto. Qed.

(** The first condition of a type replaced, or the condition appended: what the
    controllers' [setCondition] functions do.  A condition that keeps its status keeps
    the time of its last transition; [observed] also renews its generation. *)
Fixpoint set_condition (observed : bool) (c : Condition) (l : list Condition) : list Condition :=
  match l with
  | [] => [c]
  | d :: l' =>
      if bool_decide (cd_type d = cd_type c) then
        (if negb (bool_decide (cd_status d = cd_status c)) then c
         else mkCondition (cd_type d) (cd_status d) (cd_reason c) (cd_message c) (cd_since d)
                (if observed then cd_generation c else cd_generation d)) :: l'
      else d :: set_condition observed c l'
  end.

(** The status of the first condition of a type. *)
Definition condition_status (type : string) (l : list Condition) : option string :=
  cd_status <$> head (filter (fun c => cd_type c = type) l).

Lemma condition_status_cons type d l :
  condition_status type (d :: l) = if bool_decide (cd_type d = type) then Some (cd_status d) else condition_status type l.
Proof. unfold condition_status. case_bool_decide; [by rewrite filter_cons_True | by rewrite filter_cons_False]. Qed.

Lemma set_condition_status observed c l : condition_status (cd_type c) (set_condition observed c l) = Some (cd_status c).
Proof.
  induction l as [| d l IH]; cbn [set_condition]; [by rewrite condition_status_cons, bool_decide_eq_true_2 |].
  case_bool_decide as E; [| by rewrite condition_status_cons, bool_decide_eq_false_2].
  case_bool_decide as E'; cbn [negb]; rewrite condition_status_cons, bool_decide_eq_true_2 by done; cbn; by rewrite ?E'.
Qed.

Lemma set_condition_other observed c l type :
  type <> cd_type c -> condition_status type (set_condition observed c l) = condition_status type l.
Proof.
  intros N. induction l as [| d l IH]; cbn [set_condition]; [by rewrite condition_status_cons, bool_decide_eq_false_2 |].
  case_bool_decide as E; [| by rewrite !condition_status_cons, IH].
  rewrite (condition_status_cons type d), (bool_decide_eq_false_2 (cd_type d = type)) by congruence.
  case_bool_decide; cbn [negb]; by rewrite condition_status_cons, bool_decide_eq_false_2 by (cbn; congruence).
Qed.

(** ** Nodes ([node.go]) *)

Record NodeObj := mkNodeObj { no_name : string; no_provider_id : string; no_unschedulable : bool }.

(** [MatchesProviderID]: equal, or the last path element of an AWS or Google one. *)
Definition MatchesProviderID (nodeProviderID providerInstanceID : string) : bool :=
  if bool_decide (nodeProviderID = "") || bool_decide (providerInstanceID = "") then false
  else bool_decide (nodeProviderID = providerInstanceID) ||
       ((has_prefix "aws://" nodeProviderID || has_prefix "gce://" nodeProviderID) &&
        bool_decide (last (split_all "/"%char (chars nodeProviderID)) = Some (chars providerInstanceID))).

(** [FindByProviderID], over the nodes listed. *)
Definition find_node (nodes : list NodeObj) (providerInstanceID : string) : option NodeObj :=
  head (filter (fun n => no_provider_id n ≠ "" ∧ MatchesProviderID (no_provider_id n) providerInstanceID = true) nodes).

Lemma find_node_matches nodes id n : find_node nodes id = Some n -> n ∈ nodes /\ MatchesProviderID (no_provider_id n) id = true.
Proof.
  unfold find_node. intros H. apply head_Some_elem_of in H. apply list_elem_of_filter in H as [[_ H] Hin]. by split.
Qed.

(** ** Reasoning about traces *)

(** [before G B]: every call that satisfies [B] comes after one that satisfies [G]. *)
Definition before {Ev} (G B : Ev -> Prop) (t : list Ev) : Prop :=
  forall l1 e l2, t = l1 ++ e :: l2 -> B e -> exists g, g ∈ l1 /\ G g.

Lemma before_nil {Ev} (G B : Ev -> Prop) : before G B [].
Proof. intros l1 e l2 H. by destruct l1. Qed.

Lemma before_snoc {Ev} (G B : Ev -> Prop) t e :
  before G B t -> (B e -> exists g, g ∈ t /\ G g) -> before G B (t ++ [e]).
Proof.
  intros Ht He l1 x l2 E Hx. destruct l2 as [| y l2] using rev_ind.
  - apply app_inj_tail in E as [-> ->]. auto.
  - clear IHl2. rewrite app_comm_cons, app_assoc in E. apply app_inj_tail in E as [E _]. by apply (Ht l1 x l2).
Qed.

Section Specs.
Context {Ev A : Type}.
Implicit Types (P E : Run Ev -> Prop).

(** Predicates that look at the trace only. *)
Definition traced P : Prop := forall s n, P s -> P (mkRun n (run_trace s)).

Lemma xspec_call P (Q : A -> Run Ev -> Prop) E (f : nat -> option (res A)) ev :
  (forall s n r, P s -> let s' := mkRun n (run_trace s ++ [ev r]) in match r with Some (Ok a) => Q a s' | _ => E s' end) ->
  xspec P (call f ev) Q E.
Proof. intros H s Hs. specialize (H s (S (run_tick s)) (f (run_tick s)) Hs). unfold call. cbn in *. destruct (f (run_tick s)) as [[] |]; exact H. Qed.

Lemma xspec_read P E (f : nat -> option (res A)) : traced P -> (forall s, P s -> E s) -> xspec P (read f) (fun _ => P) E.
Proof. intros HP HE s Hs. unfold read. destruct (f (run_tick s)) as [[] |]; [| apply HE |apply HE]; by apply HP. Qed.

Lemma xspec_found P (Q : A -> Run Ev -> Prop) (R E : Run Ev -> Prop) (m : X (Run Ev) A) :
  xspec P m Q R -> (forall s, R s -> E s) ->
  xspec P (found m) (fun o s => match o with Some a => Q a s | None => R s end) E.
Proof.
  intros Hm HE. unfold found. eapply xspec_bind; [eapply xspec_weaken; [apply xspec_try, Hm |..]; try done |].
  intros [a | e]; [by apply xspec_ret |]. case_bool_decide; [by apply xspec_ret | by apply xspec_fail].
Qed.
End Specs.

(** ** Appended traces

    [appends Φ m]: whatever happens, [m] appends calls [t] to the trace and ends with a
    result [r] such that [Φ t r]. *)

Definition appends {Ev A} (Φ : list Ev -> option (res A) -> Prop) (m : X (Run Ev) A) : Prop :=
  forall s, exists t, run_trace (m s).1 = run_trace s ++ t /\ Φ t (m s).2.

(** The result of a call that ended without one. *)
Definition no_result {A} (r : option (res A)) : Prop := match r with Some (Ok _) => False | _ => True end.

Section Appends.
Context {Ev : Type}.

Lemma appends_ret {A} (a : A) : appends (Ev := Ev) (fun t r => t = [] /\ r = Some (Ok a)) (x_ret a).
Proof. intros s. exists []. by rewrite app_nil_r. Qed.

Lemma appends_fail {A} e : appends (Ev := Ev) (A := A) (fun t r => t = [] /\ r = Some (Err e)) (x_fail e).
Proof. intros s. exists []. by rewrite app_nil_r. Qed.

Lemma appends_die {A} : appends (Ev := Ev) (A := A) (fun t r => t = [] /\ r = None) x_die.
Proof. intros s. exists []. by rewrite app_nil_r. Qed.

Lemma appends_call {A} (f : nat -> option (res A)) (ev : option (res A) -> Ev) : appends (fun t r => t = [ev r]) (call f ev).
Proof. intros s. by exists [ev (f (run_tick s))]. Qed.

Lemma call_ret_trace {A B} (f : nat -> option (res A)) (ev : option (res A) -> Ev) (b : B) s :
  run_trace (x_bind (call f ev) (fun _ => x_ret b) s).1 = run_trace s ++ [ev (f (run_tick s))].
Proof. rewrite x_bind_eq. unfold call. by destruct (f (run_tick s)) as [[] |]. Qed.

Lemma appends_read {A} (f : nat -> option (res A)) : appends (Ev := Ev) (fun t r => t = []) (read f).
Proof. intros s. exists []. by rewrite app_nil_r. Qed.

Lemma appends_note (e : Ev) : appends (fun t r => t = [e] /\ r = Some (Ok tt)) (note e).
Proof. intros s. by exists [e]. Qed.

Lemma appends_weaken {A} (Φ Ψ : list Ev -> option (res A) -> Prop) m : appends Φ m -> (forall t r, Φ t r -> Ψ t r) -> appends Ψ m.
Proof. intros H HΦ s. destruct (H s) as (t & E & Ht). eauto. Qed.

Lemma appends_bind {A B} (Φ : list Ev -> option (res A) -> Prop) (Ψ : list Ev -> option (res B) -> Prop) m (f : A -> X (Run Ev) B) :
  appends Φ m ->
  (forall t1 a, Φ t1 (Some (Ok a)) -> appends (fun t r => Ψ (t1 ++ t) r) (f a)) ->
  (forall t e, Φ t (Some (Err e)) -> Ψ t (Some (Err e))) -> (forall t, Φ t None -> Ψ t None) ->
  appends Ψ (x_bind m f).
Proof.
  intros Hm Hf He Hd s. destruct (Hm s) as (t & E & Ht). rewrite x_bind_eq. destruct (m s) as [s1 [[a | e] |]]; cbn in *.
  - destruct (Hf t a Ht s1) as (t' & E' & Ht'). exists (t ++ t'). by rewrite E', E, app_assoc.
  - exists t. auto.
  - exists t. auto.
Qed.

Lemma appends_found_read {A} (f : nat -> option (res A)) : appends (Ev := Ev) (fun t _ => t = []) (found (read f)).
Proof.
  intros s. exists []. split; [| done]. rewrite app_nil_r. unfold found. rewrite x_bind_eq, x_try_eq. unfold read.
  destruct (f (run_tick s)) as [[a | e] |]; [done | | done]. by case_bool_decide.
Qed.

Lemma appends_wrap {A} (Φ : list Ev -> option (res A) -> Prop) msg m :
  appends Φ m -> (forall t e, Φ t (Some (Err e)) -> Φ t (Some (Err (ErrWrap msg e)))) -> appends Φ (x_wrap msg m).
Proof.
  intros Hm He s. destruct (Hm s) as (t & E & Ht). unfold x_wrap, mbind, M_bind. destruct (m s) as [s1 [[a | e] |]]; cbn in *; eauto.
Qed.

Lemma appends_wrap_call {A} msg (f : nat -> option (res A)) (ev : option (res A) -> Ev) :
  appends (fun t r => exists x, t = [ev x] /\ forall a, r = Some (Ok a) -> x = r) (x_wrap msg (call f ev)).
Proof.
  apply appends_wrap; [eapply appends_weaken; [apply appends_call |]; cbn; intros t r ->; by eexists |].
  intros t e (x & -> & _). by exists x.
Qed.

Lemma appends_try {A} (Φ : list Ev -> option (res A) -> Prop) (Ψ : list Ev -> option (res (res A)) -> Prop) m :
  appends Φ m -> (forall t r, Φ t (Some r) -> Ψ t (Some (Ok r))) -> (forall t, Φ t None -> Ψ t None) -> appends Ψ (x_try m).
Proof. intros Hm H1 H2 s. destruct (Hm s) as (t & E & Ht). rewrite x_try_eq. destruct (m s) as [s1 [r |]]; cbn in *; eauto. Qed.

(** Calls each of which satisfies [P]. *)
Definition all_calls {A} (P : Ev -> Prop) (m : X (Run Ev) A) : Prop := appends (fun t _ => Forall P t) m.

Lemma all_bind {A B} P (m : X (Run Ev) A) (f : A -> X (Run Ev) B) : all_calls P m -> (forall a, all_calls P (f a)) -> all_calls P (x_bind m f).
Proof.
  intros Hm Hf. eapply appends_bind; [exact Hm | | done | done]. cbn. intros t1 a Ht. eapply appends_weaken; [apply Hf |].
  intros t r Ht'. by apply Forall_app.
Qed.
Lemma all_call {A} P (f : nat -> option (res A)) ev : (forall r, P (ev r)) -> all_calls P (call f ev).
Proof. intros H. eapply appends_weaken; [apply appends_call |]. intros t r ->. by repeat constructor. Qed.
Lemma all_read {A} P (f : nat -> option (res A)) : all_calls P (read f).
Proof. eapply appends_weaken; [apply appends_read |]. by intros t r ->. Qed.
Lemma all_ret {A} P (a : A) : all_calls P (x_ret a).
Proof. eapply appends_weaken; [apply appends_ret |]. by intros t r [-> _]. Qed.
Lemma all_fail {A} P e : all_calls (A := A) P (x_fail e).
Proof. eapply appends_weaken; [apply appends_fail |]. by intros t r [-> _]. Qed.
Lemma all_die {A} P : all_calls (A := A) P x_die.
Proof. eapply appends_weaken; [apply appends_die |]. by intros t r [-> _]. Qed.
Lemma all_wrap {A} P msg (m : X (Run Ev) A) : all_calls P m -> all_calls P (x_wrap msg m).
Proof. intros Hm. by apply appends_wrap. Qed.
Lemma all_try {A} P (m : X (Run Ev) A) : all_calls P m -> all_calls P (x_try m).
Proof. intros Hm. by eapply appends_try. Qed.
Lemma all_found {A} P (m : X (Run Ev) A) : all_calls P m -> all_calls P (found m).
Proof.
  intros Hm. unfold found. apply all_bind; [by apply all_try |]. intros [a | e]; [apply all_ret |]. case_bool_decide; [apply all_ret | apply all_fail].
Qed.
Lemma all_each {A} P (l : list A) (body : A -> X (Run Ev) unit) : (forall x, all_calls P (body x)) -> all_calls P (x_each l body).
Proof. intros H. induction l as [| x l IH]; cbn [x_each]; [apply all_ret |]. apply all_bind; [apply H | done]. Qed.
Lemma all_fold {A B} P (body : B -> A -> X (Run Ev) B) b l : (forall b x, all_calls P (body b x)) -> all_calls P (x_fold body b l).
Proof. intros H. revert b. induction l as [| x l IH]; intros b; cbn [x_fold]; [apply all_ret |]. apply all_bind; [apply H | done]. Qed.
Lemma all_note P (e : Ev) : P e -> all_calls P (note e).
Proof. intros H. eapply appends_weaken; [apply appends_note |]. intros t r [-> _]. by repeat constructor. Qed.
End Appends.

(** Take a computation apart down to its calls. *)
Ltac all_steps tac :=
  repeat (intros;
    lazymatch goal with
    | |- all_calls _ (x_bind _ _) => apply all_bind
    | |- all_calls _ (x_wrap _ _) => apply all_wrap
    | |- all_calls _ (x_try _) => apply all_try
    | |- all_calls _ (found _) => apply all_found
    | |- all_calls _ (x_each _ _) => apply all_each
    | |- all_calls _ (x_fold _ _ _) => apply all_fold
    | |- all_calls _ (call _ _) => apply all_call; intros; cbn; done
    | |- all_calls _ (read _) => apply all_read
    | |- all_calls _ (look _) => apply all_read
    | |- all_calls _ (note _) => apply all_note; cbn; done
    | |- all_calls _ (x_ret _) => apply all_ret
    | |- all_calls _ (x_fail _) => apply all_fail
    | |- all_calls _ x_die => apply all_die
    | |- all_calls _ (match _ with _ => _ end) => case_match
    | |- all_calls _ _ => tac
    end).

(** ** Guarded traces

    [guarded Φ t]: every call [e] of [t] satisfies [Φ] of the calls before it. *)

Definition guarded {Ev} (Φ : list Ev -> Ev -> Prop) (t : list Ev) : Prop := forall l1 e l2, t = l1 ++ e :: l2 -> Φ l1 e.

Section Guarded.
Context {Ev : Type}.
Implicit Types (Φ : list Ev -> Ev -> Prop) (t : list Ev).

Lemma guarded_app Φ t1 t2 : guarded Φ t1 -> guarded (fun l e => Φ (t1 ++ l) e) t2 -> guarded Φ (t1 ++ t2).
Proof.
  intros H1 H2 l1 e l2 E. apply app_eq_inv in E as [(k & -> & E) | (k & -> & E)].
  - destruct k as [| x k]; cbn in E.
    + specialize (H2 [] e l2 (eq_sym E)). by rewrite !app_nil_r in H2.
    + injection E as -> ->. by apply (H1 l1 x k).
  - by apply (H2 k e l2).
Qed.

Lemma guarded_all Φ t : Forall (fun e => forall l, Φ l e) t -> guarded Φ t.
Proof. intros F l1 e l2 ->. apply Forall_app in F as [_ F]. inversion F; auto. Qed.

Lemma guarded_nil Φ : guarded Φ [].
Proof. by apply guarded_all. Qed.

Lemma guarded_weaken Φ Ψ t : guarded Φ t -> (forall l e, Φ l e -> Ψ l e) -> guarded Ψ t.
Proof. intros H HΦ l1 e l2 E. eapply HΦ, H, E. Qed.

Lemma guarded_one Φ e : Φ [] e -> guarded Φ [e].
Proof. intros H l1 x l2 E. destruct l1 as [| y l1]; [by injection E as -> _ | by destruct l1]. Qed.

(** A computation all of whose calls are guarded, given what came before it. *)
Definition guards {A} Φ (l : list Ev) (m : X (Run Ev) A) : Prop := appends (fun t _ => guarded (fun l' => Φ (l ++ l')) t) m.

Lemma guards_bind {A B} Φ l (Q : list Ev -> option (res A) -> Prop) (m : X (Run Ev) A) (f : A -> X (Run Ev) B) :
  appends (fun t r => guarded (fun l' => Φ (l ++ l')) t /\ Q t r) m ->
  (forall t a, Q t (Some (Ok a)) -> guards Φ (l ++ t) (f a)) -> guards Φ l (x_bind m f).
Proof.
  intros Hm Hf. eapply appends_bind; [exact Hm | | by intros t e [H _] | by intros t [H _]].
  intros t1 a [H1 HQ]. eapply appends_weaken; [apply (Hf t1 a HQ) |]. intros t r H. apply guarded_app; [done |].
  eapply guarded_weaken; [exact H |]. intros l1 e. cbn. by rewrite app_assoc.
Qed.

(** A computation whose calls are harmless, whatever came before. *)
Lemma guards_all {A} Φ l (m : X (Run Ev) A) : all_calls (fun e => forall l, Φ l e) m -> guards Φ l m.
Proof. intros H. eapply appends_weaken; [exact H |]. intros t r F. apply guarded_all. eapply Forall_impl; [exact F |]. auto. Qed.

Lemma guards_bind_all {A B} Φ l (m : X (Run Ev) A) (f : A -> X (Run Ev) B) :
  all_calls (fun e => forall l, Φ l e) m -> (forall t a, guards Φ (l ++ t) (f a)) -> guards Φ l (x_bind m f).
Proof.
  intros Hm Hf. apply (guards_bind Φ l (fun _ _ => True)); [| auto].
  eapply appends_weaken; [apply (guards_all Φ l), Hm |]. by intros t r H.
Qed.

Lemma guards_call {A} Φ l (f : nat -> option (res A)) ev : (forall r, Φ l (ev r)) -> guards Φ l (call f ev).
Proof.
  intros H. eapply appends_weaken; [apply appends_call |]. cbn. intros t r ->. apply guarded_one. by rewrite app_nil_r.
Qed.

Lemma guards_look {A B} Φ l (f : nat -> A) (k : A -> X (Run Ev) B) : (forall n, guards Φ l (k (f n))) -> guards Φ l (x_bind (look f) k).
Proof.
  intros H. apply (guards_bind Φ l (fun t r => t = [] /\ exists n, r = Some (Ok (f n)))).
  - intros s. exists []. split; [by rewrite app_nil_r |]. split; [apply guarded_nil |]. split; [done | by eexists].
  - intros t a [-> [n [= ->]]]. rewrite app_nil_r. apply H.
Qed.

Lemma guards_ret {A} Φ l (a : A) : guards Φ l (x_ret a).
Proof. apply guards_all, all_ret. Qed.

Lemma guards_fail {A} Φ l e : guards (A := A) Φ l (x_fail e).
Proof. apply guards_all, all_fail. Qed.

(** A call whose outcome is handled by what follows. *)
Lemma guards_try_call {A B} Φ l (f : nat -> option (res A)) ev (k : res A -> X (Run Ev) B) :
  (forall r, Φ l (ev r)) -> (forall r, guards Φ (l ++ [ev (Some r)]) (k r)) -> guards Φ l (x_bind (x_try (call f ev)) k).
Proof.
  intros He Hk. apply (guards_bind Φ l (fun t r => forall a, r = Some (Ok a) -> t = [ev (Some a)])).
  - eapply appends_try; [apply appends_call | |].
    + cbn. intros t r ->. split; [apply guarded_one; by rewrite app_nil_r | by intros a [= ->]].
    + cbn. intros t ->. split; [apply guarded_one; by rewrite app_nil_r | done].
  - intros t a H. rewrite (H a eq_refl). apply Hk.
Qed.

Lemma guards_try {A B} Φ l (m : X (Run Ev) A) (k : res A -> X (Run Ev) B) :
  guards Φ l m -> (forall t r, guards Φ (l ++ t) (k r)) -> guards Φ l (x_bind (x_try m) k).
Proof.
  intros Hm Hk. apply (guards_bind Φ l (fun _ _ => True)); [| auto]. by eapply appends_try; [exact Hm |..]; intros; split.
Qed.

(** A call that returns when it fails. *)
Lemma guards_bind_call {A B} Φ l (f : nat -> option (res A)) ev (k : A -> X (Run Ev) B) :
  (forall r, Φ l (ev r)) -> (forall a, guards Φ (l ++ [ev (Some (Ok a))]) (k a)) -> guards Φ l (x_bind (call f ev) k).
Proof.
  intros He Hk. apply (guards_bind Φ l (fun t r => t = [ev r])).
  - eapply appends_weaken; [apply appends_call |]. cbn. intros t r ->. split; [apply guarded_one; by rewrite app_nil_r | done].
  - intros t a ->. apply Hk.
Qed.

(** A read that may find nothing. *)
Lemma guards_found_read {A B} Φ l (f : nat -> option (res A)) (k : option A -> X (Run Ev) B) :
  (forall o, guards Φ l (k o)) -> guards Φ l (x_bind (found (read f)) k).
Proof.
  intros H. apply (guards_bind Φ l (fun t _ => t = [])).
  - eapply appends_weaken; [apply appends_found_read |]. cbn. intros t r ->. split; [apply guarded_nil | done].
  - intros t a ->. rewrite app_nil_r. apply H.
Qed.

(** A call that may find nothing: the trace has its answer. *)
Lemma appends_found_call {A} (f : nat -> option (res A)) (ev : option (res A) -> Ev) :
  appends (fun t r => exists x, t = [ev x] /\
             forall o, r = Some (Ok o) -> x = Some (match o with Some a => Ok a | None => Err ErrNotFound end)) (found (call f ev)).
Proof.
  intros s. exists [ev (f (run_tick s))]. unfold found. rewrite x_bind_eq, x_try_eq. unfold call.
  destruct (f (run_tick s)) as [[a | e] |]; cbn.
  - split; [done |]. eexists. split; [done |]. by intros o [= <-].
  - case_bool_decide as E; cbn; (split; [done |]; eexists; split; [done |]); [by intros o [= <-]; subst | done].
  - split; [done |]. by eexists.
Qed.

Lemma guards_found_call {A B} Φ l (f : nat -> option (res A)) ev (k : option A -> X (Run Ev) B) :
  (forall r, Φ l (ev r)) ->
  (forall o, guards Φ (l ++ [ev (Some (match o with Some a => Ok a | None => Err ErrNotFound end))]) (k o)) ->
  guards Φ l (x_bind (found (call f ev)) k).
Proof.
  intros He Hk. eapply guards_bind with (Q := fun t r => exists x, t = [ev x] /\
             forall o, r = Some (Ok o) -> x = Some (match o with Some a => Ok a | None => Err ErrNotFound end)).
  - eapply appends_weaken; [apply appends_found_call |]. cbn. intros t r (x & -> & Hx). split; [| by eexists].
    apply guarded_one. by rewrite app_nil_r.
  - intros t o (x & -> & Hx). rewrite (Hx o eq_refl). apply Hk.
Qed.

(** The calls of a guarded computation. *)
Lemma guards_run {A} Φ (m : X (Run Ev) A) s l1 e l2 :
  guards Φ [] m -> run_trace (m s).1 = run_trace s ++ l1 ++ e :: l2 -> Φ l1 e.
Proof. intros H E. destruct (H s) as (t & Et & Ht). rewrite E in Et. apply app_inv_head in Et as <-. exact (Ht l1 e l2 eq_refl). Qed.
End Guarded.
