(* ===== verification/Machines.v ===== *)
(** * Machines of the Kubernetes operator

    [nstancemachine_controller.go], [ondemandpod_controller.go] (under
    [src/internal/operator/controller]) and [drain/coordinator.go]: what an
    NstanceMachine, an on-demand Pod and an event from a shard make the operator do.
    The API server and the shards answer through [MachineEnv]; the calls that change
    something, and the listings a decision rests on, are the trace. *)

From S2P Require Import Prelude GoText Process Operator.

#[local] Open Scope Z_scope.

Module Machines.

Definition NstanceMachineFinalizer : string := "nstancemachine.infrastructure.cluster.x-k8s.io/finalizer".
Definition OnDemandGroupAnnotation : string := "nstance.dev/on-demand-group".
Definition OnDemandInstanceTypeAnnotation : string := "nstance.dev/on-demand-instance-type".
Definition OnDemandPodFinalizer : string := "ondemandpod.infrastructure.cluster.x-k8s.io/finalizer".
Definition ConditionTypeServerDeleted : string := "ServerDeleted".
Definition machineAPIVersion : string := "cluster.x-k8s.io/v1beta2".

Record NstanceMachine := mkNstanceMachine {
  nm_meta : Meta;
  nm_group : string;
  nm_instance_type : option string;
  nm_vars : gmap string string;
  nm_instance_id : string;
  nm_shard : string;
  nm_provider_id : string;
  nm_ready : bool;
  nm_conditions : list Condition;
}.

(** A Machine of Cluster API. *)
Record CapiMachine := mkCapiMachine {
  cm_meta : Meta;
  cm_failure_domain : string;
  cm_node_ref : string;                   (* Status.NodeRef.Name *)
  cm_infra : string * string;             (* InfrastructureRef, kind and name *)
}.

Record PodObj := mkPodObj {
  po_meta : Meta;
  po_mirror : bool;                       (* has the mirror annotation *)
}.

(** [proto.InstanceEvent]. *)
Record InstanceEvent := mkInstanceEvent {
  ie_instance_id : string;
  ie_provider_instance_id : string;
  ie_status : string;
  ie_reason : string;
  ie_delete_at : option Z;                (* when present and valid *)
}.

Inductive MachineEvent :=
  | MUpdate (m : NstanceMachine) (r : option (res NstanceMachine))
  | MStatus (m : NstanceMachine) (r : option (res NstanceMachine))
  | MCreateInstance (shard group instanceType : string) (vars : gmap string string) (r : option (res string))
  | MDeleteInstance (shard id : string) (r : option (res string))
  | MNodeRef (c : CapiMachine) (r : option (res CapiMachine))
  | MCreateMachine (m : NstanceMachine) (r : option (res NstanceMachine))
  | MDeleteMachine (m : NstanceMachine) (r : option (res unit))
  | MCreateCapi (c : CapiMachine) (r : option (res CapiMachine))
  | MDeleteCapi (namespace name : string) (r : option (res unit))
  | MUpdatePod (p : PodObj) (r : option (res PodObj))
  | MNodes (r : option (res (list NodeObj)))
  | MNode (name : string) (r : option (res NodeObj))
  | MCordon (n : NodeObj) (r : option (res NodeObj))
  | MPods (node : string) (r : option (res (list PodObj)))
  | MEvict (namespace name : string) (r : option (res unit))
  | MAck (id : string) (r : option (res unit)).

Class MachineEnv := mkMachineEnv {
  me_machine : nat -> string -> string -> option (res NstanceMachine);
  me_machines : nat -> string -> option (res (list NstanceMachine));      (* by instance ID *)
  me_update : nat -> NstanceMachine -> option (res NstanceMachine);
  me_status : nat -> NstanceMachine -> option (res NstanceMachine);
  me_create_machine : nat -> NstanceMachine -> option (res NstanceMachine);
  me_delete_machine : nat -> NstanceMachine -> option (res unit);
  me_conns : nat -> option (gset string);                                 (* ConnProvider.Get *)
  me_first : nat -> gset string -> string;                                (* the first key of a range *)
  me_owner : nat -> NstanceMachine -> option (res (option CapiMachine));  (* capiutil.GetOwnerMachine *)
  me_capi : nat -> string -> string -> option (res CapiMachine);
  me_create_capi : nat -> CapiMachine -> option (res CapiMachine);
  me_delete_capi : nat -> string -> string -> option (res unit);
  me_capi_status : nat -> CapiMachine -> option (res CapiMachine);
  me_create_instance : nat -> string -> NstanceMachine -> option (res string);
  me_delete_instance : nat -> string -> string -> option (res string);
  me_instance_status : nat -> string -> string -> option (res (string * string)); (* provider ID and status *)
  me_nodes : nat -> option (res (list NodeObj));
  me_node : nat -> string -> option (res NodeObj);
  me_cordon : nat -> NodeObj -> option (res NodeObj);
  me_pods : nat -> string -> option (res (list PodObj));
  me_pod : nat -> string -> string -> option (res PodObj);
  me_update_pod : nat -> PodObj -> option (res PodObj);
  me_evict : nat -> string -> string -> option (res unit);
  me_ack : nat -> string -> option (res unit);
  me_done : nat -> option err;                                            (* the context is done *)
  me_now : nat -> Z;
}.

Section Machines.
Context {ME : MachineEnv}.

Abbreviation Step A := (X (Run MachineEvent) A).

Definition update (m : NstanceMachine) : Step NstanceMachine := call (fun n => me_update n m) (MUpdate m).
Definition status_update (m : NstanceMachine) : Step NstanceMachine := call (fun n => me_status n m) (MStatus m).
Definition conns : Step (option (gset string)) := look me_conns.

(** ** The NstanceMachine controller *)

(** [hasCondition]. *)
Definition hasCondition (m : NstanceMachine) (type : string) : bool := bool_decide (condition_status type (nm_conditions m) = Some "True").

(** [createInstance]: the shard of the owner's failure domain, or any. *)
Definition choose_shard (connections : gset string) (owner : option CapiMachine) : Step string :=
  match owner with
  | Some c =>
      if negb (bool_decide (cm_failure_domain c = "")) then
        if bool_decide (cm_failure_domain c ∈ connections) then x_ret (cm_failure_domain c)
        else x_fail (ErrMsg "requested failure domain not available")
      else if bool_decide (connections = ∅) then x_fail (ErrMsg "no shard connections available")
      else look (fun n => me_first n connections)
  | None =>
      if bool_decide (connections = ∅) then x_fail (ErrMsg "no shard connections available")
      else look (fun n => me_first n connections)
  end.

Definition createInstance (m : NstanceMachine) : Step (string * string) :=
  o ←? conns;
  match o with
  | None => x_fail (ErrMsg "connections not ready")
  | Some connections =>
      owner ←? x_wrap "failed to get owner machine" (read (fun n => me_owner n m));
      shard ←? choose_shard connections owner;
      id ←? x_wrap "failed to create instance"
              (call (fun n => me_create_instance n shard m) (MCreateInstance shard (nm_group m) (default "" (nm_instance_type m)) (nm_vars m)));
      x_ret (id, shard)
  end.

(** [deleteInstance]. *)
Definition deleteInstance (shard id : string) : Step unit :=
  o ←? conns;
  match o with
  | None => x_fail (ErrMsg "connections not ready")
  | Some connections =>
      if negb (bool_decide (shard ∈ connections)) then x_fail (ErrMsg "shard not connected")
      else
        _ ←? x_wrap "shard" (call (fun n => me_delete_instance n shard id) (MDeleteInstance shard id));
        x_ret tt
  end.

(** [node.FindByProviderID]. *)
Definition FindByProviderID (id : string) : Step (option NodeObj) :=
  nodes ←? call me_nodes MNodes;
  x_ret (find_node nodes id).

(** [setMachineNodeRef]. *)
Definition setMachineNodeRef (m : NstanceMachine) : Step unit :=
  n ←? x_wrap "failed to find node by providerID" (FindByProviderID (nm_provider_id m));
  match n with
  | None => x_ret tt
  | Some n =>
      owner ←? x_wrap "failed to get owner machine" (read (fun t => me_owner t m));
      match owner with
      | None => x_ret tt
      | Some c =>
          if negb (bool_decide (cm_node_ref c = "")) then x_ret tt
          else
            let c := {| c with cm_node_ref := no_name n |} in
            _ ←? x_wrap "failed to update Machine.Status.NodeRef" (call (fun t => me_capi_status t c) (MNodeRef c));
            x_ret tt
      end
  end.

(** [updateInstanceStatus]. *)
Definition updateInstanceStatus (m : NstanceMachine) : Step unit :=
  if bool_decide (nm_shard m = "") then x_fail (ErrMsg "instance status.shard is empty")
  else
    o ←? conns;
    match o with
    | None => x_fail (ErrMsg "connections not ready")
    | Some connections =>
        if negb (bool_decide (nm_shard m ∈ connections)) then x_fail (ErrMsg "shard not connected")
        else
          st ←? x_wrap "failed to get instance status from shard" (read (fun n => me_instance_status n (nm_shard m) (nm_instance_id m)));
          let isReady := bool_decide (st.2 = "running") in
          let updated := negb (bool_decide (nm_provider_id m = st.1)) || negb (Bool.eqb (nm_ready m) isReady) in
          let m' := {| m with nm_provider_id := st.1; nm_ready := isReady |} in
          m'' ←? (if updated then status_update m' else x_ret m');
          if bool_decide (nm_provider_id m'' = "") then x_ret tt
          else _ ←? x_try (setMachineNodeRef m''); x_ret tt
    end.

(** The deletion of a machine: its instance first, then its finalizer. *)
Definition release_instance (m : NstanceMachine) : Step unit :=
  if bool_decide (nm_instance_id m = "") then x_ret tt
  else if hasCondition m ConditionTypeServerDeleted then x_ret tt
  else if bool_decide (nm_shard m = "") then x_ret tt
  else deleteInstance (nm_shard m) (nm_instance_id m).

Definition reconcile_deleted (m : NstanceMachine) : Step Result :=
  if has_finalizer NstanceMachineFinalizer (nm_meta m) then
    _ ←? release_instance m;
    _ ←? update {| m with nm_meta := remove_finalizer NstanceMachineFinalizer (nm_meta m) |};
    x_ret finished
  else x_ret finished.

Definition ReconcileMachine (namespace name : string) : Step Result :=
  o ←? found (read (fun n => me_machine n namespace name));
  match o with
  | None => x_ret finished
  | Some m =>
      if m_deleting (nm_meta m) then reconcile_deleted m
      else if negb (has_finalizer NstanceMachineFinalizer (nm_meta m)) then
        _ ←? update {| m with nm_meta := add_finalizer NstanceMachineFinalizer (nm_meta m) |};
        x_ret finished
      else if bool_decide (nm_instance_id m = "") then
        created ←? createInstance m;
        _ ←? status_update {| m with nm_instance_id := created.1; nm_shard := created.2 |};
        x_ret finished
      else
        _ ←? updateInstanceStatus m;
        x_ret finished
  end.

(** ** On-demand Pods *)

Definition machine_name (pod : PodObj) : string := ("on-demand-" ++ m_name (po_meta pod))%string.

Definition pod_owner (pod : PodObj) : OwnerRef := mkOwnerRef "v1" "Pod" (m_name (po_meta pod)) (m_uid (po_meta pod)).

(** The objects created for a Pod. *)
Definition pod_machine (pod : PodObj) (group : string) : NstanceMachine :=
  let instanceType := default "" (m_annotations (po_meta pod) !! OnDemandInstanceTypeAnnotation) in
  mkNstanceMachine (new_meta (m_namespace (po_meta pod)) (machine_name pod) ∅ ∅ [pod_owner pod]) group
    (if bool_decide (instanceType = "") then None else Some instanceType) ∅ "" "" "" false [].

Definition pod_capi (pod : PodObj) : CapiMachine :=
  mkCapiMachine (new_meta (m_namespace (po_meta pod)) (machine_name pod) ∅ ∅ [pod_owner pod]) "" "" ("NstanceMachine", machine_name pod).

(** [if err := r.Create(...); err != nil && !errors.IsAlreadyExists(err)]. *)
Definition ErrAlreadyExists : err := ErrMsg "already exists".

Definition ensure {A} (m : Step A) : Step unit :=
  r ←? x_try m;
  match r with
  | Ok _ => x_ret tt
  | Err e => if bool_decide (e = ErrAlreadyExists) then x_ret tt else x_fail e
  end.

(** [cleanupMachine]. *)
Definition cleanupMachine (pod : PodObj) : Step unit :=
  _ ←? found (call (fun n => me_delete_capi n (m_namespace (po_meta pod)) (machine_name pod)) (MDeleteCapi (m_namespace (po_meta pod)) (machine_name pod)));
  x_ret tt.

Definition update_pod (pod : PodObj) : Step PodObj := call (fun n => me_update_pod n pod) (MUpdatePod pod).

Definition ensure_machines (pod : PodObj) (group : string) : Step Result :=
  o ←? found (read (fun n => me_machine n (m_namespace (po_meta pod)) (machine_name pod)));
  _ ←? (match o with
        | Some _ => x_ret tt
        | None => ensure (call (fun n => me_create_machine n (pod_machine pod group)) (MCreateMachine (pod_machine pod group)))
        end);
  c ←? found (read (fun n => me_capi n (m_namespace (po_meta pod)) (machine_name pod)));
  _ ←? (match c with
        | Some _ => x_ret tt
        | None => ensure (call (fun n => me_create_capi n (pod_capi pod)) (MCreateCapi (pod_capi pod)))
        end);
  x_ret finished.

Definition ReconcilePod (namespace name : string) : Step Result :=
  o ←? found (read (fun n => me_pod n namespace name));
  match o with
  | None => x_ret finished
  | Some pod =>
      match m_annotations (po_meta pod) !! OnDemandGroupAnnotation with
      | None => x_ret finished
      | Some group =>
          if m_deleting (po_meta pod) then
            if has_finalizer OnDemandPodFinalizer (po_meta pod) then
              _ ←? cleanupMachine pod;
              _ ←? update_pod {| pod with po_meta := remove_finalizer OnDemandPodFinalizer (po_meta pod) |};
              x_ret finished
            else x_ret finished
          else
            pod ←? (if has_finalizer OnDemandPodFinalizer (po_meta pod) then x_ret pod
                    else update_pod {| pod with po_meta := add_finalizer OnDemandPodFinalizer (po_meta pod) |});
            ensure_machines pod group
      end
  end.

(** ** The drain coordinator *)

Definition isDaemonSetPod (pod : PodObj) : bool := existsb (fun o => bool_decide (or_kind o = "DaemonSet")) (m_owners (po_meta pod)).
Definition isMirrorPod (pod : PodObj) : bool := po_mirror pod.

(** A Pod that has to leave the node. *)
Definition must_leave (pod : PodObj) : bool := negb (isDaemonSetPod pod) && negb (isMirrorPod pod).

(** [cordonNode]. *)
Definition cordonNode (name : string) : Step unit :=
  node ←? call (fun n => me_node n name) (MNode name);
  if no_unschedulable node then x_ret tt
  else
    let node := {| node with no_unschedulable := true |} in
    _ ←? call (fun n => me_cordon n node) (MCordon node);
    x_ret tt.

Definition evict_pod (pod : PodObj) : Step unit :=
  if m_deleting (po_meta pod) || negb (must_leave pod) then x_ret tt
  else
    let (namespace, name) := (m_namespace (po_meta pod), m_name (po_meta pod)) in
    _ ←? x_try (call (fun n => me_evict n namespace name) (MEvict namespace name));
    x_ret tt.

Definition list_pods (node : string) : Step (list PodObj) := call (fun n => me_pods n node) (MPods node).

(** [waitForPodsToTerminate]: a round per tick, until the context is done. *)
Fixpoint waitForPodsToTerminate (fuel : nat) (node : string) : Step unit :=
  match fuel with
  | O => x_die
  | S fuel =>
      d ←? look me_done;
      match d with
      | Some e => x_fail e
      | None =>
          pods ←? list_pods node;
          if existsb must_leave pods then waitForPodsToTerminate fuel node else x_ret tt
      end
  end.

(** [drainNode]. *)
Definition drainNode (fuel : nat) (node : string) : Step unit :=
  pods ←? list_pods node;
  _ ←? x_each pods evict_pod;
  waitForPodsToTerminate fuel node.

(** [acknowledgeDrained]. *)
Definition acknowledgeDrained (id : string) : Step unit := call (fun n => me_ack n id) (MAck id).

(** ** Instances deleted by the server *)

(** The first condition of the type replaced, or appended. *)
Fixpoint replace_condition (c : Condition) (l : list Condition) : list Condition :=
  match l with
  | [] => [c]
  | d :: l' => if bool_decide (cd_type d = cd_type c) then c :: l' else d :: replace_condition c l'
  end.

(** The status written for an instance the server has deleted. *)
Definition server_deleted (eventReason : string) (now : Z) (m : NstanceMachine) : NstanceMachine :=
  let reason := if bool_decide (eventReason = "") then "ServerDeleted" else eventReason in
  let c := mkCondition ConditionTypeServerDeleted "True" reason ("Instance deleted by server: " ++ reason)%string now 0 in
  {| m with nm_ready := false; nm_conditions := replace_condition c (nm_conditions m) |}.

(** The first owner that is a Machine of Cluster API. *)
Definition owner_machine (m : NstanceMachine) : option OwnerRef :=
  head (filter (fun o => or_kind o = "Machine" ∧ or_api_version o = machineAPIVersion) (m_owners (nm_meta m))).

Definition delete_owner (m : NstanceMachine) : Step unit :=
  match owner_machine m with
  | None =>
      _ ←? x_wrap "failed to delete orphaned NstanceMachine" (found (call (fun n => me_delete_machine n m) (MDeleteMachine m)));
      x_ret tt
  | Some ref =>
      c ←? x_wrap "failed to get owning Machine" (found (read (fun n => me_capi n (m_namespace (nm_meta m)) (or_name ref))));
      match c with
      | None => x_ret tt
      | Some c =>
          if m_deleting (cm_meta c) then x_ret tt
          else
            let (namespace, name) := (m_namespace (cm_meta c), m_name (cm_meta c)) in
            _ ←? x_wrap "failed to delete owning Machine" (found (call (fun n => me_delete_capi n namespace name) (MDeleteCapi namespace name)));
            x_ret tt
      end
  end.

(** [handleDeletedEvent]. *)
Definition handleDeletedEvent (event : InstanceEvent) : Step unit :=
  machines ←? x_wrap "failed to list NstanceMachines by instanceID" (read (fun n => me_machines n (ie_instance_id event)));
  match machines with
  | [] => x_ret tt
  | m :: _ =>
      now ←? look me_now;
      o ←? x_wrap "failed to update NstanceMachine status" (found (status_update (server_deleted (ie_reason event) now m)));
      match o with
      | None => x_ret tt
      | Some m => delete_owner m
      end
  end.

(** [handleEvent].  The deadline of the drain is the context of its calls. *)
Definition handleEvent (fuel : nat) (event : InstanceEvent) : Step unit :=
  if bool_decide (ie_status event = "deleted") then handleDeletedEvent event
  else if bool_decide (ie_provider_instance_id event = "") then x_fail (ErrMsg "instance event missing provider instance ID")
  else
    n ←? x_wrap "failed to find node" (FindByProviderID (ie_provider_instance_id event));
    match n with
    | None => x_wrap "failed to acknowledge drain for missing node" (acknowledgeDrained (ie_instance_id event))
    | Some n =>
        _ ←? x_wrap "failed to cordon node" (cordonNode (no_name n));
        _ ←? x_wrap "failed to drain node" (drainNode fuel (no_name n));
        x_wrap "failed to acknowledge drain" (acknowledgeDrained (ie_instance_id event))
    end.

(** [processEventStream]: errors of an event are logged only. *)
Fixpoint processEvents (fuel : nat) (events : list InstanceEvent) : Step unit :=
  match events with
  | [] => x_ret tt
  | event :: rest => _ ←? x_try (handleEvent fuel event); processEvents fuel rest
  end.
End Machines.
End Machines.
