(* ===== verification/MachinesFacts.v ===== *)
(** * Facts about machines of the Kubernetes operator

    Claims about [Machines.v]: instances are released before their object, drains are
    acknowledged only when the node is empty or gone, instances the server deleted are
    not deleted again, and what a lost status update does. *)

From S2P Require Import Prelude GoText Process Operator Machines.
Import Machines.

#[local] Open Scope Z_scope.

Section Facts.
Context {ME : MachineEnv}.

(** ** The NstanceMachine controller *)

Definition not_update (e : MachineEvent) : Prop := match e with MUpdate _ _ => False | _ => True end.
Definition not_delete (e : MachineEvent) : Prop := match e with MDeleteInstance _ _ _ => False | _ => True end.

(** The instance of [m] needs no call, or was deleted in [t]. *)
Definition released (m : NstanceMachine) (t : list MachineEvent) : Prop :=
  nm_instance_id m = "" \/ nm_shard m = "" \/ hasCondition m ConditionTypeServerDeleted = true \/
  exists a, MDeleteInstance (nm_shard m) (nm_instance_id m) (Some (Ok a)) ∈ t.

Lemma release_appends m :
  appends (fun t r => Forall not_update t /\ (r = Some (Ok tt) -> released m t)) (release_instance m).
Proof.
  assert (Hret : released m [] -> appends (fun t r => Forall not_update t /\ (r = Some (Ok tt) -> released m t)) (x_ret tt)).
  { intros H. eapply appends_weaken; [apply appends_ret |]. by intros t r [-> _]. }
  unfold release_instance. case_bool_decide; [apply Hret; by left |].
  destruct (hasCondition m ConditionTypeServerDeleted) eqn:Hcd; [apply Hret; right; right; by left |].
  case_bool_decide; [apply Hret; right; by left |].
  unfold deleteInstance, conns, look. eapply appends_bind; [apply appends_read | | by intros t e -> | by intros t ->].
  intros t [c |] ->; cbn [app].
  2:{ eapply appends_weaken; [apply appends_fail |]. by intros t' r [-> ->]. }
  case_bool_decide; cbn [negb].
  2:{ eapply appends_weaken; [apply appends_fail |]. by intros t' r [-> ->]. }
  eapply (appends_bind (fun t r => match r with
    | Some (Ok a) => t = [MDeleteInstance (nm_shard m) (nm_instance_id m) (Some (Ok a))]
    | _ => exists r, t = [MDeleteInstance (nm_shard m) (nm_instance_id m) r] end)).
  - apply appends_wrap; [| by intros t' e]. eapply appends_weaken; [apply appends_call |]. intros t' [[a | e] |] ->; [done | by eexists | by eexists].
  - intros t' a ->. eapply appends_weaken; [apply appends_ret |]. intros t'' r [-> ->]. split; [by repeat constructor |].
    intros _. right. right. right. exists a. rewrite app_nil_r. left.
  - intros t' e [r ->]. split; [by repeat constructor | done].
  - intros t' [r ->]. split; [by repeat constructor | done].
Qed.

(** An update that takes the finalizer away follows the release of the instance. *)
Definition orderly (t : list MachineEvent) : Prop :=
  forall l1 m r l2, t = l1 ++ MUpdate m r :: l2 -> has_finalizer NstanceMachineFinalizer (nm_meta m) = false -> released m l1.

Lemma orderly_none t : Forall not_update t -> orderly t.
Proof. intros F l1 m r l2 -> _. apply Forall_app in F as [_ F]. by inversion F. Qed.

Lemma orderly_snoc t m r : Forall not_update t -> (has_finalizer NstanceMachineFinalizer (nm_meta m) = false -> released m t) -> orderly (t ++ [MUpdate m r]).
Proof.
  intros F H l1 m' r' l2 E Hf. destruct l2 as [| y l2] using rev_ind.
  - apply app_inj_tail in E as [-> [= -> ->]]. auto.
  - clear IHl2. rewrite app_comm_cons, app_assoc in E. apply app_inj_tail in E as [E _]. by apply (orderly_none t F l1 m' r' l2).
Qed.

Lemma update_appends m : appends (fun t r => t = [MUpdate m r]) (update m).
Proof. apply appends_call. Qed.

Lemma released_meta m me t : released {| m with nm_meta := me |} t <-> released m t.
Proof. done. Qed.

Lemma deleted_orderly m : appends (fun t _ => orderly t) (reconcile_deleted m).
Proof.
  unfold reconcile_deleted. destruct (has_finalizer _ _); [| eapply appends_weaken; [apply appends_ret |]; intros t r [-> _]; by apply orderly_none].
  eapply appends_bind; [apply release_appends | | intros t e [F _]; by apply orderly_none | intros t [F _]; by apply orderly_none].
  intros t [] [F Hrel]. assert (Hup : forall r, orderly (t ++ [MUpdate {| m with nm_meta := remove_finalizer NstanceMachineFinalizer (nm_meta m) |} r])).
  { intros r. apply orderly_snoc; [done |]. intros _. by apply Hrel. }
  eapply appends_bind; [apply update_appends | | by intros t' e -> | by intros t' ->].
  intros t' a ->. eapply appends_weaken; [apply appends_ret |]. intros t'' r [-> _]. rewrite app_nil_r. apply Hup.
Qed.

(** Computations without updates. *)
Lemma quiet_orderly {A} (m : X (Run MachineEvent) A) : all_calls not_update m -> appends (fun t _ => orderly t) m.
Proof. intros H. eapply appends_weaken; [exact H |]. intros t r. apply orderly_none. Qed.

Lemma reconcile_orderly namespace name : appends (fun t _ => orderly t) (ReconcileMachine namespace name).
Proof.
  assert (Hn : orderly []) by by apply orderly_none.
  unfold ReconcileMachine. eapply appends_bind; [apply appends_found_read | | by intros t e -> | by intros t ->].
  intros t [m |] ->; cbn [app]; [| by apply quiet_orderly, all_ret].
  destruct (m_deleting _); [apply deleted_orderly |]. destruct (has_finalizer _ _) eqn:Hfin; cbn [negb].
  - apply quiet_orderly. case_match; [unfold createInstance, choose_shard, conns, status_update; all_steps fail |].
    unfold updateInstanceStatus, setMachineNodeRef, FindByProviderID, conns, status_update. cbv zeta. all_steps fail.
  - assert (Hup : forall r, orderly [MUpdate {| m with nm_meta := add_finalizer NstanceMachineFinalizer (nm_meta m) |} r]).
    { intros r. apply (orderly_snoc []); [done |]. cbn. unfold add_finalizer. rewrite Hfin. unfold has_finalizer. cbn.
      intros H. apply bool_decide_eq_false in H. set_solver. }
    eapply appends_bind; [apply update_appends | | by intros t' e -> | by intros t' ->].
    intros t' a ->. eapply appends_weaken; [apply appends_ret |]. intros t'' r [-> _]. rewrite app_nil_r. apply Hup.
Qed.

(** ** Draining *)

Definition not_ack (e : MachineEvent) : Prop := match e with MAck _ _ => False | _ => True end.

(** The node was read as unschedulable, or made so. *)
Definition cordoned (name : string) (t : list MachineEvent) : Prop :=
  exists nd, MNode name (Some (Ok nd)) ∈ t /\
    (no_unschedulable nd = true \/ exists a, MCordon {| nd with no_unschedulable := true |} (Some (Ok a)) ∈ t).

(** The last call listed the Pods of the node, and none has to leave any more. *)
Definition emptied (name : string) (t : list MachineEvent) : Prop :=
  exists l pods, t = l ++ [MPods name (Some (Ok pods))] /\ existsb must_leave pods = false.

Lemma emptied_after name l t : emptied name t -> emptied name (l ++ t).
Proof. intros (k & pods & -> & Hl). exists (l ++ k), pods. by rewrite app_assoc. Qed.

Lemma cordon_appends name : appends (fun t r => Forall not_ack t /\ (r = Some (Ok tt) -> cordoned name t)) (cordonNode name).
Proof.
  unfold cordonNode. eapply appends_bind; [apply appends_call | | by intros t e ->; split; [repeat constructor |] | by intros t ->; split; [repeat constructor |]].
  intros t nd ->. destruct (no_unschedulable nd) eqn:Hu.
  { eapply appends_weaken; [apply appends_ret |]. intros t r [-> _]. split; [by repeat constructor |]. intros _. exists nd. split; [left | by left]. }
  cbv zeta. eapply appends_bind; [apply appends_call | | by intros t e ->; split; [repeat constructor |] | by intros t ->; split; [repeat constructor |]].
  intros t a ->. eapply appends_weaken; [apply appends_ret |]. intros t r [-> _]. split; [by repeat constructor |]. intros _. exists nd.
  split; [left |]. right. exists a. right. left.
Qed.

Lemma wait_appends fuel name : appends (fun t r => Forall not_ack t /\ (r = Some (Ok tt) -> emptied name t)) (waitForPodsToTerminate fuel name).
Proof.
  induction fuel as [| fuel IH]; cbn [waitForPodsToTerminate].
  { eapply appends_weaken; [apply appends_die |]. by intros t r [-> ->]. }
  eapply appends_bind; [apply appends_read | | by intros t e -> | by intros t ->].
  intros t [e |] ->; cbn [app]. { eapply appends_weaken; [apply appends_fail |]. by intros t r [-> ->]. }
  eapply appends_bind; [apply appends_call | | by intros t e ->; split; [repeat constructor |] | by intros t ->; split; [repeat constructor |]].
  intros t pods ->. destruct (existsb must_leave pods) eqn:Hl.
  - eapply appends_weaken; [exact IH |]. intros t r [F H]. split; [by constructor |]. intros Hr. by apply (emptied_after name [_]), H.
  - eapply appends_weaken; [apply appends_ret |]. intros t r [-> _]. split; [by repeat constructor |]. intros _. by exists [], pods.
Qed.

(** Once the context is done by the observation [last], that many rounds are enough:
    more of them change nothing. *)
Lemma wait_enough last fuel name s :
  (forall k, (last <= k)%nat -> me_done k <> None) -> (0 < fuel)%nat -> (last < fuel + run_tick s)%nat ->
  waitForPodsToTerminate (S fuel) name s = waitForPodsToTerminate fuel name s.
Proof.
  intros Hdone. revert s. induction fuel as [| fuel IH]; intros s H0 Hf; [lia |].
  assert (forall n, waitForPodsToTerminate (S n) name s =
    match me_done (run_tick s) with
    | Some e => (mkRun (S (run_tick s)) (run_trace s), Some (Err e))
    | None => x_bind (list_pods name) (fun pods => if existsb must_leave pods then waitForPodsToTerminate n name else x_ret tt)
                (mkRun (S (run_tick s)) (run_trace s))
    end) as Hround.
  { intros n. cbn [waitForPodsToTerminate]. rewrite x_bind_eq. cbn. by destruct (me_done (run_tick s)). }
  rewrite !Hround. destruct (me_done (run_tick s)) eqn:Ed; [done |].
  assert (run_tick s < last)%nat by (destruct (decide (last <= run_tick s)%nat) as [Hl |]; [by destruct (Hdone _ Hl) | lia]).
  rewrite !x_bind_eq. unfold list_pods, call. cbn. destruct (me_pods _ name) as [[pods | e] |]; [| done | done].
  destruct (existsb must_leave pods); [| done]. apply IH; cbn; lia.
Qed.

Lemma drain_appends fuel name : appends (fun t r => Forall not_ack t /\ (r = Some (Ok tt) -> emptied name t)) (drainNode fuel name).
Proof.
  unfold drainNode, list_pods. eapply appends_bind; [apply appends_call | | by intros t e ->; split; [repeat constructor |] | by intros t ->; split; [repeat constructor |]].
  intros t pods ->. eapply appends_bind; [apply (all_each not_ack); unfold evict_pod; all_steps fail | | | ].
  - intros t [] F. eapply appends_weaken; [apply wait_appends |]. intros t' r [F' H]. split; [constructor; [done | by apply Forall_app] |].
    intros Hr. by apply (emptied_after name (_ :: t)), H.
  - intros t e F. split; [by constructor | done].
  - intros t F. split; [by constructor | done].
Qed.

(** What an acknowledgement of [event] rests on, in this order: the nodes were listed,
    the node of the instance, if there is one, was made unschedulable, and after that
    its Pods were seen to be gone, in the last call before the acknowledgement. *)
Definition drained (event : InstanceEvent) (t : list MachineEvent) : Prop :=
  exists nodes l, t = MNodes (Some (Ok nodes)) :: l /\
    match find_node nodes (ie_provider_instance_id event) with
    | None => l = []
    | Some n => exists l1 l2, l = l1 ++ l2 /\ cordoned (no_name n) l1 /\ emptied (no_name n) l2
    end.

Definition acked_well (event : InstanceEvent) (t : list MachineEvent) : Prop :=
  forall l1 id r l2, t = l1 ++ MAck id r :: l2 -> id = ie_instance_id event /\ drained event l1.

Lemma acked_none event t : Forall not_ack t -> acked_well event t.
Proof. intros F l1 id r l2 ->. apply Forall_app in F as [_ F]. by inversion F. Qed.

Lemma acked_snoc event t r : Forall not_ack t -> drained event t -> acked_well event (t ++ [MAck (ie_instance_id event) r]).
Proof.
  intros F H l1 id r' l2 E. destruct l2 as [| y l2] using rev_ind.
  - apply app_inj_tail in E as [-> [= -> ->]]. by split.
  - clear IHl2. rewrite app_comm_cons, app_assoc in E. apply app_inj_tail in E as [E _]. by apply (acked_none event t F l1 id r' l2).
Qed.

Lemma ack_appends event t1 msg :
  Forall not_ack t1 -> drained event t1 ->
  appends (fun t _ => acked_well event (t1 ++ t)) (x_wrap msg (acknowledgeDrained (ie_instance_id event))).
Proof.
  intros F H. apply appends_wrap; [| done]. eapply appends_weaken; [apply appends_call |]. intros t r ->. by apply acked_snoc.
Qed.

Lemma handle_deleted_calls event : all_calls not_ack (handleDeletedEvent event).
Proof. unfold handleDeletedEvent, delete_owner, status_update. all_steps fail. Qed.

Lemma handle_appends fuel event : appends (fun t _ => acked_well event t) (handleEvent fuel event).
Proof.
  assert (Hn : acked_well event []) by by apply acked_none.
  unfold handleEvent. case_bool_decide. { eapply appends_weaken; [apply handle_deleted_calls |]. intros t r. apply acked_none. }
  case_bool_decide. { eapply appends_weaken; [apply appends_fail |]. by intros t r [-> _]. }
  eapply (appends_bind (fun t r => Forall not_ack t /\ forall o, r = Some (Ok o) -> exists nodes, t = [MNodes (Some (Ok nodes))] /\ o = find_node nodes (ie_provider_instance_id event))).
  - apply appends_wrap; [| intros t e [F _]; by split]. unfold FindByProviderID.
    eapply appends_bind; [apply appends_call | | by intros t e ->; split; [repeat constructor |] | by intros t ->; split; [repeat constructor |]].
    intros t nodes ->. eapply appends_weaken; [apply appends_ret |]. intros t r [-> ->]. split; [by repeat constructor |]. intros o [= <-]. by exists nodes.
  - intros t1 o [F1 Ho]. destruct (Ho o eq_refl) as (nodes & -> & ->). destruct (find_node nodes _) as [n |] eqn:En.
    + eapply appends_bind; [apply appends_wrap; [apply cordon_appends | intros t e [F _]; by split] | | intros t e [F _]; apply acked_none; by apply Forall_app | intros t [F _]; apply acked_none; by apply Forall_app].
      intros t2 [] [F2 H2]. specialize (H2 eq_refl).
      eapply appends_bind; [apply appends_wrap; [apply drain_appends | intros t e [F _]; by split] | | intros t e [F _]; apply acked_none; rewrite !Forall_app; auto | intros t [F _]; apply acked_none; rewrite !Forall_app; auto].
      intros t3 [] [F3 H3]. specialize (H3 eq_refl).
      eapply appends_weaken; [apply (ack_appends event ([MNodes (Some (Ok nodes))] ++ t2 ++ t3)) |].
      * rewrite !Forall_app. auto.
      * exists nodes, (t2 ++ t3). rewrite En. split; [done |]. by exists t2, t3.
      * cbn beta. intros t r H'. by rewrite <- !app_assoc in H'.
    + apply ack_appends; [done |]. exists nodes, []. by rewrite En.
  - intros t e [F _]. by apply acked_none.
  - intros t [F _]. by apply acked_none.
Qed.

(** ** Instances the server deleted *)

Lemma replace_condition_status c l : condition_status (cd_type c) (replace_condition c l) = Some (cd_status c).
Proof.
  induction l as [| d l IH]; cbn [replace_condition]; [by rewrite condition_status_cons, bool_decide_eq_true_2 |].
  case_bool_decide; rewrite condition_status_cons; [by rewrite bool_decide_eq_true_2 | by rewrite bool_decide_eq_false_2].
Qed.

Lemma server_deleted_condition reason now m : hasCondition (server_deleted reason now m) ConditionTypeServerDeleted = true.
Proof.
  unfold hasCondition, server_deleted. cbn [nm_conditions]. apply bool_decide_eq_true.
  match goal with |- condition_status _ (replace_condition ?c _) = _ => exact (replace_condition_status c _) end.
Qed.

Lemma deleted_quiet m : hasCondition m ConditionTypeServerDeleted = true -> all_calls not_delete (reconcile_deleted m).
Proof.
  intros H. unfold reconcile_deleted, release_instance, update. rewrite H. all_steps fail.
Qed.
End Facts.

(** ** Claims *)

(** C32. Instances are released before their objects.  Whatever fails, an update that
    takes the finalizer off an NstanceMachine, and so lets the object disappear, follows
    a successful deletion of its instance at its shard, unless the machine has no
    instance, no shard, or was marked as deleted by the server. *)
Theorem instance_released_first (ME : MachineEnv) (namespace name : string) (s : Run MachineEvent) (l1 l2 : list MachineEvent)
    (m : NstanceMachine) (r : option (res NstanceMachine)) :
  run_trace (ReconcileMachine namespace name s).1 = run_trace s ++ l1 ++ MUpdate m r :: l2 ->
  has_finalizer NstanceMachineFinalizer (nm_meta m) = false -> released m l1.
Proof.
  intros E Hf. destruct (reconcile_orderly namespace name s) as (t & Et & Ho). rewrite E in Et. apply app_inv_head in Et as <-.
  by apply (Ho l1 m r l2).
Qed.

(** C33. A drain is acknowledged only when it is done.  The coordinator tells a shard
    that an instance is drained only for the instance of the event, and only after it
    listed the nodes and found none for the instance, or found its node, then saw it
    unschedulable or made it so, and then, in the last call before the acknowledgement,
    saw it without any Pod that has to leave. *)
Theorem drain_acknowledged_when_empty (ME : MachineEnv) (fuel : nat) (event : InstanceEvent) (s : Run MachineEvent) (l1 l2 : list MachineEvent)
    (id : string) (r : option (res unit)) :
  run_trace (handleEvent fuel event s).1 = run_trace s ++ l1 ++ MAck id r :: l2 ->
  id = ie_instance_id event /\ drained event l1.
Proof.
  intros E. destruct (handle_appends fuel event s) as (t & Et & Ho). rewrite E in Et. apply app_inv_head in Et as <-. by apply (Ho l1 id r l2).
Qed.

(** An instance the server deleted is not deleted again.  After the coordinator has
    written the status of a machine whose instance the server deleted, the machine
    controller lets the object go without asking the shard to delete the instance. *)
Theorem server_deleted_not_redeleted (ME : MachineEnv) (reason namespace name : string) (now : Z) (m : NstanceMachine) (s : Run MachineEvent) :
  me_machine (run_tick s) namespace name = Some (Ok (server_deleted reason now m)) -> m_deleting (nm_meta m) = true ->
  exists t, run_trace (ReconcileMachine namespace name s).1 = run_trace s ++ t /\ Forall not_delete t.
Proof.
  intros Hm Hd. unfold ReconcileMachine, found. rewrite !x_bind_eq, x_try_eq. unfold read. rewrite Hm. cbn beta iota.
  unfold x_ret, mret, M_ret. cbn beta iota.
  assert (Hd' : m_deleting (nm_meta (server_deleted reason now m)) = true) by done. rewrite Hd'.
  exact (deleted_quiet _ (server_deleted_condition reason now m) (mkRun (S (run_tick s)) (run_trace s))).
Qed.

(** A lost status update creates a second instance.  When the status that records a
    new instance cannot be written, the error is returned and nothing remembers the
    instance: the next reconciliation of the same object asks for another one. *)
Theorem lost_status_creates_again (ME : MachineEnv) (namespace name shard : string) (conns : gset string) (m : NstanceMachine) (id : nat -> string) (e : err) (s : Run MachineEvent) :
  (forall n, me_machine n namespace name = Some (Ok m)) -> m_deleting (nm_meta m) = false ->
  has_finalizer NstanceMachineFinalizer (nm_meta m) = true -> nm_instance_id m = "" ->
  (forall n, me_conns n = Some conns) -> conns <> ∅ -> (forall n, me_owner n m = Some (Ok None)) -> (forall n, me_first n conns = shard) ->
  (forall n, me_create_instance n shard m = Some (Ok (id n))) -> (forall n m', me_status n m' = Some (Err e)) ->
  let s1 := (ReconcileMachine namespace name s).1 in
  let s2 := (ReconcileMachine namespace name s1).1 in
  exists n1 n2, n1 <> n2 /\
    run_trace s2 = run_trace s ++
      [MCreateInstance shard (nm_group m) (default "" (nm_instance_type m)) (nm_vars m) (Some (Ok (id n1)));
       MStatus {| m with nm_instance_id := id n1; nm_shard := shard |} (Some (Err e));
       MCreateInstance shard (nm_group m) (default "" (nm_instance_type m)) (nm_vars m) (Some (Ok (id n2)));
       MStatus {| m with nm_instance_id := id n2; nm_shard := shard |} (Some (Err e))].
Proof.
  intros Hm Hd Hf Hi Hc Hne Ho Hs Hcr Hst.
  assert (Hrun : forall s, ReconcileMachine namespace name s =
    (mkRun (run_tick s + 6) (run_trace s ++
      [MCreateInstance shard (nm_group m) (default "" (nm_instance_type m)) (nm_vars m) (Some (Ok (id (run_tick s + 4)%nat)));
       MStatus {| m with nm_instance_id := id (run_tick s + 4)%nat; nm_shard := shard |} (Some (Err e))]), Some (Err e))).
  { intros [t0 l0]. unfold ReconcileMachine, found. rewrite !x_bind_eq, x_try_eq. unfold read. rewrite Hm. cbn beta iota.
    unfold x_ret, mret, M_ret. cbn beta iota. rewrite Hd, Hf. cbn [negb]. rewrite (bool_decide_eq_true_2 (nm_instance_id m = "")) by done.
    unfold createInstance, Machines.conns, look, read, x_wrap, choose_shard. rewrite !x_bind_eq, Hc. cbn beta iota.
    rewrite x_bind_eq. unfold mbind, M_bind, mret, M_ret. rewrite Ho. cbn beta iota. rewrite x_bind_eq.
    rewrite (bool_decide_eq_false_2 (conns = ∅)) by done. unfold look, read. rewrite Hs. cbn beta iota. rewrite x_bind_eq. unfold call. cbn. rewrite Hcr. cbn.
    rewrite x_bind_eq. unfold status_update, call. cbn. rewrite Hst. cbn. rewrite <- app_assoc. cbn.
    rewrite !(Nat.add_comm t0). done. }
  cbn zeta. exists (run_tick s + 4)%nat, (run_tick s + 6 + 4)%nat. split; [lia |]. rewrite !Hrun. cbn. by rewrite <- app_assoc.
Qed.

(** ** Concrete runs of the machine controllers

    One shard, one machine with an instance, one node with a Pod of a DaemonSet. *)
Module MachineWitnesses.
Import Machines.

#[local] Open Scope Z_scope.

Definition missing {A} : option (res A) := Some (Err ErrNotFound).

Definition machine_meta (deleting : bool) : Meta :=
  mkMeta "default" "m" "uid-m" 1 deleting [NstanceMachineFinalizer] ∅ ∅ [].

Definition machine (deleting : bool) (id shard : string) : NstanceMachine :=
  mkNstanceMachine (machine_meta deleting) "web" None ∅ id shard "" false [].

Definition node_1 : NodeObj := mkNodeObj "node-1" "aws:///zone/i-1" false.
Definition daemon_pod : PodObj := mkPodObj (mkMeta "kube-system" "d" "uid-d" 1 false [] ∅ ∅ [mkOwnerRef "apps/v1" "DaemonSet" "d" "uid-ds"]) false.

(** The API server has [m]; status updates answer [st]; the shard numbers instances. *)
Definition machine_env (m : NstanceMachine) (st : NstanceMachine -> option (res NstanceMachine)) (id : nat -> string) : MachineEnv := {|
  me_machine := fun _ _ _ => Some (Ok m);
  me_machines := fun _ _ => Some (Ok [m]);
  me_update := fun _ m => Some (Ok m);
  me_status := fun _ m => st m;
  me_create_machine := fun _ m => Some (Ok m);
  me_delete_machine := fun _ _ => Some (Ok tt);
  me_conns := fun _ => Some {["a"]};
  me_first := fun _ _ => "a";
  me_owner := fun _ _ => Some (Ok None);
  me_capi := fun _ _ _ => missing;
  me_create_capi := fun _ c => Some (Ok c);
  me_delete_capi := fun _ _ _ => Some (Ok tt);
  me_capi_status := fun _ c => Some (Ok c);
  me_create_instance := fun n _ _ => Some (Ok (id n));
  me_delete_instance := fun _ _ id => Some (Ok id);
  me_instance_status := fun _ _ _ => Some (Ok ("aws:///zone/i-1", "running"));
  me_nodes := fun _ => Some (Ok [node_1]);
  me_node := fun _ _ => Some (Ok node_1);
  me_cordon := fun _ n => Some (Ok n);
  me_pods := fun _ _ => Some (Ok [daemon_pod]);
  me_pod := fun _ _ _ => missing;
  me_update_pod := fun _ p => Some (Ok p);
  me_evict := fun _ _ _ => Some (Ok tt);
  me_ack := fun _ _ => Some (Ok tt);
  me_done := fun _ => None;
  me_now := fun n => Z.of_nat n;
|}.

Definition start : Run MachineEvent := mkRun 0 [].

Definition deleting_env : MachineEnv := machine_env (machine true "i-1" "a") (fun m => Some (Ok m)) (fun _ => "i-1").
Definition let_go : NstanceMachine :=
  let m := machine true "i-1" "a" in {| m with nm_meta := remove_finalizer NstanceMachineFinalizer (machine_meta true) |}.

Lemma released_witness :
  exists l1, run_trace (ReconcileMachine (ME := deleting_env) "default" "m" start).1 = l1 ++ [MUpdate let_go (Some (Ok let_go))] /\ released let_go l1.
Proof.
  exists [MDeleteInstance "a" "i-1" (Some (Ok "i-1"))]. split; [vm_compute; reflexivity |].
  apply (instance_released_first deleting_env "default" "m" start _ [] let_go (Some (Ok let_go))); vm_compute; reflexivity.
Defined.

Definition drain_event : InstanceEvent := mkInstanceEvent "ins-1" "i-1" "draining" "" None.

(** The calls of a drain up to its acknowledgement. *)
Definition drain_calls : list MachineEvent :=
  [MNodes (Some (Ok [node_1])); MNode "node-1" (Some (Ok node_1));
   MCordon (mkNodeObj "node-1" "aws:///zone/i-1" true) (Some (Ok (mkNodeObj "node-1" "aws:///zone/i-1" true)));
   MPods "node-1" (Some (Ok [daemon_pod])); MPods "node-1" (Some (Ok [daemon_pod]))].

Lemma drained_witness :
  run_trace (handleEvent (ME := deleting_env) 3 drain_event start).1 = drain_calls ++ [MAck "ins-1" (Some (Ok tt))] /\ drained drain_event drain_calls.
Proof.
  split; [vm_compute; reflexivity |].
  exact (proj2 (drain_acknowledged_when_empty deleting_env 3 drain_event start drain_calls [] "ins-1" (Some (Ok tt)) eq_refl)).
Defined.

Definition marked_env : MachineEnv := machine_env (server_deleted "spot" 7 (machine true "i-1" "a")) (fun m => Some (Ok m)) (fun _ => "i-1").

Lemma not_redeleted_witness :
  exists t, run_trace (ReconcileMachine (ME := marked_env) "default" "m" start).1 = t /\ length t = 1%nat /\ Forall not_delete t.
Proof.
  destruct (server_deleted_not_redeleted marked_env "spot" "default" "m" 7 (machine true "i-1" "a") start eq_refl eq_refl) as (t & E & F).
  exists t. split; [exact E |]. split; [| exact F]. transitivity (length (run_trace (ReconcileMachine (ME := marked_env) "default" "m" start).1)); [| vm_compute; reflexivity].
  rewrite E. reflexivity.
Defined.

(** The status of a new instance cannot be written. *)
Definition lossy_env : MachineEnv :=
  machine_env (machine false "" "") (fun _ => Some (Err (ErrExternal 1))) (fun n => if bool_decide (n < 6)%nat then "i-1" else "i-2").

Lemma lost_status_witness :
  let s1 := (ReconcileMachine (ME := lossy_env) "default" "m" start).1 in
  let s2 := (ReconcileMachine (ME := lossy_env) "default" "m" s1).1 in
  (exists n1 n2, n1 <> n2 /\ run_trace s2 =
    [MCreateInstance "a" "web" "" ∅ (Some (Ok (if bool_decide (n1 < 6)%nat then "i-1" else "i-2"))); MStatus (machine false (if bool_decide (n1 < 6)%nat then "i-1" else "i-2") "a") (Some (Err (ErrExternal 1)));
     MCreateInstance "a" "web" "" ∅ (Some (Ok (if bool_decide (n2 < 6)%nat then "i-1" else "i-2"))); MStatus (machine false (if bool_decide (n2 < 6)%nat then "i-1" else "i-2") "a") (Some (Err (ErrExternal 1)))]) /\
  omap (fun e => match e with MCreateInstance _ _ _ _ (Some (Ok id)) => Some id | _ => None end) (run_trace s2) = ["i-1"; "i-2"].
Proof.
  intros s1 s2. split; [| vm_compute; reflexivity].
  apply (lost_status_creates_again lossy_env "default" "m" "a" {["a"]} (machine false "" "") (fun n => if bool_decide (n < 6)%nat then "i-1" else "i-2")
    (ErrExternal 1) start); try (intros; reflexivity). apply non_empty_singleton_L.
Defined.
End MachineWitnesses.
