(* ===== verification/Pools.v ===== *)
(** * Machine pools of the Kubernetes operator

    [nstancemachinepool_controller.go], [nstanceshardgroup_controller.go] and
    [nstancecluster_controller.go] under [src/internal/operator/controller], and the
    webhook [nstancemachinepool_webhook.go].  A pool's replicas are distributed over its
    shards; each shard's part is an NstanceShardGroup, whose controller tells the shard.
    The API server and the shards answer through [PoolEnv]; the calls that change
    something, and the objects a decision rests on, are the trace. *)

From S2P Require Import Prelude GoText GroupApi Process Operator.
From stdpp Require Import sorting.
From Stdlib Require Import Ascii.

#[local] Open Scope Z_scope.

Module Pools.

Definition NstanceMachinePoolFinalizer : string := "nstancemachinepool.infrastructure.cluster.x-k8s.io/finalizer".
Definition shardGroupFinalizer : string := "nstanceshardgroup.infrastructure.cluster.x-k8s.io/finalizer".
Definition AnnotationManagedBy : string := "nstance.dev/managed-by".
Definition AnnotationManagedByOperator : string := "nstance-operator".
Definition ConditionTypeReady : string := "Ready".
Definition ConditionTypeShardGroupReady : string := "Ready".
Definition ConditionTypeShardReachable : string := "ShardReachable".
Definition ConditionTypeConfigValid : string := "ConfigValid".

(** ** Objects *)

(** A MachinePool of Cluster API, as far as the operator reads and writes it. *)
Record MachinePool := mkMachinePool {
  mp_meta : Meta;
  mp_cluster : string;
  mp_replicas : option Z;
  mp_infra : string * string;             (* InfrastructureRef, kind and name *)
}.

Record NstanceMachinePool := mkNstanceMachinePool {
  np_type : string * string;              (* TypeMeta: APIVersion and Kind, which a client may leave empty *)
  np_meta : Meta;
  np_group : string;
  np_shards : list string;
  np_template : string;
  np_instance_type : option string;
  np_subnet_pool : string;
  np_vars : gmap string string;
  np_provider_ids : list string;
  np_ready : bool;
  np_replicas : Z;
  np_is_static : bool;
  np_observed : Z;                        (* Status.ObservedGeneration *)
  np_observed_owner : Z;
  np_conditions : list Condition;
}.

Record ShardGroupSpec := mkShardGroupSpec {
  sg_group : string;
  sg_shard : string;
  sg_size : Z;
  sg_template : string;
  sg_instance_type : string;
  sg_subnet_pool : string;
  sg_vars : gmap string string;
}.

(** [NstanceShardGroupConfig]: what the shard answered. *)
Record ShardGroupConfig := mkShardGroupConfig {
  sc_template : string;
  sc_subnet_pool : string;
  sc_instance_type : string;
  sc_vars : gmap string string;
}.

Record NstanceShardGroup := mkNstanceShardGroup {
  sg_meta : Meta;
  sg_spec : ShardGroupSpec;
  sg_observed : Z;                        (* Status.ObservedGeneration *)
  sg_replicas : Z;
  sg_provider_ids : list string;
  sg_is_static : bool;
  sg_config : option ShardGroupConfig;
  sg_last_sync : option Z;
  sg_conditions : list Condition;
}.

Record NstanceCluster := mkNstanceCluster {
  nc_meta : Meta;
  nc_provisioned : option bool;
  nc_conditions : list Condition;
}.

#[global] Instance ShardGroupSpec_eq_dec : EqDecision ShardGroupSpec.
Proof. solve_decision. Defined.

(** [NstanceShardGroupName]. *)
Definition NstanceShardGroupName (group shard : string) : string := (group ++ "--" ++ shard)%string.

(** [%q] of a name, which has nothing to escape. *)
Definition quoted (s : string) : string := String "034"%char (s ++ String "034"%char "")%string.

(** ** Calls *)

Inductive PoolEvent :=
  | PUpdate (p : NstanceMachinePool) (r : option (res NstanceMachinePool))
  | PStatus (p : NstanceMachinePool) (r : option (res NstanceMachinePool))
  | PGetPool (namespace name : string) (r : option (res NstanceMachinePool))
  | PCreatePool (p : NstanceMachinePool) (r : option (res NstanceMachinePool))
  | PGetMachinePool (namespace name : string) (r : option (res MachinePool))
  | PCreateMachinePool (p : MachinePool) (r : option (res MachinePool))
  | PGetShardGroup (namespace name : string) (r : option (res NstanceShardGroup))
  | PCreateShardGroup (g : NstanceShardGroup) (r : option (res NstanceShardGroup))
  | PUpdateShardGroup (g : NstanceShardGroup) (r : option (res NstanceShardGroup))
  | PStatusShardGroup (g : NstanceShardGroup) (r : option (res NstanceShardGroup))
  | PDeleteShardGroup (g : NstanceShardGroup) (r : option (res unit))
  | PUpsertGroup (shard key : string) (c : ProtoGroupConfig) (r : option (res GroupStatus))
  | PDeleteGroup (shard key : string) (r : option (res unit))
  | PPause
  | PResume
  | PRecord (name type reason message : string)       (* Recorder.Event *)
  | PCluster (c : NstanceCluster) (r : option (res NstanceCluster)).

Class PoolEnv := mkPoolEnv {
  pe_pool : nat -> string -> string -> option (res NstanceMachinePool);
  pe_pools : nat -> string -> option (res (list NstanceMachinePool));
  pe_update : nat -> NstanceMachinePool -> option (res NstanceMachinePool);
  pe_status : nat -> NstanceMachinePool -> option (res NstanceMachinePool);
  pe_create_pool : nat -> NstanceMachinePool -> option (res NstanceMachinePool);
  pe_machine_pool : nat -> string -> string -> option (res MachinePool);
  pe_create_machine_pool : nat -> MachinePool -> option (res MachinePool);
  pe_shard_group : nat -> string -> string -> option (res NstanceShardGroup);
  pe_shard_groups : nat -> string -> option (res (list NstanceShardGroup));   (* of a namespace *)
  pe_create_shard_group : nat -> NstanceShardGroup -> option (res NstanceShardGroup);
  pe_update_shard_group : nat -> NstanceShardGroup -> option (res NstanceShardGroup);
  pe_status_shard_group : nat -> NstanceShardGroup -> option (res NstanceShardGroup);
  pe_delete_shard_group : nat -> NstanceShardGroup -> option (res unit);
  pe_cluster : nat -> string -> string -> option (res NstanceCluster);
  pe_cluster_status : nat -> NstanceCluster -> option (res NstanceCluster);
  pe_conns : nat -> option (gset string);                                     (* ConnProvider.Get *)
  pe_upsert_group : nat -> string -> string -> ProtoGroupConfig -> option (res GroupStatus);
  pe_delete_group : nat -> string -> string -> option (res unit);
  pe_now : nat -> Z;
  pe_text : err -> string;                                                    (* Error() *)
  pe_sync : bool;                                                             (* SetSyncManager was called *)
  pe_cluster_name : string;
}.

(** Orders the strings of a slice: [sort.Strings]. *)
Definition sort_strings (l : list string) : list string := merge_sort String.le l.

Section Pools.
Context {PE : PoolEnv}.

Abbreviation Step A := (X (Run PoolEvent) A).

Definition get_pool (namespace name : string) : Step NstanceMachinePool := call (fun n => pe_pool n namespace name) (PGetPool namespace name).
Definition pool_update (p : NstanceMachinePool) : Step NstanceMachinePool := call (fun n => pe_update n p) (PUpdate p).
Definition pool_status (p : NstanceMachinePool) : Step NstanceMachinePool := call (fun n => pe_status n p) (PStatus p).
Definition sg_status (g : NstanceShardGroup) : Step NstanceShardGroup := call (fun n => pe_status_shard_group n g) (PStatusShardGroup g).

(** A function whose deferred call runs when it returns. *)
Definition deferred {A} (m : Step A) (fin : Step unit) : Step A :=
  r ←? x_try m;
  _ ←? fin;
  x_res r.

(** ** The distribution of replicas *)

(** [distributeReplicas]: [int32] arithmetic. *)
Definition share (total n : Z) (i : nat) : Z :=
  let base := Z.quot total n in
  if bool_decide (wrap32 (Z.of_nat i) < Z.rem total n) then wrap32 (base + 1) else base.

Definition distributeReplicas (total : Z) (shards : list string) : gmap string Z :=
  let n := wrap32 (Z.of_nat (length shards)) in
  if bool_decide (n = 0) then ∅
  else foldl (fun result p => <[p.1 := p.2]> result) ∅ (imap (fun i shard => (shard, share total n i)) shards).

(** ** The NstanceMachinePool controller *)

(** [setConditionInPlace]. *)
Definition setConditionInPlace (p : NstanceMachinePool) (status reason message : string) (now : Z) : NstanceMachinePool :=
  {| p with np_conditions := set_condition true (mkCondition ConditionTypeReady status reason message now (m_generation (np_meta p))) (np_conditions p) |}.

(** [isShardGroupReady]. *)
Definition isShardGroupReady (g : NstanceShardGroup) : bool :=
  bool_decide (condition_status ConditionTypeShardGroupReady (sg_conditions g) = Some "True").

(** [getStringValue]. *)
Definition getStringValue (s : option string) : string := default "" s.

(** What [ensureShardGroup] wants of a shard's group. *)
Definition shard_spec (p : NstanceMachinePool) (shard : string) (size : Z) : ShardGroupSpec :=
  mkShardGroupSpec (np_group p) shard size (np_template p) (getStringValue (np_instance_type p)) (np_subnet_pool p) (np_vars p).

Definition group_labels (group shard : string) : gmap string string :=
  <["nstance.dev/group" := group]> (<["nstance.dev/shard" := shard]> ∅).

Definition pool_owner (p : NstanceMachinePool) : OwnerRef :=
  mkOwnerRef (np_type p).1 (np_type p).2 (m_name (np_meta p)) (m_uid (np_meta p)).

Definition new_shard_group (p : NstanceMachinePool) (shard : string) (size : Z) : NstanceShardGroup :=
  mkNstanceShardGroup
    (new_meta (m_namespace (np_meta p)) (NstanceShardGroupName (np_group p) shard) (group_labels (np_group p) shard) ∅ [pool_owner p])
    (shard_spec p shard size) 0 0 [] false None None [].

(** The group and the shard of an existing object are left as they are. *)
Definition wanted_spec (p : NstanceMachinePool) (size : Z) (s : ShardGroupSpec) : ShardGroupSpec :=
  mkShardGroupSpec (sg_group s) (sg_shard s) size (np_template p) (getStringValue (np_instance_type p)) (np_subnet_pool p) (np_vars p).

(** [ensureShardGroup]. *)
Definition ensureShardGroup (p : NstanceMachinePool) (shard : string) (size : Z) : Step NstanceShardGroup :=
  let namespace := m_namespace (np_meta p) in
  let name := NstanceShardGroupName (np_group p) shard in
  o ←? found (call (fun n => pe_shard_group n namespace name) (PGetShardGroup namespace name));
  match o with
  | None =>
      let g := new_shard_group p shard size in
      x_wrap "create NstanceShardGroup" (call (fun n => pe_create_shard_group n g) (PCreateShardGroup g))
  | Some g =>
      let spec := wanted_spec p size (sg_spec g) in
      if bool_decide (spec = sg_spec g) then x_ret g
      else
        let g := {| g with sg_spec := spec |} in
        x_wrap "update NstanceShardGroup" (call (fun n => pe_update_shard_group n g) (PUpdateShardGroup g))
  end.

(** The loop over the shards: whether all groups are ready and whether one is static,
    or the error that ended it. *)
Fixpoint ensure_shards (p : NstanceMachinePool) (sizes : gmap string Z) (shards : list string) (allReady anyStatic : bool)
    : Step (res (bool * bool)) :=
  match shards with
  | [] => x_ret (Ok (allReady, anyStatic))
  | shard :: rest =>
      r ←? x_try (ensureShardGroup p shard (default 0 (sizes !! shard)));
      match r with
      | Err e => x_ret (Err e)
      | Ok g => ensure_shards p sizes rest (allReady && isShardGroupReady g) (anyStatic || sg_is_static g)
      end
  end.

(** [deleteGroupFromShards]: every shard is tried. *)
Definition delete_from_shard (connections : gset string) (key shard : string) (failed : bool) : Step bool :=
  if negb (bool_decide (shard ∈ connections)) then x_ret true
  else
    r ←? x_try (call (fun n => pe_delete_group n shard key) (PDeleteGroup shard key));
    x_ret (failed || negb (is_ok r)).

Definition deleteGroupFromShards (key : string) (shards : list string) : Step unit :=
  o ←? look pe_conns;
  match o with
  | None => x_fail (ErrMsg "connections not ready")
  | Some connections =>
      failed ←? x_fold (fun failed shard => delete_from_shard connections key shard failed) false shards;
      if failed : bool then x_fail (ErrMsg "failed to delete group from shards") else x_ret tt
  end.

(** [deleteOrphanedShardGroups]. *)
Definition owned_by (p : NstanceMachinePool) (g : NstanceShardGroup) : bool :=
  existsb (fun o => bool_decide (or_uid o = m_uid (np_meta p))) (m_owners (sg_meta g)).

Definition delete_orphan (p : NstanceMachinePool) (desired : gset string) (g : NstanceShardGroup) : Step unit :=
  if bool_decide (sg_shard (sg_spec g) ∈ desired) then x_ret tt
  else if negb (owned_by p g) then x_ret tt
  else
    _ ←? x_wrap "failed to delete orphaned shard group" (found (call (fun n => pe_delete_shard_group n g) (PDeleteShardGroup g)));
    x_ret tt.

Definition deleteOrphanedShardGroups (p : NstanceMachinePool) (desired : gset string) : Step unit :=
  groups ←? x_wrap "failed to list shard groups" (read (fun n => pe_shard_groups n (m_namespace (np_meta p))));
  x_each (filter (fun g => m_labels (sg_meta g) !! "nstance.dev/group" = Some (np_group p)) groups) (delete_orphan p desired).

(** The status of a pool that is refused. *)
Definition refuse (p : NstanceMachinePool) (reason message : string) : Step NstanceMachinePool :=
  now ←? look pe_now;
  pool_status (setConditionInPlace {| p with np_ready := false; np_observed := m_generation (np_meta p) |} "False" reason message now).

(** The first other pool of the same group. *)
Definition duplicate_of (p : NstanceMachinePool) (pools : list NstanceMachinePool) : option NstanceMachinePool :=
  head (filter (fun q => m_name (np_meta q) ≠ m_name (np_meta p) ∧ np_group q = np_group p) pools).

(** The MachinePool created for a pool that has none. *)
Definition new_machine_pool (namespace name : string) (annotations : gmap string string) (replicas : option Z) : MachinePool :=
  mkMachinePool (new_meta namespace name ∅ annotations []) pe_cluster_name replicas ("NstanceMachinePool", name).

Definition find_machine_pool (namespace name : string) : Step MachinePool :=
  o ←? found (call (fun n => pe_machine_pool n namespace name) (PGetMachinePool namespace name));
  match o with
  | Some mp => x_ret mp
  | None =>
      let mp := new_machine_pool namespace name ∅ None in
      call (fun n => pe_create_machine_pool n mp) (PCreateMachinePool mp)
  end.

Definition unchanged (p : NstanceMachinePool) (mp : MachinePool) : bool :=
  bool_decide (np_observed p = m_generation (np_meta p)) && bool_decide (np_observed_owner p = m_generation (mp_meta mp)) && np_ready p.

(** The first shard of the pool that is not connected. *)
Definition missing_shard (connections : gset string) (p : NstanceMachinePool) : option string :=
  head (filter (fun s => s ∉ connections) (np_shards p)).

(** The pool is marked as managed when it is not yet. *)
Definition adopt (p : NstanceMachinePool) : Step NstanceMachinePool :=
  if bool_decide (m_annotations (np_meta p) !! AnnotationManagedBy = Some AnnotationManagedByOperator) then x_ret p
  else
    let meta := np_meta p in
    pool_update {| p with np_meta := {| meta with m_annotations := <[AnnotationManagedBy := AnnotationManagedByOperator]> (m_annotations meta) |} |}.

Definition report (p : NstanceMachinePool) (mp : MachinePool) (allReady anyStatic : bool) : Step Result :=
  now ←? look pe_now;
  let p := {| p with np_ready := allReady; np_is_static := anyStatic;
                     np_observed := m_generation (np_meta p); np_observed_owner := m_generation (mp_meta mp) |} in
  _ ←? pool_status (if allReady then setConditionInPlace p "True" "Reconciled" "Successfully reconciled" now
                    else setConditionInPlace p "False" "Reconciling" "Waiting for shard groups to become ready" now);
  x_ret finished.

(** The shards are updated, with the sync manager paused. *)
Definition update_shards (p : NstanceMachinePool) (mp : MachinePool) : Step Result :=
  let sizes := distributeReplicas (default 0 (mp_replicas mp)) (np_shards p) in
  r ←? ensure_shards p sizes (np_shards p) true false;
  match r with
  | Err e =>
      now ←? look pe_now;
      let p := {| p with np_ready := false; np_observed := m_generation (np_meta p); np_observed_owner := m_generation (mp_meta mp) |} in
      _ ←? x_try (pool_status (setConditionInPlace p "False" "Invalid" (pe_text e) now));
      x_ret finished
  | Ok (allReady, anyStatic) =>
      _ ←? deleteOrphanedShardGroups p (list_to_set (np_shards p));
      p ←? adopt p;
      report p mp allReady anyStatic
  end.

Definition paused (m : Step Result) : Step Result :=
  if pe_sync then _ ←? note PPause; deferred m (note PResume) else m.

(** The part of [Reconcile] that has found the MachinePool. *)
Definition reconcile_replicas (p : NstanceMachinePool) (mp : MachinePool) : Step Result :=
  if unchanged p mp then x_ret finished
  else
    o ←? look pe_conns;
    match o with
    | None => x_ret (requeue_after second)
    | Some connections =>
        match missing_shard connections p with
        | Some shard =>
            _ ←? refuse p "Invalid" ("shard " ++ quoted shard ++ " is not available in operator config")%string;
            x_ret (requeue_after (10 * second))
        | None =>
            match np_shards p with
            | [] => _ ←? refuse p "Invalid" "spec.shards is required"; x_ret finished
            | _ :: _ =>
                (* [shards] is the slice of the pool: sorting it sorts the pool's *)
                let p := {| p with np_shards := sort_strings (np_shards p) |} in
                paused (update_shards p mp)
            end
        end
    end.

(** The part of [Reconcile] that follows the duplicate check. *)
Definition reconcile_shards (p : NstanceMachinePool) : Step Result :=
  mp ←? find_machine_pool (m_namespace (np_meta p)) (m_name (np_meta p));
  reconcile_replicas p mp.

(** The duplicate check, and what follows it. *)
Definition reconcile_unique (p : NstanceMachinePool) : Step Result :=
  pools ←? read (fun n => pe_pools n (m_namespace (np_meta p)));
  match duplicate_of p pools with
  | Some q =>
      _ ←? refuse p "DuplicateGroup" ("group " ++ quoted (np_group p) ++ " is already used by NstanceMachinePool " ++ quoted (m_name (np_meta q)))%string;
      x_ret finished
  | None => reconcile_shards p
  end.

Definition pool_deleted (p : NstanceMachinePool) : Step Result :=
  if has_finalizer NstanceMachinePoolFinalizer (np_meta p) then
    _ ←? deleteGroupFromShards (np_group p) (np_shards p);
    _ ←? pool_update {| p with np_meta := remove_finalizer NstanceMachinePoolFinalizer (np_meta p) |};
    x_ret finished
  else x_ret finished.

(** [NstanceMachinePoolReconciler.Reconcile]. *)
Definition ReconcilePool (namespace name : string) : Step Result :=
  o ←? found (get_pool namespace name);
  match o with
  | None => x_ret finished
  | Some p =>
      if m_deleting (np_meta p) then pool_deleted p
      else
        p ←? (if has_finalizer NstanceMachinePoolFinalizer (np_meta p) then x_ret p
              else pool_update {| p with np_meta := add_finalizer NstanceMachinePoolFinalizer (np_meta p) |});
        reconcile_unique p
  end.

(** [machinePoolToNstanceMachinePool]. *)
Definition machinePoolToNstanceMachinePool (mp : MachinePool) : list (string * string) :=
  if negb (bool_decide ((mp_infra mp).1 = "NstanceMachinePool")) then []
  else [(m_namespace (mp_meta mp), m_name (mp_meta mp))].

(** ** The NstanceShardGroup controller *)

(** [setCondition]. *)
Definition setCondition (g : NstanceShardGroup) (type status reason message : string) (now : Z) : NstanceShardGroup :=
  {| g with sg_conditions := set_condition false (mkCondition type status reason message now 0) (sg_conditions g) |}.

Definition record (name type reason message : string) : Step unit := note (PRecord name type reason message).

(** [upsertGroupOnShard] and [deleteGroupOnShard]. *)
Definition group_request (s : ShardGroupSpec) : ProtoGroupConfig :=
  mkProtoGroupConfig (sg_template s) (sg_size s) (sg_instance_type s) (sg_subnet_pool s) (sg_vars s) ∅.

Definition upsertGroupOnShard (g : NstanceShardGroup) : Step GroupStatus :=
  let s := sg_spec g in
  call (fun n => pe_upsert_group n (sg_shard s) (sg_group s) (group_request s)) (PUpsertGroup (sg_shard s) (sg_group s) (group_request s)).

Definition deleteGroupOnShard (g : NstanceShardGroup) : Step unit :=
  let s := sg_spec g in call (fun n => pe_delete_group n (sg_shard s) (sg_group s)) (PDeleteGroup (sg_shard s) (sg_group s)).

(** [reconcileDelete]. *)
Definition remove_shard_group (g : NstanceShardGroup) : Step Result :=
  let g' := {| g with sg_meta := remove_finalizer shardGroupFinalizer (sg_meta g) |} in
  _ ←? call (fun n => pe_update_shard_group n g') (PUpdateShardGroup g');
  x_ret finished.

Definition reconcileDelete (g : NstanceShardGroup) : Step Result :=
  if negb (has_finalizer shardGroupFinalizer (sg_meta g)) then x_ret finished
  else
    o ←? look pe_conns;
    match o with
    | None => x_ret (requeue_after second)
    | Some connections =>
        if negb (bool_decide (sg_shard (sg_spec g) ∈ connections)) then remove_shard_group g
        else
          r ←? x_try (deleteGroupOnShard g);
          match r with
          | Err e =>
              _ ←? record (m_name (sg_meta g)) "Warning" "DeleteFailed" ("Failed to delete group on shard " ++ sg_shard (sg_spec g) ++ ": " ++ pe_text e)%string;
              x_ret (requeue_after (10 * second))
          | Ok _ =>
              _ ←? record (m_name (sg_meta g)) "Normal" "DeleteSucceeded" "Group deleted from shard";
              remove_shard_group g
          end
    end.

(** The shard is not connected. *)
Definition shard_missing (g : NstanceShardGroup) : Step Result :=
  let message := ("Shard " ++ quoted (sg_shard (sg_spec g)) ++ " is not connected")%string in
  now ←? look pe_now;
  _ ←? record (m_name (sg_meta g)) "Warning" "ShardUnreachable" message;
  _ ←? sg_status (setCondition g ConditionTypeShardReachable "False" "ShardUnreachable" message now);
  x_ret (requeue_after (10 * second)).

(** What is recorded of a group the shard has taken. *)
Definition synced (g : NstanceShardGroup) (st : GroupStatus) (t1 t2 t3 : Z) : NstanceShardGroup :=
  let g := {| g with sg_config := Some (mkShardGroupConfig (gst_template st) (gst_subnet_pool st) (gst_instance_type st) (gst_vars st));
                     sg_is_static := gst_is_static st; sg_last_sync := Some t1; sg_observed := m_generation (sg_meta g) |} in
  setCondition (setCondition g ConditionTypeShardGroupReady "True" "SyncSucceeded" "Group synced successfully" t2)
    ConditionTypeConfigValid "True" "Valid" "Merged config is valid" t3.

Definition sync_group (g : NstanceShardGroup) : Step Result :=
  now ←? look pe_now;
  let g := setCondition g ConditionTypeShardReachable "True" "Connected" "Shard connection is healthy" now in
  r ←? x_try (upsertGroupOnShard g);
  match r with
  | Err e =>
      now ←? look pe_now;
      _ ←? record (m_name (sg_meta g)) "Warning" "ProviderError" (pe_text e);
      _ ←? x_try (sg_status (setCondition g ConditionTypeShardGroupReady "False" "ProviderError" (pe_text e) now));
      x_ret (requeue_after (30 * second))
  | Ok st =>
      t1 ←? look pe_now;
      t2 ←? look pe_now;
      t3 ←? look pe_now;
      _ ←? sg_status (synced g st t1 t2 t3);
      _ ←? record (m_name (sg_meta g)) "Normal" "SyncSucceeded" "Group synced successfully";
      x_ret finished
  end.

(** [NstanceShardGroupReconciler.Reconcile]. *)
Definition ReconcileShardGroup (namespace name : string) : Step Result :=
  o ←? found (read (fun n => pe_shard_group n namespace name));
  match o with
  | None => x_ret finished
  | Some g =>
      if m_deleting (sg_meta g) then reconcileDelete g
      else if negb (has_finalizer shardGroupFinalizer (sg_meta g)) then
        let g' := {| g with sg_meta := add_finalizer shardGroupFinalizer (sg_meta g) |} in
        _ ←? call (fun n => pe_update_shard_group n g') (PUpdateShardGroup g');
        x_ret (mkResult true 0)
      else if bool_decide (sg_observed g = m_generation (sg_meta g)) then x_ret finished
      else
        o ←? look pe_conns;
        match o with
        | None => x_ret (requeue_after second)
        | Some connections => if bool_decide (sg_shard (sg_spec g) ∈ connections) then sync_group g else shard_missing g
        end
  end.

(** ** The NstanceCluster controller *)

Definition ReconcileCluster (namespace name : string) : Step Result :=
  o ←? found (read (fun n => pe_cluster n namespace name));
  match o with
  | None => x_ret finished
  | Some c =>
      let provisioned := default false (nc_provisioned c) in
      let ready := bool_decide (condition_status "Ready" (nc_conditions c) ≠ None) in
      if provisioned && ready then x_ret finished
      else
        now ←? look pe_now;
        let condition := mkCondition "Ready" "True" "Provisioned" "Nstance does not require cluster-level infrastructure" now (m_generation (nc_meta c)) in
        let c := {| c with nc_provisioned := if provisioned then nc_provisioned c else Some true;
                           nc_conditions := if ready then nc_conditions c else nc_conditions c ++ [condition] |} in
        _ ←? call (fun n => pe_cluster_status n c) (PCluster c);
        x_ret finished
  end.
End Pools.

(** ** The webhook *)

(** [ValidateUpdate]; creations and deletions are always admitted. *)
Definition ValidateUpdate (oldPool newPool : NstanceMachinePool) : res unit :=
  if negb (np_is_static oldPool) then Ok tt
  else if negb (bool_decide (np_template oldPool = np_template newPool)) then Err (ErrMsg "cannot modify spec.template for static group")
  else if negb (bool_decide (np_subnet_pool oldPool = np_subnet_pool newPool)) then Err (ErrMsg "cannot modify spec.subnetPool for static group")
  else if negb (bool_decide (np_shards oldPool = np_shards newPool)) then Err (ErrMsg "cannot modify spec.shards for static group")
  else Ok tt.
End Pools.
