(* ===== verification/PoolsFacts.v ===== *)
(** * What the pool and shard group controllers guarantee

    The distribution of replicas adds up; a shard group's generation is recorded as
    observed only when its shard took that very specification; a pool is ready only
    when the groups of its shards have their shares; groups are deleted from their
    shards before the objects that stand for them disappear. *)

From S2P Require Import Prelude GoText GroupApi Process Operator Pools.
From stdpp Require Import sorting.
Import Pools.

#[local] Open Scope Z_scope.

(** ** Distribution *)

Definition int32_max : Z := 2 ^ 31.

Lemma wrap32_small z : 0 <= z < int32_max -> wrap32 z = z.
Proof. unfold wrap32, int32_max. intros H. rewrite Z.mod_small; lia. Qed.

Definition zsum (l : list Z) : Z := foldr Z.add 0 l.

Lemma foldl_insert_notin {A} (l : list (string * A)) (m : gmap string A) k :
  k ∉ l.*1 -> foldl (fun r p => <[p.1 := p.2]> r) m l !! k = m !! k.
Proof.
  revert m. induction l as [| [k' v] l IH]; intros m H; [done |]. cbn in *.
  rewrite IH by set_solver. rewrite lookup_insert_ne by set_solver. done.
Qed.

Lemma foldl_insert_lookup {A} (l : list (string * A)) (m : gmap string A) k v :
  NoDup l.*1 -> (k, v) ∈ l -> foldl (fun r p => <[p.1 := p.2]> r) m l !! k = Some v.
Proof.
  revert m. induction l as [| [k' v'] l IH]; intros m Hnd H; [by apply not_elem_of_nil in H |].
  cbn in *. apply NoDup_cons in Hnd as [Hn Hnd]. apply elem_of_cons in H as [[= -> ->] | H]; [| by apply IH].
  rewrite foldl_insert_notin by done. by rewrite lookup_insert_eq.
Qed.

(** What the [i]-th of [n] shards gets. *)
Definition fair_share (total n : Z) (i : nat) : Z := total `div` n + (if bool_decide (Z.of_nat i < total `mod` n) then 1 else 0).

Lemma share_fair total n i : 0 <= total < int32_max -> 0 < n < int32_max -> Z.of_nat i < n -> share total n i = fair_share total n i.
Proof.
  intros Ht Hn Hi. unfold share, fair_share. rewrite Z.quot_div_nonneg, Z.rem_mod_nonneg by lia.
  rewrite wrap32_small by (unfold int32_max in *; lia). case_bool_decide as E; [| lia]. apply wrap32_small.
  assert (0 <= total `div` n) by (apply Z.div_pos; lia). split; [lia |].
  destruct (decide (n = 1)) as [-> | N]; [rewrite Z.mod_1_r in E; lia |].
  assert (total `div` n <= total `div` 2) by (apply Z.div_le_compat_l; lia).
  assert (2 * (total `div` 2) <= total) by (apply Z.mul_div_le; lia). unfold int32_max in *. lia.
Qed.

(** Shares from the [k]-th shard on. *)
Lemma shares_from (q r : Z) (l : list string) (k : nat) :
  zsum (imap (fun i _ => q + (if bool_decide (Z.of_nat (k + i) < r) then 1 else 0)) l) =
  Z.of_nat (length l) * q + Z.max 0 (Z.min (Z.of_nat (length l)) (r - Z.of_nat k)).
Proof.
  revert k. induction l as [| x l IH]; intros k; [cbn; lia |].
  cbn [imap zsum foldr]. rewrite Nat.add_0_r.
  rewrite (imap_ext _ (fun i _ => q + (if bool_decide (Z.of_nat (S k + i) < r) then 1 else 0)) l) by (intros i y _; cbn; by rewrite Nat.add_succ_r).
  fold (zsum (imap (fun i (_ : string) => q + (if bool_decide (Z.of_nat (S k + i) < r) then 1 else 0)) l)).
  rewrite IH. cbn [length]. case_bool_decide; lia.
Qed.

Lemma distribute_lookup total shards i s :
  NoDup shards -> 0 <= total < int32_max -> Z.of_nat (length shards) < int32_max -> shards !! i = Some s ->
  distributeReplicas total shards !! s = Some (fair_share total (Z.of_nat (length shards)) i).
Proof.
  intros Hnd Ht Hl Hi. pose proof (lookup_lt_Some _ _ _ Hi) as Hlt. unfold distributeReplicas.
  rewrite wrap32_small by lia. rewrite bool_decide_eq_false_2 by lia.
  apply foldl_insert_lookup.
  - replace (imap _ shards).*1 with shards; [done |]. apply list_eq. intros j. rewrite list_lookup_fmap, list_lookup_imap.
    by destruct (shards !! j).
  - rewrite <- share_fair by (unfold int32_max in *; lia). apply (list_elem_of_lookup_2 _ i). by rewrite list_lookup_imap, Hi.
Qed.

Lemma distribute_sum total shards :
  NoDup shards -> shards <> [] -> 0 <= total < int32_max -> Z.of_nat (length shards) < int32_max ->
  zsum ((fun s => default 0 (distributeReplicas total shards !! s)) <$> shards) = total.
Proof.
  intros Hnd Hne Ht Hl. set (n := Z.of_nat (length shards)).
  assert (Hn : 0 < n) by (destruct shards; [done | unfold n; cbn; lia]).
  replace ((fun s => default 0 (distributeReplicas total shards !! s)) <$> shards)
    with (imap (fun i (_ : string) => total `div` n + (if bool_decide (Z.of_nat (0 + i) < total `mod` n) then 1 else 0)) shards).
  - rewrite shares_from. pose proof (Z.mod_pos_bound total n Hn). rewrite (Z.div_mod total n) at 3 by lia. fold n. lia.
  - apply list_eq. intros i. rewrite list_lookup_imap, list_lookup_fmap. destruct (shards !! i) as [s |] eqn:E; [| done].
    cbn. f_equal. rewrite (distribute_lookup total shards i s) by done. done.
Qed.

(** ** The shard group controller *)

Section ShardGroups.
Context {PE : PoolEnv}.

(** A generation recorded as observed was taken by the shard. *)
Definition observed_synced (l : list PoolEvent) (e : PoolEvent) : Prop :=
  match e with
  | PStatusShardGroup g _ =>
      sg_observed g = m_generation (sg_meta g) ->
      exists st, PUpsertGroup (sg_shard (sg_spec g)) (sg_group (sg_spec g)) (group_request (sg_spec g)) (Some (Ok st)) ∈ l /\
        sg_config g = Some (mkShardGroupConfig (gst_template st) (gst_subnet_pool st) (gst_instance_type st) (gst_vars st)) /\
        sg_is_static g = gst_is_static st
  | _ => True
  end.

(** A group object let go was deleted from its shard, if the shard is connected. *)
Definition deleted_first (l : list PoolEvent) (e : PoolEvent) : Prop :=
  match e with
  | PUpdateShardGroup g _ =>
      has_finalizer shardGroupFinalizer (sg_meta g) = false ->
      PDeleteGroup (sg_shard (sg_spec g)) (sg_group (sg_spec g)) (Some (Ok tt)) ∈ l \/
      exists n conns, pe_conns n = Some conns /\ sg_shard (sg_spec g) ∉ conns
  | _ => True
  end.

Lemma sync_group_guards g l : sg_observed g <> m_generation (sg_meta g) -> guards observed_synced l (sync_group g).
Proof.
  intros Hg. unfold sync_group. apply guards_look. intros n. unfold upsertGroupOnShard. apply guards_try_call; [done |].
  intros [st | e].
  - do 3 (apply guards_look; intros ?). unfold sg_status. apply guards_bind_call.
    + intros r _. exists st. split; [set_solver | done].
    + intros a. apply guards_all. unfold record. all_steps fail.
  - apply guards_look. intros n'. unfold record. apply (guards_bind_all observed_synced); [all_steps fail |]. intros t _.
    apply guards_try_call; [| intros r; apply guards_ret]. intros r H. by destruct Hg.
Qed.

Lemma shard_missing_guards g l : sg_observed g <> m_generation (sg_meta g) -> guards observed_synced l (shard_missing g).
Proof.
  intros Hg. unfold shard_missing. apply guards_look. intros n. apply guards_bind_all; [unfold record; all_steps fail |].
  intros t _. apply guards_bind_call; [| intros; apply guards_ret]. intros r H. by destruct Hg.
Qed.

Lemma remove_guards g l :
  PDeleteGroup (sg_shard (sg_spec g)) (sg_group (sg_spec g)) (Some (Ok tt)) ∈ l \/
  (exists n conns, pe_conns n = Some conns /\ sg_shard (sg_spec g) ∉ conns) ->
  guards deleted_first l (remove_shard_group g).
Proof. intros H. unfold remove_shard_group. apply guards_bind_call; [by intros r _ | intros; apply guards_ret]. Qed.

Lemma reconcileDelete_guards g l : guards deleted_first l (reconcileDelete g).
Proof.
  unfold reconcileDelete. case_match; [apply guards_ret |]. apply guards_look. intros n.
  destruct (pe_conns n) as [conns |] eqn:En; [| apply guards_ret].
  case_bool_decide as Hin; cbn [negb].
  - unfold deleteGroupOnShard. apply guards_try_call; [done |]. intros [[] | e].
    + apply guards_bind_all; [unfold record; all_steps fail |]. intros t _. apply remove_guards. left. set_solver.
    + apply guards_all. unfold record. all_steps fail.
  - apply remove_guards. right. by exists n, conns.
Qed.

Lemma reconcileDelete_no_status g : all_calls (fun e => forall l, observed_synced l e) (reconcileDelete g).
Proof. unfold reconcileDelete, remove_shard_group, deleteGroupOnShard, record. all_steps fail. Qed.

Lemma shard_group_observed namespace name : guards observed_synced [] (ReconcileShardGroup namespace name).
Proof.
  unfold ReconcileShardGroup. apply guards_found_read. intros [g |]; [| apply guards_ret].
  case_match; [apply guards_all, reconcileDelete_no_status |]. case_match; [apply guards_all; all_steps fail |].
  case_bool_decide as Hg; [apply guards_ret |]. apply guards_look. intros n.
  destruct (pe_conns n); [| apply guards_ret]. case_match; [by apply sync_group_guards | by apply shard_missing_guards].
Qed.

Lemma added_finalizer f m : has_finalizer f (add_finalizer f m) = true.
Proof. unfold add_finalizer. destruct (has_finalizer f m) eqn:E; [done |]. apply bool_decide_eq_true. cbn. set_solver. Qed.

Lemma shard_group_deleted namespace name : guards deleted_first [] (ReconcileShardGroup namespace name).
Proof.
  unfold ReconcileShardGroup. apply guards_found_read. intros [g |]; [| apply guards_ret].
  case_match; [apply reconcileDelete_guards |]. case_match.
  - apply guards_bind_call; [| intros; apply guards_ret]. intros r. cbn. by rewrite added_finalizer.
  - apply guards_all. unfold sync_group, shard_missing, sg_status, upsertGroupOnShard, record. all_steps fail.
Qed.
End ShardGroups.

(** ** The pool controller *)

Definition not_status (e : PoolEvent) : Prop := match e with PStatus _ _ => False | _ => True end.

(** The group of a shard is what the pool wants of it: it was read so, created so, or
    read and updated. *)
Definition shard_settled (p : NstanceMachinePool) (shard : string) (size : Z) (g : NstanceShardGroup) (t : list PoolEvent) : Prop :=
  let namespace := m_namespace (np_meta p) in
  let name := NstanceShardGroupName (np_group p) shard in
  (PGetShardGroup namespace name (Some (Ok g)) ∈ t /\ wanted_spec p size (sg_spec g) = sg_spec g) \/
  PCreateShardGroup (new_shard_group p shard size) (Some (Ok g)) ∈ t \/
  exists g0, PGetShardGroup namespace name (Some (Ok g0)) ∈ t /\
    PUpdateShardGroup {| g0 with sg_spec := wanted_spec p size (sg_spec g0) |} (Some (Ok g)) ∈ t.

Lemma shard_settled_mono p shard size g t t' : shard_settled p shard size g t -> t ⊆ t' -> shard_settled p shard size g t'.
Proof.
  intros [[H1 H2] | [H | (g0 & H1 & H2)]] Hs; [left; split; [by apply Hs | done] | right; left; by apply Hs | right; right; exists g0; split; by apply Hs].
Qed.

(** The pool and the MachinePool as the API server returned them. *)
Definition pool_seen (p : NstanceMachinePool) (t : list PoolEvent) : Prop :=
  (exists namespace name, PGetPool namespace name (Some (Ok p)) ∈ t) \/ exists p', PUpdate p' (Some (Ok p)) ∈ t.

Definition machine_pool_seen (mp : MachinePool) (t : list PoolEvent) : Prop :=
  (exists namespace name, PGetMachinePool namespace name (Some (Ok mp)) ∈ t) \/ exists mp', PCreateMachinePool mp' (Some (Ok mp)) ∈ t.

(** A pool's shares by shard. *)
Definition pool_sizes (p : NstanceMachinePool) (mp : MachinePool) : gmap string Z :=
  distributeReplicas (default 0 (mp_replicas mp)) (sort_strings (np_shards p)).

Definition share_of (p : NstanceMachinePool) (mp : MachinePool) (shard : string) : Z := default 0 (pool_sizes p mp !! shard).

(** A pool reported as ready has groups that are ready and have their shares. *)
Definition ready_settled (l : list PoolEvent) (e : PoolEvent) : Prop :=
  match e with
  | PStatus q _ =>
      np_ready q = true ->
      exists p mp, pool_seen p l /\ machine_pool_seen mp l /\
        forall shard, shard ∈ np_shards p -> exists g, shard_settled p shard (share_of p mp shard) g l /\ isShardGroupReady g = true
  | _ => True
  end.

Section PoolRuns.
Context {PE : PoolEnv}.

Lemma ensure_appends p shard size :
  appends (fun t r => Forall not_status t /\ forall g, r = Some (Ok g) -> shard_settled p shard size g t) (ensureShardGroup p shard size).
Proof.
  unfold ensureShardGroup. eapply appends_bind; [apply appends_found_call | | |].
  - intros t1 o (x & -> & Hx). rewrite (Hx o eq_refl). destruct o as [g |].
    + case_bool_decide as E.
      * eapply appends_weaken; [apply appends_ret |]. intros t r [-> ->]. split; [by repeat constructor |].
        intros g' [= <-]. left. split; [set_solver | done].
      * eapply appends_weaken; [apply appends_wrap_call |]. cbn. intros t r (r' & -> & Hr). split; [by repeat constructor |].
        intros g' ->. rewrite (Hr g' eq_refl). right. right. exists g. split; set_solver.
    + eapply appends_weaken; [apply appends_wrap_call |]. cbn. intros t r (r' & -> & Hr). split; [by repeat constructor |].
      intros g' ->. rewrite (Hr g' eq_refl). right. left. set_solver.
  - intros t e (x & -> & _). split; [by repeat constructor | done].
  - intros t (x & -> & _). split; [by repeat constructor | done].
Qed.

Lemma ensure_shards_appends p sizes shards ready static :
  appends (fun t r => Forall not_status t /\
             forall b, r = Some (Ok (Ok (true, b))) -> ready = true /\
               forall shard, shard ∈ shards -> exists g, shard_settled p shard (default 0 (sizes !! shard)) g t /\ isShardGroupReady g = true)
    (ensure_shards p sizes shards ready static).
Proof.
  revert ready static. induction shards as [| shard shards IH]; intros ready static; cbn [ensure_shards].
  - eapply appends_weaken; [apply appends_ret |]. intros t r [-> ->]. split; [done |]. intros b [= -> ->]. split; [done |]. set_solver.
  - eapply (appends_bind (fun t r => Forall not_status t /\ forall g, r = Some (Ok (Ok g)) -> shard_settled p shard (default 0 (sizes !! shard)) g t)).
    + eapply appends_try; [apply ensure_appends | |]; cbn.
      * intros t r [F H]. split; [done |]. intros g [= ->]. by apply H.
      * intros t [F H]. by split.
    + intros t1 [g | e] [F1 H1].
      * eapply appends_weaken; [apply IH |]. cbn. intros t r [F H]. split; [by apply Forall_app |].
        intros b E. destruct (H b E) as [Hr Hs]. apply andb_true_iff in Hr as [-> Hg]. split; [done |].
        intros s [-> | Hin]%elem_of_cons.
        { exists g. split; [| done]. eapply shard_settled_mono; [by apply H1 | set_solver]. }
        { destruct (Hs s Hin) as (g' & Hs' & Hg'). exists g'. split; [| done]. eapply shard_settled_mono; [exact Hs' | set_solver]. }
      * eapply appends_weaken; [apply appends_ret |]. intros t r [-> ->]. rewrite app_nil_r. by split.
    + intros t e [F _]. by split.
    + intros t [F _]. by split.
Qed.

Lemma update_shards_guards p mp l :
  pool_seen p l -> machine_pool_seen mp l ->
  guards ready_settled l (update_shards {| p with np_shards := sort_strings (np_shards p) |} mp).
Proof.
  intros Hp Hmp. set (p' := {| p with np_shards := sort_strings (np_shards p) |}). unfold update_shards.
  eapply (guards_bind ready_settled).
  { eapply appends_weaken; [apply ensure_shards_appends |]. intros t r [F H]. split; [| exact H].
    apply guarded_all. eapply Forall_impl; [exact F |]. by intros []. }
  intros t [[[] static] | e] H.
  - destruct (H static eq_refl) as [_ Hs].
    assert (Hall : forall l', (l ++ t) ⊆ l' -> exists p mp, pool_seen p l' /\ machine_pool_seen mp l' /\
       forall shard, shard ∈ np_shards p -> exists g, shard_settled p shard (share_of p mp shard) g l' /\ isShardGroupReady g = true).
    { intros l' Hl. exists p, mp. split; [| split].
      - destruct Hp as [(a & b & Hp) | (q & Hp)]; [left; exists a, b | right; exists q]; apply Hl; set_solver.
      - destruct Hmp as [(a & b & Hm) | (q & Hm)]; [left; exists a, b | right; exists q]; apply Hl; set_solver.
      - intros shard Hin. destruct (Hs shard) as (g & Hg & Hr); [cbn; unfold sort_strings; by rewrite merge_sort_Permutation |].
        exists g. split; [| done]. eapply (shard_settled_mono p' ); [exact Hg | set_solver]. }
    apply guards_bind_all; [unfold deleteOrphanedShardGroups, delete_orphan; all_steps fail |]. intros t2 _.
    apply guards_bind_all; [unfold adopt, pool_update; all_steps fail |]. intros t3 q.
    unfold report. apply guards_look. intros n. apply guards_bind_call; [| intros; apply guards_ret].
    intros r _. apply Hall. set_solver.
  - apply guards_bind_all; [unfold deleteOrphanedShardGroups, delete_orphan; all_steps fail |]. intros t2 _.
    apply guards_bind_all; [unfold adopt, pool_update; all_steps fail |]. intros t3 q.
    unfold report. apply guards_look. intros n. apply guards_bind_call; [| intros; apply guards_ret]. by intros r.
  - apply guards_look. intros n. apply guards_try_call; [by intros r | intros; apply guards_ret].
Qed.

Lemma paused_guards Φ l (m : X (Run PoolEvent) Result) :
  (forall l', Φ l' PPause) -> (forall l', Φ l' PResume) -> (forall l', l ⊆ l' -> guards Φ l' m) -> guards Φ l (paused m).
Proof.
  intros Hp Hr Hm. unfold paused. case_match; [| by apply Hm].
  eapply (guards_bind Φ l (fun t _ => t = [PPause])).
  { eapply appends_weaken; [apply appends_note |]. intros t r [-> ->]. split; [by apply guarded_one | done]. }
  intros t [] ->. unfold deferred. apply guards_try; [apply Hm; set_solver |]. intros t r. apply guards_bind_all; [| intros; apply guards_all; unfold x_res; by destruct r; [apply all_ret | apply all_fail]].
  apply all_note. done.
Qed.

Lemma machine_pool_seen_mono mp l l' : machine_pool_seen mp l -> l ⊆ l' -> machine_pool_seen mp l'.
Proof. intros [(a & b & H) | (q & H)] Hl; [left; exists a, b | right; exists q]; by apply Hl. Qed.

Lemma pool_seen_mono p l l' : pool_seen p l -> l ⊆ l' -> pool_seen p l'.
Proof. intros [(a & b & H) | (q & H)] Hl; [left; exists a, b | right; exists q]; by apply Hl. Qed.

(** The MachinePool of a pool, and what follows it. *)
Lemma find_machine_pool_guards Φ l {B} namespace name (k : MachinePool -> X (Run PoolEvent) B) :
  (forall l' a b r, Φ l' (PGetMachinePool a b r)) -> (forall l' mp r, Φ l' (PCreateMachinePool mp r)) ->
  (forall t mp, machine_pool_seen mp (l ++ t) -> guards Φ (l ++ t) (k mp)) ->
  guards Φ l (x_bind (find_machine_pool namespace name) k).
Proof.
  intros Hg Hc Hk. eapply (guards_bind Φ l (fun t r => forall mp, r = Some (Ok mp) -> machine_pool_seen mp t)).
  - unfold find_machine_pool. eapply appends_bind; [apply appends_found_call | | |].
    + intros t o (x & -> & Hx). rewrite (Hx o eq_refl). destruct o as [mp |].
      * eapply appends_weaken; [apply appends_ret |]. intros t r [-> ->]. rewrite app_nil_r. split; [apply guarded_one, Hg |].
        intros mp' [= <-]. left. exists namespace, name. set_solver.
      * eapply appends_weaken; [apply appends_call |]. cbn. intros t r ->. split.
        { apply (guarded_app _ [_] [_]); apply guarded_one; auto. }
        intros mp' ->. right. eexists. right. left.
    + intros t e (x & -> & _). split; [apply guarded_one, Hg | done].
    + intros t (x & -> & _). split; [apply guarded_one, Hg | done].
  - intros t mp H. apply Hk. eapply machine_pool_seen_mono; [by apply H | set_solver].
Qed.

Lemma reconcile_shards_ready p l : pool_seen p l -> guards ready_settled l (reconcile_shards p).
Proof.
  intros Hp. unfold reconcile_shards. apply find_machine_pool_guards; [done | done |]. intros t mp Hmp.
  unfold reconcile_replicas. case_match; [apply guards_ret |]. apply guards_look. intros n. destruct (pe_conns n) as [conns |]; [| apply guards_ret].
  destruct (missing_shard conns p).
  - apply guards_all. unfold refuse, pool_status. all_steps fail.
  - destruct (np_shards p) as [| x xs] eqn:Ex; [apply guards_all; unfold refuse, pool_status; all_steps fail |].
    apply paused_guards; [done | done |]. intros l' Hl. rewrite <- Ex. apply update_shards_guards.
    + eapply pool_seen_mono; [exact Hp |]. set_solver.
    + by eapply machine_pool_seen_mono.
Qed.

Lemma unique_ready p l : pool_seen p l -> guards ready_settled l (reconcile_unique p).
Proof.
  intros Hp. unfold reconcile_unique. apply guards_bind_all; [apply all_read |]. intros t pools.
  destruct (duplicate_of p pools); [apply guards_all; unfold refuse, pool_status; all_steps fail |].
  apply reconcile_shards_ready. eapply pool_seen_mono; [exact Hp | set_solver].
Qed.

Lemma pool_ready_guards namespace name : guards ready_settled [] (ReconcilePool namespace name).
Proof.
  unfold ReconcilePool, get_pool. apply guards_found_call; [done |]. intros [p |]; [| apply guards_ret].
  case_match; [apply guards_all; unfold pool_deleted, deleteGroupFromShards, delete_from_shard, pool_update; all_steps fail |].
  destruct (has_finalizer NstanceMachinePoolFinalizer (np_meta p)).
  - eapply (guards_bind ready_settled _ (fun t r => t = [] /\ r = Some (Ok p))).
    + eapply appends_weaken; [apply appends_ret |]. intros t r [-> ->]. split; [apply guarded_nil | done].
    + intros t a [-> [= ->]]. apply unique_ready. left. exists namespace, name. set_solver.
  - unfold pool_update. apply guards_bind_call; [done |]. intros q. apply unique_ready. right. eexists. apply elem_of_app. right. by apply list_elem_of_singleton.
Qed.
End PoolRuns.

(** ** Sizes without a MachinePool *)

(** A shard group is written with no replicas. *)
Definition zero_sized (e : PoolEvent) : Prop :=
  match e with
  | PCreateShardGroup g _ | PUpdateShardGroup g _ => sg_size (sg_spec g) = 0
  | _ => True
  end.

Lemma zero_distribution shards s : Z.of_nat (length shards) < int32_max -> default 0 (distributeReplicas 0 shards !! s) = 0.
Proof.
  intros Hl. unfold distributeReplicas. case_bool_decide as En; [by rewrite lookup_empty |].
  assert (H : forall (l : list (string * Z)) (m : gmap string Z), Forall (fun p => p.2 = 0) l -> default 0 (m !! s) = 0 ->
            default 0 (foldl (fun r p => <[p.1 := p.2]> r) m l !! s) = 0).
  { induction l as [| [k v] l IH]; intros m F Hm; [done |]. inversion F as [| ? ? Hv F']; subst. cbn in *. apply IH; [done |].
    destruct (decide (k = s)) as [-> | N]; [by rewrite lookup_insert_eq | by rewrite lookup_insert_ne]. }
  apply H; [| done]. apply Forall_lookup. intros i [k v] Hi. rewrite list_lookup_imap in Hi.
  destruct (shards !! i) as [x |] eqn:Ei; [| done]. injection Hi as <- <-. cbn. apply lookup_lt_Some in Ei.
  unfold share. rewrite wrap32_small by lia. rewrite Z.quot_0_l, Z.rem_0_l by done. rewrite bool_decide_eq_false_2 by lia. done.
Qed.

Section NoMachinePool.
Context {PE : PoolEnv}.

(** Slices are shorter than an [int32] can count. *)
Definition small (p : NstanceMachinePool) : Prop := Z.of_nat (length (np_shards p)) < int32_max.

Lemma ensure_zero p shard : all_calls zero_sized (ensureShardGroup p shard 0).
Proof. unfold ensureShardGroup. all_steps fail. Qed.

Lemma ensure_shards_zero p sizes shards ready static :
  (forall shard, default 0 (sizes !! shard) = 0) -> all_calls zero_sized (ensure_shards p sizes shards ready static).
Proof.
  intros Hs. revert ready static. induction shards as [| shard shards IH]; intros ready static; cbn [ensure_shards]; [apply all_ret |].
  rewrite Hs. apply all_bind; [apply all_try, ensure_zero |]. intros [g | e]; [apply IH | apply all_ret].
Qed.

Lemma update_shards_zero p mp : small p -> mp_replicas mp = None -> all_calls zero_sized (update_shards p mp).
Proof.
  intros Hp Hmp. unfold update_shards. rewrite Hmp. cbn [from_option id]. apply all_bind.
  - apply ensure_shards_zero. intros shard. by apply zero_distribution.
  - intros [[ready static] | e]; unfold deleteOrphanedShardGroups, delete_orphan, adopt, report, pool_update, pool_status; all_steps fail.
Qed.

Context (Hget : forall n namespace name, pe_machine_pool n namespace name = Some (Err ErrNotFound)).
Context (Hcreate : forall n mp mp', pe_create_machine_pool n mp = Some (Ok mp') -> mp_replicas mp' = mp_replicas mp).

Lemma find_none namespace name :
  appends (fun t r => Forall zero_sized t /\ forall mp, r = Some (Ok mp) -> mp_replicas mp = None) (find_machine_pool namespace name).
Proof.
  intros s.
  assert (E : find_machine_pool namespace name s =
    call (fun n => pe_create_machine_pool n (new_machine_pool namespace name ∅ None)) (PCreateMachinePool (new_machine_pool namespace name ∅ None))
      (mkRun (S (run_tick s)) (run_trace s ++ [PGetMachinePool namespace name (Some (Err ErrNotFound))]))).
  { unfold find_machine_pool, found. rewrite !x_bind_eq, x_try_eq. unfold call at 1. rewrite Hget. cbn. by rewrite bool_decide_eq_true_2. }
  rewrite E. cbn. eexists. rewrite <- app_assoc. split; [done |]. split; [by repeat constructor |]. intros mp H. by rewrite (Hcreate _ _ _ H).
Qed.

Lemma paused_all P (m : X (Run PoolEvent) Result) : P PPause -> P PResume -> all_calls P m -> all_calls P (paused m).
Proof.
  intros Hp Hr Hm. unfold paused, deferred. case_match; [| done]. apply all_bind; [by apply all_note |]. intros [].
  apply all_bind; [by apply all_try |]. intros r. apply all_bind; [by apply all_note |]. intros []. unfold x_res.
  destruct r; [apply all_ret | apply all_fail].
Qed.

Lemma replicas_zero p mp : small p -> mp_replicas mp = None -> all_calls zero_sized (reconcile_replicas p mp).
Proof.
  intros Hp Hmp. unfold reconcile_replicas, refuse, pool_status. all_steps ltac:(apply paused_all; [done | done |]).
  apply update_shards_zero; [| done]. unfold small in *. cbn [np_shards]. unfold sort_strings. rewrite merge_sort_Permutation. congruence.
Qed.

Lemma reconcile_zero p : small p -> all_calls zero_sized (reconcile_unique p).
Proof.
  intros Hp. unfold reconcile_unique. apply all_bind; [apply all_read |]. intros pools.
  destruct (duplicate_of p pools); [unfold refuse, pool_status; all_steps fail |].
  unfold reconcile_shards. eapply appends_bind; [apply find_none | | by intros t e [F _] | by intros t [F _]].
  intros t1 mp [F1 H1]. eapply appends_weaken; [apply (replicas_zero p mp Hp (H1 mp eq_refl)) |]. intros t r F. by apply Forall_app.
Qed.
End NoMachinePool.

(** ** Deletion of a pool *)

(** The API server keeps the finalizers it is given. *)
Class PoolLaws (PE : PoolEnv) := {
  pe_update_finalizers : forall n p p', pe_update n p = Some (Ok p') -> m_finalizers (np_meta p') = m_finalizers (np_meta p);
}.

Definition not_update (e : PoolEvent) : Prop := match e with PUpdate _ _ => False | _ => True end.

(** A pool let go was deleted from all its shards. *)
Definition pool_deleted_first (l : list PoolEvent) (e : PoolEvent) : Prop :=
  match e with
  | PUpdate p _ =>
      has_finalizer NstanceMachinePoolFinalizer (np_meta p) = false ->
      forall shard, shard ∈ np_shards p -> PDeleteGroup shard (np_group p) (Some (Ok tt)) ∈ l
  | _ => True
  end.

Section Deletion.
Context {PE : PoolEnv} {PL : PoolLaws PE}.

Lemma delete_from_shard_appends connections key shard failed :
  appends (fun t r => Forall not_update t /\ (r = Some (Ok false) -> failed = false /\ PDeleteGroup shard key (Some (Ok tt)) ∈ t))
    (delete_from_shard connections key shard failed).
Proof.
  unfold delete_from_shard. case_match; [eapply appends_weaken; [apply appends_ret |]; intros t r [-> ->]; by split |].
  intros s. rewrite x_bind_eq, x_try_eq. unfold call.
  destruct (pe_delete_group (run_tick s) shard key) as [[[] | e] |]; cbn; eexists; (split; [done |]); (split; [by repeat constructor |]);
    intros E; simplify_eq; destruct failed; try done. split; [done | set_solver].
Qed.

Lemma delete_group_appends connections key shards failed :
  appends (fun t r => Forall not_update t /\
             (r = Some (Ok false) -> failed = false /\ forall shard, shard ∈ shards -> PDeleteGroup shard key (Some (Ok tt)) ∈ t))
    (x_fold (fun failed shard => delete_from_shard connections key shard failed) failed shards).
Proof.
  revert failed. induction shards as [| shard shards IH]; intros failed; cbn [x_fold].
  - eapply appends_weaken; [apply appends_ret |]. intros t r [-> ->]. split; [done |]. intros [= ->]. split; [done | set_solver].
  - eapply appends_bind; [apply delete_from_shard_appends | | by intros t e [F _]; split | by intros t [F _]; split].
    cbn. intros t1 b [F1 H1]. eapply appends_weaken; [apply IH |]. cbn. intros t r [F H]. split; [by apply Forall_app |].
    intros E. destruct (H E) as [-> Hs]. destruct (H1 eq_refl) as [-> Hd]. split; [done |].
    intros x [-> | Hx]%elem_of_cons; apply elem_of_app; [by left | right; auto].
Qed.

Lemma delete_all_appends key shards :
  appends (fun t r => Forall not_update t /\ (r = Some (Ok tt) -> forall shard, shard ∈ shards -> PDeleteGroup shard key (Some (Ok tt)) ∈ t))
    (deleteGroupFromShards key shards).
Proof.
  unfold deleteGroupFromShards. eapply appends_bind; [apply appends_read | | by intros t e ->; split | by intros t ->; split].
  cbn. intros t1 o ->. destruct o as [connections |]; [| eapply appends_weaken; [apply appends_fail |]; by intros t r [-> ->]; split].
  eapply appends_bind; [apply delete_group_appends | | by intros t e [F _]; split | by intros t [F _]; split].
  cbn. intros t1 [] [F H]; (eapply appends_weaken; [apply appends_fail || apply appends_ret |]); intros t r [-> ->]; rewrite app_nil_r; split; try done.
  intros _. by apply H.
Qed.

Lemma deleted_guards p l : guards pool_deleted_first l (pool_deleted p).
Proof.
  unfold pool_deleted. case_match; [| apply guards_ret].
  apply (guards_bind pool_deleted_first l (fun t r => r = Some (Ok tt) -> forall shard, shard ∈ np_shards p -> PDeleteGroup shard (np_group p) (Some (Ok tt)) ∈ t)).
  - eapply appends_weaken; [apply delete_all_appends |]. intros t r [F H']. split; [| done].
    apply guarded_all. eapply Forall_impl; [exact F |]. by intros [].
  - intros t [] Ht. apply guards_bind_call; [| intros; apply guards_ret]. intros r _ shard Hin. apply elem_of_app. right. by apply Ht.
Qed.

Lemma ensure_shards_no_update p sizes shards ready static : all_calls not_update (ensure_shards p sizes shards ready static).
Proof.
  revert ready static. induction shards as [| shard shards IH]; intros ready static; cbn [ensure_shards]; [apply all_ret |].
  unfold ensureShardGroup. all_steps ltac:(apply IH).
Qed.

Lemma update_shards_keeps p mp :
  has_finalizer NstanceMachinePoolFinalizer (np_meta p) = true -> all_calls (fun e => forall l, pool_deleted_first l e) (update_shards p mp).
Proof.
  intros Hf. unfold update_shards. apply all_bind.
  { eapply appends_weaken; [apply ensure_shards_no_update |]. intros t r F. eapply Forall_impl; [exact F |]. by intros []. }
  intros [[ready static] | e]; unfold deleteOrphanedShardGroups, delete_orphan, adopt, report, pool_status, pool_update;
    all_steps ltac:(fail);
    apply all_call; intros r l Hn; change (has_finalizer NstanceMachinePoolFinalizer (np_meta p) = false) in Hn; congruence.
Qed.

Lemma reconcile_keeps p :
  has_finalizer NstanceMachinePoolFinalizer (np_meta p) = true -> all_calls (fun e => forall l, pool_deleted_first l e) (reconcile_unique p).
Proof.
  intros Hf. unfold reconcile_unique, reconcile_shards, reconcile_replicas, find_machine_pool, refuse, pool_status.
  all_steps ltac:(apply paused_all; [done | done |]). by apply update_shards_keeps.
Qed.

Lemma pool_deletion_guards namespace name : guards pool_deleted_first [] (ReconcilePool namespace name).
Proof.
  unfold ReconcilePool, get_pool. apply guards_found_call; [done |]. intros [p |]; [| apply guards_ret].
  case_match; [apply deleted_guards |].
  destruct (has_finalizer NstanceMachinePoolFinalizer (np_meta p)) eqn:Hf.
  - apply guards_all. exact (reconcile_keeps p Hf).
  - apply (guards_bind pool_deleted_first _ (fun t r => forall q, r = Some (Ok q) -> has_finalizer NstanceMachinePoolFinalizer (np_meta q) = true)).
    + intros s. eexists. split; [done |]. split.
      { apply guarded_one. cbn. by rewrite added_finalizer. }
      intros q E. unfold pool_update, call in E. cbn in E. apply pe_update_finalizers in E. unfold has_finalizer. rewrite E. apply added_finalizer.
    + intros t q Hq. apply guards_all, reconcile_keeps. by apply Hq.
Qed.
End Deletion.

(** ** A stale condition *)

(** The object as the API server stores a changed specification. *)
Definition bumped (g : NstanceShardGroup) : NstanceShardGroup :=
  let meta := sg_meta g in {| g with sg_meta := {| meta with m_generation := m_generation meta + 1 |} |}.

Lemma ensure_stale (PE : PoolEnv) p shard size g s :
  pe_shard_group (run_tick s) (m_namespace (np_meta p)) (NstanceShardGroupName (np_group p) shard) = Some (Ok g) ->
  sg_size (sg_spec g) <> size -> (forall n g, pe_update_shard_group n g = Some (Ok (bumped g))) ->
  let g1 := {| g with sg_spec := wanted_spec p size (sg_spec g) |} in
  ensureShardGroup p shard size s =
    (mkRun (S (S (run_tick s))) (run_trace s ++ [PGetShardGroup (m_namespace (np_meta p)) (NstanceShardGroupName (np_group p) shard) (Some (Ok g));
       PUpdateShardGroup g1 (Some (Ok (bumped g1)))]), Some (Ok (bumped g1))).
Proof.
  intros Hg Hs Hu g1. unfold ensureShardGroup, found. rewrite !x_bind_eq, x_try_eq. unfold call at 1. rewrite Hg. cbn.
  rewrite bool_decide_eq_false_2 by (intros E; apply Hs; by rewrite <- E).
  unfold x_wrap, call, mbind, M_bind, mret, M_ret. cbn. rewrite Hu. by rewrite <- app_assoc.
Qed.

(** ** Claims *)

(** C34. Replicas are distributed fairly and completely.  Over distinct shards, and for
    numbers an [int32] holds, the sizes add up to the replicas, and the [i]-th shard
    gets the quotient, plus one if [i] is below the remainder. *)
Theorem replicas_distributed (total : Z) (shards : list string) :
  NoDup shards -> shards <> [] -> 0 <= total < int32_max -> Z.of_nat (length shards) < int32_max ->
  zsum ((fun s => default 0 (distributeReplicas total shards !! s)) <$> shards) = total /\
  forall i s, shards !! i = Some s -> distributeReplicas total shards !! s = Some (fair_share total (Z.of_nat (length shards)) i).
Proof. intros Hn Hne Ht Hl. split; [by apply distribute_sum |]. intros i s. by apply distribute_lookup. Qed.

(** C35. An observed generation was synchronised.  Whatever fails, a status that records a
    shard group's generation as observed is written only after the shard has taken that
    very specification, and with the configuration the shard answered. *)
Theorem shard_group_observed_synced (PE : PoolEnv) (namespace name : string) (s : Run PoolEvent) (l1 l2 : list PoolEvent)
    (g : NstanceShardGroup) (r : option (res NstanceShardGroup)) :
  run_trace (ReconcileShardGroup namespace name s).1 = run_trace s ++ l1 ++ PStatusShardGroup g r :: l2 ->
  sg_observed g = m_generation (sg_meta g) ->
  exists st, PUpsertGroup (sg_shard (sg_spec g)) (sg_group (sg_spec g)) (group_request (sg_spec g)) (Some (Ok st)) ∈ l1 /\
    sg_config g = Some (mkShardGroupConfig (gst_template st) (gst_subnet_pool st) (gst_instance_type st) (gst_vars st)) /\
    sg_is_static g = gst_is_static st.
Proof. intros E. exact (guards_run observed_synced _ s l1 _ l2 (shard_group_observed namespace name) E). Qed.

(** A pool is ready only when its shards have their shares.  Whatever fails, a status
    that reports a pool as ready follows, for every shard of the pool, the sight of a
    shard group that is ready and has, or was just given, the pool's template, instance
    type, subnet pool and variables and the shard's share of the replicas of the
    MachinePool. *)
Theorem ready_pool_settled (PE : PoolEnv) (namespace name : string) (s : Run PoolEvent) (l1 l2 : list PoolEvent)
    (q : NstanceMachinePool) (r : option (res NstanceMachinePool)) :
  run_trace (ReconcilePool namespace name s).1 = run_trace s ++ l1 ++ PStatus q r :: l2 -> np_ready q = true ->
  exists p mp, pool_seen p l1 /\ machine_pool_seen mp l1 /\
    forall shard, shard ∈ np_shards p -> exists g, shard_settled p shard (share_of p mp shard) g l1 /\ isShardGroupReady g = true.
Proof. intros E. exact (guards_run ready_settled _ s l1 _ l2 (pool_ready_guards namespace name) E). Qed.

(** Groups are deleted from their shards first.  An update that lets a pool go
    follows a successful deletion of its group on every one of its shards; one that lets
    a shard group go follows the deletion on its shard, unless the shard was not among
    the connections. *)
Theorem groups_deleted_first (PE : PoolEnv) (PL : PoolLaws PE) (namespace name : string) (s : Run PoolEvent) (l1 l2 : list PoolEvent) :
  (forall p r, run_trace (ReconcilePool namespace name s).1 = run_trace s ++ l1 ++ PUpdate p r :: l2 ->
     has_finalizer NstanceMachinePoolFinalizer (np_meta p) = false ->
     forall shard, shard ∈ np_shards p -> PDeleteGroup shard (np_group p) (Some (Ok tt)) ∈ l1) /\
  (forall g r, run_trace (ReconcileShardGroup namespace name s).1 = run_trace s ++ l1 ++ PUpdateShardGroup g r :: l2 ->
     has_finalizer shardGroupFinalizer (sg_meta g) = false ->
     PDeleteGroup (sg_shard (sg_spec g)) (sg_group (sg_spec g)) (Some (Ok tt)) ∈ l1 \/
     exists n conns, pe_conns n = Some conns /\ sg_shard (sg_spec g) ∉ conns).
Proof.
  split.
  - intros p r E. exact (guards_run pool_deleted_first _ s l1 _ l2 (pool_deletion_guards namespace name) E).
  - intros g r E. exact (guards_run deleted_first _ s l1 _ l2 (shard_group_deleted namespace name) E).
Qed.

(** A group without a MachinePool is emptied.  When the controller reaches a pool
    before its MachinePool exists (the sync manager creates the NstanceMachinePool of a
    group it discovers first, and the MachinePool with its replicas after), it creates
    one without replicas, and every shard group it writes in that run has the size
    zero, whatever the size of the group is on the shards. *)
Theorem unowned_pool_emptied (PE : PoolEnv) (p : NstanceMachinePool) (s : Run PoolEvent) :
  (forall n namespace name, pe_machine_pool n namespace name = Some (Err ErrNotFound)) ->
  (forall n mp mp', pe_create_machine_pool n mp = Some (Ok mp') -> mp_replicas mp' = mp_replicas mp) ->
  small p -> exists t, run_trace (reconcile_unique p s).1 = run_trace s ++ t /\ Forall zero_sized t.
Proof. intros Hg Hc Hp. exact (reconcile_zero Hg Hc p Hp s). Qed.

(** A pool is ready before its shards know.  When the size of a shard group that was
    ready changes, the update leaves the condition of the old generation in place: the
    pool is reported as ready, with both its generations observed, while the shard has
    not been told. *)
Theorem pool_ready_before_shard (PE : PoolEnv) (p : NstanceMachinePool) (mp : MachinePool) (shard : string) (g : NstanceShardGroup) (s : Run PoolEvent) :
  np_shards p = [shard] -> m_annotations (np_meta p) !! AnnotationManagedBy = Some AnnotationManagedByOperator ->
  (forall n a b, pe_shard_group n a b = Some (Ok g)) -> isShardGroupReady g = true -> sg_observed g = m_generation (sg_meta g) ->
  sg_size (sg_spec g) <> share_of p mp shard -> (forall n g, pe_update_shard_group n g = Some (Ok (bumped g))) ->
  (forall n a, pe_shard_groups n a = Some (Ok [])) ->
  let g1 := {| g with sg_spec := wanted_spec p (share_of p mp shard) (sg_spec g) |} in
  exists q r, run_trace (update_shards p mp s).1 = run_trace s ++
      [PGetShardGroup (m_namespace (np_meta p)) (NstanceShardGroupName (np_group p) shard) (Some (Ok g));
       PUpdateShardGroup g1 (Some (Ok (bumped g1))); PStatus q r] /\
    np_ready q = true /\ unchanged q mp = true /\ sg_observed (bumped g1) < m_generation (sg_meta (bumped g1)).
Proof.
  intros Hsh Ha Hg Hr Ho Hsz Hu Hl g1. unfold update_shards. rewrite Hsh. cbn [ensure_shards]. rewrite !x_bind_eq, x_try_eq.
  assert (Hd : default 0 (distributeReplicas (default 0 (mp_replicas mp)) [shard] !! shard) = share_of p mp shard) by (unfold share_of, pool_sizes; by rewrite Hsh).
  rewrite Hd, (ensure_stale PE p shard (share_of p mp shard) g s (Hg _ _ _) Hsz Hu). cbn beta iota. fold g1.
  assert (Hr1 : isShardGroupReady (bumped g1) = true) by exact Hr. rewrite Hr1. cbn [andb]. unfold x_ret, mret, M_ret. cbn beta iota.
  rewrite x_bind_eq. unfold deleteOrphanedShardGroups, x_wrap, read. rewrite x_bind_eq. unfold mbind, M_bind, mret, M_ret. cbn [run_tick]. rewrite Hl. cbn beta iota.
  unfold filter, list_filter. cbn [x_each]. unfold x_ret, mret, M_ret. cbn beta iota. rewrite x_bind_eq. unfold adopt. rewrite bool_decide_eq_true_2 by done.
  unfold x_ret, mret, M_ret. cbn beta iota. unfold report, look, read. rewrite x_bind_eq. cbn beta iota.
  eexists _, _. split; [unfold pool_status; rewrite call_ret_trace; cbn [run_trace]; by rewrite <- app_assoc |].
  split; [done |]. split; [| cbn; lia]. unfold unchanged. cbn. rewrite !bool_decide_eq_true_2 by done. done.
Qed.
