(* ===== verification/SyncManager.v ===== *)
(** * The sync manager of the operator ([src/internal/operator/sync/manager.go])

    The manager keeps what it knows of the groups of every shard, from full listings and
    from the events of watch streams, and mirrors it into NstanceMachinePools and
    MachinePools.  One goroutine serves ticks and a bounded queue of requests; the
    goroutines that watch the shards and the pool controller fill the queue.  [sm_step]
    interleaves them.

    The iteration order of Go's maps is a parameter, [sy_keys]. *)

From S2P Require Import Prelude GoText GroupApi Process Operator Pools.
Import Pools.

#[local] Open Scope Z_scope.

Module Sync.

(** [syncRequest]; an event of neither type has none. *)
Inductive SyncRequest :=
  | ReqFull
  | ReqReconcile
  | ReqEvent (shard : string) (ev : option GroupEvent).

Abbreviation Groups := (gmap string GroupStatus).

Record Manager := mkManager {
  sm_cache : gmap string Groups;          (* shardGroups *)
  sm_paused : bool;
  sm_queue : list SyncRequest;            (* syncCh *)
  sm_run : Run PoolEvent;
}.

Class SyncEnv := mkSyncEnv {
  sy_pools :: PoolEnv;
  sy_list : nat -> string -> option (res (list GroupStatus));   (* ListGroups *)
  sy_keys : nat -> gset string -> list string;                  (* the order of a range *)
  sy_connections : gset string;
  sy_namespace : string;
  sy_recorder : bool;                                           (* a recorder is set *)
}.

(** A range visits every key once. *)
Class SyncLaws (SE : SyncEnv) := {
  sy_keys_all : forall n X, sy_keys n X ≡ₚ elements X;
}.

(** [make(chan syncRequest, 100)]. *)
Definition queue_capacity : nat := 100.

(** [aggregatedGroup]. *)
Record aggregatedGroup := mkAggregatedGroup {
  ag_total : Z;
  ag_shards : list string;
  ag_template : string;
  ag_instance_type : string;
  ag_vars : gmap string string;
  ag_subnet_pool : string;
  ag_is_static : bool;
  ag_provider_ids : list string;
}.

(** ** The cache *)

(** [applyGroupEvent]. *)
Definition apply_groups (ev : option GroupEvent) (groups : Groups) : Groups :=
  match ev with
  | Some (GroupUpsert g) => <[gst_key g := g]> groups
  | Some (GroupDelete _ key) => delete key groups
  | None => groups
  end.

Definition applyGroupEvent (shard : string) (ev : option GroupEvent) (cache : gmap string Groups) : gmap string Groups :=
  <[shard := apply_groups ev (default ∅ (cache !! shard))]> cache.

(** The cache of a shard after a listing: its groups stored, the others removed. *)
Definition store_listing (groups : Groups) (listed : list GroupStatus) : Groups :=
  let stored := foldl (fun m g => <[gst_key g := g]> m) groups listed in
  filter (fun kv => kv.1 ∈ gst_key <$> listed) stored.

(** [UpdateShardGroup]. *)
Definition UpdateShardGroup (shard groupKey : string) (status : GroupStatus) (s : Manager) : Manager :=
  {| s with sm_cache := <[shard := <[groupKey := status]> (default ∅ (sm_cache s !! shard))]> (sm_cache s) |}.

(** ** Aggregation *)

Definition new_aggregate (g : GroupStatus) : aggregatedGroup :=
  mkAggregatedGroup 0 [] (gst_template g) (gst_instance_type g) (gst_vars g) (gst_subnet_pool g) false [].

Definition add_group (result : gmap string aggregatedGroup) (entry : string * string * GroupStatus) : gmap string aggregatedGroup :=
  let '(shard, key, g) := entry in
  let a := default (new_aggregate g) (result !! key) in
  <[key := {| a with ag_shards := ag_shards a ++ [shard]; ag_total := wrap32 (ag_total a + gst_size g);
                     ag_provider_ids := ag_provider_ids a ++ gst_provider_ids g;
                     ag_is_static := ag_is_static a || gst_is_static g |}]> result.

(** The entries of the cache in the order they are visited. *)
Definition aggregate (entries : list (string * string * GroupStatus)) : gmap string aggregatedGroup := foldl add_group ∅ entries.

(** [PauseReconciliation] and [ResumeReconciliation]; a full queue drops the request. *)
Definition offer (req : SyncRequest) (s : Manager) : Manager :=
  if bool_decide (length (sm_queue s) < queue_capacity)%nat then {| s with sm_queue := sm_queue s ++ [req] |} else s.

Definition PauseReconciliation (s : Manager) : Manager := {| s with sm_paused := true |}.
Definition ResumeReconciliation (s : Manager) : Manager := offer ReqReconcile {| s with sm_paused := false |}.

(** Where a pool differs from what the shards have. *)
Definition pool_wanted (groupKey : string) (agg : aggregatedGroup) (ids : list string) (p : NstanceMachinePool) : NstanceMachinePool :=
  {| p with np_group := groupKey;
            np_instance_type := if bool_decide (default "" (np_instance_type p) = ag_instance_type agg) then np_instance_type p
                                else if bool_decide (ag_instance_type agg = "") then None else Some (ag_instance_type agg);
            np_vars := ag_vars agg;
            np_provider_ids := ids |}.

Definition pool_outdated (groupKey : string) (agg : aggregatedGroup) (ids : list string) (p : NstanceMachinePool) : bool :=
  negb (bool_decide (np_group p = groupKey)) ||
  negb (bool_decide (default "" (np_instance_type p) = ag_instance_type agg)) ||
  negb (bool_decide (np_vars p = ag_vars agg)) ||
  negb (bool_decide (np_provider_ids p = ids)).

Section Sync.
Context {SE : SyncEnv}.

Abbreviation Step A := (X Manager A).

Definition managed : gmap string string := {[AnnotationManagedBy := AnnotationManagedByOperator]}.

Definition on_run {A} (m : X (Run PoolEvent) A) : Step A :=
  fun s => let '(r, a) := m (sm_run s) in ({| s with sm_run := r |}, a).

(** [for k, v := range m]. *)
Definition range {A} (m : gmap string A) : Step (list (string * A)) :=
  keys ←? on_run (look (fun n => sy_keys n (dom m)));
  x_ret (omap (fun k => (k,.) <$> m !! k) keys).

Definition set_cache (cache : gmap string Groups) (s : Manager) : Manager := {| s with sm_cache := cache |}.

(** *** Listings *)

(** [syncShard]. *)
Definition syncShard (shard : string) : Step unit :=
  listed ←? on_run (read (fun n => sy_list n shard));
  x_mod (fun s => set_cache (<[shard := store_listing (default ∅ (sm_cache s !! shard)) listed]> (sm_cache s)) s).

(** The entries of the cache, visited by two nested ranges. *)
Fixpoint visit_groups (shards : list (string * Groups)) : Step (list (string * string * GroupStatus)) :=
  match shards with
  | [] => x_ret []
  | (shard, groups) :: rest =>
      gs ←? range groups;
      more ←? visit_groups rest;
      x_ret (map (fun kg => (shard, kg.1, kg.2)) gs ++ more)
  end.

Definition visit_cache : Step (list (string * string * GroupStatus)) :=
  cache ←? x_get sm_cache;
  shards ←? range cache;
  visit_groups shards.

(** [aggregateGroups]. *)
Definition aggregateGroups : Step (gmap string aggregatedGroup) :=
  entries ←? visit_cache;
  x_ret (aggregate entries).

(** *** Mirrors in the cluster *)

(** [updateShardGroupStatuses]. *)
Definition update_status (entry : string * string * GroupStatus) : Step unit :=
  let '(shard, key, g) := entry in
  let ids := sort_strings (gst_provider_ids g) in
  let name := NstanceShardGroupName key shard in
  r ←? x_try (on_run (call (fun n => pe_shard_group n sy_namespace name) (PGetShardGroup sy_namespace name)));
  match r with
  | Err _ => x_ret tt
  | Ok sg =>
      if bool_decide (sg_replicas sg = gst_actual_size g) && bool_decide (sg_provider_ids sg = ids) then x_ret tt
      else
        now ←? on_run (look pe_now);
        _ ←? x_try (on_run (sg_status {| sg with sg_replicas := gst_actual_size g; sg_provider_ids := ids; sg_last_sync := Some now |}));
        x_ret tt
  end.

Definition updateShardGroupStatuses : Step unit :=
  entries ←? visit_cache;
  x_each entries update_status.

(** [ensureMachinePool]: the NstanceMachinePool, its status, the MachinePool. *)
Definition new_pool (groupKey : string) (agg : aggregatedGroup) (ids : list string) : NstanceMachinePool :=
  mkNstanceMachinePool ("", "") (new_meta sy_namespace groupKey ∅ managed []) groupKey (ag_shards agg) ""
    (if bool_decide (ag_instance_type agg = "") then None else Some (ag_instance_type agg)) "" (ag_vars agg) ids
    false 0 false 0 0 [].

Definition ensure_pool (groupKey : string) (agg : aggregatedGroup) (ids : list string) : Step NstanceMachinePool :=
  o ←? on_run (found (get_pool sy_namespace groupKey));
  match o with
  | None => let p := new_pool groupKey agg ids in x_wrap "create NstanceMachinePool" (on_run (call (fun n => pe_create_pool n p) (PCreatePool p)))
  | Some p =>
      if pool_outdated groupKey agg ids p then x_wrap "update NstanceMachinePool" (on_run (pool_update (pool_wanted groupKey agg ids p)))
      else x_ret p
  end.

Definition ensure_pool_status (groupKey : string) (ids : list string) (p : NstanceMachinePool) : Step unit :=
  let replicas := wrap32 (Z.of_nat (length ids)) in
  if bool_decide (np_replicas p = replicas) then x_ret tt
  else
    p ←? x_wrap "re-read NstanceMachinePool for status update" (on_run (get_pool sy_namespace groupKey));
    _ ←? x_wrap "update NstanceMachinePool status" (on_run (pool_status {| p with np_replicas := replicas |}));
    x_ret tt.

Definition ensure_machine_pool (groupKey : string) (agg : aggregatedGroup) : Step unit :=
  o ←? on_run (found (call (fun n => pe_machine_pool n sy_namespace groupKey) (PGetMachinePool sy_namespace groupKey)));
  match o with
  | Some _ => x_ret tt
  | None =>
      let mp := new_machine_pool sy_namespace groupKey managed (Some (ag_total agg)) in
      _ ←? x_wrap "create MachinePool" (on_run (call (fun n => pe_create_machine_pool n mp) (PCreateMachinePool mp)));
      x_ret tt
  end.

Definition ensureMachinePool (groupKey : string) (agg : aggregatedGroup) : Step unit :=
  let ids := sort_strings (ag_provider_ids agg) in
  p ←? ensure_pool groupKey agg ids;
  _ ←? ensure_pool_status groupKey ids p;
  ensure_machine_pool groupKey agg.

(** [reconcileMachinePools]: errors of a group are logged only. *)
Definition reconcileMachinePools : Step unit :=
  _ ←? updateShardGroupStatuses;
  aggregated ←? aggregateGroups;
  groups ←? range aggregated;
  x_each groups (fun kg => _ ←? x_try (ensureMachinePool kg.1 kg.2); x_ret tt).

(** [fullSync]. *)
Definition fullSync : Step unit :=
  shards ←? on_run (look (fun n => sy_keys n sy_connections));
  _ ←? x_each shards (fun shard => x_wrap "shard" (syncShard shard));
  reconcileMachinePools.

(** *** Streams *)

(** [setShardGroupCondition] is the shard group controller's [setCondition]. *)
Definition mark_unreachable (shard : string) (g : NstanceShardGroup) : Step unit :=
  if negb (bool_decide (sg_shard (sg_spec g) = shard)) then x_ret tt
  else
    let message := ("Lost connection to shard " ++ shard)%string in
    now ←? on_run (look pe_now);
    let g := setCondition g ConditionTypeShardReachable "False" "ShardUnreachable" message now in
    _ ←? x_try (on_run (sg_status g));
    if sy_recorder then on_run (record (m_name (sg_meta g)) "Warning" "ShardUnreachable" message) else x_ret tt.

(** [markShardUnreachable]. *)
Definition markShardUnreachable (shard : string) : Step unit :=
  r ←? x_try (on_run (read (fun n => pe_shard_groups n sy_namespace)));
  match r with
  | Err _ => x_ret tt
  | Ok groups => x_each groups (mark_unreachable shard)
  end.

(** [recordProviderError]. *)
Definition recordProviderError (shard groupKey errMsg : string) : Step unit :=
  let name := NstanceShardGroupName groupKey shard in
  r ←? x_try (on_run (call (fun n => pe_shard_group n sy_namespace name) (PGetShardGroup sy_namespace name)));
  match r with
  | Err _ => x_ret tt
  | Ok g => if sy_recorder then on_run (record (m_name (sg_meta g)) "Warning" "ProviderError" errMsg) else x_ret tt
  end.

(** An event of [consumeErrorStream]. *)
Definition error_event (shard group message : string) : Step unit :=
  if negb (bool_decide (group = "")) then recordProviderError shard group message else x_ret tt.

(** How [consumeGroupStream] ends. *)
Inductive StreamEnd := EndEOF | EndError | EndCanceled.

(** [watchShard] after its stream ended. *)
Definition stream_ended (shard : string) (how : StreamEnd) : Step unit :=
  match how with
  | EndCanceled => x_ret tt
  | EndEOF => x_mod (offer ReqFull)
  | EndError => _ ←? markShardUnreachable shard; x_mod (offer ReqFull)
  end.

(** The wait after a failed start of a stream. *)
Definition next_backoff (backoff : Z) : Z := Z.min (backoff * 2) (30 * second).

(** *** The manager's loop *)

(** [Start]: one request. *)
Definition handle_request (req : SyncRequest) : Step unit :=
  match req with
  | ReqReconcile => _ ←? x_try reconcileMachinePools; x_ret tt
  | ReqFull => _ ←? x_try fullSync; x_ret tt
  | ReqEvent shard ev =>
      _ ←? x_mod (fun s => set_cache (applyGroupEvent shard ev (sm_cache s)) s);
      paused ←? x_get sm_paused;
      if paused : bool then x_ret tt
      else _ ←? x_try reconcileMachinePools; x_ret tt
  end.

Definition dequeue (rest : list SyncRequest) (s : Manager) : Manager := {| s with sm_queue := rest |}.

(** [Start] up to its loop. *)
Definition start : Step unit := x_wrap "initial sync failed" fullSync.

(** What the goroutines do: ticks and requests of the manager's own, events and ends of
    the streams of connected shards, and the controller that pauses and resumes. *)
Inductive sm_step : Manager -> Manager -> Prop :=
  | sm_tick s : sm_step s (fullSync s).1
  | sm_request s req rest : sm_queue s = req :: rest -> sm_step s (handle_request req (dequeue rest s)).1
  | sm_event s shard ev :
      shard ∈ sy_connections -> (length (sm_queue s) < queue_capacity)%nat ->
      sm_step s {| s with sm_queue := sm_queue s ++ [ReqEvent shard ev] |}
  | sm_no_stream s shard : shard ∈ sy_connections -> sm_step s (markShardUnreachable shard s).1
  | sm_ended s shard how : shard ∈ sy_connections -> sm_step s (stream_ended shard how s).1
  | sm_error s shard group message : shard ∈ sy_connections -> sm_step s (error_event shard group message s).1
  | sm_pause s : sm_step s (PauseReconciliation s)
  | sm_resume s : sm_step s (ResumeReconciliation s).

(** [NewManager], then [Start]. *)
Definition new_manager (run : Run PoolEvent) : Manager := mkManager ∅ false [] run.

Definition reachable (s : Manager) : Prop := exists run, rtc sm_step (start (new_manager run)).1 s.

(** [GetShardGroups] and [GetShards]. *)
Definition GetShardGroups : Step (list string) :=
  cache ←? x_get sm_cache;
  shards ←? range cache;
  x_ret shards.*1.

Definition GetShards : Step (list string) := on_run (look (fun n => sy_keys n sy_connections)).
End Sync.
End Sync.
