(* ===== verification/SyncFacts.v ===== *)
(** * What the sync manager guarantees

    The cache is keyed by its groups and holds connected shards only; a full sync makes
    it the shards' listings; applied in order, the events of a stream keep it equal to
    the view the server maintains of that stream; what is aggregated does not depend on
    the order maps are visited in; MachinePools are created, never changed.

    [steps R m]: whatever happens, [m] takes a state to one related by the preorder [R]. *)

From S2P Require Import Prelude GoText LocalDB Config Document Loader LoaderFacts Certificates GroupApi GroupApiFacts Process Operator Pools PoolsFacts SyncManager.
From stdpp Require Import sorting.
Import Pools Sync.

#[local] Open Scope Z_scope.

Definition steps {S A} (R : relation S) (m : X S A) : Prop := forall s, R s (m s).1.

Section Steps.
Context {S : Type} (R : relation S) `{!PreOrder R}.

Lemma steps_ret {A} (a : A) : steps R (x_ret a).
Proof. by intros s. Qed.
Lemma steps_get {A} (f : S -> A) : steps R (x_get f).
Proof. by intros s. Qed.
Lemma steps_bind {A B} (m : X S A) (f : A -> X S B) : steps R m -> (forall a, steps R (f a)) -> steps R (x_bind m f).
Proof. intros Hm Hf s. rewrite x_bind_eq. specialize (Hm s). destruct (m s) as [s1 [[a | e] |]]; [| done | done]. etrans; [exact Hm | apply Hf]. Qed.
Lemma steps_try {A} (m : X S A) : steps R m -> steps R (x_try m).
Proof. intros Hm s. rewrite x_try_eq. specialize (Hm s). by destruct (m s) as [s1 [r |]]. Qed.
Lemma steps_wrap {A} msg (m : X S A) : steps R m -> steps R (x_wrap msg m).
Proof. intros Hm s. specialize (Hm s). unfold x_wrap, mbind, M_bind. by destruct (m s) as [s1 [[a | e] |]]. Qed.
Lemma steps_each {A} (l : list A) (body : A -> X S unit) : (forall x, x ∈ l -> steps R (body x)) -> steps R (x_each l body).
Proof.
  intros H. induction l as [| x l IH]; cbn [x_each]; [apply steps_ret |]. apply steps_bind; [apply H; left |].
  intros []. apply IH. intros y Hy. apply H. by right.
Qed.
Lemma steps_mod f : (forall s, R s (f s)) -> steps R (x_mod f).
Proof. intros H s. apply H. Qed.
End Steps.

Ltac steps_all tac :=
  repeat (intros;
    lazymatch goal with
    | |- steps _ (x_bind _ _) => apply steps_bind; [apply _ | |]
    | |- steps _ (x_wrap _ _) => apply steps_wrap
    | |- steps _ (x_try _) => apply steps_try
    | |- steps _ (x_each _ _) => apply steps_each; [apply _ |]
    | |- steps _ (x_ret _) => apply steps_ret; apply _
    | |- steps _ (x_get _) => apply steps_get; apply _
    | |- steps _ (match _ with _ => _ end) => case_match
    | |- steps _ _ => tac
    end).

(** ** Calls of the manager leave its own state alone *)

Definition later {Ev} (r r' : Run Ev) : Prop := (run_tick r <= run_tick r')%nat.

#[global] Instance later_preorder {Ev} : PreOrder (later (Ev := Ev)).
Proof. split; [by intros r; unfold later | intros a b c; unfold later; lia]. Qed.

Definition calls_only {SE : SyncEnv} (s s' : Manager) : Prop :=
  sm_cache s' = sm_cache s /\ sm_paused s' = sm_paused s /\ sm_queue s' = sm_queue s /\ later (sm_run s) (sm_run s').

Section Runs.
Context {SE : SyncEnv}.

#[local] Instance calls_only_preorder : PreOrder calls_only.
Proof.
  split; [by intros s; repeat split | intros a b c (H1 & H2 & H3 & H4) (K1 & K2 & K3 & K4)].
  repeat split; [congruence | congruence | congruence | by etrans].
Qed.

Lemma later_call {Ev A} (f : nat -> option (res A)) (ev : option (res A) -> Ev) : steps later (call f ev).
Proof. intros s. unfold later. cbn. lia. Qed.
Lemma later_read {Ev A} (f : nat -> option (res A)) : steps (later (Ev := Ev)) (read f).
Proof. intros s. unfold later. cbn. lia. Qed.
Lemma later_found {Ev A} (m : X (Run Ev) A) : steps later m -> steps later (found m).
Proof. intros H. unfold found. steps_all ltac:(idtac); [done |]. intros s. done. Qed.

Lemma on_run_only {A} (m : X (Run PoolEvent) A) : steps later m -> steps calls_only (on_run m).
Proof. intros Hm s. specialize (Hm (sm_run s)). unfold on_run. destruct (m (sm_run s)) as [r a]. by repeat split. Qed.

Ltac only_calls :=
  steps_all ltac:(first
    [ apply on_run_only;
      first [apply later_call | apply later_read | apply later_found; apply later_call | apply later_found; apply later_read | intros ?; by cbv [later] ]
    | progress unfold range
    | fail ]).

Lemma range_only {A} (m : gmap string A) : steps calls_only (range m).
Proof. only_calls. Qed.

Lemma visit_groups_only shards : steps calls_only (visit_groups shards).
Proof. induction shards as [| [shard groups] rest IH]; cbn [visit_groups]; [by intros s |]. steps_all ltac:(first [apply range_only | apply IH]). Qed.

Lemma visit_cache_only : steps calls_only visit_cache.
Proof. unfold visit_cache. steps_all ltac:(first [apply range_only | apply visit_groups_only]). Qed.

Lemma update_status_only entry : steps calls_only (update_status entry).
Proof. destruct entry as [[shard key] g]. unfold update_status. only_calls. Qed.

Lemma ensureMachinePool_only key agg : steps calls_only (ensureMachinePool key agg).
Proof. unfold ensureMachinePool, ensure_pool, ensure_pool_status, ensure_machine_pool. only_calls. Qed.

Lemma reconcile_only : steps calls_only reconcileMachinePools.
Proof.
  unfold reconcileMachinePools, updateShardGroupStatuses, aggregateGroups.
  steps_all ltac:(first [apply visit_cache_only | apply range_only | apply update_status_only | apply ensureMachinePool_only]).
Qed.

Lemma unreachable_only shard : steps calls_only (markShardUnreachable shard).
Proof. unfold markShardUnreachable, mark_unreachable. only_calls. Qed.

Lemma error_event_only shard group message : steps calls_only (error_event shard group message).
Proof. unfold error_event, recordProviderError. only_calls. Qed.

(** ** Listings *)

Definition of_listing (listed : list GroupStatus) : Groups := foldl (fun m g => <[gst_key g := g]> m) ∅ listed.

Lemma stored_lookup (listed : list GroupStatus) (m : Groups) k :
  foldl (fun m g => <[gst_key g := g]> m) m listed !! k = if bool_decide (k ∈ gst_key <$> listed) then of_listing listed !! k else m !! k.
Proof.
  unfold of_listing. induction listed as [| g l IH] using rev_ind; [done |]. rewrite !foldl_app. cbn.
  destruct (decide (gst_key g = k)) as [<- | N].
  - rewrite !lookup_insert_eq, bool_decide_eq_true_2 by set_solver. done.
  - rewrite !lookup_insert_ne, IH by done. repeat case_bool_decide; set_solver.
Qed.

(** A listing replaces what was cached. *)
Lemma store_listing_eq groups listed : store_listing groups listed = of_listing listed.
Proof.
  apply map_eq. intros k. unfold store_listing. rewrite map_lookup_filter, stored_lookup.
  case_bool_decide as E.
  - destruct (of_listing listed !! k) as [g |]; [| done]. cbn. by rewrite option_guard_True.
  - destruct (groups !! k) as [g |]; cbn; [rewrite option_guard_False by done |];
      (destruct (of_listing listed !! k) eqn:E'; [| done]; unfold of_listing in E'; rewrite stored_lookup, bool_decide_eq_false_2, lookup_empty in E' by done; done).
Qed.

Lemma of_listing_keyed listed k g : of_listing listed !! k = Some g -> gst_key g = k.
Proof.
  unfold of_listing. induction listed as [| h l IH] using rev_ind; [done |]. rewrite foldl_app. cbn.
  destruct (decide (gst_key h = k)) as [<- | N]; [rewrite lookup_insert_eq; by intros [= ->] | by rewrite lookup_insert_ne].
Qed.

(** The cache of a shard is a listing that was answered since a tick. *)
Definition mirrored (from : nat) (s : Manager) (shard : string) : Prop :=
  exists n listed, (from <= n < run_tick (sm_run s))%nat /\ sy_list n shard = Some (Ok listed) /\ sm_cache s !! shard = Some (of_listing listed).

Lemma syncShard_run shard s s1 r :
  syncShard shard s = (s1, r) ->
  later (sm_run s) (sm_run s1) /\ (forall from x, (from <= run_tick (sm_run s))%nat -> mirrored from s x -> mirrored from s1 x) /\
  (r = Some (Ok tt) -> mirrored (run_tick (sm_run s)) s1 shard).
Proof.
  unfold syncShard. rewrite x_bind_eq. unfold on_run, read. destruct (sy_list (run_tick (sm_run s)) shard) as [[listed | e] |] eqn:El.
  - intros [= <- <-]. cbn. split; [unfold later; cbn; lia |].
    assert (Hm : forall from, (from <= run_tick (sm_run s))%nat -> mirrored from
      {| sm_cache := <[shard:=store_listing (default ∅ (sm_cache s !! shard)) listed]> (sm_cache s); sm_paused := sm_paused s;
         sm_queue := sm_queue s; sm_run := mkRun (S (run_tick (sm_run s))) (run_trace (sm_run s)) |} shard).
    { intros from Hf. exists (run_tick (sm_run s)), listed. cbn. split; [lia |]. split; [done |]. by rewrite store_listing_eq, lookup_insert_eq. }
    split; [| intros _; by apply Hm]. intros from x Hf (n & l & Hn & Hl & Hc).
    destruct (decide (shard = x)) as [<- | N]; [by apply Hm |]. exists n, l. cbn. split; [lia |]. split; [done |]. by rewrite lookup_insert_ne.
  - intros [= <- <-]. cbn. split; [unfold later; cbn; lia |]. split; [| done]. intros from x Hf (n & l & Hn & ?). exists n, l. cbn. split; [lia | done].
  - intros [= <- <-]. cbn. split; [unfold later; cbn; lia |]. split; [| done]. intros from x Hf (n & l & Hn & ?). exists n, l. cbn. split; [lia | done].
Qed.

Lemma sync_all_run shards s s1 from :
  x_each shards (fun shard => x_wrap "shard" (syncShard shard)) s = (s1, Some (Ok tt)) -> (from <= run_tick (sm_run s))%nat ->
  later (sm_run s) (sm_run s1) /\ (forall x, mirrored from s x -> mirrored from s1 x) /\ forall x, x ∈ shards -> mirrored from s1 x.
Proof.
  revert s. induction shards as [| shard shards IH]; intros s; cbn [x_each].
  - intros [= <-] _. split; [done |]. split; [done | set_solver].
  - rewrite x_bind_eq. unfold x_wrap, mbind, M_bind. destruct (syncShard shard s) as [s2 r] eqn:E.
    apply syncShard_run in E as (L & K & H). destruct r as [[[] | e] |]; cbn; [| done | done].
    intros Hr Hf. destruct (IH s2 Hr) as (L' & K' & H'); [unfold later in *; lia |]. split; [by etrans |]. split; [auto |].
    intros x [-> | Hx]%elem_of_cons; [| auto]. apply K'. destruct (H eq_refl) as (n & l & Hn & Hl). exists n, l. split; [lia | done].
Qed.

(** A full sync that succeeds. *)
Lemma fullSync_run `{!SyncLaws SE} s s1 :
  fullSync s = (s1, Some (Ok tt)) -> forall shard, shard ∈ sy_connections -> mirrored (run_tick (sm_run s)) s1 shard.
Proof.
  unfold fullSync. rewrite x_bind_eq. unfold on_run, look, read. cbn beta iota. rewrite x_bind_eq.
  set (s0 := mkManager _ _ _ _). destruct (x_each _ _ s0) as [s2 [[[] | e] |]] eqn:E; [| done | done]. intros Hr shard Hs.
  apply (sync_all_run _ _ _ (run_tick (sm_run s))) in E as (_ & _ & H); [| cbn; lia].
  destruct (H shard) as (n & l & Hn & Hl & Hc); [rewrite sy_keys_all; by apply elem_of_elements |].
  pose proof (reconcile_only s2) as (Kc & _ & _ & Kt). rewrite Hr in Kc, Kt. cbn in Kc, Kt. exists n, l. unfold later in Kt. split; [lia |]. by rewrite Kc.
Qed.

Definition same_queue (s s' : Manager) : Prop := sm_queue s' = sm_queue s.

#[local] Instance same_queue_preorder : PreOrder same_queue.
Proof. split; [by intros s | intros a b c; unfold same_queue; congruence]. Qed.

Lemma fullSync_queue : steps same_queue fullSync.
Proof.
  assert (H : forall A (m : X Manager A), steps calls_only m -> steps same_queue m) by (intros A m Hm s; by destruct (Hm s) as (_ & _ & H & _)).
  unfold fullSync, syncShard.
  steps_all ltac:(first [apply H, reconcile_only | apply H, on_run_only, later_read | apply steps_mod; by intros]).
Qed.

(** ** The invariant of the cache *)

Definition event_connected (req : SyncRequest) : Prop := match req with ReqEvent shard _ => shard ∈ sy_connections | _ => True end.

(** Groups are filed under their own keys and under connected shards; the queue is no
    longer than its channel, and its events are of connected shards. *)
Definition cache_ok (s : Manager) : Prop :=
  (forall shard groups, sm_cache s !! shard = Some groups ->
     shard ∈ sy_connections /\ forall k g, groups !! k = Some g -> gst_key g = k) /\
  (length (sm_queue s) <= queue_capacity)%nat /\ Forall event_connected (sm_queue s).

Definition preserved (s s' : Manager) : Prop := cache_ok s -> cache_ok s'.

#[local] Instance preserved_preorder : PreOrder preserved.
Proof. split; [intros s H; exact H | intros a b c Hab Hbc H; auto]. Qed.

Lemma calls_preserve {A} (m : X Manager A) : steps calls_only m -> steps preserved m.
Proof. intros Hm s (H1 & H2). destruct (Hm s) as (E1 & _ & E2 & _). unfold cache_ok. by rewrite E1, E2. Qed.

Lemma store_ok s shard groups :
  shard ∈ sy_connections -> (forall k g, groups !! k = Some g -> gst_key g = k) ->
  preserved s (set_cache (<[shard := groups]> (sm_cache s)) s).
Proof.
  intros Hs Hg (H1 & H2). split; [| done]. cbn. intros x gs Hx. destruct (decide (shard = x)) as [<- | N].
  - rewrite lookup_insert_eq in Hx. by simplify_eq.
  - rewrite lookup_insert_ne in Hx by done. by apply H1.
Qed.

Lemma syncShard_ok shard : shard ∈ sy_connections -> steps preserved (syncShard shard).
Proof.
  intros Hs. unfold syncShard. apply steps_bind; [apply _ | apply calls_preserve, on_run_only, later_read |].
  intros listed. apply steps_mod. intros s. rewrite store_listing_eq. apply store_ok; [done |]. intros k g. apply of_listing_keyed.
Qed.

Lemma fullSync_ok `{!SyncLaws SE} : steps preserved fullSync.
Proof.
  intros s. unfold fullSync. rewrite x_bind_eq. unfold on_run, look, read. cbn beta iota.
  assert (H : steps preserved (x_bind (x_each (sy_keys (run_tick (sm_run s)) sy_connections) (fun shard => x_wrap "shard" (syncShard shard)))
                                (fun _ => reconcileMachinePools))).
  { apply steps_bind; [apply _ | | intros; apply calls_preserve, reconcile_only]. apply steps_each; [apply _ |].
    intros shard Hin. apply steps_wrap, syncShard_ok. rewrite sy_keys_all in Hin. by apply elem_of_elements. }
  intros Hok. apply H. exact Hok.
Qed.

Lemma apply_ok ev (groups : Groups) :
  (forall k g, groups !! k = Some g -> gst_key g = k) -> forall k g, apply_groups ev groups !! k = Some g -> gst_key g = k.
Proof.
  intros H k g. destruct ev as [[g' | t key] |]; cbn; [| | by apply H].
  - intros [[<- <-] | [_ Hg]]%lookup_insert_Some; [done | by apply H].
  - intros [_ Hg]%lookup_delete_Some. by apply H.
Qed.

Lemma event_ok shard ev s : shard ∈ sy_connections -> preserved s (set_cache (applyGroupEvent shard ev (sm_cache s)) s).
Proof.
  intros Hs Hok. apply store_ok; [done | | done]. apply apply_ok. intros k g Hk.
  destruct (sm_cache s !! shard) as [groups |] eqn:E; cbn in Hk; [| by rewrite lookup_empty in Hk]. by apply (proj2 (proj1 Hok shard groups E)).
Qed.

Lemma handle_request_ok `{!SyncLaws SE} req : event_connected req -> steps preserved (handle_request req).
Proof.
  intros Hreq. destruct req as [| | shard ev]; cbn [handle_request].
  - steps_all ltac:(apply fullSync_ok).
  - steps_all ltac:(apply calls_preserve, reconcile_only).
  - steps_all ltac:(first [apply calls_preserve, reconcile_only | apply steps_mod; intros; by apply event_ok]).
Qed.

Lemma offer_ok req s : event_connected req -> preserved s (offer req s).
Proof.
  intros Hreq (H1 & H2 & H3). unfold offer. case_bool_decide; [| done]. split; [done |]. cbn. rewrite length_app. cbn.
  split; [unfold queue_capacity in *; lia | by apply Forall_app; repeat split; [| constructor]].
Qed.

Lemma sync_step_ok `{!SyncLaws SE} s s' : sm_step s s' -> preserved s s'.
Proof.
  intros Hstep. destruct Hstep as [s | s req rest Hq | s shard ev Hs Hl | s shard Hs | s shard how Hs | s shard group message Hs | s | s].
  - apply fullSync_ok.
  - intros Hok. assert (Hok' : cache_ok (dequeue rest s) /\ event_connected req).
    { destruct Hok as (H1 & H2 & H3). rewrite Hq in H2, H3. inversion H3; subst. cbn in H2. split; [| done]. split; [exact H1 |]. split; [cbn; lia | done]. }
    destruct Hok' as [Hok' Hr]. exact (handle_request_ok req Hr (dequeue rest s) Hok').
  - intros (H1 & H2 & H3). split; [done |]. cbn. rewrite length_app. cbn. split; [lia |]. apply Forall_app. by repeat constructor.
  - apply (calls_preserve _ (unreachable_only shard)).
  - destruct how; cbn [stream_ended]; [by apply offer_ok | | intros H; exact H]. revert s. apply steps_bind; [apply _ | apply calls_preserve, unreachable_only |].
    intros []. apply steps_mod. intros s. by apply offer_ok.
  - apply (calls_preserve _ (error_event_only shard group message)).
  - intros H. exact H.
  - intros Hok. apply offer_ok; [done |]. exact Hok.
Qed.

Lemma sync_reachable_ok `{!SyncLaws SE} s : reachable s -> cache_ok s.
Proof.
  intros (run & Hr). assert (H0 : cache_ok (start (new_manager run)).1).
  { unfold start. refine (steps_wrap preserved "initial sync failed" fullSync fullSync_ok (new_manager run) _).
    split; [by intros shard groups | split; [unfold queue_capacity; cbn; lia | done]]. }
  induction Hr as [| s s' s'' Hs _ IH]; [done |]. apply IH. by apply (sync_step_ok _ _ Hs).
Qed.
End Runs.

(** ** Aggregation *)

Abbreviation Entry := (string * string * GroupStatus)%type.

Definition entries_of (key : string) (entries : list Entry) : list Entry := filter (fun e => e.1.2 = key) entries.

Definition total_of (entries : list Entry) : Z := foldl (fun t e => wrap32 (t + gst_size e.2)) 0 entries.

(** What is known of a group from its entries, the first being [g]. *)
Definition summary (g : GroupStatus) (entries : list Entry) : aggregatedGroup :=
  mkAggregatedGroup (total_of entries) ((fun e => e.1.1) <$> entries) (gst_template g) (gst_instance_type g) (gst_vars g) (gst_subnet_pool g)
    (existsb (fun e => gst_is_static e.2) entries) (entries ≫= fun e => gst_provider_ids e.2).

Lemma aggregate_lookup key entries :
  aggregate entries !! key = match entries_of key entries with [] => None | e :: l => Some (summary e.2 (e :: l)) end.
Proof.
  unfold aggregate. induction entries as [| [[shard k] g] entries IH] using rev_ind; [done |].
  rewrite foldl_app. cbn [foldl]. unfold entries_of in *. rewrite filter_app. unfold add_group at 1.
  destruct (decide (k = key)) as [-> | N].
  - rewrite lookup_insert_eq, IH. rewrite (filter_cons_True _ (shard, key, g)) by done. rewrite filter_nil.
    destruct (filter _ entries) as [| e l]; [unfold summary, total_of; cbn; by rewrite app_nil_r, orb_false_r |]. cbn [app from_option id]. f_equal. unfold summary.
    rewrite app_comm_cons. unfold total_of. rewrite foldl_app, fmap_app, bind_app, existsb_app. cbn. by rewrite app_nil_r, orb_false_r.
  - rewrite lookup_insert_ne, IH by done. rewrite (filter_cons_False _ (shard, k, g)) by done. by rewrite filter_nil, app_nil_r.
Qed.

Lemma wrap32_add a b : wrap32 (wrap32 a + b) = wrap32 (a + b).
Proof.
  unfold wrap32. f_equal. replace ((a + 2 ^ 31) `mod` 2 ^ 32 - 2 ^ 31 + b + 2 ^ 31) with ((a + 2 ^ 31) `mod` 2 ^ 32 + b) by lia.
  rewrite Z.add_mod_idemp_l by lia. f_equal. lia.
Qed.

Lemma total_sum entries : total_of entries = wrap32 (zsum ((fun e => gst_size e.2) <$> entries)).
Proof.
  unfold total_of. induction entries as [| e l IH] using rev_ind; [done |]. rewrite foldl_app, fmap_app. cbn. rewrite IH, wrap32_add.
  f_equal. unfold zsum. rewrite foldr_app. cbn. rewrite Z.add_0_r.
  generalize ((fun e : Entry => gst_size e.2) <$> l). intros zs. induction zs as [| z zs IHz]; cbn; lia.
Qed.

#[global] Instance zsum_permutation : Proper ((≡ₚ) ==> (=)) zsum.
Proof. intros l1 l2 H. unfold zsum. induction H; cbn; lia. Qed.

Lemma existsb_permutation {A} (f : A -> bool) l1 l2 : l1 ≡ₚ l2 -> existsb f l1 = existsb f l2.
Proof. intros H. induction H; cbn; [done | by rewrite IHPermutation | by rewrite !orb_assoc, (orb_comm (f y)) | congruence]. Qed.

Lemma sort_strings_permutation l1 l2 : l1 ≡ₚ l2 -> sort_strings l1 = sort_strings l2.
Proof.
  intros H. unfold sort_strings. apply (StronglySorted_unique String.le); [apply StronglySorted_merge_sort; apply _ .. |].
  by rewrite !merge_sort_Permutation.
Qed.

(** ** Streams *)

Section Streams.
Context {SE : SyncEnv}.

(** Requests served one after another. *)
Definition handled (reqs : list SyncRequest) (s : Manager) : Manager := foldl (fun s req => (handle_request req s).1) s reqs.

Lemma handle_event_cache shard ev s : sm_cache (handle_request (ReqEvent shard ev) s).1 = applyGroupEvent shard ev (sm_cache s).
Proof.
  cbn [handle_request]. rewrite x_bind_eq. unfold x_mod, modify, mbind, M_bind, x_ret, mret, M_ret. cbn beta iota. rewrite x_bind_eq.
  unfold x_get, gets, mbind, M_bind, x_ret, mret, M_ret. cbn. destruct (sm_paused s); [done |].
  rewrite x_bind_eq, x_try_eq. match goal with |- context [reconcileMachinePools ?s0] => pose proof (reconcile_only s0) as (H & _); destruct (reconcileMachinePools s0) as [s1 [r |]] end; exact H.
Qed.

Lemma handled_cache shard evs s :
  default ∅ (sm_cache (handled ((fun ev => ReqEvent shard (Some ev)) <$> evs) s) !! shard) = foldl apply_event (default ∅ (sm_cache s !! shard)) evs.
Proof.
  revert s. induction evs as [| ev evs IH]; intros s; [done |]. cbn [fmap list_fmap handled foldl].
  fold (handled ((fun ev => ReqEvent shard (Some ev)) <$> evs) (handle_request (ReqEvent shard (Some ev)) s).1).
  rewrite IH. cbn [foldl]. f_equal. rewrite handle_event_cache. unfold applyGroupEvent. rewrite lookup_insert_eq. by destruct ev.
Qed.
End Streams.

(** ** MachinePools *)

(** A MachinePool is created right after the API server had none of that name. *)
Definition created_new (l : list PoolEvent) (e : PoolEvent) : Prop :=
  match e with
  | PCreateMachinePool mp _ => exists l0, l = l0 ++ [PGetMachinePool (m_namespace (mp_meta mp)) (m_name (mp_meta mp)) (Some (Err ErrNotFound))]
  | _ => True
  end.

Definition extends (s s' : Manager) : Prop :=
  exists t, run_trace (sm_run s') = run_trace (sm_run s) ++ t /\ forall t0, guarded (fun l => created_new (t0 ++ l)) t.

#[local] Instance extends_preorder : PreOrder extends.
Proof.
  split; [intros s; exists []; rewrite app_nil_r; split; [done | intros; apply guarded_nil] |].
  intros a b c (t1 & E1 & H1) (t2 & E2 & H2). exists (t1 ++ t2). split; [by rewrite E2, E1, app_assoc |].
  intros t0. apply guarded_app; [apply H1 |]. eapply guarded_weaken; [apply (H2 (t0 ++ t1)) |]. intros l e. cbn. by rewrite app_assoc.
Qed.

Definition not_created (e : PoolEvent) : Prop := match e with PCreateMachinePool _ _ => False | _ => True end.

Section Created.
Context {SE : SyncEnv}.

Lemma on_run_extends {A} (m : X (Run PoolEvent) A) : all_calls not_created m -> steps extends (on_run m).
Proof.
  intros Hm s. destruct (Hm (sm_run s)) as (t & E & F). unfold on_run. destruct (m (sm_run s)) as [r a]. exists t. split; [exact E |].
  intros t0. apply guarded_all. eapply Forall_impl; [exact F |]. by intros [].
Qed.

Ltac not_creating :=
  steps_all ltac:(first [apply on_run_extends; unfold get_pool, pool_update, pool_status, sg_status, record; all_steps fail | progress unfold range | fail]).

Lemma range_extends {A} (m : gmap string A) : steps extends (range m).
Proof. not_creating. Qed.

Lemma visit_groups_extends shards : steps extends (visit_groups shards).
Proof. induction shards as [| [shard groups] rest IH]; cbn [visit_groups]; [apply steps_ret, _ |]. steps_all ltac:(first [apply range_extends | apply IH]). Qed.

Lemma visit_cache_extends : steps extends visit_cache.
Proof. unfold visit_cache. steps_all ltac:(first [apply range_extends | apply visit_groups_extends]). Qed.

Lemma update_status_extends entry : steps extends (update_status entry).
Proof. destruct entry as [[shard key] g]. unfold update_status. not_creating. Qed.

Lemma ensure_machine_pool_extends key agg : steps extends (ensure_machine_pool key agg).
Proof.
  intros s. unfold ensure_machine_pool. rewrite x_bind_eq. unfold on_run at 1.
  match goal with |- context [found ?m] => pose proof (appends_found_call (fun n => pe_machine_pool n sy_namespace key) (PGetMachinePool sy_namespace key) (sm_run s)) as (t & Et & x & -> & Hx); destruct (found m (sm_run s)) as [r o] end.
  cbn in Et, Hx. assert (Hg : forall t0, guarded (fun l => created_new (t0 ++ l)) [PGetMachinePool sy_namespace key x]) by (intros; by apply guarded_one).
  destruct o as [[[mp |] | e] |]; cbn; [by eexists | | by eexists | by eexists].
  rewrite x_bind_eq. unfold x_wrap, on_run, call, mbind, M_bind. cbn.
  destruct (pe_create_machine_pool _ _) as [[mp | e] |]; cbn; eexists; (split; [rewrite Et, <- app_assoc; reflexivity |]);
    intros t0; (apply guarded_app; [apply Hg |]); apply guarded_one; exists t0; by rewrite (Hx None eq_refl).
Qed.

Lemma ensureMachinePool_extends key agg : steps extends (ensureMachinePool key agg).
Proof.
  unfold ensureMachinePool. apply steps_bind; [apply _ | unfold ensure_pool; not_creating |]. intros p.
  apply steps_bind; [apply _ | unfold ensure_pool_status; not_creating |]. intros []. apply ensure_machine_pool_extends.
Qed.

Lemma reconcile_extends : steps extends reconcileMachinePools.
Proof.
  unfold reconcileMachinePools, updateShardGroupStatuses, aggregateGroups.
  steps_all ltac:(first [apply visit_cache_extends | apply range_extends | apply update_status_extends | apply ensureMachinePool_extends]).
Qed.

Lemma quiet_extends s s' : sm_run s' = sm_run s -> extends s s'.
Proof. intros E. exists []. rewrite E, app_nil_r. split; [done | intros; apply guarded_nil]. Qed.

Lemma fullSync_extends : steps extends fullSync.
Proof.
  unfold fullSync, syncShard. steps_all ltac:(first [apply reconcile_extends | apply on_run_extends; all_steps fail | apply steps_mod; intros; by apply quiet_extends]).
Qed.

Lemma handle_request_extends req : steps extends (handle_request req).
Proof.
  destruct req as [| | shard ev]; cbn [handle_request];
    steps_all ltac:(first [apply fullSync_extends | apply reconcile_extends | apply steps_mod; intros; by apply quiet_extends]).
Qed.

Lemma unreachable_extends shard : steps extends (markShardUnreachable shard).
Proof. unfold markShardUnreachable, mark_unreachable. not_creating. Qed.

Lemma error_event_extends shard group message : steps extends (error_event shard group message).
Proof. unfold error_event, recordProviderError. not_creating. Qed.

Lemma offer_quiet req s : extends s (offer req s).
Proof. apply quiet_extends. unfold offer. by case_match. Qed.

Lemma step_extends s s' : sm_step s s' -> extends s s'.
Proof.
  intros Hstep. destruct Hstep as [s | s req rest Hq | s shard ev Hs Hl | s shard Hs | s shard how Hs | s shard group message Hs | s | s].
  - apply fullSync_extends.
  - exact (handle_request_extends req (dequeue rest s)).
  - by apply quiet_extends.
  - apply unreachable_extends.
  - destruct how; cbn [stream_ended]; [apply offer_quiet | | by apply quiet_extends]. revert s. apply steps_bind; [apply _ | apply unreachable_extends |].
    intros []. apply steps_mod. intros s. apply offer_quiet.
  - apply error_event_extends.
  - by apply quiet_extends.
  - etrans; [| apply offer_quiet]. by apply quiet_extends.
Qed.

Lemma reachable_extends s : reachable s -> exists run t, run_trace (sm_run s) = run_trace run ++ t /\ guarded created_new t.
Proof.
  intros (run & Hr). exists run.
  assert (H : extends (new_manager run) s).
  { trans (start (new_manager run)).1; [apply (steps_wrap extends _ _ fullSync_extends) |].
    induction Hr as [| s s' s'' Hs _ IH]; [done |]. etrans; [by apply step_extends | done]. }
  destruct H as (t & E & Ht). exists t. split; [exact E |]. exact (Ht []).
Qed.
End Created.

(** ** Claims *)

(** The manager's cache is well formed.  In every state the manager reaches, whatever
    fails and however its goroutines interleave, groups are filed under their own keys
    and under connected shards, and the queue respects its capacity and holds events of
    connected shards only. *)
Theorem sync_cache_invariant (SE : SyncEnv) (SL : SyncLaws SE) (s : Manager) : reachable s -> cache_ok s.
Proof. apply sync_reachable_ok. Qed.

(** A full sync mirrors the shards.  After a full sync that succeeds, the cache of
    every connected shard is, key by key, a listing the shard answered during that sync:
    nothing cached before survives. *)
Theorem full_sync_mirrors (SE : SyncEnv) (SL : SyncLaws SE) (s s1 : Manager) (shard : string) :
  fullSync s = (s1, Some (Ok tt)) -> shard ∈ sy_connections ->
  exists n listed, (run_tick (sm_run s) <= n < run_tick (sm_run s1))%nat /\ sy_list n shard = Some (Ok listed) /\
    sm_cache s1 !! shard = Some (of_listing listed).
Proof. intros H. exact (fullSync_run s s1 H shard). Qed.

(** Aggregation does not depend on the order of maps.  Of two visits of the same
    entries, in whatever orders, a group is aggregated by both or by neither, with the
    same total (the sum of its sizes as an [int32]), the same static flag, the same
    sorted provider IDs and the same shards up to order. *)
Theorem aggregate_order_irrelevant (entries entries' : list Entry) (key : string) :
  entries ≡ₚ entries' ->
  match aggregate entries !! key, aggregate entries' !! key with
  | Some a, Some b =>
      ag_total a = wrap32 (zsum ((fun e => gst_size e.2) <$> entries_of key entries)) /\ ag_total b = ag_total a /\
      ag_is_static b = ag_is_static a /\ sort_strings (ag_provider_ids b) = sort_strings (ag_provider_ids a) /\ ag_shards b ≡ₚ ag_shards a
  | None, None => True
  | _, _ => False
  end.
Proof.
  intros Hp. assert (Hk : entries_of key entries ≡ₚ entries_of key entries') by (unfold entries_of; by rewrite Hp).
  rewrite !aggregate_lookup. destruct (entries_of key entries) as [| e l], (entries_of key entries') as [| e' l'];
    [done | by apply Permutation_nil_cons in Hk | symmetry in Hk; by apply Permutation_nil_cons in Hk |].
  unfold summary. cbn [ag_total ag_is_static ag_provider_ids ag_shards]. rewrite !total_sum. split_and!.
  - done.
  - by rewrite Hk.
  - symmetry. by apply existsb_permutation.
  - apply sort_strings_permutation. by rewrite Hk.
  - by rewrite Hk.
Qed.

(** MachinePools are created, never changed.  In every state the manager reaches, a
    MachinePool was written only to create it, right after the API server answered that
    there was none of that name: the replicas of an existing one are left alone. *)
Theorem machine_pools_only_created (SE : SyncEnv) (s : Manager) :
  reachable s -> exists run t, run_trace (sm_run s) = run_trace run ++ t /\
    forall l1 mp r l2, t = l1 ++ PCreateMachinePool mp r :: l2 ->
      exists l0, l1 = l0 ++ [PGetMachinePool (m_namespace (mp_meta mp)) (m_name (mp_meta mp)) (Some (Err ErrNotFound))].
Proof.
  intros H. destruct (reachable_extends s H) as (run & t & E & Ht). exists run, t. split; [exact E |].
  intros l1 mp r l2 Hl. exact (Ht l1 (PCreateMachinePool mp r) l2 Hl).
Qed.

(** C36. The operator follows the server through a refresh.  Suppose that before the
    server refreshed its configuration both what it had sent on the tenant's stream and
    the manager's cache for the shard (filled by a full sync or by earlier events) were
    current, that the refresh succeeded with every send, and that the tenant's NAT
    group, which is hidden from operators, stayed the same.  Once the manager has served
    the events the refresh added to the stream, in their order, its cache is current
    again: it has exactly the groups the server now resolves, the hidden one apart, with
    their entity tags, whatever the calls to the API server answer. *)
Theorem cache_follows_server (GE : GroupEnv) (DL : DocLaws Content) (SE : SyncEnv) (g g' : GroupService) resp (t shard : string) (stream : nat) (m : Manager) :
  (forall n, ge_send n = None) -> streams_ok g -> consistent (gs_loader g) -> gs_streams g !! t = Some stream ->
  current t (view_of stream g) (gs_loader g) -> RefreshConfig g = (g', Reply resp) ->
  (forall k, hidden (gs_loader g') t k = hidden (gs_loader g) t k) ->
  current t (default ∅ (sm_cache m !! shard)) (gs_loader g) ->
  exists new, gs_sent g' = gs_sent g ++ new /\
    let events := omap (on_stream stream) new in
    current t (default ∅ (sm_cache (handled ((fun ev => ReqEvent shard (Some ev)) <$> events) m) !! shard)) (gs_loader g').
Proof.
  intros Hsend Hok Hcons Hstream Hcur Hr Hhid Hm. destruct (refresh_sends g g' resp Hok Hcons Hr) as [new Hnew]. exists new. split; [done |].
  intros events k Hk. destruct (refresh_keeps_views g g' resp t stream Hsend Hok Hcons Hstream Hcur Hr Hhid) as (_ & H & _).
  rewrite <- (H k Hk), handled_cache. unfold view_of. rewrite Hnew, omap_app, foldl_app. apply apply_agree. fold (view_of stream g).
  rewrite (Hm k), (Hcur k); [done | by rewrite <- Hhid ..].
Qed.

(** A queued event outlives a listing.  An event that waits in the queue when a full
    sync runs is older than the listing, but applied after it: a group the shard no
    longer lists is cached again, until something else removes it. *)
Theorem queued_event_restores (SE : SyncEnv) (SL : SyncLaws SE) (s s1 : Manager) (shard : string) (g : GroupStatus) (rest : list SyncRequest) :
  fullSync s = (s1, Some (Ok tt)) -> shard ∈ sy_connections -> sm_queue s = ReqEvent shard (Some (GroupUpsert g)) :: rest ->
  (forall n listed, sy_list n shard = Some (Ok listed) -> gst_key g ∉ gst_key <$> listed) ->
  (sm_cache s1 !! shard ≫= fun groups => groups !! gst_key g) = None /\
  exists s2, sm_step s s1 /\ sm_step s1 s2 /\ (sm_cache s2 !! shard ≫= fun groups => groups !! gst_key g) = Some g.
Proof.
  intros Hf Hs Hq Hl. destruct (fullSync_run s s1 Hf shard Hs) as (n & listed & _ & Hn & Hc). split.
  - rewrite Hc. cbn. unfold of_listing. rewrite stored_lookup, bool_decide_eq_false_2, lookup_empty by eauto. done.
  - exists (handle_request (ReqEvent shard (Some (GroupUpsert g))) (dequeue rest s1)).1. split; [| split].
    + pose proof (sm_tick s) as H. by rewrite Hf in H.
    + apply sm_request. rewrite <- Hq. pose proof (fullSync_queue s) as H. by rewrite Hf in H.
    + rewrite handle_event_cache. unfold applyGroupEvent. rewrite lookup_insert_eq. cbn. by rewrite lookup_insert_eq.
Qed.

From S2P Require Import Validation Samples Witnesses GroupWitnesses.

(** ** Concrete runs of the pool controllers and of the sync manager

    Two shards, one group, one pool of five replicas. *)
Module PoolWitnesses.
Import Pools Sync.

#[local] Open Scope Z_scope.

Lemma distributed_witness :
  zsum ((fun s => default 0 (distributeReplicas 5 ["a"; "b"] !! s)) <$> ["a"; "b"]) = 5 /\
  distributeReplicas 5 ["a"; "b"] !! "a" = Some 3 /\ distributeReplicas 5 ["a"; "b"] !! "b" = Some 2.
Proof.
  assert (Hd : NoDup ["a"; "b"]) by (apply (bool_decide_unpack _); vm_compute; exact I).
  destruct (replicas_distributed 5 ["a"; "b"] Hd ltac:(done) ltac:(done) ltac:(done)) as [Hs Hi]. split; [exact Hs |].
  split; [exact (Hi 0%nat "a" eq_refl) | exact (Hi 1%nat "b" eq_refl)].
Defined.

(** ** Objects *)

Definition pool_meta (deleting : bool) : Meta :=
  mkMeta "default" "web" "uid-p" 3 deleting [NstanceMachinePoolFinalizer] ∅ {[AnnotationManagedBy := AnnotationManagedByOperator]} [].

Definition pool (deleting : bool) (shards : list string) : NstanceMachinePool :=
  mkNstanceMachinePool ("v1beta1", "NstanceMachinePool") (pool_meta deleting) "web" shards "small" None "" ∅ [] false 0 false 0 0 [].

Definition capi_pool (replicas : option Z) : MachinePool := mkMachinePool (mkMeta "default" "web" "uid-mp" 2 false [] ∅ ∅ []) "k" replicas ("NstanceMachinePool", "web").

Definition ready_condition : Condition := mkCondition "Ready" "True" "SyncSucceeded" "Group synced successfully" 0 0.

Definition shard_group (deleting : bool) (shard : string) (size : Z) (generation observed : Z) : NstanceShardGroup :=
  mkNstanceShardGroup (mkMeta "default" (NstanceShardGroupName "web" shard) "uid-g" generation deleting [shardGroupFinalizer] (group_labels "web" shard) ∅ [])
    (mkShardGroupSpec "web" shard size "small" "" "" ∅) observed 0 [] false None None [ready_condition].

Definition web_status (size : Z) : GroupStatus := mkGroupStatus "web" "acme" "small" size "" "" ∅ true "e" size ["i-1"; "i-2"].

(** The API server has the given objects and stores what it is sent. *)
Definition pool_env (p : NstanceMachinePool) (mp : option (res MachinePool)) (group : string -> string -> option (res NstanceShardGroup)) : PoolEnv := {|
  pe_pool := fun _ _ _ => Some (Ok p);
  pe_pools := fun _ _ => Some (Ok [p]);
  pe_update := fun _ p => Some (Ok p);
  pe_status := fun _ p => Some (Ok p);
  pe_create_pool := fun _ p => Some (Ok p);
  pe_machine_pool := fun _ _ _ => mp;
  pe_create_machine_pool := fun _ mp => Some (Ok mp);
  pe_shard_group := fun _ => group;
  pe_shard_groups := fun _ _ => Some (Ok []);
  pe_create_shard_group := fun _ g => Some (Ok g);
  pe_update_shard_group := fun _ g => Some (Ok (bumped g));
  pe_status_shard_group := fun _ g => Some (Ok g);
  pe_delete_shard_group := fun _ _ => Some (Ok tt);
  pe_cluster := fun _ _ _ => Some (Err ErrNotFound);
  pe_cluster_status := fun _ c => Some (Ok c);
  pe_conns := fun _ => Some {["a"; "b"]};
  pe_upsert_group := fun _ _ _ c => Some (Ok (web_status (pg_size c)));
  pe_delete_group := fun _ _ _ => Some (Ok tt);
  pe_now := fun n => Z.of_nat n;
  pe_text := fun _ => "error";
  pe_sync := true;
  pe_cluster_name := "k";
|}.

Definition init : Run PoolEvent := mkRun 0 [].

(** ** The shard group controller *)

Definition sync_env : PoolEnv := pool_env (pool false ["a"; "b"]) (Some (Ok (capi_pool (Some 5)))) (fun _ _ => Some (Ok (shard_group false "a" 3 2 1))).
Definition synced_a : NstanceShardGroup := synced (setCondition (shard_group false "a" 3 2 1) ConditionTypeShardReachable "True" "Connected" "Shard connection is healthy" 2) (web_status 3) 4 5 6.

Lemma observed_witness :
  let upsert := PUpsertGroup "a" "web" (mkProtoGroupConfig "small" 3 "" "" ∅ ∅) (Some (Ok (web_status 3))) in
  run_trace (ReconcileShardGroup (PE := sync_env) "default" "web--a" init).1 =
    [upsert; PStatusShardGroup synced_a (Some (Ok synced_a)); PRecord "web--a" "Normal" "SyncSucceeded" "Group synced successfully"] /\
  exists st, PUpsertGroup "a" "web" (group_request (sg_spec synced_a)) (Some (Ok st)) ∈ [upsert].
Proof.
  intros upsert. split; [vm_compute; reflexivity |].
  destruct (shard_group_observed_synced sync_env "default" "web--a" init [upsert] [PRecord "web--a" "Normal" "SyncSucceeded" "Group synced successfully"]
    synced_a (Some (Ok synced_a))) as (st & H & _); [vm_compute; reflexivity | vm_compute; reflexivity |]. exists st. exact H.
Defined.

(** ** The pool controller *)

Definition groups_at (size_a size_b : Z) (namespace name : string) : option (res NstanceShardGroup) :=
  Some (Ok (if bool_decide (name = "web--a") then shard_group false "a" size_a 2 2 else shard_group false "b" size_b 2 2)).

Definition settled_env : PoolEnv := pool_env (pool false ["b"; "a"]) (Some (Ok (capi_pool (Some 5)))) (groups_at 3 2).

(** The calls before the status, and the status. *)
Definition settled_calls : list PoolEvent :=
  [PGetPool "default" "web" (Some (Ok (pool false ["b"; "a"]))); PGetMachinePool "default" "web" (Some (Ok (capi_pool (Some 5)))); PPause;
   PGetShardGroup "default" "web--a" (groups_at 3 2 "default" "web--a"); PGetShardGroup "default" "web--b" (groups_at 3 2 "default" "web--b")].

Definition settled_pool : NstanceMachinePool :=
  let p := pool false ["a"; "b"] in
  {| p with np_ready := true; np_observed := 3; np_observed_owner := 2;
            np_conditions := [mkCondition "Ready" "True" "Reconciled" "Successfully reconciled" 7 3] |}.

Lemma settled_witness :
  run_trace (ReconcilePool (PE := settled_env) "default" "web" init).1 = settled_calls ++ [PStatus settled_pool (Some (Ok settled_pool)); PResume] /\
  exists p mp, pool_seen p settled_calls /\ machine_pool_seen mp settled_calls.
Proof.
  split; [vm_compute; reflexivity |].
  destruct (ready_pool_settled settled_env "default" "web" init settled_calls [PResume] settled_pool (Some (Ok settled_pool))) as (p & mp & Hp & Hm & _);
    [vm_compute; reflexivity | reflexivity |]. by exists p, mp.
Defined.

(** A pool and a shard group that are being deleted. *)
Definition gone_env : PoolEnv := pool_env (pool true ["a"; "b"]) (Some (Ok (capi_pool (Some 5)))) (fun _ _ => Some (Ok (shard_group true "a" 3 2 2))).

Lemma gone_laws : PoolLaws gone_env.
Proof. constructor. by intros n p p' [= <-]. Qed.

Definition gone_pool : NstanceMachinePool :=
  let p := pool true ["a"; "b"] in {| p with np_meta := remove_finalizer NstanceMachinePoolFinalizer (np_meta p) |}.

Definition gone_calls : list PoolEvent :=
  [PGetPool "default" "web" (Some (Ok (pool true ["a"; "b"]))); PDeleteGroup "a" "web" (Some (Ok tt)); PDeleteGroup "b" "web" (Some (Ok tt))].

Lemma gone_witness :
  run_trace (ReconcilePool (PE := gone_env) "default" "web" init).1 = gone_calls ++ [PUpdate gone_pool (Some (Ok gone_pool))] /\
  PDeleteGroup "b" "web" (Some (Ok tt)) ∈ gone_calls.
Proof.
  split; [vm_compute; reflexivity |].
  apply (proj1 (groups_deleted_first gone_env gone_laws "default" "web" init gone_calls []) gone_pool (Some (Ok gone_pool))); [vm_compute; reflexivity | vm_compute; reflexivity |].
  right. left.
Defined.

(** The MachinePool does not exist yet, and neither do the shard groups. *)
Definition early_env : PoolEnv := pool_env (pool false ["a"; "b"]) (Some (Err ErrNotFound)) (fun _ _ => Some (Err ErrNotFound)).

Lemma emptied_witness :
  exists t, run_trace (reconcile_unique (PE := early_env) (pool false ["a"; "b"]) init).1 = t /\ Forall zero_sized t /\
    omap (fun e => match e with PCreateShardGroup g _ => Some (sg_shard (sg_spec g), sg_size (sg_spec g)) | _ => None end) t = [("a", 0); ("b", 0)].
Proof.
  destruct (unowned_pool_emptied early_env (pool false ["a"; "b"]) init) as (t & E & F); [reflexivity | by intros n mp mp' [= <-] | vm_compute; reflexivity |].
  cbn [run_trace init app] in E. exists t. split; [exact E |]. split; [exact F |]. rewrite <- E. vm_compute. reflexivity.
Defined.

(** The replicas of a settled pool grow from three to five. *)
Definition grown_env : PoolEnv := pool_env (pool false ["a"]) (Some (Ok (capi_pool (Some 5)))) (fun _ _ => Some (Ok (shard_group false "a" 3 2 2))).

Lemma ready_early_witness :
  exists q r, PStatus q r ∈ run_trace (update_shards (PE := grown_env) (pool false ["a"]) (capi_pool (Some 5)) init).1 /\
    np_ready q = true /\ unchanged q (capi_pool (Some 5)) = true.
Proof.
  destruct (pool_ready_before_shard grown_env (pool false ["a"]) (capi_pool (Some 5)) "a" (shard_group false "a" 3 2 2) init) as (q & r & E & H1 & H2 & _);
    try reflexivity; try (vm_compute; congruence).
  exists q, r. split; [rewrite E; right; right; left | by split].
Defined.

(** ** The sync manager *)

Definition shards_env (listed : nat -> list GroupStatus) : SyncEnv := {|
  sy_pools := settled_env;
  sy_list := fun n _ => Some (Ok (listed n));
  sy_keys := fun _ X => elements X;
  sy_connections := {["a"; "b"]};
  sy_namespace := "default";
  sy_recorder := true;
|}.

Lemma shards_laws listed : SyncLaws (shards_env listed).
Proof. by constructor. Qed.

Definition web_env : SyncEnv := shards_env (fun _ => [web_status 2]).
Definition empty_manager : Manager := new_manager init.
Definition web_manager : Manager := (Sync.start (SE := web_env) empty_manager).1.

Lemma web_reachable : reachable (SE := web_env) web_manager.
Proof. exists init. apply rtc_refl. Qed.

Lemma cache_witness : cache_ok (SE := web_env) web_manager /\ sm_cache web_manager !! "b" = Some {["web" := web_status 2]}.
Proof. split; [exact (sync_cache_invariant web_env (shards_laws _) web_manager web_reachable) | vm_compute; reflexivity]. Defined.

Lemma mirrors_witness :
  exists listed, sm_cache (fullSync (SE := web_env) empty_manager).1 !! "b" = Some (of_listing listed).
Proof.
  destruct (full_sync_mirrors web_env (shards_laws _) empty_manager (fullSync (SE := web_env) empty_manager).1 "b") as (n & listed & _ & _ & H);
    [vm_compute; reflexivity | vm_compute; reflexivity |]. by exists listed.
Defined.

Definition ab_entries : list Entry := [("a", "web", web_status 2); ("b", "web", web_status 3)].
Definition ba_entries : list Entry := [("b", "web", web_status 3); ("a", "web", web_status 2)].

Lemma order_witness :
  ag_total <$> aggregate ab_entries !! "web" = Some 5 /\
  match aggregate ab_entries !! "web", aggregate ba_entries !! "web" with
  | Some a, Some b => ag_total b = ag_total a
  | None, None => True
  | _, _ => False
  end.
Proof.
  split; [vm_compute; reflexivity |].
  pose proof (aggregate_order_irrelevant ab_entries ba_entries "web" (Permutation_swap _ _ [])) as H.
  destruct (aggregate ab_entries !! "web"), (aggregate ba_entries !! "web"); [exact (proj1 (proj2 H)) | exact H ..].
Defined.

(** No MachinePool exists, so the first sync creates one. *)
Definition bare_env : SyncEnv := {|
  sy_pools := early_env;
  sy_list := fun n _ => Some (Ok [web_status 2]);
  sy_keys := fun _ X => elements X;
  sy_connections := {["a"; "b"]};
  sy_namespace := "default";
  sy_recorder := true;
|}.

Definition bare_manager : Manager := (Sync.start (SE := bare_env) empty_manager).1.

Lemma created_witness :
  (exists run t, run_trace (sm_run bare_manager) = run_trace run ++ t /\
    forall l1 mp r l2, t = l1 ++ PCreateMachinePool mp r :: l2 ->
      exists l0, l1 = l0 ++ [PGetMachinePool (m_namespace (mp_meta mp)) (m_name (mp_meta mp)) (Some (Err ErrNotFound))]) /\
  omap (fun e => match e with PCreateMachinePool mp _ => Some (mp_replicas mp) | _ => None end) (run_trace (sm_run bare_manager)) = [Some 4].
Proof.
  split; [| vm_compute; reflexivity]. apply (machine_pools_only_created bare_env bare_manager). exists init. apply rtc_refl.
Defined.

(** A manager whose cache has the groups the server listed. *)
Definition caught_up : Manager := mkManager {["a" := view_of 0 watched]} false [] init.

(** The server refreshes a grown configuration; the manager serves what that adds to its
    stream. *)
Lemma follows_witness :
  exists new, gs_sent refreshed = gs_sent watched ++ new /\
  let m := handled (SE := web_env) ((fun ev => ReqEvent "a" (Some ev)) <$> omap (on_stream 0) new) caught_up in
  current (H := shard_env grown_config 0) "acme" (default ∅ (sm_cache m !! "a")) (gs_loader refreshed) /\
  (fun gs => gst_size <$> gs !! "web") <$> (sm_cache caught_up !! "a") = Some (Some 1) /\
  gst_etag <$> (default ∅ (sm_cache m !! "a") !! "db") = Some "db:1".
Proof.
  destruct watched_current as (Hok & _ & Hstr & _).
  assert (exists resp, RefreshConfig (GE := shard_env grown_config 0) watched = (refreshed, Reply resp)) as [resp Hr].
  { eexists. unfold refreshed. apply reply_run. vm_compute. reflexivity. }
  assert (forall k, hidden (gs_loader refreshed) "acme" k = hidden (gs_loader watched) "acme" k) as Hhid.
  { intros k. rewrite (hidden_none _ _ _ (detected grown_config)), (hidden_none _ _ _ (detected demo_config)); [done | vm_compute; reflexivity ..]. }
  destruct (cache_follows_server (shard_env grown_config 0) (shard_laws _ _) web_env watched refreshed resp "acme" "a" 0 caught_up
    (fun _ => eq_refl) Hok (watched_consistent_grown 0) Hstr (watched_current_grown 0) Hr Hhid (watched_current_grown 0)) as (new & Hnew & Hcur).
  exists new. split; [exact Hnew |]. split; [exact Hcur |]. split; [vm_compute; reflexivity |].
  rewrite (Hcur "db"); [vm_compute; reflexivity |]. apply (hidden_none _ _ _ (detected grown_config)); vm_compute; reflexivity.
Defined.

(** The group is deleted on the shards while an event about it waits. *)
Definition deleted_env : SyncEnv := shards_env (fun _ => []).
Definition waiting : Manager := mkManager ∅ false [ReqEvent "a" (Some (GroupUpsert (web_status 2)))] init.

Lemma queued_witness :
  exists s2, sm_step (SE := deleted_env) waiting (fullSync (SE := deleted_env) waiting).1 /\ sm_step (SE := deleted_env) (fullSync (SE := deleted_env) waiting).1 s2 /\
    (sm_cache s2 !! "a" ≫= fun groups => groups !! "web") = Some (web_status 2).
Proof.
  apply (queued_event_restores deleted_env (shards_laws _) waiting (fullSync (SE := deleted_env) waiting).1 "a" (web_status 2) []).
  - vm_compute. reflexivity.
  - vm_compute. reflexivity.
  - reflexivity.
  - intros n listed [= <-]. apply not_elem_of_nil.
Defined.
End PoolWitnesses.
