(* ===== verification/Renewal.v ===== *)
(** * Certificate renewal ([src/internal/renewal])

    The goroutine that renews a client certificate at half of its remaining lifetime,
    retries until the certificate has expired, and ends the process so that it restarts
    with the new one.  Times are nanoseconds.  [rn_now] is the clock, which never goes
    back, and [rn_done] says whether the context is cancelled; every reading of either
    takes a tick.  A wait ends at its time or later, or when the context is cancelled. *)

From S2P Require Import Prelude.

#[local] Open Scope Z_scope.

Module Renewal.

Definition second : Z := 1000000000.
Definition minute : Z := 60 * second.
Definition max_backoff : Z := 30 * minute.

(** How the goroutine ended. *)
Inductive Ending :=
  | Disabled                       (* Start without a complete configuration *)
  | Renewed (cert : string)        (* exit after a stored renewal *)
  | Expired                        (* exit because the certificate has expired *)
  | Cancelled.                     (* return at shutdown *)

(** What the goroutine did. *)
Inductive Event :=
  | Attempted (at_ : Z) (result : res string)
  | Slept (from : Z) (wait : Z).

Class RenewEnv := mkRenewEnv {
  rn_now : nat -> Z;
  rn_done : nat -> bool;
  rn_pem : res string;                          (* MarshalPKIXPublicKey of the key *)
  rn_connect : nat -> res string;               (* GetConnection: the shard *)
  rn_renew : nat -> string -> string -> res string;       (* RenewCertificate at a shard for a public key *)
  rn_store : nat -> string -> res unit;         (* StoreCertificate *)
}.

(** The clock is monotonic, and [time.After] does not fire early: a wait that was
    begun at tick [n] and was not cancelled ends at tick [S n]. *)
Class RenewLaws (RE : RenewEnv) : Prop := {
  rn_mono : forall n m, (n <= m)%nat -> rn_now n <= rn_now m;
}.

Section Renewal.
Context {RE : RenewEnv}.

(** The tick and the events, newest first. *)
Record St := mkSt { st_tick : nat; st_log : list Event }.

Definition tick (s : St) : St := mkSt (S (st_tick s)) (st_log s).
Definition log (e : Event) (s : St) : St := mkSt (st_tick s) (e :: st_log s).

(** [renewCertificate]. *)
Definition renewCertificate (s : St) : St * res string :=
  let n := st_tick s in
  let r := match rn_pem with
           | Err e => Err (ErrWrap "failed to marshal public key" e)
           | Ok pub =>
               match rn_connect n with
               | Err e => Err (ErrWrap "failed to get connection" e)
               | Ok shard =>
                   match rn_renew n shard pub with
                   | Err e => Err (ErrWrap "renewal failed" e)
                   | Ok cert =>
                       match rn_store n cert with
                       | Err e => Err (ErrWrap "failed to store renewed certificate" e)
                       | Ok _ => Ok cert
                       end
                   end
               end
           end in
  (tick (log (Attempted (rn_now n) r) s), r).

(** The wait before the next attempt, from the current one and the time that is left. *)
Definition clamp_backoff (backoff timeUntilExpiry : Z) : Z :=
  let backoff := if Z.quot timeUntilExpiry 2 <? backoff then Z.quot timeUntilExpiry 2 else backoff in
  if backoff <? second then second else backoff.

Definition double_backoff (backoff : Z) : Z :=
  let backoff := backoff * 2 in if max_backoff <? backoff then max_backoff else backoff.

(** The loop over failed attempts.  A wait is over when the clock has passed it;
    [fuel] bounds the readings of the clock. *)
Fixpoint await (fuel : nat) (until : Z) (s : St) : option (St * bool) :=
  match fuel with
  | O => None
  | S fuel =>
      if rn_done (st_tick s) then Some (tick s, false)
      else if until <=? rn_now (st_tick s) then Some (tick s, true)
      else await fuel until (tick s)
  end.

Fixpoint retry (fuel : nat) (expiresAt backoff : Z) (s : St) : option (St * Ending) :=
  match fuel with
  | O => None
  | S fuel' =>
      if rn_done (st_tick s) then Some (tick s, Cancelled)
      else
        let s := tick s in
        if expiresAt <? rn_now (st_tick s) then Some (tick s, Expired)
        else
          let s := tick s in
          let from := rn_now (st_tick s) in
          let wait := clamp_backoff backoff (expiresAt - from) in
          match await fuel (from + wait) (tick (log (Slept from wait) s)) with
          | None => None
          | Some (s, false) => Some (s, Cancelled)
          | Some (s, true) =>
              match renewCertificate s with
              | (s, Ok cert) => Some (s, Renewed cert)
              | (s, Err _) => retry fuel' expiresAt (double_backoff wait) s
              end
          end
  end.

(** [run]. *)
Definition run (fuel : nat) (expiresAt : Z) (s : St) : option (St * Ending) :=
  let now := rn_now (st_tick s) in
  let s := tick s in
  let remainingLifetime := expiresAt - now in
  if remainingLifetime <=? 0 then Some (s, Expired)
  else
    let renewalTime := now + Z.quot remainingLifetime 2 in
    let from := rn_now (st_tick s) in
    let sleepDuration := renewalTime - from in
    match await fuel (from + sleepDuration) (tick (log (Slept from sleepDuration) s)) with
    | None => None
    | Some (s, false) => Some (s, Cancelled)
    | Some (s, true) =>
        match renewCertificate s with
        | (s, Ok cert) => Some (s, Renewed cert)
        | (s, Err _) => retry fuel expiresAt minute s
        end
    end.

(** [Start]: the configuration is complete, or nothing is started. *)
Definition Start (complete : bool) (fuel : nat) (expiresAt : Z) (s : St) : option (St * Ending) :=
  if complete then run fuel expiresAt s else Some (s, Disabled).
End Renewal.
End Renewal.

(** ** Facts about certificate renewal *)
Module RenewalFacts.
#[local] Open Scope Z_scope.

Import Renewal.

Section Facts.
Context {RE : RenewEnv}.

(** ** Pace *)

(** A pause between attempts is at least a second, at most half an hour, and at most
    half of the time that is left, unless that is less than a second. *)
Definition paced (expiresAt : Z) (e : Event) : Prop :=
  match e with
  | Slept from wait => second <= wait <= Z.max second (Z.min max_backoff (Z.quot (expiresAt - from) 2))
  | Attempted _ _ => True
  end.

(** What a run adds to the log. *)
Definition adds (P : Event -> Prop) (s s' : St) : Prop := exists l, st_log s' = l ++ st_log s /\ Forall P l.

Lemma adds_refl P s s' : st_log s' = st_log s -> adds P s s'.
Proof. intros H. by exists []. Qed.

Lemma adds_trans P s1 s2 s3 : adds P s1 s2 -> adds P s2 s3 -> adds P s1 s3.
Proof.
  intros (l1 & H1 & F1) (l2 & H2 & F2). exists (l2 ++ l1). rewrite H2, H1, app_assoc. split; [done | by apply Forall_app].
Qed.

Lemma adds_log (P : Event -> Prop) e s : P e -> adds P s (tick (log e s)).
Proof. intros H. exists [e]. split; [done | by constructor]. Qed.

Lemma await_log fuel until s s' b : await fuel until s = Some (s', b) -> st_log s' = st_log s.
Proof.
  revert s. induction fuel as [| fuel IH]; intros s; cbn [await]; [done |].
  destruct (rn_done _); [by intros [= <- <-] |]. destruct (_ <=? _); [by intros [= <- <-] |]. intros H. by rewrite (IH _ H).
Qed.

Lemma clamp_paced expiresAt backoff from :
  backoff <= max_backoff -> paced expiresAt (Slept from (clamp_backoff backoff (expiresAt - from))).
Proof.
  intros H. unfold paced, clamp_backoff. set (half := Z.quot (expiresAt - from) 2).
  destruct (Z.ltb_spec half backoff); cbn zeta; [destruct (Z.ltb_spec half second) | destruct (Z.ltb_spec backoff second)]; lia.
Qed.

Lemma double_bounded backoff : double_backoff backoff <= max_backoff.
Proof. unfold double_backoff. destruct (Z.ltb_spec max_backoff (backoff * 2)); lia. Qed.

(** How a run ends: the certificate that was obtained and stored, or the time is up. *)
Definition ends_well (expiresAt : Z) (s : St) (e : Ending) : Prop :=
  match e with
  | Renewed cert => exists n shard pub, rn_pem = Ok pub /\ rn_connect n = Ok shard /\ rn_renew n shard pub = Ok cert /\
                    rn_store n cert = Ok tt /\ head (st_log s) = Some (Attempted (rn_now n) (Ok cert))
  | Expired => exists n, expiresAt <= rn_now n
  | Cancelled => exists n, rn_done n = true
  | Disabled => False
  end.

Lemma renew_ends expiresAt s s' cert : renewCertificate s = (s', Ok cert) -> ends_well expiresAt s' (Renewed cert).
Proof.
  unfold renewCertificate. destruct rn_pem as [pub | e] eqn:Ep; [| done].
  destruct (rn_connect _) as [shard | e] eqn:Ec; [| done]. destruct (rn_renew _ _ _) as [c | e] eqn:Er; [| done].
  destruct (rn_store _ _) as [[] | e] eqn:Es; [| done]. intros [= <- <-]. exists (st_tick s), shard, pub. done.
Qed.

Lemma renew_adds expiresAt s : adds (paced expiresAt) s (renewCertificate s).1.
Proof. unfold renewCertificate. cbn [fst]. by apply adds_log. Qed.

Lemma await_cancelled fuel until s s' : await fuel until s = Some (s', false) -> exists n, rn_done n = true.
Proof.
  revert s. induction fuel as [| fuel IH]; intros s; cbn [await]; [done |].
  destruct (rn_done _) eqn:E; [eauto |]. destruct (_ <=? _); [done | apply IH].
Qed.

Lemma retry_paced fuel expiresAt backoff s s' e :
  backoff <= max_backoff -> retry fuel expiresAt backoff s = Some (s', e) -> adds (paced expiresAt) s s' /\ ends_well expiresAt s' e.
Proof.
  revert backoff s. induction fuel as [| fuel IH]; intros backoff s Hb; [done |].
  cbn [retry]. destruct (rn_done (st_tick s)) eqn:Ed; [intros [= <- <-]; split; [by apply adds_refl | by eexists] |].
  set (s1 := tick s). destruct (Z.ltb_spec expiresAt (rn_now (st_tick s1))) as [Hx | Hx].
  { intros [= <- <-]. split; [by apply adds_refl |]. exists (st_tick s1). lia. }
  set (s2 := tick s1). set (from := rn_now (st_tick s2)). set (wait := clamp_backoff backoff (expiresAt - from)).
  set (s3 := tick (log (Slept from wait) s2)).
  assert (adds (paced expiresAt) s s3) as H3
    by (eapply (adds_trans _ _ s2); [by apply adds_refl | by apply adds_log, clamp_paced]).
  destruct (await (S fuel) (from + wait) s3) as [[s4 []] |] eqn:Ea; [| intros [= <- <-] | done].
  2:{ split; [| by eapply await_cancelled]. eapply adds_trans; [done |]. apply adds_refl. by eapply await_log. }
  pose proof (renew_adds expiresAt s4) as H5. destruct (renewCertificate s4) as [s5 [cert | err]] eqn:Er.
  - intros [= <- <-]. split; [| by eapply renew_ends].
    eapply adds_trans; [exact H3 |]. eapply adds_trans; [| exact H5]. apply adds_refl. by eapply await_log.
  - intros Hr. apply IH in Hr as [H6 H7]; [| apply double_bounded]. split; [| done].
    eapply adds_trans; [exact H3 |]. eapply adds_trans; [| eapply adds_trans; [exact H5 | exact H6]].
    apply adds_refl. by eapply await_log.
Qed.

(** Renewal.  A run of the renewal goroutine sleeps until half of the remaining
    lifetime; after that, the pauses between attempts are at least a second and at most
    the larger of a second and of the smaller of half an hour and half of the time that
    is left; and it ends the process as renewed only when the server gave a certificate
    for the client's own key and that very certificate was stored, as expired only when
    the certificate's time is up, and as cancelled only when the context is. *)
Theorem renewal_paced complete fuel expiresAt s s' e :
  Start complete fuel expiresAt s = Some (s', e) ->
  let now := rn_now (st_tick s) in let from := rn_now (S (st_tick s)) in
  (e = Disabled /\ complete = false /\ s' = s) \/
  (e = Expired /\ expiresAt <= now /\ st_log s' = st_log s) \/
  (now < expiresAt /\ ends_well expiresAt s' e /\
   exists l, st_log s' = l ++ Slept from (now + Z.quot (expiresAt - now) 2 - from) :: st_log s /\ Forall (paced expiresAt) l).
Proof.
  unfold Start. destruct complete; [| intros [= <- <-]; by left]. unfold run. cbn zeta.
  destruct (Z.leb_spec (expiresAt - rn_now (st_tick s)) 0) as [Hx | Hx].
  { intros [= <- <-]. right. left. split_and!; [done | lia | done]. }
  intros H. right. right. split; [lia |]. cbn [tick st_tick] in H.
  set (d := rn_now (st_tick s) + Z.quot (expiresAt - rn_now (st_tick s)) 2 - rn_now (S (st_tick s))) in *.
  set (s1 := tick (log (Slept (rn_now (S (st_tick s))) d) (tick s))) in *.
  assert (forall s2, adds (paced expiresAt) s1 s2 -> exists l,
    st_log s2 = l ++ Slept (rn_now (S (st_tick s))) d :: st_log s /\ Forall (paced expiresAt) l) as Hadds by (intros s2 Ha; exact Ha).
  destruct (await fuel _ s1) as [[s2 []] |] eqn:Ea; [| injection H as <- <- | done].
  2:{ split; [by eapply await_cancelled |]. apply Hadds, adds_refl. by eapply await_log. }
  pose proof (renew_adds expiresAt s2) as H2. destruct (renewCertificate s2) as [s3 [cert | err]] eqn:Er.
  - injection H as <- <-. split; [by eapply renew_ends |]. apply Hadds. eapply adds_trans; [| exact H2].
    apply adds_refl. by eapply await_log.
  - apply retry_paced in H as [H3 H4]; [| done]. split; [done |]. apply Hadds.
    eapply adds_trans; [| eapply adds_trans; [exact H2 | exact H3]]. apply adds_refl. by eapply await_log.
Qed.
(** ** Termination *)

Lemma await_more f f' until s r : (f <= f')%nat -> await f until s = Some r -> await f' until s = Some r.
Proof.
  revert f' s. induction f as [| f IH]; intros f' s Hle; [done |]. destruct f' as [| f']; [lia |]. cbn [await].
  destruct (rn_done _); [done |]. destruct (_ <=? _); [done |]. apply IH. lia.
Qed.

Lemma await_advances f until s s' b : await f until s = Some (s', b) -> (st_tick s < st_tick s')%nat.
Proof.
  revert s. induction f as [| f IH]; intros s; cbn [await]; [done |].
  destruct (rn_done _); [intros [= <- <-]; cbn; lia |]. destruct (_ <=? _); [intros [= <- <-]; cbn; lia |].
  intros H%IH. cbn in H. lia.
Qed.

Lemma retry_more f f' expiresAt backoff s r :
  (f <= f')%nat -> retry f expiresAt backoff s = Some r -> retry f' expiresAt backoff s = Some r.
Proof.
  revert f' backoff s. induction f as [| f IH]; intros f' backoff s Hle; [done |]. destruct f' as [| f']; [lia |].
  cbn [retry]. destruct (rn_done _); [done |]. destruct (_ <? _); [done |].
  destruct (await (S f) _ _) as [[s4 b] |] eqn:Ea; [| done]. rewrite (await_more _ (S f') _ _ _ Hle Ea).
  destruct b; [| done]. destruct (renewCertificate s4) as [s5 [cert | e]]; [done |]. apply IH. lia.
Qed.

Context {RL : RenewLaws RE}.

(** Time passes. *)
Context (passes : forall t, exists n, t <= rn_now n).

Lemma await_ends until s : exists f, is_Some (await f until s).
Proof.
  destruct (passes until) as [N HN]. remember (N - st_tick s)%nat as d eqn:Hd.
  revert s Hd. induction d as [| d IH]; intros s Hd.
  - exists 1%nat. cbn [await]. destruct (rn_done _); [by eexists |].
    rewrite (proj2 (Z.leb_le _ _)); [by eexists |]. etrans; [exact HN |]. apply rn_mono. lia.
  - destruct (IH (tick s)) as [f Hf]; [cbn; lia |]. exists (S f). cbn [await].
    destruct (rn_done _); [by eexists |]. destruct (_ <=? _); [by eexists | done].
Qed.

Lemma retry_ends expiresAt backoff s : exists f, is_Some (retry f expiresAt backoff s).
Proof.
  destruct (passes (expiresAt + 1)) as [N HN]. remember (S N - st_tick s)%nat as d eqn:Hd.
  assert (S N - st_tick s <= d)%nat as Hle by lia. clear Hd. revert backoff s Hle. induction d as [| d IH]; intros backoff s Hle.
  - exists 1%nat. cbn [retry]. destruct (rn_done _); [by eexists |].
    rewrite (proj2 (Z.ltb_lt _ _)); [by eexists |]. cbn [tick st_tick]. pose proof (rn_mono N (S (st_tick s)) ltac:(lia)). lia.
  - set (s2 := tick (tick s)). set (from := rn_now (st_tick s2)). set (wait := clamp_backoff backoff (expiresAt - from)).
    destruct (await_ends (from + wait) (tick (log (Slept from wait) s2))) as [f1 [[s4 b] H1]].
    pose proof (await_advances _ _ _ _ _ H1) as Hadv. cbn in Hadv.
    destruct (IH (double_backoff wait) (renewCertificate s4).1) as [f2 [r H2]]; [cbn; lia |].
    exists (S (f1 + f2))%nat. cbn [retry]. fold s2 from wait. destruct (rn_done _); [by eexists |]. destruct (_ <? _); [by eexists |].
    rewrite (await_more f1 (S (f1 + f2)) _ _ _ ltac:(lia) H1). destruct b; [| by eexists].
    destruct (renewCertificate s4) as [s5 [cert | e]]; [by eexists |]. cbn [fst] in H2.
    rewrite (retry_more f2 (f1 + f2) _ _ _ _ ltac:(lia) H2). by eexists.
Qed.

(** The renewal goroutine ends: when the clock passes every time, it has renewed the
    certificate, or noticed that it has expired, or been cancelled, however often
    attempts fail. *)
Theorem renewal_ends complete expiresAt s : exists fuel, is_Some (Start complete fuel expiresAt s).
Proof.
  unfold Start. destruct complete; [| exists 0%nat; by eexists]. unfold run. cbn zeta.
  destruct (_ <=? 0); [exists 0%nat; by eexists |].
  match goal with |- context [await _ ?u ?s0] => destruct (await_ends u s0) as [f1 [[s4 b] H1]] end.
  destruct (retry_ends expiresAt minute (renewCertificate s4).1) as [f2 [r H2]].
  exists (f1 + f2)%nat. rewrite (await_more f1 (f1 + f2) _ _ _ ltac:(lia) H1). destruct b; [| by eexists].
  destruct (renewCertificate s4) as [s5 [cert | e]]; [by eexists |]. cbn [fst] in H2.
  rewrite (retry_more f2 (f1 + f2) _ _ _ _ ltac:(lia) H2). by eexists.
Qed.
End Facts.
End RenewalFacts.
