(* ===== verification/Disk.v ===== *)
(** * Files of the agent ([src/internal/files], [src/internal/identity],
      [src/pkg/client/registration], [src/internal/agent/keygen])

    The agent keeps its identity, its keys and the files it receives on disk, and may
    be stopped at any instruction.  A disk maps paths, a directory and a name, to
    contents.  Every operation takes a tick; [dk_out] says whether it is done, fails, or
    is the last one before the agent dies.  A write that is interrupted leaves whatever
    [dk_part] says.  Permissions and directories are not modelled: an operation they
    forbid is one that fails.

    PEM, X.509, JSON and JWT parsing of the libraries are parameters. *)

From S2P Require Import Prelude GoText Process.
From Stdlib Require Import Ascii.

#[local] Open Scope Z_scope.

Module Disk.

Abbreviation Path := (string * string)%type.
Abbreviation Files := (gmap (string * string) string).

Record Disk := mkDisk { d_tick : nat; d_files : Files }.

(** An operation is done, fails, or dies after or before its effect. *)
Inductive Outcome :=
  | Done
  | Failed (e : err)
  | Died (applied : bool).

(** A decoded PEM block: Ed25519 keys and certificates by their encodings, and keys of
    other kinds. *)
Inductive Pem :=
  | PemPrivate (key : string)
  | PemPublic (key : string)
  | PemOtherPrivate
  | PemOtherPublic
  | PemCertificate (cert : string).

Class DiskEnv := mkDiskEnv {
  dk_out : nat -> Outcome;
  dk_part : nat -> string -> string;
  dk_pem : string -> option Pem;                      (* DecodePem: [None] when it returns an error *)
  dk_public : string -> string;                       (* EncodePem of a public key *)
  dk_private : string -> string;
  dk_keypair : nat -> res (string * string);          (* ed25519.GenerateKey: public, private *)
  dk_jwt : nat -> string -> res (option string);      (* jwt.Parse and its claim config_hash, when a non-empty string *)
  dk_register : nat -> string -> string -> res string; (* RegisterAgent: nonce and public key; the certificate *)
  dk_json : string -> bool;                           (* json.Unmarshal succeeds *)
  dk_suffix : nat -> string;                          (* the random part of os.CreateTemp *)
  dk_now : nat -> Z;                                  (* time.Now, in milliseconds *)
  dk_order : nat -> list string -> list string;       (* the order in which a map is visited *)
}.

(** What the libraries guarantee of keys. *)
Class PemLaws (DE : DiskEnv) : Prop := {
  dk_public_decodes : forall k, dk_pem (dk_public k) = Some (PemPublic k);
  dk_private_decodes : forall k, dk_pem (dk_private k) = Some (PemPrivate k);
}.

(** Ranging over a map visits every key once. *)
Class OrderLaws (DE : DiskEnv) : Prop := {
  dk_order_perm : forall n l, dk_order n l ≡ₚ l;
}.

Section Ops.
Context {DE : DiskEnv}.

Abbreviation IO A := (X Disk A).

Definition at_tick (n : nat) (files : Files) : Disk := mkDisk (S n) files.

(** An operation on the whole disk, which takes effect or does not. *)
Definition disk_op (f : Files -> res Files) : IO unit := fun s =>
  let n := d_tick s in
  match dk_out n, f (d_files s) with
  | Done, Ok files => (at_tick n files, Some (Ok tt))
  | Done, Err e => (at_tick n (d_files s), Some (Err e))
  | Failed e, _ => (at_tick n (d_files s), Some (Err e))
  | Died true, Ok files => (at_tick n files, None)
  | Died _, _ => (at_tick n (d_files s), None)
  end.

(** [os.Open] and [io.ReadAll]; [None] when there is no such file. *)
Definition read_file (p : Path) : IO (option string) := fun s =>
  let n := d_tick s in
  match dk_out n with
  | Done => (at_tick n (d_files s), Some (Ok (d_files s !! p)))
  | Failed e => (at_tick n (d_files s), Some (Err e))
  | Died _ => (at_tick n (d_files s), None)
  end.

(** [os.OpenFile] with [O_CREATE] and [O_TRUNC]. *)
Definition open_trunc (p : Path) : IO unit := disk_op (fun files => Ok (<[p := ""]> files)).

(** Writing [data] to an empty file. *)
Definition write (p : Path) (data : string) : IO unit := fun s =>
  let n := d_tick s in
  match dk_out n with
  | Done => (at_tick n (<[p := data]> (d_files s)), Some (Ok tt))
  | Failed e => (at_tick n (<[p := dk_part n data]> (d_files s)), Some (Err e))
  | Died _ => (at_tick n (<[p := dk_part n data]> (d_files s)), None)
  end.

Definition rename (p q : Path) : IO unit :=
  disk_op (fun files => match files !! p with Some c => Ok (<[q := c]> (delete p files)) | None => Err ErrNotFound end).

Definition remove (p : Path) : IO unit :=
  disk_op (fun files => match files !! p with Some _ => Ok (delete p files) | None => Err ErrNotFound end).

(** [os.Remove], a missing file being no error. *)
Definition remove_any (p : Path) : IO unit := disk_op (fun files => Ok (delete p files)).

(** [os.WriteFile]. *)
Definition WriteFile (p : Path) (data : string) : IO unit := _ ←? open_trunc p; write p data.

(** [os.CreateTemp] takes a new name. *)
Definition create (p : Path) : IO unit :=
  disk_op (fun files => match files !! p with Some _ => Err (ErrMsg "file exists") | None => Ok (<[p := ""]> files) end).

(** Something that only takes time, and may fail. *)
Definition touch : IO unit := disk_op Ok.

Definition ask {A} (f : nat -> res A) : IO A := fun s => (at_tick (d_tick s) (d_files s), Some (f (d_tick s))).

(** ** Package files *)

Definition check_path (dir file : string) : res unit :=
  if bool_decide (dir = "") then Err (ErrMsg "file directory path is invalid")
  else if bool_decide (file = "") then Err (ErrMsg "filename is invalid") else Ok tt.

(** [LoadPEM] of an optional file. *)
Definition LoadPEM (dir file : string) (required : bool) : IO (option Pem) :=
  _ ←? x_res (check_path dir file);
  content ←? read_file (dir, file);
  match content with
  | None => if required then x_fail (ErrMsg "file does not exist") else x_ret None
  | Some data => match dk_pem data with Some v => x_ret (Some v) | None => x_fail (ErrMsg "invalid PEM file") end
  end.

(** [WritePEM]. *)
Definition WritePEM (dir file data : string) : IO unit :=
  _ ←? x_res (check_path dir file);
  match dk_pem data with
  | None => x_fail (ErrMsg "invalid PEM file")
  | Some _ => _ ←? open_trunc (dir, file); write (dir, file) data
  end.

(** [DeleteFile]: a missing file is not an error; the first operation is [os.Stat]. *)
Definition DeleteFile (dir file : string) : IO unit :=
  _ ←? x_res (check_path dir file);
  content ←? read_file (dir, file);
  match content with
  | None => x_ret tt
  | Some _ => remove (dir, file)
  end.

(** ** Package identity *)

Definition nonceFilename : string := "nonce.jwt".
Definition caCertFilename : string := "ca.crt".
Definition publicKeyFilename : string := "identity.pub".
Definition privateKeyFilename : string := "identity.key".
Definition clientCertFilename : string := "identity.crt".
Definition configHashFilename : string := "config.hash".

Record Identity := mkIdentity {
  id_nonce : option string;
  id_ca : option string;
  id_public : option string;
  id_private : option string;
  id_cert : option string;
}.

Definition no_identity : Identity := mkIdentity None None None None None.

(** [LoadJWT] of an optional file: the first line, trimmed; an empty file is an error.
    A line that the scanner's buffer does not hold is a read that fails. *)
Definition first_line (data : string) : option string :=
  if bool_decide (data = "") then None
  else Some (TrimSpace (match split_first "010"%char (chars data) with Some (l, _) => text l | None => data end)).

Definition LoadJWT (dir file : string) : IO (option string) :=
  _ ←? x_res (check_path dir file);
  content ←? read_file (dir, file);
  match content with
  | None => x_ret None
  | Some data => match first_line data with Some l => x_ret (Some l) | None => x_fail (ErrMsg "file is empty") end
  end.

(** [WriteString]. *)
Definition WriteString (dir file data : string) : IO unit :=
  _ ←? x_res (check_path dir file);
  _ ←? open_trunc (dir, file);
  write (dir, file) (TrimSpace data).

(** [LoadString] of an optional file. *)
Definition LoadString (dir file : string) : IO string :=
  _ ←? x_res (check_path dir file);
  content ←? read_file (dir, file);
  x_ret (match content with Some data => TrimSpace data | None => "" end).

(** [validateAndExtractNonce]. *)
Definition validateAndExtractNonce (dir nonce : string) : IO unit :=
  hash ←? x_wrap "nonce is not a valid JWT" (ask (fun n => dk_jwt n nonce));
  match hash with
  | Some h => x_wrap "failed to write config hash" (WriteString dir configHashFilename h)
  | None => x_ret tt
  end.

Definition load_certificate (dir file : string) (required : bool) : IO (option string) :=
  v ←? LoadPEM dir file required;
  match v with
  | None => x_ret None
  | Some (PemCertificate c) => x_ret (Some c)
  | Some _ => x_fail (ErrMsg "unexpected certificate type")
  end.

Definition load_public (dir file : string) : IO (option string) :=
  v ←? LoadPEM dir file false;
  match v with
  | None => x_ret None
  | Some (PemPublic k) => x_ret (Some k)
  | Some _ => x_fail (ErrMsg "unexpected public key type")
  end.

Definition load_private (dir file : string) (required : bool) : IO (option string) :=
  v ←? LoadPEM dir file required;
  match v with
  | None => x_ret None
  | Some (PemPrivate k) => x_ret (Some k)
  | Some _ => x_fail (ErrMsg "unexpected private key type")
  end.

(** [GenerateKeypair], called when there is neither key: the public key is written
    first. *)
Definition GenerateKeypair (dir : string) : IO (string * string) :=
  keys ←? x_wrap "failed to generate identity keypair" (ask dk_keypair);
  _ ←? x_wrap "failed to generate identity keypair" (WritePEM dir publicKeyFilename (dk_public keys.1));
  _ ←? x_wrap "failed to generate identity keypair" (WritePEM dir privateKeyFilename (dk_private keys.2));
  x_ret keys.

(** [LoadOrCreate]. *)
Definition load_keypair (dir : string) (pub key : option string) : IO (string * string) :=
  match pub, key with
  | None, None => GenerateKeypair dir
  | Some p, Some k => x_ret (p, k)
  | _, _ => x_fail (ErrMsg "incomplete identity keypair")
  end.

Definition LoadOrCreate (dir : string) : IO Identity :=
  nonce ←? LoadJWT dir nonceFilename;
  _ ←? (match nonce with
        | Some n => if bool_decide (n = "") then x_ret tt else validateAndExtractNonce dir n
        | None => x_ret tt
        end);
  ca ←? load_certificate dir caCertFilename false;
  pub ←? load_public dir publicKeyFilename;
  key ←? load_private dir privateKeyFilename false;
  cert ←? load_certificate dir clientCertFilename false;
  keys ←? load_keypair dir pub key;
  x_ret (mkIdentity nonce ca (Some keys.1) (Some keys.2) cert).

(** [Load], for clients. *)
Definition Load (dir : string) : IO Identity :=
  ca ←? x_wrap "identity not found" (load_certificate dir caCertFilename true);
  cert ←? x_wrap "client certificate not found" (load_certificate dir clientCertFilename true);
  key ←? x_wrap "private key not found" (load_private dir privateKeyFilename true);
  x_ret (mkIdentity None ca None key cert).

(** [StoreClientCertificate] and [DeleteNonce]. *)
Definition StoreClientCertificate (dir certPEM : string) : IO string :=
  if bool_decide (certPEM = "") then x_fail (ErrMsg "certificate PEM is empty")
  else match dk_pem certPEM with
       | Some (PemCertificate c) =>
           _ ←? x_wrap "failed to store identity certificate" (WritePEM dir clientCertFilename certPEM);
           x_ret c
       | _ => x_fail (ErrMsg "invalid certificate PEM")
       end.

Definition DeleteNonce (dir : string) : IO unit := DeleteFile dir nonceFilename.

(** ** Registration *)

(** [RegisterAgent] of the client: the server's answer is stored, then the nonce is
    deleted.  The answer arrives over the network, so that the client has to cope with
    any: [dk_register] is free, and the answers of the server's own [RegisterAgent]
    ([Registration.v]) are among its values. *)
Definition RegisterAgent (dir : string) (ident : Identity) (nonce : string) : IO Identity :=
  let nonce := TrimSpace nonce in
  if bool_decide (nonce = "") then x_fail (ErrMsg "registration nonce is empty")
  else match id_public ident with
       | None => x_fail (ErrMsg "instance public key not available")
       | Some pub =>
           certPEM ←? x_wrap "failed to register agent" (ask (fun n => dk_register n nonce (dk_public pub)));
           cert ←? x_wrap "failed to store issued certificate" (StoreClientCertificate dir certPEM);
           _ ←? x_wrap "failed to delete nonce file after registration" (DeleteNonce dir);
           x_ret {| ident with id_cert := Some cert |}
       end.

(** The start of the agent, up to its connection: registered, or an error it exits with.
    Both clients are configured with the CA certificate, which is dereferenced: without
    one the agent panics. *)
Definition start_agent (dir : string) : IO Identity :=
  ident ←? LoadOrCreate dir;
  match id_ca ident with
  | None => x_die
  | Some _ =>
      ident ←? (match id_nonce ident with
                | Some n => if bool_decide (n = "") then x_ret ident else RegisterAgent dir ident n
                | None => x_ret ident
                end);
      match id_cert ident with
      | None => x_fail (ErrMsg "client certificate missing - cannot connect to agent service")
      | Some _ => x_ret ident
      end
  end.

(** ** Requested keys *)

(** [ensureKey]: the public key, and whether it is new. *)
Definition write_keypair (dir name : string) : IO (string * bool) :=
  keys ←? ask dk_keypair;
  _ ←? WritePEM dir (name ++ ".pub")%string (dk_public keys.1);
  _ ←? WritePEM dir (name ++ ".key")%string (dk_private keys.2);
  x_ret (dk_public keys.1, true).

Definition ensureKey (dir name : string) : IO (string * bool) :=
  if negb (bool_decide (Base name = name)) then x_fail (ErrMsg "invalid keypair name")
  else
    pub ←? load_public dir (name ++ ".pub")%string;
    key ←? LoadPEM dir (name ++ ".key")%string false;
    match pub, key with
    | Some k, Some _ => x_ret (dk_public k, false)
    | None, Some _ => x_fail (ErrMsg "inconsistent keypair file existance")
    | _, None => write_keypair dir name
    end.

(** [HandleKeyRequest]; the submission is the server's [SubmitPublicKeys]. *)
Definition ensure_keys (dir : string) (names : list string) : IO (gmap string string) :=
  x_fold (fun keys name => k ←? x_wrap "failed to generate key" (ensureKey dir name); x_ret (<[name := k.1]> keys)) ∅ names.
End Ops.
End Disk.
