(* ===== verification/DiskFacts.v ===== *)
(** * Facts about the agent's identity

    What the agent finds on its disk after it was stopped anywhere, and what its next
    starts make of it. *)

From S2P Require Import Prelude GoText Process Disk.

#[local] Open Scope Z_scope.

Import Disk.

Section Facts.
Context {DE : DiskEnv}.
Implicit Types (P : Files -> Prop) (e : err) (p : string * string) (dir file data msg : string) (required : bool).

Abbreviation IO A := (X Disk A).

(** A specification in terms of the files. *)
Definition fspec {A : Type} (P : Files -> Prop) (m : IO A) (Q : A -> Files -> Prop) (E : Files -> Prop) : Prop :=
  xspec (fun s => P (d_files s)) m (fun a s => Q a (d_files s)) (fun s => E (d_files s)).

Lemma fspec_bind {A B : Type} P (m : IO A) (f : A -> IO B) Q R E :
  fspec P m Q E -> (forall a, fspec (Q a) (f a) R E) -> fspec P (x_bind m f) R E.
Proof. intros Hm Hf. eapply xspec_bind; [apply Hm | apply Hf]. Qed.

Lemma fspec_weaken {A : Type} P P' (m : IO A) (Q Q' : A -> Files -> Prop) (E E' : Files -> Prop) :
  fspec P' m Q' E' -> (forall fs, P fs -> P' fs) -> (forall a fs, Q' a fs -> Q a fs) -> (forall fs, E' fs -> E fs) -> fspec P m Q E.
Proof. intros Hm HP HQ HE. eapply xspec_weaken; [apply Hm | cbn; eauto ..]. Qed.

Lemma fspec_wrap {A : Type} P msg (m : IO A) Q E : fspec P m Q E -> fspec P (x_wrap msg m) Q E.
Proof. apply xspec_wrap. Qed.

Lemma fspec_ret {A : Type} P (a : A) (Q : A -> Files -> Prop) (E : Files -> Prop) : (forall fs, P fs -> Q a fs) -> fspec P (x_ret a) Q E.
Proof. intros H. apply xspec_ret. auto. Qed.

Lemma fspec_fail {A : Type} P (e : err) (Q : A -> Files -> Prop) (E : Files -> Prop) : (forall fs, P fs -> E fs) -> fspec P (x_fail e) Q E.
Proof. intros H. apply xspec_fail. auto. Qed.

Lemma fspec_read P p : fspec P (read_file p) (fun c fs => P fs /\ fs !! p = c) P.
Proof. intros s Hs. unfold read_file. by destruct (dk_out (d_tick s)). Qed.

Lemma fspec_ask {A : Type} P (f : nat -> res A) : fspec P (ask f) (fun a fs => P fs /\ exists n, f n = Ok a) P.
Proof. intros s Hs. unfold ask. destruct (f (d_tick s)) eqn:E; cbn; eauto. Qed.

Lemma fspec_op P (f : Files -> res Files) (Q : unit -> Files -> Prop) (E : Files -> Prop) :
  (forall fs, P fs -> E fs) -> (forall fs fs', P fs -> f fs = Ok fs' -> Q tt fs' /\ E fs') -> fspec P (disk_op f) Q E.
Proof.
  intros HE Hf s Hs. unfold disk_op.
  destruct (dk_out (d_tick s)) as [| e | []], (f (d_files s)) eqn:E0; cbn; first [by apply HE | by eapply Hf].
Qed.

Lemma fspec_write P p data (Q : unit -> Files -> Prop) (E : Files -> Prop) :
  (forall fs, P fs -> Q tt (<[p := data]> fs)) -> (forall fs c, P fs -> E (<[p := c]> fs)) -> fspec P (write p data) Q E.
Proof. intros HQ HE s Hs. unfold write. destruct (dk_out (d_tick s)); cbn; auto. Qed.

(** Files other than [p] may be anything [P] does not speak of. *)
Definition ignores P (p : string * string) : Prop := forall fs c, P fs -> P (<[p := c]> fs).

Lemma fspec_check {A : Type} P dir file (m : IO A) (Q : A -> Files -> Prop) (E : Files -> Prop) :
  (forall fs, P fs -> E fs) -> fspec P m Q E -> fspec P (x_bind (x_res (check_path dir file)) (fun _ => m)) Q E.
Proof.
  intros HE Hm. eapply fspec_bind with (Q := fun _ => P); [| done]. apply xspec_res. intros s Hs.
  unfold check_path. repeat case_bool_decide; auto.
Qed.

(** [WritePEM] and [WriteString] end with the data in place; when they do not end, with
    anything there. *)
Lemma fspec_WritePEM P dir file data (Q : unit -> Files -> Prop) (E : Files -> Prop) :
  (forall fs, P fs -> E fs) -> (forall fs c, P fs -> E (<[(dir, file) := c]> fs)) ->
  (forall fs, P fs -> Q tt (<[(dir, file) := data]> fs)) -> fspec P (WritePEM dir file data) Q E.
Proof.
  intros HE Hc HQ. unfold WritePEM. apply fspec_check; [done |]. destruct (dk_pem data); [| by apply fspec_fail].
  eapply fspec_bind with (Q := fun _ fs => exists fs0, P fs0 /\ fs = <[(dir, file) := ""]> fs0).
  - apply fspec_op; [done |]. intros fs fs' Hp [= <-]. eauto.
  - intros []. apply fspec_write; intros fs; [| intros c]; intros (fs0 & Hp & ->); rewrite insert_insert_eq; auto.
Qed.

Lemma fspec_WriteString P dir file data : ignores P (dir, file) -> fspec P (WriteString dir file data) (fun _ => P) P.
Proof.
  intros HP. unfold WriteString. apply fspec_check; [done |]. eapply fspec_bind with (Q := fun _ => P).
  - apply fspec_op; [done |]. intros fs fs' Hp [= <-]. eauto.
  - intros []. apply fspec_write; auto.
Qed.

Lemma fspec_LoadPEM P dir file required :
  fspec P (LoadPEM dir file required)
    (fun v fs => P fs /\ match v with
                         | None => fs !! (dir, file) = None
                         | Some pem => exists data, fs !! (dir, file) = Some data /\ dk_pem data = Some pem
                         end) P.
Proof.
  unfold LoadPEM. apply fspec_check; [done |]. eapply fspec_bind; [apply fspec_read |]. intros [data |]; cbn beta iota.
  - destruct (dk_pem data) eqn:E; [apply fspec_ret | apply fspec_fail]; naive_solver.
  - destruct required; [apply fspec_fail | apply fspec_ret]; naive_solver.
Qed.

Lemma fspec_load_certificate P dir file required :
  fspec P (load_certificate dir file required) (fun _ => P) P.
Proof.
  unfold load_certificate. eapply fspec_bind; [apply fspec_LoadPEM |].
  intros [[] |]; (apply fspec_ret || apply fspec_fail); naive_solver.
Qed.

Lemma fspec_load_public P dir file :
  fspec P (load_public dir file) (fun v fs => P fs /\ (v = None <-> fs !! (dir, file) = None)) P.
Proof.
  unfold load_public. eapply fspec_bind; [apply fspec_LoadPEM |].
  intros [[] |]; (apply fspec_ret || apply fspec_fail); naive_solver.
Qed.

Lemma fspec_load_private P dir file required :
  fspec P (load_private dir file required) (fun v fs => P fs /\ (v = None <-> fs !! (dir, file) = None)) P.
Proof.
  unfold load_private. eapply fspec_bind; [apply fspec_LoadPEM |].
  intros [[] |]; (apply fspec_ret || apply fspec_fail); naive_solver.
Qed.

Lemma fspec_LoadJWT P dir file :
  fspec P (LoadJWT dir file)
    (fun v fs => P fs /\ match v with Some l => exists data, fs !! (dir, file) = Some data /\ first_line data = Some l
                                    | None => fs !! (dir, file) = None end) P.
Proof.
  unfold LoadJWT. apply fspec_check; [done |]. eapply fspec_bind; [apply fspec_read |]. intros [data |]; cbn beta iota.
  - destruct (first_line data) eqn:E; [apply fspec_ret | apply fspec_fail]; naive_solver.
  - apply fspec_ret. naive_solver.
Qed.

Lemma fspec_validateNonce P dir nonce :
  ignores P (dir, configHashFilename) -> fspec P (validateAndExtractNonce dir nonce) (fun _ => P) P.
Proof.
  intros HP. unfold validateAndExtractNonce. eapply fspec_bind with (Q := fun _ => P).
  - apply fspec_wrap. eapply fspec_weaken; [apply fspec_ask | done | by intros ? ? [] | done].
  - intros [h |]; [by apply fspec_wrap, fspec_WriteString | by apply fspec_ret].
Qed.
(** What is kept by loading an identity up to its keypair. *)
Lemma fspec_load P dir (Q : Identity -> Files -> Prop) (E : Files -> Prop) :
  ignores P (dir, configHashFilename) -> (forall fs, P fs -> E fs) ->
  (forall nonce ca pub key cert,
     fspec (fun fs => P fs /\ (pub = None <-> fs !! (dir, publicKeyFilename) = None) /\
                      (key = None <-> fs !! (dir, privateKeyFilename) = None) /\
                      match nonce with
                      | Some l => exists data, fs !! (dir, nonceFilename) = Some data /\ first_line data = Some l
                      | None => fs !! (dir, nonceFilename) = None
                      end)
       (x_bind (load_keypair dir pub key) (fun keys => x_ret (mkIdentity nonce ca (Some keys.1) (Some keys.2) cert))) Q E) ->
  fspec P (LoadOrCreate dir) Q E.
Proof.
  intros HP HE Hk. unfold LoadOrCreate.
  assert (forall (fs : Files) c (f : string), f <> configHashFilename -> <[(dir, configHashFilename) := c]> fs !! (dir, f) = fs !! (dir, f)) as Hother
    by (intros fs c f Hne; rewrite lookup_insert_ne; congruence).
  eapply fspec_bind; [eapply fspec_weaken; [apply (fspec_LoadJWT P) | auto | intros a fs H; exact H | auto] |]. intros nonce.
  set (P1 := fun fs : Files => P fs /\ match nonce with
    | Some l => exists data, fs !! (dir, nonceFilename) = Some data /\ first_line data = Some l
    | None => fs !! (dir, nonceFilename) = None end).
  assert (forall fs, P1 fs -> E fs) as HE1 by (intros fs [H _]; auto).
  assert (ignores P1 (dir, configHashFilename)) as HI1
    by (intros fs c [H1 H2]; split; [by apply HP |]; by rewrite Hother).
  eapply fspec_bind with (Q := fun _ => P1).
  { destruct nonce as [n |]; [| by apply fspec_ret]. case_bool_decide; [by apply fspec_ret |].
    eapply fspec_weaken; [by apply fspec_validateNonce | auto | auto | auto]. }
  intros []. eapply fspec_bind with (Q := fun _ => P1);
    [eapply fspec_weaken; [apply (fspec_load_certificate P1) | auto | auto | auto] |]. intros ca.
  eapply fspec_bind; [eapply fspec_weaken; [apply (fspec_load_public P1) | auto | intros a fs H; exact H | auto] |]. intros pub.
  eapply fspec_bind; [eapply fspec_weaken; [apply fspec_load_private | intros fs H; exact H | intros a fs H; exact H | intros fs [H _]; auto] |]. intros key.
  eapply fspec_bind; [eapply fspec_weaken; [apply fspec_load_certificate | intros fs H; exact H | intros a fs H; exact H | intros fs [[H _] _]; auto] |]. intros cert.
  eapply fspec_weaken; [apply (Hk nonce ca pub key cert) | | auto | auto]. unfold P1. naive_solver.
Qed.

(** ** Starts after an interrupted one *)

Definition lone_public (dir : string) (fs : Files) : Prop :=
  is_Some (fs !! (dir, publicKeyFilename)) /\ fs !! (dir, privateKeyFilename) = None.

Lemma lone_public_stuck dir : fspec (lone_public dir) (LoadOrCreate dir) (fun _ _ => False) (lone_public dir).
Proof.
  apply fspec_load; [| done |].
  { intros fs c [H1 H2]. split; by rewrite lookup_insert_ne by (intros [=]; done). }
  intros nonce ca pub key cert. apply fspec_bind with (Q := fun _ _ => False); [| intros a s []].
  intros s ((Hp & Hk) & Hpub & Hkey & _). destruct pub as [pub |]; [| destruct Hp as [? Hp]; naive_solver congruence].
  destruct key as [key |]; [naive_solver |]. by split.
Qed.

(** The nonce file holds [data], whose nonce is [l]. *)
Definition has_nonce (dir data l : string) (fs : Files) : Prop :=
  fs !! (dir, nonceFilename) = Some data /\ first_line data = Some l.

Lemma has_nonce_ignores dir data l file : file <> nonceFilename -> ignores (has_nonce dir data l) (dir, file).
Proof. intros Hf fs c [H1 H2]. split; [| done]. by rewrite lookup_insert_ne by congruence. Qed.

Lemma fspec_keypair P dir pub key :
  ignores P (dir, publicKeyFilename) -> ignores P (dir, privateKeyFilename) ->
  fspec P (load_keypair dir pub key) (fun _ => P) P.
Proof.
  intros H1 H2. unfold load_keypair, GenerateKeypair. destruct pub, key; [by apply fspec_ret | by apply fspec_fail .. |].
  eapply fspec_bind with (Q := fun _ => P);
    [apply fspec_wrap; eapply fspec_weaken; [apply (fspec_ask P) | done | by intros ? ? [] | done] |]. intros keys.
  eapply fspec_bind with (Q := fun _ => P); [apply fspec_wrap, fspec_WritePEM; auto |]. intros [].
  eapply fspec_bind with (Q := fun _ => P); [apply fspec_wrap, fspec_WritePEM; auto |]. intros []. by apply fspec_ret.
Qed.

Lemma fspec_load_nonce dir data l :
  fspec (has_nonce dir data l) (LoadOrCreate dir) (fun ident fs => has_nonce dir data l fs /\ id_nonce ident = Some l) (has_nonce dir data l).
Proof.
  apply fspec_load; [by apply has_nonce_ignores | done |]. intros nonce ca pub key cert.
  apply fspec_weaken with (P' := fun fs => has_nonce dir data l fs /\ nonce = Some l) (Q' := fun ident fs => has_nonce dir data l fs /\ id_nonce ident = Some l)
    (E' := fun fs => has_nonce dir data l fs /\ nonce = Some l); [| | done | naive_solver].
  - eapply fspec_bind with (Q := fun _ fs => has_nonce dir data l fs /\ nonce = Some l).
    + apply fspec_keypair; intros fs c [H ->]; (split; [by apply has_nonce_ignores | done]).
    + intros keys. by apply fspec_ret.
  - intros fs (Hn & _ & _ & Hm). split; [done |]. destruct Hn as [H1 H2].
    destruct nonce as [l' |]; [destruct Hm as (data' & H3 & H4); congruence | congruence].
Qed.

(** A certificate that the server gave for the nonce is on the disk. *)
Definition certified (dir l : string) (fs : Files) : Prop :=
  exists n pub certPEM c, dk_register n (TrimSpace l) pub = Ok certPEM /\ dk_pem certPEM = Some (PemCertificate c) /\
    fs !! (dir, clientCertFilename) = Some certPEM.

Lemma certified_delete dir l fs : certified dir l fs -> certified dir l (delete (dir, nonceFilename) fs).
Proof. intros (n & p & cp & c & H1 & H2 & H3). exists n, p, cp, c. by rewrite lookup_delete_ne by (intros [=]; done). Qed.

(** The nonce is gone, and its certificate is there. *)
Definition exchanged (dir l : string) (fs : Files) : Prop := fs !! (dir, nonceFilename) = None /\ certified dir l fs.

Definition nonce_or_certificate (dir data l : string) (fs : Files) : Prop := has_nonce dir data l fs \/ exchanged dir l fs.

Lemma fspec_DeleteNonce dir data l :
  fspec (fun fs => has_nonce dir data l fs /\ certified dir l fs) (DeleteNonce dir) (fun _ => exchanged dir l) (nonce_or_certificate dir data l).
Proof.
  unfold DeleteNonce, DeleteFile. apply fspec_check; [intros fs [H _]; by left |].
  eapply fspec_bind; [eapply fspec_weaken; [apply fspec_read | intros fs H; exact H | intros a fs H; exact H | intros fs [H _]; by left] |].
  intros [c |]; [| apply fspec_ret; intros fs [[[H _] _] Hc]; congruence].
  apply fspec_op; [intros fs [[H _] _]; by left |]. intros fs fs' [[_ Hc] ->] [= <-].
  assert (exchanged dir l (delete (dir, nonceFilename) fs)) by (split; [apply lookup_delete_eq | by apply certified_delete]).
  split; [done | by right].
Qed.

Lemma fspec_RegisterAgent dir ident data l :
  fspec (has_nonce dir data l) (RegisterAgent dir ident l) (fun _ => exchanged dir l) (nonce_or_certificate dir data l).
Proof.
  unfold RegisterAgent. cbn zeta. case_bool_decide; [apply fspec_fail; by left |].
  destruct (id_public ident) as [pub |]; [| apply fspec_fail; by left].
  eapply fspec_bind.
  { apply fspec_wrap. eapply fspec_weaken; [apply (fspec_ask (has_nonce dir data l)) | auto | intros a fs Hq; exact Hq | by left]. }
  intros certPEM. eapply fspec_bind with (Q := fun _ fs => has_nonce dir data l fs /\ certified dir l fs).
  - apply fspec_wrap. unfold StoreClientCertificate.
    case_bool_decide; [apply fspec_fail; intros fs [Hn _]; by left |].
    destruct (dk_pem certPEM) as [[] |] eqn:Epem; try (apply fspec_fail; intros fs [Hn _]; by left).
    eapply fspec_bind with (Q := fun _ fs => has_nonce dir data l fs /\ certified dir l fs); [| intros []; by apply fspec_ret].
    apply fspec_wrap, fspec_WritePEM.
    + intros fs [Hn _]. by left.
    + intros fs c [Hn _]. left. by apply has_nonce_ignores.
    + intros fs [Hn (n & Hr)]. split; [by apply has_nonce_ignores |]. exists n, (dk_public pub), certPEM, cert. by rewrite lookup_insert_eq.
  - intros cert. eapply fspec_bind with (Q := fun _ => exchanged dir l); [| intros []; by apply fspec_ret].
    apply fspec_wrap, fspec_DeleteNonce.
Qed.

Lemma fspec_start dir data l :
  l <> "" -> fspec (has_nonce dir data l) (start_agent dir) (fun _ => exchanged dir l) (nonce_or_certificate dir data l).
Proof.
  intros Hl. unfold start_agent.
  eapply fspec_bind; [eapply fspec_weaken; [apply (fspec_load_nonce dir data l) | auto | intros a fs Hq; exact Hq | by left] |].
  intros ident. destruct (id_ca ident); [| apply xspec_die; intros s0 [Hn _]; by left].
  eapply fspec_bind with (Q := fun _ => exchanged dir l).
  - apply xspec_weaken with (P' := fun s => id_nonce ident = Some l /\ has_nonce dir data l (d_files s))
      (Q' := fun _ s => exchanged dir l (d_files s)) (E' := fun s => nonce_or_certificate dir data l (d_files s));
      [| naive_solver | done | done].
    apply xspec_pre. intros ->. rewrite bool_decide_eq_false_2 by done. apply fspec_RegisterAgent.
  - intros ident'. destruct (id_cert ident'); [by apply fspec_ret | apply fspec_fail; by right].
Qed.

(** C39. The agent keeps its registration nonce until it has its certificate.  Wherever a
    start fails or is killed, the nonce file still has exactly its contents, or it is
    gone and a certificate that the server issued for that nonce is stored; and a start
    that succeeds has exchanged the one for the other. *)
Theorem nonce_kept_until_certified dir data l s :
  d_files s !! (dir, nonceFilename) = Some data -> first_line data = Some l -> l <> "" ->
  let o := start_agent dir s in
  (d_files o.1 !! (dir, nonceFilename) = Some data \/ d_files o.1 !! (dir, nonceFilename) = None /\ certified dir l (d_files o.1)) /\
  (forall ident, o.2 = Some (Ok ident) -> d_files o.1 !! (dir, nonceFilename) = None /\ certified dir l (d_files o.1)).
Proof.
  intros Hd Hf Hl. cbn zeta. pose proof (fspec_start dir data l Hl s (conj Hd Hf)) as H.
  destruct (start_agent dir s) as [s' [[ident | e] |]]; cbn in H |- *; unfold nonce_or_certificate, has_nonce, exchanged in H; naive_solver.
Qed.

(** A nonce that the server refuses for good, as it does once it has recorded the
    registration, makes every start fail although a certificate may be on the disk. *)
Theorem refused_nonce_stuck dir data l s :
  d_files s !! (dir, nonceFilename) = Some data -> first_line data = Some l -> l <> "" ->
  (forall n pub, is_ok (dk_register n (TrimSpace l) pub) = false) ->
  let o := start_agent dir s in
  (forall ident, o.2 <> Some (Ok ident)) /\ d_files o.1 !! (dir, nonceFilename) = Some data.
Proof.
  intros Hd Hf Hl Hr. cbn zeta. assert (forall fs, ~ certified dir l fs) as Hno.
  { intros fs (n & pub & cp & c & H & _). specialize (Hr n pub). by rewrite H in Hr. }
  pose proof (fspec_start dir data l Hl s (conj Hd Hf)) as H.
  destruct (start_agent dir s) as [s' [[ident | e] |]]; cbn in H |- *; unfold nonce_or_certificate, has_nonce, exchanged in H; naive_solver.
Qed.

(** ** Requested keys *)

Context {PL : PemLaws DE}.

Definition key_on_disk (dir name k : string) (fs : Files) : Prop :=
  exists pub data, fs !! (dir, (name ++ ".pub")%string) = Some data /\ dk_pem data = Some (PemPublic pub) /\ k = dk_public pub /\
    exists data' v, fs !! (dir, (name ++ ".key")%string) = Some data' /\ dk_pem data' = Some v.

Lemma pub_key_differ (dir name : string) : (dir, (name ++ ".pub")%string) <> (dir, (name ++ ".key")%string).
Proof. intros [= H%(inj (String.append name))]. done. Qed.

Lemma fspec_load_public_file P dir file :
  fspec P (load_public dir file)
    (fun v fs => P fs /\ match v with
                         | Some k => exists data, fs !! (dir, file) = Some data /\ dk_pem data = Some (PemPublic k)
                         | None => fs !! (dir, file) = None
                         end) P.
Proof.
  unfold load_public. eapply fspec_bind; [apply fspec_LoadPEM |].
  intros [[] |]; (apply fspec_ret || apply fspec_fail); naive_solver.
Qed.

Lemma ensureKey_stores dir name :
  fspec (fun _ => True) (ensureKey dir name) (fun r => key_on_disk dir name r.1) (fun _ => True).
Proof.
  unfold ensureKey. destruct (negb _); [by apply fspec_fail |].
  eapply fspec_bind; [apply fspec_load_public_file |]. intros pub.
  eapply fspec_bind; [eapply fspec_weaken; [apply fspec_LoadPEM | intros fs H; exact H | intros a fs H; exact H | done] |]. intros key.
  assert (forall P : Files -> Prop, fspec P (write_keypair dir name) (fun r => key_on_disk dir name r.1) (fun _ => True)) as Hnew.
  { intros P. unfold write_keypair.
    eapply fspec_bind with (Q := fun _ _ => True); [eapply fspec_weaken; [apply (fspec_ask P) | auto | done | done] |]. intros keys.
    eapply fspec_bind with (Q := fun _ fs => fs !! (dir, (name ++ ".pub")%string) = Some (dk_public keys.1));
      [apply fspec_WritePEM; [done | done | intros fs _; apply lookup_insert_eq] |]. intros [].
    eapply fspec_bind with (Q := fun _ => key_on_disk dir name (dk_public keys.1)); [| intros []; by apply fspec_ret].
    apply fspec_WritePEM; [done | done |]. intros fs H. exists keys.1, (dk_public keys.1).
    rewrite lookup_insert_ne by (apply not_eq_sym, pub_key_differ). rewrite lookup_insert_eq, dk_public_decodes.
    split_and!; [done | done | done |]. exists (dk_private keys.2). rewrite dk_private_decodes. eauto. }
  destruct pub as [pub |], key as [key |]; [| apply Hnew | by apply fspec_fail | apply Hnew].
  apply fspec_ret. intros fs ((_ & data & Hd & Hp) & data' & Hd' & Hp'). exists pub, data. eauto 10.
Qed.

Lemma ensureKey_again dir name k :
  fspec (key_on_disk dir name k) (ensureKey dir name) (fun r fs => r = (k, false) /\ key_on_disk dir name k fs) (key_on_disk dir name k).
Proof.
  unfold ensureKey. destruct (negb _); [by apply fspec_fail |].
  eapply fspec_bind; [apply fspec_load_public_file |]. intros pub.
  eapply fspec_bind; [eapply fspec_weaken; [apply fspec_LoadPEM | intros fs H; exact H | intros a fs H; exact H | naive_solver] |]. intros key.
  intros s ((H & Hpub) & Hkey). pose proof H as (pub0 & data & Hd & Hp & -> & data' & v & Hd' & Hp').
  destruct pub as [pub |]; [| congruence]. destruct key as [key |]; [| congruence].
  destruct Hpub as (d2 & Hd2 & Hp2). replace pub with pub0 by congruence. done.
Qed.
(** A key that was once reported to the server is the key for good: after [ensureKey]
    returned a public key, every later call that succeeds returns the same one and says
    it is not new, and no call that fails or is killed loses it. *)
Theorem requested_key_stable dir name s s1 k b :
  ensureKey dir name s = (s1, Some (Ok (k, b))) ->
  let o := ensureKey dir name s1 in
  key_on_disk dir name k (d_files o.1) /\ forall r, o.2 = Some (Ok r) -> r = (k, false).
Proof.
  intros E. pose proof (ensureKey_stores dir name s I) as H1. rewrite E in H1. cbn in H1.
  pose proof (ensureKey_again dir name k s1 H1) as H2. cbn zeta.
  destruct (ensureKey dir name s1) as [s2 [[r | e] |]]; cbn in H2 |- *; naive_solver.
Qed.
End Facts.

(** ** A first start that is killed *)

(** Everything succeeds until the process is killed before the operation at tick [k]. *)
Definition killed_before (k : nat) (DE : DiskEnv) : DiskEnv := {|
  dk_out := fun n => if bool_decide (n = k) then Died false else Done;
  dk_part := dk_part; dk_pem := dk_pem; dk_public := dk_public; dk_private := dk_private; dk_keypair := dk_keypair;
  dk_jwt := dk_jwt; dk_register := dk_register; dk_json := dk_json; dk_suffix := dk_suffix; dk_now := dk_now; dk_order := dk_order;
|}.

#[global] Instance killed_before_laws k (DE : DiskEnv) : PemLaws DE -> PemLaws (killed_before k DE).
Proof. intros [H1 H2]. by split. Qed.

Section Killed.
Context {DE : DiskEnv}.
Variable k : nat.
Hypothesis Hdone : forall n, (n < k)%nat -> dk_out n = Done.
Hypothesis Hkill : dk_out k = Died false.

Abbreviation IO A := (X Disk A).

(** [m] takes [d] operations, all before the kill. *)
Definition runs {A : Type} (fs : Files) (m : IO A) (a : A) (fs' : Files) (d : nat) : Prop :=
  forall t, (t + d <= k)%nat -> m (mkDisk t fs) = (mkDisk (t + d) fs', Some (Ok a)).

(** [m] is killed after [d] operations. *)
Definition dies {A : Type} (fs : Files) (m : IO A) (fs' : Files) (d : nat) : Prop :=
  forall t, (t + d = k)%nat -> m (mkDisk t fs) = (mkDisk (S k) fs', None).

Lemma runs_bind {A B : Type} fs fs1 fs2 (m : IO A) (f : A -> IO B) a b d1 d2 :
  runs fs m a fs1 d1 -> runs fs1 (f a) b fs2 d2 -> runs fs (x_bind m f) b fs2 (d1 + d2).
Proof. intros H1 H2 t Ht. rewrite x_bind_eq, H1 by lia. cbn. rewrite H2 by lia. by rewrite Nat.add_assoc. Qed.

Lemma dies_bind {A B : Type} fs fs1 fs2 (m : IO A) (f : A -> IO B) a d1 d2 :
  runs fs m a fs1 d1 -> dies fs1 (f a) fs2 d2 -> dies fs (x_bind m f) fs2 (d1 + d2).
Proof. intros H1 H2 t Ht. rewrite x_bind_eq, H1 by lia. cbn. by rewrite H2 by lia. Qed.

Lemma dies_first {A B : Type} fs fs1 (m : IO A) (f : A -> IO B) d : dies fs m fs1 d -> dies fs (x_bind m f) fs1 d.
Proof. intros H t Ht. by rewrite x_bind_eq, H. Qed.

Lemma runs_wrap {A : Type} fs fs' msg (m : IO A) a d : runs fs m a fs' d -> runs fs (x_wrap msg m) a fs' d.
Proof. intros H t Ht. unfold x_wrap, mbind, M_bind. by rewrite H. Qed.

Lemma dies_wrap {A : Type} fs fs' msg (m : IO A) d : dies fs m fs' d -> dies fs (x_wrap msg m) fs' d.
Proof. intros H t Ht. unfold x_wrap, mbind, M_bind. by rewrite H. Qed.

Lemma runs_ret {A : Type} fs (a : A) : runs fs (x_ret a) a fs 0.
Proof. intros t Ht. by rewrite Nat.add_0_r. Qed.

Lemma runs_ask {A : Type} fs (f : nat -> res A) a : (forall n, f n = Ok a) -> runs fs (ask f) a fs 1.
Proof. intros H t Ht. unfold ask, at_tick. cbn. by rewrite H, Nat.add_1_r. Qed.

Lemma runs_read fs p : runs fs (read_file p) (fs !! p) fs 1.
Proof. intros t Ht. unfold read_file, at_tick. cbn. by rewrite Hdone, Nat.add_1_r by lia. Qed.

Lemma runs_check {A : Type} fs fs' dir file (m : IO A) a d :
  dir <> "" -> file <> "" -> runs fs m a fs' d -> runs fs (x_bind (x_res (check_path dir file)) (fun _ => m)) a fs' d.
Proof.
  intros Hd Hf H t Ht. rewrite x_bind_eq. unfold check_path. rewrite !bool_decide_eq_false_2 by done. by apply H.
Qed.

(** Truncating and writing a file. *)
Lemma runs_rewrite fs p data : runs fs (x_bind (open_trunc p) (fun _ => write p data)) tt (<[p := data]> fs) 2.
Proof.
  apply (runs_bind _ (<[p := ""]> fs) _ _ _ tt _ 1 1).
  - intros t Ht. unfold open_trunc, disk_op, at_tick. cbn. by rewrite Hdone, Nat.add_1_r by lia.
  - intros t Ht. unfold write, at_tick. cbn. rewrite Hdone by lia. by rewrite insert_insert_eq, Nat.add_1_r.
Qed.

Lemma runs_WritePEM fs dir file data v :
  dir <> "" -> file <> "" -> dk_pem data = Some v -> runs fs (WritePEM dir file data) tt (<[(dir, file) := data]> fs) 2.
Proof. intros Hd Hf Hv. apply runs_check; [done | done |]. rewrite Hv. apply runs_rewrite. Qed.

Lemma dies_WritePEM fs dir file data v : dir <> "" -> file <> "" -> dk_pem data = Some v -> dies fs (WritePEM dir file data) fs 0.
Proof.
  intros Hd Hf Hv t Ht. unfold WritePEM. rewrite x_bind_eq. unfold check_path. rewrite !bool_decide_eq_false_2 by done. cbn. rewrite Hv.
  rewrite x_bind_eq. unfold open_trunc, disk_op, at_tick. cbn. rewrite Nat.add_0_r in Ht. subst t. by rewrite Hkill.
Qed.

Lemma runs_LoadPEM fs dir file :
  dir <> "" -> file <> "" -> fs !! (dir, file) = None -> runs fs (LoadPEM dir file false) None fs 1.
Proof.
  intros Hd Hf Hn. apply runs_check; [done | done |]. apply (runs_bind fs fs fs _ _ (fs !! (dir, file)) _ 1 0); [apply runs_read |].
  rewrite Hn. apply runs_ret.
Qed.
End Killed.

(** The disk of a machine at its first boot: the provisioned nonce and CA certificate,
    and nothing of an earlier start. *)
Definition first_boot {DE : DiskEnv} (dir data l : string) (hash : option string) (fs : Files) : Prop :=
  fs !! (dir, nonceFilename) = Some data /\ first_line data = Some l /\ l <> "" /\ (forall n, dk_jwt n l = Ok hash) /\
  (exists ca c, fs !! (dir, caCertFilename) = Some ca /\ dk_pem ca = Some (PemCertificate c)) /\
  fs !! (dir, publicKeyFilename) = None /\ fs !! (dir, privateKeyFilename) = None /\ fs !! (dir, clientCertFilename) = None.

(** What [validateAndExtractNonce] leaves. *)
Definition with_hash (dir : string) (hash : option string) (fs : Files) : Files :=
  match hash with Some h => <[(dir, configHashFilename) := TrimSpace h]> fs | None => fs end.

Lemma with_hash_other dir hash fs file : file <> configHashFilename -> with_hash dir hash fs !! (dir, file) = fs !! (dir, file).
Proof. intros Hf. destruct hash; [| done]. cbn. by rewrite lookup_insert_ne by congruence. Qed.

Section Boot.
Context {DE : DiskEnv} {PL : PemLaws DE}.
Variable k : nat.
Hypothesis Hdone : forall n, (n < k)%nat -> dk_out n = Done.
Hypothesis Hkill : dk_out k = Died false.
Variables (dir pub key : string).
Hypothesis Hdir : dir <> "".
Hypothesis Hkeys : forall n, dk_keypair n = Ok (pub, key).

(** Killed between the two keys. *)
Lemma dies_GenerateKeypair fs : dies k fs (GenerateKeypair dir) (<[(dir, publicKeyFilename) := dk_public pub]> fs) 3.
Proof.
  apply (dies_bind k fs fs _ _ _ (pub, key) 1 2); [by apply runs_wrap, runs_ask |].
  apply (dies_bind k fs (<[(dir, publicKeyFilename) := dk_public pub]> fs) _ _ _ tt 2 0).
  - apply runs_wrap. by eapply (runs_WritePEM k Hdone); [| | apply dk_public_decodes].
  - apply dies_first, dies_wrap. by eapply (dies_WritePEM k Hkill); [| | apply dk_private_decodes].
Qed.

Lemma runs_validate hash l fs :
  (forall n, dk_jwt n l = Ok hash) ->
  runs k fs (validateAndExtractNonce dir l) tt (with_hash dir hash fs) (1 + match hash with Some _ => 2 | None => 0 end).
Proof.
  intros Hj. unfold validateAndExtractNonce. eapply runs_bind; [by apply runs_wrap, runs_ask |].
  destruct hash as [h |]; [| apply runs_ret]. by apply runs_wrap, runs_check, (runs_rewrite k Hdone).
Qed.

Lemma first_boot_dies data l hash fs :
  first_boot dir data l hash fs ->
  dies k fs (start_agent dir) (<[(dir, publicKeyFilename) := dk_public pub]> (with_hash dir hash fs)) (9 + match hash with Some _ => 2 | None => 0 end).
Proof.
  intros (Hn & Hf & Hl & Hj & (ca & c & Hca & Hc) & Hp & Hk & Hcert). unfold start_agent. apply dies_first. unfold LoadOrCreate.
  set (d := match hash with Some _ => _ | None => _ end). replace (9 + d)%nat with (1 + (1 + d + (1 + (1 + (1 + (1 + 3))))))%nat by lia.
  apply (dies_bind k fs fs _ _ _ (Some l)).
  { apply runs_check; [done | done |]. apply (runs_bind k fs fs fs _ _ (fs !! (dir, nonceFilename)) _ 1 0); [by apply runs_read |].
    rewrite Hn, Hf. apply runs_ret. }
  rewrite bool_decide_eq_false_2 by done. set (fs1 := with_hash dir hash fs).
  assert (forall file, file <> configHashFilename -> fs1 !! (dir, file) = fs !! (dir, file)) as Ho by (intros; by apply with_hash_other).
  apply (dies_bind k fs fs1 _ _ _ tt); [by apply runs_validate |].
  apply (dies_bind k fs1 fs1 _ _ _ (Some c)).
  { unfold load_certificate. apply (runs_bind k fs1 fs1 fs1 _ _ (Some (PemCertificate c)) _ 1 0); [| apply runs_ret].
    apply runs_check; [done | done |]. apply (runs_bind k fs1 fs1 fs1 _ _ (fs1 !! (dir, caCertFilename)) _ 1 0); [by apply runs_read |].
    rewrite Ho, Hca, Hc by done. apply runs_ret. }
  assert (forall file, file <> "" -> file <> configHashFilename -> fs !! (dir, file) = None -> runs k fs1 (LoadPEM dir file false) None fs1 1) as Hload
    by (intros; apply runs_LoadPEM; [done | done | done | by rewrite Ho]).
  apply (dies_bind k fs1 fs1 _ _ _ None); [apply (runs_bind k fs1 fs1 fs1 _ _ None _ 1 0); [by apply Hload | apply runs_ret] |].
  apply (dies_bind k fs1 fs1 _ _ _ None); [apply (runs_bind k fs1 fs1 fs1 _ _ None _ 1 0); [by apply Hload | apply runs_ret] |].
  apply (dies_bind k fs1 fs1 _ _ _ None); [apply (runs_bind k fs1 fs1 fs1 _ _ None _ 1 0); [by apply Hload | apply runs_ret] |].
  apply dies_first, dies_GenerateKeypair.
Qed.
End Boot.

(** Starts of the agent one after another, each in an environment of its own. *)
Fixpoint restarts (envs : list DiskEnv) (dir : string) (s : Disk) : list (option (res Identity)) :=
  match envs with
  | [] => []
  | DE :: rest => let o := start_agent (DE := DE) dir s in o.2 :: restarts rest dir o.1
  end.

Lemma lone_public_start (DE : DiskEnv) dir : fspec (lone_public dir) (start_agent dir) (fun _ _ => False) (lone_public dir).
Proof. unfold start_agent. eapply fspec_bind; [apply lone_public_stuck | by intros a s []]. Qed.

Lemma lone_public_restarts envs dir s r ident : lone_public dir (d_files s) -> r ∈ restarts envs dir s -> r <> Some (Ok ident).
Proof.
  revert s. induction envs as [| DE envs IH]; intros s Hs; cbn [restarts]; [by intros ?%elem_of_nil |].
  pose proof (lone_public_start DE dir s Hs) as H. destruct (start_agent dir s) as [s' [[i | e] |]]; cbn in H |- *; [done | |];
    (intros [-> | Hr]%elem_of_cons; [done | by apply (IH s')]).
Qed.

(** C40. A kill during the first start can make every later start fail.  Let a machine
    boot with its nonce and its CA certificate and without keys, in an environment whose
    operations succeed.  There is an operation before which a kill leaves the complete
    public key without a private key; and from then on every start, in whatever
    environment and however many, ends in an error or is killed. *)
Theorem interrupted_start_stuck (DE : DiskEnv) (PL : PemLaws DE) (dir data l pub key : string) (hash : option string) (s : Disk) :
  dir <> "" -> first_boot dir data l hash (d_files s) -> (forall n, dk_keypair n = Ok (pub, key)) ->
  exists k, let o := start_agent (DE := killed_before k DE) dir s in
    o.2 = None /\ d_files o.1 !! (dir, publicKeyFilename) = Some (dk_public pub) /\ d_files o.1 !! (dir, privateKeyFilename) = None /\
    forall envs r ident, r ∈ restarts envs dir o.1 -> r <> Some (Ok ident).
Proof.
  intros Hdir Hboot Hkeys. set (d := (9 + match hash with Some _ => 2 | None => 0 end)%nat). exists (d_tick s + d)%nat. cbn zeta.
  pose proof (first_boot_dies (DE := killed_before (d_tick s + d) DE)
    (d_tick s + d) ltac:(intros n Hn; cbn; by rewrite bool_decide_eq_false_2 by lia) ltac:(cbn; by rewrite bool_decide_eq_true_2)
    dir pub key Hdir Hkeys data l hash (d_files s) Hboot (d_tick s) eq_refl) as E.
  destruct s as [t fs]. cbn [d_tick d_files] in *. rewrite E. cbn [fst snd d_files].
  assert (Hpriv : (<[(dir, publicKeyFilename) := dk_public pub]> (with_hash dir hash fs)) !! (dir, privateKeyFilename) = None).
  { rewrite lookup_insert_ne by (intros [=]). rewrite with_hash_other by done. apply Hboot. }
  split; [done |]. split; [apply lookup_insert_eq |]. split; [exact Hpriv |]. intros envs r ident. apply lone_public_restarts.
  split; [cbn; rewrite lookup_insert_eq; by eexists | exact Hpriv].
Qed.
