(* ===== verification/AgentFiles.v ===== *)
(** * Files an agent receives ([src/internal/agent/receiver],
      [src/pkg/client/agent/stream_files.go])

    A patch, files and the hash that commits them, arrives over a stream and is applied
    to the disk: every file is checked, written beside its place and renamed into it;
    the hash of the configuration follows, and then a marker with the time.

    Paths are a directory and a name, the directories of the configuration by their
    names in it. *)

From S2P Require Import Prelude GoText Process Disk AgentStreams.
From Stdlib Require Import Ascii.

#[local] Open Scope Z_scope.

Module Receiver.
Import Disk.

Definition lastCompletedTimestampFile : string := "write-files.last".

Record ReceiverConfig := mkReceiverConfig {
  rc_recv_dir : string;
  rc_identity_dir : string;
}.

Definition errors_dir (cfg : ReceiverConfig) : string := (rc_recv_dir cfg ++ "/errors")%string.

Section Receiver.
Context {DE : DiskEnv}.

Abbreviation IO A := (X Disk A).

(** ** Validation: a message when the content is refused *)

Definition env_key_char (a : ascii) : bool :=
  let n := nat_of_ascii a in
  ((65 <=? n) && (n <=? 90) || (48 <=? n) && (n <=? 57) || (n =? 95))%nat.

(** A line of an environment file is blank, a comment, or a key and a value. *)
Definition env_line_ok (line : list ascii) : bool :=
  let trimmed := TrimSpace (text line) in
  if bool_decide (trimmed = "") || has_prefix "#" trimmed then true
  else match split_first "="%char line with
       | Some (key, _) => negb (bool_decide (key = [])) && forallb env_key_char key
       | None => false
       end.

Definition validateEnvFile (content : string) : option string :=
  if forallb env_line_ok (split_all "010"%char (chars content)) then None
  else Some "error: invalid env file format".

Definition validatePEMCertificate (content : string) : option string :=
  match dk_pem content with Some (PemCertificate _) => None | _ => Some "error: invalid PEM certificate" end.

Definition validatePEMPublicKey (content : string) : option string :=
  match dk_pem content with
  | Some (PemPublic _) | Some PemOtherPublic => None
  | _ => Some "error: invalid PEM public key"
  end.

Definition validatePEMPrivateKey (content : string) : option string :=
  match dk_pem content with
  | Some (PemPrivate _) | Some PemOtherPrivate => None
  | _ => Some "error: invalid PEM key"
  end.

Definition validateJSONFile (content : string) : option string :=
  if dk_json content then None else Some "error: invalid JSON file format".

Definition DefaultValidators : list (string * (string -> option string)) :=
  [(".env", validateEnvFile); (".crt", validatePEMCertificate); (".pub", validatePEMPublicKey);
   (".key", validatePEMPrivateKey); (".json", validateJSONFile)].

Definition validator_for (name : string) : option (string -> option string) :=
  snd ∘ snd <$> list_find (fun v => v.1 = ToLower (Ext name)) DefaultValidators.

(** The error of a file, when there is one. *)
Definition validation_error (name content : string) : option string :=
  match validator_for name with
  | None => Some ("unsupported file extension " ++ Ext name)%string
  | Some validator =>
      match validator content with
      | Some msg => Some ("validation failed for " ++ name ++ ": " ++ msg)%string
      | None => None
      end
  end.

(** ** Applying a patch *)

Definition check_name (name : string) : res unit :=
  if bool_decide (TrimSpace name = "") then Err (ErrMsg "empty filename in payload")
  else if IsAbs name || negb (bool_decide (Base name = name)) || has_prefix "." name
          || bool_decide (name = lastCompletedTimestampFile)
  then Err (ErrMsg "invalid filename")
  else Ok tt.

(** Ranging over the payload. *)
Definition range (payload : gmap string string) : IO (list (string * string)) :=
  ask (fun n => Ok ((fun name => (name, payload !!! name)) <$> dk_order n (map_to_list payload).*1)).

(** A file that fails validation is recorded in the errors directory. *)
Definition validate_file (cfg : ReceiverConfig) (rejected : bool) (file : string * string) : IO bool :=
  match validation_error file.1 file.2 with
  | None => x_ret rejected
  | Some msg =>
      _ ←? x_wrap "failed to create errors directory" touch;
      _ ←? x_wrap "failed to write error file" (WriteFile (errors_dir cfg, file.1) msg);
      x_ret true
  end.

Definition temp_prefix : string := ".nstance-recv-".

(** Writes a temporary file beside the path and renames it into place; it is removed
    when something fails. *)
Definition fill_and_rename (dir temp file content : string) : IO unit :=
  _ ←? touch;
  _ ←? write (dir, temp) content;
  _ ←? touch;
  rename (dir, temp) (dir, file).

Definition replaceFile (dir file content : string) : IO unit :=
  suffix ←? ask (fun n => Ok (dk_suffix n));
  let temp := (temp_prefix ++ suffix)%string in
  _ ←? create (dir, temp);
  r ←? x_try (fill_and_rename dir temp file content);
  match r with
  | Ok _ => x_ret tt
  | Err e => _ ←? x_try (remove (dir, temp)); x_fail e
  end.

(** The end of [ReceiveFiles], for a patch that was not rejected. *)
Definition apply_patch (cfg : ReceiverConfig) (payload : gmap string string) (configHash : string) : IO unit :=
  files ←? range payload;
  _ ←? x_each files (fun file =>
         x_wrap "failed to replace received file" (replaceFile (rc_recv_dir cfg) file.1 file.2));
  files ←? range payload;
  _ ←? x_each files (fun file =>
         x_wrap "failed to remove validation error" (remove_any (errors_dir cfg, file.1)));
  _ ←? x_wrap "failed to replace config hash" (replaceFile (rc_identity_dir cfg) configHashFilename configHash);
  now ←? ask (fun n => Ok (Itoa (dk_now n)));
  x_wrap "failed to publish file transfer" (replaceFile (rc_recv_dir cfg) lastCompletedTimestampFile now).

Definition ReceiveFiles (cfg : ReceiverConfig) (payload : gmap string string) (configHash : string) : IO unit :=
  if bool_decide (configHash = "") then x_fail (ErrMsg "config hash is required")
  else if bool_decide (rc_identity_dir cfg = "") then x_fail (ErrMsg "identity directory not configured")
  else
    files ←? range payload;
    _ ←? x_each files (fun file => x_res (check_name file.1));
    files ←? range payload;
    rejected ←? x_fold (validate_file cfg) false files;
    if rejected : bool then x_ret tt else apply_patch cfg payload configHash.

(** ** The stream of patches *)

(** [proto.FileTransfer] as the client reads it. *)
Record Message := mkMessage {
  msg_filename : string;
  msg_content : string;
  msg_last_modified : option Z;
  msg_config_hash : string;
}.

Definition to_message (m : Files.FileTransfer) : Message :=
  match m with
  | Files.TransferFile f => mkMessage (Files.pf_filename f) (Files.pf_content f) (Some (Files.pf_last_modified f)) ""
  | Files.TransferCommit h => mkMessage "" "" None h
  end.

(** [StreamFiles]: the messages received, and how the stream ended: [Ok] for EOF. *)
Fixpoint StreamFiles (cfg : ReceiverConfig) (msgs : list Message) (fin : res unit) (files : gmap string string) : IO unit :=
  match msgs with
  | [] =>
      match fin with
      | Ok _ => if bool_decide (files = ∅) then x_ret tt
                else x_fail (ErrMsg "file stream ended during an incomplete patch")
      | Err e => x_fail (ErrWrap "file stream error" e)
      end
  | msg :: msgs' =>
      if bool_decide (msg_config_hash msg = "") then
        if bool_decide (msg_filename msg = "") then x_fail (ErrMsg "malformed file patch: filename is required")
        else match files !! msg_filename msg with
             | Some _ => x_fail (ErrMsg "duplicate file in patch")
             | None => StreamFiles cfg msgs' fin (<[msg_filename msg := msg_content msg]> files)
             end
      else if negb (bool_decide (msg_filename msg = "")) || negb (bool_decide (msg_content msg = ""))
              || bool_decide (msg_last_modified msg ≠ None)
      then x_fail (ErrMsg "malformed file patch: commit message contains file content")
      else
        _ ←? x_wrap "failed to apply files" (ReceiveFiles cfg files (msg_config_hash msg));
        StreamFiles cfg msgs' fin ∅
  end.
End Receiver.
End Receiver.
