(* ===== verification/AgentFilesFacts.v ===== *)
(** * Facts about the files an agent receives

    The temporary files of [replaceFile] start with a dot and a fixed prefix; the rest
    of the disk, [visible], is what other programs read.  On it every step of a patch
    is atomic, so that wherever the agent stops the disk is as after the first steps of
    the patch. *)

From S2P Require Import Prelude GoText Process Disk AgentStreams AgentFiles.
From Stdlib Require Import Ascii.

#[local] Open Scope Z_scope.

Import Disk Receiver.

(** ** The visible disk *)

Definition hidden (p : string * string) : bool := has_prefix temp_prefix p.2.

Definition visible (fs : Files) : Files := filter (fun pc => hidden pc.1 = false) fs.

Lemma visible_lookup fs p : hidden p = false -> visible fs !! p = fs !! p.
Proof.
  intros Hp. unfold visible. apply option_eq. intros c. rewrite map_lookup_filter_Some. naive_solver.
Qed.

Lemma visible_insert_hidden fs p c : hidden p = true -> visible (<[p := c]> fs) = visible fs.
Proof.
  intros Hp. unfold visible. apply map_eq. intros q. apply option_eq. intros x.
  rewrite !map_lookup_filter_Some. cbn. destruct (decide (p = q)) as [<- | Hne];
    [rewrite Hp | rewrite lookup_insert_ne by done]; naive_solver.
Qed.

Lemma visible_delete_hidden fs p : hidden p = true -> visible (delete p fs) = visible fs.
Proof.
  intros Hp. unfold visible. apply map_eq. intros q. apply option_eq. intros x.
  rewrite !map_lookup_filter_Some. cbn. destruct (decide (p = q)) as [<- | Hne];
    [rewrite Hp | rewrite lookup_delete_ne by done]; naive_solver.
Qed.

Lemma visible_insert fs p c : hidden p = false -> visible (<[p := c]> fs) = <[p := c]> (visible fs).
Proof. intros Hp. unfold visible. by rewrite map_filter_insert_True. Qed.

Lemma visible_delete fs p : hidden p = false -> visible (delete p fs) = delete p (visible fs).
Proof. intros _. unfold visible. by rewrite map_filter_delete. Qed.

Lemma temp_hidden dir suffix : hidden (dir, (temp_prefix ++ suffix)%string) = true.
Proof.
  unfold hidden, has_prefix. cbn [snd]. rewrite chars_app. apply bool_decide_eq_true.
  by rewrite take_app_length.
Qed.

(** Names that a patch may have are not hidden. *)
Lemma dotless_visible dir name : has_prefix "." name = false -> hidden (dir, name) = false.
Proof.
  unfold hidden, has_prefix. cbn [snd]. rewrite !bool_decide_eq_false. intros Hd Ht. apply Hd.
  destruct name as [| a name]; [discriminate |]. cbn in *. by simplify_eq.
Qed.

(** ** Atomic steps *)

Inductive Action :=
  | Put (p : string * string) (content : string)
  | Drop (p : string * string).

Definition act (fs : Files) (a : Action) : Files :=
  match a with Put p c => <[p := c]> fs | Drop p => delete p fs end.

Definition run (acts : list Action) (fs : Files) : Files := foldl act fs acts.

Lemma run_app l1 l2 fs : run (l1 ++ l2) fs = run l2 (run l1 fs).
Proof. apply foldl_app. Qed.

Section Facts.
Context {DE : DiskEnv}.

Abbreviation IO A := (X Disk A).

(** The steps [l] were done, or the first of them when the run failed or died. *)
Definition did {A : Type} (l : list Action) (v : Files) (o : Disk * option (res A)) : Prop :=
  match o with
  | (s', Some (Ok _)) => visible (d_files s') = run l v
  | (s', _) => exists k, (k <= length l)%nat /\ visible (d_files s') = run (firstn k l) v
  end.

Definition does {A} (m : IO A) (l : list Action) : Prop := forall s, did l (visible (d_files s)) (m s).

(** The same for steps that are known only at the end. *)
Definition does_all {A} (m : IO A) (R : list Action -> Prop) : Prop :=
  forall s, exists l, R l /\ did l (visible (d_files s)) (m s).

Lemma did_bind {A B} (m : IO A) (f : A -> IO B) l1 l2 v s :
  did l1 v (m s) -> (forall a s1, m s = (s1, Some (Ok a)) -> did l2 (visible (d_files s1)) (f a s1)) ->
  did (l1 ++ l2) v (x_bind m f s).
Proof.
  intros Hm Hf. rewrite x_bind_eq.
  assert (forall s', (exists k, (k <= length l1)%nat /\ visible (d_files s') = run (firstn k l1) v) ->
    exists k, (k <= length (l1 ++ l2))%nat /\ visible (d_files s') = run (firstn k (l1 ++ l2)) v) as Hstop.
  { intros s' (k & Hk & ->). exists k. rewrite length_app, take_app_le by done. split; [lia | done]. }
  assert (forall s' s1, visible (d_files s1) = run l1 v ->
    (exists k, (k <= length l2)%nat /\ visible (d_files s') = run (firstn k l2) (visible (d_files s1))) ->
    exists k, (k <= length (l1 ++ l2))%nat /\ visible (d_files s') = run (firstn k (l1 ++ l2)) v) as Hlater.
  { intros s' s1 H1 (k & Hk & ->). exists (length l1 + k)%nat.
    rewrite length_app, firstn_app_2, run_app, H1. split; [lia | done]. }
  destruct (m s) as [s1 [[a | e] |]]; [| by apply Hstop | by apply Hstop].
  specialize (Hf a s1 eq_refl). cbn in Hm. destruct (f a s1) as [s2 [[b | e] |]]; cbn in Hf |- *; [| eauto | eauto].
  by rewrite Hf, Hm, run_app.
Qed.

Lemma does_ret {A} (a : A) : does (x_ret a) [].
Proof. done. Qed.

Lemma does_fail {A} e : does (x_fail (A := A) e) [].
Proof. intros s. by exists 0%nat. Qed.

Lemma does_bind {A B} (m : IO A) (f : A -> IO B) l1 l2 :
  does m l1 -> (forall a, does (f a) l2) -> does (x_bind m f) (l1 ++ l2).
Proof. intros Hm Hf s. apply did_bind; [apply Hm | intros a s1 _; apply Hf]. Qed.

Lemma does_nil_bind {A B} (m : IO A) (f : A -> IO B) l : does m [] -> (forall a, does (f a) l) -> does (x_bind m f) l.
Proof. intros Hm Hf. apply (does_bind m f [] l Hm Hf). Qed.

Lemma does_wrap {A} msg (m : IO A) l : does m l -> does (x_wrap msg m) l.
Proof. intros Hm s. specialize (Hm s). unfold x_wrap, mbind, M_bind. by destruct (m s) as [s' [[a | e] |]]. Qed.

Lemma does_each {A} (l : list A) (body : A -> IO unit) (step : A -> Action) :
  (forall x, x ∈ l -> does (body x) [step x]) -> does (x_each l body) (step <$> l).
Proof.
  induction l as [| x l IH]; intros H; cbn [x_each fmap list_fmap]; [apply does_ret |].
  apply (does_bind _ _ [step x]); [apply H; left |]. intros _. apply IH. intros y Hy. apply H. by right.
Qed.

Lemma does_ask {A} (f : nat -> res A) : does (ask f) [].
Proof. intros s. unfold ask. cbn. destruct (f (d_tick s)); [done | by exists 0%nat]. Qed.

(** An operation on the disk is one step, when its effect on visible files is one. *)
Lemma does_op (f : Files -> res Files) a :
  (forall fs fs', f fs = Ok fs' -> visible fs' = act (visible fs) a) -> does (disk_op f) [a].
Proof.
  intros Hf s. unfold disk_op, at_tick.
  destruct (dk_out (d_tick s)) as [| e | []]; [| by exists 0%nat; split; [cbn; lia |] | | exists 0%nat; split; [cbn; lia |]].
  - destruct (f (d_files s)) as [fs | e] eqn:E; cbn [d_files]; [by apply Hf | exists 0%nat; split; [cbn; lia | done]].
  - destruct (f (d_files s)) as [fs | e] eqn:E; cbn [d_files];
      [exists 1%nat; split; [cbn; lia | by apply Hf] | exists 0%nat; split; [cbn; lia | done]].
  - by destruct (f (d_files s)).
Qed.

Lemma does_silent (f : Files -> res Files) :
  (forall fs fs', f fs = Ok fs' -> visible fs' = visible fs) -> does (disk_op f) [].
Proof.
  intros Hf s. unfold disk_op, at_tick.
  assert (forall fs, visible fs = visible (d_files s) -> exists k, (k <= length (@nil Action))%nat /\
    visible fs = run (firstn k []) (visible (d_files s))) as H0 by (intros fs ->; by exists 0%nat).
  destruct (dk_out (d_tick s)) as [| e | []], (f (d_files s)) as [fs | e'] eqn:E; cbn [d_files];
    first [exact (Hf _ _ E) | apply H0; first [done | exact (Hf _ _ E)] | exact (H0 _ eq_refl)].
Qed.

Lemma touch_keeps s : exists r, touch s = (at_tick (d_tick s) (d_files s), r).
Proof. unfold touch, disk_op. destruct (dk_out (d_tick s)) as [| e | []]; eauto. Qed.

(** The rename puts what was written in place. *)
Lemma does_rename_after dir temp file content s :
  hidden (dir, temp) = true -> hidden (dir, file) = false -> d_files s !! (dir, temp) = Some content ->
  match rename (dir, temp) (dir, file) s with
  | (s', Some (Ok _)) => visible (d_files s') = <[(dir, file) := content]> (visible (d_files s))
  | (s', _) => visible (d_files s') = visible (d_files s) \/
               visible (d_files s') = <[(dir, file) := content]> (visible (d_files s))
  end.
Proof.
  intros Ht Hf Hc. unfold rename, disk_op. rewrite Hc.
  assert (visible (<[(dir, file) := content]> (delete (dir, temp) (d_files s))) =
          <[(dir, file) := content]> (visible (d_files s))) as Hv
    by (by rewrite visible_insert, visible_delete_hidden).
  destruct (dk_out (d_tick s)) as [| e | []]; cbn [at_tick d_files]; auto.
Qed.

Lemma does_fill_and_rename dir temp file content :
  hidden (dir, temp) = true -> hidden (dir, file) = false -> does (fill_and_rename dir temp file content) [Put (dir, file) content].
Proof.
  intros Ht Hf s. unfold fill_and_rename.
  assert (forall fs, visible fs = visible (d_files s) \/ visible fs = <[(dir, file) := content]> (visible (d_files s)) ->
    exists k, (k <= length [Put (dir, file) content])%nat /\ visible fs = run (firstn k [Put (dir, file) content]) (visible (d_files s))) as Hend
    by (intros fs [-> | ->]; [exists 0%nat | exists 1%nat]; split; cbn; [lia | done | lia | done]).
  rewrite x_bind_eq. destruct (touch_keeps s) as [r ->]. destruct r as [[u | e] |]; [| apply Hend; by left ..].
  rewrite x_bind_eq. unfold write. cbn [at_tick d_tick d_files].
  destruct (dk_out (S (d_tick s))) as [| e | b]; cbn [at_tick d_tick d_files];
    [| apply Hend; left; exact (visible_insert_hidden _ _ _ Ht) ..].
  rewrite x_bind_eq. match goal with |- context [touch ?s1] => destruct (touch_keeps s1) as [r Htouch]; rewrite Htouch; clear Htouch end.
  unfold at_tick in *. cbn [d_tick d_files]. destruct r as [[u' | e] |]; [| apply Hend; left; exact (visible_insert_hidden _ _ _ Ht) ..].
  pose proof (does_rename_after dir temp file content
    (mkDisk (S (S (S (d_tick s)))) (<[(dir, temp):=content]> (d_files s))) Ht Hf (lookup_insert_eq _ _ _)) as H.
  cbn [d_files] in H. rewrite visible_insert_hidden in H by done.
  destruct (rename _ _ _) as [s' [[u2 | e] |]]; cbn; [exact H | by apply Hend | by apply Hend].
Qed.

(** [replaceFile] replaces the file at once, or not at all. *)
Lemma does_replaceFile dir file content :
  hidden (dir, file) = false -> does (replaceFile dir file content) [Put (dir, file) content].
Proof.
  intros Hf. unfold replaceFile. apply does_nil_bind; [apply does_ask |]. intros suffix.
  pose proof (temp_hidden dir suffix) as Ht. cbn zeta. set (temp := (temp_prefix ++ suffix)%string) in *.
  apply does_nil_bind.
  { apply does_silent. intros fs fs'. destruct (fs !! _); intros [= <-]. by apply visible_insert_hidden. }
  intros _ s. rewrite x_bind_eq, x_try_eq.
  pose proof (does_fill_and_rename dir temp file content Ht Hf s) as H.
  destruct (fill_and_rename dir temp file content s) as [s1 [[u | e] |]]; [done | | done].
  destruct H as (k & Hk & Hs1). rewrite x_bind_eq, x_try_eq.
  assert (does (remove (dir, temp)) []) as Hrm.
  { apply does_silent. intros fs fs'. destruct (fs !! _); intros [= <-]. by apply visible_delete_hidden. }
  specialize (Hrm s1). destruct (remove (dir, temp) s1) as [s2 [[u | e'] |]]; exists k; (split; [done |]); cbn [run foldl] in Hrm.
  - by rewrite Hrm.
  - destruct Hrm as (k' & Hk' & ->). by destruct k'.
  - destruct Hrm as (k' & Hk' & ->). by destruct k'.
Qed.
(** ** A patch *)

Context {OL : OrderLaws DE}.

Lemma range_ok payload s :
  exists files, range payload s = (at_tick (d_tick s) (d_files s), Some (Ok files)) /\ files ≡ₚ map_to_list payload.
Proof.
  unfold range, ask. eexists. split; [done |]. rewrite dk_order_perm.
  assert (forall l, (forall x, x ∈ l -> x ∈ map_to_list payload) -> (fun name => (name, payload !!! name)) <$> l.*1 = l) as H.
  { induction l as [| [name c] l IH]; intros Hl; [done |]. cbn [fmap list_fmap fst].
    rewrite IH by (intros x Hx; apply Hl; by right). f_equal. f_equal.
    apply lookup_total_correct, elem_of_map_to_list, Hl. left. }
  by rewrite H.
Qed.

(** What is asked of a patch: it has a hash, and its names are plain. *)
Definition acceptable (cfg : ReceiverConfig) (payload : gmap string string) (configHash : string) : Prop :=
  configHash <> "" /\ rc_identity_dir cfg <> "" /\ map_Forall (fun name _ => is_ok (check_name name) = true) payload.

#[global] Instance acceptable_dec cfg payload h : Decision (acceptable cfg payload h).
Proof. unfold acceptable. apply _. Defined.

(** Its contents pass validation. *)
Definition valid_payload (payload : gmap string string) : Prop :=
  map_Forall (fun name c => validation_error name c = None) payload.

#[global] Instance valid_payload_dec payload : Decision (valid_payload payload).
Proof. unfold valid_payload. apply _. Defined.

(** The steps of a patch: files, recorded errors, hash, marker. *)
Definition patch_actions (cfg : ReceiverConfig) (files cleared : list (string * string)) (configHash now : string) : list Action :=
  ((fun file => Put (rc_recv_dir cfg, file.1) file.2) <$> files) ++
  ((fun file => Drop (errors_dir cfg, file.1)) <$> cleared) ++
  [Put (rc_identity_dir cfg, configHashFilename) configHash; Put (rc_recv_dir cfg, lastCompletedTimestampFile) now].

Definition patch_run (cfg : ReceiverConfig) (payload : gmap string string) (configHash : string) (acts : list Action) : Prop :=
  exists files cleared now, files ≡ₚ map_to_list payload /\ cleared ≡ₚ map_to_list payload /\
    acts = patch_actions cfg files cleared configHash now.

Lemma check_name_ok name :
  is_ok (check_name name) = true -> name <> "" /\ has_prefix "." name = false /\ name <> lastCompletedTimestampFile.
Proof.
  unfold check_name. destruct (bool_decide (TrimSpace name = "")) eqn:Et; [done |].
  destruct (has_prefix "." name) eqn:Ed; [by rewrite !orb_true_r |].
  destruct (decide (name = lastCompletedTimestampFile)) as [-> | Hm]; [by rewrite !orb_true_r |].
  intros _. split_and!; [| done | done]. intros ->. by vm_compute in Et.
Qed.

Lemma does_all_of {A} (m : IO A) l (R : list Action -> Prop) : does m l -> R l -> does_all m R.
Proof. intros Hm Hl s. exists l. split; [done | apply Hm]. Qed.

Lemma does_all_range {A} payload (f : list (string * string) -> IO A) R :
  (forall files, files ≡ₚ map_to_list payload -> does_all (f files) R) -> does_all (x_bind (range payload) f) R.
Proof.
  intros Hf s. rewrite x_bind_eq. destruct (range_ok payload s) as (files & -> & Hp).
  exact (Hf files Hp (at_tick (d_tick s) (d_files s))).
Qed.

Lemma does_all_bind {A B} (m : IO A) (f : A -> IO B) l1 (R : list Action -> Prop) :
  does m l1 -> (exists l, R l) -> (forall a, does_all (f a) R) -> does_all (x_bind m f) (fun l => exists l2, R l2 /\ l = l1 ++ l2).
Proof.
  intros Hm [l0 Hl0] Hf s. destruct (m s) as [s1 o] eqn:Em.
  assert (exists l2, R l2 /\ forall a, o = Some (Ok a) -> did l2 (visible (d_files s1)) (f a s1)) as (l2 & HR & H2).
  { destruct o as [[a | e] |]; [| by exists l0 ..].
    destruct (Hf a s1) as (l2 & HR & H2). exists l2. split; [done |]. by intros ? [= <-]. }
  exists (l1 ++ l2). split; [eauto |]. apply did_bind; [apply Hm |].
  intros a s2 Ha. rewrite Ha in Em. simplify_eq. by apply H2.
Qed.

Lemma does_all_weaken {A} (m : IO A) (R R' : list Action -> Prop) : does_all m R -> (forall l, R l -> R' l) -> does_all m R'.
Proof. intros Hm HR s. destruct (Hm s) as (l & Hl & H). eauto. Qed.

Lemma does_all_step {A} (m : IO unit) (f : unit -> IO A) l1 (R R' : list Action -> Prop) :
  does m l1 -> (exists l, R l) -> does_all (f tt) R -> (forall l2, R l2 -> R' (l1 ++ l2)) -> does_all (x_bind m f) R'.
Proof.
  intros Hm Hex Hf HR. eapply does_all_weaken; [eapply does_all_bind; [done | done | by intros []] |].
  intros l (l2 & Hl2 & ->). auto.
Qed.

(** Accepted contents do not clash with the hash and the marker. *)
Lemma payload_name cfg payload h name c :
  acceptable cfg payload h -> valid_payload payload -> payload !! name = Some c ->
  hidden (rc_recv_dir cfg, name) = false /\ name <> "" /\ name <> lastCompletedTimestampFile /\ name <> configHashFilename.
Proof.
  intros (_ & _ & Hn) Hv Hc. destruct (check_name_ok name) as (H1 & H2 & H3); [by eapply Hn |].
  split_and!; [by apply dotless_visible | done | done |]. intros ->. by specialize (Hv _ _ Hc).
Qed.

Lemma does_apply_patch cfg payload h :
  acceptable cfg payload h -> valid_payload payload -> does_all (apply_patch cfg payload h) (patch_run cfg payload h).
Proof.
  intros Ha Hv. unfold apply_patch. apply does_all_range. intros files Hfiles.
  eapply does_all_step with (l1 := (fun file => Put (rc_recv_dir cfg, file.1) file.2) <$> files)
    (R := fun l => exists cleared now, cleared ≡ₚ map_to_list payload /\
       l = ((fun file => Drop (errors_dir cfg, file.1)) <$> cleared) ++
           [Put (rc_identity_dir cfg, configHashFilename) h; Put (rc_recv_dir cfg, lastCompletedTimestampFile) now]).
  - apply does_each. intros [name c] Hin. apply does_wrap, does_replaceFile.
    rewrite Hfiles in Hin. apply elem_of_map_to_list in Hin. by destruct (payload_name cfg payload h name c).
  - exists (((fun file => Drop (errors_dir cfg, file.1)) <$> map_to_list payload) ++
      [Put (rc_identity_dir cfg, configHashFilename) h; Put (rc_recv_dir cfg, lastCompletedTimestampFile) ""]). eauto.
  - apply does_all_range. intros cleared Hcleared.
    eapply does_all_step with (l1 := (fun file => Drop (errors_dir cfg, file.1)) <$> cleared)
      (R := fun l => exists now, l = [Put (rc_identity_dir cfg, configHashFilename) h; Put (rc_recv_dir cfg, lastCompletedTimestampFile) now]).
    + apply does_each. intros [name c] Hin. apply does_wrap, does_op. intros fs fs' [= <-]. apply visible_delete.
      rewrite Hcleared in Hin. apply elem_of_map_to_list in Hin. destruct Ha as (_ & _ & Hn). apply dotless_visible.
      eapply check_name_ok, Hn, Hin.
    + exists [Put (rc_identity_dir cfg, configHashFilename) h; Put (rc_recv_dir cfg, lastCompletedTimestampFile) ""]. eauto.
    + eapply does_all_step with (l1 := [Put (rc_identity_dir cfg, configHashFilename) h])
        (R := fun l => exists now, l = [Put (rc_recv_dir cfg, lastCompletedTimestampFile) now]).
      * apply does_wrap, does_replaceFile. apply dotless_visible. reflexivity.
      * eexists. by exists "".
      * intros s. rewrite x_bind_eq. unfold ask at 1. cbn. eexists. split; [by eexists |].
        apply (does_wrap _ _ _ (does_replaceFile (rc_recv_dir cfg) lastCompletedTimestampFile (Itoa (dk_now (d_tick s)))
          (dotless_visible _ lastCompletedTimestampFile eq_refl)) (at_tick (d_tick s) (d_files s))).
      * intros l2 [now ->]. by exists now.
    + intros l2 [now ->]. exists cleared, now. done.
  - intros l2 (cleared & now & Hc & ->). exists files, cleared, now. done.
Qed.
Lemma checks_pass (files : list (string * string)) (s : Disk) :
  (forall f, f ∈ files -> is_ok (check_name f.1) = true) -> x_each files (fun file => x_res (check_name file.1)) s = (s, Some (Ok tt)).
Proof.
  induction files as [| f files IH]; intros H; cbn [x_each]; [done |].
  rewrite x_bind_eq. unfold x_res at 1. cbn [mret M_ret].
  specialize (H f ltac:(left)) as Hf. destruct (check_name f.1) as [[] | e]; [| done]. apply IH. intros g Hg. apply H. by right.
Qed.

Lemma validation_passes cfg b (files : list (string * string)) s :
  (forall f, f ∈ files -> validation_error f.1 f.2 = None) -> x_fold (validate_file cfg) b files s = (s, Some (Ok b)).
Proof.
  induction files as [| f files IH]; intros H; cbn [x_fold]; [done |].
  rewrite x_bind_eq. unfold validate_file at 1. rewrite H by left. apply IH. intros g Hg. apply H. by right.
Qed.

Lemma does_ReceiveFiles cfg payload h :
  acceptable cfg payload h -> valid_payload payload -> does_all (ReceiveFiles cfg payload h) (patch_run cfg payload h).
Proof.
  intros Ha Hv. pose proof Ha as (Hh & Hi & Hn). unfold ReceiveFiles. rewrite !bool_decide_eq_false_2 by done.
  apply does_all_range. intros files Hf s. rewrite x_bind_eq, checks_pass.
  2:{ intros [name c] Hin. rewrite Hf in Hin. apply elem_of_map_to_list in Hin. by eapply Hn. }
  apply (does_all_range payload (fun files =>
    x_bind (x_fold (validate_file cfg) false files) (fun rejected : bool => if rejected then x_ret tt else apply_patch cfg payload h))).
  intros files2 Hf2 s2. rewrite x_bind_eq, validation_passes.
  2:{ intros [name c] Hin. rewrite Hf2 in Hin. apply elem_of_map_to_list in Hin. by apply Hv. }
  by apply does_apply_patch.
Qed.
(** *** Patches that are not applied *)

(** Nothing but files in the errors directory is touched. *)
Definition spares {A} (D : string) (m : IO A) : Prop :=
  forall s p, p.1 <> D -> d_files (m s).1 !! p = d_files s !! p.

Lemma spares_bind {A B} (D : string) (m : IO A) (f : A -> IO B) : spares D m -> (forall a, spares D (f a)) -> spares D (x_bind m f).
Proof.
  intros Hm Hf s p Hp. specialize (Hm s p Hp). rewrite x_bind_eq. destruct (m s) as [s1 [[a | e] |]]; [| done | done].
  cbn in Hm. rewrite <-Hm. by apply Hf.
Qed.

Lemma spares_wrap {A} (D msg : string) (m : IO A) : spares D m -> spares D (x_wrap msg m).
Proof. intros Hm s p Hp. specialize (Hm s p Hp). unfold x_wrap, mbind, M_bind. by destruct (m s) as [s' [[a | e] |]]. Qed.

Lemma spares_op (D : string) (f : Files -> res Files) :
  (forall fs fs' p, f fs = Ok fs' -> p.1 <> D -> fs' !! p = fs !! p) -> spares D (disk_op f).
Proof.
  intros Hf s p Hp. unfold disk_op.
  destruct (dk_out (d_tick s)) as [| e | []], (f (d_files s)) eqn:E; cbn; first [done | by eapply Hf].
Qed.

Lemma spares_write (D file data : string) : spares D (write (D, file) data).
Proof.
  intros s p Hp. unfold write. assert (p <> (D, file)) by (by intros ->).
  destruct (dk_out (d_tick s)); cbn; by rewrite lookup_insert_ne.
Qed.

Lemma spares_fold {A B} (D : string) (body : B -> A -> IO B) l b : (forall b x, spares D (body b x)) -> spares D (x_fold body b l).
Proof. intros H. revert b. induction l as [| x l IH]; intros b; cbn [x_fold]; [done |]. apply spares_bind; auto. Qed.

Lemma spares_validate cfg b file : spares (errors_dir cfg) (validate_file cfg b file).
Proof.
  unfold validate_file. destruct (validation_error _ _); [| done].
  apply spares_bind; [apply spares_wrap, spares_op; by intros fs fs' p [= <-] |]. intros _.
  apply spares_bind; [| done]. apply spares_wrap, spares_bind; [| intros; apply spares_write].
  apply spares_op. intros fs fs' p [= <-] Hp. rewrite lookup_insert_ne; [done |]. by intros <-.
Qed.

(** Validation of a list of files finds the invalid one. *)
Lemma validation_rejects cfg b files s s' r :
  x_fold (validate_file cfg) b files s = (s', Some (Ok r)) ->
  r = b || bool_decide (Exists (fun f => validation_error f.1 f.2 <> None) files).
Proof.
  revert b s. induction files as [| f files IH]; intros b s; cbn [x_fold].
  - intros [= _ <-]. rewrite bool_decide_eq_false_2 by (intros H; inversion H). by rewrite orb_false_r.
  - rewrite x_bind_eq. destruct (validate_file cfg b f s) as [s1 [[b1 | e] |]] eqn:E; [| done | done].
    intros H. rewrite (IH _ _ H). unfold validate_file in E. destruct (validation_error f.1 f.2) eqn:Ev.
    + assert (b1 = true) as ->.
      { rewrite x_bind_eq in E. destruct (x_wrap _ touch s) as [s2 [[u | e] |]]; [| done | done].
        rewrite x_bind_eq in E. destruct (x_wrap _ (WriteFile _ _) s2) as [s3 [[u' | e] |]]; [| done | done]. by injection E as _ <-. }
      rewrite (bool_decide_eq_true_2 (Exists _ (f :: files))) by (left; congruence). by rewrite orb_true_r.
    + injection E as <- <-. f_equal. apply bool_decide_ext. rewrite Exists_cons. naive_solver.
Qed.
Lemma checks_fail (files : list (string * string)) (s : Disk) :
  Exists (fun f => is_ok (check_name f.1) = false) files ->
  exists e, x_each files (fun file => x_res (check_name file.1)) s = (s, Some (Err e)).
Proof.
  induction 1 as [f files Hf | f files Hf IH]; cbn [x_each]; rewrite x_bind_eq; unfold x_res at 1; cbn [mret M_ret];
    destruct (check_name f.1) as [[] | e]; by eauto.
Qed.

Lemma ReceiveFiles_refuses cfg payload h s :
  ~ acceptable cfg payload h ->
  d_files (ReceiveFiles cfg payload h s).1 = d_files s /\ (ReceiveFiles cfg payload h s).2 <> Some (Ok tt).
Proof.
  intros Hn. unfold ReceiveFiles. case_bool_decide as Hh; [done |]. case_bool_decide as Hi; [done |].
  rewrite x_bind_eq. destruct (range_ok payload s) as (files & -> & Hf). rewrite x_bind_eq.
  destruct (decide (Exists (fun f => is_ok (check_name f.1) = false) files)) as [Hex | Hall].
  - by destruct (checks_fail files (at_tick (d_tick s) (d_files s)) Hex) as [e ->].
  - exfalso. apply Hn. split_and!; [done | done |]. intros name c Hc. apply not_false_is_true. intros Hbad. apply Hall, Exists_exists.
    exists (name, c). split; [| done]. rewrite Hf. by apply elem_of_map_to_list.
Qed.

Lemma ReceiveFiles_rejects cfg payload h : ~ valid_payload payload -> spares (errors_dir cfg) (ReceiveFiles cfg payload h).
Proof.
  intros Hv. unfold ReceiveFiles. case_bool_decide; [done |]. case_bool_decide; [done |].
  apply spares_bind; [by intros s p Hp |]. intros files. apply spares_bind.
  { intros s p Hp. destruct (decide (Exists (fun f => is_ok (check_name f.1) = false) files)) as [Hex | Hall].
    - by destruct (checks_fail files s Hex) as [e ->].
    - rewrite checks_pass; [done |]. intros f Hf. apply not_false_is_true. intros Hbad. apply Hall, Exists_exists. eauto. }
  intros _ s p Hp. rewrite x_bind_eq. destruct (range_ok payload s) as (files2 & -> & Hf2). cbn.
  rewrite x_bind_eq. pose proof (spares_fold (errors_dir cfg) (validate_file cfg) files2 false
    (fun b x => spares_validate cfg b x) (at_tick (d_tick s) (d_files s)) p Hp) as Hsp.
  destruct (x_fold (validate_file cfg) false files2 _) as [s1 [[r | e] |]] eqn:E; [| done | done].
  apply validation_rejects in E as ->. rewrite orb_false_l, bool_decide_eq_true_2; [done |].
  apply (dec_stable (P := Exists (fun f => validation_error f.1 f.2 <> None) files2)). intros Hno. apply Hv.
  intros name c Hc. apply (dec_stable (P := validation_error name c = None)). intros Hbad. apply Hno, Exists_exists.
  exists (name, c). split; [| done]. rewrite Hf2. by apply elem_of_map_to_list.
Qed.

(** C37. Applying a patch refines a sequence of atomic steps.  A patch with a bad name
    or no hash changes nothing and is an error; one whose contents fail validation
    changes nothing but the errors directory; any other patch leaves the visible files,
    wherever the agent fails or is killed, as after the first steps of: replace every
    file, remove every recorded error, replace the hash, replace the marker; and when
    success is reported all of them were done. *)
Theorem patch_applied_in_order cfg payload h s :
  let s' := (ReceiveFiles cfg payload h s).1 in
  let r := (ReceiveFiles cfg payload h s).2 in
  (~ acceptable cfg payload h -> d_files s' = d_files s /\ r <> Some (Ok tt)) /\
  (~ valid_payload payload -> forall p, p.1 <> errors_dir cfg -> d_files s' !! p = d_files s !! p) /\
  (acceptable cfg payload h -> valid_payload payload ->
   exists acts k, patch_run cfg payload h acts /\ (k <= length acts)%nat /\
     visible (d_files s') = run (firstn k acts) (visible (d_files s)) /\ (r = Some (Ok tt) -> k = length acts)).
Proof.
  cbn zeta. split_and!; [apply ReceiveFiles_refuses | intros Hv p; by apply ReceiveFiles_rejects |].
  intros Ha Hv. destruct (does_ReceiveFiles cfg payload h Ha Hv s) as (acts & Hacts & H).
  exists acts. destruct (ReceiveFiles cfg payload h s) as [s' [[[] | e] |]]; cbn in H |- *.
  - exists (length acts). by rewrite firstn_all.
  - destruct H as (k & Hk & H). by exists k.
  - destruct H as (k & Hk & H). by exists k.
Qed.
(** ** The hash comes after the files *)

Definition place (a : Action) : string * string := match a with Put p _ => p | Drop p => p end.

Lemma run_untouched acts fs p : Forall (fun a => place a <> p) acts -> run acts fs !! p = fs !! p.
Proof.
  intros H. revert fs. induction H as [| a acts Ha H IH]; intros fs; [done |]. cbn [run foldl].
  change (foldl act (act fs a) acts) with (run acts (act fs a)). rewrite IH.
  destruct a; cbn in Ha |- *; [by rewrite lookup_insert_ne | by rewrite lookup_delete_ne].
Qed.

(** What is not removed is as it was or as it was put. *)
Lemma run_either acts fs p :
  Forall (fun a => a <> Drop p) acts -> run acts fs !! p = fs !! p \/ exists c, Put p c ∈ acts /\ run acts fs !! p = Some c.
Proof.
  intros H. revert fs. induction H as [| a acts Ha H IH]; intros fs; [by left |]. cbn [run foldl].
  change (foldl act (act fs a) acts) with (run acts (act fs a)).
  destruct (IH (act fs a)) as [-> | (c & Hin & ->)]; [| right; exists c; split; [by right | done]].
  destruct a as [q c | q]; cbn; destruct (decide (q = p)) as [-> | Hne].
  - right. exists c. rewrite lookup_insert_eq. split; [left | done].
  - left. by rewrite lookup_insert_ne.
  - done.
  - left. by rewrite lookup_delete_ne.
Qed.

(** Files with distinct places are all there in the end. *)
Lemma run_puts (recv name c : string) (files : list (string * string)) fs :
  NoDup files.*1 -> (name, c) ∈ files -> run ((fun file => Put (recv, file.1) file.2) <$> files) fs !! (recv, name) = Some c.
Proof.
  revert fs. induction files as [| [n d] files IH]; intros fs Hnd Hin; [by apply not_elem_of_nil in Hin |].
  cbn [fmap list_fmap fst snd] in Hnd |- *. apply NoDup_cons in Hnd as [Hnot Hnd]. cbn [run foldl].
  change (foldl act ?f ?l) with (run l f). apply elem_of_cons in Hin as [[= -> ->] | Hin]; [| by apply IH].
  rewrite run_untouched; [by cbn; rewrite lookup_insert_eq |]. apply Forall_fmap, Forall_forall. intros [n' d'] Hin [= ->].
  apply Hnot. by apply (list_elem_of_fmap_2 fst _ (n, d')).
Qed.

Lemma errors_dir_other cfg : errors_dir cfg <> rc_recv_dir cfg.
Proof.
  unfold errors_dir. intros H. apply (f_equal (fun s => length (chars s))) in H.
  rewrite chars_app, length_app in H. cbn in H. lia.
Qed.

Section Patch.
Context (cfg : ReceiverConfig) (payload : gmap string string) (h : string).
Context (Ha : acceptable cfg payload h) (Hv : valid_payload payload).

Lemma patch_name name c (files : list (string * string)) :
  files ≡ₚ map_to_list payload -> (name, c) ∈ files -> name <> lastCompletedTimestampFile /\ name <> configHashFilename.
Proof.
  intros Hf Hin. rewrite Hf in Hin. apply elem_of_map_to_list in Hin. by destruct (payload_name cfg payload h name c) as (_ & _ & ? & ?).
Qed.

(** The files are replaced before anything else is. *)
Lemma patch_files_first files cleared now k fs :
  files ≡ₚ map_to_list payload -> cleared ≡ₚ map_to_list payload ->
  let v := run (firstn k (patch_actions cfg files cleared h now)) fs in
  ((k <= length files + length cleared)%nat /\
   v !! (rc_identity_dir cfg, configHashFilename) = fs !! (rc_identity_dir cfg, configHashFilename) /\
   v !! (rc_recv_dir cfg, lastCompletedTimestampFile) = fs !! (rc_recv_dir cfg, lastCompletedTimestampFile)) \/
  (v !! (rc_identity_dir cfg, configHashFilename) = Some h /\
   forall name c, payload !! name = Some c -> v !! (rc_recv_dir cfg, name) = Some c).
Proof.
  intros Hf Hc. cbn zeta. unfold patch_actions. rewrite app_assoc.
  set (A := (fun file => Put (rc_recv_dir cfg, file.1) file.2) <$> files).
  set (B := (fun file => Drop (errors_dir cfg, file.1)) <$> cleared).
  destruct (decide (k <= length (A ++ B))%nat) as [Hk | Hk].
  - left. rewrite take_app_le by done. unfold A, B in Hk. rewrite length_app, !length_fmap in Hk. split; [lia |]. split; apply run_untouched, Forall_take, Forall_app_2; apply Forall_fmap, Forall_forall;
      intros [name c] Hin Heq; first [destruct (patch_name name c _ Hf Hin) | destruct (patch_name name c _ Hc Hin)]; cbn in Heq; congruence.
  - right. replace k with (length (A ++ B) + (k - length (A ++ B)))%nat by lia.
    assert (exists j, (k - length (A ++ B) = S j)%nat) as [j ->] by (exists (k - length (A ++ B) - 1)%nat; lia).
    rewrite firstn_app_2, run_app. cbn [firstn]. split.
    + destruct j as [| j]; cbn; [by rewrite lookup_insert_eq |].
      rewrite firstn_nil. cbn. rewrite lookup_insert_ne by (intros [=]; done). by rewrite lookup_insert_eq.
    + intros name c Hpc. assert ((name, c) ∈ files) as Hin by (rewrite Hf; by apply elem_of_map_to_list).
      destruct (patch_name name c files Hf Hin) as [Hm Hh].
      rewrite run_untouched.
      2:{ apply Forall_cons. split; [cbn; congruence |]. destruct j as [| j]; [done |].
          cbn. rewrite firstn_nil. apply Forall_singleton. cbn. congruence. }
      rewrite run_app, run_untouched.
      2:{ apply Forall_fmap, Forall_forall. intros [n d] _ Heq. apply (errors_dir_other cfg). cbn in Heq. congruence. }
      apply run_puts; [| done]. unfold A. rewrite Hf. apply NoDup_fst_map_to_list.
Qed.
End Patch.
(** The hash of a configuration, which the agent reports to the server, and the
    marker that the programs of the instance watch are changed only when every file of
    the patch is in its place: wherever the agent fails or is killed while it applies a
    patch, if either of them is different afterwards then the hash is the one of the
    patch and each file has the contents it gives; and every other file outside the
    errors directory is as it was or, when it is of the patch, as the patch has it. *)
Theorem hash_after_files cfg payload h s :
  rc_identity_dir cfg <> errors_dir cfg ->
  let fs := d_files s in
  let fs' := d_files (ReceiveFiles cfg payload h s).1 in
  (fs' !! (rc_identity_dir cfg, configHashFilename) <> fs !! (rc_identity_dir cfg, configHashFilename) \/
   fs' !! (rc_recv_dir cfg, lastCompletedTimestampFile) <> fs !! (rc_recv_dir cfg, lastCompletedTimestampFile) ->
   fs' !! (rc_identity_dir cfg, configHashFilename) = Some h /\
   forall name c, payload !! name = Some c -> fs' !! (rc_recv_dir cfg, name) = Some c) /\
  (forall p, hidden p = false -> p.1 <> errors_dir cfg ->
   p <> (rc_identity_dir cfg, configHashFilename) -> p <> (rc_recv_dir cfg, lastCompletedTimestampFile) ->
   fs' !! p = fs !! p \/ exists name c, p = (rc_recv_dir cfg, name) /\ payload !! name = Some c /\ fs' !! p = Some c).
Proof.
  intros Hid. cbn zeta. pose proof (errors_dir_other cfg) as Herr.
  destruct (decide (acceptable cfg payload h)) as [Ha | Ha].
  2:{ destruct (ReceiveFiles_refuses cfg payload h s Ha) as [-> _]. naive_solver. }
  destruct (decide (valid_payload payload)) as [Hv | Hv].
  2:{ pose proof (ReceiveFiles_rejects cfg payload h Hv s) as Hs. split; [| intros p _ Hp _ _; left; by apply Hs].
      rewrite !Hs by (cbn; congruence). naive_solver. }
  destruct (does_ReceiveFiles cfg payload h Ha Hv s) as (acts & (files & cleared & now & Hf & Hc & ->) & H).
  assert (exists k, visible (d_files (ReceiveFiles cfg payload h s).1) =
    run (firstn k (patch_actions cfg files cleared h now)) (visible (d_files s))) as [k Hk].
  { destruct (ReceiveFiles cfg payload h s) as [s' [[[] | e] |]]; cbn in H |- *;
      [eexists; rewrite firstn_all; exact H | by destruct H as (k & _ & H); exists k ..]. }
  clear H. set (s' := (ReceiveFiles cfg payload h s).1) in *.
  assert (forall p, hidden p = false -> d_files s !! p = visible (d_files s) !! p) as Hold by (intros; by rewrite visible_lookup).
  assert (forall p, hidden p = false -> d_files s' !! p =
    run (firstn k (patch_actions cfg files cleared h now)) (visible (d_files s)) !! p) as Hnew
    by (intros; by rewrite <-Hk, visible_lookup).
  split.
  - rewrite !Hnew, !Hold by reflexivity. intros Hch.
    destruct (patch_files_first cfg payload h Ha Hv files cleared now k (visible (d_files s)) Hf Hc) as [(_ & H1 & H2) | [H1 H2]];
      [naive_solver |]. split; [done |]. intros name c Hpc. rewrite Hnew; [by apply H2 |].
    by destruct (payload_name cfg payload h name c Ha Hv Hpc).
  - intros p Hp Hpe Hph Hpm. rewrite Hnew, Hold by done.
    destruct (run_either (firstn k (patch_actions cfg files cleared h now)) (visible (d_files s)) p) as [-> | (c & Hin & ->)]; [| by left |].
    + apply Forall_take. unfold patch_actions. repeat apply Forall_app_2; [| | by repeat constructor];
        apply Forall_fmap, Forall_forall; intros [n d] _; [done |]. cbn. by intros [= <-].
    + right. apply subseteq_take, elem_of_app in Hin as [Hin | [Hin | Hin]%elem_of_app].
      * apply list_elem_of_fmap in Hin as ([n d] & [= -> ->] & Hin). exists n, d. split_and!; [done | | done].
        rewrite Hf in Hin. by apply elem_of_map_to_list in Hin.
      * by apply list_elem_of_fmap in Hin as (? & ? & _).
      * rewrite elem_of_cons, list_elem_of_singleton in Hin. destruct Hin; congruence.
Qed.
End Facts.
