(* ===== verification/AgentPatches.v ===== *)
(** * Patches from the server to the agent's disk

    The messages of a file stream ([AgentStreams]) as the agent receives them
    ([AgentFiles]). *)

From S2P Require Import Prelude GoText Process Disk AgentStreams AgentStreamsFacts AgentFiles AgentFilesFacts.

#[local] Open Scope Z_scope.

Import Disk Receiver.
Import Files (patch_messages, TransferFile, TransferCommit, pp_files, pp_config_hash, pf_filename, pf_content).

Section Patches.
Context {DE : DiskEnv} {OL : OrderLaws DE}.

Definition add_files (acc : gmap string string) (files : list Files.PendingFile) : gmap string string :=
  foldl (fun m f => <[pf_filename f := pf_content f]> m) acc files.

Definition payload_of (p : Files.pendingFilePatch) : gmap string string := add_files ∅ (pp_files p).

(** File messages of one patch: names are given once each. *)
Definition tidy (files : list Files.PendingFile) : Prop :=
  NoDup (pf_filename <$> files) /\ "" ∉ pf_filename <$> files.

(** A patch the agent can apply. *)
Definition deliverable (cfg : ReceiverConfig) (p : Files.pendingFilePatch) : Prop :=
  tidy (pp_files p) /\ acceptable cfg (payload_of p) (pp_config_hash p) /\ valid_payload (payload_of p).

(** The files of a patch are collected. *)
Lemma stream_files_collects cfg files rest fin acc :
  tidy files -> (forall f, f ∈ files -> acc !! pf_filename f = None) ->
  StreamFiles cfg ((to_message <$> (TransferFile <$> files)) ++ rest) fin acc = StreamFiles cfg rest fin (add_files acc files).
Proof.
  revert acc. induction files as [| f files IH]; intros acc [Hnd Hne] Hacc; [done |].
  cbn [fmap list_fmap app StreamFiles to_message msg_config_hash msg_filename msg_content].
  cbn [fmap list_fmap] in Hnd, Hne. apply NoDup_cons in Hnd as [Hnot Hnd]. apply not_elem_of_cons in Hne as [Hf Hne].
  rewrite bool_decide_eq_true_2 by done. rewrite bool_decide_eq_false_2 by congruence.
  rewrite (Hacc f) by left. apply IH; [done |].
  intros g Hg. rewrite lookup_insert_ne; [apply Hacc; by right |]. intros Heq. apply Hnot. rewrite Heq.
  by apply list_elem_of_fmap_2.
Qed.

(** A patch is applied when its hash arrives. *)
Lemma stream_patch cfg p rest fin :
  deliverable cfg p ->
  StreamFiles cfg ((to_message <$> patch_messages p) ++ rest) fin ∅ =
  x_bind (x_wrap "failed to apply files" (ReceiveFiles cfg (payload_of p) (pp_config_hash p)))
         (fun _ => StreamFiles cfg rest fin ∅).
Proof.
  intros (Ht & (Hh & _) & _). unfold patch_messages. rewrite fmap_app, <-app_assoc, stream_files_collects by done.
  cbn [fmap list_fmap app StreamFiles to_message msg_config_hash msg_filename msg_content msg_last_modified].
  rewrite bool_decide_eq_false_2 by done. done.
Qed.

(** The steps of a list of patches. *)
Definition patches_run (cfg : ReceiverConfig) (ps : list Files.pendingFilePatch) (acts : list Action) : Prop :=
  exists runs, Forall2 (fun p l => patch_run cfg (payload_of p) (pp_config_hash p) l) ps runs /\ acts = concat runs.

Lemma patch_run_exists cfg payload h : exists l, patch_run cfg payload h l.
Proof. eexists. by exists (map_to_list payload), (map_to_list payload), "". Qed.

Lemma patches_run_exists cfg ps : exists l, patches_run cfg ps l.
Proof.
  induction ps as [| p ps [l (runs & Hr & _)]]; [exists []; by exists [] |].
  destruct (patch_run_exists cfg (payload_of p) (pp_config_hash p)) as [l1 H1].
  eexists. exists (l1 :: runs). split; [by constructor | done].
Qed.

Lemma does_all_seq {A B} (m : X Disk A) (f : A -> X Disk B) (R1 R2 : list Action -> Prop) :
  does_all m R1 -> (exists l, R2 l) -> (forall a, does_all (f a) R2) ->
  does_all (x_bind m f) (fun l => exists l1 l2, R1 l1 /\ R2 l2 /\ l = l1 ++ l2).
Proof.
  intros Hm [l0 Hl0] Hf s. destruct (Hm s) as (l1 & H1 & Hd). destruct (m s) as [s1 o] eqn:Em.
  assert (exists l2, R2 l2 /\ forall a, o = Some (Ok a) -> did l2 (visible (d_files s1)) (f a s1)) as (l2 & HR & H2).
  { destruct o as [[a | e] |]; [| by exists l0 ..].
    destruct (Hf a s1) as (l2 & HR & H2). exists l2. split; [done |]. by intros ? [= <-]. }
  exists (l1 ++ l2). split; [by exists l1, l2 |]. apply did_bind; [by rewrite Em |].
  intros a s2 Ha. rewrite Ha in Em. simplify_eq. by apply H2.
Qed.

Lemma does_all_wrap {A} msg (m : X Disk A) R : does_all m R -> does_all (x_wrap msg m) R.
Proof.
  intros Hm s. destruct (Hm s) as (l & Hl & H). exists l. split; [done |].
  unfold x_wrap, mbind, M_bind. by destruct (m s) as [s' [[a | e] |]].
Qed.

Lemma stream_files_part cfg part fin : tidy part -> does_all (StreamFiles cfg (to_message <$> (TransferFile <$> part)) fin ∅) (fun l => l = []).
Proof.
  intros Ht s. exists []. split; [done |].
  rewrite <-(app_nil_r (to_message <$> _)), stream_files_collects by done. cbn [StreamFiles].
  destruct fin as [u | e]; [case_bool_decide |]; cbn; [done | by exists 0%nat ..].
Qed.

Lemma stream_applies cfg ps part fin :
  Forall (deliverable cfg) ps -> tidy part ->
  does_all (StreamFiles cfg (to_message <$> (concat (patch_messages <$> ps) ++ (TransferFile <$> part))) fin ∅) (patches_run cfg ps).
Proof.
  intros Hps Ht. induction Hps as [| p ps Hp Hps IH].
  - cbn [fmap list_fmap concat app]. eapply does_all_weaken; [by apply stream_files_part |]. intros l ->. by exists [].
  - cbn [fmap list_fmap concat]. rewrite <-app_assoc, fmap_app, stream_patch by done.
    destruct Hp as (Htp & Ha & Hv). eapply does_all_weaken.
    + eapply does_all_seq; [apply does_all_wrap, (does_ReceiveFiles cfg _ _ Ha Hv) | apply patches_run_exists | intros _; exact IH].
    + intros l (l1 & l2 & H1 & (runs & Hr & ->) & ->). exists (l1 :: runs). split; [by constructor | done].
Qed.

(** The first messages of a list of patches: whole patches and files of one more. *)
Lemma prefix_shape ps msgs :
  msgs `prefix_of` concat (patch_messages <$> ps) ->
  exists ps' part, ps' `prefix_of` ps /\ msgs = concat (patch_messages <$> ps') ++ (TransferFile <$> part).
Proof.
  revert msgs. induction ps as [| p ps IH]; intros msgs Hpre.
  - apply prefix_nil_inv in Hpre as ->. by exists [], [].
  - cbn [fmap list_fmap concat] in Hpre. destruct (decide (length msgs <= length (pp_files p))%nat) as [Hle | Hgt].
    + exists [], (firstn (length msgs) (pp_files p)). split; [apply prefix_nil |]. cbn [fmap list_fmap concat app].
      destruct Hpre as [k Hk]. unfold patch_messages in Hk. rewrite <-app_assoc in Hk.
      apply (f_equal (firstn (length msgs))) in Hk. rewrite take_app_le in Hk by (rewrite length_fmap; lia).
      rewrite take_app_length in Hk. rewrite <-fmap_take in Hk. by rewrite Hk.
    + assert (patch_messages p `prefix_of` msgs) as [m' ->].
      { assert (length (patch_messages p) = S (length (pp_files p))) as Hlen
          by (unfold patch_messages; rewrite length_app, length_fmap; cbn; lia).
        destruct (prefix_weak_total (patch_messages p) msgs (patch_messages p ++ concat (patch_messages <$> ps)))
          as [H | H]; [by exists (concat (patch_messages <$> ps)) | done | done |].
        rewrite (prefix_length_eq _ _ H); [done | lia]. }
      apply prefix_app_inv, IH in Hpre as (ps' & part & Hps & ->). exists (p :: ps'), part.
      split; [by apply prefix_cons | by rewrite app_assoc].
Qed.
(** ** Undisturbed *)

Definition clean (fs : Files) : Prop := forall p, hidden p = true -> fs !! p = None.

Definition succeeds {A : Type} (m : X Disk A) : Prop :=
  forall s, clean (d_files s) -> exists s' a, m s = (s', Some (Ok a)) /\ clean (d_files s').

Lemma succeeds_bind {A B : Type} (m : X Disk A) (f : A -> X Disk B) : succeeds m -> (forall a, succeeds (f a)) -> succeeds (x_bind m f).
Proof.
  intros Hm Hf s Hs. destruct (Hm s Hs) as (s1 & a & E & H1). rewrite x_bind_eq, E. by apply Hf.
Qed.

Lemma succeeds_wrap {A : Type} msg (m : X Disk A) : succeeds m -> succeeds (x_wrap msg m).
Proof.
  intros Hm s Hs. destruct (Hm s Hs) as (s1 & a & E & H1). exists s1, a.
  unfold x_wrap, mbind, M_bind. by rewrite E.
Qed.

Lemma succeeds_each {A : Type} (l : list A) (body : A -> X Disk unit) :
  (forall x, x ∈ l -> succeeds (body x)) -> succeeds (x_each l body).
Proof.
  induction l as [| x l IH]; intros H; cbn [x_each]; [by intros s Hs; exists s, tt |].
  apply succeeds_bind; [apply H; left |]. intros _. apply IH. intros y Hy. apply H. by right.
Qed.

Section Undisturbed.
Context (Hdone : forall n, dk_out n = Done).

Lemma replaceFile_succeeds dir file content : hidden (dir, file) = false -> succeeds (replaceFile dir file content).
Proof.
  intros Hf s Hs. unfold replaceFile. rewrite x_bind_eq. cbn [ask]. rewrite x_bind_eq.
  pose proof (temp_hidden dir (dk_suffix (d_tick s))) as Ht.
  set (temp := (temp_prefix ++ dk_suffix (d_tick s))%string) in *.
  unfold create, disk_op. rewrite Hdone. cbn [d_files at_tick]. rewrite (Hs _ Ht).
  rewrite x_bind_eq, x_try_eq. unfold fill_and_rename. rewrite x_bind_eq. unfold touch, disk_op. rewrite Hdone.
  rewrite x_bind_eq. unfold write. rewrite Hdone. rewrite x_bind_eq. rewrite Hdone.
  unfold rename, disk_op. rewrite Hdone. cbn [d_files at_tick]. rewrite lookup_insert_eq.
  eexists _, tt. split; [done |]. cbn [d_files at_tick]. intros p Hp.
  rewrite lookup_insert_ne by congruence. destruct (decide (p = (dir, temp))) as [-> | Hne]; [by rewrite lookup_delete_eq |].
  rewrite lookup_delete_ne, !lookup_insert_ne by done. by apply Hs.
Qed.

Lemma remove_any_succeeds p : succeeds (remove_any p).
Proof.
  intros s Hs. unfold remove_any, disk_op. rewrite Hdone. eexists _, tt. split; [done |]. cbn [d_files at_tick].
  intros q Hq. apply lookup_delete_None. right. by apply Hs.
Qed.

Lemma range_succeeds {A : Type} payload (f : list (string * string) -> X Disk A) :
  (forall files, files ≡ₚ map_to_list payload -> succeeds (f files)) -> succeeds (x_bind (range payload) f).
Proof.
  intros Hf s Hs. rewrite x_bind_eq. destruct (range_ok payload s) as (files & -> & Hp). by apply (Hf files Hp).
Qed.

Lemma ReceiveFiles_succeeds cfg payload h :
  acceptable cfg payload h -> valid_payload payload -> succeeds (ReceiveFiles cfg payload h).
Proof.
  intros Ha Hv. pose proof Ha as (Hh & Hi & Hn). unfold ReceiveFiles. rewrite !bool_decide_eq_false_2 by done.
  assert (forall files, files ≡ₚ map_to_list payload -> forall f, f ∈ files -> payload !! f.1 = Some f.2) as Hin.
  { intros files Hf [n c] Hx. rewrite Hf in Hx. by apply elem_of_map_to_list in Hx. }
  apply range_succeeds. intros f1 H1 s Hs. rewrite x_bind_eq, checks_pass by (intros f Hf; eapply Hn, Hin; eauto).
  revert s Hs. apply range_succeeds. intros f2 H2 s Hs. rewrite x_bind_eq, validation_passes by (intros f Hf; eapply Hv, Hin; eauto).
  revert s Hs. unfold apply_patch. apply range_succeeds. intros f3 H3. apply succeeds_bind.
  { apply succeeds_each. intros f Hf. apply succeeds_wrap, replaceFile_succeeds.
    by destruct (payload_name cfg payload h f.1 f.2 Ha Hv) as [? _]; [eapply Hin |]. }
  intros _. apply range_succeeds. intros f4 H4. apply succeeds_bind.
  { apply succeeds_each. intros f Hf. apply succeeds_wrap, remove_any_succeeds. }
  intros _. apply succeeds_bind; [by apply succeeds_wrap, replaceFile_succeeds |]. intros _.
  apply succeeds_bind; [by intros s Hs; eexists _, _ |]. intros now. by apply succeeds_wrap, replaceFile_succeeds.
Qed.
End Undisturbed.

(** ** The composition *)

(** From the server's streams to the agent's disk.  Whatever the server's
    goroutines did in whatever order, the messages an agent has received of a stream are
    whole patches and files of one more; when the agent accepts these patches, its
    visible files are, wherever it failed or was killed, as after the first steps of
    applying the whole patches one after the other, each of them files first, then the
    hash, then the marker. *)
Theorem received_patches_applied cfg y ch st msgs fin s :
  rtc Files.step Files.initial y -> Files.sys_streams y !! ch = Some st ->
  msgs `prefix_of` Files.st_sent st ->
  exists ps part,
    msgs = concat (patch_messages <$> ps) ++ (TransferFile <$> part) /\
    (Forall (deliverable cfg) ps -> tidy part ->
     exists acts k, patches_run cfg ps acts /\
       visible (d_files (StreamFiles cfg (to_message <$> msgs) fin ∅ s).1) = run (firstn k acts) (visible (d_files s))).
Proof.
  intros Hr Hst Hpre. destruct (FilesFacts.patches_sent_whole y ch st Hr Hst) as (sent & part0 & Hsent & Hpc).
  assert (exists ps, Files.st_sent st `prefix_of` concat (patch_messages <$> ps)) as [ps0 Hps0].
  { assert (part0 = [] \/ exists p, part0 `prefix_of` patch_messages p) as [-> | [p [k Hk]]].
    { destruct (Files.st_pc st); auto. right. eexists. eexists. symmetry. exact Hpc. }
    - exists sent. by rewrite Hsent, app_nil_r.
    - exists (sent ++ [p]). rewrite Hsent, fmap_app, concat_app. cbn. rewrite app_nil_r, Hk, app_assoc. by eexists. }
  destruct (prefix_shape ps0 msgs) as (ps & part & _ & ->); [by etrans |].
  exists ps, part. split; [done |]. intros Hps Ht. destruct (stream_applies cfg ps part fin Hps Ht s) as (acts & Hacts & H).
  exists acts. destruct (StreamFiles _ _ _ _ s) as [s' [[[] | e] |]]; cbn in H |- *;
    [exists (length acts); by rewrite firstn_all | by destruct H as (k & _ & H); exists k ..].
Qed.

Lemma add_files_pairs now acc (l : list (string * string)) :
  add_files acc ((fun '(filename, content) => Files.mkPendingFile filename content now) <$> l) = foldl (fun m f => <[f.1 := f.2]> m) acc l.
Proof. revert acc. induction l as [| [n c] l IH]; intros acc; [done |]. apply IH. Qed.

(** The files of a patch are those that were generated, in whatever order. *)
Lemma payload_of_generated ref now (g : Files.Generated) range_ :
  range_ ≡ₚ map_to_list (Files.gen_files g) ->
  payload_of (Files.mkPatch ref ((fun '(filename, content) => Files.mkPendingFile filename content now) <$> range_) (Files.gen_runtime_hash g))
  = Files.gen_files g.
Proof.
  intros Hr. unfold payload_of. cbn [Files.pp_files]. rewrite add_files_pairs, foldl_insert_union.
  - rewrite (right_id_L ∅ (∪)). rewrite (list_to_map_proper _ (map_to_list (Files.gen_files g))); [apply list_to_map_to_list | | done].
    rewrite Hr. apply NoDup_fst_map_to_list.
  - rewrite Hr. apply NoDup_fst_map_to_list.
Qed.
(** The patch that a request installs can be delivered when its contents are. *)
Lemma generated_deliverable cfg ref now (g : Files.Generated) range_ :
  range_ ≡ₚ map_to_list (Files.gen_files g) ->
  acceptable cfg (Files.gen_files g) (Files.gen_runtime_hash g) -> valid_payload (Files.gen_files g) ->
  deliverable cfg (Files.mkPatch ref ((fun '(filename, content) => Files.mkPendingFile filename content now) <$> range_) (Files.gen_runtime_hash g)).
Proof.
  intros Hr Ha Hv. unfold deliverable. rewrite payload_of_generated by done. split_and!; [| done | done].
  assert (pf_filename <$> ((fun '(filename, content) => Files.mkPendingFile filename content now) <$> range_) = range_.*1) as Hn
    by (rewrite <-list_fmap_compose; apply list_fmap_ext; by intros ? []).
  unfold tidy. cbn [Files.pp_files]. rewrite Hn, Hr. split; [apply NoDup_fst_map_to_list |].
  intros ([n c] & Heq & Hin)%list_elem_of_fmap. apply elem_of_map_to_list in Hin.
  destruct (payload_name cfg _ _ n c Ha Hv Hin) as (_ & Hne & _). by cbn in Heq.
Qed.

End Patches.
