(* ===== verification/SleepController.v ===== *)
(** * The operator's sleep controller ([src/internal/operator/controller/sleep_controller.go])

    A request to sleep is an annotation of the Cluster object.  The controller puts the
    tenant to sleep on one shard after the other, the shard it runs on last, and keeps
    its progress in another annotation, so that a restart can go on or undo what was
    done.  [SleepSys] holds the annotations the API server stores ([None]: there is no
    such Cluster) and the calls made to the shards, in order.

    Kubernetes, the shards, the clock and the encodings are a parameter, [SleepEnv],
    indexed by the ticks of the calls.  Every call may fail, and the process may die at
    any of them; a patch may be applied although its reply is lost.  The
    manager's client reads the Cluster from a cache that may lag behind: [se_cached]
    says which version a read returns. *)

From S2P Require Import Prelude GoText Process.
From stdpp Require Import relations.

#[local] Open Scope Z_scope.

Module SleepCtl.

Definition SleepRequestAnnotation : string := "nstance.dev/sleep-request".
Definition SleepProgressAnnotation : string := "nstance.dev/sleep-progress".
Definition sleepPhaseSleeping : string := "sleeping".
Definition sleepPhaseFinalizing : string := "finalizing".
Definition sleepPhaseCompensating : string := "compensating".

(** [sleepProgress]. *)
Record Progress := mkProgress {
  p_request : string;
  p_phase : string;
  p_accepted : list string;
  p_final : string;
  p_reason : string;
}.

Record Eligibility := mkEligibility {
  e_wake_at : option Z;
  e_shard : string;
}.

(** ** What the guards read of Kubernetes objects *)

Record Node := mkNode { nd_name : string; nd_zone : string }.
Record Machine := mkMachine { mc_name : string; mc_cluster : string; mc_node_ref : bool; mc_deleting : bool }.
Record MachinePool := mkMachinePool {
  mp_name : string;
  mp_cluster : string;
  mp_infra_kind : string;
  mp_infra_name : string;
  mp_replicas : option Z;
  mp_status_replicas : option Z;
  mp_phase : string;
}.
Record ShardGroup := mkShardGroup {
  sg_name : string;
  sg_owners : list (string * string);     (* kind and name *)
  sg_generation : Z;
  sg_observed_generation : Z;
  sg_size : Z;
  sg_replicas : Z;
}.
Record Job := mkJob {
  j_name : string;
  j_uid : string;
  j_conditions : list (string * string);  (* type and status *)
  j_suspend : option bool;
  j_deleting : bool;
}.
Record Pod := mkPod { pd_owner_uids : list string; pd_phase : string; pd_deleting : bool }.
Record CronJob := mkCronJob { cj_name : string; cj_suspend : option bool; cj_zone : option string; cj_schedule : string }.

(** A listener in the answer of [GetTenantStatus]. *)
Record ListenerStatus := mkListenerStatus {
  ls_name : string;
  ls_available : bool;
  ls_idle_since : option (Z * bool);      (* the time, and whether it is valid *)
}.

Inductive SleepStatus := StatusUnspecified | StatusAwake | StatusAsleep.
Inductive SleepResult := ResultUnspecified | ResultSlept | ResultAlreadyAsleep | ResultBusy.

#[global] Instance SleepStatus_eq_dec : EqDecision SleepStatus.
Proof. solve_decision. Defined.
#[global] Instance SleepResult_eq_dec : EqDecision SleepResult.
Proof. solve_decision. Defined.

Record SleepPolicy := mkSleepPolicy {
  sp_enabled : bool;
  sp_remaining_nodes : Z;
  sp_inactivity : Z;
  sp_activity_windows : gmap string Z;
  sp_cron_look_ahead : Z;
  sp_wake_lead : Z;
  sp_reconcile_period : Z;
}.

(** [SleepReconciler] with its [OperatorConfig]. *)
Record Settings := mkSettings {
  c_cluster_id : string;
  c_tenant : string;
  c_shards : gset string;
  c_sleep : SleepPolicy;
  c_node_name : string;
}.

Definition CAPIClusterName (c : Settings) : string := (c_cluster_id c ++ "--" ++ c_tenant c)%string.

(** ** The system *)

(** The outcome of a write: applied or not, and what the caller sees ([None]: it died). *)
Record Outcome := mkOutcome { w_applied : bool; w_reply : option (option err) }.

Class SleepEnv := mkSleepEnv {
  se_others : nat -> gmap string string -> gmap string string;  (* other writers of the annotations *)
  se_read : nat -> option (option err);                         (* a read's failure *)
  se_cached : nat -> option (gmap string string) -> option (gmap string string);
    (* the version of the Cluster in the client's cache, for the one stored *)
  se_patch : nat -> Outcome;
  se_merge : gmap string string -> gmap string string -> gmap string string -> gmap string string;
    (* client.MergeFrom(base), sent with new, on what is stored *)
  se_now : nat -> Z;
  se_conns : nat -> option (gset string);                       (* ConnProvider.Get *)
  se_range : nat -> gset string -> list string;                 (* order of a range over a map's keys *)
  se_nodes : nat -> option (res (list Node));
  se_node : nat -> string -> option (res Node);
  se_machines : nat -> option (res (list Machine));
  se_pools : nat -> option (res (list MachinePool));
  se_shard_groups : nat -> option (res (list ShardGroup));
  se_jobs : nat -> option (res (list Job));
  se_pods : nat -> option (res (list Pod));
  se_cron_jobs : nat -> option (res (list CronJob));
  se_status : nat -> string -> option (res (SleepStatus * list ListenerStatus));
  se_sleep : nat -> string -> bool -> option Z -> option (res (SleepResult * SleepStatus));
  se_wake : nat -> string -> option (res SleepStatus);
  se_next_cron : string -> Z -> option string -> res Z;         (* the cron library *)
  se_location : string -> bool;                                 (* time.LoadLocation succeeds *)
  se_parse_time : string -> bool;                               (* time.Parse succeeds *)
  se_format_time : Z -> string;
  se_encode : Progress -> string;                               (* json.Marshal *)
  se_decode : Progress -> string -> res Progress;               (* json.Unmarshal into a given value *)
}.

(** What is relied on: a merge patch sets and removes the annotations that differ and
    leaves the others, the round trip of the encoding, which is never empty, keys each
    visited once, connections made to configured shards only ([leader.Manager.Start]),
    whose names are identifiers ([LoadConfigFromFile]). *)
Class SleepLaws (SE : SleepEnv) (cfg : Settings) : Prop := mkSleepLaws {
  sl_merge : forall b n s k, se_merge b n s !! k = if bool_decide (b !! k = n !! k) then s !! k else n !! k;
  sl_round_trip : forall p request, se_decode (mkProgress request sleepPhaseSleeping [] "" "") (se_encode p) = Ok p;
  sl_encode : forall p, se_encode p <> "";
  sl_range : forall n s, se_range n s ≡ₚ elements s;
  sl_conns : forall n s, se_conns n = Some s -> s ⊆ c_shards cfg;
  sl_names : "" ∉ c_shards cfg;
}.

(** Calls to shards, in order; [CallSleep] and [CallWake] when they are made. *)
Inductive SleepEvent :=
  | CallEligible                                     (* the guards of a normal sleep passed *)
  | CallSleep (shard : string) (ifNotBusy : bool)
  | CallSlept (shard : string)                       (* the shard confirmed *)
  | CallWake (shard : string)
  | CallAwake (shard : string)                       (* the shard confirmed *)
  | CallRejected (reason : string).

#[global] Instance SleepEvent_eq_dec : EqDecision SleepEvent.
Proof. solve_decision. Defined.

Record SleepSys := mkSleepSys {
  ss_tick : nat;
  ss_cluster : option (gmap string string);
  ss_log : list SleepEvent;
}.

(** [ctrl.Result]. *)
Record Result := mkResult { r_requeue : bool; r_after : Z }.
Definition done_ : Result := mkResult false 0.

Section Controller.
Context {SE : SleepEnv}.
Variable cfg : Settings.

(** ** Calls *)

Definition s_observe {A} (f : nat -> A) : X SleepSys A :=
  a ← (fun s => ({| s with ss_tick := S (ss_tick s) |}, f (ss_tick s))); x_ret a.

(** A call that may die or fail. *)
Definition s_call {A} (f : nat -> option (res A)) : X SleepSys A :=
  r ←? s_observe f;
  match r with None => x_die | Some r => x_res r end.

Definition s_log (e : SleepEvent) : X SleepSys unit := x_mod (fun s => {| s with ss_log := ss_log s ++ [e] |}).

(** Other writers come first. *)
Definition s_others : X SleepSys unit :=
  o ←? s_observe se_others;
  x_mod (fun s => {| s with ss_cluster := o <$> ss_cluster s |}).

(** [r.Get] of the Cluster, from the cache: [None] when there is none. *)
Definition getCluster : X SleepSys (option (gmap string string)) :=
  _ ←? s_others;
  fault ←? s_observe se_read;
  match fault with
  | Some None => x_die
  | Some (Some e) => x_fail e
  | None =>
      cached ←? s_observe se_cached;
      x_get (fun s => cached (ss_cluster s))
  end.

(** [r.Patch]; the object becomes what the server answers. *)
Definition patch (base new : gmap string string) : X SleepSys (gmap string string) :=
  _ ←? s_others;
  stored ←? x_get ss_cluster;
  match stored with
  | None => x_fail ErrNotFound
  | Some a =>
      o ←? s_observe se_patch;
      let a' := se_merge base new a in
      _ ←? (if w_applied o then x_mod (fun s => {| s with ss_cluster := Some a' |}) else x_ret tt);
      match w_reply o with
      | None => x_die
      | Some (Some e) => x_fail e
      | Some None => if w_applied o then x_ret a' else x_fail (ErrMsg "conflict")
      end
  end.

(** ** Progress *)

(** [storeProgress]. *)
Definition storeProgress (cluster : gmap string string) (p : Progress) : X SleepSys (gmap string string) :=
  patch cluster (<[SleepProgressAnnotation := se_encode p]> cluster).

(** [finish] and [reject]. *)
Definition finish (cluster : gmap string string) : X SleepSys (gmap string string) :=
  patch cluster (delete SleepProgressAnnotation (delete SleepRequestAnnotation cluster)).

Definition reject (cluster : gmap string string) (reason : string) : X SleepSys unit :=
  _ ←? finish cluster;
  s_log (CallRejected reason).

Definition known_phase (phase : string) : bool :=
  bool_decide (phase = sleepPhaseSleeping) || bool_decide (phase = sleepPhaseFinalizing) || bool_decide (phase = sleepPhaseCompensating).

(** [decodeProgress]. *)
Definition decodeProgress (value request : string) : res Progress :=
  let progress := mkProgress request sleepPhaseSleeping [] "" "" in
  if bool_decide (value = "") then Ok progress
  else match se_decode progress value with
  | Err e => Err e
  | Ok p =>
      if negb (bool_decide (p_request p = request)) || negb (known_phase (p_phase p)) then Err (ErrMsg "progress does not match request")
      else if bool_decide (p_phase p = sleepPhaseFinalizing) && bool_decide (p_final p = "") then Err (ErrMsg "finalizing progress has no final shard")
      else Ok p
  end.

(** [orderedShards] and [lastShard]. *)
Definition orderedShards (connections : gset string) (coordinating : string) : list string :=
  merge_sort String.le (elements (connections ∖ {[coordinating]})) ++
  (if bool_decide (coordinating ∈ connections) then [coordinating] else []).

Definition lastShard (shards : list string) : string := default "" (last shards).

(** ** Guards of a normal sleep *)

Definition hasLiveOwnedPod (pods : list Pod) (uid : string) : bool :=
  existsb (fun pod => bool_decide (uid ∈ pd_owner_uids pod) &&
    (bool_decide (pd_phase pod = "Pending") || bool_decide (pd_phase pod = "Running") || pd_deleting pod)) pods.

(** One job of [jobsIdle]. *)
Definition job_idle (pods : list Pod) (job : Job) : bool :=
  let terminal := existsb (fun c => bool_decide (c.2 = "True") && (bool_decide (c.1 = "Complete") || bool_decide (c.1 = "Failed"))) (j_conditions job) in
  (terminal && negb (j_deleting job)) ||
  (default false (j_suspend job) && negb (j_deleting job) && negb (hasLiveOwnedPod pods (j_uid job))).

Definition jobsIdle : X SleepSys unit :=
  jobs ←? s_call se_jobs;
  pods ←? s_call se_pods;
  x_res (check_all jobs (fun job => refuse (negb (job_idle pods job)) (ErrMsg "job is nonterminal or deleting"))).

(** One CronJob of [nextWake]. *)
Definition cron_wake (now : Z) (earliest : option Z) (c : CronJob) : res (option Z) :=
  if default false (cj_suspend c) then Ok earliest
  else if (match cj_zone c with Some z => negb (se_location z) | None => false end) then Err (ErrMsg "CronJob has invalid time zone")
  else match se_next_cron (cj_schedule c) now (cj_zone c) with
  | Err e => Err (ErrWrap "CronJob" e)
  | Ok next =>
      let wake := next - sp_wake_lead (c_sleep cfg) in
      Ok (match earliest with Some e => if bool_decide (wake < e) then Some wake else Some e | None => Some wake end)
  end.

Definition nextWake : X SleepSys (option Z) :=
  cronJobs ←? s_call se_cron_jobs;
  now ←? s_observe se_now;
  x_res (fold_err (cron_wake now) None cronJobs).

Definition machine_settled (m : Machine) : res unit :=
  refuse (bool_decide (mc_cluster m = CAPIClusterName cfg) && negb (mc_node_ref m) && negb (mc_deleting m)) (ErrMsg "machine is awaiting scale-up").

(** The pools: a scaling one refuses; the names of Nstance pools are collected. *)
Definition pool_step (pools : gset string) (p : MachinePool) : res (gset string) :=
  if negb (bool_decide (mp_cluster p = CAPIClusterName cfg)) then Ok pools
  else
    let pools := if bool_decide (mp_infra_kind p = "NstanceMachinePool") then {[mp_infra_name p]} ∪ pools else pools in
    if (match mp_status_replicas p, mp_replicas p with
        | Some a, Some b => negb (bool_decide (a = b))
        | _, _ => true
        end) || bool_decide (mp_phase p ∈ ["ScalingUp"; "ScalingDown"; "Scaling"])
    then Err (ErrMsg "MachinePool is scaling")
    else Ok pools.

Definition shard_group_settled (pools : gset string) (g : ShardGroup) : res unit :=
  let owned := existsb (fun o => bool_decide (o.1 = "NstanceMachinePool") && bool_decide (o.2 ∈ pools)) (sg_owners g) in
  refuse (owned && (negb (bool_decide (sg_observed_generation g = sg_generation g)) || negb (bool_decide (sg_replicas g = sg_size g))))
    (ErrMsg "NstanceShardGroup is scaling").

(** One listener of a shard: idle for its window. *)
Definition listener_idle (seen : gset string) (l : ListenerStatus) : X SleepSys (gset string) :=
  let seen := {[ls_name l]} ∪ seen in
  match ls_available l, ls_idle_since l with
  | true, Some (idle, valid) =>
      if negb valid then x_fail (ErrMsg "listener activity time is invalid")
      else
        let window := default (sp_inactivity (c_sleep cfg)) (sp_activity_windows (c_sleep cfg) !! ls_name l) in
        now ←? s_observe se_now;
        if bool_decide (now < idle + window) then x_fail (ErrMsg "listener is still active") else x_ret seen
  | _, _ => x_fail (ErrMsg "listener activity is unavailable")
  end.

Definition shard_idle (seen : gset string) (shard : string) : X SleepSys (gset string) :=
  answer ←? x_wrap "read shard activity" (s_call (fun n => se_status n shard));
  x_fold listener_idle seen answer.2.

(** [eligible].  Without nodes, which settings exclude, the last line panics. *)
Definition eligible (connections : gset string) : X SleepSys Eligibility :=
  nodes ←? s_call se_nodes;
  _ ←? x_res (refuse (negb (bool_decide (Z.of_nat (length nodes) = sp_remaining_nodes (c_sleep cfg)))) (ErrMsg "normal sleep requires exactly the remaining nodes"));
  machines ←? s_call se_machines;
  _ ←? x_res (check_all machines machine_settled);
  pools ←? s_call se_pools;
  nstancePools ←? x_res (fold_err pool_step ∅ pools);
  shardGroups ←? s_call se_shard_groups;
  _ ←? x_res (check_all shardGroups (shard_group_settled nstancePools));
  _ ←? jobsIdle;
  order ←? s_observe (fun n => se_range n connections);
  seen ←? x_fold shard_idle ∅ order;
  windows ←? s_observe (fun n => se_range n (dom (sp_activity_windows (c_sleep cfg))));
  _ ←? x_res (check_all windows (fun l => refuse (negb (bool_decide (l ∈ seen))) (ErrMsg "listener activity is unavailable")));
  wakeAt ←? nextWake;
  now ←? s_observe se_now;
  _ ←? x_res (refuse (match wakeAt with
                      | Some w => negb (bool_decide (now + (sp_cron_look_ahead (c_sleep cfg) - sp_wake_lead (c_sleep cfg)) < w))
                      | None => false
                      end) (ErrMsg "CronJob is due within look-ahead window"));
  _ ←? s_log CallEligible;
  match nodes with
  | [] => x_die
  | n :: _ => x_ret (mkEligibility wakeAt (nd_zone n))
  end.

(** ** Undoing *)

(** One shard of [compensate]: whether it is awake. *)
Definition wake_shard (shard : string) : X SleepSys bool :=
  _ ←? s_log (CallWake shard);
  answer ←? x_try (s_call (fun n => se_wake n shard));
  match answer with
  | Ok StatusAwake => _ ←? s_log (CallAwake shard); x_ret true
  | _ => x_ret false
  end.

(** The shards that remain asleep, in order. *)
Definition wake_step (connections : gset string) (remaining : list string) (shard : string) : X SleepSys (list string) :=
  if bool_decide (shard ∈ connections) then
    awake ←? wake_shard shard;
    x_ret (if awake : bool then remaining else remaining ++ [shard])
  else x_ret (remaining ++ [shard]).

(** [compensate]. *)
Definition compensate (cluster : gmap string string) (p : Progress) : X SleepSys unit :=
  connections ←? s_observe se_conns;
  remaining ←? x_fold (wake_step (default ∅ connections)) [] (p_accepted p);
  if negb (bool_decide (remaining = [])) then
    _ ←? storeProgress cluster {| p with p_accepted := remaining |};
    x_fail (ErrMsg "wake shard")
  else
    _ ←? finish cluster;
    if bool_decide (p_reason p = "") then x_ret tt else s_log (CallRejected (p_reason p)).

(** [restoreAfterWake]: whether every connected shard is asleep, and one is missing. *)
Definition status_step (connections : gset string) (acc : bool * bool) (shard : string) : X SleepSys (bool * bool) :=
  let '(allAsleep, missing) := acc in
  if bool_decide (shard ∈ connections) then
    answer ←? x_wrap "read shard sleep status" (s_call (fun n => se_status n shard));
    x_ret (allAsleep && bool_decide (answer.1 = StatusAsleep), missing)
  else x_ret (allAsleep, true).

Definition restoreAfterWake (cluster : gmap string string) (p : Progress) : X SleepSys Result :=
  conns ←? s_observe se_conns;
  match conns with
  | None => x_ret (mkResult false second)
  | Some connections =>
      order ←? s_observe (fun n => se_range n (c_shards cfg));
      state ←? x_fold (status_step connections) (true, false) order;
      if state.1 : bool then x_ret (mkResult false (if state.2 : bool then second else sp_reconcile_period (c_sleep cfg)))
      else
        let p := mkProgress (p_request p) sleepPhaseCompensating (merge_sort String.le (elements (c_shards cfg))) (p_final p) "" in
        cluster ←? storeProgress cluster p;
        _ ←? compensate cluster p;
        x_ret done_
  end.

(** ** [Reconcile] *)

Definition set_phase (phase reason : string) (p : Progress) : Progress := {| p with p_phase := phase; p_reason := reason |}.

(** What is stored before a shard is asked. *)
Definition announce (finalShard shard : string) (p : Progress) : Progress :=
  if bool_decide (shard = finalShard) then mkProgress (p_request p) sleepPhaseFinalizing (p_accepted p) shard (p_reason p)
  else mkProgress (p_request p) sleepPhaseCompensating (p_accepted p ++ [shard]) (p_final p) "sleep interrupted before shard confirmation".

Definition refusal (shard : string) (answer : res (SleepResult * SleepStatus)) : string :=
  match answer with
  | Err e => "error"
  | Ok (ResultBusy, _) => "shard rejected sleep as busy"
  | Ok _ => "shard did not confirm sleep"
  end.

Definition affirmed (answer : res (SleepResult * SleepStatus)) : bool :=
  match answer with
  | Ok (result, status) => (bool_decide (result = ResultSlept) || bool_decide (result = ResultAlreadyAsleep)) && bool_decide (status = StatusAsleep)
  | Err _ => false
  end.

(** The loop over the shards, those before [shards] being accepted. *)
Fixpoint sleep_shards (force : bool) (state : Eligibility) (finalShard : string) (shards : list string)
    (cluster : gmap string string) (p : Progress) : X SleepSys Result :=
  match shards with
  | [] => x_ret (mkResult false (sp_reconcile_period (c_sleep cfg)))
  | shard :: rest =>
      if bool_decide (shard ∈ p_accepted p) then sleep_shards force state finalShard rest cluster p
      else
        let final := bool_decide (shard = finalShard) in
        let p := announce finalShard shard p in
        cluster ←? storeProgress cluster p;
        let wakeAt := if final then e_wake_at state else None in
        _ ←? s_log (CallSleep shard (negb force));
        answer ←? x_try (s_call (fun n => se_sleep n shard (negb force) wakeAt));
        if final && negb (is_ok answer) then x_ret (mkResult false second)
        else if negb (affirmed answer) then
          let p := set_phase sleepPhaseCompensating (refusal shard answer) p in
          let p := if final then {| p with p_accepted := p_accepted p ++ [shard] |} else p in
          cluster ←? storeProgress cluster p;
          _ ←? compensate cluster p;
          x_ret done_
        else
          _ ←? s_log (CallSlept shard);
          if final then x_ret (mkResult false (sp_reconcile_period (c_sleep cfg)))
          else
            let p := set_phase sleepPhaseSleeping "" p in
            cluster ←? storeProgress cluster p;
            sleep_shards force state finalShard rest cluster p
  end.

(** No request: make one when sleep is enabled and the guards pass. *)
Definition request_sleep (cluster : gmap string string) : X SleepSys Result :=
  if negb (sp_enabled (c_sleep cfg)) then x_ret (mkResult false (sp_reconcile_period (c_sleep cfg)))
  else
    conns ←? s_observe se_conns;
    match conns with
    | None => x_ret (mkResult false second)
    | Some connections =>
        ok ←? x_try (eligible connections);
        match ok with
        | Err _ => x_ret (mkResult false (sp_reconcile_period (c_sleep cfg)))
        | Ok _ =>
            now ←? s_observe se_now;
            _ ←? patch cluster (<[SleepRequestAnnotation := se_format_time now]> cluster);
            x_ret (mkResult true 0)
        end
    end.

(** The guards failed: undo what was accepted, or forget the request. *)
Definition refuse_sleep (cluster : gmap string string) (p : Progress) (reason : string) : X SleepSys Result :=
  if negb (bool_decide (p_accepted p = [])) then
    let p := set_phase sleepPhaseCompensating reason p in
    cluster ←? storeProgress cluster p;
    _ ←? compensate cluster p;
    x_ret done_
  else
    _ ←? reject cluster reason;
    x_ret done_.

(** The shard of the node the operator runs on, when it knows its node. *)
Definition coordinating_shard (state : Eligibility) : X SleepSys Eligibility :=
  if bool_decide (c_node_name cfg = "") then x_ret state
  else
    node ←? x_wrap "read coordinating node" (s_call (fun n => se_node n (c_node_name cfg)));
    if bool_decide (nd_zone node = "") then x_fail (ErrMsg "coordinating node has no topology zone")
    else x_ret {| state with e_shard := nd_zone node |}.

(** A request in its forward phase. *)
Definition continue_sleep (cluster : gmap string string) (force : bool) (p : Progress) : X SleepSys Result :=
  conns ←? s_observe se_conns;
  match conns with
  | None => x_ret (mkResult false second)
  | Some connections =>
      guarded ←? (if force then x_ret (Ok (mkEligibility None "")) else x_try (eligible connections));
      match guarded with
      | Err _ => refuse_sleep cluster p "not eligible"
      | Ok state =>
          state ←? coordinating_shard state;
          let shards := orderedShards connections (e_shard state) in
          sleep_shards force state (lastShard shards) shards cluster p
      end
  end.

Definition trim_force (request : string) : string :=
  if has_prefix "force:" request then text (drop 6 (chars request)) else request.

Definition Reconcile (name : string) : X SleepSys Result :=
  if negb (bool_decide (name = CAPIClusterName cfg)) then x_ret done_
  else
    o ←? getCluster;
    match o with
    | None => x_ret done_
    | Some cluster =>
        let request := default "" (cluster !! SleepRequestAnnotation) in
        if bool_decide (request = "") then request_sleep cluster
        else if negb (se_parse_time (trim_force request)) then _ ←? reject cluster "invalid sleep request"; x_ret done_
        else match decodeProgress (default "" (cluster !! SleepProgressAnnotation)) request with
        | Err _ => _ ←? reject cluster "invalid sleep progress"; x_ret done_
        | Ok p =>
            if bool_decide (p_phase p = sleepPhaseFinalizing) then restoreAfterWake cluster p
            else if bool_decide (p_phase p = sleepPhaseCompensating) then _ ←? compensate cluster p; x_ret done_
            else continue_sleep cluster (has_prefix "force:" request) p
        end
    end.

(** Reconciliations, each of which may end in an error or a death. *)
Fixpoint reconciles (names : list string) (s : SleepSys) : SleepSys :=
  match names with
  | [] => s
  | name :: rest => reconciles rest (Reconcile name s).1
  end.
End Controller.
End SleepCtl.
