(* ===== verification/SleepControllerFacts.v ===== *)
(** * Facts about the sleep controller

    [may_sleep] reads off the calls made which shards may be asleep because the
    controller asked them to; [recorded] says what the stored annotations tell a restart
    to wake.  [at_] is the state between two steps of a reconciliation: the stored
    progress is the one in memory, and accounts for the shards that may be asleep. *)

From S2P Require Import Prelude GoText Process SleepController.
Import SleepCtl.

#[local] Open Scope Z_scope.

(** ** Shards that may be asleep *)

Definition may_step (m : gset string) (e : SleepEvent) : gset string :=
  match e with
  | CallSleep sh _ => {[sh]} ∪ m
  | CallAwake sh => m ∖ {[sh]}
  | _ => m
  end.

Definition may_sleep (log : list SleepEvent) : gset string := foldl may_step ∅ log.

Lemma may_sleep_snoc log e : may_sleep (log ++ [e]) = may_step (may_sleep log) e.
Proof. unfold may_sleep. by rewrite foldl_app. Qed.

(** Events that concern no shard. *)
Definition neutral (e : SleepEvent) : Prop :=
  match e with CallSleep _ _ | CallAwake _ => False | _ => True end.

Lemma may_neutral log e : neutral e -> may_sleep (log ++ [e]) = may_sleep log.
Proof. rewrite may_sleep_snoc. by destruct e. Qed.

Section Facts.
Context {SE : SleepEnv}.
Variable cfg : Settings.
Context {SL : SleepLaws SE cfg}.

(** Nobody else writes the two annotations. *)
Definition sole_writer : Prop :=
  forall n a, se_others n a !! SleepRequestAnnotation = a !! SleepRequestAnnotation /\
              se_others n a !! SleepProgressAnnotation = a !! SleepProgressAnnotation.

Hypothesis sole : sole_writer.

(** The cache has caught up with the API server whenever a reconciliation reads it. *)
Definition fresh_reads : Prop := forall n o, se_cached n o = o.

(** What a restart finds and will wake: every configured shard when the request was
    about to be completed, else the accepted ones. *)
Definition recorded (o : option (gmap string string)) (sh : string) : Prop :=
  exists a request p, o = Some a /\ a !! SleepRequestAnnotation = Some request /\ request <> "" /\
    se_parse_time (trim_force request) = true /\ decodeProgress (default "" (a !! SleepProgressAnnotation)) request = Ok p /\
    (p_phase p = sleepPhaseFinalizing \/ sh ∈ p_accepted p).

Definition safe (s : SleepSys) : Prop :=
  forall sh, sh ∈ may_sleep (ss_log s) -> sh ∈ c_shards cfg /\ recorded (ss_cluster s) sh.

(** Both annotations as the process remembers them. *)
Definition agrees (a : gmap string string) (s : SleepSys) : Prop :=
  exists st, ss_cluster s = Some st /\ st !! SleepRequestAnnotation = a !! SleepRequestAnnotation /\
             st !! SleepProgressAnnotation = a !! SleepProgressAnnotation.

(** [U] bounds the shards that may be asleep. *)
Record at_ (request : string) (p : Progress) (a : gmap string string) (U : list string) (s : SleepSys) : Prop := mkAt {
  at_agrees : agrees a s;
  at_request : a !! SleepRequestAnnotation = Some request;
  at_valid : request <> "" /\ se_parse_time (trim_force request) = true;
  at_progress : decodeProgress (default "" (a !! SleepProgressAnnotation)) request = Ok p;
  at_may : forall sh, sh ∈ may_sleep (ss_log s) -> sh ∈ c_shards cfg /\ sh ∈ U;
}.

(** The progress accounts for [U]. *)
Definition accounts (p : Progress) (U : list string) : Prop := p_phase p = sleepPhaseFinalizing \/ U ⊆ p_accepted p.

Lemma at_safe request p a U s : accounts p U -> at_ request p a U s -> safe s.
Proof.
  intros Hacc [(st & Hst & Hq & Hp) Hr [Hne Hpt] Hd Hm] sh Hsh. destruct (Hm sh Hsh) as [Hc HU]. split; [done |].
  exists st, request, p. rewrite Hq, Hp. repeat split; auto. destruct Hacc as [| HU']; [by left | right; by apply HU'].
Qed.

(** ** Steps that change neither *)

(** Predicates that only look at the annotations and at the shards. *)
Definition stable (P : SleepSys -> Prop) : Prop :=
  (forall s n, P s -> P {| s with ss_tick := n |}) /\
  (forall s e, neutral e -> P s -> P {| s with ss_log := ss_log s ++ [e] |}).

Lemma at_stable request p a U : stable (at_ request p a U).
Proof. split; intros s *; [| intros Hn]; intros []; split; cbn; auto. by rewrite may_neutral. Qed.

Lemma safe_stable : stable safe.
Proof. split; intros s *; [| intros Hn]; intros H sh; cbn; [| rewrite may_neutral by done]; apply H. Qed.

Definition awake (s : SleepSys) : Prop := may_sleep (ss_log s) = ∅.

Lemma awake_stable : stable awake.
Proof. split; intros s *; [| intros Hn]; unfold awake; cbn; [| rewrite may_neutral by done]; done. Qed.

Lemma awake_safe s : awake s -> safe s.
Proof. intros H sh. rewrite H. set_solver. Qed.

Section Quiet.
Variable P : SleepSys -> Prop.
Hypothesis HP : stable P.

Definition quiet {A} (m : X SleepSys A) : Prop := xspec P m (fun _ => P) P.

Lemma quiet_observe {A} (f : nat -> A) : quiet (s_observe f).
Proof. intros s Hs. cbn. by apply HP. Qed.

Lemma quiet_bind {A B} (m : X SleepSys A) (f : A -> X SleepSys B) : quiet m -> (forall a, quiet (f a)) -> quiet (x_bind m f).
Proof. intros Hm Hf. eapply xspec_bind; [exact Hm | exact Hf]. Qed.

Lemma quiet_ret {A} (a : A) : quiet (x_ret a).
Proof. by apply xspec_ret. Qed.
Lemma quiet_fail {A} e : quiet (A := A) (x_fail e).
Proof. by apply xspec_fail. Qed.
Lemma quiet_die {A} : quiet (A := A) x_die.
Proof. by apply xspec_die. Qed.
Lemma quiet_res {A} (r : res A) : quiet (x_res r).
Proof. apply xspec_res. intros s Hs. by destruct r. Qed.
Lemma quiet_wrap {A} msg (m : X SleepSys A) : quiet m -> quiet (x_wrap msg m).
Proof. apply xspec_wrap. Qed.
Lemma quiet_try {A} (m : X SleepSys A) : quiet m -> quiet (x_try m).
Proof. intros Hm. eapply xspec_weaken; [apply xspec_try; exact Hm |..]; try done. by intros []. Qed.
Lemma quiet_log e : neutral e -> quiet (s_log e).
Proof. intros He. apply xspec_mod. intros s Hs. by apply HP. Qed.
Lemma quiet_call {A} (f : nat -> option (res A)) : quiet (s_call f).
Proof. apply quiet_bind; [apply quiet_observe |]. intros [r |]; [apply quiet_res | apply quiet_die]. Qed.
Lemma quiet_fold {A B} (body : B -> A -> X SleepSys B) b l : (forall b x, quiet (body b x)) -> quiet (x_fold body b l).
Proof. intros H. apply (xspec_fold (fun _ _ => P)). intros b' x l'. apply H. Qed.

(** Take a computation apart down to the calls [tac] knows. *)
Ltac quiet_steps tac :=
  repeat (intros;
    lazymatch goal with
    | |- quiet (x_bind _ _) => apply quiet_bind
    | |- quiet (x_wrap _ _) => apply quiet_wrap
    | |- quiet (x_try _) => apply quiet_try
    | |- quiet (x_fold _ _ _) => apply quiet_fold
    | |- quiet (s_observe _) => apply quiet_observe
    | |- quiet (s_call _) => apply quiet_call
    | |- quiet (s_log _) => by apply quiet_log
    | |- quiet (x_ret _) => apply quiet_ret
    | |- quiet (x_res _) => apply quiet_res
    | |- quiet (x_fail _) => apply quiet_fail
    | |- quiet x_die => apply quiet_die
    | |- quiet (match _ with _ => _ end) => case_match
    | |- quiet _ => tac
    end).

Lemma quiet_listener seen l : quiet (listener_idle cfg seen l).
Proof. unfold listener_idle. cbv zeta. quiet_steps fail. Qed.

Lemma quiet_shard seen sh : quiet (shard_idle cfg seen sh).
Proof. unfold shard_idle. quiet_steps ltac:(apply quiet_listener). Qed.

Lemma quiet_eligible conns : quiet (eligible cfg conns).
Proof. unfold eligible, jobsIdle, nextWake. quiet_steps ltac:(apply quiet_shard). Qed.

Lemma quiet_coordinating state : quiet (coordinating_shard cfg state).
Proof. unfold coordinating_shard. quiet_steps fail. Qed.

Lemma quiet_status conns acc order : quiet (x_fold (status_step conns) acc order).
Proof. apply quiet_fold. intros [] sh. unfold status_step. quiet_steps fail. Qed.
End Quiet.

(** ** Writes *)

(** What a patch of an agreeing copy leaves in the two annotations. *)
Lemma merge_agrees (a new st : gmap string string) k : st !! k = a !! k -> se_merge a new st !! k = new !! k.
Proof. intros E. rewrite (sl_merge (cfg := cfg)). case_bool_decide as E'; congruence. Qed.

Lemma others_agrees a s n : agrees a s -> agrees a {| s with ss_tick := S (ss_tick s); ss_cluster := se_others n <$> ss_cluster s |}.
Proof.
  intros (st & E & Hr & Hp). exists (se_others n st). destruct (sole n st) as [Hr' Hp']. cbn. rewrite E. by rewrite Hr', Hp'.
Qed.

(** A patch either does nothing to what is stored, or stores the new annotations; in
    both cases the caller may see an error or die. *)
Lemma patch_spec (P : SleepSys -> Prop) a new :
  (forall s n, P s -> P {| s with ss_tick := n |}) -> (forall s, P s -> agrees a s) ->
  (forall s n, P s -> P {| s with ss_cluster := se_others n <$> ss_cluster s |}) ->
  let R a' s := agrees a' s /\ a' !! SleepRequestAnnotation = new !! SleepRequestAnnotation /\
                a' !! SleepProgressAnnotation = new !! SleepProgressAnnotation /\
                exists s0, P s0 /\ ss_log s = ss_log s0 in
  xspec P (patch a new) R (fun s => P s \/ exists a', R a' s).
Proof.
  intros Ht Ha Ho R s Hs. unfold patch, s_others, s_observe, x_mod, x_get, x_bind, x_ret, x_die, x_fail, modify, gets, mbind, M_bind, mret, M_ret. cbn.
  set (n := ss_tick s). assert (P {| s with ss_tick := S n; ss_cluster := se_others n <$> ss_cluster s |}) as Hs'.
  { apply (Ht _ (S n)), (Ho _ n) in Hs. exact Hs. }
  destruct (Ha _ Hs') as (st & E & Hr & Hp). cbn in E. rewrite E in *. cbn.
  assert (HR : forall t, R (se_merge a new st) (mkSleepSys t (Some (se_merge a new st)) (ss_log s))).
  { intros t. split; [by eexists |]. split; [by apply merge_agrees |]. split; [by apply merge_agrees |]. by eexists. }
  apply (Ht _ (S (S n))) in Hs'. cbn in Hs'.
  destruct (w_applied _); destruct (w_reply _) as [[e |] |]; cbn; first [by apply HR | left; exact Hs' | right; eexists; by apply HR].
Qed.

Lemma decode_own (p : Progress) request :
  p_request p = request -> known_phase (p_phase p) = true -> (p_phase p = sleepPhaseFinalizing -> p_final p <> "") ->
  decodeProgress (se_encode p) request = Ok p.
Proof.
  intros Hr Hk Hf. unfold decodeProgress. rewrite bool_decide_eq_false_2 by apply sl_encode. cbv zeta. rewrite (sl_round_trip (cfg := cfg)).
  rewrite (bool_decide_eq_true_2 _ Hr), Hk. cbn. case_bool_decide as E; cbn; [| done]. by rewrite bool_decide_eq_false_2 by auto.
Qed.

Lemma decode_good value request p :
  decodeProgress value request = Ok p -> p_request p = request /\ known_phase (p_phase p) = true.
Proof.
  unfold decodeProgress. case_bool_decide; [by intros [= <-] |]. destruct (se_decode _ value) as [q |]; [| done].
  destruct (bool_decide (p_request q = request)) eqn:E; [| done]. apply bool_decide_eq_true in E. destruct (known_phase (p_phase q)) eqn:K; [| done].
  cbn. destruct (_ && _); [done |]. by intros [= <-].
Qed.

Lemma store_spec request p p' a U :
  accounts p U -> accounts p' U ->
  p_request p' = request -> known_phase (p_phase p') = true -> (p_phase p' = sleepPhaseFinalizing -> p_final p' <> "") ->
  xspec (at_ request p a U) (storeProgress a p') (fun a' => at_ request p' a' U) safe.
Proof.
  intros Hacc Hacc' Hr Hk Hf. set (new := <[SleepProgressAnnotation := se_encode p']> a).
  eapply xspec_weaken; [apply (patch_spec (at_ request p a U) a new) |..]; try done.
  - intros s n. apply at_stable.
  - intros s H. apply (at_agrees _ _ _ _ _ H).
  - intros s n H. destruct (others_agrees a s n (at_agrees _ _ _ _ _ H)) as (st & E & Hst). destruct H. split; try done. by exists st.
  - intros a' s (Hag & Hr' & Hp' & s0 & [] & Hlog). split; try done.
    + rewrite Hr'. unfold new. by rewrite lookup_insert_ne by done.
    + rewrite Hp'. unfold new. rewrite lookup_insert_eq. cbn. by apply decode_own.
    + by rewrite Hlog.
  - intros s [H | (a' & Hag & Hr' & Hp' & s0 & [] & Hlog)]; [by apply (at_safe request p a U) |].
    eapply (at_safe request p' a' U); [done |]. split; try done.
    + rewrite Hr'. unfold new. by rewrite lookup_insert_ne by done.
    + rewrite Hp'. unfold new. rewrite lookup_insert_eq. cbn. by apply decode_own.
    + by rewrite Hlog.
Qed.

(** With no shard asleep any write will do. *)
Lemma awake_others : xspec awake s_others (fun _ => awake) awake.
Proof. intros s Hs. exact Hs. Qed.

Lemma awake_patch a new : xspec awake (patch a new) (fun _ => awake) awake.
Proof.
  unfold patch. eapply xspec_bind; [apply awake_others |]. intros []. eapply xspec_bind; [apply (xspec_get _ (fun _ => awake)); auto |].
  intros [st |]; [| by apply xspec_fail]. eapply xspec_bind; [apply quiet_observe, awake_stable |]. intros o.
  eapply (xspec_bind _ _ _ (fun _ => awake)); [destruct (w_applied o); [by apply xspec_mod | by apply xspec_ret] |]. intros [].
  destruct (w_reply o) as [[e |] |]; [by apply xspec_fail | | by apply xspec_die]. destruct (w_applied o); [by apply xspec_ret | by apply xspec_fail].
Qed.

Lemma awake_reject a reason : xspec awake (reject a reason) (fun _ => awake) awake.
Proof. unfold reject. eapply xspec_bind; [apply awake_patch |]. intros ?. by apply quiet_log; [apply awake_stable |]. Qed.

(** ** [compensate] *)

(** The call to wake a shard takes it off the bound when the shard confirms. *)
Lemma wake_shard_spec request p a (l1 l2 : list string) sh :
  xspec (at_ request p a (l1 ++ sh :: l2)) (wake_shard sh)
        (fun woken => at_ request p a (if woken : bool then l1 ++ l2 else (l1 ++ [sh]) ++ l2)) (at_ request p a (l1 ++ sh :: l2)).
Proof.
  unfold wake_shard. eapply xspec_bind; [by apply quiet_log; [apply at_stable |] |]. intros [].
  eapply xspec_bind; [apply quiet_try, quiet_call, at_stable |].
  assert (Hkeep : forall s, at_ request p a (l1 ++ sh :: l2) s -> at_ request p a ((l1 ++ [sh]) ++ l2) s) by (intros s; by rewrite <- app_assoc).
  intros [[] | e]; try by apply xspec_ret.
  eapply (xspec_bind _ _ _ (fun _ => at_ request p a (l1 ++ l2))); [| intros []; by apply xspec_ret].
  apply xspec_mod. intros s []. split; cbn; try done. intros sh' Hsh. rewrite may_sleep_snoc in Hsh. cbn in Hsh.
  apply elem_of_difference in Hsh as [Hm Hne]. destruct (at_may0 sh' Hm) as [Hc HU]. split; [done |]. set_solver.
Qed.

Lemma wake_fold_spec request p a conns l remaining :
  accounts p (remaining ++ l) ->
  xspec (at_ request p a (remaining ++ l)) (x_fold (wake_step conns) remaining l)
        (fun r s => at_ request p a r s /\ r ⊆ remaining ++ l) safe.
Proof.
  revert remaining. induction l as [| sh l IH]; intros remaining Hacc; cbn [x_fold].
  { apply xspec_ret. intros s. by rewrite app_nil_r. }
  eapply (xspec_bind _ _ _ (fun r s => at_ request p a (r ++ l) s /\ (r = remaining \/ r = remaining ++ [sh]))).
  - unfold wake_step. case_bool_decide.
    + eapply xspec_bind; [eapply xspec_weaken; [apply wake_shard_spec |..]; try done |].
      { intros s. by apply at_safe. }
      intros woken. apply xspec_ret. intros s Hs. destruct woken; auto.
    + apply xspec_ret. intros s Hs. rewrite <- app_assoc. auto.
  - intros r s [Hs Hr]. assert (r ++ l ⊆ remaining ++ sh :: l) as Hsub by (destruct Hr as [-> | ->]; set_solver).
    assert (accounts p (r ++ l)) as Hacc'. { destruct Hacc as [| HU]; [by left | right]. by etransitivity. }
    specialize (IH r Hacc' s Hs). destruct (x_fold _ r l s) as [s' [[r' | e] |]]; [| done | done].
    destruct IH as [HI HU]. split; [done |]. by etransitivity.
Qed.

Lemma compensate_spec request p a :
  p_request p = request -> p_phase p = sleepPhaseCompensating -> xspec (at_ request p a (p_accepted p)) (compensate a p) (fun _ => safe) safe.
Proof.
  intros Hr Hph. unfold compensate.
  eapply xspec_bind; [eapply xspec_weaken; [apply quiet_observe, at_stable |..]; try done |].
  { intros s Hs. eapply at_safe; [| exact Hs]. by right. }
  intros conns. eapply xspec_bind; [apply (wake_fold_spec request p a _ (p_accepted p) []); by right |].
  intros remaining. cbn [app]. case_bool_decide as E; cbn [negb].
  - subst. eapply (xspec_bind _ _ _ (fun _ => awake)).
    + eapply xspec_weaken; [apply awake_patch |..]; try done; [| apply awake_safe].
      intros s [Hs _]. apply set_eq. intros sh. split; [| set_solver]. intros Hsh. destruct (at_may _ _ _ _ _ Hs sh Hsh). set_solver.
    + intros _. case_bool_decide; [apply xspec_ret, awake_safe |].
      eapply xspec_weaken; [by apply quiet_log; [apply awake_stable |] |..]; try done; intros; by apply awake_safe.
  - intros s [Hs HU]. revert s Hs. eapply xspec_bind; [apply (store_spec request p {| p with p_accepted := remaining |} a remaining) |].
    + right. done.
    + by right.
    + done.
    + cbn. by rewrite Hph.
    + cbn. by rewrite Hph.
    + intros a'. apply xspec_fail. intros s Hs. eapply at_safe; [| exact Hs]. by right.
Qed.

(** ** The forward phase *)

Lemma sleep_call_at request p a U sh b s :
  at_ request p a U s -> sh ∈ c_shards cfg -> at_ request p a (U ++ [sh]) {| s with ss_log := ss_log s ++ [CallSleep sh b] |}.
Proof.
  intros [] Hc. split; cbn; try done. intros sh'. rewrite may_sleep_snoc. cbn. intros [->%elem_of_singleton | Hm]%elem_of_union; [set_solver |].
  destruct (at_may0 sh' Hm). set_solver.
Qed.

Lemma sleep_shards_spec force state final shards request :
  Forall (fun sh => sh ∈ c_shards cfg) shards -> forall a p,
  p_phase p = sleepPhaseSleeping -> p_request p = request ->
  xspec (at_ request p a (p_accepted p)) (sleep_shards cfg force state final shards a p) (fun _ => safe) safe.
Proof.
  intros Hin. induction shards as [| sh shards IH]; intros a p Hph Hr; cbn [sleep_shards].
  { apply xspec_ret. intros s Hs. eapply at_safe; [| exact Hs]. by right. }
  apply Forall_cons in Hin as [Hsh Hin]. specialize (IH Hin). case_bool_decide as Hacc; [by apply IH |]. cbv zeta.
  set (p1 := announce final sh p).
  assert (Hr1 : p_request p1 = request) by (unfold p1, announce; by case_bool_decide).
  assert (Hne : sh <> "") by (intros ->; by apply sl_names in Hsh).
  assert (Ha1 : accounts p1 (p_accepted p ++ [sh])) by (unfold p1, announce; case_bool_decide; [by left | by right]).
  eapply xspec_bind; [apply (store_spec request p p1 a (p_accepted p)) |].
  { by right. }
  { destruct Ha1 as [| HU]; [by left | right; set_solver]. }
  { done. }
  { unfold p1, announce. by case_bool_decide. }
  { unfold p1, announce. by case_bool_decide. }
  intros a1. eapply (xspec_bind _ _ _ (fun _ => at_ request p1 a1 (p_accepted p ++ [sh]))).
  { apply xspec_mod. intros s Hs. by apply sleep_call_at. }
  intros []. assert (Hsafe : forall s, at_ request p1 a1 (p_accepted p ++ [sh]) s -> safe s) by (intros s; by apply at_safe).
  eapply xspec_bind; [eapply xspec_weaken; [apply quiet_try, quiet_call, at_stable | ..]; done |].
  intros answer. destruct (bool_decide (sh = final) && _) eqn:Hfin; [by apply xspec_ret |].
  destruct (negb (affirmed answer)) eqn:Haff.
  - set (p2 := if bool_decide (sh = final) then _ else _).
    assert (Hp2 : p_request p2 = request /\ p_phase p2 = sleepPhaseCompensating /\ p_accepted p2 = p_accepted p ++ [sh]).
    { unfold p2, p1, set_phase, announce in *. case_bool_decide; cbn; auto. }
    destruct Hp2 as (Hr2 & Hph2 & Hacc2).
    eapply xspec_bind; [apply (store_spec request p1 p2 a1 (p_accepted p ++ [sh])); try done |].
    + right. by rewrite Hacc2.
    + by rewrite Hph2.
    + by rewrite Hph2.
    + intros a2. eapply xspec_bind; [rewrite <- Hacc2; by apply compensate_spec |]. intros []. by apply xspec_ret.
  - eapply xspec_bind; [eapply xspec_weaken; [by apply quiet_log; [apply at_stable |] | ..]; done |].
    intros []. case_bool_decide as Ef; [by apply xspec_ret |].
    assert (p_accepted p1 = p_accepted p ++ [sh]) as Hp1 by (unfold p1, announce; by rewrite bool_decide_eq_false_2).
    set (p3 := set_phase sleepPhaseSleeping "" p1). eapply xspec_bind; [apply (store_spec request p1 p3 a1 (p_accepted p ++ [sh])); try done |].
    + right. unfold p3, set_phase. cbn. by rewrite Hp1.
    + intros a3. rewrite <- Hp1. by apply (IH a3 p3).
Qed.

Lemma at_awake request p a s : at_ request p a [] s -> awake s.
Proof. intros [? ? ? ? Hm]. apply set_eq. intros sh. split; [| set_solver]. intros Hsh. destruct (Hm sh Hsh). set_solver. Qed.

Lemma refuse_sleep_spec request p a reason :
  p_phase p = sleepPhaseSleeping -> p_request p = request ->
  xspec (at_ request p a (p_accepted p)) (refuse_sleep a p reason) (fun _ => safe) safe.
Proof.
  intros Hph Hr. unfold refuse_sleep. case_bool_decide as E; cbn [negb].
  - rewrite E. eapply (xspec_bind _ _ _ (fun _ => awake)); [eapply xspec_weaken; [apply awake_reject |..] |]; try done.
    + apply at_awake.
    + apply awake_safe.
    + intros []. apply xspec_ret, awake_safe.
  - set (p' := set_phase sleepPhaseCompensating reason p).
    eapply xspec_bind; [apply (store_spec request p p' a (p_accepted p)); try done; by right |].
    intros a'. eapply xspec_bind; [by apply (compensate_spec request p' a') |]. intros []. by apply xspec_ret.
Qed.

Lemma ordered_in conns c : conns ⊆ c_shards cfg -> Forall (fun sh => sh ∈ c_shards cfg) (orderedShards conns c).
Proof.
  intros Hsub. apply Forall_forall. unfold orderedShards. intros sh [Hsh | Hsh]%elem_of_app.
  - rewrite merge_sort_Permutation in Hsh. apply elem_of_elements in Hsh. set_solver.
  - case_bool_decide; [| set_solver]. apply list_elem_of_singleton in Hsh as ->. set_solver.
Qed.

(** What the provider of connections returns, remembered. *)
Lemma conns_spec (P : SleepSys -> Prop) :
  stable P -> xspec P (s_observe se_conns) (fun o s => P s /\ match o with Some c => c ⊆ c_shards cfg | None => True end) P.
Proof.
  intros HP s Hs. cbn. split; [by apply HP |]. destruct (se_conns (ss_tick s)) as [c |] eqn:E; [| done]. by eapply sl_conns.
Qed.

Lemma continue_sleep_spec force request p a :
  p_phase p = sleepPhaseSleeping -> p_request p = request ->
  xspec (at_ request p a (p_accepted p)) (continue_sleep cfg a force p) (fun _ => safe) safe.
Proof.
  intros Hph Hr. unfold continue_sleep.
  assert (Hsafe : forall s, at_ request p a (p_accepted p) s -> safe s) by (intros s Hs; eapply at_safe; [| exact Hs]; by right).
  eapply xspec_bind; [eapply xspec_weaken; [apply conns_spec, at_stable |..]; done |].
  intros [conns |]; [| apply xspec_ret; intros s [Hs _]; auto].
  intros s [Hs Hsub]. revert s Hs.
  eapply (xspec_bind _ _ _ (fun _ => at_ request p a (p_accepted p))).
  { destruct force; [by apply xspec_ret |]. eapply xspec_weaken; [apply quiet_try, quiet_eligible, at_stable |..]; done. }
  intros [state | e]; [| by apply refuse_sleep_spec].
  eapply xspec_bind; [eapply xspec_weaken; [apply quiet_coordinating, at_stable |..]; done |].
  intros state'. cbv zeta. apply sleep_shards_spec; [by apply ordered_in | done | done].
Qed.

Lemma restore_spec request p a :
  p_phase p = sleepPhaseFinalizing -> p_request p = request ->
  xspec (at_ request p a (elements (c_shards cfg))) (restoreAfterWake cfg a p) (fun _ => safe) safe.
Proof.
  intros Hph Hr. unfold restoreAfterWake. set (U := elements (c_shards cfg)).
  assert (Hsafe : forall s, at_ request p a U s -> safe s) by (intros s Hs; eapply at_safe; [| exact Hs]; by left).
  eapply xspec_bind; [eapply xspec_weaken; [apply quiet_observe, at_stable |..]; done |].
  intros [conns |]; [| by apply xspec_ret].
  eapply xspec_bind; [eapply xspec_weaken; [apply quiet_observe, at_stable |..]; done |]. intros order.
  eapply xspec_bind; [eapply xspec_weaken; [apply quiet_status, at_stable |..]; done |]. intros [all missing]. cbn [fst snd].
  destruct all; [by apply xspec_ret |].
  set (p' := mkProgress _ _ _ _ _).
  assert (Hacc : U ⊆ p_accepted p') by (intros sh Hsh; cbn; by rewrite merge_sort_Permutation).
  eapply xspec_bind; [apply (store_spec request p p' a U); try done; [by left | by right] |].
  intros a'. eapply xspec_bind; [eapply xspec_weaken; [apply (compensate_spec request p' a') |..]; try done |]; [| intros []; by apply xspec_ret].
  intros s []. split; try done. intros sh Hsh. destruct (at_may0 sh Hsh) as [Hc HU]. split; [done | by apply Hacc].
Qed.

Lemma request_spec a : xspec awake (request_sleep cfg a) (fun _ => safe) safe.
Proof.
  unfold request_sleep. destruct (sp_enabled _); [| apply xspec_ret, awake_safe]. cbn [negb].
  eapply xspec_weaken; [| done | intros r s Hs; apply awake_safe, Hs | apply awake_safe].
  eapply xspec_bind; [apply quiet_observe, awake_stable |]. intros [conns |]; [| by apply xspec_ret].
  eapply xspec_bind; [apply quiet_try, quiet_eligible, awake_stable |]. intros [e |]; [| by apply xspec_ret].
  eapply xspec_bind; [apply quiet_observe, awake_stable |]. intros now.
  eapply xspec_bind; [apply awake_patch |]. intros ?. by apply xspec_ret.
Qed.

(** ** [Reconcile] *)

Lemma recorded_others o sh n : recorded o sh -> recorded (se_others n <$> o) sh.
Proof.
  intros (a & request & p & -> & Hr & Hne & Hpt & Hd & Hc). exists (se_others n a), request, p. destruct (sole n a) as [-> ->]. auto 10.
Qed.

Hypothesis fresh : fresh_reads.

Lemma get_cluster_spec : xspec safe getCluster (fun o s => ss_cluster s = o /\ safe s) safe.
Proof.
  intros s Hs. unfold getCluster, s_others, s_observe, x_mod, x_get, x_bind, x_ret, x_die, x_fail, modify, gets, mbind, M_bind, mret, M_ret. cbn.
  assert (forall t, safe (mkSleepSys t (se_others (ss_tick s) <$> ss_cluster s) (ss_log s))) as H.
  { intros t sh Hsh. destruct (Hs sh Hsh) as [Hc Hrec]. split; [done |]. by apply recorded_others. }
  destruct (se_read _) as [[e |] |]; cbn; auto.
Qed.

(** Without a valid request and progress, nothing is asleep. *)
Lemma unrecorded_awake s : safe s -> (forall sh, ~ recorded (ss_cluster s) sh) -> awake s.
Proof. intros Hs Hn. apply set_eq. intros sh. split; [| set_solver]. intros Hsh. by destruct (Hs sh Hsh) as [_ []%Hn]. Qed.

Lemma safe_at s a request p :
  safe s -> ss_cluster s = Some a -> default "" (a !! SleepRequestAnnotation) = request -> request <> "" ->
  se_parse_time (trim_force request) = true -> decodeProgress (default "" (a !! SleepProgressAnnotation)) request = Ok p ->
  at_ request p a (if bool_decide (p_phase p = sleepPhaseFinalizing) then elements (c_shards cfg) else p_accepted p) s.
Proof.
  intros Hs Ha Hq Hne Hpt Hd.
  assert (Hreq : a !! SleepRequestAnnotation = Some request) by (destruct (a !! SleepRequestAnnotation); cbn in Hq; congruence).
  split; [by exists a | done | done | done |]. intros sh Hsh. destruct (Hs sh Hsh) as [Hc (a' & q' & p' & Ha' & Hq' & _ & _ & Hd' & Hor)].
  rewrite Ha in Ha'. injection Ha' as <-. rewrite Hreq in Hq'. injection Hq' as <-. rewrite Hd in Hd'. injection Hd' as <-.
  split; [done |]. case_bool_decide; [by apply elem_of_elements | tauto].
Qed.

Lemma reconcile_spec name : xspec safe (Reconcile cfg name) (fun _ => safe) safe.
Proof.
  unfold Reconcile. case_bool_decide; cbn [negb]; [| by apply xspec_ret].
  eapply xspec_bind; [apply get_cluster_spec |]. intros [a |]; [| apply xspec_ret; by intros s []].
  intros s [Ha Hs]. set (request := default "" (a !! SleepRequestAnnotation)).
  case_bool_decide as Hq.
  { apply (request_spec a). apply unrecorded_awake; [done |]. intros sh (a' & q & p & Ha' & Hq' & Hne & _).
    rewrite Ha in Ha'. injection Ha' as <-. unfold request in Hq. rewrite Hq' in Hq. by cbn in Hq. }
  assert (Hrej : forall reason, awake s -> match x_bind (reject a reason) (fun _ => x_ret done_) s with (s', _) => safe s' end).
  { intros reason Hw. assert (xspec awake (x_bind (reject a reason) (fun _ => x_ret done_)) (fun _ => awake) awake) as Hx.
    { eapply xspec_bind; [apply awake_reject |]. intros []. by apply xspec_ret. }
    specialize (Hx s Hw). destruct (x_bind _ _ s) as [s' [[] |]]; by apply awake_safe. }
  assert (Hrun : forall reason, awake s -> match x_bind (reject a reason) (fun _ => x_ret done_) s with (s', Some (Ok _)) => safe s' | (s', _) => safe s' end).
  { intros reason Hw. specialize (Hrej reason Hw). by destruct (x_bind _ _ s) as [s' [[] |]]. }
  assert (Hreq : forall q, a !! SleepRequestAnnotation = Some q -> q = request) by (unfold request; by intros q ->).
  destruct (se_parse_time (trim_force request)) eqn:Hpt; cbn [negb].
  2:{ apply Hrun, unrecorded_awake; [done |]. intros sh (a' & q & p & Ha' & Hq' & _ & Hpt' & _).
      rewrite Ha in Ha'. injection Ha' as <-. apply Hreq in Hq' as ->. congruence. }
  destruct (decodeProgress _ request) as [p | e] eqn:Hd.
  2:{ apply Hrun, unrecorded_awake; [done |]. intros sh (a' & q & p & Ha' & Hq' & _ & _ & Hd' & _).
      rewrite Ha in Ha'. injection Ha' as <-. apply Hreq in Hq' as ->. congruence. }
  pose proof (safe_at s a request p Hs Ha eq_refl Hq Hpt Hd) as Hat.
  destruct (decode_good _ _ _ Hd) as [Hr Hk]. clear Hrej Hrun. destruct (decide (p_phase p = sleepPhaseFinalizing)) as [Hfin | Hfin].
  { rewrite (bool_decide_eq_true_2 _ Hfin) in Hat |- *. by apply (restore_spec request p a). }
  unfold known_phase in Hk. rewrite (bool_decide_eq_false_2 _ Hfin) in Hat |- *.
  destruct (decide (p_phase p = sleepPhaseCompensating)) as [Hcomp | Hcomp].
  - rewrite (bool_decide_eq_true_2 _ Hcomp). clear Ha Hs. revert s Hat.
    eapply xspec_bind; [by apply (compensate_spec request p a) |]. intros []. by apply xspec_ret.
  - rewrite (bool_decide_eq_false_2 _ Hcomp). apply (continue_sleep_spec _ request p a); [| done | done].
    rewrite (bool_decide_eq_false_2 _ Hfin), (bool_decide_eq_false_2 _ Hcomp), !orb_false_r in Hk. by apply bool_decide_eq_true in Hk.
Qed.

Lemma reconciles_safe names s : safe s -> safe (reconciles cfg names s).
Proof.
  revert s. induction names as [| n names IH]; intros s Hs; [done |]. apply IH. pose proof (reconcile_spec n s Hs) as H.
  by destruct (Reconcile cfg n s) as [s' [[] |]].
Qed.
End Facts.
