(* ===== verification/SleepControllerSafety.v ===== *)
(** * What the sleep controller guarantees

    The claims about [SleepController.v]: shards that may be asleep are recorded, a
    recorded undo completes, a normal sleep is guarded, and what an edited request
    does.  [emits] is a second, independent account of a reconciliation: which events
    it appends. *)

From S2P Require Import Prelude GoText Process SleepController SleepControllerFacts.
From Stdlib Require Import Ascii.
Import SleepCtl.

#[local] Open Scope Z_scope.

(** ** Events appended *)

Section Emits.
Context {SE : SleepEnv}.
Variable cfg : Settings.
Variable allowed : SleepEvent -> Prop.

(** Whatever the outcome, only events that are [allowed] are appended. *)
Definition emits {A} (m : X SleepSys A) : Prop :=
  forall s, exists evs, ss_log (m s).1 = ss_log s ++ evs /\ Forall allowed evs.

Lemma sleep_emits_bind {A B} (m : X SleepSys A) (f : A -> X SleepSys B) : emits m -> (forall a, emits (f a)) -> emits (x_bind m f).
Proof.
  intros Hm Hf s. destruct (Hm s) as (e1 & H1 & F1). unfold x_bind, mbind, M_bind. destruct (m s) as [s1 [[a | e] |]]; cbn in H1 |- *.
  - destruct (Hf a s1) as (e2 & H2 & F2). exists (e1 ++ e2). rewrite H2, H1, app_assoc. split; [done | by apply Forall_app].
  - by exists e1.
  - by exists e1.
Qed.

Lemma emits_same {A} (m : X SleepSys A) : (forall s, ss_log (m s).1 = ss_log s) -> emits m.
Proof. intros H s. exists []. by rewrite app_nil_r, H. Qed.

Lemma emits_log e : allowed e -> emits (s_log e).
Proof. intros He s. exists [e]. split; [done |]. by constructor. Qed.

Lemma emits_wrap {A} msg (m : X SleepSys A) : emits m -> emits (x_wrap msg m).
Proof. intros Hm s. destruct (Hm s) as (e & H & F). exists e. unfold x_wrap, mbind, M_bind. by destruct (m s) as [s1 [[a | x] |]]. Qed.

Lemma emits_try {A} (m : X SleepSys A) : emits m -> emits (x_try m).
Proof. intros Hm s. destruct (Hm s) as (e & H & F). exists e. unfold x_try, mbind, M_bind. by destruct (m s) as [s1 [[a | x] |]]. Qed.

Lemma emits_observe {A} (f : nat -> A) : emits (s_observe f).
Proof. by apply emits_same. Qed.

Lemma sleep_emits_call {A} (f : nat -> option (res A)) : emits (s_call f).
Proof. apply sleep_emits_bind; [apply emits_observe |]. intros [r |]; by apply emits_same. Qed.

Lemma emits_fold {A B} (body : B -> A -> X SleepSys B) b l : (forall b x, emits (body b x)) -> emits (x_fold body b l).
Proof. intros H. revert b. induction l as [| x l IH]; intros b; cbn [x_fold]; [by apply emits_same |]. apply sleep_emits_bind; [apply H | done]. Qed.

Lemma emits_others : emits s_others.
Proof. by apply emits_same. Qed.

Ltac emits_steps tac :=
  repeat (intros;
    lazymatch goal with
    | |- emits (x_bind _ _) => apply sleep_emits_bind
    | |- emits (x_wrap _ _) => apply emits_wrap
    | |- emits (x_try _) => apply emits_try
    | |- emits (x_fold _ _ _) => apply emits_fold
    | |- emits (s_observe _) => apply emits_observe
    | |- emits (s_call _) => apply sleep_emits_call
    | |- emits s_others => apply emits_others
    | |- emits (x_mod _) => by apply emits_same
    | |- emits (x_get _) => by apply emits_same
    | |- emits (x_ret _) => by apply emits_same
    | |- emits (x_res _) => by apply emits_same
    | |- emits (x_fail _) => by apply emits_same
    | |- emits x_die => by apply emits_same
    | |- emits (match _ with _ => _ end) => case_match
    | |- emits _ => tac
    end).

Lemma emits_patch a b : emits (patch a b).
Proof. unfold patch. emits_steps fail. Qed.

Hypothesis allow_wake : forall sh, allowed (CallWake sh) /\ allowed (CallAwake sh).
Hypothesis allow_reject : forall r, allowed (CallRejected r).

Lemma emits_reject a r : emits (reject a r).
Proof. unfold reject, finish. emits_steps ltac:(first [apply emits_patch | by apply emits_log]). Qed.

Lemma emits_compensate a p : emits (compensate a p).
Proof.
  unfold compensate, finish, storeProgress, wake_step, wake_shard.
  emits_steps ltac:(first [apply emits_patch | apply emits_log; first [done | by apply allow_wake]]).
Qed.

Lemma emits_restore a p : emits (restoreAfterWake cfg a p).
Proof.
  unfold restoreAfterWake, storeProgress, status_step. cbv zeta. emits_steps ltac:(first [apply emits_patch | apply emits_compensate]).
Qed.

Hypothesis allow_slept : forall sh, allowed (CallSlept sh).

Lemma emits_sleep_shards force state final shards a p :
  (forall sh, allowed (CallSleep sh (negb force))) -> emits (sleep_shards cfg force state final shards a p).
Proof.
  intros Hs. revert a p. induction shards as [| sh shards IH]; intros a p; cbn [sleep_shards]; unfold storeProgress; cbv zeta;
    emits_steps ltac:(first [apply emits_patch | apply emits_compensate | apply emits_log; done | apply IH]).
Qed.

Lemma emits_refuse a p r : emits (refuse_sleep a p r).
Proof.
  unfold refuse_sleep, storeProgress. cbv zeta. emits_steps ltac:(first [apply emits_patch | apply emits_compensate | apply emits_reject]).
Qed.

Hypothesis allow_eligible : allowed CallEligible.

Lemma emits_eligible conns : emits (eligible cfg conns).
Proof.
  unfold eligible, jobsIdle, nextWake, shard_idle, listener_idle. cbv zeta. emits_steps ltac:(by apply emits_log).
Qed.

Lemma emits_request a : emits (request_sleep cfg a).
Proof. unfold request_sleep. emits_steps ltac:(first [apply emits_patch | apply emits_eligible]). Qed.
End Emits.

(** ** The guards of a normal sleep *)

Definition no_sleep (e : SleepEvent) : Prop := match e with CallSleep _ _ => False | _ => True end.
Definition polite (e : SleepEvent) : Prop := match e with CallSleep _ b => b = true | _ => True end.

(** Events in which every shard is asked politely, and after the guards passed. *)
Definition guarded (evs : list SleepEvent) : Prop :=
  forall l1 sh b l2, evs = l1 ++ CallSleep sh b :: l2 -> b = true /\ CallEligible ∈ l1.

Lemma guarded_none evs : Forall no_sleep evs -> guarded evs.
Proof. intros F l1 sh b l2 ->. apply Forall_app in F as [_ F]. by inversion F. Qed.

Lemma sleep_guarded_app e1 e2 : Forall no_sleep e1 -> CallEligible ∈ e1 -> Forall polite e2 -> guarded (e1 ++ e2).
Proof.
  intros F1 Hin F2 l1 sh b l2 E. apply app_eq_inv in E as [(k & -> & E) | (k & -> & E)].
  - destruct k as [| x k]; cbn in E.
    + rewrite app_nil_r in *. subst e2. split; [| done]. by inversion F2.
    + injection E as <- _. apply Forall_app in F1 as [_ F1]. by inversion F1.
  - split; [| set_solver]. subst e2. apply Forall_app in F2 as [_ F2]. by inversion F2.
Qed.

Section Guards.
Context {SE : SleepEnv}.
Variable cfg : Settings.

(** [eligible] succeeds only when it says so. *)
Lemma eligible_said conns s s' state :
  eligible cfg conns s = (s', Some (Ok state)) ->
  exists evs, ss_log s' = ss_log s ++ evs /\ Forall no_sleep evs /\ CallEligible ∈ evs.
Proof.
  intros H. destruct (emits_eligible cfg no_sleep Logic.I conns s) as (evs & Hl & F). rewrite H in Hl. cbn in Hl. exists evs. split; [done |]. split; [done |].
  set (said := fun s1 : SleepSys => exists evs, ss_log s1 = ss_log s ++ evs /\ CallEligible ∈ evs).
  assert (xspec (fun s1 => exists evs, ss_log s1 = ss_log s ++ evs) (eligible cfg conns) (fun _ => said) (fun _ => True)) as Hx.
  { set (P := fun s1 : SleepSys => exists evs, ss_log s1 = ss_log s ++ evs).
    assert (HP : stable P). { split; [intros s1 n; exact id |]. intros s1 e _ [ev E]. exists (ev ++ [e]). cbn. by rewrite E, app_assoc. }
    assert (Hq : forall A (m : X SleepSys A), quiet P m -> xspec P m (fun _ => P) (fun _ => True)).
    { intros A m Hm. eapply xspec_weaken; [exact Hm |..]; done. }
    unfold eligible. repeat (first
      [ eapply (xspec_bind _ (s_log CallEligible)); [apply (xspec_mod _ (fun _ => said)); intros s1 [ev E]; exists (ev ++ [CallEligible]); cbn; rewrite E, app_assoc; split; [done | set_solver] |]; intros []
      | eapply xspec_bind; [apply Hq | intros ?] ]);
      try first [apply quiet_call | apply quiet_res | apply quiet_observe]; try done.
    - unfold jobsIdle. apply quiet_bind; [by apply quiet_call |]. intros ?. apply quiet_bind; [by apply quiet_call |]. intros ?. apply quiet_res.
    - apply quiet_fold. intros ? ?. by apply quiet_shard.
    - unfold nextWake. apply quiet_bind; [by apply quiet_call |]. intros ?. apply quiet_bind; [by apply quiet_observe |]. intros ?. apply quiet_res.
    - case_match; [by apply xspec_die | by apply xspec_ret]. }
  specialize (Hx s (ex_intro _ [] (eq_sym (app_nil_r _)))). rewrite H in Hx. destruct Hx as (ev & E & Hin). rewrite E in Hl. by apply app_inv_head in Hl as ->.
Qed.

Lemma emits_none {A} (m : X SleepSys A) s : emits no_sleep m -> exists evs, ss_log (m s).1 = ss_log s ++ evs /\ guarded evs.
Proof. intros H. destruct (H s) as (evs & E & F). exists evs. split; [done | by apply guarded_none]. Qed.

Lemma continue_guarded a p s : exists evs, ss_log (continue_sleep cfg a false p s).1 = ss_log s ++ evs /\ guarded evs.
Proof.
  unfold continue_sleep. set (n := ss_tick s). rewrite x_bind_eq. cbn [s_observe].
  change (s_observe se_conns s) with ({| s with ss_tick := S n |}, Some (Ok (se_conns n))). cbn beta iota.
  destruct (se_conns n) as [conns |]; [| exists []; rewrite app_nil_r; split; [done | by apply guarded_none]]. set (s1 := {| s with ss_tick := S n |}).
  change (ss_log s) with (ss_log s1). generalize s1. clear s s1 n. intros s.
  rewrite x_bind_eq, x_try_eq. destruct (eligible cfg conns s) as [s1 [[state | e] |]] eqn:E; cbn beta iota.
  - destruct (eligible_said conns s s1 state E) as (e1 & H1 & F1 & Hin).
    assert (emits polite (x_bind (coordinating_shard cfg state) (fun state =>
      let shards := orderedShards conns (e_shard state) in sleep_shards cfg false state (lastShard shards) shards a p))) as He.
    { apply sleep_emits_bind.
      - unfold coordinating_shard. case_match; [by apply emits_same |]. apply sleep_emits_bind; [apply emits_wrap, sleep_emits_call |]. intros nd. case_match; by apply emits_same.
      - intros st. by apply emits_sleep_shards. }
    destruct (He s1) as (e2 & H2 & F2). exists (e1 ++ e2). rewrite app_assoc, <- H1. split; [exact H2 | by apply sleep_guarded_app].
  - destruct (emits_eligible cfg no_sleep Logic.I conns s) as (e1 & H1 & F1). rewrite E in H1. cbn in H1.
    destruct (emits_refuse no_sleep ltac:(done) ltac:(done) a p "not eligible" s1) as (e2 & H2 & F2).
    exists (e1 ++ e2). rewrite app_assoc, <- H1. split; [exact H2 |]. apply guarded_none. by apply Forall_app.
  - destruct (emits_eligible cfg no_sleep Logic.I conns s) as (e1 & H1 & F1). rewrite E in H1. exists e1. split; [done | by apply guarded_none].
Qed.

Lemma get_cluster_log s s1 o : getCluster s = (s1, o) -> ss_log s1 = ss_log s.
Proof.
  intros H. assert (ss_log (getCluster s).1 = ss_log s) as E; [| by rewrite H in E].
  unfold getCluster, s_others, s_observe, x_mod, x_get, x_bind, x_ret, x_die, x_fail, modify, gets, mbind, M_bind, mret, M_ret. cbn.
  by destruct (se_read _) as [[e |] |].
Qed.

Lemma get_cluster_stored s s1 o : fresh_reads -> getCluster s = (s1, Some (Ok o)) -> o = ss_cluster s1 /\ exists n, o = se_others n <$> ss_cluster s.
Proof.
  intros Hfresh. unfold getCluster, s_others, s_observe, x_mod, x_get, x_bind, x_ret, x_die, x_fail, modify, gets, mbind, M_bind, mret, M_ret. cbn.
  destruct (se_read _) as [[e |] |]; try done. cbn. rewrite Hfresh. intros [= <- <-]. split; [done |]. by eexists.
Qed.

Lemma reconcile_guarded name s a request :
  sole_writer -> fresh_reads -> ss_cluster s = Some a -> a !! SleepRequestAnnotation = Some request -> has_prefix "force:" request = false ->
  exists evs, ss_log (Reconcile cfg name s).1 = ss_log s ++ evs /\ guarded evs.
Proof.
  intros Hsole Hfresh Ha Hr Hf. unfold Reconcile. case_bool_decide; cbn [negb]; [| exists []; rewrite app_nil_r; split; [done | by apply guarded_none]].
  rewrite x_bind_eq. destruct (getCluster s) as [s1 o] eqn:E. rewrite <- (get_cluster_log _ _ _ E).
  destruct o as [[o | e] |]; [| by exists []; rewrite app_nil_r; split; [done | apply guarded_none; constructor] | by exists []; rewrite app_nil_r; split; [done | apply guarded_none; constructor]].
  apply get_cluster_stored in E as [_ [n En]]; [| done]. rewrite Ha in En. cbn in En. subst o.
  assert (Hr' : se_others n a !! SleepRequestAnnotation = Some request) by (by rewrite (proj1 (Hsole n a))). rewrite Hr'. cbn.
  case_bool_decide; [by apply emits_none, emits_request |].
  case_match; [apply emits_none, sleep_emits_bind; [by apply emits_reject | intros; by apply emits_same] |].
  case_match; [| apply emits_none, sleep_emits_bind; [by apply emits_reject | intros; by apply emits_same]].
  case_bool_decide; [by apply emits_none, emits_restore |].
  case_bool_decide; [apply emits_none, sleep_emits_bind; [by apply emits_compensate | intros; by apply emits_same] |].
  rewrite Hf. apply continue_guarded.
Qed.
End Guards.

(** ** A quiet world *)

(** Every call is answered, from a cache that has caught up, writes are applied, nobody
    else writes. *)
Class Calm (SE : SleepEnv) (conns : gset string) : Prop := mkCalm {
  calm_read : forall n, se_read n = None;
  calm_cached : fresh_reads;
  calm_patch : forall n, se_patch n = mkOutcome true (Some None);
  calm_others : forall n a, se_others n a = a;
  calm_merge : forall b n s k, se_merge b n s !! k = if bool_decide (b !! k = n !! k) then s !! k else n !! k;
  calm_conns : forall n, se_conns n = Some conns;
  calm_wake : forall n sh, sh ∈ conns -> se_wake n sh = Some (Ok StatusAwake);
}.

Section Calm.
Context {SE : SleepEnv} {conns : gset string} {CE : Calm SE conns}.
Variable cfg : Settings.

Lemma calm_fmap n (o : option (gmap string string)) : se_others n <$> o = o.
Proof. destruct o; cbn; [by rewrite calm_others | done]. Qed.

Lemma calm_get s : exists t, getCluster s = (mkSleepSys t (ss_cluster s) (ss_log s), Some (Ok (ss_cluster s))).
Proof.
  unfold getCluster, s_others, s_observe, x_mod, x_get, x_bind, x_ret, x_die, x_fail, modify, gets, mbind, M_bind, mret, M_ret. cbn.
  rewrite calm_read. cbn. rewrite calm_cached, calm_fmap. by eexists.
Qed.

Lemma merge_self (a new : gmap string string) : se_merge a new a = new.
Proof. apply map_eq. intros k. rewrite calm_merge. by case_bool_decide. Qed.

Lemma calm_patch_run s a new : ss_cluster s = Some a -> exists t, patch a new s = (mkSleepSys t (Some new) (ss_log s), Some (Ok new)).
Proof.
  intros E. unfold patch, s_others, s_observe, x_mod, x_get, x_bind, x_ret, x_die, x_fail, modify, gets, mbind, M_bind, mret, M_ret. cbn.
  rewrite E, calm_fmap. cbn. rewrite !calm_patch. cbn. rewrite merge_self. by eexists.
Qed.

Lemma calm_wake_step sh t c log remaining :
  sh ∈ conns -> wake_step conns remaining sh (mkSleepSys t c log) = (mkSleepSys (S t) c (log ++ [CallWake sh; CallAwake sh]), Some (Ok remaining)).
Proof.
  intros Hsh. unfold wake_step. rewrite bool_decide_eq_true_2 by done.
  unfold wake_shard, s_call, s_observe, s_log, x_mod, x_try, x_bind, x_ret, x_res, modify, mbind, M_bind, mret, M_ret. cbn.
  rewrite calm_wake by done. cbn. by rewrite <- app_assoc.
Qed.

Lemma calm_wake_shards l t c log remaining :
  Forall (fun sh => sh ∈ conns) l -> exists t',
  x_fold (wake_step conns) remaining l (mkSleepSys t c log) = (mkSleepSys t' c (log ++ (l ≫= fun sh => [CallWake sh; CallAwake sh])), Some (Ok remaining)).
Proof.
  revert t log. induction l as [| sh l IH]; intros t log Hin; cbn [x_fold].
  { exists t. unfold x_ret, mret, M_ret. cbn. by rewrite app_nil_r. }
  apply Forall_cons in Hin as [Hsh Hin]. rewrite x_bind_eq, calm_wake_step by done.
  destruct (IH (S t) (log ++ [CallWake sh; CallAwake sh]) Hin) as [t' IH']. exists t'. rewrite IH'. by rewrite <- !app_assoc.
Qed.

(** Both annotations are gone. *)
Definition cleared (a : gmap string string) : gmap string string := delete SleepProgressAnnotation (delete SleepRequestAnnotation a).

Lemma calm_compensate s a p :
  ss_cluster s = Some a -> Forall (fun sh => sh ∈ conns) (p_accepted p) ->
  exists t rest, compensate a p s = (mkSleepSys t (Some (cleared a)) (ss_log s ++ (p_accepted p ≫= fun sh => [CallWake sh; CallAwake sh]) ++ rest), Some (Ok tt)) /\
    Forall neutral rest.
Proof.
  intros Ha Hin. unfold compensate. rewrite x_bind_eq. change (s_observe se_conns s) with ({| s with ss_tick := S (ss_tick s) |}, Some (Ok (se_conns (ss_tick s)))).
  cbn beta iota. rewrite calm_conns. cbn [from_option id]. rewrite x_bind_eq.
  destruct (calm_wake_shards (p_accepted p) (S (ss_tick s)) (ss_cluster s) (ss_log s) [] Hin) as [t' ->]. cbn beta iota.
  rewrite bool_decide_eq_true_2 by done. cbn [negb]. rewrite x_bind_eq. unfold finish. fold (cleared a).
  destruct (calm_patch_run (mkSleepSys t' (ss_cluster s) (ss_log s ++ (p_accepted p ≫= fun sh => [CallWake sh; CallAwake sh]))) a (cleared a) Ha) as [t'' ->].
  cbn beta iota. case_bool_decide; [exists t'', []; rewrite app_nil_r; by split |].
  exists t'', [CallRejected (p_reason p)]. unfold s_log, x_mod, modify, x_ret, mret, M_ret, mbind, M_bind. cbn. rewrite <- app_assoc. split; [done |]. by repeat constructor.
Qed.

Lemma may_undo (log rest : list SleepEvent) l :
  Forall neutral rest -> may_sleep (log ++ (l ≫= fun sh => [CallWake sh; CallAwake sh]) ++ rest) = may_sleep log ∖ list_to_set l.
Proof.
  intros F. rewrite app_assoc. assert (forall log, may_sleep (log ++ rest) = may_sleep log) as ->.
  { intros lg. unfold may_sleep. rewrite foldl_app. generalize (foldl may_step ∅ lg). induction F as [| e rest He F IH]; intros m; [done |].
    cbn. rewrite IH. by destruct e. }
  revert log. induction l as [| sh l IH]; intros log; cbn; [rewrite app_nil_r; set_solver |].
  replace (log ++ CallWake sh :: CallAwake sh :: _) with ((log ++ [CallWake sh; CallAwake sh]) ++ (l ≫= fun sh => [CallWake sh; CallAwake sh])) by (by rewrite <- app_assoc).
  rewrite IH. replace (may_sleep (log ++ [CallWake sh; CallAwake sh])) with (may_sleep log ∖ {[sh]}); [set_solver |].
  unfold may_sleep. by rewrite foldl_app.
Qed.

Lemma reconcile_read s a :
  ss_cluster s = Some a -> exists t, forall (k : option (gmap string string) -> X SleepSys Result),
  x_bind getCluster k s = k (Some a) (mkSleepSys t (Some a) (ss_log s)).
Proof. intros Ha. destruct (calm_get s) as [t E]. exists t. intros k. rewrite x_bind_eq, E. by rewrite Ha. Qed.
End Calm.

(** ** Claims *)

(** C30. No shard is forgotten asleep.  From a start at which no shard has been asked to
    sleep, whatever call fails, wherever the operator dies and however often it starts
    again: a shard that it asked to sleep and that has not confirmed to be awake since is
    recorded in the Cluster's annotations, under a valid request, as one a later
    reconciliation wakes.  This needs that nobody else edits the two annotations
    ([sole_writer]; [edited_request_forgotten] is what a user who replaces the request
    does) and that a reconciliation does not read an older version of the Cluster from
    the client's cache ([fresh_reads]; see [stale_read_forgets]). *)
Theorem sleeping_shards_recorded (SE : SleepEnv) (cfg : Settings) (SL : SleepLaws SE cfg) (names : list string) (s : SleepSys) (sh : string) :
  sole_writer -> fresh_reads -> ss_log s = [] ->
  sh ∈ may_sleep (ss_log (reconciles cfg names s)) ->
  sh ∈ c_shards cfg /\ recorded (ss_cluster (reconciles cfg names s)) sh.
Proof.
  intros Hsole Hfresh Hl. apply (reconciles_safe cfg Hsole Hfresh). intros sh'. rewrite Hl. set_solver.
Qed.

(** C31. A recorded undo completes.  Once every call is answered and every accepted shard
    is connected, one reconciliation of a request that is to be undone wakes all its
    shards, removes both annotations and leaves none of them asleep. *)
Theorem undo_completes (SE : SleepEnv) (cfg : Settings) (conns : gset string) (CE : Calm SE conns) (s : SleepSys) (a : gmap string string) (request : string) (p : Progress) :
  ss_cluster s = Some a -> a !! SleepRequestAnnotation = Some request -> request <> "" -> se_parse_time (trim_force request) = true ->
  decodeProgress (default "" (a !! SleepProgressAnnotation)) request = Ok p -> p_phase p = sleepPhaseCompensating ->
  Forall (fun sh => sh ∈ conns) (p_accepted p) ->
  exists s', Reconcile cfg (CAPIClusterName cfg) s = (s', Some (Ok done_)) /\
    ss_cluster s' = Some (cleared a) /\ may_sleep (ss_log s') = may_sleep (ss_log s) ∖ list_to_set (p_accepted p).
Proof.
  intros Ha Hr Hne Hpt Hd Hph Hin. unfold Reconcile. rewrite bool_decide_eq_true_2 by done. cbn [negb].
  destruct (reconcile_read s a Ha) as [t ->]. rewrite Hr. cbn [from_option id]. rewrite bool_decide_eq_false_2 by done. rewrite Hpt. cbn [negb].
  rewrite Hd, Hph. rewrite bool_decide_eq_false_2, bool_decide_eq_true_2 by done. rewrite x_bind_eq.
  destruct (calm_compensate (mkSleepSys t (Some a) (ss_log s)) a p eq_refl Hin) as (t' & rest & -> & F).
  eexists. split; [done |]. split; [done |]. cbn. by apply may_undo.
Qed.

(** A normal sleep is guarded.  In a reconciliation of a request without force, a
    shard is asked to sleep only after all the guards of this very reconciliation passed
    (nodes, machines, pools, shard groups, jobs, idle listeners, due cron jobs), and is
    asked not to sleep if it is busy. *)
Theorem sleep_calls_guarded (SE : SleepEnv) (cfg : Settings) (name : string) (s s' : SleepSys) (a : gmap string string) (request : string)
    (r : option (res Result)) (l1 l2 : list SleepEvent) (sh : string) (ifNotBusy : bool) :
  sole_writer -> fresh_reads -> ss_cluster s = Some a -> a !! SleepRequestAnnotation = Some request -> has_prefix "force:" request = false ->
  Reconcile cfg name s = (s', r) -> ss_log s' = ss_log s ++ l1 ++ CallSleep sh ifNotBusy :: l2 ->
  ifNotBusy = true /\ CallEligible ∈ l1.
Proof.
  intros Hsole Hfresh Ha Hr Hf HR Hl. destruct (reconcile_guarded cfg name s a request Hsole Hfresh Ha Hr Hf) as (evs & E & G).
  rewrite HR in E. cbn in E. rewrite Hl in E. apply app_inv_head in E. by apply (G l1 sh ifNotBusy l2).
Qed.

(** An edited request is forgotten.  When the request annotation is replaced while
    shards are asleep for the old one, the next reconciliation removes both annotations
    and wakes nobody, although it reports the request as one that changed nothing: the
    shards stay asleep, and nothing records them. *)
Theorem edited_request_forgotten (SE : SleepEnv) (cfg : Settings) (conns : gset string) (CE : Calm SE conns) (SL : SleepLaws SE cfg)
    (s : SleepSys) (a : gmap string string) (request : string) (p : Progress) :
  ss_cluster s = Some a -> a !! SleepRequestAnnotation = Some request -> request <> "" -> se_parse_time (trim_force request) = true ->
  a !! SleepProgressAnnotation = Some (se_encode p) -> p_request p <> request ->
  exists s', Reconcile cfg (CAPIClusterName cfg) s = (s', Some (Ok done_)) /\
    may_sleep (ss_log s') = may_sleep (ss_log s) /\ forall sh, ~ recorded (ss_cluster s') sh.
Proof.
  intros Ha Hr Hne Hpt Hp Hq. unfold Reconcile. rewrite bool_decide_eq_true_2 by done. cbn [negb].
  destruct (reconcile_read s a Ha) as [t ->]. rewrite Hr, Hp. cbn [from_option id]. rewrite bool_decide_eq_false_2 by done. rewrite Hpt. cbn [negb].
  unfold decodeProgress. rewrite bool_decide_eq_false_2 by apply sl_encode. cbv zeta. rewrite (sl_round_trip (cfg := cfg)).
  rewrite bool_decide_eq_false_2 by done. cbn [negb orb]. rewrite x_bind_eq. unfold reject. rewrite x_bind_eq.
  destruct (calm_patch_run (mkSleepSys t (Some a) (ss_log s)) a (cleared a) eq_refl) as [t' E]. unfold finish. fold (cleared a). rewrite E. cbn beta iota.
  eexists. split; [done |]. cbn. rewrite may_neutral by done. split; [done |].
  intros sh (a' & q & p' & [= <-] & Hq' & _). unfold cleared in Hq'. rewrite lookup_delete_ne, lookup_delete_eq in Hq' by done. discriminate Hq'.
Qed.

(** ** Concrete runs of the sleep controller

    Three shards; the progress is encoded as the digits of a number.  In one world the
    operator dies while shard [b] is being put to sleep, in the other everything is
    answered. *)
Module SleepWitnesses.
Import SleepCtl.

#[local] Open Scope Z_scope.

(** ** An encoding of progress *)

Definition parts (p : Progress) := (p_request p, p_phase p, p_accepted p, p_final p, p_reason p).
Definition of_parts '(a, b, c, d, e) : Progress := mkProgress a b c d e.

Fixpoint digits (p : positive) : string :=
  match p with
  | xH => "."
  | xO p => String "0" (digits p)
  | xI p => String "1" (digits p)
  end.

Fixpoint of_digits (s : string) : positive :=
  match s with
  | String "0" s => xO (of_digits s)
  | String "1" s => xI (of_digits s)
  | _ => xH
  end.

Lemma of_digits_digits p : of_digits (digits p) = p.
Proof. induction p as [p IH | p IH |]; cbn; congruence. Qed.

Definition encode_progress (p : Progress) : string := digits (encode (parts p)).
Definition decode_progress (s : string) : res Progress :=
  match decode (of_digits s) with Some t => Ok (of_parts t) | None => Err (ErrMsg "invalid") end.

Lemma decode_encode_progress p : decode_progress (encode_progress p) = Ok p.
Proof. unfold decode_progress, encode_progress. rewrite of_digits_digits, decode_encode. by destruct p. Qed.

(** ** The worlds *)

(** The annotations that differ are set or removed. *)
Definition merge_from (base new stored : gmap string string) : gmap string string :=
  let diff : gmap string (option string) :=
    merge (fun b n => if bool_decide (b = n) then None else Some n) base new in
  merge (fun s d => match d with None => s | Some v => v end) stored diff.

Lemma lookup_merge_from (b n s : gmap string string) k :
  merge_from b n s !! k = if bool_decide (b !! k = n !! k) then s !! k else n !! k.
Proof.
  unfold merge_from. rewrite !lookup_merge. case_bool_decide as E; destruct (b !! k), (n !! k), (s !! k); cbn;
    repeat case_bool_decide; cbn; congruence.
Qed.

Definition shards : gset string := {["a"; "b"; "c"]}.

Definition settings : Settings :=
  mkSettings "k" "t" shards (mkSleepPolicy true 1 (30 * minute) ∅ (10 * minute) (2 * minute) minute) "".

Definition cached_world (cached : option (gmap string string) -> option (gmap string string)) (sleep : string -> option (res (SleepResult * SleepStatus))) : SleepEnv :=
  mkSleepEnv (fun _ a => a) (fun _ => None) (fun _ => cached) (fun _ => mkOutcome true (Some None)) merge_from (fun n => Z.of_nat n) (fun _ => Some shards)
    (fun _ s => elements s) (fun _ => Some (Ok [mkNode "n" "b"])) (fun _ _ => Some (Ok (mkNode "n" "b")))
    (fun _ => Some (Ok [])) (fun _ => Some (Ok [])) (fun _ => Some (Ok [])) (fun _ => Some (Ok [])) (fun _ => Some (Ok [])) (fun _ => Some (Ok []))
    (fun _ _ => Some (Ok (StatusAwake, []))) (fun _ sh _ _ => sleep sh) (fun _ _ => Some (Ok StatusAwake))
    (fun _ now _ => Ok now) (fun _ => true) (fun _ => true) (fun _ => "now") encode_progress (fun _ => decode_progress).

Definition world := cached_world id.

Definition asleep : option (res (SleepResult * SleepStatus)) := Some (Ok (ResultSlept, StatusAsleep)).
Definition calm : SleepEnv := world (fun _ => asleep).
Definition dying : SleepEnv := world (fun sh => if bool_decide (sh = "b") then None else asleep).

Lemma world_laws cached sleep : SleepLaws (cached_world cached sleep) settings.
Proof.
  split.
  - apply lookup_merge_from.
  - intros p request. apply decode_encode_progress.
  - intros p H. cbn in H. unfold encode_progress in H. by destruct (encode (parts p)).
  - done.
  - by intros n s [= <-].
  - apply (bool_decide_unpack _). vm_compute. exact I.
Qed.

Lemma calm_world : Calm calm shards.
Proof. split; try done. apply lookup_merge_from. Qed.

Lemma sole_world sleep : @sole_writer (world sleep).
Proof. by intros n a. Qed.

Lemma fresh_world sleep : @fresh_reads (world sleep).
Proof. by intros n o. Qed.

Definition requested (request : string) : SleepSys := mkSleepSys 0 (Some {[SleepRequestAnnotation := request]}) [].

Lemma recorded_witness :
  "b" ∈ c_shards settings /\ @recorded dying (ss_cluster (@reconciles dying settings ["k--t"] (requested "force:now"))) "b".
Proof.
  refine (sleeping_shards_recorded dying settings (world_laws _ _) ["k--t"] (requested "force:now") "b" (sole_world _) (fresh_world _) eq_refl _).
  apply (bool_decide_unpack _). vm_compute. exact I.
Defined.

(** Shards [a] and [b] accepted, to be undone. *)
Definition undoing : Progress := mkProgress "now" sleepPhaseCompensating ["a"; "b"] "" "interrupted".
Definition stored (request : string) : gmap string string :=
  <[SleepProgressAnnotation := encode_progress undoing]> {[SleepRequestAnnotation := request]}.
Definition interrupted (request : string) : SleepSys := mkSleepSys 0 (Some (stored request)) [CallSleep "a" true; CallSlept "a"; CallSleep "b" true].

Lemma undo_witness :
  exists s', @Reconcile calm settings (CAPIClusterName settings) (interrupted "now") = (s', Some (Ok done_)) /\
    ss_cluster s' = Some (cleared (stored "now")) /\
    may_sleep (ss_log s') = may_sleep (ss_log (interrupted "now")) ∖ list_to_set ["a"; "b"].
Proof.
  refine (undo_completes calm settings shards calm_world (interrupted "now") (stored "now") "now" undoing eq_refl _ _ eq_refl _ eq_refl _).
  - vm_compute. reflexivity.
  - discriminate.
  - vm_compute. reflexivity.
  - apply (bool_decide_unpack _). vm_compute. exact I.
Defined.

Lemma sleep_guarded_witness : true = true /\ CallEligible ∈ [CallEligible; CallSleep "a" true; CallSlept "a"].
Proof.
  refine (sleep_calls_guarded calm settings "k--t" (requested "now") _ {[SleepRequestAnnotation := "now"]} "now" _
    [CallEligible; CallSleep "a" true; CallSlept "a"] [CallSlept "c"; CallSleep "b" true; CallSlept "b"] "c" true
    (sole_world _) (fresh_world _) eq_refl _ _ (surjective_pairing _) _).
  - reflexivity.
  - reflexivity.
  - vm_compute. reflexivity.
Defined.

Lemma edited_witness :
  exists s', @Reconcile calm settings (CAPIClusterName settings) (interrupted "later") = (s', Some (Ok done_)) /\
    may_sleep (ss_log s') = may_sleep (ss_log (interrupted "later")) /\ forall sh, ~ @recorded calm (ss_cluster s') sh.
Proof.
  refine (edited_request_forgotten calm settings shards calm_world (world_laws _ _) (interrupted "later") (stored "later") "later" undoing eq_refl _ _ eq_refl _ _).
  - vm_compute. reflexivity.
  - discriminate.
  - vm_compute. reflexivity.
  - discriminate.
Defined.
(** A stale read forgets a shard.  The cache still holds the version without progress
    when shards [a] and [b] are already recorded as accepted: the reconciliation starts
    over, and its first patch, which does not check the version it changes, records
    shard [a] alone.  An operator that dies in the call that follows leaves [b] asleep
    and not recorded. *)
Definition lagging : SleepEnv :=
  cached_world (fmap (delete SleepProgressAnnotation)) (fun sh => if bool_decide (sh = "a") then None else asleep).
Definition accepted_both : Progress := mkProgress "force:now" sleepPhaseSleeping ["a"; "b"] "" "".
Definition half_asleep : SleepSys :=
  mkSleepSys 0 (Some (<[SleepProgressAnnotation := encode_progress accepted_both]> {[SleepRequestAnnotation := "force:now"]}))
    [CallSleep "a" false; CallSlept "a"; CallSleep "b" false; CallSlept "b"].
Definition after_stale_read : SleepSys := (@Reconcile lagging settings "k--t" half_asleep).1.

Example stale_read_forgets :
  @recorded lagging (ss_cluster half_asleep) "b" /\ "b" ∈ may_sleep (ss_log after_stale_read) /\ ~ @recorded lagging (ss_cluster after_stale_read) "b".
Proof.
  split; [| split].
  - eexists _, "force:now", accepted_both. split; [reflexivity |]. split; [vm_compute; reflexivity |]. split; [discriminate |].
    split; [reflexivity |]. split; [vm_compute; reflexivity |]. right. apply (bool_decide_unpack _). vm_compute. exact I.
  - apply (bool_decide_unpack _). vm_compute. exact I.
  - intros (a & request & p & Ha & Hr & _ & _ & Hd & Hp). vm_compute in Ha. injection Ha as <-. vm_compute in Hr. injection Hr as <-.
    vm_compute in Hd. injection Hd as <-. destruct Hp as [Hp | Hp]; [discriminate Hp |].
    apply (bool_decide_pack _) in Hp. vm_compute in Hp. exact Hp.
Qed.
End SleepWitnesses.
