(* ===== verification/HealthReport.v ===== *)
(** * Health reports and public keys ([src/internal/server/api/agent])

    [health_report.go], [public_keys.go] and the required keys of [key_requests.go].
    An agent streams health reports; each one updates the instance's row, the activity
    of the listeners the instance serves, and asks for files and keys it lacks.  What a
    report starts as goroutines is collected in [hs_tasks] and run as separate
    operations.

    The service works on the loader, whose database is the server's, the listener
    activity of [OperatorApi] and the queues of [AgentStreams].  JSON and PEM encoding
    are parameters. *)

From S2P Require Import Prelude Provider Json LocalDB GoText Config ProxyConfig Loader OperatorApi AgentStreams TunnelControl Cutover.

(** [proto.FileStatus]: when the file was modified, an error, or neither. *)
Inductive FileStatus :=
  | FileLastModified (at_ : Z)
  | FileError (msg : string)
  | FileNone.

(** [ProtoFileStatus.IsError] and [IsMissing]. *)
Definition IsError (s : FileStatus) : bool := match s with FileError _ => true | _ => false end.
Definition IsMissing (s : FileStatus) : bool := match s with FileNone => true | _ => false end.

(** [proto.HealthReportRequest]. *)
Record HealthReport := mkHealthReport {
  hr_instance_id : string;
  hr_timestamp : Z;
  hr_count : Z;
  hr_uptime : Z;
  hr_files : gmap string FileStatus;
  hr_metrics : option Metrics;
  hr_config_hash : string;
  hr_termination : option string;     (* TerminationNotice.Action *)
}.

(** The record kept with the instance, before it is marshalled. *)
Record HealthRecord := mkHealthRecord {
  hc_timestamp : Z;
  hc_count : Z;
  hc_uptime : Z;
  hc_files : gmap string (option (Z + string));   (* a time, an error, or null *)
  hc_last_reported : Z;
  hc_metrics : option Metrics;
}.

(** The goroutines a report starts, and the calls of the service's callbacks. *)
Inductive Task :=
  | TaskMissingKeys (instanceID : string)
  | TaskTermination (instanceID action : string)
  | TaskReported (instanceID : string) (metrics : option Metrics) (timestamp : Z)
  | TaskDrift (instanceID configHash : string)
  | TaskDisconnected (instanceID : string) (graceful : bool)
  | TaskReconcile (tenant group reason : string).

Definition task_instance (t : Task) : option string :=
  match t with
  | TaskMissingKeys id | TaskTermination id _ | TaskReported id _ _ | TaskDrift id _ | TaskDisconnected id _ => Some id
  | TaskReconcile _ _ _ => None
  end.

Record HealthService := mkHealthService {
  hs_tick : nat;
  hs_loader : Loader;
  hs_activity : Tracker;
  hs_files : Files.System;
  hs_keys : Keys.Service;
  hs_tasks : list Task;
}.

Class HealthEnv := mkHealthEnv {
  he_loader :: LoaderEnv;
  he_now : nat -> Z;
  he_db_fault : nat -> option err;
  he_encode : HealthRecord -> res string;              (* json.Marshal *)
  he_base64 : string -> res string;                    (* base64.StdEncoding.DecodeString *)
  he_pem : string -> string;                           (* convertDERToPEM *)
  he_order : nat -> RangeOrder;                        (* for range over a map *)
  he_on_health_report : bool;                          (* the callback is set *)
  he_on_reconcile : bool;
  he_on_disconnect : bool;
  he_on_termination : bool;
}.

Section HealthReport.
Context {HE : HealthEnv}.

Definition h_observe {A} (f : nat -> A) : M HealthService A :=
  fun s => ({| s with hs_tick := S (hs_tick s) |}, f (hs_tick s)).

Definition h_task (t : Task) : M HealthService unit := modify (fun s => {| s with hs_tasks := hs_tasks s ++ [t] |}).

Definition hs_db (s : HealthService) : DB := l_db (hs_loader s).

Definition loader_db (db : DB) (l : Loader) : Loader := {| l with l_db := db |}.
Definition set_db (db : DB) (s : HealthService) : HealthService := {| s with hs_loader := loader_db db (hs_loader s) |}.

(** Run a statement of the local database; the driver may fail. *)
Definition h_exec (f : Z -> DB -> res DB) : M HealthService (res unit) :=
  now ← h_observe he_now;
  fault ← h_observe he_db_fault;
  match fault with
  | Some e => mret (Err e)
  | None => fun s => match f now (hs_db s) with Ok db => (set_db db s, Ok tt) | Err e => (s, Err e) end
  end.

Definition h_query {A} (f : DB -> res A) : M HealthService (res A) :=
  fault ← h_observe he_db_fault;
  match fault with
  | Some e => mret (Err e)
  | None => fun s => (s, f (hs_db s))
  end.

(** ** Storing the report *)

(** [convertFileStatusMap]. *)
Definition convertFileStatusMap (files : gmap string FileStatus) : gmap string (option (Z + string)) :=
  (fun s => match s with
            | FileLastModified at_ => Some (inl at_)
            | FileError msg => Some (inr ("error: " ++ msg)%string)
            | FileNone => None
            end) <$> files.

(** [storeHealthRecord]. *)
Definition storeHealthRecord (req : HealthReport) : M HealthService (res unit) :=
  now ← h_observe he_now;
  match he_encode (mkHealthRecord (hr_timestamp req) (hr_count req) (hr_uptime req) (convertFileStatusMap (hr_files req)) now (hr_metrics req)) with
  | Err e => mret (Err (ErrWrap "failed to marshal health record" e))
  | Ok data => h_exec (fun now => LocalDB.UpdateInstanceHealth now (hr_instance_id req) data)
  end.

(** ** Listener activity *)

(** What a report says about a listener: whether connections are active, and whether
    the counter is available. *)
Definition listener_counter (metrics : option Metrics) (targetPort : Z) : bool * bool :=
  match metrics with
  | Some m =>
      match me_ebpf_error m with
      | None =>
          match me_ebpf_counters m !! uint32 targetPort with
          | Some count => (bool_decide (0 < count), true)
          | None => (false, false)
          end
      | Some _ => (false, false)
      end
  | None => (false, false)
  end.

Definition observe_listener (inst : Instance) (metrics : option Metrics) (observedAt : Z) (t : Tracker) (named : string * Listener) : Tracker :=
  let '(listenerName, listener) := named in
  if negb (bool_decide (li_tenant listener = i_tenant inst)) || negb (bool_decide (i_group inst ∈ li_groups listener)) then t
  else
    let '(active, available) := listener_counter metrics (li_target_port listener) in
    Tracker_Update (i_tenant inst) listenerName (i_id inst) active available observedAt t.

(** ** Files *)

(** The template's files that are missing or have errors. *)
Definition file_required (statuses : gmap string FileStatus) (filename : string) : bool :=
  match statuses !! filename with
  | None => true
  | Some s => IsError s || IsMissing s
  end.

(** [requestFiles]; [None] asks for all files. *)
Definition requestFiles (instanceID configHash : string) (filenames : option (list string)) : M HealthService unit :=
  modify (fun s => {| s with hs_files := Files.start_request instanceID configHash filenames (hs_files s) |}).

(** The request for files, given the names of the template's files as visited. *)
Definition request_files (req : HealthReport) (runtimeHash : string) (names : list string) : M HealthService unit :=
  let filesRequired := filter (fun f => file_required (hr_files req) f = true) names in
  if negb (bool_decide (hr_config_hash req = runtimeHash)) then requestFiles (hr_instance_id req) runtimeHash None
  else if bool_decide (filesRequired = []) then mret tt
  else requestFiles (hr_instance_id req) runtimeHash (Some filesRequired).

(** ** [processHealthReport] *)

(** The goroutines started once the report is processed. *)
Definition start_tasks (req : HealthReport) : M HealthService unit :=
  _ ← h_task (TaskMissingKeys (hr_instance_id req));
  _ ← (match hr_termination req with Some action => h_task (TaskTermination (hr_instance_id req) action) | None => mret tt end);
  _ ← (if he_on_health_report then h_task (TaskReported (hr_instance_id req) (hr_metrics req) (hr_timestamp req)) else mret tt);
  h_task (TaskDrift (hr_instance_id req) (hr_config_hash req)).

Definition process_with_config (req : HealthReport) (inst : Instance) (cfg : Config) (group : GroupConfig) : M HealthService (res unit) :=
  p ← h_observe (fun n => @ProxyConfig (he_order n) cfg);
  match p with
  | Err e => mret (Err (ErrWrap "failed to derive proxy listeners" e))
  | Ok listeners =>
      observedAt ← h_observe he_now;
      items ← h_observe (fun n => @range_over (he_order n) _ 0 listeners);
      _ ← modify (fun s => {| s with hs_activity := foldl (observe_listener inst (hr_metrics req) observedAt) (hs_activity s) items |});
      match c_templates cfg !! gc_template group with
      | None => mret (Err (ErrMsg "template not found"))
      | Some template =>
          match GetMergedConfig cfg (gc_template group) group with
          | Err e => mret (Err (ErrWrap "failed to merge template and group config" e))
          | Ok merged =>
              files ← h_observe (fun n => @range_over (he_order n) _ 1 (tc_files template));
              _ ← request_files req (HashRuntimeConfig merged) files.*1;
              _ ← start_tasks req;
              mret (Ok tt)
          end
      end
  end.

Definition processHealthReport (req : HealthReport) : M HealthService (res unit) :=
  stored ← storeHealthRecord req;
  match stored with
  | Err e => mret (Err (ErrWrap "failed to store health record" e))
  | Ok _ =>
      i ← h_query (LocalDB.GetInstance (hr_instance_id req));
      match i with
      | Err e => mret (Err (ErrWrap "failed to get instance" e))
      | Ok inst =>
          cg ← gets (fun s => GetConfigAndGroup (i_tenant inst) (i_group inst) (hs_loader s));
          match cg with
          | Err e => mret (Err (ErrWrap "failed to get config and group" e))
          | Ok (cfg, group) => process_with_config req inst cfg group
          end
      end
  end.

(** ** [SubmitHealthReport] *)

(** What ends the stream: the client, or an error. *)
Inductive StreamEnd := StreamEOF | StreamErr (e : err).

(** The reports received until the stream ends or one names another instance. *)
Fixpoint receive_reports (clientID : string) (reqs : list HealthReport) (stop : StreamEnd) : M HealthService (res unit) :=
  match reqs with
  | [] => mret (match stop with StreamEOF => Ok tt | StreamErr e => Err (ErrWrap "failed to receive health report" e) end)
  | req :: rest =>
      if negb (bool_decide (clientID = hr_instance_id req)) then mret (Err (ErrMsg "instance ID mismatch"))
      else _ ← processHealthReport req; receive_reports clientID rest stop
  end.

(** The stream, and the goroutine that watches its context. *)
Definition SubmitHealthReport (clientID : string) (reqs : list HealthReport) (stop : StreamEnd) (graceful : bool) : M HealthService (res unit) :=
  r ← receive_reports clientID reqs stop;
  _ ← (if he_on_disconnect then h_task (TaskDisconnected clientID graceful) else mret tt);
  mret r.

(** ** Goroutines *)

(** [analyzeRequiredKeys], over the files in the order visited. *)
Definition trim_pub (s : string) : string :=
  if has_suffix ".pub" s then text (take (length (chars s) - 4) (chars s)) else s.

Definition analyzeRequiredKeys (files : list (string * FileConfig)) : list string :=
  omap (fun '(_, f) =>
    if bool_decide (fc_kind f = "certificate") then
      match fc_key f with
      | Some (source, name) => if bool_decide (source = "agent") then Some (trim_pub name) else None
      | None => None
      end
    else None) files.

(** [getRequiredKeysForInstance]. *)
Definition getRequiredKeysForInstance (instanceID : string) : M HealthService (res (list string)) :=
  i ← h_query (LocalDB.GetInstance instanceID);
  match i with
  | Err e => mret (Err (ErrWrap "failed to get instance record" e))
  | Ok inst =>
      cg ← gets (fun s => GetConfigAndGroup (i_tenant inst) (i_group inst) (hs_loader s));
      match cg with
      | Err e => mret (Err (ErrWrap "failed to get config and group" e))
      | Ok (cfg, group) =>
          match c_templates cfg !! gc_template group with
          | None => mret (Err (ErrMsg "instance template not found"))
          | Some template =>
              files ← h_observe (fun n => @range_over (he_order n) _ 1 (tc_files template));
              mret (Ok (analyzeRequiredKeys files))
          end
      end
  end.

(** The keys not yet submitted; a query that fails skips its key. *)
Fixpoint missing_keys (instanceID : string) (keys : list string) : M HealthService (list string) :=
  match keys with
  | [] => mret []
  | key :: rest =>
      pk ← h_query (fun db => Ok (LocalDB.GetPublicKeyByFilename instanceID key db));
      missing ← missing_keys instanceID rest;
      mret (match pk with Ok None => key :: missing | _ => missing end)
  end.

(** [checkAndRequestMissingKeys]; the channel to notify is notified after the critical
    section of [queueKeyRequest]. *)
Definition checkAndRequestMissingKeys (instanceID : string) : M HealthService (res unit) :=
  required ← getRequiredKeysForInstance instanceID;
  match required with
  | Err e => mret (Err e)
  | Ok [] => mret (Ok tt)
  | Ok keys =>
      missing ← missing_keys instanceID keys;
      if bool_decide (missing = []) then mret (Ok tt)
      else
        now ← h_observe he_now;
        _ ← modify (fun s =>
          let '(ks, notify) := Keys.queueKeyRequest instanceID missing now (hs_keys s) in
          {| s with hs_keys := Keys.notifyStream notify ks |});
        mret (Ok tt)
  end.

(** [handleConfigDrift]. *)
Definition handleConfigDrift (instanceID reportedConfigHash : string) : M HealthService (res unit) :=
  i ← h_query (LocalDB.GetInstance instanceID);
  match i with
  | Err e => mret (Err (ErrWrap "failed to get instance" e))
  | Ok inst =>
      g ← h_query (LocalDB.GetGroup (i_tenant inst) (i_group inst));
      match g with
      | Err e => mret (Err (ErrWrap "failed to get group hashes" e))
      | Ok None => mret (Ok tt)
      | Ok (Some group) =>
          match i_drain_started_at inst, g_infra_config_hash group with
          | None, Some infra =>
              if negb (bool_decide (infra = default "" (i_infra_config_hash inst))) && he_on_reconcile
              then _ ← h_task (TaskReconcile (i_tenant inst) (i_group inst) "config-drift"); mret (Ok tt)
              else mret (Ok tt)
          | _, _ => mret (Ok tt)
          end
      end
  end.

(** ** [SubmitPublicKeys] *)

(** [convertPublicKeys]: keys that are not base64 are skipped. *)
Definition convertPublicKeys (keys : list (string * string)) : list PublicKeySubmission :=
  omap (fun '(filename, pem) =>
    match he_base64 pem with Ok der => Some (mkPublicKeySubmission filename (he_pem der)) | Err _ => None end) keys.

Definition SubmitPublicKeys (clientID instanceID : string) (keys : list (string * string)) : M HealthService (res unit) :=
  if negb (bool_decide (clientID = instanceID)) then mret (Err (ErrMsg "instance ID mismatch"))
  else
    r ← h_exec (fun now => LocalDB.StorePublicKeys now instanceID (convertPublicKeys keys));
    mret (match r with Ok _ => Ok tt | Err _ => Err (ErrMsg "failed to cache public keys") end).
End HealthReport.
