(* ===== verification/HealthReportFacts.v ===== *)
(** * What a health report may change

    [confined id]: a state change that concerns the instance [id] only.  It is a
    preorder, every step of a report satisfies it, and so does a whole stream. *)

From S2P Require Import Prelude Provider Json LocalDB LocalDBFacts GoText Config ProxyConfig Loader OperatorApi AgentStreams.
From S2P Require Import TunnelControl Cutover CutoverFacts HealthReport.

(** A row as a report leaves it: only the columns of health may differ. *)
Definition health_row (id : string) (i j : Instance) : Prop :=
  (i_id i ≠ id -> j = i) /\
  j = {| i with i_health := i_health j; i_health_at := i_health_at j; i_updated_at := i_updated_at j |}.

Definition same_but_instances (db db' : DB) : Prop :=
  public_keys db' = public_keys db /\ images db' = images db /\ lb_instances db' = lb_instances db /\
  groups db' = groups db /\ operators db' = operators db /\ pk_seq db' = pk_seq db /\ foreign_keys db' = foreign_keys db.

Definition observation (t : Tracker) (tenant listener id : string) : option Observation :=
  t !! tenant ≫= fun ls => ls !! listener ≫= fun os => os !! id.

(** Requests, patches, streams and generators of the other instances. *)
Definition files_confined (id : string) (y y' : Files.System) : Prop :=
  (forall i, i ≠ id -> Files.pendingFiles (Files.sys_service y') !! i = Files.pendingFiles (Files.sys_service y) !! i /\
     Files.fileRequests (Files.sys_service y') !! i = Files.fileRequests (Files.sys_service y) !! i) /\
  Files.pendingFilesNotify (Files.sys_service y') = Files.pendingFilesNotify (Files.sys_service y) /\
  Files.chan_tokens (Files.sys_service y') = Files.chan_tokens (Files.sys_service y) /\
  Files.sys_streams y' = Files.sys_streams y /\
  (Files.next_ref (Files.sys_service y) <= Files.next_ref (Files.sys_service y'))%nat /\
  (forall r, (r < Files.next_ref (Files.sys_service y))%nat -> Files.sys_generators y' !! r = Files.sys_generators y !! r) /\
  (forall r g, Files.sys_generators y' !! r = Some g -> Files.sys_generators y !! r = Some g \/ Files.g_instance g = id).

Record confined (id : string) (s s' : HealthService) : Prop := mkConfined {
  cf_rows : Forall2 (health_row id) (instances (hs_db s)) (instances (hs_db s'));
  cf_tables : same_but_instances (hs_db s) (hs_db s');
  cf_loader : loader_db (hs_db s) (hs_loader s') = hs_loader s;
  cf_activity : forall t l i, i ≠ id -> observation (hs_activity s') t l i = observation (hs_activity s) t l i;
  cf_files : files_confined id (hs_files s) (hs_files s');
  cf_keys : hs_keys s' = hs_keys s;
  cf_tasks : exists ts, hs_tasks s' = hs_tasks s ++ ts /\ Forall (fun t => task_instance t = Some id) ts;
}.

Lemma health_row_refl id i : health_row id i i.
Proof. split; [done|by destruct i]. Qed.

Lemma rows_same id l : Forall2 (health_row id) l l.
Proof. induction l; constructor; [apply health_row_refl|done]. Qed.

Lemma health_row_trans id i j k : health_row id i j -> health_row id j k -> health_row id i k.
Proof.
  intros [H1 E1] [H2 E2]. split.
  - intros Hi. specialize (H1 Hi). subst j. by apply H2.
  - rewrite E2. rewrite E1. by destruct i.
Qed.

Lemma files_confined_refl id y : files_confined id y y.
Proof. split_and!; auto. Qed.

Lemma files_confined_trans id y1 y2 y3 : files_confined id y1 y2 -> files_confined id y2 y3 -> files_confined id y1 y3.
Proof.
  intros (A1 & A2 & A3 & A4 & A5 & A6 & A7) (B1 & B2 & B3 & B4 & B5 & B6 & B7). split_and!; try congruence; try lia.
  - intros i Hi. destruct (A1 i Hi), (B1 i Hi). split; congruence.
  - intros r Hr. rewrite B6 by lia. by apply A6.
  - intros r g Hg. destruct (B7 r g Hg) as [H|H]; [by apply A7|by right].
Qed.

#[global] Instance confined_preorder id : PreOrder (confined id).
Proof.
  split.
  - intros s. split; [|done| |done|apply files_confined_refl|done|].
    + apply rows_same.
    + unfold loader_db, hs_db. by destruct (hs_loader s).
    + exists []. by rewrite app_nil_r.
  - intros s1 s2 s3 [R1 T1 L1 A1 F1 K1 (ts1 & E1 & H1)] [R2 T2 L2 A2 F2 K2 (ts2 & E2 & H2)]. split.
    + revert R2. generalize (instances (hs_db s3)) as l3. induction R1 as [|i j l1 l2 Hij _ IH]; intros l3 R2.
      * inversion R2. constructor.
      * inversion R2 as [|? k ? l3' Hjk R2']; subst. constructor; [by eapply health_row_trans|by apply IH].
    + unfold same_but_instances in *. destruct T1 as (?&?&?&?&?&?&?), T2 as (?&?&?&?&?&?&?). split_and!; congruence.
    + rewrite <-L1, <-L2. unfold loader_db. by destruct (hs_loader s3).
    + intros t l i Hi. by rewrite A2, A1.
    + by eapply files_confined_trans.
    + congruence.
    + exists (ts1 ++ ts2). rewrite E2, E1, app_assoc. split; [done|by apply Forall_app].
Qed.

Definition keeps {A} (id : string) (m : M HealthService A) : Prop := forall s, confined id s (m s).1.

Section Keeps.
Context {HE : HealthEnv} (id : string).

Lemma health_keeps_ret {A} (a : A) : keeps id (mret a).
Proof. by intros s. Qed.

Lemma health_keeps_bind {A B} (m : M HealthService A) (f : A -> M HealthService B) : keeps id m -> (forall a, keeps id (f a)) -> keeps id (m ≫= f).
Proof. intros Hm Hf s. rewrite M_bind_eq. etrans; [apply Hm|apply Hf]. Qed.

Lemma health_keeps_gets {A} (f : HealthService -> A) : keeps id (gets f).
Proof. by intros s. Qed.

(** Only the tick moves. *)
Lemma health_keeps_observe {A} (f : nat -> A) : keeps id (h_observe f).
Proof.
  intros s. split; simpl; [apply rows_same|done| |done|apply files_confined_refl|done|].
  - unfold loader_db, hs_db. simpl. by destruct (hs_loader s).
  - exists []. by rewrite app_nil_r.
Qed.

Lemma keeps_query {A} (f : DB -> res A) : keeps id (h_query f).
Proof. unfold h_query. apply health_keeps_bind; [apply health_keeps_observe|]. intros [e|]; [apply health_keeps_ret|by intros s]. Qed.

Lemma h_query_run {A} (f : DB -> res A) s s1 a : h_query f s = (s1, Ok a) -> f (hs_db s) = Ok a.
Proof. unfold h_query, mbind, M_bind. simpl. destruct (he_db_fault (hs_tick s)); [done|]. by intros [= _ ?]. Qed.

Lemma keeps_task t : task_instance t = Some id -> keeps id (h_task t).
Proof.
  intros Ht s. split; simpl; [apply rows_same|done| |done|apply files_confined_refl|done|].
  - unfold loader_db, hs_db. simpl. by destruct (hs_loader s).
  - exists [t]. split; [done|]. by apply Forall_singleton.
Qed.

Lemma keeps_store req : hr_instance_id req = id -> keeps id (storeHealthRecord req).
Proof.
  intros Hid. unfold storeHealthRecord. apply health_keeps_bind; [apply health_keeps_observe|]. intros now.
  destruct (he_encode _) as [data|e]; [|apply health_keeps_ret]. unfold h_exec. apply health_keeps_bind; [apply health_keeps_observe|]. intros now1.
  apply health_keeps_bind; [apply health_keeps_observe|]. intros [e|]; [apply health_keeps_ret|]. intros s.
  destruct (LocalDB.UpdateInstanceHealth _ _ _ _) as [db|e] eqn:Hu; [|done]. simpl.
  apply update_or_norows_Ok in Hu as [-> _]. rewrite Hid. split; simpl; [| | |done|apply files_confined_refl|done|].
  - unfold upd. apply Forall2_fmap_r. generalize (instances (hs_db s)) as l. intros l. induction l as [|i l IH]; constructor; [|done]. unfold compose.
    destruct (LocalDB.live_id id i) eqn:Hl; [|apply health_row_refl]. apply live_id_true in Hl as [Hi _].
    split; [by intros []|done].
  - done.
  - unfold loader_db, hs_db. simpl. by destruct (hs_loader s).
  - exists []. by rewrite app_nil_r.
Qed.

Lemma tracker_update_other tenant listener i act av at_ t t' l' j :
  j ≠ i -> observation (Tracker_Update tenant listener i act av at_ t) t' l' j = observation t t' l' j.
Proof.
  intros Hj. unfold observation, Tracker_Update, Tracker in *. cbv zeta. destruct (decide (t' = tenant)) as [->|Ht]; [|by rewrite lookup_insert_ne].
  rewrite lookup_insert_eq. simpl. destruct (decide (l' = listener)) as [->|Hl].
  - rewrite lookup_insert_eq. simpl. rewrite lookup_insert_ne by done.
    destruct (t !! tenant) as [ls|]; simpl; [|by rewrite !lookup_empty]. by destruct (ls !! listener) eqn:E; simpl; rewrite ?lookup_empty.
  - rewrite lookup_insert_ne by done. by destruct (t !! tenant); simpl; rewrite ?lookup_empty.
Qed.

Lemma observe_listeners_other inst m at_ t items t' l' j :
  j ≠ i_id inst -> observation (foldl (observe_listener inst m at_) t items) t' l' j = observation t t' l' j.
Proof.
  intros Hj. revert t. induction items as [|[n li] items IH]; intros t; simpl; [done|]. rewrite IH.
  unfold observe_listener. destruct (_ || _); [done|]. destruct (listener_counter m (li_target_port li)) as [act av].
  by apply tracker_update_other.
Qed.

(** A request changes the instance's own entry, and may start one generator. *)
Lemma requestFiles_cases hash (v : Files.Service) v' o :
  Files.requestFiles id hash v = (v', o) ->
  (forall i, i ≠ id -> Files.fileRequests v' !! i = Files.fileRequests v !! i) /\
  Files.pendingFiles v' = Files.pendingFiles v /\ Files.pendingFilesNotify v' = Files.pendingFilesNotify v /\
  Files.chan_tokens v' = Files.chan_tokens v /\
  ((o = None /\ Files.next_ref v' = Files.next_ref v) \/
   (o = Some (Files.mkFileRequest (Files.next_ref v) hash) /\ Files.next_ref v' = S (Files.next_ref v))).
Proof.
  unfold Files.requestFiles, Files.requestFiles_start. destruct (Files.pendingFilesNotify v !! id); [|intros [= <- <-]; by split_and!; auto].
  destruct (Files.fileRequests v !! id) as [request|].
  - case_bool_decide; [intros [= <- <-]; by split_and!; auto|]. simpl. case_bool_decide; intros [= <- <-]; simpl; split_and!; auto;
      intros i Hi; by rewrite ?lookup_insert_ne, ?lookup_delete_ne by done.
  - case_bool_decide; intros [= <- <-]; simpl; split_and!; auto. intros i Hi. by rewrite lookup_insert_ne.
Qed.

Lemma files_confined_request hash names y : files_confined id y (Files.start_request id hash names y).
Proof.
  unfold Files.start_request. destruct (Files.requestFiles id hash (Files.sys_service y)) as [v o] eqn:E.
  apply requestFiles_cases in E as (Hr & Hp & Hn & Ht & Ho). unfold files_confined. simpl. rewrite Hp, Hn, Ht.
  destruct Ho as [[-> ->]|[-> ->]]; split_and!; auto; simpl.
  - intros r Hlt. rewrite lookup_insert_ne; [done|lia].
  - intros r g [[<- <-]|[_ H]]%lookup_insert_Some; [by right|by left].
Qed.

Lemma keeps_requestFiles hash names : keeps id (requestFiles id hash names).
Proof.
  intros s. split; simpl; [apply rows_same|done| |done|apply files_confined_request|done|].
  - unfold loader_db, hs_db. simpl. by destruct (hs_loader s).
  - exists []. by rewrite app_nil_r.
Qed.

Lemma keeps_activity inst m at_ items :
  i_id inst = id -> keeps id (modify (fun s => {| s with hs_activity := foldl (observe_listener inst m at_) (hs_activity s) items |})).
Proof.
  intros Hi s. split; simpl; [apply rows_same|done| | |apply files_confined_refl|done|].
  - unfold loader_db, hs_db. simpl. by destruct (hs_loader s).
  - intros t l j Hj. apply observe_listeners_other. congruence.
  - exists []. by rewrite app_nil_r.
Qed.

Lemma keeps_start_tasks req : hr_instance_id req = id -> keeps id (start_tasks req).
Proof.
  intros Hid. unfold start_tasks. rewrite Hid. apply health_keeps_bind; [by apply keeps_task|intros _].
  apply health_keeps_bind; [by destruct (hr_termination req); [apply keeps_task|apply health_keeps_ret]|intros _].
  apply health_keeps_bind; [by destruct he_on_health_report; [apply keeps_task|apply health_keeps_ret]|intros _]. by apply keeps_task.
Qed.

Lemma keeps_process_with_config req inst cfg group :
  hr_instance_id req = id -> i_id inst = id -> keeps id (process_with_config req inst cfg group).
Proof.
  intros Hid Hi. unfold process_with_config. apply health_keeps_bind; [apply health_keeps_observe|]. intros [listeners|e]; [|apply health_keeps_ret].
  apply health_keeps_bind; [apply health_keeps_observe|intros at_]. apply health_keeps_bind; [apply health_keeps_observe|intros items].
  apply health_keeps_bind; [by apply keeps_activity|intros _]. destruct (c_templates cfg !! _) as [template|]; [|apply health_keeps_ret].
  destruct (GetMergedConfig _ _ _) as [merged|]; [|apply health_keeps_ret]. apply health_keeps_bind; [apply health_keeps_observe|intros files].
  apply health_keeps_bind; [|intros _; apply health_keeps_bind; [by apply keeps_start_tasks|intros _; apply health_keeps_ret]].
  unfold request_files. rewrite Hid. destruct (negb _); [apply keeps_requestFiles|]. case_bool_decide; [apply health_keeps_ret|apply keeps_requestFiles].
Qed.

(** The instance a report is processed for is the one it names. *)
Lemma keeps_processHealthReport req : hr_instance_id req = id -> keeps id (processHealthReport req).
Proof.
  intros Hid. unfold processHealthReport. apply health_keeps_bind; [by apply keeps_store|]. intros [_|e]; [|apply health_keeps_ret].
  intros s. rewrite M_bind_eq. destruct (h_query (LocalDB.GetInstance (hr_instance_id req)) s) as [s1 r] eqn:Hq.
  assert (confined id s s1) as H1. { pose proof (keeps_query (LocalDB.GetInstance (hr_instance_id req)) s) as Hk. by rewrite Hq in Hk. }
  simpl. etrans; [exact H1|]. destruct r as [inst|e]; [|done].
  assert (i_id inst = id) as Hi.
  { apply h_query_run in Hq. apply GetInstance_Ok in Hq as (_ & Hq & _). congruence. }
  apply (health_keeps_bind (gets _)); [apply health_keeps_gets|]. intros [[cfg group]|e]; [by apply keeps_process_with_config|apply health_keeps_ret].
Qed.

Lemma keeps_receive_reports reqs stop : keeps id (receive_reports id reqs stop).
Proof.
  induction reqs as [|req reqs IH]; simpl; [apply health_keeps_ret|]. case_bool_decide as Hid; simpl; [|apply health_keeps_ret].
  apply health_keeps_bind; [by apply keeps_processHealthReport|intros _; apply IH].
Qed.

(** C27. A health stream speaks for its own instance only.  Whatever an agent sends on
    its stream, however many reports and whatever fails, the server ends up with the
    same rows except for the health columns of the authenticated instance, the same
    other tables, configuration and queues, the same activity, file requests, patches
    and streams of every other instance, and only goroutines for that instance. *)
Theorem health_stream_confined reqs stop graceful s :
  confined id s (SubmitHealthReport id reqs stop graceful s).1.
Proof.
  apply (health_keeps_bind (receive_reports id reqs stop)); [apply keeps_receive_reports|]. intros r.
  apply health_keeps_bind; [by destruct he_on_disconnect; [apply keeps_task|apply health_keeps_ret]|intros _; apply health_keeps_ret].
Qed.
End Keeps.

(** ** Reports and the guard of a sleep *)

Section Activity.
Context {HE : HealthEnv} {HK : CutoverEnv}.

(** What is read back from a stored record is what was reported. *)
Definition record_roundtrip : Prop := forall r data, he_encode r = Ok data -> ke_decode_health (Some data) = Ok (hc_metrics r).

(** A stored report: the row as it is read afterwards. *)
Lemma storeHealthRecord_run req s s' :
  db_wf (hs_db s) -> storeHealthRecord req s = (s', Ok tt) ->
  exists inst t data r, he_encode r = Ok data /\ hc_metrics r = hr_metrics req /\ t = he_now (S (hs_tick s)) /\
    LocalDB.GetInstance (hr_instance_id req) (hs_db s') =
      Ok {| inst with i_health := Some data; i_health_at := Some t; i_updated_at := Some t |}.
Proof.
  intros Hwf. unfold storeHealthRecord, h_exec, mbind, M_bind. simpl.
  match goal with |- context [he_encode ?r] => set (rec := r); destruct (he_encode rec) as [data|e] eqn:He end; simpl; [|done].
  destruct (he_db_fault _); [done|].
  destruct (LocalDB.UpdateInstanceHealth _ _ _ _) as [db|e] eqn:Hu; [|done]. intros [= <-].
  pose proof Hu as Hu'. apply update_or_norows_Ok in Hu' as (-> & i & Hi & Hl). change (hs_db (set_db ?d _)) with d.
  assert (LocalDB.GetInstance (hr_instance_id req) (hs_db s) = Ok i) as Hg.
  { apply GetInstance_wf; [done|]. apply live_id_true in Hl as [? ?]. done. }
  exists i, (he_now (S (hs_tick s))), data, rec. split_and!; [done|done|done|].
  by apply (GetInstance_upd_live (hr_instance_id req) (fun i => {| i with i_health := Some data; i_health_at := Some (he_now (S (hs_tick s))); i_updated_at := Some (he_now (S (hs_tick s))) |}) (hs_db s) i).
Qed.

(** How the guard judges a row that can be read. *)
Lemma check_instance_row since ports fresh id c inst t :
  ke_db_fault (k_tick c) = None -> LocalDB.GetInstance id (ke_db (S (k_tick c))) = Ok inst -> i_health_at inst = Some t -> since < t ->
  exists order, order ≡ₚ elements ports /\
  (check_instance since ports fresh id c).2 = Some (
    match ke_decode_health (i_health inst) with
    | Err e => Err (ErrWrap "decode health for instance" e)
    | Ok None => Err (ErrMsg "decode health for instance: metrics are missing")
    | Ok (Some m) =>
        match me_ebpf_error m with
        | Some _ => Err (ErrMsg "eBPF activity unavailable for instance")
        | None => match check_all order (check_port (me_ebpf_counters m)) with Ok _ => Ok fresh | Err e => Err e end
        end
    end).
Proof.
  intros Hf Hg Ht Hlt. exists (ke_ports (S (S (k_tick c))) ports). split; [apply ke_ports_perm|].
  unfold check_instance, w_bind, w_wrap, k_query, mbind, M_bind. simpl. rewrite Hf. simpl. rewrite Hg. simpl. rewrite Ht.
  rewrite bool_decide_eq_false_2 by lia. destruct (ke_decode_health (i_health inst)) as [[m|]|e]; simpl; [|done|done].
  destruct (me_ebpf_error m); simpl; [done|]. destruct (check_all _ _); done.
Qed.

Lemma check_all_zero counters (ports : gset Z) order :
  order ≡ₚ elements ports -> (forall p, p ∈ ports -> counters !! p = Some 0) -> check_all order (check_port counters) = Ok tt.
Proof.
  intros Hp Hz. apply check_all_ok. rewrite Hp, Forall_forall. intros p Hin%elem_of_elements. unfold check_port. by rewrite Hz.
Qed.

Lemma check_all_busy counters (ports : gset Z) order p k :
  order ≡ₚ elements ports -> (forall p, p ∈ ports -> is_Some (counters !! p)) -> p ∈ ports -> counters !! p = Some k -> 0 < k ->
  check_all order (check_port counters) = Err ErrBusy.
Proof.
  intros Hp Hall Hin Hk Hpos. assert (p ∈ order) as Ho by (by rewrite Hp, elem_of_elements).
  assert (Forall (fun p => is_Some (counters !! p)) order) as Hf.
  { rewrite Hp, Forall_forall. intros q Hq%elem_of_elements. auto. }
  clear Hp Hin Hall. induction Hf as [|q order [n Hn] _ IH]; [set_solver|]. simpl. unfold check_port at 1. rewrite Hn.
  case_bool_decide; [done|]. apply IH. apply elem_of_cons in Ho as [->|]; [|done]. rewrite Hk in Hn. injection Hn as ->. lia.
Qed.

(** The guard of a sleep sees what the agent reported.  Once a report is stored, a
    check that reads the row after the withdrawal lets the instance pass if the report
    counts no connection at any of the ports, answers that the tenant is busy if the
    report has a counter for every port and one of them is positive, and fails if the
    report has no metrics or an eBPF error. *)
Theorem report_reaches_guard req s s' since ports fresh c :
  record_roundtrip -> db_wf (hs_db s) -> storeHealthRecord req s = (s', Ok tt) -> since < he_now (S (hs_tick s)) ->
  ke_db_fault (k_tick c) = None -> ke_db (S (k_tick c)) = hs_db s' ->
  let answer := (check_instance since ports fresh (hr_instance_id req) c).2 in
  match hr_metrics req with
  | None => exists e, answer = Some (Err e)
  | Some m =>
      (me_ebpf_error m ≠ None -> exists e, answer = Some (Err e)) /\
      (me_ebpf_error m = None -> (forall p, p ∈ ports -> me_ebpf_counters m !! p = Some 0) -> answer = Some (Ok fresh)) /\
      (me_ebpf_error m = None -> (forall p, p ∈ ports -> is_Some (me_ebpf_counters m !! p)) ->
       (exists p k, p ∈ ports /\ me_ebpf_counters m !! p = Some k /\ 0 < k) -> answer = Some (Err ErrBusy))
  end.
Proof.
  intros Hrt Hwf Hst Hlt Hf Hdb. cbv zeta.
  apply storeHealthRecord_run in Hst as (inst & t & data & r & He & Hm & -> & Hg); [|done]. rewrite <-Hdb in Hg.
  destruct (check_instance_row since ports fresh (hr_instance_id req) c _ _ Hf Hg eq_refl Hlt) as (order & Hp & ->). simpl.
  rewrite (Hrt r data He), Hm. destruct (hr_metrics req) as [m|]; [|by eexists]. split_and!.
  - intros Hne. destruct (me_ebpf_error m); [by eexists|done].
  - intros -> Hz. by rewrite (check_all_zero _ _ _ Hp Hz).
  - intros -> Hall (p & k & Hin & Hk & Hpos). by rewrite (check_all_busy _ _ _ _ _ Hp Hall Hin Hk Hpos).
Qed.
End Activity.

(** ** Keys *)

Section Keys.
Context {HE : HealthEnv}.
Hypothesis no_fault : forall n, he_db_fault n = None.

Definition has_pk (db : DB) (id name : string) : Prop := exists r, r ∈ public_keys db /\ pk_instance_id r = id /\ pk_filename r = name.

Lemma GetPublicKeyByFilename_None id name db : LocalDB.GetPublicKeyByFilename id name db = None <-> ~ has_pk db id name.
Proof.
  unfold LocalDB.GetPublicKeyByFilename. rewrite head_None. set (l := sel _ _).
  assert (order_by_desc pk_submitted_at l = [] <-> l = []) as ->.
  { split; intros E; [|by rewrite E]. destruct l as [|r l0]; [done|].
    assert (r ∈ order_by_desc pk_submitted_at (r :: l0)) as Hin by (apply elem_of_order_by_desc; by left). rewrite E in Hin. set_solver. }
  split.
  - intros E (r & Hr & Hi & Hn). assert (r ∈ l) as Hin; [|rewrite E in Hin; set_solver].
    apply elem_of_sel. split; [|done]. by rewrite Hi, Hn, !bool_decide_eq_true_2.
  - intros Hno. destruct l as [|r l0] eqn:E; [done|]. exfalso. apply Hno.
    assert (r ∈ l) as Hin by (rewrite E; set_solver). apply elem_of_sel in Hin as [Hp Hr].
    apply andb_true_iff in Hp as [?%bool_decide_eq_true ?%bool_decide_eq_true]. by exists r.
Qed.

Lemma store_key_row_pk now id key db id' name :
  has_pk db id' name \/ (id' = id /\ name = pks_filename key) -> has_pk (LocalDB.store_key_row now id key db) id' name.
Proof.
  unfold has_pk, LocalDB.store_key_row. simpl. intros [(r & Hr & Hi & Hn)|[-> ->]].
  - destruct (decide (pk_instance_id r = id /\ pk_filename r = pks_filename key)) as [[H1 H2]|Hne].
    + eexists. split; [apply elem_of_app; right; by left|]. simpl. split; congruence.
    + exists r. split; [|done]. apply elem_of_app. left. apply elem_of_del. split; [|done].
      apply andb_false_iff. rewrite !bool_decide_eq_false. destruct (decide (pk_instance_id r = id)); [right|left]; naive_solver.
  - eexists. split; [apply elem_of_app; right; by left|]. done.
Qed.

Lemma store_keys_pk now id keys db name :
  has_pk db id name \/ name ∈ pks_filename <$> keys -> has_pk (foldl (fun d key => LocalDB.store_key_row now id key d) db keys) id name.
Proof.
  revert db. induction keys as [|k keys IH]; intros db Hpk; simpl; [destruct Hpk as [?|?]; [done|set_solver]|].
  apply IH. destruct Hpk as [?|[->|?]%elem_of_cons]; [left|left|by right]; apply store_key_row_pk; auto.
Qed.

Lemma StorePublicKeys_pk now id keys db db' name :
  LocalDB.StorePublicKeys now id keys db = Ok db' -> has_pk db id name \/ name ∈ pks_filename <$> keys -> has_pk db' id name.
Proof.
  unfold LocalDB.StorePublicKeys. destruct keys as [|k keys]; [intros [= ->] [?|?]; [done|set_solver]|].
  destruct (_ && _); [done|]. intros [= <-]. apply (store_keys_pk now id (k :: keys)).
Qed.

(** The keys a query does not find. *)
Lemma missing_keys_run id keys s :
  exists s', missing_keys id keys s = (s', filter (fun k => LocalDB.GetPublicKeyByFilename id k (hs_db s) = None) keys) /\
    hs_db s' = hs_db s /\ hs_keys s' = hs_keys s.
Proof.
  revert s. induction keys as [|k keys IH]; intros s; simpl; [by exists s|].
  unfold h_query, mbind, M_bind. simpl. rewrite no_fault. destruct (IH {| s with hs_tick := S (hs_tick s) |}) as (s1 & Hr & Hd & Hk).
  rewrite Hr. exists s1. rewrite filter_cons. change (hs_db {| s with hs_tick := S (hs_tick s) |}) with (hs_db s) in *. split; [|done].
  rewrite M_ret_eq. f_equal. destruct (LocalDB.GetPublicKeyByFilename id k (hs_db s)) as [x|]; by case_decide.
Qed.

(** The template of an instance, as the service finds it. *)
Definition template_of (s : HealthService) (id : string) (template : TemplateConfig) : Prop :=
  exists inst cfg group, LocalDB.GetInstance id (hs_db s) = Ok inst /\
    GetConfigAndGroup (i_tenant inst) (i_group inst) (hs_loader s) = Ok (cfg, group) /\ c_templates cfg !! gc_template group = Some template.

(** The names of the keys the agent is to generate. *)
Definition agent_key (template : TemplateConfig) (name : string) : Prop :=
  exists file f, tc_files template !! file = Some f /\ fc_kind f = "certificate" /\
    exists n, fc_key f = Some ("agent", n) /\ name = trim_pub n.

Lemma elem_of_analyze RO site template name :
  name ∈ analyzeRequiredKeys (@range_over RO _ site (tc_files template)) <-> agent_key template name.
Proof.
  unfold analyzeRequiredKeys, agent_key. rewrite list_elem_of_omap. split.
  - intros ([file f] & Hin%elem_of_range & Hf). exists file, f. case_bool_decide; [|done].
    destruct (fc_key f) as [[source n]|]; [|done]. case_bool_decide; [|done]. subst. injection Hf as <-. eauto 6.
  - intros (file & f & Hin & Hk & n & Hkey & ->). exists (file, f). split; [by apply elem_of_range|].
    rewrite bool_decide_eq_true_2 by done. rewrite Hkey. by rewrite bool_decide_eq_true_2.
Qed.

Lemma required_keys_run id s template :
  template_of s id template ->
  exists s' keys, getRequiredKeysForInstance id s = (s', Ok keys) /\ (forall name, name ∈ keys <-> agent_key template name) /\
    hs_db s' = hs_db s /\ hs_keys s' = hs_keys s.
Proof.
  intros (inst & cfg & group & Hg & Hc & Ht). unfold getRequiredKeysForInstance, h_query, mbind, M_bind. simpl. rewrite no_fault.
  change (hs_db {| s with hs_tick := S (hs_tick s) |}) with (hs_db s). rewrite Hg. simpl. rewrite Hc, Ht. simpl.
  eexists _, _. split; [done|]. split; [|done]. intros name. apply elem_of_analyze.
Qed.

(** Requests queued for an instance by the check. *)
Lemma checkAndRequestMissingKeys_run id s template :
  template_of s id template ->
  exists s' missing, checkAndRequestMissingKeys id s = (s', Ok tt) /\
    (forall name, name ∈ missing <-> agent_key template name /\ ~ has_pk (hs_db s) id name) /\
    (missing = [] -> hs_keys s' = hs_keys s) /\
    (missing ≠ [] -> exists now, Keys.queued id (hs_keys s') = Keys.queued id (hs_keys s) ++ [Keys.mkKeyRequest missing now]).
Proof.
  intros Ht. destruct (required_keys_run id s template Ht) as (s1 & keys & Hr & Hkeys & Hd & Hk).
  destruct (missing_keys_run id keys s1) as (s2 & Hm & Hd2 & Hk2). rewrite Hd in Hm. set (missing := filter _ keys) in Hm.
  assert (forall name, name ∈ missing <-> agent_key template name /\ ~ has_pk (hs_db s) id name) as Hmiss.
  { intros name. unfold missing. rewrite list_elem_of_filter, Hkeys, GetPublicKeyByFilename_None. tauto. }
  unfold checkAndRequestMissingKeys, mbind, M_bind. rewrite Hr. destruct keys as [|k keys].
  { exists s1, []. split_and!; [done|exact Hmiss|by rewrite Hk|done]. }
  rewrite Hm. case_bool_decide as He.
  { exists s2, missing. split_and!; [done|done|by rewrite Hk2, Hk|done]. }
  simpl. eexists _, missing. split_and!; [done|done|done|]. intros _. exists (he_now (hs_tick s2)). simpl. rewrite Hk2, Hk.
  unfold Keys.queueKeyRequest. destruct (Keys.pendingKeyRequestsNotify (hs_keys s) !! id); simpl; unfold Keys.queued at 1; simpl;
    by rewrite lookup_insert_eq.
Qed.

Lemma store_keys_instances now id keys db : instances (foldl (fun d key => LocalDB.store_key_row now id key d) db keys) = instances db.
Proof. revert db. induction keys as [|k keys IH]; intros db; simpl; [done|]. by rewrite IH. Qed.

Lemma StorePublicKeys_instances now id keys db db' : LocalDB.StorePublicKeys now id keys db = Ok db' -> instances db' = instances db.
Proof.
  unfold LocalDB.StorePublicKeys. destruct keys as [|k keys]; [by intros [= ->]|].
  destruct (_ && _); [done|]. intros [= <-]. apply (store_keys_instances now id (k :: keys)).
Qed.

Lemma convertPublicKeys_names keys :
  Forall (fun k => is_ok (he_base64 k.2) = true) keys -> pks_filename <$> convertPublicKeys keys = keys.*1.
Proof.
  induction 1 as [|[n p] keys Hk _ IH]; [done|]. unfold convertPublicKeys in *. rewrite fmap_cons, <-IH. simpl in *.
  by destruct (he_base64 p).
Qed.

(** Keys are requested until they are submitted.  When the database answers, the
    check after a report queues one request for exactly the keys the instance's template
    wants from the agent and the server does not have, and none if it has them all; and
    once the agent has submitted keys under all those names the check queues nothing. *)
Theorem keys_requested_until_submitted id s template :
  template_of s id template ->
  (exists s' missing, checkAndRequestMissingKeys id s = (s', Ok tt) /\
     (forall name, name ∈ missing <-> agent_key template name /\ ~ has_pk (hs_db s) id name) /\
     (missing = [] -> hs_keys s' = hs_keys s) /\
     (missing ≠ [] -> exists now, Keys.queued id (hs_keys s') = Keys.queued id (hs_keys s) ++ [Keys.mkKeyRequest missing now])) /\
  (forall keys s1, SubmitPublicKeys id id keys s = (s1, Ok tt) -> Forall (fun k => is_ok (he_base64 k.2) = true) keys ->
     (forall name, agent_key template name -> name ∈ keys.*1) ->
     exists s2, checkAndRequestMissingKeys id s1 = (s2, Ok tt) /\ hs_keys s2 = hs_keys s).
Proof.
  intros Ht. split; [by apply checkAndRequestMissingKeys_run|]. intros keys s1 Hsub Hb64 Hall.
  unfold SubmitPublicKeys in Hsub. rewrite bool_decide_eq_true_2 in Hsub by done. unfold h_exec, mbind, M_bind in Hsub. simpl in Hsub.
  rewrite no_fault in Hsub. change (hs_db {| s with hs_tick := S (S (hs_tick s)) |}) with (hs_db s) in Hsub.
  destruct (LocalDB.StorePublicKeys _ _ _ _) as [db|e] eqn:Hst; [|done]. injection Hsub as <-.
  match goal with |- context [set_db db ?x] => set (s1 := set_db db x) end.
  assert (template_of s1 id template) as Ht1.
  { destruct Ht as (inst & cfg & group & Hg & Hc & Htc). exists inst, cfg, group. split_and!; [|done|done].
    unfold s1. change (hs_db (set_db db _)) with db. unfold LocalDB.GetInstance in *. by rewrite (StorePublicKeys_instances _ _ _ _ _ Hst). }
  destruct (checkAndRequestMissingKeys_run id s1 template Ht1) as (s2 & missing & Hr & Hm & Hnil & _).
  exists s2. split; [done|]. apply Hnil. destruct missing as [|k l]; [done|]. exfalso.
  destruct (proj1 (Hm k)) as [Ha Hno]; [by left|]. apply Hno. eapply StorePublicKeys_pk; [exact Hst|right].
  rewrite convertPublicKeys_names by done. by apply Hall.
Qed.
End Keys.
