(* ===== verification/CutoverWitnesses.v ===== *)
(** * Concrete cutovers

    The deployment of [Witnesses.v]: one instance behind one load balancer.  The wake
    proxy is healthy, the instance's target is still registered in the first
    observations and gone later, and its report counts no connection. *)

From S2P Require Import Prelude Provider Json LocalDB GoText Config ProxyConfig Samples World Witnesses.
From S2P Require Import Document ContentTags TenantState TenantStateFacts TenantStateRuns.
Import TenantStateWitnesses.
From S2P Require Import TunnelControl Cutover CutoverFacts CutoverSafety TenantCutover.

Definition demo_cutover_row : Instance :=
  {| old with i_health_at := Some 2000; i_health := Some "report" |}.

(** [cfg] is the configuration and [db] the cache throughout; the context ends at
    observation [ends]. *)
Definition demo_cutover_env (cfg : Config) (db : DB) (ends : nat) : CutoverEnv := {|
  ke_config := fun _ => cfg;
  ke_db := fun _ => db;
  ke_db_fault := fun _ => None;
  ke_now := fun _ => 3000;
  ke_lb_state := fun n req => Ok (if lr_wake_proxy req then LBTargetHealthy
                                  else if bool_decide (n < 8)%nat then LBTargetRegistered else LBTargetDeregistered);
  ke_lb_register := fun _ _ => Ok tt;
  ke_lb_deregister := fun _ _ => Ok tt;
  ke_tunnel := fun _ => true;
  ke_set_desired := fun _ _ _ => Ok 1;
  ke_wait := fun _ _ _ => Ok TUNNEL_STATUS_STATE_READY;
  ke_dial := fun _ _ => true;
  ke_decode_health := fun _ => Ok (Some (mkMetrics None {[ 8443 := 0 ]}));
  ke_select := fun n => if bool_decide (ends <= n)%nat then Some ErrCanceled else None;
  ke_order := fun _ => demo_order;
  ke_ports := fun _ s => elements s;
  ke_ports_perm := fun _ _ => reflexivity _;
|}.

Definition demo_cutover_db : DB := LocalDB.with_instances [demo_cutover_row] (empty_db true).
Definition demo_opts : CutoverOptions := mkCutoverOptions true "i-server" 200000000 (2 * minute).
Definition demo_ke : CutoverEnv := demo_cutover_env demo_config demo_cutover_db 1000.
Definition start_cutover : Cutover := mkCutover 0 [].

Lemma demo_serves n name : @serves (@ke_config demo_ke n) "acme" name -> name = "lb".
Proof.
  intros (g & group & Hg & _ & Hin). change (({["web" := demo_group]} : gmap string GroupConfig) !! g = Some group) in Hg.
  apply lookup_singleton_Some in Hg as [_ <-]. change (name ∈ ["lb"]) in Hin. by apply list_elem_of_singleton in Hin.
Qed.

Lemma demo_plain n : plain_names (@ke_config demo_ke n) "acme".
Proof. intros name ->%demo_serves. reflexivity. Qed.

(** ** Withdrawal *)

Definition begun : Cutover := (@Cutover.BeginTargetWithdrawal demo_ke 9 "acme" start_cutover).1.

Lemma withdrawal_witness :
  length (k_trace begun) = 3%nat /\
  exists targets c1 c2 c3, @targets_of demo_ke demo_config "acme" start_cutover c1 targets /\ later c1 c2 /\
    Forall (fun req => saw c2 c3 (KDeregister req (Ok tt)) /\ refused_target req c3 begun) targets.
Proof.
  split; [vm_compute; reflexivity|].
  destruct (@withdrawal_confirmed demo_ke 9 "acme" start_cutover begun (demo_plain 0)) as [H _].
  destruct H as (targets & c1 & c2 & c3 & Ht & _ & L & _ & _ & _ & Hall); [vm_compute; reflexivity|].
  exists targets, c1, c2, c3. exact (conj Ht (conj L Hall)).
Defined.

(** ** Activity *)

Definition checked : Cutover := (@Cutover.CheckActivity demo_ke 1 "acme" 1000 start_cutover).1.

Lemma activity_witness : exists c1, later start_cutover c1 /\ later c1 checked.
Proof.
  destruct (@activity_fresh demo_ke 1 "acme" 1000 start_cutover checked) as (c1 & L1 & L2 & _); [vm_compute; reflexivity|].
  exists c1. exact (conj L1 L2).
Defined.

(** ** Termination: the instance's target never becomes healthy *)

Lemma ends_witness : (@run_call (demo_cutover_env demo_config demo_cutover_db 30) demo_opts 31 "acme" TenantState.WaitTargetsReady start_cutover).2 ≠ None.
Proof.
  apply (@cutover_ends (demo_cutover_env demo_config demo_cutover_db 30) demo_opts 30 31).
  - intros n Hn. change ((if bool_decide (30 <= n)%nat then Some ErrCanceled else None) ≠ None). by rewrite bool_decide_eq_true_2.
  - simpl. lia.
  - lia.
Defined.

(** ** Sizes *)

(** [web] has no size in the static configuration; an override gives it three. *)
Definition unsized_group : GroupConfig := {| demo_group with gc_size := None |}.
Definition unsized_config : Config := {| demo_config with c_groups := {[ "acme" := {[ "web" := unsized_group ]} ]} |}.
Definition override : DynGroups := {[ "acme" := {[ "web" := {| zero_group with gc_size := Some 3 |} ]} ]}.
Definition unsized_ke : CutoverEnv := demo_cutover_env unsized_config demo_cutover_db 1000.
Definition empty_ke : CutoverEnv := demo_cutover_env demo_config (empty_db true) 1000.

Lemma overrides_witness :
  (GetSize <$> tenant_groups unsized_config override "acme" !! "web") = Some 3 /\
  (exists c', @run_call unsized_ke demo_opts 1 "acme" TenantState.BeginTargetWithdrawal start_cutover = (c', Some (Ok tt)) /\ k_trace c' = []) /\
  (@run_call empty_ke demo_opts 5 "acme" TenantState.BeginTargetWithdrawal start_cutover).2 ≠ Some (Ok tt).
Proof.
  split_and!.
  - vm_compute. reflexivity.
  - destruct (@cutover_ignores_overrides unsized_ke demo_opts 0 "acme" start_cutover) as [H _].
    apply (H) with (since := 0); [|right; right; left].
    intros n g group Hg. change (({["web" := unsized_group]} : gmap string GroupConfig) !! g = Some group) in Hg.
    apply lookup_singleton_Some in Hg as [_ <-]. reflexivity.
  - destruct (@cutover_ignores_overrides empty_ke demo_opts 5 "acme" start_cutover) as [_ H]. apply H.
    + exact (demo_plain 0).
    + intros n. exists "lb". split; [|vm_compute; reflexivity]. exists "web", demo_group.
      split_and!; [vm_compute; reflexivity|reflexivity|by left].
    + intros n g. reflexivity.
Defined.

(** ** The tenant manager over this cutover *)

Definition composed_env : TenantEnv := {|
  te_doc := content_env (tree_map tree_tenant : stateDocument -> Tree);
  te_now := fun n => 1000;
  te_ctx_err := fun _ => None;
  te_term_done := fun _ => false;
  te_has_cutover := true;
  te_call := @call_of demo_ke demo_opts 9 (fun n => n);
  te_callback := fun _ => Ok tt;
  te_reinstall := fun _ => false;
  te_timer_retry := 1;
|}.

Lemma composed_impl : CutoverImpl composed_env demo_ke demo_opts.
Proof. by apply (call_of_impl composed_env demo_ke demo_opts 9 (fun n => n)). Qed.

Lemma composed_laws : @DocLaws stateDocument (@te_doc composed_env).
Proof. exact demo_tenant_laws. Qed.

Definition composed_sleep : Manager := (@run_op composed_env "acme" (OpSleep None true false) (demo_manager other_doc)).1.


From S2P Require Import LocalDBFacts Loader GroupApi GroupWitnesses OperatorApi AgentStreams HealthReport HealthReportFacts.

(** ** A concrete health report

    The instance of [CutoverWitnesses.v], whose template wants the key [svc] from the
    agent, reports two connections on its port. *)
Module HealthWitnesses.
Definition keyed_template : TemplateConfig :=
  mkTemplateConfig "knc" "amd64" "t3.small" "pool" ∅ {[ "svc.crt" := mkFileConfig "certificate" "" None (Some ("agent", "svc.pub")) ]} ∅ None 1.
Definition keyed_config : Config := {| demo_config with c_templates := {[ "tpl" := keyed_template ]} |}.

Definition busy_metrics : Metrics := mkMetrics None {[ 8443 := 2 ]}.

(** A codec for two kinds of records: with these metrics, and with none. *)
Definition demo_health_env : HealthEnv := {|
  he_loader := @ge_loader (shard_env keyed_config 0);
  he_now := fun _ => 5000;
  he_db_fault := fun _ => None;
  he_encode := fun r => if bool_decide (hc_metrics r = Some busy_metrics) then Ok "metrics"
                      else if bool_decide (hc_metrics r = None) then Ok "null" else Err (ErrExternal 1);
  he_base64 := fun s => Ok s;
  he_pem := fun s => s;
  he_order := fun _ => demo_order;
  he_on_health_report := true;
  he_on_reconcile := true;
  he_on_disconnect := true;
  he_on_termination := true;
|}.

Definition demo_report : HealthReport := mkHealthReport "knc-old" 4999 7 60 ∅ (Some busy_metrics) "old-hash" None.

Definition demo_health : HealthService :=
  mkHealthService 0 (mkLoader no_groups None None demo_cutover_db (Some keyed_config) None (Some ∅)) ∅ Files.initial Keys.initial_service [].

(** A report is processed: activity is recorded and three goroutines start. *)
Lemma report_processed :
  (@processHealthReport demo_health_env demo_report demo_health).2 = Ok tt /\
  observation (hs_activity (@processHealthReport demo_health_env demo_report demo_health).1) "acme" "lb:9443" "knc-old" = Some (mkObservation 5000 true) /\
  length (hs_tasks (@processHealthReport demo_health_env demo_report demo_health).1) = 3%nat.
Proof. vm_compute. done. Qed.

Definition stored : HealthService := (@storeHealthRecord demo_health_env demo_report demo_health).1.

Definition report_ke : CutoverEnv :=
  let base := demo_cutover_env demo_config (hs_db stored) 1000 in
  mkCutoverEnv (@ke_config base) (@ke_db base) (@ke_db_fault base) (@ke_now base) (@ke_lb_state base) (@ke_lb_register base)
    (@ke_lb_deregister base) (@ke_tunnel base) (@ke_set_desired base) (@ke_wait base) (@ke_dial base)
    (fun data => Ok (if bool_decide (data = Some "metrics") then Some busy_metrics else None))
    (@ke_select base) (@ke_order base) (@ke_ports base) (@ke_ports_perm base).

Lemma report_codec : @record_roundtrip demo_health_env report_ke.
Proof.
  intros r data. simpl. case_bool_decide as H1; [intros [= <-]; by rewrite H1|].
  case_bool_decide as H2; [|done]. intros [= <-]. by rewrite H2.
Qed.

Lemma demo_health_wf : db_wf (hs_db demo_health).
Proof. eapply (db_wf_create demo_cutover_row (empty_db true)); [apply db_wf_empty|reflexivity]. Qed.

Lemma guard_witness : (@check_instance report_ke 1000 {[ 8443 ]} true "knc-old" start_cutover).2 = Some (Err ErrBusy).
Proof.
  pose proof (@report_reaches_guard demo_health_env report_ke demo_report demo_health stored 1000 {[ 8443 ]} true start_cutover
    report_codec demo_health_wf) as H.
  destruct H as (_ & _ & H).
  - vm_compute. reflexivity.
  - vm_compute. reflexivity.
  - reflexivity.
  - reflexivity.
  - apply H; [reflexivity| |].
    + intros p Hp. apply elem_of_singleton in Hp as ->. vm_compute. by eexists.
    + exists 8443, 2. split; [set_solver|]. split; [vm_compute; reflexivity|lia].
Defined.

Lemma demo_template : template_of demo_health "knc-old" keyed_template.
Proof. exists demo_cutover_row, keyed_config, demo_group. split_and!; vm_compute; reflexivity. Qed.

(** The agent submits the key [svc] it was asked for. *)
Definition submitted : HealthService := (@SubmitPublicKeys demo_health_env "knc-old" "knc-old" [("svc", "key")] demo_health).1.

Lemma demo_agent_key name : agent_key keyed_template name -> name = "svc".
Proof.
  intros (file & f & Hf & _ & n & Hk & ->). change (({[ "svc.crt" := mkFileConfig "certificate" "" None (Some ("agent", "svc.pub")) ]} : gmap string FileConfig) !! file = Some f) in Hf.
  apply lookup_singleton_Some in Hf as [_ <-]. simpl in Hk. injection Hk as <-. reflexivity.
Qed.

Lemma keys_witness :
  length (Keys.queued "knc-old" (hs_keys (@checkAndRequestMissingKeys demo_health_env "knc-old" demo_health).1)) = 1%nat /\
  exists s2, @checkAndRequestMissingKeys demo_health_env "knc-old" submitted = (s2, Ok tt) /\ hs_keys s2 = Keys.initial_service.
Proof.
  split; [vm_compute; reflexivity|].
  destruct (@keys_requested_until_submitted demo_health_env (fun _ => eq_refl) "knc-old" demo_health keyed_template demo_template) as [_ H].
  apply (H [("svc", "key")] submitted).
  - vm_compute. reflexivity.
  - constructor; [reflexivity|constructor].
  - intros name Hn. apply demo_agent_key in Hn as ->. left.
Defined.
End HealthWitnesses.
