(* ===== verification/AgentWitnesses.v ===== *)
(** * Concrete runs of the agent and of certificate renewal *)

From S2P Require Import Prelude GoText Process Disk DiskFacts AgentStreams AgentStreamsFacts.
From S2P Require Import AgentFiles AgentFilesFacts AgentPatches Renewal.
From Stdlib Require Import Ascii.

#[local] Open Scope Z_scope.

Import Disk Receiver AgentStreamsWitnesses RenewalFacts.
Import Files (patch_messages).

(** Keys and certificates are told apart by their first letter. *)
Definition toy_pem (data : string) : option Pem :=
  match data with
  | String "U" k => Some (PemPublic k)
  | String "V" k => Some (PemPrivate k)
  | String "C" k => Some (PemCertificate k)
  | _ => None
  end.

(** A disk whose operations have the given outcomes, and a server with the given answer. *)
Definition toy_env (out : nat -> Outcome) (register : nat -> string -> string -> res string) : DiskEnv := {|
  dk_out := out;
  dk_part := fun _ _ => "";
  dk_pem := toy_pem;
  dk_public := String "U";
  dk_private := String "V";
  dk_keypair := fun _ => Ok ("pub", "key");
  dk_jwt := fun _ _ => Ok (Some "v0");
  dk_register := register;
  dk_json := fun _ => true;
  dk_suffix := Itoa ∘ Z.of_nat;
  dk_now := Z.of_nat;
  dk_order := fun _ l => rev l;
|}.

#[local] Instance toy_order out reg : OrderLaws (toy_env out reg).
Proof. split. intros n l. symmetry. apply Permutation_rev. Qed.

Definition issues (n : nat) (nonce pub : string) : res string := Ok "Ccert".
Definition refuses (n : nat) (nonce pub : string) : res string := Err (ErrMsg "nonce already used").

Definition smooth : DiskEnv := toy_env (fun _ => Done) issues.
Definition killed_at (k : nat) : DiskEnv := toy_env (fun n => if bool_decide (n = k) then Died false else Done) issues.

Definition demo_cfg : ReceiverConfig := mkReceiverConfig "/recv" "/id".
Definition old_disk : Disk := mkDisk 0 {[("/recv", "kubelet.env") := "A=0"; ("/id", "config.hash") := "v0"]}.

Lemma demo_acceptable : acceptable demo_cfg demo_files "v1".
Proof. apply (bool_decide_unpack _). by vm_compute. Qed.

Lemma demo_valid out reg : @valid_payload (toy_env out reg) demo_files.
Proof. apply (bool_decide_unpack _). by vm_compute. Qed.

(** Killed at the rename of the second file: the first is in place, the hash is old. *)
Definition killed : Disk * option (res unit) := @ReceiveFiles (killed_at 12) demo_cfg demo_files "v1" old_disk.

Lemma patch_order_witness :
  d_files killed.1 !! ("/recv", "motd.json") = Some "{}" /\ d_files killed.1 !! ("/recv", "kubelet.env") = Some "A=0" /\
  exists acts k, patch_run demo_cfg demo_files "v1" acts /\ (k <= length acts)%nat /\
    visible (d_files killed.1) = run (firstn k acts) (visible (d_files old_disk)) /\ (killed.2 = Some (Ok tt) -> k = length acts).
Proof.
  split; [by vm_compute |]. split; [by vm_compute |].
  exact (proj2 (proj2 (@patch_applied_in_order (killed_at 12) _ demo_cfg demo_files "v1" old_disk)) demo_acceptable (demo_valid _ _)).
Defined.

Lemma hash_after_files_witness :
  let fs' := d_files (@ReceiveFiles smooth demo_cfg demo_files "v1" old_disk).1 in
  fs' !! ("/id", "config.hash") = Some "v1" /\ forall name c, demo_files !! name = Some c -> fs' !! ("/recv", name) = Some c.
Proof.
  apply (@hash_after_files smooth _ demo_cfg demo_files "v1" old_disk ltac:(done)).
  left. vm_compute. discriminate.
Defined.

Lemma demo_deliverable : @deliverable smooth demo_cfg demo_patch.
Proof.
  split; [split; apply (bool_decide_unpack _); by vm_compute |].
  split; apply (bool_decide_unpack _); by vm_compute.
Qed.

Lemma received_witness :
  @deliverable smooth demo_cfg demo_patch /\
  exists ps part,
    patch_messages demo_patch = concat (patch_messages <$> ps) ++ (Files.TransferFile <$> part) /\
    (Forall (@deliverable smooth demo_cfg) ps -> tidy part ->
     exists acts k, patches_run demo_cfg ps acts /\
       visible (d_files (@StreamFiles smooth demo_cfg (to_message <$> patch_messages demo_patch) (Ok tt) ∅ old_disk).1) =
       run (firstn k acts) (visible (d_files old_disk))).
Proof.
  split; [apply demo_deliverable |].
  apply (@received_patches_applied smooth _ demo_cfg demo_served 0 (Files.mkStream "i-1" Files.Waiting (patch_messages demo_patch))
    (patch_messages demo_patch) (Ok tt) old_disk); [apply demo_served_reachable | by vm_compute | done].
Defined.


(** ** The identity *)

Definition installed : Disk := mkDisk 0 {[("/id", "nonce.jwt") := "n1"; ("/id", "ca.crt") := "Cca"]}.

Lemma nonce_witness :
  d_files (@start_agent smooth "/id" installed).1 !! ("/id", "nonce.jwt") = None /\
  @certified smooth "/id" "n1" (d_files (@start_agent smooth "/id" installed).1).
Proof.
  destruct (@nonce_kept_until_certified smooth "/id" "n1" "n1" installed eq_refl eq_refl ltac:(done)) as [_ H].
  apply (H (mkIdentity (Some "n1") (Some "ca") (Some "pub") (Some "key") (Some "cert"))). by vm_compute.
Defined.

Lemma refused_nonce_witness : forall ident, (@start_agent (toy_env (fun _ => Done) refuses) "/id" installed).2 <> Some (Ok ident).
Proof.
  exact (proj1 (@refused_nonce_stuck (toy_env (fun _ => Done) refuses) "/id" "n1" "n1" installed eq_refl eq_refl ltac:(done) (fun _ _ => eq_refl))).
Defined.

#[local] Instance smooth_laws : PemLaws smooth.
Proof. by split. Qed.

Lemma installed_boots : @first_boot smooth "/id" "n1" "n1" (Some "v0") (d_files installed).
Proof. split_and!; try by vm_compute. exists "Cca", "ca". by vm_compute. Qed.

(** The next start, in an environment in which everything succeeds, fails. *)
Lemma stuck_witness :
  exists k, (@start_agent (killed_before k smooth) "/id" installed).2 = None /\
    (forall ident, (@start_agent smooth "/id" (@start_agent (killed_before k smooth) "/id" installed).1).2 <> Some (Ok ident)).
Proof.
  destruct (interrupted_start_stuck smooth smooth_laws "/id" "n1" "n1" "pub" "key" (Some "v0") installed ltac:(done) installed_boots (fun _ => eq_refl))
    as (k & H & _ & _ & Hr).
  exists k. split; [exact H |]. intros ident. apply (Hr [smooth]). apply list_elem_of_here.
Defined.

(** ** Renewal *)

(** A clock that advances by a minute at every reading, and a store that fails at first. *)
#[local] Instance renewing : Renewal.RenewEnv := {|
  Renewal.rn_now := fun n => Z.of_nat n * Renewal.minute;
  Renewal.rn_done := fun _ => false;
  Renewal.rn_pem := Ok "pub";
  Renewal.rn_connect := fun _ => Ok "a";
  Renewal.rn_renew := fun _ _ _ => Ok "cert";
  Renewal.rn_store := fun n _ => if (n <? 20)%nat then Err (ErrMsg "conflict") else Ok tt;
|}.

#[local] Instance renewing_laws : Renewal.RenewLaws renewing.
Proof. split. intros n m H. cbn. unfold Renewal.minute, Renewal.second. lia. Qed.

Definition renewal_end : option (Renewal.St * Renewal.Ending) := Renewal.Start true 50 (20 * Renewal.minute) (Renewal.mkSt 0 []).

Lemma renewal_paced_witness :
  exists s', renewal_end = Some (s', Renewal.Renewed "cert") /\
  ends_well (20 * Renewal.minute) s' (Renewal.Renewed "cert").
Proof.
  destruct renewal_end as [[s' e] |] eqn:E; [| by vm_compute in E].
  assert (e = Renewal.Renewed "cert") as -> by (vm_compute in E; by simplify_eq).
  exists s'. split; [done |].
  destruct (renewal_paced true 50 (20 * Renewal.minute) (Renewal.mkSt 0 []) s' (Renewal.Renewed "cert") E)
    as [[H _] | [[H _] | (_ & H & _)]]; [discriminate | discriminate | exact H].
Defined.

Lemma renewal_ends_witness : exists fuel, is_Some (Renewal.Start true fuel (20 * Renewal.minute) (Renewal.mkSt 0 [])).
Proof.
  apply renewal_ends. intros t. exists (Z.to_nat t). cbn. unfold Renewal.minute, Renewal.second. lia.
Defined.
